(* ===== verification/_CoqProject ===== *)
-Q . S2P
Prelude.v
MapSum.v
ExactInteger.v
Activity.v
RegistryValue.v
RegistrySelector.v
RegistryPricing.v
RegistryMapping.v
RegistryReconcile.v
RegistryOwners.v
RegistryKept.v
RegistryTheorems.v
BlockTypes.v
BlockControl.v
BlockSelection.v
BlockSystem.v
BlockLineage.v
BlockInvariant.v
BlockTheorems.v
BlockRouting.v
RouteIr.v
EvalMeasurement.v
TrajectoryTypes.v
ProgressGuard.v
TrajectoryReducer.v
GuardedRoute.v
AccessPolicy.v
UrlGuard.v
SseDecoder.v
RoutingRate.v
RoutingState.v
RoutingSystem.v
TenancyCapacity.v
TenancyState.v
TenancyAdmission.v
TenancyUnknown.v
TenancySystem.v
TenancyLedger.v
TenancyLease.v
TenancyRepair.v
TenancyPublish.v
TenancySettle.v
TenancyPrepare.v
TenancyInvariant.v
TenancyTheorems.v
TenancySteps.v
TenancyWitnesses.v
ModelHistory.v
AgentTypes.v
AgentGraph.v
AgentAllocation.v
AgentCollaboration.v
AgentSystem.v
AgentInvariant.v
AgentBounds.v
AgentCycles.v
SemanticInput.v
SemanticAssessment.v
SemanticRoute.v
PolicyLock.v
PolicyTable.v
PolicyTheorems.v
PolicyDispatch.v
MeteringUsage.v
MeteringPricing.v
MeteringStream.v
MeteringTariff.v
MeteringKnown.v
ContinuationPayload.v
ContinuationStore.v
ContinuationSystem.v
ContinuationProtocol.v
AgentWitnesses.v
PolicyWitnesses.v
RegistryWitnesses.v
CoreWitnesses.v
MeteringWitnesses.v
ContinuationWitnesses.v
RoutingWitnesses.v
Witnesses.v
