(* ===== verification/Prelude.v ===== *)
(** * BitRouter: a verification development of its routing core

    BitRouter is a local LLM router: it takes a request of an agent, decides which tier, model
    and credential serve it, sends it upstream and relays the answer. This development models
    the parts of that path that decide something, as shallow embeddings of the Rust code, and
    proves what makes them correct. Paths below are relative to the repository; [apps/] stands
    for [apps/bitrouter/src/].

    ** The parts and how they interact

    A request becomes a workflow state, whose projection is a canonical key ([RouteIr]). The
    progress guard evaluates a policy on the health of the episode so far and may escalate the
    candidate tier ([ProgressGuard]); the health is what the reducer derives from the ledger of
    events ([TrajectoryReducer], over the events of [TrajectoryTypes]). The writer turns the
    evaluation into a route event, and a guard event when the guard was newly activated, and
    reduces the extended history before it stores it ([GuardedRoute]). The event carries the
    measurement of the action distribution ([EvalMeasurement]). Access policies and the
    upstream URL validator bound what may be called at all ([AccessPolicy], [UrlGuard]). The
    scheduler admits an attempt under rate, circuit and memory limits and orders the candidates
    ([RoutingRate], [RoutingState], [RoutingSystem]), and the answer is decoded from server-sent
    events ([SseDecoder]).

    Before an execution starts, tenant admission grants it a lease: one slot of the tenant and of
    the instance, and room in the receipt accounting for the record of its outcome
    ([TenancyCapacity], [TenancyState], [TenancyAdmission]). Executions whose
    outcome is not known are obligations of a durable projection; a change to them is prepared
    before the transaction commits and published, or rolled back, after it ([TenancyUnknown]). The
    integers of tenancy documents are read exactly ([ExactInteger]).

    The route of a request may be on trial. An owner's policy blocks each run one experiment at a
    time, a challenger route against the baseline, over cohorts of sessions; a learner (outside the
    model) turns their feedback into plans, and the control enacts them: it reserves trials, adopts
    and withdraws experiments, starts the next one from the adopted baseline, and logs every
    publication ([BlockTypes], [BlockControl]). A new session is pinned to the experiments of the
    moment, and every request of it asks the block that matches for its route ([BlockSelection]).
    The time a session was active is measured apart ([Activity]).

    The models and prices that routing chooses among come from the registry. Providers declare
    feeds, whose mappings say which field of a fetched inventory goes to which field of a model
    ([RegistryMapping]); an observation of a feed is reconciled with the
    provider's document ([RegistryReconcile]): the feed writes the fields that it owns, what it
    stops to report is withdrawn after enough evidence, and everything else stays as it was
    ([RegistryOwners], [RegistryKept], [RegistryTheorems]). Prices and charges are exact rationals
    ([RegistryPricing]); a selector names a provider and its native model ([RegistrySelector]).

    An agent may itself run inside BitRouter. A session then holds a tree of agents, each with a turn
    that runs, a queue of tasks and a mailbox ([AgentTypes]). An agent, or the runtime for it, starts
    children, hands tasks to idle workers whose history may be kept ([AgentAllocation], by the pairing
    of [ModelHistory]), sends messages, waits, and interrupts ([AgentCollaboration]); the session
    answers the calls, starts queued tasks and delivers results ([AgentSystem]). What must not happen
    is that agents wait for each other in a circle, which a search over their dependencies excludes
    ([AgentGraph]), with one gap that the development exhibits ([AgentWitnesses]).

    Which tier serves a request is the business of a policy, a lock that has been validated
    ([PolicyLock]). A classifier model is asked what the request is about: it sees a bounded projection of
    the conversation ([SemanticInput]), and its answers are accepted or dropped one by one
    ([SemanticAssessment]). They make up a key ([SemanticRoute]) that the policy's table maps to a tier; an
    experiment may assign the task to another one, and a request with tools goes to a tier that is safe
    for them ([PolicyTable]). The progress guard may then move the request, a continuation may pin it to
    the model that it has, and the result is dispatched ([PolicyDispatch]).

    What an answer costs is accounted from the usage that the provider reports, which is checked against the
    object that it sent ([MeteringUsage]). A configured price has rates, with tiers by the size of the input, and
    is charged in binary64; a price of the registry is charged exactly ([MeteringPricing], over
    [RegistryPricing]). When a request is admitted, a hook freezes the tariffs of its whole chain of targets, and
    the settlement charges by the one of the target that served ([MeteringTariff]). A stream reports its usage more
    than once; an accumulator decides which report is settled, and estimates where there is none
    ([MeteringStream]).

    A client may continue from an answer of a provider by the id of its own request. What that id stands for, the
    provider's response and the target that gave it, is sealed into a row of a table that any number of processes
    share ([ContinuationPayload]). The row is provisional until the answer was delivered: the process marks the
    publication, inserts the row, waits for the acknowledgement, activates the row, and takes it back when a step
    fails, at once or later, by itself or by another process once its lease ran out ([ContinuationStore]). The
    protocol that the rows follow is stated apart from the code ([ContinuationSystem]), and the code refines it
    ([ContinuationProtocol]).

    ** Files

    - [Prelude]: [Result] and [?] as a monad ([ensure!], [ok_or], [for], [try_fold]), [u64]
      arithmetic (checked, saturating), strings as UTF-8 bytes with the methods that the code
      uses, [Ord] and the order of a [BTreeMap], sums and counts over lists, the tactics
      [res_inv] and [arith]. The classes [CanonicalJson] and [Sha256] stand for [serde_json] and
      [sha2].
    - [RouteIr]: [apps/gateway/routing/workflow/ir.rs]. [RouteProjection_key] and
      [RouteProjection_parse_key] are [RouteProjection::key] and [::parse_key].
    - [EvalMeasurement]: [apps/storage/evaluation.rs] ([validate_route_measurement],
      [route_decision_measurement]), with the types of [crates/bitrouter-ai/src/eval.rs].
    - [TrajectoryTypes]: [apps/trajectory/types.rs] ([validate_event], [KeyedDigest::parse], the
      semantic digests). The class [TrajectoryEnv] gathers the digest, JSON and RFC 3339
      functions of other crates.
    - [ProgressGuard]: [apps/trajectory/guard.rs] ([evaluate] and the validators of the persisted
      intent and activation).
    - [TrajectoryReducer]: [apps/trajectory/health.rs]. [Reducer] holds the local variables of
      [reduce_prefix], each [on_...] function is one arm of its [match], [reduce] is the whole.
    - [GuardedRoute]: [apps/trajectory/store.rs], [build_guarded_route_batch] and the reduction
      that [append_guarded_route_in_tx] makes before it writes.
    - [AccessPolicy]: [apps/policy/policy.rs], [EffectivePolicy::combine] and the checks.
    - [UrlGuard]: [apps/config/url_validator.rs]; [url::Url::parse] is the parameter [parse_url],
      the parser of IP addresses of the standard library is written out.
    - [SseDecoder]: [crates/bitrouter-sdk/src/stream.rs], the byte decoder [accept] and the relay
      [decode_relay]; the class [Payload] holds what it asks of [serde_json].
    - [RoutingRate], [RoutingState]: [apps/tenancy/routing/state.rs], first [Rate] alone, then the
      locked [State] with [admit_at], [sent_at], [finish_at], [drop], [reclaim] and [order_at]
      (names as in the code). The class [Allocation] holds the sizes and capacities that the
      allocator decides; [f64] is [SpecFloat] at binary64.
    - [RoutingSystem]: the operations of [RoutingState] as a transition system over all
      interleavings, its invariant, and the simulation of every rate by [RoutingRate].
    - [ExactInteger]: [crates/bitrouter-ai/src/tenancy/number.rs], with the literals of JSON and
      what they denote.
    - [TenancyCapacity]: the budgets and their validation
      ([apps/config/tenancy/capacity.rs]), the receipt accounting
      ([apps/tenancy/receipts/capacity.rs]).
    - [TenancyState], [TenancyAdmission], [TenancyUnknown]: the locked [State] with its methods,
      the operations of [Admission] run by [update], publications and repairs
      ([apps/tenancy/admission.rs], [admission/unknown.rs], [admission/repair.rs]). An [Arc] is an
      address; the closure given to [update] is a function on the [World] behind the mutex.
    - [TenancySystem]: any number of owners that call the controller in any order ([exec], one
      constructor of [call] per operation and per [Drop]), with the waiting calls of
      [acquire_until] and the durable obligations.
    - [MapSum], [TenancyLedger], [TenancyLease], [TenancyRepair], [TenancyPublish],
      [TenancySettle], [TenancyPrepare], [TenancyInvariant]: sums over maps, the invariant of the
      system and its preservation, a group of operations per file.
    - [TenancyTheorems], [TenancySteps]: what every reachable state satisfies, what a call does from
      one, and the queue.
    - [Activity]: [apps/core/activity.rs], the activity of a session over a log of calls, and the
      clock of the gate under all interleavings of the measurements that are dropped.
    - [BlockTypes]: the records of [apps/gateway/routing/blocks/control.rs] and [allocation.rs] with
      their validation; [BlockControl]: the methods of [ControlState] there and in
      [apps/core/evolution/control.rs] with its submodules, and the checks that
      [core/evolution/service.rs] makes around them; [BlockSelection]: [blocks/store/selection.rs].
      [BlockJson] and [SeededDraw] stand for [serde_json] and [rand].
    - [BlockSystem], [BlockLineage], [BlockInvariant]: the operations in any order, the lineage of
      experiments, the invariant and the log; [BlockTheorems], [BlockRouting]: what
      follows for the control and for the routes.
    - [RegistryValue]: JSON values, JSON pointers and the errors of [crates/bitrouter-registry/src/]
      ([document.rs], [mapping.rs]); [RegistrySelector]: [selector.rs]; [RegistryPricing]:
      [pricing.rs]; [RegistryMapping]: [mapping.rs] with the adapters
      [models_dev.rs] and [openrouter.rs]; [RegistryReconcile]: [reconcile.rs], whose [apply] is
      the whole run. The classes [ExactNumber], [JsonText] and [Rfc3339] stand for
      [serde_json_lenient] and [chrono]; a [BigRational] is a [Q] up to [Qeq].
    - [RegistryOwners], [RegistryKept], [RegistryTheorems]: who owns a field, what a reconciliation
      keeps of a model and of a provider, and what follows.
    - [ModelHistory]: the messages of [crates/bitrouter-ai/src/types.rs] and
      [apps/gateway/model/history.rs].
    - [AgentTypes]: the part of a session that collaboration touches
      ([apps/storage/checkpoint/snapshot/], [crates/bitrouter-ai/src/core/protocol.rs]) and the
      validation of an input ([apps/core/session.rs], [core/skills.rs]); [AgentGraph]: [subtree],
      [pending_dependencies] and [reaches]; [AgentAllocation]: [apps/core/allocation.rs];
      [AgentCollaboration]: [apps/core/collaboration.rs], whose [apply] dispatches every action;
      [AgentSystem]: the transitions around it in [apps/core/session.rs]. The class [SessionEnv] gathers
      the lengths of JSON texts and the answers of the parts of a session that are not modelled.
    - [AgentInvariant], [AgentBounds]: what an action does to the agents, in six cases, the session as
      a transition system, and its bounds; [AgentCycles]: relations without cycles, and that the steps
      close none.
    - [SemanticInput]: [apps/gateway/routing/input.rs]; [SemanticAssessment]:
      [apps/gateway/routing/assessment.rs] with the requests and answers of
      [apps/gateway/model/decision/types.rs] and the labels of
      [crates/bitrouter-ai/src/harness/inspection.rs]; [SemanticRoute]: the keys of
      [apps/gateway/routing/workflow/predictive.rs] and the state of [workflow/online.rs]. The class
      [AssessmentEnv] holds what the code asks of [serde_json] and [sha2].
    - [PolicyLock]: the policies of [apps/policy_lock.rs] with their validation, and the table
      configuration of [apps/config/mod.rs]; [PolicyTable]: [apps/policy_table_router.rs] with the
      assignments of [apps/gateway/routing/exploration.rs], whose [decision_for_inner] is the whole
      decision; [PolicyDispatch]: what [select_variant] in [policy_lock.rs] does with it, in
      [select_guarded] and [select_unguarded], its two flows, and what holds of what is dispatched.
    - [PolicyTheorems]: what holds of a decision of a validated policy and of its measurement.
    - [MeteringUsage]: the usage of [crates/bitrouter-ai/src/types.rs] and
      [apps/gateway/pipeline/native_accounting.rs]; [MeteringPricing]: [apps/metering/pricing.rs];
      [MeteringStream]: the usage in [apps/gateway/pipeline/stream.rs] and
      [apps/tenancy/resources/execution/block_cost.rs]; [MeteringTariff]: [apps/metering/tariff.rs], with what it
      reads of [native_cost.rs] and [apps/gateway/catalog/execution.rs]. The class [TariffEnv] holds the parser of
      URLs and the debug texts that enter digests.
    - [MeteringKnown]: what a charge is, and what admission promises of it; which usage a stream settles is shown
      in [MeteringStream].
    - [ContinuationPayload]: keys, sealed payloads and rows of [apps/continuation.rs], with the digests of
      [apps/gateway/model/protocol/responses.rs]; the class [ContinuationEnv] stands for the cryptography, base64,
      [serde_json] and [chrono], [ContinuationLaws] for what they document. [ContinuationStore]: the operations of
      [ContinuationRegistry] and the delivery handshake of [apps/gateway/pipeline/settlement.rs], as trees of actions
      ([prog]): statements, draws of random bytes, locks, blocks on the process's memory, ends of channels.
    - [ContinuationSystem]: processes and their calls as a transition system over the shared table ([exec], [Step]), the
      rules of the protocol ([publish]), and [safe], a logic for programs that others run beside;
      [ContinuationProtocol]: every operation in it, and what follows of the table and of a resolution.
    - [AgentWitnesses], [PolicyWitnesses], [RegistryWitnesses], [CoreWitnesses], [MeteringWitnesses],
      [ContinuationWitnesses], [RoutingWitnesses], [TenancyWitnesses], [Witnesses]: concrete inputs at which the hypotheses
      hold; the first executes runs of a session, and that of continuations one call after the other.

    ** What the theorems show

    - Routing keys: printing and parsing are inverse to each other, and only canonical keys parse.
    - Measurements: an accepted one is a probability distribution over distinct actions that logs
      the chosen action's probability; well-formed candidates always yield an accepted one.
    - Events: accepted evidence is bounded and content-free; digests are determined by content.
    - Guard: the evaluation is total; it activates exactly when a threshold, stated on unbounded
      integers, is reached and no hold is active; an applied guard selects a protected tier.
    - Reducer: request lives are well formed, counters count, holds count down, and guarded
      intents can be audited against the snapshot before them.
    - Writer: what is written is accepted by the validator and by the reducer, so the writer
      refines the ledger's rules; the guard's floor and the tool floor both hold.
    - Access and URLs: the combined checks equal the conjunction over all policies; the blocked
      URLs are exactly those with a listed name, or a literal address in one of the listed blocks, which is where
      the code and its comments disagree.
    - Streams: the decoder is bounded, computes the line-by-line algorithm, reads back what is
      written, does not depend on chunk boundaries, and ends a relay without an error only at an
      explicit terminator.
    - Scheduler: [RoutingRate] is the abstract specification of a rate, a window with its sends
      and guards; every reachable state of the system simulates it for every target and provider
      pattern, so no 60-second window exceeds its limit. Memory accounting is exact and within
      budget, live guards keep their slots, a half-open circuit has one owner, and the ordering
      is the stable sort by cost, latency or throughput.
    - Integers: a number token is accepted with a value exactly when it denotes that value, in any
      spelling, and the value is in range; nothing but a number is a positive integer.
    - Budgets and room: validation and admission, with their checked sums, decide the inequalities
      of unbounded arithmetic.
    - Admission: in every reachable state every counter is exactly what the owners hold and
      within the budgets; cached counts are the durable ones; dropping an
      owner never fences; a publication with a known outcome is always applied; an observation is
      consistent, and a quiescent one means that nobody holds anything; closing and fencing are
      final.
    - The queue: expiry terminates and takes exactly the expired waiters, the next waiter is the
      longest waiting that may enter, it is never left asleep, and newcomers wait behind.
    - Active time: what is reported is the time during which something ran, to the millisecond;
      the concurrent clock of the gate loses no measurement.
    - Experiments: adoption needs a closed, resolved cohort and a plan under the recorded contract;
      withdrawal is final and takes the descendants along; an experiment that is not withdrawn
      stands on adopted ones only; cohorts stay within their limits; the log of publications is the
      history of every experiment, and the walk back to the first one ends.
    - Routes under trial: a challenger route is served to those entitled to it and to nobody else, one
      block at most decides, an established session is always served, and restoration and
      registration may be repeated without effect.
    - Prices: a decimal is accepted exactly when it is a JSON number within the budgets of the
      reader, with the value it denotes; a charge is the sum of what every counted token costs,
      and is refused when a rate is missing; a printed number denotes the rational it was
      printed from, or is refused.
    - Registry: a reconciliation leaves the fields, the interfaces and the models of others as they
      were; it withdraws a model only after the configured number of complete observations and
      hours, of which the document keeps the count; the sequence of a feed only grows, and what was
      seen before changes nothing. Selectors are read back from what they print.
    - Histories: the validator accepts exactly the histories whose calls and results are paired.
    - Agents: the search for a cycle ends and is reachability; agents, their depth, mail and queues
      and the descendants at work stay within the limits of the run, whatever the agents ask for; the
      dependencies stay free of cycles, so that there always is an agent that can go on, unless a task
      is given to an idle agent that waits for one of its own ancestors, which does close a cycle.

    - Classifiers: what one is shown fits the bound, is the whole conversation if it says so, and is led by
      the system instruction; an answer gives a label exactly where it reaches the threshold, anything
      else is unknown; the keys are canonical.
    - Policies: the router looks a key up as the lock does, over the routes that admit the classifier;
      whatever it selects is a tier of the policy with that tier's model and effort, and safe for tools
      where tools are carried. Tasks keep their arm. Every decision carries a measurement that the evaluation
      accepts and that names the action taken. The guard keeps a request within the policy, unless a continuation
      outside of a shared trajectory pins its model; such a pin is refused or served by the first tier that has
      the model; and what is dispatched is what was recorded.
    - Metering: usage is verified exactly when the provider's object has the protocol's shape and spells the
      counters; what is then billed adds up to the totals. A settlement charges by what was captured at admission,
      and, where known prices are demanded, computes a charge for every consistent usage of complete attempts, save what
      a price does not cover: usage of unknown origin, and at a registry price also estimated usage and web searches;
      and save what is no finite amount. A charge by a registry price is the exact one, rounded once. A stream compares its reports at the rates that are charged and
      settles the costliest. The demand for known prices lets one kind of price through that it should not
      ([MeteringWitnesses]).
    - Continuations: every step of every operation follows the rules of the protocol, whatever else runs, fails or is
      dropped; so what a resolution returns was bound under the same identities and, but for a direct binding,
      delivered. That a publication which was not finalized is always taken back does not hold: a renewal whose
      answer is lost gives it up ([ContinuationWitnesses]).

    ** Bounds

    Four definitions have fuel: [expire_loop], which gets one turn more than the queue is long,
    [original_loop], which gets three more than the archive has entries, [subtree_loop], which gets one
    turn more than there are agents, for each turn but the last adds one, and [reaches], which may go one
    level deeper than there are agents and targets of waits, for each level marks one; all are enough
    ([expire_terminates], [original_experiment_terminates], [elem_of_subtree], [search_spec]). The loops of a
    resolution and of a drain of continuations get a number of turns, for other processes may keep them going without
    end; when the turns are used up the call says so, and what is shown holds for every number of them. The other
    recursions are structural, on lists, strings and bytes. A [usize] is 64 bits wide, the targets the program ships for. Checked arithmetic fails where
    the code's fails; saturating arithmetic saturates. Operations of the scheduler are atomic,
    as the code holds its mutex for each; the clock values that they read may reach the state in
    any order. So are the calls of tenant admission, whose callers are assumed to pass what the
    code documents: the inventory of the projection at the start, its counts and its changes while
    the generation has not moved ([truthful]), volumes whose sizes fit their types ([env_ok]), and
    each owner dropped once. Whatever they pass otherwise is refused or accepted by the code's own
    checks. The operations of the evolution control are atomic too, each in a transaction that locks
    the owner's row and saves it only when the operation succeeded, so an error carries no state;
    a digest gives a new experiment the identity of no other ([allowed]). So are the transitions of a
    session, each of which is committed or leaves the state as it was; the turns advance in between by
    themselves ([progress]: a turn that ended does not come back, a queue only shrinks, and no call starts
    to wait but by its answer), and a new agent's UUID is one that the session does not mention
    ([unmentioned]). Of a registry of continuations an action is atomic, and between two of them anything may happen; a
    statement may fail with or without having taken effect, and a call may be dropped at any action, which releases its
    locks. The processes that share a table share its key. A panic may poison the mutex at any point between calls.

    ** Not modelled

    Transactions and queries of the database, HTTP serving and transport, provider adapters,
    terminal interface and process management, telemetry export, and the texts of serde errors.
    Error messages are kept where the code makes them. Of tenancy, the SQL of the receipt store, the
    writer actor and the authority service are not modelled; a drained controller is observed
    through [drained], the [Notify] that announces it is not. Of the policy blocks, the learner that
    samples its posteriors in floating point and the capture of an enrollment from the database
    are not modelled. Of the registry, the fetching of pages and their normalization by the
    adapters, the validation of whole documents against their JSON Schema, the sources in YAML and
    the publication are not modelled. Of a session, the model steps,
    the tools, steering, recovery, archiving and the evidence that agents share are not modelled: they
    are asynchronous over a store and over processes of agents, and enter through [progress] and
    [SessionEnv]; nor is the parsing of actions by serde. The learner and the evaluation of routes compute
    in floating point over data of runs; the native agent's budget and the payloads of tools account for
    the output of processes. The state observed from the headers and the texts of a request is a set of heuristics
    that ends in a projection, where the model begins. Of the policies, the certificates, the reload of the
    lock file, the choice of a variant and the request to the classifier are not modelled: I/O and
    asynchronous tasks; nor are the diagnostics of a decision and the attempts that are captured for a
    replay. Of metering, the ledger with its recorders, reports and reconciliation is not modelled: queries of the
    database and exchanges with the cloud. Of continuations, the worker task with its delays and time-outs, the
    backends of tenants and of shared instances, and the hooks that call the registry are not modelled. *)
From stdpp Require Import base list strings gmap pretty sorting.
From Stdlib Require Import ZArith Lia Ascii.
From Stdlib Require String.
Open Scope Z_scope.
#[global] Arguments String.append !_ _ /.

(** ** Results: Rust's [Result<A, E>] with the [?] operator as monadic bind *)

Inductive result (E A : Type) : Type :=
| Ok (a : A)
| Err (e : E).
Arguments Ok {E A} _.
Arguments Err {E A} _.

#[export] Instance result_ret {E} : MRet (result E) := λ A a, Ok a.
#[export] Instance result_bind {E} : MBind (result E) := λ A B f m,
  match m with Ok a => f a | Err e => Err e end.
#[export] Instance result_fmap {E} : FMap (result E) := λ A B f m,
  match m with Ok a => Ok (f a) | Err e => Err e end.
#[export] Instance result_eq_dec `{EqDecision E, EqDecision A} : EqDecision (result E A).
Proof. solve_decision. Defined.

(** [ensure!(b, e)] *)
Definition ensure {E} (b : bool) (e : E) : result E unit := if b then Ok tt else Err e.
(** [opt.ok_or(e)] *)
Definition ok_or {E A} (o : option A) (e : E) : result E A :=
  match o with Some a => Ok a | None => Err e end.
(** [opt.is_some()], [opt.is_some_and(f)] and [opt.is_none_or(f)] *)
Definition is_some {A} (o : option A) : bool := bool_decide (is_Some o).
Definition is_some_and {A} (f : A → bool) (o : option A) : bool := from_option f false o.
Definition is_none_or {A} (f : A → bool) (o : option A) : bool := from_option f true o.
Definition is_ok {E A} (r : result E A) : bool := match r with Ok _ => true | Err _ => false end.
(** [for x in l { f(x)?; }] *)
Fixpoint for_each {E A} (f : A → result E unit) (l : list A) : result E unit :=
  match l with
  | [] => Ok tt
  | x :: l' => _ ← f x; for_each f l'
  end.
(** A loop with an accumulator that stops at the first error ([try_fold]). *)
Fixpoint try_fold {E A S} (f : S → A → result E S) (s : S) (l : list A) : result E S :=
  match l with
  | [] => Ok s
  | x :: l' => s' ← f s x; try_fold f s' l'
  end.

Section result_lemmas.
Context {E A B : Type}.
Implicit Types (m : result E A).

Lemma bind_ok m (f : A → result E B) b :
  (m ≫= f) = Ok b ↔ ∃ a, m = Ok a ∧ f a = Ok b.
Proof. destruct m; cbn; split; [eauto|by intros (? & [= ->] & ?)|done|by intros (? & ? & _)]. Qed.
Lemma ensure_ok b (e : E) u : ensure b e = Ok u ↔ b = true.
Proof. destruct b, u; cbn; naive_solver. Qed.
Lemma ok_or_ok (o : option A) (e : E) a : ok_or o e = Ok a ↔ o = Some a.
Proof. destruct o; cbn; naive_solver. Qed.
Lemma for_each_ok (f : A → result E unit) l u :
  for_each f l = Ok u ↔ Forall (λ x, f x = Ok tt) l.
Proof.
  destruct u. induction l as [|x l IH]; [naive_solver|].
  rewrite Forall_cons, <-IH. cbn. destruct (f x) as [[]|]; cbn; naive_solver.
Qed.
End result_lemmas.

Section try_fold_lemmas.
Context {E A S : Type} (f : S → A → result E S).

Lemma try_fold_app s l1 l2 :
  try_fold f s (l1 ++ l2) = s' ← try_fold f s l1; try_fold f s' l2.
Proof. revert s. induction l1 as [|x l1 IH]; intros s; cbn; [done|]. destruct (f s x); [apply IH|done]. Qed.
Lemma try_fold_snoc s l x :
  try_fold f s (l ++ [x]) = s' ← try_fold f s l; f s' x.
Proof.
  rewrite try_fold_app. destruct (try_fold f s l) as [s'|]; cbn; [|done]. by destruct (f s' x).
Qed.
(** The invariant rule of a fallible loop. *)
Lemma try_fold_inv (P : S → Prop) s l s' :
  (∀ s x s', x ∈ l → P s → f s x = Ok s' → P s') →
  P s → try_fold f s l = Ok s' → P s'.
Proof.
  revert s. induction l as [|x l IH]; intros s Hf Hs; cbn; [by intros [= <-]|].
  destruct (f s x) as [s1|] eqn:Hx; cbn; [|done].
  apply IH; [set_solver|]. eapply Hf; [left|done|done].
Qed.
(** Induction on the elements consumed so far. *)
Lemma try_fold_ind (P : list A → S → Prop) s0 l s :
  P [] s0 →
  (∀ pre x s1 s2, pre ++ [x] `prefix_of` l → try_fold f s0 pre = Ok s1 → P pre s1 →
     f s1 x = Ok s2 → P (pre ++ [x]) s2) →
  try_fold f s0 l = Ok s → P l s.
Proof.
  intros H0 Hstep. revert s. induction l as [|x l IH] using rev_ind; intros s Hs.
  - cbn in Hs. by injection Hs as <-.
  - rewrite try_fold_snoc in Hs. destruct (try_fold f s0 l) as [s1|] eqn:Hl; [|done].
    apply Hstep with s1; [done|done| |done]. apply IH; [|done].
    intros pre y s2 s3 Hp. apply Hstep. etrans; [done|]. by exists [x].
Qed.
End try_fold_lemmas.

(** Case analysis on the fallible steps of a definition: every hypothesis
    [(m ≫= f) = Ok _], [ensure b e = Ok _] or [ok_or o e = Ok _] is opened. *)
Ltac res_step :=
  match goal with
  | H : (_ ≫= _) = Ok _ |- _ =>
      let a := fresh "v" in let Ha := fresh "Hv" in
      apply bind_ok in H as (a & Ha & H); cbn beta in H
  | H : ensure _ _ = Ok _ |- _ => apply ensure_ok in H
  | H : ok_or _ _ = Ok _ |- _ => apply ok_or_ok in H
  | H : Ok _ = Ok _ |- _ => injection H as H
  | H : Err _ = Ok _ |- _ => discriminate H
  | H : Ok _ = Err _ |- _ => discriminate H
  | H : Some _ = Some _ |- _ => injection H as H
  | H : None = Some _ |- _ => discriminate H
  | H : Some _ = None |- _ => discriminate H
  | H : unit |- _ => destruct H
  | H : _ ∧ _ |- _ => destruct H
  end.
Ltac res_inv := repeat (res_step; subst).

(** ** Machine integers

    A [u64] (and a [usize], on the 64-bit targets the program ships for) is a [Z]
    in [[0, u64_max]]; [checked_*] and [saturating_*] are the methods of the same
    name, with the width as their first argument. *)
Definition u8_max : Z := 255.
Definition u32_max : Z := 4294967295.
Definition u64_max : Z := 18446744073709551615.
Definition i64_max : Z := 9223372036854775807.

Definition checked_add (m a b : Z) : option Z := if a + b <=? m then Some (a + b) else None.
Definition checked_mul (m a b : Z) : option Z := if a * b <=? m then Some (a * b) else None.
Definition checked_sub (a b : Z) : option Z := if b <=? a then Some (a - b) else None.
Definition saturating_add (m a b : Z) : Z := Z.min m (a + b).
Definition saturating_sub (a b : Z) : Z := Z.max 0 (a - b).
Definition saturating_mul (m a b : Z) : Z := Z.min m (a * b).
(** Plain [+=] and [-=]: the release build wraps around. *)
Definition wrapping_add (m a b : Z) : Z := (a + b) mod (m + 1).
Definition wrapping_sub (m a b : Z) : Z := (a - b) mod (m + 1).
(** [u64::from(b)] *)
Definition of_bool (b : bool) : Z := if b then 1 else 0.

Declare Scope u64_scope.
Delimit Scope u64_scope with u64.
Notation "a +? b" := (checked_add u64_max a b) (at level 50, left associativity) : u64_scope.
Notation "a *? b" := (checked_mul u64_max a b) (at level 40, left associativity) : u64_scope.
Notation "a -? b" := (checked_sub a b) (at level 50, left associativity) : u64_scope.
Notation "a +| b" := (saturating_add u64_max a b) (at level 50, left associativity) : u64_scope.
Notation "a -| b" := (saturating_sub a b) (at level 50, left associativity) : u64_scope.
Notation "a *| b" := (saturating_mul u64_max a b) (at level 40, left associativity) : u64_scope.
Notation "a +% b" := (wrapping_add u64_max a b) (at level 50, left associativity) : u64_scope.
Notation "a -% b" := (wrapping_sub u64_max a b) (at level 50, left associativity) : u64_scope.
Open Scope u64_scope.

Definition in_u64 (x : Z) : Prop := 0 ≤ x ≤ u64_max.
#[export] Instance in_u64_dec x : Decision (in_u64 x).
Proof. unfold in_u64. apply _. Defined.

Section machine_lemmas.
Implicit Types m a b c : Z.

Lemma checked_add_Some m a b c : checked_add m a b = Some c ↔ c = a + b ∧ a + b ≤ m.
Proof. unfold checked_add. destruct (Z.leb_spec (a + b) m); naive_solver lia. Qed.
Lemma checked_add_None m a b : checked_add m a b = None ↔ m < a + b.
Proof. unfold checked_add. destruct (Z.leb_spec (a + b) m); naive_solver lia. Qed.
Lemma checked_mul_Some m a b c : checked_mul m a b = Some c ↔ c = a * b ∧ a * b ≤ m.
Proof. unfold checked_mul. destruct (Z.leb_spec (a * b) m); naive_solver lia. Qed.
Lemma checked_mul_None m a b : checked_mul m a b = None ↔ m < a * b.
Proof. unfold checked_mul. destruct (Z.leb_spec (a * b) m); naive_solver lia. Qed.
Lemma checked_sub_Some a b c : checked_sub a b = Some c ↔ c = a - b ∧ b ≤ a.
Proof. unfold checked_sub. destruct (Z.leb_spec b a); naive_solver lia. Qed.
Lemma checked_sub_None a b : checked_sub a b = None ↔ a < b.
Proof. unfold checked_sub. destruct (Z.leb_spec b a); naive_solver lia. Qed.
Lemma wrapping_add_exact m a b : 0 ≤ a + b ≤ m → wrapping_add m a b = a + b.
Proof. intros. apply Z.mod_small. lia. Qed.
Lemma wrapping_sub_exact m a b : 0 ≤ a - b ≤ m → wrapping_sub m a b = a - b.
Proof. intros. apply Z.mod_small. lia. Qed.
Lemma of_bool_bounds (b : bool) : 0 ≤ of_bool b ≤ 1.
Proof. destruct b; cbn; lia. Qed.
End machine_lemmas.

(** Opens checked arithmetic, boolean tests and saturating operations, for [lia]. *)
Ltac arith_step :=
  match goal with
  | H : checked_add _ _ _ = Some _ |- _ => apply checked_add_Some in H as [? ?]
  | H : checked_add _ _ _ = None |- _ => apply checked_add_None in H
  | H : checked_mul _ _ _ = Some _ |- _ => apply checked_mul_Some in H as [? ?]
  | H : checked_mul _ _ _ = None |- _ => apply checked_mul_None in H
  | H : checked_sub _ _ = Some _ |- _ => apply checked_sub_Some in H as [? ?]
  | H : checked_sub _ _ = None |- _ => apply checked_sub_None in H
  | H : (_ && _)%bool = true |- _ => apply andb_true_iff in H as [? ?]
  | H : (_ || _)%bool = false |- _ => apply orb_false_iff in H as [? ?]
  | H : negb _ = true |- _ => apply negb_true_iff in H
  | H : negb _ = false |- _ => apply negb_false_iff in H
  | H : (_ <=? _) = true |- _ => apply Z.leb_le in H
  | H : (_ <=? _) = false |- _ => apply Z.leb_gt in H
  | H : (_ <? _) = true |- _ => apply Z.ltb_lt in H
  | H : (_ <? _) = false |- _ => apply Z.ltb_ge in H
  | H : (_ =? _) = true |- _ => apply Z.eqb_eq in H
  | H : (_ =? _) = false |- _ => apply Z.eqb_neq in H
  | H : bool_decide _ = true |- _ => apply bool_decide_eq_true in H
  | H : bool_decide _ = false |- _ => apply bool_decide_eq_false in H
  end.
Ltac arith := repeat (arith_step; subst);
  unfold saturating_add, saturating_sub, saturating_mul, in_u64, of_bool in *; try lia.

(** ** Strings

    A Rust [String] is its UTF-8 bytes: a [string], so that [len()] is [String.length]
    and the literals of the source are the literals here. [chars] decodes the bytes
    into scalar values for the methods that look at characters. *)
Section utf8.
Open Scope N_scope.
Definition byte (a : ascii) : N := N_of_ascii a.
(** A continuation byte and its payload. *)
Definition is_cont (a : ascii) : bool := (128 <=? byte a) && (byte a <=? 191).
Definition cont (a : ascii) : N := N.land (byte a) 63.

(** Bytes that are not UTF-8, which no [String] holds, decode to U+FFFD. *)
Fixpoint chars (s : string) : list N :=
  match s with
  | EmptyString => []
  | String a r =>
      let b := byte a in
      if b <? 128 then b :: chars r
      else if b <? 224 then
        match r with
        | String c1 r1 =>
            if is_cont c1 then (N.land b 31 * 64 + cont c1) :: chars r1 else 65533 :: chars r
        | _ => 65533 :: chars r
        end
      else if b <? 240 then
        match r with
        | String c1 (String c2 r2) =>
            if is_cont c1 && is_cont c2
            then (N.land b 15 * 4096 + cont c1 * 64 + cont c2) :: chars r2 else 65533 :: chars r
        | _ => 65533 :: chars r
        end
      else
        match r with
        | String c1 (String c2 (String c3 r3)) =>
            if is_cont c1 && is_cont c2 && is_cont c3
            then (N.land b 7 * 262144 + cont c1 * 4096 + cont c2 * 64 + cont c3) :: chars r3
            else 65533 :: chars r
        | _ => 65533 :: chars r
        end
  end.

(** [char::is_control]: general category Cc. *)
Definition is_control (c : N) : bool := (c <=? 31) || ((127 <=? c) && (c <=? 159)).
(** [char::is_whitespace]: property White_Space. *)
Definition is_whitespace (c : N) : bool :=
  ((9 <=? c) && (c <=? 13)) || bool_decide (c ∈ [32; 133; 160; 5760]) ||
  ((8192 <=? c) && (c <=? 8202)) || bool_decide (c ∈ [8232; 8233; 8239; 8287; 12288]).
End utf8.

Definition len (s : string) : Z := Z.of_nat (String.length s).
(** [s.chars().any(char::is_control)] *)
Definition has_control (s : string) : bool := existsb is_control (chars s).
(** [s.trim().is_empty()] *)
Definition trim_is_empty (s : string) : bool := forallb is_whitespace (chars s).
Definition is_empty (s : string) : bool := match s with EmptyString => true | _ => false end.

Section ascii_classes.
Open Scope N_scope.
Definition is_ascii_digit (c : N) : bool := (48 <=? c) && (c <=? 57).
Definition is_ascii_lowercase (c : N) : bool := (97 <=? c) && (c <=? 122).
Definition is_ascii_uppercase (c : N) : bool := (65 <=? c) && (c <=? 90).
Definition is_ascii_hexdigit (c : N) : bool :=
  is_ascii_digit c || ((97 <=? c) && (c <=? 102)) || ((65 <=? c) && (c <=? 70)).
Definition ascii_lower (a : ascii) : ascii :=
  if is_ascii_uppercase (byte a) then ascii_of_N (byte a + 32) else a.
End ascii_classes.

Fixpoint bytes (s : string) : list ascii :=
  match s with EmptyString => [] | String a r => a :: bytes r end.
Fixpoint string_of (l : list ascii) : string :=
  match l with [] => EmptyString | a :: r => String a (string_of r) end.
Fixpoint map_string (f : ascii → ascii) (s : string) : string :=
  match s with EmptyString => EmptyString | String a r => String (f a) (map_string f r) end.
Definition to_ascii_lowercase : string → string := map_string ascii_lower.

Fixpoint strip_prefix (p s : string) : option string :=
  match p, s with
  | EmptyString, _ => Some s
  | String a p, String b s => if bool_decide (a = b) then strip_prefix p s else None
  | String _ _, EmptyString => None
  end.
Definition starts_with (p s : string) : bool := bool_decide (is_Some (strip_prefix p s)).
Fixpoint ends_with (p s : string) : bool :=
  bool_decide (s = p) || match s with EmptyString => false | String _ s => ends_with p s end.
Fixpoint contains (p s : string) : bool :=
  starts_with p s || match s with EmptyString => false | String _ s => contains p s end.

(** [s.split_once(c)] for a one-byte separator. *)
Fixpoint split_once (c : ascii) (s : string) : option (string * string) :=
  match s with
  | EmptyString => None
  | String a r =>
      if bool_decide (a = c) then Some (EmptyString, r)
      else '(x, y) ← split_once c r; Some (String a x, y)
  end.
(** [s.rsplit_once(c)]: the last separator. *)
Fixpoint rsplit_once (c : ascii) (s : string) : option (string * string) :=
  match s with
  | EmptyString => None
  | String a r =>
      match rsplit_once c r with
      | Some (x, y) => Some (String a x, y)
      | None => if bool_decide (a = c) then Some (EmptyString, r) else None
      end
  end.
(** [s.split(c)]: never empty. *)
Fixpoint split_on (c : ascii) (s : string) : list string :=
  match s with
  | EmptyString => [EmptyString]
  | String a r =>
      if bool_decide (a = c) then EmptyString :: split_on c r
      else match split_on c r with
           | w :: ws => String a w :: ws
           | [] => [String a EmptyString]
           end
  end.
(** [l.join(sep)] *)
Fixpoint join (sep : string) (l : list string) : string :=
  match l with
  | [] => EmptyString
  | [w] => w
  | w :: ws => w +:+ sep +:+ join sep ws
  end.
Fixpoint count_byte (c : ascii) (s : string) : nat :=
  match s with
  | EmptyString => O
  | String a r => if bool_decide (a = c) then S (count_byte c r) else count_byte c r
  end.

(** [std::str::from_utf8] accepts these bytes. *)
Definition in_range (lo a hi : N) : bool := ((lo <=? a) && (a <=? hi))%N.
(** The second byte's range by the first byte, for three- and four-byte sequences. *)
Definition second3 (b c : N) : bool :=
  if (b =? 224)%N then in_range 160 c 191 else if (b =? 237)%N then in_range 128 c 159
  else in_range 128 c 191.
Definition second4 (b c : N) : bool :=
  if (b =? 240)%N then in_range 144 c 191 else if (b =? 244)%N then in_range 128 c 143
  else in_range 128 c 191.
Fixpoint valid_utf8 (l : list ascii) : bool :=
  match l with
  | [] => true
  | a :: r =>
      let b := byte a in
      if (b <? 128)%N then valid_utf8 r
      else match r with
      | c1 :: r1 =>
          if in_range 194 b 223 then is_cont c1 && valid_utf8 r1
          else match r1 with
          | c2 :: r2 =>
              if in_range 224 b 239 then second3 b (byte c1) && is_cont c2 && valid_utf8 r2
              else match r2 with
              | c3 :: r3 => in_range 240 b 244 && second4 b (byte c1) && is_cont c2 && is_cont c3
                            && valid_utf8 r3
              | [] => false
              end
          | [] => false
          end
      | [] => false
      end
  end.

(** ** Orderings: the [Ord] trait

    [cmp] is the trait's method; its laws are what the sorts and the ordered maps rely on.
    Strings are ordered by their bytes, tuples lexicographically. *)
Class Ord (A : Type) := cmp : A → A → comparison.
Class OrdLaws (A : Type) `{Ord A} : Prop := {
  cmp_eq : ∀ a b : A, cmp a b = Eq ↔ a = b;
  cmp_antisym : ∀ a b : A, cmp b a = CompOpp (cmp a b);
  cmp_lt_trans : ∀ a b c : A, cmp a b = Lt → cmp b c = Lt → cmp a c = Lt;
}.
(** [Ordering::then_with] *)
Definition then_with (c d : comparison) : comparison := match c with Eq => d | _ => c end.

#[export] Instance string_ord : Ord string := String.compare.
#[export] Instance Z_ord : Ord Z := Z.compare.
#[export] Instance prod_ord {A B} `{Ord A, Ord B} : Ord (A * B) := λ x y,
  then_with (cmp x.1 y.1) (cmp x.2 y.2).

Definition ord_le `{Ord A} (a b : A) : Prop := cmp a b ≠ Gt.
Definition ord_lt `{Ord A} (a b : A) : Prop := cmp a b = Lt.
#[export] Instance comparison_eq_dec : EqDecision comparison. Proof. solve_decision. Defined.
#[export] Instance ord_le_dec `{Ord A} : RelDecision (ord_le (A:=A)).
Proof. intros a b. unfold ord_le. apply _. Defined.
#[export] Instance ord_lt_dec `{Ord A} : RelDecision (ord_lt (A:=A)).
Proof. intros a b. unfold ord_lt. apply _. Defined.
(** [v.sort_by(|x, y| key(x).cmp(&key(y)))], a stable sort. *)
Definition key_le {B} `{Ord A} (key : B → A) (x y : B) : Prop := ord_le (key x) (key y).
#[export] Instance key_le_dec {B} `{Ord A} (key : B → A) : RelDecision (key_le key).
Proof. intros a b. unfold key_le. apply _. Defined.
Definition sort_by_key {B} `{Ord A} (key : B → A) (l : list B) : list B := merge_sort (key_le key) l.
Definition sort {A} `{Ord A} (l : list A) : list A := sort_by_key (λ x, x) l.

(** The keys of a [BTreeMap<String, _>], in iteration order. *)
Definition sorted_entries {A} (m : gmap string A) : list (string * A) :=
  sort_by_key fst (map_to_list m).
Definition sorted_keys {A} (m : gmap string A) : list string := (sorted_entries m).*1.

Section ord_instances.
#[export] Instance Z_ord_laws : OrdLaws Z.
Proof.
  split; unfold cmp, Z_ord; [apply Z.compare_eq_iff | apply Z.compare_antisym |].
  intros a b c. rewrite !Z.compare_lt_iff. lia.
Qed.
Lemma ascii_compare_lt_trans a b c :
  Ascii.compare a b = Lt → Ascii.compare b c = Lt → Ascii.compare a c = Lt.
Proof. unfold Ascii.compare. rewrite !N.compare_lt_iff. lia. Qed.
Lemma ascii_compare_refl a : Ascii.compare a a = Eq.
Proof. unfold Ascii.compare. apply N.compare_refl. Qed.
Lemma string_compare_refl s : String.compare s s = Eq.
Proof. induction s as [|a s IH]; cbn; [done|]. by rewrite ascii_compare_refl. Qed.
Lemma string_compare_lt_trans a b c :
  String.compare a b = Lt → String.compare b c = Lt → String.compare a c = Lt.
Proof.
  revert b c. induction a as [|x a IH]; intros [|y b] [|z c]; cbn; try done.
  destruct (Ascii.compare x y) eqn:Hxy, (Ascii.compare y z) eqn:Hyz; try done; intros Hab Hbc;
    repeat match goal with
    | H : Ascii.compare _ _ = Eq |- _ => apply Ascii.compare_eq_iff in H; subst
    end; rewrite ?ascii_compare_refl, ?Hxy, ?Hyz; try done; [by eapply IH|].
  by rewrite (ascii_compare_lt_trans _ _ _ Hxy Hyz).
Qed.
#[export] Instance string_ord_laws : OrdLaws string.
Proof.
  split; unfold cmp, string_ord.
  - intros a b. split; [apply String.compare_eq_iff|]. intros ->. apply string_compare_refl.
  - intros a b. apply String.compare_antisym.
  - apply string_compare_lt_trans.
Qed.
#[export] Instance prod_ord_laws {A B} `{OrdLaws A, OrdLaws B} : OrdLaws (A * B).
Proof.
  split; unfold cmp, prod_ord, then_with.
  - intros [a b] [a' b']; cbn. destruct (cmp a a') eqn:Ha;
      [rewrite cmp_eq in Ha; rewrite cmp_eq; naive_solver| |];
      (split; [done|]); intros [= -> ->]; rewrite (proj2 (cmp_eq a' a') eq_refl) in Ha; done.
  - intros [a b] [a' b']; cbn. rewrite (cmp_antisym a a'), (cmp_antisym b b').
    by destruct (cmp a a').
  - intros [a b] [a' b'] [a'' b'']; cbn.
    destruct (cmp a a') eqn:Hxy, (cmp a' a'') eqn:Hyz; try done; intros Hab Hbc;
      repeat match goal with H : cmp _ _ = Eq |- _ => apply cmp_eq in H; subst end;
      rewrite ?(proj2 (cmp_eq a'' a'') eq_refl), ?Hxy, ?Hyz; try done;
      [by eapply cmp_lt_trans|]. by rewrite (cmp_lt_trans _ _ _ Hxy Hyz).
Qed.
End ord_instances.

Section ord_lemmas.
Context {A} `{OrdLaws A}.
Implicit Types (a b c : A).

Lemma cmp_refl a : cmp a a = Eq.
Proof. by apply cmp_eq. Qed.
Lemma cmp_gt_lt a b : cmp a b = Gt ↔ cmp b a = Lt.
Proof. rewrite (cmp_antisym a b). by destruct (cmp a b). Qed.
Lemma ord_le_lt_or_eq a b : ord_le a b ↔ ord_lt a b ∨ a = b.
Proof. unfold ord_le, ord_lt. rewrite <-(cmp_eq a b). destruct (cmp a b); naive_solver. Qed.
Lemma ord_lt_irrefl a : ¬ ord_lt a a.
Proof. unfold ord_lt. by rewrite cmp_refl. Qed.
#[export] Instance ord_lt_transitive : Transitive (ord_lt (A:=A)).
Proof. intros a b c. apply cmp_lt_trans. Qed.
#[export] Instance ord_le_transitive : Transitive (ord_le (A:=A)).
Proof.
  intros a b c. rewrite !ord_le_lt_or_eq. intros [?| ->] [?| ->]; auto. left. by etrans.
Qed.
#[export] Instance ord_le_total : Total (ord_le (A:=A)).
Proof. intros a b. unfold ord_le. rewrite (cmp_antisym a b). destruct (cmp a b); auto. Qed.
Lemma ord_le_lt a b : ord_le a b → a ≠ b → ord_lt a b.
Proof. rewrite ord_le_lt_or_eq. naive_solver. Qed.

Context {B : Type} (key : B → A).
#[export] Instance key_le_transitive : Transitive (key_le key).
Proof. intros x y z. unfold key_le. apply transitivity. Qed.
#[export] Instance key_le_total : Total (key_le key).
Proof. intros x y. unfold key_le. apply total, _. Qed.
Lemma sort_by_key_perm l : sort_by_key key l ≡ₚ l.
Proof. apply merge_sort_Permutation. Qed.
Lemma sort_by_key_sorted l : StronglySorted (key_le key) (sort_by_key key l).
Proof. apply (StronglySorted_merge_sort _ _). Qed.
(** Sorting values whose keys are distinct gives strictly increasing keys. *)
Lemma sort_by_key_strict l :
  NoDup (key <$> l) → StronglySorted (λ x y, ord_lt (key x) (key y)) (sort_by_key key l).
Proof.
  intros Hnd. pose proof (sort_by_key_sorted l) as Hs.
  assert (NoDup (key <$> sort_by_key key l)) as Hnd' by by rewrite sort_by_key_perm.
  revert Hs Hnd'. generalize (sort_by_key key l). clear Hnd l.
  induction 1 as [|x l Hs IH Hx]; intros Hnd; [constructor|].
  cbn in Hnd. apply NoDup_cons in Hnd as [Hn Hnd]. constructor; [auto|].
  rewrite Forall_forall in *. intros y Hy. apply ord_le_lt; [by apply Hx|].
  intros He. apply Hn. rewrite He. by apply list_elem_of_fmap_2.
Qed.
End ord_lemmas.

Section string_lemmas.
Implicit Types (s p w : string) (c : ascii).

Lemma app_empty_r s : s +:+ EmptyString = s.
Proof. induction s; cbn; congruence. Qed.
Lemma string_app_assoc s1 s2 s3 : (s1 +:+ s2) +:+ s3 = s1 +:+ s2 +:+ s3.
Proof. induction s1; cbn; congruence. Qed.
Lemma len_app s1 s2 : len (s1 +:+ s2) = len s1 + len s2.
Proof. unfold len. induction s1; cbn; lia. Qed.
Lemma len_nonneg s : 0 ≤ len s.
Proof. unfold len. lia. Qed.
Lemma strip_prefix_Some p s r : strip_prefix p s = Some r ↔ s = p +:+ r.
Proof.
  revert s. induction p as [|a p IH]; intros s; cbn; [split; congruence|].
  destruct s as [|b s]; [split; discriminate|].
  case_bool_decide as Hab; [subst; rewrite IH; split; congruence|].
  split; [discriminate|]. intros [= ? _]. congruence.
Qed.
Lemma starts_with_app p s : starts_with p (p +:+ s) = true.
Proof.
  unfold starts_with. apply bool_decide_eq_true. exists s. by apply strip_prefix_Some.
Qed.
Lemma starts_with_true p s : starts_with p s = true ↔ ∃ r, s = p +:+ r.
Proof.
  unfold starts_with. rewrite bool_decide_eq_true. unfold is_Some.
  by setoid_rewrite strip_prefix_Some.
Qed.
Lemma string_of_bytes s : string_of (bytes s) = s.
Proof. induction s; cbn; congruence. Qed.
Lemma bytes_string_of l : bytes (string_of l) = l.
Proof. induction l; cbn; congruence. Qed.
Lemma string_of_app l1 l2 : string_of (l1 ++ l2) = string_of l1 +:+ string_of l2.
Proof. induction l1; cbn; congruence. Qed.
Lemma bytes_app s1 s2 : bytes (s1 +:+ s2) = bytes s1 ++ bytes s2.
Proof. induction s1; cbn; congruence. Qed.
Lemma length_bytes s : length (bytes s) = String.length s.
Proof. induction s; cbn; congruence. Qed.

(** An ASCII byte of a text is one of its characters. *)
Lemma ascii_byte_in_chars s c : c ∈ bytes s → (byte c < 128)%N → byte c ∈ chars s.
Proof.
  intros Hc Hlt. remember (String.length s) as n eqn:Hn.
  assert (String.length s ≤ n)%nat as Hle by lia. clear Hn. revert s Hle Hc.
  assert (∀ c', is_cont c' = true → c ≠ c') as Hcont.
  { intros c' H%andb_true_iff ->. destruct H as [H _]. apply N.leb_le in H. lia. }
  induction n as [|n IH]; intros [|a r] Hle Hc; cbn in *; try lia; try set_solver.
  apply elem_of_cons in Hc. assert (c ∈ bytes r → byte c ∈ chars r) as IHr by (apply IH; lia).
  destruct (N.ltb_spec (byte a) 128) as [Ha|Ha];
    [destruct Hc as [->|Hc]; [left|right; auto]|].
  assert (c ∈ bytes r) as Hr by (destruct Hc as [->|Hc]; [lia|done]). clear Hc.
  repeat case_match; subst; try (right; by apply IHr);
    repeat match goal with
    | H : (_ && _)%bool = true |- _ => apply andb_true_iff in H as [? ?]
    | H : is_cont _ = true |- _ => apply Hcont in H
    end; cbn in Hr, Hle; right; apply IH; try lia; set_solver.
Qed.

(** Splitting and joining on a separator are inverse to each other. *)
Lemma split_on_not_nil c s : split_on c s ≠ [].
Proof. destruct s as [|a s]; cbn; [done|]. case_bool_decide; [done|]. by destruct (split_on c s). Qed.
Lemma join_split_on c s : join (String c EmptyString) (split_on c s) = s.
Proof.
  induction s as [|a s IH]; [done|]. cbn.
  pose proof (split_on_not_nil c s) as Hne. case_bool_decide as Ha.
  - subst. destruct (split_on c s) as [|w ws] eqn:E; [done|]. rewrite <-IH. done.
  - destruct (split_on c s) as [|w ws]; [done|]. destruct ws; cbn in *; congruence.
Qed.
Lemma split_on_app c w s :
  c ∉ bytes w → split_on c (w +:+ String c s) = w :: split_on c s.
Proof.
  induction w as [|a w IH]; cbn; intros Hc.
  - by rewrite bool_decide_eq_true_2.
  - rewrite bool_decide_eq_false_2 by set_solver. by rewrite IH by set_solver.
Qed.
Lemma split_on_none c w : c ∉ bytes w → split_on c w = [w].
Proof.
  induction w as [|a w IH]; cbn; intros Hc; [done|].
  rewrite bool_decide_eq_false_2 by set_solver. by rewrite IH by set_solver.
Qed.
Lemma split_once_Some c s x y :
  split_once c s = Some (x, y) → s = x +:+ String c y ∧ c ∉ bytes x.
Proof.
  revert x. induction s as [|a s IH]; intros x; cbn; [done|].
  case_bool_decide as Ha; [intros [= <- <-]; subst; split; [done|set_solver]|].
  destruct (split_once c s) as [[x' y']|]; cbn; [|done].
  intros [= <- <-]. destruct (IH x' eq_refl) as [-> ?]. cbn. set_solver.
Qed.
Lemma split_once_app c x y : c ∉ bytes x → split_once c (x +:+ String c y) = Some (x, y).
Proof.
  induction x as [|a x IH]; cbn; intros Hc; [by rewrite bool_decide_eq_true_2|].
  rewrite bool_decide_eq_false_2 by set_solver. by rewrite IH by set_solver.
Qed.
Lemma rsplit_once_None c s : rsplit_once c s = None ↔ c ∉ bytes s.
Proof.
  induction s as [|a s IH]; cbn; [set_solver|].
  destruct (rsplit_once c s) as [[x y]|].
  - split; [done|]. intros H. exfalso. assert (c ∉ bytes s) as Hn by set_solver.
    by apply IH in Hn.
  - case_bool_decide; set_solver.
Qed.
Lemma count_byte_app c s1 s2 :
  count_byte c (s1 +:+ s2) = (count_byte c s1 + count_byte c s2)%nat.
Proof. induction s1 as [|a s1 IH]; cbn; [done|]. rewrite IH. by case_bool_decide. Qed.
Lemma count_byte_0 c s : count_byte c s = O ↔ c ∉ bytes s.
Proof. induction s as [|a s IH]; cbn; [set_solver|]. case_bool_decide; set_solver. Qed.
End string_lemmas.

Section entries_lemmas.
Context {A : Type}.
Implicit Types (m : gmap string A).

Lemma elem_of_sorted_entries m k x : (k, x) ∈ sorted_entries m ↔ m !! k = Some x.
Proof. unfold sorted_entries. by rewrite sort_by_key_perm, elem_of_map_to_list. Qed.
Lemma elem_of_sorted_keys m k : k ∈ sorted_keys m ↔ k ∈ dom m.
Proof.
  unfold sorted_keys. rewrite list_elem_of_fmap, elem_of_dom. split.
  - intros ([k' x] & -> & Hx). exists x. by apply elem_of_sorted_entries.
  - intros [x Hx]. exists (k, x). split; [done|]. by apply elem_of_sorted_entries.
Qed.
End entries_lemmas.

(** ** Sums of lists *)
Definition sum_by {A} (f : A → Z) (l : list A) : Z := foldr (λ x acc, f x + acc) 0 l.

Section sum_lemmas.
Context {A : Type}.
Implicit Types (f g : A → Z) (l : list A).

Lemma sum_by_app f l1 l2 : sum_by f (l1 ++ l2) = sum_by f l1 + sum_by f l2.
Proof. unfold sum_by. induction l1 as [|x l1 IH]; cbn; [done|]. rewrite IH. lia. Qed.
Lemma sum_by_cons f x l : sum_by f (x :: l) = f x + sum_by f l.
Proof. done. Qed.
Lemma sum_by_nonneg f l : (∀ x, x ∈ l → 0 ≤ f x) → 0 ≤ sum_by f l.
Proof.
  unfold sum_by. induction l as [|x l IH]; cbn; intros H; [done|].
  specialize (IH ltac:(set_solver)). specialize (H x ltac:(left)). lia.
Qed.
Lemma sum_by_le f g l : (∀ x, x ∈ l → f x ≤ g x) → sum_by f l ≤ sum_by g l.
Proof.
  unfold sum_by. induction l as [|x l IH]; cbn; intros H; [done|].
  specialize (IH ltac:(set_solver)). specialize (H x ltac:(left)). lia.
Qed.
Lemma sum_by_perm f l1 l2 : l1 ≡ₚ l2 → sum_by f l1 = sum_by f l2.
Proof. unfold sum_by. induction 1; cbn; lia. Qed.
End sum_lemmas.

Create HintDb bitrouter.
Create Rewrite HintDb bitrouter.
#[export] Hint Rewrite @sum_by_app len_app : bitrouter.
#[export] Hint Resolve len_nonneg sum_by_nonneg : bitrouter.

(** ** Digests

    [serde_json::to_vec] and [Sha256] are other crates: the JSON text of a value and the
    lower-case hexadecimal digest of a text are parameters of the model. *)
Class CanonicalJson (T : Type) := canonical_json : T → result string string.
Class Sha256 := sha256_hex : string → string.
Definition canonical_digest `{Sha256, CanonicalJson T} (value : T) : result string string :=
  canonical ← canonical_json value;
  Ok ("sha256:" +:+ sha256_hex canonical).

(** Sixty-four lower-case hexadecimal digits: the shape of every digest text. *)
Definition is_lower_hex (a : ascii) : bool :=
  is_ascii_hexdigit (byte a) && negb (is_ascii_uppercase (byte a)).
Definition is_hex64 (s : string) : bool :=
  (String.length s =? 64)%nat && forallb is_lower_hex (bytes s).
(** What SHA-256 and [hex::encode] document about their output. *)
Class Sha256Shape `{Sha256} := sha256_hex_shape : ∀ s, is_hex64 (sha256_hex s) = true.

Section filter_lemmas.
Context {A : Type}.

(** [l.filter(f).count()] *)
Definition countb (f : A → bool) (l : list A) : Z := sum_by (λ x, of_bool (f x)) l.
Lemma countb_filter (f : A → bool) l : countb f l = Z.of_nat (length (List.filter f l)).
Proof.
  unfold countb, sum_by. induction l as [|x l IH]; cbn; [done|]. rewrite IH.
  destruct (f x); cbn; lia.
Qed.
Lemma countb_cons (f : A → bool) x l : countb f (x :: l) = of_bool (f x) + countb f l.
Proof. done. Qed.
Lemma countb_app (f : A → bool) l1 l2 : countb f (l1 ++ l2) = countb f l1 + countb f l2.
Proof. apply sum_by_app. Qed.
Lemma countb_nonneg (f : A → bool) l : 0 ≤ countb f l.
Proof. rewrite countb_filter. lia. Qed.
Lemma length_1 (l : list A) : length l = 1%nat → ∃ x, l = [x].
Proof. destruct l as [|x [|]]; cbn; [done|by exists x|done]. Qed.
Lemma filter_singleton (f : A → bool) l x y :
  List.filter f l = [x] → y ∈ l → f y = true → y = x.
Proof.
  intros Hf Hy Hfy. assert (y ∈ List.filter f l) as Hin.
  { apply list_elem_of_In, filter_In. split; [by apply list_elem_of_In|done]. }
  rewrite Hf in Hin. set_solver.
Qed.
Lemma filter_elem (f : A → bool) l x : x ∈ List.filter f l ↔ x ∈ l ∧ f x = true.
Proof. by rewrite !list_elem_of_In, filter_In. Qed.
Lemma filter_map {B} (g : B → A) (f : A → bool) l :
  List.filter f (map g l) = map g (List.filter (λ x, f (g x)) l).
Proof. induction l as [|x l IH]; cbn; [done|]. rewrite IH. by destruct (f (g x)). Qed.
Lemma filter_perm (f : A → bool) l1 l2 : l1 ≡ₚ l2 → List.filter f l1 ≡ₚ List.filter f l2.
Proof.
  induction 1 as [|x l1 l2 _ IH|x y l|l1 l2 l3 _ IH1 _ IH2]; cbn; [done| | |by etrans].
  - by destruct (f x); rewrite IH.
  - destruct (f x), (f y); auto using Permutation_swap.
Qed.
End filter_lemmas.
