(* ===== verification/MapSum.v ===== *)
(** Sums over finite maps: how a sum changes when one entry, or a list of distinct entries,
    changes. The ledgers of the tenancy admission are stated with them. *)
From stdpp Require Import base list strings gmap.
From Stdlib Require Import ZArith Lia.
From S2P Require Import Prelude.
Open Scope Z_scope.

(** [m.iter().map(|(k, v)| f(k, v)).sum()] *)
Definition msum `{Countable K} {V} (f : K → V → Z) (m : gmap K V) : Z :=
  sum_by (λ kv, f kv.1 kv.2) (map_to_list m).
(** How many entries satisfy [f]. *)
Definition mcount `{Countable K} {V} (f : K → V → bool) (m : gmap K V) : Z :=
  msum (λ k v, of_bool (f k v)) m.
(** What one entry, present or not, contributes. *)
Definition share {V} (f : V → Z) (o : option V) : Z := from_option f 0 o.

Section msum.
Context `{Countable K} {V : Type}.
Implicit Types (f g : K → V → Z) (m : gmap K V).

Lemma msum_empty f : msum f (∅ : gmap K V) = 0.
Proof. unfold msum. by rewrite map_to_list_empty. Qed.
Lemma msum_insert_new f m k v : m !! k = None → msum f (<[k := v]> m) = f k v + msum f m.
Proof. intros Hk. unfold msum. by rewrite (sum_by_perm _ _ _ (map_to_list_insert m k v Hk)). Qed.
Lemma msum_delete f m k : msum f (delete k m) = msum f m - share (f k) (m !! k).
Proof.
  destruct (m !! k) as [v|] eqn:Hk; cbn.
  - rewrite <-(insert_delete_id m k v Hk) at 2. rewrite msum_insert_new by apply lookup_delete_eq. lia.
  - rewrite delete_id by done. lia.
Qed.
Lemma msum_insert f m k v : msum f (<[k := v]> m) = msum f m + f k v - share (f k) (m !! k).
Proof.
  rewrite <-insert_delete_eq, msum_insert_new by apply lookup_delete_eq.
  rewrite msum_delete. lia.
Qed.
Lemma msum_partial_alter f m k h :
  msum f (partial_alter h k m) = msum f m - share (f k) (m !! k) + share (f k) (h (m !! k)).
Proof.
  destruct (h (m !! k)) as [v|] eqn:Hh.
  - assert (partial_alter h k m = <[k := v]> m) as ->.
    { apply map_eq. intros i. destruct (decide (i = k)) as [->|].
      - by rewrite lookup_partial_alter_eq, lookup_insert_eq.
      - by rewrite lookup_partial_alter_ne, lookup_insert_ne. }
    rewrite msum_insert. cbn. lia.
  - assert (partial_alter h k m = delete k m) as ->.
    { apply map_eq. intros i. destruct (decide (i = k)) as [->|].
      - by rewrite lookup_partial_alter_eq, lookup_delete_eq.
      - by rewrite lookup_partial_alter_ne, lookup_delete_ne. }
    rewrite msum_delete. cbn. lia.
Qed.
Lemma msum_ext f g m : (∀ k v, m !! k = Some v → f k v = g k v) → msum f m = msum g m.
Proof.
  induction m as [|k v m Hk IH] using map_ind; intros Hfg; [by rewrite !msum_empty|].
  rewrite !msum_insert_new by done. rewrite (Hfg k v) by apply lookup_insert_eq. f_equal.
  apply IH. intros i w Hi. apply Hfg. rewrite lookup_insert_ne; [done|congruence].
Qed.
Lemma msum_nonneg f m : (∀ k v, m !! k = Some v → 0 ≤ f k v) → 0 ≤ msum f m.
Proof.
  intros Hf. apply sum_by_nonneg. intros [k v] Hkv. by apply Hf, elem_of_map_to_list.
Qed.
Lemma msum_lookup_le f m k v :
  (∀ i w, m !! i = Some w → 0 ≤ f i w) → m !! k = Some v → f k v ≤ msum f m.
Proof.
  intros Hf Hk. rewrite <-(insert_delete_id m k v Hk), msum_insert_new by apply lookup_delete_eq.
  enough (0 ≤ msum f (delete k m)) by lia. apply msum_nonneg.
  intros i w [_ Hi]%lookup_delete_Some. by eapply Hf.
Qed.
Lemma msum_le f g m : (∀ k v, m !! k = Some v → f k v ≤ g k v) → msum f m ≤ msum g m.
Proof.
  intros Hfg. apply sum_by_le. intros [k v] Hkv. by apply Hfg, elem_of_map_to_list.
Qed.
Lemma msum_add f g m : msum (λ k v, f k v + g k v) m = msum f m + msum g m.
Proof.
  induction m as [|k v m Hk IH] using map_ind; [by rewrite !msum_empty|].
  rewrite !msum_insert_new by done. lia.
Qed.
Lemma msum_scale c f m : msum (λ k v, c * f k v) m = c * msum f m.
Proof.
  induction m as [|k v m Hk IH] using map_ind; [rewrite !msum_empty; lia|].
  rewrite !msum_insert_new by done. lia.
Qed.
Lemma msum_const_0 m : msum (λ _ _, 0) m = 0.
Proof.
  induction m as [|k v m Hk IH] using map_ind; [by rewrite msum_empty|].
  rewrite msum_insert_new by done. lia.
Qed.
Lemma msum_size m : msum (λ _ _, 1) m = Z.of_nat (size m).
Proof.
  induction m as [|k v m Hk IH] using map_ind; [by rewrite msum_empty|].
  rewrite msum_insert_new, map_size_insert_None by done. lia.
Qed.
(** An entry that the sum does not see. *)
Lemma msum_zero f m : (∀ k v, m !! k = Some v → f k v = 0) → msum f m = 0.
Proof. intros Hf. rewrite (msum_ext f (λ _ _, 0)) by done. apply msum_const_0. Qed.
Lemma msum_zero_inv f m k v :
  (∀ i w, m !! i = Some w → 0 ≤ f i w) → msum f m = 0 → m !! k = Some v → f k v = 0.
Proof.
  intros Hf H0 Hk. pose proof (msum_lookup_le f m k v Hf Hk). specialize (Hf k v Hk). lia.
Qed.
End msum.

Section mcount.
Context `{Countable K} {V : Type}.
Implicit Types (f : K → V → bool) (m : gmap K V).

Lemma mcount_nonneg f m : 0 ≤ mcount f m.
Proof. apply msum_nonneg. intros k v _. apply of_bool_bounds. Qed.
Lemma mcount_pos f m k v : m !! k = Some v → f k v = true → 1 ≤ mcount f m.
Proof.
  intros Hk Hf. pose proof (msum_lookup_le (λ k v, of_bool (f k v)) m k v
    (λ i w _, proj1 (of_bool_bounds _)) Hk) as Hle. cbn in Hle. rewrite Hf in Hle. exact Hle.
Qed.
Lemma mcount_0 f m : mcount f m = 0 ↔ ∀ k v, m !! k = Some v → f k v = false.
Proof.
  split.
  - intros H0 k v Hk. destruct (f k v) eqn:Hf; [|done]. pose proof (mcount_pos f m k v Hk Hf). lia.
  - intros Hf. apply msum_zero. intros k v Hk. by rewrite (Hf k v Hk).
Qed.
Lemma mcount_le f (g : K → V → bool) m :
  (∀ k v, m !! k = Some v → f k v = true → g k v = true) → mcount f m ≤ mcount g m.
Proof.
  intros Hfg. apply msum_le. intros k v Hk. specialize (Hfg k v Hk).
  destruct (f k v), (g k v); cbn; lia.
Qed.
Lemma mcount_ext f (g : K → V → bool) m :
  (∀ k v, m !! k = Some v → f k v = g k v) → mcount f m = mcount g m.
Proof. intros Hfg. apply msum_ext. intros k v Hk. by rewrite (Hfg k v Hk). Qed.
Lemma mcount_insert_new f m k v :
  m !! k = None → mcount f (<[k := v]> m) = of_bool (f k v) + mcount f m.
Proof. apply msum_insert_new. Qed.
Lemma mcount_delete f m k v :
  m !! k = Some v → mcount f (delete k m) = mcount f m - of_bool (f k v).
Proof. intros Hk. unfold mcount. rewrite msum_delete, Hk. done. Qed.
Lemma mcount_insert f m k v w :
  m !! k = Some v → mcount f (<[k := w]> m) = mcount f m + of_bool (f k w) - of_bool (f k v).
Proof. intros Hk. unfold mcount. rewrite msum_insert, Hk. done. Qed.
Lemma mcount_split f m k v :
  m !! k = Some v → mcount f m = of_bool (f k v) + mcount f (delete k m).
Proof. intros Hk. rewrite (mcount_delete f m k v Hk). lia. Qed.
End mcount.
Lemma alter_as_insert `{Countable K} {V} (f : V → V) (m : gmap K V) k v :
  m !! k = Some v → alter f k m = <[k := f v]> m.
Proof.
  intros Hk. apply map_eq. intros i. destruct (decide (i = k)) as [->|Hne].
  - by rewrite lookup_alter_eq, lookup_insert_eq, Hk.
  - by rewrite lookup_alter_ne, lookup_insert_ne.
Qed.

(** ** Changing the entries of a list of distinct keys, one at a time

    [for s in steps { entry of s.key = h(s, entry) }], with the keys all different: each
    key sees the original entry, so the sum changes by what each step changes. *)
Section alter_each.
Context `{Countable K} {V S : Type} (key : S → K) (h : S → option V → option V).
Implicit Types (m : gmap K V) (l : list S).

Definition alter_each m l : gmap K V := foldl (λ m s, partial_alter (h s) (key s) m) m l.

Lemma alter_each_ne m l k : k ∉ key <$> l → alter_each m l !! k = m !! k.
Proof.
  unfold alter_each. revert m. induction l as [|s l IH]; intros m Hk; cbn; [done|].
  rewrite IH by set_solver. apply lookup_partial_alter_ne. set_solver.
Qed.
Lemma alter_each_eq m l s : NoDup (key <$> l) → s ∈ l → alter_each m l !! key s = h s (m !! key s).
Proof.
  unfold alter_each. revert m. induction l as [|s' l IH]; intros m Hnd Hs; cbn in *; [set_solver|].
  apply NoDup_cons in Hnd as [Hn Hnd]. apply elem_of_cons in Hs as [->|Hs].
  - fold (alter_each (partial_alter (h s') (key s') m) l). rewrite alter_each_ne by done.
    apply lookup_partial_alter_eq.
  - rewrite IH by done. f_equal. apply lookup_partial_alter_ne. intros Heq. apply Hn.
    rewrite Heq. by apply list_elem_of_fmap_2.
Qed.
Lemma msum_alter_each f m l :
  NoDup (key <$> l) →
  msum f (alter_each m l) =
    msum f m + sum_by (λ s, share (f (key s)) (h s (m !! key s)) - share (f (key s)) (m !! key s)) l.
Proof.
  unfold alter_each. revert m. induction l as [|s l IH]; intros m Hnd; cbn; [lia|].
  apply NoDup_cons in Hnd as [Hn Hnd]. rewrite IH by done. rewrite msum_partial_alter.
  enough (sum_by (λ s', share (f (key s')) (h s' (partial_alter (h s) (key s) m !! key s')) -
                        share (f (key s')) (partial_alter (h s) (key s) m !! key s')) l =
          sum_by (λ s', share (f (key s')) (h s' (m !! key s')) - share (f (key s')) (m !! key s')) l)
    as -> by (unfold sum_by; cbn; lia).
  apply Z.le_antisymm; apply sum_by_le; intros s' Hs';
    (rewrite lookup_partial_alter_ne; [lia|]; intros Heq; apply Hn; rewrite Heq;
     by apply list_elem_of_fmap_2).
Qed.
End alter_each.
