(* ===== verification/ExactInteger.v ===== *)
(** Exact integers of tenancy JSON ([crates/bitrouter-ai/src/tenancy/number.rs]): a token is read
    digit by digit, never through a float, and it is accepted in every spelling of an integer. *)
From stdpp Require Import base list strings sets.
From Stdlib Require Import ZArith Lia Ascii.
From S2P Require Import Prelude.
Open Scope Z_scope.

(** ** The parser *)

(** [AuthorityRevision::MAX] *)
Definition MAX : Z := 9007199254740991.
Definition is_digit (a : ascii) : bool := is_ascii_digit (byte a).
(** [u64::from(digit - b'0')] *)
Definition digit_of (a : ascii) : Z := Z.of_N (byte a) - 48.
(** A result of checked arithmetic on [i64]. *)
Definition checked_i64 (n : Z) : option Z :=
  if (- i64_max - 1 <=? n) && (n <=? i64_max) then Some n else None.
(** [split_once(['e', 'E'])] *)
Fixpoint split_exponent (s : string) : option (string * string) :=
  match s with
  | EmptyString => None
  | String a s =>
      if bool_decide (a = "e"%char) || bool_decide (a = "E"%char) then Some (EmptyString, s)
      else '(x, y) ← split_exponent s; Some (String a x, y)
  end.
(** [strip_prefix(['+', '-'])] *)
Definition strip_sign (s : string) : option string :=
  match s with
  | String a s => if bool_decide (a = "+"%char) || bool_decide (a = "-"%char) then Some s else None
  | EmptyString => None
  end.
(** The loop that finds the first and the last digit other than zero. *)
Fixpoint scan (index : nat) (first : option nat) (last : nat) (digits : list ascii) :
    option nat * nat :=
  match digits with
  | [] => (first, last)
  | digit :: digits =>
      if bool_decide (digit = "0"%char) then scan (S index) first last digits
      else scan (S index) (Some (default index first)) index digits
  end.
Definition add_magnitude (cap n : Z) (b : ascii) : Z :=
  Z.min (saturating_add i64_max (saturating_mul i64_max n 10) (digit_of b)) cap.
Fixpoint add_digits (value : Z) (digits : list ascii) : option Z :=
  match digits with
  | [] => Some value
  | digit :: digits =>
      value ← value *? 10;
      value ← value +? digit_of digit;
      add_digits value digits
  end.
Fixpoint times_ten (n : nat) (value : Z) : option Z :=
  match n with O => Some value | S n => value ← value *? 10; times_ten n value end.

(** From [let Some(first) = first] on: the exponent, the number of integer digits, the value. *)
Definition exact_nonzero (raw_len : Z) (whole exponent : string) (digits : list ascii)
    (first last : nat) : option Z :=
  let exp_negative := starts_with "-" exponent in
  let exp_digits := default exponent (strip_sign exponent) in
  if is_empty exp_digits || negb (forallb is_digit (bytes exp_digits)) then None else
  cap ← checked_i64 raw_len;
  cap ← checked_i64 (cap + 32);
  let magnitude := foldl (add_magnitude cap) 0 (bytes exp_digits) in
  let exponent := if exp_negative then - magnitude else magnitude in
  integer_digits ← checked_i64 (len whole);
  integer_digits ← checked_i64 (integer_digits + exponent);
  integer_digits ← checked_i64 (integer_digits - Z.of_nat first);
  let significant_digits := (last - first + 1)%nat in
  if negb ((1 <=? integer_digits) && (integer_digits <=? 16)) ||
     (integer_digits <? Z.of_nat significant_digits) then None else
  value ← add_digits 0 (take significant_digits (drop first digits));
  value ← times_ten (Z.to_nat integer_digits - significant_digits) value;
  if value <=? MAX then Some value else None.
Definition exact_integer (raw : string) : option Z :=
  let negative := starts_with "-" raw in
  let raw := default raw (strip_prefix "-" raw) in
  let '(mantissa, exponent) := default (raw, "0") (split_exponent raw) in
  let '(whole, fraction) := default (mantissa, "") (split_once "." mantissa) in
  let digits := bytes whole ++ bytes fraction in
  if is_empty whole || negb (forallb is_digit digits) then None else
  match scan 0 None 0 digits with
  | (None, _) => Some 0
  | (Some first, last) =>
      if negative then None else exact_nonzero (len raw) whole exponent digits first last
  end.

(** [T::try_from] is the conversion of the field's type. *)
Definition convert {T} (try_from : Z → option T) (raw : string) : option T :=
  exact_integer raw ≫= try_from.
(** The raw token comes from [serde_json]; a null token is [None]. *)
Definition integer {T} (try_from : Z → option T) (raw : string) : result string T :=
  ok_or (convert try_from raw) "expected an exact bounded nonnegative integer".
Definition nullable_integer (try_from : Z → option Z) (raw : option string) :
    result string (option Z) :=
  match raw with
  | None => Ok None
  | Some raw => n ← ok_or (convert try_from raw) "expected null or an exact bounded integer"; Ok (Some n)
  end.

(** ** Literals and what they denote *)

(** A number of JSON (and a little more: leading zeros, and no digits after the point). *)
Record Literal := {
  minus : bool; whole : string; fraction : option string;
  exponent : option (ascii * option ascii * string) }.
Definition all_digits (s : string) : bool := forallb is_digit (bytes s).
Definition exponent_ok (e : ascii * option ascii * string) : bool :=
  let '(mark, sign, digits) := e in
  (bool_decide (mark = "e"%char) || bool_decide (mark = "E"%char)) &&
  is_none_or (λ a, bool_decide (a = "+"%char) || bool_decide (a = "-"%char)) sign &&
  negb (is_empty digits) && all_digits digits.
Definition Literal_ok (l : Literal) : bool :=
  negb (is_empty (whole l)) && all_digits (whole l) && is_none_or all_digits (fraction l) &&
  is_none_or exponent_ok (exponent l).
Definition mantissa (l : Literal) : string :=
  whole l +:+ match fraction l with Some f => String "." f | None => "" end.
Definition exponent_text (e : ascii * option ascii * string) : string :=
  let '(_, sign, digits) := e in match sign with Some a => String a digits | None => digits end.
Definition unsigned (l : Literal) : string :=
  mantissa l +:+ match exponent l with Some e => String e.1.1 (exponent_text e) | None => "" end.
Definition render (l : Literal) : string := (if minus l then "-" else "") +:+ unsigned l.

Definition decimal (digits : list ascii) : Z := foldl (λ n a, 10 * n + digit_of a) 0 digits.
Definition fraction_digits (l : Literal) : string := default "" (fraction l).
(** The digits of the mantissa as one integer, and the scale of the exponent. *)
Definition digits_value (l : Literal) : Z := decimal (bytes (whole l) ++ bytes (fraction_digits l)).
Definition scale (l : Literal) : Z :=
  match exponent l with
  | Some (_, Some a, digits) =>
      if bool_decide (a = "-"%char) then - decimal (bytes digits) else decimal (bytes digits)
  | Some (_, None, digits) => decimal (bytes digits)
  | None => 0
  end.
(** [l] is the number [n]: sign, digits, ten to the scale, less the digits after the point; the
    powers of ten are on the side where they are integers. *)
Definition denotes (l : Literal) (n : Z) : Prop :=
  (if minus l then - digits_value l else digits_value l) * 10 ^ Z.max 0 (scale l) =
  n * 10 ^ (len (fraction_digits l) + Z.max 0 (- scale l)).

(** ** Tokens *)

(** The bytes that end a run of digits are no digits. *)
Lemma digits_no (c : ascii) (l : list ascii) : is_digit c = false → forallb is_digit l = true → c ∉ l.
Proof.
  intros Hc Hl Hin. rewrite forallb_forall in Hl. apply list_elem_of_In, Hl in Hin. congruence.
Qed.
Lemma split_once_none (c : ascii) s : c ∉ bytes s → split_once c s = None.
Proof.
  induction s as [|a s IH]; cbn; [done|]. intros Hc.
  rewrite bool_decide_eq_false_2, IH by set_solver. done.
Qed.
Definition no_mark (s : string) : Prop := "e"%char ∉ bytes s ∧ "E"%char ∉ bytes s.
Lemma split_exponent_app x a y :
  no_mark x → a = "e"%char ∨ a = "E"%char → split_exponent (x +:+ String a y) = Some (x, y).
Proof.
  intros Hx Ha. induction x as [|b x IH]; cbn.
  - by destruct Ha as [-> | ->].
  - unfold no_mark in *. cbn in Hx. rewrite !bool_decide_eq_false_2 by set_solver. cbn.
    by rewrite IH by set_solver.
Qed.
Lemma split_exponent_none s : no_mark s → split_exponent s = None.
Proof.
  unfold no_mark. induction s as [|a s IH]; cbn; [done|]. intros Hs.
  rewrite !bool_decide_eq_false_2 by set_solver. cbn. by rewrite IH by set_solver.
Qed.
Lemma split_exponent_Some s x y :
  split_exponent s = Some (x, y) → ∃ a, s = x +:+ String a y ∧ (a = "e"%char ∨ a = "E"%char).
Proof.
  revert x. induction s as [|b s IH]; intros x; cbn; [done|].
  destruct (_ || _) eqn:Hb.
  - intros [= <- <-]. exists b. split; [done|]. rewrite orb_true_iff, !bool_decide_eq_true in Hb. done.
  - destruct (split_exponent s) as [[x' y']|]; cbn; [|done]. intros [= <- <-].
    destruct (IH x' eq_refl) as (a & -> & Ha). by exists a.
Qed.

Lemma Literal_ok_parts l : Literal_ok l = true →
  is_empty (whole l) = false ∧ all_digits (whole l) = true ∧ all_digits (fraction_digits l) = true ∧
  ∀ e, exponent l = Some e → exponent_ok e = true.
Proof.
  unfold Literal_ok, fraction_digits. rewrite !andb_true_iff, negb_true_iff.
  intros (((? & ?) & Hf) & He). split_and!; try done.
  - by destruct (fraction l).
  - intros e Hl. by rewrite Hl in He.
Qed.
Lemma bytes_mantissa l : bytes (mantissa l) =
  bytes (whole l) ++ match fraction l with Some f => "."%char :: bytes f | None => [] end.
Proof. unfold mantissa. rewrite bytes_app. by destruct (fraction l). Qed.
Lemma mantissa_no_mark l : Literal_ok l = true → no_mark (mantissa l).
Proof.
  intros (_ & Hw & Hf & _)%Literal_ok_parts. unfold no_mark. rewrite bytes_mantissa.
  unfold all_digits, fraction_digits in *.
  pose proof (digits_no "e" _ eq_refl Hw). pose proof (digits_no "E" _ eq_refl Hw).
  pose proof (digits_no "e" _ eq_refl Hf). pose proof (digits_no "E" _ eq_refl Hf).
  destruct (fraction l); cbn in *; set_solver.
Qed.
(** The exponent text that the code reads. *)
Definition exponent_read (l : Literal) : string :=
  match exponent l with Some e => exponent_text e | None => "0" end.
Lemma split_unsigned l : Literal_ok l = true →
  default (unsigned l, "0") (split_exponent (unsigned l)) = (mantissa l, exponent_read l).
Proof.
  intros Hok. pose proof (mantissa_no_mark l Hok) as Hm.
  destruct (Literal_ok_parts l Hok) as (_ & _ & _ & He). unfold unsigned, exponent_read.
  destruct (exponent l) as [e|].
  - specialize (He _ eq_refl). rewrite split_exponent_app; [done|done|].
    destruct e as [[mark sign] digits]. cbn in *. rewrite !andb_true_iff, orb_true_iff, !bool_decide_eq_true in He. tauto.
  - rewrite app_empty_r. by rewrite split_exponent_none.
Qed.
Lemma split_mantissa l : Literal_ok l = true →
  default (mantissa l, "") (split_once "." (mantissa l)) = (whole l, fraction_digits l).
Proof.
  intros (_ & Hw & _ & _)%Literal_ok_parts. pose proof (digits_no "." _ eq_refl Hw) as Hno.
  unfold mantissa, fraction_digits. destruct (fraction l).
  - by rewrite split_once_app.
  - rewrite app_empty_r. by rewrite split_once_none.
Qed.
Lemma unsigned_no_minus l : Literal_ok l = true → strip_prefix "-" (unsigned l) = None.
Proof.
  intros (He & Hw & _ & _)%Literal_ok_parts. unfold unsigned, mantissa, all_digits in *.
  destruct (whole l) as [|a s]; [done|]. cbn in *. apply andb_true_iff in Hw as [Ha _].
  rewrite bool_decide_eq_false_2; [done|]. by intros <-.
Qed.
Lemma render_sign l : Literal_ok l = true →
  starts_with "-" (render l) = minus l ∧
  default (render l) (strip_prefix "-" (render l)) = unsigned l.
Proof.
  intros Hok. pose proof (unsigned_no_minus l Hok) as Hn. unfold render. destruct (minus l).
  - split; [apply starts_with_app|]. by rewrite (proj2 (strip_prefix_Some "-" _ (unsigned l)) eq_refl).
  - cbn [String.append]. rewrite Hn. split; [|done]. unfold starts_with. rewrite Hn. done.
Qed.
Definition digits (l : Literal) : list ascii := bytes (whole l) ++ bytes (fraction_digits l).
Lemma digits_ok l : Literal_ok l = true → forallb is_digit (digits l) = true.
Proof.
  intros (_ & Hw & Hf & _)%Literal_ok_parts. unfold digits. rewrite forallb_app. by apply andb_true_iff.
Qed.
(** On a literal the parser sees its parts. *)
Lemma exact_integer_render l : Literal_ok l = true →
  exact_integer (render l) =
  match scan 0 None 0 (digits l) with
  | (None, _) => Some 0
  | (Some first, last) =>
      if minus l then None
      else exact_nonzero (len (unsigned l)) (whole l) (exponent_read l) (digits l) first last
  end.
Proof.
  intros Hok. unfold exact_integer. destruct (render_sign l Hok) as [-> ->].
  rewrite (split_unsigned l Hok), (split_mantissa l Hok). cbv beta iota zeta.
  pose proof (digits_ok l Hok) as Hd. destruct (Literal_ok_parts l Hok) as (-> & _). unfold digits in *.
  rewrite Hd. done.
Qed.

(** ** Decimal values *)

Lemma digit_of_bounds a : is_digit a = true → 0 ≤ digit_of a ≤ 9.
Proof. unfold is_digit, is_ascii_digit, digit_of. rewrite andb_true_iff, !N.leb_le. lia. Qed.
Lemma digit_of_zero a : is_digit a = true → digit_of a = 0 ↔ a = "0"%char.
Proof.
  intros Ha. split; [|by intros ->]. unfold digit_of, byte. intros Hz.
  rewrite <-(ascii_N_embedding a). replace (N_of_ascii a) with 48%N by lia. done.
Qed.
Lemma decimal_snoc l a : decimal (l ++ [a]) = 10 * decimal l + digit_of a.
Proof. unfold decimal. by rewrite foldl_app. Qed.
Lemma decimal_app l1 l2 : decimal (l1 ++ l2) = decimal l1 * 10 ^ Z.of_nat (length l2) + decimal l2.
Proof.
  induction l2 as [|a l2 IH] using rev_ind; [rewrite app_nil_r; cbn; lia|].
  rewrite app_assoc, !decimal_snoc, IH, length_app, Nat2Z.inj_add. cbn [length Z.of_nat Pos.of_succ_nat].
  rewrite Z.pow_add_r by lia. lia.
Qed.
Lemma decimal_bounds l : forallb is_digit l = true → 0 ≤ decimal l < 10 ^ Z.of_nat (length l).
Proof.
  induction l as [|a l IH] using rev_ind; [done|].
  rewrite forallb_app, andb_true_iff. cbn. rewrite andb_true_r. intros [Hl Ha].
  apply digit_of_bounds in Ha. apply IH in Hl. rewrite decimal_snoc, length_app, Nat2Z.inj_add.
  cbn [length Z.of_nat Pos.of_succ_nat]. rewrite Z.pow_add_r by lia. lia.
Qed.
Lemma decimal_zeros l : (∀ a, a ∈ l → a = "0"%char) → decimal l = 0.
Proof.
  induction l as [|a l IH] using rev_ind; [done|]. intros Hz. rewrite decimal_snoc, IH by set_solver.
  by rewrite (Hz a) by set_solver.
Qed.
(** A run of digits between two digits other than zero. *)
Record significant (l : list ascii) : Prop := {
  sg_digits : forallb is_digit l = true;
  sg_head : ∃ a r, l = a :: r ∧ a ≠ "0"%char;
  sg_last : ∃ r a, l = r ++ [a] ∧ a ≠ "0"%char }.
Lemma significant_bounds l : significant l →
  10 ^ (Z.of_nat (length l) - 1) ≤ decimal l < 10 ^ Z.of_nat (length l) ∧ (0 < length l)%nat.
Proof.
  intros [Hd (a & r & -> & Ha) _]. pose proof (decimal_bounds _ Hd) as [_ Hlt].
  split; [split; [|done]|cbn; lia]. change (a :: r) with ([a] ++ r). rewrite decimal_app.
  cbn in Hd. apply andb_true_iff in Hd as [Hda Hr]. pose proof (decimal_bounds _ Hr).
  pose proof (digit_of_bounds a Hda). pose proof (digit_of_zero a Hda).
  change (decimal [a]) with (0 + digit_of a). cbn [length app]. replace (Z.of_nat (S (length r)) - 1) with (Z.of_nat (length r)) by lia.
  assert (digit_of a ≠ 0) by tauto. pose proof (Z.pow_pos_nonneg 10 (Z.of_nat (length r))). nia.
Qed.
Lemma significant_odd l : significant l → decimal l mod 10 ≠ 0.
Proof.
  intros [Hd _ (r & a & -> & Ha)]. rewrite decimal_snoc, Z.mul_comm, Z.add_comm, Z.mod_add by done.
  rewrite forallb_app, andb_true_iff in Hd. cbn in Hd. rewrite andb_true_r in Hd. destruct Hd as [_ Hd].
  pose proof (digit_of_bounds a Hd). pose proof (digit_of_zero a Hd). rewrite Z.mod_small by lia. tauto.
Qed.

(** ** The loops *)

Definition zeros (l : list ascii) : Prop := ∀ a, a ∈ l → a = "0"%char.
Lemma scan_zeros i f last l : zeros l → scan i f last l = (f, last).
Proof.
  revert i. induction l as [|a l IH]; intros i Hz; cbn; [done|].
  rewrite bool_decide_eq_true_2 by (apply Hz; set_solver). apply IH. intros b Hb. apply Hz. set_solver.
Qed.
Lemma scan_app i f last l1 l2 :
  scan i f last (l1 ++ l2) =
  let '(f, last) := scan i f last l1 in scan (i + length l1) f last l2.
Proof.
  revert i f last. induction l1 as [|a l1 IH]; intros i f last; cbn; [by rewrite Nat.add_0_r|].
  case_bool_decide; rewrite IH; by rewrite <-Nat.add_succ_comm.
Qed.
Lemma scan_some i f last l : ∃ last', scan i (Some f) last l = (Some f, last').
Proof. revert i last. induction l as [|a l IH]; intros i last; cbn; [by eexists|]. case_bool_decide; apply IH. Qed.
Lemma scan_significant i last l : significant l → scan i None last l = (Some i, (i + length l - 1)%nat).
Proof.
  intros [_ (a & r & -> & Ha) (r' & b & Hl & Hb)]. rewrite Hl, scan_app.
  destruct (scan i None last r') as [f' last'] eqn:Hs. cbn. rewrite bool_decide_eq_false_2 by done.
  rewrite length_app. cbn. f_equal; [|lia]. destruct r' as [|c r'].
  - cbn in *. injection Hs as <- <-. cbn. f_equal. lia.
  - injection Hl as -> ->. cbn in Hs. rewrite bool_decide_eq_false_2 in Hs by done.
    destruct (scan_some (S i) i i r') as [last'' Hs']. cbn in Hs. rewrite Hs' in Hs. by injection Hs as <- _.
Qed.
(** All digits are zero, or they are zeros around a significant run. *)
Lemma digits_cases l : forallb is_digit l = true →
  zeros l ∨ ∃ pre mid post, l = pre ++ mid ++ post ∧ zeros pre ∧ zeros post ∧ significant mid.
Proof.
  intros Hd. induction l as [|a l IH]; [by left; intros a Ha; apply elem_of_nil in Ha|].
  cbn in Hd. apply andb_true_iff in Hd as [Ha Hl].
  destruct (IH Hl) as [Hz|(pre & mid & post & -> & Hp & Hq & Hm)]; destruct (decide (a = "0"%char)) as [->|Hne].
  - left. intros b [->|Hb]%elem_of_cons; [done|by apply Hz].
  - right. exists [], [a], l. split_and!; try done; [by intros b Hb; apply elem_of_nil in Hb|].
    split; [cbn; by rewrite Ha|by exists a, []|by exists [], a].
  - right. exists ("0"%char :: pre), mid, post. split_and!; try done.
    intros b [->|Hb]%elem_of_cons; [done|by apply Hp].
  - right. exists [], (a :: pre ++ mid), post. split_and!; try done.
    + cbn. by rewrite app_assoc.
    + by intros b Hb; apply elem_of_nil in Hb.
    + destruct Hm as [_ _ (r & b & -> & Hb)]. rewrite !forallb_app, !andb_true_iff in Hl.
      split; [cbn; rewrite !forallb_app, Ha; cbn in *; by destruct Hl as (-> & (-> & ->) & _)|by eexists _, _|].
      exists (a :: pre ++ r), b. split; [|done]. cbn. by rewrite app_assoc.
Qed.

Lemma add_magnitude_exact cap n a : 0 ≤ cap ≤ i64_max → 0 ≤ n → is_digit a = true →
  add_magnitude cap (Z.min n cap) a = Z.min (10 * n + digit_of a) cap.
Proof.
  intros Hc Hn Ha%digit_of_bounds. unfold add_magnitude, saturating_add, saturating_mul. lia.
Qed.
Lemma magnitude_exact cap l : 0 ≤ cap ≤ i64_max → forallb is_digit l = true →
  foldl (add_magnitude cap) 0 l = Z.min (decimal l) cap.
Proof.
  intros Hc. induction l as [|a l IH] using rev_ind; [cbn; lia|].
  rewrite forallb_app, andb_true_iff. cbn. rewrite andb_true_r. intros [Hl Ha].
  rewrite foldl_app, IH, decimal_snoc by done. cbn. apply add_magnitude_exact; [done| |done].
  by apply decimal_bounds.
Qed.
Lemma decimal_from v l : foldl (λ n a, 10 * n + digit_of a) v l = v * 10 ^ Z.of_nat (length l) + decimal l.
Proof.
  induction l as [|a l IH] using rev_ind; [cbn; lia|].
  rewrite foldl_app, decimal_snoc, length_app, Nat2Z.inj_add. cbn [foldl length Z.of_nat Pos.of_succ_nat].
  rewrite IH, Z.pow_add_r by lia. lia.
Qed.
Lemma add_digits_exact v l : 0 ≤ v → forallb is_digit l = true →
  v * 10 ^ Z.of_nat (length l) + decimal l ≤ u64_max →
  add_digits v l = Some (v * 10 ^ Z.of_nat (length l) + decimal l).
Proof.
  rewrite <-decimal_from. revert v. induction l as [|a l IH]; intros v Hv Hd Hle; cbn; [done|].
  cbn in Hd, Hle. apply andb_true_iff in Hd as [Ha%digit_of_bounds Hl].
  assert (10 * v + digit_of a ≤ u64_max).
  { rewrite decimal_from in Hle. pose proof (decimal_bounds l Hl).
    pose proof (Z.pow_pos_nonneg 10 (Z.of_nat (length l))). nia. }
  rewrite (proj2 (checked_mul_Some u64_max v 10 (10 * v))) by lia. cbn.
  rewrite (proj2 (checked_add_Some u64_max (10 * v) (digit_of a) (10 * v + digit_of a))) by lia. cbn.
  by apply IH; [lia| |].
Qed.
Lemma times_ten_exact n v : 0 ≤ v → v * 10 ^ Z.of_nat n ≤ u64_max → times_ten n v = Some (v * 10 ^ Z.of_nat n).
Proof.
  revert v. induction n as [|n IH]; intros v Hv Hle; cbn [times_ten]; [f_equal; lia|].
  rewrite Nat2Z.inj_succ, Z.pow_succ_r in * by lia. pose proof (Z.pow_pos_nonneg 10 (Z.of_nat n)).
  rewrite (proj2 (checked_mul_Some u64_max v 10 (v * 10))) by nia. cbn. rewrite IH by nia. f_equal. lia.
Qed.
Lemma checked_i64_Some n : - i64_max - 1 ≤ n ≤ i64_max → checked_i64 n = Some n.
Proof. intros H. unfold checked_i64. by rewrite !(proj2 (Z.leb_le _ _)) by lia. Qed.
Lemma checked_i64_cases n m : checked_i64 n = Some m ↔ m = n ∧ - i64_max - 1 ≤ n ≤ i64_max.
Proof.
  unfold checked_i64. destruct (_ && _) eqn:Hb.
  - rewrite andb_true_iff, !Z.leb_le in Hb. split; [by intros [= <-]|by intros [-> _]].
  - rewrite andb_false_iff, !Z.leb_gt in Hb. split; [done|]. intros [_ ?]. lia.
Qed.

(** ** The value *)

Lemma exponent_spec l : Literal_ok l = true →
  let text := exponent_read l in
  let ds := default text (strip_sign text) in
  is_empty ds = false ∧ forallb is_digit (bytes ds) = true ∧
  scale l = if starts_with "-" text then - decimal (bytes ds) else decimal (bytes ds).
Proof.
  intros (_ & _ & _ & He)%Literal_ok_parts. unfold exponent_read, scale.
  destruct (exponent l) as [[[mark sign] ds]|]; [|done]. specialize (He _ eq_refl). cbn in He.
  rewrite !andb_true_iff, negb_true_iff in He. destruct He as (((_ & Hs) & He) & Hd). unfold all_digits in Hd.
  destruct sign as [a|]; cbn [exponent_text] in *.
  - cbn in Hs. rewrite orb_true_iff, !bool_decide_eq_true in Hs. destruct Hs as [-> | ->]; split_and!; done.
  - destruct ds as [|a ds]; [done|]. cbn in Hd. apply andb_true_iff in Hd as [Ha Hd].
    assert (a ≠ "+"%char) by (by intros ->). assert (a ≠ "-"%char) by (by intros ->).
    assert (strip_sign (String a ds) = None) as ->
      by (cbn; by rewrite !bool_decide_eq_false_2 by done).
    assert (starts_with "-" (String a ds) = false) as ->
      by (apply not_true_iff_false; intros [r [= ? _]]%starts_with_true; congruence).
    split_and!; [done| |done]. cbn. by rewrite Ha.
Qed.
(** The number of digits before the point, once the exponent is applied. *)
Definition integer_digits (l : Literal) (first : nat) : Z := len (whole l) + scale l - Z.of_nat first.

Section nonzero.
Context (l : Literal) (Hok : Literal_ok l = true) (Hlen : len (unsigned l) + 32 ≤ i64_max).
Context (pre mid post : list ascii) (Hd : digits l = pre ++ mid ++ post).
Context (Hpre : zeros pre) (Hpost : zeros post) (Hmid : significant mid).
Local Notation I := (integer_digits l (length pre)).

Lemma digits_length : (length pre + length mid + length post)%nat =
  (String.length (whole l) + String.length (fraction_digits l))%nat.
Proof.
  rewrite <-!length_bytes, <-(length_app (bytes (whole l))). fold (digits l). rewrite Hd, !length_app. lia.
Qed.
Lemma unsigned_length : len (whole l) + len (fraction_digits l) ≤ len (unsigned l).
Proof.
  unfold unsigned, mantissa. rewrite !len_app.
  assert (len (fraction_digits l) ≤ len (match fraction l with Some f => String "." f | None => "" end)).
  { unfold fraction_digits, len. destruct (fraction l); cbn -[Z.of_nat]; lia. }
  pose proof (len_nonneg (match exponent l with Some e => String e.1.1 (exponent_text e) | None => "" end)). lia.
Qed.
Lemma digits_value_mid : digits_value l = decimal mid * 10 ^ Z.of_nat (length post).
Proof.
  change (digits_value l) with (decimal (digits l)). rewrite Hd, !decimal_app, (decimal_zeros pre), (decimal_zeros post) by done. lia.
Qed.
Lemma value_loops : Z.of_nat (length mid) ≤ I ≤ 16 →
  add_digits 0 (take (length mid) (drop (length pre) (digits l))) = Some (decimal mid) ∧
  times_ten (Z.to_nat I - length mid) (decimal mid) = Some (decimal mid * 10 ^ (I - Z.of_nat (length mid))).
Proof.
  intros HI. destruct (significant_bounds mid Hmid) as [[Hlo Hhi] Hpos].
  assert (10 ^ I ≤ 10 ^ 16) by (apply Z.pow_le_mono_r; lia). assert (10 ^ 16 ≤ u64_max) by done.
  assert (10 ^ Z.of_nat (length mid) ≤ 10 ^ I) by (apply Z.pow_le_mono_r; lia).
  pose proof (sg_digits _ Hmid) as Hdg. pose proof (decimal_bounds _ Hdg). split.
  - rewrite Hd, drop_app_length, take_app_length. rewrite add_digits_exact by (done || lia). done.
  - assert (decimal mid * 10 ^ (I - Z.of_nat (length mid)) < 10 ^ I).
    { replace (10 ^ I) with (10 ^ Z.of_nat (length mid) * 10 ^ (I - Z.of_nat (length mid)))
        by (rewrite <-Z.pow_add_r by lia; f_equal; lia).
      pose proof (Z.pow_pos_nonneg 10 (I - Z.of_nat (length mid))). nia. }
    replace (I - Z.of_nat (length mid)) with (Z.of_nat (Z.to_nat I - length mid)) in * by lia.
    apply times_ten_exact; lia.
Qed.
Lemma exact_nonzero_iff n :
  exact_nonzero (len (unsigned l)) (whole l) (exponent_read l) (digits l) (length pre)
    (length pre + length mid - 1) = Some n ↔
  Z.of_nat (length mid) ≤ I ≤ 16 ∧ n = decimal mid * 10 ^ (I - Z.of_nat (length mid)) ∧ n ≤ MAX.
Proof.
  destruct (exponent_spec l Hok) as (He & Hx & Hs). destruct (significant_bounds mid Hmid) as [_ Hpos].
  pose proof digits_length as Hdl. pose proof unsigned_length as Hul. pose proof value_loops as Hloops.
  unfold exact_nonzero. cbv zeta in *. rewrite He, Hx. cbn [orb negb]. set (U := len (unsigned l)) in *.
  set (ds := bytes _) in *. pose proof (decimal_bounds ds Hx) as [HM _].
  assert (0 ≤ len (whole l) ∧ 0 ≤ len (fraction_digits l)) as [HL HF] by (split; apply len_nonneg).
  unfold integer_digits in *. assert (Z.of_nat (length pre) < U) by (unfold len in *; lia).
  replace (length pre + length mid - 1 - length pre + 1)%nat with (length mid) by lia.
  rewrite (checked_i64_Some U) by (unfold i64_max in *; lia). cbn [mbind option_bind].
  rewrite (checked_i64_Some (U + 32)) by (unfold i64_max in *; lia). cbn [mbind option_bind].
  rewrite magnitude_exact by (done || unfold i64_max in *; lia). rewrite (checked_i64_Some (len (whole l))) by (unfold i64_max in *; lia).
  cbn [mbind option_bind]. set (e := if starts_with _ _ then - Z.min _ _ else _).
  destruct (decide (1 ≤ len (whole l) + scale l - Z.of_nat (length pre) ≤ 16)) as [HI|HI].
  - assert (e = scale l) as -> by (rewrite Hs in *; unfold e; destruct (starts_with _ _); lia).
    rewrite checked_i64_Some by (unfold i64_max in *; lia). cbn [mbind option_bind].
    rewrite checked_i64_Some by (unfold i64_max in *; lia). cbn [mbind option_bind].
    rewrite (proj2 (Z.leb_le 1 _)), (proj2 (Z.leb_le _ 16)) by lia. cbn [andb orb negb].
    destruct (Z.ltb_spec (len (whole l) + scale l - Z.of_nat (length pre)) (Z.of_nat (length mid))); [split; [done|lia]|].
    destruct Hloops as [Ha Ht]; [lia|]. rewrite Ha. cbn [mbind option_bind]. rewrite Ht. cbn [mbind option_bind]. destruct (Z.leb_spec (decimal mid * 10 ^ (len (whole l) + scale l - Z.of_nat (length pre) - Z.of_nat (length mid))) MAX).
    + split; [intros [= <-]; split_and!; lia|by intros (_ & -> & _)].
    + split; [done|]. intros (_ & -> & ?). lia.
  - split; [|lia]. intros Hc. exfalso. apply bind_Some in Hc as (a & [-> _]%checked_i64_cases & Hc).
    apply bind_Some in Hc as (b & [-> _]%checked_i64_cases & Hc).
    destruct (_ || _) eqn:Hor in Hc; [done|]. apply orb_false_iff in Hor as [Hor _].
    rewrite negb_false_iff, andb_true_iff, !Z.leb_le in Hor. rewrite Hs in HI. unfold e in Hor.
    destruct (starts_with _ _); lia.
Qed.
(** What the literal denotes, by its significant digits. *)
Lemma denotes_significant n : minus l = false →
  denotes l n ↔ Z.of_nat (length mid) ≤ I ∧ n = decimal mid * 10 ^ (I - Z.of_nat (length mid)).
Proof.
  intros Hm. unfold denotes. rewrite Hm, digits_value_mid. pose proof digits_length as Hdl.
  pose proof (significant_odd mid Hmid) as Hodd. destruct (significant_bounds mid Hmid) as [_ Hpos].
  assert (0 ≤ len (fraction_digits l)) as HF by apply len_nonneg.
  rewrite <-Z.mul_assoc, <-Z.pow_add_r by lia.
  set (x := Z.of_nat (length post) + Z.max 0 (scale l)). set (y := len (fraction_digits l) + Z.max 0 (- scale l)).
  assert (x - y = I - Z.of_nat (length mid)) as Hxy by (unfold x, y, integer_digits, len in *; lia).
  assert (0 ≤ x ∧ 0 ≤ y) as [Hx Hy] by (unfold x, y; lia).
  destruct (decide (y ≤ x)) as [Hle|Hgt].
  - replace (I - Z.of_nat (length mid)) with (x - y) by lia. replace (10 ^ x) with (10 ^ (x - y) * 10 ^ y)
      by (rewrite <-Z.pow_add_r by lia; f_equal; lia).
    pose proof (Z.pow_pos_nonneg 10 y ltac:(lia) Hy). split; [|intros [_ ->]; lia].
    intros Heq. split; [lia|]. nia.
  - split; [|lia]. intros Heq. exfalso. apply Hodd. replace (10 ^ y) with (10 ^ (y - x - 1) * 10 * 10 ^ x) in Heq
      by (rewrite <-Z.mul_assoc, <-(Z.pow_succ_r 10 x), <-Z.pow_add_r by lia; f_equal; lia).
    pose proof (Z.pow_pos_nonneg 10 x ltac:(lia) Hx).
    assert (decimal mid = n * 10 ^ (y - x - 1) * 10) as -> by nia. by apply Z.mod_mul.
Qed.
End nonzero.

(** C28: a number token is read exactly: whatever its spelling, with or without a fraction and an
    exponent of any length, it is accepted with the value [n] exactly when the number it denotes is
    the integer [n] and [n] is between zero and the largest authority revision. Nothing is rounded,
    and neither the bounded exponent nor an overflow ever changes the answer. *)
Theorem exact_integer_iff l n :
  Literal_ok l = true → len (unsigned l) + 32 ≤ i64_max →
  exact_integer (render l) = Some n ↔ denotes l n ∧ 0 ≤ n ≤ MAX.
Proof.
  intros Hok Hlen. rewrite exact_integer_render by done.
  assert (0 ≤ len (fraction_digits l)) as HF by apply len_nonneg.
  pose proof (Z.pow_pos_nonneg 10 (len (fraction_digits l) + Z.max 0 (- scale l)) ltac:(lia) ltac:(lia)) as Hy.
  pose proof (Z.pow_pos_nonneg 10 (Z.max 0 (scale l)) ltac:(lia) ltac:(lia)) as Hx.
  destruct (digits_cases _ (digits_ok l Hok)) as [Hz|(pre & mid & post & Hd & Hpre & Hpost & Hmid)].
  - rewrite scan_zeros by done. unfold denotes. replace (digits_value l) with 0 by (symmetry; by apply decimal_zeros).
    replace (if minus l then - 0 else 0) with 0 by (by destruct (minus l)). split.
    + intros [= <-]. by split; [lia|].
    + intros [Heq _]. f_equal. nia.
  - destruct (significant_bounds mid Hmid) as [[Hlo _] Hpos].
    assert (scan 0 None 0 (digits l) = (Some (length pre), (length pre + length mid - 1)%nat)) as ->.
    { rewrite Hd, scan_app, scan_zeros by done. cbn. rewrite scan_app, scan_significant by done. by apply scan_zeros. }
    destruct (minus l) eqn:Hm.
    + split; [done|]. intros [Hden Hn]. exfalso. unfold denotes in Hden. rewrite Hm, (digits_value_mid l pre mid post) in Hden by done.
      pose proof (Z.pow_pos_nonneg 10 (Z.of_nat (length post))). pose proof (Z.pow_pos_nonneg 10 (Z.of_nat (length mid) - 1)).
      assert (0 < decimal mid * 10 ^ Z.of_nat (length post)) by nia. nia.
    + rewrite exact_nonzero_iff by done. rewrite (denotes_significant l pre mid post) by done. split.
      * intros (? & -> & ?). split_and!; try lia. apply Z.mul_nonneg_nonneg; [|apply Z.pow_nonneg; lia].
        pose proof (Z.pow_nonneg 10 (Z.of_nat (length mid) - 1)). lia.
      * intros ([HI Hn] & _ & Hmax). split_and!; try done.
        destruct (decide (integer_digits l (length pre) ≤ 16)) as [|Hbig]; [done|]. exfalso.
        assert (10 ^ 16 ≤ n); [|unfold MAX in *; lia]. transitivity (10 ^ (integer_digits l (length pre) - 1)); [apply Z.pow_le_mono_r; lia|].
        replace (integer_digits l (length pre) - 1) with ((Z.of_nat (length mid) - 1) + (integer_digits l (length pre) - Z.of_nat (length mid))) by lia.
        rewrite Z.pow_add_r, Hn by lia. apply Z.mul_le_mono_nonneg_r; [apply Z.pow_nonneg; lia|done].
Qed.

(** ** What is not a number *)

Lemma strip_prefix_none p s : starts_with p s = false → strip_prefix p s = None.
Proof.
  unfold starts_with. rewrite bool_decide_eq_false. intros Hn. apply eq_None_not_Some, Hn.
Qed.
Lemma split_exponent_read s m e :
  default (s, "0") (split_exponent s) = (m, e) →
  (∃ a, s = m +:+ String a e ∧ (a = "e"%char ∨ a = "E"%char)) ∨ (s = m ∧ e = "0").
Proof.
  destruct (split_exponent s) as [[x y]|] eqn:Hs; cbn; intros [= <- <-]; [left|by right].
  by apply split_exponent_Some.
Qed.
Lemma split_point_read m w f :
  default (m, "") (split_once "." m) = (w, f) →
  ∃ o, m = w +:+ match o with Some f => String "." f | None => "" end ∧ default "" o = f.
Proof.
  destruct (split_once "." m) as [[x y]|] eqn:Hs; cbn; intros [= <- <-].
  - apply split_once_Some in Hs as [-> _]. by exists (Some y).
  - exists None. by rewrite app_empty_r.
Qed.
Lemma sign_read e : ∃ sign,
  e = match sign with Some a => String a (default e (strip_sign e)) | None => default e (strip_sign e) end ∧
  is_none_or (λ a, bool_decide (a = "+"%char) || bool_decide (a = "-"%char)) sign = true.
Proof.
  destruct e as [|a e]; [by exists None|]. cbn.
  destruct (_ || _) eqn:Ha; [by exists (Some a)|by exists None].
Qed.

(** nothing but a number is accepted as a positive integer: an accepted token that is not zero is
    a literal without a sign, with digits before the point and, after an exponent mark, digits
    behind at most one sign. *)
Theorem exact_integer_literal raw n :
  exact_integer raw = Some n → n ≠ 0 → ∃ l, Literal_ok l = true ∧ minus l = false ∧ raw = render l.
Proof.
  unfold exact_integer. intros Hx Hn.
  destruct (default (default raw (strip_prefix "-" raw), "0") _) as [m e] eqn:He.
  destruct (default (m, "") (split_once "." m)) as [w f] eqn:Hf.
  destruct (is_empty w || negb _) eqn:Hg; [done|]. apply orb_false_iff in Hg as [Hw Hd%negb_false_iff].
  rewrite forallb_app, andb_true_iff in Hd. destruct Hd as [Hdw Hdf].
  destruct (scan 0 None 0 _) as [[first|] last]; [|congruence].
  destruct (starts_with "-" raw) eqn:Hneg; [done|]. rewrite (strip_prefix_none _ _ Hneg) in *. cbn [default from_option] in *.
  unfold exact_nonzero in Hx. destruct (is_empty (default e _) || negb _) eqn:Hg in Hx; [done|].
  apply orb_false_iff in Hg as [Hee Hed%negb_false_iff].
  destruct (split_point_read _ _ _ Hf) as (o & -> & Ho). destruct (sign_read e) as (sign & Hsign & Hok).
  assert (is_none_or all_digits o = true) as Hdo by (unfold all_digits; destruct o; cbn in *; congruence).
  destruct (split_exponent_read _ _ _ He) as [(a & Hraw & Ha)|[Hraw ->]].
  - exists {| minus := false; whole := w; fraction := o; exponent := Some (a, sign, default e (strip_sign e)) |}.
    split_and!; [|done|].
    + unfold Literal_ok. cbn [whole fraction exponent]. rewrite Hdo. unfold all_digits.
      rewrite Hw, Hdw. cbn. unfold all_digits. rewrite Hok, Hee, Hed. destruct Ha as [-> | ->]; done.
    + unfold render, unsigned, mantissa. cbn [minus whole fraction exponent fst exponent_text String.append].
      rewrite <-Hsign. exact Hraw.
  - exists {| minus := false; whole := w; fraction := o; exponent := None |}. split_and!; [|done|].
    + unfold Literal_ok. cbn [whole fraction exponent]. rewrite Hdo. unfold all_digits. by rewrite Hw, Hdw.
    + unfold render, unsigned, mantissa. cbn [minus whole fraction exponent String.append]. by rewrite app_empty_r.
Qed.
