(* ===== verification/Activity.v ===== *)
(** Active wall time of a session ([apps/core/activity.rs]): overlapping executions form one
    interval, and idle time does not count. An [Instant] is a number of nanoseconds. *)
From Stdlib Require Import ZArith Lia.
From stdpp Require Import base list strings gmap sets sorting numbers.
From S2P Require Import Prelude.
Open Scope Z_scope.

(** ** The gate's clock *)

(** [GateMeasurement::drop] adds its nanoseconds by a compare-exchange loop; [elapsed] reads the
    cell. A measurement that is being dropped has read [prior], or has not read yet. *)
Record Dropping := { nanos : Z; prior : option Z }.
Record Gate := { cell : Z; dropping : list Dropping }.
Definition GateTime_default : Gate := {| cell := 0; dropping := [] |}.
(** [self.started.elapsed().as_nanos().min(u128::from(u64::MAX)) as u64] *)
Definition measured (started now : Z) : Z := Z.min (Z.max 0 (now - started)) u64_max.
Inductive gate_op := Measured (started now : Z) | Load | Exchange | Reset.
Inductive gate_step : Gate → gate_op → Gate → Prop :=
| Gate_drop c l1 l2 started now :
    gate_step {| cell := c; dropping := l1 ++ l2 |} (Measured started now)
              {| cell := c; dropping := l1 ++ {| nanos := measured started now; prior := None |} :: l2 |}
| Gate_load c l1 l2 n p :
    gate_step {| cell := c; dropping := l1 ++ {| nanos := n; prior := p |} :: l2 |} Load
              {| cell := c; dropping := l1 ++ {| nanos := n; prior := Some c |} :: l2 |}
| Gate_exchange c l1 l2 n :
    gate_step {| cell := c; dropping := l1 ++ {| nanos := n; prior := Some c |} :: l2 |} Exchange
              {| cell := c +| n; dropping := l1 ++ l2 |}
| Gate_reset c l :
    gate_step {| cell := c; dropping := l |} Reset {| cell := 0; dropping := l |}.
Inductive gate_run : Gate → list gate_op → Gate → Prop :=
| gate_run_refl g : gate_run g [] g
| gate_run_step g op g' ops g'' :
    gate_run g ops g' → gate_step g' op g'' → gate_run g (ops ++ [op]) g''.

(** ** Activity *)

Record Activity := {
  running : gset string; since : option Z; accumulated_ms : Z; last_finished : option Z }.
Definition Activity_default : Activity :=
  {| running := ∅; since := None; accumulated_ms := 0; last_finished := None |}.
Definition restored (accumulated : Z) : Activity :=
  {| running := ∅; since := None; accumulated_ms := accumulated; last_finished := None |}.
Definition handoff (accumulated : Z) (tools : gset string) (at_ : Z) : Activity :=
  {| since := if bool_decide (tools = ∅) then None else Some at_; running := tools;
     accumulated_ms := accumulated; last_finished := None |}.
(** [at.saturating_duration_since(since).as_millis().min(u64::MAX) as u64] *)
Definition millis_since (since at_ : Z) : Z := Z.min (Z.max 0 (at_ - since) / 10 ^ 6) u64_max.
Definition elapsed_ms (now : Z) (a : Activity) : Z :=
  accumulated_ms a +| from_option (λ since, millis_since since now) 0 (since a).
Definition observe_elapsed (now elapsed : Z) (a : Activity) : Activity :=
  {| running := running a; since := since a; last_finished := last_finished a;
     accumulated_ms := accumulated_ms a +| (elapsed -| elapsed_ms now a) |}.
Definition start (now : Z) (id : string) (a : Activity) : Activity :=
  {| running := {[id]} ∪ running a; accumulated_ms := accumulated_ms a;
     last_finished := last_finished a;
     since := if bool_decide (running a = ∅) then Some now else since a |}.
Definition is_running (a : Activity) : bool := negb (bool_decide (running a = ∅)).
Definition finish_at (id : string) (at_ : Z) (a : Activity) : Activity :=
  if bool_decide (id ∈ running a) then
    let rest := running a ∖ {[id]} in
    let last := from_option (λ last, Z.max last at_) at_ (last_finished a) in
    if bool_decide (rest = ∅) then
      {| running := rest; since := None; last_finished := None;
         accumulated_ms := accumulated_ms a +|
           from_option (λ since, millis_since since last) 0 (since a) |}
    else {| running := rest; since := since a; last_finished := Some last;
            accumulated_ms := accumulated_ms a |}
  else a.
(** The activity and the answer of [finish]. *)
Definition finish (now : Z) (id : string) (a : Activity) : Activity * Z :=
  let a := finish_at id now a in (a, elapsed_ms now a).
(** The iteration of a [BTreeSet<String>]. *)
Definition in_key_order (ids : gset string) : list string := sort (elements ids).
(** Each call of [finish] and [start] reads the clock for itself: [clock i] is the [i]-th reading. *)
Definition synchronize_tools (clock : nat → Z) (tools : gset string) (a : Activity) : Activity :=
  let ended := in_key_order (filter (λ id, starts_with "tool/" id = true ∧ id ∉ tools) (running a)) in
  let a := foldl (λ a '(i, id), finish_at id (clock i) a) a (imap pair ended) in
  foldl (λ a '(i, id), start (clock (length ended + i)%nat) id a) a (imap pair (in_key_order tools)).

(** ** A log of calls and what was active *)

Inductive event := Start (id : string) (at_ : Z) | Finish (id : string) (at_ : Z).
Definition time_of (e : event) : Z := match e with Start _ t | Finish _ t => t end.
Definition handle (a : Activity) (e : event) : Activity :=
  match e with Start id t => start t id a | Finish id t => finish_at id t a end.
Definition run (a : Activity) (log : list event) : Activity := foldl handle a log.
(** What runs after the events that have happened by [t], told without the state. *)
Definition runs_after (live : gset string) (e : event) : gset string :=
  match e with Start id _ => {[id]} ∪ live | Finish id _ => live ∖ {[id]} end.
Definition running_at (log : list event) (t : Z) : gset string :=
  foldl runs_after ∅ (List.filter (λ e, time_of e <=? t) log).
Definition active_at (log : list event) (t : Z) : bool := negb (bool_decide (running_at log t = ∅)).
(** The number of nanoseconds before [now] at which something ran. *)
Definition active_ns (log : list event) (now : Z) : Z := countb (active_at log) (seqZ 0 now).
Definition in_order (from : Z) (log : list event) : Prop :=
  StronglySorted Z.le (from :: (time_of <$> log)).
Definition starts (log : list event) : Z :=
  countb (λ e, match e with Start _ _ => true | Finish _ _ => false end) log.

(** ** Counting active time *)

Lemma running_at_all log t : Forall (λ e, time_of e ≤ t) log → running_at log t = foldl runs_after ∅ log.
Proof.
  intros Hl. unfold running_at. f_equal. induction Hl as [|e log He _ IH]; cbn; [done|].
  by rewrite (proj2 (Z.leb_le _ _)), IH by done.
Qed.
Lemma running_at_snoc log e t : t < time_of e → running_at (log ++ [e]) t = running_at log t.
Proof.
  intros Ht. unfold running_at. rewrite List.filter_app. cbn.
  by rewrite (proj2 (Z.leb_gt _ _)), app_nil_r by done.
Qed.
Lemma countb_ext {A} (f g : A → bool) l : (∀ x, x ∈ l → f x = g x) → countb f l = countb g l.
Proof.
  induction l as [|x l IH]; [done|]. intros Hfg.
  rewrite !countb_cons, (Hfg x), IH by (intros; try apply Hfg; set_solver). done.
Qed.
Lemma countb_const {A} (f : A → bool) b l :
  (∀ x, x ∈ l → f x = b) → countb f l = Z.of_nat (length l) * of_bool b.
Proof.
  induction l as [|x l IH]; [done|]. intros Hf.
  rewrite countb_cons, IH, (Hf x) by (intros; try apply Hf; set_solver). cbn [length]. lia.
Qed.
Lemma active_ns_snoc log e u : u ≤ time_of e → active_ns (log ++ [e]) u = active_ns log u.
Proof.
  intros Hu. apply countb_ext. intros t [_ Ht]%elem_of_seqZ. unfold active_at.
  by rewrite running_at_snoc by lia.
Qed.
Lemma active_ns_extend log a b x :
  0 ≤ a ≤ b → (∀ t, a ≤ t < b → active_at log t = x) →
  active_ns log b = active_ns log a + (b - a) * of_bool x.
Proof.
  intros Hab Hx. unfold active_ns. replace b with (a + (b - a)) at 1 by lia.
  rewrite seqZ_app by lia. rewrite countb_app. f_equal.
  rewrite (countb_const _ x), length_seqZ by (intros t Ht%elem_of_seqZ; apply Hx; lia).
  by rewrite Z2Nat.id by lia.
Qed.

(** The state of the activity against the log, [now] being the time of the last event. *)
Record Tracks (initial : Z) (log : list event) (now : Z) (a : Activity) : Prop := {
  tr_running : running a = foldl runs_after ∅ log;
  tr_last : ∀ last, last_finished a = Some last → last ≤ now;
  tr_since : match since a with
    | None => running a = ∅ ∧ last_finished a = None ∧
        10 ^ 6 * (accumulated_ms a - initial) ≤ active_ns log now ≤
        10 ^ 6 * (accumulated_ms a - initial) + (10 ^ 6 - 1) * starts log
    | Some s => running a ≠ ∅ ∧ 0 ≤ s ≤ now ∧ (∀ t, s ≤ t < now → active_at log t = true) ∧
        10 ^ 6 * (accumulated_ms a - initial) ≤ active_ns log s ≤
        10 ^ 6 * (accumulated_ms a - initial) + (10 ^ 6 - 1) * (starts log - 1)
    end }.

Lemma starts_snoc log e : starts (log ++ [e]) = starts log + match e with Start _ _ => 1 | _ => 0 end.
Proof. unfold starts. rewrite countb_app. by destruct e. Qed.
Lemma starts_nonneg log : 0 ≤ starts log.
Proof. apply countb_nonneg. Qed.
Lemma active_ns_bound log now : 0 ≤ now → 0 ≤ active_ns log now ≤ now.
Proof.
  intros Hn. unfold active_ns. split; [apply countb_nonneg|]. rewrite countb_filter.
  pose proof (List.filter_length_le (active_at log) (seqZ 0 now)) as Hl. rewrite length_seqZ in Hl. lia.
Qed.
(** A period in milliseconds loses less than one of them. *)
Lemma millis_since_bound s u : 0 ≤ s ≤ u → u / 10 ^ 6 ≤ u64_max →
  millis_since s u = (u - s) / 10 ^ 6 ∧
  10 ^ 6 * millis_since s u ≤ u - s ≤ 10 ^ 6 * millis_since s u + (10 ^ 6 - 1).
Proof.
  intros Hs Hu. assert ((u - s) / 10 ^ 6 ≤ u / 10 ^ 6) by (apply Z.div_le_mono; lia).
  unfold millis_since. rewrite Z.max_r, Z.min_l by lia.
  pose proof (Z.div_mod (u - s) (10 ^ 6) ltac:(done)). pose proof (Z.mod_pos_bound (u - s) (10 ^ 6) ltac:(done)). lia.
Qed.

Section tracking.
Context (initial : Z) (Hinit : 0 ≤ initial).

Lemma Tracks_idle log now u a :
  0 ≤ now ≤ u → Forall (λ e, time_of e ≤ now) log → Tracks initial log now a → Tracks initial log u a.
Proof.
  intros Hu Hl [Hr Hlast Hs].
  assert (∀ t, now ≤ t < u → active_at log t = negb (bool_decide (running a = ∅))) as Hact.
  { intros t Ht. unfold active_at. rewrite running_at_all, <-Hr; [done|].
    eapply List.Forall_impl; [|exact Hl]. intros e He; cbn in He; lia. }
  split; [done|intros l Hlf; specialize (Hlast l Hlf); lia|]. destruct (since a) as [s|].
  - destruct Hs as (Hne & Hs & Ha & Hb). split_and!; try done; try lia. intros t Ht.
    destruct (decide (t < now)); [apply Ha; lia|]. rewrite Hact by lia. by rewrite bool_decide_eq_false_2.
  - destruct Hs as (He & Hn & Hb). rewrite (active_ns_extend log now u false); [|lia|].
    + cbn [of_bool]. split_and!; try done; lia.
    + intros t Ht. rewrite Hact by done. by rewrite bool_decide_eq_true_2.
Qed.
Lemma Tracks_start log now id a :
  0 ≤ now → Tracks initial log now a → Tracks initial (log ++ [Start id now]) now (start now id a).
Proof.
  intros Hn [Hr Hlast Hs]. unfold start. split; cbn [running since accumulated_ms last_finished].
  - by rewrite foldl_app, <-Hr.
  - done.
  - rewrite starts_snoc. case_bool_decide as He.
    + destruct (since a) as [s|]; [by destruct Hs|]. destruct Hs as (_ & _ & Hb).
      split_and!; [set_solver|lia|lia|lia| |]; rewrite active_ns_snoc by done; lia.
    + destruct (since a) as [s|]; [|by destruct Hs]. destruct Hs as (_ & Hs & Ha & Hb).
      split_and!; [set_solver|lia|lia| | |].
      * intros t Ht. unfold active_at. rewrite running_at_snoc by (cbn; lia). by apply Ha.
      * rewrite active_ns_snoc by (cbn; lia). lia.
      * rewrite active_ns_snoc by (cbn; lia). lia.
Qed.
Lemma Tracks_finish log now id a :
  0 ≤ now → initial + now / 10 ^ 6 ≤ u64_max → Tracks initial log now a →
  Tracks initial (log ++ [Finish id now]) now (finish_at id now a).
Proof.
  intros Hn Hfit [Hr Hlast Hs]. unfold finish_at.
  assert (from_option (λ last, Z.max last now) now (last_finished a) = now) as Hmax.
  { destruct (last_finished a) as [l|]; cbn; [|done]. specialize (Hlast l eq_refl). lia. }
  assert (∀ t, t < now → active_at (log ++ [Finish id now]) t = active_at log t) as Hat
    by (intros t Ht; unfold active_at; by rewrite running_at_snoc).
  case_bool_decide as Hin.
  - destruct (since a) as [s|]; [|destruct Hs; set_solver]. destruct Hs as (Hne & Hs & Ha & Hb).
    rewrite Hmax. case_bool_decide as He.
    + split; cbn [running since accumulated_ms last_finished from_option]; [by rewrite foldl_app, <-Hr|done|].
      assert (0 ≤ initial ∧ 0 ≤ now / 10 ^ 6) as [_ Hd] by (split; [done|apply Z.div_pos; lia]).
      destruct (millis_since_bound s now) as [Hms Hmb]; [lia|lia|].
      pose proof (active_ns_bound log s ltac:(lia)).
      pose proof (active_ns_extend log s now true ltac:(lia) Ha) as Hext. cbn [of_bool] in Hext.
      pose proof (active_ns_bound log now Hn). pose proof (Z.div_mod now (10 ^ 6) ltac:(done)). pose proof (Z.mod_pos_bound now (10 ^ 6) ltac:(done)).
      assert (accumulated_ms a + millis_since s now ≤ u64_max) by lia.
      unfold saturating_add. rewrite Z.min_r by lia. rewrite starts_snoc.
      split_and!; [done|done| |]; rewrite active_ns_snoc by done; lia.
    + split; cbn [running since accumulated_ms last_finished]; [by rewrite foldl_app, <-Hr|by intros l [= <-]|].
      rewrite starts_snoc. split_and!; [done|lia|lia| | |].
      * intros t Ht. rewrite Hat by lia. by apply Ha.
      * rewrite active_ns_snoc by (cbn; lia). lia.
      * rewrite active_ns_snoc by (cbn; lia). lia.
  - split; [rewrite foldl_app, <-Hr; cbn; set_solver|done|]. rewrite starts_snoc.
    destruct (since a) as [s|].
    + destruct Hs as (Hne & Hs & Ha & Hb). split_and!; [done|lia|lia| | |].
      * intros t Ht. rewrite Hat by lia. by apply Ha.
      * rewrite active_ns_snoc by (cbn; lia). lia.
      * rewrite active_ns_snoc by (cbn; lia). lia.
    + destruct Hs as (He & Hlf & Hb). split_and!; [done|done| |]; rewrite active_ns_snoc by done; lia.
Qed.
Lemma Tracks_run log now :
  in_order 0 log → 0 ≤ now → Forall (λ e, time_of e ≤ now) log → initial + now / 10 ^ 6 ≤ u64_max →
  Tracks initial log now (run (restored initial) log).
Proof.
  unfold in_order. revert now. induction log as [|e log IH] using rev_ind; intros now Ho Hn Hl Hfit.
  { split; cbn; [done|done|]. pose proof (active_ns_extend [] 0 now false ltac:(lia) ltac:(done)) as Ha.
    cbn [of_bool] in Ha. change (active_ns [] 0) with 0 in Ha. change (starts []) with 0. rewrite Ha. split_and!; done || lia. }
  rewrite fmap_app in Ho. change (StronglySorted Z.le ((0 :: (time_of <$> log)) ++ [time_of e])) in Ho.
  apply StronglySorted_app in Ho as (Hle & Ho & _).
  rewrite Forall_app, Forall_singleton in Hl. destruct Hl as [Hl He].
  assert (0 ≤ time_of e) by (apply Hle; cbn; set_solver).
  assert (time_of e / 10 ^ 6 ≤ now / 10 ^ 6) by (apply Z.div_le_mono; lia).
  assert (Forall (λ e', time_of e' ≤ time_of e) log) as Hlog.
  { apply Forall_forall. intros e' He'. apply Hle; cbn; [|set_solver].
    right. by apply list_elem_of_fmap_2, list_elem_of_In. }
  apply (Tracks_idle _ (time_of e)); [lia|apply Forall_app; split; [done|by repeat constructor]|].
  unfold run. rewrite foldl_app. cbn [foldl]. fold (run (restored initial) log).
  specialize (IH (time_of e) Ho ltac:(lia) Hlog ltac:(lia)).
  destruct e as [id t|id t]; cbn [handle time_of] in *; [by apply Tracks_start|by apply Tracks_finish; try lia].
Qed.
End tracking.

(** [synchronize_tools] is a log of its own: it finishes the tools that ended and starts those that
    are reported, each at a reading of the clock. *)
Definition synchronize_log (clock : nat → Z) (tools : gset string) (a : Activity) : list event :=
  let ended := in_key_order (filter (λ id, starts_with "tool/" id = true ∧ id ∉ tools) (running a)) in
  imap (λ i id, Finish id (clock i)) ended ++
  imap (λ i id, Start id (clock (length ended + i)%nat)) (in_key_order tools).
Lemma run_imap (f : nat → string → event) l a :
  run a (imap f l) = foldl (λ a '(i, id), handle a (f i id)) a (imap pair l).
Proof.
  assert (imap f l = (λ '(i, id), f i id) <$> imap pair l) as -> by by rewrite fmap_imap.
  unfold run. rewrite foldl_fmap. generalize (imap pair l). intros l'. revert a.
  induction l' as [|[i x] l' IH]; intros a; cbn; [done|]. apply IH.
Qed.
Lemma synchronize_is_run clock tools a :
  synchronize_tools clock tools a = run a (synchronize_log clock tools a).
Proof.
  unfold synchronize_tools, synchronize_log. unfold run at 1. rewrite foldl_app.
  change (foldl handle) with run. by rewrite !run_imap.
Qed.

(** ** Theorems *)

(** The active time of a session is the time during which at least one execution ran: overlapping
    executions count once and idle time not at all. For the calls of a log in the order of time, the
    milliseconds that are reported above the restored ones are never more than the nanoseconds at
    which something ran, counted one by one, and lose less than a millisecond for each start. *)
Theorem elapsed_is_active_time initial log now :
  0 ≤ initial → 0 ≤ now → in_order 0 log → Forall (λ e, time_of e ≤ now) log →
  initial + now / 10 ^ 6 ≤ u64_max →
  let reported := elapsed_ms now (run (restored initial) log) - initial in
  10 ^ 6 * reported ≤ active_ns log now ≤ 10 ^ 6 * reported + (10 ^ 6 - 1) * starts log.
Proof.
  intros Hi Hn Ho Hl Hfit. pose proof (Tracks_run initial Hi log now Ho Hn Hl Hfit) as [Hr _ Hs].
  unfold elapsed_ms. pose proof (active_ns_bound log now Hn).
  pose proof (Z.div_mod now (10 ^ 6) ltac:(done)). pose proof (Z.mod_pos_bound now (10 ^ 6) ltac:(done)).
  destruct (since _) as [s|]; cbn [from_option].
  - destruct Hs as (_ & Hs & Ha & Hb). pose proof (active_ns_extend log s now true ltac:(lia) Ha) as Hext.
    cbn [of_bool] in Hext.
    assert (now / 10 ^ 6 ≤ u64_max) by lia. destruct (millis_since_bound s now) as [_ Hm]; [lia|done|].
    unfold saturating_add. rewrite Z.min_r by lia. lia.
  - destruct Hs as (_ & _ & Hb). unfold saturating_add. rewrite Z.min_r by lia. lia.
Qed.

Definition gate_pending (g : Gate) : Z := sum_by nanos (dropping g).
Definition begun (ops : list gate_op) : Z :=
  sum_by (λ op, match op with Measured s n => measured s n | _ => 0 end) ops.
Lemma measured_range s n : 0 ≤ measured s n ≤ u64_max.
Proof. unfold measured. unfold u64_max. lia. Qed.
Lemma min_add_mono M x y m : 0 ≤ m → Z.min M x = Z.min M y → Z.min M (x + m) = Z.min M (y + m).
Proof. lia. Qed.
Lemma nanos_nonneg l : Forall (λ d, 0 ≤ nanos d) l → 0 ≤ sum_by nanos l.
Proof. induction 1; [done|]. rewrite sum_by_cons. lia. Qed.
(** No measurement of the gate is lost, whatever the interleaving of the threads that drop one,
    each of which reads the cell and exchanges it, and retries when it lost the race: the cell
    and the measurements still under way add up to all that was measured, up to the limit of the
    cell; so does the cell alone when none is under way. *)
Theorem gate_time_is_exact ops g :
  gate_run GateTime_default ops g → Reset ∉ ops →
  Z.min u64_max (cell g + gate_pending g) = Z.min u64_max (begun ops).
Proof.
  intros Hrun Hno. cut (0 ≤ cell g ∧ Forall (λ d, 0 ≤ nanos d) (dropping g) ∧
    Z.min u64_max (cell g + gate_pending g) = Z.min u64_max (begun ops)); [tauto|].
  remember GateTime_default as g0 eqn:Hg0.
  induction Hrun as [|g op g' ops g'' _ IH Hstep]; subst; [cbn; split_and!; (lia || constructor || reflexivity)|].
  unfold gate_pending, begun in *. rewrite elem_of_app, list_elem_of_singleton in Hno.
  destruct IH as (Hc & Hf & Ht); [done || tauto..|]. rewrite sum_by_app.
  destruct Hstep as [c l1 l2 s n|c l1 l2 n p|c l1 l2 n|]; [..|tauto]; cbn [cell dropping] in *;
    rewrite ?list.Forall_app, ?list.Forall_cons, ?sum_by_app, ?sum_by_cons in *; cbn [nanos] in *;
    change (sum_by _ (@nil gate_op)) with 0.
  - pose proof (measured_range s n) as Hm. split_and!; rewrite ?list.Forall_cons; cbn [nanos]; [tauto..|].
    rewrite <-(min_add_mono u64_max _ _ (measured s n + 0)) by (done || lia). f_equal; lia.
  - split_and!; rewrite ?list.Forall_cons; cbn [nanos]; try tauto; lia.
  - destruct Hf as (Hf1 & Hn & Hf2). pose proof (nanos_nonneg l1 Hf1). pose proof (nanos_nonneg l2 Hf2).
    unfold saturating_add. split_and!; try tauto; unfold u64_max in *; lia.
Qed.

Lemma in_key_order_set ids : list_to_set (in_key_order ids) = ids.
Proof.
  unfold in_key_order, sort. rewrite (list_to_set_perm_L _ _ (sort_by_key_perm (λ x : string, x) _)).
  apply list_to_set_elements_L.
Qed.
Lemma finish_running id t a : running (finish_at id t a) = running a ∖ {[id]}.
Proof. unfold finish_at. case_bool_decide; [by case_bool_decide|set_solver]. Qed.
(** Synchronising the tools leaves running the tools that are reported, with what is not a tool. *)
Theorem synchronized_running clock tools a :
  running (synchronize_tools clock tools a) =
  tools ∪ filter (λ id, starts_with "tool/" id = false ∨ id ∈ tools) (running a).
Proof.
  rewrite synchronize_is_run. unfold synchronize_log, run. rewrite foldl_app.
  set (ended := filter _ (running a)).
  assert (∀ f l a, running (foldl handle a (imap (λ i id, Finish id (f i)) l)) =
    running a ∖ list_to_set l) as Hfin.
  { intros f l. revert f. induction l as [|x l IH]; intros f a'; [cbn; set_solver|].
    rewrite imap_cons. cbn [foldl]. rewrite (IH (f ∘ S)). cbn [handle]. rewrite finish_running. set_solver. }
  assert (∀ f l a, running (foldl handle a (imap (λ i id, Start id (f i)) l)) =
    list_to_set l ∪ running a) as Hstart.
  { intros f l. revert f. induction l as [|x l IH]; intros f a'; [cbn; set_solver|].
    rewrite imap_cons. cbn [foldl]. rewrite (IH (f ∘ S)). cbn [handle start running]. set_solver. }
  rewrite (Hstart (λ i, clock (length (in_key_order ended) + i)%nat)), (Hfin clock), !in_key_order_set.
  apply set_eq. intros id. unfold ended. rewrite elem_of_union, elem_of_difference, elem_of_union, !elem_of_filter.
  destruct (starts_with "tool/" id), (decide (id ∈ tools)); naive_solver.
Qed.

(** An elapsed time that is observed from elsewhere raises the reported one to it, and never lowers it. *)
Theorem observe_elapsed_is_max now elapsed a :
  0 ≤ accumulated_ms a ≤ u64_max → 0 ≤ elapsed ≤ u64_max →
  elapsed_ms now (observe_elapsed now elapsed a) = Z.max elapsed (elapsed_ms now a).
Proof.
  intros Ha He. unfold observe_elapsed, elapsed_ms. cbn [accumulated_ms since].
  assert (0 ≤ from_option (λ s, millis_since s now) 0 (since a) ≤ u64_max).
  { destruct (since a) as [s|]; cbn; [|lia]. unfold millis_since.
    pose proof (Z.div_pos (Z.max 0 (now - s)) (10 ^ 6)). lia. }
  unfold saturating_add, saturating_sub. lia.
Qed.
