(* ===== verification/RegistryValue.v ===== *)
(** The exact JSON values of the registry and the addresses in them
    ([crates/bitrouter-registry/src/document.rs], [src/mapping.rs]).

    [Value] is [serde_json_lenient::Value] with its features [arbitrary_precision] and
    [preserve_order]: a number is its lexeme, an object keeps the order of its insertions. What is
    used of that crate is the behaviour it documents. *)
From Stdlib Require Import ZArith Lia Ascii.
From stdpp Require Import base list strings gmap pretty sorting.
From S2P Require Import Prelude ExactInteger.
Open Scope string_scope.
Open Scope list_scope.
Open Scope Z_scope.

(** ** Errors *)

Record RegistryError := { code : string; path : string; message : string; recovery : string }.
#[export] Instance RegistryError_eq_dec : EqDecision RegistryError. Proof. solve_decision. Defined.
Definition invalid_at (path message : string) : RegistryError :=
  {| code := "registry.invalid_data"; path := path; message := message;
     recovery := "Repair the registry source or select a valid registry snapshot" |}.

(** ** Values *)

Inductive Value :=
| VNull | VBool (b : bool) | VNumber (lexeme : string) | VString (s : string)
| VArray (values : list Value) | VObject (map : list (string * Value)).

Definition Map : Type := list (string * Value).
Fixpoint map_get (k : string) (m : Map) : option Value :=
  match m with
  | [] => None
  | (k', v) :: m => if bool_decide (k' = k) then Some v else map_get k m
  end.
(** [insert] keeps the place of a key that is there, and appends a new one. *)
Fixpoint map_insert (k : string) (v : Value) (m : Map) : Map :=
  match m with
  | [] => [(k, v)]
  | (k', v') :: m => if bool_decide (k' = k) then (k, v) :: m else (k', v') :: map_insert k v m
  end.
(** [remove] puts the last entry into the place of the removed one ([swap_remove]). *)
Definition map_remove (k : string) (m : Map) : Map :=
  match list_find (λ x : string * Value, x.1 = k) m, last m with
  | Some (i, _), Some x => take (length m - 1) (<[i := x]> m)
  | _, _ => m
  end.
Definition contains_key (k : string) (m : Map) : bool := is_some (map_get k m).

Definition get (k : string) (v : Value) : option Value :=
  match v with VObject m => map_get k m | _ => None end.
(** [value["key"]] reads as null what is not there. *)
Definition field (k : string) (v : Value) : Value := default VNull (get k v).
Definition as_str (v : Value) : option string := match v with VString s => Some s | _ => None end.
Definition as_array (v : Value) : option (list Value) := match v with VArray l => Some l | _ => None end.
Definition as_object (v : Value) : option Map := match v with VObject m => Some m | _ => None end.
Definition as_bool (v : Value) : option bool := match v with VBool b => Some b | _ => None end.
Definition is_null (v : Value) : bool := match v with VNull => true | _ => false end.
Definition is_object (v : Value) : bool := is_some (as_object v).
Definition is_array (v : Value) : bool := is_some (as_array v).
(** [array]: what is not an array has no elements. *)
Definition array (v : Value) : list Value := default [] (as_array v).
Definition is_str (s : string) (v : Value) : bool := bool_decide (as_str v = Some s).
Definition has_str (s : string) (v : Value) : bool := existsb (is_str s) (array v).

(** The derived [==]: lexemes by spelling, objects by their entries in any order. *)
Fixpoint value_eqb (a b : Value) {struct a} : bool :=
  match a, b with
  | VNull, VNull => true
  | VBool x, VBool y => bool_decide (x = y)
  | VNumber x, VNumber y => bool_decide (x = y)
  | VString x, VString y => bool_decide (x = y)
  | VArray l, VArray l' =>
      (fix eq l l' := match l, l' with
        | [], [] => true | x :: l, y :: l' => value_eqb x y && eq l l' | _, _ => false end) l l'
  | VObject m, VObject m' =>
      Nat.eqb (length m) (length m') &&
      (fix all m := match m with
        | [] => true
        | (k, x) :: m => match map_get k m' with Some y => value_eqb x y | None => false end && all m end) m
  | _, _ => false
  end.

(** ** Identities *)

Definition canonical_id (s : string) : bool :=
  match split_once "/" s with Some (a, b) => negb (is_empty a) && negb (is_empty b) | None => false end &&
  negb (starts_with "~native/" s) &&
  negb (existsb (λ c, is_control c || is_whitespace c) (chars s)).
Definition native_id (s : string) : bool := negb (trim_is_empty s) && negb (has_control s).
Definition InterfaceKey : Type := string * string * option string.
Definition default_profile (protocol : string) : option string :=
  if bool_decide (protocol ∈ ["chat_completions"; "messages"; "responses"; "decisions"])
  then Some "default" else None.
Definition interface_key (v : Value) : InterfaceKey :=
  let protocol := default "" (as_str (field "protocol" v)) in
  (protocol, default "" (as_str (field "operation" v)),
   match get "protocol_profile" v ≫= as_str with Some p => Some p | None => default_profile protocol end).

(** ** JSON pointers *)

Definition MAX_DOCUMENT_DEPTH : nat := 64.
Definition invalid_feeds (message : string) : RegistryError := invalid_at "/auto_sync/feeds" message.
(** The loop over the characters of one part; all that it compares are ASCII. *)
Fixpoint decode_part (s : string) : option string :=
  match s with
  | EmptyString => Some EmptyString
  | String "~" (String "0" r) => String "~" <$> decode_part r
  | String "~" (String "1" r) => String "/" <$> decode_part r
  | String "~" _ => None
  | String c r => String c <$> decode_part r
  end.
Definition unsafe_key (s : string) : bool := bool_decide (s ∈ ["__proto__"; "prototype"; "constructor"]).
Definition token (part : string) : result RegistryError string :=
  t ← ok_or (decode_part part) (invalid_feeds "Invalid JSON Pointer escape");
  _ ← ensure (negb (unsafe_key t)) (invalid_feeds "Unsafe object key in JSON Pointer");
  Ok t.
(** [iter.map(f).collect::<Result<Vec<_>, _>>()] *)
Fixpoint collect {E A B} (f : A → result E B) (l : list A) : result E (list B) :=
  match l with
  | [] => Ok []
  | x :: l => y ← f x; ys ← collect f l; Ok (y :: ys)
  end.
Definition tokens (pointer : string) : result RegistryError (list string) :=
  _ ← ensure (Nat.leb (count_byte "/" pointer) MAX_DOCUMENT_DEPTH)
    (invalid_feeds "JSON Pointer exceeds the supported nesting depth");
  if is_empty pointer then Ok [] else
  raw ← ok_or (strip_prefix "/" pointer) (invalid_feeds "JSON Pointer must start with slash");
  collect token (split_on "/" raw).

(** Digits that fit into a [usize]. *)
Definition index (t : string) : result RegistryError nat :=
  _ ← ensure (negb (is_empty t || ((1 <? len t) && starts_with "0" t) || negb (all_digits t)))
    (invalid_feeds "Expected a fixed zero-based array index");
  _ ← ensure (decimal (bytes t) <=? u64_max) (invalid_feeds "Array index exceeds supported range");
  Ok (Z.to_nat (decimal (bytes t))).

Fixpoint read_parts (v : Value) (ts : list string) : result RegistryError (option Value) :=
  match ts with
  | [] => Ok (Some v)
  | t :: ts =>
      match v with
      | VObject m => match map_get t m with Some v => read_parts v ts | None => Ok None end
      | VArray l =>
          i ← index t;
          match l !! i with Some v => read_parts v ts | None => Ok None end
      | _ => Err (invalid_feeds "JSON Pointer traverses a scalar")
      end
  end.
Definition read (root : Value) (pointer : string) : result RegistryError (option Value) :=
  ts ← tokens pointer; read_parts root ts.

Fixpoint write_parts (root : Value) (ts : list string) (value : Value) : result RegistryError Value :=
  match ts with
  | [] => Err (invalid_feeds "Destination root is forbidden")
  | head :: tail =>
      match root with
      | VObject m =>
          if bool_decide (tail = []) then Ok (VObject (map_insert head value m)) else
          _ ← ensure (contains_key head m || negb (bool_decide (head = "interfaces")))
            (invalid_feeds "Destination arrays must already exist in defaults");
          child ← write_parts (default (VObject []) (map_get head m)) tail value;
          Ok (VObject (map_insert head child m))
      | VArray l =>
          i ← index head;
          child ← ok_or (l !! i) (invalid_feeds "Destination array index is outside defaults");
          child ← (if bool_decide (tail = []) then Ok value else write_parts child tail value);
          Ok (VArray (<[i := child]> l))
      | _ => Err (invalid_feeds "Destination pointer traverses a scalar")
      end
  end.
Definition write (root : Value) (pointer : string) (value : Value) : result RegistryError Value :=
  ts ← tokens pointer;
  _ ← ensure (negb (existsb (λ t, bool_decide (t = "-")) ts)) (invalid_feeds "Array append is forbidden");
  write_parts root ts value.

(** [key.replace('~', "~0").replace('/', "~1")] *)
Definition replace (c : ascii) (w : string) (s : string) : string := join w (split_on c s).
Definition escape (key : string) : string := replace "/" "~1" (replace "~" "~0" key).

(** What an address leads to. *)
Definition at_path (v : Value) (ts : list string) : option Value :=
  match read_parts v ts with Ok o => o | Err _ => None end.
(** The pointer that spells these tokens. *)
Fixpoint spelled (ts : list string) : string :=
  match ts with [] => EmptyString | t :: ts => String "/" (escape t +:+ spelled ts) end.
Definition is_scalar (v : Value) : bool := negb (is_object v) && negb (is_array v).
(** No object has two entries of one key. *)
Fixpoint wf (v : Value) : Prop :=
  match v with
  | VArray l => (fix all l := match l with [] => True | x :: l => wf x ∧ all l end) l
  | VObject m => NoDup m.*1 ∧
      (fix all m := match m with [] => True | (_, x) :: m => wf x ∧ all m end) m
  | _ => True
  end.

(** ** Values *)

Section value_induction.
Context (P : Value → Prop) (Hnull : P VNull) (Hbool : ∀ b, P (VBool b)) (Hnumber : ∀ s, P (VNumber s))
  (Hstring : ∀ s, P (VString s)) (Harray : ∀ l, Forall P l → P (VArray l))
  (Hobject : ∀ m, Forall (λ x, P x.2) m → P (VObject m)).
Fixpoint value_nested (v : Value) : P v :=
  match v with
  | VNull => Hnull | VBool b => Hbool b | VNumber s => Hnumber s | VString s => Hstring s
  | VArray l => Harray l ((fix all l := match l return Forall P l with
      | [] => Forall_nil_2 P | x :: l => Forall_cons_2 P x l (value_nested x) (all l) end) l)
  | VObject m => Hobject m ((fix all m := match m return Forall (λ x, P x.2) m with
      | [] => Forall_nil_2 _
      | (k, x) :: m => Forall_cons_2 (λ x, P x.2) (k, x) m (value_nested x) (all m) end) m)
  end.
End value_induction.
Lemma wf_array l : wf (VArray l) ↔ Forall wf l.
Proof. cbn. induction l as [|x l IH]; [naive_solver|]. by rewrite list.Forall_cons, IH. Qed.
Lemma wf_object m : wf (VObject m) ↔ NoDup m.*1 ∧ Forall (λ x, wf x.2) m.
Proof.
  cbn. apply and_iff_compat_l. induction m as [|[k x] m IH]; [naive_solver|]. by rewrite list.Forall_cons, IH.
Qed.
Lemma value_eqb_array l l' : value_eqb (VArray l) (VArray l') = true ↔ Forall2 (λ x y, value_eqb x y = true) l l'.
Proof.
  revert l'. induction l as [|x l IH]; intros [|y l']; cbn; split; try done; try (by inversion 1); try constructor.
  - by apply andb_true_iff in H as [? _].
  - apply IH. by apply andb_true_iff in H as [_ ?].
  - inversion 1; subst. apply andb_true_iff. split; [done|]. by apply IH.
Qed.
Lemma value_eqb_object m m' : value_eqb (VObject m) (VObject m') = true ↔
  length m = length m' ∧ Forall (λ x, ∃ y, map_get x.1 m' = Some y ∧ value_eqb x.2 y = true) m.
Proof.
  cbn. rewrite andb_true_iff, Nat.eqb_eq. apply and_iff_compat_l.
  induction m as [|[k x] m IH]; [naive_solver|]. rewrite list.Forall_cons, <-IH, andb_true_iff. cbn.
  destruct (map_get k m'); naive_solver.
Qed.
Lemma map_get_elem k v m : map_get k m = Some v → (k, v) ∈ m.
Proof.
  induction m as [|[k' v'] m IH]; cbn; [done|]. case_bool_decide; [intros [= ->]; subst; left|]. right. by apply IH.
Qed.
Lemma map_get_NoDup k v m : NoDup m.*1 → (k, v) ∈ m → map_get k m = Some v.
Proof.
  induction m as [|[k' v'] m IH]; [by intros _ ?%elem_of_nil|]. cbn. intros [Hn Hd]%NoDup_cons Hin.
  apply elem_of_cons in Hin as [[= -> ->]|Hin]; [by rewrite bool_decide_eq_true_2|].
  rewrite bool_decide_eq_false_2; [by apply IH|]. intros ->. apply Hn, list_elem_of_fmap. by exists (k, v).
Qed.
Lemma map_get_None k m : map_get k m = None ↔ k ∉ m.*1.
Proof.
  induction m as [|[k' v'] m IH]; cbn; [set_solver|]. case_bool_decide; subst; set_solver.
Qed.
Lemma map_get_insert k v m k' :
  map_get k' (map_insert k v m) = if bool_decide (k' = k) then Some v else map_get k' m.
Proof.
  induction m as [|[k1 v1] m IH]; cbn.
  - repeat case_bool_decide; congruence.
  - destruct (bool_decide (k1 = k)) eqn:Hk; cbn; [|rewrite IH];
      [apply bool_decide_eq_true in Hk|apply bool_decide_eq_false in Hk]; repeat case_bool_decide; congruence.
Qed.
Lemma map_insert_keys k v m : (map_insert k v m).*1 = if decide (k ∈ m.*1) then m.*1 else m.*1 ++ [k].
Proof.
  induction m as [|[k1 v1] m IH]; cbn; [done|]. case_bool_decide as Hk; cbn.
  - subst. by rewrite decide_True by (by left).
  - rewrite IH. repeat case_decide; try done; set_solver.
Qed.
Lemma map_insert_wf k v m : wf v → wf (VObject m) → wf (VObject (map_insert k v m)).
Proof.
  rewrite !wf_object. intros Hv [Hd Hf]. split.
  - rewrite map_insert_keys. case_decide; [done|]. apply NoDup_app. split_and!; [done|set_solver|].
    apply NoDup_singleton.
  - clear Hd. induction Hf as [|[k1 v1] m H1 Hf IH]; cbn; [by repeat constructor|].
    case_bool_decide; by constructor.
Qed.
Lemma swap_remove_perm {A} (l : list A) i x y :
  last l = Some x → l !! i = Some y → y :: take (length l - 1) (<[i := x]> l) ≡ₚ l.
Proof.
  intros [l0 ->]%last_Some Hi. rewrite length_app. cbn. replace (length l0 + 1 - 1)%nat with (length l0) by lia.
  apply lookup_app_Some in Hi as [Hi|[Hle Hi]].
  - rewrite insert_app_l by (by eapply lookup_lt_Some).
    rewrite take_app_le, take_ge by (rewrite length_insert; lia).
    rewrite insert_take_drop by (by eapply lookup_lt_Some). rewrite <-(take_drop_middle l0 i y Hi) at 3. solve_Permutation.
  - apply list_lookup_singleton_Some in Hi as [Hi <-]. replace i with (length l0) by lia.
    rewrite insert_app_r_alt, Nat.sub_diag by lia. cbn. rewrite take_app_length. apply Permutation_cons_append.
Qed.
Lemma map_remove_perm k v m : map_get k m = Some v → NoDup m.*1 → (k, v) :: map_remove k m ≡ₚ m.
Proof.
  intros Hg Hd. unfold map_remove. destruct (list_find _ m) as [[i [k1 v1]]|] eqn:Hf.
  - apply list_find_Some in Hf as (Hi & Hk & _). cbn in Hk. subst k1.
    assert (v1 = v) as -> by (apply list_elem_of_lookup_2, (map_get_NoDup _ _ _ Hd) in Hi; congruence).
    destruct (last m) as [x|] eqn:Hl; [by apply swap_remove_perm|]. apply last_None in Hl. by subst.
  - apply list_find_None in Hf. apply map_get_elem in Hg. rewrite Forall_forall in Hf. by specialize (Hf _ Hg).
Qed.
Lemma map_remove_absent k m : map_get k m = None → map_remove k m = m.
Proof.
  intros Hg%map_get_None. unfold map_remove. destruct (list_find _ m) as [[i x]|] eqn:Hf; [|done].
  apply list_find_Some in Hf as (Hi & Hk & _). destruct Hg. apply list_elem_of_fmap. exists x.
  split; [done|]. by eapply list_elem_of_lookup_2.
Qed.
Lemma map_remove_spec k m : wf (VObject m) → wf (VObject (map_remove k m)) ∧
  ∀ k', map_get k' (map_remove k m) = if bool_decide (k' = k) then None else map_get k' m.
Proof.
  rewrite !wf_object. intros [Hd Hf]. destruct (map_get k m) as [v|] eqn:Hg.
  - pose proof (map_remove_perm _ _ _ Hg Hd) as Hp. pose proof Hd as Hd'. rewrite <-Hp in Hd', Hf. cbn in Hd'.
    apply NoDup_cons in Hd' as [Hn Hd']. apply list.Forall_cons in Hf as [_ Hf]. split; [done|].
    intros k'. case_bool_decide; subst; [by apply map_get_None|].
    destruct (map_get k' m) as [v'|] eqn:Hg'.
    + apply map_get_NoDup; [done|]. apply map_get_elem in Hg'. rewrite <-Hp in Hg'.
      apply elem_of_cons in Hg' as [[= -> _]|]; done.
    + apply map_get_None. apply map_get_None in Hg'. intros Hin. apply Hg'. rewrite <-Hp. cbn. by right.
  - rewrite map_remove_absent by done. split; [done|]. intros k'. case_bool_decide; congruence.
Qed.

(** ** Pointers *)

Lemma join_cons sep w ws : ws ≠ [] → join sep (w :: ws) = w +:+ sep +:+ join sep ws.
Proof. by destruct ws. Qed.
Lemma replace_cons c w a s :
  replace c w (String a s) = if bool_decide (a = c) then w +:+ replace c w s else String a (replace c w s).
Proof.
  unfold replace. cbn [split_on]. pose proof (split_on_not_nil c s) as Hn. destruct (split_on c s) as [|x l] eqn:Hs; [done|].
  case_bool_decide; [by rewrite join_cons by done|]. destruct l; done.
Qed.
Lemma replace_nil c w : replace c w EmptyString = EmptyString. Proof. done. Qed.
Lemma escape_cons a s : escape (String a s) =
  (if bool_decide (a = "~"%char) then "~0" else if bool_decide (a = "/"%char) then "~1" else String a EmptyString)
  +:+ escape s.
Proof.
  unfold escape. rewrite replace_cons. case_bool_decide.
  - cbn [String.append]. rewrite !replace_cons. done.
  - rewrite replace_cons. by case_bool_decide.
Qed.
Lemma escape_nil : escape EmptyString = EmptyString. Proof. done. Qed.
Lemma decode_escape t : decode_part (escape t) = Some t.
Proof.
  induction t as [|a t IH]; [done|]. rewrite escape_cons.
  case_bool_decide; [subst; cbn; by rewrite IH|]. case_bool_decide; [subst; cbn; by rewrite IH|].
  cbn [String.append]. destruct a as [[] [] [] [] [] [] [] []]; cbn; rewrite ?IH; try done.
Qed.
#[export] Instance escape_inj : Inj (=) (=) escape.
Proof. intros x y Hxy%(f_equal decode_part). rewrite !decode_escape in Hxy. congruence. Qed.
Lemma escape_decode s t : decode_part s = Some t → "/"%char ∉ bytes s → s = escape t.
Proof.
  revert t. induction s as [s IH] using (induction_ltof1 _ String.length). unfold ltof in IH.
  intros t. destruct s as [|a s]; [by intros [= <-]|]. intros Hd Hs.
  assert (a ≠ "/"%char) as Ha by (intros ->; apply Hs; by left).
  destruct (decide (a = "~"%char)) as [->|Hne].
  - destruct s as [|b s]; [done|].
    assert (b = "0"%char ∨ b = "1"%char) as Hb.
    { destruct (decide (b = "0"%char)); [by left|]. destruct (decide (b = "1"%char)); [by right|].
      destruct b as [[] [] [] [] [] [] [] []]; cbn in Hd; done. }
    destruct Hb as [-> | ->]; cbn in Hd; destruct (decode_part s) as [t'|] eqn:Ht; cbn in Hd; try done;
      injection Hd as <-; rewrite escape_cons, (IH s ltac:(cbn; lia) t'); try done; cbn in Hs; set_solver.
  - assert (∃ t', decode_part s = Some t' ∧ t = String a t') as (t' & Ht & ->).
    { destruct a as [[] [] [] [] [] [] [] []]; cbn in Hd, Hne; try done;
        (destruct (decode_part s) as [t'|]; cbn in Hd; [|done]; injection Hd as <-; by eexists). }
    rewrite escape_cons, !bool_decide_eq_false_2 by done. cbn. f_equal.
    apply IH; [cbn; lia|done|]. cbn in Hs. set_solver.
Qed.
Lemma escape_no_slash t : "/"%char ∉ bytes (escape t).
Proof.
  induction t as [|a t IH]; [by intros ?%elem_of_nil|]. rewrite escape_cons, bytes_app.
  repeat case_bool_decide; cbn; set_solver.
Qed.
Lemma split_on_parts c s w : w ∈ split_on c s → c ∉ bytes w.
Proof.
  revert w. induction s as [|a s IH]; intros w; cbn; [by intros ->%list_elem_of_singleton ?%elem_of_nil|].
  case_bool_decide as Ha; [intros [->|Hw]%elem_of_cons; [by intros ?%elem_of_nil|by apply IH]|].
  pose proof (split_on_not_nil c s) as Hn. destruct (split_on c s) as [|x l]; [done|].
  intros [->|Hw]%elem_of_cons; [|apply IH; by right].
  cbn. specialize (IH x ltac:(left)). set_solver.
Qed.
Lemma split_render t ts : split_on "/" (escape t +:+ spelled ts) = escape <$> (t :: ts).
Proof.
  revert t. induction ts as [|t' ts IH]; intros t; cbn [spelled].
  - rewrite app_empty_r. apply split_on_none, escape_no_slash.
  - rewrite split_on_app by apply escape_no_slash. by rewrite IH.
Qed.
Lemma render_join ts : ts ≠ [] → spelled ts = String "/" (join "/" (escape <$> ts)).
Proof.
  induction ts as [|t ts IH]; [done|]. intros _. cbn [spelled fmap list_fmap]. f_equal.
  destruct ts as [|t' ts]; [apply app_empty_r|]. rewrite join_cons by done.
  rewrite IH by done. done.
Qed.
Lemma count_render ts : count_byte "/" (spelled ts) = length ts.
Proof.
  induction ts as [|t ts IH]; [done|]. cbn [spelled]. cbn. rewrite count_byte_app, IH.
  by rewrite (proj2 (count_byte_0 "/" (escape t)) (escape_no_slash t)).
Qed.
Definition safe_path (ts : list string) : Prop :=
  (length ts ≤ MAX_DOCUMENT_DEPTH)%nat ∧ Forall (λ t, unsafe_key t = false) ts.
Lemma token_ok p t : token p = Ok t ↔ decode_part p = Some t ∧ unsafe_key t = false.
Proof.
  unfold token. rewrite bind_ok. split.
  - intros (x & Hx%ok_or_ok & ([] & Hu%ensure_ok & [= <-])%bind_ok). by apply negb_true_iff in Hu.
  - intros [-> Hu]. exists t. split; [done|]. by rewrite Hu.
Qed.
Lemma collect_ok {E A B} (f : A → result E B) l l' : collect f l = Ok l' ↔ Forall2 (λ x y, f x = Ok y) l l'.
Proof.
  revert l'. induction l as [|x l IH]; intros l'; cbn; [split; [by intros [= <-]|by inversion 1]|]. split.
  - intros (y & Hy & (ys & Hys%IH & [= <-])%bind_ok)%bind_ok. by constructor.
  - inversion 1; subst. apply bind_ok. eexists. split; [done|]. apply bind_ok. eexists. by rewrite IH.
Qed.
(** Tokens and their spelling determine each other. *)
Lemma tokens_ok p ts : tokens p = Ok ts ↔ p = spelled ts ∧ safe_path ts.
Proof.
  unfold tokens, safe_path. split.
  - intros ([] & Hc%ensure_ok%Nat.leb_le & Ht)%bind_ok.
    destruct p as [|a p]; cbn [is_empty] in Ht; [injection Ht as <-; split; [done|]; split; [cbn; lia|constructor]|].
    apply bind_ok in Ht as (raw & Hraw%ok_or_ok & Ht%collect_ok). apply strip_prefix_Some in Hraw.
    assert (split_on "/" raw = escape <$> ts ∧ Forall (λ t, unsafe_key t = false) ts) as [Hs Hf].
    { assert (Forall (λ w, "/"%char ∉ bytes w) (split_on "/" raw)) as Hno by (apply Forall_forall, split_on_parts).
      induction Ht as [|w t ws ts [Hd Hu]%token_ok _ IH]; [done|]. apply list.Forall_cons in Hno as [Hw Hno].
      destruct (IH Hno) as [-> Hf]. cbn. split; [|by constructor]. f_equal. by apply escape_decode. }
    assert (ts ≠ []) as Hne by (intros ->; by apply (split_on_not_nil "/" raw)).
    assert (String a p = spelled ts) as Hp.
    { rewrite Hraw, render_join, <-Hs by done. by rewrite join_split_on. }
    split_and!; [done| |done]. by rewrite Hp, count_render in Hc.
  - intros [-> [Hl Hf]]. rewrite count_render. rewrite (proj2 (Nat.leb_le _ _) Hl). cbn [ensure mbind result_bind].
    destruct ts as [|t ts]; [done|]. cbn [spelled is_empty strip_prefix].
    rewrite bool_decide_eq_true_2 by done. cbn [ok_or mbind result_bind]. rewrite split_render.
    apply collect_ok. rewrite Forall2_fmap_l. apply Forall2_same_length_lookup. split; [done|].
    intros i x y Hx Hy. rewrite Hx in Hy. injection Hy as <-. apply token_ok. split; [apply decode_escape|].
    by eapply (Forall_lookup_1 _ _ _ _ Hf).
Qed.
Lemma render_app ts us : spelled (ts ++ us) = spelled ts +:+ spelled us.
Proof. induction ts as [|t ts IH]; [done|]. cbn [spelled app]. cbn. by rewrite IH, string_app_assoc. Qed.
Lemma render_inj ts us : spelled ts = spelled us → ts = us.
Proof.
  revert us. induction ts as [|t ts IH]; intros [|u us] He; try done. cbn [spelled] in He. injection He as He.
  apply (f_equal (split_on "/")) in He. rewrite !split_render in He. cbn in He. injection He as ->%(inj escape) Hts. f_equal.
  by apply (inj (fmap (M:=list) escape)) in Hts.
Qed.
(** Prefixes of the spelling at a slash are prefixes of the tokens. *)
Lemma render_prefix ts us : starts_with (spelled ts +:+ "/") (spelled us) = true ↔ ∃ k ks, us = ts ++ k :: ks.
Proof.
  rewrite starts_with_true. split.
  - revert us. induction ts as [|t ts IH]; intros us [r Hr].
    + destruct us as [|u us]; [done|]. by exists u, us.
    + destruct us as [|u us]; [done|]. cbn [spelled] in Hr. cbn in Hr. injection Hr as Hr.
      rewrite string_app_assoc, string_app_assoc in Hr. pose proof Hr as Hs. apply (f_equal (split_on "/")) in Hs.
      rewrite split_render in Hs.
      assert (∃ l, split_on "/" (escape t +:+ spelled ts +:+ "/" +:+ r) = escape t :: l) as [l Hl].
      { destruct ts as [|t' ts]; cbn [spelled].
        - cbn. eexists. by rewrite split_on_app by apply escape_no_slash.
        - cbn. eexists. by rewrite split_on_app by apply escape_no_slash. }
      rewrite Hl in Hs. cbn in Hs. injection Hs as ->%(inj escape) _.
      apply (inj (String.append (escape t))) in Hr.
      destruct (IH us) as (k & ks & ->); [by exists r; rewrite string_app_assoc|]. by exists k, ks.
  - intros (k & ks & ->). rewrite render_app. cbn [spelled]. exists (escape k +:+ spelled ks).
    by rewrite string_app_assoc.
Qed.

(** ** Array indices *)

Lemma digit_of_inj a b : digit_of a = digit_of b → a = b.
Proof.
  unfold digit_of, byte. intros Hd. rewrite <-(ascii_N_embedding a), <-(ascii_N_embedding b). f_equal. lia.
Qed.
Lemma decimal_cons a l : decimal (a :: l) = digit_of a * 10 ^ Z.of_nat (length l) + decimal l.
Proof. change (decimal (a :: l)) with (foldl (λ n a, 10 * n + digit_of a) (digit_of a) l). apply decimal_from. Qed.
Lemma decimal_inj l l' : forallb is_digit l = true → forallb is_digit l' = true → length l = length l' →
  decimal l = decimal l' → l = l'.
Proof.
  revert l'. induction l as [|a l IH]; intros [|b l']; try done. cbn [forallb length].
  intros [Ha Hl]%andb_true_iff [Hb Hl']%andb_true_iff [= Hlen]. rewrite !decimal_cons, <-Hlen.
  pose proof (decimal_bounds _ Hl). pose proof (decimal_bounds _ Hl') as Hbl. rewrite <-Hlen in Hbl.
  intros He. assert (digit_of a = digit_of b) as Hab by nia. rewrite Hab in He.
  f_equal; [by apply digit_of_inj|]. apply IH; [done..|]. lia.
Qed.
Lemma index_ok t i : index t = Ok i → is_empty t = false ∧ (len t ≤ 1 ∨ starts_with "0" t = false) ∧
  forallb is_digit (bytes t) = true ∧ i = Z.to_nat (decimal (bytes t)).
Proof.
  unfold index. intros ([] & Hc%ensure_ok%negb_true_iff & ([] & _ & [= <-])%bind_ok)%bind_ok.
  apply orb_false_iff in Hc as [[He Hz]%orb_false_iff Hd%negb_false_iff].
  split_and!; [done| |done|done]. apply andb_false_iff in Hz as [Hz%Z.ltb_ge|]; auto.
Qed.
(** A leading digit that is not zero decides the length. *)
Lemma index_length t t' i : index t = Ok i → index t' = Ok i → (String.length t ≤ String.length t')%nat.
Proof.
  intros (He & Hz & Hd & Hi)%index_ok (He' & _ & Hd' & Hi')%index_ok.
  destruct (decide (String.length t ≤ String.length t')%nat) as [|Hlt]; [done|]. exfalso.
  destruct t as [|a t]; [done|]. destruct t' as [|a' t']; [done|].
  assert (digit_of a ≠ 0) as Ha.
  { destruct Hz as [Hz|Hz]; [unfold len in Hz; cbn in Hz, Hlt; lia|]. intros H0.
    assert (a = "0"%char) as -> by (by apply digit_of_inj). cbn in Hz. unfold starts_with in Hz. cbn in Hz.
    by apply bool_decide_eq_false in Hz as []. }
  pose proof (decimal_bounds _ Hd) as Hlo. pose proof (decimal_bounds _ Hd') as Hhi.
  assert (decimal (bytes (String a t)) = decimal (bytes (String a' t'))) as Hv by lia.
  cbn [bytes forallb] in Hd. apply andb_true_iff in Hd as [Hda Hd]. pose proof (digit_of_bounds _ Hda).
  cbn [bytes] in Hv, Hhi. rewrite decimal_cons in Hv. pose proof (decimal_bounds _ Hd) as Hb.
  cbn [length] in Hhi. rewrite length_bytes in *. cbn [String.length] in Hlt.
  assert (10 ^ Z.of_nat (S (String.length t')) ≤ 10 ^ Z.of_nat (String.length t)) by (apply Z.pow_le_mono_r; lia).
  assert (0 < 10 ^ Z.of_nat (String.length t)) by lia. nia.
Qed.
Lemma index_inj t t' i : index t = Ok i → index t' = Ok i → t = t'.
Proof.
  intros Ht Ht'. pose proof (index_length _ _ _ Ht Ht'). pose proof (index_length _ _ _ Ht' Ht).
  apply index_ok in Ht as (_ & _ & Hd & Hi), Ht' as (_ & _ & Hd' & Hi').
  rewrite <-(string_of_bytes t), <-(string_of_bytes t'). f_equal.
  apply decimal_inj; [done..|rewrite !length_bytes; lia|].
  pose proof (decimal_bounds _ Hd). pose proof (decimal_bounds _ Hd'). lia.
Qed.

(** ** Reading and writing *)

Lemma at_path_nil v : at_path v [] = Some v. Proof. done. Qed.
Lemma at_path_object m t ts : at_path (VObject m) (t :: ts) = map_get t m ≫= λ v, at_path v ts.
Proof. unfold at_path. cbn. by destruct (map_get t m). Qed.
Lemma at_path_array l t ts i : index t = Ok i → at_path (VArray l) (t :: ts) = l !! i ≫= λ v, at_path v ts.
Proof. unfold at_path. cbn. intros ->. cbn. by destruct (l !! i). Qed.
Lemma at_path_array_bad l t ts e : index t = Err e → at_path (VArray l) (t :: ts) = None.
Proof. unfold at_path. cbn. by intros ->. Qed.
Lemma at_path_scalar v t ts : is_scalar v = true → at_path v (t :: ts) = None.
Proof. by destruct v. Qed.
Lemma at_path_app v ts us : at_path v (ts ++ us) = at_path v ts ≫= λ w, at_path w us.
Proof.
  revert v. induction ts as [|t ts IH]; intros v; [done|]. cbn [app].
  destruct v as [| | | |l|m]; [done..| |].
  - destruct (index t) as [i|e] eqn:Hi; [|by erewrite !at_path_array_bad by done].
    rewrite !(at_path_array _ _ _ _ Hi). destruct (l !! i); cbn; [apply IH|done].
  - rewrite !at_path_object. destruct (map_get t m); cbn; [apply IH|done].
Qed.
Lemma read_ok v p o ts : tokens p = Ok ts → read v p = Ok o → at_path v ts = o.
Proof. unfold read, at_path. intros -> Hr. cbn in Hr. by rewrite Hr. Qed.
Lemma read_tokens v p o : read v p = Ok o → ∃ ts, tokens p = Ok ts ∧ at_path v ts = o.
Proof. intros Hr. pose proof Hr as (ts & Hts & _)%bind_ok. exists ts. split; [done|]. by eapply read_ok. Qed.
(** A scalar ends the walk with an error. *)
Lemma read_through_scalar v ts k us w o :
  at_path v ts = Some w → is_scalar w = true → read_parts v (ts ++ k :: us) = Ok o → False.
Proof.
  revert v. induction ts as [|t ts IH]; intros v Hv Hw Hr.
  - injection Hv as ->. by destruct w.
  - cbn [app] in Hr. destruct v as [| | | |l|m]; try done.
    + cbn in Hr. apply bind_ok in Hr as (i & Hi & Hr). rewrite (at_path_array _ _ _ _ Hi) in Hv.
      destruct (l !! i); [|done]. by eapply IH.
    + rewrite at_path_object in Hv. cbn in Hr. destruct (map_get t m); [|done]. by eapply IH.
Qed.
Lemma write_ok v p x v' : write v p x = Ok v' → ∃ ts, tokens p = Ok ts ∧ write_parts v ts x = Ok v'.
Proof. intros (ts & Hts & ([] & _ & Hw)%bind_ok)%bind_ok. by exists ts. Qed.
Lemma write_parts_same v ts x v' : write_parts v ts x = Ok v' → at_path v' ts = Some x.
Proof.
  revert v v'. induction ts as [|t ts IH]; intros v v'; [done|]. cbn [write_parts].
  destruct v as [| | | |l|m]; [done..| |].
  - intros (i & Hi & (c & Hc%ok_or_ok & (c' & Hc' & [= <-])%bind_ok)%bind_ok)%bind_ok.
    rewrite (at_path_array _ _ _ _ Hi), list_lookup_insert_eq by (by eapply lookup_lt_Some). cbn.
    case_bool_decide; [by simplify_eq|by eapply IH].
  - case_bool_decide; [intros [= <-]; subst; rewrite at_path_object, map_get_insert, bool_decide_eq_true_2 by done; done|].
    intros ([] & _ & (c & Hc%IH & [= <-])%bind_ok)%bind_ok.
    by rewrite at_path_object, map_get_insert, bool_decide_eq_true_2.
Qed.
(** A write leaves every scalar that is not below its destination. *)
Lemma write_parts_other v ts x v' us w :
  write_parts v ts x = Ok v' → at_path v us = Some w → is_scalar w = true → ¬ ts `prefix_of` us →
  at_path v' us = Some w.
Proof.
  revert v v' us. induction ts as [|t ts IH]; intros v v' us; [done|]. cbn [write_parts].
  destruct v as [| | | |l|m]; [done..| |].
  - intros (i & Hi & (c & Hc%ok_or_ok & (c' & Hc' & [= <-])%bind_ok)%bind_ok)%bind_ok Hu Hw Hn.
    destruct us as [|u us]; [by injection Hu as <-|].
    destruct (index u) as [j|e] eqn:Hj; [|by erewrite at_path_array_bad in Hu by done].
    rewrite (at_path_array _ _ _ _ Hj) in Hu. rewrite (at_path_array _ _ _ _ Hj). destruct (decide (i = j)) as [<-|Hne].
    + pose proof (index_inj _ _ _ Hi Hj) as <-. rewrite Hc in Hu. cbn in Hu.
      rewrite list_lookup_insert_eq by (by eapply lookup_lt_Some). cbn.
      case_bool_decide as Hts; [subst; destruct Hn; apply prefix_cons, prefix_nil|].
      eapply IH; [done|done|done|]. intros Hp. by apply Hn, prefix_cons.
    + by rewrite list_lookup_insert_ne.
  - intros Hwr Hu Hw Hn. destruct us as [|u us]; [by injection Hu as <-|].
    rewrite at_path_object in Hu.
    case_bool_decide as Hts.
    + injection Hwr as <-. rewrite at_path_object, map_get_insert, bool_decide_eq_false_2; [done|].
      intros ->. subst. destruct Hn. apply prefix_cons, prefix_nil.
    + apply bind_ok in Hwr as ([] & _ & (c & Hc & [= <-])%bind_ok).
      rewrite at_path_object, map_get_insert. case_bool_decide; subst; [|done]. cbn.
      destruct (map_get t m) as [v0|]; cbn in Hu, Hc; [|done].
      eapply IH; [done|done|done|]. intros Hp. by apply Hn, prefix_cons.
Qed.
Lemma write_parts_wf v ts x v' : wf v → wf x → write_parts v ts x = Ok v' → wf v'.
Proof.
  revert v v'. induction ts as [|t ts IH]; intros v v' Hv Hx; [done|]. cbn [write_parts].
  destruct v as [| | | |l|m]; [done..| |].
  - intros (i & Hi & (c & Hc%ok_or_ok & (c' & Hc' & [= <-])%bind_ok)%bind_ok)%bind_ok.
    rewrite wf_array in Hv |- *. apply Forall_insert; [done|].
    case_bool_decide; [by simplify_eq|]. eapply IH; [|done|done]. by eapply (Forall_lookup_1 _ _ _ _ Hv).
  - case_bool_decide; [intros [= <-]; by apply map_insert_wf|].
    intros ([] & _ & (c & Hc & [= <-])%bind_ok)%bind_ok. apply map_insert_wf; [|done].
    eapply IH; [|done|done]. destruct (map_get t m) as [v0|] eqn:Hg; cbn; [|by split; [constructor|]].
    apply wf_object in Hv as [_ Hv]. apply map_get_elem in Hg. rewrite Forall_forall in Hv. by apply (Hv (t, v0)).
Qed.
(** A scalar equals only itself. *)
Lemma value_eqb_scalar a b : is_scalar a = true → value_eqb a b = true → a = b.
Proof. destruct a, b; cbn; try done; by intros _ ->%bool_decide_eq_true. Qed.
