(* ===== verification/RegistrySelector.v ===== *)
(** Selectors of provider models ([crates/bitrouter-registry/src/selector.rs]): a provider and an
    opaque native ID in one string, whose bytes are escaped by percent signs. *)
From Stdlib Require Import ZArith Lia Ascii.
From stdpp Require Import base list strings gmap sorting.
From S2P Require Import Prelude RegistryValue.
Open Scope string_scope.
Open Scope list_scope.
Open Scope Z_scope.

Record NativeSelector := { provider : string; model : string }.
#[export] Instance NativeSelector_eq_dec : EqDecision NativeSelector. Proof. solve_decision. Defined.

Definition is_ascii_alphabetic (c : N) : bool := is_ascii_lowercase c || is_ascii_uppercase c.
Definition is_ascii_alphanumeric (a : ascii) : bool := is_ascii_alphabetic (byte a) || is_ascii_digit (byte a).
Definition provider_name (value : string) : bool :=
  match bytes value with [] => false | a :: _ => is_ascii_alphanumeric a end &&
  forallb (λ b, is_ascii_lowercase (byte b) || is_ascii_digit (byte b) ||
                bool_decide (b = "_"%char) || bool_decide (b = "-"%char)) (bytes value).
(** The bytes that stand for themselves. *)
Definition plain_byte (b : ascii) : bool :=
  is_ascii_alphanumeric b || bool_decide (b = "."%char) || bool_decide (b = "_"%char) || bool_decide (b = "-"%char).
(** [HEX[usize::from(n)]] *)
Definition hex_digit (n : N) : ascii := ascii_of_N (if (n <? 10)%N then 48 + n else 55 + n).
Definition escape_byte (b : ascii) : list ascii :=
  if plain_byte b then [b]
  else ["%"%char; hex_digit (N.shiftr (byte b) 4); hex_digit (N.land (byte b) 15)].
Definition invalid_model (message : string) : RegistryError := invalid_at "/model" message.
Definition encode (provider model : string) : result RegistryError string :=
  _ ← ensure (provider_name provider && native_id model) (invalid_model "Invalid provider/native identity");
  Ok (provider +:+ ":~native/" +:+ string_of (flat_map escape_byte (bytes model))).

Definition hex (b : ascii) : option N :=
  let n := byte b in
  if (48 <=? n)%N && (n <=? 57)%N then Some (n - 48)%N
  else if (65 <=? n)%N && (n <=? 70)%N then Some (n - 65 + 10)%N
  else if (97 <=? n)%N && (n <=? 102)%N then Some (n - 97 + 10)%N
  else None.
(** [value.split_once(pattern)]: the first occurrence. *)
Fixpoint split_once_str (pattern s : string) : option (string * string) :=
  match strip_prefix pattern s with
  | Some r => Some (EmptyString, r)
  | None =>
      match s with
      | EmptyString => None
      | String a s => '(x, y) ← split_once_str pattern s; Some (String a x, y)
      end
  end.
(** The loop over the encoded bytes. *)
Fixpoint decode_bytes (l : list ascii) : result RegistryError (list ascii) :=
  match l with
  | [] => Ok []
  | b :: l =>
      if bool_decide (b = "%"%char) then
        match l with
        | high :: low :: l =>
            match hex high, hex low with
            | Some a, Some c =>
                rest ← decode_bytes l; Ok (ascii_of_N (N.lor (N.shiftl a 4) c) :: rest)
            | _, _ => Err (invalid_model "Invalid native selector escape")
            end
        | _ => Err (invalid_model "Truncated native selector escape")
        end
      else if plain_byte b then rest ← decode_bytes l; Ok (b :: rest)
      else Err (invalid_model "Native selector contains an unescaped byte")
  end.
Definition decode (value : string) : result RegistryError (option NativeSelector) :=
  match split_once_str ":~native/" value with
  | None => Ok None
  | Some (provider, encoded) =>
      _ ← ensure (provider_name provider) (invalid_model "Invalid native selector provider");
      decoded ← decode_bytes (bytes encoded);
      _ ← ensure (valid_utf8 decoded) (invalid_model "Native selector is not valid UTF-8");
      let model := string_of decoded in
      _ ← ensure (native_id model) (invalid_model "Native selector has an empty or control-bearing model ID");
      Ok (Some {| provider := provider; model := model |})
  end.

(** ** Spellings *)

(** The texts that stand for these bytes: an escape may be of any case, and of any byte. *)
Inductive spells : list ascii → list ascii → Prop :=
| spells_nil : spells [] []
| spells_plain b e m : plain_byte b = true → spells e m → spells (b :: e) (b :: m)
| spells_escape x y a c e m : hex x = Some a → hex y = Some c → spells e m →
    spells ("%"%char :: x :: y :: e) (ascii_of_N (16 * a + c) :: m).

Lemma forall_ascii (P : ascii → Prop) : (∀ n, (n < 256)%nat → P (ascii_of_nat n)) → ∀ a, P a.
Proof. intros HP a. rewrite <-(ascii_nat_embedding a). apply HP, nat_ascii_bounded. Qed.
Lemma hex_digit_ok b : hex (hex_digit (N.shiftr (byte b) 4)) = Some (N.shiftr (byte b) 4) ∧
  hex (hex_digit (N.land (byte b) 15)) = Some (N.land (byte b) 15) ∧
  ascii_of_N (16 * N.shiftr (byte b) 4 + N.land (byte b) 15) = b.
Proof. by destruct b as [[] [] [] [] [] [] [] []]. Qed.
Lemma hex_bound x a : hex x = Some a → (a < 16)%N.
Proof. destruct x as [[] [] [] [] [] [] [] []]; cbn; intros Ha; try done; by injection Ha as <-. Qed.
Lemma join_nibbles a c : (a < 16)%N → (c < 16)%N → N.lor (N.shiftl a 4) c = (16 * a + c)%N.
Proof.
  intros Ha Hc. rewrite N.shiftl_mul_pow2. change (2 ^ 4)%N with 16%N.
  rewrite <-N.lxor_lor, <-N.add_nocarry_lxor; [lia|..];
    apply N.bits_inj; intros i; rewrite N.land_spec, N.bits_0; change 16%N with (2 ^ 4)%N;
    destruct (N.lt_ge_cases i 4) as [Hi|Hi];
    try (by rewrite N.mul_pow2_bits_low by done);
    rewrite (N.bits_above_log2 c i), andb_false_r; try done;
    (destruct (decide (c = 0)%N) as [->|]; [cbn; lia|]); apply N.log2_lt_pow2; try lia;
    assert (2 ^ 4 ≤ 2 ^ i)%N by (apply N.pow_le_mono_r; lia); lia.
Qed.
Lemma plain_not_percent b : plain_byte b = true → b ≠ "%"%char.
Proof. by intros Hb ->. Qed.
Lemma decode_bytes_ok e m : decode_bytes e = Ok m ↔ spells e m.
Proof.
  split.
  - revert m. induction e as [e IH] using (induction_ltof1 _ (@length ascii)). unfold ltof in IH. intros m.
    destruct e as [|b e]; cbn [decode_bytes]; [intros [= <-]; constructor|].
    case_bool_decide as Hb.
    + subst. destruct e as [|x [|y e]]; [done..|].
      destruct (hex x) as [a|] eqn:Ha; [|done]. destruct (hex y) as [c|] eqn:Hc; [|done].
      intros (r & Hr & [= <-])%bind_ok. rewrite join_nibbles by eauto using hex_bound.
      constructor; [done..|]. apply IH; [cbn; lia|done].
    + destruct (plain_byte b) eqn:Hp; [|done]. intros (r & Hr & [= <-])%bind_ok.
      constructor; [done|]. apply IH; [cbn; lia|done].
  - induction 1 as [|b e m Hp _ IH|x y a c e m Ha Hc _ IH]; cbn [decode_bytes]; [done| |].
    + rewrite bool_decide_eq_false_2 by by apply plain_not_percent. by rewrite Hp, IH.
    + rewrite bool_decide_eq_true_2, Ha, Hc, IH by done. cbn. by rewrite join_nibbles by eauto using hex_bound.
Qed.
Lemma escape_spells m : spells (flat_map escape_byte m) m.
Proof.
  induction m as [|b m IH]; cbn [flat_map]; [constructor|]. unfold escape_byte. destruct (plain_byte b) eqn:Hb.
  - by constructor.
  - destruct (hex_digit_ok b) as (H1 & H2 & H3). cbn [app]. rewrite <-H3 at 3. by constructor.
Qed.
Lemma split_once_str_Some p s x y : split_once_str p s = Some (x, y) → s = x +:+ p +:+ y.
Proof.
  revert x. induction s as [|a s IH]; intros x; cbn [split_once_str].
  - destruct (strip_prefix p EmptyString) eqn:Hp; [|done]. intros [= <- <-]. by apply strip_prefix_Some in Hp.
  - destruct (strip_prefix p (String a s)) eqn:Hp; [intros [= <- <-]; by apply strip_prefix_Some in Hp|].
    destruct (split_once_str p s) as [[x' y']|] eqn:Hs; [|done]. cbn. intros [= <- <-]. cbn. f_equal. by apply IH.
Qed.
Lemma provider_colon p : provider_name p = true → ":"%char ∉ bytes p.
Proof.
  unfold provider_name. intros [_ Hf]%andb_true_iff Hin. rewrite forallb_forall in Hf.
  apply list_elem_of_In, Hf in Hin. done.
Qed.
Lemma split_once_str_app c p x y : c ∉ bytes x →
  split_once_str (String c p) (x +:+ String c (p +:+ y)) = Some (x, y).
Proof.
  intros Hx. induction x as [|a x IH]; cbn [String.append].
  - assert (strip_prefix (String c p) (String c (p +:+ y)) = Some y) as Hz by by apply strip_prefix_Some.
    cbn [split_once_str]. by rewrite Hz.
  - cbn [split_once_str strip_prefix]. rewrite bool_decide_eq_false_2 by (cbn in Hx; set_solver).
    cbn [bytes] in Hx. rewrite IH by set_solver. done.
Qed.

(** ** Theorems *)

Lemma decode_ok s sel : decode s = Ok (Some sel) ↔
  ∃ e, s = provider sel +:+ ":~native/" +:+ string_of e ∧ provider_name (provider sel) = true ∧
    spells e (bytes (model sel)) ∧ valid_utf8 (bytes (model sel)) = true ∧ native_id (model sel) = true.
Proof.
  unfold decode. split.
  - destruct (split_once_str _ s) as [[p e]|] eqn:Hs; [|done]. apply split_once_str_Some in Hs.
    intros ([] & Hp%ensure_ok & (m & Hm%decode_bytes_ok & ([] & Hu%ensure_ok & ([] & Hn%ensure_ok & [= <-])%bind_ok)%bind_ok)%bind_ok)%bind_ok.
    exists (bytes e). cbn. by rewrite bytes_string_of, string_of_bytes.
  - destruct sel as [p m]. cbn [provider model]. intros (e & -> & Hp & He%decode_bytes_ok & Hu & Hn).
    pose proof (split_once_str_app ":" "~native/" p (string_of e) (provider_colon _ Hp)) as Hs.
    change (split_once_str ":~native/" (p +:+ ":~native/" +:+ string_of e) = Some (p, string_of e)) in Hs.
    rewrite Hs, Hp. cbn [ensure mbind result_bind].
    rewrite bytes_string_of, He. cbn [mbind result_bind]. rewrite Hu. cbn [ensure mbind result_bind].
    by rewrite string_of_bytes, Hn.
Qed.
(** The marker decides whether a text is a selector. *)
Lemma decode_none s : decode s = Ok None ↔ ¬ ∃ x y, s = x +:+ ":~native/" +:+ y.
Proof.
  assert (split_once_str ":~native/" s = None ↔ ¬ ∃ x y, s = x +:+ ":~native/" +:+ y) as Hs.
  { split.
    - intros Hn (x & y & ->). induction x as [|a x IH]; [done|].
      cbn [String.append split_once_str] in Hn. destruct (strip_prefix _ (String a _)); [done|].
      apply IH. by destruct (split_once_str _ (x +:+ _)) as [[??]|].
    - intros Hn. destruct (split_once_str _ s) as [[x y]|] eqn:Hs; [|done].
      destruct Hn. exists x, y. by apply split_once_str_Some. }
  rewrite <-Hs. unfold decode. destruct (split_once_str _ s) as [[x y]|]; [|done]. split; [|done].
  intros ([] & _ & (m & _ & ([] & _ & ([] & _ & Hx)%bind_ok)%bind_ok)%bind_ok)%bind_ok. done.
Qed.
(** C33: a selector names one identity: every provider and native ID are encoded, and the decoder reads
    them back, without a second decoding of what looks like an escape; what it accepts is a valid
    provider, the marker, and a spelling of the bytes of a valid ID; so two identities never share
    a selector. A text is left to the other resolvers exactly when it is without the marker. *)
Theorem selector_roundtrip p m :
  provider_name p = true → native_id m = true → valid_utf8 (bytes m) = true →
  (∃ s, encode p m = Ok s ∧ decode s = Ok (Some {| provider := p; model := m |}) ∧
    ∀ t sel, decode t = Ok (Some sel) →
      (∃ e, t = provider sel +:+ ":~native/" +:+ string_of e ∧ spells e (bytes (model sel))) ∧
      is_ok (encode (provider sel) (model sel)) = true ∧
      (encode (provider sel) (model sel) = Ok s → sel = {| provider := p; model := m |})) ∧
  ∀ t, decode t = Ok None ↔ ¬ ∃ x y, t = x +:+ ":~native/" +:+ y.
Proof.
  intros Hp Hm Hu. split; [|apply decode_none]. eexists. assert (∀ p m, provider_name p = true → native_id m = true → valid_utf8 (bytes m) = true →
    decode (p +:+ ":~native/" +:+ string_of (flat_map escape_byte (bytes m))) = Ok (Some {| provider := p; model := m |})) as Hdec.
  { intros p' m' Hp' Hm' Hu'. apply decode_ok. eexists. split_and!; [done|done|apply escape_spells|done|done]. }
  split; [unfold encode; by rewrite Hp, Hm|]. split; [by apply Hdec|].
  intros t sel (e & -> & Hp' & He & Hu' & Hn')%decode_ok. split; [by exists e|]. unfold encode. rewrite Hp', Hn'.
  split; [done|]. cbn [ensure andb mbind result_bind].
  intros Heq%(f_equal (λ r, match r with Ok t => decode t | Err e => Err e end)). cbv beta iota in Heq.
  pose proof (Hdec _ _ Hp Hm Hu) as H1. pose proof (Hdec _ _ Hp' Hn' Hu') as H2.
  rewrite H1, H2 in Heq. destruct sel. cbn in Heq. congruence.
Qed.
