(* ===== verification/RegistryPricing.v ===== *)
(** Exact prices ([crates/bitrouter-registry/src/pricing.rs], with [integer] and the reader's policy of
    [src/document.rs]). A [BigRational] is a [Q] up to its equivalence; the parser of the lexeme
    of a [u64] in [serde_json_lenient] is [as_u64], with what it documents as its law. *)
From Stdlib Require Qcanon.
From Stdlib Require Import ZArith Lia Ascii QArith Qpower Qfield.
From stdpp Require Import base list strings gmap sorting pretty.
From S2P Require Import Prelude ExactInteger RegistryValue.
Open Scope string_scope.
Open Scope list_scope.
Open Scope Z_scope.

Definition unavailable (message : string) : RegistryError :=
  {| code := "registry.pricing_unavailable"; path := "/pricing"; message := message;
     recovery := "Provide verified applicable rates and codec counters, or upgrade to software supporting this tariff" |}.

(** ** Decimal numbers *)

(** [str::parse::<i32>] *)
Definition parse_i32 (s : string) : option Z :=
  let ds := default s (strip_sign s) in
  if is_empty ds || negb (all_digits ds) then None else
  let n := ExactInteger.decimal (bytes ds) in
  let n := if starts_with "-" s then - n else n in
  if (- 2147483648 <=? n) && (n <=? 2147483647) then Some n else None.
Definition decimal (value : string) : result RegistryError Q :=
  _ ← ensure (negb (is_empty value || (128 <? len value))) (unavailable "Invalid or excessive decimal");
  let negative := starts_with "-" value in
  let unsigned := default value (strip_prefix "-" value) in
  '(mantissa, exponent) ← (match split_exponent unsigned with
    | Some (base, exponent) =>
        n ← ok_or (parse_i32 exponent) (unavailable "Invalid decimal exponent"); Ok (base, n)
    | None => Ok (unsigned, 0)
    end);
  _ ← ensure (Z.abs exponent <=? 308) (unavailable "Decimal exponent exceeds supported bounds");
  let parts := split_on "." mantissa in
  _ ← ensure (Nat.leb (length parts) 2 && forallb (λ s, negb (is_empty s) && all_digits s) parts)
    (unavailable "Expected a nonnegative decimal");
  let fraction := match parts with _ :: f :: _ => len f | _ => 0 end in
  let number := ExactInteger.decimal (bytes (join "" parts)) in
  _ ← ensure (negb (negative && negb (number =? 0))) (unavailable "Expected a nonnegative decimal");
  let scale := fraction - exponent in
  Ok (if 0 <=? scale then number # Z.to_pos (10 ^ scale) else inject_Z (number * 10 ^ (- scale))).

(** [Number::as_u64]: the integer of the lexeme, when it is one of 64 bits. *)
Class ExactNumber := as_u64 : string → option Z.
Class ExactNumberLaws `{ExactNumber} : Prop := as_u64_exact :
  ∀ t n, as_u64 t = Some n → in_u64 n ∧ ∃ q, decimal t = Ok q ∧ (q == inject_Z n)%Q.
Definition is_integer (q : Q) : bool := (Qden (Qred q) =? 1)%positive.
Definition integer `{ExactNumber} (v : Value) : option Z :=
  match v with
  | VNumber t =>
      match as_u64 t with
      | Some n => Some n
      | None =>
          match decimal t with
          | Ok q => if is_integer q && ((0 <=? Qnum (Qred q)) && (Qnum (Qred q) <=? u64_max))
                    then Some (Qnum (Qred q)) else None
          | Err _ => None
          end
      end
  | _ => None
  end.

(** ** Tariffs *)

Record TokenUsage := {
  uncached_input : option Z; cache_read : option Z; cache_write : option Z;
  non_reasoning_output : option Z; reasoning_output : option Z }.
Definition TokenUsage_default : TokenUsage :=
  {| uncached_input := None; cache_read := None; cache_write := None;
     non_reasoning_output := None; reasoning_output := None |}.
Record MeterUsage := { unit_name : string; quantity : Q }.
Record ReaderPolicy := { stable_v1 : bool; beta_revisions : gset string; features : gset string }.
Definition SPEC_REVISION : string := "1.0.0-beta.6".
Definition ReaderPolicy_default : ReaderPolicy :=
  {| stable_v1 := false; beta_revisions := {[SPEC_REVISION]}; features := {["pricing.metered.v1"]} |}.
Definition supports (p : ReaderPolicy) (object : Value) : bool :=
  is_none_or (λ v, is_some_and (forallb (λ f, is_some_and (λ name, bool_decide (name ∈ features p)) (as_str f)))
    (as_array v)) (get "requires" object).

(** [value.to_string()]: the lexeme of a number; the text of other values is the serializer's. *)
Class JsonText := json_text : Value → string.
Definition to_string `{JsonText} (v : Value) : string := match v with VNumber t => t | _ => json_text v end.

Section pricing.
Context `{ExactNumber, JsonText}.

(** [iter.rev().find(f)] *)
Fixpoint rfind {A} (f : A → bool) (l : list A) : option A :=
  match l with
  | [] => None
  | x :: l => match rfind f l with Some y => Some y | None => if f x then Some x else None end
  end.
Definition sum_counts (l : list (option Z)) : option Z :=
  foldl (λ sum count, s ← sum; c ← count; s +? c) (Some 0) l.
Definition above (input_total : Z) (tier : Value) : bool :=
  is_some_and (λ n, n <? input_total) (integer (field "above_input_tokens" tier)).
Definition select_tier (price : Value) (input_total : Z) : option Value :=
  tiers ← get "context_tiers" price; tiers ← as_array tiers; rfind (above input_total) tiers.
Definition rate_of (price : Value) (tier : option Value) (group name : string) : option Value :=
  match (t ← tier; g ← get group t; get name g) with
  | Some r => Some r
  | None => g ← get group price; get name g
  end.
Definition categories (u : TokenUsage) : list (string * string * option Z) :=
  [("input_tokens", "no_cache", uncached_input u); ("input_tokens", "cache_read", cache_read u);
   ("input_tokens", "cache_write", cache_write u); ("output_tokens", "text", non_reasoning_output u);
   ("output_tokens", "reasoning", reasoning_output u)].
Definition add_category (price : Value) (tier : option Value) (total : Q) (c : string * string * option Z) :
    result RegistryError Q :=
  let '(group, name, count) := c in
  n ← ok_or count (unavailable "Unknown token category; absence must be proven by the codec");
  if n =? 0 then Ok total else
  rate ← ok_or (rate_of price tier group name) (unavailable "Missing rate for billable usage");
  r ← decimal (to_string rate);
  Ok (total + r * inject_Z n / inject_Z 1000000)%Q.
Definition token_charge (price : Value) (u : TokenUsage) : result RegistryError Q :=
  input_total ← ok_or (sum_counts [uncached_input u; cache_read u; cache_write u])
    (unavailable "Missing or overflowing input usage");
  try_fold (add_category price (select_tier price input_total)) 0%Q (categories u).

Definition add_meter (usage : gmap string MeterUsage) (total : Q) (meter : Value) : result RegistryError Q :=
  id ← ok_or (as_str (field "id" meter)) (unavailable "Invalid meter identity");
  counter ← ok_or (usage !! id) (unavailable "Meter counter is not implemented or usage is unknown");
  _ ← ensure (Qle_bool 0 (quantity counter) && is_str (unit_name counter) (field "unit" meter))
    (unavailable "Meter counter has incompatible units or negative quantity");
  n ← ok_or (n ← integer (field "quantity" meter); if 0 <? n then Some n else None)
    (unavailable "Invalid tariff quantity");
  amount ← ok_or (as_str (field "amount" meter)) (unavailable "Invalid tariff amount");
  a ← decimal amount;
  Ok (total + quantity counter * a / inject_Z n)%Q.
Definition metered_charge (price : Value) (usage : gmap string MeterUsage) : result RegistryError Q :=
  meters ← ok_or (l ← as_array (field "meters" price); if bool_decide (l = []) then None else Some l)
    (unavailable "Missing meters");
  try_fold (add_meter usage) 0%Q meters.

Definition charge (price : Value) (tokens : TokenUsage) (meters : gmap string MeterUsage)
    (endpoint_profile : option string) (policy : ReaderPolicy) : result RegistryError Q :=
  _ ← ensure (supports policy price && is_str "USD" (field "currency" price))
    (unavailable "Unsupported required price semantics or currency");
  _ ← ensure (is_none_or (λ declared, bool_decide (declared ∈ ["openai_global"; "openai_us"; "openai_europe"]) &&
                bool_decide (endpoint_profile = Some declared)) (get "endpoint_profile" price ≫= as_str))
    (unavailable "Processing profile has not been verified for this deployment");
  if is_str "token" (field "kind" price) then token_charge price tokens
  else if is_str "metered" (field "kind" price) then metered_charge price meters
  else Err (unavailable "Unknown tariff kind").

Definition sum_attempts (attempts : list (option Q)) : result RegistryError Q :=
  try_fold (λ total amount, n ← ok_or amount (unavailable "A billable attempt has unknown usage");
    Ok (total + n)%Q) 0%Q attempts.
End pricing.

(** ** Decimals and what they denote *)

(** The rational that a literal denotes, but for its sign. *)
Definition literal_value (l : Literal) : Q :=
  (inject_Z (digits_value l) * Qpower (inject_Z 10) (scale l - len (fraction_digits l)))%Q.
(** The literals that are prices: digits on both sides of a point, bounded, and not negative. *)
Record price_literal (l : Literal) : Prop := {
  pl_ok : Literal_ok l = true;
  pl_fraction : fraction l ≠ Some "";
  pl_length : len (render l) ≤ 128;
  pl_scale : Z.abs (scale l) ≤ 308;
  pl_sign : minus l = true → digits_value l = 0 }.
Definition code_value (l : Literal) : Q :=
  let s := len (fraction_digits l) - scale l in
  if 0 <=? s then digits_value l # Z.to_pos (10 ^ s) else inject_Z (digits_value l * 10 ^ (- s)).
Lemma code_value_eq l : (code_value l == literal_value l)%Q.
Proof.
  unfold code_value, literal_value. set (s := len (fraction_digits l) - scale l).
  replace (scale l - len (fraction_digits l)) with (- s) by (unfold s; lia).
  destruct (Z.leb_spec 0 s) as [Hs|Hs].
  - rewrite Qpower_opp, <-Zpower_Qpower by lia. rewrite Qmake_Qdiv. unfold Qdiv. f_equiv.
    rewrite Z2Pos.id by lia. done.
  - rewrite <-Zpower_Qpower by lia. by rewrite inject_Z_mult.
Qed.
Lemma parse_i32_scale l e : Literal_ok l = true → exponent l = Some e →
  parse_i32 (exponent_text e) =
  if (- 2147483648 <=? scale l) && (scale l <=? 2147483647) then Some (scale l) else None.
Proof.
  intros Hok He. pose proof (exponent_spec l Hok) as Hspec. unfold exponent_read in Hspec. rewrite He in Hspec.
  destruct Hspec as (Hne & Hd & Hs). unfold parse_i32, all_digits. cbn zeta in *. rewrite Hne, Hd, Hs. cbn [orb negb].
  by destruct (starts_with "-" _).
Qed.
Lemma literal_parts l : Literal_ok l = true → fraction l ≠ Some "" →
  split_on "." (mantissa l) = whole l :: match fraction l with Some f => [f] | None => [] end.
Proof.
  intros (_ & Hw & Hf & _)%Literal_ok_parts Hne. unfold mantissa, fraction_digits, all_digits in *.
  destruct (fraction l) as [f|]; cbn in Hf.
  - by rewrite split_on_app, (split_on_none _ f) by (by apply (digits_no "." _ eq_refl)).
  - rewrite app_empty_r. by rewrite split_on_none by by apply (digits_no "." _ eq_refl).
Qed.
Lemma decimal_render l q : Literal_ok l = true → fraction l ≠ Some "" →
  decimal (render l) = Ok q ↔ price_literal l ∧ q = code_value l.
Proof.
  intros Hok Hfr. unfold decimal. destruct (render_sign l Hok) as [-> ->].
  assert (is_empty (render l) = false) as Hne.
  { destruct (Literal_ok_parts l Hok) as (Hw & _). unfold render, unsigned, mantissa. destruct (minus l), (whole l); done. }
  rewrite Hne. cbn [orb].
  assert (split_exponent (unsigned l) = (λ e, (mantissa l, exponent_text e)) <$> exponent l) as ->.
  { pose proof (split_unsigned l Hok) as Hs. unfold exponent_read in Hs. destruct (exponent l) as [e|] eqn:He; cbn.
    - destruct (split_exponent (unsigned l)) as [[x y]|] eqn:Hx; cbn in Hs; [congruence|].
      unfold unsigned in Hx. rewrite He, split_exponent_app in Hx; [done|by apply mantissa_no_mark|].
      destruct (Literal_ok_parts l Hok) as (_ & _ & _ & Hall). specialize (Hall _ He). destruct e as [[mark sg] ds].
      cbn in *. rewrite !andb_true_iff, orb_true_iff, !bool_decide_eq_true in Hall. tauto.
    - unfold unsigned. rewrite He, app_empty_r. apply split_exponent_none, mantissa_no_mark, Hok. }
  assert (∀ e, exponent l = Some e → parse_i32 (exponent_text e) =
    if (- 2147483648 <=? scale l) && (scale l <=? 2147483647) then Some (scale l) else None) as Hparse
    by (intros; by apply parse_i32_scale).
  assert (exponent l = None → unsigned l = mantissa l ∧ scale l = 0) as Hs0.
  { unfold scale, unsigned. intros ->. by rewrite app_empty_r. }
  rewrite (bind_ok (ensure _ _)). split.
  - intros ([] & Hlen%ensure_ok & Hr). apply negb_true_iff, Z.ltb_ge in Hlen.
    apply bind_ok in Hr as ([m x] & Hm & ([] & Hx%ensure_ok & ([] & _ & ([] & Hz%ensure_ok & [= <-])%bind_ok)%bind_ok)%bind_ok).
    assert (m = mantissa l ∧ x = scale l) as [-> ->].
    { destruct (exponent l) as [e|] eqn:He; cbn in Hm; [|injection Hm as <- <-; by destruct (Hs0 eq_refl)].
      apply bind_ok in Hm as (n & Hn%ok_or_ok & [= <- <-]). rewrite Hparse in Hn by done.
      destruct (_ && _) in Hn; [by injection Hn as <-|done]. }
    rewrite (literal_parts l Hok Hfr) in *. unfold code_value, digits_value, fraction_digits.
    assert (join "" (whole l :: match fraction l with Some f => [f] | None => [] end) =
      whole l +:+ default "" (fraction l)) as Hj by (destruct (fraction l); cbn; by rewrite ?app_empty_r).
    rewrite Hj, bytes_app in *. split.
    + split; [done|done|done|by apply Z.leb_le|]. intros Hneg. rewrite Hneg in Hz. cbn in Hz.
      rewrite negb_involutive in Hz. by apply Z.eqb_eq.
    + destruct (fraction l); done.
  - intros [[_ _ Hlen Hsc Hsg] ->]. exists tt. split; [apply ensure_ok, negb_true_iff, Z.ltb_ge; lia|].
    apply bind_ok. exists (mantissa l, scale l). split.
    { destruct (exponent l) as [e|] eqn:He; cbn; [|destruct (Hs0 eq_refl) as [-> ->]; done]. rewrite Hparse by done.
      assert ((- 2147483648 <=? scale l) && (scale l <=? 2147483647) = true) as -> by lia. done. }
    rewrite (proj2 (Z.leb_le _ _) Hsc). cbn [ensure mbind result_bind]. rewrite (literal_parts l Hok Hfr).
    destruct (Literal_ok_parts l Hok) as (Hw & Hdw & Hdf & _).
    assert (Nat.leb (length (whole l :: match fraction l with Some f => [f] | None => [] end)) 2 &&
      forallb (λ s, negb (is_empty s) && all_digits s) (whole l :: match fraction l with Some f => [f] | None => [] end) = true) as ->.
    { cbn [forallb]. rewrite Hw, Hdw. unfold fraction_digits in Hdf. destruct (fraction l) as [f|]; [|done].
      cbn [default from_option id forallb length] in Hdf |- *. change (Nat.leb 2 2) with true. rewrite Hdf. by destruct f. }
    cbn [ensure mbind result_bind].
    assert (join "" (whole l :: match fraction l with Some f => [f] | None => [] end) =
      whole l +:+ default "" (fraction l)) as -> by (destruct (fraction l); cbn; by rewrite ?app_empty_r).
    rewrite bytes_app. fold (fraction_digits l). fold (digits_value l).
    assert (negb (minus l && negb (digits_value l =? 0)) = true) as ->.
    { destruct (minus l); [|done]. by rewrite Hsg. }
    cbn [ensure mbind result_bind]. unfold code_value, fraction_digits. destruct (fraction l); done.
Qed.

Lemma parse_i32_digits e n : parse_i32 e = Some n →
  is_empty (default e (strip_sign e)) = false ∧ all_digits (default e (strip_sign e)) = true.
Proof. unfold parse_i32. destruct (is_empty _ || _) eqn:He; [done|]. apply orb_false_iff in He as [-> ?%negb_false_iff]. done. Qed.
Lemma mantissa_read m : Nat.leb (length (split_on "." m)) 2 &&
    forallb (λ s, negb (is_empty s) && all_digits s) (split_on "." m) = true →
  ∃ w o, m = w +:+ match o with Some f => String "." f | None => "" end ∧
    is_empty w = false ∧ all_digits w = true ∧ is_none_or all_digits o = true ∧ o ≠ Some "".
Proof.
  intros [Hl%Nat.leb_le Hf]%andb_true_iff. pose proof (join_split_on "." m) as Hj.
  pose proof (split_on_not_nil "." m) as Hn. destruct (split_on "." m) as [|w [|f [|]]]; [done|..|cbn in Hl; lia];
    cbn in Hf, Hj; rewrite ?andb_true_r, !andb_true_iff, ?negb_true_iff in Hf.
  - exists w, None. cbn. rewrite app_empty_r. naive_solver.
  - exists w, (Some f). cbn. destruct Hf as [[? ?] [Hfe ?]]. split_and!; try done. by intros [= ->].
Qed.
(** What is accepted is the text of a literal. *)
Lemma decimal_literal s q : decimal s = Ok q → ∃ l, s = render l ∧ Literal_ok l = true ∧ fraction l ≠ Some "".
Proof.
  unfold decimal. intros ([] & _ & ([m x] & Hm & ([] & _ & ([] & Hp%ensure_ok & _)%bind_ok)%bind_ok)%bind_ok)%bind_ok.
  apply mantissa_read in Hp as (w & o & -> & Hw & Hdw & Ho & Hne).
  assert (s = (if starts_with "-" s then "-" else "") +:+ default s (strip_prefix "-" s)) as Hs.
  { destruct (strip_prefix "-" s) as [r|] eqn:Hr.
    - assert (starts_with "-" s = true) as -> by (unfold starts_with; by rewrite Hr). by apply strip_prefix_Some in Hr.
    - assert (starts_with "-" s = false) as -> by (unfold starts_with; by rewrite Hr). done. }
  set (ng := starts_with "-" s) in *. set (u := default s (strip_prefix "-" s)) in *. clearbody ng u.
  assert (∃ eo, u = (w +:+ match o with Some f => String "." f | None => "" end) +:+
      match eo with Some e => String e.1.1 (exponent_text e) | None => "" end ∧ is_none_or exponent_ok eo = true)
    as (eo & Hu & He).
  { destruct (split_exponent u) as [[b e]|] eqn:Hsp.
    - apply bind_ok in Hm as (n & Hn%ok_or_ok%parse_i32_digits & [= -> <-]).
      apply split_exponent_Some in Hsp as (a & -> & Ha). destruct (sign_read e) as (sg & Hsg & Hok).
      exists (Some (a, sg, default e (strip_sign e))). cbn [fst exponent_text]. split; [by rewrite <-Hsg|].
      cbn. destruct Hn as [-> ->]. rewrite Hok. destruct Ha as [-> | ->]; done.
    - injection Hm as -> <-. exists None. by rewrite app_empty_r. }
  exists {| minus := ng; whole := w; fraction := o; exponent := eo |}. split_and!; [|unfold Literal_ok; cbn [whole fraction exponent]; by rewrite Hw, Hdw, Ho|done].
  unfold render, unsigned, mantissa. cbn [minus whole fraction exponent]. by rewrite <-Hu.
Qed.
(** A price is read exactly: a text is accepted precisely when it is a literal with digits before
    and, if there is one, behind the point, of at most 128 bytes, with an exponent between -308 and
    308, that is not negative (minus zero is zero); and the rational number that is read is the one
    that the literal denotes, whatever its spelling, with no rounding. *)
Theorem decimal_iff s v :
  (∃ q, decimal s = Ok q ∧ (q == v)%Q) ↔ ∃ l, s = render l ∧ price_literal l ∧ (v == literal_value l)%Q.
Proof.
  split.
  - intros (q & Hq & Hv). destruct (decimal_literal _ _ Hq) as (l & -> & Hok & Hfr).
    apply decimal_render in Hq as [Hp ->]; [|done..]. exists l. split_and!; [done..|].
    eapply Qeq_trans; [symmetry; exact Hv|apply code_value_eq].
  - intros (l & -> & Hp & Hv). exists (code_value l). split; [apply decimal_render; [apply Hp|apply Hp|done]|].
    eapply Qeq_trans; [apply code_value_eq|by symmetry].
Qed.

(** ** Integers *)

Lemma Qred_integer n : Qred (inject_Z n) = inject_Z n.
Proof. apply Qcanon.Qred_identity. cbn. apply Z.gcd_1_r. Qed.
Lemma is_integer_spec q : is_integer q = true ↔ (q == inject_Z (Qnum (Qred q)))%Q.
Proof.
  unfold is_integer. split.
  - intros Hd%Pos.eqb_eq. eapply Qeq_trans; [symmetry; apply Qred_correct|].
    destruct (Qred q) as [n d]. cbn in *. by subst.
  - intros Hq%Qred_complete. rewrite Qred_integer in Hq. rewrite Hq. done.
Qed.
Section pricing_theorems.
Context `{ExactNumberLaws, JsonText}.

(** A number is an integer of 64 bits exactly when it denotes one, in any spelling. *)
Lemma integer_iff t n : integer (VNumber t) = Some n ↔
  in_u64 n ∧ ∃ q, decimal t = Ok q ∧ (q == inject_Z n)%Q.
Proof.
  assert (∀ q, (q == inject_Z n)%Q → is_integer q = true ∧ Qnum (Qred q) = n) as Hint.
  { intros q Hq%Qred_complete. rewrite Qred_integer in Hq. unfold is_integer. by rewrite Hq. }
  unfold integer. destruct (as_u64 t) as [m|] eqn:Ht.
  - apply as_u64_exact in Ht as (Hm & q & Hd & Hq). split.
    + intros [= <-]. split; [done|]. by exists q.
    + intros (_ & q' & Hd' & Hq'). rewrite Hd in Hd'. injection Hd' as <-. f_equal.
      apply Hint in Hq'. apply Qred_complete in Hq. rewrite Qred_integer in Hq. rewrite Hq in Hq'. by destruct Hq'.
  - destruct (decimal t) as [q|]; [|naive_solver]. split.
    + destruct (is_integer q) eqn:Hi; cbn; [|done]. destruct (_ && _) eqn:Hr; [|done]. intros [= <-].
      apply andb_true_iff in Hr as [?%Z.leb_le ?%Z.leb_le]. split; [done|]. exists q. split; [done|]. by apply is_integer_spec.
    + intros ([? ?] & q' & [= <-] & Hq). destruct (Hint _ Hq) as [-> ->]. cbn.
      by rewrite (proj2 (Z.leb_le 0 n)), (proj2 (Z.leb_le n _)).
Qed.

(** ** Charges *)

Definition Qsum (l : list Q) : Q := foldr Qplus 0%Q l.
(** What one category costs: nothing when nothing was used, and its rate otherwise. *)
Definition rate_for (price : Value) (tier : option Value) (c : string * string * Z) (r : Q) : Prop :=
  (c.2 = 0 ∧ r = 0%Q) ∨
  (c.2 ≠ 0 ∧ ∃ v, rate_of price tier c.1.1 c.1.2 = Some v ∧ decimal (to_string v) = Ok r).
Definition cost (c : string * string * Z) (r : Q) : Q := (inject_Z c.2 * r)%Q.
Lemma add_category_ok price tier total g n count total' :
  add_category price tier total (g, n, count) = Ok total' →
  ∃ c r, count = Some c ∧ rate_for price tier (g, n, c) r ∧
    (total' == total + cost (g, n, c) r / inject_Z 1000000)%Q.
Proof.
  unfold add_category, rate_for, cost. intros (c & Hc%ok_or_ok & Hr)%bind_ok. cbn [fst snd].
  destruct (Z.eqb_spec c 0) as [->|Hn].
  - injection Hr as <-. exists 0, 0%Q. split_and!; [done|by left|]. field.
  - apply bind_ok in Hr as (v & Hv%ok_or_ok & (r & Hr & [= <-])%bind_ok).
    exists c, r. split_and!; [done|right; split; [done|by exists v]|]. field.
Qed.
Lemma add_category_total price tier total g n c r : rate_for price tier (g, n, c) r →
  ∃ total', add_category price tier total (g, n, Some c) = Ok total'.
Proof.
  unfold rate_for, add_category. cbn [fst snd ok_or mbind result_bind].
  intros [[-> _]|(Hn & v & Hv & Hr)]; [by eexists|]. rewrite (proj2 (Z.eqb_neq _ _) Hn), Hv. cbn. rewrite Hr. by eexists.
Qed.
Lemma charge_loop price tier l : ∀ total total',
  try_fold (add_category price tier) total l = Ok total' →
  ∃ cs rs, l = (λ c : string * string * Z, (c.1, Some c.2)) <$> cs ∧ Forall2 (rate_for price tier) cs rs ∧
    (total' == total + Qsum (zip_with cost cs rs) / inject_Z 1000000)%Q.
Proof.
  induction l as [|[[g n] count] l IH]; intros total total'; cbn [try_fold].
  - intros [= <-]. exists [], []. split_and!; [done|constructor|]. cbn. field.
  - intros (t1 & (c & r & -> & Hr & Ht1)%add_category_ok & (cs & rs & -> & Hrs & Ht)%IH)%bind_ok.
    exists ((g, n, c) :: cs), (r :: rs). split_and!; [done|by constructor|].
    eapply Qeq_trans; [exact Ht|]. cbn [zip_with Qsum foldr]. fold (Qsum (zip_with cost cs rs)).
    rewrite Ht1. field.
Qed.
Lemma charge_loop_total price tier cs rs total : Forall2 (rate_for price tier) cs rs →
  ∃ total', try_fold (add_category price tier) total ((λ c : string * string * Z, (c.1, Some c.2)) <$> cs) = Ok total'.
Proof.
  intros Hrs. revert total. induction Hrs as [|[[g n] c] r cs rs Hr _ IH]; intros total; [by eexists|].
  cbn [fmap list_fmap try_fold fst snd]. destruct (add_category_total price tier total g n c r Hr) as [t ->]. apply IH.
Qed.
Lemma rate_for_unique price tier cs rs rs' :
  Forall2 (rate_for price tier) cs rs → Forall2 (rate_for price tier) cs rs' → rs = rs'.
Proof.
  intros Hr. revert rs'. induction Hr as [|c r cs rs Hc _ IH]; intros rs' Hr'; inversion Hr' as [|? r' ? rs'' Hc' Hr'']; subst; [done|].
  f_equal; [|by apply IH]. destruct Hc as [[? ->]|(? & v & Hv & Hd)], Hc' as [[? ->]|(? & v' & Hv' & Hd')]; try done.
  rewrite Hv in Hv'. injection Hv' as <-. congruence.
Qed.
Lemma rfind_Some {A} (f : A → bool) l x : rfind f l = Some x ↔
  ∃ l1 l2, l = l1 ++ x :: l2 ∧ f x = true ∧ Forall (λ y, f y = false) l2.
Proof.
  split.
  - revert x. induction l as [|y l IH]; intros x; cbn; [done|]. destruct (rfind f l) as [z|] eqn:Hz.
    + intros [= ->]. destruct (IH _ eq_refl) as (l1 & l2 & -> & ?). by exists (y :: l1), l2.
    + destruct (f y) eqn:Hy; [|done]. intros [= <-]. exists [], l. split_and!; [done..|].
      clear IH. induction l as [|z l IH]; [constructor|]. cbn in Hz. destruct (rfind f l); [done|].
      destruct (f z) eqn:Hfz; [done|]. constructor; [done|by apply IH].
  - intros (l1 & l2 & -> & Hx & Hl2). induction l1 as [|y l1 IH]; cbn; [|by rewrite IH].
    assert (rfind f l2 = None) as ->; [|by rewrite Hx]. clear -Hl2. induction Hl2 as [|z l Hz _ IH]; cbn; [done|]. by rewrite IH, Hz.
Qed.
Lemma rfind_None {A} (f : A → bool) l : rfind f l = None → Forall (λ y, f y = false) l.
Proof.
  induction l as [|y l IH]; cbn; [constructor|]. destruct (rfind f l); [done|].
  destruct (f y) eqn:Hy; [done|]. constructor; [done|by apply IH].
Qed.
Lemma select_tier_spec price total :
  match select_tier price total with
  | Some t => ∃ l1 l2, array (field "context_tiers" price) = l1 ++ t :: l2 ∧ above total t = true ∧
      Forall (λ t', above total t' = false) l2
  | None => Forall (λ t', above total t' = false) (array (field "context_tiers" price))
  end.
Proof.
  unfold select_tier, field, array. destruct (get "context_tiers" price) as [v|]; cbn; [|constructor].
  destruct (as_array v) as [l|]; cbn; [|constructor]. destruct (rfind (above total) l) as [t|] eqn:Hf.
  - by apply rfind_Some in Hf.
  - by apply rfind_None.
Qed.
Lemma sum_counts_Some i r w n : sum_counts [i; r; w] = Some n →
  ∃ i' r' w', i = Some i' ∧ r = Some r' ∧ w = Some w' ∧ n = i' + r' + w'.
Proof.
  unfold sum_counts. cbn. destruct i as [i|]; cbn; [|done]. destruct (0 +? i) as [x|] eqn:Hx; [|done].
  destruct r as [r|]; cbn; [|done]. destruct (x +? r) as [y|] eqn:Hy; [|done].
  destruct w as [w|]; cbn; [|done]. intros Hn. exists i, r, w. apply checked_add_Some in Hx, Hy, Hn.
  split_and!; try done. lia.
Qed.
(** C23: a charge is exact or unavailable: the charge of an attempt under a token tariff exists precisely
    when every counter is known, the input fits 64 bits and each category that was used has a rate, of the
    tier or else of the base; and then it is the sum of count times rate per million, a rational
    number, with no rounding and no category left out. The tier is the last one whose threshold the
    input exceeds. *)
Theorem token_charge_iff price u v :
  (∃ q, token_charge price u = Ok q ∧ (q == v)%Q) ↔
  ∃ i r w o g rates,
    u = {| uncached_input := Some i; cache_read := Some r; cache_write := Some w;
           non_reasoning_output := Some o; reasoning_output := Some g |} ∧
    sum_counts [Some i; Some r; Some w] = Some (i + r + w) ∧
    let tier := select_tier price (i + r + w) in
    let used := [("input_tokens", "no_cache", i); ("input_tokens", "cache_read", r);
                 ("input_tokens", "cache_write", w); ("output_tokens", "text", o);
                 ("output_tokens", "reasoning", g)] in
    Forall2 (rate_for price tier) used rates ∧
    (v == Qsum (zip_with cost used rates) / inject_Z 1000000)%Q ∧
    match tier with
    | Some t => ∃ l1 l2, array (field "context_tiers" price) = l1 ++ t :: l2 ∧ above (i + r + w) t = true ∧
        Forall (λ t', above (i + r + w) t' = false) l2
    | None => Forall (λ t', above (i + r + w) t' = false) (array (field "context_tiers" price))
    end.
Proof.
  split.
  - intros (q & (n & Hn%ok_or_ok & Hl)%bind_ok & Hq).
    destruct (sum_counts_Some _ _ _ _ Hn) as (i & r & w & Hi & Hr & Hw & ->).
    apply charge_loop in Hl as (cs & rs & Hcs & Hrs & Ht). unfold categories in Hcs.
    do 5 (destruct cs as [|[[??] ?] cs]; [done|]). destruct cs; [|done]. cbn in Hcs. simplify_eq.
    destruct u as [iu ru wu ou gu]. cbn in *. subst.
    do 5 eexists. exists rs. split_and!; [done|done|exact Hrs| |apply select_tier_spec].
    eapply Qeq_trans; [symmetry; exact Hq|]. eapply Qeq_trans; [exact Ht|]. field.
  - intros (i & r & w & o & g & rates & -> & Hs & Hrs & Hv & _).
    unfold token_charge. cbn [uncached_input cache_read cache_write]. rewrite Hs. cbn [ok_or mbind result_bind].
    destruct (charge_loop_total _ _ _ _ 0%Q Hrs) as [t Ht]. exists t. split; [exact Ht|].
    apply charge_loop in Ht as (cs & rs & Hcs & Hrs' & Ht).
    do 5 (destruct cs as [|[[??] ?] cs]; [done|]). destruct cs; [|done]. cbn in Hcs. simplify_eq.
    rewrite (rate_for_unique _ _ _ _ _ Hrs' Hrs) in Ht. eapply Qeq_trans; [exact Ht|].
    eapply Qeq_trans; [|symmetry; exact Hv]. field.
Qed.
End pricing_theorems.

(** ** Printed integers *)

Lemma digit_of_pretty x : (x < 10)%N → is_digit (pretty_N_char x) = true ∧ digit_of (pretty_N_char x) = Z.of_N x.
Proof.
  intros Hx. assert (x = 0 ∨ x = 1 ∨ x = 2 ∨ x = 3 ∨ x = 4 ∨ x = 5 ∨ x = 6 ∨ x = 7 ∨ x = 8 ∨ x = 9)%N as Hc by lia.
  by repeat destruct Hc as [->|Hc]; [..|subst].
Qed.
(** The digits in front, without a leading zero. *)
Lemma pretty_go_digits x s : (0 < x)%N → ∃ l, bytes (pretty_N_go x s) = l ++ bytes s ∧ forallb is_digit l = true ∧
  l ≠ [] ∧ ExactInteger.decimal l = Z.of_N x ∧ 10 ^ (Z.of_nat (length l) - 1) ≤ Z.of_N x.
Proof.
  revert s. induction (N.lt_wf_0 x) as [x _ IH]; intros s Hx. rewrite pretty_N_go_step by done.
  destruct (digit_of_pretty (x mod 10)) as [Hd Hv]; [by apply N.mod_lt|].
  destruct (decide (x / 10 = 0)%N) as [Hz|Hz].
  - rewrite Hz, pretty_N_go_0. exists [pretty_N_char (x mod 10)]. cbn [forallb bytes app length]. rewrite Hd. split_and!; [done..| |].
    + unfold ExactInteger.decimal. cbn [foldl]. rewrite Hv. pose proof (N.div_mod x 10 ltac:(lia)). lia.
    + cbn. lia.
  - assert (0 < x / 10)%N as Hpos by (by apply N.neq_0_lt_0).
    destruct (IH (x / 10)%N (N.div_lt x 10 Hx eq_refl) (String (pretty_N_char (x mod 10)) s) Hpos) as (l & Hb & Hl & Hne & Hdec & Hlen).
    exists (l ++ [pretty_N_char (x mod 10)]). rewrite Hb. cbn [bytes]. split_and!.
    + by rewrite <-app_assoc.
    + rewrite forallb_app, Hl. cbn. by rewrite Hd.
    + by destruct l.
    + rewrite decimal_snoc, Hdec, Hv. pose proof (N.div_mod x 10 ltac:(lia)). lia.
    + rewrite length_app, Nat2Z.inj_add. cbn [length Z.of_nat Pos.of_succ_nat].
      assert (0 < Z.of_nat (length l)) by (destruct l; [done|cbn; lia]).
      replace (Z.of_nat (length l) + Z.of_nat 1 - 1) with (Z.succ (Z.of_nat (length l) - 1)) by lia. rewrite Z.pow_succ_r by lia.
      etrans; [apply Z.mul_le_mono_nonneg_l; [lia|exact Hlen]|]. rewrite N2Z.inj_div. apply Z.mul_div_le. lia.
Qed.
Lemma pretty_digits n : 0 ≤ n → is_empty (pretty n) = false ∧ all_digits (pretty n) = true ∧
  ExactInteger.decimal (bytes (pretty n)) = n ∧ (len (pretty n) = 1 ∨ 10 ^ (len (pretty n) - 1) ≤ n).
Proof.
  intros Hn. destruct n as [|p|p]; [by split_and!; auto|change (pretty (Z.pos p)) with (pretty_N_go (N.pos p) "")|lia].
  destruct (pretty_go_digits (N.pos p) "" ltac:(lia)) as (l & Hb & Hl & Hne & Hd & Hlen). cbn [bytes] in Hb. rewrite app_nil_r in Hb.
  unfold all_digits, len. rewrite <-length_bytes, Hb, Hl, Hd. split_and!; [|done|done|by right].
  destruct (pretty_N_go _ _); [by destruct l|done].
Qed.
Lemma pretty_length n : in_u64 n → len (pretty n) ≤ 20.
Proof.
  intros [Hn Hm]. destruct (pretty_digits n Hn) as (_ & _ & _ & [->|Hlen]); [lia|].
  destruct (decide (len (pretty n) ≤ 20)) as [|Hgt]; [done|]. exfalso.
  assert (10 ^ 20 ≤ 10 ^ (len (pretty n) - 1)) by (apply Z.pow_le_mono_r; lia). unfold u64_max in Hm. cbn in Hm. lia.
Qed.
Lemma integer_printed `{ExactNumberLaws} n : in_u64 n → integer (VNumber (pretty n)) = Some n.
Proof.
  intros Hn. destruct (pretty_digits n (proj1 Hn)) as (He & Hd & Hv & _). pose proof (pretty_length n Hn) as Hlen. apply integer_iff. split; [done|].
  set (l := {| minus := false; whole := pretty n; fraction := None; exponent := None |}).
  assert (render l = pretty n) as Hr by (unfold render, unsigned, mantissa; cbn; by rewrite !app_empty_r).
  assert (Literal_ok l = true) as Hok by (unfold Literal_ok; cbn [whole fraction exponent l is_none_or from_option]; by rewrite He, Hd).
  assert (digits_value l = n) as Hdv by (unfold digits_value, fraction_digits; cbn [whole fraction l default from_option bytes id]; by rewrite app_nil_r).
  exists (code_value l). rewrite <-Hr. split.
  - apply decimal_render; [done..|]. split; [|done]. split; [done..|rewrite Hr; lia|done|done].
  - unfold code_value, fraction_digits. rewrite Hdv. change (scale l) with 0. change (len (default "" (fraction l))) with 0. by rewrite Z.leb_refl.
Qed.
