(* ===== verification/RegistryMapping.v ===== *)
(** Feed declarations of the registry and the addresses that they may write
    ([crates/bitrouter-registry/src/mapping.rs], with the adapters of [src/models_dev.rs] and
    [src/openrouter.rs]): the domain of every destination, and the validation of a mapping before anything is
    fetched. Then the transforms of mapped values: prefixes, exact decimal arithmetic, tables; and the printing
    of an exact rational as a JSON number. *)
From Stdlib Require Import ZArith Lia Ascii QArith Qpower Qreduction.
From stdpp Require Import base list strings gmap pretty sorting.
From S2P Require Import Prelude ExactInteger RegistryValue RegistryPricing.
Open Scope string_scope.
Open Scope list_scope.
Open Scope Z_scope.

Definition unsupported (message : string) : RegistryError :=
  {| code := "registry.sync_unsupported"; path := "/auto_sync/feeds"; message := message;
     recovery := "Upgrade to an importer supporting this feed contract or repair the feed configuration" |}.
(** [matches!(s, "a" | "b" | ...)] *)
Definition one_of (l : list string) (s : string) : bool := bool_decide (s ∈ l).
Definition is_number (v : Value) : bool := match v with VNumber _ => true | _ => false end.

(** ** Typed equality *)

Definition exact_number (t : string) : option Q :=
  let negative := starts_with "-" t in
  let body := default t (strip_prefix "-" t) in
  match decimal body with Ok q => Some (if negative then - q else q)%Q | Err _ => None end.
Fixpoint typed_equal (a b : Value) {struct a} : bool :=
  match a, b with
  | VNumber x, VNumber y =>
      match exact_number x, exact_number y with Some p, Some q => Qeq_bool p q | _, _ => false end
  | VArray l, VArray l' =>
      Nat.eqb (length l) (length l') &&
      (fix all l l' := match l, l' with x :: l, y :: l' => typed_equal x y && all l l' | _, _ => true end) l l'
  | VObject m, VObject m' =>
      Nat.eqb (length m) (length m') &&
      (fix all m := match m with
        | [] => true
        | (k, x) :: m => match map_get k m' with Some y => typed_equal x y | None => false end && all m end) m
  | _, _ => value_eqb a b
  end.

(** ** Domains *)

Fixpoint known_price_path (path : list string) : bool :=
  match path with
  | [] => true
  | head :: tail =>
      if one_of ["kind"; "currency"; "endpoint_profile"] head then bool_decide (tail = [])
      else if bool_decide (head = "input_tokens") then
        match tail with [] => true | [x] => one_of ["no_cache"; "cache_read"; "cache_write"] x | _ => false end
      else if bool_decide (head = "output_tokens") then
        match tail with [] => true | [x] => one_of ["text"; "reasoning"] x | _ => false end
      else if bool_decide (head = "context_tiers") then
        match tail with
        | [] => true
        | i :: rest =>
            is_ok (index i) &&
            match rest with
            | [] => true
            | x :: _ => bool_decide (rest = ["above_input_tokens"]) ||
                        (one_of ["input_tokens"; "output_tokens"] x && known_price_path rest)
            end
        end
      else if bool_decide (head = "meters") then
        match tail with
        | [] => true
        | [i] => is_ok (index i)
        | [i; x] => is_ok (index i) && one_of ["id"; "unit"; "quantity"; "amount"] x
        | _ => false
        end
      else false
  end.
(** [path] is not empty. *)
Definition known_metadata_path (path : list string) : bool :=
  match path with
  | [] | [_] => true
  | head :: tail =>
      if one_of ["question_types"; "input_modalities"; "output_modalities"; "capabilities"] head then
        match tail with [i] => is_ok (index i) | _ => false end
      else if bool_decide (head = "limits") then
        match tail with [x] => one_of ["max_input_tokens"; "max_output_tokens"; "context_window"] x | _ => false end
      else if bool_decide (head = "rate_limits") then
        match tail with [x] => one_of ["requests_per_minute"; "tokens_per_minute"] x | _ => false end
      else if bool_decide (head = "compatibility") then
        match tail with
        | [x] => one_of ["google_extensions"; "token_limit_field"; "supports_store"; "supports_stream_options"] x
        | _ => false
        end
      else if bool_decide (head = "reasoning_effort") then
        match tail with
        | [x] => one_of ["levels"; "default"] x
        | [x; i] => bool_decide (x = "levels") && is_ok (index i)
        | _ => false
        end
      else false
  end.
Definition interface_domain (rest : list string) : result RegistryError string :=
  match rest with
  | [] => Ok "metadata"
  | x :: rest' =>
      if one_of ["protocol"; "operation"; "protocol_profile"] x && bool_decide (rest' = []) then Ok "interface_identity"
      else if bool_decide (x = "pricing") && known_price_path rest' then Ok "pricing"
      else if one_of ["question_types"; "base_url"; "input_modalities"; "output_modalities"; "capabilities";
                      "limits"; "rate_limits"; "compatibility"; "reasoning_effort"] x &&
              known_metadata_path rest then Ok "metadata"
      else Err (unsupported "Unknown interface mapping destination")
  end.
Definition control_fields : list string := ["requires"; "sync"; "auth"; "curation"; "auto_sync"].
Definition domain_of (ts : list string) : result RegistryError string :=
  match ts with
  | [] => Err (invalid_feeds "Destination root is forbidden")
  | root :: rest =>
      _ ← ensure (negb (existsb (one_of control_fields) ts))
        (invalid_feeds "Mapping cannot write control or ownership fields");
      if one_of ["provider_model_id"; "canonical_id"] root && bool_decide (rest = []) then Ok "identity"
      else if one_of ["status"; "available_until"] root && bool_decide (rest = []) then Ok "models"
      else if one_of ["name"; "description"; "model_types"; "upstream_lifecycle"] root && bool_decide (rest = [])
      then Ok "metadata"
      else if bool_decide (root = "interfaces") then
        match rest with
        | [] => Ok "metadata"
        | i :: rest => _ ← index i; interface_domain rest
        end
      else Err (unsupported "Unknown normalized mapping destination")
  end.
Definition domain (pointer : string) : result RegistryError string := ts ← tokens pointer; domain_of ts.

Fixpoint known_value (path : string) (value : Value) (reviewed : bool) {struct value} : result RegistryError unit :=
  if reviewed && ends_with "/pricing/requires" path then Ok tt else
  _ ← domain path;
  match value with
  | VObject m =>
      (fix all m := match m with
        | [] => Ok tt
        | (k, x) :: m => _ ← known_value (path +:+ "/" +:+ escape k) x reviewed; all m end) m
  | VArray l =>
      if bool_decide (path = "/model_types") then Ok tt else
      (fix all (i : N) l := match l with
        | [] => Ok tt
        | x :: l => _ ← known_value (path +:+ "/" +:+ pretty i) x reviewed; all (N.succ i) l end) 0%N l
  | _ => Ok tt
  end.

(** ** Feeds *)

Definition destinations (v : Value) : result RegistryError (list string) :=
  match as_str v with
  | Some path => Ok [path]
  | None =>
      paths ← ok_or (l ← as_array v; if bool_decide (l = []) then None else Some l)
        (invalid_feeds "Mapping needs one destination or a nonempty destination array");
      collect (λ x, ok_or (as_str x) (invalid_feeds "Destination must be a JSON Pointer string")) paths
  end.
Definition write_domain (domains : gset string) (v : Value) : result RegistryError (gset string) :=
  name ← ok_or (as_str v) (invalid_feeds "Write domain must be a string");
  _ ← ensure (one_of ["models"; "metadata"; "pricing"] name) (unsupported "Unknown feed write domain");
  _ ← ensure (negb (bool_decide (name ∈ domains))) (invalid_feeds "Duplicate feed write domain");
  Ok ({[name]} ∪ domains).
Definition writes (feed : Value) : result RegistryError (gset string) :=
  values ← ok_or (l ← as_array (field "writes" feed); if bool_decide (l = []) then None else Some l)
    (invalid_feeds "Feed writes must be nonempty");
  try_fold write_domain ∅ values.
(** [feed["writes"].as_array().is_some_and(|w| w.iter().any(|v| v == name))] *)
Definition may_write (name : string) (feed : Value) : bool := has_str name (field "writes" feed).

Definition interface_authority (interfaces : Value) (authority : gset string) : result RegistryError unit :=
  l ← ok_or (as_array interfaces) (invalid_feeds "Interfaces must be an array");
  for_each (λ interface,
    m ← ok_or (as_object interface) (invalid_feeds "Interface must be an object");
    for_each (λ '(key, _),
      owner ← domain ("/interfaces/0/" +:+ key);
      ensure (bool_decide (owner = "interface_identity") || bool_decide (owner ∈ authority))
        (invalid_feeds "Nested interface field exceeds declared writes")) m) l.

Definition identity_domain (d : string) : bool := one_of ["identity"; "interface_identity"] d.
(** One destination of the mapping, [paths] being those before it. *)
Definition mapped_path (authority : gset string) (paths : list (string * list string)) (pointer : string) :
    result RegistryError (list (string * list string)) :=
  path ← tokens pointer;
  owner ← domain pointer;
  _ ← ensure (identity_domain owner || bool_decide (owner ∈ authority))
    (invalid_feeds "Destination is outside declared writes");
  _ ← ensure (negb (existsb (λ '(_, other), bool_decide (other `prefix_of` path) || bool_decide (path `prefix_of` other)) paths))
    (invalid_feeds "Duplicate or overlapping mapping destinations");
  Ok (paths ++ [(pointer, path)]).
Definition mapped_paths (authority : gset string) (mapping : Map) : result RegistryError (list (string * list string)) :=
  try_fold (λ paths '(source, target),
    _ ← tokens source;
    ds ← destinations target;
    try_fold (mapped_path authority) paths ds) [] mapping.
Definition check_default (authority : gset string) (x : string * Value) : result RegistryError unit :=
  let '(key, value) := x in
  _ ← known_value ("/" +:+ key) value true;
  owner ← domain ("/" +:+ key);
  let empty_interfaces := bool_decide (key = "interfaces") && is_some_and (λ l, bool_decide (l = [])) (as_array value) in
  ensure (empty_interfaces || identity_domain owner || bool_decide (owner ∈ authority) ||
          (bool_decide (key = "interfaces") && bool_decide ("pricing" ∈ authority)))
    (invalid_feeds "Default is outside declared writes").
Definition check_defaults (authority : gset string) (response : Map) : result RegistryError unit :=
  match map_get "defaults" response with
  | None => Ok tt
  | Some defaults =>
      m ← ok_or (as_object defaults) (invalid_feeds "Defaults must be an object");
      _ ← (match map_get "interfaces" m with Some i => interface_authority i authority | None => Ok tt end);
      for_each (check_default authority) m
  end.

(** Every entry of a [value_map] has a source unlike those before it. *)
Fixpoint check_value_map (before values : list Value) : result RegistryError unit :=
  match values with
  | [] => Ok tt
  | item :: values =>
      _ ← ensure (is_some (get "from" item) && is_some (get "to" item) &&
                  negb (existsb (λ v, typed_equal (field "from" v) (field "from" item)) before))
        (invalid_feeds "Invalid or duplicate value_map source");
      check_value_map (before ++ [item]) values
  end.
Section transforms.
Context `{JsonText}.
Definition check_step (target : string) (step : Value) : result RegistryError unit :=
  let kind := as_str (field "kind" step) in
  _ ← ensure (negb (bool_decide (kind = Some "strip_prefix") && negb (bool_decide (target = "/provider_model_id"))))
    (invalid_feeds "Resource-prefix removal applies only to native model IDs");
  if bool_decide (kind = Some "prefix") then
    ensure (is_some (as_str (field "value" step))) (invalid_feeds "Malformed transform parameters")
  else if bool_decide (kind = Some "strip_prefix") then
    ensure (is_some_and (λ s, negb (is_empty s)) (as_str (field "value" step)))
      (invalid_feeds "Malformed transform parameters")
  else if bool_decide (kind = Some "parse_decimal") then Ok tt
  else if bool_decide (kind = Some "multiply") then
    _ ← ensure (is_number (field "factor" step)) (invalid_feeds "Malformed transform parameters");
    _ ← decimal (to_string (field "factor" step)); Ok tt
  else if bool_decide (kind = Some "value_map") then
    values ← ok_or (as_array (field "values" step)) (invalid_feeds "value_map needs a values array");
    check_value_map [] values
  else Err (unsupported "Unknown transform kind").
Definition check_transform (paths : list (string * list string)) (x : string * Value) : result RegistryError unit :=
  let '(target, steps) := x in
  _ ← ensure (existsb (λ '(path, _), bool_decide (path = target)) paths) (invalid_feeds "Transform target must be mapped");
  steps ← ok_or (l ← as_array steps; if Nat.leb (length l) 64 then Some l else None)
    (invalid_feeds "Invalid or excessive transform list");
  _ ← ensure (negb (bool_decide (target = "/provider_model_id") &&
      negb (match steps with [step] => is_str "strip_prefix" (field "kind" step) | _ => false end)))
    (invalid_feeds "Native identity permits only one checked resource-prefix removal");
  for_each (check_step target) steps.
Definition check_transforms (paths : list (string * list string)) (response : Map) : result RegistryError unit :=
  match map_get "transforms" response with
  | None => Ok tt
  | Some transforms =>
      m ← ok_or (as_object transforms) (invalid_feeds "Transforms must be an object");
      for_each (check_transform paths) m
  end.

(** No value equals one before it. *)
Fixpoint distinct_values (before values : list Value) : bool :=
  match values with
  | [] => true
  | v :: values => negb (existsb (λ k, typed_equal k v) before) && distinct_values (before ++ [v]) values
  end.
Definition check_filter (feed : Value) (response : Map) : result RegistryError unit :=
  match map_get "filter" response with
  | None => Ok tt
  | Some filter =>
      path ← ok_or (as_str (field "path" filter)) (invalid_feeds "Filter needs a path");
      _ ← tokens path;
      allowed ← ok_or (l ← as_array (field "in" filter); if bool_decide (l = []) then None else Some l)
        (invalid_feeds "Filter allowlist must be nonempty");
      _ ← ensure (distinct_values [] allowed) (invalid_feeds "Duplicate filter allowlist value");
      match get "known_values" filter with
      | Some known =>
          known ← ok_or (as_array known) (invalid_feeds "known_values must be an array");
          ensure (forallb (λ v, existsb (λ k, typed_equal k v) known) allowed && distinct_values [] known)
            (invalid_feeds "Invalid or duplicate known filter vocabulary")
      | None =>
          ensure (negb (value_eqb (field "complete" (field "inventory" feed)) (VBool true)))
            (invalid_feeds "Complete filtered inventory requires known_values")
      end
  end.

(** [validate] of a feed that is no adapter's. *)
Definition validate_generic (feed : Value) : result RegistryError unit :=
  _ ← ensure (is_str "v1_models" (field "kind" feed) && supports ReaderPolicy_default feed)
    (unsupported "Unknown feed kind or required feature");
  authority ← writes feed;
  response ← ok_or (r ← get "response" feed; as_object r) (invalid_feeds "Missing response configuration");
  items_path ← ok_or (p ← map_get "items_path" response; as_str p) (invalid_feeds "Missing items_path");
  _ ← tokens items_path;
  mapping ← ok_or (m ← map_get "mapping" response; m ← as_object m; if bool_decide (length m = O) then None else Some m)
    (invalid_feeds "Missing mapping object");
  paths ← mapped_paths authority mapping;
  _ ← ensure (existsb (λ '(p, _), bool_decide (p = "/provider_model_id")) paths)
    (invalid_feeds "Native identity must be explicitly mapped");
  _ ← check_defaults authority response;
  _ ← check_transforms paths response;
  check_filter feed response.

(** ** Adapters *)

(** [json!({ ... })] *)
Definition obj (m : list (string * Value)) : Value := VObject m.
Definition set_field (k : string) (x v : Value) : Value :=
  match v with VObject m => VObject (map_insert k x m) | _ => v end.
Definition not_str (s : string) (v : Value) : bool := negb (is_str s v).
Definition models_dev_kind : string := "models_dev".
Definition models_dev_url : string := "https://models.dev/api.json?type=all".
Definition models_dev_invalid (message : string) : RegistryError :=
  {| code := "registry.invalid_data"; path := "/auto_sync/feeds"; message := message;
     recovery := "Retain previous inventory; repair the source declaration or update the models.dev adapter" |}.
Definition models_dev_feed (feed : Value) : Value :=
  set_field "response" (obj [("items_path", VString "/data");
    ("mapping", obj [("/id", VString "/provider_model_id"); ("/name", VString "/name");
                     ("/description", VString "/description")]);
    ("defaults", obj [("status", VString "staging"); ("interfaces", VArray [])])])
    (set_field "kind" (VString "v1_models") feed).
(** The writes are exactly the membership and its description. *)
Definition models_and_metadata (l : list Value) : bool :=
  Nat.eqb (length l) 2 && existsb (is_str "models") l && existsb (is_str "metadata") l.
Definition models_dev_validate (feed : Value) : result RegistryError unit :=
  let request := field "request" feed in
  let inventory := field "inventory" feed in
  _ ← ensure (negb (
      not_str models_dev_url (field "url" request) || not_str "none" (field "kind" (field "auth" request)) ||
      is_some (get "query" request) ||
      is_some_and (λ h, is_none_or (λ m, negb (bool_decide (length m = O))) (as_object h)) (get "headers" request) ||
      not_str "none" (field "kind" (field "pagination" feed)) || is_some (get "response" feed) ||
      is_none_or is_empty (as_str (field "provider_id" feed)) || not_str "merge" (field "mode" inventory) ||
      not_str "public" (field "scope" inventory) || negb (value_eqb (field "complete" inventory) (VBool false))))
    (models_dev_invalid "models.dev requires an explicit provider and anonymous merge-only public catalog");
  l ← ok_or (as_array (field "writes" feed)) (models_dev_invalid "Missing adapter write authority");
  _ ← ensure (models_and_metadata l) (models_dev_invalid "models.dev supports only models and descriptive metadata");
  validate_generic (models_dev_feed feed).

Definition openrouter_kind : string := "openrouter_models".
Definition openrouter_url : string := "https://openrouter.ai/api/v1/models?output_modalities=all".
Definition openrouter_invalid (message : string) : RegistryError :=
  {| code := "canonical_source_unavailable"; path := "/data"; message := message;
     recovery := "Retain previous inventory; update the registered OpenRouter adapter if its API contract changed" |}.
Definition openrouter_feed (feed : Value) : Value :=
  set_field "response" (obj [("items_path", VString "/data");
    ("mapping", obj ((λ k, (k, VString k)) <$>
       ["/provider_model_id"; "/canonical_id"; "/name"; "/description"; "/model_types"; "/interfaces"]));
    ("defaults", obj [("status", VString "active"); ("interfaces", VArray [])])])
    (set_field "kind" (VString "v1_models") feed).
Definition openrouter_validate (feed : Value) : result RegistryError unit :=
  let request := field "request" feed in
  let inventory := field "inventory" feed in
  _ ← ensure (negb (not_str openrouter_url (field "url" request) || is_some (get "response" feed) ||
      not_str "none" (field "kind" (field "pagination" feed)) || is_some (get "query" request)))
    (openrouter_invalid "OpenRouter adapter requires its exact unfiltered full-list request");
  l ← ok_or (as_array (field "writes" feed)) (openrouter_invalid "Missing adapter write authority");
  _ ← ensure (models_and_metadata l && is_str "public" (field "scope" inventory) &&
              value_eqb (field "complete" inventory) (VBool true))
    (openrouter_invalid "OpenRouter adapter requires models/metadata and complete public inventory");
  validate_generic (set_field "kind" (VString "v1_models") (openrouter_feed feed)).

Definition validate (feed : Value) : result RegistryError unit :=
  if is_str models_dev_kind (field "kind" feed) then models_dev_validate feed
  else if is_str openrouter_kind (field "kind" feed) then openrouter_validate feed
  else validate_generic feed.
End transforms.

(** ** Definitions *)

(** The loop over the digits behind the point, of [numerator] over [denominator] below one: what it
    wrote, and what remains. *)
Fixpoint fraction_loop (turns : nat) (numerator denominator : Z) (text : string) : string * Z :=
  match turns with
  | O => (text, numerator)
  | S turns =>
      let numerator := numerator * 10 in
      let text := text +:+ pretty (numerator / denominator) in
      let numerator := numerator mod denominator in
      if numerator =? 0 then (text, numerator) else fraction_loop turns numerator denominator text
  end.
(** A [BigRational] is in lowest terms. The text is a number of JSON, whose lexeme is kept. *)
Definition number (value : Q) : result RegistryError Value :=
  _ ← ensure (Qle_bool 0 value) (invalid_feeds "Negative normalized price");
  let numerator := Qnum (Qred value) in
  let denominator := Z.pos (Qden (Qred value)) in
  let text := pretty (numerator / denominator) in
  let numerator := numerator mod denominator in
  let '(text, rest) := if numerator =? 0 then (text, 0) else fraction_loop 128 numerator denominator (text +:+ ".") in
  _ ← ensure (rest =? 0) (invalid_feeds "Normalized decimal exceeds precision budget");
  _ ← ensure (len text <=? 128) (invalid_feeds "Normalized decimal exceeds precision budget");
  Ok (VNumber text).

Section transformed.
Context `{JsonText}.
Definition transform_step (value step : Value) : result RegistryError Value :=
  let kind := as_str (field "kind" step) in
  if bool_decide (kind = Some "strip_prefix") then
    prefix ← ok_or (as_str (field "value" step)) (invalid_feeds "Missing literal resource prefix");
    stripped ← ok_or (v ← as_str value; r ← strip_prefix prefix v; if is_empty r then None else Some r)
      (invalid_feeds "Resource name must contain its declared prefix and a nonempty ID");
    Ok (VString stripped)
  else if bool_decide (kind = Some "prefix") then
    v ← ok_or (as_str value) (invalid_feeds "prefix requires a string");
    Ok (VString (default "" (as_str (field "value" step)) +:+ v))
  else if bool_decide (kind = Some "parse_decimal") then
    raw ← ok_or (v ← as_str value; if bool_decide ("e"%char ∈ bytes v) || bool_decide ("E"%char ∈ bytes v) then None else Some v)
      (invalid_feeds "parse_decimal requires a non-exponent decimal string");
    q ← RegistryPricing.decimal raw; number q
  else if bool_decide (kind = Some "multiply") then
    _ ← ensure (is_number value) (invalid_feeds "multiply requires a numeric value");
    p ← RegistryPricing.decimal (to_string value);
    q ← RegistryPricing.decimal (to_string (field "factor" step));
    number (p * q)%Q
  else if bool_decide (kind = Some "value_map") then
    ok_or (rows ← as_array (field "values" step); row ← List.find (λ row, typed_equal (field "from" row) value) rows;
           Some (field "to" row)) (invalid_feeds "value_map has no exact typed match")
  else Err (unsupported "Unknown transform").
Definition transformed (value : Value) (steps : option Value) : result RegistryError Value :=
  if is_null value then Ok VNull else
  match steps ≫= as_array with
  | None => Ok value
  | Some steps => try_fold transform_step value steps
  end.
End transformed.
(** The clears of a normalized row are not part of what is validated. *)
Fixpoint without_clears (v : Value) : Value :=
  match v with
  | VObject m => VObject ((fix all m := match m with
      | [] => []
      | (k, x) :: m => if is_null x then all m else (k, without_clears x) :: all m end) m)
  | VArray l => VArray (without_clears <$> l)
  | _ => v
  end.

(** ** The digits *)

Lemma pretty_digit d : 0 ≤ d < 10 → ∃ a, pretty d = String a EmptyString ∧ is_digit a = true ∧ digit_of a = d.
Proof.
  intros Hd. assert (d = 0 ∨ d = 1 ∨ d = 2 ∨ d = 3 ∨ d = 4 ∨ d = 5 ∨ d = 6 ∨ d = 7 ∨ d = 8 ∨ d = 9) as Hc by lia.
  repeat destruct Hc as [->|Hc]; [eexists; split_and!; vm_compute; reflexivity..|]. subst. eexists; split_and!; vm_compute; reflexivity.
Qed.
(** The digits that are written, and the remainder: [numerator * 10 ^ k = digits * denominator + rest]. *)
Lemma fraction_loop_digits turns n d text : 0 ≤ n < d → ∃ l rest,
  fraction_loop turns n d text = (text +:+ string_of l, rest) ∧ forallb is_digit l = true ∧ (length l ≤ turns)%nat ∧
  0 ≤ rest < d ∧ n * 10 ^ Z.of_nat (length l) = ExactInteger.decimal l * d + rest ∧ (turns ≠ O → l ≠ []).
Proof.
  revert n text. induction turns as [|turns IH]; intros n text Hn.
  { exists [], n. cbn. rewrite app_empty_r. split_and!; [done..|lia|lia| |done]. unfold ExactInteger.decimal. cbn. lia. }
  cbn [fraction_loop]. set (r := (n * 10) mod d). assert (0 ≤ r < d) as Hr by (apply Z.mod_pos_bound; lia).
  destruct (pretty_digit (n * 10 / d)) as (a & Ha & Hda & Hva).
  { split; [apply Z.div_pos; lia|apply Z.div_lt_upper_bound; lia]. }
  assert (n * 10 = digit_of a * d + r) as Hdiv by (rewrite Hva; unfold r; pose proof (Z.div_mod (n * 10) d ltac:(lia)); lia).
  rewrite Ha. destruct (r =? 0) eqn:Hz.
  - exists [a], r. cbn [string_of forallb length]. rewrite Hda. split_and!; [done|done|lia|lia|lia| |done].
    unfold ExactInteger.decimal. cbn [foldl]. change (Z.of_nat 1) with 1. lia.
  - destruct (IH r (text +:+ String a "") Hr) as (l & rest & He & Hl & Hlen & Hrest & Hv & _). exists (a :: l), rest.
    rewrite He, string_app_assoc. cbn [string_of forallb length]. rewrite Hda. split_and!; [done|done|lia|lia|lia| |done].
    rewrite decimal_cons, Nat2Z.inj_succ, Z.pow_succ_r by lia. nia.
Qed.
(** The remainder is gone when the power of ten is a multiple of what is left of the denominator. *)
Lemma fraction_loop_ends turns j n d text : (0 < j ≤ turns)%nat → 0 < n < d → (n * 10 ^ Z.of_nat j) mod d = 0 →
  ∃ l, fraction_loop turns n d text = (text +:+ string_of l, 0) ∧ (length l ≤ j)%nat.
Proof.
  revert j n text. induction turns as [|turns IH]; intros j n text Hj Hn Hd; [lia|]. destruct j as [|j]; [lia|].
  cbn [fraction_loop]. set (r := (n * 10) mod d). assert (0 ≤ r < d) as Hr by (apply Z.mod_pos_bound; lia).
  destruct (pretty_digit (n * 10 / d)) as (a & Ha & _).
  { split; [apply Z.div_pos; lia|apply Z.div_lt_upper_bound; lia]. }
  rewrite Ha. destruct (Z.eqb_spec r 0) as [Hz|Hz].
  - exists [a]. rewrite Hz. cbn. split; [done|lia].
  - assert ((r * 10 ^ Z.of_nat j) mod d = 0) as Hrd.
    { unfold r. rewrite Z.mul_mod_idemp_l by lia. rewrite <-Hd, Nat2Z.inj_succ, Z.pow_succ_r by lia. f_equal. lia. }
    assert (0 < j)%nat as Hj0.
    { destruct j; [|lia]. cbn in Hrd. rewrite Z.mul_1_r, Z.mod_small in Hrd by lia. lia. }
    destruct (IH j r (text +:+ String a "") ltac:(lia) ltac:(lia) Hrd) as (l & He & Hlen).
    exists (a :: l). rewrite He, string_app_assoc. cbn. split; [done|lia].
Qed.

(** ** What is printed *)

Lemma string_of_length l : len (string_of l) = Z.of_nat (length l).
Proof. unfold len. by rewrite <-length_bytes, bytes_string_of. Qed.
Lemma pretty_shortest n w : 0 ≤ n < 10 ^ w → 1 ≤ w → len (pretty n) ≤ w.
Proof.
  intros [Hn Hw] Hw1. destruct (pretty_digits n Hn) as (_ & _ & _ & [->|Hlen]); [done|].
  destruct (decide (len (pretty n) ≤ w)) as [|Hgt]; [done|]. exfalso.
  assert (10 ^ w ≤ 10 ^ (len (pretty n) - 1)) by (apply Z.pow_le_mono_r; lia). lia.
Qed.
(** The literal with these digits. *)
Definition plain (w : string) (f : option string) : Literal :=
  {| minus := false; whole := w; fraction := f; exponent := None |}.
Lemma render_plain w f : render (plain w f) = w +:+ match f with Some f => "." +:+ f | None => "" end.
Proof. unfold render, unsigned, mantissa. cbn. by rewrite app_empty_r. Qed.
Lemma number_prints q v : number q = Ok v → ∃ l, v = VNumber (render l) ∧ price_literal l ∧ exponent l = None ∧ (q == code_value l)%Q.
Proof.
  unfold number. intros ([] & Hpos%ensure_ok%Qle_bool_iff & Hr)%bind_ok. set (n := Qnum (Qred q)) in *. set (d := Z.pos (Qden (Qred q))) in *.
  assert (0 < d) as Hd by done. assert (q == n # Qden (Qred q))%Q as Hq by (eapply Qeq_trans; [symmetry; apply Qred_correct|]; unfold n; by destruct (Qred q)).
  assert (0 ≤ n) as Hn.
  { rewrite Hq in Hpos. unfold Qle in Hpos. cbn in Hpos. lia. }
  destruct (pretty_digits (n / d) (Z.div_pos _ _ Hn Hd)) as (He & Hdig & Hval & _).
  pose proof (Z.div_mod n d ltac:(lia)) as Hdiv. pose proof (Z.mod_pos_bound n d Hd) as Hmod.
  destruct (Z.eqb_spec (n mod d) 0) as [Hz|Hz].
  - apply bind_ok in Hr as ([] & _ & ([] & Hlen%ensure_ok%Z.leb_le & [= <-])%bind_ok).
    exists (plain (pretty (n / d)) None). rewrite render_plain, app_empty_r. split_and!; [done| |done|].
    + split; [unfold Literal_ok; cbn [whole fraction exponent plain is_none_or from_option]; by rewrite He, Hdig|done|by rewrite render_plain, app_empty_r|done|done].
    + rewrite Hq. unfold code_value, digits_value, fraction_digits. cbn [fraction plain default from_option id whole scale exponent bytes].
      rewrite app_nil_r, Hval. change (len "" - 0) with 0. rewrite Z.leb_refl. unfold Qeq. cbn [Qnum Qden]. fold d.
      change (Z.pos (Z.to_pos (10 ^ 0))) with 1. lia.
  - destruct (fraction_loop_digits 128 (n mod d) d (pretty (n / d) +:+ ".") ltac:(lia)) as (l & rest & Hf & Hl & _ & Hrest & Hdv & Hne).
    rewrite Hf in Hr. apply bind_ok in Hr as ([] & H0%ensure_ok%Z.eqb_eq & ([] & Hlen%ensure_ok%Z.leb_le & [= <-])%bind_ok). subst rest.
    exists (plain (pretty (n / d)) (Some (string_of l))). rewrite render_plain, string_app_assoc in *.
    assert (string_of l ≠ "") as Hsne.
    { intros Hs%(f_equal bytes). rewrite bytes_string_of in Hs. by apply Hne. }
    split_and!; [done| |done|].
    + split; [|cbn; congruence| |done|done].
      * unfold Literal_ok. cbn [whole fraction exponent plain is_none_or from_option]. unfold all_digits in *. by rewrite He, Hdig, bytes_string_of, Hl.
      * rewrite render_plain. exact Hlen.
    + rewrite Hq. unfold code_value, digits_value, fraction_digits. cbn [fraction plain default from_option id whole scale exponent].
      rewrite bytes_string_of, string_of_length, Z.sub_0_r, (proj2 (Z.leb_le 0 _)), decimal_app, Hval by lia. unfold Qeq. cbn [Qnum Qden].
      rewrite Z2Pos.id by lia. fold d. nia.
Qed.
Lemma decimal_digits_bounds l : all_digits l = true → 0 ≤ ExactInteger.decimal (bytes l) < 10 ^ len l.
Proof. intros Hl. unfold len. rewrite <-length_bytes. by apply decimal_bounds. Qed.
(** The whole part of a literal is the quotient, the fraction the remainder at its power of ten. *)
Lemma plain_parts n d w f : 0 < d → all_digits w = true → all_digits f = true →
  n * 10 ^ len f = (ExactInteger.decimal (bytes w) * 10 ^ len f + ExactInteger.decimal (bytes f)) * d →
  n / d = ExactInteger.decimal (bytes w) ∧ (n mod d) * 10 ^ len f = ExactInteger.decimal (bytes f) * d.
Proof.
  intros Hd Hw Hf He. pose proof (decimal_digits_bounds _ Hw) as Hbw. pose proof (decimal_digits_bounds _ Hf) as Hbf.
  set (W := ExactInteger.decimal (bytes w)) in *. set (F := ExactInteger.decimal (bytes f)) in *. set (p := 10 ^ len f) in *.
  assert (0 < p) by (apply Z.pow_pos_nonneg; [lia|apply len_nonneg]).
  pose proof (Z.div_mod n d ltac:(lia)) as Hdiv. pose proof (Z.mod_pos_bound n d Hd) as Hmod.
  assert (n / d = W) as Hq.
  { symmetry. apply (Z.div_unique n d W (n - d * W)); [left|lia]. nia. }
  split; [done|]. rewrite Hq in Hdiv. nia.
Qed.
Lemma number_accepts q l : price_literal l → exponent l = None → (q == literal_value l)%Q → is_ok (number q) = true.
Proof.
  intros [Hok Hfr Hlen _ _] Hexp Hq. destruct (Literal_ok_parts l Hok) as (Hwne & Hw & Hf & _).
  set (w := whole l) in *. set (f := fraction_digits l) in *.
  assert (q == (ExactInteger.decimal (bytes w) * 10 ^ len f + ExactInteger.decimal (bytes f)) # Z.to_pos (10 ^ len f))%Q as Hv.
  { eapply Qeq_trans; [exact Hq|]. eapply Qeq_trans; [symmetry; apply code_value_eq|]. unfold code_value.
    replace (scale l) with 0 by (unfold scale; by rewrite Hexp). fold f. rewrite Z.sub_0_r, (proj2 (Z.leb_le 0 _)) by apply len_nonneg.
    unfold digits_value. rewrite decimal_app, length_bytes. done. }
  set (N := ExactInteger.decimal (bytes w) * 10 ^ len f + ExactInteger.decimal (bytes f)) in *.
  pose proof (decimal_digits_bounds _ Hw) as Hbw. pose proof (decimal_digits_bounds _ Hf) as Hbf.
  assert (0 < 10 ^ len f) as Hp by (apply Z.pow_pos_nonneg; [lia|apply len_nonneg]).
  assert (Qred q == N # Z.to_pos (10 ^ len f))%Q as Hr by (eapply Qeq_trans; [apply Qred_correct|exact Hv]).
  unfold Qeq in Hr. cbn [Qnum Qden] in Hr. rewrite Z2Pos.id in Hr by done.
  assert (Qle_bool 0 q = true) as Hpos.
  { apply Qle_bool_iff. rewrite Hv. unfold Qle. cbn. nia. }
  unfold number. rewrite Hpos. cbn [ensure mbind result_bind]. set (n := Qnum (Qred q)) in *. set (d := Z.pos (Qden (Qred q))) in *.
  destruct (plain_parts n d w f ltac:(done) Hw Hf Hr) as [Hi Hm]. rewrite Hi.
  assert (1 ≤ len w) as Hlw by (destruct w; [done|unfold len; cbn; lia]).
  pose proof (pretty_shortest _ _ Hbw Hlw) as Hshort.
  assert (len w + (if is_some (fraction l) then 1 + len f else 0) ≤ 128) as Hlim.
  { etrans; [|exact Hlen]. unfold render, unsigned, mantissa. rewrite Hexp, app_empty_r, !len_app. fold w.
    pose proof (len_nonneg (if minus l then "-" else "")). unfold f, fraction_digits.
    unfold is_some. destruct (fraction l) as [g|]; cbn [default from_option id].
    - rewrite bool_decide_eq_true_2 by done. change (String "." g) with ("." +:+ g). rewrite len_app. change (len ".") with 1. lia.
    - rewrite bool_decide_eq_false_2 by (by intros []). change (len "") with 0. lia. }
  destruct (Z.eqb_spec (n mod d) 0) as [Hz|Hz].
  { rewrite (proj2 (Z.leb_le _ 128)); [done|]. destruct (is_some _); pose proof (len_nonneg f); lia. }
  destruct (fraction l) as [g|] eqn:Hg.
  2: { assert (f = "") as Hf0 by (unfold f, fraction_digits; by rewrite Hg). rewrite Hf0 in Hm.
       change (10 ^ len "") with 1 in Hm. change (ExactInteger.decimal (bytes "")) with 0 in Hm. lia. }
  assert (f = g) as Hfg by (unfold f, fraction_digits; by rewrite Hg). unfold is_some in Hlim. rewrite bool_decide_eq_true_2 in Hlim by done.
  destruct (fraction_loop_ends 128 (String.length f) (n mod d) d (pretty (ExactInteger.decimal (bytes w)) +:+ ".")) as (ds & -> & Hds).
  - unfold len in Hlim. destruct f as [|a f']; [|cbn [String.length] in *; lia]. by subst g.
  - pose proof (Z.mod_pos_bound n d ltac:(done)). lia.
  - fold (len f). rewrite Hm. apply Z_mod_mult.
  - cbn [ensure mbind result_bind Z.eqb]. rewrite (proj2 (Z.leb_le _ 128)); [done|].
    rewrite !len_app, string_of_length. change (len ".") with 1. unfold len in *. lia.
Qed.

(** The printing of a price is exact and total: a rational number is printed precisely when some plain literal of
    at most 128 bytes denotes it, and the text that is printed is read back as this number. *)
Theorem number_is_exact q :
  (is_ok (number q) = true ↔ ∃ l, price_literal l ∧ exponent l = None ∧ (q == literal_value l)%Q) ∧
  ∀ v, number q = Ok v → ∃ t p, v = VNumber t ∧ RegistryPricing.decimal t = Ok p ∧ (p == q)%Q.
Proof.
  split.
  - split; [|intros (l & Hl & He & Hq); by eapply number_accepts]. intros Hok. destruct (number q) as [v|] eqn:Hn; [|done].
    destruct (number_prints _ _ Hn) as (l & _ & Hl & He & Hq). exists l. split_and!; [done..|].
    eapply Qeq_trans; [exact Hq|apply code_value_eq].
  - intros v (l & -> & Hl & He & Hq)%number_prints. exists (render l), (code_value l). split_and!; [done| |by symmetry].
    apply decimal_render; [apply Hl|apply Hl|done].
Qed.
