(* ===== verification/RegistryReconcile.v ===== *)
(** Reconciliation of an observed inventory with a provider's record
    ([crates/bitrouter-registry/src/reconcile.rs]): field ownership, absence evidence, and the
    checkpoint that orders the observations of a feed. The code works on a private clone, so an
    error carries no state; a mutation through [&mut] returns the new value here. *)
From Stdlib Require Import ZArith Lia Ascii QArith.
From stdpp Require Import base list strings gmap pretty sorting.
From S2P Require Import Prelude ExactInteger RegistryValue RegistryPricing RegistryMapping.
Open Scope string_scope.
Open Scope list_scope.
Open Scope Z_scope.

Definition invalid (message : string) : RegistryError := invalid_at "/auto_sync" message.

(** ** Time *)

(** [DateTime<Utc>]: seconds and nanoseconds, compared in this order; [chrono] reads and writes it. *)
Definition DateTime : Type := Z * Z.
Class Rfc3339 := {
  parse_from_rfc3339 : string → option DateTime;
  to_rfc3339 : DateTime → string }.
Definition timestamp `{Rfc3339} (s : string) : option DateTime :=
  if ends_with "Z" s then parse_from_rfc3339 s else None.
(** What [to_rfc3339_opts(AutoSi, true)] writes is read back. *)
Class Rfc3339Laws `{Rfc3339} : Prop := timestamp_written : ∀ t, timestamp (to_rfc3339 t) = Some t.

(** ** Records *)

Record Stamp := { sequence : Z; stamp_id : string; observed_at : DateTime }.
Record Changes := {
  unchanged : bool; changed : list string; manual_conflicts : list string; withdrawn : list string }.
Definition Changes_default : Changes :=
  {| unchanged := false; changed := []; manual_conflicts := []; withdrawn := [] |}.
Definition push_changed (p : string) (c : Changes) : Changes :=
  {| unchanged := unchanged c; changed := changed c ++ [p]; manual_conflicts := manual_conflicts c;
     withdrawn := withdrawn c |}.
Definition push_conflict (p : string) (c : Changes) : Changes :=
  {| unchanged := unchanged c; changed := changed c; manual_conflicts := manual_conflicts c ++ [p];
     withdrawn := withdrawn c |}.
Definition push_withdrawn (n : string) (c : Changes) : Changes :=
  {| unchanged := unchanged c; changed := changed c; manual_conflicts := manual_conflicts c;
     withdrawn := withdrawn c ++ [n] |}.
Record ObservedModel := { observed_value : Value; observed : gset string }.
Record Observation := { models : list ObservedModel; excluded : Z }.

(** ** Checkpoints *)

Section reconcile.
Context `{ExactNumber, JsonText, Rfc3339}.

(** [v.as_str().and_then(timestamp)] *)
Definition time_of_value (v : Value) : option DateTime := s ← as_str v; timestamp s.
Definition checkpoint_sequence (feed : Value) : result RegistryError Z :=
  match get "checkpoint" feed with
  | None => Ok 0
  | Some v =>
      _ ← ensure (negb (is_none_or is_empty (as_str (field "id" v)) || negb (is_some (time_of_value (field "observed_at" v)))))
        (invalid "Invalid persisted checkpoint identity or time");
      ok_or (n ← integer (field "sequence" v); if (0 <? n) && (n <=? MAX) then Some n else None)
        (invalid "Invalid checkpoint sequence")
  end.
Definition next_stamp (feed : Value) (id : string) (at_ : DateTime) : result RegistryError Stamp :=
  n ← checkpoint_sequence feed;
  n ← ok_or (n ← n +? 1; if n <=? MAX then Some n else None) (invalid "Checkpoint sequence exhausted");
  Ok {| sequence := n; stamp_id := id; observed_at := at_ |}.

(** ** Ownership *)

(** One claim of the ownership map; [claims] are those before it. *)
Definition owner_step (path : string) (s : list (list string) * option string) (x : string * Value) :
    result RegistryError (list (list string) * option string) :=
  let '(claims, found) := s in
  let '(claim, feed) := x in
  ts ← tokens claim;
  _ ← ensure (negb (bool_decide (ts = []) || existsb is_empty ts)) (invalid "Invalid ownership path");
  _ ← ensure (negb (existsb (λ other, bool_decide (other `prefix_of` ts) || bool_decide (ts `prefix_of` other)) claims))
    (invalid "Overlapping ownership claims");
  feed ← ok_or (f ← as_str feed; if is_empty f then None else Some f) (invalid "Invalid field owner");
  Ok (claims ++ [ts],
      if bool_decide (claim = path) || starts_with (claim +:+ "/") path then Some feed else found).
Definition owner (owners : option Value) (path : string) : result RegistryError (option string) :=
  match owners with
  | None => Ok None
  | Some owners =>
      m ← ok_or (as_object owners) (invalid "Ownership map must be an object");
      snd <$> try_fold (owner_step path) ([], None) m
  end.

(** ** Writing one observed field *)

(** [pointer_mut(p).and_then(Value::as_object_mut)] followed by a change of that object, if any. *)
Fixpoint alter_object (ts : list string) (f : Map → Map) (v : Value) : Value :=
  match ts with
  | [] => match v with VObject m => VObject (f m) | _ => v end
  | t :: ts =>
      match v with
      | VObject m => match map_get t m with Some c => VObject (map_insert t (alter_object ts f c) m) | None => v end
      | VArray l =>
          match index t with
          | Ok i => match l !! i with Some c => VArray (<[i := alter_object ts f c]> l) | None => v end
          | Err _ => v
          end
      | _ => v
      end
  end.
Definition remove (target : Value) (path : string) : result RegistryError Value :=
  '(parent, last) ← ok_or (rsplit_once "/" path) (invalid "Invalid clear path");
  ts ← tokens ("/" +:+ last);
  key ← ok_or (head ts) (invalid "Invalid clear key");
  match tokens parent with
  | Ok ps => Ok (alter_object ps (map_remove key) target)
  | Err _ => Ok target
  end.
(** The target, its ownership map and the changes so far. *)
Definition Editing : Type := Value * Value * Changes.
Definition replaceable_roots : list string :=
  ["pricing"; "limits"; "rate_limits"; "compatibility"; "reasoning_effort"; "capabilities";
   "question_types"; "input_modalities"; "output_modalities"].
(** The known fields that a container holds may be replaced; unknown ones may not. *)
Definition check_container (path : string) (prior : option Value) (value : Value) : result RegistryError unit :=
  match prior with
  | Some old =>
      if (is_object old || is_array old) && negb (value_eqb old value) then
        ts ← tokens path;
        let first := default "" (head ts) in
        let pointer := if one_of replaceable_roots first then "/interfaces/0" +:+ path else path in
        ensure (is_ok (known_value pointer old true))
          (invalid "Replacing this container would erase unknown data; review the source change")
      else Ok tt
  | None => Ok tt
  end.
(** The write or the removal, and the claim of what nobody owned. *)
Definition put (feed path : string) (value : Value) (prior : option Value) (owning : option string) (s : Editing) :
    result RegistryError Editing :=
  let '(target, owners, changes) := s in
  _ ← check_container path prior value;
  '(target, changes) ← (if is_some_and (λ p, value_eqb p value) prior then Ok (target, changes) else
     t ← (if is_null value then remove target path else write target path value);
     Ok (t, push_changed path changes));
  if negb (is_some owning) && negb (is_null value) then
    m ← ok_or (as_object owners) (invalid "Invalid field ownership");
    Ok (target, VObject (map_insert path (VString feed) m), changes)
  else Ok (target, owners, changes).
Fixpoint update (feed path : string) (value : Value) (s : Editing) {struct value} : result RegistryError Editing :=
  let '(target, owners, changes) := s in
  prior ← read target path;
  owning ← owner (Some owners) path;
  m ← ok_or (as_object owners) (invalid "Invalid ownership");
  let descendants := existsb (λ '(claim, _), starts_with (path +:+ "/") claim) m in
  if is_some_and (λ o, negb (bool_decide (o = feed))) owning ||
     (is_some prior && negb (is_some owning) && negb descendants)
  then Ok (target, owners,
           if is_some_and (λ p, value_eqb p value) prior then changes else push_conflict path changes)
  else if is_some_and is_object prior || descendants then
    match value with
    | VObject fields =>
        (fix all fields s := match fields with
          | [] => Ok s
          | (key, child) :: fields => s ← update feed (path +:+ "/" +:+ escape key) child s; all fields s
          end) fields s
    | _ =>
        if descendants then Err (invalid "Replacing a field would erase descendant ownership")
        else put feed path value prior owning s
    end
  else put feed path value prior owning s.

(** ** Interfaces *)

(** [object(value, key)?]: the nested object, which is there afterwards, and a change of it. *)
Definition object (v : Value) (key : string) : result RegistryError Map :=
  m ← ok_or (as_object v) (invalid "Expected object");
  ok_or (as_object (default (VObject []) (map_get key m))) (invalid "Expected nested object").
Definition alter (key : string) (f : Map → Map) (v : Value) : result RegistryError Value :=
  o ← object v key; Ok (set_field key (VObject (f o)) v).
(** [pointer("/sync/key")] *)
Definition sync_field (key : string) (model : Value) : option Value := get "sync" model ≫= get key.
Definition same_interface (a b : Value) : bool := bool_decide (interface_key a = interface_key b).
Definition find_interface (source : Value) (l : list Value) : option Value :=
  snd <$> list_find (λ v, same_interface v source = true) l.
Definition interface_owners (model source : Value) : result RegistryError Value :=
  match sync_field "interface_owners" model with
  | None => Ok (VObject [])
  | Some owners =>
      l ← ok_or (as_array owners) (invalid "Invalid interface owners");
      Ok (default (VObject []) (find_interface source l ≫= get "field_owners"))
  end.
(** [json!(profile)] of an [Option<&str>] that is there. *)
Definition with_profile (key : InterfaceKey) (record : Value) : Value :=
  match key.2 with Some p => set_field "protocol_profile" (VString p) record | None => record end.
(** The records are objects: [validate_provider] accepts no other. *)
Definition store_interface_owners (model source owners : Value) : result RegistryError Value :=
  sync ← object model "sync";
  records ← ok_or (as_array (default (VArray []) (map_get "interface_owners" sync))) (invalid "Invalid interface owners");
  let records := match list_find (λ v, same_interface v source = true) records with
    | Some (i, record) => <[i := set_field "field_owners" owners record]> records
    | None =>
        let key := interface_key source in
        records ++ [with_profile key (VObject [("protocol", VString key.1.1); ("operation", VString key.1.2);
                                               ("field_owners", owners)])]
    end in
  Ok (set_field "sync" (VObject (map_insert "interface_owners" (VArray records) sync)) model).
Definition interfaces_of (model : Value) : result RegistryError (list Value) :=
  ok_or (i ← get "interfaces" model; as_array i) (invalid "Missing interfaces").
(** [model["interfaces"][slot] = target] *)
Definition set_interface (slot : nat) (target model : Value) : Value :=
  set_field "interfaces" (VArray (<[slot := target]> (array (field "interfaces" model)))) model.
Definition claim_field (source : Value) (feed : string) (owners : Value) (name : string) : Value :=
  if is_some (get name source) then set_field ("/" +:+ name) (VString feed) owners else owners.
Definition new_interface (source : Value) : Value :=
  let value := VObject [("protocol", field "protocol" source); ("operation", field "operation" source)] in
  match get "protocol_profile" source with Some p => set_field "protocol_profile" p value | None => value end.
Definition identity_fields : list string := ["protocol"; "operation"; "protocol_profile"].
(** The model, which may have got the interface, and its place. *)
Definition interface_slot (model source : Value) (create : bool) (feed : string) : result RegistryError (Value * nat) :=
  interfaces ← interfaces_of model;
  match list_find (λ v, same_interface v source = true) interfaces with
  | Some (i, _) => Ok (model, i)
  | None =>
      _ ← ensure create (invalid "Pricing cannot create or enable an undeclared interface");
      let model := set_field "interfaces" (VArray (interfaces ++ [new_interface source])) model in
      owners ← interface_owners model source;
      let owners := foldl (claim_field source feed) owners identity_fields in
      model ← store_interface_owners model source owners;
      Ok (model, length interfaces)
  end.

(** One field of an interface into the copy of its slot. *)
Definition merge_field (feed : string) (s : Editing) (x : string * Value) : result RegistryError Editing :=
  let '(name, value) := x in
  if one_of identity_fields name then Ok s else update feed ("/" +:+ name) value s.
Definition merge_interface (feed : string) (s : gset InterfaceKey * Value * Changes) (source : Value) :
    result RegistryError (gset InterfaceKey * Value * Changes) :=
  let '(keys, model, changes) := s in
  let key := interface_key source in
  _ ← ensure (negb (bool_decide (key ∈ keys))) (invalid "Duplicate interface identity");
  '(model, slot) ← interface_slot model source true feed;
  owners ← interface_owners model source;
  fields ← ok_or (as_object source) (invalid "Interface must be object");
  '(target, owners, changes) ← try_fold (merge_field feed) (default VNull (array (field "interfaces" model) !! slot), owners, changes) fields;
  model ← store_interface_owners (set_interface slot target model) source owners;
  Ok ({[key]} ∪ keys, model, changes).
(** Whether the feed owns every field of an interface and every claim in it. *)
Definition all_owned (feed : string) (interface : Map) (owners : Value) : bool :=
  forallb (λ '(k, _), match owner (Some owners) ("/" +:+ escape k) with Ok o => bool_decide (o = Some feed) | Err _ => false end) interface &&
  is_some_and (forallb (λ '(_, v), is_str feed v)) (as_object owners).
Definition record_fields : list string := ["protocol"; "operation"; "protocol_profile"; "field_owners"].
Definition opaque_record (model interface : Value) : bool :=
  is_some_and (existsb (λ '(k, _), negb (one_of record_fields k)))
    (l ← sync_field "interface_owners" model ≫= as_array; r ← find_interface interface l; as_object r).
(** An interface that is no longer observed may be removed. *)
Definition removable (feed : string) (keys : gset InterfaceKey) (model : Value) (removed : gset InterfaceKey) (interface : Value) :
    result RegistryError (gset InterfaceKey) :=
  if bool_decide (interface_key interface ∈ keys) then Ok removed else
  _ ← ensure (is_ok (known_value "/interfaces/0" interface true)) (invalid "Removing this interface would erase unknown data");
  owners ← interface_owners model interface;
  m ← ok_or (as_object interface) (invalid "Invalid interface");
  _ ← ensure (all_owned feed m owners && negb (opaque_record model interface))
    (invalid "Removing an interface would erase manual, foreign, or unknown data");
  Ok ({[interface_key interface]} ∪ removed).
Definition retain_records (removed : gset InterfaceKey) (model : Value) : Value :=
  match get "sync" model with
  | Some sync =>
      match get "interface_owners" sync ≫= as_array with
      | Some records =>
          set_field "sync" (set_field "interface_owners"
            (VArray (List.filter (λ v, negb (bool_decide (interface_key v ∈ removed))) records)) sync) model
      | None => model
      end
  | None => model
  end.
Definition merge_interfaces (feed : string) (new : bool) (incoming : Value) (s : Value * Changes) : result RegistryError (Value * Changes) :=
  let '(model, changes) := s in
  values ← ok_or (as_array incoming) (invalid "Interfaces must be an array");
  '(keys, model, changes) ← try_fold (merge_interface feed) (∅, model, changes) values;
  if new then Ok (model, changes) else
  existing ← ok_or (as_array (field "interfaces" model)) (invalid "Missing interface array");
  removed ← try_fold (removable feed keys model) ∅ existing;
  reordered ← collect (λ source, ok_or (find_interface source existing) (invalid "Interface join failed")) values;
  Ok (retain_records removed (set_field "interfaces" (VArray reordered) model), changes).

(** ** The fields of one observed model *)

(** [idx.parse::<usize>()]; the standard library accepts a plus. *)
Definition parse_usize (s : string) : option nat :=
  let ds := default s (strip_prefix "+" s) in
  if is_empty ds || negb (all_digits ds) then None else
  let n := ExactInteger.decimal (bytes ds) in
  if n <=? u64_max then Some (Z.to_nat n) else None.
(** [/interfaces/idx/relative] *)
Definition apply_interface_field (feed : Value) (id : string) (observed : Value) (rest : string) (value : Value)
    (s : Value * Changes) : result RegistryError (Value * Changes) :=
  let '(model, changes) := s in
  '(idx, relative) ← ok_or (split_once "/" rest) (invalid "Whole indexed interface mapping is ambiguous");
  idx ← ok_or (parse_usize idx) (invalid "Invalid interface index");
  source ← ok_or (l ← as_array (field "interfaces" observed); l !! idx) (invalid "Missing interface selector");
  '(model, slot) ← interface_slot model source (may_write "metadata" feed) id;
  owners ← interface_owners model source;
  '(target, owners, changes) ← update id ("/" +:+ relative) value
     (default VNull (array (field "interfaces" model) !! slot), owners, changes);
  model ← store_interface_owners (set_interface slot target model) source owners;
  Ok (model, changes).
Definition apply_model_field (feed : Value) (id path : string) (value : Value) (s : Value * Changes) :
    result RegistryError (Value * Changes) :=
  let '(model, changes) := s in
  authority ← domain path;
  _ ← ensure (may_write authority feed) (invalid "Observation exceeds feed authority");
  '(model, owners, changes) ← update id path value
     (model, default (VObject []) (sync_field "field_owners" model), changes);
  model ← alter "sync" (map_insert "field_owners" owners) model;
  Ok (model, changes).
Definition apply_canonical (new : bool) (value : Value) (s : Value * Changes) : result RegistryError (Value * Changes) :=
  let '(model, changes) := s in
  if new then model ← write model "/canonical_id" value; Ok (model, changes) else
  _ ← ensure (negb (is_some_and (λ old, negb (value_eqb old value)) (get "canonical_id" model)))
    (invalid "Canonical binding conflicts with an existing offer");
  Ok (model, changes).
Definition apply_field (feed : Value) (id : string) (new : bool) (observed : Value) (s : Value * Changes) (path : string) :
    result RegistryError (Value * Changes) :=
  if bool_decide (path = "/provider_model_id") then Ok s else
  value ← read observed path;
  match value with
  | None => Ok s
  | Some value =>
      if bool_decide (path = "/canonical_id") then apply_canonical new value s
      else if bool_decide (path = "/interfaces") then merge_interfaces id new value s
      else match strip_prefix "/interfaces/" path with
        | Some rest => apply_interface_field feed id observed rest value s
        | None => apply_model_field feed id path value s
        end
  end.
(** What is observed of a model; everything, of a new one. *)
Definition observed_fields (o : ObservedModel) (new : bool) : result RegistryError (gset string) :=
  if new then
    m ← ok_or (as_object (observed_value o)) (invalid "Observation must be object");
    Ok (list_to_set ((λ k, "/" +:+ k) <$> m.*1))
  else Ok (observed o).
Definition apply_fields (feed : Value) (id : string) (new : bool) (o : ObservedModel) (s : Value * Changes) :
    result RegistryError (Value * Changes) :=
  fields ← observed_fields o new;
  try_fold (apply_field feed id new (observed_value o)) s (sort (elements fields)).

(** ** Validation of a provider *)

Definition validate_inventory (feed : Value) (membership : bool) : result RegistryError unit :=
  if negb membership then Ok tt else
  let inventory := field "inventory" feed in
  _ ← ensure (negb (is_some_and (λ v, negb (is_some (as_bool v))) (get "allow_empty" inventory)))
    (invalid "allow_empty must be boolean");
  _ ← ensure (negb (negb (is_str "merge" (field "mode" inventory) || is_str "snapshot" (field "mode" inventory)) ||
      negb (is_str "public" (field "scope" inventory) || is_str "account" (field "scope" inventory)) ||
      negb (is_some (as_bool (field "complete" inventory)))))
    (invalid "Inventory mode/scope/completeness must be explicit");
  _ ← ensure (negb (is_str "snapshot" (field "mode" inventory) &&
      (negb (value_eqb (field "complete" inventory) (VBool true)) || negb (is_str "public" (field "scope" inventory)))))
    (invalid "Snapshot withdrawals require complete public authority");
  _ ← ensure (negb (is_some_and (λ runs, is_none_or (λ n, n =? 0) (integer runs)) (get "missing_runs" inventory)))
    (invalid "missing_runs must be positive");
  match get "minimum_missing_hours" inventory with
  | Some hours => _ ← RegistryPricing.decimal (to_string hours); Ok tt
  | None => Ok tt
  end.
Definition validate_state (feed : Value) : result RegistryError unit :=
  _ ← checkpoint_sequence feed;
  if is_str "v1_models" (field "kind" feed) || is_str "openrouter_models" (field "kind" feed)
  then validate_inventory feed (may_write "models" feed) else Ok tt.
Definition validate_owners (owners : option Value) (feeds : gset string) : result RegistryError unit :=
  _ ← owner owners "/ownership_validation";
  ensure (negb (is_some_and (existsb (λ '(_, v), is_none_or (λ id, negb (bool_decide (id ∈ feeds))) (as_str v)))
    (owners ≫= as_object))) (invalid "Field owner must name a configured feed").
Definition allowed_domain (domain : string) (v : Value) : bool :=
  if bool_decide (domain = "interface_identity") then is_str "metadata" v
  else if bool_decide (domain = "identity") then is_str "metadata" v || is_str "models" v
  else is_str domain v.
Definition validate_owner_domain (feeds : list Value) (interface : bool) (x : string * Value) : result RegistryError unit :=
  let '(path, id) := x in
  let pointer := if interface then "/interfaces/0" +:+ path else path in
  match domain pointer with
  | Err _ => Ok tt
  | Ok domain =>
      feed ← ok_or (List.find (λ f, value_eqb (field "id" f) id) feeds) (invalid "Unknown field owner");
      ensure (existsb (allowed_domain domain) (array (field "writes" feed)) && negb (bool_decide (pointer = "/provider_model_id")))
        (invalid "Field owner lacks its declared write authority")
  end.
Definition validate_owner_domains (owners : option Value) (feeds : list Value) (interface : bool) : result RegistryError unit :=
  for_each (validate_owner_domain feeds interface) (default [] (owners ≫= as_object)).
Definition validate_feed (ids : gset string) (feed : Value) : result RegistryError (gset string) :=
  id ← ok_or (s ← as_str (field "id" feed); if is_empty s then None else Some s) (invalid "Missing feed ID");
  _ ← ensure (negb (bool_decide (id ∈ ids))) (invalid "Duplicate feed ID");
  _ ← validate_state feed;
  Ok ({[id]} ∪ ids).
Definition validate_member (ids : gset string) (feeds : list Value) (sync : Map) : result RegistryError unit :=
  match map_get "owner" sync with
  | None => Ok tt
  | Some id =>
      id ← ok_or (s ← as_str id; if bool_decide (s ∈ ids) then Some s else None)
        (invalid "Membership owner must name a configured feed");
      ensure (existsb (λ f, is_str id (field "id" f) && may_write "models" f) feeds)
        (invalid "Membership owner lacks models authority")
  end.
Definition validate_absence (sync : Map) : result RegistryError unit :=
  _ ← ensure (forallb (λ key, is_none_or (λ v, is_some (time_of_value v)) (map_get key sync)) ["last_seen_at"; "missing_since"])
    (invalid "Invalid sync timestamp");
  ensure (negb (is_some_and (λ v, is_none_or (λ n, n =? 0) (integer v)) (map_get "missing_runs" sync) ||
      negb (Bool.eqb (contains_key "missing_runs" sync) (contains_key "missing_since" sync))))
    (invalid "Invalid absence evidence").
Definition validate_record (ids : gset string) (feeds : list Value) (keys : gset InterfaceKey) (record : Value) :
    result RegistryError (gset InterfaceKey) :=
  _ ← ensure (forallb (λ k, negb (is_none_or is_empty (as_str (field k record)))) ["protocol"; "operation"])
    (invalid "Invalid interface ownership identity");
  _ ← ensure (negb (is_some_and (λ v, is_none_or is_empty (as_str v)) (get "protocol_profile" record) ||
      bool_decide (interface_key record ∈ keys))) (invalid "Ambiguous interface ownership identity");
  _ ← validate_owners (get "field_owners" record) ids;
  _ ← validate_owner_domains (get "field_owners" record) feeds true;
  Ok ({[interface_key record]} ∪ keys).
(** No claim of the model itself is below its interfaces. *)
Definition stable_claim (x : string * Value) : result RegistryError unit :=
  ts ← tokens x.1;
  ensure (negb (bool_decide (head ts = Some "interfaces"))) (invalid "Interface ownership must use stable triples").
Definition validate_model (ids : gset string) (feeds : list Value) (model : Value) : result RegistryError unit :=
  match get "sync" model with
  | None => Ok tt
  | Some sync =>
      sync ← ok_or (as_object sync) (invalid "Sync state must be an object");
      _ ← validate_member ids feeds sync;
      _ ← validate_absence sync;
      _ ← validate_owners (map_get "field_owners" sync) ids;
      _ ← validate_owner_domains (map_get "field_owners" sync) feeds false;
      _ ← for_each stable_claim (default [] (map_get "field_owners" sync ≫= as_object));
      match map_get "interface_owners" sync with
      | None => Ok tt
      | Some records =>
          records ← ok_or (as_array records) (invalid "Interface owners must be an array");
          _ ← try_fold (validate_record ids feeds) ∅ records; Ok tt
      end
  end.
(** [provider.pointer("/auto_sync/feeds").and_then(Value::as_array)] *)
Definition feeds_of (provider : Value) : option (list Value) :=
  s ← get "auto_sync" provider; f ← get "feeds" s; as_array f.
Definition validate_provider (provider : Value) : result RegistryError unit :=
  let feeds := default [] (feeds_of provider) in
  ids ← try_fold validate_feed ∅ feeds;
  models ← ok_or (as_array (field "models" provider)) (invalid "Missing models");
  for_each (validate_model ids feeds) models.

(** ** Applying an observation *)

(** [a.sort_by(...)]: stable, what has no name first. *)
Definition name_cmp (a b : option string) : comparison :=
  match a, b with
  | None, None => Eq | None, Some _ => Lt | Some _, None => Gt | Some a, Some b => cmp a b
  end.
Definition native_name (model : Value) : option string := as_str (field "provider_model_id" model).
Fixpoint insert_model (x : Value) (l : list Value) : list Value :=
  match l with
  | [] => [x]
  | y :: l => match name_cmp (native_name x) (native_name y) with Gt => y :: insert_model x l | _ => x :: y :: l end
  end.
Definition sort_models (l : list Value) : list Value := foldr insert_model [] l.
(** [Vec::dedup] *)
Fixpoint dedup (l : list string) : list string :=
  match l with
  | [] => []
  | x :: l => match dedup l with (y :: _) as l' => if bool_decide (x = y) then l' else x :: l' | [] => [x] end
  end.
Definition before (a b : DateTime) : bool := (a.1 <? b.1) || ((a.1 =? b.1) && (a.2 <? b.2)).
Definition elapsed (since now : DateTime) : Q := ((now.1 - since.1) * 1000000000 + (now.2 - since.2)) # 3600000000000.
Definition json_time (t : DateTime) : Value := VString (to_rfc3339 t).
Definition json_u64 (n : Z) : Value := VNumber (pretty n).
(** Whether the model is a member by the feed. *)
Definition owned_by (feed : string) (model : Value) : bool := is_some_and (is_str feed) (sync_field "owner" model).

(** The observation of a model that the feed keeps. *)
Definition mark_seen (feed : Value) (stamp : Stamp) (model : Value) : result RegistryError Value :=
  model ← alter "sync" (λ sync,
    map_remove "missing_runs" (map_remove "missing_since" (map_insert "last_seen_at" (json_time (observed_at stamp)) sync))) model;
  alter "availability" (λ a,
    map_insert "scope" (field "scope" (field "inventory" feed))
      (map_insert "checked_at" (json_time (observed_at stamp))
        (map_insert "source_url" (field "url" (field "request" feed)) a))) model.
Definition new_model (feed_id native : string) : Value :=
  VObject [("provider_model_id", VString native); ("interfaces", VArray []);
           ("sync", VObject [("owner", VString feed_id); ("field_owners", VObject [])])].
(** The models so far, the names that were present, the changes. *)
Definition Applying : Type := list Value * gset string * Changes.
(** Where the observed model is in the list, with its fields applied; a feed without membership
    leaves out what is not there. *)
Definition place (feed : Value) (feed_id : string) (membership : bool) (o : ObservedModel) (native : string)
    (models : list Value) (changes : Changes) : result RegistryError (option nat * list Value * Changes) :=
  match list_find (λ m, is_str native (field "provider_model_id" m) = true) models with
  | Some (i, model) =>
      '(model, changes) ← apply_fields feed feed_id false o (model, changes);
      Ok (Some i, <[i := model]> models, changes)
  | None =>
      if membership then
        '(model, changes) ← apply_fields feed feed_id true o (new_model feed_id native, changes);
        Ok (Some (length models), models ++ [model], push_changed (native +:+ ":membership") changes)
      else Ok (None, models, changes)
  end.
Definition observe (feed : Value) (feed_id : string) (membership : bool) (stamp : Stamp) (s : Applying) (o : ObservedModel) :
    result RegistryError Applying :=
  let '(models, present, changes) := s in
  native ← ok_or (as_str (field "provider_model_id" (observed_value o))) (invalid "Missing observed native ID");
  _ ← ensure (negb (bool_decide (native ∈ present))) (invalid "Duplicate normalized identity");
  '(slot, models, changes) ← place feed feed_id membership o native models changes;
  models ← (match (i ← slot; m ← models !! i; Some (i, m)) with
    | Some (i, model) =>
        if membership && owned_by feed_id model then
          model ← mark_seen feed stamp model; Ok (<[i := model]> models)
        else Ok models
    | None => Ok models
    end);
  Ok (models, {[native]} ∪ present, changes).

(** The evidence of one more absence: how often, and since when. *)
Definition absence (stamp : Stamp) (sync : Map) : result RegistryError (Z * DateTime) :=
  count ← ok_or (default 0 (map_get "missing_runs" sync ≫= integer) +? 1) (invalid "Absence counter exhausted");
  since ← (match map_get "missing_since" sync with
    | None => Ok (observed_at stamp)
    | Some v => ok_or (time_of_value v) (invalid "Invalid missing_since")
    end);
  _ ← ensure (negb (before (observed_at stamp) since)) (invalid "Absence evidence is in the future");
  Ok (count, since).
Definition absent (feed_id : string) (stamp : Stamp) (required : Z) (hours : Q) (native : string) (model : Value) (changes : Changes) :
    result RegistryError (Value * Changes) :=
  sync ← object model "sync";
  '(count, since) ← absence stamp sync;
  let model := set_field "sync" (VObject
    (map_insert "missing_runs" (json_u64 count) (map_insert "missing_since" (json_time since) sync))) model in
  if (required <=? count) && Qle_bool hours (elapsed since (observed_at stamp)) && negb (is_str "withdrawn" (field "status" model)) then
    o ← owner (sync_field "field_owners" model) "/status";
    _ ← ensure (bool_decide (o = Some feed_id)) (invalid "Cannot withdraw a manually owned status");
    Ok (set_field "status" (VString "withdrawn") model, push_withdrawn native changes)
  else Ok (model, changes).
Definition absent_step (feed_id : string) (stamp : Stamp) (required : Z) (hours : Q) (present : gset string)
    (s : list Value * Changes) (model : Value) : result RegistryError (list Value * Changes) :=
  let '(done, changes) := s in
  native ← ok_or (native_name model) (invalid "Missing source native ID");
  if bool_decide (native ∈ present) || negb (owned_by feed_id model) then Ok (done ++ [model], changes) else
  '(model, changes) ← absent feed_id stamp required hours native model changes;
  Ok (done ++ [model], changes).
(** The text of [json!(24)] is its lexeme. *)
Definition missing_hours (inventory : Value) : result RegistryError Q :=
  RegistryPricing.decimal (to_string (default (VNumber "24") (get "minimum_missing_hours" inventory))).
Definition withdraw_absent (feed : Value) (feed_id : string) (stamp : Stamp) (present : gset string) (s : list Value * Changes) :
    result RegistryError (list Value * Changes) :=
  let '(models, changes) := s in
  let inventory := field "inventory" feed in
  let required := default 2 (get "missing_runs" inventory ≫= integer) in
  hours ← missing_hours inventory;
  try_fold (absent_step feed_id stamp required hours present) ([], changes) models.

(** [candidate["auto_sync"]["feeds"][index] = feed] *)
Definition set_feed (i : nat) (feed provider : Value) : Value :=
  let auto_sync := field "auto_sync" provider in
  set_field "auto_sync" (set_field "feeds" (VArray (<[i := feed]> (array (field "feeds" auto_sync)))) auto_sync) provider.
Definition store_checkpoint (stamp : Stamp) (feed : Value) : result RegistryError Value :=
  alter "checkpoint" (λ c,
    map_insert "observed_at" (json_time (observed_at stamp))
      (map_insert "id" (VString (stamp_id stamp)) (map_insert "sequence" (json_u64 (sequence stamp)) c))) feed.
(** Whether the checkpoint is of this very observation. *)
Definition is_replay (stamp : Stamp) (checkpoint : Value) : bool :=
  is_str (stamp_id stamp) (field "id" checkpoint) &&
  bool_decide (time_of_value (field "observed_at" checkpoint) = Some (observed_at stamp)).
(** The decision by the checkpoint: [true] when nothing is to be done. *)
Definition order (feed : Value) (stamp : Stamp) : result RegistryError bool :=
  accepted ← checkpoint_sequence feed;
  let checkpoint := field "checkpoint" feed in
  _ ← ensure (negb ((sequence stamp =? 0) || (MAX <? sequence stamp) || is_empty (stamp_id stamp)))
    (invalid "Invalid observation stamp");
  if (sequence stamp <? accepted) || ((sequence stamp =? accepted) && is_replay stamp checkpoint) then Ok true else
  _ ← ensure (negb (sequence stamp =? accepted)) (invalid "Conflicting checkpoint replay");
  _ ← ensure (negb ((0 <? accepted) &&
      is_none_or (λ t, before (observed_at stamp) t) (time_of_value (field "observed_at" checkpoint))))
    (invalid "Observation time precedes persisted checkpoint");
  Ok false.
Definition sort_changes (c : Changes) : Changes :=
  {| unchanged := unchanged c; changed := dedup (sort (changed c));
     manual_conflicts := dedup (sort (manual_conflicts c)); withdrawn := withdrawn c |}.
Definition apply (provider : Value) (feed_id : string) (observation : Observation) (stamp : Stamp) :
    result RegistryError (Value * Changes) :=
  _ ← validate_provider provider;
  feeds ← ok_or (feeds_of provider) (invalid "Missing source feeds");
  '(i, feed) ← ok_or (list_find (λ f, is_str feed_id (field "id" f) = true) feeds) (invalid "Unknown feed ID");
  _ ← validate feed;
  skip ← order feed stamp;
  if (skip : bool) then
    Ok (provider, {| unchanged := true; changed := []; manual_conflicts := []; withdrawn := [] |}) else
  let membership := may_write "models" feed in
  _ ← validate_inventory feed membership;
  models ← ok_or (m ← get "models" provider; as_array m) (invalid "Missing provider models");
  '(models, present, changes) ← try_fold (observe feed feed_id membership stamp) (models, ∅, Changes_default)
    (RegistryReconcile.models observation);
  '(models, changes) ← (if membership && is_str "snapshot" (field "mode" (field "inventory" feed))
    then withdraw_absent feed feed_id stamp present (models, changes) else Ok (models, changes));
  feed ← store_checkpoint stamp feed;
  Ok (set_feed i feed (set_field "models" (VArray (sort_models models)) provider), sort_changes changes).
End reconcile.
