(* ===== verification/RegistryOwners.v ===== *)
(** Ownership of fields ([crates/bitrouter-registry/src/reconcile.rs]): what [owner] decides, and what
    [update] may change on behalf of one feed. *)
From Stdlib Require Import ZArith Lia Ascii QArith.
From stdpp Require Import base list strings gmap pretty sorting.
From S2P Require Import Prelude ExactInteger RegistryValue RegistryPricing RegistryMapping RegistryReconcile.
Open Scope string_scope.
Open Scope list_scope.
Open Scope Z_scope.

(** ** Claims *)

(** A claim covers its address and what is below it. *)
Definition covers (claim path : string) : Prop :=
  claim = path ∨ starts_with (claim +:+ "/") path = true.
(** The address is not the feed's by any of these claims. *)
Definition not_owned (feed : string) (m : Map) (q : list string) : Prop :=
  ∀ c ts, (c, VString feed) ∈ m → tokens c = Ok ts → ¬ ts `prefix_of` q.
(** The claims of others stay, and what was not the feed's is not claimed by it. *)
Definition foreign_kept (feed : string) (m m' : Map) : Prop :=
  ∀ c g, (c, g) ∈ m → g ≠ VString feed → (c, g) ∈ m'.

Lemma covers_spelled cs ts : covers (spelled cs) (spelled ts) ↔ cs `prefix_of` ts.
Proof.
  unfold covers. rewrite render_prefix. split.
  - intros [->%render_inj|(k & ks & ->)]; [done|]. by apply prefix_app_r.
  - intros [[|k ks] ->]; [left; by rewrite app_nil_r|right]. by exists k, ks.
Qed.
Lemma covers_tokens claim path cs ts : tokens claim = Ok cs → tokens path = Ok ts →
  covers claim path ↔ cs `prefix_of` ts.
Proof. intros [-> _]%tokens_ok [-> _]%tokens_ok. apply covers_spelled. Qed.
Lemma owner_step_ok path claims found c v s :
  owner_step path (claims, found) (c, v) = Ok s →
  ∃ ts f, tokens c = Ok ts ∧ ts ≠ [] ∧ v = VString f ∧
    Forall (λ other, ¬ other `prefix_of` ts ∧ ¬ ts `prefix_of` other) claims ∧
    s = (claims ++ [ts], if bool_decide (c = path) || starts_with (c +:+ "/") path then Some f else found).
Proof.
  cbn [owner_step]. intros (ts & Hts & ([] & Hne%ensure_ok & ([] & Hov%ensure_ok & (f & Hf%ok_or_ok & [= <-])%bind_ok)%bind_ok)%bind_ok)%bind_ok.
  destruct v as [| | |s| |]; try done. cbn in Hf. destruct (is_empty s); [done|]. injection Hf as ->.
  exists ts, f. split_and!; [done| |done| |done].
  - intros ->. done.
  - apply negb_true_iff in Hov. apply Forall_forall. intros o Ho. split; intros Hp; apply not_true_iff_false in Hov;
      apply Hov, existsb_exists; exists o; (split; [by apply list_elem_of_In|]);
      apply orb_true_iff; [left|right]; by apply bool_decide_eq_true.
Qed.
Lemma owner_ok m path o : owner (Some (VObject m)) path = Ok o →
  Forall (λ x, ∃ ts f, tokens x.1 = Ok ts ∧ ts ≠ [] ∧ x.2 = VString f) m ∧
  match o with
  | None => ∀ c v, (c, v) ∈ m → ¬ covers c path
  | Some f => ∃ c, (c, VString f) ∈ m ∧ covers c path
  end.
Proof.
  unfold owner. cbn [as_object ok_or mbind result_bind]. destruct (try_fold _ _ m) as [[claims o']|] eqn:Hf; [|done].
  intros [= <-].
  apply (try_fold_ind (owner_step path) (λ m s,
    Forall (λ x, ∃ ts f, tokens x.1 = Ok ts ∧ ts ≠ [] ∧ x.2 = VString f) m ∧
    match s.2 with None => ∀ c v, (c, v) ∈ m → ¬ covers c path | Some f => ∃ c, (c, VString f) ∈ m ∧ covers c path end)) in Hf.
  - exact Hf.
  - split; [constructor|]. by intros c v ?%elem_of_nil.
  - intros l [c v] [cl fo] s _ _ [Hl Hs] (ts & f & Hts & Hne & -> & _ & ->)%owner_step_ok. cbn [snd] in *. split.
    { apply Forall_app. split; [done|]. constructor; [|constructor]. by exists ts, f. }
    destruct (bool_decide (c = path) || starts_with (c +:+ "/") path) eqn:Hc.
    + exists c. split; [apply elem_of_app; right; by left|]. unfold covers. apply orb_true_iff in Hc as [Hc|Hc]; [left|by right].
      by apply bool_decide_eq_true in Hc.
    + destruct fo as [g|].
      * destruct Hs as (c' & Hin & Hcov). exists c'. split; [|done]. apply elem_of_app. by left.
      * intros c' v' [Hin|[= -> ->]%list_elem_of_singleton]%elem_of_app; [by eapply Hs|].
        intros [->|Hst]; [by rewrite bool_decide_eq_true_2 in Hc|]. by rewrite Hst, orb_true_r in Hc.
Qed.
(** What the feed owns as a field, it owns with all that is below. *)
Lemma owner_owns feed m k us : owner (Some (VObject m)) (spelled [k]) = Ok (Some feed) → ¬ not_owned feed m (k :: us).
Proof.
  intros Ho Hn. destruct (owner_ok _ _ _ Ho) as [Hm (c & Hin & Hc)]. rewrite Forall_forall in Hm.
  destruct (Hm _ Hin) as (cs & f & Hcs & Hne & _). cbn in Hcs. apply (Hn _ _ Hin Hcs).
  apply tokens_ok in Hcs as [-> _]. apply covers_spelled in Hc as [l Hl]. destruct cs as [|c' cs]; [done|].
  injection Hl as <- Hl. destruct cs; [|done]. apply prefix_cons, prefix_nil.
Qed.

(** ** One edit *)

(** The text of a field, which an edit below it cannot change. *)
Definition text (k : string) (v : Value) : option string := as_str (field k v).
(** What an edit at an address leaves alone. *)
Record edits (ts : list string) (v v' : Value) : Prop := {
  edits_object : is_object v' = is_object v;
  edits_other q w : ¬ ts `prefix_of` q → at_path v q = Some w → is_scalar w = true → at_path v' q = Some w;
  edits_get k : head ts ≠ Some k → get k v' = get k v;
  edits_text k t us : ts = k :: t :: us → text k v' = text k v }.

Lemma as_str_edit ts v v' : ts ≠ [] → (∃ x, write_parts v ts x = Ok v') ∨ (∃ f, v' = alter_object ts f v) → as_str v' = as_str v.
Proof.
  intros Hts [[x Hw]|[f ->]]; destruct ts as [|t ts]; try done.
  - cbn in Hw. destruct v as [| | | |l|m]; try done.
    + by apply bind_ok in Hw as (i & _ & (c & _ & (c' & _ & [= <-])%bind_ok)%bind_ok).
    + case_bool_decide; [by injection Hw as <-|]. by apply bind_ok in Hw as ([] & _ & (c & _ & [= <-])%bind_ok).
  - cbn. destruct v as [| | | |l|m]; try done.
    + destruct (index t); [|done]. by destruct (l !! a).
    + by destruct (map_get t m).
Qed.
Lemma field_insert k x m : field k (VObject (map_insert k x m)) = x.
Proof. unfold field. cbn. by rewrite map_get_insert, bool_decide_eq_true_2. Qed.
Lemma write_edits ts v x v' : write_parts v ts x = Ok v' → edits ts v v'.
Proof.
  intros Hw. split.
  - destruct ts as [|t ts]; [done|]. cbn in Hw. destruct v as [| | | |l|m]; try done.
    + by apply bind_ok in Hw as (i & _ & (c & _ & (c' & _ & [= <-])%bind_ok)%bind_ok).
    + case_bool_decide; [by injection Hw as <-|]. by apply bind_ok in Hw as ([] & _ & (c & _ & [= <-])%bind_ok).
  - intros q w Hn Hq Hs. by eapply write_parts_other.
  - intros k Hk. destruct ts as [|t ts]; [done|]. cbn in Hw. assert (k ≠ t) by (intros ->; by apply Hk).
    destruct v as [| | | |l|m]; try done.
    + by apply bind_ok in Hw as (i & _ & (c & _ & (c' & _ & [= <-])%bind_ok)%bind_ok).
    + case_bool_decide; [injection Hw as <-|apply bind_ok in Hw as ([] & _ & (c & _ & [= <-])%bind_ok)];
        cbn; by rewrite map_get_insert, bool_decide_eq_false_2.
  - intros k t us ->. cbn [write_parts] in Hw. destruct v as [| | | |l|m]; try done.
    + by apply bind_ok in Hw as (i & _ & (c & _ & (c' & _ & [= <-])%bind_ok)%bind_ok).
    + rewrite bool_decide_eq_false_2 in Hw by done. apply bind_ok in Hw as ([] & _ & (c & Hc & [= <-])%bind_ok).
      unfold text. rewrite field_insert. unfold field. cbn [get].
      rewrite (as_str_edit (t :: us) (default (VObject []) (map_get k m))) by (try done; left; by eexists).
      by destruct (map_get k m).
Qed.

Lemma alter_object_scalar ts k v q w : wf v → at_path v q = Some w → is_scalar w = true →
  ¬ (ts ++ [k]) `prefix_of` q → at_path (alter_object ts (map_remove k) v) q = Some w.
Proof.
  revert v q. induction ts as [|t ts IH]; intros v q Hv Hq Hw Hn; cbn.
  - destruct v as [| | | | |m]; try done. destruct q as [|k' q]; [by injection Hq as <-|].
    rewrite at_path_object in Hq. rewrite at_path_object. rewrite (proj2 (map_remove_spec k m Hv)). case_bool_decide; [|done]. subst.
    destruct Hn. apply prefix_cons, prefix_nil.
  - destruct v as [| | | |l|m]; try done.
    + destruct (index t) as [i|] eqn:Hi; [|done]. destruct (l !! i) as [c|] eqn:Hc; [|done].
      destruct q as [|k' q]; [by injection Hq as <-|].
      destruct (index k') as [j|e] eqn:Hj; [|by erewrite at_path_array_bad in Hq by done].
      rewrite (at_path_array _ _ _ _ Hj) in Hq. rewrite (at_path_array _ _ _ _ Hj). destruct (decide (i = j)) as [<-|].
      * pose proof (index_inj _ _ _ Hi Hj) as <-. rewrite list_lookup_insert_eq by (by eapply lookup_lt_Some).
        rewrite Hc in Hq. cbn in Hq |- *. apply IH; [|done..|].
        { apply wf_array in Hv. by eapply (Forall_lookup_1 _ _ _ _ Hv). }
        { intros Hp. by apply Hn, prefix_cons. }
      * by rewrite list_lookup_insert_ne.
    + destruct (map_get t m) as [c|] eqn:Hc; [|done]. destruct q as [|k' q]; [by injection Hq as <-|].
      rewrite at_path_object in Hq. rewrite at_path_object. rewrite map_get_insert. case_bool_decide; [|done]. subst. rewrite Hc in Hq.
      cbn in Hq |- *. apply IH; [|done..|].
      { apply wf_object in Hv as [_ Hv]. apply map_get_elem in Hc. rewrite Forall_forall in Hv. by apply (Hv (t, c)). }
      { intros Hp. by apply Hn, prefix_cons. }
Qed.
Lemma alter_object_wf ts k v : wf v → wf (alter_object ts (map_remove k) v).
Proof.
  revert v. induction ts as [|t ts IH]; intros v Hv; cbn.
  - destruct v as [| | | | |m]; try done. by apply map_remove_spec.
  - destruct v as [| | | |l|m]; try done.
    + destruct (index t) as [i|]; [|done]. destruct (l !! i) as [c|] eqn:Hc; [|done].
      rewrite wf_array in Hv |- *. apply Forall_insert; [done|]. apply IH. by eapply (Forall_lookup_1 _ _ _ _ Hv).
    + destruct (map_get t m) as [c|] eqn:Hc; [|done]. apply map_insert_wf; [|done]. apply IH.
      apply wf_object in Hv as [_ Hv]. apply map_get_elem in Hc. rewrite Forall_forall in Hv. by apply (Hv (t, c)).
Qed.
Lemma alter_edits ts k v : wf v → edits (ts ++ [k]) v (alter_object ts (map_remove k) v).
Proof.
  intros Hv. split.
  - destruct ts as [|t ts]; destruct v as [| | | |l|m]; try done; cbn.
    + destruct (index t); [|done]. by destruct (l !! a).
    + by destruct (map_get t m).
  - intros q w Hn Hq Hw. by apply alter_object_scalar.
  - intros k' Hk. destruct ts as [|t ts]; destruct v as [| | | |l|m]; try done; cbn in Hk |- *.
    + rewrite (proj2 (map_remove_spec k m Hv)), bool_decide_eq_false_2; [done|congruence].
    + destruct (index t); [|done]. by destruct (l !! a).
    + destruct (map_get t m); [|done]. cbn. rewrite map_get_insert, bool_decide_eq_false_2; [done|congruence].
  - intros k' t us Hts. destruct ts as [|t' ts]; [done|]. injection Hts as -> Hts. cbn.
    destruct v as [| | | |l|m]; try done.
    + destruct (index k'); [|done]. by destruct (l !! a).
    + destruct (map_get k' m) as [c|] eqn:Hc; [|done]. unfold text. rewrite field_insert. unfold field. cbn. rewrite Hc. cbn.
      destruct ts as [|t' ts]; [by destruct c|]. apply (as_str_edit (t' :: ts)); [done|]. right. by eexists.
Qed.

Lemma edits_refl ts v : edits ts v v. Proof. by split. Qed.
Lemma rsplit_once_app c x y : c ∉ bytes y → rsplit_once c (x +:+ String c y) = Some (x, y).
Proof.
  intros Hy. induction x as [|a x IH]; cbn; [|by rewrite IH].
  by rewrite (proj2 (rsplit_once_None c y) Hy), bool_decide_eq_true_2.
Qed.
Lemma safe_path_app ts us : safe_path (ts ++ us) → safe_path ts.
Proof. intros [Hl Hf]. rewrite length_app in Hl. apply Forall_app in Hf as [? _]. split; [lia|done]. Qed.
Lemma safe_path_suffix ts us : safe_path (ts ++ us) → safe_path us.
Proof. intros [Hl Hf]. rewrite length_app in Hl. apply Forall_app in Hf as [_ ?]. split; [lia|done]. Qed.
Lemma remove_ok v path v' ts : tokens path = Ok ts → remove v path = Ok v' →
  ∃ us k, ts = us ++ [k] ∧ v' = alter_object us (map_remove k) v.
Proof.
  intros [-> Hs]%tokens_ok Hr. unfold remove in Hr. apply bind_ok in Hr as ([p l] & Hsp%ok_or_ok & Hr).
  destruct ts as [|k us _] using rev_ind; [done|]. exists us, k. split; [done|].
  rewrite render_app in Hsp. cbn [spelled] in Hsp. rewrite app_empty_r in Hsp.
  rewrite rsplit_once_app in Hsp by apply escape_no_slash. injection Hsp as <- <-.
  assert (tokens ("/" +:+ escape k) = Ok [k]) as Hk.
  { apply tokens_ok. cbn [spelled]. rewrite app_empty_r. split; [done|]. destruct Hs as [Hl Hf]. split; [unfold MAX_DOCUMENT_DEPTH; cbn; lia|].
    by apply Forall_app in Hf as [_ Hf]. }
  assert (tokens (spelled us) = Ok us) as Hu by (apply tokens_ok; split; [done|by eapply safe_path_app]).
  rewrite Hk in Hr. cbn in Hr. rewrite Hu in Hr. congruence.
Qed.

(** ** [put] and [update] *)

(** What writing at [ts] for [feed] may do to a value and its ownership map. *)
Record framed (feed : string) (ts : list string) (v : Value) (m : Map) (v' : Value) (m' : Map) : Prop := {
  framed_wf : wf v → wf v';
  framed_object : is_object v' = is_object v;
  framed_get k : head ts ≠ Some k → get k v' = get k v;
  framed_text k t us : ts = k :: t :: us → text k v' = text k v;
  framed_map : wf (VObject m) → wf (VObject m');
  framed_foreign : foreign_kept feed m m';
  framed_claims c g : (c, g) ∈ m' → (c, g) ∈ m ∨ g = VString feed;
  framed_scalar q w : wf v → not_owned feed m q → at_path v q = Some w → is_scalar w = true →
    at_path v' q = Some w ∧ not_owned feed m' q }.

Lemma framed_refl feed ts v m : framed feed ts v m v m.
Proof. split; try done; auto. by intros c g. Qed.
Lemma framed_trans feed ts v1 m1 v2 m2 v3 m3 :
  framed feed ts v1 m1 v2 m2 → framed feed ts v2 m2 v3 m3 → framed feed ts v1 m1 v3 m3.
Proof.
  intros [W1 O1 G1 T1 M1 F1 C1 S1] [W2 O2 G2 T2 M2 F2 C2 S2]. split.
  - auto.
  - by rewrite O2.
  - intros k Hk. by rewrite G2, G1.
  - intros k t us Hts. by rewrite (T2 _ _ _ Hts), (T1 _ _ _ Hts).
  - auto.
  - intros c g Hin Hg. by apply F2, Hg; apply F1.
  - intros c g Hin. destruct (C2 _ _ Hin); auto.
  - intros q w Hw Hn Hq Hs. destruct (S1 q w Hw Hn Hq Hs) as [Hq' Hn']. by apply S2; auto.
Qed.
Lemma framed_below feed ts k v m v' m' : ts ≠ [] → framed feed (ts ++ [k]) v m v' m' → framed feed ts v m v' m'.
Proof.
  intros Hts [W O G T M F C S]. split; try done.
  - intros k' Hk. apply G. by destruct ts.
  - intros k' t us ->. by eapply (T k' t (us ++ [k])).
Qed.

Section update.
Context `{ExactNumber, JsonText, Rfc3339} (feed : string).

(** Who does not own an address may write it only if nothing is there. *)
Definition may_put (m : Map) (path : string) (prior : option Value) : Prop :=
  (∃ c, (c, VString feed) ∈ m ∧ covers c path) ∨ (prior = None ∧ ∀ c v, (c, v) ∈ m → ¬ covers c path).
Lemma may_put_elsewhere m path ts v q w : tokens path = Ok ts →
  Forall (λ x, ∃ ts f, tokens x.1 = Ok ts ∧ ts ≠ [] ∧ x.2 = VString f) m →
  may_put m path (at_path v ts) → not_owned feed m q → at_path v q = Some w → ¬ ts `prefix_of` q.
Proof.
  intros Ht Hm [(c & Hin & Hc)|[Hn _]] Hq Hv Hp.
  - pose proof Hm as Hm'. rewrite Forall_forall in Hm'. destruct (Hm' _ Hin) as (cs & f & Hcs & _ & _). cbn in Hcs.
    apply (Hq _ _ Hin Hcs). etrans; [|exact Hp]. by eapply covers_tokens.
  - destruct Hp as [us ->]. by rewrite at_path_app, Hn in Hv.
Qed.
Lemma map_insert_absent k v m : k ∉ m.*1 → map_insert k v m = m ++ [(k, v)].
Proof.
  induction m as [|[k' v'] m IH]; cbn; [done|]. intros Hk. rewrite bool_decide_eq_false_2 by set_solver.
  by rewrite IH by set_solver.
Qed.
Lemma not_owned_insert m path ts q : tokens path = Ok ts → path ∉ m.*1 → ¬ ts `prefix_of` q →
  not_owned feed m q → not_owned feed (map_insert path (VString feed) m) q.
Proof.
  intros Ht Hp Hq Hn c cs. rewrite map_insert_absent by done. intros [Hin|[= ->]%list_elem_of_singleton]%elem_of_app Hcs.
  - by eapply Hn.
  - rewrite Ht in Hcs. by injection Hcs as <-.
Qed.
Lemma put_edits path value prior owning v m ch v' o' ch' ts : wf v → wf value → tokens path = Ok ts →
  put feed path value prior owning (v, VObject m, ch) = Ok (v', o', ch') →
  edits ts v v' ∧ wf v' ∧
  (∀ k, ts = [k] → text k v' = text k v ∨ text k v' = as_str value) ∧
  (o' = VObject m ∨ owning = None ∧ o' = VObject (map_insert path (VString feed) m)).
Proof.
  intros Hv Hx Ht. cbn [put]. intros ([] & _ & ([t c] & Ht' & Ho)%bind_ok)%bind_ok.
  assert (edits ts v t ∧ wf t ∧ ∀ k, ts = [k] → text k t = text k v ∨ text k t = as_str value) as (He & Hw & Hk).
  { destruct (is_some_and _ prior); [injection Ht' as <- <-; split_and!; [apply edits_refl|done|by left]|].
    apply bind_ok in Ht' as (t0 & Hr & [= <- <-]). destruct (is_null value) eqn:Hnull.
    - destruct (remove_ok _ _ _ _ Ht Hr) as (us & k & -> & ->). split_and!; [by apply alter_edits|by apply alter_object_wf|].
      intros k' Hk. destruct us as [|? [|]]; [|done..]. injection Hk as ->. destruct v as [| | | | |m0]; try by left.
      right. destruct value; try done. unfold text, field. cbn. by rewrite (proj2 (map_remove_spec k' m0 Hv)), bool_decide_eq_true_2.
    - destruct (write_ok _ _ _ _ Hr) as (ts' & Hts & Hwr). rewrite Ht in Hts. injection Hts as <-.
      split_and!; [by eapply write_edits|exact (write_parts_wf _ _ _ _ Hv Hx Hwr)|]. intros k ->. cbn in Hwr.
      destruct v as [| | | |l|m0]; try done.
      + left. by apply bind_ok in Hwr as (i & _ & (c0 & _ & [= <-])%bind_ok).
      + injection Hwr as <-. right. unfold text. by rewrite field_insert. }
  destruct (negb (is_some owning) && negb (is_null value)) eqn:Hb.
  - apply bind_ok in Ho as (m0 & [= <-] & [= <- <- <-]). split_and!; [done..|]. right. split; [|done].
    apply andb_true_iff in Hb as [Hb _]. by destruct owning.
  - injection Ho as <- <- <-. by auto.
Qed.
Lemma put_framed path value owning v m ch v' o' ch' ts : wf v → wf value → tokens path = Ok ts →
  Forall (λ x, ∃ ts f, tokens x.1 = Ok ts ∧ ts ≠ [] ∧ x.2 = VString f) m →
  may_put m path (at_path v ts) → (owning = None → path ∉ m.*1) →
  put feed path value (at_path v ts) owning (v, VObject m, ch) = Ok (v', o', ch') →
  ∃ m', o' = VObject m' ∧ framed feed ts v m v' m' ∧
    ∀ k, ts = [k] → text k v' = text k v ∨ text k v' = as_str value.
Proof.
  intros Hv Hx Ht Hm Hput Hown Hp. destruct (put_edits _ _ _ _ _ _ _ _ _ _ _ Hv Hx Ht Hp) as ([O S G T] & Hw & Hk & Ho).
  assert (∀ q w, not_owned feed m q → at_path v q = Some w → is_scalar w = true → ¬ ts `prefix_of` q ∧ at_path v' q = Some w) as Hq.
  { intros q w Hq Hq' Hs. assert (¬ ts `prefix_of` q) by (by eapply may_put_elsewhere). auto. }
  destruct Ho as [->|[Hn ->]]; eexists; (split; [done|]); (split; [|done]).
  - split; auto; [by intros c g|]. intros q w _ Hno Hq' Hs. by destruct (Hq q w).
  - specialize (Hown Hn). split; auto.
    + intros Hm'. by apply map_insert_wf.
    + intros c g Hin _. rewrite map_insert_absent by done. apply elem_of_app. by left.
    + intros c g. rewrite map_insert_absent by done. intros [?|[= -> ->]%list_elem_of_singleton]%elem_of_app; auto.
    + intros q w _ Hno Hq' Hs. destruct (Hq q w) as [Hp' ?]; [done..|]. split; [done|]. by eapply not_owned_insert.
Qed.

(** The fields of an object, one after another. *)
Definition update_fields (path : string) (s : Editing) (fields : Map) : result RegistryError Editing :=
  try_fold (λ s '(key, child), update feed (path +:+ "/" +:+ escape key) child s) s fields.
Definition foreign_claim (owning : option string) : bool := is_some_and (λ o, negb (bool_decide (o = feed))) owning.
Definition claimed_below (path : string) (m : Map) : bool :=
  existsb (λ '(claim, _), starts_with (path +:+ "/") claim) m.
(** The three ways that [update] can go. *)
Lemma update_cases path value v o ch s' : update feed path value (v, o, ch) = Ok s' →
  ∃ prior owning m, read v path = Ok prior ∧ owner (Some o) path = Ok owning ∧ o = VObject m ∧
    (s'.1 = (v, o) ∧ (s'.2 = ch ∨ s'.2 = push_conflict path ch) ∨
     ∃ fields, value = VObject fields ∧ update_fields path (v, o, ch) fields = Ok s' ∨
     (foreign_claim owning || (is_some prior && negb (is_some owning))) = false ∧
     claimed_below path m = false ∧ put feed path value prior owning (v, o, ch) = Ok s').
Proof.
  intros Hu. assert (∃ prior owning m, read v path = Ok prior ∧ owner (Some o) path = Ok owning ∧ o = VObject m) as (prior & owning & m & Hp & Ho & ->).
  { destruct value; cbn [update] in Hu; apply bind_ok in Hu as (prior & Hp & (owning & Ho & (m & Hm%ok_or_ok & _)%bind_ok)%bind_ok);
      (destruct o; [done..|]); by eexists _, _, _. }
  exists prior, owning, m. split_and!; [done..|].
  assert (∀ fields s, (fix all fields s := match fields with
          | [] => Ok s
          | (key, child) :: fields => s ← update feed (path +:+ "/" +:+ escape key) child s; all fields s
          end) fields s = update_fields path s fields) as Hfold.
  { induction fields as [|[key child] fields IH]; intros s; [done|]. unfold update_fields. cbn [try_fold].
    destruct (update feed (path +:+ "/" +:+ escape key) child s); [|done]. apply IH. }
  assert (∀ b, b = foreign_claim owning || (is_some prior && negb (is_some owning) && negb (claimed_below path m)) → b = false →
    claimed_below path m = false → (foreign_claim owning || (is_some prior && negb (is_some owning))) = false) as Hb.
  { intros b -> Hb Hc. by rewrite Hc, andb_true_r in Hb. }
  destruct value as [| | | | |fields]; cbn [update] in Hu; rewrite Hp, Ho in Hu; cbn in Hu;
    fold (foreign_claim owning) in Hu; fold (claimed_below path m) in Hu;
    (destruct (foreign_claim owning || _) eqn:Hc; [injection Hu as <-; left; split; [done|]; cbn; case_match; auto|]); right.
  1-5: exists []; right; destruct (claimed_below path m) eqn:Hd;
    [rewrite orb_true_r in Hu; discriminate|]; rewrite orb_false_r in Hu; split_and!; [by eapply Hb|done|];
    by destruct (is_some_and is_object prior).
  exists fields. destruct (is_some_and is_object prior || claimed_below path m) eqn:Hd; [left; by rewrite <-Hfold|right].
  apply orb_false_iff in Hd as [_ Hd]. split_and!; [by eapply Hb|done..].
Qed.

Definition updates (value : Value) : Prop := ∀ path v m ch s', is_empty path = false → wf v →
  update feed path value (v, VObject m, ch) = Ok s' →
  ∃ ts m', tokens path = Ok ts ∧ ts ≠ [] ∧ s'.1.2 = VObject m' ∧ framed feed ts v m s'.1.1 m' ∧
    ∀ k, ts = [k] → text k s'.1.1 = text k v ∨ text k s'.1.1 = as_str value.
Lemma tokens_nonempty path ts : tokens path = Ok ts → is_empty path = false → ts ≠ [].
Proof. by intros [-> _]%tokens_ok ? ->. Qed.
Lemma tokens_below path k ts us : tokens path = Ok ts → tokens (path +:+ "/" +:+ escape k) = Ok us → us = ts ++ [k].
Proof.
  intros [-> _]%tokens_ok [He _]%tokens_ok. apply render_inj. rewrite <-He, render_app. cbn [spelled]. by rewrite app_empty_r.
Qed.
Lemma below_nonempty path k : is_empty (path +:+ "/" +:+ k) = false.
Proof. by destruct path. Qed.
Lemma update_fields_framed path ts fields v m ch s' : tokens path = Ok ts → ts ≠ [] → wf v →
  Forall (λ x, updates x.2) fields → update_fields path (v, VObject m, ch) fields = Ok s' →
  ∃ m', s'.1.2 = VObject m' ∧ framed feed ts v m s'.1.1 m' ∧ ∀ k, ts = [k] → text k s'.1.1 = text k v.
Proof.
  intros Ht Hne. revert v m ch. induction fields as [|[key child] fields IH]; intros v m ch Hv Hf Hu.
  - injection Hu as <-. exists m. split_and!; [done|apply framed_refl|done].
  - apply list.Forall_cons in Hf as [Hc Hf]. cbn in Hu.
    destruct (update feed _ child _) as [[[v1 o1] ch1]|] eqn:Hu1; [|done].
    destruct (Hc _ _ _ _ _ (below_nonempty _ _) Hv Hu1) as (us & m1 & Hus & _ & Ho & Hf1 & _). cbn in Ho, Hf1. subst o1.
    pose proof (tokens_below _ _ _ _ Ht Hus) as ->.
    destruct (IH _ _ _ (framed_wf _ _ _ _ _ _ Hf1 Hv) Hf Hu) as (m' & Ho' & Hf2 & Hk). exists m'. split_and!; [done| |].
    + eapply framed_trans; [|exact Hf2]. by eapply framed_below.
    + intros k ->. rewrite (Hk k eq_refl). by eapply (framed_text _ _ _ _ _ _ Hf1).
Qed.
Lemma update_framed_case value : wf value →
  (∀ fields, value = VObject fields → Forall (λ x, updates x.2) fields) → updates value.
Proof.
  intros Hx Hf path v m ch s' Hne Hv Hu.
  apply update_cases in Hu as (prior & owning & m0 & Hr & Ho & [= <-] & Hcase).
  destruct (read_tokens _ _ _ Hr) as (ts & Ht & Hp). pose proof (tokens_nonempty _ _ Ht Hne) as Hts.
  destruct Hcase as [[Hs _]|(fields & [(-> & Hu)|(Hb & Hd & Hu)])].
  - destruct s' as [[v' o'] ch']. injection Hs as -> ->. exists ts, m. split_and!; [done..|apply framed_refl|by left].
  - destruct (update_fields_framed _ _ _ _ _ _ _ Ht Hts Hv (Hf _ eq_refl) Hu) as (m' & Ho' & Hfr & Hk).
    exists ts, m'. split_and!; [done..|]. intros k Htk. left. by apply Hk.
  - apply orb_false_iff in Hb as [Hb1 Hb2]. destruct (owner_ok _ _ _ Ho) as [Hm Hown].
    assert (may_put m path (at_path v ts)) as Hmay.
    { destruct owning as [f|]; [left|right].
      - unfold foreign_claim in Hb1. cbn in Hb1. apply negb_false_iff, bool_decide_eq_true in Hb1 as ->. exact Hown.
      - split; [|exact Hown]. rewrite Hp. destruct prior; [by rewrite andb_true_r in Hb2|done]. }
    assert (owning = None → path ∉ m.*1) as Habs.
    { intros -> Hin. apply list_elem_of_fmap in Hin as ([c g] & -> & Hin). apply (Hown _ _ Hin). by left. }
    destruct s' as [[v' o'] ch']. rewrite <-Hp in Hu.
    destruct (put_framed _ _ _ _ _ _ _ _ _ _ Hv Hx Ht Hm Hmay Habs Hu) as (m' & -> & Hfr & Hk).
    by exists ts, m'.
Qed.
Lemma update_framed value : wf value → updates value.
Proof.
  induction value as [| | | |l _|fields IH] using value_nested; intros Hx; apply update_framed_case; try done.
  intros ? [= <-]. apply wf_object in Hx as [_ Hx]. rewrite Forall_forall in *. auto.
Qed.
End update.
