(* ===== verification/RegistryKept.v ===== *)
(** What a reconciliation keeps ([crates/bitrouter-registry/src/reconcile.rs]): of each model of a provider,
    all that the observing feed does not own. *)
From Stdlib Require Import ZArith Lia Ascii QArith.
From stdpp Require Import base list strings gmap pretty sorting.
From S2P Require Import Prelude ExactInteger RegistryValue RegistryPricing RegistryMapping RegistryReconcile RegistryOwners.
Open Scope string_scope.
Open Scope list_scope.
Open Scope Z_scope.

(** ** The parts of a model *)

Definition claims (o : option Value) : Map := default [] (o ≫= as_object).
Definition model_claims (m : Value) : Map := claims (sync_field "field_owners" m).
(** The first element with an identity, of the interfaces or of their ownership records. *)
Definition find_key (key : InterfaceKey) (l : list Value) : option Value :=
  snd <$> list_find (λ v, interface_key v = key) l.
Definition interface_of (key : InterfaceKey) (m : Value) : option Value :=
  find_key key (array (field "interfaces" m)).
Definition records_of (m : Value) : list Value := array (default VNull (sync_field "interface_owners" m)).
Definition record_of (key : InterfaceKey) (m : Value) : option Value := find_key key (records_of m).
Definition interface_claims (key : InterfaceKey) (m : Value) : Map := claims (record_of key m ≫= get "field_owners").

(** The scalars of a value that are not the feed's, and the claims of others. *)
Record kept_in (feed : string) (v : Value) (m : Map) (v' : Value) (m' : Map) : Prop := {
  kept_in_foreign : foreign_kept feed m m';
  kept_in_scalar q w : not_owned feed m q → at_path v q = Some w → is_scalar w = true →
    at_path v' q = Some w ∧ not_owned feed m' q }.
(** The claims and the scalars are all the feed's. *)
Definition wholly_owned (feed : string) (v : Value) (m : Map) : Prop :=
  (∀ c g, (c, g) ∈ m → g = VString feed) ∧ ∀ q w, at_path v q = Some w → is_scalar w = true → ¬ not_owned feed m q.
(** What is at an address below a field. *)
Definition at_field (k : string) (q : list string) (m : Value) : option Value := get k m ≫= λ v, at_path v q.
Definition reconciled_fields : list string := ["sync"; "interfaces"; "availability"].
(** The model keeps its identity and its member's owner, the scalars that the feed does not own, of the
    model itself and of every interface by its identity, and the claims of others; an interface that
    is wholly the feed's may go. *)
Record kept (feed : string) (m m' : Value) : Prop := {
  kept_name : field "provider_model_id" m' = field "provider_model_id" m;
  kept_canonical : get "canonical_id" m' = get "canonical_id" m;
  kept_owner : sync_field "owner" m' = sync_field "owner" m;
  kept_claims : foreign_kept feed (model_claims m) (model_claims m');
  kept_scalar k q w : k ∉ reconciled_fields → not_owned feed (model_claims m) (k :: q) →
    at_field k q m = Some w → is_scalar w = true →
    at_field k q m' = Some w ∧ not_owned feed (model_claims m') (k :: q);
  kept_interface key i : interface_of key m = Some i →
    wholly_owned feed i (interface_claims key m) ∨
    ∃ i', interface_of key m' = Some i' ∧ kept_in feed i (interface_claims key m) i' (interface_claims key m') }.

Lemma is_str_true s v : is_str s v = true ↔ v = VString s.
Proof. unfold is_str. rewrite bool_decide_eq_true. by destruct v; cbn; split; intros [= ->]. Qed.
Lemma foreign_kept_refl feed m : foreign_kept feed m m. Proof. by intros c g. Qed.
Lemma foreign_kept_trans feed m1 m2 m3 : foreign_kept feed m1 m2 → foreign_kept feed m2 m3 → foreign_kept feed m1 m3.
Proof. intros H1 H2 c g Hin Hg. by apply H2, Hg; apply H1. Qed.
Lemma kept_in_refl feed v m : kept_in feed v m v m. Proof. split; [apply foreign_kept_refl|auto]. Qed.
Lemma kept_in_trans feed v1 m1 v2 m2 v3 m3 : kept_in feed v1 m1 v2 m2 → kept_in feed v2 m2 v3 m3 → kept_in feed v1 m1 v3 m3.
Proof.
  intros [F1 S1] [F2 S2]. split; [by eapply foreign_kept_trans|]. intros q w Hn Hq Hs.
  destruct (S1 q w Hn Hq Hs). by apply S2.
Qed.
Lemma framed_kept feed ts v m v' m' : wf v → framed feed ts v m v' m' → kept_in feed v m v' m'.
Proof. intros Hv [_ _ _ _ _ F _ S]. split; [done|]. intros q w. by apply S. Qed.

(** A change elsewhere: the parts are the same. *)
Lemma kept_same feed m m' :
  (∀ k, k ∉ ["sync"; "availability"] → get k m' = get k m) →
  (∀ k, k ∈ ["owner"; "field_owners"; "interface_owners"] → sync_field k m' = sync_field k m) → kept feed m m'.
Proof.
  intros Hg Hs.
  assert (model_claims m' = model_claims m) as Hc by (unfold model_claims; rewrite Hs; [done|set_solver]).
  assert (∀ key, interface_of key m' = interface_of key m) as Hi
    by (intros key; unfold interface_of, field; rewrite Hg; [done|set_solver]).
  assert (∀ key, interface_claims key m' = interface_claims key m) as Hr
    by (intros key; unfold interface_claims, record_of, records_of; rewrite Hs; [done|set_solver]).
  split.
  - unfold field. rewrite Hg; [done|set_solver].
  - apply Hg. set_solver.
  - apply Hs. set_solver.
  - rewrite Hc. apply foreign_kept_refl.
  - intros k q w Hk Hn Hq Hw. rewrite Hc. split; [|done]. unfold at_field. rewrite Hg; [done|].
    unfold reconciled_fields in Hk. set_solver.
  - intros key i Hk. right. exists i. rewrite Hi, Hr. split; [done|apply kept_in_refl].
Qed.
Lemma kept_refl feed m : kept feed m m. Proof. by apply kept_same. Qed.
Lemma wholly_owned_before feed v m v' m' : kept_in feed v m v' m' → wholly_owned feed v' m' → wholly_owned feed v m.
Proof.
  intros [F S] [Hc Hs]. split.
  - intros c g Hin. destruct (is_str feed g) eqn:Hg; [by apply is_str_true|].
    eapply Hc, F; [done|]. intros Ht%is_str_true. congruence.
  - intros q w Hq Hw Hn. destruct (S q w Hn Hq Hw). by eapply Hs.
Qed.
Lemma kept_trans feed m1 m2 m3 : kept feed m1 m2 → kept feed m2 m3 → kept feed m1 m3.
Proof.
  intros [N1 C1 O1 F1 S1 I1] [N2 C2 O2 F2 S2 I2]. split; [congruence..| | |].
  - by eapply foreign_kept_trans.
  - intros k q w Hk Hn Hq Hw. destruct (S1 k q w Hk Hn Hq Hw). by apply S2.
  - intros key i Hi. destruct (I1 key i Hi) as [|(i' & Hi' & Hk)]; [by left|].
    destruct (I2 key i' Hi') as [Hw|(i'' & Hi'' & Hk')]; [left; by eapply wholly_owned_before|right].
    exists i''. split; [done|]. by eapply kept_in_trans.
Qed.

(** ** Lists by identity *)

Lemma find_interface_key source l : find_interface source l = find_key (interface_key source) l.
Proof.
  unfold find_interface, find_key. f_equal. apply list_find_ext. intros v. unfold same_interface. apply bool_decide_eq_true.
Qed.
Lemma position_key source l : list_find (λ v, same_interface v source = true) l = list_find (λ v, interface_key v = interface_key source) l.
Proof. apply list_find_ext. intros v. unfold same_interface. apply bool_decide_eq_true. Qed.
Lemma find_key_cons key v l : find_key key (v :: l) = if decide (interface_key v = key) then Some v else find_key key l.
Proof.
  unfold find_key. cbn. case_decide; [done|]. by destruct (list_find _ l) as [[]|].
Qed.
Lemma find_key_app key l1 l2 : find_key key (l1 ++ l2) = match find_key key l1 with Some v => Some v | None => find_key key l2 end.
Proof. induction l1 as [|v l1 IH]; [done|]. cbn [app]. rewrite !find_key_cons. by case_decide. Qed.
Lemma find_key_Some key l v : find_key key l = Some v → interface_key v = key ∧ v ∈ l.
Proof.
  induction l as [|x l IH]; [done|]. rewrite find_key_cons. case_decide; [intros [= <-]; split; [done|left]|].
  intros Hf. destruct (IH Hf). split; [done|by right].
Qed.
Lemma find_key_None key l : find_key key l = None ↔ Forall (λ v, interface_key v ≠ key) l.
Proof.
  induction l as [|x l IH]; [by split|]. rewrite find_key_cons, list.Forall_cons. case_decide; naive_solver.
Qed.
(** Replacing the element that is found by one of the same identity. *)
Lemma find_key_insert key i v l x : list_find (λ v, interface_key v = key) l = Some (i, v) → interface_key x = key →
  ∀ key', find_key key' (<[i := x]> l) = if decide (key' = key) then Some x else find_key key' l.
Proof.
  intros Hf Hx key'. revert i Hf. induction l as [|y l IH]; intros i; [done|]. cbn [list_find].
  destruct (decide (interface_key y = key)) as [Hy|Hy]; [intros [= <- <-]; change (<[O := x]> (y :: l)) with (x :: l); rewrite !find_key_cons; repeat case_decide; congruence|].
  destruct (list_find _ l) as [[j w]|] eqn:Hl; [|done]. intros [= <- <-].
  change (<[S j := x]> (y :: l)) with (y :: <[j := x]> l).
  rewrite !find_key_cons, (IH j eq_refl). repeat case_decide; congruence.
Qed.
Lemma find_key_filter (key : InterfaceKey) (l : list Value) (keys : gset InterfaceKey) : key ∉ keys →
  find_key key (List.filter (λ v, negb (bool_decide (interface_key v ∈ keys))) l) = find_key key l.
Proof.
  intros Hk. induction l as [|x l IH]; [done|]. cbn [List.filter]. case_bool_decide; cbn [negb]; rewrite !find_key_cons.
  - case_decide; [subst; done|apply IH].
  - by rewrite IH.
Qed.

(** ** Fields and identities *)

Lemma get_set_field k x v k' : is_object v = true → get k' (set_field k x v) = if bool_decide (k' = k) then Some x else get k' v.
Proof. destruct v; try done. intros _. cbn. apply map_get_insert. Qed.
Lemma wf_empty : wf (VObject []). Proof. split; [constructor|done]. Qed.
Lemma set_field_wf k x v : wf x → wf v → wf (set_field k x v).
Proof. destruct v; try done. intros. by apply map_insert_wf. Qed.
Lemma get_wf k v x : wf v → get k v = Some x → wf x.
Proof.
  destruct v as [| | | | |m]; try done. intros [_ Hf]%wf_object Hg%map_get_elem. rewrite Forall_forall in Hf. by apply (Hf (k, x)).
Qed.
Lemma array_wf v : wf v → Forall wf (array v).
Proof. destruct v; try (intros; constructor). apply wf_array. Qed.
Lemma field_wf k v : wf v → wf (field k v).
Proof. intros Hv. unfold field. destruct (get k v) eqn:Hg; [|done]. by eapply get_wf. Qed.
Lemma sync_field_wf k m x : wf m → sync_field k m = Some x → wf x.
Proof. intros Hm (s & Hs & Hx)%bind_Some. eapply get_wf; [|done]. by eapply get_wf. Qed.
(** The identity is a function of three texts. *)
Lemma interface_key_text v : interface_key v = (default "" (text "protocol" v), default "" (text "operation" v),
  match text "protocol_profile" v with Some p => Some p | None => default_profile (default "" (text "protocol" v)) end).
Proof. unfold interface_key, text, field. by destruct (get "protocol_profile" v). Qed.
Lemma interface_key_same v v' : (∀ k, k ∈ identity_fields → text k v' = text k v) → interface_key v' = interface_key v.
Proof. intros Ht. rewrite !interface_key_text, !Ht by set_solver. done. Qed.
(** One of the texts may come from an interface of the same identity. *)
Lemma interface_key_take v v' s k : interface_key s = interface_key v →
  (∀ k', k' ∈ identity_fields → k' ≠ k → text k' v' = text k' v) →
  (k ∈ identity_fields → text k v' = text k v ∨ text k v' = text k s) → interface_key v' = interface_key v.
Proof.
  intros Hs Ho Hk. destruct (decide (k ∈ identity_fields)) as [Hin|Hin].
  - destruct (Hk Hin) as [He|He].
    + apply interface_key_same. intros k' Hk'. destruct (decide (k' = k)); [congruence|auto].
    + rewrite !interface_key_text in *. injection Hs as Hp Hop Hpr.
      unfold identity_fields in Hin. repeat setoid_rewrite list.elem_of_cons in Hin.
      destruct Hin as [->|[->|[->|Hin]]]; [| | |by apply elem_of_nil in Hin].
      * rewrite (Ho "operation"), (Ho "protocol_profile"), He, Hp by (done || set_solver). done.
      * rewrite (Ho "protocol"), (Ho "protocol_profile"), He, Hop by (done || set_solver). done.
      * rewrite (Ho "protocol"), (Ho "operation"), He by (done || set_solver). by rewrite <-Hpr, Hp.
  - apply interface_key_same. intros k' Hk'. apply Ho; [done|]. by intros ->.
Qed.
Lemma new_interface_key source : interface_key (new_interface source) = interface_key source.
Proof.
  apply interface_key_same. intros k Hk. unfold new_interface, text, field.
  unfold identity_fields in Hk. repeat setoid_rewrite list.elem_of_cons in Hk.
  destruct Hk as [->|[->|[->|Hk]]]; [| | |by apply elem_of_nil in Hk]; destruct (get "protocol_profile" source); cbn; try done.
Qed.
Lemma new_record_key source owners : let key := interface_key source in
  interface_key (with_profile key (VObject [("protocol", VString key.1.1); ("operation", VString key.1.2); ("field_owners", owners)])) = key.
Proof.
  cbn zeta. rewrite interface_key_text. unfold with_profile. destruct (interface_key source) as [[p o] pr] eqn:Hk.
  rewrite interface_key_text in Hk. injection Hk as <- <- Hpr. cbn [snd fst].
  destruct pr as [pr|]; cbn; [done|]. f_equal. by destruct (text "protocol_profile" source).
Qed.
Lemma set_owners_key o v : interface_key (set_field "field_owners" o v) = interface_key v.
Proof.
  apply interface_key_same. intros k Hk. unfold text, field. destruct v; try done. cbn.
  rewrite map_get_insert, bool_decide_eq_false_2; [done|]. unfold identity_fields in Hk. set_solver.
Qed.

(** ** Interfaces *)

Section interfaces.
Context `{ExactNumber, JsonText, Rfc3339} (feed : string).

Lemma interface_owners_ok model source o : interface_owners model source = Ok o →
  claims (Some o) = interface_claims (interface_key source) model ∧ (wf model → wf o).
Proof.
  unfold interface_owners, interface_claims, record_of, records_of. destruct (sync_field _ model) as [r|] eqn:Hr.
  - intros (l & Hl%ok_or_ok & [= <-])%bind_ok. rewrite find_interface_key. destruct r as [| | | |l'|]; try done.
    injection Hl as ->. cbn [default from_option array as_array id]. split.
    + destruct (find_key _ l) as [x|]; cbn; [|done]. by destruct (get "field_owners" x).
    + intros Hm. destruct (find_key _ l) as [x|] eqn:Hx; cbn; [|exact wf_empty].
      destruct (get "field_owners" x) as [o|] eqn:Ho; [|exact wf_empty].
      apply (sync_field_wf _ _ _ Hm), wf_array in Hr. apply find_key_Some in Hx as [_ Hx].
      rewrite Forall_forall in Hr. by eapply get_wf; [apply Hr|].
  - intros [= <-]. split; [done|]. intros _. exact wf_empty.
Qed.
Lemma object_sync m s : object (VObject m) "sync" = Ok s →
  (∀ k, sync_field k (VObject m) = map_get k s) ∧ (wf (VObject m) → wf (VObject s)).
Proof.
  intros (m' & [= <-] & Hs%ok_or_ok)%bind_ok. split.
  - intros k. unfold sync_field. cbn. destruct (map_get "sync" m) as [v|]; cbn in Hs |- *; [destruct v; try done; by injection Hs as ->|].
    by injection Hs as <-.
  - intros Hm. destruct (map_get "sync" m) as [v|] eqn:Hg; cbn in Hs; [|injection Hs as <-; exact wf_empty].
    destruct v; try done. injection Hs as ->. by apply (get_wf "sync" (VObject m)).
Qed.
Lemma object_object v k s : object v k = Ok s → ∃ m, v = VObject m.
Proof. intros (m & Hm%ok_or_ok & _)%bind_ok. destruct v; try done. by eexists. Qed.
(** What storing the claims of an interface changes. *)
Record stored (source owners model model' : Value) : Prop := {
  stored_object : is_object model = true;
  stored_get k : k ≠ "sync" → get k model' = get k model;
  stored_sync k : k ≠ "interface_owners" → sync_field k model' = sync_field k model;
  stored_other key : key ≠ interface_key source → interface_claims key model' = interface_claims key model;
  stored_claims : interface_claims (interface_key source) model' = claims (Some owners) ∨
    interface_claims (interface_key source) model = [] ∧ interface_claims (interface_key source) model' = [];
  stored_wf : wf model → wf owners → wf model' }.
Lemma replace_record source owners l :
  let l' := match list_find (λ v, same_interface v source = true) l with
    | Some (i, record) => <[i := set_field "field_owners" owners record]> l
    | None =>
        let key := interface_key source in
        l ++ [with_profile key (VObject [("protocol", VString key.1.1); ("operation", VString key.1.2); ("field_owners", owners)])]
    end in
  (∀ key, key ≠ interface_key source → find_key key l' = find_key key l) ∧
  (claims (find_key (interface_key source) l' ≫= get "field_owners") = claims (Some owners) ∨
   claims (find_key (interface_key source) l ≫= get "field_owners") = [] ∧
   claims (find_key (interface_key source) l' ≫= get "field_owners") = []) ∧
  (Forall wf l → wf owners → Forall wf l').
Proof.
  cbn zeta. rewrite position_key. set (key := interface_key source). destruct (list_find _ l) as [[i r]|] eqn:Hf.
  - assert (interface_key r = key) as Hk by (by apply list_find_Some in Hf as (_ & ? & _)).
    pose proof (find_key_insert key i r l (set_field "field_owners" owners r) Hf ltac:(by rewrite set_owners_key)) as Hi.
    assert (find_key key l = Some r) as Hr by (unfold find_key; by rewrite Hf). split_and!.
    + intros k Hne. by rewrite Hi, decide_False by done.
    + rewrite Hi, decide_True, Hr by done. cbn. destruct (is_object r) eqn:Ho.
      * left. by rewrite get_set_field, bool_decide_eq_true_2 by done.
      * right. by destruct r.
    + intros Hl Ho. apply Forall_insert; [done|]. apply set_field_wf; [done|].
      apply list_find_Some in Hf as (Hi' & _). by eapply (Forall_lookup_1 _ _ _ _ Hl).
  - assert (find_key key l = None) as Hr by (unfold find_key; by rewrite Hf).
    pose proof (new_record_key source owners) as Hn. cbn zeta in Hn. fold key in Hn. split_and!.
    + intros k Hne. rewrite find_key_app, find_key_cons, Hn, decide_False by congruence. by destruct (find_key k l).
    + left. rewrite find_key_app, Hr, find_key_cons, Hn, decide_True by done. cbn.
      unfold with_profile. destruct key as [[p o] [pr|]]; done.
    + intros Hl Ho. apply Forall_app. split; [done|]. constructor; [|constructor].
      assert (wf (VObject [("protocol", VString key.1.1); ("operation", VString key.1.2); ("field_owners", owners)])) as Hv.
      { apply wf_object. split; [|by repeat constructor]. cbn. repeat constructor; set_solver. }
      unfold with_profile. fold key. destruct key.2; [by apply set_field_wf|done].
Qed.
Lemma store_ok model source owners model' : store_interface_owners model source owners = Ok model' →
  stored source owners model model'.
Proof.
  intros (s & Hs & (l & Hl%ok_or_ok & [= <-])%bind_ok)%bind_ok. destruct (object_object _ _ _ Hs) as [m ->].
  destruct (object_sync _ _ Hs) as [Hsync Hws].
  destruct (replace_record source owners l) as (Hother & Hclaims & Hwf). cbn zeta in *.
  set (l' := match list_find _ l with Some _ => _ | None => _ end) in *.
  assert (∀ k, sync_field k (set_field "sync" (VObject (map_insert "interface_owners" (VArray l') s)) (VObject m)) =
    if bool_decide (k = "interface_owners") then Some (VArray l') else sync_field k (VObject m)) as Hsync'.
  { intros k. rewrite Hsync. unfold sync_field. rewrite get_set_field, bool_decide_eq_true_2 by done. cbn.
    by rewrite map_get_insert. }
  assert (records_of (VObject m) = l) as Hr.
  { unfold records_of. rewrite Hsync. destruct (map_get _ s) as [v|]; cbn in Hl |- *; [|by injection Hl as <-].
    destruct v; try done. by injection Hl as <-. }
  split; [done|..].
  - intros k Hk. by rewrite get_set_field, bool_decide_eq_false_2.
  - intros k Hk. by rewrite Hsync', bool_decide_eq_false_2.
  - intros key Hk. unfold interface_claims, record_of. rewrite Hr. unfold records_of. rewrite Hsync', bool_decide_eq_true_2 by done.
    cbn [default from_option array as_array id]. by rewrite Hother.
  - unfold interface_claims, record_of. rewrite Hr. unfold records_of. rewrite Hsync', bool_decide_eq_true_2 by done. exact Hclaims.
  - intros Hm Ho. specialize (Hws Hm).
    apply set_field_wf; [|done]. apply map_insert_wf; [|done]. apply wf_array, Hwf; [|done].
    rewrite <-Hr. unfold records_of. rewrite Hsync. apply array_wf. destruct (map_get _ s) eqn:Hg; [|done]. by apply (get_wf "interface_owners" (VObject s)).
Qed.

(** A change of the interfaces and of their claims, by which the model is kept. *)
Lemma kept_by_interfaces model model' : is_object model = true →
  (∀ k, k ≠ "sync" → k ≠ "interfaces" → get k model' = get k model) →
  (∀ k, k ≠ "interface_owners" → sync_field k model' = sync_field k model) →
  (∀ key i, interface_of key model = Some i → wholly_owned feed i (interface_claims key model) ∨
    ∃ i', interface_of key model' = Some i' ∧ kept_in feed i (interface_claims key model) i' (interface_claims key model')) →
  kept feed model model'.
Proof.
  intros Hm Hg Hs Hk. assert (model_claims model' = model_claims model) as Hc by (unfold model_claims; by rewrite Hs).
  split; [unfold field; by rewrite Hg|by apply Hg|by apply Hs|rewrite Hc; apply foreign_kept_refl| |done].
  intros k q w Hin Hn Hq Hw. unfold reconciled_fields in Hin. rewrite Hc. split; [|done]. unfold at_field.
  rewrite Hg; [done|set_solver..].
Qed.
Lemma kept_by_interface model model' key : is_object model = true →
  (∀ k, k ≠ "sync" → k ≠ "interfaces" → get k model' = get k model) →
  (∀ k, k ≠ "interface_owners" → sync_field k model' = sync_field k model) →
  (∀ key' i, key' ≠ key → interface_of key' model = Some i →
    interface_of key' model' = Some i ∧ interface_claims key' model' = interface_claims key' model) →
  (∀ i, interface_of key model = Some i → ∃ i', interface_of key model' = Some i' ∧
    kept_in feed i (interface_claims key model) i' (interface_claims key model')) →
  kept feed model model'.
Proof.
  intros Hm Hg Hs Ho Hk. apply kept_by_interfaces; [done..|]. intros key' i Hi. right.
  destruct (decide (key' = key)) as [->|Hne]; [by apply Hk|].
  destruct (Ho _ _ Hne Hi) as [Hi' Hc']. exists i. rewrite Hc'. split; [done|apply kept_in_refl].
Qed.
(** The slot of an interface holds the one that its identity finds. *)
Definition slot_of (source model : Value) (slot : nat) (i : Value) : Prop :=
  list_find (λ v, interface_key v = interface_key source) (array (field "interfaces" model)) = Some (slot, i).
Lemma slot_interface source model slot i : slot_of source model slot i →
  interface_of (interface_key source) model = Some i ∧ interface_key i = interface_key source ∧
  array (field "interfaces" model) !! slot = Some i.
Proof.
  intros Hs. unfold interface_of, find_key. rewrite Hs. by apply list_find_Some in Hs as (? & ? & _).
Qed.
Lemma new_interface_wf source : wf source → wf (new_interface source).
Proof.
  intros Hsrc. unfold new_interface.
  assert (wf (VObject [("protocol", field "protocol" source); ("operation", field "operation" source)])).
  { apply wf_object. split; [cbn; repeat constructor; set_solver|].
    repeat (apply list.Forall_cons; split; [by apply field_wf|]); constructor. }
  destruct (get "protocol_profile" source) eqn:Hp; [|done]. apply set_field_wf; [exact (get_wf _ _ _ Hsrc Hp)|done].
Qed.
Lemma interface_slot_ok model source create model' slot : interface_slot model source create feed = Ok (model', slot) → wf model → wf source →
  kept feed model model' ∧ wf model' ∧ ∃ i, slot_of source model' slot i.
Proof.
  unfold interface_slot. intros (l & Hl%ok_or_ok & Hi)%bind_ok Hm Hsrc. rewrite position_key in Hi.
  assert (array (field "interfaces" model) = l) as Ha.
  { unfold field. destruct (get "interfaces" model) as [v|]; [|done]. destruct v; try done. by injection Hl as ->. }
  destruct (list_find _ l) as [[i v]|] eqn:Hf.
  { injection Hi as <- <-. split_and!; [apply kept_refl|done|]. exists v. unfold slot_of. by rewrite Ha. }
  apply bind_ok in Hi as ([] & _ & (o & Ho & (m2 & Hst%store_ok & [= <- <-])%bind_ok)%bind_ok).
  destruct Hst as [Hobj Hg Hsy Hother Hcl Hw].
  assert (is_object model = true) as Hom by (by destruct model).
  assert (get "interfaces" m2 = Some (VArray (l ++ [new_interface source]))) as Hi2
    by (rewrite Hg by done; by rewrite get_set_field, bool_decide_eq_true_2 by done).
  assert (find_key (interface_key source) l = None) as Hnone by (unfold find_key; by rewrite Hf).
  split_and!.
  - apply kept_by_interface with (key := interface_key source); [done|..].
    + intros k H1' H2'. rewrite Hg by done. by rewrite get_set_field, bool_decide_eq_false_2.
    + intros k Hk. rewrite Hsy by done. unfold sync_field. by rewrite get_set_field, bool_decide_eq_false_2.
    + intros key' i Hne Hk. unfold interface_of in *. rewrite Ha in Hk. unfold field. rewrite Hi2. cbn [default from_option array as_array id].
      rewrite find_key_app, Hk. split; [done|]. rewrite Hother by done. unfold interface_claims, record_of, records_of, sync_field.
      by rewrite get_set_field, bool_decide_eq_false_2.
    + intros i Hk. unfold interface_of in Hk. by rewrite Ha, Hnone in Hk.
  - assert (wf (set_field "interfaces" (VArray (l ++ [new_interface source])) model)) as Hm1.
    { apply set_field_wf; [|done]. apply wf_array, Forall_app. split; [|constructor; [by apply new_interface_wf|done]]. rewrite <-Ha. by apply array_wf, field_wf. }
    apply Hw; [done|]. apply interface_owners_ok in Ho as [_ Ho].
    assert (∀ o k, wf o → wf (claim_field source feed o k)) as Hclaim.
    { intros o' k Ho'. unfold claim_field. destruct (is_some _); [by apply set_field_wf|done]. }
    cbn [foldl identity_fields]. by do 3 apply Hclaim; apply Ho.
  - exists (new_interface source). unfold slot_of, field. rewrite Hi2. cbn [default from_option array as_array id].
    rewrite list_find_app_r by done. cbn [list_find]. rewrite decide_True by apply new_interface_key. cbn. repeat f_equal; lia.
Qed.

(** Storing an edited interface and its claims. *)
Lemma edit_slot source model slot i t o model' : wf model → slot_of source model slot i → wf t → wf o →
  interface_key t = interface_key i → kept_in feed i (interface_claims (interface_key source) model) t (claims (Some o)) →
  store_interface_owners (set_interface slot t model) source o = Ok model' → kept feed model model' ∧ wf model'.
Proof.
  intros Hm Hs Ht Ho Hkey [Hf Hsc] [Hobj Hg Hsy Hother Hcl Hw]%store_ok. set (key := interface_key source) in *.
  destruct (slot_interface _ _ _ _ Hs) as (Hi & Hik & _). fold key in Hi, Hik.
  assert (is_object model = true) as Hom by (by destruct model).
  assert (∀ k, interface_claims k (set_interface slot t model) = interface_claims k model) as Hic.
  { intros k. unfold interface_claims, record_of, records_of, sync_field, set_interface.
    by rewrite get_set_field, bool_decide_eq_false_2. }
  assert (∀ k, interface_of k model' = if decide (k = key) then Some t else interface_of k model) as Hof.
  { intros k. unfold interface_of at 1, field. rewrite Hg by done. unfold set_interface at 1.
    rewrite get_set_field, bool_decide_eq_true_2 by done. cbn [default from_option array as_array id].
    apply (find_key_insert key slot i); [exact Hs|by rewrite Hkey]. }
  split.
  - apply kept_by_interface with (key := key); [done|..].
    + intros k H1' H2'. rewrite Hg by done. unfold set_interface. by rewrite get_set_field, bool_decide_eq_false_2.
    + intros k Hk. rewrite Hsy by done. unfold sync_field, set_interface. by rewrite get_set_field, bool_decide_eq_false_2.
    + intros k j Hk Hj. by rewrite Hof, decide_False, Hother, Hic by done.
    + intros j Hj. rewrite Hof, decide_True by done. rewrite Hi in Hj. injection Hj as <-. exists t. split; [done|].
      rewrite Hic in Hcl. destruct Hcl as [->|[Hnil ->]]; [by split|]. rewrite Hnil in Hsc |- *.
      split; [apply foreign_kept_refl|]. intros q w Hn Hq Hw'. split; [|done]. by apply Hsc.
  - apply Hw; [|done]. apply set_field_wf; [|done]. apply wf_array, Forall_insert; [|done]. by apply array_wf, field_wf.
Qed.

Lemma update_kept path value v o ch s' : is_empty path = false → wf v → wf value →
  update feed path value (v, o, ch) = Ok s' →
  kept_in feed v (claims (Some o)) s'.1.1 (claims (Some s'.1.2)) ∧ wf s'.1.1 ∧ (wf o → wf s'.1.2) ∧
  ∃ ts, tokens path = Ok ts ∧ ts ≠ [] ∧
    (∀ k, head ts ≠ Some k → get k s'.1.1 = get k v) ∧
    ∀ k, head ts = Some k → text k s'.1.1 = text k v ∨ ts = [k] ∧ text k s'.1.1 = as_str value.
Proof.
  intros Hne Hv Hx Hu. destruct (update_cases _ _ _ _ _ _ _ Hu) as (_ & _ & m & _ & _ & -> & _).
  destruct (update_framed feed value Hx _ _ _ _ _ Hne Hv Hu) as (ts & m' & Ht & Hts & -> & Hf & Hk).
  split_and!; [by eapply framed_kept|by eapply framed_wf|by eapply framed_map|]. exists ts. split_and!; [done..|by apply (framed_get _ _ _ _ _ _ Hf)|].
  intros k Hh. destruct ts as [|k' us]; [done|]. injection Hh as ->. destruct us as [|t us].
  - destruct (Hk k eq_refl); auto.
  - left. by eapply (framed_text _ _ _ _ _ _ Hf).
Qed.
(** The fields of a source into the copy of its interface. *)
Lemma merge_field_ok t o ch name value s' : wf t → wf value → merge_field feed (t, o, ch) (name, value) = Ok s' →
  kept_in feed t (claims (Some o)) s'.1.1 (claims (Some s'.1.2)) ∧ wf s'.1.1 ∧ (wf o → wf s'.1.2) ∧
  interface_key s'.1.1 = interface_key t.
Proof.
  intros Ht Hx. cbn [merge_field]. destruct (one_of identity_fields name) eqn:Hid; [intros [= <-]; split_and!; [apply kept_in_refl|done..]|].
  intros Hu. destruct (update_kept ("/" +:+ name) _ _ _ _ _ eq_refl Ht Hx Hu) as (Hk & Hw & Ho & ts & Hts & _ & Hg & Htx).
  split_and!; [done..|]. apply interface_key_same. intros k Hin.
  destruct (decide (head ts = Some k)) as [Hh|Hh]; [|unfold text, field; by rewrite Hg].
  destruct (Htx _ Hh) as [|[-> _]]; [done|]. exfalso.
  apply tokens_ok in Hts as [Hp _]. cbn [spelled] in Hp. rewrite app_empty_r in Hp. injection Hp as ->.
  apply not_true_iff_false in Hid. apply Hid. unfold identity_fields in *. repeat setoid_rewrite list.elem_of_cons in Hin.
  destruct Hin as [->|[->|[->|Hin]]]; [done..|by apply elem_of_nil in Hin].
Qed.
Lemma merge_fields_ok fields t o ch s' : wf t → Forall (λ x, wf x.2) fields → try_fold (merge_field feed) (t, o, ch) fields = Ok s' →
  kept_in feed t (claims (Some o)) s'.1.1 (claims (Some s'.1.2)) ∧ wf s'.1.1 ∧ (wf o → wf s'.1.2) ∧
  interface_key s'.1.1 = interface_key t.
Proof.
  revert t o ch. induction fields as [|[name value] fields IH]; intros t o ch Ht Hf Hu.
  - injection Hu as <-. split_and!; [apply kept_in_refl|done..].
  - apply list.Forall_cons in Hf as [Hx Hf]. cbn [try_fold] in Hu. apply bind_ok in Hu as ([[t1 o1] ch1] & Hm & Hu).
    destruct (merge_field_ok _ _ _ _ _ _ Ht Hx Hm) as (Hk & Hw & Ho & Hkey). cbn [fst snd] in *.
    destruct (IH _ _ _ Hw Hf Hu) as (Hk' & Hw' & Ho' & Hkey'). split_and!; [by eapply kept_in_trans|done|auto|congruence].
Qed.
Lemma merge_interface_ok keys model ch source keys' model' ch' : wf model → wf source →
  merge_interface feed (keys, model, ch) source = Ok (keys', model', ch') →
  kept feed model model' ∧ wf model' ∧ keys' = {[interface_key source]} ∪ keys.
Proof.
  intros Hm Hsrc. cbn [merge_interface].
  intros ([] & _ & ([m1 slot] & Hslot & (o & Ho & (fields & Hf%ok_or_ok & ([[t o1] ch1] & Hu & (m2 & Hst & [= <- <- <-])%bind_ok)%bind_ok)%bind_ok)%bind_ok)%bind_ok)%bind_ok.
  destruct (interface_slot_ok _ _ _ _ _ Hslot Hm Hsrc) as (Hk & Hm1 & i & Hs).
  destruct (slot_interface _ _ _ _ Hs) as (Hi & Hik & Hsl). rewrite Hsl in Hu. cbn [default from_option id] in Hu.
  assert (wf i) as Hwi by (eapply (Forall_lookup_1 _ _ _ _ (array_wf _ (field_wf "interfaces" _ Hm1))); done).
  destruct (interface_owners_ok _ _ _ Ho) as [Hc Hwo]. destruct source as [| | | | |m0]; try done. injection Hf as <-.
  apply wf_object in Hsrc as Hsrc'. destruct Hsrc' as [_ Hsrc'].
  destruct (merge_fields_ok _ _ _ _ _ Hwi Hsrc' Hu) as (Hki & Hwt & Hwo' & Hkey). cbn [fst snd] in *. rewrite Hc in Hki.
  destruct (edit_slot _ _ _ _ _ _ _ Hm1 Hs Hwt (Hwo' (Hwo Hm1)) Hkey Hki Hst). split_and!; [by eapply kept_trans|done..].
Qed.

Lemma merge_all_ok values keys model ch keys' model' ch' : wf model → Forall wf values →
  try_fold (merge_interface feed) (keys, model, ch) values = Ok (keys', model', ch') →
  kept feed model model' ∧ wf model' ∧ ∀ k, k ∈ keys' ↔ k ∈ keys ∨ k ∈ interface_key <$> values.
Proof.
  revert keys model ch. induction values as [|s values IH]; intros keys model ch Hm Hv Hu.
  - injection Hu as <- <- <-. split_and!; [apply kept_refl|done|]. intros k. set_solver.
  - apply list.Forall_cons in Hv as [Hs Hv]. cbn [try_fold] in Hu. apply bind_ok in Hu as ([[keys1 m1] ch1] & Hm1 & Hu).
    destruct (merge_interface_ok _ _ _ _ _ _ _ Hm Hs Hm1) as (Hk & Hw & ->).
    destruct (IH _ _ _ Hw Hv Hu) as (Hk' & Hw' & Hkeys). split_and!; [by eapply kept_trans|done|].
    intros k. rewrite Hkeys. cbn. set_solver.
Qed.
Lemma all_owned_wholly fields o : all_owned feed fields o = true → wholly_owned feed (VObject fields) (claims (Some o)).
Proof.
  intros [Hf Ho]%andb_true_iff. destruct o as [| | | | |m]; try done. cbn in Ho. rewrite forallb_forall in Hf, Ho. split.
  - intros c g Hin%list_elem_of_In. by apply Ho, is_str_true in Hin.
  - intros q w Hq Hw Hn. destruct q as [|k us]; [by injection Hq as <-|]. rewrite at_path_object in Hq.
    destruct (map_get k fields) as [x|] eqn:Hg; [|done]. apply map_get_elem, list_elem_of_In, Hf in Hg. cbv beta iota in Hg.
    destruct (owner _ _) as [ow|] eqn:How; [|done]. apply bool_decide_eq_true in Hg as ->.
    apply (owner_owns feed m k us); [|done]. cbn [spelled]. by rewrite app_empty_r.
Qed.
Lemma removable_ok keys model existing removed : try_fold (removable feed keys model) ∅ existing = Ok removed →
  (∀ k, k ∈ removed → k ∉ keys) ∧
  ∀ i, i ∈ existing → interface_key i ∉ keys → wholly_owned feed i (interface_claims (interface_key i) model).
Proof.
  intros Hf. apply (try_fold_ind (removable feed keys model) (λ l r, (∀ k, k ∈ r → k ∉ keys) ∧
    ∀ i, i ∈ l → interface_key i ∉ keys → wholly_owned feed i (interface_claims (interface_key i) model))) in Hf; [done|..].
  - split; [set_solver|]. by intros i ?%elem_of_nil.
  - intros pre i r1 r2 _ _ [Hr Hp]. unfold removable. case_bool_decide as Hk.
    + intros [= <-]. split; [done|]. intros j [Hj| ->%list_elem_of_singleton]%elem_of_app; [auto|by intros []].
    + intros ([] & _ & (o & Ho & (m & Hm%ok_or_ok & ([] & Hc%ensure_ok & [= <-])%bind_ok)%bind_ok)%bind_ok)%bind_ok.
      split; [set_solver|]. intros j [Hj| ->%list_elem_of_singleton]%elem_of_app; [auto|]. intros _.
      destruct i; try done. injection Hm as ->. apply andb_true_iff in Hc as [Hc _].
      destruct (interface_owners_ok _ _ _ Ho) as [<- _]. by apply all_owned_wholly.
Qed.
Lemma find_key_joined key existing values joined : collect (λ source, ok_or (find_interface source existing) (invalid "Interface join failed")) values = Ok joined →
  key ∈ interface_key <$> values → find_key key joined = find_key key existing.
Proof.
  intros Hj%collect_ok. induction Hj as [|s j values joined Hs Hj IH]; [by intros ?%elem_of_nil|].
  apply ok_or_ok in Hs. rewrite find_interface_key in Hs. pose proof (find_key_Some _ _ _ Hs) as [Hkey _].
  rewrite find_key_cons. cbn. case_decide as Hd; [intros _; congruence|].
  intros [->|Hin]%elem_of_cons; [congruence|auto].
Qed.

(** The join of the observed interfaces with those of the model. *)
Lemma retain_ok (removed : gset InterfaceKey) m : is_object m = true → wf m → let m' := retain_records removed m in
  (∀ k, k ≠ "sync" → get k m' = get k m) ∧ (∀ k, k ≠ "interface_owners" → sync_field k m' = sync_field k m) ∧
  (∀ key, key ∉ removed → interface_claims key m' = interface_claims key m) ∧ wf m'.
Proof.
  intros Hom Hm. cbn zeta. unfold retain_records. destruct (get "sync" m) as [sync|] eqn:Hsync; [|done].
  destruct (get "interface_owners" sync ≫= as_array) as [records|] eqn:Hrec; [|done].
  apply bind_Some in Hrec as (rv & Hrv & Hrec). destruct rv as [| | | |l'|]; try done. injection Hrec as ->.
  assert (is_object sync = true) as Hos by (by destruct sync).
  assert (∀ k, sync_field k m = get k sync) as Hsk by (intros k; unfold sync_field; by rewrite Hsync).
  split_and!.
  - intros k Hk. by rewrite get_set_field, bool_decide_eq_false_2.
  - intros k Hk. rewrite Hsk. unfold sync_field. rewrite get_set_field, bool_decide_eq_true_2 by done. cbn [mbind option_bind].
    by rewrite get_set_field, bool_decide_eq_false_2.
  - intros key Hk. unfold interface_claims, record_of, records_of. rewrite Hsk, Hrv. unfold sync_field.
    rewrite get_set_field, bool_decide_eq_true_2 by done. cbn [mbind option_bind].
    rewrite get_set_field, bool_decide_eq_true_2 by done. cbn [default from_option array as_array id]. by rewrite find_key_filter.
  - apply set_field_wf; [|done]. pose proof (get_wf _ _ _ Hm Hsync) as Hws. apply set_field_wf; [|done].
    pose proof (get_wf _ _ _ Hws Hrv) as Hwr%wf_array. rewrite Forall_forall in Hwr.
    apply wf_array, Forall_forall. intros x Hx%list_elem_of_In%List.filter_In. destruct Hx as [Hx%list_elem_of_In _]. auto.
Qed.
Lemma joined_wf existing values joined : Forall wf existing →
  collect (λ source, ok_or (find_interface source existing) (invalid "Interface join failed")) values = Ok joined → Forall wf joined.
Proof.
  intros Hl Hj. apply Forall_forall. intros x Hx. apply collect_ok in Hj. apply list_elem_of_lookup in Hx as [n Hx].
  destruct (Forall2_lookup_r _ _ _ _ _ Hj Hx) as (s & _ & Hf%ok_or_ok). rewrite find_interface_key in Hf.
  apply find_key_Some in Hf as [_ Hf]. rewrite Forall_forall in Hl. auto.
Qed.
Lemma retain_kept (keys removed : gset InterfaceKey) values existing joined model : wf model →
  get "interfaces" model = Some (VArray existing) → (∀ k, k ∈ removed → k ∉ keys) →
  (∀ i, i ∈ existing → interface_key i ∉ keys → wholly_owned feed i (interface_claims (interface_key i) model)) →
  (∀ k, k ∈ keys → k ∈ interface_key <$> values) →
  collect (λ source, ok_or (find_interface source existing) (invalid "Interface join failed")) values = Ok joined →
  let model' := retain_records removed (set_field "interfaces" (VArray joined) model) in kept feed model model' ∧ wf model'.
Proof.
  intros Hm Ha Hr Hown Hkeys Hj. cbn zeta. set (m1 := set_field "interfaces" (VArray joined) model).
  assert (is_object model = true) as Hom by (by destruct model).
  assert (Forall wf existing) as Hwe by (by apply wf_array, (get_wf "interfaces" model)).
  assert (wf m1) as Hw1 by (apply set_field_wf; [by apply wf_array, (joined_wf existing values)|done]).
  destruct (retain_ok removed m1) as (Hg & Hs & Hc & Hw); [by destruct model|done|]. split; [|done].
  assert (∀ k, sync_field k m1 = sync_field k model) as Hs1
    by (intros k; unfold sync_field, m1; by rewrite get_set_field, bool_decide_eq_false_2).
  apply kept_by_interfaces; [done| | |].
  - intros k Hk Hi. rewrite Hg by done. unfold m1. by rewrite get_set_field, bool_decide_eq_false_2.
  - intros k Hk. by rewrite Hs, Hs1.
  - unfold interface_of, field. rewrite Hg, Ha by done. unfold m1. rewrite get_set_field, bool_decide_eq_true_2 by done.
    fold m1. cbn [default from_option array as_array id]. intros key i Hi. destruct (decide (key ∈ keys)) as [Hk|Hk].
    + right. exists i. split; [by rewrite (find_key_joined key _ _ _ Hj) by auto|]. rewrite Hc by (intros Hx; by apply (Hr key)).
      unfold interface_claims, record_of, records_of. rewrite Hs1. apply kept_in_refl.
    + left. apply find_key_Some in Hi as [<- Hin]. by apply Hown.
Qed.
Lemma merge_interfaces_ok new incoming model ch model' ch' : wf model → wf incoming →
  merge_interfaces feed new incoming (model, ch) = Ok (model', ch') → kept feed model model' ∧ wf model'.
Proof.
  intros Hm Hi. cbn [merge_interfaces]. intros (values & Hv%ok_or_ok & ([[keys m1] ch1] & Hf & Hrest)%bind_ok)%bind_ok.
  destruct incoming as [| | | |l|]; try done. injection Hv as ->. apply wf_array in Hi.
  destruct (merge_all_ok _ _ _ _ _ _ _ Hm Hi Hf) as (Hk & Hw & Hkeys).
  destruct new; [by injection Hrest as <- <-|].
  apply bind_ok in Hrest as (existing & He%ok_or_ok & Hrest).
  apply bind_ok in Hrest as (removed & Hr%removable_ok & (joined & Hj & [= <- <-])%bind_ok).
  destruct Hr as [Hr Hown]. unfold field in He. destruct (get "interfaces" m1) as [v|] eqn:Hg; [|done].
  destruct v as [| | | |l'|]; try done. injection He as ->.
  destruct (retain_kept keys removed values existing joined m1 Hw Hg Hr Hown) as [Hk' Hw']; [|done|].
  { intros k [Hin|?]%Hkeys; [set_solver|done]. }
  split; [by eapply kept_trans|done].
Qed.

(** ** Fields of an observed model *)

(** A decimal index is its own spelling, and [parse] reads it as [index] does. *)
Lemma escape_digits t : forallb is_digit (bytes t) = true → escape t = t.
Proof.
  induction t as [|a t IH]; [done|]. cbn [bytes forallb]. intros [Ha Ht]%andb_true_iff.
  rewrite escape_cons, !bool_decide_eq_false_2 by (by intros ->). cbn. by rewrite IH.
Qed.
Lemma parse_index t i : index t = Ok i → escape t = t ∧ parse_usize t = Some i.
Proof.
  intros Hi. pose proof Hi as (He & _ & Hd & ->)%index_ok. split; [by apply escape_digits|].
  unfold index in Hi. apply bind_ok in Hi as ([] & _ & ([] & Hb%ensure_ok & _)%bind_ok).
  unfold parse_usize. assert (strip_prefix "+" t = None) as ->.
  { destruct t as [|a t]; [done|]. cbn. case_bool_decide as Ha; [|done]. by subst a. }
  cbn [default from_option id]. rewrite He. unfold all_digits. rewrite Hd. cbn [negb orb]. by rewrite Hb.
Qed.
Lemma at_field_read observed k q v : read_parts observed (k :: q) = Ok (Some v) → is_object observed = true →
  ∃ x, get k observed = Some x ∧ read_parts x q = Ok (Some v).
Proof. destruct observed as [| | | | |m]; try done. cbn. destruct (map_get k m) as [x|]; [|done]. by exists x. Qed.
Lemma spelled_parts rest ts : "/" +:+ rest = spelled ts → split_on "/" rest = escape <$> ts.
Proof.
  destruct ts as [|t ts]; [done|]. cbn [spelled]. intros Hp.
  injection Hp as ->. apply split_render.
Qed.
Lemma spelled_split us relative : us ≠ [] → escape <$> us = split_on "/" relative → "/" +:+ relative = spelled us.
Proof. intros Hus He. rewrite render_join, He by done. cbn. f_equal. symmetry. apply (join_split_on "/"). Qed.
(** What is read below [/interfaces/idx/] is the field of the selected interface. *)
Lemma selector_field observed rest idx relative n source value :
  read observed ("/interfaces/" +:+ rest) = Ok (Some value) → split_once "/" rest = Some (idx, relative) →
  parse_usize idx = Some n → array (field "interfaces" observed) !! n = Some source →
  ∃ ts, tokens ("/" +:+ relative) = Ok ts ∧ read_parts source ts = Ok (Some value).
Proof.
  intros Hr [-> Hidx]%split_once_Some Hn Hs. apply bind_ok in Hr as (ts & [Hp Hsafe]%tokens_ok & Hr).
  change ("/interfaces/" +:+ idx +:+ String "/" relative) with ("/" +:+ "interfaces" +:+ String "/" (idx +:+ String "/" relative)) in Hp.
  apply spelled_parts in Hp. rewrite split_on_app, split_on_app in Hp by (done || (cbn; set_solver)).
  destruct ts as [|k [|i us]]; [done..|]. injection Hp as Hk Hi Hus.
  assert (k = "interfaces") as -> by (by apply (inj escape)).
  destruct observed as [| | | | |m]; try done. cbn in Hr. unfold field in Hs. cbn in Hs.
  destruct (map_get "interfaces" m) as [x|]; [|done]. destruct x as [| | | |l|]; try done. cbn in Hs, Hr.
  apply bind_ok in Hr as (j & Hj & Hr). destruct (parse_index _ _ Hj) as [He Hpj]. rewrite <-He, <-Hi in Hpj.
  rewrite Hn in Hpj. injection Hpj as <-. rewrite Hs in Hr. exists us. split; [|done].
  assert (us ≠ []) as Hne by (intros ->; by apply (split_on_not_nil "/" relative)).
  apply tokens_ok. split; [by apply spelled_split|]. by apply (safe_path_suffix ["interfaces"; i]).
Qed.
Lemma read_wf v ts x : wf v → read_parts v ts = Ok (Some x) → wf x.
Proof.
  revert v. induction ts as [|t ts IH]; intros v Hv; [by intros [= <-]|]. destruct v as [| | | |l|m]; try done; cbn.
  - intros (i & _ & Hr)%bind_ok. apply wf_array in Hv. destruct (l !! i) as [y|] eqn:Hi; [|done].
    eapply IH; [|done]. by eapply (Forall_lookup_1 _ _ _ _ Hv).
  - destruct (map_get t m) as [y|] eqn:Hg; [|done]. apply IH. by apply (get_wf t (VObject m)).
Qed.
Lemma identity_text k source value : k ∈ identity_fields → read_parts source [k] = Ok (Some value) → as_str value = text k source.
Proof.
  intros Hk. destruct source as [| | | |l|m]; try done; cbn.
  - unfold identity_fields in Hk. repeat setoid_rewrite list.elem_of_cons in Hk.
    destruct Hk as [->|[->|[->|Hk]]]; [done..|by apply elem_of_nil in Hk].
  - unfold text, field. cbn. destruct (map_get k m); [|done]. by intros [= ->].
Qed.
Lemma apply_interface_field_ok f observed rest value model ch model' ch' : wf model → wf observed →
  read observed ("/interfaces/" +:+ rest) = Ok (Some value) →
  apply_interface_field f feed observed rest value (model, ch) = Ok (model', ch') → kept feed model model' ∧ wf model'.
Proof.
  intros Hm Hobs Hr. cbn [apply_interface_field].
  intros ([idx relative] & Hsp%ok_or_ok & (n & Hn%ok_or_ok & (source & Hsrc%ok_or_ok & ([m1 slot] & Hslot & (o & Ho & ([[t o1] ch1] & Hu & (m2 & Hst & [= <- <-])%bind_ok)%bind_ok)%bind_ok)%bind_ok)%bind_ok)%bind_ok)%bind_ok.
  apply bind_Some in Hsrc as (l & Hl & Hsrc).
  assert (array (field "interfaces" observed) !! n = Some source) as Ha by (unfold array; by rewrite Hl).
  destruct (selector_field _ _ _ _ _ _ _ Hr Hsp Hn Ha) as (ts & Hts & Hrd).
  assert (wf source) as Hws by (eapply (Forall_lookup_1 _ _ _ _ (array_wf _ (field_wf "interfaces" _ Hobs))); done).
  destruct (interface_slot_ok _ _ _ _ _ Hslot Hm Hws) as (Hk & Hm1 & i & Hs).
  destruct (slot_interface _ _ _ _ Hs) as (Hi & Hik & Hsl). rewrite Hsl in Hu. cbn [default from_option id] in Hu.
  assert (wf i) as Hwi by (eapply (Forall_lookup_1 _ _ _ _ (array_wf _ (field_wf "interfaces" _ Hm1))); done).
  destruct (interface_owners_ok _ _ _ Ho) as [Hc Hwo].
  destruct (update_kept ("/" +:+ relative) _ _ _ _ _ eq_refl Hwi (read_wf _ _ _ Hws Hrd) Hu) as (Hki & Hwt & Hwo' & ts' & Hts' & Hne & Hg & Htx).
  cbn [fst snd] in *. rewrite Hts in Hts'. injection Hts' as <-. rewrite Hc in Hki.
  assert (interface_key t = interface_key i) as Hkey.
  { destruct ts as [|k us]; [done|]. apply (interface_key_take i t source k); [done|..].
    - intros k' _ Hk'. unfold text, field. rewrite Hg; [done|]. intros [= ->]. done.
    - intros Hid. destruct (Htx k eq_refl) as [|[[= ->] Hv]]; [by left|right]. by rewrite Hv, (identity_text k source). }
  destruct (edit_slot _ _ _ _ _ _ _ Hm1 Hs Hwt (Hwo' (Hwo Hm1)) Hkey Hki Hst). split; [by eapply kept_trans|done].
Qed.

(** What [domain] lets a mapping write. *)
Lemma domain_head path d k us : domain path = Ok d → tokens path = Ok (k :: us) →
  k ∉ ["sync"; "availability"] ∧ (k ∈ ["provider_model_id"; "canonical_id"] → us = []).
Proof.
  unfold domain. intros Hd Ht. rewrite Ht in Hd. cbn [mbind result_bind] in Hd. unfold domain_of in Hd.
  apply bind_ok in Hd as ([] & Hc%ensure_ok & Hd). split.
  - intros Hk. repeat setoid_rewrite list.elem_of_cons in Hk. destruct Hk as [->|[->|Hk]]; [done..|by apply elem_of_nil in Hk].
  - intros Hk. repeat setoid_rewrite list.elem_of_cons in Hk. destruct us as [|u us]; [done|].
    destruct Hk as [->|[->|Hk]]; [done..|by apply elem_of_nil in Hk].
Qed.
Lemma sync_alter_ok k x model model' : alter "sync" (map_insert k x) model = Ok model' → wf model → wf x →
  is_object model = true ∧ (∀ k', k' ≠ "sync" → get k' model' = get k' model) ∧
  (∀ k', sync_field k' model' = if bool_decide (k' = k) then Some x else sync_field k' model) ∧ wf model'.
Proof.
  intros (s & Hs & [= <-])%bind_ok Hwm Hx. destruct (object_object _ _ _ Hs) as [m ->].
  destruct (object_sync _ _ Hs) as [Hsync Hws].
  split_and!; [done|..].
  - intros k' Hk. by rewrite get_set_field, bool_decide_eq_false_2.
  - intros k'. rewrite Hsync. unfold sync_field. rewrite get_set_field, bool_decide_eq_true_2 by done. cbn. by rewrite map_get_insert.
  - apply set_field_wf; [|done]. apply map_insert_wf; auto.
Qed.

Definition special_path (path : string) : bool :=
  one_of ["/provider_model_id"; "/canonical_id"; "/interfaces"] path || is_some (strip_prefix "/interfaces/" path).
Lemma model_path path d k us : domain path = Ok d → tokens path = Ok (k :: us) → special_path path = false →
  k ∉ ["sync"; "availability"; "interfaces"; "provider_model_id"; "canonical_id"].
Proof.
  intros Hd Ht [Hs Hi]%orb_false_iff. destruct (domain_head _ _ _ _ Hd Ht) as [Hk Hid].
  apply tokens_ok in Ht as [-> _]. apply bool_decide_eq_false in Hs. intros Hin.
  repeat setoid_rewrite list.elem_of_cons in Hin. destruct Hin as [->|[->|[->|[->|[->|Hin]]]]]; [set_solver..| | | |by apply elem_of_nil in Hin].
  - destruct us as [|u us]; [apply Hs; set_solver|]. apply bool_decide_eq_false in Hi. by destruct Hi.
  - rewrite Hid in Hs by set_solver. apply Hs. set_solver.
  - rewrite Hid in Hs by set_solver. apply Hs. set_solver.
Qed.
Lemma apply_model_field_ok f path value model ch model' ch' : wf model → wf value → special_path path = false →
  apply_model_field f feed path value (model, ch) = Ok (model', ch') → kept feed model model' ∧ wf model'.
Proof.
  intros Hm Hx Hsp. cbn [apply_model_field].
  intros (d & Hd & ([] & _ & ([[t o] ch1] & Hu & (m2 & Ha & [= <- <-])%bind_ok)%bind_ok)%bind_ok)%bind_ok.
  assert (is_empty path = false) as Hne by (destruct path; [done|done]).
  destruct (update_cases _ _ _ _ _ _ _ Hu) as (_ & _ & m & _ & _ & Ho & _). rewrite Ho in Hu.
  assert (model_claims model = m) as Hmc.
  { unfold model_claims, claims. destruct (sync_field _ model); cbn in Ho |- *; [by subst|by injection Ho as <-]. }
  destruct (update_framed feed value Hx _ _ _ _ _ Hne Hm Hu) as (ts & m' & Ht & Hts & Ho' & Hf & _). cbn [fst snd] in *. subst o.
  destruct ts as [|k us]; [done|]. pose proof (model_path _ _ _ _ Hd Ht Hsp) as Hk.
  destruct Hf as [Fw Fo Fg _ Fm Ff _ Fs]. specialize (Fw Hm).
  assert (wf (VObject m)) as Hwm.
  { rewrite <-Ho. destruct (sync_field _ model) eqn:Hsf; cbn; [exact (sync_field_wf _ _ _ Hm Hsf)|exact wf_empty]. }
  destruct (sync_alter_ok _ _ _ _ Ha Fw (Fm Hwm)) as (Hot & Hg & Hs & Hw). split; [|done].
  assert (∀ k', k' ≠ "sync" → k' ≠ k → get k' m2 = get k' model) as Hget.
  { intros k' H1' H2'. rewrite Hg, Fg; [done| |done]. intros [= ->]. done. }
  assert (∀ k', k' ≠ "field_owners" → sync_field k' m2 = sync_field k' model) as Hsync.
  { intros k' Hk'. rewrite Hs, bool_decide_eq_false_2 by done. unfold sync_field. rewrite Fg; [done|]. cbn. intros [= ->]. set_solver. }
  assert (model_claims m2 = m') as Hmc' by (unfold model_claims; by rewrite Hs, bool_decide_eq_true_2).
  assert (∀ k', k' ∈ ["interfaces"; "provider_model_id"; "canonical_id"] → get k' m2 = get k' model) as Hids.
  { intros k' Hk'. apply Hget; [set_solver|]. intros ->. set_solver. }
  split.
  - unfold field. rewrite Hids; [done|set_solver].
  - apply Hids. set_solver.
  - by apply Hsync.
  - by rewrite Hmc, Hmc'.
  - intros k0 q w Hk0 Hn Hq Hw0. rewrite Hmc in Hn. unfold reconciled_fields in Hk0.
    assert (∀ v, is_object v = true → at_path v (k0 :: q) = at_field k0 q v) as Hat by (intros [| | | | |v]; try done; by rewrite at_path_object).
    destruct (Fs (k0 :: q) w Hm Hn) as [Hq' Hn']; [by rewrite Hat by congruence|done|]. rewrite Hmc'. split; [|done].
    rewrite Hat in Hq' by done. unfold at_field in *. rewrite Hg; [done|set_solver].
  - intros key i Hi. right. exists i. unfold interface_of, field, interface_claims, record_of, records_of in *.
    rewrite Hids, Hsync by (done || set_solver). split; [done|apply kept_in_refl].
Qed.
Lemma apply_field_ok f new observed path model ch model' ch' : wf model → wf observed → new = false ∨ path ≠ "/canonical_id" →
  apply_field f feed new observed (model, ch) path = Ok (model', ch') → kept feed model model' ∧ wf model'.
Proof.
  intros Hm Hobs Hnew. unfold apply_field. case_bool_decide as H1'; [intros [= <- <-]; split; [apply kept_refl|done]|].
  intros ([value|] & Hr & Ha)%bind_ok; [|injection Ha as <- <-; split; [apply kept_refl|done]].
  assert (wf value) as Hx by (pose proof Hr as (ts & _ & Hrd)%bind_ok; by eapply read_wf).
  case_bool_decide as H2'.
  { destruct Hnew as [->|]; [|done]. unfold apply_canonical in Ha. apply bind_ok in Ha as ([] & _ & [= <- <-]). split; [apply kept_refl|done]. }
  case_bool_decide as H3'; [exact (merge_interfaces_ok _ _ _ _ _ _ Hm Hx Ha)|].
  destruct (strip_prefix "/interfaces/" path) as [rest|] eqn:Hsp.
  - apply strip_prefix_Some in Hsp as ->. exact (apply_interface_field_ok _ _ _ _ _ _ _ _ Hm Hobs Hr Ha).
  - refine (apply_model_field_ok _ _ _ _ _ _ _ Hm Hx _ Ha). unfold special_path. rewrite Hsp. apply orb_false_iff. split; [|done].
    unfold one_of. apply bool_decide_eq_false. set_solver.
Qed.
Lemma apply_fields_ok f o model ch model' ch' : wf model → wf (observed_value o) →
  apply_fields f feed false o (model, ch) = Ok (model', ch') → kept feed model model' ∧ wf model'.
Proof.
  intros Hm Hobs (fields & _ & Hf)%bind_ok.
  apply (try_fold_inv _ (λ s : Value * Changes, kept feed model s.1 ∧ wf s.1)) in Hf; [done| |by split; [apply kept_refl|]].
  intros [m1 ch1] path [m2 ch2] _ [Hk Hw] Ha. cbn [fst] in *.
  destruct (apply_field_ok _ _ _ _ _ _ _ _ Hw Hobs (or_introl eq_refl) Ha). split; [by eapply kept_trans|done].
Qed.
End interfaces.
