(* ===== verification/RegistryTheorems.v ===== *)
(** What an accepted observation does to a provider
    ([crates/bitrouter-registry/src/reconcile.rs]): ownership, withdrawal and the order of the
    observations of a feed. *)
From Stdlib Require Import ZArith Lia Ascii QArith.
From stdpp Require Import base list strings gmap pretty sorting.
From S2P Require Import Prelude ExactInteger RegistryValue RegistryPricing RegistryMapping RegistryReconcile RegistryOwners RegistryKept.
Open Scope string_scope.
Open Scope list_scope.
Open Scope Z_scope.

Section provider.
Context `{ExactNumber, JsonText, Rfc3339}.

(** ** Marks of the observation *)

(** A change of the synchronisation state that leaves ownership alone. *)
Definition owner_fields : list string := ["owner"; "field_owners"; "interface_owners"].
Definition leaves_owners (f : Map → Map) : Prop := ∀ m, wf (VObject m) →
  wf (VObject (f m)) ∧ ∀ k, k ∈ owner_fields → map_get k (f m) = map_get k m.
Lemma leaves_insert k x f : k ∉ owner_fields → wf x → leaves_owners f → leaves_owners (λ m, map_insert k x (f m)).
Proof.
  intros Hk Hx Hf m [Hw Hg]%Hf. split; [by apply map_insert_wf|]. intros k' Hk'.
  rewrite map_get_insert, bool_decide_eq_false_2 by (intros ->; done). by apply Hg.
Qed.
Lemma leaves_remove k f : k ∉ owner_fields → leaves_owners f → leaves_owners (λ m, map_remove k (f m)).
Proof.
  intros Hk Hf m [Hw Hg]%Hf. destruct (map_remove_spec k (f m) Hw) as [Hw' Hr]. split; [done|]. intros k' Hk'.
  rewrite Hr, bool_decide_eq_false_2 by (intros ->; done). by apply Hg.
Qed.
Lemma leaves_id : leaves_owners (λ m, m). Proof. by intros m. Qed.
Lemma sync_kept feed f m s : object m "sync" = Ok s → wf m → leaves_owners f →
  kept feed m (set_field "sync" (VObject (f s)) m) ∧ wf (set_field "sync" (VObject (f s)) m).
Proof.
  intros Hs Hm Hf. destruct (object_object _ _ _ Hs) as [m' ->]. destruct (object_sync _ _ Hs) as [Hsync Hws].
  destruct (Hf s (Hws Hm)) as [Hw Hg]. split; [|by apply set_field_wf].
  apply kept_same.
  - intros k Hk. rewrite get_set_field, bool_decide_eq_false_2; [done|set_solver|done].
  - intros k Hk. rewrite Hsync. unfold sync_field. rewrite get_set_field, bool_decide_eq_true_2 by done. by apply Hg.
Qed.
Lemma availability_kept feed f m m' : alter "availability" f m = Ok m' → wf m →
  (∀ a, wf (VObject a) → wf (VObject (f a))) → kept feed m m' ∧ wf m'.
Proof.
  intros (a & Ha & [= <-])%bind_ok Hm Hf. destruct (object_object _ _ _ Ha) as [m0 ->]. split.
  - apply kept_same; [intros k Hk|intros k Hk; unfold sync_field];
      (rewrite get_set_field, bool_decide_eq_false_2; [done|set_solver|done]).
  - apply set_field_wf; [|done]. apply Hf. apply bind_ok in Ha as (m & [= <-] & Ha%ok_or_ok).
    destruct (map_get "availability" m0) as [v|] eqn:Hg; cbn in Ha; [|injection Ha as <-; exact wf_empty].
    destruct v; try done. injection Ha as ->. by apply (get_wf "availability" (VObject m0)).
Qed.
Lemma mark_seen_kept id feed stamp m m' : mark_seen feed stamp m = Ok m' → wf m → wf feed → kept id m m' ∧ wf m'.
Proof.
  intros (m1 & (s & Hs & [= <-])%bind_ok & Ha)%bind_ok Hm Hf.
  destruct (sync_kept id (λ sync, map_remove "missing_runs" (map_remove "missing_since" (map_insert "last_seen_at" (json_time (observed_at stamp)) sync))) m s Hs Hm) as [Hk Hw].
  { apply leaves_remove; [set_solver|]. apply leaves_remove; [set_solver|]. apply leaves_insert; [set_solver|done|apply leaves_id]. }
  destruct (availability_kept id _ _ _ Ha Hw) as [Hk' Hw'].
  { intros a Hwa. repeat apply map_insert_wf; try done; by repeat apply field_wf. }
  split; [by eapply kept_trans|done].
Qed.

(** ** The models of a provider *)


(** ** The accepted observation *)

Lemma insert_model_perm x l : insert_model x l ≡ₚ x :: l.
Proof.
  induction l as [|y l IH]; [done|]. cbn. destruct (name_cmp _ _); [done..|]. rewrite IH. apply Permutation_swap.
Qed.
Lemma sort_models_perm l : sort_models l ≡ₚ l.
Proof. induction l as [|x l IH]; [done|]. cbn. by rewrite insert_model_perm, IH. Qed.
(** *** What is reported

    Only the loop over the absent models withdraws, and only the checkpoint decides that nothing is done. *)
Definition same_report (c c' : Changes) : Prop := unchanged c' = unchanged c ∧ withdrawn c' = withdrawn c.
#[local] Instance same_report_po : PreOrder same_report.
Proof. split; [by intros c|]. intros c1 c2 c3 [H1' H2'] [H3 H4]. split; congruence. Qed.
Lemma put_report id path value prior owning s s' : put id path value prior owning s = Ok s' → same_report s.2 s'.2.
Proof.
  destruct s as [[v o] ch]. cbn [put]. intros ([] & _ & ([t c] & Ht & Ho)%bind_ok)%bind_ok.
  assert (same_report ch c) as Hc by (destruct (is_some_and _ prior); [by injection Ht as _ <-|by apply bind_ok in Ht as (t0 & _ & [= _ <-])]).
  destruct (_ && _); [by apply bind_ok in Ho as (m & _ & [= <-])|by injection Ho as <-].
Qed.
Lemma fold_report {A S} (f : S → A → result RegistryError S) (l : list A) (g : S → Changes) s s' :
  (∀ s x s', x ∈ l → f s x = Ok s' → same_report (g s) (g s')) → try_fold f s l = Ok s' → same_report (g s) (g s').
Proof.
  intros Hf Hfold. eapply (try_fold_inv f (λ s', same_report (g s) (g s'))); [|reflexivity|exact Hfold].
  intros s1 x s2 Hx Hs He. etrans; [done|]. by eapply Hf.
Qed.
Lemma update_report id path value s s' : update id path value s = Ok s' → same_report s.2 s'.2.
Proof.
  revert path s s'. induction value as [| | | |l _|fields IH] using value_nested; intros path [[v o] ch] s' Hu;
    destruct (update_cases _ _ _ _ _ _ _ Hu) as (prior & owning & m & _ & _ & -> & [[_ [Hs|Hs]]|(fields' & [[Hf Hs]|(_ & _ & Hs)])]);
    try (by rewrite Hs); try done; try exact (put_report _ _ _ _ _ _ _ Hs).
  injection Hf as <-. refine (fold_report _ _ snd _ _ _ Hs). intros s1 [k x] s2 Hin Hx.
  rewrite Forall_forall in IH. by apply (IH _ Hin _ _ _ Hx).
Qed.
Lemma merge_interfaces_report id new incoming s s' : merge_interfaces id new incoming s = Ok s' → same_report s.2 s'.2.
Proof.
  destruct s as [model ch]. cbn [merge_interfaces].
  intros (values & _ & ([[keys m1] ch1] & Hf & Hrest)%bind_ok)%bind_ok.
  assert (same_report ch ch1) as Hc.
  { refine (fold_report _ _ snd _ _ _ Hf). intros [[k1 m2] c1] source [[k3 m3] c3] _. cbn [merge_interface].
    intros ([] & _ & ([m4 slot] & _ & (o & _ & (fields & _ & ([[t o1] c4] & Hu & (m5 & _ & [= <- <- <-])%bind_ok)%bind_ok)%bind_ok)%bind_ok)%bind_ok)%bind_ok.
    refine (fold_report _ _ snd _ _ _ Hu). intros [[v o2] c5] [name value] s2 _. cbn [merge_field].
    destruct (one_of _ name); [by intros [= <-]|apply update_report]. }
  destruct new; [by injection Hrest as <-|]. apply bind_ok in Hrest as (existing & _ & Hrest).
  by apply bind_ok in Hrest as (removed & _ & (joined & _ & [= <-])%bind_ok).
Qed.
Lemma apply_fields_report f id new o s s' : apply_fields f id new o s = Ok s' → same_report s.2 s'.2.
Proof.
  intros (fields & _ & Hf)%bind_ok. refine (fold_report _ _ snd _ _ _ Hf). intros [model ch] path [model' ch'] _. unfold apply_field.
  case_bool_decide; [by intros [= _ <-]|]. intros ([value|] & Hr & Ha)%bind_ok; [|by injection Ha as _ <-].
  case_bool_decide.
  { unfold apply_canonical in Ha. destruct new; by apply bind_ok in Ha as (? & _ & [= _ <-]). }
  case_bool_decide; [exact (merge_interfaces_report _ _ _ _ _ Ha)|].
  destruct (strip_prefix "/interfaces/" path) as [rest|]; [cbn [apply_interface_field] in Ha|cbn [apply_model_field] in Ha].
  - apply bind_ok in Ha as ([idx relative] & _ & (n & _ & (source & _ & ([m1 slot] & _ & (o1 & _ & ([[t o2] ch1] & Hu & (m2 & _ & [= _ <-])%bind_ok)%bind_ok)%bind_ok)%bind_ok)%bind_ok)%bind_ok).
    exact (update_report _ _ _ _ _ Hu).
  - apply bind_ok in Ha as (d & _ & ([] & _ & ([[t o1] ch1] & Hu & (m2 & _ & [= _ <-])%bind_ok)%bind_ok)%bind_ok).
    exact (update_report _ _ _ _ _ Hu).
Qed.
Lemma observe_report f id membership stamp s o s' : observe f id membership stamp s o = Ok s' → same_report s.2 s'.2.
Proof.
  destruct s as [[models present] ch]. cbn [observe].
  intros (native & _ & ([] & _ & ([[slot m1] ch1] & Hp & (m2 & _ & [= <-])%bind_ok)%bind_ok)%bind_ok)%bind_ok. cbn [snd].
  unfold place in Hp. destruct (list_find _ models) as [[i m]|].
  - apply bind_ok in Hp as ([m' c] & Ha & [= _ _ <-]). exact (apply_fields_report _ _ _ _ _ _ Ha).
  - destruct membership; [|by injection Hp as _ _ <-]. apply bind_ok in Hp as ([m' c] & Ha & [= _ _ <-]).
    exact (apply_fields_report _ _ _ _ _ _ Ha).
Qed.

(** *** The stages *)

(** An observation that is not skipped. *)
Definition accepted (provider : Value) (id : string) (observation : Observation) (stamp : Stamp) (i : nat) (feed provider' : Value) (ch : Changes) : Prop :=
  ∃ before after feed' models present c1 c2,
    get "models" provider = Some (VArray before) ∧ validate_inventory feed (may_write "models" feed) = Ok tt ∧
    try_fold (observe feed id (may_write "models" feed) stamp) (before, ∅, Changes_default) (RegistryReconcile.models observation) = Ok (models, present, c1) ∧
    (if may_write "models" feed && is_str "snapshot" (field "mode" (field "inventory" feed))
     then withdraw_absent feed id stamp present (models, c1) else Ok (models, c1)) = Ok (after, c2) ∧
    store_checkpoint stamp feed = Ok feed' ∧ ch = sort_changes c2 ∧
    provider' = set_feed i feed' (set_field "models" (VArray (sort_models after)) provider).
Lemma apply_ok provider id observation stamp provider' ch : apply provider id observation stamp = Ok (provider', ch) →
  ∃ feeds i feed, feeds_of provider = Some feeds ∧ list_find (λ f, is_str id (field "id" f) = true) feeds = Some (i, feed) ∧
    (order feed stamp = Ok true ∧ provider' = provider ∧ unchanged ch = true ∧ withdrawn ch = [] ∨
     order feed stamp = Ok false ∧ accepted provider id observation stamp i feed provider' ch).
Proof.
  intros ([] & _ & (feeds & Hfs%ok_or_ok & ([i feed] & Hf%ok_or_ok & ([] & _ & (skip & Hs & Hr)%bind_ok)%bind_ok)%bind_ok)%bind_ok)%bind_ok.
  exists feeds, i, feed. split_and!; [done..|]. destruct skip; [left; by injection Hr as <- <-|right]. split; [done|].
  apply bind_ok in Hr as ([] & Hi & (before & Hm%ok_or_ok & ([[models present] c1] & Ho & ([after c2] & Hw & (feed' & Hc & [= <- <-])%bind_ok)%bind_ok)%bind_ok)%bind_ok).
  apply bind_Some in Hm as (v & Hm & Hv). destruct v as [| | | |l|]; try done. injection Hv as ->.
  by exists before, after, feed', models, present, c1, c2.
Qed.

Lemma feeds_wf provider feeds : wf provider → feeds_of provider = Some feeds → Forall wf feeds.
Proof.
  intros Hw (s & Hs & (f & Hf & Ha)%bind_Some)%bind_Some. destruct f; try done. injection Ha as ->.
  apply wf_array. eapply (get_wf "feeds" s); [|done]. by eapply (get_wf "auto_sync" provider).
Qed.
Lemma set_feed_models i feed l provider m : get "models" provider = Some m →
  field "models" (set_feed i feed (set_field "models" (VArray l) provider)) = VArray l.
Proof. destruct provider; try done. intros _. unfold set_feed, field. by rewrite !get_set_field by done. Qed.


(** *** Withdrawals *)

Definition same_name (m m' : Value) : Prop := field "provider_model_id" m' = field "provider_model_id" m.
Lemma canonical_name value model ch model' ch' : apply_canonical true value (model, ch) = Ok (model', ch') → wf model → wf value →
  same_name model model' ∧ wf model'.
Proof.
  intros (m & (ts & Ht & Hw)%write_ok & [= <- <-])%bind_ok Hm Hx. split; [|exact (write_parts_wf _ _ _ _ Hm Hx Hw)].
  unfold same_name, field. rewrite (edits_get _ _ _ (write_edits _ _ _ _ Hw)); [done|].
  assert (ts = ["canonical_id"]) as -> by (vm_compute in Ht; by injection Ht as <-). done.
Qed.
Lemma apply_fields_name f id new o model ch model' ch' : wf model → wf (observed_value o) →
  apply_fields f id new o (model, ch) = Ok (model', ch') → same_name model model' ∧ wf model'.
Proof.
  intros Hm Hobs Ha. destruct new; [|destruct (apply_fields_ok id _ _ _ _ _ _ Hm Hobs Ha) as [Hk Hw]; split; [apply (kept_name _ _ _ Hk)|done]].
  apply bind_ok in Ha as (fields & _ & Hf).
  apply (try_fold_inv _ (λ s : Value * Changes, same_name model s.1 ∧ wf s.1)) in Hf; [done| |done].
  intros [m1 c1] path [m2 c2] _ [Hn Hw] Hs. cbn [fst] in *. unfold same_name in *. rewrite <-Hn.
  destruct (decide (path = "/canonical_id")) as [->|Hc].
  - unfold apply_field in Hs. rewrite bool_decide_eq_false_2 in Hs by done.
    apply bind_ok in Hs as ([value|] & Hr & Hs); [|by injection Hs as <- <-].
    rewrite bool_decide_eq_true_2 in Hs by done. pose proof Hr as (ts & _ & Hrd)%bind_ok.
    exact (canonical_name _ _ _ _ _ Hs Hw (read_wf _ _ _ Hobs Hrd)).
  - destruct (apply_field_ok id _ _ _ _ _ _ _ _ Hw Hobs (or_intror Hc) Hs) as [Hk Hw']. split; [apply (kept_name _ _ _ Hk)|done].
Qed.
(** A model whose name was not observed is as it was. *)
Definition untouched (before : list Value) (models : list Value) (present : gset string) : Prop :=
  Forall (λ m, m ∈ before ∨ ∃ n, native_name m = Some n ∧ n ∈ present) models.
Lemma native_same m m' : same_name m m' → native_name m' = native_name m.
Proof. unfold same_name, native_name. by intros ->. Qed.
Lemma untouched_insert before models present i m : untouched before models present → (∃ n, native_name m = Some n ∧ n ∈ present) →
  untouched before (<[i := m]> models) present.
Proof. intros Hu Hm. apply Forall_insert; [done|by right]. Qed.
Lemma untouched_more before models present n : untouched before models present → untouched before models ({[n]} ∪ present).
Proof. intros Hu. eapply Forall_impl; [exact Hu|]. intros m [?|(k & ? & ?)]; [by left|right]. exists k. split; [done|set_solver]. Qed.
Lemma place_name f id membership o native models ch slot models' ch' : wf (observed_value o) → Forall wf models →
  place f id membership o native models ch = Ok (slot, models', ch') →
  Forall wf models' ∧ (models' = models ∧ slot = None ∨
    ∃ i m, slot = Some i ∧ models' !! i = Some m ∧ native_name m = Some native ∧ (models' = <[i := m]> models ∨ models' = models ++ [m])).
Proof.
  intros Ho Hw. unfold place. destruct (list_find _ models) as [[i m]|] eqn:Hf.
  - intros ([m' c] & Ha & [= <- <- <-])%bind_ok. apply list_find_Some in Hf as (Hi & Hn%is_str_true & _).
    destruct (apply_fields_name _ _ _ _ _ _ _ _ (Forall_lookup_1 _ _ _ _ Hw Hi) Ho Ha) as [Hs Hwm].
    split; [by apply Forall_insert|right]. exists i, m'. split_and!; [done| | |by left].
    + rewrite list_lookup_insert_eq; [done|by eapply lookup_lt_Some].
    + rewrite (native_same _ _ Hs). unfold native_name. by rewrite Hn.
  - destruct membership; [|intros [= <- <- <-]; split; [done|by left]].
    intros ([m' c] & Ha & [= <- <- <-])%bind_ok.
    assert (wf (new_model id native)) as Hwn.
    { apply wf_object. split; [cbn; repeat constructor; set_solver|]. repeat constructor; try done.
      all: cbn; repeat constructor; set_solver. }
    destruct (apply_fields_name _ _ _ _ _ _ _ _ Hwn Ho Ha) as [Hs Hwm].
    split; [apply Forall_app; by repeat constructor|right]. exists (length models), m'.
    rewrite list_lookup_middle by done. split_and!; [done|done| |by right]. by rewrite (native_same _ _ Hs).
Qed.
Lemma mark_seen_name feed stamp m m' : mark_seen feed stamp m = Ok m' → wf m → wf feed → same_name m m' ∧ wf m'.
Proof. intros Hs Hm Hf. destruct (mark_seen_kept EmptyString _ _ _ _ Hs Hm Hf) as [Hk Hw]. split; [apply (kept_name _ _ _ Hk)|done]. Qed.
Lemma observe_untouched f id membership stamp before models present ch o models' present' ch' : wf f → wf (observed_value o) →
  observe f id membership stamp (models, present, ch) o = Ok (models', present', ch') →
  Forall wf models → untouched before models present →
  Forall wf models' ∧ untouched before models' present' ∧ ∃ n, native_name (observed_value o) = Some n ∧ present' = {[n]} ∪ present.
Proof.
  intros Hf Ho. cbn [observe].
  intros (native & Hn%ok_or_ok & ([] & _ & ([[slot m1] ch1] & Hp & (m2 & Hs & [= <- <- <-])%bind_ok)%bind_ok)%bind_ok)%bind_ok Hw Hu.
  assert (Forall wf m2 ∧ untouched before m2 ({[native]} ∪ present)) as [Hw2 Hu2]; [|split_and!; [done..|by exists native]].
  destruct (place_name _ _ _ _ _ _ _ _ _ _ Ho Hw Hp) as [Hw1 [[-> ->]|(i & m & -> & Hi & Hnm & Hm1)]].
  { injection Hs as <-. split; [done|by apply untouched_more]. }
  assert (untouched before m1 ({[native]} ∪ present)) as Hu1.
  { assert (∃ k, native_name m = Some k ∧ k ∈ ({[native]} : gset string) ∪ present) as Hk by (exists native; split; [done|set_solver]).
    apply untouched_more with (n := native) in Hu. destruct Hm1 as [-> | ->]; [by apply untouched_insert|].
    apply Forall_app. split; [done|]. constructor; [by right|constructor]. }
  cbn [mbind option_bind] in Hs. rewrite Hi in Hs. cbn in Hs. destruct (membership && owned_by id m); [|by injection Hs as <-].
  apply bind_ok in Hs as (m' & Hmk & [= <-]). destruct (mark_seen_name _ _ _ _ Hmk (Forall_lookup_1 _ _ _ _ Hw1 Hi) Hf) as [Hsn Hwm].
  split; [by apply Forall_insert|]. apply untouched_insert; [done|]. exists native. rewrite (native_same _ _ Hsn). split; [done|set_solver].
Qed.
Lemma observe_all_untouched f id membership stamp before observation models present ch : wf f →
  Forall (λ o, wf (observed_value o)) observation → Forall wf before →
  try_fold (observe f id membership stamp) (before, ∅, Changes_default) observation = Ok (models, present, ch) →
  untouched before models present ∧ withdrawn ch = [] ∧
  ∀ o n, o ∈ observation → native_name (observed_value o) = Some n → n ∈ present.
Proof.
  intros Hf Ho Hb Hfold. split_and!.
  - apply (try_fold_inv _ (λ s : Applying, Forall wf s.1.1 ∧ untouched before s.1.1 s.1.2)) in Hfold; [by destruct Hfold| |].
    + intros [[ms pr] c] o [[ms' pr'] c'] Hin [Hw Hu] Hs. rewrite Forall_forall in Ho. cbn [fst snd] in *.
      destruct (observe_untouched _ _ _ _ _ _ _ _ _ _ _ _ Hf (Ho _ Hin) Hs Hw Hu) as (? & ? & _). done.
    + split; [done|]. apply Forall_forall. intros m Hm. by left.
  - assert (same_report Changes_default ch) as [_ ->]; [|done].
    apply (fold_report _ _ (λ s : Applying, s.2)) in Hfold; [done|]. intros s o s' _. apply observe_report.
  - apply (try_fold_ind (observe f id membership stamp) (λ pre (s : Applying), Forall (λ o, ∀ n, native_name (observed_value o) = Some n → n ∈ s.1.2) pre)) in Hfold.
    + rewrite Forall_forall in Hfold. intros o n Hin. by apply Hfold.
    + constructor.
    + intros pre o [[ms pr] c] [[ms' pr'] c'] _ _ IH Hs. cbn [fst snd] in *. cbn [observe] in Hs.
      apply bind_ok in Hs as (native & Hn%ok_or_ok & ([] & _ & ([[slot m1] ch1] & _ & (m2 & _ & [= _ <- _])%bind_ok)%bind_ok)%bind_ok).
      apply Forall_app. split; [eapply Forall_impl; [exact IH|]; intros o' Ho' n ?%Ho'; set_solver|].
      constructor; [|constructor]. intros n Hname. unfold native_name in Hname. rewrite Hn in Hname. injection Hname as <-. set_solver.
Qed.
(** The evidence for the withdrawal of a model. *)
Definition evidence (id : string) (stamp : Stamp) (required : Z) (hours : Q) (n : string) (m m' : Value) : Prop :=
  native_name m = Some n ∧ native_name m' = Some n ∧ owned_by id m = true ∧
  owner (sync_field "field_owners" m) "/status" = Ok (Some id) ∧ field "status" m' = VString "withdrawn" ∧
  ∃ count since, count = default 0 (sync_field "missing_runs" m ≫= integer) + 1 ∧ required ≤ count ∧
    Some since = match sync_field "missing_since" m with Some t => time_of_value t | None => Some (observed_at stamp) end ∧
    (hours <= RegistryReconcile.elapsed since (observed_at stamp))%Q.
Lemma absent_evidence id stamp required hours n m ch m' ch' : absent id stamp required hours n m ch = Ok (m', ch') →
  native_name m = Some n → owned_by id m = true →
  withdrawn ch' = withdrawn ch ∨ withdrawn ch' = withdrawn ch ++ [n] ∧ evidence id stamp required hours n m m'.
Proof.
  unfold absent. intros (s & Hs & ([count since] & Ha & Hr)%bind_ok)%bind_ok Hn Ho. cbv zeta beta iota in Hr.
  destruct (object_object _ _ _ Hs) as [m0 ->]. destruct (object_sync _ _ Hs) as [Hsync _].
  set (m1 := set_field "sync" _ (VObject m0)) in *. destruct (_ && _ && _) eqn:Hc; [|by injection Hr as _ <-; left].
  apply bind_ok in Hr as (o & How & ([] & Hd%ensure_ok%bool_decide_eq_true & [= <- <-])%bind_ok). subst o. right. split; [done|].
  apply andb_true_iff in Hc as [[Hcount%Z.leb_le Hel%Qle_bool_iff]%andb_true_iff _].
  unfold absence in Ha. apply bind_ok in Ha as (c & Hc%ok_or_ok%checked_add_Some & (t & Ht & ([] & _ & [= -> ->])%bind_ok)%bind_ok).
  assert (sync_field "field_owners" m1 = sync_field "field_owners" (VObject m0)) as Hsf.
  { rewrite Hsync. unfold sync_field, m1. rewrite get_set_field, bool_decide_eq_true_2 by done. cbn [mbind option_bind get].
    rewrite !map_get_insert, !bool_decide_eq_false_2 by done. done. }
  rewrite Hsf in How. split_and!; [done| |done|exact How|apply field_insert|].
  - unfold native_name, field in *. cbn [get] in *. by rewrite !map_get_insert, !bool_decide_eq_false_2 by done.
  - exists count, since. rewrite !Hsync. destruct Hc as [-> _]. split_and!; [done|done| |done].
    destruct (map_get "missing_since" s); [apply ok_or_ok in Ht; by rewrite Ht|by injection Ht as ->].
Qed.

Lemma withdraw_evidence feed id stamp present models ch models' ch' : withdraw_absent feed id stamp present (models, ch) = Ok (models', ch') →
  withdrawn ch = [] → ∃ hours, missing_hours (field "inventory" feed) = Ok hours ∧
  Forall (λ n, n ∉ present ∧ ∃ m m', m ∈ models ∧ m' ∈ models' ∧
    evidence id stamp (default 2 (get "missing_runs" (field "inventory" feed) ≫= integer)) hours n m m') (withdrawn ch').
Proof.
  cbn [withdraw_absent]. intros (hours & Hh & Hf)%bind_ok Hc. exists hours. split; [done|]. revert Hf.
  set (required := default 2 _). set (step := absent_step _ _ _ _ _). intros Hf.
  apply (try_fold_ind step (λ pre s, Forall (λ n, n ∉ present ∧ ∃ m m', m ∈ pre ∧ m' ∈ s.1 ∧ evidence id stamp required hours n m m') (withdrawn s.2))) in Hf; [done|cbn; rewrite Hc; constructor|].
  intros pre m [done1 c1] [done2 c2] _ _ IH Hs. subst step. cbn [absent_step fst snd] in *.
  assert (∀ x, Forall (λ n, n ∉ present ∧ ∃ m0 m', m0 ∈ pre ++ [m] ∧ m' ∈ done1 ++ [x] ∧ evidence id stamp required hours n m0 m') (withdrawn c1)) as IH'.
  { intros x. eapply Forall_impl; [exact IH|]. intros n (Hn & m0 & m' & ? & ? & ?). split; [done|]. exists m0, m'. set_solver. }
  apply bind_ok in Hs as (native & Hn%ok_or_ok & Hs). destruct (bool_decide (native ∈ present) || negb (owned_by id m)) eqn:Hb.
  { injection Hs as <- <-. apply IH'. }
  apply orb_false_iff in Hb as [Hb%bool_decide_eq_false Hown%negb_false_iff].
  apply bind_ok in Hs as ([m' c'] & Ha & [= <- <-]).
  destruct (absent_evidence _ _ _ _ _ _ _ _ _ Ha Hn Hown) as [Hw|[Hw He]]; rewrite Hw; [apply IH'|].
  apply Forall_app. split; [apply IH'|]. constructor; [|constructor]. split; [done|]. exists m, m'. set_solver.
Qed.
Lemma snapshot_inventory feed : validate_inventory feed true = Ok tt → is_str "snapshot" (field "mode" (field "inventory" feed)) = true →
  field "complete" (field "inventory" feed) = VBool true ∧ field "scope" (field "inventory" feed) = VString "public".
Proof.
  unfold validate_inventory. cbn [negb]. intros ([] & _ & ([] & _ & ([] & Hs%ensure_ok%negb_true_iff & _)%bind_ok)%bind_ok)%bind_ok Hm.
  rewrite Hm in Hs. cbn [andb] in Hs. apply orb_false_iff in Hs as [Hc%negb_false_iff Hp%negb_false_iff]. split; [|by apply is_str_true].
  destruct (field "complete" _); try done. cbn in Hc. by apply bool_decide_eq_true in Hc as ->.
Qed.

(** C15: A model that an observation withdraws was a member by the observing feed, whose inventory is a complete public
    snapshot; it was not observed, nor in as many runs before as the feed requires, for as many hours
    as it requires since the first of them; and the feed owns its status. *)
Theorem withdrawals_need_evidence provider id observation stamp provider' ch n : wf provider →
  Forall (λ o, wf (observed_value o)) (RegistryReconcile.models observation) →
  apply provider id observation stamp = Ok (provider', ch) → n ∈ withdrawn ch →
  ∃ feed m m' hours, let inventory := field "inventory" feed in
    feed ∈ default [] (feeds_of provider) ∧ field "id" feed = VString id ∧ may_write "models" feed = true ∧
    field "mode" inventory = VString "snapshot" ∧ field "complete" inventory = VBool true ∧ field "scope" inventory = VString "public" ∧
    Forall (λ o, native_name (observed_value o) ≠ Some n) (RegistryReconcile.models observation) ∧
    m ∈ array (field "models" provider) ∧ m' ∈ array (field "models" provider') ∧
    missing_hours inventory = Ok hours ∧
    evidence id stamp (default 2 (get "missing_runs" inventory ≫= integer)) hours n m m'.
Proof.
  intros Hw Ho (feeds & i & feed & Hfs & Hf & Hr)%apply_ok Hn.
  destruct Hr as [(_ & _ & _ & Hnil)|(_ & before & after & feed' & models & present & c1 & c2 & Hb & Hinv & Hfold & Habs & _ & -> & ->)].
  { rewrite Hnil in Hn. by apply elem_of_nil in Hn. }
  apply list_find_Some in Hf as (Hi & Hid%is_str_true & _).
  assert (wf feed) as Hwf by (eapply (Forall_lookup_1 _ _ _ _ (feeds_wf _ _ Hw Hfs)); done).
  destruct (observe_all_untouched _ _ _ _ _ _ _ _ _ Hwf Ho (proj1 (wf_array _) (get_wf _ _ _ Hw Hb)) Hfold) as (Hu & Hnil & Hpres).
  cbn [withdrawn sort_changes] in Hn.
  destruct (may_write "models" feed) eqn:Hmw; cbn [andb] in Habs; [|injection Habs as _ <-; rewrite Hnil in Hn; by apply elem_of_nil in Hn].
  destruct (is_str "snapshot" _) eqn:Hsnap; [|injection Habs as _ <-; rewrite Hnil in Hn; by apply elem_of_nil in Hn].
  destruct (snapshot_inventory _ Hinv Hsnap) as [Hcomp Hpub].
  destruct (withdraw_evidence _ _ _ _ _ _ _ _ Habs Hnil) as (hours & Hh & He). rewrite Forall_forall in He.
  destruct (He _ Hn) as (Hnp & m & m' & Hm & Hm' & Hev). exists feed, m, m', hours. cbv zeta.
  split_and!; try done; [rewrite Hfs; by eapply list_elem_of_lookup_2|by apply is_str_true| | |].
  - apply Forall_forall. intros o Hin Hname. by apply Hnp, (Hpres o).
  - unfold untouched in Hu. rewrite Forall_forall in Hu. destruct (Hu _ Hm) as [Hbef|(k & Hk & Hkp)].
    + unfold field. rewrite Hb. exact Hbef.
    + destruct Hev as (Hname & _). rewrite Hname in Hk. injection Hk as <-. done.
  - rewrite (set_feed_models _ _ _ _ _ Hb). cbn. by rewrite sort_models_perm.
Qed.

(** *** Checkpoints *)

Lemma order_false feed stamp : order feed stamp = Ok false → ∃ a, checkpoint_sequence feed = Ok a ∧
  a < sequence stamp ∧ 0 < sequence stamp ≤ MAX ∧ is_empty (stamp_id stamp) = false ∧
  (0 < a → ∃ t, time_of_value (field "observed_at" (field "checkpoint" feed)) = Some t ∧ before (observed_at stamp) t = false).
Proof.
  intros (a & Ha & ([] & Hs%ensure_ok%negb_true_iff & Hr)%bind_ok)%bind_ok. exists a.
  apply orb_false_iff in Hs as [[Hz%Z.eqb_neq Hmax%Z.ltb_ge]%orb_false_iff Hid].
  destruct (_ || _) eqn:Hskip; [done|]. apply orb_false_iff in Hskip as [Hlt%Z.ltb_ge Hrep].
  apply bind_ok in Hr as ([] & Hne%ensure_ok%negb_true_iff%Z.eqb_neq & ([] & Ht%ensure_ok%negb_true_iff & _)%bind_ok).
  assert (0 ≤ a).
  { unfold checkpoint_sequence in Ha. destruct (get "checkpoint" feed) as [v|]; [|by injection Ha as <-].
    apply bind_ok in Ha as ([] & _ & (n & _ & Hn)%ok_or_ok%bind_Some). destruct (0 <? n) eqn:Hn0; [|done].
    cbn in Hn. destruct (n <=? MAX); [|done]. injection Hn as ->. lia. }
  split_and!; [done|lia|lia|done|done|]. intros Hpos. rewrite (proj2 (Z.ltb_lt 0 a) Hpos) in Ht. cbn [andb] in Ht.
  destruct (time_of_value _) as [t|]; [|done]. by exists t.
Qed.
Lemma order_true feed stamp : order feed stamp = Ok true → ∃ a, checkpoint_sequence feed = Ok a ∧
  (sequence stamp < a ∨ sequence stamp = a ∧ is_replay stamp (field "checkpoint" feed) = true).
Proof.
  intros (a & Ha & ([] & _ & Hr)%bind_ok)%bind_ok. exists a. split; [done|].
  destruct (_ || _) eqn:Hskip; [|by apply bind_ok in Hr as (? & _ & (? & _ & ?)%bind_ok)].
  apply orb_true_iff in Hskip as [?%Z.ltb_lt|[?%Z.eqb_eq ?]%andb_true_iff]; [by left|right]. done.
Qed.
(** The checkpoint that an accepted observation leaves. *)
Lemma store_checkpoint_ok `{!Rfc3339Laws, !ExactNumberLaws} stamp feed feed' : store_checkpoint stamp feed = Ok feed' →
  0 < sequence stamp ≤ MAX → is_empty (stamp_id stamp) = false →
  checkpoint_sequence feed' = Ok (sequence stamp) ∧ is_replay stamp (field "checkpoint" feed') = true ∧
  time_of_value (field "observed_at" (field "checkpoint" feed')) = Some (observed_at stamp) ∧
  ∀ k, k ≠ "checkpoint" → get k feed' = get k feed.
Proof.
  intros (c & Hc & [= <-])%bind_ok Hs Hid. destruct (object_object _ _ _ Hc) as [m ->].
  set (c' := map_insert "observed_at" _ _). set (feed' := set_field _ _ _).
  assert (get "checkpoint" feed' = Some (VObject c')) as Hg by (unfold feed'; by rewrite get_set_field, bool_decide_eq_true_2 by done).
  assert (field "checkpoint" feed' = VObject c') as Hfc by (unfold field; by rewrite Hg).
  assert (field "observed_at" (VObject c') = json_time (observed_at stamp)) as Ht by apply field_insert.
  assert (field "id" (VObject c') = VString (stamp_id stamp)) as Hi by (unfold field, c'; cbn [get]; by rewrite !map_get_insert).
  assert (field "sequence" (VObject c') = json_u64 (sequence stamp)) as Hn by (unfold field, c'; cbn [get]; by rewrite !map_get_insert).
  assert (time_of_value (json_time (observed_at stamp)) = Some (observed_at stamp)) as Htime by apply timestamp_written.
  assert (integer (json_u64 (sequence stamp)) = Some (sequence stamp)) as Hint.
  { apply integer_printed. unfold in_u64, u64_max. unfold MAX in Hs. lia. }
  split_and!.
  - unfold checkpoint_sequence. rewrite Hg, Hi, Ht, Hn, Htime, Hint. cbn [as_str is_none_or from_option]. rewrite Hid. cbn.
    rewrite (proj2 (Z.ltb_lt 0 _)), (proj2 (Z.leb_le _ MAX)) by lia. done.
  - unfold is_replay. rewrite Hfc, Hi, Ht, Htime. unfold is_str. by rewrite !bool_decide_eq_true_2.
  - by rewrite Hfc, Ht.
  - intros k Hk. unfold feed'. by rewrite get_set_field, bool_decide_eq_false_2.
Qed.
Lemma set_feed_feeds i feed l provider feeds : feeds_of provider = Some feeds →
  feeds_of (set_feed i feed (set_field "models" l provider)) = Some (<[i := feed]> feeds) ∧
  ∀ k, k ∉ ["models"; "auto_sync"] → get k (set_feed i feed (set_field "models" l provider)) = get k provider.
Proof.
  intros (s & Hs & (f & Hf & Ha)%bind_Some)%bind_Some. destruct f as [| | | |l'|]; try done. injection Ha as ->.
  assert (is_object provider = true) as Ho by (by destruct provider). assert (is_object s = true) as Hos by (by destruct s).
  assert (is_object (set_field "models" l provider) = true) as Ho' by (by destruct provider).
  assert (get "auto_sync" (set_field "models" l provider) = Some s) as Hs' by (by rewrite get_set_field, bool_decide_eq_false_2).
  unfold set_feed, field at 1 2 3. rewrite Hs'. cbn [default from_option id]. rewrite Hf. cbn [default from_option id array as_array]. split.
  - unfold feeds_of. rewrite get_set_field, bool_decide_eq_true_2 by done. cbn [mbind option_bind].
    by rewrite get_set_field, bool_decide_eq_true_2.
  - intros k Hk. rewrite !get_set_field, !bool_decide_eq_false_2; [done|set_solver..| |]; done.
Qed.
Lemma withdraw_unchanged feed id stamp present s s' : withdraw_absent feed id stamp present s = Ok s' → unchanged s'.2 = unchanged s.2.
Proof.
  destruct s as [models ch]. cbn [withdraw_absent snd]. intros (hours & _ & Hf)%bind_ok.
  apply (try_fold_inv _ (λ s : list Value * Changes, unchanged s.2 = unchanged ch)) in Hf; [done| |done].
  intros [done1 c1] m [done2 c2] _ IH. cbn [absent_step snd] in *. intros (native & _ & Hs)%bind_ok.
  destruct (_ || _); [by injection Hs as _ <-|]. apply bind_ok in Hs as ([m' c'] & Ha & [= _ <-]). rewrite <-IH.
  apply bind_ok in Ha as (sync & _ & ([count since] & _ & Hr)%bind_ok). cbv zeta beta iota in Hr.
  destruct (_ && _ && _); [|by injection Hr as _ <-]. by apply bind_ok in Hr as (o & _ & ([] & _ & [= _ <-])%bind_ok).
Qed.

(** The checkpoint of a feed only advances. An observation that is older than the checkpoint, or is the one it
    records, changes nothing; an accepted one is newer in sequence, leaves the checkpoint with its
    sequence, by which its replay is skipped and no later one with an older sequence or time is accepted, and
    changes no other feed and no other field of its own or of the provider. *)
Theorem checkpoint_only_advances `{!Rfc3339Laws, !ExactNumberLaws} provider id observation stamp provider' ch :
  apply provider id observation stamp = Ok (provider', ch) →
  ∃ feeds i feed a, feeds_of provider = Some feeds ∧ list_find (λ f, is_str id (field "id" f) = true) feeds = Some (i, feed) ∧
    checkpoint_sequence feed = Ok a ∧
    (unchanged ch = true ∧ provider' = provider ∧
       (sequence stamp < a ∨ sequence stamp = a ∧ is_replay stamp (field "checkpoint" feed) = true) ∨
     unchanged ch = false ∧ a < sequence stamp ∧ ∃ feed',
       feeds_of provider' = Some (<[i := feed']> feeds) ∧ checkpoint_sequence feed' = Ok (sequence stamp) ∧
       order feed' stamp = Ok true ∧
       (∀ later, order feed' later = Ok false → sequence stamp < sequence later ∧ before (observed_at later) (observed_at stamp) = false) ∧
       (∀ k, k ≠ "checkpoint" → get k feed' = get k feed) ∧
       ∀ k, k ∉ ["models"; "auto_sync"] → get k provider' = get k provider).
Proof.
  intros (feeds & i & feed & Hfs & Hf & Hr)%apply_ok. exists feeds, i, feed.
  destruct Hr as [(Ho & -> & Hu & _)|(Ho & before & after & feed' & models & present & c1 & c2 & Hb & _ & Hfold & Habs & Hst & -> & ->)].
  { destruct (order_true _ _ Ho) as (a & Ha & Hs). exists a. split_and!; [done..|]. left. done. }
  destruct (order_false _ _ Ho) as (a & Ha & Hlt & Hseq & Hid & _). exists a. split_and!; [done..|]. right.
  destruct (store_checkpoint_ok _ _ _ Hst Hseq Hid) as (Hcs & Hrep & Htime & Hget).
  destruct (set_feed_feeds i feed' (VArray (sort_models after)) provider feeds Hfs) as [Hfeeds Hother].
  split_and!; [|done|exists feed'; split_and!; try done].
  - cbn [unchanged sort_changes]. apply (fold_report _ _ (λ s : Applying, s.2)) in Hfold; [|intros s o s' _; apply observe_report].
    destruct Hfold as [Hu _]. cbn [snd] in Hu.
    destruct (_ && _); [by apply withdraw_unchanged in Habs; cbn [snd] in Habs; rewrite Habs|by injection Habs as _ <-].
  - rewrite <-Hrep. unfold order. rewrite Hcs. cbn [mbind result_bind].
    rewrite Hid, Z.ltb_irrefl, Z.eqb_refl, (proj2 (Z.eqb_neq _ 0)), (proj2 (Z.ltb_ge MAX _)), Hrep by lia. done.
  - intros later (b & Hb' & Hlt' & _ & _ & Hto)%order_false. rewrite Hcs in Hb'. injection Hb' as <-. split; [done|].
    destruct (Hto ltac:(lia)) as (t & Ht & Hbef). rewrite Htime in Ht. by injection Ht as <-.
Qed.
End provider.
