(* ===== verification/BlockTypes.v ===== *)
(** Policy blocks: the persisted records of the evolution control, and their validation
    ([apps/gateway/routing/blocks/control.rs], [blocks/control/revisions.rs],
    [blocks/allocation.rs], [apps/core/evolution/bandit.rs] for the monitoring plan). *)
From stdpp Require Import base list strings gmap sorting.
From Stdlib Require Import ZArith Lia Ascii SpecFloat.
From S2P Require Import Prelude.
Open Scope Z_scope.

(** ** The allocation contract *)

Definition LEARNER_VERSION : string := "checkpoint-normal-inverse-gamma-ts-v3".
Definition PPM : Z := 1000000.
Inductive Arm := Baseline | Challenger.
#[export] Instance Arm_eq_dec : EqDecision Arm. Proof. solve_decision. Defined.
Inductive Recommendation := Explore | Hold | Promote | Rollback.
#[export] Instance Recommendation_eq_dec : EqDecision Recommendation. Proof. solve_decision. Defined.

Definition is_finite (f : spec_float) : bool :=
  match f with S754_infinity _ | S754_nan => false | _ => true end.
Definition f64_zero : spec_float := S754_zero false.
Definition f64_one : spec_float := S754_finite false 4503599627370496 (-52).

Record MeanPrior := { prior_mean : spec_float; strength : spec_float; observation_variance : spec_float }.
Definition MeanPrior_validate (p : MeanPrior) : result string unit :=
  ensure (is_finite (prior_mean p) && is_finite (strength p) && SFltb f64_zero (strength p) &&
          is_finite (observation_variance p) && SFltb f64_zero (observation_variance p))
    "normal prior parameters must be finite with positive precision and variance".
Record ArmPrior := { quality : MeanPrior; log_cost : MeanPrior; log_latency : MeanPrior }.

Record BanditConfig := {
  prior_version : string; baseline_prior : ArmPrior; challenger_prior : ArmPrior;
  minimum_quality_ppm : Z; noninferiority_margin_ppm : Z; maximum_latency_increase_ppm : Z;
  promotion_probability_ppm : Z; minimum_families_per_arm : Z; initial_exposure_ppm : Z;
  maximum_exposure_ppm : Z; minimum_exposure_ppm : Z; maximum_pending_challenger : Z;
  maximum_challenger_sessions : Z; posterior_draws : Z; recent_guard_families : Z;
  recent_guard_minimum_families : Z }.
Definition validate_arm (p : ArmPrior) : result string unit :=
  _ ← MeanPrior_validate (quality p);
  _ ← MeanPrior_validate (log_cost p);
  _ ← MeanPrior_validate (log_latency p);
  ensure (SFleb f64_zero (prior_mean (quality p)) && SFleb (prior_mean (quality p)) f64_one)
    "quality prior mean is outside [0, 1]".
Definition BanditConfig_validate (c : BanditConfig) : result string unit :=
  _ ← ensure (negb (trim_is_empty (prior_version c))) "prior provenance is required";
  _ ← for_each validate_arm [baseline_prior c; challenger_prior c];
  _ ← ensure ((minimum_quality_ppm c <=? PPM) && (noninferiority_margin_ppm c <=? PPM) &&
              (PPM / 2 <? promotion_probability_ppm c) && (promotion_probability_ppm c <? PPM))
    "invalid quality or promotion threshold";
  _ ← ensure ((0 <? minimum_exposure_ppm c) && (minimum_exposure_ppm c <=? initial_exposure_ppm c) &&
              (initial_exposure_ppm c <=? maximum_exposure_ppm c) && (maximum_exposure_ppm c <? PPM))
    "exposure must retain both baseline and trial coverage";
  ensure ((0 <? minimum_families_per_arm c) && (0 <? maximum_pending_challenger c) &&
          (0 <? maximum_challenger_sessions c) && (0 <? recent_guard_minimum_families c) &&
          (recent_guard_minimum_families c <=? recent_guard_families c) &&
          ((128 <=? posterior_draws c) && (posterior_draws c <=? 1000000)))
    "invalid observation or simulation limits".

Record MeanPosterior := {
  posterior_mean : spec_float; variance : spec_float; degrees_of_freedom : spec_float;
  student_scale : spec_float; observation_variance_mean : spec_float; observed_families : Z }.
Record ArmPosterior := {
  posterior_quality : MeanPosterior; posterior_log_cost : MeanPosterior;
  posterior_log_latency : MeanPosterior; assigned_sessions : Z; incomplete_sessions : Z;
  severe_sessions : Z; arithmetic_mean_cost_micro_usd : option spec_float;
  recent_quality : MeanPosterior }.
Record BatchPlan := {
  learner_version : string; plan_id : string; evidence_digest : string;
  plan_contract : string; config_digest : string; seed : Z;
  challenger_propensity_ppm : Z; joint_benefit_probability_ppm : Z; monte_carlo_lower_ppm : Z;
  recent_quality_harm_probability_ppm : Z; baseline_posterior : ArmPosterior;
  challenger : ArmPosterior; excluded_mixed_families : Z; recommendation : Recommendation;
  plan_reason : string }.
Record MonitoringPlan := {
  version : string; monitor_evidence : string; monitor_config : string; monitor_contract : string;
  sessions : Z; recent_families : Z; incomplete_recent_families : Z;
  monitor_quality : MeanPosterior; monitor_severe : Z; probability_below_floor_ppm : Z;
  monitor_lower_ppm : Z; rollback : bool; monitor_reason : string }.
Definition MONITOR_VERSION : string := "checkpoint-adoption-quality-monitor-v1".

(** ** Blocks *)

Inductive EvolutionMode := Off | Manual | Automatic.
#[export] Instance EvolutionMode_eq_dec : EqDecision EvolutionMode. Proof. solve_decision. Defined.
Inductive BlockStatus := Exploring | Adopted | RolledBack | Paused.
#[export] Instance BlockStatus_eq_dec : EqDecision BlockStatus. Proof. solve_decision. Defined.

Record BlockRule := {
  selector : string; fingerprint : option string; baseline_route : string; challenger_route : string }.
(** What a rule matches. *)
Definition matcher (r : BlockRule) : string * option string := (selector r, fingerprint r).
Record BlockDefinition := {
  block_id : string; source : string; rationale : string; rules : list BlockRule;
  independence_rationale : string; dependencies : gmap string string;
  measurement_contract : string; batch_sessions : Z; bandit : BanditConfig }.

Definition overlap (left right : BlockRule) : bool :=
  bool_decide (selector left = selector right) &&
  (bool_decide (fingerprint left = None) || bool_decide (fingerprint right = None) ||
   bool_decide (fingerprint left = fingerprint right)).

(** The loop over the rules, [keys] being the matchers inserted so far. *)
Definition validate_rule (keys : gset (string * option string)) (r : BlockRule) :
    result string (gset (string * option string)) :=
  _ ← ensure (negb (trim_is_empty (selector r)) && negb (trim_is_empty (baseline_route r)) &&
              negb (trim_is_empty (challenger_route r))) "block rule routes must be nonempty";
  _ ← ensure (is_none_or (λ f, negb (trim_is_empty f)) (fingerprint r)) "empty fingerprint";
  _ ← ensure (negb (bool_decide (matcher r ∈ keys))) "duplicate rule matcher";
  Ok ({[matcher r]} ∪ keys).
Fixpoint disjoint_rules (l : list BlockRule) : bool :=
  match l with
  | [] => true
  | r :: l => negb (existsb (overlap r) l) && disjoint_rules l
  end.
Definition BlockDefinition_validate (d : BlockDefinition) : result string unit :=
  _ ← ensure (negb (trim_is_empty (block_id d)) && negb (trim_is_empty (source d)) &&
              negb (trim_is_empty (rationale d)) && negb (trim_is_empty (independence_rationale d)) &&
              negb (trim_is_empty (measurement_contract d)))
    "block identity, rationale and measurement contract are required";
  _ ← ensure (negb (bool_decide (rules d = []))) "a block needs at least one rule";
  _ ← ensure ((1 <=? batch_sessions d) && (batch_sessions d <=? 10000)) "invalid batch size";
  _ ← try_fold validate_rule ∅ (rules d);
  _ ← ensure (disjoint_rules (rules d)) "overlapping rules within a block";
  _ ← ensure (existsb (λ r, negb (bool_decide (baseline_route r = challenger_route r))) (rules d))
    "challenger must change a route";
  _ ← ensure (negb (bool_decide (is_Some (dependencies d !! block_id d))))
    "a block cannot depend on itself";
  BanditConfig_validate (bandit d).

Record EnrollmentBatch := { sequence : Z; members : gmap string Arm; closed : bool }.
Definition EnrollmentBatch_default : EnrollmentBatch := {| sequence := 0; members := ∅; closed := false |}.
Record TrialAllocation := {
  t_assignment_sequence : Z; t_batch_sequence : Z; t_arm : Arm; t_propensity_ppm : Z }.
Record BlockState := {
  definition : BlockDefinition; revision : string; parent_revision : option string;
  experiment_id : string; predecessor_experiment_id : option string;
  baseline_ancestry : list string; status : BlockStatus; plan : option BatchPlan;
  routing_config_digest : string; batch : EnrollmentBatch;
  assigned_challenger_sessions : Z; last_exposure_ppm : Z }.
#[export] Instance BlockRule_eq_dec : EqDecision BlockRule. Proof. solve_decision. Defined.

Definition outstanding_challenger_reservations (b : BlockState) : Z :=
  match plan b with
  | None => assigned_challenger_sessions b
  | Some p => incomplete_sessions (challenger p) +|
      (assigned_challenger_sessions b -| assigned_sessions (challenger p))
  end.

Record Publication := {
  pub_generation : Z; pub_block_id : string; pub_experiment_id : option string;
  previous_revision : string; pub_revision : string; action : string;
  pub_evidence : option string; operator_reason : option string; recorded_at : string }.
#[export] Instance Publication_eq_dec : EqDecision Publication. Proof. solve_decision. Defined.
Record ArchivedExperiment := { arch_block : BlockState; superseded_by : string; retired_at : string }.
Record ControlState := {
  mode : EvolutionMode; mode_epoch : Z; feedback_started_at : option string;
  trial_epoch : Z; trial_started_at : option string; generation : Z;
  judge_model : option string; blocks : gmap string BlockState;
  archived_experiments : gmap string ArchivedExperiment; publications : list Publication;
  next_assignment_sequence : Z }.
Definition ControlState_default : ControlState :=
  {| mode := Off; mode_epoch := 0; feedback_started_at := None; trial_epoch := 0;
     trial_started_at := None; generation := 0; judge_model := None; blocks := ∅;
     archived_experiments := ∅; publications := []; next_assignment_sequence := 0 |}.

(** ** Digests

    The values that the control digests: tuples and records that [serde_json] writes and [sha2]
    hashes. Both are other crates; writing these types cannot fail. *)
Inductive Digested :=
| D_definition (d : BlockDefinition)
| D_config (version : string) (c : BanditConfig)
| D_registered (d : BlockDefinition) (routing_digest : string)
| D_experiment (tag revision : string) (mode_epoch : Z)
| D_revised (tag previous : string) (d : BlockDefinition) (routing_digest : string) (ancestry : list string)
| D_strings (l : list string).
Class BlockJson := to_vec : Digested → string.
Definition digest `{Sha256, BlockJson} (value : Digested) : string := sha256_hex (to_vec value).
Definition BanditConfig_digest `{Sha256, BlockJson} (c : BanditConfig) : string :=
  digest (D_config LEARNER_VERSION c).

(** [rng.random_range(0..PPM)] of a [StdRng] with this seed, from the crate [rand]. *)
Class SeededDraw := random_ppm : Z → Z.
Definition draw_assignment `{SeededDraw} (propensity seed : Z) : result string Arm :=
  _ ← ensure (propensity <=? PPM) "invalid assignment probability";
  Ok (if random_ppm seed <? propensity then Challenger else Baseline).
