(* ===== verification/BlockControl.v ===== *)
(** The evolution control: one document per owner, the policy blocks with their experiments and
    the log of publications ([impl ControlState] of [apps/gateway/routing/blocks/control.rs],
    [blocks/control/revisions.rs], [apps/core/evolution/control.rs], [control/restoration.rs] and
    [control/revisions.rs], and the callers of [apps/core/evolution/service.rs] that hold its row).

    An operation gets the document and returns the new one; on an error its callers drop what it
    wrote, so an error carries none. [clock i] is the [i]-th reading of the clock by the call. *)
From stdpp Require Import base list strings gmap sorting.
From Stdlib Require Import ZArith Lia Ascii.
From S2P Require Import Prelude BlockTypes.
Open Scope Z_scope.

(** ** Updates of one field *)

Definition with_blocks (m : gmap string BlockState) (st : ControlState) : ControlState :=
  {| mode := mode st; mode_epoch := mode_epoch st; feedback_started_at := feedback_started_at st;
     trial_epoch := trial_epoch st; trial_started_at := trial_started_at st; generation := generation st;
     judge_model := judge_model st; blocks := m; archived_experiments := archived_experiments st;
     publications := publications st; next_assignment_sequence := next_assignment_sequence st |}.
Definition with_archived (m : gmap string ArchivedExperiment) (st : ControlState) : ControlState :=
  {| mode := mode st; mode_epoch := mode_epoch st; feedback_started_at := feedback_started_at st;
     trial_epoch := trial_epoch st; trial_started_at := trial_started_at st; generation := generation st;
     judge_model := judge_model st; blocks := blocks st; archived_experiments := m;
     publications := publications st; next_assignment_sequence := next_assignment_sequence st |}.
Definition with_publications (g : Z) (l : list Publication) (st : ControlState) : ControlState :=
  {| mode := mode st; mode_epoch := mode_epoch st; feedback_started_at := feedback_started_at st;
     trial_epoch := trial_epoch st; trial_started_at := trial_started_at st; generation := g;
     judge_model := judge_model st; blocks := blocks st; archived_experiments := archived_experiments st;
     publications := l; next_assignment_sequence := next_assignment_sequence st |}.
Definition with_sequence (n : Z) (st : ControlState) : ControlState :=
  {| mode := mode st; mode_epoch := mode_epoch st; feedback_started_at := feedback_started_at st;
     trial_epoch := trial_epoch st; trial_started_at := trial_started_at st; generation := generation st;
     judge_model := judge_model st; blocks := blocks st; archived_experiments := archived_experiments st;
     publications := publications st; next_assignment_sequence := n |}.
(** A new revision whose parent is the present one. *)
Definition with_revision (r : string) (b : BlockState) : BlockState :=
  {| definition := definition b; revision := r; parent_revision := Some (revision b);
     experiment_id := experiment_id b; predecessor_experiment_id := predecessor_experiment_id b;
     baseline_ancestry := baseline_ancestry b; status := status b; plan := plan b;
     routing_config_digest := routing_config_digest b; batch := batch b;
     assigned_challenger_sessions := assigned_challenger_sessions b;
     last_exposure_ppm := last_exposure_ppm b |}.
Definition with_status (s : BlockStatus) (b : BlockState) : BlockState :=
  {| definition := definition b; revision := revision b; parent_revision := parent_revision b;
     experiment_id := experiment_id b; predecessor_experiment_id := predecessor_experiment_id b;
     baseline_ancestry := baseline_ancestry b; status := s; plan := plan b;
     routing_config_digest := routing_config_digest b; batch := batch b;
     assigned_challenger_sessions := assigned_challenger_sessions b;
     last_exposure_ppm := last_exposure_ppm b |}.
Definition with_plan (p : BatchPlan) (b : BlockState) : BlockState :=
  {| definition := definition b; revision := revision b; parent_revision := parent_revision b;
     experiment_id := experiment_id b; predecessor_experiment_id := predecessor_experiment_id b;
     baseline_ancestry := baseline_ancestry b; status := status b; plan := Some p;
     routing_config_digest := routing_config_digest b; batch := batch b;
     assigned_challenger_sessions := assigned_challenger_sessions b;
     last_exposure_ppm := last_exposure_ppm b |}.
Definition with_batch (e : EnrollmentBatch) (assigned exposure : Z) (b : BlockState) : BlockState :=
  {| definition := definition b; revision := revision b; parent_revision := parent_revision b;
     experiment_id := experiment_id b; predecessor_experiment_id := predecessor_experiment_id b;
     baseline_ancestry := baseline_ancestry b; status := status b; plan := plan b;
     routing_config_digest := routing_config_digest b; batch := e;
     assigned_challenger_sessions := assigned; last_exposure_ppm := exposure |}.
Definition close (e : EnrollmentBatch) : EnrollmentBatch :=
  {| sequence := sequence e; members := members e; closed := true |}.

(** ** Reading: experiments and baselines *)

(** [self.blocks.values().chain(self.archived_experiments.values().map(|a| &a.block))] *)
Definition all_blocks (st : ControlState) : list BlockState :=
  (sorted_entries (blocks st)).*2 ++ (arch_block ∘ snd <$> sorted_entries (archived_experiments st)).
Definition archived_of (st : ControlState) (id e : string) : option BlockState :=
  a ← archived_experiments st !! e;
  if bool_decide (block_id (definition (arch_block a)) = id) then Some (arch_block a) else None.
Definition experiment (st : ControlState) (id : string) (e : option string) : option BlockState :=
  current ← blocks st !! id;
  match e with
  | None => Some current
  | Some e => if bool_decide (experiment_id current = e) then Some current else archived_of st id e
  end.
(** The experiment that an update finds: unlike [experiment], it needs no current block of
    the id. *)
Definition experiment_mut (st : ControlState) (id e : string) : option BlockState :=
  if is_some_and (λ b, bool_decide (experiment_id b = e)) (blocks st !! id) then blocks st !! id
  else archived_of st id e.
Definition external_dependencies_match (st : ControlState) (b : BlockState) : bool :=
  forallb (λ '(id, r), is_some_and (λ b', bool_decide (revision b' = r)) (blocks st !! id))
    (sorted_entries (dependencies (definition b))).
(** An ancestor that still supports its descendants. *)
Definition supported (st : ControlState) (ancestor : BlockState) : bool :=
  bool_decide (status ancestor = Adopted) && external_dependencies_match st ancestor.
Definition baseline_valid (st : ControlState) (b : BlockState) : bool :=
  forallb (λ e, is_some_and (supported st) (experiment st (block_id (definition b)) (Some e)))
    (baseline_ancestry b).
Definition dependencies_match (st : ControlState) (b : BlockState) : bool :=
  external_dependencies_match st b && baseline_valid st b.

(** The walk of [baseline_source] along the ancestry; [ancestry] is what it has passed. *)
Fixpoint baseline_walk (st : ControlState) (b : BlockState) (ancestry rest : list string) :
    result string (BlockState * list string) :=
  match rest with
  | [] => Ok (b, ancestry)
  | e :: rest =>
      ancestor ← ok_or (experiment st (block_id (definition b)) (Some e)) "baseline ancestor missing";
      if supported st ancestor then baseline_walk st b (ancestry ++ [e]) rest
      else Ok (ancestor, ancestry)
  end.
Definition baseline_source (st : ControlState) (b : BlockState) : result string (BlockState * list string) :=
  baseline_walk st b [] (baseline_ancestry b).

(** The loop of [original_experiment], which the set [seen] ends: [None] stands for fuel that
    did not suffice. *)
Fixpoint original_loop (fuel : nat) (st : ControlState) (id : string) (b : BlockState) (seen : gset string) :
    option (result string BlockState) :=
  match fuel with
  | O => None
  | S fuel =>
      match predecessor_experiment_id b with
      | None => Some (Ok b)
      | Some previous =>
          if bool_decide (previous ∈ seen) then Some (Err "cyclic experiment history")
          else match experiment st id (Some previous) with
               | None => Some (Err "experiment predecessor missing")
               | Some b => original_loop fuel st id b ({[previous]} ∪ seen)
               end
      end
  end.
(** Every turn but the last passes another experiment of the archive, or the present one. *)
Definition original_fuel (st : ControlState) : nat := S (S (S (size (archived_experiments st)))).
Definition original_experiment (st : ControlState) (id : string) : result string BlockState :=
  b ← ok_or (blocks st !! id) "unknown policy block";
  default (Err "out of fuel") (original_loop (original_fuel st) st id b ∅).

(** ** Writing one experiment *)

(** [self.experiment_mut(..).ok_or(..)?] followed by the assignment of its fields. *)
Definition update_experiment (st : ControlState) (id e : string) (f : BlockState → BlockState) :
    option ControlState :=
  if is_some_and (λ b, bool_decide (experiment_id b = e)) (blocks st !! id) then
    Some (with_blocks (alter f id (blocks st)) st)
  else
    _ ← archived_of st id e;
    Some (with_archived (alter (λ a, {| arch_block := f (arch_block a); superseded_by := superseded_by a;
                                        retired_at := retired_at a |}) e (archived_experiments st)) st).
(** The increment of the generation and the push that every publication makes. *)
Definition publish (id e previous new act : string) (evidence reason : option string) (now : string)
    (st : ControlState) : result string ControlState :=
  g ← ok_or (generation st +? 1) "publication generation overflow";
  Ok (with_publications g (publications st ++
    [{| pub_generation := g; pub_block_id := id; pub_experiment_id := Some e;
        previous_revision := previous; pub_revision := new; action := act;
        pub_evidence := evidence; operator_reason := reason; recorded_at := now |}]) st).

Section control.
Context `{Sha256, BlockJson, SeededDraw}.

(** ** Mode *)

Definition set_mode (clock : nat → string) (new_mode : EvolutionMode) (model : option string)
    (st : ControlState) : result string ControlState :=
  _ ← ensure (is_none_or (λ m, negb (trim_is_empty m)) model) "judge model cannot be empty";
  let judge := match model with Some m => Some m | None => judge_model st end in
  _ ← ensure (negb (bool_decide (new_mode = Automatic)) || is_some judge)
    "automatic mode requires a configured judge model";
  if negb (bool_decide (new_mode = mode st)) || negb (bool_decide (judge_model st = judge)) ||
     (negb (bool_decide (new_mode = Off)) && bool_decide (feedback_started_at st = None))
  then
    epoch ← ok_or (mode_epoch st +? 1) "mode epoch overflow";
    let switched := xorb (bool_decide (new_mode = Off)) (bool_decide (mode st = Off)) in
    trial ← (if switched then ok_or (trial_epoch st +? 1) "trial epoch overflow" else Ok (trial_epoch st));
    g ← ok_or (generation st +? 1) "publication generation overflow";
    let on i := if bool_decide (new_mode = Off) then None else Some (clock i) in
    Ok {| mode := new_mode; mode_epoch := epoch;
          feedback_started_at := on (if switched then 1%nat else 0%nat);
          trial_epoch := trial; trial_started_at := if switched then on 0%nat else trial_started_at st;
          generation := g; judge_model := judge; blocks := blocks st;
          archived_experiments := archived_experiments st; publications := publications st;
          next_assignment_sequence := next_assignment_sequence st |}
  else
    Ok {| mode := mode st; mode_epoch := mode_epoch st; feedback_started_at := feedback_started_at st;
          trial_epoch := trial_epoch st; trial_started_at := trial_started_at st; generation := generation st;
          judge_model := judge; blocks := blocks st; archived_experiments := archived_experiments st;
          publications := publications st; next_assignment_sequence := next_assignment_sequence st |}.

(** ** Registration *)

Definition check_dependencies (st : ControlState) (d : BlockDefinition) : result string unit :=
  for_each (λ '(id, r),
    ensure (is_some_and (λ b, bool_decide (revision b = r)) (blocks st !! id))
      "block dependency revision is unavailable") (sorted_entries (dependencies d)).
Definition overlaps_with (d : BlockDefinition) (other : BlockState) : bool :=
  bool_decide (source (definition other) = source d) &&
  existsb (λ a, existsb (overlap a) (rules (definition other))) (rules d).
(** The experiment that a registration starts. *)
Definition registered_id (st : ControlState) (d : BlockDefinition) (config : string) : string :=
  digest (D_experiment "block-experiment-v1" (digest (D_registered d config)) (mode_epoch st)).
Definition register (d : BlockDefinition) (config : string) (st : ControlState) : result string ControlState :=
  _ ← BlockDefinition_validate d;
  _ ← ensure (negb (is_some (blocks st !! block_id d)))
    "block already exists; use a new experiment revision";
  _ ← ensure (forallb (λ r, bool_decide (baseline_route r = selector r)) (rules d))
    "cold start must inherit the current route";
  _ ← for_each (λ other, ensure (negb (overlaps_with d other))
    "policy blocks have overlapping matchers") (sorted_entries (blocks st)).*2;
  _ ← check_dependencies st d;
  g ← ok_or (generation st +? 1) "publication generation overflow";
  let b := {| definition := d; revision := digest (D_registered d config); parent_revision := None;
              experiment_id := registered_id st d config; predecessor_experiment_id := None;
              baseline_ancestry := []; status := Exploring; plan := None;
              routing_config_digest := config; batch := EnrollmentBatch_default;
              assigned_challenger_sessions := 0;
              last_exposure_ppm := initial_exposure_ppm (bandit d) |} in
  Ok (with_publications g (publications st) (with_blocks (<[block_id d := b]> (blocks st)) st)).

(** ** Withdrawal *)

Definition withdraw (ancestor : string) (b : BlockState) : BlockState :=
  with_status RolledBack
    (with_revision (digest (D_strings [revision b; "baseline_withdrawn"; ancestor])) b).
Definition descends_from (ancestor : string) (b : BlockState) : bool :=
  bool_decide (ancestor ∈ baseline_ancestry b).
(** One turn of the loop over the affected experiments. *)
Definition withdraw_step (clock : nat → string) (ancestor : string) (st : ControlState)
    (x : nat * (string * string)) : result string ControlState :=
  let '(i, (id, e)) := x in
  b ← ok_or (experiment_mut st id e) "descendant experiment missing";
  st' ← ok_or (update_experiment st id e (withdraw ancestor)) "descendant experiment missing";
  publish id e (revision b) (revision (withdraw ancestor b)) "inherited_baseline_withdrawn" None None
    (clock i) st'.
Definition affected (ancestor : string) (st : ControlState) : list (string * string) :=
  (λ b, (block_id (definition b), experiment_id b)) <$> List.filter (descends_from ancestor) (all_blocks st).
Definition withdraw_descendants (clock : nat → string) (ancestor : string) (st : ControlState) :
    result string ControlState :=
  try_fold (withdraw_step clock ancestor) st (imap pair (affected ancestor st)).

(** ** Plans *)

Definition contract_matches (b : BlockState) (version contract config : string) (expected : string) : bool :=
  bool_decide (version = expected) && bool_decide (config = BanditConfig_digest (bandit (definition b))) &&
  bool_decide (contract = measurement_contract (definition b)).
(** The plan that the block holds already, unless it is a promotion that became ready meanwhile. *)
Definition same_plan (b : BlockState) (p : BatchPlan) (cohort_resolved archived : bool) (old : BatchPlan) : bool :=
  bool_decide (evidence_digest old = evidence_digest p) &&
  bool_decide (learner_version old = learner_version p) &&
  bool_decide (config_digest old = config_digest p) &&
  bool_decide (plan_contract old = plan_contract p) &&
  negb (bool_decide (status b = Exploring) && bool_decide (recommendation old = Promote) &&
        bool_decide (recommendation p = Promote) && closed (batch b) && cohort_resolved && negb archived).
(** The [match] on the recommendation: the block after it, and the action. *)
Definition enact (b : BlockState) (p : BatchPlan) (cohort_resolved archived : bool) :
    result string (BlockState * string) :=
  let ready := closed (batch b) && cohort_resolved in
  match recommendation p with
  | Rollback => Ok (with_status RolledBack b, "rollback")
  | Promote =>
      if archived && negb (bool_decide (status b = Adopted)) then Ok (b, "archived_evidence")
      else if bool_decide (status b = Exploring) && negb ready then Ok (b, "allocation")
      else
        _ ← ensure ready "promotion requires a resolved closed cohort";
        if bool_decide (status b = Adopted) then Ok (b, "adoption_revalidated")
        else Ok (with_status Adopted b, "promote")
  | Explore | Hold =>
      if bool_decide (status b = Adopted) then Ok (with_status RolledBack b, "withdraw_unsupported_promotion")
      else if archived then Ok (b, "archived_evidence")
      else if ready then
        n ← ok_or (sequence (batch b) +? 1) "batch sequence overflow";
        Ok (with_batch {| sequence := n; members := ∅; closed := false |} (assigned_challenger_sessions b)
              (if 0 <? challenger_propensity_ppm p then challenger_propensity_ppm p else last_exposure_ppm b) b,
            "allocation")
      else Ok (b, "allocation")
  end.
(** Actions that leave the route, and so the dependency revision, as it is. *)
Definition keeps_revision (act : string) : bool :=
  bool_decide (act = "allocation") || bool_decide (act = "adoption_revalidated") ||
  bool_decide (act = "archived_evidence").
(** The document, and whether the plan was new. *)
Definition apply_experiment_plan (clock : nat → string) (id e : string) (p : BatchPlan) (cohort_resolved : bool)
    (st : ControlState) : result string (ControlState * bool) :=
  _ ← ensure (negb (bool_decide (mode st = Off))) "evolution is off";
  let archived := is_none_or (λ b, negb (bool_decide (experiment_id b = e))) (blocks st !! id) in
  b ← ok_or (experiment st id (Some e)) "unknown experiment";
  _ ← ensure (dependencies_match st b) "block dependencies changed";
  _ ← ensure (contract_matches b (learner_version p) (plan_contract p) (config_digest p) LEARNER_VERSION)
    "plan contract does not match the block";
  if is_some_and (same_plan b p cohort_resolved archived) (plan b) then Ok (st, false) else
  _ ← ensure (negb (bool_decide (status b = RolledBack))) "rolled-back experiment cannot resume";
  '(b1, act) ← enact b p cohort_resolved archived;
  let b2 := if keeps_revision act then b1
            else with_revision (digest (D_strings [revision b; act; plan_id p])) b1 in
  let b3 := with_plan p b2 in
  st1 ← ok_or (update_experiment st id e (λ _, b3)) "unknown experiment";
  st2 ← publish id e (revision b) (revision b3) act (Some (evidence_digest p)) None (clock O) st1;
  st3 ← (if bool_decide (status b3 = RolledBack)
         then withdraw_descendants (λ i, clock (S i)) e st2 else Ok st2);
  Ok (st3, true).
Definition apply_plan (clock : nat → string) (id : string) (p : BatchPlan) (cohort_resolved : bool)
    (st : ControlState) : result string (ControlState * bool) :=
  b ← ok_or (blocks st !! id) "unknown policy block";
  apply_experiment_plan clock id (experiment_id b) p cohort_resolved st.

Definition apply_experiment_monitoring (clock : nat → string) (id e : string) (m : MonitoringPlan)
    (st : ControlState) : result string (ControlState * bool) :=
  _ ← ensure (negb (bool_decide (mode st = Off))) "evolution is off";
  b ← ok_or (experiment st id (Some e)) "unknown experiment";
  _ ← ensure (bool_decide (status b = Adopted) && dependencies_match st b)
    "adopted block or its dependencies changed";
  _ ← ensure (contract_matches b (version m) (monitor_contract m) (monitor_config m) MONITOR_VERSION)
    "monitor contract does not match the block";
  if negb (rollback m) then Ok (st, false) else
  let b' := with_status RolledBack (with_revision
    (digest (D_strings [revision b; "adopted_quality_rollback"; monitor_evidence m])) b) in
  st1 ← ok_or (update_experiment st id e (λ _, b')) "unknown experiment";
  st2 ← publish id e (revision b) (revision b') "adopted_quality_rollback" (Some (monitor_evidence m)) None
    (clock O) st1;
  st3 ← withdraw_descendants (λ i, clock (S i)) e st2;
  Ok (st3, true).
Definition apply_monitoring (clock : nat → string) (id : string) (m : MonitoringPlan) (st : ControlState) :
    result string (ControlState * bool) :=
  b ← ok_or (blocks st !! id) "unknown policy block";
  apply_experiment_monitoring clock id (experiment_id b) m st.

(** ** Restoration by the operator *)

Record RestoreRequest := {
  block : string; expected_experiment : string; expected_revision : string; reason : string }.
(** The receipt of an earlier restoration by the same request. *)
Definition is_receipt (r : RestoreRequest) (p : Publication) : bool :=
  bool_decide (pub_block_id p = block r) &&
  bool_decide (pub_experiment_id p = Some (expected_experiment r)) &&
  bool_decide (previous_revision p = expected_revision r) &&
  bool_decide (action p = "operator_restore") && bool_decide (operator_reason p = Some (reason r)).
Definition restore (clock : nat → string) (r : RestoreRequest) (st : ControlState) :
    result string (ControlState * Publication) :=
  _ ← ensure (negb (trim_is_empty (reason r))) "a reason is required to restore a policy block";
  match List.find (is_receipt r) (publications st) with
  | Some p => Ok (st, p)
  | None =>
      b ← ok_or (blocks st !! block r) "unknown policy block";
      _ ← ensure (bool_decide (experiment_id b = expected_experiment r) &&
                  bool_decide (revision b = expected_revision r))
        "policy block changed; refresh and review its current version before restoring";
      _ ← ensure (negb (bool_decide (status b = RolledBack))) "this experiment is already withdrawn";
      let new := digest (D_strings [revision b; "operator_restore"; reason r]) in
      g ← ok_or (generation st +? 1) "publication generation overflow";
      let p := {| pub_generation := g; pub_block_id := block r; pub_experiment_id := Some (experiment_id b);
                  previous_revision := revision b; pub_revision := new; action := "operator_restore";
                  pub_evidence := None; operator_reason := Some (reason r); recorded_at := clock O |} in
      let st1 := with_publications g (publications st ++ [p])
        (with_blocks (<[block r := with_status RolledBack (with_revision new b)]> (blocks st)) st) in
      st2 ← withdraw_descendants (λ i, clock (S i)) (expected_experiment r) st1;
      Ok (st2, p)
  end.

(** ** Revisions of a block *)

(** An experiment that the same registration started before. *)
Definition registration (st : ControlState) (d : BlockDefinition) (routing_digest : string)
    (predecessor : option string) : option BlockState :=
  List.find (λ b, bool_decide (block_id (definition b) = block_id d) &&
    bool_decide (predecessor_experiment_id b = predecessor) &&
    bool_decide (routing_config_digest b = routing_digest) &&
    bool_decide (digest (D_definition (definition b)) = digest (D_definition d))) (all_blocks st).
Definition matchers (l : list BlockRule) : gset (string * option string) := list_to_set (matcher <$> l).
Definition find_matcher (r : BlockRule) (l : list BlockRule) : option BlockRule :=
  List.find (λ r', bool_decide (selector r' = selector r) && bool_decide (fingerprint r' = fingerprint r)) l.
(** The baseline that the rule of a revision has to name. *)
Definition expected_baseline (reset inherit_adoption : bool) (rule old : BlockRule) : string :=
  if reset then selector rule else if inherit_adoption then challenger_route old else baseline_route old.
Definition check_baselines (reset inherit_adoption : bool) (l olds : list BlockRule) : result string unit :=
  for_each (λ rule,
    old ← ok_or (find_matcher rule olds) "baseline matcher missing";
    ensure (bool_decide (baseline_route rule = expected_baseline reset inherit_adoption rule old))
      "revision must inherit the effective baseline route") l.
Definition revised_id (previous : BlockState) (d : BlockDefinition) (routing_digest : string)
    (ancestry : list string) : string :=
  digest (D_revised "block-experiment-revision-v1" (experiment_id previous) d routing_digest ancestry).
(** The baseline of a revision and its ancestry, and whether it inherits the adopted route. *)
Definition inherited (st : ControlState) (previous : BlockState) (reset : bool) :
    result string (BlockState * list string * bool) :=
  '(baseline, ancestry) ← baseline_source st previous;
  let inherit_adoption := negb reset && bool_decide (status previous = Adopted) &&
                          dependencies_match st previous in
  Ok (baseline, if reset then [] else if inherit_adoption then ancestry ++ [experiment_id previous] else ancestry,
      inherit_adoption).
Definition revise (clock : nat → string) (d : BlockDefinition) (routing_digest predecessor : string)
    (reset : bool) (st : ControlState) : result string ControlState :=
  _ ← BlockDefinition_validate d;
  previous ← ok_or (blocks st !! block_id d) "unknown policy block";
  _ ← ensure (bool_decide (experiment_id previous = predecessor))
    "experiment changed; refresh before revising";
  _ ← ensure (bool_decide (source d = source (definition previous)))
    "revision cannot change the block's agent source";
  _ ← ensure (bool_decide (matchers (rules d) = matchers (rules (definition previous))))
    "revision must preserve the block's matchers";
  '(baseline, ancestry, inherit_adoption) ← inherited st previous reset;
  _ ← check_baselines reset inherit_adoption (rules d) (rules (definition baseline));
  _ ← check_dependencies st d;
  let new_id := revised_id previous d routing_digest ancestry in
  _ ← ensure (negb (is_some (archived_experiments st !! new_id))) "experiment revision already exists";
  let new_revision :=
    if reset || negb (baseline_valid st previous)
    then digest (D_strings [revision previous; "rebase"; new_id]) else revision previous in
  let next := {| definition := d; revision := new_revision;
    parent_revision := if bool_decide (new_revision = revision previous)
                       then parent_revision previous else Some (revision previous);
    experiment_id := new_id; predecessor_experiment_id := Some (experiment_id previous);
    baseline_ancestry := ancestry; status := Exploring; plan := None;
    routing_config_digest := routing_digest; batch := EnrollmentBatch_default;
    assigned_challenger_sessions := 0; last_exposure_ppm := initial_exposure_ppm (bandit d) |} in
  st1 ← publish (block_id d) new_id (revision previous) new_revision "experiment_revised" None None
    (clock 0%nat) st;
  let archive := {| arch_block := previous; superseded_by := new_id; retired_at := clock 1%nat |} in
  Ok (with_blocks (<[block_id d := next]> (blocks st1))
       (with_archived (<[experiment_id previous := archive]> (archived_experiments st1)) st1)).

(** ** Trial reservations *)

Definition stale_plan (b : BlockState) (p : BatchPlan) : bool :=
  (challenger_propensity_ppm p =? 0) || negb (bool_decide (learner_version p = LEARNER_VERSION)) ||
  negb (bool_decide (BanditConfig_digest (bandit (definition b)) = config_digest p)) ||
  negb (bool_decide (plan_contract p = measurement_contract (definition b))).
Definition challengers (e : EnrollmentBatch) : Z :=
  Z.of_nat (size (filter (λ '(_, arm), arm = Challenger) (members e))).
(** The cohort is full, for any of its limits. *)
Definition saturated (b : BlockState) : bool :=
  (batch_sessions (definition b) <=? Z.of_nat (size (members (batch b)))) ||
  (maximum_pending_challenger (bandit (definition b)) <=? challengers (batch b)) ||
  (maximum_pending_challenger (bandit (definition b)) <=? outstanding_challenger_reservations b) ||
  (maximum_challenger_sessions (bandit (definition b)) <=? assigned_challenger_sessions b).
Definition close_batch (b : BlockState) : BlockState :=
  with_batch (close (batch b)) (assigned_challenger_sessions b) (last_exposure_ppm b) b.
(** The block after the session has joined the cohort. *)
Definition enroll (key : string) (arm : Arm) (b : BlockState) : BlockState :=
  let b' := with_batch {| sequence := sequence (batch b); members := <[key := arm]> (members (batch b));
                          closed := closed (batch b) |}
              (assigned_challenger_sessions b +% of_bool (bool_decide (arm = Challenger)))
              (last_exposure_ppm b) b in
  if saturated b' then close_batch b' else b'.
Definition reserve_trial (id key : string) (seed : Z) (st : ControlState) :
    result string (ControlState * option TrialAllocation) :=
  _ ← ensure (negb (is_empty key)) "session key is required";
  b ← ok_or (blocks st !! id) "unknown policy block";
  if bool_decide (mode st = Off) || negb (bool_decide (status b = Exploring)) || closed (batch b) ||
     negb (dependencies_match st b) || is_some_and (stale_plan b) (plan b)
  then Ok (st, None)
  else
    _ ← ensure (negb (is_some (members (batch b) !! key))) "session already reserved in this cohort";
    if (maximum_challenger_sessions (bandit (definition b)) <=? assigned_challenger_sessions b) ||
       (maximum_pending_challenger (bandit (definition b)) <=? outstanding_challenger_reservations b)
    then Ok (with_blocks (<[id := close_batch b]> (blocks st)) st, None)
    else
      arm ← draw_assignment (last_exposure_ppm b) seed;
      n ← ok_or (next_assignment_sequence st +? 1) "assignment sequence overflow";
      Ok (with_sequence n (with_blocks (<[id := enroll key arm b]> (blocks st)) st),
          Some {| t_assignment_sequence := n; t_batch_sequence := sequence (batch b); t_arm := arm;
                  t_propensity_ppm := last_exposure_ppm b |}).

(** ** The service, under the lock of the owner's row *)

(** [set_judge_model]: the mode is the one at the write. *)
Definition set_judge_model (clock : nat → string) (model : string) (st : ControlState) :
    result string ControlState := set_mode clock (mode st) (Some model) st.
Definition register_checked (d : BlockDefinition) (config : string) (expected : option (Z * Z))
    (precondition : result string unit) (st : ControlState) : result string ControlState :=
  _ ← ensure (negb (is_empty config)) "routing dependency digest is required";
  if is_some expected && is_some (registration st d config None) then Ok st else
  _ ← ensure (is_none_or (λ '(g, epoch), (generation st =? g) && (mode_epoch st =? epoch)) expected)
    "evolution settings changed since preview; review the candidate again";
  _ ← precondition;
  register d config st.
Definition revise_checked (clock : nat → string) (d : BlockDefinition) (routing_digest predecessor : string)
    (reset : bool) (expected : Z * Z) (precondition : result string unit) (st : ControlState) :
    result string ControlState :=
  _ ← ensure (negb (is_empty routing_digest)) "routing dependency digest is required";
  if is_some (registration st d routing_digest (Some predecessor)) then Ok st else
  _ ← ensure ((generation st =? expected.1) && (mode_epoch st =? expected.2))
    "evolution settings changed; review the experiment revision again";
  _ ← precondition;
  revise clock d routing_digest predecessor reset st.
End control.
