(* ===== verification/BlockSelection.v ===== *)
(** The route of a request: admission of a new session to monitoring and to trials, and the block
    that decides ([apps/gateway/routing/blocks/store/selection.rs], with the records of
    [blocks/store.rs] and [apps/storage/execution.rs]). Seeds and times are arguments of the code
    too: [seeds i] and [times i] are the results of its [i]-th call of each. *)
From stdpp Require Import base list strings gmap sorting.
From Stdlib Require Import ZArith Lia Ascii.
From S2P Require Import Prelude BlockTypes BlockControl.
Open Scope Z_scope.

(** ** Records *)

Record SessionIdentity := { owner : string; agent_source : string; native_session_id : string }.
#[export] Instance SessionIdentity_eq_dec : EqDecision SessionIdentity. Proof. solve_decision. Defined.
Record DecisionContext := { c_selector : string; c_fingerprint : string }.
#[export] Instance DecisionContext_eq_dec : EqDecision DecisionContext. Proof. solve_decision. Defined.
Record RoutingDependencies := {
  current : gmap string string; archived : gmap string string; trial_ready : bool;
  expected_control_generation : option Z }.
Record BlockAssignment := {
  assignment_id : string; a_experiment : string; block_revision : string; control_generation : Z;
  a_mode_epoch : Z; a_trial_epoch : Z; batch_sequence : Z; assignment_sequence : Z; arm : Arm;
  a_propensity_ppm : Z; random_seed : Z; reference_blocks : gmap string string; a_recorded_at : string }.
Record AdoptionMonitoring := {
  monitoring_id : string; m_experiment : string; adoption_revision : string; m_sequence : Z;
  m_generation : Z; m_mode_epoch : Z; m_reference_blocks : gmap string string; m_recorded_at : string }.
Record SessionEnrollment := {
  identity : SessionIdentity; first_watermark : Z; first_request_id : string; context : DecisionContext;
  assignments : gmap string BlockAssignment; block_experiments : option (gmap string string);
  adopted_blocks : gmap string string; monitoring : gmap string AdoptionMonitoring;
  admission_reason : string }.
Record RouteIntent := {
  request_id : string; i_identity : SessionIdentity; i_context : DecisionContext;
  selected_route : string; applied_block : option string; i_reason : string; bypass : option string;
  i_mode_epoch : Z; i_generation : Z; i_assignments : gmap string string;
  i_monitoring : gmap string string; captured_watermark : Z; routing_dependencies : gmap string string;
  archived_routing_dependencies : gmap string string; i_trial_ready : bool; i_recorded_at : string }.
(** What the caller has validated under its transaction. *)
Record Input := {
  session_key : string; n_identity : SessionIdentity; n_request_id : string; n_context : DecisionContext;
  n_dependencies : RoutingDependencies; n_bypass : option string; watermark : Z;
  enrollment : SessionEnrollment; is_new : bool }.

Definition with_assignment (id : string) (a : BlockAssignment) (e : SessionEnrollment) : SessionEnrollment :=
  {| identity := identity e; first_watermark := first_watermark e; first_request_id := first_request_id e;
     context := context e; assignments := <[id := a]> (assignments e);
     block_experiments := block_experiments e; adopted_blocks := adopted_blocks e;
     monitoring := monitoring e; admission_reason := admission_reason e |}.
Definition with_monitoring (id : string) (m : AdoptionMonitoring) (e : SessionEnrollment) : SessionEnrollment :=
  {| identity := identity e; first_watermark := first_watermark e; first_request_id := first_request_id e;
     context := context e; assignments := assignments e; block_experiments := block_experiments e;
     adopted_blocks := adopted_blocks e; monitoring := <[id := m]> (monitoring e);
     admission_reason := admission_reason e |}.

(** [RoutingDependencies::matches]: the live contract of the experiment is the recorded one. *)
Definition matches (d : RoutingDependencies) (st : ControlState) (b : BlockState) : bool :=
  let id := block_id (definition b) in
  let live := if is_some_and (λ b', bool_decide (experiment_id b' = experiment_id b)) (blocks st !! id)
              then current d !! id else archived d !! experiment_id b in
  bool_decide (live = Some (routing_config_digest b)).

Section selection.
Context `{Sha256, BlockJson, SeededDraw}.

(** ** Admission of a new session *)

Definition references (st : ControlState) : gmap string string := revision <$> blocks st.
(** The document, the enrollment and the number of times read. *)
Definition Admitting : Type := ControlState * SessionEnrollment * nat.
(** A block that the session found adopted is monitored. [refs] is taken before the loop. *)
Definition monitor_block (times : nat → string) (inp : Input) (refs : gmap string string) (s : Admitting)
    (x : string * string) : result string Admitting :=
  let '(st, e, t) := s in
  let '(id, exp) := x in
  b ← ok_or (blocks st !! id) "adopted block disappeared during admission";
  if negb (bool_decide (source (definition b) = agent_source (n_identity inp))) ||
     negb (bool_decide (experiment_id b = exp)) || negb (dependencies_match st b) ||
     negb (bool_decide (current (n_dependencies inp) !! id = Some (routing_config_digest b)))
  then Ok s
  else
    n ← ok_or (next_assignment_sequence st +? 1) "monitoring sequence overflow";
    let m := {| monitoring_id := digest (D_strings [exp; session_key inp; "adoption_monitoring"]);
                m_experiment := exp; adoption_revision := revision b; m_sequence := n;
                m_generation := generation st; m_mode_epoch := mode_epoch st;
                m_reference_blocks := refs; m_recorded_at := times t |} in
    Ok (with_sequence n st, with_monitoring id m e, S t).
Definition admit_monitoring (times : nat → string) (inp : Input) (s : Admitting) : result string Admitting :=
  let '(st, e, t) := s in
  if is_new inp && negb (bool_decide (mode st = Off))
  then try_fold (monitor_block times inp (references st)) s (sorted_entries (adopted_blocks e))
  else Ok s.

Definition is_eligible (st : ControlState) (inp : Input) (b : BlockState) : bool :=
  bool_decide (source (definition b) = agent_source (n_identity inp)) &&
  bool_decide (status b = Exploring) && negb (closed (batch b)) && dependencies_match st b &&
  bool_decide (current (n_dependencies inp) !! block_id (definition b) = Some (routing_config_digest b)).
Definition eligible (st : ControlState) (inp : Input) : list string :=
  (List.filter (λ '(_, b), is_eligible st inp b) (sorted_entries (blocks st))).*1.
(** One reservation; every eligible block draws a seed. *)
Definition assign_block (seeds : nat → Z) (times : nat → string) (inp : Input) (refs : gmap string string)
    (s : Admitting) (x : nat * string) : result string Admitting :=
  let '(st, e, t) := s in
  let '(i, id) := x in
  '(st, allocation) ← reserve_trial id (session_key inp) (seeds i) st;
  match allocation with
  | None => Ok (st, e, t)
  | Some al =>
      b ← ok_or (blocks st !! id) "block disappeared during admission";
      let a := {| assignment_id := digest (D_strings [experiment_id b; session_key inp]);
                  a_experiment := experiment_id b; block_revision := revision b;
                  control_generation := generation st; a_mode_epoch := mode_epoch st;
                  a_trial_epoch := trial_epoch st; batch_sequence := t_batch_sequence al;
                  assignment_sequence := t_assignment_sequence al; arm := t_arm al;
                  a_propensity_ppm := t_propensity_ppm al; random_seed := seeds i;
                  reference_blocks := refs; a_recorded_at := times t |} in
      Ok (st, with_assignment id a e, S t)
  end.
Definition admit_trials (seeds : nat → Z) (times : nat → string) (inp : Input) (s : Admitting) :
    result string Admitting :=
  let '(st, e, t) := s in
  if is_new inp && bool_decide (admission_reason e = "new_session") && negb (bool_decide (mode st = Off)) &&
     trial_ready (n_dependencies inp)
  then try_fold (assign_block seeds times inp (references st)) s (imap pair (eligible st inp))
  else Ok s.
Definition admission (seeds : nat → Z) (times : nat → string) (inp : Input) (st : ControlState) :
    result string Admitting :=
  s ← admit_monitoring times inp (st, enrollment inp, O);
  admit_trials seeds times inp s.

(** ** The decision *)

(** The experiment of a block that the session is pinned to; [None] when it is pinned to none. *)
Definition pinned (st : ControlState) (e : SessionEnrollment) (id : string) :
    result string (option BlockState) :=
  match block_experiments e with
  | Some experiments =>
      match experiments !! id with
      | None => Ok None
      | Some x => b ← ok_or (experiment st id (Some x)) "pinned experiment missing"; Ok (Some b)
      end
  | None =>
      match assignments e !! id with
      | Some a => b ← ok_or (experiment st id (Some (a_experiment a))) "assigned experiment missing"; Ok (Some b)
      | None =>
          match adopted_blocks e !! id with
          | Some x => b ← ok_or (experiment st id (Some x)) "adopted experiment missing"; Ok (Some b)
          | None => b ← original_experiment st id; Ok (Some b)
          end
      end
  end.
Definition rule_matches (c : DecisionContext) (r : BlockRule) : bool :=
  bool_decide (selector r = c_selector c) &&
  is_none_or (λ f, bool_decide (f = c_fingerprint c)) (fingerprint r).
Definition assignment_of (e : SessionEnrollment) (id : string) (b : BlockState) : option BlockAssignment :=
  a ← assignments e !! id; if bool_decide (a_experiment a = experiment_id b) then Some a else None.
(** Whether the session gets the challenger route of the block. *)
Definition is_candidate (st : ControlState) (ready : bool) (e : SessionEnrollment) (id : string) (b : BlockState) :
    bool :=
  let assignment := assignment_of e id b in
  baseline_valid st b &&
  ((bool_decide (status b = Adopted) &&
    (is_some_and (λ a, bool_decide (arm a = Challenger)) assignment ||
     (negb (is_some assignment) && bool_decide (adopted_blocks e !! id = Some (experiment_id b))))) ||
   (bool_decide (status b = Exploring) && negb (bool_decide (mode st = Off)) && ready &&
    is_some_and (λ a, (a_trial_epoch a =? trial_epoch st) && bool_decide (arm a = Challenger)) assignment)).
Definition decision_reason (st : ControlState) (e : SessionEnrollment) (id : string) (b : BlockState)
    (candidate : bool) : string :=
  if bool_decide (status b = Adopted) && negb candidate then
    if is_some (assignment_of e id b) then "retained_experiment_baseline" else "retained_preexisting_baseline"
  else if bool_decide (status b = Adopted) then "adopted_baseline"
  else if bool_decide (mode st = Off) then "evolution_off"
  else if bool_decide (status b = RolledBack) then "block_rolled_back"
  else if candidate then "sticky_challenger"
  else "retained_baseline".

(** What a turn of the loop over the blocks may set: route, block and reason. *)
Record RouteDecision := { route : string; decided_by : option string; why : string }.
Definition changed (d : RouteDecision) : RouteDecision :=
  {| route := route d; decided_by := decided_by d; why := "routing_dependency_changed" |}.
Definition decide_block (st : ControlState) (inp : Input) (e : SessionEnrollment) (d : RouteDecision) (id : string) :
    result string RouteDecision :=
  pin ← pinned st e id;
  match pin with
  | None => Ok d
  | Some b =>
      if negb (bool_decide (source (definition b) = agent_source (n_identity inp))) then Ok d else
      match List.find (rule_matches (n_context inp)) (rules (definition b)) with
      | None => Ok d
      | Some rule =>
          if negb (matches (n_dependencies inp) st b) || negb (external_dependencies_match st b)
          then Ok (changed d)
          else
            '(baseline, _) ← baseline_source st b;
            if negb (matches (n_dependencies inp) st baseline) || negb (external_dependencies_match st baseline)
            then Ok (changed d)
            else
              baseline_rule ← ok_or (find_matcher rule (rules (definition baseline)))
                "inherited baseline matcher missing";
              let candidate := is_candidate st (trial_ready (n_dependencies inp)) e id b in
              Ok {| route := if candidate then challenger_route rule else baseline_route baseline_rule;
                    decided_by := Some id; why := decision_reason st e id b candidate |}
      end
  end.
Definition passthrough (inp : Input) : RouteDecision :=
  {| route := c_selector (n_context inp); decided_by := None; why := "baseline_passthrough" |}.
Definition bypassed (inp : Input) (d : RouteDecision) : RouteDecision :=
  match n_bypass inp with
  | Some r => {| route := c_selector (n_context inp); decided_by := None; why := r |}
  | None => d
  end.
Definition select (seeds : nat → Z) (times : nat → string) (inp : Input) (st : ControlState) :
    result string (ControlState * SessionEnrollment * RouteIntent) :=
  '(st, e, t) ← admission seeds times inp st;
  d ← try_fold (decide_block st inp e) (passthrough inp) (sorted_keys (blocks st));
  let d := bypassed inp d in
  Ok (st, e,
      {| request_id := n_request_id inp; i_identity := n_identity inp; i_context := n_context inp;
         selected_route := route d; applied_block := decided_by d; i_reason := why d;
         bypass := n_bypass inp; i_mode_epoch := mode_epoch st; i_generation := generation st;
         i_assignments := assignment_id <$> assignments e; i_monitoring := monitoring_id <$> monitoring e;
         captured_watermark := watermark inp; routing_dependencies := current (n_dependencies inp);
         archived_routing_dependencies := archived (n_dependencies inp);
         i_trial_ready := trial_ready (n_dependencies inp); i_recorded_at := times t |}).
End selection.
