(* ===== verification/BlockSystem.v ===== *)
(** The evolution control as a transition system: every order of the operations of its callers,
    each under the lock of the owner's row; and how an operation changes the experiments. *)
From stdpp Require Import base list strings gmap sorting.
From Stdlib Require Import ZArith Lia Ascii.
From S2P Require Import Prelude BlockTypes BlockControl BlockSelection.
Open Scope Z_scope.

Section system.
Context `{Sha256, BlockJson, SeededDraw}.

(** ** Operations *)

Inductive op :=
| SetMode (m : EvolutionMode) (model : option string)
| Register (d : BlockDefinition) (config : string)
| Revise (d : BlockDefinition) (routing_digest predecessor : string) (reset : bool)
| ApplyPlan (id e : string) (p : BatchPlan) (cohort_resolved : bool)
| ApplyMonitoring (id e : string) (m : MonitoringPlan)
| RestoreBlock (r : RestoreRequest)
| Reserve (id key : string) (seed : Z)
| Select (seeds : nat → Z) (inp : Input).
Definition exec (clock : nat → string) (o : op) (st : ControlState) : result string ControlState :=
  match o with
  | SetMode m model => set_mode clock m model st
  | Register d config => register d config st
  | Revise d routing_digest predecessor reset => revise clock d routing_digest predecessor reset st
  | ApplyPlan id e p resolved => fst <$> apply_experiment_plan clock id e p resolved st
  | ApplyMonitoring id e m => fst <$> apply_experiment_monitoring clock id e m st
  | RestoreBlock r => fst <$> restore clock r st
  | Reserve id key seed => fst <$> reserve_trial id key seed st
  | Select seeds inp => (λ x, x.1.1) <$> select seeds clock inp st
  end.
(** SHA-256 gives a new experiment the identity of no other. *)
Definition unused (st : ControlState) (e : string) : Prop :=
  Forall (λ b, experiment_id b ≠ e) (all_blocks st).
#[export] Instance unused_dec st e : Decision (unused st e).
Proof. unfold unused. apply _. Defined.
(** The integers of a definition have their types. *)
Definition typed (d : BlockDefinition) : Prop := maximum_challenger_sessions (bandit d) ≤ u64_max.
Definition allowed (st : ControlState) (o : op) : Prop :=
  match o with
  | Register d config => typed d ∧ unused st (registered_id st d config)
  | Revise d routing_digest _ reset =>
      typed d ∧ ∀ previous baseline ancestry inherit, blocks st !! block_id d = Some previous →
        inherited st previous reset = Ok (baseline, ancestry, inherit) →
        unused st (revised_id previous d routing_digest ancestry)
  | _ => True
  end.
Definition step (st st' : ControlState) : Prop :=
  ∃ clock o, allowed st o ∧ exec clock o st = Ok st'.
Definition reachable (st : ControlState) : Prop := rtc step ControlState_default st.

(** ** Experiments by block and identity *)

Definition lookup_experiment (st : ControlState) (id e : string) : option BlockState :=
  experiment st id (Some e).
(** The maps agree with the records they hold, and identities are unique. *)
Record Well (st : ControlState) : Prop := {
  well_key : ∀ id b, blocks st !! id = Some b → block_id (definition b) = id;
  well_archived : ∀ e a, archived_experiments st !! e = Some a →
    experiment_id (arch_block a) = e ∧ is_Some (blocks st !! block_id (definition (arch_block a)));
  well_current : ∀ id b, blocks st !! id = Some b → archived_experiments st !! experiment_id b = None;
  well_unique : ∀ id b id' b', blocks st !! id = Some b → blocks st !! id' = Some b' →
    experiment_id b = experiment_id b' → id = id' }.

Lemma archived_of_Some st id e b : archived_of st id e = Some b ↔
  ∃ a, archived_experiments st !! e = Some a ∧ arch_block a = b ∧ block_id (definition b) = id.
Proof.
  unfold archived_of. destruct (archived_experiments st !! e) as [a|]; cbn; [|naive_solver].
  case_bool_decide; naive_solver.
Qed.
Lemma lookup_experiment_current st id b :
  blocks st !! id = Some b → lookup_experiment st id (experiment_id b) = Some b.
Proof. unfold lookup_experiment, experiment. intros ->. cbn. by rewrite bool_decide_eq_true_2. Qed.
Lemma lookup_experiment_Some st id e b : lookup_experiment st id e = Some b ↔
  ∃ c, blocks st !! id = Some c ∧
    ((experiment_id c = e ∧ b = c) ∨ (experiment_id c ≠ e ∧ archived_of st id e = Some b)).
Proof.
  unfold lookup_experiment, experiment. destruct (blocks st !! id) as [c|]; cbn; [|naive_solver].
  case_bool_decide; naive_solver.
Qed.
Lemma lookup_experiment_id st id e b : Well st → lookup_experiment st id e = Some b →
  block_id (definition b) = id ∧ experiment_id b = e.
Proof.
  intros Hw (c & Hc & [[He ->]|[_ (a & Ha & <- & ?)%archived_of_Some]])%lookup_experiment_Some.
  - split; [by eapply well_key|done].
  - split; [done|]. by apply (well_archived _ Hw).
Qed.
Lemma lookup_experiment_archived st id e b :
  Well st → archived_of st id e = Some b → lookup_experiment st id e = Some b.
Proof.
  intros Hw Hb. pose proof Hb as (a & Ha & <- & Hid)%archived_of_Some.
  destruct (well_archived _ Hw _ _ Ha) as [He [c Hc]]. rewrite Hid in Hc.
  apply lookup_experiment_Some. exists c. split; [done|]. right. split; [|done].
  intros Heq. pose proof (well_current _ Hw _ _ Hc) as Hn. rewrite Heq in Hn. congruence.
Qed.
Lemma elem_of_all_blocks st b : Well st → b ∈ all_blocks st ↔
  lookup_experiment st (block_id (definition b)) (experiment_id b) = Some b.
Proof.
  intros Hw. unfold all_blocks. rewrite elem_of_app, !list_elem_of_fmap. split.
  - intros [([id b'] & -> & Hb%elem_of_sorted_entries)|([e a] & -> & Ha%elem_of_sorted_entries)]; cbn.
    + rewrite (well_key _ Hw _ _ Hb). by apply lookup_experiment_current.
    + destruct (well_archived _ Hw _ _ Ha) as [He _].
      apply lookup_experiment_archived; [done|]. apply archived_of_Some. exists a. by rewrite He.
  - intros (c & Hc & [[_ ->]|[_ (a & Ha & Hab & _)%archived_of_Some]])%lookup_experiment_Some.
    + left. exists (block_id (definition c), c). split; [done|]. by apply elem_of_sorted_entries.
    + right. exists (experiment_id b, a). split; [done|]. by apply elem_of_sorted_entries.
Qed.
Lemma unused_spec st e : Well st →
  unused st e ↔ ∀ id, lookup_experiment st id e = None.
Proof.
  intros Hw. unfold unused. rewrite Forall_forall. split.
  - intros Hu id. apply eq_None_not_Some. intros [b Hb].
    pose proof (lookup_experiment_id _ _ _ _ Hw Hb) as [Hid He].
    apply (Hu b); [|done]. apply elem_of_all_blocks; [done|]. by rewrite Hid, He.
  - intros Hn b Hb%elem_of_all_blocks <-; [|done]. by rewrite Hn in Hb.
Qed.
Lemma unused_archived st e : Well st → unused st e → archived_experiments st !! e = None.
Proof.
  intros Hw Hu. apply eq_None_not_Some. intros [a Ha]. rewrite unused_spec in Hu by done.
  specialize (Hu (block_id (definition (arch_block a)))).
  rewrite (lookup_experiment_archived _ _ _ (arch_block a) Hw) in Hu; [done|].
  apply archived_of_Some. by exists a.
Qed.

(** ** Operations that keep the experiments *)

(** What identifies an experiment never changes. *)
Record same_experiment (b b' : BlockState) : Prop := {
  same_definition : definition b' = definition b;
  same_id : experiment_id b' = experiment_id b;
  same_predecessor : predecessor_experiment_id b' = predecessor_experiment_id b;
  same_ancestry : baseline_ancestry b' = baseline_ancestry b;
  same_routing : routing_config_digest b' = routing_config_digest b }.
#[export] Instance same_experiment_preorder : PreOrder same_experiment.
Proof.
  split; [done|]. intros b1 b2 b3 [? ? ? ? ?] [? ? ? ? ?]. split; congruence.
Qed.
(** The same experiments, each related to what it was. *)
Record evolves (R : BlockState → BlockState → Prop) (st st' : ControlState) : Prop := {
  evolves_blocks : ∀ id, option_Forall2 R (blocks st !! id) (blocks st' !! id);
  evolves_archived : ∀ e, option_Forall2 (λ a a', R (arch_block a) (arch_block a'))
    (archived_experiments st !! e) (archived_experiments st' !! e) }.
Lemma evolves_refl R st : Reflexive R → evolves R st st.
Proof. intros ?. split; intros ?; apply option_Forall2_refl; intros ?; reflexivity. Qed.
Lemma evolves_trans (R1 R2 R3 : BlockState → BlockState → Prop) st1 st2 st3 :
  (∀ b1 b2 b3, R1 b1 b2 → R2 b2 b3 → R3 b1 b3) →
  evolves R1 st1 st2 → evolves R2 st2 st3 → evolves R3 st1 st3.
Proof.
  intros Htr [Hb1 Ha1] [Hb2 Ha2]. split; intros k.
  - specialize (Hb1 k). specialize (Hb2 k). destruct Hb1; inversion Hb2; subst; constructor; eauto.
  - specialize (Ha1 k). specialize (Ha2 k).
    destruct Ha1; inversion Ha2; subst; constructor; eauto.
Qed.
Lemma evolves_impl (R1 R2 : BlockState → BlockState → Prop) st st' :
  (∀ b b', R1 b b' → R2 b b') → evolves R1 st st' → evolves R2 st st'.
Proof.
  intros Himp [Hb Ha]. split; intros k; [destruct (Hb k)|destruct (Ha k)]; constructor; auto.
Qed.
Lemma evolves_publications R st st' g l : evolves R st st' → evolves R st (with_publications g l st').
Proof. intros [Hb Ha]. by split. Qed.
Lemma evolves_lookup R st st' id e :
  (∀ b b', R b b' → same_experiment b b') → evolves R st st' →
  option_Forall2 R (lookup_experiment st id e) (lookup_experiment st' id e).
Proof.
  intros HR [Hb Ha]. unfold lookup_experiment, experiment, archived_of. specialize (Hb id). specialize (Ha e).
  destruct Hb as [c c' Hc|]; cbn; [|constructor]. rewrite (same_id _ _ (HR _ _ Hc)).
  case_bool_decide; [by constructor|].
  destruct Ha as [a a' Haa|]; cbn; [|constructor]. rewrite (same_definition _ _ (HR _ _ Haa)).
  case_bool_decide; by constructor.
Qed.
Lemma evolves_well R st st' :
  (∀ b b', R b b' → same_experiment b b') → evolves R st st' → Well st → Well st'.
Proof.
  intros HR [Hb Ha] [W1 W2 W3 W4].
  assert (∀ id b', blocks st' !! id = Some b' → ∃ b, blocks st !! id = Some b ∧ same_experiment b b') as Hback.
  { intros id b' Hb'. specialize (Hb id). rewrite Hb' in Hb. inversion Hb; subst. eauto. }
  split.
  - intros id b' (b & Hb0 & Hs)%Hback. rewrite (same_definition _ _ Hs). eauto.
  - intros e a' Ha'. specialize (Ha e). rewrite Ha' in Ha. inversion Ha as [a ? Haa Hea|]; subst.
    symmetry in Hea. apply HR in Haa. rewrite (same_id _ _ Haa), (same_definition _ _ Haa).
    destruct (W2 _ _ Hea) as [? [c Hc]]. split; [done|].
    specialize (Hb (block_id (definition (arch_block a)))). rewrite Hc in Hb. inversion Hb; eauto.
  - intros id b' (b & Hb0 & Hs)%Hback. rewrite (same_id _ _ Hs). specialize (Ha (experiment_id b)).
    rewrite (W3 _ _ Hb0) in Ha. by inversion Ha.
  - intros id b' id2 b2' (b & Hb0 & Hs)%Hback (b2 & Hb2 & Hs2)%Hback.
    rewrite (same_id _ _ Hs), (same_id _ _ Hs2). eauto.
Qed.

Lemma update_experiment_evolves R st id e f b st' :
  Reflexive R → lookup_experiment st id e = Some b → R b (f b) →
  update_experiment st id e f = Some st' →
  evolves R st st'.
Proof.
  intros HR Hb Hf. apply lookup_experiment_Some in Hb as (c & Hc & Hcase).
  unfold update_experiment. rewrite Hc. cbn.
  destruct Hcase as [[He ->]|[He Hb]].
  - rewrite bool_decide_eq_true_2 by done. intros [= <-]. split; cbn; intros k;
      [|apply option_Forall2_refl; intros ?; reflexivity].
    destruct (decide (k = id)) as [->|]; [rewrite lookup_alter_eq, Hc; by constructor|].
    rewrite lookup_alter_ne by done. apply option_Forall2_refl. intros ?. reflexivity.
  - rewrite bool_decide_eq_false_2 by done. rewrite Hb. cbn. intros [= <-].
    apply archived_of_Some in Hb as (a & Ha & <- & _).
    split; cbn; intros k; [apply option_Forall2_refl; intros ?; reflexivity|].
    destruct (decide (k = e)) as [->|]; [rewrite lookup_alter_eq, Ha; by constructor|].
    rewrite lookup_alter_ne by done. apply option_Forall2_refl. intros ?. reflexivity.
Qed.
Lemma update_experiment_lookup st id e f b st' :
  Well st → lookup_experiment st id e = Some b → same_experiment b (f b) →
  update_experiment st id e f = Some st' →
  ∀ id' e', lookup_experiment st' id' e' =
    if decide (id' = id ∧ e' = e) then Some (f b) else lookup_experiment st id' e'.
Proof.
  intros Hw Hb [Hd Hi _ _ _] Hu id' e'. pose proof Hb as (c & Hc & Hcase)%lookup_experiment_Some.
  unfold update_experiment in Hu. rewrite Hc in Hu. cbn in Hu.
  unfold lookup_experiment, experiment in *. rewrite Hc in Hb. cbn in Hb.
  destruct Hcase as [[He ->]|[He Ha]].
  - rewrite bool_decide_eq_true_2 in Hu by done. injection Hu as <-. cbn.
    destruct (decide (id' = id)) as [->|Hne].
    + rewrite lookup_alter_eq, Hc. cbn. rewrite Hi, He.
      destruct (decide (id = id ∧ e' = e)) as [[_ ->]|Hn]; [by rewrite bool_decide_eq_true_2|].
      by rewrite bool_decide_eq_false_2 by naive_solver.
    + rewrite lookup_alter_ne by done. by rewrite decide_False by naive_solver.
  - rewrite bool_decide_eq_false_2 in Hu by done. rewrite Ha in Hu. injection Hu as <-. cbn.
    apply archived_of_Some in Ha as (a & Ha & <- & Hid).
    destruct (decide (id' = id ∧ e' = e)) as [[-> ->]|Hn].
    + rewrite Hc. cbn. rewrite bool_decide_eq_false_2 by done. unfold archived_of. cbn.
      rewrite lookup_alter_eq, Ha. cbn. rewrite Hd. by rewrite bool_decide_eq_true_2.
    + destruct (blocks st !! id') as [c'|]; cbn; [|done].
      destruct (bool_decide (experiment_id c' = e')); [done|]. unfold archived_of. cbn. destruct (decide (e' = e)) as [->|]; [|by rewrite lookup_alter_ne].
      rewrite lookup_alter_eq, Ha. cbn. rewrite Hd. by rewrite !bool_decide_eq_false_2 by naive_solver.
Qed.

(** What the operations on experiments leave alone. *)
Record same_settings (st st' : ControlState) : Prop := {
  same_mode : mode st' = mode st;
  same_mode_epoch : mode_epoch st' = mode_epoch st;
  same_feedback : feedback_started_at st' = feedback_started_at st;
  same_trial_epoch : trial_epoch st' = trial_epoch st;
  same_started : trial_started_at st' = trial_started_at st;
  same_judge : judge_model st' = judge_model st;
  same_sequence : next_assignment_sequence st' = next_assignment_sequence st }.
#[export] Instance same_settings_preorder : PreOrder same_settings.
Proof. split; [done|]. intros ??? [] []. split; congruence. Qed.
(** Fields of a trial. *)
Record same_trial (b b' : BlockState) : Prop := {
  same_plan_field : plan b' = plan b;
  same_batch : batch b' = batch b;
  same_assigned : assigned_challenger_sessions b' = assigned_challenger_sessions b;
  same_exposure : last_exposure_ppm b' = last_exposure_ppm b }.
#[export] Instance same_trial_preorder : PreOrder same_trial.
Proof. split; [done|]. intros ??? [] []. split; congruence. Qed.

Lemma update_experiment_settings st id e f st' :
  update_experiment st id e f = Some st' →
  same_settings st st' ∧ publications st' = publications st ∧ generation st' = generation st.
Proof.
  unfold update_experiment. destruct (is_some_and _ _); [intros [= <-]; done|].
  destruct (archived_of st id e); cbn; [intros [= <-]; done|done].
Qed.
Lemma update_experiment_Some st id e f b :
  lookup_experiment st id e = Some b → is_Some (update_experiment st id e f).
Proof.
  intros (c & Hc & Hcase)%lookup_experiment_Some. unfold update_experiment. rewrite Hc. cbn.
  case_bool_decide; [done|]. destruct Hcase as [[]|[_ ->]]; done.
Qed.
Lemma publish_ok id e previous new act evidence rs now st st' :
  publish id e previous new act evidence rs now st = Ok st' → ∃ g, g = generation st + 1 ∧ g ≤ u64_max ∧
  st' = with_publications g (publications st ++
    [{| pub_generation := g; pub_block_id := id; pub_experiment_id := Some e;
        previous_revision := previous; pub_revision := new; action := act;
        pub_evidence := evidence; operator_reason := rs; recorded_at := now |}]) st.
Proof.
  unfold publish. intros (g & Hg%ok_or_ok & [= <-])%bind_ok.
  apply checked_add_Some in Hg as [-> ?]. eauto.
Qed.

(** ** The withdrawal of an ancestor *)

(** An experiment after [ancestor] was withdrawn. *)
Definition withdrawn_by (ancestor : string) (b b' : BlockState) : Prop :=
  same_experiment b b' ∧ same_trial b b' ∧
  (b' = b ∨ (ancestor ∈ baseline_ancestry b ∧ status b' = RolledBack)).
#[export] Instance withdrawn_by_preorder ancestor : PreOrder (withdrawn_by ancestor).
Proof.
  split; [intros b; split_and!; [done|done|by left]|].
  intros b1 b2 b3 (He1 & Ht1 & Hc1) (He2 & Ht2 & Hc2). split_and!; [by etrans..|].
  destruct Hc2 as [->|[Hin Hs]]; [done|]. right. rewrite <-(same_ancestry _ _ He1). done.
Qed.
Lemma withdrawn_by_same ancestor b b' : withdrawn_by ancestor b b' → same_experiment b b'.
Proof. by intros [? _]. Qed.
Lemma withdraw_same ancestor b : same_experiment b (withdraw ancestor b).
Proof. by split. Qed.
Lemma withdraw_withdrawn_by ancestor b :
  descends_from ancestor b = true → withdrawn_by ancestor b (withdraw ancestor b).
Proof. intros Hd%bool_decide_eq_true. split_and!; [done|done|]. by right. Qed.
Lemma elem_of_affected st ancestor id e : Well st →
  (id, e) ∈ affected ancestor st ↔
  ∃ b, lookup_experiment st id e = Some b ∧ ancestor ∈ baseline_ancestry b.
Proof.
  intros Hw. unfold affected. rewrite list_elem_of_fmap. setoid_rewrite filter_elem. split.
  - intros (b & [= -> ->] & Hb%elem_of_all_blocks & Hd%bool_decide_eq_true); [|done]. eauto.
  - intros (b & Hb & Hd). pose proof (lookup_experiment_id _ _ _ _ Hw Hb) as [<- <-].
    exists b. split; [done|]. split; [by apply elem_of_all_blocks|]. by apply bool_decide_eq_true.
Qed.
Lemma experiment_mut_lookup st id e : Well st → experiment_mut st id e = lookup_experiment st id e.
Proof.
  intros Hw. unfold experiment_mut. destruct (blocks st !! id) as [c|] eqn:Hc; cbn.
  - unfold lookup_experiment, experiment. by rewrite Hc.
  - destruct (archived_of st id e) as [b|] eqn:Hb.
    + by rewrite (lookup_experiment_archived _ _ _ _ Hw Hb).
    + unfold lookup_experiment, experiment. by rewrite Hc.
Qed.
Lemma withdraw_step_ok clock ancestor st i id e st' :
  withdraw_step clock ancestor st (i, (id, e)) = Ok st' →
  ∃ b st1, experiment_mut st id e = Some b ∧ update_experiment st id e (withdraw ancestor) = Some st1 ∧
    publish id e (revision b) (revision (withdraw ancestor b)) "inherited_baseline_withdrawn" None None
      (clock i) st1 = Ok st'.
Proof.
  unfold withdraw_step. intros (b & Hb%ok_or_ok & (st1 & Hst1%ok_or_ok & Hp)%bind_ok)%bind_ok. eauto.
Qed.
Lemma withdraw_descendants_effect clock ancestor st st' :
  Well st → withdraw_descendants clock ancestor st = Ok st' →
  evolves (withdrawn_by ancestor) st st' ∧ same_settings st st' ∧
  ∀ id e b, lookup_experiment st' id e = Some b → ancestor ∈ baseline_ancestry b → status b = RolledBack.
Proof.
  intros Hw Hwd. pose proof (withdrawn_by_same ancestor) as Hsub. set (P := λ (pre : list (nat * (string * string))) s,
    evolves (withdrawn_by ancestor) st s ∧ same_settings st s ∧
    ∀ id e b, (id, e) ∈ pre.*2 → lookup_experiment s id e = Some b → status b = RolledBack).
  assert (P (imap pair (affected ancestor st)) st') as (Hev & Hset & Hall).
  { eapply (try_fold_ind _ P); [| |exact Hwd].
    - split_and!; [apply evolves_refl, _|done|]. intros id e b []%elem_of_nil.
    - intros pre [i [id e]] s1 s2 Hpre _ (Hev & Hset & Hall) Hstep.
      apply withdraw_step_ok in Hstep as (b & s' & Hb & Hup & Hpub).
      rewrite experiment_mut_lookup in Hb by exact (evolves_well _ _ _ Hsub Hev Hw).
      apply publish_ok in Hpub as (g & _ & _ & ->).
        assert (descends_from ancestor b = true) as Hd.
      { apply bool_decide_eq_true. assert ((id, e) ∈ affected ancestor st) as Hin.
        { assert ((i, (id, e)) ∈ imap pair (affected ancestor st)) as Hi.
          { destruct Hpre as [l ->]. set_solver. }
          apply elem_of_lookup_imap in Hi as (j & x & [= -> ->] & Hx). by eapply list_elem_of_lookup_2. }
        apply elem_of_affected in Hin as (b0 & Hb0 & Hin); [|done].
        pose proof (evolves_lookup _ _ _ id e Hsub Hev) as Hl. rewrite Hb0, Hb in Hl.
        inversion Hl as [? ? [Hse _]|]; subst. by rewrite (same_ancestry _ _ Hse). }
      pose proof (update_experiment_settings _ _ _ _ _ Hup) as (Hset' & _ & _).
      split_and!.
      + eapply (evolves_trans (withdrawn_by ancestor) (withdrawn_by ancestor)); [intros ???; apply transitivity|done|].
        apply evolves_publications. eapply update_experiment_evolves; [|exact Hb| |exact Hup].
        * exact (PreOrder_Reflexive (R:=withdrawn_by ancestor)).
        * by apply withdraw_withdrawn_by.
      + etrans; [exact Hset|]. destruct Hset'. by split.
      + intros id' e' b' Hin Hb'. change (lookup_experiment s' id' e' = Some b') in Hb'.
        rewrite (update_experiment_lookup _ _ _ _ _ _ (evolves_well _ _ _ Hsub Hev Hw) Hb (withdraw_same ancestor b) Hup) in Hb'.
        case_decide as Hc; [by injection Hb' as <-|].
        rewrite fmap_app, elem_of_app in Hin. destruct Hin as [Hin|Hin]; [by eapply Hall|].
        apply list_elem_of_singleton in Hin. naive_solver. }
  split_and!; [done|done|]. intros id e b Hb Hin. eapply Hall; [|done].
  assert ((id, e) ∈ affected ancestor st) as Haff.
  { apply elem_of_affected; [done|]. pose proof (evolves_lookup _ _ _ id e (withdrawn_by_same ancestor) Hev) as Hl.
    rewrite Hb in Hl. inversion Hl as [b0 ? [Hse _]|]; subst.
    exists b0. split; [done|]. by rewrite <-(same_ancestry _ _ Hse). }
  rewrite fmap_imap. apply list_elem_of_lookup in Haff as [j Hj]. apply elem_of_lookup_imap. by exists j, (id, e).
Qed.
End system.
