(* ===== verification/BlockLineage.v ===== *)
(** The shape of every change of the evolution control, and the lineage of experiments: each
    baseline that an experiment inherits is an adopted experiment of its block, with a baseline
    of its own that is a prefix, and history has no cycle. *)
From stdpp Require Import base list strings gmap sorting.
From Stdlib Require Import ZArith Lia Ascii.
From S2P Require Import Prelude BlockTypes BlockControl BlockSelection BlockSystem.
Open Scope Z_scope.

Section lineage.
Context `{Sha256, BlockJson, SeededDraw}.

(** ** A change of one experiment, with the withdrawal of its descendants *)

Definition status_step (s s' : BlockStatus) : Prop :=
  s' = s ∨ s' = RolledBack ∨ (s = Exploring ∧ s' = Adopted).
(** The experiment [b] of block [id] becomes [b'] and is published; a withdrawal takes its
    descendants along. *)
Record changes (st : ControlState) (id e : string) (b b' : BlockState) (st' : ControlState) : Prop := {
  ch_before : lookup_experiment st id e = Some b;
  ch_same : same_experiment b b';
  ch_written : ∃ st1 st2 act evidence rs now clock,
    update_experiment st id e (λ _, b') = Some st1 ∧
    publish id e (revision b) (revision b') act evidence rs now st1 = Ok st2 ∧
    if bool_decide (status b' = RolledBack) then withdraw_descendants clock e st2 = Ok st' else st' = st2 }.

Lemma withdraw_generation clock ancestor st st' : withdraw_descendants clock ancestor st = Ok st' →
  generation st ≤ u64_max → generation st' ≤ u64_max.
Proof.
  intros Hwd. refine (try_fold_inv _ (λ s, generation st ≤ u64_max → generation s ≤ u64_max) _ _ _ _ _ Hwd); [|done].
  intros s [i [id e]] s' _ _ (b & s1 & _ & _ & (g & _ & Hg & ->)%publish_ok)%withdraw_step_ok. done.
Qed.
(** What the change does to any experiment. *)
Definition changed_by (id e : string) (b b' : BlockState) (id' e' : string) (x x' : BlockState) : Prop :=
  let x1 := if decide (id' = id ∧ e' = e) then b' else x in
  if bool_decide (status b' = RolledBack)
  then withdrawn_by e x1 x' ∧ (e ∈ baseline_ancestry x' → status x' = RolledBack)
  else x' = x1.

Lemma update_with_publications st id e b b' st1 g l :
  Well st → lookup_experiment st id e = Some b → same_experiment b b' →
  update_experiment st id e (λ _, b') = Some st1 →
  Well (with_publications g l st1) ∧
  (∀ id' e', lookup_experiment (with_publications g l st1) id' e' =
    if decide (id' = id ∧ e' = e) then Some b' else lookup_experiment st id' e') ∧
  same_settings st (with_publications g l st1).
Proof.
  intros Hw Hb Hs Hu. split_and!.
  - apply (evolves_well same_experiment st); [done| |done]. apply evolves_publications.
    eapply update_experiment_evolves; [|exact Hb|exact Hs|exact Hu]. exact (PreOrder_Reflexive (R:=same_experiment)).
  - intros id' e'. apply (update_experiment_lookup _ _ _ (λ _, b') b st1 Hw Hb Hs Hu).
  - destruct (update_experiment_settings _ _ _ _ _ Hu) as ([] & _ & _). by split.
Qed.
Lemma changes_effect st id e b b' st' : Well st → changes st id e b b' st' →
  Well st' ∧ same_settings st st' ∧
  ∀ id' e', option_Forall2 (changed_by id e b b' id' e') (lookup_experiment st id' e') (lookup_experiment st' id' e').
Proof.
  intros Hw [Hb Hs (st1 & st2 & act & ev & rs & now & clock & Hu & Hp & Hrest)].
  apply publish_ok in Hp as (g & _ & _ & ->).
  set (l := _ ++ _) in Hrest. destruct (update_with_publications _ _ _ _ _ _ g l Hw Hb Hs Hu) as (Hw2 & Hl2 & Hset2).
  assert (∀ id' e', option_Forall2 (λ x x1, x1 = if decide (id' = id ∧ e' = e) then b' else x)
    (lookup_experiment st id' e') (lookup_experiment (with_publications g l st1) id' e')) as Hl.
  { intros id' e'. rewrite Hl2. destruct (decide _) as [[-> ->]|]; [rewrite Hb; by constructor|].
    apply option_Forall2_refl. by intros ?. }
  unfold changed_by. case_bool_decide as Hrb.
  - destruct (withdraw_descendants_effect _ _ _ _ Hw2 Hrest) as (Hev & Hset & Hall).
    split_and!; [by eapply evolves_well; [apply withdrawn_by_same|..]|by etrans|].
    intros id' e'. pose proof (evolves_lookup _ _ _ id' e' (withdrawn_by_same e) Hev) as Hl'.
    specialize (Hl id' e'). specialize (Hall id' e').
    destruct Hl as [x x1 ->|]; inversion Hl' as [? x' Hwd Heq1 Heq2|]; subst; constructor.
    split; [done|]. intros Hin. by eapply Hall.
  - subst st'. by split_and!.
Qed.
Lemma changes_evolves st id e b b' st' : Well st → changes st id e b b' st' → evolves same_experiment st st'.
Proof.
  intros Hw [Hb Hs (st1 & st2 & act & ev & rs & now & clock & Hu & Hp & Hrest)].
  apply publish_ok in Hp as (g & _ & _ & ->).
  assert (evolves same_experiment st st1) as Hev.
  { eapply update_experiment_evolves; [|exact Hb|exact Hs|exact Hu]. exact (PreOrder_Reflexive (R:=same_experiment)). }
  case_bool_decide; [|subst; by apply evolves_publications].
  assert (Well (with_publications g (publications st1 ++ [{| pub_generation := g; pub_block_id := id;
    pub_experiment_id := Some e; previous_revision := revision b; pub_revision := revision b'; action := act;
    pub_evidence := ev; operator_reason := rs; recorded_at := now |}]) st1)) as Hw2.
  { eapply evolves_well; [|apply evolves_publications, Hev|done]. done. }
  destruct (withdraw_descendants_effect _ _ _ _ Hw2 Hrest) as (Hev' & _ & _).
  eapply (evolves_trans same_experiment (withdrawn_by e)); [|by apply evolves_publications|exact Hev'].
  intros b1 b2 b3 ? Hwd. etrans; [done|]. by eapply withdrawn_by_same.
Qed.
Lemma changed_by_same id e b b' id' e' x x' :
  same_experiment b b' → ((id', e') = (id, e) → x = b) → changed_by id e b b' id' e' x x' → same_experiment x x'.
Proof.
  intros Hs Hx. unfold changed_by. destruct (decide _) as [[-> ->]|Hne].
  - rewrite Hx by done. case_bool_decide; [intros [Hw _]|intros ->]; [|done]. etrans; [done|].
    by eapply withdrawn_by_same.
  - case_bool_decide; [intros [Hw _]|intros ->]; [|done]. by eapply withdrawn_by_same.
Qed.
(** Looking up an experiment after a change, from what it was before, and back. *)
Lemma changes_lookup st id e b b' st' id' e' x' :
  Well st → changes st id e b b' st' → lookup_experiment st' id' e' = Some x' →
  ∃ x, lookup_experiment st id' e' = Some x ∧ same_experiment x x' ∧ changed_by id e b b' id' e' x x'.
Proof.
  intros Hw Hc Hx'. destruct (changes_effect _ _ _ _ _ _ Hw Hc) as (_ & _ & Hl). specialize (Hl id' e').
  rewrite Hx' in Hl. inversion Hl as [x x0 Hcb Hx Heq|]; subst. exists x. split; [done|]. split; [|done].
  eapply changed_by_same; [apply Hc| |exact Hcb]. intros [= -> ->]. pose proof (ch_before _ _ _ _ _ _ Hc). congruence.
Qed.
Lemma changes_lookup_forward st id e b b' st' id' e' x :
  Well st → changes st id e b b' st' → lookup_experiment st id' e' = Some x →
  ∃ x', lookup_experiment st' id' e' = Some x' ∧ same_experiment x x' ∧ changed_by id e b b' id' e' x x'.
Proof.
  intros Hw Hc Hx. destruct (changes_effect _ _ _ _ _ _ Hw Hc) as (_ & _ & Hl). specialize (Hl id' e').
  rewrite Hx in Hl. inversion Hl as [x0 x' Hcb Heq Hx'|]; subst. exists x'. split; [done|]. split; [|done].
  eapply changed_by_same; [apply Hc| |exact Hcb]. intros [= -> ->]. pose proof (ch_before _ _ _ _ _ _ Hc). congruence.
Qed.

(** ** The operations that change an experiment *)

Lemma enact_same b p resolved arch b1 act :
  enact b p resolved arch = Ok (b1, act) → same_experiment b b1 ∧ revision b1 = revision b ∧
  (status b ≠ Paused → status b ≠ RolledBack → status_step (status b) (status b1)).
Proof.
  unfold enact, status_step. intros Hen. repeat case_match; res_inv; simplify_eq; split_and!; try done; try tauto.
  intros. destruct (status b) eqn:Hs; naive_solver.
Qed.
Lemma plan_changes clock id e p resolved st st' fresh :
  apply_experiment_plan clock id e p resolved st = Ok (st', fresh) →
  (fresh = false ∧ st' = st) ∨
  ∃ b b1 act, fresh = true ∧ mode st ≠ Off ∧ dependencies_match st b = true ∧ status b ≠ RolledBack ∧
    contract_matches b (learner_version p) (plan_contract p) (config_digest p) LEARNER_VERSION = true ∧
    enact b p resolved (is_none_or (λ b, negb (bool_decide (experiment_id b = e))) (blocks st !! id)) = Ok (b1, act) ∧
    changes st id e b (with_plan p (if keeps_revision act then b1
      else with_revision (digest (D_strings [revision b; act; plan_id p])) b1)) st'.
Proof.
  unfold apply_experiment_plan. set (arch := is_none_or _ _).
  intros ([] & Hm%ensure_ok & (b & Hb%ok_or_ok & ([] & Hdep%ensure_ok & ([] & Hcon%ensure_ok & Hp)%bind_ok)%bind_ok)%bind_ok)%bind_ok.
  destruct (is_some_and _ _); [injection Hp as <- <-; by left|]. right.
  apply bind_ok in Hp as ([] & Hrb%ensure_ok & ([b1 act] & Hen & Hp)%bind_ok).
  apply bind_ok in Hp as (st1 & Hu%ok_or_ok & (st2 & Hpub & (st3 & Hwd & [= <- <-])%bind_ok)%bind_ok).
  exists b, b1, act. pose proof (enact_same _ _ _ _ _ _ Hen) as (Hs & _ & _).
  apply negb_true_iff, bool_decide_eq_false in Hm, Hrb. split_and!; try done.
  split; [done|destruct (keeps_revision act); destruct Hs; by split|].
  do 7 eexists. split; [exact Hu|]. split; [exact Hpub|]. case_bool_decide; [exact Hwd|by injection Hwd as <-].
Qed.
Lemma monitoring_changes clock id e m st st' fresh :
  apply_experiment_monitoring clock id e m st = Ok (st', fresh) →
  (fresh = false ∧ st' = st) ∨
  ∃ b, fresh = true ∧ mode st ≠ Off ∧ rollback m = true ∧ status b = Adopted ∧ dependencies_match st b = true ∧
    changes st id e b (with_status RolledBack (with_revision
      (digest (D_strings [revision b; "adopted_quality_rollback"; monitor_evidence m])) b)) st'.
Proof.
  unfold apply_experiment_monitoring.
  intros ([] & Hm%ensure_ok & (b & Hb%ok_or_ok & ([] & Hdep%ensure_ok & ([] & _ & Hp)%bind_ok)%bind_ok)%bind_ok)%bind_ok.
  destruct (rollback m) eqn:Hr; cbn [negb] in Hp; [|injection Hp as <- <-; by left]. right.
  apply bind_ok in Hp as (st1 & Hu%ok_or_ok & (st2 & Hpub & (st3 & Hwd & [= <- <-])%bind_ok)%bind_ok).
  apply andb_true_iff in Hdep as [Hs%bool_decide_eq_true Hdep]. apply negb_true_iff, bool_decide_eq_false in Hm.
  exists b. split_and!; try done. split; [done|by split|].
  do 7 eexists. split; [exact Hu|]. split; [exact Hpub|]. rewrite bool_decide_eq_true_2 by done. exact Hwd.
Qed.
Lemma restore_changes clock r st st' p :
  restore clock r st = Ok (st', p) →
  (List.find (is_receipt r) (publications st) = Some p ∧ st' = st) ∨
  ∃ b, List.find (is_receipt r) (publications st) = None ∧ status b ≠ RolledBack ∧
    blocks st !! block r = Some b ∧ experiment_id b = expected_experiment r ∧ revision b = expected_revision r ∧
    changes st (block r) (expected_experiment r) b (with_status RolledBack (with_revision
      (digest (D_strings [revision b; "operator_restore"; reason r])) b)) st'.
Proof.
  unfold restore. intros ([] & _ & Hp)%bind_ok. destruct (List.find _ _) as [q|] eqn:Hf; [injection Hp as <- <-; by left|].
  right. apply bind_ok in Hp as (b & Hb%ok_or_ok & ([] & Hexp%ensure_ok & ([] & Hrb%ensure_ok & Hp)%bind_ok)%bind_ok).
  apply bind_ok in Hp as (g & Hg%ok_or_ok & (st2 & Hwd & [= <- <-])%bind_ok).
  apply andb_true_iff in Hexp as [He%bool_decide_eq_true Hr%bool_decide_eq_true].
  apply negb_true_iff, bool_decide_eq_false in Hrb. exists b. split_and!; try done.
  split; [rewrite <-He; by apply lookup_experiment_current|by split|].
  do 7 eexists. split_and!.
  - unfold update_experiment. rewrite Hb. cbn. by rewrite bool_decide_eq_true_2.
  - unfold publish. cbn. rewrite Hg. cbn. reflexivity.
  - rewrite bool_decide_eq_true_2 by done. rewrite <-He. unfold with_blocks, with_publications in *. cbn in *.
    rewrite <-He in Hwd. replace (alter _ _ _) with (<[block r := with_status RolledBack (with_revision
      (digest (D_strings [revision b; "operator_restore"; reason r])) b)]> (blocks st)); [exact Hwd|].
    apply map_eq. intros k. destruct (decide (k = block r)) as [->|];
      [by rewrite lookup_insert_eq, lookup_alter_eq, Hb|by rewrite lookup_insert_ne, lookup_alter_ne].
Qed.

(** ** A new experiment *)

Definition adds (st : ControlState) (id e : string) (b : BlockState) (st' : ControlState) : Prop :=
  ∀ id' e', lookup_experiment st' id' e' =
    if decide (id' = id ∧ e' = e) then Some b else lookup_experiment st id' e'.
Lemma register_adds d config st st' :
  Well st → unused st (registered_id st d config) → register d config st = Ok st' →
  ∃ b, BlockDefinition_validate d = Ok tt ∧ blocks st !! block_id d = None ∧
    (∀ c r r', c ∈ (sorted_entries (blocks st)).*2 → source (definition c) = source d →
       r ∈ rules d → r' ∈ rules (definition c) → overlap r r' = false) ∧
    definition b = d ∧ experiment_id b = registered_id st d config ∧ status b = Exploring ∧
    predecessor_experiment_id b = None ∧ baseline_ancestry b = [] ∧ batch b = EnrollmentBatch_default ∧
    assigned_challenger_sessions b = 0 ∧ plan b = None ∧ routing_config_digest b = config ∧
    st' = with_publications (generation st + 1) (publications st) (with_blocks (<[block_id d := b]> (blocks st)) st) ∧
    generation st + 1 ≤ u64_max ∧
    Well st' ∧ adds st (block_id d) (experiment_id b) b st'.
Proof.
  intros Hw Hu. unfold register.
  intros ([] & Hv & ([] & Hnew%ensure_ok & ([] & Hcold & ([] & Hover & ([] & _ & Hr)%bind_ok)%bind_ok)%bind_ok)%bind_ok)%bind_ok.
  apply bind_ok in Hr as (g & Hg%ok_or_ok & [= <-]). apply checked_add_Some in Hg as [-> Hg].
  apply negb_true_iff in Hnew. unfold is_some in Hnew. apply bool_decide_eq_false, eq_None_not_Some in Hnew.
  set (b := {| definition := d |}). exists b. split_and!; try done.
  { intros c r r' Hc Hsrc Hr Hr'. rewrite for_each_ok, Forall_forall in Hover. specialize (Hover _ Hc).
    apply ensure_ok, negb_true_iff in Hover. unfold overlaps_with in Hover. rewrite bool_decide_eq_true_2 in Hover by done.
    cbn in Hover. apply not_true_iff_false. intros Ho. apply not_true_iff_false in Hover. apply Hover.
    apply existsb_exists. exists r. split; [by apply list_elem_of_In|]. apply existsb_exists. exists r'.
    split; [by apply list_elem_of_In|done]. }
  - pose proof Hu as Hu'. rewrite unused_spec in Hu' by done. destruct Hw as [W1 W2 W3 W4]. split; cbn.
    + intros id c. rewrite lookup_insert_Some. intros [[<- <-]|[_ Hc]]; [done|by eapply W1].
    + intros e a Ha. destruct (W2 _ _ Ha) as [? [c Hc]]. split; [done|].
      destruct (decide (block_id d = block_id (definition (arch_block a)))) as [->|];
        [rewrite lookup_insert_eq|rewrite lookup_insert_ne by done]; eauto.
    + intros id c. rewrite lookup_insert_Some. intros [[<- <-]|[_ Hc]]; [|by eapply W3].
      apply (unused_archived st); [by split|done].
    + assert (∀ id' c, blocks st !! id' = Some c → experiment_id c ≠ registered_id st d config) as Hne.
      { intros id' c Hc Heq. specialize (Hu' id'). rewrite <-Heq in Hu'.
        by rewrite (lookup_experiment_current _ _ _ Hc) in Hu'. }
      intros id1 b1 id2 b2. rewrite !lookup_insert_Some.
      intros [[<- <-]|[_ H1b]] [[<- <-]|[_ H2b]] Heq; [done| | |by eapply W4].
      * by destruct (Hne _ _ H2b).
      * by destruct (Hne _ _ H1b).
  - intros id' e'. unfold lookup_experiment, experiment. cbn.
    destruct (decide (id' = block_id d)) as [->|Hne].
    + rewrite lookup_insert_eq, Hnew. cbn. destruct (decide (_ ∧ e' = _)) as [[_ ->]|Hn];
        [by rewrite bool_decide_eq_true_2|]. rewrite bool_decide_eq_false_2 by naive_solver.
      apply eq_None_not_Some. intros [c (a & Ha & <- & Hid)%archived_of_Some].
      destruct (well_archived _ Hw _ _ Ha) as [_ [c Hc]]. cbn in *. rewrite Hid in Hc. congruence.
    + rewrite lookup_insert_ne by done. by rewrite decide_False by naive_solver.
Qed.
Lemma revise_adds clock d routing_digest predecessor reset st st' :
  Well st → allowed st (Revise d routing_digest predecessor reset) →
  revise clock d routing_digest predecessor reset st = Ok st' →
  ∃ previous baseline ancestry inherit b g, BlockDefinition_validate d = Ok tt ∧
    blocks st !! block_id d = Some previous ∧ experiment_id previous = predecessor ∧
    source d = source (definition previous) ∧ matchers (rules d) = matchers (rules (definition previous)) ∧
    inherited st previous reset = Ok (baseline, ancestry, inherit) ∧
    check_baselines reset inherit (rules d) (rules (definition baseline)) = Ok tt ∧
    definition b = d ∧ experiment_id b = revised_id previous d routing_digest ancestry ∧ status b = Exploring ∧
    predecessor_experiment_id b = Some predecessor ∧ baseline_ancestry b = ancestry ∧
    batch b = EnrollmentBatch_default ∧ assigned_challenger_sessions b = 0 ∧ plan b = None ∧
    routing_config_digest b = routing_digest ∧ unused st (experiment_id b) ∧
    g = generation st + 1 ∧ g ≤ u64_max ∧ same_settings st st' ∧ generation st' = g ∧
    (∃ now, publications st' = publications st ++
      [{| pub_generation := g; pub_block_id := block_id d; pub_experiment_id := Some (experiment_id b);
          previous_revision := revision previous; pub_revision := revision b; action := "experiment_revised";
          pub_evidence := None; operator_reason := None; recorded_at := now |}]) ∧
    blocks st' = <[block_id d := b]> (blocks st) ∧
    (∃ a, arch_block a = previous ∧ archived_experiments st' = <[predecessor := a]> (archived_experiments st)) ∧
    Well st' ∧ adds st (block_id d) (experiment_id b) b st'.
Proof.
  intros Hw [Hty Hal]. unfold revise.
  intros ([] & Hv & (previous & Hprev%ok_or_ok & ([] & He%ensure_ok & Hr)%bind_ok)%bind_ok)%bind_ok.
  apply bind_ok in Hr as ([] & Hsrc%ensure_ok & ([] & Hmat%ensure_ok & ([[baseline ancestry] inherit] & Hinh & Hr)%bind_ok)%bind_ok).
  apply bind_ok in Hr as ([] & Hcb & ([] & _ & ([] & Hna%ensure_ok & Hr)%bind_ok)%bind_ok).
  apply bind_ok in Hr as (st1 & Hpub & Hst). injection Hst as <-.
  apply publish_ok in Hpub as (g & Hg & Hmax & ->).
  apply bool_decide_eq_true in He, Hsrc, Hmat. specialize (Hal _ _ _ _ Hprev Hinh).
  set (b := {| definition := d; baseline_ancestry := ancestry |}). exists previous, baseline, ancestry, inherit, b, g.
  rewrite <-He. split_and!; try done.
  - eexists. cbn. reflexivity.
  - eexists. split; [|cbn; reflexivity]. done.
  - pose proof Hal as Hal'. rewrite unused_spec in Hal' by done. destruct Hw as [W1 W2 W3 W4]. split; cbn.
    + intros id c. rewrite lookup_insert_Some. intros [[<- <-]|[_ Hc]]; [done|by eapply W1].
    + intros e a. rewrite lookup_insert_Some. intros [[<- <-]|[Hne Ha]]; cbn.
      * split; [done|]. rewrite (W1 _ _ Hprev), lookup_insert_eq. eauto.
      * destruct (W2 _ _ Ha) as [? [c Hc]]. split; [done|].
        destruct (decide (block_id d = block_id (definition (arch_block a)))) as [->|];
          [rewrite lookup_insert_eq|rewrite lookup_insert_ne by done]; eauto.
    + assert (revised_id previous d routing_digest ancestry ≠ experiment_id previous) as Hnp.
      { intros Heq. specialize (Hal' (block_id d)). rewrite Heq in Hal'.
        by rewrite (lookup_experiment_current _ _ _ Hprev) in Hal'. }
      intros id c. rewrite lookup_insert_Some. intros [[<- <-]|[Hid Hc]].
      * cbn. rewrite lookup_insert_ne by done. apply (unused_archived st); [by split|done].
      * rewrite lookup_insert_ne; [by eapply W3|]. intros Heq. apply Hid. by eapply (W4 _ _ _ _ Hprev Hc).
    + assert (∀ id' c, blocks st !! id' = Some c → experiment_id c ≠ revised_id previous d routing_digest ancestry) as Hne.
      { intros id' c Hc Heq. specialize (Hal' id'). rewrite <-Heq in Hal'.
        by rewrite (lookup_experiment_current _ _ _ Hc) in Hal'. }
      intros id1 b1 id2 b2. rewrite !lookup_insert_Some.
      intros [[<- <-]|[_ H1b]] [[<- <-]|[_ H2b]] Heq; [done| | |by eapply W4].
      * by destruct (Hne _ _ H2b).
      * by destruct (Hne _ _ H1b).
  - intros id' e'. unfold lookup_experiment, experiment. cbn.
    destruct (decide (id' = block_id d)) as [->|Hne].
    + rewrite lookup_insert_eq, Hprev. cbn [mbind option_bind]. destruct (decide (_ ∧ e' = _)) as [[_ ->]|Hn];
        [by rewrite bool_decide_eq_true_2|]. rewrite bool_decide_eq_false_2 by naive_solver.
      unfold archived_of. cbn. destruct (decide (e' = experiment_id previous)) as [->|Hne].
      * rewrite lookup_insert_eq. cbn. rewrite (well_key _ Hw _ _ Hprev). by rewrite !bool_decide_eq_true_2.
      * rewrite lookup_insert_ne by done. by rewrite (bool_decide_eq_false_2 (experiment_id previous = e')) by done.
    + rewrite lookup_insert_ne, decide_False by naive_solver.
      destruct (blocks st !! id') as [c|] eqn:Hc; cbn; [|done].
      destruct (bool_decide (experiment_id c = e')) eqn:Hce; [done|]. unfold archived_of. cbn.
      destruct (decide (e' = experiment_id previous)) as [->|Hne']; [|by rewrite lookup_insert_ne].
      rewrite lookup_insert_eq, (well_current _ Hw _ _ Hprev). cbn.
      by rewrite (well_key _ Hw _ _ Hprev), bool_decide_eq_false_2.
Qed.

(** ** Reservations *)

(** What a reservation keeps. *)
Definition trial_update (b b' : BlockState) : Prop :=
  same_experiment b b' ∧ status b' = status b ∧ revision b' = revision b ∧ plan b' = plan b.
#[export] Instance trial_update_reflexive : Reflexive trial_update.
Proof. intros b. by split_and!. Qed.
(** The two ways in which a reservation writes a block. *)
Definition reserved (b b' : BlockState) : Prop :=
  b' = close_batch b ∨
  ∃ key arm, b' = enroll key arm b ∧ members (batch b) !! key = None ∧
    assigned_challenger_sessions b < maximum_challenger_sessions (bandit (definition b)) ∧
    outstanding_challenger_reservations b < maximum_pending_challenger (bandit (definition b)).
Lemma reserved_update b b' : reserved b b' → trial_update b b'.
Proof.
  intros [->|(key & a & -> & _)]; [by repeat split|]. unfold enroll. destruct (saturated _); by repeat split.
Qed.
Record reserves (st : ControlState) (id : string) (b b' : BlockState) (st' : ControlState) : Prop := {
  rs_block : blocks st !! id = Some b;
  rs_mode : mode st ≠ Off;
  rs_status : status b = Exploring;
  rs_open : closed (batch b) = false;
  rs_supported : dependencies_match st b = true;
  rs_plan : is_some_and (stale_plan b) (plan b) = false;
  rs_reserved : reserved b b';
  rs_after : ∃ n, st' = with_sequence n (with_blocks (<[id := b']> (blocks st)) st) ∧
    next_assignment_sequence st ≤ n }.
Lemma reserve_reserves id key seed st st' al :
  reserve_trial id key seed st = Ok (st', al) →
  (st' = st ∧ al = None) ∨
  ∃ b b', reserves st id b b' st' ∧
    match al with
    | None => b' = close_batch b ∧ next_assignment_sequence st' = next_assignment_sequence st
    | Some a => b' = enroll key (t_arm a) b ∧ members (batch b) !! key = None ∧
        draw_assignment (last_exposure_ppm b) seed = Ok (t_arm a) ∧
        t_assignment_sequence a = next_assignment_sequence st + 1 ∧
        next_assignment_sequence st' = t_assignment_sequence a ∧ t_assignment_sequence a ≤ u64_max ∧
        t_batch_sequence a = sequence (batch b)
    end.
Proof.
  unfold reserve_trial. intros ([] & _ & (b & Hb%ok_or_ok & Hr)%bind_ok)%bind_ok.
  destruct (bool_decide (mode st = Off) || _ || _ || _ || _) eqn:Hg; [injection Hr as <- <-; by left|]. right.
  apply orb_false_iff in Hg as [[[[Hm Hs]%orb_false_iff Hc]%orb_false_iff Hd]%orb_false_iff Hp].
  apply bool_decide_eq_false in Hm. apply negb_false_iff in Hs, Hd. apply bool_decide_eq_true in Hs.
  apply bind_ok in Hr as ([] & Hk%ensure_ok & Hr). apply negb_true_iff in Hk.
  unfold is_some in Hk. apply bool_decide_eq_false, eq_None_not_Some in Hk.
  destruct ((_ <=? _) || _) eqn:Hlim.
  - injection Hr as <- <-. exists b, (close_batch b). split; [|done]. split; try done; [by left|].
    exists (next_assignment_sequence st). split; [by destruct st|done].
  - apply orb_false_iff in Hlim as [Ha%Z.leb_gt Ho%Z.leb_gt].
    apply bind_ok in Hr as (a & Ha' & (n & Hn%ok_or_ok & [= <- <-])%bind_ok).
    apply checked_add_Some in Hn as [-> Hn].
    exists b, (enroll key a b). split; [|by split_and!]. split; try done.
    + right. by exists key, a.
    + eexists. split; [done|lia].
Qed.
Lemma reserves_evolves st id b b' st' : reserves st id b b' st' → evolves trial_update st st'.
Proof.
  intros []. destruct rs_after0 as (n & -> & _). split; cbn; intros k; [|by apply option_Forall2_refl].
  destruct (decide (k = id)) as [->|]; [rewrite lookup_insert_eq, rs_block0; constructor; by apply reserved_update|].
  rewrite lookup_insert_ne by done. by apply option_Forall2_refl.
Qed.

(** ** Every operation as a sequence of such effects *)

(** Settings: the mode and what depends on it. *)
Record Settings (st : ControlState) : Prop := {
  set_feedback : mode st = Off ↔ feedback_started_at st = None;
  set_trial : mode st = Off ↔ trial_started_at st = None;
  set_judge : mode st = Automatic → is_Some (judge_model st) }.
(** The ways in which a plan may change the block. *)
Definition planned (b b' : BlockState) : Prop :=
  (∃ p resolved arch b1 act, status b ≠ RolledBack ∧
    contract_matches b (learner_version p) (plan_contract p) (config_digest p) LEARNER_VERSION = true ∧
    enact b p resolved arch = Ok (b1, act) ∧
    b' = with_plan p (if keeps_revision act then b1
      else with_revision (digest (D_strings [revision b; act; plan_id p])) b1)) ∨
  ∃ r, status b ≠ RolledBack ∧ b' = with_status RolledBack (with_revision r b).
Inductive effect (st st' : ControlState) : Prop :=
| E_settings : blocks st' = blocks st → archived_experiments st' = archived_experiments st →
    publications st' = publications st → generation st ≤ generation st' ≤ Z.max (generation st) u64_max →
    next_assignment_sequence st ≤ next_assignment_sequence st' →
    (Settings st → Settings st') → effect st st'
| E_reserve id b b' : reserves st id b b' st' → effect st st'
| E_change id e b b' : changes st id e b b' st' → planned b b' → effect st st'
| E_register d config : typed d → unused st (registered_id st d config) → register d config st = Ok st' →
    effect st st'
| E_revise clock d routing_digest predecessor reset :
    allowed st (Revise d routing_digest predecessor reset) →
    revise clock d routing_digest predecessor reset st = Ok st' → effect st st'.

Lemma set_mode_effect clock m model st st' : set_mode clock m model st = Ok st' → effect st st'.
Proof.
  unfold set_mode. intros ([] & _ & ([] & Hauto%ensure_ok & Hr)%bind_ok)%bind_ok.
  destruct (_ || _ || _) eqn:Hc.
  - apply bind_ok in Hr as (ep & _ & (tr & _ & (g & Hg%ok_or_ok & [= <-])%bind_ok)%bind_ok).
    apply checked_add_Some in Hg as [-> ?]. apply E_settings; cbn; try done; [lia|].
    intros [Hf Ht Hj]. split; cbn.
    + destruct (bool_decide (m = Off)) eqn:Hm; [apply bool_decide_eq_true in Hm|apply bool_decide_eq_false in Hm]; done.
    + destruct (xorb _ _) eqn:Hx.
      * destruct (bool_decide (m = Off)) eqn:Hm; [apply bool_decide_eq_true in Hm|apply bool_decide_eq_false in Hm]; done.
      * rewrite <-Ht. apply xorb_eq in Hx.
        rewrite <-(bool_decide_eq_true (m = Off)), Hx. apply bool_decide_eq_true.
    + intros ->. rewrite bool_decide_eq_true_2 in Hauto by done. by apply bool_decide_eq_true in Hauto.
  - injection Hr as <-. apply orb_false_iff in Hc as [[Hm Hj]%orb_false_iff _].
    apply negb_false_iff, bool_decide_eq_true in Hm, Hj.
    apply E_settings; cbn; try done; [lia|]. intros [? ? Hju]. split; cbn; try done. by rewrite <-Hj.
Qed.
Lemma plan_effect clock id e p resolved st st' fresh :
  apply_experiment_plan clock id e p resolved st = Ok (st', fresh) → st' = st ∨ effect st st'.
Proof.
  intros [[_ ->]|(b & b1 & act & _ & _ & _ & Hs & Hc & Hen & Hch)]%plan_changes; [by left|].
  right. eapply E_change; [exact Hch|]. left. do 5 eexists. done.
Qed.
Lemma monitoring_effect clock id e m st st' fresh :
  apply_experiment_monitoring clock id e m st = Ok (st', fresh) → st' = st ∨ effect st st'.
Proof.
  intros [[_ ->]|(b & _ & _ & _ & Hs & _ & Hch)]%monitoring_changes; [by left|].
  right. eapply E_change; [exact Hch|]. right. eexists. split; [|done]. by rewrite Hs.
Qed.
Lemma restore_effect clock r st st' p : restore clock r st = Ok (st', p) → st' = st ∨ effect st st'.
Proof.
  intros [[_ ->]|(b & _ & Hs & _ & _ & _ & Hch)]%restore_changes; [by left|].
  right. eapply E_change; [exact Hch|]. right. by eexists.
Qed.
(** Admission only takes sequence numbers and reserves trials. *)
Inductive trial_effect (st st' : ControlState) : Prop :=
| T_sequence n : next_assignment_sequence st ≤ n → st' = with_sequence n st → trial_effect st st'
| T_reserve id b b' : reserves st id b b' st' → trial_effect st st'.
Lemma trial_effect_effect st st' : trial_effect st st' → effect st st'.
Proof.
  intros [n Hn ->|id b b' Hr]; [|by eapply E_reserve].
  apply E_settings; cbn; try done; try lia. by intros [? ? ?].
Qed.
Lemma trial_effects_effects st st' : rtc trial_effect st st' → rtc effect st st'.
Proof. apply rtc_subrel, trial_effect_effect. Qed.
Lemma trial_effects_evolve st st' : rtc trial_effect st st' → evolves trial_update st st'.
Proof.
  intros Hr. induction Hr as [|st1 st2 st3 Heff _ IH]; [by apply evolves_refl|].
  eapply (evolves_trans trial_update trial_update); [|destruct Heff as [n _ ->|id b b' Hr]|exact IH].
  - intros b1 b2 b3 (Hs1 & ? & ? & ?) (Hs2 & ? & ? & ?). split_and!; [by etrans|congruence..].
  - destruct (evolves_refl trial_update st1 _) as [Hb Ha]. by split.
  - by eapply reserves_evolves.
Qed.
Lemma reserve_effect id key seed st st' al :
  reserve_trial id key seed st = Ok (st', al) → rtc trial_effect st st'.
Proof.
  intros [[-> _]|(b & b' & Hr & _)]%reserve_reserves; [done|]. apply rtc_once. by eapply T_reserve.
Qed.
Lemma monitor_block_effect times inp refs s x s' :
  monitor_block times inp refs s x = Ok s' → rtc trial_effect s.1.1 s'.1.1.
Proof.
  destruct s as [[st e] t], x as [id exp]. unfold monitor_block.
  intros (b & _ & Hr)%bind_ok. destruct (_ || _ || _ || _); [by injection Hr as <-|].
  apply bind_ok in Hr as (n & Hn%ok_or_ok & [= <-]). apply checked_add_Some in Hn as [-> _].
  apply rtc_once, (T_sequence _ _ (next_assignment_sequence st + 1)); [cbn; lia|done].
Qed.
Lemma assign_block_effect seeds times inp refs s x s' :
  assign_block seeds times inp refs s x = Ok s' → rtc trial_effect s.1.1 s'.1.1.
Proof.
  destruct s as [[st e] t], x as [i id]. unfold assign_block.
  intros ([st1 al] & Hr%reserve_effect & Hs)%bind_ok. destruct al as [al|]; [|injection Hs as <-; exact Hr].
  apply bind_ok in Hs as (b & _ & [= <-]). exact Hr.
Qed.
Lemma admit_effect seeds times inp st s :
  admission seeds times inp st = Ok s → rtc trial_effect st s.1.1.
Proof.
  unfold admission. intros (s1 & Hm & Ht)%bind_ok. trans s1.1.1.
  - unfold admit_monitoring in Hm. destruct (_ && _); [|by injection Hm as <-].
    refine (try_fold_inv _ (λ s, rtc trial_effect st s.1.1) _ _ _ _ _ Hm); [|apply rtc_refl].
    intros s2 x s3 _ Hs2 Hs3%monitor_block_effect. by etrans.
  - unfold admit_trials in Ht. destruct s1 as [[st1 e1] t1]. destruct (_ && _ && _ && _); [|by injection Ht as <-].
    refine (try_fold_inv _ (λ s, rtc trial_effect st1 s.1.1) _ _ _ _ _ Ht); [|apply rtc_refl].
    intros s2 x s3 _ Hs2 Hs3%assign_block_effect. by etrans.
Qed.
Lemma select_ok seeds times inp st st' e i :
  select seeds times inp st = Ok (st', e, i) →
  ∃ t d, admission seeds times inp st = Ok (st', e, t) ∧
    try_fold (decide_block st' inp e) (passthrough inp) (sorted_keys (blocks st')) = Ok d ∧
    selected_route i = route (bypassed inp d) ∧ applied_block i = decided_by (bypassed inp d) ∧
    i_reason i = why (bypassed inp d).
Proof.
  unfold select. intros ([[st1 e1] t] & Ha & (d & Hd & [= <- <- <-])%bind_ok)%bind_ok. by exists t, d.
Qed.
Lemma step_effect clock o st st' : allowed st o → exec clock o st = Ok st' → rtc effect st st'.
Proof.
  destruct o as [m model|d config|d rd pr reset|id e p resolved|id e m|r|id key seed|seeds inp]; cbn [exec allowed];
    intros Hal Hx.
  - eapply rtc_once, set_mode_effect, Hx.
  - destruct Hal. by eapply rtc_once, E_register.
  - by eapply rtc_once, E_revise.
  - destruct (apply_experiment_plan _ _ _ _ _ _) as [[st1 f]|] eqn:Hp; [|done]. injection Hx as <-.
    apply plan_effect in Hp as [->|]; [done|by apply rtc_once].
  - destruct (apply_experiment_monitoring _ _ _ _ _) as [[st1 f]|] eqn:Hp; [|done]. injection Hx as <-.
    apply monitoring_effect in Hp as [->|]; [done|by apply rtc_once].
  - destruct (restore _ _ _) as [[st1 f]|] eqn:Hp; [|done]. injection Hx as <-.
    apply restore_effect in Hp as [->|]; [done|by apply rtc_once].
  - destruct (reserve_trial _ _ _ _) as [[st1 f]|] eqn:Hp; [|done]. injection Hx as <-. by eapply trial_effects_effects, reserve_effect.
  - destruct (select _ _ _ _) as [[[st1 e] i]|] eqn:Hp; [|done]. injection Hx as <-.
    apply select_ok in Hp as (t & d & Ha & _). by apply trial_effects_effects, (admit_effect _ _ _ _ _ Ha).
Qed.
(** The rule of induction: an invariant of the effects holds in every reachable state. *)
Lemma effects_invariant (I : ControlState → Prop) :
  (∀ st st', I st → effect st st' → I st') → ∀ st st', I st → rtc effect st st' → I st'.
Proof. intros Hi st st' Hst Hr. induction Hr as [|st st1 st2 He _ IH]; [done|]. apply IH. by eapply Hi. Qed.
Lemma steps_effects st st' : rtc step st st' → rtc effect st st'.
Proof.
  intros Hr. induction Hr as [|st1 st2 st3 (clock & o & Hal & Hx) _ IH]; [done|].
  etrans; [|exact IH]. by eapply step_effect.
Qed.
End lineage.
