(* ===== verification/BlockInvariant.v ===== *)
(** The invariants of the evolution control: the lineage of experiments, the limits of their cohorts, the evidence
    behind an adoption, and the log of publications. The log is the history of every experiment: its entries have
    increasing generations, each continues the revision at which the one before it ended, and the last one ends
    at the revision that the experiment has now. *)
From stdpp Require Import base list strings gmap sorting.
From Stdlib Require Import ZArith Lia Ascii.
From S2P Require Import Prelude BlockTypes BlockControl BlockSelection BlockSystem BlockLineage.
Open Scope Z_scope.

Section invariant.
Context `{Sha256, BlockJson, SeededDraw}.

Lemma Well_default : Well ControlState_default.
Proof. split; cbn; intros; simplify_map_eq. Qed.
Lemma Well_effect st st' : Well st → effect st st' → Well st'.
Proof.
  intros Hw [Hb Ha _ _ _ _|id b b' Hr|id e b b' Hc _|d config _ Hu Hr|clock d rd pr reset Hal Hr].
  - destruct Hw as [W1 W2 W3 W4]. split; rewrite ?Hb, ?Ha; done.
  - eapply (evolves_well trial_update); [by intros ?? []|by eapply reserves_evolves|done].
  - by destruct (changes_effect _ _ _ _ _ _ Hw Hc).
  - apply register_adds in Hr as (b & Hr); [|done..]. apply Hr.
  - apply revise_adds in Hr as (p & ba & an & inh & b & g & Hr); [|done..]. apply Hr.
Qed.

(** ** Lineage *)

(** Matchers decide overlap. *)
Definition overlap_matchers (m m' : string * option string) : bool :=
  bool_decide (m.1 = m'.1) &&
  (bool_decide (m.2 = None) || bool_decide (m'.2 = None) || bool_decide (m.2 = m'.2)).
Lemma overlap_matcher r r' : overlap r r' = overlap_matchers (matcher r) (matcher r').
Proof. done. Qed.
Lemma overlap_matchers_sym m m' : overlap_matchers m m' = overlap_matchers m' m.
Proof.
  apply eq_bool_prop_intro. unfold overlap_matchers.
  rewrite !andb_True, !orb_True, !bool_decide_spec. naive_solver.
Qed.
Lemma elem_of_matchers m l : m ∈ matchers l ↔ ∃ r, r ∈ l ∧ matcher r = m.
Proof. unfold matchers. rewrite elem_of_list_to_set, list_elem_of_fmap. naive_solver. Qed.

Record Lineage (st : ControlState) : Prop := {
  lin_ancestor : ∀ id e b i x, lookup_experiment st id e = Some b → baseline_ancestry b !! i = Some x →
    ∃ a, lookup_experiment st id x = Some a ∧ baseline_ancestry a = take i (baseline_ancestry b) ∧
      (status a = Adopted ∨ status a = RolledBack) ∧ (status b ≠ RolledBack → status a = Adopted);
  lin_block : ∀ id e b c, lookup_experiment st id e = Some b → blocks st !! id = Some c →
    matchers (rules (definition b)) = matchers (rules (definition c)) ∧
    source (definition b) = source (definition c);
  lin_valid : ∀ id e b, lookup_experiment st id e = Some b →
    BlockDefinition_validate (definition b) = Ok tt ∧ typed (definition b) ∧ status b ≠ Paused;
  lin_disjoint : ∀ id b id' b' r r', blocks st !! id = Some b → blocks st !! id' = Some b' → id ≠ id' →
    source (definition b) = source (definition b') → r ∈ rules (definition b) → r' ∈ rules (definition b') →
    overlap r r' = false;
  lin_acyclic : ∃ rank : string → nat, ∀ id e b p, lookup_experiment st id e = Some b →
    predecessor_experiment_id b = Some p → (rank p < rank e)%nat ∧ is_Some (lookup_experiment st id p) }.

Lemma lookup_experiment_block st id e b :
  lookup_experiment st id e = Some b → ∃ c, blocks st !! id = Some c.
Proof. intros (c & Hc & _)%lookup_experiment_Some. by exists c. Qed.
Lemma Lineage_default : Lineage ControlState_default.
Proof.
  split; try (intros *; cbn; intros; simplify_map_eq; done). exists (λ _, O). intros *; cbn; intros; simplify_map_eq.
Qed.

(** Effects under which every experiment keeps its status. *)
Lemma Lineage_evolves st st' :
  evolves (λ b b', same_experiment b b' ∧ status b' = status b) st st' → Lineage st → Lineage st'.
Proof.
  intros Hev [L1 L2 L3 L4 [rank L5]]. set (R := λ b b', same_experiment b b' ∧ status b' = status b) in *.
  assert (∀ id e b', lookup_experiment st' id e = Some b' → ∃ b, lookup_experiment st id e = Some b ∧ R b b') as Hback.
  { intros id e b' Hb'. pose proof (evolves_lookup R st st' id e ltac:(by intros ?? []) Hev) as Hl.
    rewrite Hb' in Hl. inversion Hl; subst; eauto. }
  assert (∀ id e b, lookup_experiment st id e = Some b → ∃ b', lookup_experiment st' id e = Some b' ∧ R b b') as Hforth.
  { intros id e b Hb. pose proof (evolves_lookup R st st' id e ltac:(by intros ?? []) Hev) as Hl.
    rewrite Hb in Hl. inversion Hl; subst; eauto. }
  assert (∀ id b', blocks st' !! id = Some b' → ∃ b, blocks st !! id = Some b ∧ R b b') as Hcur.
  { intros id b' Hb'. pose proof (evolves_blocks _ _ _ Hev id) as Hl. rewrite Hb' in Hl. inversion Hl; subst; eauto. }
  split.
  - intros id e b' i x (b & Hb & [Hs Hst])%Hback Hx. rewrite (same_ancestry _ _ Hs) in *.
    destruct (L1 _ _ _ _ _ Hb Hx) as (a & Ha & Hta & Hsa & Hada).
    destruct (Hforth _ _ _ Ha) as (a' & Ha' & [Hs' Hst']). exists a'. rewrite (same_ancestry _ _ Hs'), Hst', Hst. done.
  - intros id e b' c' (b & Hb & [Hs _])%Hback (c & Hc & [Hs' _])%Hcur.
    rewrite (same_definition _ _ Hs), (same_definition _ _ Hs'). eauto.
  - intros id e b' (b & Hb & [Hs Hst])%Hback. rewrite (same_definition _ _ Hs), Hst. eauto.
  - intros id b1' id2 b2' r r' (b1 & Hb1 & [Hs1 _])%Hcur (b2 & Hb2 & [Hs2 _])%Hcur.
    rewrite (same_definition _ _ Hs1), (same_definition _ _ Hs2). eauto.
  - exists rank. intros id e b' p (b & Hb & [Hs _])%Hback. rewrite (same_predecessor _ _ Hs). intros Hp.
    destruct (L5 _ _ _ _ Hb Hp) as [? [a Ha]]. split; [done|]. destruct (Hforth _ _ _ Ha) as (a' & -> & _). eauto.
Qed.

Lemma planned_step b b' : status b ≠ Paused → planned b b' → status_step (status b) (status b') ∧ status b ≠ RolledBack.
Proof.
  intros Hp [(p & res & ar & b1 & act & Hrb & _ & Hen & ->)|(r & Hrb & ->)]; (split; [|done]).
  - destruct (enact_same _ _ _ _ _ _ Hen) as (_ & _ & Hs). by destruct (keeps_revision act); apply Hs.
  - by right; left.
Qed.
Lemma changed_by_status id e b b' id' e' x x' :
  changed_by id e b b' id' e' x x' →
  x' = (if decide (id' = id ∧ e' = e) then b' else x) ∨ (status b' = RolledBack ∧ status x' = RolledBack ∧ e ∈ baseline_ancestry x').
Proof.
  unfold changed_by. case_bool_decide as Hrb; [|by left]. intros [(Hs & _ & [->|[Hin Hx]]) _]; [by left|].
  right. rewrite (same_ancestry _ _ Hs). done.
Qed.
Lemma Lineage_changes st id e b b' st' :
  Well st → changes st id e b b' st' → planned b b' → Lineage st → Lineage st'.
Proof.
  intros Hw Hch Hpl [L1 L2 L3 L4 [rank L5]]. pose proof (ch_before _ _ _ _ _ _ Hch) as Hb.
  destruct (L3 _ _ _ Hb) as (_ & _ & Hpause). destruct (planned_step _ _ Hpause Hpl) as [Hstep Hnrb].
  pose proof (λ id' e' x', changes_lookup _ _ _ _ _ _ id' e' x' Hw Hch) as Hback.
  pose proof (λ id' e' x, changes_lookup_forward _ _ _ _ _ _ id' e' x Hw Hch) as Hforth.
  assert (∀ id' c', blocks st' !! id' = Some c' → ∃ c, blocks st !! id' = Some c ∧ definition c' = definition c) as Hcur.
  { intros id' c' Hc'. pose proof (evolves_blocks _ _ _ (changes_evolves _ _ _ _ _ _ Hw Hch) id') as Hl.
    rewrite Hc' in Hl. inversion Hl as [c ? Hs Hc|]; subst. exists c. split; [done|]. apply Hs. }
  split.
  - intros id' e' x' i y (x & Hx & Hs & Hcb)%Hback Hy. rewrite (same_ancestry _ _ Hs) in *.
    destruct (L1 _ _ _ _ _ Hx Hy) as (a & Ha & Hta & Hsa & Hada).
    destruct (Hforth _ _ _ Ha) as (a' & Ha' & Hs' & Hcb'). exists a'. rewrite (same_ancestry _ _ Hs').
    assert (status a' = Adopted ∨ status a' = RolledBack) as Hsa'.
    { destruct (changed_by_status _ _ _ _ _ _ _ _ Hcb') as [->|(_ & -> & _)]; [|by right].
      destruct (decide _) as [[-> ->]|]; [|done]. rewrite Hb in Ha. injection Ha as <-.
      destruct Hstep as [->|[->|[]]]; naive_solver. }
    split_and!; [done|done|done|]. intros Hnr. destruct Hsa' as [|Hra]; [done|]. exfalso. apply Hnr.
    (* the ancestor is withdrawn now: so is this one *)
    assert (status x' = RolledBack ∨ status x ≠ RolledBack) as [|Hnx]; [|done|].
    { destruct (changed_by_status _ _ _ _ _ _ _ _ Hcb) as [->|(_ & -> & _)]; [|by left].
      destruct (decide _) as [[-> ->]|]; [rewrite Hb in Hx; injection Hx as <-; by right|].
      destruct (decide (status x = RolledBack)); auto. }
    specialize (Hada Hnx).
    assert (status b' = RolledBack ∧ e ∈ baseline_ancestry x') as [Hrb Hin].
    { rewrite (same_ancestry _ _ Hs). apply list_elem_of_lookup_2 in Hy as Hyin.
      destruct (changed_by_status _ _ _ _ _ _ _ _ Hcb') as [Ha''|(Hrb & _ & Hin)].
      - destruct (decide _) as [[-> ->]|]; [by subst a'|]. congruence.
      - split; [done|]. rewrite (same_ancestry _ _ Hs'), Hta in Hin.
        rewrite <-(take_drop i (baseline_ancestry x)). apply elem_of_app. by left. }
    unfold changed_by in Hcb. rewrite bool_decide_eq_true_2 in Hcb by done. by apply Hcb.
  - intros id' e' x' c' (x & Hx & Hs & _)%Hback (c & Hc & ->)%Hcur. rewrite (same_definition _ _ Hs). eauto.
  - intros id' e' x' (x & Hx & Hs & Hcb)%Hback. rewrite (same_definition _ _ Hs).
    destruct (L3 _ _ _ Hx) as (? & ? & Hxp). split_and!; [done|done|].
    destruct (changed_by_status _ _ _ _ _ _ _ _ Hcb) as [->|(_ & -> & _)]; [|done].
    destruct (decide _) as [[-> ->]|]; [|done]. destruct Hstep as [->|[->|[_ ->]]]; done.
  - intros id1 b1' id2 b2' r r' (b1 & Hb1 & ->)%Hcur (b2 & Hb2 & ->)%Hcur. eauto.
  - exists rank. intros id' e' x' p (x & Hx & Hs & _)%Hback. rewrite (same_predecessor _ _ Hs). intros Hp.
    destruct (L5 _ _ _ _ Hx Hp) as [? [a Ha]]. split; [done|]. destruct (Hforth _ _ _ Ha) as (a' & -> & _). eauto.
Qed.

(** ** New experiments *)

(** What [baseline_source] answers: the supported part of the ancestry, and the experiment after it. *)
Lemma baseline_walk_ok st b rest : ∀ done base ancestry,
  baseline_walk st b done rest = Ok (base, ancestry) →
  ∃ n, ancestry = done ++ take n rest ∧
    (∀ x, x ∈ take n rest → ∃ a, experiment st (block_id (definition b)) (Some x) = Some a ∧ supported st a = true) ∧
    ((base = b ∧ n = length rest) ∨
     ∃ x, rest !! n = Some x ∧ experiment st (block_id (definition b)) (Some x) = Some base ∧ supported st base = false).
Proof.
  induction rest as [|x rest IH]; intros done base ancestry; cbn [baseline_walk].
  - intros [= <- <-]. exists O. cbn. rewrite app_nil_r. split; [done|]. split; [set_solver|]. by left.
  - intros (a & Ha%ok_or_ok & Hr)%bind_ok. destruct (supported st a) eqn:Hs.
    + apply IH in Hr as (n & -> & Hall & Hend). exists (S n). cbn. rewrite <-app_assoc. split; [done|]. split.
      * intros y [->|Hy]%elem_of_cons; [by exists a|by apply Hall].
      * destruct Hend as [[-> ->]|Hend]; [by left|by right].
    + injection Hr as <- <-. exists O. cbn. rewrite app_nil_r. split; [done|]. split; [set_solver|].
      right. by exists x.
Qed.
Lemma baseline_source_ok st b base ancestry : baseline_source st b = Ok (base, ancestry) →
  ∃ n, ancestry = take n (baseline_ancestry b) ∧
    (∀ x, x ∈ ancestry → ∃ a, experiment st (block_id (definition b)) (Some x) = Some a ∧ supported st a = true) ∧
    ((base = b ∧ ancestry = baseline_ancestry b) ∨
     ∃ x, baseline_ancestry b !! n = Some x ∧ experiment st (block_id (definition b)) (Some x) = Some base ∧
       supported st base = false).
Proof.
  intros (n & -> & Hall & Hend)%baseline_walk_ok. cbn in *. exists n. split_and!; [done..|].
  destruct Hend as [[-> ->]|?]; [left; by rewrite take_ge|by right].
Qed.
Lemma baseline_walk_total st b rest : ∀ done,
  (∀ x, x ∈ rest → is_Some (experiment st (block_id (definition b)) (Some x))) →
  ∃ r, baseline_walk st b done rest = Ok r.
Proof.
  induction rest as [|x rest IH]; intros done Hall; cbn; [eauto|].
  destruct (Hall x ltac:(left)) as [a ->]. cbn. destruct (supported st a); [|eauto]. apply IH. set_solver.
Qed.
Lemma baseline_valid_walk st b rest : ∀ done,
  forallb (λ e, is_some_and (supported st) (experiment st (block_id (definition b)) (Some e))) rest = true →
  baseline_walk st b done rest = Ok (b, done ++ rest).
Proof.
  induction rest as [|x rest IH]; intros done; cbn; [by rewrite app_nil_r|].
  intros [Hx Hrest]%andb_true_iff. destruct (experiment _ _ _) as [a|]; [|done]. cbn in *.
  rewrite Hx, IH by done. by rewrite <-app_assoc.
Qed.
Lemma inherited_ok st previous reset base ancestry inherit :
  inherited st previous reset = Ok (base, ancestry, inherit) →
  ∃ n, (reset = true ∧ ancestry = [] ∧ inherit = false ∨
        reset = false ∧ inherit = true ∧ status previous = Adopted ∧
          ancestry = baseline_ancestry previous ++ [experiment_id previous] ∧ base = previous ∧
          dependencies_match st previous = true ∨
        reset = false ∧ inherit = false ∧ ancestry = take n (baseline_ancestry previous)) ∧
    (∀ x, x ∈ take n (baseline_ancestry previous) →
       ∃ a, experiment st (block_id (definition previous)) (Some x) = Some a ∧ supported st a = true) ∧
    (inherit = true → n = length (baseline_ancestry previous)) ∧
    (base = previous ∨ ∃ x, baseline_ancestry previous !! n = Some x ∧
       experiment st (block_id (definition previous)) (Some x) = Some base).
Proof.
  unfold inherited. intros ([base0 anc] & Hsrc & [= -> <- <-])%bind_ok.
  pose proof Hsrc as (n & Hanc & Hall & Hend)%baseline_source_ok.
  destruct (negb reset && bool_decide (status previous = Adopted) && dependencies_match st previous) eqn:Hi.
  - apply andb_true_iff in Hi as [[Hr Had%bool_decide_eq_true]%andb_true_iff Hdep]. apply negb_true_iff in Hr.
    pose proof Hdep as [_ Hval]%andb_true_iff. unfold baseline_source in Hsrc.
    rewrite (baseline_valid_walk _ _ _ [] Hval) in Hsrc. injection Hsrc as <- <-. cbn [app] in *.
    exists (length (baseline_ancestry previous)). rewrite firstn_all. subst reset. split_and!; [|by apply Hall|done|by left].
    right. left. by split_and!.
  - exists n. subst anc. split_and!; [|done|done|].
    + destruct reset; [by left|right; by right].
    + destruct Hend as [[-> _]|(x & ? & ? & _)]; [by left|right; by exists x].
Qed.

Lemma adds_new st id e b st' : adds st id e b st' → lookup_experiment st' id e = Some b.
Proof. intros Hadd. rewrite Hadd. by rewrite decide_True. Qed.
Lemma adds_old st id e b st' id' e' x :
  unused st e → Well st → adds st id e b st' → lookup_experiment st id' e' = Some x →
  lookup_experiment st' id' e' = Some x.
Proof.
  intros Hu Hw Hadd Hx. rewrite Hadd. rewrite decide_False; [done|]. intros [-> ->].
  rewrite unused_spec in Hu by done. by rewrite Hu in Hx.
Qed.
Lemma Lineage_register d config st st' :
  Well st → typed d → unused st (registered_id st d config) → register d config st = Ok st' →
  Lineage st → Lineage st'.
Proof.
  intros Hw Hty Hu Hr [L1 L2 L3 L4 [rank L5]].
  apply register_adds in Hr as (b & Hv & Hnew & Hover & Hd & He & Hs & Hp & Ha & _ & _ & _ & _ & Hst & _ & Hw' & Hadd); [|done..].
  rewrite <-He in Hu. assert (∀ id' e' x, lookup_experiment st' id' e' = Some x →
    (id' = block_id d ∧ e' = experiment_id b ∧ x = b) ∨ lookup_experiment st id' e' = Some x) as Hback.
  { intros id' e' x. rewrite Hadd. destruct (decide _) as [[-> ->]|]; [intros [= <-]; by left|by right]. }
  pose proof (λ id' e' x, adds_old _ _ _ _ _ id' e' x Hu Hw Hadd) as Hforth.
  assert (∀ id c, blocks st' !! id = Some c → (id = block_id d ∧ c = b) ∨ (id ≠ block_id d ∧ blocks st !! id = Some c)) as Hcur.
  { intros id c. rewrite Hst. cbn. rewrite lookup_insert_Some. naive_solver. }
  assert (∀ e' x, lookup_experiment st (block_id d) e' = Some x → False) as Hno.
  { intros e' x (c & Hc)%lookup_experiment_block. congruence. }
  split.
  - intros id' e' x i y [(-> & -> & ->)|Hx]%Hback; [by rewrite Ha|]. intros Hy.
    destruct (L1 _ _ _ _ _ Hx Hy) as (a & Haa & ?). exists a. split; [by apply Hforth|done].
  - intros id' e' x c [(-> & -> & ->)|Hx]%Hback [(Hid & ->)|(Hid & Hc)]%Hcur; [done|done| |by eauto].
    subst id'. by destruct (Hno _ _ Hx).
  - intros id' e' x [(-> & -> & ->)|Hx]%Hback; [|by eauto]. by rewrite Hd, Hs.
  - assert (∀ id c r r', blocks st !! id = Some c → source (definition c) = source d → r ∈ rules d →
      r' ∈ rules (definition c) → overlap r r' = false) as Hdis.
    { intros id c r r' Hc. apply Hover. apply list_elem_of_fmap. exists (id, c). split; [done|]. by apply elem_of_sorted_entries. }
    intros id1 b1 id2 b2 r r' [[-> ->]|[Hn1 Hb1]]%Hcur [[-> ->]|[Hn2 Hb2]]%Hcur Hne Hsrc Hr Hr'; [done| | |by eauto].
    + rewrite Hd in *. by eapply Hdis.
    + rewrite overlap_matcher, overlap_matchers_sym, <-overlap_matcher. rewrite Hd in *. by eapply Hdis.
  - exists rank. intros id' e' x p [(-> & -> & ->)|Hx]%Hback; [by rewrite Hp|]. intros Hpx.
    destruct (L5 _ _ _ _ Hx Hpx) as [? [a Haa]]. split; [done|]. rewrite (Hforth _ _ _ Haa). eauto.
Qed.
Lemma Lineage_revise clock d rd pr reset st st' :
  Well st → allowed st (Revise d rd pr reset) → revise clock d rd pr reset st = Ok st' → Lineage st → Lineage st'.
Proof.
  intros Hw Hal Hr [L1 L2 L3 L4 [rank L5]]. destruct Hal as [Hty Hal].
  apply revise_adds in Hr as (prev & base & anc & inh & b & g & Hv & Hprev & Hpr & Hsrc & Hmat & Hinh & _ & Hd & He & Hs
    & Hp & Ha & _ & _ & _ & _ & Hu & _ & _ & _ & _ & _ & Hbl & _ & Hw' & Hadd); [|done..].
  assert (∀ id' e' x, lookup_experiment st' id' e' = Some x →
    (id' = block_id d ∧ e' = experiment_id b ∧ x = b) ∨ lookup_experiment st id' e' = Some x) as Hback.
  { intros id' e' x. rewrite Hadd. destruct (decide _) as [[-> ->]|]; [intros [= <-]; by left|by right]. }
  pose proof (λ id' e' x, adds_old _ _ _ _ _ id' e' x Hu Hw Hadd) as Hforth.
  pose proof (lookup_experiment_current _ _ _ Hprev) as Hlp. rewrite Hpr in Hlp.
  assert (∀ id c, blocks st' !! id = Some c → ∃ c0, blocks st !! id = Some c0 ∧
    matchers (rules (definition c)) = matchers (rules (definition c0)) ∧ source (definition c) = source (definition c0)) as Hcur.
  { intros id c. rewrite Hbl, lookup_insert_Some. intros [[<- <-]|[_ Hc]]; [|by eauto].
    exists prev. by rewrite Hd. }
  split.
  - intros id' e' x i y [(-> & -> & ->)|Hx]%Hback Hy.
    + rewrite Ha in *. rewrite Hs.
      cut (∃ a, lookup_experiment st (block_id d) y = Some a ∧ baseline_ancestry a = take i anc ∧ status a = Adopted).
      { intros (a & Haa & ? & ?). exists a. split; [by apply Hforth|]. naive_solver. }
      apply inherited_ok in Hinh as (n & Hcase & Hsup & Hn & _). rewrite (well_key _ Hw _ _ Hprev) in Hsup.
      assert (∀ m, take n (baseline_ancestry prev) !! i = Some y → m = take i (baseline_ancestry prev) →
        ∃ a, lookup_experiment st (block_id d) y = Some a ∧ baseline_ancestry a = m ∧ status a = Adopted) as Hold.
      { intros m Hy' ->. apply list_elem_of_lookup_2 in Hy' as Hyin. destruct (Hsup _ Hyin) as (a & Haa & Hsa).
        apply lookup_take_Some in Hy' as [Hy' _]. destruct (L1 _ _ _ _ _ Hlp Hy') as (a' & Ha' & Hta & _).
        unfold lookup_experiment in Ha'. rewrite Haa in Ha'. injection Ha' as <-. exists a. split_and!; [done|done|].
        apply andb_true_iff in Hsa as [Hsa%bool_decide_eq_true _]. done. }
      destruct Hcase as [(_ & -> & _)|[(_ & Hi & Had & -> & _)|(_ & _ & ->)]]; [done| |].
      * rewrite (Hn Hi), firstn_all in Hold. apply lookup_app_Some in Hy as [Hy|[Hlen Hy]].
        -- apply Hold; [done|]. apply lookup_lt_Some in Hy. by rewrite take_app_le by lia.
        -- apply list_lookup_singleton_Some in Hy as [Hi0 <-]. exists prev. split_and!; [by rewrite Hpr| |done].
           rewrite take_app_ge by lia. rewrite Hi0. cbn. by rewrite app_nil_r.
      * apply Hold; [done|]. apply lookup_take_Some in Hy as [_ Hlt]. rewrite take_take. f_equal. lia.
    + destruct (L1 _ _ _ _ _ Hx Hy) as (a & Haa & ?). exists a. split; [by apply Hforth|done].
  - intros id' e' x c [(-> & -> & ->)|Hx]%Hback Hc.
    + rewrite Hbl, lookup_insert_eq in Hc. by injection Hc as <-.
    + destruct (Hcur _ _ Hc) as (c0 & Hc0 & -> & ->). eauto.
  - intros id' e' x [(-> & -> & ->)|Hx]%Hback; [|by eauto]. by rewrite Hd, Hs.
  - intros id1 b1 id2 b2 r r' (c1 & Hc1 & Hm1 & Hs1)%Hcur (c2 & Hc2 & Hm2 & Hs2)%Hcur Hne. rewrite Hs1, Hs2. intros Hss Hr Hr'.
    assert (matcher r ∈ matchers (rules (definition c1))) as (q & Hq & Hqr)%elem_of_matchers.
    { rewrite <-Hm1. apply elem_of_matchers. by exists r. }
    assert (matcher r' ∈ matchers (rules (definition c2))) as (q' & Hq' & Hqr')%elem_of_matchers.
    { rewrite <-Hm2. apply elem_of_matchers. by exists r'. }
    rewrite overlap_matcher, <-Hqr, <-Hqr', <-overlap_matcher. by eapply (L4 id1 c1 id2 c2).
  - exists (λ s, if decide (s = experiment_id b) then S (rank pr) else rank s).
    assert (∀ id x p, lookup_experiment st id p = Some x → p ≠ experiment_id b) as Hne.
    { intros id x p Hx ->. rewrite unused_spec in Hu by done. by rewrite Hu in Hx. }
    intros id' e' x p [(-> & -> & ->)|Hx]%Hback.
    + rewrite Hp. intros [= <-]. rewrite (decide_True _ _ (eq_refl (experiment_id b))).
      rewrite decide_False by (by eapply Hne). split; [lia|]. rewrite (Hforth _ _ _ Hlp). eauto.
    + intros Hpx. destruct (L5 _ _ _ _ Hx Hpx) as [? [a Haa]].
      rewrite !decide_False by (by eapply Hne). split; [done|]. rewrite (Hforth _ _ _ Haa). eauto.
Qed.
Lemma Lineage_effect st st' : Well st ∧ Lineage st → effect st st' → Well st' ∧ Lineage st'.
Proof.
  intros [Hw HL] Heff. split; [by eapply Well_effect|].
  destruct Heff as [Hb Ha _ _ _ _|id b b' Hr|id e b b' Hc Hp|d config Hty Hu Hr|clock d rd pr reset Hal Hr].
  - apply (Lineage_evolves st); [|done]. split; intros k; rewrite ?Hb, ?Ha; apply option_Forall2_refl; by split.
  - apply (Lineage_evolves st); [|done]. eapply evolves_impl; [|by eapply reserves_evolves]. by intros ?? (? & ? & _).
  - by eapply Lineage_changes.
  - by eapply Lineage_register.
  - by eapply Lineage_revise.
Qed.

(** ** Cohorts and adoption *)

Lemma reserves_lookup st id b b' st' : Well st → reserves st id b b' st' →
  ∀ id' e', lookup_experiment st' id' e' =
    if decide (id' = id ∧ e' = experiment_id b) then Some b' else lookup_experiment st id' e'.
Proof.
  intros Hw [Hb _ _ _ _ _ Hr (n & -> & _)] id' e'. pose proof (reserved_update _ _ Hr) as [Hs _].
  unfold lookup_experiment, experiment, archived_of. cbn. destruct (decide (id' = id)) as [->|Hne].
  - rewrite lookup_insert_eq, Hb. cbn. rewrite (same_id _ _ Hs).
    destruct (decide (_ ∧ e' = _)) as [[_ ->]|Hn]; [by rewrite bool_decide_eq_true_2|].
    by rewrite bool_decide_eq_false_2 by naive_solver.
  - rewrite lookup_insert_ne by done. by rewrite decide_False by naive_solver.
Qed.

Record block_ok (b : BlockState) : Prop := {
  ok_members : Z.of_nat (size (members (batch b))) ≤ batch_sessions (definition b);
  ok_pending : challengers (batch b) ≤ maximum_pending_challenger (bandit (definition b));
  ok_assigned : challengers (batch b) ≤ assigned_challenger_sessions b ≤
    maximum_challenger_sessions (bandit (definition b));
  ok_open : closed (batch b) = false →
    Z.of_nat (size (members (batch b))) < batch_sessions (definition b) ∧
    challengers (batch b) < maximum_pending_challenger (bandit (definition b));
  ok_adopted : status b = Adopted → closed (batch b) = true ∧ ∃ p, plan b = Some p ∧
    recommendation p = Promote ∧
    contract_matches b (learner_version p) (plan_contract p) (config_digest p) LEARNER_VERSION = true }.
Definition Limits (st : ControlState) : Prop := ∀ id e b, lookup_experiment st id e = Some b → block_ok b.

Lemma validate_limits d : BlockDefinition_validate d = Ok tt →
  1 ≤ batch_sessions d ∧ 0 < maximum_pending_challenger (bandit d) ∧ 0 < maximum_challenger_sessions (bandit d).
Proof.
  unfold BlockDefinition_validate, BanditConfig_validate. intros Hv. res_inv.
  repeat match goal with
  | H : (_ && _)%bool = true |- _ => apply andb_true_iff in H as [? ?]
  | H : (_ <? _) = true |- _ => apply Z.ltb_lt in H
  | H : (_ <=? _) = true |- _ => apply Z.leb_le in H end. lia.
Qed.
Lemma challengers_nonneg e : 0 ≤ challengers e.
Proof. unfold challengers. lia. Qed.
Lemma block_ok_fresh b : BlockDefinition_validate (definition b) = Ok tt → batch b = EnrollmentBatch_default →
  assigned_challenger_sessions b = 0 → status b = Exploring → block_ok b.
Proof.
  intros (? & ? & ?)%validate_limits Hb Ha Hs. assert (challengers (batch b) = 0) as Hc.
  { rewrite Hb. unfold challengers. cbn. by rewrite map_filter_empty, map_size_empty. }
  split; rewrite ?Hc, ?Ha, ?Hb, ?Hs; cbn; rewrite ?map_size_empty; try done; lia.
Qed.
Lemma block_ok_withdrawn ancestor b b' : withdrawn_by ancestor b b' → block_ok b → block_ok b'.
Proof.
  intros ([Hd _ _ _ _] & [Hp Hb Ha _] & Hcase) [K1 K2 K3 K4 K5].
  split; rewrite ?Hd, ?Hb, ?Ha; try done. intros Had. destruct Hcase as [->|[_ Hr]]; [by apply K5|congruence].
Qed.
Lemma challengers_insert key a e : members e !! key = None →
  challengers {| sequence := sequence e; members := <[key := a]> (members e); closed := closed e |} =
  challengers e + of_bool (bool_decide (a = Challenger)).
Proof.
  intros Hn. unfold challengers. cbn [members]. rewrite map_filter_insert. case_bool_decide as Ha; cbn [of_bool].
  - rewrite decide_True by done. rewrite map_size_insert_None; [lia|]. apply map_lookup_filter_None. by left.
  - rewrite decide_False by done. rewrite map_filter_delete, delete_id; [lia|]. apply map_lookup_filter_None. by left.
Qed.
Lemma block_ok_reserved b b' : typed (definition b) → status b = Exploring → closed (batch b) = false →
  reserved b b' → block_ok b → block_ok b'.
Proof.
  intros Hty Hs Hop Hr [K1 K2 K3 K4 _]. pose proof (challengers_nonneg (batch b)).
  destruct Hr as [->|(key & a & -> & Hn & Ha & _)].
  { by split; cbn [close_batch with_batch close batch definition assigned_challenger_sessions status closed members];
      rewrite ?Hs. }
  destruct (K4 Hop) as [Ks Kc]. unfold enroll. set (b1 := with_batch _ _ _ b).
  assert (assigned_challenger_sessions b1 = assigned_challenger_sessions b + of_bool (bool_decide (a = Challenger))) as Has.
  { apply wrapping_add_exact. pose proof (of_bool_bounds (bool_decide (a = Challenger))). unfold typed in Hty. lia. }
  assert (challengers (batch b1) = challengers (batch b) + of_bool (bool_decide (a = Challenger))) as Hch
    by by apply challengers_insert.
  assert (Z.of_nat (size (members (batch b1))) = Z.of_nat (size (members (batch b))) + 1) as Hsz.
  { cbn. rewrite map_size_insert_None by done. lia. }
  pose proof (of_bool_bounds (bool_decide (a = Challenger))).
  destruct (saturated b1) eqn:Hsat.
  - split.
    + change (Z.of_nat (size (members (batch b1))) ≤ batch_sessions (definition b)). lia.
    + change (challengers (batch b1) ≤ maximum_pending_challenger (bandit (definition b))). lia.
    + change (challengers (batch b1) ≤ assigned_challenger_sessions b1 ≤ maximum_challenger_sessions (bandit (definition b))). lia.
    + done.
    + change (status b = Adopted → closed (batch (close_batch b1)) = true ∧ ∃ p, plan b = Some p ∧
        recommendation p = Promote ∧ contract_matches b (learner_version p) (plan_contract p) (config_digest p) LEARNER_VERSION = true).
      by rewrite Hs.
  - unfold saturated in Hsat. apply orb_false_iff in Hsat as [[[Hz Hp]%orb_false_iff _]%orb_false_iff Hm].
    apply Z.leb_gt in Hz, Hp, Hm. change (definition b1) with (definition b) in *.
    change (definition b1) with (definition b). split; change (definition b1) with (definition b); [lia|lia|lia|lia|].
    change (status b1) with (status b). by rewrite Hs.
Qed.
Lemma enact_batch b p resolved arch b1 act : enact b p resolved arch = Ok (b1, act) →
  assigned_challenger_sessions b1 = assigned_challenger_sessions b ∧
  (batch b1 = batch b ∨ members (batch b1) = ∅) ∧
  (status b1 = Adopted → (status b = Adopted → closed (batch b) = true) → recommendation p = Promote ∧ closed (batch b1) = true).
Proof.
  unfold enact. destruct (bool_decide (status b = Adopted)) eqn:Had;
    [apply bool_decide_eq_true in Had|apply bool_decide_eq_false in Had].
  - rewrite Had. intros Hen. repeat case_match; res_inv; simplify_eq; split_and!; try done; try (by left);
      intros _ Hc; by rewrite ?Hc.
  - intros Hen. repeat case_match; res_inv; simplify_eq; split_and!; try done; try (by left); try (by right);
      cbn; intros Hst; try congruence. intros _. by apply andb_true_iff in Hv as [-> _].
Qed.
Lemma block_ok_planned b b' : BlockDefinition_validate (definition b) = Ok tt → status b ≠ Paused →
  planned b b' → block_ok b → block_ok b'.
Proof.
  intros (? & ? & ?)%validate_limits Hnp Hpl [K1 K2 K3 K4 K5]. pose proof (challengers_nonneg (batch b)).
  destruct Hpl as [(p & res & ar & b1 & act & Hrb & Hcm & Hen & ->)|(r & _ & ->)]; [|by split].
  destruct (enact_batch _ _ _ _ _ _ Hen) as (Ha & Hb & Had). pose proof (enact_same _ _ _ _ _ _ Hen) as ([Hd _ _ _ _] & _).
  set (b2 := if keeps_revision act then b1 else _).
  assert (definition b2 = definition b ∧ batch b2 = batch b1 ∧ status b2 = status b1 ∧
    assigned_challenger_sessions b2 = assigned_challenger_sessions b) as (Hd2 & Hb2 & Hs2 & Ha2)
    by (subst b2; by destruct (keeps_revision act)).
  assert (challengers (batch b1) ≤ challengers (batch b) ∧
    Z.of_nat (size (members (batch b1))) ≤ Z.of_nat (size (members (batch b)))) as [Hc1 Hz1].
  { destruct Hb as [->|Hb]; [done|]. unfold challengers at 1. rewrite Hb, map_filter_empty, map_size_empty. lia. }
  split; change (definition (with_plan p b2)) with (definition b2); change (batch (with_plan p b2)) with (batch b2);
    change (assigned_challenger_sessions (with_plan p b2)) with (assigned_challenger_sessions b2);
    change (status (with_plan p b2)) with (status b2); change (plan (with_plan p b2)) with (Some p);
    rewrite ?Hd2, ?Hb2, ?Ha2, ?Hs2; try lia.
  - destruct Hb as [->|Hb]; [done|]. intros _. unfold challengers. rewrite Hb, map_filter_empty, map_size_empty. lia.
  - intros Hst. destruct (Had Hst) as [Hpr Hcl]; [by intros Hbst; apply K5|]. split; [done|].
    exists p. split_and!; [done..|]. unfold contract_matches in *. change (definition (with_plan p b2)) with (definition b2). by rewrite Hd2.
Qed.
Lemma Limits_effect st st' : (Well st ∧ Lineage st) ∧ Limits st → effect st st' → (Well st' ∧ Lineage st') ∧ Limits st'.
Proof.
  intros [[Hw HL] Hlim] Heff. split; [by eapply Lineage_effect|]. intros id' e' x' Hx'.
  destruct Heff as [Hb Ha _ _ _ _|id b b' Hr|id e b b' Hc Hp|d config Hty Hu Hr|clock d rd pr reset Hal Hr].
  - apply (Hlim id' e'). unfold lookup_experiment, experiment, archived_of in *. by rewrite <-Hb, <-Ha.
  - pose proof (rs_block _ _ _ _ _ Hr) as Hb. pose proof (lookup_experiment_current _ _ _ Hb) as Hlb.
    destruct (lin_valid _ HL _ _ _ Hlb) as (_ & Hty & _).
    pose proof (reserved_update _ _ (rs_reserved _ _ _ _ _ Hr)) as [Hse _].
    pose proof (reserves_lookup _ _ _ _ _ Hw Hr id' e') as Hl. rewrite Hx' in Hl.
    case_decide as Hd; [|by apply (Hlim id' e')]. injection Hl as ->.
    eapply block_ok_reserved; [done|apply Hr|apply Hr|apply Hr|by eapply Hlim].
  - destruct (changes_lookup _ _ _ _ _ _ _ _ _ Hw Hc Hx') as (x & Hx & Hs & Hcb).
    pose proof (ch_before _ _ _ _ _ _ Hc) as Hb. destruct (lin_valid _ HL _ _ _ Hb) as (Hv & _ & Hnp).
    assert (block_ok (if decide (id' = id ∧ e' = e) then b' else x)) as Hok.
    { destruct (decide _) as [_|_]; [|by eapply Hlim]. eapply block_ok_planned; [done..|by eapply Hlim]. }
    unfold changed_by in Hcb. case_bool_decide; [|by subst]. destruct Hcb as [Hwd _]. by eapply block_ok_withdrawn.
  - apply register_adds in Hr as (b & Hv & _ & _ & Hd & He & Hs & _ & _ & Hba & Has & _ & _ & _ & _ & _ & Hadd); [|done..].
    rewrite Hadd in Hx'. case_decide; [|by eapply Hlim]. injection Hx' as <-. apply block_ok_fresh; by rewrite ?Hd.
  - apply revise_adds in Hr as (prev & base & anc & inh & b & g & Hv & _ & _ & _ & _ & _ & _ & Hd & _ & Hs
      & _ & _ & Hba & Has & _ & _ & _ & _ & _ & _ & _ & _ & _ & _ & _ & Hadd); [|done..].
    rewrite Hadd in Hx'. case_decide; [|by eapply Hlim]. injection Hx' as <-. apply block_ok_fresh; by rewrite ?Hd.
Qed.
End invariant.

Section history.
Context `{Sha256, BlockJson, SeededDraw}.

Definition concerns (id e : string) (p : Publication) : bool :=
  bool_decide (pub_block_id p = id) && bool_decide (pub_experiment_id p = Some e).
Definition history (st : ControlState) (id e : string) : list Publication :=
  List.filter (concerns id e) (publications st).
Fixpoint linked (l : list Publication) : Prop :=
  match l with
  | p :: (q :: _) as l' => previous_revision q = pub_revision p ∧ linked l'
  | _ => True
  end.
Record Chained (st : ControlState) : Prop := {
  chained : ∀ id e, match lookup_experiment st id e with
    | Some b => linked (history st id e) ∧ ∀ p, last (history st id e) = Some p → pub_revision p = revision b
    | None => history st id e = []
    end;
  generations : StronglySorted Z.lt (pub_generation <$> publications st);
  generation_last : ∀ p, p ∈ publications st → pub_generation p ≤ generation st }.

Lemma linked_snoc l p : linked l → (∀ q, last l = Some q → previous_revision p = pub_revision q) → linked (l ++ [p]).
Proof.
  induction l as [|q l IH]; [done|]. destruct l as [|q' l]; [intros _ Hq; cbn; split; [by apply Hq|done]|].
  intros [Hq Hl] Hlast. change (q' :: l ++ [p]) with ((q' :: l) ++ [p]). split; [exact Hq|]. by apply IH.
Qed.
(** A publication of one experiment, whose revision it records. *)
Lemma Chained_publish st s1 id e old b' p g :
  Chained st → publications s1 = publications st → g = generation st + 1 →
  (∀ id' e', lookup_experiment s1 id' e' = if decide (id' = id ∧ e' = e) then Some b' else lookup_experiment st id' e') →
  match lookup_experiment st id e with Some b => old = revision b | None => True end →
  pub_block_id p = id → pub_experiment_id p = Some e → previous_revision p = old → pub_revision p = revision b' →
  pub_generation p = g → Chained (with_publications g (publications s1 ++ [p]) s1).
Proof.
  intros [Hch Hgen Hlast] Hps -> Hl Hold Hid He Hprev Hrev Hg. split; cbn; rewrite ?Hps.
  - intros id' e'. change (lookup_experiment (with_publications _ _ s1) id' e') with (lookup_experiment s1 id' e').
    rewrite Hl. unfold history. cbn [with_publications publications]. rewrite List.filter_app. cbn [List.filter].
    specialize (Hch id' e'). unfold history in Hch. destruct (decide _) as [[-> ->]|Hne].
    + assert (concerns id e p = true) as -> by (unfold concerns; by rewrite Hid, He, !bool_decide_eq_true_2).
      destruct (lookup_experiment st id e) as [b|].
      * destruct Hch as [Hlk Hla]. split; [|intros q; by rewrite last_snoc; intros [= <-]].
        apply linked_snoc; [done|]. intros q Hq. rewrite Hprev, Hold. symmetry. by apply Hla.
      * rewrite Hch. split; [done|]. by intros q [= <-].
    + assert (concerns id' e' p = false) as ->.
      { unfold concerns. rewrite Hid, He. apply andb_false_iff.
        destruct (decide (id' = id)) as [->|]; [right|left]; apply bool_decide_eq_false; naive_solver. }
      by rewrite app_nil_r.
  - rewrite fmap_app. apply StronglySorted_app. split_and!; [|done|by repeat constructor].
    intros x y (q & -> & Hq)%list_elem_of_fmap Hy%list_elem_of_singleton. subst. rewrite Hg.
    specialize (Hlast _ Hq). lia.
  - intros q [Hq|Hq%list_elem_of_singleton]%elem_of_app; [specialize (Hlast _ Hq); lia|subst; by rewrite Hg].
Qed.
Lemma Chained_update st id e f b st1 act evidence rs now st2 :
  Well st → Chained st → lookup_experiment st id e = Some b → same_experiment b (f b) →
  update_experiment st id e f = Some st1 →
  publish id e (revision b) (revision (f b)) act evidence rs now st1 = Ok st2 → Chained st2 ∧ Well st2.
Proof.
  intros Hw Hch Hb Hs Hu Hp. destruct (update_experiment_settings _ _ _ _ _ Hu) as (_ & Hps & Hg).
  apply publish_ok in Hp as (g & Hgg & _ & ->). split.
  - eapply (Chained_publish st); [done|done|by rewrite Hgg, Hg| |by rewrite Hb|done..].
    by eapply update_experiment_lookup.
  - apply (evolves_well same_experiment st); [done| |done]. apply evolves_publications.
    apply (update_experiment_evolves same_experiment st id e f b); [|done..]. exact (PreOrder_Reflexive (R:=same_experiment)).
Qed.
Lemma Chained_withdraw clock ancestor st st' :
  Well st → Chained st → withdraw_descendants clock ancestor st = Ok st' → Chained st'.
Proof.
  intros Hw Hch Hwd. cut (Chained st' ∧ Well st'); [tauto|].
  refine (try_fold_inv _ (λ s, Chained s ∧ Well s) _ _ _ _ _ Hwd); [|done].
  intros s [i [id e]] s' _ [Hch' Hw'] (b & s1 & Hb & Hu & Hp)%withdraw_step_ok.
  rewrite (experiment_mut_lookup _ _ _ Hw') in Hb.
  eapply (Chained_update s); [done|done|exact Hb|apply withdraw_same|exact Hu|exact Hp].
Qed.
Lemma Chained_effect st st' : Well st ∧ Chained st → effect st st' → Well st' ∧ Chained st'.
Proof.
  intros [Hw Hch] Heff. split; [by eapply Well_effect|].
  destruct Heff as [Hb Ha Hp Hg _ _|id b b' Hr|id e b b' Hc _|d config _ Hu Hr|clock d rd pr reset Hal Hr].
  - destruct Hch as [Hch Hgen Hl]. split; unfold history; rewrite ?Hp; [|done|intros p ?%Hl; lia].
    intros id e. unfold lookup_experiment, experiment, archived_of. rewrite Hb, Ha. apply Hch.
  - pose proof (reserves_lookup _ _ _ _ _ Hw Hr) as Hl. pose proof (lookup_experiment_current _ _ _ (rs_block _ _ _ _ _ Hr)) as Hb.
    pose proof (reserved_update _ _ (rs_reserved _ _ _ _ _ Hr)) as (_ & _ & Hrev & _).
    destruct (rs_after _ _ _ _ _ Hr) as (n & -> & _). destruct Hch as [Hch Hgen Hla]. split; [|done|done].
    intros id' e'. rewrite Hl. specialize (Hch id' e'). case_decide as Hd; [|done].
    destruct Hd as [-> ->]. rewrite Hb in Hch. by rewrite Hrev.
  - destruct Hc as [Hb Hs (st1 & st2 & act & ev & rs & now & clock & Hu & Hp & Hrest)].
    destruct (Chained_update _ _ _ (λ _, b') _ _ _ _ _ _ _ Hw Hch Hb Hs Hu Hp) as [Hch2 Hw2].
    case_bool_decide; [by eapply Chained_withdraw|by subst].
  - apply register_adds in Hr as (b & _ & Hnew & _ & Hd & He & _ & _ & _ & _ & _ & _ & _ & Hst & _ & _ & Hadd); [|done..].
    destruct Hch as [Hch Hgen Hla]. assert (publications st' = publications st ∧ generation st' = generation st + 1) as [Hp Hg]
      by by rewrite Hst.
    split; unfold history; rewrite ?Hp; [|done|intros p ?%Hla; lia].
    intros id e. rewrite Hadd. specialize (Hch id e). unfold history in Hch. case_decide as Hdd; [|done]. destruct Hdd as [-> ->].
    rewrite <-He in Hu. rewrite unused_spec in Hu by done. rewrite Hu in Hch. by rewrite Hch.
  - apply revise_adds in Hr as (prev & base & anc & inh & b & g & Hv & Hprev & _ & _ & _ & _ & _ & Hd & He & _ & _ & _
      & _ & _ & _ & _ & Hu & Hg & _ & _ & Hgen' & (now & Hp) & _ & _ & _ & Hadd); [|done..].
    rewrite unused_spec in Hu by done.
    set (s1 := with_publications (generation st') (publications st) st').
    replace st' with (with_publications g (publications s1 ++ [{| pub_generation := g; pub_block_id := block_id d;
      pub_experiment_id := Some (experiment_id b); previous_revision := revision prev; pub_revision := revision b;
      action := "experiment_revised"; pub_evidence := None; operator_reason := None; recorded_at := now |}]) s1).
    2: { subst s1. destruct st'; cbn in *. by subst. }
    eapply (Chained_publish st s1 (block_id d) (experiment_id b) (revision prev) b); try done. by rewrite Hu.
Qed.
Lemma Chained_default : Chained ControlState_default.
Proof. split; cbn; [done|constructor|intros p []%elem_of_nil]. Qed.
End history.
