(* ===== verification/BlockTheorems.v ===== *)
(** What every state that the evolution control can reach satisfies, what an operation does from
    one, and the route that a request gets. *)
From stdpp Require Import base list strings gmap sorting.
From Stdlib Require Import ZArith Lia Ascii.
From S2P Require Import Prelude BlockTypes BlockControl BlockSelection BlockSystem BlockLineage BlockInvariant.
Open Scope Z_scope.

Section theorems.
Context `{Sha256, BlockJson, SeededDraw}.

(** ** Reachable states *)

Record Inv (st : ControlState) : Prop := {
  inv_well : Well st; inv_lineage : Lineage st; inv_limits : Limits st; inv_chained : Chained st;
  inv_settings : Settings st; inv_generation : generation st ≤ u64_max }.
Lemma Inv_effect st st' : Inv st → effect st st' → Inv st'.
Proof.
  intros [Hw HL Hlim Hch Hset Hg] Heff.
  destruct (Limits_effect _ _ (conj (conj Hw HL) Hlim) Heff) as [[Hw' HL'] Hlim'].
  split; [done..|by eapply (Chained_effect st)| |].
  - destruct Heff as [_ _ _ _ _ Hs|id b b' Hr|id e b b' Hc _|d config _ Hu Hr|clock d rd pr reset Hal Hr]; [by apply Hs|..].
    + destruct (rs_after _ _ _ _ _ Hr) as (n & -> & _). by destruct Hset.
    + destruct (changes_effect _ _ _ _ _ _ Hw Hc) as (_ & [Hm _ Hf _ Ht Hj _] & _).
      destruct Hset. split; by rewrite ?Hm, ?Hf, ?Ht, ?Hj.
    + apply register_adds in Hr as (b & Hr); [|done..]. destruct Hr as (_ & _ & _ & _ & _ & _ & _ & _ & _ & _ & _ & _ & -> & _).
      by destruct Hset.
    + apply revise_adds in Hr as (p & ba & an & inh & b & g & Hr); [|done..].
      destruct Hr as (_ & _ & _ & _ & _ & _ & _ & _ & _ & _ & _ & _ & _ & _ & _ & _ & _ & _ & _ & [Hm _ Hf _ Ht Hj _] & _).
      destruct Hset. split; by rewrite ?Hm, ?Hf, ?Ht, ?Hj.
  - destruct Heff as [_ _ _ [_ Hg'] _ _|id b b' Hr|id e b b' Hc _|d config _ Hu Hr|clock d rd pr reset Hal Hr]; [lia|..].
    + by destruct (rs_after _ _ _ _ _ Hr) as (n & -> & _).
    + destruct Hc as [_ _ (st1 & st2 & act & ev & rs & now & clock & Hu & Hp & Hrest)].
      apply publish_ok in Hp as (g & _ & Hgm & ->). case_bool_decide; [|by subst].
      by eapply (withdraw_generation _ _ _ _ Hrest).
    + apply register_adds in Hr as (b & Hr); [|done..]. destruct Hr as (_ & _ & _ & _ & _ & _ & _ & _ & _ & _ & _ & _ & -> & ? & _). done.
    + apply revise_adds in Hr as (p & ba & an & inh & b & g & Hr); [|done..].
      destruct Hr as (_ & _ & _ & _ & _ & _ & _ & _ & _ & _ & _ & _ & _ & _ & _ & _ & _ & _ & ? & _ & -> & _). done.
Qed.
Lemma Inv_default : Inv ControlState_default.
Proof.
  split; [apply Well_default|apply Lineage_default| |apply Chained_default|done|done].
  intros id e b Hb. unfold lookup_experiment, experiment in Hb. cbn in Hb. by rewrite lookup_empty in Hb.
Qed.
Lemma Inv_effects st st' : Inv st → rtc effect st st' → Inv st'.
Proof. apply effects_invariant, Inv_effect. Qed.
Lemma Inv_reachable st : reachable st → Inv st.
Proof. intros Hr. eapply Inv_effects; [apply Inv_default|by apply steps_effects]. Qed.

(** ** Experiments persist *)

(** What an experiment is never changes; a withdrawn one stays as it is, up to its revision. *)
Definition persists (b b' : BlockState) : Prop :=
  same_experiment b b' ∧
  (status b = RolledBack → status b' = RolledBack ∧ batch b' = batch b ∧ plan b' = plan b ∧
    assigned_challenger_sessions b' = assigned_challenger_sessions b).
#[export] Instance persists_preorder : PreOrder persists.
Proof.
  split; [done|]. intros b1 b2 b3 [Hs1 Hr1] [Hs2 Hr2]. split; [by etrans|]. intros Hr.
  destruct (Hr1 Hr) as (? & ? & ? & ?). destruct (Hr2 ltac:(done)) as (? & ? & ? & ?). split_and!; congruence.
Qed.
Lemma effect_persists st st' id e b : Inv st → effect st st' → lookup_experiment st id e = Some b →
  ∃ b', lookup_experiment st' id e = Some b' ∧ persists b b'.
Proof.
  intros [Hw HL _ _ _ _] Heff Hb.
  destruct Heff as [Hbl Har _ _ _ _|id0 b0 b0' Hr|id0 e0 b0 b0' Hc Hp|d config Hty Hu Hr|clock d rd pr reset Hal Hr].
  - exists b. split; [|done]. unfold lookup_experiment, experiment, archived_of in *. by rewrite Hbl, Har.
  - rewrite (reserves_lookup _ _ _ _ _ Hw Hr). case_decide as Hd; [|by exists b]. destruct Hd as [-> ->].
    rewrite (lookup_experiment_current _ _ _ (rs_block _ _ _ _ _ Hr)) in Hb. injection Hb as <-.
    exists b0'. split; [done|]. split; [by apply reserved_update, Hr|]. by rewrite (rs_status _ _ _ _ _ Hr).
  - destruct (changes_lookup_forward _ _ _ _ _ _ _ _ _ Hw Hc Hb) as (b' & Hb' & Hs & Hcb). exists b'. split; [done|].
    split; [done|]. intros Hrb. assert (¬ (id = id0 ∧ e = e0)) as Hne.
    { intros [-> ->]. rewrite (ch_before _ _ _ _ _ _ Hc) in Hb. injection Hb as ->.
      destruct (lin_valid _ HL _ _ _ (ch_before _ _ _ _ _ _ Hc)) as (_ & _ & Hnp). by destruct (planned_step _ _ Hnp Hp). }
    unfold changed_by in Hcb. rewrite decide_False in Hcb by done.
    case_bool_decide; [|by subst]. destruct Hcb as [(_ & [Hpl Hba Has _] & [->|[_ ->]]) _]; done.
  - apply register_adds in Hr as (c & Hr); [|done..]. exists b. split; [|done].
    destruct Hr as (_ & _ & _ & _ & He & _ & _ & _ & _ & _ & _ & _ & _ & _ & _ & Hadd). rewrite <-He in Hu. by eapply adds_old.
  - apply revise_adds in Hr as (p & ba & an & inh & c & g & Hr); [|done..]. exists b. split; [|done].
    destruct Hr as (_ & _ & _ & _ & _ & _ & _ & _ & _ & _ & _ & _ & _ & _ & _ & _ & Hu & _ & _ & _ & _ & _ & _ & _ & _ & Hadd).
    by eapply adds_old.
Qed.
Lemma effects_persist st st' id e b : Inv st → rtc effect st st' → lookup_experiment st id e = Some b →
  ∃ b', lookup_experiment st' id e = Some b' ∧ persists b b'.
Proof.
  intros Hi Hr. revert b. induction Hr as [|st1 st2 st3 Heff _ IH]; intros b Hb; [by exists b|].
  destruct (effect_persists _ _ _ _ _ Hi Heff Hb) as (b2 & Hb2 & Hp2).
  destruct (IH (Inv_effect _ _ Hi Heff) _ Hb2) as (b3 & Hb3 & Hp3). exists b3. split; [done|by etrans].
Qed.
(** C18: the withdrawal of an experiment is final: whatever the operations after it, the experiment is
    still there, withdrawn, with the cohort and the plan that it had; no plan, registration or
    revision resumes it or enrolls another session into it. *)
Theorem withdrawn_is_final st st' id e b :
  reachable st → rtc step st st' → lookup_experiment st id e = Some b → status b = RolledBack →
  ∃ b', lookup_experiment st' id e = Some b' ∧ status b' = RolledBack ∧ batch b' = batch b ∧ plan b' = plan b ∧
    definition b' = definition b ∧ assigned_challenger_sessions b' = assigned_challenger_sessions b.
Proof.
  intros Hi%Inv_reachable Hr%steps_effects Hb Hs.
  destruct (effects_persist _ _ _ _ _ Hi Hr Hb) as (b' & Hb' & Hse & Hrb). exists b'.
  destruct (Hrb Hs) as (? & ? & ? & ?). split_and!; try done. apply Hse.
Qed.

(** ** Adoption *)

Definition no_adoption (st st' : ControlState) : Prop := ∀ id e b b',
  lookup_experiment st id e = Some b → lookup_experiment st' id e = Some b' → status b' = Adopted → status b = Adopted.
Lemma changed_adopted id e b b' id' e' x x' :
  changed_by id e b b' id' e' x x' → status x' = Adopted → status (if decide (id' = id ∧ e' = e) then b' else x) = Adopted.
Proof.
  intros [->|(_ & Hx & _)]%changed_by_status; [done|]. congruence.
Qed.
Lemma changes_no_adoption st id e b b' st' : Well st → changes st id e b b' st' → status b' ≠ Adopted → no_adoption st st'.
Proof.
  intros Hw Hc Hn id' e' x x' Hx Hx' Had.
  destruct (changes_lookup _ _ _ _ _ _ _ _ _ Hw Hc Hx') as (x0 & Hx0 & _ & Hcb). rewrite Hx in Hx0. injection Hx0 as <-.
  apply changed_adopted in Hcb; [|done]. by destruct (decide _).
Qed.
Lemma trial_no_adoption st st' : rtc trial_effect st st' → no_adoption st st'.
Proof.
  intros Hev%trial_effects_evolve id e b b' Hb Hb'.
  pose proof (evolves_lookup _ _ _ id e (λ _ _ Hu, proj1 Hu) Hev) as Hl. rewrite Hb, Hb' in Hl.
  inversion Hl as [x y (_ & Hs & _)|]; subst. congruence.
Qed.
Lemma enact_adopts b p resolved arch b1 act : enact b p resolved arch = Ok (b1, act) →
  status b ≠ Adopted → status b1 = Adopted →
  recommendation p = Promote ∧ closed (batch b) = true ∧ resolved = true ∧ arch = false.
Proof.
  unfold enact. intros Hen Hn Had. rewrite (bool_decide_eq_false_2 (status b = Adopted)) in Hen by done.
  repeat case_match; res_inv; simplify_eq; cbn in *; try done.
  repeat match goal with H : (_ && _)%bool = true |- _ => apply andb_true_iff in H as [? ?] end.
  split_and!; try done. by destruct arch.
Qed.
(** C7: an experiment is adopted only on evidence: the operation is a plan for it that recommends
    promotion, made under the contract of its definition, while evolution is on, the experiment is
    the present one of its block and its dependencies and baseline hold; its cohort is closed, and
    the caller has resolved it. Nothing else adopts. *)
Theorem adoption_needs_evidence clock o st st' id e b b' :
  reachable st → allowed st o → exec clock o st = Ok st' →
  lookup_experiment st id e = Some b → status b ≠ Adopted →
  lookup_experiment st' id e = Some b' → status b' = Adopted →
  ∃ p, o = ApplyPlan id e p true ∧ recommendation p = Promote ∧ closed (batch b) = true ∧
    mode st ≠ Off ∧ status b ≠ RolledBack ∧ dependencies_match st b = true ∧ blocks st !! id = Some b ∧
    contract_matches b (learner_version p) (plan_contract p) (config_digest p) LEARNER_VERSION = true.
Proof.
  intros Hi%Inv_reachable Hal Hx Hb Hn Hb' Had. destruct Hi as [Hw HL _ _ _ _].
  assert (¬ no_adoption st st') as Hno by (intros Hna; by apply Hn; eapply Hna).
  destruct o as [m model|d config|d rd pr reset|id0 e0 p resolved|id0 e0 m|r|id0 key sd|seeds inp]; cbn [exec allowed] in *.
  - exfalso. apply Hno. intros id' e' x x' Hlx Hlx'.
    assert (lookup_experiment st' id' e' = lookup_experiment st id' e') as Heq; [|congruence].
    unfold set_mode in Hx. res_inv. destruct (_ || _ || _); [|by injection Hx as <-]. by res_inv.
  - exfalso. apply Hno. destruct Hal as [_ Hu].
    apply register_adds in Hx as (c & Hr); [|done..]. destruct Hr as (_ & _ & _ & _ & He & _ & _ & _ & _ & _ & _ & _ & _ & _ & _ & Hadd).
    rewrite <-He in Hu. intros id' e' x x' Hlx Hlx'. rewrite (adds_old _ _ _ _ _ _ _ _ Hu Hw Hadd Hlx) in Hlx'. congruence.
  - exfalso. apply Hno.
    apply revise_adds in Hx as (p & ba & an & inh & c & g & Hr); [|done..].
    destruct Hr as (_ & _ & _ & _ & _ & _ & _ & _ & _ & _ & _ & _ & _ & _ & _ & _ & Hu & _ & _ & _ & _ & _ & _ & _ & _ & Hadd).
    intros id' e' x x' Hlx Hlx'. rewrite (adds_old _ _ _ _ _ _ _ _ Hu Hw Hadd Hlx) in Hlx'. congruence.
  - destruct (apply_experiment_plan _ _ _ _ _ _) as [[st1 f]|] eqn:Hp; [|done]. injection Hx as ->.
    apply plan_changes in Hp as [[_ ->]|(c & b1 & act & _ & Hm & Hdep & Hrb & Hcm & Hen & Hch)]; [congruence|].
    destruct (changes_lookup _ _ _ _ _ _ _ _ _ Hw Hch Hb') as (x0 & Hx0 & _ & Hcb). rewrite Hb in Hx0. injection Hx0 as <-.
    apply changed_adopted in Hcb; [|done]. destruct (decide _) as [[-> ->]|]; [|done].
    rewrite (ch_before _ _ _ _ _ _ Hch) in Hb. injection Hb as ->.
    assert (status b1 = Adopted) as Hb1 by (by destruct (keeps_revision act)).
    destruct (enact_adopts _ _ _ _ _ _ Hen Hn Hb1) as (Hpr & Hcl & -> & Harch).
    exists p. split_and!; try done. pose proof (ch_before _ _ _ _ _ _ Hch) as (c & Hc & Hcase)%lookup_experiment_Some.
    rewrite Hc in Harch. cbn in Harch. apply negb_false_iff, bool_decide_eq_true in Harch.
    by destruct Hcase as [[_ ->]|[]].
  - exfalso. apply Hno. destruct (apply_experiment_monitoring _ _ _ _ _) as [[st1 f]|] eqn:Hp; [|done]. injection Hx as ->.
    apply monitoring_changes in Hp as [[_ ->]|(c & _ & _ & _ & _ & _ & Hch)]; [by intros ????; congruence|].
    by eapply changes_no_adoption.
  - exfalso. apply Hno. destruct (restore _ _ _) as [[st1 f]|] eqn:Hp; [|done]. injection Hx as ->.
    apply restore_changes in Hp as [[_ ->]|(c & _ & _ & _ & _ & _ & Hch)]; [by intros ????; congruence|].
    by eapply changes_no_adoption.
  - exfalso. apply Hno. destruct (reserve_trial _ _ _ _) as [[st1 f]|] eqn:Hp; [|done]. injection Hx as ->.
    by eapply trial_no_adoption, reserve_effect.
  - exfalso. apply Hno. destruct (select _ _ _ _) as [[[st1 en] i]|] eqn:Hp; [|done]. injection Hx as ->.
    apply select_ok in Hp as (t & dd & Ha & _). by apply trial_no_adoption, (admit_effect _ _ _ _ _ Ha).
Qed.

(** ** Baselines and history *)

(** C32: while an experiment is not withdrawn, every experiment from which it inherits its baseline
    is there, belongs to its block, is adopted, and has as its own baseline the part of the
    ancestry before it; the withdrawal of one withdraws all that inherit from it. *)
Theorem baselines_are_adopted st id e b i x :
  reachable st → lookup_experiment st id e = Some b → baseline_ancestry b !! i = Some x →
  ∃ a, lookup_experiment st id x = Some a ∧ baseline_ancestry a = take i (baseline_ancestry b) ∧
    (status a = Adopted ∨ status a = RolledBack ∧ status b = RolledBack).
Proof.
  intros Hi%Inv_reachable Hb Hx. destruct (lin_ancestor _ (inv_lineage _ Hi) _ _ _ _ _ Hb Hx) as (a & Ha & Ht & Hs & Had).
  exists a. split_and!; [done..|]. destruct Hs as [|Hs]; [by left|]. right. split; [done|].
  destruct (decide (status b = RolledBack)) as [|Hn]; [done|]. rewrite (Had Hn) in Hs. done.
Qed.
(** The loop never runs out of fuel, in any state. *)
Lemma original_loop_fuel st id b c seen fuel :
  blocks st !! id = Some c → seen ⊆ {[experiment_id c]} ∪ dom (archived_experiments st) →
  (original_fuel st ≤ fuel + size seen)%nat → ∃ r, original_loop fuel st id b seen = Some r.
Proof.
  intros Hc. revert b seen. induction fuel as [|fuel IH]; intros b seen Hsub Hf.
  - apply subseteq_size in Hsub. rewrite size_union_alt, size_singleton in Hsub.
    pose proof (subseteq_size (dom (archived_experiments st) ∖ {[experiment_id c]}) (dom (archived_experiments st)) ltac:(set_solver)) as Hd.
    rewrite size_dom in Hd. unfold original_fuel in Hf. lia.
  - cbn. destruct (predecessor_experiment_id b) as [p|]; [|eauto]. case_bool_decide as Hin; [eauto|].
    destruct (experiment st id (Some p)) as [b'|] eqn:Hp; [|eauto]. apply IH.
    + apply union_subseteq. split; [|done]. apply singleton_subseteq_l, elem_of_union.
      apply lookup_experiment_Some in Hp as (c' & Hc' & [[He _]|[_ (a & Ha & _)%archived_of_Some]]).
      * left. rewrite Hc in Hc'. injection Hc' as <-. set_solver.
      * right. apply elem_of_dom. eauto.
    + rewrite size_union by set_solver. rewrite size_singleton. lia.
Qed.
Lemma original_loop_ok st id b fuel seen (rank : string → nat) :
  Well st →
  (∀ e b p, lookup_experiment st id e = Some b → predecessor_experiment_id b = Some p →
     (rank p < rank e)%nat ∧ is_Some (lookup_experiment st id p)) →
  lookup_experiment st id (experiment_id b) = Some b → (∀ x, x ∈ seen → (rank (experiment_id b) ≤ rank x)%nat) →
  ∀ r, original_loop fuel st id b seen = Some r →
  ∃ o, r = Ok o ∧ lookup_experiment st id (experiment_id o) = Some o ∧ predecessor_experiment_id o = None.
Proof.
  intros Hw Hrank. revert b seen. induction fuel as [|fuel IH]; intros b seen Hb Hseen r; [done|]. cbn.
  destruct (predecessor_experiment_id b) as [p|] eqn:Hp; [|intros [= <-]; by exists b].
  destruct (Hrank _ _ _ Hb Hp) as [Hlt [b' Hb']].
  rewrite bool_decide_eq_false_2 by (intros Hin; specialize (Hseen _ Hin); lia).
  change (experiment st id (Some p)) with (lookup_experiment st id p). rewrite Hb'.
  pose proof (lookup_experiment_id _ _ _ _ Hw Hb') as [_ He]. apply IH; [by rewrite He|].
  rewrite He. intros x [->%elem_of_singleton|Hx]%elem_of_union; [done|]. specialize (Hseen _ Hx). lia.
Qed.
(** The walk to the original experiment of a block ends, in any state within its fuel, and in a
    reachable one at an experiment of the block that has no predecessor: the history has no cycle
    and no gap. *)
Theorem original_experiment_terminates st id c :
  blocks st !! id = Some c →
  (∀ b fuel, (original_fuel st ≤ fuel)%nat → ∃ r, original_loop fuel st id b ∅ = Some r) ∧
  (reachable st → ∃ o, original_experiment st id = Ok o ∧ lookup_experiment st id (experiment_id o) = Some o ∧
    predecessor_experiment_id o = None).
Proof.
  intros Hc. assert (∀ b fuel, (original_fuel st ≤ fuel)%nat → ∃ r, original_loop fuel st id b ∅ = Some r) as Hfuel.
  { intros b fuel Hf. eapply original_loop_fuel; [done|set_solver|rewrite size_empty; lia]. }
  split; [done|]. intros Hi%Inv_reachable. unfold original_experiment. rewrite Hc. cbn [ok_or mbind result_bind].
  destruct (Hfuel c _ (le_n _)) as [r Hr]. destruct (lin_acyclic _ (inv_lineage _ Hi)) as [rank Hrank].
  assert (∀ x, x ∈ (∅ : gset string) → (rank (experiment_id c) ≤ rank x)%nat) as Hseen by set_solver.
  destruct (original_loop_ok _ _ _ _ _ rank (inv_well _ Hi) (λ e b p, Hrank id e b p)
    (lookup_experiment_current _ _ _ Hc) Hseen _ Hr) as (o & -> & ?).
  rewrite Hr. by exists o.
Qed.
(** The log of publications is a history: generations increase, up to that of the document;
    the publications of an experiment continue one another, each starting at the revision at which the
    one before it ended, and the last one ends at the revision that the experiment has. *)
Theorem publications_are_a_history st id e b :
  reachable st → lookup_experiment st id e = Some b →
  StronglySorted Z.lt (pub_generation <$> publications st) ∧
  (∀ p, p ∈ publications st → pub_generation p ≤ generation st ≤ u64_max) ∧
  linked (history st id e) ∧ ∀ p, last (history st id e) = Some p → pub_revision p = revision b.
Proof.
  intros Hi%Inv_reachable Hb. destruct (inv_chained _ Hi) as [Hch Hgen Hla].
  specialize (Hch id e). rewrite Hb in Hch. split_and!; [done| |apply Hch|apply Hch].
  intros p Hp. split; [by apply Hla|apply Hi].
Qed.

(** ** Cohorts *)

(** Trials are bounded: in every reachable state a cohort has at most as many sessions as its
    definition says, at most the permitted number of challengers among them, and all the cohorts of
    an experiment together have enrolled no more challengers than allowed; an open cohort has room
    left for one more of each. *)
Theorem cohorts_are_bounded st id e b :
  reachable st → lookup_experiment st id e = Some b →
  Z.of_nat (size (members (batch b))) ≤ batch_sessions (definition b) ∧
  challengers (batch b) ≤ maximum_pending_challenger (bandit (definition b)) ∧
  challengers (batch b) ≤ assigned_challenger_sessions b ≤ maximum_challenger_sessions (bandit (definition b)) ∧
  (closed (batch b) = false → Z.of_nat (size (members (batch b))) < batch_sessions (definition b) ∧
    challengers (batch b) < maximum_pending_challenger (bandit (definition b))).
Proof. intros Hi%Inv_reachable Hb. by destruct (inv_limits _ Hi _ _ _ Hb). Qed.
End theorems.
