(* ===== verification/BlockRouting.v ===== *)
(** The route that a request gets, and the operations that a lost answer makes callers repeat. *)
From stdpp Require Import base list strings gmap sorting.
From Stdlib Require Import ZArith Lia Ascii.
From S2P Require Import Prelude BlockTypes BlockControl BlockSelection BlockSystem BlockLineage BlockInvariant BlockTheorems.
Open Scope Z_scope.

Section routing.
Context `{Sha256, BlockJson, SeededDraw}.

(** ** Pins *)

(** The experiments to which the session is pinned are there. *)
Definition pins_exist (st : ControlState) (e : SessionEnrollment) : Prop :=
  match block_experiments e with
  | Some experiments => ∀ id x, experiments !! id = Some x → is_Some (lookup_experiment st id x)
  | None => (∀ id a, assignments e !! id = Some a → is_Some (lookup_experiment st id (a_experiment a))) ∧
            (∀ id x, adopted_blocks e !! id = Some x → is_Some (lookup_experiment st id x))
  end.
Lemma pins_persist st st' e : Inv st → rtc effect st st' → pins_exist st e → pins_exist st' e.
Proof.
  intros Hi Hr. assert (∀ id x, is_Some (lookup_experiment st id x) → is_Some (lookup_experiment st' id x)) as Hp.
  { intros id x [b Hb]. destruct (effects_persist _ _ _ _ _ Hi Hr Hb) as (b' & ? & _). by exists b'. }
  unfold pins_exist. destruct (block_experiments e); [eauto|]. intros [Ha Hb]. split; eauto.
Qed.
Lemma original_ok st id c : Inv st → blocks st !! id = Some c → ∃ o, original_experiment st id = Ok o ∧
  lookup_experiment st id (experiment_id o) = Some o.
Proof.
  intros Hi Hc. unfold original_experiment. rewrite Hc. cbn [ok_or mbind result_bind].
  destruct (lin_acyclic _ (inv_lineage _ Hi)) as [rank Hrank].
  assert (∀ x, x ∈ (∅ : gset string) → (rank (experiment_id c) ≤ rank x)%nat) as Hseen by set_solver.
  destruct (original_loop_fuel st id c c ∅ (original_fuel st) Hc) as [r Hr]; [set_solver|rewrite size_empty; lia|].
  destruct (original_loop_ok _ _ _ _ _ rank (inv_well _ Hi) (λ e b p, Hrank id e b p)
    (lookup_experiment_current _ _ _ Hc) Hseen _ Hr) as (o & -> & ? & _). rewrite Hr. by exists o.
Qed.
Lemma pinned_lookup st e id b : Inv st → pinned st e id = Ok (Some b) →
  lookup_experiment st id (experiment_id b) = Some b.
Proof.
  intros Hi. unfold pinned. assert (∀ x r (m : string), (b' ← ok_or (experiment st id (Some x)) m; Ok (Some b')) = Ok r →
    r = Some b → lookup_experiment st id (experiment_id b) = Some b) as Hx.
  { intros x r m (b' & Hb'%ok_or_ok & [= <-])%bind_ok [= ->].
    change (experiment st id (Some x)) with (lookup_experiment st id x) in Hb'.
    by destruct (lookup_experiment_id _ _ _ _ (inv_well _ Hi) Hb') as [_ ->]. }
  destruct (block_experiments e) as [exps|].
  - destruct (exps !! id); [|done]. intros Hr. by eapply Hx.
  - destruct (assignments e !! id); [intros Hr; by eapply Hx|].
    destruct (adopted_blocks e !! id); [intros Hr; by eapply Hx|].
    intros (o & Ho & [= ->])%bind_ok. pose proof Ho as (c & Hc%ok_or_ok & _)%bind_ok.
    destruct (original_ok _ _ _ Hi Hc) as (o' & Ho' & Hl). rewrite Ho in Ho'. by injection Ho' as <-.
Qed.
Lemma pinned_total st e id c : Inv st → pins_exist st e → blocks st !! id = Some c → ∃ r, pinned st e id = Ok r.
Proof.
  intros Hi. unfold pins_exist, pinned. destruct (block_experiments e) as [exps|].
  - intros Hp _. destruct (exps !! id) as [x|] eqn:Hx; [|eauto]. destruct (Hp _ _ Hx) as [b Hb].
    unfold lookup_experiment in Hb. rewrite Hb. cbn. eauto.
  - intros [Ha Hd] Hc. destruct (assignments e !! id) as [a|] eqn:Hx.
    + destruct (Ha _ _ Hx) as [b Hb]. unfold lookup_experiment in Hb. rewrite Hb. cbn. eauto.
    + destruct (adopted_blocks e !! id) as [x|] eqn:Hx'.
      * destruct (Hd _ _ Hx') as [b Hb]. unfold lookup_experiment in Hb. rewrite Hb. cbn. eauto.
      * destruct (original_ok _ _ _ Hi Hc) as (o & -> & _). cbn. eauto.
Qed.

(** ** The baseline that serves *)

Lemma find_matcher_ok r l : (∃ r', r' ∈ l ∧ matcher r' = matcher r) →
  ∃ r', find_matcher r l = Some r' ∧ r' ∈ l ∧ matcher r' = matcher r.
Proof.
  intros (r' & Hr' & Hm). unfold find_matcher. destruct (List.find _ l) as [q|] eqn:Hf.
  - apply List.find_some in Hf as [Hq [?%bool_decide_eq_true ?%bool_decide_eq_true]%andb_true_iff].
    exists q. split_and!; [done|by apply list_elem_of_In|]. unfold matcher. congruence.
  - exfalso. apply list_elem_of_In in Hr'. pose proof (List.find_none _ _ Hf _ Hr') as Hn.
    injection Hm as Hs Hfp. cbn in Hn. by rewrite !bool_decide_eq_true_2 in Hn.
Qed.
(** Every experiment has a serving baseline in its block, with a rule for each of its matchers. *)
Lemma baseline_total st id b : Inv st → lookup_experiment st id (experiment_id b) = Some b →
  ∃ base anc e', baseline_source st b = Ok (base, anc) ∧ lookup_experiment st id e' = Some base ∧
    matchers (rules (definition base)) = matchers (rules (definition b)).
Proof.
  intros Hi Hb. pose proof (inv_well _ Hi) as Hw. pose proof (inv_lineage _ Hi) as HL.
  destruct (lookup_experiment_id _ _ _ _ Hw Hb) as [Hid _].
  destruct (baseline_walk_total st b (baseline_ancestry b) []) as [[base anc] Hsrc].
  { intros x Hx. apply list_elem_of_lookup in Hx as [i Hx]. rewrite Hid.
    destruct (lin_ancestor _ HL _ _ _ _ _ Hb Hx) as (a & Ha & _). by exists a. }
  assert (∃ e', lookup_experiment st id e' = Some base) as [e' He'].
  { apply baseline_source_ok in Hsrc as (n & _ & _ & [[-> _]|(x & _ & Hx & _)]); [by eexists|].
    rewrite Hid in Hx. by exists x. }
  exists base, anc, e'. split_and!; [done|done|]. destruct (lookup_experiment_block _ _ _ _ Hb) as [c Hc].
  destruct (lin_block _ HL _ _ _ _ Hb Hc) as [-> _]. by destruct (lin_block _ HL _ _ _ _ He' Hc) as [-> _].
Qed.
Lemma baseline_rule_ok (rule : BlockRule) (base b : BlockState) : rule ∈ rules (definition b) →
  matchers (rules (definition base)) = matchers (rules (definition b)) →
  ∃ r', find_matcher rule (rules (definition base)) = Some r' ∧ r' ∈ rules (definition base) ∧ matcher r' = matcher rule.
Proof.
  intros Hr Hm. apply find_matcher_ok. apply elem_of_matchers. rewrite Hm. apply elem_of_matchers. by exists rule.
Qed.
Lemma decide_block_total st inp e d id c : Inv st → pins_exist st e → blocks st !! id = Some c →
  ∃ d', decide_block st inp e d id = Ok d'.
Proof.
  intros Hi Hp Hc. unfold decide_block. destruct (pinned_total _ _ _ _ Hi Hp Hc) as [pin Hpin]. rewrite Hpin.
  cbn [mbind result_bind]. destruct pin as [b|]; [|eauto].
  pose proof (pinned_lookup _ _ _ _ Hi Hpin) as Hb.
  destruct (negb _); [eauto|]. destruct (List.find _ _) as [rule|] eqn:Hf; [|eauto].
  apply List.find_some in Hf as [Hr%list_elem_of_In _].
  destruct (negb _ || negb _); [eauto|]. destruct (baseline_total _ _ _ Hi Hb) as (base & anc & e' & -> & _ & Hm).
  cbn [mbind result_bind]. destruct (negb _ || negb _); [eauto|].
  destruct (baseline_rule_ok _ _ _ Hr Hm) as (r' & -> & _). cbn. eauto.
Qed.
(** C34: an established session is always served: from the moment at which it was pinned to experiments
    that exist, whatever operations follow, a request of it gets a route, without an error, and
    without a change to the control document or to its enrollment. *)
Theorem established_session_is_served seeds times inp st st' :
  reachable st → pins_exist st (enrollment inp) → rtc step st st' → is_new inp = false →
  ∃ i, select seeds times inp st' = Ok (st', enrollment inp, i).
Proof.
  intros Hi%Inv_reachable Hp Hr%steps_effects Hnew.
  pose proof (pins_persist _ _ _ Hi Hr Hp) as Hp'. pose proof (Inv_effects _ _ Hi Hr) as Hi'.
  assert (admission seeds times inp st' = Ok (st', enrollment inp, O)) as Hadm.
  { unfold admission, admit_monitoring. rewrite Hnew. cbn. by rewrite Hnew. }
  assert (∀ l d, Forall (λ id, id ∈ dom (blocks st')) l →
    ∃ d', try_fold (decide_block st' inp (enrollment inp)) d l = Ok d') as Hdec.
  { intros l. induction l as [|id l IH]; intros d Hl; cbn [try_fold]; [eauto|].
    apply Forall_cons in Hl as [[c Hc]%elem_of_dom Hl].
    destruct (decide_block_total st' inp (enrollment inp) d id c Hi' Hp' Hc) as [d' ->]. by apply IH. }
  destruct (Hdec (sorted_keys (blocks st')) (passthrough inp)) as [d Hd].
  { apply Forall_forall. intros id. by rewrite elem_of_sorted_keys. }
  unfold select. rewrite Hadm. cbn [mbind result_bind]. rewrite Hd. cbn. eauto.
Qed.

(** ** Who decides *)

(** The experiment [b] of block [id] decides the request by [rule], over its serving [base]. *)
Record Decides (st : ControlState) (inp : Input) (e : SessionEnrollment) (id : string) (b : BlockState)
    (rule : BlockRule) (base : BlockState) (base_rule : BlockRule) : Prop := {
  de_pinned : pinned st e id = Ok (Some b);
  de_source : source (definition b) = agent_source (n_identity inp);
  de_rule : rule ∈ rules (definition b);
  de_matches : rule_matches (n_context inp) rule = true;
  de_live : matches (n_dependencies inp) st b = true ∧ external_dependencies_match st b = true;
  de_baseline : ∃ anc, baseline_source st b = Ok (base, anc);
  de_base_live : matches (n_dependencies inp) st base = true ∧ external_dependencies_match st base = true;
  de_base_rule : base_rule ∈ rules (definition base);
  de_same : matcher base_rule = matcher rule }.
Lemma decide_block_ok st inp e d id d' : decide_block st inp e d id = Ok d' →
  (route d' = route d ∧ decided_by d' = decided_by d) ∨
  ∃ b rule base base_rule, Decides st inp e id b rule base base_rule ∧ decided_by d' = Some id ∧
    route d' = if is_candidate st (trial_ready (n_dependencies inp)) e id b
               then challenger_route rule else baseline_route base_rule.
Proof.
  unfold decide_block. intros (pin & Hpin & Hd)%bind_ok. destruct pin as [b|]; [|injection Hd as <-; by left].
  destruct (negb (bool_decide _)) eqn:Hsrc; [injection Hd as <-; by left|].
  apply negb_false_iff, bool_decide_eq_true in Hsrc.
  destruct (List.find _ _) as [rule|] eqn:Hf; [|injection Hd as <-; by left].
  apply List.find_some in Hf as [Hr%list_elem_of_In Hm].
  destruct (_ || _) eqn:Hl1; [injection Hd as <-; by left|].
  apply bind_ok in Hd as ([base anc] & Hbase & Hd).
  destruct (negb (matches _ _ base) || _) eqn:Hl2; [injection Hd as <-; by left|].
  apply bind_ok in Hd as (base_rule & Hbr%ok_or_ok & [= <-]).
  apply orb_false_iff in Hl1 as [?%negb_false_iff ?%negb_false_iff], Hl2 as [?%negb_false_iff ?%negb_false_iff].
  apply List.find_some in Hbr as [Hbr%list_elem_of_In [?%bool_decide_eq_true ?%bool_decide_eq_true]%andb_true_iff].
  right. exists b, rule, base, base_rule. split; [|done]. split; try done; [by exists anc|]. unfold matcher. congruence.
Qed.
Lemma rules_overlap c r r' : rule_matches c r = true → rule_matches c r' = true → overlap r r' = true.
Proof.
  unfold rule_matches, overlap. intros [Hs%bool_decide_eq_true Hf]%andb_true_iff [Hs'%bool_decide_eq_true Hf']%andb_true_iff.
  rewrite bool_decide_eq_true_2 by congruence. cbn. destruct (fingerprint r), (fingerprint r'); cbn in *; try done.
  apply bool_decide_eq_true in Hf, Hf'. apply bool_decide_eq_true. congruence.
Qed.
(** At most one block of the agent's source has an experiment whose rules match a request. *)
Lemma one_block_matches st inp e id b r id' b' r' : Inv st →
  pinned st e id = Ok (Some b) → source (definition b) = agent_source (n_identity inp) →
  r ∈ rules (definition b) → rule_matches (n_context inp) r = true →
  pinned st e id' = Ok (Some b') → source (definition b') = agent_source (n_identity inp) →
  r' ∈ rules (definition b') → rule_matches (n_context inp) r' = true → id = id'.
Proof.
  intros Hi Hp Hs Hr Hm Hp' Hs' Hr' Hm'. pose proof (inv_lineage _ Hi) as HL.
  apply pinned_lookup in Hp, Hp'; [|done..].
  destruct (lookup_experiment_block _ _ _ _ Hp) as [c Hc], (lookup_experiment_block _ _ _ _ Hp') as [c' Hc'].
  destruct (lin_block _ HL _ _ _ _ Hp Hc) as [Hmat Hsrc], (lin_block _ HL _ _ _ _ Hp' Hc') as [Hmat' Hsrc'].
  destruct (decide (id = id')) as [|Hne]; [done|]. exfalso.
  assert (matcher r ∈ matchers (rules (definition c))) as (q & Hq & Hqr)%elem_of_matchers.
  { rewrite <-Hmat. apply elem_of_matchers. by exists r. }
  assert (matcher r' ∈ matchers (rules (definition c'))) as (q' & Hq' & Hqr')%elem_of_matchers.
  { rewrite <-Hmat'. apply elem_of_matchers. by exists r'. }
  pose proof (lin_disjoint _ HL _ _ _ _ q q' Hc Hc' Hne ltac:(congruence) Hq Hq') as Ho.
  rewrite overlap_matcher, Hqr, Hqr', <-overlap_matcher in Ho. by rewrite (rules_overlap _ _ _ Hm Hm') in Ho.
Qed.
(** The right of a session to the challenger of an experiment. *)
Definition entitled (st : ControlState) (inp : Input) (e : SessionEnrollment) (id : string) (b : BlockState) : Prop :=
  baseline_valid st b = true ∧
  ((status b = Adopted ∧
    ((∃ a, assignments e !! id = Some a ∧ a_experiment a = experiment_id b ∧ arm a = Challenger) ∨
     (assignment_of e id b = None ∧ adopted_blocks e !! id = Some (experiment_id b)))) ∨
   (status b = Exploring ∧ mode st ≠ Off ∧ trial_ready (n_dependencies inp) = true ∧
    ∃ a, assignments e !! id = Some a ∧ a_experiment a = experiment_id b ∧ arm a = Challenger ∧
      a_trial_epoch a = trial_epoch st)).
Lemma assignment_of_Some e id b a :
  assignment_of e id b = Some a ↔ assignments e !! id = Some a ∧ a_experiment a = experiment_id b.
Proof. unfold assignment_of. destruct (assignments e !! id) as [a'|]; cbn; [case_bool_decide|]; naive_solver. Qed.
Lemma is_candidate_entitled st inp e id b :
  is_candidate st (trial_ready (n_dependencies inp)) e id b = true ↔ entitled st inp e id b.
Proof.
  unfold is_candidate, entitled. rewrite andb_true_iff, orb_true_iff, !andb_true_iff, orb_true_iff, andb_true_iff.
  rewrite !bool_decide_eq_true, !negb_true_iff, bool_decide_eq_false. unfold is_some. rewrite bool_decide_eq_false.
  rewrite <-eq_None_not_Some. setoid_rewrite <-(assoc (∧)). apply and_iff_compat_l.
  destruct (assignment_of e id b) as [a|] eqn:Ha; cbn [is_some_and from_option].
  - apply assignment_of_Some in Ha as [Ha He]. rewrite andb_true_iff, bool_decide_eq_true, Z.eqb_eq. naive_solver.
  - assert (∀ a, assignments e !! id = Some a → a_experiment a = experiment_id b → False) as Hno.
    { intros a Ha1 Ha2. assert (assignment_of e id b = Some a) by by apply assignment_of_Some. congruence. }
    naive_solver.
Qed.
(** C12: the route of a request: it is the one that was asked for, or the one of the single block that
    decides: a rule of the session's experiment matches the request, the live contracts and
    the dependencies of the experiment and of its serving baseline are the recorded ones, and
    the route is the challenger's exactly when the session is entitled to it: by adoption, or by its
    own assignment in a trial of the present epoch while evolution is on; and the baseline's otherwise. *)
Theorem route_is_authorised seeds times inp st st' e i :
  reachable st → select seeds times inp st = Ok (st', e, i) →
  (applied_block i = None ∧ selected_route i = c_selector (n_context inp)) ∨
  ∃ id b rule base base_rule, n_bypass inp = None ∧ applied_block i = Some id ∧
    Decides st' inp e id b rule base base_rule ∧
    (∀ id' b' r', pinned st' e id' = Ok (Some b') → source (definition b') = agent_source (n_identity inp) →
       r' ∈ rules (definition b') → rule_matches (n_context inp) r' = true → id' = id) ∧
    (entitled st' inp e id b ∧ selected_route i = challenger_route rule ∨
     ¬ entitled st' inp e id b ∧ selected_route i = baseline_route base_rule).
Proof.
  intros Hi%Inv_reachable (t & d & Ha & Hd & -> & -> & _)%select_ok.
  pose proof (Inv_effects _ _ Hi (trial_effects_effects _ _ (admit_effect _ _ _ _ _ Ha))) as Hi'. cbn in Hi'.
  set (P := λ d, (decided_by d = None ∧ route d = c_selector (n_context inp)) ∨
    ∃ id b rule base base_rule, decided_by d = Some id ∧ Decides st' inp e id b rule base base_rule ∧
      route d = if is_candidate st' (trial_ready (n_dependencies inp)) e id b
                then challenger_route rule else baseline_route base_rule).
  assert (P d) as Hpd.
  { refine (try_fold_inv _ P _ _ _ _ _ Hd); [|by left]. intros d1 id d2 _ Hd1 Hstep.
    apply decide_block_ok in Hstep as [[Hr Hb]|(b & rule & base & br & Hde & Hb & Hr)].
    - unfold P. by rewrite Hr, Hb.
    - right. exists id, b, rule, base, br. by rewrite Hb, Hr. }
  unfold bypassed. destruct (n_bypass inp) eqn:Hby; [by left|].
  destruct Hpd as [?|(id & b & rule & base & br & Hdec & Hde & Hr)]; [by left|]. right.
  exists id, b, rule, base, br. split_and!; [done|done|done| |].
  - intros id' b' r' Hp' Hs' Hr' Hm'. symmetry.
    eapply (one_block_matches _ inp e id b rule id' b' r' Hi'); try done; apply Hde.
  - rewrite Hr. destruct (is_candidate _ _ _ _ _) eqn:Hc; [left|right]; (split; [|done]).
    + by apply is_candidate_entitled.
    + by rewrite <-is_candidate_entitled, Hc.
Qed.

(** ** Repeated calls *)

Definition extends (st st' : ControlState) : Prop := publications st `prefix_of` publications st'.
#[export] Instance extends_preorder : PreOrder extends.
Proof. unfold extends. split; [intros st; done|intros s1 s2 s3; apply transitivity]. Qed.
Lemma withdraw_extends clock ancestor st st' : withdraw_descendants clock ancestor st = Ok st' → extends st st'.
Proof.
  intros Hwd. refine (try_fold_inv _ (extends st) _ _ _ _ _ Hwd); [|done].
  intros s [i [id e]] s' _ Hs (b & s1 & _ & Hu & (g & _ & _ & ->)%publish_ok)%withdraw_step_ok.
  etrans; [exact Hs|]. destruct (update_experiment_settings _ _ _ _ _ Hu) as (_ & Hp & _).
  unfold extends. cbn. rewrite Hp. by eexists.
Qed.
Lemma effect_extends st st' : Inv st → effect st st' → extends st st'.
Proof.
  intros [Hw _ _ _ _ _]
    [_ _ Hp _ _ _|id b b' Hr|id e b b' Hc _|d config _ Hu Hr|clock d rd pr reset Hal Hr]; unfold extends.
  - by rewrite Hp.
  - by destruct (rs_after _ _ _ _ _ Hr) as (n & -> & _).
  - destruct Hc as [_ _ (st1 & st2 & act & ev & rs & now & clock & Hu & Hp & Hrest)].
    destruct (update_experiment_settings _ _ _ _ _ Hu) as (_ & Hps & _).
    apply publish_ok in Hp as (g & _ & _ & ->). trans (publications st1 ++ [{| pub_generation := g; pub_block_id := id;
      pub_experiment_id := Some e; previous_revision := revision b; pub_revision := revision b'; action := act;
      pub_evidence := ev; operator_reason := rs; recorded_at := now |}]); [rewrite Hps; by eexists|].
    case_bool_decide; [by apply (withdraw_extends _ _ _ _ Hrest)|by subst].
  - apply register_adds in Hr as (b & Hr); [|done..].
    by destruct Hr as (_ & _ & _ & _ & _ & _ & _ & _ & _ & _ & _ & _ & -> & _).
  - apply revise_adds in Hr as (p & ba & an & inh & b & g & Hr); [|done..].
    destruct Hr as (_ & _ & _ & _ & _ & _ & _ & _ & _ & _ & _ & _ & _ & _ & _ & _ & _ & _ & _ & _ & _ & (now & ->) & _).
    by eexists.
Qed.
Lemma effects_extend st st' : Inv st → rtc effect st st' → extends st st'.
Proof.
  intros Hi Hr. induction Hr as [|st1 st2 st3 Heff _ IH]; [done|].
  etrans; [by eapply effect_extends|]. apply IH. by eapply Inv_effect.
Qed.
Lemma find_prefix {A} (f : A → bool) l l' x : List.find f l = Some x → l `prefix_of` l' → List.find f l' = Some x.
Proof. intros Hf [k ->]. induction l as [|y l IH]; cbn in *; [done|]. destruct (f y); [done|by apply IH]. Qed.
(** A restoration may be repeated: once it has succeeded, the same request, at any later time and
    after any operations, answers with the same publication and changes nothing; it never
    withdraws an experiment that the operator started since. *)
Theorem restore_is_idempotent clock clock' r st st1 p st2 :
  reachable st → restore clock r st = Ok (st1, p) → rtc step st1 st2 → restore clock' r st2 = Ok (st2, p).
Proof.
  intros Hi%Inv_reachable Hr Hs%steps_effects.
  assert (trim_is_empty (reason r) = false) as Hre.
  { unfold restore in Hr. apply bind_ok in Hr as ([] & Hx%ensure_ok & _). by apply negb_true_iff in Hx. }
  assert (Inv st1 ∧ List.find (is_receipt r) (publications st1) = Some p) as [Hi1 Hf].
  { split; [destruct (restore_effect _ _ _ _ _ Hr) as [->|]; [done|by eapply Inv_effect]|].
    unfold restore in Hr. rewrite Hre in Hr. cbn in Hr. destruct (List.find _ _) as [q|] eqn:Hf.
    - by injection Hr as <- <-.
    - apply bind_ok in Hr as (b & Hb & ([] & Hexp%ensure_ok & ([] & _ & Hr)%bind_ok)%bind_ok).
      apply bind_ok in Hr as (g & _ & (s2 & Hwd & [= -> <-])%bind_ok).
      apply andb_true_iff in Hexp as [He%bool_decide_eq_true Hv%bool_decide_eq_true].
      apply withdraw_extends in Hwd. eapply find_prefix; [|exact Hwd]. cbn.
      generalize dependent (publications st). intros l Hf _. induction l as [|y l IH]; cbn in *.
      + unfold is_receipt. cbn. by rewrite He, Hv, !bool_decide_eq_true_2.
      + destruct (is_receipt r y); [done|by apply IH]. }
  pose proof (find_prefix _ _ _ _ Hf (effects_extend _ _ Hi1 Hs)) as Hf2.
  unfold restore. rewrite Hre. cbn. by rewrite Hf2.
Qed.

Lemma registration_persists st st' d rd pr : Inv st → rtc effect st st' →
  is_Some (registration st d rd pr) → is_Some (registration st' d rd pr).
Proof.
  intros Hi Hr [b Hb]. unfold registration in *. apply List.find_some in Hb as [Hb%list_elem_of_In Hf].
  apply (elem_of_all_blocks _ _ (inv_well _ Hi)) in Hb.
  destruct (effects_persist _ _ _ _ _ Hi Hr Hb) as (b' & Hb' & [Hse _]).
  pose proof (lookup_experiment_id _ _ _ _ (inv_well _ (Inv_effects _ _ Hi Hr)) Hb') as [Hid He].
  destruct (List.find _ (all_blocks st')) as [x|] eqn:Hn; [by eexists|].
  assert (b' ∈ all_blocks st') as Hin%list_elem_of_In.
  { apply (elem_of_all_blocks _ _ (inv_well _ (Inv_effects _ _ Hi Hr))). by rewrite Hid, He. }
  pose proof (List.find_none _ _ Hn _ Hin) as Hno. cbn in Hno. destruct Hse as [Hd _ Hp _ Hro].
  rewrite Hd, Hp, Hro in Hno. congruence.
Qed.
Lemma registration_new st id e b : Well st → lookup_experiment st id e = Some b →
  is_Some (registration st (definition b) (routing_config_digest b) (predecessor_experiment_id b)).
Proof.
  intros Hw Hb. destruct (lookup_experiment_id _ _ _ _ Hw Hb) as [Hid He]. unfold registration.
  destruct (List.find _ _) as [x|] eqn:Hn; [by eexists|].
  assert (b ∈ all_blocks st) as Hin%list_elem_of_In by (apply elem_of_all_blocks; [done|by rewrite Hid, He]).
  pose proof (List.find_none _ _ Hn _ Hin) as Hno. cbn in Hno. by rewrite !bool_decide_eq_true_2 in Hno.
Qed.
(** A reviewed registration may be repeated: once a block or a revision of it was registered, the
    same registration, at any later time, under any review fence and after any operations, succeeds
    and changes nothing: there is no second experiment, and what was learned is not reset. *)
Theorem registration_is_idempotent clock clock' d rd pr reset st st1 st2 x y pre pre' :
  reachable st → rtc step st1 st2 →
  (typed d ∧ unused st (registered_id st d rd) → register_checked d rd (Some x) pre st = Ok st1 →
    register_checked d rd (Some y) pre' st2 = Ok st2) ∧
  (allowed st (Revise d rd pr reset) → revise_checked clock d rd pr reset x pre st = Ok st1 →
    revise_checked clock' d rd pr reset y pre' st2 = Ok st2).
Proof.
  intros Hi%Inv_reachable Hs%steps_effects.
  assert (∀ pred, Inv st1 → is_Some (registration st1 d rd pred) → is_Some (registration st2 d rd pred)) as Hper
    by (intros; by eapply registration_persists).
  unfold register_checked, revise_checked. split.
  - intros [Hty Hu] ([] & Hne & Hr)%bind_ok. rewrite Hne. cbn [mbind result_bind is_some] in *.
    assert (Inv st1 ∧ is_Some (registration st1 d rd None)) as [Hi1 Hreg].
    { change (is_some (Some x)) with true in Hr. cbn [andb] in Hr. destruct (is_some (registration st d rd None)) eqn:Hold.
      - injection Hr as <-. split; [done|]. by apply bool_decide_eq_true in Hold.
      - apply bind_ok in Hr as ([] & _ & ([] & _ & Hr)%bind_ok). split; [eapply Inv_effect; [done|by eapply E_register]|].
        apply register_adds in Hr as (b & Hr); [|apply Hi|done].
        destruct Hr as (_ & _ & _ & <- & _ & _ & <- & _ & _ & _ & _ & <- & _ & _ & Hw & Hadd).
        eapply registration_new; [done|by eapply adds_new]. }
    specialize (Hper _ Hi1 Hreg). change (is_some (Some y)) with true. cbn [andb].
    unfold is_some. by rewrite bool_decide_eq_true_2.
  - intros Hal ([] & Hne & Hr)%bind_ok. rewrite Hne. cbn [mbind result_bind] in *.
    assert (Inv st1 ∧ is_Some (registration st1 d rd (Some pr))) as [Hi1 Hreg].
    { destruct (is_some (registration st d rd (Some pr))) eqn:Hold.
      - injection Hr as <-. split; [done|]. by apply bool_decide_eq_true in Hold.
      - apply bind_ok in Hr as ([] & _ & ([] & _ & Hr)%bind_ok). split; [eapply Inv_effect; [done|by eapply E_revise]|].
        apply revise_adds in Hr as (p & ba & an & inh & b & g & Hr); [|apply Hi|done].
        destruct Hr as (_ & _ & _ & _ & _ & _ & _ & <- & _ & _ & <- & _ & _ & _ & _ & <- & _ & _ & _ & _ & _ & _ & _ & _ & Hw & Hadd).
        eapply registration_new; [done|by eapply adds_new]. }
    specialize (Hper _ Hi1 Hreg). unfold is_some. by rewrite bool_decide_eq_true_2.
Qed.
End routing.
