(* ===== verification/RouteIr.v ===== *)
(** Workflow-state IR: the route projection, its canonical key and its parser
    ([apps/bitrouter/src/gateway/routing/workflow/ir.rs]). A projection's key is what the
    trajectory ledger and the progress guard store and compare; [RouteProjection_parse_key]
    recovers it. The key of an enum value is the [snake_case] name that its serde derive
    writes. *)
From stdpp Require Import base list strings gmap pretty sorting.
From Stdlib Require Import ZArith Lia Ascii SpecFloat.
From S2P Require Import Prelude.
Open Scope string_scope.
Open Scope Z_scope.

(** ** Enumerations *)

Inductive HarnessId := Generic | Hermes | ClaudeCode | Codex | Smithers | Terminus2 | OpenClaw | HarnessUnknown.
Inductive ProtocolKind := ChatCompletions | Messages | Responses | OpenClawRuntime | ProtocolUnknown.
Inductive WorkflowStateKind :=
| StateUnknown | Opening | Planning | ToolFollowup | Edit | Test_ | Debug_ | Review | Recovery
| SubagentDispatch | Finalization.
Inductive RouteRisk := Normal | Context_ | Guarded.
Inductive ToolDensity := DensityNone | DensityLow | DensityHigh.
Inductive ContextSizeBucket := SizeUnknown | Small | Medium | Large.
Inductive RecoverySignal := SignalNone | LikelyRecovery.
Inductive NormalizedActionKind := Read | Mutate | TestAction | Other.
Inductive RequirementLevel := LevelUnknown | LevelLow | LevelMedium | LevelHigh.
Inductive SessionConfidence := ConfidenceNone | ConfidenceLow | ConfidenceMedium | ConfidenceHigh.
Inductive AgentRole := Main | Summary | Questions | Answers | RoleUnknown.
Inductive ContextTransition :=
| TransitionNone | CompactionStart | CompactionContinuation | MainResume.
Inductive EvidenceLevel := Observed | Inferred | DocumentedStub | Missing.

#[export] Instance HarnessId_eq_dec : EqDecision HarnessId. Proof. solve_decision. Defined.
#[export] Instance ProtocolKind_eq_dec : EqDecision ProtocolKind. Proof. solve_decision. Defined.
#[export] Instance WorkflowStateKind_eq_dec : EqDecision WorkflowStateKind. Proof. solve_decision. Defined.
#[export] Instance RouteRisk_eq_dec : EqDecision RouteRisk. Proof. solve_decision. Defined.
#[export] Instance RecoverySignal_eq_dec : EqDecision RecoverySignal. Proof. solve_decision. Defined.
#[export] Instance RequirementLevel_eq_dec : EqDecision RequirementLevel. Proof. solve_decision. Defined.

(** [enum_key]: serialize with serde's renaming and trim the quotes. *)
Class EnumKey (T : Type) := enum_key : T → string.

#[export] Instance HarnessId_key : EnumKey HarnessId := λ v,
  match v with
  | Generic => "generic" | Hermes => "hermes" | ClaudeCode => "claude_code" | Codex => "codex"
  | Smithers => "smithers" | Terminus2 => "terminus_2" | OpenClaw => "open_claw"
  | HarnessUnknown => "unknown"
  end.
#[export] Instance ProtocolKind_key : EnumKey ProtocolKind := λ v,
  match v with
  | ChatCompletions => "chat_completions" | Messages => "messages" | Responses => "responses"
  | OpenClawRuntime => "open_claw_runtime" | ProtocolUnknown => "unknown"
  end.
#[export] Instance WorkflowStateKind_key : EnumKey WorkflowStateKind := λ v,
  match v with
  | StateUnknown => "unknown" | Opening => "opening" | Planning => "planning"
  | ToolFollowup => "tool_followup" | Edit => "edit" | Test_ => "test" | Debug_ => "debug"
  | Review => "review" | Recovery => "recovery" | SubagentDispatch => "subagent_dispatch"
  | Finalization => "finalization"
  end.
#[export] Instance RouteRisk_key : EnumKey RouteRisk := λ v,
  match v with Normal => "normal" | Context_ => "context" | Guarded => "guarded" end.
#[export] Instance ToolDensity_key : EnumKey ToolDensity := λ v,
  match v with DensityNone => "none" | DensityLow => "low" | DensityHigh => "high" end.
#[export] Instance ContextSizeBucket_key : EnumKey ContextSizeBucket := λ v,
  match v with SizeUnknown => "unknown" | Small => "small" | Medium => "medium" | Large => "large" end.
#[export] Instance RecoverySignal_key : EnumKey RecoverySignal := λ v,
  match v with SignalNone => "none" | LikelyRecovery => "likely_recovery" end.
#[export] Instance RequirementLevel_key : EnumKey RequirementLevel := λ v,
  match v with
  | LevelUnknown => "unknown" | LevelLow => "low" | LevelMedium => "medium" | LevelHigh => "high"
  end.

Definition AgentRole_as_str (r : AgentRole) : string :=
  match r with
  | Main => "main" | Summary => "summary" | Questions => "questions" | Answers => "answers"
  | RoleUnknown => "unknown"
  end.

(** ** Records *)

Record NormalizedActionHistory := {
  last_action : option NormalizedActionKind; last_failed : bool; failure_count : Z;
  mutation_count : Z; history_complete : bool;
}.
Record CapabilityConstraints := {
  tool_reliability : RequirementLevel; code_reasoning : RequirementLevel;
  context_pressure : RequirementLevel; latency_sensitivity : RequirementLevel;
  expected_redo_penalty : RequirementLevel; output_precision : RequirementLevel;
  compatibility : list string;
}.
Definition CapabilityConstraints_default : CapabilityConstraints := {|
  tool_reliability := LevelUnknown; code_reasoning := LevelUnknown;
  context_pressure := LevelUnknown; latency_sensitivity := LevelUnknown;
  expected_redo_penalty := LevelUnknown; output_precision := LevelUnknown; compatibility := [];
|}.
Record SessionSignal := {
  signal_key : option string; signal_confidence : SessionConfidence; signal_source : option string;
}.
Definition SessionSignal_default : SessionSignal :=
  {| signal_key := None; signal_confidence := ConfidenceNone; signal_source := None |}.
Record WorkflowIdentity := {
  benchmark_run_id : option string; trial_id : option string; agent_session_id : option string;
  parent_session_id : option string; role : AgentRole; context_epoch : Z;
  transition : ContextTransition; fingerprint : string; identity_source : string;
  identity_confidence : SessionConfidence;
}.
Record IrEvidence := {
  ir_evidence_kind : string; ir_evidence_value : string; ir_evidence_confidence : spec_float;
  ir_evidence_level : EvidenceLevel;
}.
Record WorkflowStateIR := {
  harness_id : HarnessId; protocol : ProtocolKind; ir_state_kind : WorkflowStateKind;
  active_workflow : option string; subagent_role : option string; last_tool_name : option string;
  tool_density : ToolDensity; context_size : ContextSizeBucket; recovery_signal : RecoverySignal;
  normalized_action_history : option NormalizedActionHistory;
  capability_constraints : CapabilityConstraints; session : SessionSignal;
  identity : WorkflowIdentity; confidence : spec_float; ir_evidence : list IrEvidence;
}.

(** ** Route projections and their keys *)

Record RouteProjection := { schema_version : Z; state_kind : WorkflowStateKind; risk : RouteRisk }.
#[export] Instance RouteProjection_eq_dec : EqDecision RouteProjection.
Proof. solve_decision. Defined.

Definition RouteProjection_key (p : RouteProjection) : string :=
  "agent_trace/v" +:+ pretty (schema_version p) +:+ "|" +:+ enum_key (state_kind p) +:+
  "|" +:+ enum_key (risk p).

Definition parse_workflow_state_kind (value : string) : option WorkflowStateKind :=
  if bool_decide (value = "unknown") then Some StateUnknown
  else if bool_decide (value = "opening") then Some Opening
  else if bool_decide (value = "planning") then Some Planning
  else if bool_decide (value = "tool_followup") then Some ToolFollowup
  else if bool_decide (value = "edit") then Some Edit
  else if bool_decide (value = "test") then Some Test_
  else if bool_decide (value = "debug") then Some Debug_
  else if bool_decide (value = "review") then Some Review
  else if bool_decide (value = "recovery") then Some Recovery
  else if bool_decide (value = "subagent_dispatch") then Some SubagentDispatch
  else if bool_decide (value = "finalization") then Some Finalization
  else None.

Definition parse_route_risk (value : string) : option RouteRisk :=
  if bool_decide (value = "normal") then Some Normal
  else if bool_decide (value = "context") then Some Context_
  else if bool_decide (value = "guarded") then Some Guarded
  else None.

Definition parse_schema_version (namespace_version : string) : option Z :=
  if bool_decide (namespace_version = "agent_trace/v1") then Some 1
  else if bool_decide (namespace_version = "agent_trace/v2") then Some 2
  else None.

Definition RouteProjection_parse_key (value : string) : option RouteProjection :=
  match split_on "|"%char value with
  | [namespace_version; state; risk] =>
      v ← parse_schema_version namespace_version;
      r ← parse_route_risk risk;
      if (v =? 1) && bool_decide (r = Context_) then None
      else k ← parse_workflow_state_kind state;
           Some {| schema_version := v; state_kind := k; risk := r |}
  | _ => None
  end.

Definition is_canonical_learning_key (value : string) : bool :=
  match rsplit_once "000"%char value with
  | Some (namespace, projection) =>
      negb (is_empty namespace) && negb (contains (String "000"%char EmptyString) namespace) &&
      bool_decide (is_Some (RouteProjection_parse_key projection))
  | None => bool_decide (is_Some (RouteProjection_parse_key value))
  end.

Definition option_key (value : option string) : string :=
  to_ascii_lowercase (default "-" value).

Definition legacy_routing_key (ir : WorkflowStateIR) : string :=
  let c := capability_constraints ir in
  join "|" [
    enum_key (harness_id ir); enum_key (protocol ir); enum_key (ir_state_kind ir);
    option_key (active_workflow ir); option_key (subagent_role ir); option_key (last_tool_name ir);
    enum_key (tool_density ir); enum_key (context_size ir); enum_key (recovery_signal ir);
    enum_key (tool_reliability c); enum_key (code_reasoning c); enum_key (context_pressure c);
    enum_key (latency_sensitivity c); enum_key (expected_redo_penalty c);
    enum_key (output_precision c); join "," (sort (compatibility c))].

Definition hard_guarded_state (k : WorkflowStateKind) : bool :=
  match k with StateUnknown | Debug_ | Recovery | Finalization => true | _ => false end.

Definition route_projection (ir : WorkflowStateIR) : RouteProjection :=
  let c := capability_constraints ir in
  let hard_guarded_constraint :=
    bool_decide (expected_redo_penalty c = LevelHigh) || bool_decide (output_precision c = LevelHigh) in
  let r :=
    if bool_decide (recovery_signal ir = LikelyRecovery) || hard_guarded_state (ir_state_kind ir)
       || hard_guarded_constraint then Guarded
    else if bool_decide (context_pressure c = LevelHigh) then Context_
    else Normal in
  {| schema_version := 2; state_kind := ir_state_kind ir; risk := r |}.

(** ** Theorems *)

(** The projections that have a canonical key: v1 has no [context] risk. *)
Definition canonical (p : RouteProjection) : bool :=
  ((schema_version p =? 1) && negb (bool_decide (risk p = Context_))) || (schema_version p =? 2).

Lemma parse_workflow_state_kind_key k : parse_workflow_state_kind (enum_key k) = Some k.
Proof. by destruct k. Qed.
Lemma parse_route_risk_key r : parse_route_risk (enum_key r) = Some r.
Proof. by destruct r. Qed.
Lemma parse_workflow_state_kind_Some s k : parse_workflow_state_kind s = Some k → s = enum_key k.
Proof. unfold parse_workflow_state_kind. repeat case_bool_decide; naive_solver. Qed.
Lemma parse_route_risk_Some s r : parse_route_risk s = Some r → s = enum_key r.
Proof. unfold parse_route_risk. repeat case_bool_decide; naive_solver. Qed.

(** A key is a text of three segments, none of which holds the separator. *)
Lemma projection_key_split p :
  0 ≤ schema_version p ≤ 2 →
  split_on "|"%char (RouteProjection_key p) =
  ["agent_trace/v" +:+ pretty (schema_version p); enum_key (state_kind p); enum_key (risk p)].
Proof.
  destruct p as [v k r]; cbn [schema_version state_kind risk]. intros Hv.
  assert (v = 0 ∨ v = 1 ∨ v = 2) as [-> | [-> | ->]] by lia; destruct k, r; vm_compute; reflexivity.
Qed.

Lemma parse_key_of_key (p : RouteProjection) :
  canonical p = true → RouteProjection_parse_key (RouteProjection_key p) = Some p.
Proof.
  destruct p as [v k r]. unfold canonical; cbn [schema_version risk]. intros Hc.
  assert (v = 1 ∧ r ≠ Context_ ∨ v = 2) as [[-> ?] | ->].
  { apply orb_true_iff in Hc as [Hc|Hc]; arith; auto. }
  all: destruct k, r; try congruence; vm_compute; reflexivity.
Qed.

(** Parsing the key of a canonical projection returns that projection. *)
Theorem parse_key_roundtrip (p : RouteProjection) :
  canonical p = true → RouteProjection_parse_key (RouteProjection_key p) = Some p.
Proof. apply parse_key_of_key. Qed.

(** Whatever parses is canonical and is exactly the key of the result, so two texts
    that parse to the same projection are the same text. *)
Theorem parse_key_inverse (value : string) (p : RouteProjection) :
  RouteProjection_parse_key value = Some p →
  canonical p = true ∧ value = RouteProjection_key p.
Proof.
  unfold RouteProjection_parse_key. intros H. rewrite <-(join_split_on "|"%char value).
  destruct (split_on "|"%char value) as [|ns [|st [|rk [|]]]]; try done. cbn [join].
  unfold parse_schema_version in H.
  destruct (parse_route_risk rk) as [r|] eqn:Hr; [|by repeat case_bool_decide].
  destruct (parse_workflow_state_kind st) as [k|] eqn:Hk;
    [|by repeat (case_bool_decide; cbn in H)].
  apply parse_route_risk_Some in Hr as ->. apply parse_workflow_state_kind_Some in Hk as ->.
  repeat (case_bool_decide; cbn in H); simplify_eq; split; try done;
    unfold canonical; cbn; by rewrite ?bool_decide_eq_false_2.
Qed.
