(* ===== verification/EvalMeasurement.v ===== *)
(** Route-decision measurements: the replayable evidence of the action distribution that a
    policy decision saw, its construction and its validation
    ([apps/bitrouter/src/storage/evaluation.rs], types in [crates/bitrouter-ai/src/eval.rs]). *)
From stdpp Require Import base list strings gmap pretty sorting.
From Stdlib Require Import ZArith Lia Ascii.
From S2P Require Import Prelude.
Open Scope string_scope.
Open Scope Z_scope.

Definition ROUTE_MEASUREMENT_SCHEMA_VERSION : Z := 2.

Inductive ExperimentArm := Control | Challenger.
Inductive ExperimentAssignmentUnit := Task | Episode.
Inductive ContextStrategy := Preserve | Evidence.
Inductive ReasoningEffort := EffortNone | Minimal | EffortLow | EffortMedium | EffortHigh | Xhigh | Max.
#[export] Instance ContextStrategy_eq_dec : EqDecision ContextStrategy. Proof. solve_decision. Defined.
#[export] Instance ReasoningEffort_eq_dec : EqDecision ReasoningEffort. Proof. solve_decision. Defined.

Definition ReasoningEffort_as_str (e : ReasoningEffort) : string :=
  match e with
  | EffortNone => "none" | Minimal => "minimal" | EffortLow => "low" | EffortMedium => "medium"
  | EffortHigh => "high" | Xhigh => "xhigh" | Max => "max"
  end.

Record EvalExperimentRef := {
  experiment_id : string; arm : ExperimentArm; assignment_unit : ExperimentAssignmentUnit;
  assignment_id_digest : string; challenger_propensity_ppm : Z;
}.
Record RouteActionCandidate := {
  context : ContextStrategy; tier : string; model : string; effort : option ReasoningEffort;
  logging_probability_ppm : Z;
}.
#[export] Instance RouteActionCandidate_eq_dec : EqDecision RouteActionCandidate.
Proof. solve_decision. Defined.
Record RouteDecisionMeasurement := {
  schema_version : Z; logging_action_tier : string; logging_action_model : string;
  logging_action_effort : option ReasoningEffort; logging_action_probability_ppm : Z;
  candidate_set_digest : string; candidates : list RouteActionCandidate;
}.
Record EvidenceItem := {
  evidence_id : string; kind : string; digest : string; redacted : bool;
  attributes : gmap string string;
}.

(** ** Field validators *)

Definition validate_identifier (value field : string) : result string unit :=
  ensure (negb (trim_is_empty value || (512 <? len value) || has_control value))
    (field +:+ " must be a non-empty bounded identifier").
Definition validate_model_id (value field : string) : result string unit :=
  ensure (negb (is_empty value || (512 <? len value) || has_control value))
    (field +:+ " must be a non-empty bounded model identifier").
Definition validate_digest (value field : string) : result string unit :=
  hex_digest ← ok_or (strip_prefix "sha256:" value) (field +:+ " must be a sha256 digest");
  ensure (negb (negb (len hex_digest =? 64) || negb (forallb is_lower_hex (bytes hex_digest))))
    (field +:+ " must contain 64 lowercase hexadecimal digits").

(** ** Candidate keys and their order *)

Definition CandidateKey : Type := string * string * string * ContextStrategy.
Definition candidate_key (c : RouteActionCandidate) : CandidateKey :=
  (tier c, model c, from_option ReasoningEffort_as_str "inherit" (effort c), context c).

(** [Preserve < Evidence], as declared; the key is compared as a tuple. *)
#[export] Instance compare_context : Ord ContextStrategy := λ a b,
  match a, b with
  | Preserve, Evidence => Lt
  | Evidence, Preserve => Gt
  | _, _ => Eq
  end.
#[export] Instance compare_context_laws : OrdLaws ContextStrategy.
Proof. split; unfold cmp, compare_context; [intros [] []|intros [] []|intros [] [] []]; done. Qed.

Section measurement.
Context `{Sha256, CanonicalJson (string * list CandidateKey)}.

Definition route_candidate_set_digest (l : list RouteActionCandidate) : result string string :=
  canonical_digest ("bitrouter.route-candidate-set.v2", map candidate_key l).

Definition is_action (m : RouteDecisionMeasurement) (c : RouteActionCandidate) : bool :=
  bool_decide (tier c = logging_action_tier m) && bool_decide (model c = logging_action_model m) &&
  bool_decide (effort c = logging_action_effort m).

(** Loop state: [previous], [probability_sum] and [action_matches]. *)
Definition measurement_state : Type := option CandidateKey * Z * Z.
Definition validate_candidate (m : RouteDecisionMeasurement) (st : measurement_state)
    (c : RouteActionCandidate) : result string measurement_state :=
  let '(previous, probability_sum, action_matches) := st in
  _ ← validate_identifier (tier c) "route_measurement.candidate.tier";
  _ ← validate_model_id (model c) "route_measurement.candidate.model";
  _ ← ensure (negb (1000000 <? logging_probability_ppm c))
        "route candidate logging probability exceeds one million ppm";
  let probability_sum := probability_sum +| logging_probability_ppm c in
  let key := candidate_key c in
  _ ← ensure (from_option (λ p, bool_decide (ord_lt p key)) true previous)
        "route measurement candidates are not unique canonical order";
  if is_action m c then
    _ ← ensure (logging_probability_ppm c =? logging_action_probability_ppm m)
          "route measurement action probability does not match candidate";
    Ok (Some key, probability_sum, saturating_add u8_max action_matches 1)
  else Ok (Some key, probability_sum, action_matches).

Definition validate_route_measurement (m : RouteDecisionMeasurement) : result string unit :=
  _ ← ensure (schema_version m =? ROUTE_MEASUREMENT_SCHEMA_VERSION)
        "unsupported route measurement schema version";
  _ ← ensure (negb (bool_decide (candidates m = []) || (64 <? Z.of_nat (length (candidates m)))))
        "route measurement must contain between 1 and 64 candidates";
  _ ← validate_identifier (logging_action_tier m) "route_measurement.logging_action_tier";
  _ ← validate_model_id (logging_action_model m) "route_measurement.logging_action_model";
  _ ← validate_digest (candidate_set_digest m) "route_measurement.candidate_set_digest";
  st ← try_fold (validate_candidate m) (None, 0, 0) (candidates m);
  let '(_, probability_sum, action_matches) := st in
  _ ← ensure (probability_sum =? 1000000)
        "route measurement probabilities must sum to one million ppm";
  _ ← ensure ((action_matches =? 1) && negb (logging_action_probability_ppm m =? 0))
        "route measurement action must match one positive-probability candidate";
  d ← route_candidate_set_digest (candidates m);
  ensure (bool_decide (d = candidate_set_digest m))
    "route measurement candidate set digest does not match candidates".

Definition route_decision_measurement (action_tier action_model : string)
    (action_effort : option ReasoningEffort) (l : list RouteActionCandidate) :
    result string RouteDecisionMeasurement :=
  let l := sort_by_key candidate_key l in
  let probability :=
    from_option logging_probability_ppm 0
      (list_find (λ c, tier c = action_tier ∧ model c = action_model ∧ effort c = action_effort) l
       ≫= λ ic, Some ic.2) in
  d ← route_candidate_set_digest l;
  let m := {|
    schema_version := ROUTE_MEASUREMENT_SCHEMA_VERSION; logging_action_tier := action_tier;
    logging_action_model := action_model; logging_action_effort := action_effort;
    logging_action_probability_ppm := probability; candidate_set_digest := d; candidates := l |} in
  _ ← validate_route_measurement m;
  Ok m.

Definition positive (p : Z) : bool := 0 <? p.
Definition validate_route_measurement_for_experiment (m : RouteDecisionMeasurement)
    (experiment : option EvalExperimentRef) : result string unit :=
  _ ← validate_route_measurement m;
  let actual_positive :=
    sort (List.filter positive (map logging_probability_ppm (candidates m))) in
  match experiment with
  | None =>
      ensure (bool_decide (actual_positive = [1000000]))
        "route measurement without an experiment must be deterministic"
  | Some experiment =>
      let challenger := challenger_propensity_ppm experiment in
      champion ← ok_or (1000000 -? challenger)
        "experiment challenger propensity exceeds one million";
      let expected_action :=
        match arm experiment with Control => champion | Challenger => challenger end in
      _ ← ensure (logging_action_probability_ppm m =? expected_action)
            "route measurement action probability contradicts experiment arm";
      let expected_positive := sort (List.filter positive [champion; challenger]) in
      ensure (bool_decide (actual_positive = expected_positive))
        "route measurement distribution contradicts two-arm experiment"
  end.
End measurement.

(** ** Theorems *)

Section measurement_lemmas.
Context `{Sha256, CanonicalJson (string * list CandidateKey)}.
Implicit Types (m : RouteDecisionMeasurement) (l : list RouteActionCandidate).

Definition key_order (x y : RouteActionCandidate) : Prop :=
  ord_lt (candidate_key x) (candidate_key y).
(** The facts about one candidate that the loop checks. *)
Definition candidate_ok m (c : RouteActionCandidate) : Prop :=
  validate_identifier (tier c) "route_measurement.candidate.tier" = Ok tt ∧
  validate_model_id (model c) "route_measurement.candidate.model" = Ok tt ∧
  0 ≤ logging_probability_ppm c ≤ 1000000 ∧
  (is_action m c = true → logging_probability_ppm c = logging_action_probability_ppm m).

Lemma validate_candidate_ok m previous s n c st :
  0 ≤ logging_probability_ppm c → 0 ≤ s ≤ u64_max - 1000000 → 0 ≤ n < u8_max →
  validate_candidate m (previous, s, n) c = Ok st ↔
  candidate_ok m c ∧ (∀ p, previous = Some p → ord_lt p (candidate_key c)) ∧
  st = (Some (candidate_key c), s + logging_probability_ppm c, n + of_bool (is_action m c)).
Proof.
  intros Hp Hs Hn. unfold validate_candidate, candidate_ok.
  assert (u8_max = 255) as H8 by done.
  assert (saturating_add u8_max n 1 = n + 1) as -> by arith.
  split.
  - intros Hv. res_inv. arith_step.
    match goal with H : from_option _ _ _ = true |- _ => rename H into Hprev end.
    assert (∀ p, previous = Some p → ord_lt p (candidate_key c)) as Hlt.
    { intros p ->. by apply bool_decide_eq_true in Hprev. }
    destruct (is_action m c) eqn:Ha; res_inv; arith; (split_and!; [done..|lia|lia| |done|]);
      [lia| |done|]; do 2 f_equal; unfold of_bool; lia.
  - intros ((Hi & Hm & Hb & Hact) & Hprev & ->). rewrite Hi, Hm. cbn.
    assert (1000000 <? logging_probability_ppm c = false) as -> by lia. cbn.
    assert (s +| logging_probability_ppm c = s + logging_probability_ppm c) as -> by arith.
    destruct previous as [p|]; cbn; rewrite ?bool_decide_eq_true_2 by auto; cbn;
      (destruct (is_action m c) eqn:Ha; [rewrite Hact by done; rewrite Z.eqb_refl|]; cbn;
       do 2 f_equal; lia).
Qed.

Lemma validate_candidates_ok m l previous s n st :
  Forall (λ c, 0 ≤ logging_probability_ppm c) l →
  0 ≤ s → s + 1000000 * Z.of_nat (length l) ≤ u64_max - 1000000 →
  0 ≤ n → n + Z.of_nat (length l) ≤ u8_max →
  try_fold (validate_candidate m) (previous, s, n) l = Ok st ↔
  Forall (candidate_ok m) l ∧ StronglySorted key_order l ∧
  (∀ p, previous = Some p → Forall (λ c, ord_lt p (candidate_key c)) l) ∧
  st = (from_option (λ c, Some (candidate_key c)) previous (last l),
        s + sum_by logging_probability_ppm l, n + countb (is_action m) l).
Proof.
  revert previous s n. induction l as [|c l IH]; intros previous s n Hnn Hs0 Hs Hn0 Hn.
  { cbn. rewrite !Z.add_0_r. split; [intros [= <-]; naive_solver constructor|naive_solver]. }
  apply Forall_cons in Hnn as [Hc Hnn]. cbn [length] in *. rewrite last_cons. cbn [try_fold].
  rewrite bind_ok. split.
  - intros (st1 & Hst1 & Hrest).
    apply validate_candidate_ok in Hst1 as (Hok & Hlt & ->); [|lia..].
    pose proof (of_bool_bounds (is_action m c)) as Hb. destruct Hok as (? & ? & ? & ?).
    apply IH in Hrest as (Hall & Hsort & Hprev & ->); [|auto; lia..].
    specialize (Hprev _ eq_refl). split_and!.
    + constructor; [done|done].
    + constructor; done.
    + intros p Hp. constructor; [by apply Hlt|]. eapply Forall_impl; [exact Hprev|].
      cbn. intros c' ?. etrans; [by apply Hlt|done].
    + rewrite sum_by_cons, countb_cons. destruct (last l); cbn; (f_equal; [f_equal|]; lia).
  - intros (Hall & Hsort & Hprev & ->). apply Forall_cons in Hall as [Hok Hall].
    apply StronglySorted_inv in Hsort as [Hsort Hlt].
    eexists. split; [apply validate_candidate_ok; [lia..|]; split; [done|]; split; [|done]|].
    { intros p Hp. by apply Hprev in Hp as [? ?]%Forall_cons. }
    pose proof (of_bool_bounds (is_action m c)). destruct Hok as (? & ? & ? & ?).
    apply IH; [done|lia..|]. split_and!; [done|done| |].
    + intros p [= <-]. done.
    + rewrite sum_by_cons, countb_cons. destruct (last l); cbn; (f_equal; [f_equal|]; lia).
Qed.

Lemma validate_digest_shape s field :
  is_hex64 s = true → validate_digest ("sha256:" +:+ s) field = Ok tt.
Proof.
  unfold is_hex64, validate_digest, len. intros [Hl Hf]%andb_true_iff.
  rewrite (proj2 (strip_prefix_Some "sha256:" _ s) eq_refl). cbn.
  apply Nat.eqb_eq in Hl. by rewrite Hl, Hf.
Qed.

Lemma key_order_nodup l : StronglySorted key_order l → NoDup (candidate_key <$> l).
Proof.
  induction 1 as [|c l Hs IH Hc]; cbn; constructor; [|done].
  intros (c' & He & Hin)%list_elem_of_fmap. rewrite Forall_forall in Hc.
  specialize (Hc _ Hin). unfold key_order in Hc. rewrite He in Hc. by apply ord_lt_irrefl in Hc.
Qed.

Lemma measurement_facts m :
  Forall (λ c, 0 ≤ logging_probability_ppm c) (candidates m) →
  validate_route_measurement m = Ok tt →
  sum_by logging_probability_ppm (candidates m) = 1000000 ∧
  NoDup (candidate_key <$> candidates m) ∧
  ∃ c, List.filter (is_action m) (candidates m) = [c] ∧
       logging_probability_ppm c = logging_action_probability_ppm m ∧
       0 < logging_action_probability_ppm m.
Proof.
  intros Hnn Hv. unfold validate_route_measurement in Hv. res_inv. arith.
  destruct v4 as [[k s] n]. res_inv. arith.
  assert (u64_max = 18446744073709551615 ∧ u8_max = 255) as [??] by done.
  apply validate_candidates_ok in Hv5 as (Hall & Hsort & _ & [= _ Hs Hn]); [|done|lia..].
  rewrite countb_filter in Hn. destruct (length_1 (List.filter (is_action m) (candidates m)))
    as [c Hc]; [lia|].
  assert (c ∈ List.filter (is_action m) (candidates m)) as [Hin Hact]%filter_elem
    by (rewrite Hc; set_solver).
  rewrite Forall_forall in Hall. destruct (Hall c Hin) as (_ & _ & ? & Heq).
  specialize (Heq Hact). split_and!; [lia|by apply key_order_nodup|].
  exists c. split_and!; [done|done|lia].
Qed.

(** An accepted measurement is a probability distribution over distinct actions, and
    names exactly one of them, with its own positive probability. *)
Theorem validated_measurement_distribution m :
  Forall (λ c, 0 ≤ logging_probability_ppm c) (candidates m) →
  validate_route_measurement m = Ok tt →
  sum_by logging_probability_ppm (candidates m) = 1000000 ∧
  NoDup (candidate_key <$> candidates m) ∧
  ∃ c, List.filter (is_action m) (candidates m) = [c] ∧
       logging_probability_ppm c = logging_action_probability_ppm m ∧
       0 < logging_action_probability_ppm m.
Proof. apply measurement_facts. Qed.

(** Without an experiment an accepted measurement is deterministic: the logged action is
    the only candidate of positive probability. *)
Theorem deterministic_without_experiment m c :
  Forall (λ c, 0 ≤ logging_probability_ppm c) (candidates m) →
  validate_route_measurement_for_experiment m None = Ok tt →
  c ∈ candidates m →
  (0 < logging_probability_ppm c ↔ is_action m c = true) ∧ logging_action_probability_ppm m = 1000000.
Proof.
  intros Hnn Hv Hc. unfold validate_route_measurement_for_experiment in Hv. res_inv.
  apply bool_decide_eq_true in Hv.
  apply measurement_facts in Hv0 as (_ & _ & a & Ha & Hp & Hpos); [|done].
  assert (a ∈ List.filter (is_action m) (candidates m)) as [Hin Hact]%filter_elem
    by (rewrite Ha; set_solver).
  rewrite filter_map in Hv.
  pose proof (sort_by_key_perm (λ x : Z, x)
    (map logging_probability_ppm
      (List.filter (λ c, positive (logging_probability_ppm c)) (candidates m)))) as Hperm.
  unfold sort in Hv. rewrite Hv in Hperm. symmetry in Hperm. apply Permutation_singleton_r in Hperm.
  destruct (length_1 (List.filter (λ c, positive (logging_probability_ppm c)) (candidates m)))
    as [x Hx]; [by rewrite <-(length_map logging_probability_ppm), Hperm|].
  rewrite Hx in Hperm. injection Hperm as Hx'.
  assert (a = x) as -> by (eapply filter_singleton; [exact Hx|done|unfold positive; lia]).
  split; [|lia]. split.
  - intros Hc0. assert (c = x) as -> by (eapply filter_singleton; [exact Hx|done|unfold positive; lia]).
    done.
  - intros Hc1. assert (c = x) as -> by (eapply filter_singleton; [exact Ha|done|done]). lia.
Qed.
End measurement_lemmas.

Section measurement_construction.
Context `{Sha256Shape, CanonicalJson (string * list CandidateKey)}.

(** The only candidate of an action is the one that the search finds. *)
Lemma find_action t md e l c :
  List.filter (λ x, bool_decide (tier x = t) && bool_decide (model x = md) && bool_decide (effort x = e)) l = [c] →
  list_find (λ x, tier x = t ∧ model x = md ∧ effort x = e) l ≫= (λ ic, Some ic.2) = Some c.
Proof.
  intros Hf. set (action := λ x, _) in Hf.
  assert (c ∈ List.filter action l) as [Hcin Hcact]%filter_elem by (rewrite Hf; set_solver).
  destruct (list_find _ l) as [[i x]|] eqn:Hx; cbn.
  - apply list_find_Some in Hx as (Hx & (? & ? & ?) & _). f_equal.
    eapply filter_singleton; [exact Hf|by eapply list_elem_of_lookup_2|].
    unfold action. by rewrite !bool_decide_eq_true_2.
  - apply list_find_None in Hx. rewrite Forall_forall in Hx. exfalso. apply (Hx c Hcin).
    unfold action in Hcact. arith. done.
Qed.

(** Well-formed candidates with distinct keys whose probabilities sum to one, one of
    which is the action taken, always yield a measurement: it holds the same candidates in
    canonical order, logs the action's own probability, and is accepted. *)
Theorem route_decision_measurement_total t md e l c text :
  let action x := bool_decide (tier x = t) && bool_decide (model x = md) && bool_decide (effort x = e) in
  Forall (λ x, validate_identifier (tier x) "route_measurement.candidate.tier" = Ok tt ∧
               validate_model_id (model x) "route_measurement.candidate.model" = Ok tt ∧
               0 ≤ logging_probability_ppm x ≤ 1000000) l →
  validate_identifier t "route_measurement.logging_action_tier" = Ok tt →
  validate_model_id md "route_measurement.logging_action_model" = Ok tt →
  (length l ≤ 64)%nat → NoDup (candidate_key <$> l) →
  sum_by logging_probability_ppm l = 1000000 →
  List.filter action l = [c] → 0 < logging_probability_ppm c →
  canonical_json ("bitrouter.route-candidate-set.v2", map candidate_key (sort_by_key candidate_key l))
    = Ok text →
  ∃ m, route_decision_measurement t md e l = Ok m ∧ candidates m ≡ₚ l ∧
       logging_action_probability_ppm m = logging_probability_ppm c ∧
       validate_route_measurement m = Ok tt.
Proof.
  intros action Hok Ht Hmd Hlen Hnd Hsum Hact Hpos Hjson.
  pose proof (sort_by_key_perm candidate_key l) as Hperm.
  set (l' := sort_by_key candidate_key l) in *.
  assert (List.filter action l' = [c]) as Hact'.
  { apply Permutation_singleton_r. rewrite <-Hact. by apply filter_perm. }
  pose proof (find_action t md e l' c Hact') as Hfind.
  unfold route_decision_measurement. fold l'. rewrite Hfind. cbn [from_option].
  unfold route_candidate_set_digest, canonical_digest in *. rewrite Hjson. cbn [mbind result_bind].
  match goal with |- context [validate_route_measurement ?x] => set (m := x) end.
  assert (validate_route_measurement m = Ok tt) as Hv.
  { unfold validate_route_measurement, route_candidate_set_digest, canonical_digest.
    subst m. cbn [schema_version candidates logging_action_tier logging_action_model
      candidate_set_digest logging_action_probability_ppm].
    assert (length l' = length l) as Hl' by (by rewrite Hperm).
    rewrite bool_decide_eq_false_2 by (intros ->; set_solver).
    assert (64 <? Z.of_nat (length l') = false) as -> by lia. cbn [ensure negb orb mbind result_bind Z.eqb].
    rewrite Ht, Hmd, validate_digest_shape by apply sha256_hex_shape. cbn [mbind result_bind].
    match goal with |- context [validate_candidate ?x] => set (m := x) end.
    assert (try_fold (validate_candidate m) (None, 0, 0) l' = Ok
      (from_option (λ c, Some (candidate_key c)) None (last l'),
       0 + sum_by logging_probability_ppm l', 0 + countb action l')) as ->.
    { assert (Forall (candidate_ok m) l') as Hall.
      { rewrite Hperm. rewrite Forall_forall in Hok |- *. intros x Hx.
        destruct (Hok x Hx) as (? & ? & ?). split_and!; [done|done|lia|lia|].
        intros Hxa. cbn. f_equal. eapply filter_singleton; [exact Hact|done|exact Hxa]. }
      refine (proj2 (validate_candidates_ok m l' None 0 0 _ _ _ _ _ _) _);
        [|lia|unfold u64_max; lia|lia|unfold u8_max; lia|].
      - eapply Forall_impl; [exact Hall|]. by intros x (? & ? & [? ?] & ?).
      - split_and!; [done|by apply (sort_by_key_strict candidate_key)|done|done]. }
    cbn [mbind result_bind].
    rewrite (sum_by_perm _ _ _ Hperm), Hsum, countb_filter, Hact'. cbn.
    assert (logging_probability_ppm c =? 0 = false) as -> by lia. cbn.
    rewrite Hjson. cbn. by rewrite bool_decide_eq_true_2. }
  rewrite Hv. by exists m.
Qed.
End measurement_construction.
