(* ===== verification/TrajectoryTypes.v ===== *)
(** Trajectory ledger events: the content-free evidence that one event may carry, keyed
    correlation digests, and the validation that every persisted or reduced event passes
    ([apps/bitrouter/src/trajectory/types.rs]). *)
From stdpp Require Import base list strings gmap pretty sorting.
From Stdlib Require Import ZArith Lia Ascii.
From S2P Require Import Prelude EvalMeasurement.
Open Scope string_scope.
Open Scope Z_scope.

Definition TRAJECTORY_SCHEMA_VERSION : Z := 1.

Inductive HistoryCompleteness := Complete | Incomplete | Unknown.
Inductive TrajectoryEventKind :=
| RequestStarted | RouteIntentRecorded | RequestSettled | GuardActivated | EpisodeClosed.
#[export] Instance HistoryCompleteness_eq_dec : EqDecision HistoryCompleteness.
Proof. solve_decision. Defined.
#[export] Instance TrajectoryEventKind_eq_dec : EqDecision TrajectoryEventKind.
Proof. solve_decision. Defined.

Record TrajectoryEvidence := {
  structural : gmap string Z; categorical : gmap string string; digests : gmap string string;
  route_measurement : option RouteDecisionMeasurement; routing_evidence : list EvidenceItem;
}.
Record TrajectoryEvent := {
  schema_version : Z; event_id : string; owner_user_id : string; episode_id : string;
  request_id : option string; sequence : Z; event_kind : TrajectoryEventKind;
  evidence : TrajectoryEvidence; captured_at : string; content_digest : string;
}.
Record TrajectoryHealth := {
  completeness : HistoryCompleteness; request_count : Z; settled_request_count : Z;
  unsettled_request_count : Z; elapsed_ms : Z; latest_projection : option string;
  same_projection_streak : Z; same_selected_tier_streak : Z;
  consecutive_unprotected_requests : Z; recovery_count : Z; requests_since_recovery : option Z;
  context_growth_ppm : option Z; total_tokens : option Z; settled_cost_micro_usd : option Z;
}.
Record TrajectorySnapshot := {
  snapshot_episode_id : string; through_sequence : Z; health : TrajectoryHealth;
  active_hold_remaining : Z; evidence_digest : string;
}.
(** What the two digests cover: everything but the digest itself. *)
Record EventDigestInput := {
  d_schema_version : Z; d_event_id : string; d_owner_user_id : string; d_episode_id : string;
  d_request_id : option string; d_sequence : Z; d_kind : TrajectoryEventKind;
  d_evidence : TrajectoryEvidence; d_captured_at : string;
}.
Record TrajectorySnapshotDigestInput := {
  s_episode_id : string; s_through_sequence : Z; s_health : TrajectoryHealth;
  s_active_hold_remaining : Z;
}.

(** The other crates that the ledger calls: [serde_json] on the digest inputs, [sha2], and
    [chrono]'s RFC 3339 parser, whose instants are nanoseconds here. *)
Class TrajectoryEnv := {
  env_sha256 :: Sha256;
  env_event_json :: CanonicalJson EventDigestInput;
  env_snapshot_json :: CanonicalJson TrajectorySnapshotDigestInput;
  env_candidates_json :: CanonicalJson (string * list CandidateKey);
  parse_from_rfc3339 : string → option Z;
}.

(** ** Field validators *)

Definition validate_identifier (value field : string) : result string unit :=
  ensure (negb (trim_is_empty value || (512 <? len value) || has_control value))
    (field +:+ " must be a non-empty bounded identifier").

Definition attribute_char (c : N) : bool :=
  is_ascii_lowercase c || is_ascii_digit c || bool_decide (c ∈ [46; 95; 45]%N).
Definition validate_attribute_key (value : string) : result string unit :=
  ensure (negb ((128 <? len value) || negb (contains "." value) || starts_with "." value
                || ends_with "." value || existsb (λ c, negb (attribute_char c)) (chars value)))
    ("trajectory evidence attribute '" +:+ value +:+ "' must be a lowercase namespaced id").

Definition keyed_char (c : N) : bool :=
  is_ascii_lowercase c || is_ascii_uppercase c || is_ascii_digit c || bool_decide (c ∈ [95; 45]%N).
Definition validate_keyed_component (value field : string) : result string unit :=
  ensure (negb (is_empty value || (128 <? len value) || existsb (λ c, negb (keyed_char c)) (chars value)))
    (field +:+ " must be a bounded token").

Definition validate_digest (value field : string) : result string unit :=
  hex_digest ← ok_or (strip_prefix "sha256:" value) (field +:+ " must be a sha256 digest");
  ensure (negb (negb (len hex_digest =? 64) || negb (forallb is_lower_hex (bytes hex_digest))))
    (field +:+ " must contain 64 lowercase hexadecimal digits").

Record KeyedDigest := { keyed_value : string; keyed_key_id : string }.

Definition KeyedDigest_parse (value : string) : result string KeyedDigest :=
  '(algorithm, remainder) ← ok_or (split_once ":"%char value)
    "keyed digest must include its algorithm and key id";
  _ ← ensure (bool_decide (algorithm = "hmac-sha256")) "keyed digest must use hmac-sha256";
  '(key_id, hex_digest) ← ok_or (split_once ":"%char remainder)
    "keyed digest must include its key id and digest";
  _ ← ensure (count_byte ":"%char remainder =? 1)%nat
    "keyed digest must contain exactly one key id";
  _ ← validate_keyed_component key_id "keyed digest key id";
  _ ← ensure (negb (negb (len hex_digest =? 64) || negb (forallb is_lower_hex (bytes hex_digest))))
    "keyed digest must contain 64 lowercase hexadecimal digits";
  Ok {| keyed_value := value; keyed_key_id := key_id |}.

Definition validate_evidence_digest (value field : string) : result string unit :=
  if starts_with "sha256:" value then validate_digest value field
  else match KeyedDigest_parse value with
       | Ok _ => Ok tt
       | Err _ => Err (field +:+ " must be a digest")
       end.

(** ** Credential-shaped material *)

Definition sensitive_keys : list string := [
  "authorization"; "proxy_authorization"; "x_api_key"; "api_key"; "access_token"; "refresh_token";
  "cookie"; "set_cookie"; "secret"].
Definition normalize_key (key : string) : string :=
  map_string (λ a, if bool_decide (a = "-"%char ∨ a = "."%char) then "_"%char else a)
    (to_ascii_lowercase key).
Definition attribute_key_looks_sensitive (key : string) : bool :=
  let k := normalize_key key in
  bool_decide (k ∈ sensitive_keys) || ends_with "_secret" k || ends_with "_api_key" k
  || ends_with "_access_token" k || ends_with "_refresh_token" k.
Definition attribute_looks_sensitive (key value : string) : bool :=
  attribute_key_looks_sensitive key || starts_with "bearer " (to_ascii_lowercase value)
  || contains "brvk_" (to_ascii_lowercase value) || starts_with "sk-" (to_ascii_lowercase value)
  || contains "-----begin private key-----" (to_ascii_lowercase value).

(** ** Evidence *)

Definition validate_key (field key : string) : result string unit :=
  _ ← validate_attribute_key key;
  ensure (negb (attribute_key_looks_sensitive key))
    (field +:+ " contains credential-shaped attribute material").
Definition validate_categorical (field : string) (kv : string * string) : result string unit :=
  let '(key, value) := kv in
  _ ← ensure (negb (trim_is_empty value || (128 <? len value) || has_control value))
        (field +:+ " categorical attribute '" +:+ key +:+ "' must be bounded");
  ensure (negb (attribute_looks_sensitive key value))
    (field +:+ " contains credential-shaped attribute material").

Definition validate_structured_attributes (st : gmap string Z) (cat dig : gmap string string)
    (field : string) : result string unit :=
  _ ← ensure (negb ((64 <? Z.of_nat (size st)) || (64 <? Z.of_nat (size cat)) || (64 <? Z.of_nat (size dig))))
        (field +:+ " has too many attributes");
  _ ← for_each (validate_key field) (sorted_keys st ++ sorted_keys cat ++ sorted_keys dig);
  _ ← for_each (validate_categorical field) (sorted_entries cat);
  for_each (λ kv, validate_evidence_digest kv.2 (field +:+ " digest '" +:+ kv.1 +:+ "'"))
    (sorted_entries dig).

Definition allowed_attributes (kind : string) : option (list string) :=
  if bool_decide (kind = "routing.assessment") then
    Some ["decision_receipt_id"; "input_digest"; "contract_digest"; "classifier_digest"; "model";
          "requested_model"; "confidence_threshold"; "judgments"; "confidence_kind"; "input_tokens";
          "output_tokens"]
  else if bool_decide (kind = "routing.plan") then
    Some ["model"; "context_view"; "prompt_digest"; "context_strategy"; "reason"]
  else None.
Definition validate_receipt (item : EvidenceItem) : result string unit :=
  _ ← validate_identifier (evidence_id item) "routing receipt identity";
  _ ← validate_digest (digest item) "routing receipt digest";
  allowed ← ok_or (allowed_attributes (kind item)) "unsupported routing receipt kind";
  ensure (negb (negb (redacted item) ||
    existsb (λ kv, negb (bool_decide (kv.1 ∈ allowed)) || (8192 <? len kv.2)
                   || attribute_looks_sensitive kv.1 kv.2) (sorted_entries (attributes item))))
    "invalid bounded routing receipt attributes".

Section validation.
Context `{TrajectoryEnv}.

Definition validate_evidence (e : TrajectoryEvidence) : result string unit :=
  _ ← validate_structured_attributes (structural e) (categorical e) (digests e) "trajectory evidence";
  _ ← ensure (length (routing_evidence e) <=? 2)%nat "too many routing receipts";
  _ ← for_each validate_receipt (routing_evidence e);
  match route_measurement e with
  | Some m => validate_route_measurement m
  | None => Ok tt
  end.

Definition event_semantic_digest (e : TrajectoryEvent) : result string string :=
  canonical_digest {|
    d_schema_version := schema_version e; d_event_id := event_id e;
    d_owner_user_id := owner_user_id e; d_episode_id := episode_id e;
    d_request_id := request_id e; d_sequence := sequence e; d_kind := event_kind e;
    d_evidence := evidence e; d_captured_at := captured_at e |}.

Definition snapshot_semantic_digest (s : TrajectorySnapshot) : result string string :=
  canonical_digest {|
    s_episode_id := snapshot_episode_id s; s_through_sequence := through_sequence s;
    s_health := health s; s_active_hold_remaining := active_hold_remaining s |}.

Definition validate_event (e : TrajectoryEvent) : result string unit :=
  _ ← ensure (schema_version e =? TRAJECTORY_SCHEMA_VERSION)
        "unsupported trajectory event schema version";
  _ ← validate_identifier (event_id e) "event_id";
  _ ← validate_identifier (owner_user_id e) "owner_user_id";
  _ ← validate_identifier (episode_id e) "episode_id";
  _ ← match request_id e with Some r => validate_identifier r "request_id" | None => Ok tt end;
  _ ← ensure (negb (sequence e =? 0)) "event sequence must be positive";
  _ ← ok_or (parse_from_rfc3339 (captured_at e)) "captured_at must be RFC3339";
  _ ← validate_evidence (evidence e);
  _ ← ensure (negb (bool_decide (is_Some (route_measurement (evidence e)))
                    && negb (bool_decide (event_kind e = RouteIntentRecorded))))
        "route measurement is only valid on route-intent events";
  _ ← ensure (negb (negb (bool_decide (routing_evidence (evidence e) = []))
                    && negb (bool_decide (event_kind e = RequestSettled))))
        "routing execution evidence is only valid on settlement events";
  _ ← validate_digest (content_digest e) "content_digest";
  d ← event_semantic_digest e;
  ensure (bool_decide (d = content_digest e))
    "trajectory event content_digest does not match its canonical content".
End validation.

(** ** Theorems *)

Section keyed_digest.
Lemma lower_hex_not_colon a : is_lower_hex a = true → a ≠ ":"%char.
Proof. by intros Ha ->. Qed.
Lemma hex_no_colon s : forallb is_lower_hex (bytes s) = true → ":"%char ∉ bytes s.
Proof.
  rewrite List.forallb_forall. intros Hf Hc. apply list_elem_of_In, Hf in Hc.
  by apply lower_hex_not_colon in Hc.
Qed.
Lemma keyed_component_no_colon key field :
  validate_keyed_component key field = Ok tt → ":"%char ∉ bytes key.
Proof.
  unfold validate_keyed_component. intros Hv Hc. res_inv.
  apply negb_true_iff, orb_false_iff in Hv as [_ Hf].
  apply (ascii_byte_in_chars key ":"%char) in Hc; [|done].
  assert (existsb (λ c, negb (keyed_char c)) (chars key) = true) as He; [|congruence].
  apply List.existsb_exists. exists 58%N. split; [by apply list_elem_of_In|done].
Qed.

(** A keyed digest is accepted exactly when it is [hmac-sha256:<key id>:<64 lower-case
    hex digits>] with a bounded token as key id, and the key id read back is that token. *)
Theorem keyed_digest_parse_iff (value : string) (d : KeyedDigest) :
  KeyedDigest_parse value = Ok d ↔
  ∃ key hex, value = "hmac-sha256:" +:+ key +:+ ":" +:+ hex ∧
    validate_keyed_component key "keyed digest key id" = Ok tt ∧ is_hex64 hex = true ∧
    d = {| keyed_value := value; keyed_key_id := key |}.
Proof.
  unfold KeyedDigest_parse, is_hex64. split.
  - intros Hp. res_inv. destruct v as [algorithm remainder]. res_inv.
    destruct v0 as [key hex]. res_inv. apply bool_decide_eq_true in Hv0 as ->.
    apply split_once_Some in Hv as [-> _]. apply split_once_Some in Hv1 as [-> _].
    exists key, hex. apply negb_true_iff, orb_false_iff in Hv4 as [Hl Hh].
    apply negb_false_iff in Hl, Hh. unfold len in Hl. split_and!; [done|done| |done].
    rewrite Hh, andb_true_r. apply Nat.eqb_eq. lia.
  - intros (key & hex & -> & Hkey & [Hl Hh]%andb_true_iff & ->).
    apply Nat.eqb_eq in Hl. pose proof (keyed_component_no_colon _ _ Hkey) as Hnk.
    change ("hmac-sha256:" +:+ ?x) with ("hmac-sha256" +:+ String ":"%char x).
    rewrite split_once_app by (vm_compute; set_solver). cbn [ok_or mbind result_bind].
    change (":" +:+ hex) with (String ":"%char hex).
    rewrite (split_once_app ":"%char key hex Hnk). cbn [ok_or mbind result_bind ensure].
    rewrite count_byte_app. cbn [count_byte].
    rewrite (proj2 (count_byte_0 _ key)), (proj2 (count_byte_0 _ hex)) by (done || by apply hex_no_colon).
    rewrite !bool_decide_eq_true_2 by done. cbn [Nat.add Nat.eqb ensure mbind result_bind].
    rewrite Hkey. unfold len. by rewrite Hl, Hh.
Qed.
End keyed_digest.

Section event_theorems.
Context `{TrajectoryEnv}.

(** What the validators promise about accepted evidence: nothing credential-shaped, nothing
    unbounded, every digest in one of the two recognised shapes. *)
Definition bounded_evidence (e : TrajectoryEvidence) : Prop :=
  (∀ k, k ∈ dom (structural e) ∪ dom (categorical e) ∪ dom (digests e) →
     len k ≤ 128 ∧ attribute_key_looks_sensitive k = false) ∧
  (∀ k v, categorical e !! k = Some v →
     len v ≤ 128 ∧ has_control v = false ∧ attribute_looks_sensitive k v = false) ∧
  (∀ k v, digests e !! k = Some v →
     (∃ hex, v = "sha256:" +:+ hex ∧ is_hex64 hex = true) ∨ is_ok (KeyedDigest_parse v) = true) ∧
  (∀ r, r ∈ routing_evidence e →
     redacted r = true ∧ is_Some (allowed_attributes (kind r)) ∧
     ∀ k v, attributes r !! k = Some v → attribute_looks_sensitive k v = false).

Lemma validate_digest_ok v field :
  validate_digest v field = Ok tt → ∃ hex, v = "sha256:" +:+ hex ∧ is_hex64 hex = true.
Proof.
  unfold validate_digest, is_hex64. intros Hv. res_inv. apply strip_prefix_Some in Hv0 as ->.
  eexists. split; [done|]. apply negb_true_iff, orb_false_iff in Hv as [Hl Hh].
  apply negb_false_iff in Hl, Hh. unfold len in Hl. rewrite Hh, andb_true_r. apply Nat.eqb_eq. lia.
Qed.
Lemma validate_evidence_digest_ok v field :
  validate_evidence_digest v field = Ok tt →
  (∃ hex, v = "sha256:" +:+ hex ∧ is_hex64 hex = true) ∨ is_ok (KeyedDigest_parse v) = true.
Proof.
  unfold validate_evidence_digest. destruct (starts_with "sha256:" v).
  - intros Hv%validate_digest_ok. by left.
  - right. by destruct (KeyedDigest_parse v).
Qed.
Lemma validate_receipt_ok r :
  validate_receipt r = Ok tt →
  redacted r = true ∧ is_Some (allowed_attributes (kind r)) ∧
  ∀ k v, attributes r !! k = Some v → attribute_looks_sensitive k v = false.
Proof.
  unfold validate_receipt. intros Hv. res_inv.
  apply negb_true_iff, orb_false_iff in Hv as [Hr He]. apply negb_false_iff in Hr.
  split_and!; [done|by eexists|]. intros k x Hx.
  destruct (attribute_looks_sensitive k x) eqn:Hs; [|done].
  rewrite <-He. symmetry. apply List.existsb_exists. exists (k, x).
  split; [by apply list_elem_of_In, elem_of_sorted_entries|]. cbn. by rewrite Hs, orb_true_r.
Qed.
Lemma validate_evidence_bounded e : validate_evidence e = Ok tt → bounded_evidence e.
Proof.
  unfold validate_evidence, validate_structured_attributes. intros Hv. res_inv.
  repeat match goal with H : for_each _ _ = Ok _ |- _ => apply for_each_ok in H; rewrite Forall_forall in H end.
  split_and!.
  - intros k Hk. match goal with H : ∀ x, x ∈ (_ ++ _)%list → _ |- _ => specialize (H k) end.
    rewrite !elem_of_app, !elem_of_sorted_keys in *.
    match goal with H : _ → validate_key _ _ = _ |- _ =>
      assert (validate_key "trajectory evidence" k = Ok tt) as Hkey by (apply H; set_solver) end.
    unfold validate_key, validate_attribute_key in Hkey. res_inv. arith. done.
  - intros k v Hkv. apply elem_of_sorted_entries in Hkv.
    match goal with H : ∀ x, x ∈ _ → validate_categorical _ x = _ |- _ => apply H in Hkv end.
    unfold validate_categorical in Hkv. res_inv. arith. done.
  - intros k v Hkv. apply elem_of_sorted_entries in Hkv.
    match goal with H : ∀ x, x ∈ _ → validate_evidence_digest _ _ = _ |- _ => apply H in Hkv end.
    by apply validate_evidence_digest_ok in Hkv.
  - intros r Hr. match goal with H : ∀ x, x ∈ _ → validate_receipt x = _ |- _ => apply H in Hr end.
    by apply validate_receipt_ok.
Qed.

(** The facts that a validated event gives the reducer. *)
Lemma validate_event_facts e :
  validate_event e = Ok tt →
  sequence e ≠ 0 ∧ is_Some (parse_from_rfc3339 (captured_at e)) ∧
  validate_evidence (evidence e) = Ok tt ∧ event_semantic_digest e = Ok (content_digest e).
Proof.
  unfold validate_event. intros Hv. res_inv. apply bool_decide_eq_true in Hv. subst.
  repeat match goal with H : unit |- _ => destruct H end.
  split_and!; [arith; done|by eexists|done|done].
Qed.

(** an accepted event carries only bounded, content-free evidence, and no
    credential-shaped key, value or receipt attribute. *)
Theorem accepted_event_is_content_free (e : TrajectoryEvent) :
  validate_event e = Ok tt → bounded_evidence (evidence e).
Proof. intros Hv. by apply validate_event_facts in Hv as (_ & _ & ?%validate_evidence_bounded & _). Qed.

Definition with_content_digest (e : TrajectoryEvent) (d : string) : TrajectoryEvent := {|
  schema_version := schema_version e; event_id := event_id e; owner_user_id := owner_user_id e;
  episode_id := episode_id e; request_id := request_id e; sequence := sequence e;
  event_kind := event_kind e; evidence := evidence e; captured_at := captured_at e;
  content_digest := d |}.

(** The digest of an event is determined by its content: of all the events that differ
    only in their [content_digest], at most one is accepted. *)
Theorem content_digest_unique (e : TrajectoryEvent) (d : string) :
  validate_event e = Ok tt → validate_event (with_content_digest e d) = Ok tt →
  d = content_digest e.
Proof.
  intros (_ & _ & _ & H1)%validate_event_facts (_ & _ & _ & H2)%validate_event_facts.
  change (event_semantic_digest (with_content_digest e d)) with (event_semantic_digest e) in H2.
  cbn in H2. congruence.
Qed.
End event_theorems.
