(* ===== verification/ProgressGuard.v ===== *)
(** The progress guard: the policy evaluation at the routing boundary and the validators of
    its persisted evidence ([apps/bitrouter/src/trajectory/guard.rs]). *)
From stdpp Require Import base list strings gmap pretty sorting.
From Stdlib Require Import ZArith Lia Ascii.
From S2P Require Import Prelude RouteIr EvalMeasurement TrajectoryTypes.
Open Scope string_scope.
Open Scope Z_scope.

Inductive IncompleteHistoryAction := Observe | Escalate.
Inductive RouteIntentClauseDisposition := Applied | Skipped.
#[export] Instance IncompleteHistoryAction_eq_dec : EqDecision IncompleteHistoryAction.
Proof. solve_decision. Defined.
#[export] Instance RouteIntentClauseDisposition_eq_dec : EqDecision RouteIntentClauseDisposition.
Proof. solve_decision. Defined.

Record ProgressGuardPolicy := {
  escalation_tier : string; protected_tiers : gset string;
  max_consecutive_unprotected : option Z; max_same_projection_unprotected : option Z;
  max_recovery_count : option Z; max_episode_requests : option Z;
  max_episode_elapsed_ms : option Z; max_episode_cost_micro_usd : option Z;
  hold_for_requests : Z; incomplete_history : IncompleteHistoryAction;
}.
Record RouteIntentClause := {
  clause_id : string; disposition : RouteIntentClauseDisposition; explanation : string;
}.
Record RouteIntent := {
  intent_candidate_tier : option string; selected_tier : option string;
  clauses : list RouteIntentClause; trajectory_snapshot_digest : string;
  intent_policy_digest : string; experiment : option EvalExperimentRef;
}.
Record GuardEvaluation := {
  intent : RouteIntent; causal_completeness : HistoryCompleteness; activated : bool;
}.
Record ProgressGuardInput := {
  prior_snapshot : option TrajectorySnapshot; pre_intent_snapshot : TrajectorySnapshot;
  correlation_completeness : HistoryCompleteness; current_projection : RouteProjection;
  candidate_tier : option string; policy_digest : string;
}.

Definition STABLE_CLAUSE_IDS : list string := [
  "progress_guard.active_hold"; "progress_guard.incomplete_history";
  "progress_guard.max_consecutive_unprotected"; "progress_guard.max_same_projection_unprotected";
  "progress_guard.max_recovery_count"; "progress_guard.max_episode_requests";
  "progress_guard.max_episode_elapsed_ms"; "progress_guard.max_episode_cost_micro_usd";
  "tool_safety.floor"].

Definition merge_completeness (left right : HistoryCompleteness) : HistoryCompleteness :=
  match left, right with
  | Incomplete, _ | _, Incomplete => Incomplete
  | Unknown, _ | _, Unknown => Unknown
  | _, _ => Complete
  end.

(** ** The policy *)

Definition thresholds (p : ProgressGuardPolicy) : list Z :=
  omap id [max_consecutive_unprotected p; max_same_projection_unprotected p;
           max_recovery_count p; max_episode_requests p; max_episode_elapsed_ms p;
           max_episode_cost_micro_usd p].
Definition validate_policy_shape (p : ProgressGuardPolicy) : result string unit :=
  _ ← ensure (negb (trim_is_empty (escalation_tier p)))
        "progress guard escalation tier cannot be empty";
  _ ← ensure (negb (bool_decide (protected_tiers p = ∅)
                    || negb (bool_decide (escalation_tier p ∈ protected_tiers p))))
        "progress guard protected tiers must contain its escalation tier";
  _ ← ensure (negb ((hold_for_requests p =? 0) || (u32_max <? hold_for_requests p)))
        "progress guard hold length must be in 1..=u32::MAX";
  ensure (negb (existsb (λ v, v =? 0) (thresholds p)))
    "progress guard thresholds must be positive".

(** ** Clauses *)

Definition clause (id : string) (triggered : bool) (applied_explanation skipped_explanation : string)
    : RouteIntentClause := {|
  clause_id := id; disposition := if triggered then Applied else Skipped;
  explanation := if triggered then applied_explanation else skipped_explanation |}.
Definition is_applied (c : RouteIntentClause) : bool := bool_decide (disposition c = Applied).

Definition threshold_clause (cs : list RouteIntentClause) (id : string)
    (threshold observed : option Z) : list RouteIntentClause :=
  let '(triggered, skipped) :=
    match threshold, observed with
    | Some threshold, Some observed =>
        (threshold <=? observed,
         "observed " +:+ pretty observed +:+ " is below threshold " +:+ pretty threshold)
    | Some _, None => (false, "required evidence is unknown")
    | None, _ => (false, "clause is not configured")
    end in
  (cs ++ [clause id triggered "configured threshold is reached" skipped])%list.

Definition recovery_threshold_clause (cs : list RouteIntentClause) (threshold : option Z)
    (prospective_recovery_count : Z) (current_is_recovery_edge : bool) : list RouteIntentClause :=
  if bool_decide (threshold = None) then
    threshold_clause cs "progress_guard.max_recovery_count" threshold (Some prospective_recovery_count)
  else if negb current_is_recovery_edge then
    (cs ++ [clause "progress_guard.max_recovery_count" false
      "current recovery reaches the configured recurrence threshold"
      ("current projection does not enter recovery; cumulative recovery count is "
        +:+ pretty prospective_recovery_count)])%list
  else
    threshold_clause cs "progress_guard.max_recovery_count" threshold (Some prospective_recovery_count).

(** ** Evaluation

    [evaluate] in the order of its source: the prospective counters, the clauses, the
    suppression under a hold and the selection of the tier. *)

Definition candidate_is_protected (p : ProgressGuardPolicy) (i : ProgressGuardInput) : bool :=
  match candidate_tier i with Some t => bool_decide (t ∈ protected_tiers p) | None => false end.
Definition prior_health (i : ProgressGuardInput) : option TrajectoryHealth :=
  health <$> prior_snapshot i.
Definition hold_active (i : ProgressGuardInput) : bool :=
  match prior_snapshot i with Some s => 0 <? active_hold_remaining s | None => false end.

Definition prospective_same_projection_unprotected (p : ProgressGuardPolicy)
    (i : ProgressGuardInput) : result string Z :=
  if candidate_is_protected p i then Ok 0
  else match prior_health i with
       | Some h =>
           if bool_decide (latest_projection h = Some (RouteProjection_key (current_projection i)))
           then ok_or (Z.min (same_projection_streak h) (consecutive_unprotected_requests h) +? 1)
                  "same projection streak overflow"
           else Ok 1
       | None => Ok 1
       end.
Definition prospective_unprotected (p : ProgressGuardPolicy) (i : ProgressGuardInput)
    : result string Z :=
  if candidate_is_protected p i then Ok 0
  else ok_or (from_option consecutive_unprotected_requests 0 (prior_health i) +? 1)
         "consecutive unprotected streak overflow".

Definition is_recovery (k : WorkflowStateKind) : bool := bool_decide (k = Recovery).
Definition prior_is_recovery (i : ProgressGuardInput) : bool :=
  match (prior_health i ≫= latest_projection) ≫= RouteProjection_parse_key with
  | Some projection => is_recovery (state_kind projection)
  | None => false
  end.
Definition current_is_recovery_edge (i : ProgressGuardInput) : bool :=
  is_recovery (state_kind (current_projection i)) && negb (prior_is_recovery i).
Definition prospective_recovery_count (i : ProgressGuardInput) : result string Z :=
  ok_or (from_option recovery_count 0 (prior_health i) +? of_bool (current_is_recovery_edge i))
    "recovery count overflow".
Definition merged_completeness (i : ProgressGuardInput) : HistoryCompleteness :=
  merge_completeness (from_option completeness Complete (prior_health i))
    (correlation_completeness i).

Definition incomplete_trigger (p : ProgressGuardPolicy) (i : ProgressGuardInput) : bool :=
  negb (bool_decide (merged_completeness i = Complete))
  && bool_decide (incomplete_history p = Escalate).

(** The eight clauses, before suppression; [same], [unp] and [rec] are the prospective counters. *)
Definition evaluated_clauses (p : ProgressGuardPolicy) (i : ProgressGuardInput)
    (same unp rec : Z) : list RouteIntentClause :=
  let h := health (pre_intent_snapshot i) in
  let cs := [clause "progress_guard.active_hold" (hold_active i)
               "persisted hold is active for this request"
               "no persisted hold applies to this request"] in
  let cs := (cs ++ [clause "progress_guard.incomplete_history" (incomplete_trigger p i)
               "causal history is not complete and policy requires escalation"
               (if negb (bool_decide (merged_completeness i = Complete))
                then "causal history is not complete and policy observes only"
                else "causal history is complete")])%list in
  let cs := threshold_clause cs "progress_guard.max_consecutive_unprotected"
              (max_consecutive_unprotected p) (Some unp) in
  let cs := threshold_clause cs "progress_guard.max_same_projection_unprotected"
              (max_same_projection_unprotected p) (Some same) in
  let cs := recovery_threshold_clause cs (max_recovery_count p) rec (current_is_recovery_edge i) in
  let cs := threshold_clause cs "progress_guard.max_episode_requests"
              (max_episode_requests p) (Some (request_count h)) in
  let cs := threshold_clause cs "progress_guard.max_episode_elapsed_ms"
              (max_episode_elapsed_ms p) (Some (elapsed_ms h)) in
  threshold_clause cs "progress_guard.max_episode_cost_micro_usd"
    (max_episode_cost_micro_usd p) (settled_cost_micro_usd h).

Definition suppress_clause (c : RouteIntentClause) : RouteIntentClause :=
  if is_applied c then {|
    clause_id := clause_id c; disposition := Skipped;
    explanation := "persisted hold already applies; a new activation is suppressed" |}
  else c.
(** [clauses.iter_mut().skip(1)] under a hold. *)
Definition suppress_under_hold (hold : bool) (cs : list RouteIntentClause) : list RouteIntentClause :=
  if hold then match cs with c :: r => c :: map suppress_clause r | [] => [] end else cs.

Definition is_trigger (c : RouteIntentClause) : bool :=
  is_applied c && negb (bool_decide (clause_id c = "progress_guard.active_hold")).
Definition select_tier (p : ProgressGuardPolicy) (i : ProgressGuardInput) (guard_applied : bool)
    : option string :=
  if guard_applied && candidate_is_protected p i then candidate_tier i
  else if guard_applied then Some (escalation_tier p)
  else candidate_tier i.
Definition is_protected (p : ProgressGuardPolicy) (tier : option string) : bool :=
  match tier with Some t => bool_decide (t ∈ protected_tiers p) | None => false end.

Definition evaluate (p : ProgressGuardPolicy) (i : ProgressGuardInput) : result string GuardEvaluation :=
  _ ← validate_policy_shape p;
  same ← prospective_same_projection_unprotected p i;
  unp ← prospective_unprotected p i;
  rec ← prospective_recovery_count i;
  let cs := suppress_under_hold (hold_active i) (evaluated_clauses p i same unp rec) in
  let guard_applied := existsb is_applied cs in
  let selected := select_tier p i guard_applied in
  _ ← ensure (negb (guard_applied && negb (is_protected p selected)))
        "progress guard selected a tier outside protected_tiers";
  Ok {| intent := {|
          intent_candidate_tier := candidate_tier i; selected_tier := selected; clauses := cs;
          trajectory_snapshot_digest := evidence_digest (pre_intent_snapshot i);
          intent_policy_digest := policy_digest i; experiment := None |};
        causal_completeness := merged_completeness i;
        activated := negb (hold_active i) && existsb is_trigger cs |}.

(** ** Persisted evidence *)

(** [format!("{index:02}")] *)
Definition two_digits (index : nat) : string :=
  if (index <? 10)%nat then "0" +:+ pretty (Z.of_nat index) else pretty (Z.of_nat index).
Definition clause_key (index : nat) (field : string) : string :=
  "route.clause_" +:+ two_digits index +:+ "." +:+ field.
Definition parse_disposition (s : string) : option RouteIntentClauseDisposition :=
  if bool_decide (s = "applied") then Some Applied
  else if bool_decide (s = "skipped") then Some Skipped else None.

Definition has_key {A} (m : gmap string A) (k : string) : bool := bool_decide (is_Some (m !! k)).
Definition clause_keys (m : gmap string string) : list string :=
  List.filter (starts_with "route.clause_") (sorted_keys m).
Definition has_guarded_marker (e : TrajectoryEvidence) : bool :=
  has_key (digests e) "route.policy_lock" || has_key (digests e) "route.health_snapshot"
  || has_key (structural e) "route.applied_clause_count"
  || existsb (starts_with "route.clause_") (sorted_keys (categorical e)).

Definition persisted_clause (e : TrajectoryEvidence) (index : nat) (expected_id : string)
    : result string (string * RouteIntentClauseDisposition) :=
  match categorical e !! clause_key index "id", categorical e !! clause_key index "disposition" with
  | Some id, Some d =>
      _ ← ensure (bool_decide (id = expected_id))
            ("guarded route intent clause index " +:+ pretty (Z.of_nat index)
              +:+ " must contain '" +:+ expected_id +:+ "'");
      d ← ok_or (parse_disposition d) "guarded route intent contains invalid clause disposition";
      Ok (id, d)
  | None, None => Err "guarded route intent has a clause index gap"
  | _, _ => Err "guarded route intent has an incomplete clause record"
  end.
Fixpoint persisted_clauses (e : TrajectoryEvidence) (index : nat) (ids : list string)
    : result string (list (string * RouteIntentClauseDisposition)) :=
  match ids with
  | [] => Ok []
  | id :: ids =>
      c ← persisted_clause e index id;
      cs ← persisted_clauses e (S index) ids;
      Ok (c :: cs)
  end.
Definition is_canonical_clause_key (key : string) : bool :=
  existsb (λ index, bool_decide (key = clause_key index "id")
                    || bool_decide (key = clause_key index "disposition"))
    (seq 0 (length STABLE_CLAUSE_IDS)).
Definition clause_fields_canonical (e : TrajectoryEvidence) : bool :=
  (length (clause_keys (categorical e)) =? length STABLE_CLAUSE_IDS * 2)%nat
  && forallb is_canonical_clause_key (clause_keys (categorical e)).

Definition validate_persisted_route_intent (event : TrajectoryEvent)
    : result string (option (list (string * RouteIntentClauseDisposition))) :=
  _ ← ensure (bool_decide (event_kind event = RouteIntentRecorded))
        "route-intent evidence validator received another event kind";
  let e := evidence event in
  if negb (has_guarded_marker e) then Ok None
  else
    _ ← ensure (has_key (digests e) "route.policy_lock" && has_key (digests e) "route.health_snapshot")
          "guarded route intent requires policy and health digests";
    applied_count ← ok_or (structural e !! "route.applied_clause_count")
      "guarded route intent is missing applied clause count";
    _ ← ensure (match structural e !! "route.selected_is_protected" with
                | Some v => (v =? 0) || (v =? 1) | None => true end)
          "guarded route intent has an invalid selected-tier protection fact";
    cs ← persisted_clauses e 0 STABLE_CLAUSE_IDS;
    _ ← ensure (clause_fields_canonical e) "guarded route intent clause fields are not canonical";
    _ ← ensure (countb (λ c, bool_decide (c.2 = Applied)) cs =? applied_count)
          "guarded route intent applied clause count is inconsistent";
    Ok (Some cs).

Definition validate_persisted_guard_activation (event : TrajectoryEvent) : result string bool :=
  _ ← ensure (bool_decide (event_kind event = GuardActivated))
        "guard evidence validator received another event kind";
  let has_policy := has_key (digests (evidence event)) "guard.policy_lock" in
  let has_health := has_key (digests (evidence event)) "guard.health_snapshot" in
  _ ← ensure (Bool.eqb has_policy has_health)
        "guard activation must carry policy and health digests together";
  Ok has_policy.

(** ** Theorems *)

(** The counters of the request being routed, without a machine bound. *)
Definition next_unprotected (p : ProgressGuardPolicy) (i : ProgressGuardInput) : Z :=
  if candidate_is_protected p i then 0
  else from_option consecutive_unprotected_requests 0 (prior_health i) + 1.
Definition next_same_projection (p : ProgressGuardPolicy) (i : ProgressGuardInput) : Z :=
  if candidate_is_protected p i then 0
  else match prior_health i with
       | Some h =>
           if bool_decide (latest_projection h = Some (RouteProjection_key (current_projection i)))
           then Z.min (same_projection_streak h) (consecutive_unprotected_requests h) + 1 else 1
       | None => 1
       end.
Definition next_recovery (i : ProgressGuardInput) : Z :=
  from_option recovery_count 0 (prior_health i) + of_bool (current_is_recovery_edge i).

Definition reached (threshold observed : option Z) : Prop :=
  ∃ t o, threshold = Some t ∧ observed = Some o ∧ t ≤ o.

(** When the policy asks for the escalation of a request. *)
Inductive triggers (p : ProgressGuardPolicy) (i : ProgressGuardInput) : Prop :=
| trig_incomplete :
    incomplete_history p = Escalate → merged_completeness i ≠ Complete → triggers p i
| trig_unprotected :
    reached (max_consecutive_unprotected p) (Some (next_unprotected p i)) → triggers p i
| trig_same_projection :
    reached (max_same_projection_unprotected p) (Some (next_same_projection p i)) → triggers p i
| trig_recovery :
    current_is_recovery_edge i = true →
    reached (max_recovery_count p) (Some (next_recovery i)) → triggers p i
| trig_requests :
    reached (max_episode_requests p) (Some (request_count (health (pre_intent_snapshot i)))) →
    triggers p i
| trig_elapsed :
    reached (max_episode_elapsed_ms p) (Some (elapsed_ms (health (pre_intent_snapshot i)))) →
    triggers p i
| trig_cost :
    reached (max_episode_cost_micro_usd p) (settled_cost_micro_usd (health (pre_intent_snapshot i))) →
    triggers p i.

Section guard.
Implicit Types (p : ProgressGuardPolicy) (i : ProgressGuardInput).

Definition reachedb (threshold observed : option Z) : bool :=
  match threshold, observed with Some t, Some o => t <=? o | _, _ => false end.
Lemma reachedb_true t o : reachedb t o = true ↔ reached t o.
Proof.
  unfold reached. destruct t, o; cbn; [rewrite Z.leb_le|..]; naive_solver.
Qed.

(** One clause is appended, applied exactly when the threshold is reached. *)
Lemma threshold_clause_spec cs id t o :
  ∃ c, threshold_clause cs id t o = (cs ++ [c])%list ∧
    clause_id c = id ∧ is_applied c = reachedb t o.
Proof.
  unfold threshold_clause, clause, is_applied, reachedb.
  destruct t as [t|], o as [o|]; eexists; (split; [reflexivity|]); cbn;
    split; try done. by destruct (t <=? o).
Qed.
Lemma recovery_clause_spec cs t n edge :
  ∃ c, recovery_threshold_clause cs t n edge = (cs ++ [c])%list ∧
    clause_id c = "progress_guard.max_recovery_count" ∧
    is_applied c = edge && reachedb t (Some n).
Proof.
  unfold recovery_threshold_clause. case_bool_decide as Ht; [|destruct edge; cbn [negb]].
  - subst. destruct (threshold_clause_spec cs "progress_guard.max_recovery_count" None (Some n))
      as (c & H & ? & Ha). exists c. rewrite andb_false_r. by split_and!.
  - apply threshold_clause_spec.
  - by eexists.
Qed.

(** The dispositions of the eight clauses, in their stable order. *)
Definition clause_flags p i : list bool := [
  hold_active i; incomplete_trigger p i;
  reachedb (max_consecutive_unprotected p) (Some (next_unprotected p i));
  reachedb (max_same_projection_unprotected p) (Some (next_same_projection p i));
  current_is_recovery_edge i && reachedb (max_recovery_count p) (Some (next_recovery i));
  reachedb (max_episode_requests p) (Some (request_count (health (pre_intent_snapshot i))));
  reachedb (max_episode_elapsed_ms p) (Some (elapsed_ms (health (pre_intent_snapshot i))));
  reachedb (max_episode_cost_micro_usd p) (settled_cost_micro_usd (health (pre_intent_snapshot i)))].
Definition GUARD_CLAUSE_IDS : list string := take 8 STABLE_CLAUSE_IDS.

Lemma evaluated_clauses_spec p i :
  let cs := evaluated_clauses p i (next_same_projection p i) (next_unprotected p i) (next_recovery i) in
  map clause_id cs = GUARD_CLAUSE_IDS ∧ map is_applied cs = clause_flags p i.
Proof.
  unfold evaluated_clauses. cbn zeta.
  repeat match goal with
  | |- context [threshold_clause ?cs ?id ?t ?o] =>
      let H := fresh "H" in
      destruct (threshold_clause_spec cs id t o) as (? & H & ? & ?); rewrite H; clear H
  | |- context [recovery_threshold_clause ?cs ?t ?n ?e] =>
      let H := fresh "H" in
      destruct (recovery_clause_spec cs t n e) as (? & H & ? & ?); rewrite H; clear H
  end.
  cbn [app map clause clause_id]. unfold clause_flags, GUARD_CLAUSE_IDS, STABLE_CLAUSE_IDS.
  cbn [take]. split; [congruence|]. repeat f_equal; try done;
    unfold is_applied; cbn; by case_match.
Qed.

Lemma prospective_same_ok p i v :
  prospective_same_projection_unprotected p i = Ok v → v = next_same_projection p i.
Proof.
  unfold prospective_same_projection_unprotected, next_same_projection.
  destruct (candidate_is_protected p i); [by intros [= ->]|].
  destruct (prior_health i) as [h|]; [case_bool_decide|]; intros Hv; res_inv; try done. by arith.
Qed.
Lemma prospective_unprotected_ok p i v :
  prospective_unprotected p i = Ok v → v = next_unprotected p i.
Proof.
  unfold prospective_unprotected, next_unprotected.
  destruct (candidate_is_protected p i); [by intros [= ->]|]. intros Hv. res_inv. by arith.
Qed.
Lemma prospective_recovery_ok i v : prospective_recovery_count i = Ok v → v = next_recovery i.
Proof. unfold prospective_recovery_count, next_recovery. intros Hv. res_inv. by arith. Qed.

(** What one successful evaluation computed. *)
Lemma evaluate_inv p i g :
  evaluate p i = Ok g →
  let cs := suppress_under_hold (hold_active i)
    (evaluated_clauses p i (next_same_projection p i) (next_unprotected p i) (next_recovery i)) in
  validate_policy_shape p = Ok tt ∧ clauses (intent g) = cs ∧
  intent_candidate_tier (intent g) = candidate_tier i ∧
  selected_tier (intent g) = select_tier p i (existsb is_applied cs) ∧
  trajectory_snapshot_digest (intent g) = evidence_digest (pre_intent_snapshot i) ∧
  intent_policy_digest (intent g) = policy_digest i ∧
  activated g = negb (hold_active i) && existsb is_trigger cs.
Proof.
  unfold evaluate. intros He. res_inv.
  repeat match goal with
  | H : prospective_same_projection_unprotected _ _ = _ |- _ => apply prospective_same_ok in H; subst
  | H : prospective_unprotected _ _ = _ |- _ => apply prospective_unprotected_ok in H; subst
  | H : prospective_recovery_count _ = _ |- _ => apply prospective_recovery_ok in H; subst
  end. done.
Qed.

Lemma suppress_clause_applied c : is_applied (suppress_clause c) = false.
Proof. unfold suppress_clause. by destruct (is_applied c) eqn:Hc. Qed.
Lemma suppressed_flags p i :
  let cs := suppress_under_hold (hold_active i)
    (evaluated_clauses p i (next_same_projection p i) (next_unprotected p i) (next_recovery i)) in
  map clause_id cs = GUARD_CLAUSE_IDS ∧
  map is_applied cs =
    if hold_active i then [true; false; false; false; false; false; false; false]
    else clause_flags p i.
Proof.
  pose proof (evaluated_clauses_spec p i) as [Hid Hfl]. cbn zeta in *.
  destruct (hold_active i) eqn:Hh; cbn [suppress_under_hold]; [|done].
  revert Hid Hfl. generalize (evaluated_clauses p i (next_same_projection p i)
    (next_unprotected p i) (next_recovery i)) as cs.
  intros [|c cs]; [done|]. cbn [map]. unfold clause_flags. rewrite Hh.
  intros [= Hc Hid] [= Ha Hfl]. rewrite Hc, map_map.
  assert (map (λ c, clause_id (suppress_clause c)) cs = map clause_id cs) as ->.
  { apply map_ext. intros x. unfold suppress_clause. by destruct (is_applied x). }
  rewrite Hid. split; [done|]. f_equal; [done|].
  assert (length cs = 7%nat) as Hl by by rewrite <-(length_map clause_id), Hid.
  do 8 (destruct cs as [|? cs]; try discriminate Hl).
  cbn [map]. by rewrite !suppress_clause_applied.
Qed.

(** An applied clause other than the hold's, read off the flags. *)
Lemma trigger_flags cs :
  map clause_id cs = GUARD_CLAUSE_IDS →
  existsb is_trigger cs = existsb id (tail (map is_applied cs)).
Proof.
  intros Hid. assert (length cs = 8%nat) as Hl by by rewrite <-(length_map clause_id), Hid.
  do 9 (destruct cs as [|? cs]; try discriminate Hl).
  injection Hid as ? ? ? ? ? ? ? ?. cbn [existsb map tail]. unfold is_trigger.
  repeat match goal with H : clause_id _ = _ |- _ => rewrite H; clear H end.
  rewrite bool_decide_eq_true_2 by done. rewrite !bool_decide_eq_false_2 by done.
  cbn [negb]. by rewrite !andb_true_r, andb_false_r.
Qed.
Lemma triggers_flags p i : existsb id (tail (clause_flags p i)) = true ↔ triggers p i.
Proof.
  unfold clause_flags, incomplete_trigger. cbn [tail existsb]. unfold id.
  rewrite !orb_true_iff, !andb_true_iff, !reachedb_true, negb_true_iff,
    bool_decide_eq_false, bool_decide_eq_true. split.
  - intros H. destruct_or! H; try done; [apply trig_incomplete | apply trig_unprotected
      | apply trig_same_projection | apply trig_recovery | apply trig_requests
      | apply trig_elapsed | apply trig_cost]; tauto.
  - intros []; tauto.
Qed.

Lemma select_tier_protected p i :
  validate_policy_shape p = Ok tt → is_protected p (select_tier p i true) = true.
Proof.
  unfold validate_policy_shape, select_tier, candidate_is_protected. intros Hp. res_inv.
  assert (escalation_tier p ∈ protected_tiers p) as He by (arith; done).
  clear -He. destruct (candidate_tier i) as [t|]; cbn; [case_bool_decide; cbn|];
    by apply bool_decide_eq_true.
Qed.

(** Counters that one more request cannot overflow. *)
Definition counters_below_max (h : TrajectoryHealth) : Prop :=
  consecutive_unprotected_requests h < u64_max ∧ recovery_count h < u64_max.

(** With a valid policy and counters short of [u64::MAX] the evaluation always
    succeeds: the bail-out on a tier outside [protected_tiers] is never taken. *)
Theorem evaluate_total p i :
  validate_policy_shape p = Ok tt →
  (∀ h, prior_health i = Some h → counters_below_max h) →
  ∃ g, evaluate p i = Ok g.
Proof.
  intros Hp Hh.
  assert (∃ same, prospective_same_projection_unprotected p i = Ok same) as [same Hs].
  { unfold prospective_same_projection_unprotected.
    destruct (candidate_is_protected p i); [by eexists|].
    destruct (prior_health i) as [h|]; [|by eexists]. case_bool_decide; [|by eexists].
    destruct (Hh h eq_refl) as [Hu _]. eexists. apply ok_or_ok, checked_add_Some. split; [done|lia]. }
  assert (∃ unp, prospective_unprotected p i = Ok unp) as [unp Hu].
  { unfold prospective_unprotected. destruct (candidate_is_protected p i); [by eexists|].
    eexists. apply ok_or_ok, checked_add_Some. split; [done|].
    destruct (prior_health i) as [h|]; cbn; [destruct (Hh h eq_refl); lia|unfold u64_max; lia]. }
  assert (∃ rec, prospective_recovery_count i = Ok rec) as [rec Hr].
  { unfold prospective_recovery_count. eexists. apply ok_or_ok, checked_add_Some. split; [done|].
    pose proof (of_bool_bounds (current_is_recovery_edge i)).
    destruct (prior_health i) as [h|]; cbn; [destruct (Hh h eq_refl); lia|unfold u64_max; lia]. }
  unfold evaluate. rewrite Hp, Hs, Hu, Hr. cbn [mbind result_bind].
  destruct (existsb is_applied _); [rewrite select_tier_protected by done|]; by eexists.
Qed.

(** When a clause applies, the selected tier is protected, and it is the candidate
    itself if that one is protected; when none applies the candidate is kept. *)
Theorem guard_selects_protected p i g :
  evaluate p i = Ok g →
  if existsb is_applied (clauses (intent g))
  then is_protected p (selected_tier (intent g)) = true ∧
       (candidate_is_protected p i = true → selected_tier (intent g) = candidate_tier i)
  else selected_tier (intent g) = candidate_tier i.
Proof.
  intros (Hp & -> & _ & -> & _)%evaluate_inv. destruct (existsb is_applied _); [|done].
  split; [by apply select_tier_protected|]. intros Hc. unfold select_tier. by rewrite Hc.
Qed.

(** C35: the guard is newly activated exactly when no hold is active and the policy's
    conditions, stated on the unbounded counters, ask for it. *)
Theorem activation_iff_trigger p i g :
  evaluate p i = Ok g → activated g = true ↔ hold_active i = false ∧ triggers p i.
Proof.
  intros (_ & _ & _ & _ & _ & _ & ->)%evaluate_inv.
  pose proof (suppressed_flags p i) as [Hid Hfl]. cbn zeta in *.
  rewrite andb_true_iff, negb_true_iff, trigger_flags, Hfl by done.
  destruct (hold_active i); [|by rewrite triggers_flags]. naive_solver.
Qed.

(** Under a persisted hold the hold's clause is the only one that applies, nothing is
    activated, and the request is routed to a protected tier. *)
Theorem active_hold_suppresses p i g :
  evaluate p i = Ok g → hold_active i = true →
  map clause_id (List.filter is_applied (clauses (intent g))) = ["progress_guard.active_hold"] ∧
  activated g = false ∧ is_protected p (selected_tier (intent g)) = true.
Proof.
  intros (Hp & -> & _ & -> & _ & _ & ->)%evaluate_inv Hh.
  pose proof (suppressed_flags p i) as [Hid Hfl]. cbn zeta in *. rewrite Hh in *. cbn [negb andb].
  revert Hid Hfl. generalize (suppress_under_hold true (evaluated_clauses p i
    (next_same_projection p i) (next_unprotected p i) (next_recovery i))) as cs. intros cs Hid Hfl.
  destruct cs as [|c cs]; [done|]. injection Hid as Hc Hid. injection Hfl as Ha Hfl.
  assert (List.filter is_applied cs = []) as Hnil.
  { clear Hid Hc Ha. do 8 (destruct cs as [|? cs]; try discriminate Hfl).
    injection Hfl as ? ? ? ? ? ? ?. cbn [List.filter].
    by repeat match goal with H : is_applied _ = _ |- _ => rewrite H; clear H end. }
  cbn [List.filter existsb]. rewrite Ha, Hnil. cbn. rewrite Hc.
  split_and!; [done|done|]. by apply select_tier_protected.
Qed.
End guard.
