(* ===== verification/TrajectoryReducer.v ===== *)
(** The trajectory reducer: the validated fold over an episode's events that derives the
    health snapshot ([apps/bitrouter/src/trajectory/health.rs]). *)
From stdpp Require Import base list strings gmap pretty sorting.
From Stdlib Require Import ZArith Lia Ascii.
From S2P Require Import Prelude RouteIr EvalMeasurement TrajectoryTypes ProgressGuard.
Open Scope string_scope.
Open Scope Z_scope.

Definition PPM_SCALE : Z := 1000000.
Definition MAX_HOLD_REQUESTS : Z := u32_max.

Inductive RequestPhase := Started | Routed | RoutedGuarded | Settled.
#[export] Instance RequestPhase_eq_dec : EqDecision RequestPhase. Proof. solve_decision. Defined.

(** ** Helpers *)

Definition required_request_id (e : TrajectoryEvent) : result string string :=
  ok_or (request_id e) "trajectory request event is missing request_id".

Definition parse_start_completeness (value : option string) : result string HistoryCompleteness :=
  match value with
  | None => Ok Unknown
  | Some v =>
      if bool_decide (v = "complete") then Ok Complete
      else if bool_decide (v = "incomplete") then Ok Incomplete
      else if bool_decide (v = "unknown") then Ok Unknown
      else Err "request start has invalid history completeness"
  end.
Definition correlation_sources : list string :=
  ["native_parent_id"; "canonical_prefix"; "explicit_root"; "unresolved"].
Definition validate_correlation_source (value : option string) : result string HistoryCompleteness :=
  match value with
  | None => Ok Unknown
  | Some v => if bool_decide (v ∈ correlation_sources) then Ok Complete
              else Err "request start has invalid correlation source"
  end.

Definition checked_increment (value : Z) (field : string) : result string Z :=
  ok_or (value +? 1) (field +:+ " overflow").

(** Returns the streak and the new [previous]. *)
Definition update_streak (previous current : option string) (streak : Z) (field : string)
    : result string (Z * option string) :=
  match current with
  | None => Ok (0, None)
  | Some current =>
      next ← (if bool_decide (previous = Some current) then checked_increment streak field else Ok 1);
      Ok (next, Some current)
  end.

Definition checked_optional_total (total value : option Z) (had_prior_values : bool) (field : string)
    : result string (option Z) :=
  if negb had_prior_values then Ok value
  else match total, value with
       | Some total, Some value => t ← ok_or (total +? value) (field +:+ " overflow"); Ok (Some t)
       | _, _ => Ok None
       end.

Definition compute_context_growth_ppm (first latest : option Z) : result string (option Z) :=
  match first, latest with
  | Some first, Some latest =>
      if first =? 0 then Ok None
      else
        scaled ← ok_or ((latest -| first) *? PPM_SCALE) "context growth ppm overflow";
        Ok (Some (scaled / first))
  | _, _ => Ok None
  end.

(** ** The state of the fold

    The local variables of [reduce_prefix]; [previous_timestamp] and [last_timestamp] always
    hold the same instant and are one field. *)
Record Streaks := {
  previous_projection : option string; previous_selected_tier : option string;
  k_same_projection : Z; k_same_selected_tier : Z; k_consecutive_unprotected : Z;
  k_recovery : Z; k_requests_since_recovery : option Z;
}.
Record Usage := {
  u_total_tokens : option Z; u_settled_cost : option Z;
  first_canonical_bytes : option Z; latest_canonical_bytes : option Z;
}.
Record Reducer := {
  consumed : Z; last_timestamp : Z;
  requests : gmap string RequestPhase;
  guarded_route_digests : gmap string (string * string);
  pending_guard_activation : option string;
  r_completeness : HistoryCompleteness; r_request_count : Z; r_settled_count : Z;
  streaks : Streaks; usage : Usage; hold_remaining : Z; closed : bool;
}.

Definition Reducer_init (first_timestamp : Z) : Reducer := {|
  consumed := 0; last_timestamp := first_timestamp; requests := ∅; guarded_route_digests := ∅;
  pending_guard_activation := None; r_completeness := Complete; r_request_count := 0;
  r_settled_count := 0;
  streaks := {| previous_projection := None; previous_selected_tier := None;
    k_same_projection := 0; k_same_selected_tier := 0; k_consecutive_unprotected := 0;
    k_recovery := 0; k_requests_since_recovery := None |};
  usage := {| u_total_tokens := None; u_settled_cost := None; first_canonical_bytes := None;
    latest_canonical_bytes := None |};
  hold_remaining := 0; closed := false |}.

Inductive PrefixReduction := PrefixComplete (s : TrajectorySnapshot) | AwaitingGuardActivation.

(** The episode, as its first event names it. *)
Record Episode := { e_owner : string; e_episode : string; e_first_timestamp : Z }.

Section reducer.
Context `{TrajectoryEnv}.

(** ** Snapshots *)

Definition has_started_request (st : Reducer) : bool :=
  existsb (λ kv, bool_decide (kv.2 = Started)) (map_to_list (requests st)).
Definition elapsed_between (first last : Z) : result string Z :=
  let ms := Z.quot (last - first) 1000000 in
  _ ← ensure (0 <=? ms) "trajectory elapsed time is negative";
  Ok ms.

Definition health_from_facts (ep : Episode) (st : Reducer) (last : Z) : result string TrajectoryHealth :=
  let completeness :=
    if has_started_request st then merge_completeness (r_completeness st) Unknown
    else r_completeness st in
  unsettled ← ok_or (r_request_count st -? r_settled_count st)
    "settled request count exceeds request count";
  elapsed ← elapsed_between (e_first_timestamp ep) last;
  growth ← compute_context_growth_ppm (first_canonical_bytes (usage st))
    (latest_canonical_bytes (usage st));
  Ok {| completeness := completeness; request_count := r_request_count st;
        settled_request_count := r_settled_count st; unsettled_request_count := unsettled;
        elapsed_ms := elapsed; latest_projection := previous_projection (streaks st);
        same_projection_streak := k_same_projection (streaks st);
        same_selected_tier_streak := k_same_selected_tier (streaks st);
        consecutive_unprotected_requests := k_consecutive_unprotected (streaks st);
        recovery_count := k_recovery (streaks st);
        requests_since_recovery := k_requests_since_recovery (streaks st);
        context_growth_ppm := growth; total_tokens := u_total_tokens (usage st);
        settled_cost_micro_usd := u_settled_cost (usage st) |}.

(** [snapshot_from_facts], on the facts [st] with [last] as the last timestamp. *)
Definition snapshot_from_facts (ep : Episode) (st : Reducer) (through last : Z)
    : result string TrajectorySnapshot :=
  h ← health_from_facts ep st last;
  let snapshot := {| snapshot_episode_id := e_episode ep; through_sequence := through;
    health := h; active_hold_remaining := hold_remaining st; evidence_digest := "" |} in
  d ← snapshot_semantic_digest snapshot;
  Ok {| snapshot_episode_id := e_episode ep; through_sequence := through; health := h;
        active_hold_remaining := hold_remaining st; evidence_digest := d |}.

(** ** One event of each kind *)

Definition on_request_started (st : Reducer) (e : TrajectoryEvent) : result string Reducer :=
  request_id ← required_request_id e;
  _ ← ensure (negb (has_key (requests st) request_id))
        ("trajectory request '" +:+ request_id +:+ "' starts more than once");
  let bytes := structural (evidence e) !! "request.canonical_input_bytes" in
  count ← checked_increment (r_request_count st) "request count";
  c1 ← parse_start_completeness (categorical (evidence e) !! "history.completeness");
  c2 ← validate_correlation_source (categorical (evidence e) !! "correlation.source");
  Ok {| consumed := consumed st; last_timestamp := last_timestamp st;
        requests := <[request_id := Started]> (requests st);
        guarded_route_digests := guarded_route_digests st;
        pending_guard_activation := pending_guard_activation st;
        r_completeness := merge_completeness (merge_completeness (r_completeness st) c1) c2;
        r_request_count := count; r_settled_count := r_settled_count st;
        streaks := streaks st;
        usage := {|
          u_total_tokens := u_total_tokens (usage st); u_settled_cost := u_settled_cost (usage st);
          first_canonical_bytes :=
            if r_request_count st =? 0 then bytes else first_canonical_bytes (usage st);
          latest_canonical_bytes := bytes |};
        hold_remaining := hold_remaining st -| 1; closed := closed st |}.

(** A clause that asks for a new activation. *)
Definition is_persisted_trigger (c : string * RouteIntentClauseDisposition) : bool :=
  bool_decide (c.2 = Applied) && starts_with "progress_guard." c.1
  && negb (bool_decide (c.1 = "progress_guard.active_hold")).

(** The digests of a guarded route must be those of the factual prefix; the result is the
    new pair of [guarded_route_digests] and [pending_guard_activation]. *)
Definition check_guarded_route (ep : Episode) (st : Reducer) (prefix_timestamp : Z)
    (e : TrajectoryEvent) (request_id : string)
    (clauses : list (string * RouteIntentClauseDisposition))
    : result string (gmap string (string * string) * option string) :=
  policy ← ok_or (digests (evidence e) !! "route.policy_lock")
    "guarded route lost its policy digest";
  health ← ok_or (digests (evidence e) !! "route.health_snapshot")
    "guarded route lost its health digest";
  through ← ok_or (sequence e -? 1) "guarded route has no factual event prefix";
  factual_prefix ← snapshot_from_facts ep st through prefix_timestamp;
  _ ← ensure (bool_decide (health = evidence_digest factual_prefix))
    "guarded route health digest disagrees with its factual pre-intent trajectory snapshot";
  Ok (<[request_id := (policy, health)]> (guarded_route_digests st),
      if existsb is_persisted_trigger clauses then Some request_id
      else pending_guard_activation st).

Definition advance_to_routed (st : Reducer) (request_id : string)
    : result string (gmap string RequestPhase) :=
  phase ← ok_or (requests st !! request_id)
    ("route intent references unknown request '" +:+ request_id +:+ "'");
  match phase with
  | Started => Ok (<[request_id := Routed]> (requests st))
  | Routed | RoutedGuarded =>
      Err ("trajectory request '" +:+ request_id +:+ "' has duplicate route intent")
  | Settled => Err ("trajectory request '" +:+ request_id +:+ "' records intent after settlement")
  end.

Definition parse_projection (value : option string) : result string (option RouteProjection) :=
  match value with
  | None => Ok None
  | Some v => p ← ok_or (RouteProjection_parse_key v) "route intent has invalid canonical projection";
              Ok (Some p)
  end.
Definition parse_workflow_state (value : option string) : result string (option WorkflowStateKind) :=
  match value with
  | None => Ok None
  | Some v => p ← ok_or (RouteProjection_parse_key ("agent_trace/v2|" +:+ v +:+ "|normal"))
                    "route intent has invalid generic workflow state";
              Ok (Some (state_kind p))
  end.
Definition states_agree (p : option RouteProjection) (w : option WorkflowStateKind) : bool :=
  match p, w with Some p, Some w => bool_decide (state_kind p = w) | _, _ => true end.

Definition was_recovery (projection : option string) : bool :=
  match projection ≫= RouteProjection_parse_key with
  | Some p => bool_decide (state_kind p = Recovery) | None => false
  end.
Definition selected_is_protected (protected_tiers : gset string) (e : TrajectoryEvidence)
    (selected : option string) : result string bool :=
  match structural e !! "route.selected_is_protected" with
  | Some v => if v =? 0 then Ok false else if v =? 1 then Ok true
              else Err "guarded route has an invalid selected-tier protection fact"
  | None => Ok (match selected with Some t => bool_decide (t ∈ protected_tiers) | None => false end)
  end.

Definition intent_streaks (protected_tiers : gset string) (k : Streaks) (e : TrajectoryEvidence)
    (state : option WorkflowStateKind) : result string Streaks :=
  let projection := categorical e !! "route.projection" in
  let selected_tier := categorical e !! "route.selected_tier" in
  let previous_was_recovery := was_recovery (previous_projection k) in
  '(same_projection, projection') ←
    update_streak (previous_projection k) projection (k_same_projection k) "same projection streak";
  '(same_tier, tier') ←
    update_streak (previous_selected_tier k) selected_tier (k_same_selected_tier k)
      "same selected tier streak";
  protected ← selected_is_protected protected_tiers e selected_tier;
  unprotected ← match selected_tier with
    | Some _ => if (protected : bool) then Ok 0
                else checked_increment (k_consecutive_unprotected k)
                       "consecutive unprotected request count"
    | None => Ok 0
    end;
  '(recovery, since) ←
    (if bool_decide (state = Some Recovery) then
       recovery ← (if previous_was_recovery then Ok (k_recovery k)
                   else checked_increment (k_recovery k) "recovery count");
       Ok (recovery, Some 0)
     else match k_requests_since_recovery k with
          | Some count =>
              since ← checked_increment count "requests since recovery count";
              Ok (k_recovery k, Some since)
          | None => Ok (k_recovery k, None)
          end : result string (Z * option Z));
  Ok {| previous_projection := projection'; previous_selected_tier := tier';
        k_same_projection := same_projection; k_same_selected_tier := same_tier;
        k_consecutive_unprotected := unprotected; k_recovery := recovery;
        k_requests_since_recovery := since |}.

Definition on_route_intent (protected_tiers : gset string) (ep : Episode) (prefix_timestamp : Z)
    (st : Reducer) (e : TrajectoryEvent) : result string Reducer :=
  request_id ← required_request_id e;
  persisted ← validate_persisted_route_intent e;
  '(guarded, pending) ← match persisted with
    | Some clauses => check_guarded_route ep st prefix_timestamp e request_id clauses
    | None => Ok (guarded_route_digests st, pending_guard_activation st)
    end;
  requests' ← advance_to_routed st request_id;
  let projection := categorical (evidence e) !! "route.projection" in
  let workflow_state := categorical (evidence e) !! "route.workflow_state" in
  let selected_tier := categorical (evidence e) !! "route.selected_tier" in
  parsed_projection ← parse_projection projection;
  parsed_workflow_state ← parse_workflow_state workflow_state;
  _ ← ensure (states_agree parsed_projection parsed_workflow_state)
        "route intent projection and workflow state disagree";
  let completeness :=
    if bool_decide (projection = None) || bool_decide (workflow_state = None)
       || bool_decide (selected_tier = None)
    then merge_completeness (r_completeness st) Unknown else r_completeness st in
  k ← intent_streaks protected_tiers (streaks st) (evidence e) parsed_workflow_state;
  Ok {| consumed := consumed st; last_timestamp := last_timestamp st; requests := requests';
        guarded_route_digests := guarded; pending_guard_activation := pending;
        r_completeness := completeness; r_request_count := r_request_count st;
        r_settled_count := r_settled_count st; streaks := k; usage := usage st;
        hold_remaining := hold_remaining st; closed := closed st |}.

Definition on_request_settled (st : Reducer) (e : TrajectoryEvent) : result string Reducer :=
  request_id ← required_request_id e;
  phase ← ok_or (requests st !! request_id)
    ("settlement references unknown request '" +:+ request_id +:+ "'");
  requests' ← match phase with
    | Started => Err ("trajectory request '" +:+ request_id +:+ "' settles before route intent")
    | Routed | RoutedGuarded => Ok (<[request_id := Settled]> (requests st))
    | Settled => Err ("trajectory request '" +:+ request_id +:+ "' settles more than once")
    end;
  let had_settled_requests := 0 <? r_settled_count st in
  total ← checked_optional_total (u_total_tokens (usage st))
    (structural (evidence e) !! "settlement.total_tokens") had_settled_requests "total token count";
  cost ← checked_optional_total (u_settled_cost (usage st))
    (structural (evidence e) !! "settlement.cost_micro_usd") had_settled_requests "settled cost";
  settled ← checked_increment (r_settled_count st) "settled request count";
  Ok {| consumed := consumed st; last_timestamp := last_timestamp st; requests := requests';
        guarded_route_digests := guarded_route_digests st;
        pending_guard_activation := pending_guard_activation st;
        r_completeness := r_completeness st; r_request_count := r_request_count st;
        r_settled_count := settled; streaks := streaks st;
        usage := {| u_total_tokens := total; u_settled_cost := cost;
          first_canonical_bytes := first_canonical_bytes (usage st);
          latest_canonical_bytes := latest_canonical_bytes (usage st) |};
        hold_remaining := hold_remaining st; closed := closed st |}.

(** Typed activation evidence must answer the pending trigger with the same digests; the
    result is the new [pending_guard_activation]. *)
Definition check_activation (st : Reducer) (e : TrajectoryEvent) (request_id : string)
    : result string (option string) :=
  typed ← validate_persisted_guard_activation e;
  if (typed : bool) then
    _ ← ensure (bool_decide (pending_guard_activation st = Some request_id))
          "guard activation has no immediately preceding new guard trigger";
    route_digests ← ok_or (guarded_route_digests st !! request_id)
      "guard activation has no guarded route intent";
    guard_policy ← ok_or (digests (evidence e) !! "guard.policy_lock")
      "guard activation lost its policy digest";
    guard_health ← ok_or (digests (evidence e) !! "guard.health_snapshot")
      "guard activation lost its health digest";
    _ ← ensure (bool_decide (route_digests = (guard_policy, guard_health)))
          "guard activation policy/health digests disagree with route intent";
    Ok None
  else
    _ ← ensure (negb (has_key (guarded_route_digests st) request_id))
          "guarded route requires typed guard activation evidence";
    Ok (pending_guard_activation st).

Definition on_guard_activated (st : Reducer) (e : TrajectoryEvent) : result string Reducer :=
  request_id ← required_request_id e;
  pending ← check_activation st e request_id;
  phase ← ok_or (requests st !! request_id)
    ("guard activation references unknown request '" +:+ request_id +:+ "'");
  requests' ← match phase with
    | Started => Err "guard activation requires a recorded route intent"
    | Routed => Ok (<[request_id := RoutedGuarded]> (requests st))
    | RoutedGuarded =>
        Err ("trajectory request '" +:+ request_id +:+ "' has duplicate guard activation")
    | Settled => Err ("trajectory request '" +:+ request_id +:+ "' activates guard after settlement")
    end;
  hold ← ok_or (structural (evidence e) !! "guard.hold_for_requests")
    "guard activation is missing hold length";
  _ ← ensure (negb ((hold =? 0) || (MAX_HOLD_REQUESTS <? hold)))
        "guard hold length must be in 1..=u32::MAX";
  Ok {| consumed := consumed st; last_timestamp := last_timestamp st; requests := requests';
        guarded_route_digests := guarded_route_digests st; pending_guard_activation := pending;
        r_completeness := r_completeness st; r_request_count := r_request_count st;
        r_settled_count := r_settled_count st; streaks := streaks st; usage := usage st;
        hold_remaining := hold; closed := closed st |}.

Definition on_episode_closed (st : Reducer) (e : TrajectoryEvent) : result string Reducer :=
  _ ← ensure (bool_decide (request_id e = None)) "episode close event cannot identify a request";
  Ok {| consumed := consumed st; last_timestamp := last_timestamp st; requests := requests st;
        guarded_route_digests := guarded_route_digests st;
        pending_guard_activation := pending_guard_activation st;
        r_completeness := r_completeness st; r_request_count := r_request_count st;
        r_settled_count := r_settled_count st; streaks := streaks st; usage := usage st;
        hold_remaining := hold_remaining st; closed := true |}.

(** ** The fold *)

(** The checks every event passes, and its timestamp. *)
Definition admit_event (ep : Episode) (st : Reducer) (e : TrajectoryEvent) : result string Z :=
  _ ← validate_event e;
  expected ← ok_or (consumed st +? 1) "trajectory event sequence overflow";
  _ ← ensure (sequence e =? expected)
        ("trajectory reducer expected sequence " +:+ pretty expected +:+ ", found "
          +:+ pretty (sequence e));
  _ ← ensure (negb (negb (bool_decide (owner_user_id e = e_owner ep))
                    || negb (bool_decide (episode_id e = e_episode ep))))
        "trajectory reducer events must share one owner and episode";
  _ ← ensure (negb (closed st)) "trajectory episode contains an event after closure";
  captured ← ok_or (parse_from_rfc3339 (captured_at e)) "parsing trajectory event timestamp";
  _ ← ensure (negb (captured <? last_timestamp st))
        "trajectory event timestamps regress in sequence order";
  _ ← ensure (match pending_guard_activation st with
              | Some r => negb (negb (bool_decide (event_kind e = GuardActivated))
                                || negb (bool_decide (request_id e = Some r)))
              | None => true end)
        "guarded route trigger must be followed by its guard activation";
  Ok captured.

Definition advance (st : Reducer) (captured : Z) : Reducer := {|
  consumed := consumed st + 1; last_timestamp := captured; requests := requests st;
  guarded_route_digests := guarded_route_digests st;
  pending_guard_activation := pending_guard_activation st; r_completeness := r_completeness st;
  r_request_count := r_request_count st; r_settled_count := r_settled_count st;
  streaks := streaks st; usage := usage st; hold_remaining := hold_remaining st;
  closed := closed st |}.

Definition handle (protected_tiers : gset string) (ep : Episode) (prefix_timestamp : Z)
    (st : Reducer) (e : TrajectoryEvent) : result string Reducer :=
  match event_kind e with
  | RequestStarted => on_request_started st e
  | RouteIntentRecorded => on_route_intent protected_tiers ep prefix_timestamp st e
  | RequestSettled => on_request_settled st e
  | GuardActivated => on_guard_activated st e
  | EpisodeClosed => on_episode_closed st e
  end.
Definition reduce_step (protected_tiers : gset string) (ep : Episode) (st : Reducer)
    (e : TrajectoryEvent) : result string Reducer :=
  captured ← admit_event ep st e;
  handle protected_tiers ep (last_timestamp st) (advance st captured) e.

Definition episode_of (events : list TrajectoryEvent) : result string Episode :=
  first ← ok_or (head events) "trajectory reduction requires at least one event";
  _ ← ensure (bool_decide (event_kind first = RequestStarted))
        "trajectory episode must begin with RequestStarted";
  ts ← ok_or (parse_from_rfc3339 (captured_at first)) "parsing first trajectory timestamp";
  Ok {| e_owner := owner_user_id first; e_episode := episode_id first; e_first_timestamp := ts |}.
(** The loop of [reduce_prefix]. *)
Definition run (events : list TrajectoryEvent) (protected_tiers : gset string)
    : result string (Episode * Reducer) :=
  ep ← episode_of events;
  st ← try_fold (reduce_step protected_tiers ep) (Reducer_init (e_first_timestamp ep)) events;
  Ok (ep, st).

Definition reduce_prefix (events : list TrajectoryEvent) (protected_tiers : gset string)
    : result string PrefixReduction :=
  '(ep, st) ← run events protected_tiers;
  if bool_decide (is_Some (pending_guard_activation st)) then Ok AwaitingGuardActivation
  else
    final ← ok_or (last events) "trajectory reduction lost its final event";
    s ← snapshot_from_facts ep st (sequence final) (last_timestamp st);
    Ok (PrefixComplete s).

Definition reduce (events : list TrajectoryEvent) (protected_tiers : gset string)
    : result string TrajectorySnapshot :=
  r ← reduce_prefix events protected_tiers;
  match r with
  | PrefixComplete s => Ok s
  | AwaitingGuardActivation => Err "guarded route trigger is missing its guard activation"
  end.
End reducer.

(** ** Lemmas *)

(** The kinds of the events of one request, in order. *)
Definition trace (r : string) (events : list TrajectoryEvent) : list TrajectoryEventKind :=
  map event_kind (List.filter (λ e, bool_decide (request_id e = Some r)) events).
Definition is_kind (k : TrajectoryEventKind) (e : TrajectoryEvent) : bool :=
  bool_decide (event_kind e = k).

(** The life of one request, by the phase that the reducer keeps. *)
Inductive phase_trace : option RequestPhase → list TrajectoryEventKind → Prop :=
| pt_unknown : phase_trace None []
| pt_started : phase_trace (Some Started) [RequestStarted]
| pt_routed : phase_trace (Some Routed) [RequestStarted; RouteIntentRecorded]
| pt_guarded :
    phase_trace (Some RoutedGuarded) [RequestStarted; RouteIntentRecorded; GuardActivated]
| pt_settled :
    phase_trace (Some Settled) [RequestStarted; RouteIntentRecorded; RequestSettled]
| pt_guarded_settled :
    phase_trace (Some Settled)
      [RequestStarted; RouteIntentRecorded; GuardActivated; RequestSettled].

Lemma trace_snoc r l e :
  trace r (l ++ [e]) = (trace r l ++ if bool_decide (request_id e = Some r) then [event_kind e] else [])%list.
Proof.
  unfold trace. rewrite List.filter_app, map_app. f_equal. cbn. by case_bool_decide.
Qed.
Lemma countb_snoc {A} (f : A → bool) l x : countb f (l ++ [x]) = countb f l + of_bool (f x).
Proof. rewrite countb_app, countb_cons. unfold countb at 2. cbn. lia. Qed.

Section reducer_lemmas.
Context `{TrajectoryEnv}.
Implicit Types (st : Reducer) (e : TrajectoryEvent) (ep : Episode).

(** What each handler changes of the request lifecycle. *)
Definition lifecycle_step st e st' : Prop :=
  match event_kind e with
  | RequestStarted => ∃ r, request_id e = Some r ∧ requests st !! r = None ∧
      requests st' = <[r := Started]> (requests st) ∧
      r_request_count st' = r_request_count st + 1 ∧ r_settled_count st' = r_settled_count st ∧
      hold_remaining st' = hold_remaining st -| 1
  | RouteIntentRecorded => ∃ r, request_id e = Some r ∧ requests st !! r = Some Started ∧
      requests st' = <[r := Routed]> (requests st) ∧
      r_request_count st' = r_request_count st ∧ r_settled_count st' = r_settled_count st ∧
      hold_remaining st' = hold_remaining st
  | RequestSettled => ∃ r, request_id e = Some r ∧
      (requests st !! r = Some Routed ∨ requests st !! r = Some RoutedGuarded) ∧
      requests st' = <[r := Settled]> (requests st) ∧
      r_request_count st' = r_request_count st ∧ r_settled_count st' = r_settled_count st + 1 ∧
      hold_remaining st' = hold_remaining st
  | GuardActivated => ∃ r hold, request_id e = Some r ∧ requests st !! r = Some Routed ∧
      requests st' = <[r := RoutedGuarded]> (requests st) ∧
      r_request_count st' = r_request_count st ∧ r_settled_count st' = r_settled_count st ∧
      structural (evidence e) !! "guard.hold_for_requests" = Some hold ∧
      hold ≠ 0 ∧ hold ≤ MAX_HOLD_REQUESTS ∧ hold_remaining st' = hold
  | EpisodeClosed => request_id e = None ∧ requests st' = requests st ∧
      r_request_count st' = r_request_count st ∧ r_settled_count st' = r_settled_count st ∧
      hold_remaining st' = hold_remaining st ∧ closed st' = true
  end.

Lemma checked_increment_ok v field v' : checked_increment v field = Ok v' → v' = v + 1 ∧ v' ≤ u64_max.
Proof. unfold checked_increment. intros Hv. res_inv. arith. Qed.
Lemma has_key_false {A} (m : gmap string A) k : has_key m k = false → m !! k = None.
Proof. unfold has_key. intros Hk. arith. by apply eq_None_not_Some. Qed.

Lemma handle_lifecycle pt ep ts st e st' :
  handle pt ep ts st e = Ok st' → lifecycle_step st e st'.
Proof.
  unfold handle, lifecycle_step. destruct (event_kind e).
  - unfold on_request_started, required_request_id. intros Hs. res_inv. cbn.
    eexists. split_and!; try done; [apply has_key_false; by arith|].
    match goal with H : checked_increment _ _ = _ |- _ => by apply checked_increment_ok in H as [-> _] end.
  - unfold on_route_intent, required_request_id. intros Hs. res_inv.
    destruct v1 as [guarded pending]. res_inv. cbn. eexists. split_and!; try done;
    match goal with H : advance_to_routed _ _ = _ |- _ =>
      unfold advance_to_routed in H; res_inv;
      match type of H with match ?p with _ => _ end = _ => destruct p; res_inv; done end end.
  - unfold on_request_settled, required_request_id. intros Hs. res_inv. cbn.
    match goal with H : checked_increment _ _ = _ |- _ => apply checked_increment_ok in H as [-> _] end.
    match goal with H : match ?p with _ => _ end = Ok _ |- _ => destruct p; res_inv end;
      eexists; split_and!; eauto.
  - unfold on_guard_activated, required_request_id. intros Hs. res_inv. cbn.
    match goal with H : match ?p with _ => _ end = Ok _ |- _ => destruct p; res_inv end.
    eexists _, _. split_and!; try done; by arith.
  - unfold on_episode_closed. intros Hs. res_inv. cbn. by arith.
Qed.

Lemma reduce_step_inv pt ep st e st' :
  reduce_step pt ep st e = Ok st' →
  ∃ captured, admit_event ep st e = Ok captured ∧
    handle pt ep (last_timestamp st) (advance st captured) e = Ok st'.
Proof. unfold reduce_step. by rewrite bind_ok. Qed.
(** The lifecycle part of one step does not see the timestamp. *)
Lemma reduce_step_lifecycle pt ep st e st' :
  reduce_step pt ep st e = Ok st' → lifecycle_step st e st'.
Proof. intros (captured & _ & Hh%handle_lifecycle)%reduce_step_inv. exact Hh. Qed.
Lemma handle_frame pt ep ts st e st' :
  handle pt ep ts st e = Ok st' →
  consumed st' = consumed st ∧ last_timestamp st' = last_timestamp st ∧
  (event_kind e ≠ EpisodeClosed → closed st' = closed st).
Proof.
  unfold handle. destruct (event_kind e);
    [unfold on_request_started|unfold on_route_intent|unfold on_request_settled
    |unfold on_guard_activated|unfold on_episode_closed];
    intros Hs; res_inv; try done.
  destruct v1 as [guarded pending]. by res_inv.
Qed.
Lemma reduce_step_consumed pt ep st e st' :
  reduce_step pt ep st e = Ok st' → consumed st' = consumed st + 1 ∧ sequence e = consumed st'.
Proof.
  intros (captured & Ha & (Hc & _ & _)%handle_frame)%reduce_step_inv. rewrite Hc. cbn.
  unfold admit_event in Ha. res_inv. by arith.
Qed.

(** The [u64] attributes of an event. *)
Definition typed_evidence (e : TrajectoryEvidence) : Prop :=
  map_Forall (λ _ v, in_u64 v) (structural e).

(** A step moves one request along its life, or closes the episode. *)
Lemma lifecycle_step_phase st e st' :
  lifecycle_step st e st' →
  (request_id e = None ∧ requests st' = requests st) ∨
  ∃ r new, request_id e = Some r ∧ requests st' = <[r := new]> (requests st) ∧
    ∀ tr, phase_trace (requests st !! r) tr → phase_trace (Some new) (tr ++ [event_kind e]).
Proof.
  unfold lifecycle_step. destruct (event_kind e); intros Hs;
    [right; destruct Hs as (r & ? & Hr & ? & _)|right; destruct Hs as (r & ? & Hr & ? & _)
    |right; destruct Hs as (r & ? & Hr & ? & _)|right; destruct Hs as (r & ? & ? & Hr & ? & _)
    |left; naive_solver];
    eexists r, _; (split_and!; [done|done|]); intros tr Htr;
    [rewrite Hr in Htr|rewrite Hr in Htr|destruct Hr as [Hr|Hr]; rewrite Hr in Htr
    |rewrite Hr in Htr]; inversion Htr; cbn; constructor.
Qed.

(** Every streak counter is at most the number of events consumed. *)
Definition streaks_within (n : Z) (k : Streaks) : Prop :=
  k_same_projection k ≤ n ∧ k_same_selected_tier k ≤ n ∧ k_consecutive_unprotected k ≤ n ∧
  k_recovery k ≤ n ∧ (∀ c, k_requests_since_recovery k = Some c → c ≤ n).
Lemma update_streak_bound prev cur streak field n v q :
  0 ≤ n → streak ≤ n → update_streak prev cur streak field = Ok (v, q) → v ≤ n + 1.
Proof.
  unfold update_streak, checked_increment. intros ? ? Hu. destruct cur as [cur|]; [|res_inv; lia].
  case_bool_decide; res_inv; arith.
Qed.
Lemma intent_streaks_bound pt k ev w k' n :
  0 ≤ n → streaks_within n k → intent_streaks pt k ev w = Ok k' → streaks_within (n + 1) k'.
Proof.
  unfold streaks_within, intent_streaks, checked_increment. intros Hn (H1 & H2 & H3 & H4 & H5) Hk. res_inv.
  destruct v as [same p']. res_inv. destruct v as [tier t']. res_inv. destruct v1 as [rc since].
  res_inv. cbn. split_and!.
  - by eapply update_streak_bound in Hv.
  - by eapply update_streak_bound in Hv0.
  - repeat case_match; res_inv; arith.
  - repeat case_match; res_inv; arith; simplify_eq; lia.
  - intros c ->. repeat case_match; res_inv; arith; simplify_eq; try lia.
    all: specialize (H5 _ eq_refl); lia.
Qed.
Lemma update_streak_total prev cur streak field :
  streak < u64_max → ∃ v q, update_streak prev cur streak field = Ok (v, q).
Proof.
  unfold update_streak, checked_increment, checked_add. intros Hs.
  destruct cur as [cur|]; [|by eexists _, _]. case_bool_decide; [|by eexists _, _].
  rewrite (proj2 (Z.leb_le _ _)) by lia. by eexists _, _.
Qed.
Lemma intent_streaks_total pt k ev w n b :
  streaks_within n k → n < u64_max →
  selected_is_protected pt ev (categorical ev !! "route.selected_tier") = Ok b →
  ∃ k', intent_streaks pt k ev w = Ok k'.
Proof.
  unfold streaks_within, intent_streaks. intros (H1 & H2 & H3 & H4 & H5) Hn Hb.
  assert (∀ v field, v ≤ n → checked_increment v field = Ok (v + 1)) as Hinc.
  { intros v field Hv. unfold checked_increment, checked_add.
    by rewrite (proj2 (Z.leb_le _ _)) by lia. }
  destruct (update_streak_total (previous_projection k) (categorical ev !! "route.projection")
    (k_same_projection k) "same projection streak") as (? & ? & ->); [lia|].
  destruct (update_streak_total (previous_selected_tier k) (categorical ev !! "route.selected_tier")
    (k_same_selected_tier k) "same selected tier streak") as (? & ? & ->); [lia|].
  cbn [mbind result_bind]. rewrite Hb. cbn [mbind result_bind].
  rewrite (Hinc (k_consecutive_unprotected k)), (Hinc (k_recovery k)) by done.
  destruct (k_requests_since_recovery k) as [since|];
    [rewrite (Hinc since) by by apply H5|];
    destruct (categorical ev !! "route.selected_tier"), b, (was_recovery (previous_projection k));
    case_bool_decide; cbn; by eexists.
Qed.
Lemma handle_streaks pt ep ts st e st' n :
  0 ≤ n → streaks_within n (streaks st) → handle pt ep ts st e = Ok st' →
  streaks_within (n + 1) (streaks st').
Proof.
  intros Hn Hk. assert (streaks_within (n + 1) (streaks st)) as Hk'.
  { destruct Hk as (? & ? & ? & ? & H5). split_and!; try lia. intros c Hc%H5. lia. }
  unfold handle. destruct (event_kind e);
    [unfold on_request_started|unfold on_route_intent|unfold on_request_settled
    |unfold on_guard_activated|unfold on_episode_closed]; intros Hs; res_inv; try done.
  destruct v1 as [guarded pending]. res_inv. cbn. by eapply intent_streaks_bound.
Qed.

Section fold.
Context (pt : gset string) (ep : Episode) (first : Z).
Let fold := try_fold (reduce_step pt ep) (Reducer_init first).

Lemma fold_consumed l st :
  fold l = Ok st → consumed st = Z.of_nat (length l).
Proof.
  revert st. unfold fold. intros st. revert st.
  intros st Hl. pattern l, st. eapply try_fold_ind; [| |exact Hl]; [done|].
  cbn beta. intros pre e s1 s2 _ _ IH [Hc _]%reduce_step_consumed.
  rewrite length_app. cbn. lia.
Qed.
Lemma fold_streaks l st : fold l = Ok st → streaks_within (Z.of_nat (length l)) (streaks st).
Proof.
  intros Hl. pattern l, st. eapply try_fold_ind; [| |exact Hl]; cbn beta; [by repeat split|].
  intros pre e s1 s2 _ _ IH (captured & _ & Hh)%reduce_step_inv.
  rewrite length_app. cbn [length]. rewrite Nat2Z.inj_add.
  eapply handle_streaks in Hh; [exact Hh|lia|done].
Qed.
Lemma fold_lifecycle l st :
  fold l = Ok st → ∀ r, phase_trace (requests st !! r) (trace r l).
Proof.
  intros Hl. pattern l, st. eapply try_fold_ind; [| |exact Hl]; cbn beta.
  - intros r. cbn. rewrite lookup_empty. constructor.
  - intros pre e s1 s2 _ _ IH Hs%reduce_step_lifecycle r. rewrite trace_snoc.
    apply lifecycle_step_phase in Hs as [[-> ->]|(r' & new & -> & -> & Hnew)];
      [by rewrite bool_decide_eq_false_2, app_nil_r|].
    destruct (decide (r' = r)) as [<-|Hne].
    + rewrite lookup_insert_eq, bool_decide_eq_true_2 by done. by apply Hnew.
    + by rewrite lookup_insert_ne, bool_decide_eq_false_2, app_nil_r by congruence.
Qed.
Lemma fold_counts l st :
  fold l = Ok st →
  r_request_count st = countb (is_kind RequestStarted) l ∧
  r_settled_count st = countb (is_kind RequestSettled) l.
Proof.
  intros Hl. pattern l, st. eapply try_fold_ind; [| |exact Hl]; cbn beta; [done|].
  intros pre e s1 s2 _ _ [IH1 IH2] Hs%reduce_step_lifecycle. rewrite !countb_snoc.
  unfold lifecycle_step in Hs. unfold is_kind at 2 4.
  destruct (event_kind e); naive_solver lia.
Qed.
End fold.
End reducer_lemmas.

Section reduction.
Context `{TrajectoryEnv}.
Implicit Types (events pre post : list TrajectoryEvent) (pt : gset string).

Lemma snapshot_from_facts_ok ep st through ts s :
  snapshot_from_facts ep st through ts = Ok s →
  health_from_facts ep st ts = Ok (health s) ∧ snapshot_episode_id s = e_episode ep ∧
  through_sequence s = through ∧ active_hold_remaining s = hold_remaining st ∧
  snapshot_semantic_digest s = Ok (evidence_digest s).
Proof. unfold snapshot_from_facts. intros Hs. res_inv. done. Qed.

Lemma run_ok events pt ep st :
  run events pt = Ok (ep, st) ↔
  episode_of events = Ok ep ∧
  try_fold (reduce_step pt ep) (Reducer_init (e_first_timestamp ep)) events = Ok st.
Proof.
  unfold run. split.
  - intros Hr. res_inv. naive_solver.
  - intros [-> Hf]. cbn [mbind result_bind]. by rewrite Hf.
Qed.
Lemma run_sequence events pt ep st final :
  run events pt = Ok (ep, st) → last events = Some final →
  sequence final = Z.of_nat (length events).
Proof.
  intros [_ Hf]%run_ok [pre ->]%last_Some. rewrite try_fold_snoc in Hf. res_inv.
  pose proof (fold_consumed _ _ _ _ _ Hv). apply reduce_step_consumed in Hf as [Hc ->].
  rewrite length_app. cbn. lia.
Qed.

(** A successful reduction: the final state, with no trigger left pending. *)
Lemma reduce_ok events pt s :
  reduce events pt = Ok s ↔
  ∃ ep st, run events pt = Ok (ep, st) ∧ pending_guard_activation st = None ∧
    snapshot_from_facts ep st (Z.of_nat (length events)) (last_timestamp st) = Ok s.
Proof.
  unfold reduce, reduce_prefix. split.
  - intros Hr. res_inv. destruct v0 as [ep st]. exists ep, st. split; [done|].
    case_bool_decide as Hp; [by res_inv|]. res_inv.
    split; [by apply eq_None_not_Some|]. by erewrite <-run_sequence.
  - intros (ep & st & Hr & Hp & Hs). rewrite Hr. cbn [mbind result_bind].
    rewrite bool_decide_eq_false_2 by (rewrite Hp; intros [? ?]; done).
    destruct (last events) as [final|] eqn:Hl.
    + erewrite <-run_sequence in Hs by done. cbn [ok_or mbind result_bind]. by rewrite Hs.
    + apply last_None in Hl as ->. apply run_ok in Hr as [? _]. done.
Qed.

Lemma episode_of_app pre post : pre ≠ [] → episode_of (pre ++ post) = episode_of pre.
Proof. by destruct pre. Qed.
(** A run of a history goes through the run of each of its prefixes. *)
Lemma run_split pre e post pt ep st :
  run (pre ++ e :: post) pt = Ok (ep, st) → pre ≠ [] →
  ∃ s1 s2, run pre pt = Ok (ep, s1) ∧ reduce_step pt ep s1 e = Ok s2 ∧
    try_fold (reduce_step pt ep) s2 post = Ok st.
Proof.
  intros [He Hf]%run_ok Hne. rewrite try_fold_app in Hf. res_inv. cbn [try_fold] in Hf. res_inv.
  exists v, v0. split_and!; [|done|done]. apply run_ok. by rewrite <-(episode_of_app pre (e :: post)).
Qed.
Lemma first_not_intent e post pt r :
  event_kind e ≠ RequestStarted → run (e :: post) pt ≠ Ok r.
Proof.
  unfold run, episode_of. cbn. intros Hk Hr. res_inv. by arith.
Qed.

(** C37: an accepted history gives each request a well-formed life: it starts once, records
    one route intent, is guarded at most once, and settles at most once, in that order. *)
Theorem request_lifecycle events pt s r :
  reduce events pt = Ok s → ∃ phase, phase_trace phase (trace r events).
Proof.
  intros (ep & st & [_ Hf]%run_ok & _)%reduce_ok. eexists. by apply (fold_lifecycle _ _ _ _ _ Hf).
Qed.

(** The snapshot counts the started and the settled requests of the history, names its
    length as the sequence it covers, and carries the digest of its own content. *)
Theorem snapshot_counts events pt s :
  reduce events pt = Ok s →
  request_count (health s) = countb (is_kind RequestStarted) events ∧
  settled_request_count (health s) = countb (is_kind RequestSettled) events ∧
  unsettled_request_count (health s) =
    countb (is_kind RequestStarted) events - countb (is_kind RequestSettled) events ∧
  countb (is_kind RequestSettled) events ≤ countb (is_kind RequestStarted) events ∧
  through_sequence s = Z.of_nat (length events) ∧
  snapshot_semantic_digest s = Ok (evidence_digest s).
Proof.
  intros (ep & st & [_ Hf]%run_ok & _ & Hs)%reduce_ok.
  destruct (fold_counts _ _ _ _ _ Hf) as [Hst Hse].
  apply snapshot_from_facts_ok in Hs as (Hh & _ & Ht & _ & Hd).
  unfold health_from_facts in Hh. res_inv. rewrite <-Hh. cbn. split_and!; try done; by arith.
Qed.

Lemma saturating_sub_step h c :
  0 ≤ c → saturating_sub (saturating_sub h c) 1 = saturating_sub h (c + 1).
Proof. unfold saturating_sub. lia. Qed.

(** After a guard activation the hold is the activation's length, less one for every
    request started since, never below zero. *)
Theorem hold_counts_down pre g post pt s :
  reduce (pre ++ g :: post) pt = Ok s → event_kind g = GuardActivated →
  typed_evidence (evidence g) →
  Forall (λ e, event_kind e ≠ GuardActivated) post →
  ∃ hold, structural (evidence g) !! "guard.hold_for_requests" = Some hold ∧
    hold ≠ 0 ∧ hold ≤ MAX_HOLD_REQUESTS ∧
    active_hold_remaining s = Z.max 0 (hold - countb (is_kind RequestStarted) post).
Proof.
  intros (ep & st & Hr & _ & Hs)%reduce_ok Hg Hty Hpost. destruct pre as [|e0 pre].
  { apply first_not_intent in Hr; [done|by rewrite Hg]. }
  apply run_split in Hr as (s1 & s2 & _ & Hstep & Hfold); [|done].
  apply reduce_step_lifecycle in Hstep. unfold lifecycle_step in Hstep. rewrite Hg in Hstep.
  destruct Hstep as (r & hold & _ & _ & _ & _ & _ & Hh & H0 & Hmax & Hs2).
  exists hold. split_and!; [done..|]. apply snapshot_from_facts_ok in Hs as (_ & _ & _ & -> & _).
  apply Hty in Hh as Hpos. unfold in_u64 in Hpos.
  change (Z.max 0 (hold - ?c)) with (saturating_sub hold c).
  pattern post, st. eapply try_fold_ind; [| |exact Hfold]; cbn beta.
  + rewrite Hs2. unfold saturating_sub, countb, sum_by. cbn. lia.
  + intros l e sa sb Hp _ IH Hl%reduce_step_lifecycle. rewrite countb_snoc.
    assert (event_kind e ≠ GuardActivated) as Hne.
    { rewrite Forall_forall in Hpost. apply Hpost. destruct Hp as [x ->]. set_solver. }
    pose proof (countb_nonneg (is_kind RequestStarted) l) as Hc.
    unfold lifecycle_step in Hl. unfold is_kind at 2. destruct (event_kind e); try done;
      cbn [of_bool bool_decide decide_rel]; rewrite ?bool_decide_eq_true_2, ?bool_decide_eq_false_2 by done; cbn [of_bool].
    * destruct Hl as (? & _ & _ & _ & _ & _ & ->). rewrite IH. by apply saturating_sub_step.
    * destruct Hl as (? & _ & _ & _ & _ & _ & ->). by rewrite IH, Z.add_0_r.
    * destruct Hl as (? & _ & _ & _ & _ & _ & ->). by rewrite IH, Z.add_0_r.
    * destruct Hl as (_ & _ & _ & _ & -> & _). by rewrite IH, Z.add_0_r.
Qed.

Lemma admit_pending ep st e captured r :
  admit_event ep st e = Ok captured → pending_guard_activation st = Some r →
  event_kind e = GuardActivated ∧ request_id e = Some r.
Proof.
  unfold admit_event. intros Ha Hp. rewrite Hp in Ha. res_inv. by arith.
Qed.
Lemma admit_not_activation ep st e captured :
  admit_event ep st e = Ok captured → event_kind e ≠ GuardActivated →
  pending_guard_activation st = None.
Proof.
  destruct (pending_guard_activation st) as [r|] eqn:Hp; [|done].
  intros Ha. by eapply admit_pending in Ha as [? _].
Qed.
Lemma admit_sequence ep st e captured :
  admit_event ep st e = Ok captured → sequence e = consumed st + 1.
Proof. unfold admit_event. intros Ha. res_inv. by arith. Qed.

(** A guarded intent that was accepted agrees with the snapshot of the facts before it. *)
Lemma guarded_intent_step pt ep ts st e st' cs :
  event_kind e = RouteIntentRecorded → validate_persisted_route_intent e = Ok (Some cs) →
  handle pt ep ts st e = Ok st' →
  ∃ r policy s, request_id e = Some r ∧
    snapshot_from_facts ep st (sequence e - 1) ts = Ok s ∧
    digests (evidence e) !! "route.policy_lock" = Some policy ∧
    digests (evidence e) !! "route.health_snapshot" = Some (evidence_digest s) ∧
    guarded_route_digests st' =
      <[r := (policy, evidence_digest s)]> (guarded_route_digests st) ∧
    pending_guard_activation st' =
      if existsb is_persisted_trigger cs then Some r else pending_guard_activation st.
Proof.
  intros Hk Hv. unfold handle. rewrite Hk. unfold on_route_intent, required_request_id.
  rewrite Hv. cbn [mbind result_bind]. intros Hs. res_inv. destruct v0 as [guarded pending].
  res_inv. cbn [pending_guard_activation guarded_route_digests].
  match goal with H : check_guarded_route _ _ _ _ _ _ = _ |- _ =>
    unfold check_guarded_route in H; res_inv end.
  simplify_eq. arith. eexists _, _, _. by split_and!.
Qed.

(** C30: the health digest of a guarded route intent is the digest of the snapshot that the
    reducer gives for the events before it, so the routing input can be audited. *)
Theorem guarded_intent_is_auditable pre e post pt s cs :
  reduce (pre ++ e :: post) pt = Ok s → event_kind e = RouteIntentRecorded →
  validate_persisted_route_intent e = Ok (Some cs) →
  ∃ s0, reduce pre pt = Ok s0 ∧
    digests (evidence e) !! "route.health_snapshot" = Some (evidence_digest s0).
Proof.
  intros (ep & st & Hr & _)%reduce_ok Hk Hcs. destruct pre as [|e0 pre].
  { apply first_not_intent in Hr; [done|by rewrite Hk]. }
  apply run_split in Hr as (s1 & s2 & Hpre & (captured & Ha & Hh)%reduce_step_inv & _); [|done].
  eapply guarded_intent_step in Hh as (r & policy & s0 & _ & Hs0 & _ & Hd & _); [|done..].
  exists s0. split; [|done]. apply reduce_ok. exists ep, s1. split_and!; [done| |].
  - eapply admit_not_activation; [done|by rewrite Hk].
  - apply admit_sequence in Ha. apply run_ok in Hpre as [_ Hf]. apply fold_consumed in Hf.
    by replace (Z.of_nat (length (e0 :: pre))) with (sequence e - 1) by lia.
Qed.

(** Typed or not, an activation that answers a pending trigger carries its digests. *)
Lemma activation_answers pt ep ts st e st' r policy health :
  event_kind e = GuardActivated → handle pt ep ts st e = Ok st' → request_id e = Some r →
  guarded_route_digests st !! r = Some (policy, health) →
  digests (evidence e) !! "guard.policy_lock" = Some policy ∧
  digests (evidence e) !! "guard.health_snapshot" = Some health.
Proof.
  intros Hk. unfold handle. rewrite Hk. unfold on_guard_activated, required_request_id.
  intros Hh Hr Hg. rewrite Hr in Hh. cbn [ok_or mbind result_bind] in Hh. res_inv.
  match goal with H : check_activation _ _ _ = _ |- _ => unfold check_activation in H; res_inv end.
  match goal with H : (if ?b then _ else _) = Ok _ |- _ => destruct b; res_inv end.
  - arith. rewrite Hg in *. res_inv. simplify_eq. done.
  - exfalso. match goal with H : negb (has_key _ _) = true |- _ =>
      apply negb_true_iff, has_key_false in H; congruence end.
Qed.

(** In an accepted history every guarded intent whose clauses newly trigger the guard is
    immediately followed by the activation for the same request, with the same policy and
    health digests. *)
Theorem trigger_is_activated pre e post pt s cs :
  reduce (pre ++ e :: post) pt = Ok s → event_kind e = RouteIntentRecorded →
  validate_persisted_route_intent e = Ok (Some cs) → existsb is_persisted_trigger cs = true →
  ∃ g post', post = g :: post' ∧ event_kind g = GuardActivated ∧ request_id g = request_id e ∧
    digests (evidence g) !! "guard.policy_lock" = digests (evidence e) !! "route.policy_lock" ∧
    digests (evidence g) !! "guard.health_snapshot" =
      digests (evidence e) !! "route.health_snapshot".
Proof.
  intros (ep & st & Hr & Hnone & _)%reduce_ok Hk Hcs Htrig. destruct pre as [|e0 pre].
  { apply first_not_intent in Hr; [done|by rewrite Hk]. }
  apply run_split in Hr as (s1 & s2 & _ & (captured & Ha & Hh)%reduce_step_inv & Hpost); [|done].
  eapply guarded_intent_step in Hh
    as (r & policy & s0 & Hr & _ & Hp & Hd & Hgr & Hpend); [|done..].
  rewrite Htrig in Hpend. destruct post as [|g post'].
  { cbn in Hpost. injection Hpost as ->. congruence. }
  cbn [try_fold] in Hpost. res_inv. apply reduce_step_inv in Hv as (captured' & Ha' & Hh').
  destruct (admit_pending _ _ _ _ _ Ha' Hpend) as [Hgk Hgr'].
  assert (digests (evidence g) !! "guard.policy_lock" = Some policy ∧
    digests (evidence g) !! "guard.health_snapshot" = Some (evidence_digest s0)) as [Hgp Hgh].
  { eapply activation_answers; [done|exact Hh'|done|]. cbn. rewrite Hgr. apply lookup_insert_eq. }
  exists g, post'. by rewrite Hr, Hp, Hd.
Qed.
End reduction.
