(* ===== verification/GuardedRoute.v ===== *)
(** The writer of guarded routes: the route intent and guard activation that
    [build_guarded_route_batch] derives from a history, and the check of the extended history
    before it is stored ([apps/bitrouter/src/trajectory/store.rs]). The theorems tie the
    writer to the validators of [ProgressGuard] and to the reducer of [TrajectoryReducer]. *)
From stdpp Require Import base list strings gmap pretty sorting.
From Stdlib Require Import ZArith Lia Ascii.
From S2P Require Import Prelude RouteIr EvalMeasurement TrajectoryTypes ProgressGuard TrajectoryReducer.
Open Scope string_scope.
Open Scope Z_scope.

Record GuardedRouteInput := {
  route_event_id : string; guard_event_id : string; policy_name : string;
  route_projection : string; request_key : string; baseline_tier : option string;
  baseline_effort : option ReasoningEffort; tier_efforts : gmap string ReasoningEffort;
  preset : option string; projection : RouteProjection; gi_candidate_tier : option string;
  gi_policy_digest : string; gi_experiment : option EvalExperimentRef;
  gi_route_measurement : option RouteDecisionMeasurement; policy : ProgressGuardPolicy;
  carries_tools : bool; tool_use_tier : option string; tool_safe_tiers : gset string;
}.
Record GuardedRouteResult := {
  snapshot : TrajectorySnapshot; result_intent : RouteIntent; guard_activated : bool;
  tool_floor_applied : bool; route_sequence : Z; result_completeness : HistoryCompleteness;
}.
Record GuardedRouteBatch := {
  route_event : TrajectoryEvent; guard_event : option TrajectoryEvent; batch_result : GuardedRouteResult;
}.

(** A sequence of [BTreeMap::insert]s. *)
Definition insert_all {A} (entries : list (string * A)) (m : gmap string A) : gmap string A :=
  foldl (λ m kv, <[kv.1 := kv.2]> m) m entries.
Definition optional_entry {A} (key : string) (value : option A) (text : A → string)
    : list (string * string) :=
  match value with Some v => [(key, text v)] | None => [] end.

(** ** The tool floor *)

Definition tier_in (tiers : gset string) (tier : option string) : bool :=
  match tier with Some t => bool_decide (t ∈ tiers) | None => false end.
Definition tool_floor_applies (i : GuardedRouteInput) (before : option string) : bool :=
  carries_tools i &&
  match before with
  | Some tier => negb (bool_decide (tier ∈ tool_safe_tiers i)) &&
      match tool_use_tier i with Some floor => negb (bool_decide (floor = tier)) | None => false end
  | None => false
  end.
(** The tier after the floor and the explanation of its clause. *)
Definition apply_tool_floor (i : GuardedRouteInput) (before : option string)
    : result string (option string * string) :=
  if tool_floor_applies i before then
    floor ← ok_or (tool_use_tier i) "tool floor disappeared during guard evaluation";
    _ ← ensure (bool_decide (floor ∈ protected_tiers (policy i)))
          "tool safety floor must remain a protected progress-guard tier";
    Ok (Some floor, "tool-carrying request requires the configured protected tool floor")
  else if negb (carries_tools i) then Ok (before, "request carries no tools")
  else if tier_in (tool_safe_tiers i) before then Ok (before, "selected tier is already tool-safe")
  else Ok (before, "no distinct tool safety floor is configured").

Definition with_tool_floor (i : GuardedRouteInput) (intent : RouteIntent) : result string RouteIntent :=
  '(selected, why) ← apply_tool_floor i (selected_tier intent);
  Ok {| intent_candidate_tier := intent_candidate_tier intent; selected_tier := selected;
        clauses := (clauses intent ++ [{|
          clause_id := "tool_safety.floor";
          disposition := if tool_floor_applies i (selected_tier intent) then Applied else Skipped;
          explanation := why |}])%list;
        trajectory_snapshot_digest := trajectory_snapshot_digest intent;
        intent_policy_digest := intent_policy_digest intent; experiment := gi_experiment i |}.

(** ** The events *)

Definition disposition_text (d : RouteIntentClauseDisposition) : string :=
  match d with Applied => "applied" | Skipped => "skipped" end.
Fixpoint clause_entries (index : nat) (cs : list RouteIntentClause) : list (string * string) :=
  match cs with
  | [] => []
  | c :: cs => (clause_key index "id", clause_id c)
      :: (clause_key index "disposition", disposition_text (disposition c))
      :: clause_entries (S index) cs
  end.
Definition arm_text (a : ExperimentArm) : string :=
  match a with Control => "control" | Challenger => "challenger" end.
Definition assignment_unit_text (u : ExperimentAssignmentUnit) : string :=
  match u with Task => "task" | Episode => "episode" end.
Definition experiment_entries (e : option EvalExperimentRef) : list (string * string) :=
  match e with
  | Some e => [("route.experiment_id", experiment_id e); ("route.experiment_arm", arm_text (arm e));
               ("route.experiment_assignment_unit", assignment_unit_text (assignment_unit e))]
  | None => []
  end.
Definition intent_entries (i : GuardedRouteInput) (intent : RouteIntent) : list (string * string) :=
  ([("route.projection", RouteProjection_key (projection i));
    ("route.workflow_state", enum_key (state_kind (projection i)));
    ("route.policy", policy_name i); ("route.route_projection", route_projection i);
    ("route.request_key", request_key i); ("route.eval_schema", "trajectory.v1")]
   ++ optional_entry "route.baseline_tier" (baseline_tier i) id
   ++ optional_entry "route.baseline_effort" (baseline_effort i) ReasoningEffort_as_str
   ++ optional_entry "route.preset" (preset i) id
   ++ optional_entry "route.candidate_tier" (intent_candidate_tier intent) id
   ++ optional_entry "route.selected_tier" (selected_tier intent) id
   ++ optional_entry "route.selected_effort"
        (tier ← selected_tier intent; tier_efforts i !! tier) ReasoningEffort_as_str
   ++ experiment_entries (experiment intent))%list.
Definition route_categorical (i : GuardedRouteInput) (intent : RouteIntent) : gmap string string :=
  insert_all (clause_entries 0 (clauses intent)) (insert_all (intent_entries i intent) ∅).

Definition route_structural (i : GuardedRouteInput) (intent : RouteIntent) : gmap string Z :=
  insert_all
    ([("route.applied_clause_count", countb is_applied (clauses intent));
      ("route.selected_is_protected",
        of_bool (tier_in (protected_tiers (policy i)) (selected_tier intent)))]
     ++ match experiment intent with
        | Some e => [("route.experiment_challenger_propensity_ppm", challenger_propensity_ppm e)]
        | None => [] end)%list ∅.
Definition route_digests (intent : RouteIntent) : gmap string string :=
  insert_all
    ([("route.health_snapshot", trajectory_snapshot_digest intent);
      ("route.policy_lock", intent_policy_digest intent)]
     ++ match experiment intent with
        | Some e => [("route.experiment_assignment_id", assignment_id_digest e)]
        | None => [] end)%list ∅.

Section writer.
Context `{TrajectoryEnv}.

(** An event of the request that [start] started, with its own digest. *)
Definition sealed_event (start : TrajectoryEvent) (id : string) (seq : Z)
    (k : TrajectoryEventKind) (ev : TrajectoryEvidence) : result string TrajectoryEvent :=
  let unsealed := {|
    TrajectoryTypes.schema_version := TRAJECTORY_SCHEMA_VERSION; event_id := id;
    owner_user_id := owner_user_id start; episode_id := episode_id start;
    request_id := request_id start; sequence := seq; event_kind := k; evidence := ev;
    captured_at := captured_at start; content_digest := "" |} in
  d ← event_semantic_digest unsealed;
  Ok (with_content_digest unsealed d).

Definition build_route_event (i : GuardedRouteInput) (start : TrajectoryEvent)
    (intent : RouteIntent) (seq : Z) : result string TrajectoryEvent :=
  sealed_event start (route_event_id i) seq RouteIntentRecorded {|
    structural := route_structural i intent; categorical := route_categorical i intent;
    digests := route_digests intent; route_measurement := gi_route_measurement i;
    routing_evidence := [] |}.

Definition build_guard_event (i : GuardedRouteInput) (start : TrajectoryEvent)
    (intent : RouteIntent) (route_seq : Z) : result string TrajectoryEvent :=
  seq ← ok_or (route_seq +? 1) "guard activation sequence overflow";
  sealed_event start (guard_event_id i) seq GuardActivated {|
    structural := insert_all [("guard.hold_for_requests", hold_for_requests (policy i))] ∅;
    categorical := ∅;
    digests := insert_all [("guard.health_snapshot", trajectory_snapshot_digest intent);
                           ("guard.policy_lock", intent_policy_digest intent)] ∅;
    route_measurement := None; routing_evidence := [] |}.

Definition guard_input (i : GuardedRouteInput) (prior : option TrajectorySnapshot)
    (pre_intent : TrajectorySnapshot) (completeness : HistoryCompleteness) : ProgressGuardInput := {|
  prior_snapshot := prior; pre_intent_snapshot := pre_intent;
  correlation_completeness := completeness; current_projection := projection i;
  candidate_tier := gi_candidate_tier i; policy_digest := gi_policy_digest i |}.

Definition build_guarded_route_batch (prior_events : list TrajectoryEvent)
    (start : TrajectoryEvent) (completeness : HistoryCompleteness) (i : GuardedRouteInput)
    : result string GuardedRouteBatch :=
  let pt := protected_tiers (policy i) in
  prior ← match prior_events with
          | [] => Ok None
          | _ :: _ => s ← reduce prior_events pt; Ok (Some s)
          end;
  _ ← ok_or (Z.of_nat (length prior_events) +? 1) "guard snapshot history capacity overflow";
  pre_intent ← reduce (prior_events ++ [start]) pt;
  evaluation ← evaluate (policy i) (guard_input i prior pre_intent completeness);
  let before := selected_tier (intent evaluation) in
  final ← with_tool_floor i (intent evaluation);
  seq ← ok_or (sequence start +? 1) "route intent sequence overflow";
  route ← build_route_event i start final seq;
  guard ← (if activated evaluation
           then g ← build_guard_event i start final seq; Ok (Some g)
           else Ok None);
  Ok {| route_event := route; guard_event := guard;
        batch_result := {|
          snapshot := pre_intent; result_intent := final;
          guard_activated := activated evaluation;
          tool_floor_applied := tool_floor_applies i before; route_sequence := seq;
          result_completeness := causal_completeness evaluation |} |}.

(** The extended history, and its check in [append_guarded_route_in_tx] before the events
    are written to the database. *)
Definition batch_history (prior_events : list TrajectoryEvent) (start : TrajectoryEvent)
    (b : GuardedRouteBatch) : list TrajectoryEvent :=
  (prior_events ++ start :: route_event b :: option_list (guard_event b))%list.
Definition admit_guarded_route (prior_events : list TrajectoryEvent) (start : TrajectoryEvent)
    (completeness : HistoryCompleteness) (i : GuardedRouteInput) : result string GuardedRouteResult :=
  batch ← build_guarded_route_batch prior_events start completeness i;
  _ ← ok_or (Z.of_nat (length prior_events) +? 3) "guarded route history capacity overflow";
  _ ← reduce (batch_history prior_events start batch) (protected_tiers (policy i));
  _ ← validate_event (route_event batch);
  _ ← for_each validate_event (option_list (guard_event batch));
  Ok (batch_result batch).
End writer.

(** ** Theorems *)

Section insert_all_lemmas.
Context {A : Type}.
Implicit Types (l : list (string * A)) (m : gmap string A).

Lemma insert_all_ne l m k : k ∉ l.*1 → insert_all l m !! k = m !! k.
Proof.
  unfold insert_all. revert m. induction l as [|[k' v] l IH]; intros m; cbn; [done|].
  intros Hk. rewrite IH by set_solver. rewrite lookup_insert_ne; set_solver.
Qed.
Lemma insert_all_in l m k v : NoDup l.*1 → (k, v) ∈ l → insert_all l m !! k = Some v.
Proof.
  revert m. induction l as [|[k' v'] l IH]; intros m; cbn; [set_solver|].
  rewrite NoDup_cons, elem_of_cons. intros [Hn Hd] [[= -> ->]|Hin].
  - change (insert_all l (<[k' := v']> m) !! k' = Some v').
    rewrite insert_all_ne by done. apply lookup_insert_eq.
  - by apply (IH (<[k' := v']> m)).
Qed.
Lemma insert_all_dom l m k : k ∈ dom (insert_all l m) ↔ k ∈ l.*1 ∨ k ∈ dom m.
Proof.
  unfold insert_all. revert m. induction l as [|[k' v] l IH]; intros m; cbn; [set_solver|].
  rewrite IH, dom_insert. set_solver.
Qed.
End insert_all_lemmas.
(** The value of a literal key of a literal sequence of insertions. *)
Ltac solve_entry :=
  apply insert_all_in; [apply (bool_decide_unpack _); vm_compute; reflexivity | set_solver].

Section writer_lemmas.
Context `{TrajectoryEnv}.
Implicit Types (i : GuardedRouteInput) (cs : list RouteIntentClause) (x : RouteIntent).

Definition entry_keys (index n : nat) : list string :=
  flat_map (λ k, [clause_key k "id"; clause_key k "disposition"]) (seq index n).
Lemma clause_entries_keys index cs : (clause_entries index cs).*1 = entry_keys index (length cs).
Proof. revert index. induction cs as [|c cs IH]; intros index; cbn; [done|]. by rewrite IH. Qed.

Lemma persisted_clauses_written e index cs :
  (∀ k v, (k, v) ∈ clause_entries index cs → categorical e !! k = Some v) →
  persisted_clauses e index (map clause_id cs) = Ok (map (λ c, (clause_id c, disposition c)) cs).
Proof.
  revert index. induction cs as [|c cs IH]; intros index Hl; [done|].
  cbn [clause_entries persisted_clauses map] in *. unfold persisted_clause.
  rewrite (Hl (clause_key index "id") (clause_id c)) by set_solver.
  rewrite (Hl (clause_key index "disposition") (disposition_text (disposition c))) by set_solver.
  rewrite bool_decide_eq_true_2 by done. cbn [ensure mbind result_bind].
  rewrite IH by set_solver. by destruct c as [id [] why].
Qed.

(** The intent that the writer persists: nine clauses under their stable ids. *)
Definition stable_intent (x : RouteIntent) : Prop := map clause_id (clauses x) = STABLE_CLAUSE_IDS.

Lemma stable_keys_nodup : NoDup (entry_keys 0 9).
Proof. apply (bool_decide_unpack _). vm_compute. reflexivity. Qed.
Lemma stable_keys_canonical : forallb is_canonical_clause_key (entry_keys 0 9) = true.
Proof. vm_compute. reflexivity. Qed.
Lemma stable_keys_marked : forallb (starts_with "route.clause_") (entry_keys 0 9) = true.
Proof. vm_compute. reflexivity. Qed.
Lemma stable_intent_keys x :
  stable_intent x → (clause_entries 0 (clauses x)).*1 = entry_keys 0 9.
Proof.
  intros Hx. rewrite clause_entries_keys. f_equal.
  by rewrite <-(length_map clause_id), Hx.
Qed.

(** The other categorical attributes: a bounded set of keys, none of them a clause key. *)
Definition intent_keys : list string := [
  "route.projection"; "route.workflow_state"; "route.policy"; "route.route_projection";
  "route.request_key"; "route.eval_schema"; "route.baseline_tier"; "route.baseline_effort";
  "route.preset"; "route.candidate_tier"; "route.selected_tier"; "route.selected_effort";
  "route.experiment_id"; "route.experiment_arm"; "route.experiment_assignment_unit"].
Lemma intent_keys_not_clauses k : k ∈ intent_keys → starts_with "route.clause_" k = false.
Proof.
  intros Hk. assert (forallb (λ k, negb (starts_with "route.clause_" k)) intent_keys = true) as Hf
    by (vm_compute; reflexivity).
  rewrite List.forallb_forall in Hf. apply negb_true_iff, Hf. by apply list_elem_of_In.
Qed.
Lemma intent_entries_sublist i x : (intent_entries i x).*1 `sublist_of` intent_keys.
Proof.
  unfold intent_entries, intent_keys, optional_entry, experiment_entries.
  destruct (baseline_tier i), (baseline_effort i), (preset i), (intent_candidate_tier x),
    (selected_tier x) as [t|]; cbn; try destruct (tier_efforts i !! t);
    destruct (experiment x); cbn; repeat constructor.
Qed.
Lemma intent_entries_nodup i x : NoDup (intent_entries i x).*1.
Proof.
  eapply sublist_NoDup; [|apply intent_entries_sublist].
  apply (bool_decide_unpack _). vm_compute. reflexivity.
Qed.
Lemma intent_entry_key i x k : k ∈ (intent_entries i x).*1 → starts_with "route.clause_" k = false.
Proof.
  intros Hk. apply intent_keys_not_clauses. eapply elem_of_sublist; [done|].
  apply intent_entries_sublist.
Qed.
Lemma stable_key_marked k : k ∈ entry_keys 0 9 → starts_with "route.clause_" k = true.
Proof.
  intros Hk. pose proof stable_keys_marked as Hm. rewrite List.forallb_forall in Hm.
  by apply Hm, list_elem_of_In.
Qed.
(** Any other key has the value of its own entry, clause keys that of the clause. *)
Lemma route_categorical_entry i x k :
  stable_intent x → starts_with "route.clause_" k = false →
  route_categorical i x !! k = insert_all (intent_entries i x) ∅ !! k.
Proof.
  intros Hx Hk. unfold route_categorical. rewrite insert_all_ne; [done|].
  rewrite stable_intent_keys by done. intros Hin%stable_key_marked. congruence.
Qed.
Lemma route_categorical_clause i x k v :
  stable_intent x → (k, v) ∈ clause_entries 0 (clauses x) → route_categorical i x !! k = Some v.
Proof.
  intros Hx. apply insert_all_in. rewrite stable_intent_keys by done. apply stable_keys_nodup.
Qed.
Lemma route_clause_keys i x :
  stable_intent x → clause_keys (route_categorical i x) ≡ₚ entry_keys 0 9.
Proof.
  intros Hx. apply NoDup_Permutation; [|apply stable_keys_nodup|].
  - unfold clause_keys. apply NoDup_ListNoDup, List.NoDup_filter, NoDup_ListNoDup.
    unfold sorted_keys, sorted_entries. rewrite sort_by_key_perm. apply NoDup_fst_map_to_list.
  - intros k. unfold clause_keys, route_categorical. rewrite filter_elem, elem_of_sorted_keys, !insert_all_dom,
      dom_empty, stable_intent_keys by done. split.
    + intros [[?|[Hk|?]] Hm]; [done| |set_solver]. apply intent_entry_key in Hk. congruence.
    + intros Hk. split; [by left|by apply stable_key_marked].
Qed.

Lemma length_sorted_canonical i x ev :
  stable_intent x → categorical ev = route_categorical i x → clause_fields_canonical ev = true.
Proof.
  intros Hx Hev. unfold clause_fields_canonical. rewrite Hev.
  pose proof (route_clause_keys i x Hx) as Hp. rewrite (Permutation_length Hp).
  apply andb_true_iff. split; [by vm_compute|]. apply List.forallb_forall. intros k Hk.
  pose proof stable_keys_canonical as Hc. rewrite List.forallb_forall in Hc. apply Hc.
  apply list_elem_of_In. rewrite <-Hp. by apply list_elem_of_In.
Qed.

Lemma countb_map {B C} (g : B → C) (f : C → bool) (l : list B) :
  countb f (map g l) = countb (λ b, f (g b)) l.
Proof. induction l as [|b l IH]; [done|]. cbn [map]. by rewrite !countb_cons, IH. Qed.

(** The attributes of a route event under closed keys. *)
Lemma route_policy_lock x : route_digests x !! "route.policy_lock" = Some (intent_policy_digest x).
Proof. unfold route_digests. destruct (experiment x); solve_entry. Qed.
Lemma route_health_snapshot x :
  route_digests x !! "route.health_snapshot" = Some (trajectory_snapshot_digest x).
Proof. unfold route_digests. destruct (experiment x); solve_entry. Qed.
Lemma route_applied_clause_count i x :
  route_structural i x !! "route.applied_clause_count" = Some (countb is_applied (clauses x)).
Proof. unfold route_structural. destruct (experiment x); solve_entry. Qed.
Lemma route_selected_protected i x :
  route_structural i x !! "route.selected_is_protected" =
  Some (of_bool (tier_in (protected_tiers (policy i)) (selected_tier x))).
Proof. unfold route_structural. destruct (experiment x); solve_entry. Qed.

(** What the writer puts into a route event is read back clause by clause. *)
Lemma route_evidence_valid i x e :
  stable_intent x → event_kind e = RouteIntentRecorded →
  structural (evidence e) = route_structural i x → categorical (evidence e) = route_categorical i x →
  digests (evidence e) = route_digests x →
  validate_persisted_route_intent e =
    Ok (Some (map (λ c, (clause_id c, disposition c)) (clauses x))).
Proof.
  intros Hx Hk Hs Hc Hd. unfold validate_persisted_route_intent, has_guarded_marker, has_key.
  rewrite Hk, (bool_decide_eq_true_2 (RouteIntentRecorded = _)), Hd, Hs by done. cbn [ensure mbind result_bind].
  rewrite route_policy_lock, route_health_snapshot.
  rewrite !(bool_decide_eq_true_2 (is_Some (Some _))) by by eexists. cbn [orb negb andb ensure mbind result_bind].
  rewrite route_applied_clause_count, route_selected_protected.
  cbn [ok_or mbind result_bind].
  assert (∀ b, ((of_bool b =? 0) || (of_bool b =? 1) = true)) as -> by by intros [].
  cbn [ensure mbind result_bind]. rewrite <-Hx, persisted_clauses_written; cycle 1.
  { rewrite Hc. intros k v. by apply route_categorical_clause. }
  cbn [mbind result_bind]. rewrite (length_sorted_canonical i x), countb_map by done. cbn [snd ensure mbind result_bind].
  match goal with |- context [?a =? ?b] => change a with b end. by rewrite Z.eqb_refl.
Qed.

(** ** One batch *)

Lemma evaluated_ids p gi g : evaluate p gi = Ok g → map clause_id (clauses (intent g)) = GUARD_CLAUSE_IDS.
Proof. intros (_ & -> & _)%evaluate_inv. apply suppressed_flags. Qed.
Lemma with_tool_floor_inv i x y :
  with_tool_floor i x = Ok y →
  ∃ why c, apply_tool_floor i (selected_tier x) = Ok (selected_tier y, why) ∧
    clauses y = (clauses x ++ [c])%list ∧ clause_id c = "tool_safety.floor" ∧
    trajectory_snapshot_digest y = trajectory_snapshot_digest x ∧
    intent_policy_digest y = intent_policy_digest x.
Proof.
  unfold with_tool_floor. intros Hy. res_inv. destruct v as [sel why]. res_inv.
  by eexists _, _.
Qed.
Lemma sealed_event_inv start id seq k ev e :
  sealed_event start id seq k ev = Ok e →
  event_kind e = k ∧ evidence e = ev ∧ sequence e = seq ∧ request_id e = request_id start ∧
  owner_user_id e = owner_user_id start ∧ episode_id e = episode_id start ∧
  captured_at e = captured_at start.
Proof. unfold sealed_event. intros He. res_inv. by subst. Qed.

(** The parts of a batch that was built. *)
Record batch_facts (prior : list TrajectoryEvent) (start : TrajectoryEvent)
    (i : GuardedRouteInput) (b : GuardedRouteBatch) (g : GuardEvaluation)
    (gi : ProgressGuardInput) : Prop := {
  bf_pre : reduce (prior ++ [start]) (protected_tiers (policy i)) = Ok (snapshot (batch_result b));
  bf_eval : evaluate (policy i) gi = Ok g;
  bf_gi : pre_intent_snapshot gi = snapshot (batch_result b) ∧ candidate_tier gi = gi_candidate_tier i;
  bf_floor : with_tool_floor i (intent g) = Ok (result_intent (batch_result b));
  bf_seq : sequence start + 1 ≤ u64_max;
  bf_route : build_route_event i start (result_intent (batch_result b)) (sequence start + 1)
             = Ok (route_event b);
  bf_activated : guard_activated (batch_result b) = activated g;
  bf_guard :
    if activated g then
      ∃ e, guard_event b = Some e ∧
        build_guard_event i start (result_intent (batch_result b)) (sequence start + 1) = Ok e
    else guard_event b = None;
}.
Lemma build_inv prior start completeness i b :
  build_guarded_route_batch prior start completeness i = Ok b →
  ∃ g gi, batch_facts prior start i b g gi.
Proof.
  unfold build_guarded_route_batch. intros Hb. res_inv.
  match goal with H : evaluate _ (guard_input ?a ?b ?c ?d) = Ok ?g |- _ =>
    exists g, (guard_input a b c d) end.
  arith. constructor; cbn; try done. destruct (activated _); res_inv; [by eexists|done].
Qed.

Lemma batch_stable prior start i b g gi :
  batch_facts prior start i b g gi → stable_intent (result_intent (batch_result b)).
Proof.
  intros [_ He%evaluated_ids _ (why & c & _ & Hc & Hid & _)%with_tool_floor_inv _ _ _ _].
  unfold stable_intent. by rewrite Hc, map_app, He; cbn; rewrite Hid.
Qed.

(** The route event that the writer builds is accepted by the validator of persisted
    intents, which reads back every clause with its disposition. *)
Theorem written_intent_roundtrip prior start completeness i b :
  build_guarded_route_batch prior start completeness i = Ok b →
  validate_persisted_route_intent (route_event b) =
    Ok (Some (map (λ c, (clause_id c, disposition c)) (clauses (result_intent (batch_result b))))).
Proof.
  intros (g & gi & Hf)%build_inv. pose proof (batch_stable _ _ _ _ _ _ Hf) as Hst.
  pose proof (bf_route _ _ _ _ _ _ Hf) as (Hk & Hev & _)%sealed_event_inv.
  apply (route_evidence_valid i); [done|done|by rewrite Hev..].
Qed.

Lemma apply_tool_floor_inv i before after why :
  apply_tool_floor i before = Ok (after, why) →
  if tool_floor_applies i before
  then after = tool_use_tier i ∧ is_protected (policy i) after = true
  else after = before.
Proof.
  unfold apply_tool_floor. destruct (tool_floor_applies i before).
  - intros Ha. res_inv. by split.
  - repeat case_match; intros Ha; by res_inv.
Qed.

(** A routed batch keeps both floors. A tier that the guard forced, or one that the tool
    floor replaced, is protected; a request that carries tools runs on a tool-safe tier or on
    the configured floor; and with neither in play the candidate is kept. *)
Theorem routed_tier_respects_floors prior start completeness i b :
  build_guarded_route_batch prior start completeness i = Ok b →
  let r := batch_result b in
  let selected := selected_tier (result_intent r) in
  (existsb is_applied (clauses (result_intent r)) = true → is_protected (policy i) selected = true) ∧
  (existsb is_applied (clauses (result_intent r)) = false → selected = gi_candidate_tier i) ∧
  (∀ tier floor, carries_tools i = true → tool_use_tier i = Some floor → selected = Some tier →
     tier ∈ tool_safe_tiers i ∨ tier = floor).
Proof.
  intros (g & gi & [_ He [_ Hcand] Hfl _ _ _ _])%build_inv. cbn zeta.
  apply evaluate_inv in He as (Hp & Hcs & _ & Hsel & _). rewrite <-Hcs in Hsel.
  unfold with_tool_floor in Hfl. res_inv. destruct v as [sel why]. res_inv.
  rewrite <-Hfl. cbn [clauses selected_tier]. rewrite existsb_app. cbn [existsb].
  unfold is_applied at 2 4. cbn [disposition]. apply apply_tool_floor_inv in Hv.
  unfold select_tier in Hsel. rewrite Hcand in Hsel.
  destruct (tool_floor_applies i (selected_tier (intent g))) eqn:Ht.
  - destruct Hv as [-> Hpr]. rewrite bool_decide_eq_true_2 by done. cbn [orb].
    rewrite orb_true_r. split_and!; [done|done|]. intros tier floor _ -> [= ->]. by right.
  - subst sel. rewrite bool_decide_eq_false_2, !orb_false_r by done. split_and!.
    + intros Ha. rewrite Hsel, Ha. pose proof (select_tier_protected (policy i) gi Hp) as Hpr.
      unfold select_tier in Hpr. by rewrite Hcand in Hpr.
    + intros Ha. by rewrite Hsel, Ha.
    + intros tier floor Hc Hfloor Hs. unfold tool_floor_applies in Ht.
      rewrite Hc, Hs, Hfloor in Ht. cbn [andb] in Ht.
      apply andb_false_iff in Ht as [Ht|Ht]; apply negb_false_iff, bool_decide_eq_true in Ht; auto.
Qed.

(** ** Appending the batch to its history *)

(** The conditions under which the reducer takes one more event. *)
Record admissible (ep : TrajectoryReducer.Episode) (st : Reducer) (e : TrajectoryEvent) : Prop := {
  ad_valid : validate_event e = Ok tt;
  ad_sequence : sequence e = consumed st + 1 ∧ sequence e ≤ u64_max;
  ad_owner : owner_user_id e = e_owner ep ∧ episode_id e = e_episode ep;
  ad_open : closed st = false;
  ad_time : parse_from_rfc3339 (captured_at e) = Some (last_timestamp st);
  ad_pending : ∀ r, pending_guard_activation st = Some r →
    event_kind e = GuardActivated ∧ request_id e = Some r;
}.
Lemma admissible_admitted ep st e : admissible ep st e → admit_event ep st e = Ok (last_timestamp st).
Proof.
  intros [Hv [Hs Hmax] [Ho He] Hc Ht Hp]. unfold admit_event. rewrite Hv. cbn [mbind result_bind].
  unfold checked_add. rewrite (proj2 (Z.leb_le _ _)) by lia. cbn [ok_or mbind result_bind].
  rewrite Hs, Z.eqb_refl, Ho, He, (bool_decide_eq_true_2 (e_owner ep = _)),
    (bool_decide_eq_true_2 (e_episode ep = _)), Hc, Ht by done.
  cbn [negb orb ensure ok_or mbind result_bind]. rewrite Z.ltb_irrefl. cbn [negb ensure mbind result_bind].
  destruct (pending_guard_activation st) as [r|]; [|done].
  destruct (Hp r eq_refl) as [-> ->]. by rewrite !bool_decide_eq_true_2 by done.
Qed.

(** The reducer right after the start of a request. *)
Record just_started (ep : TrajectoryReducer.Episode) (st : Reducer) (start : TrajectoryEvent)
    (r : string) : Prop := {
  js_request : request_id start = Some r;
  js_phase : requests st !! r = Some Started;
  js_open : closed st = false;
  js_owner : owner_user_id start = e_owner ep ∧ episode_id start = e_episode ep;
  js_time : parse_from_rfc3339 (captured_at start) = Some (last_timestamp st);
  js_sequence : consumed st = sequence start ∧ 0 ≤ sequence start;
  js_streaks : streaks_within (sequence start) (streaks st);
}.
Lemma run_just_started prior start pt ep st :
  run (prior ++ [start]) pt = Ok (ep, st) → event_kind start = RequestStarted →
  ∃ r, just_started ep st start r.
Proof.
  intros Hr Hk. pose proof Hr as [_ Hf]%run_ok. pose proof (fold_streaks _ _ _ _ _ Hf) as Hstr.
  pose proof (run_sequence _ _ _ _ start Hr (last_snoc _ _)) as Hseq.
  pose proof (fold_consumed _ _ _ _ _ Hf) as Hcons.
  rewrite try_fold_snoc in Hf. res_inv.
  pose proof (reduce_step_lifecycle _ _ _ _ _ Hf) as Hl. unfold lifecycle_step in Hl. rewrite Hk in Hl.
  destruct Hl as (r & Hreq & _ & Hph & _). apply reduce_step_inv in Hf as (ts & Ha & Hh).
  apply handle_frame in Hh as (_ & Hts & Hcl). cbn in Hts, Hcl.
  unfold admit_event in Ha. res_inv. exists r. constructor.
  - done.
  - rewrite Hph. apply lookup_insert_eq.
  - rewrite Hcl by by rewrite Hk. by arith.
  - by arith.
  - congruence.
  - lia.
  - by rewrite Hseq.
Qed.

(** The reducer's trigger clauses of a persisted batch are the evaluation's activation. *)
Lemma persisted_trigger_iff i p gi g x :
  evaluate p gi = Ok g → with_tool_floor i (intent g) = Ok x →
  existsb is_persisted_trigger (map (λ c, (clause_id c, disposition c)) (clauses x)) = activated g.
Proof.
  intros He (why & c & _ & -> & Hid & _)%with_tool_floor_inv.
  pose proof (evaluated_ids _ _ _ He) as Hids.
  rewrite map_app, existsb_app. cbn [map existsb]. rewrite Hid.
  replace (is_persisted_trigger ("tool_safety.floor", disposition c)) with false; cycle 1.
  { unfold is_persisted_trigger. cbn [fst snd].
    replace (starts_with "progress_guard." "tool_safety.floor") with false by (vm_compute; reflexivity).
    by rewrite andb_false_r. }
  rewrite !orb_false_r.
  assert (existsb is_persisted_trigger (map (λ c, (clause_id c, disposition c)) (clauses (intent g)))
    = existsb is_trigger (clauses (intent g))) as ->.
  { assert (Forall (λ id, starts_with "progress_guard." id = true) (map clause_id (clauses (intent g)))) as Hg.
    { rewrite Hids. apply List.Forall_forall. intros k Hk. apply list_elem_of_In in Hk.
      assert (forallb (starts_with "progress_guard.") GUARD_CLAUSE_IDS = true) as Hall by (vm_compute; reflexivity).
      rewrite List.forallb_forall in Hall. by apply Hall, list_elem_of_In. }
    clear Hids He. induction (clauses (intent g)) as [|d cs IH]; [done|]. cbn [map] in Hg |- *.
    apply Forall_cons in Hg as [Hd Hg]. cbn [existsb]. rewrite (IH Hg). f_equal.
    unfold is_persisted_trigger, is_trigger, is_applied. cbn [fst snd]. by rewrite Hd, andb_true_r. }
  apply evaluate_inv in He as (_ & Hcs & _ & _ & _ & _ & ->).
  pose proof (suppressed_flags p gi) as [_ Hfl]. cbn zeta in *. rewrite <-Hcs in *.
  destruct (hold_active gi); [|done]. rewrite trigger_flags, Hfl by done. done.
Qed.

(** The categorical attributes that the reducer reads. *)
Lemma categorical_projection i x :
  stable_intent x →
  route_categorical i x !! "route.projection" = Some (RouteProjection_key (projection i)) ∧
  route_categorical i x !! "route.workflow_state" = Some (enum_key (state_kind (projection i))).
Proof.
  intros Hx. rewrite !route_categorical_entry by (done || (vm_compute; reflexivity)).
  split; (apply insert_all_in; [apply intent_entries_nodup|]); unfold intent_entries; set_solver.
Qed.
Lemma written_state_parses k :
  ∃ p, RouteProjection_parse_key ("agent_trace/v2|" +:+ enum_key k +:+ "|normal") = Some p ∧ state_kind p = k.
Proof. destruct k; eexists; (split; [vm_compute; reflexivity|done]). Qed.

(** What a step leaves alone that the snapshot reads. *)
Definition same_facts (st st' : Reducer) : Prop :=
  r_request_count st' = r_request_count st ∧ r_settled_count st' = r_settled_count st ∧
  usage st' = usage st ∧ last_timestamp st' = last_timestamp st.

Lemma route_step_accepted pt ep st start r i x pre e ds :
  just_started ep st start r → pending_guard_activation st = None →
  snapshot_from_facts ep st (sequence start) (last_timestamp st) = Ok pre →
  trajectory_snapshot_digest x = evidence_digest pre → sequence start + 1 ≤ u64_max →
  stable_intent x → canonical (projection i) = true →
  build_route_event i start x (sequence start + 1) = Ok e → validate_event e = Ok tt →
  validate_persisted_route_intent e = Ok (Some ds) →
  ∃ st', reduce_step pt ep st e = Ok st' ∧ same_facts st st' ∧
    requests st' = <[r := Routed]> (requests st) ∧ closed st' = false ∧
    consumed st' = sequence start + 1 ∧ hold_remaining st' = hold_remaining st ∧
    pending_guard_activation st' = (if existsb is_persisted_trigger ds then Some r else None) ∧
    guarded_route_digests st' !! r = Some (intent_policy_digest x, trajectory_snapshot_digest x).
Proof.
  intros [Hr Hph Hop Hown Ht [Hseq Hpos] Hstr] Hpend Hpre Hdig Hmax Hst Hcan Hb Hv Hcs.
  apply sealed_event_inv in Hb as (Hk & Hev & Hes & Her & Heo & Hee & Hec).
  assert (admissible ep st e) as Had%admissible_admitted.
  { constructor; rewrite ?Hes, ?Heo, ?Hee, ?Hec, ?Hpend; try done. lia. }
  unfold reduce_step. rewrite Had. cbn [mbind result_bind]. unfold handle. rewrite Hk.
  unfold on_route_intent, required_request_id. rewrite Her, Hr, Hcs. cbn [ok_or mbind result_bind].
  unfold check_guarded_route. rewrite Hev, Hes. cbn [digests structural categorical].
  rewrite route_policy_lock, route_health_snapshot. cbn [ok_or mbind result_bind].
  unfold checked_sub. destruct (Z.leb_spec 1 (sequence start + 1)) as [_|?]; cycle 1.
  { lia. }
  cbn [ok_or mbind result_bind]. rewrite Z.add_simpl_r.
  change (snapshot_from_facts ep (advance st (last_timestamp st)) ?t ?l) with (snapshot_from_facts ep st t l).
  rewrite Hpre. cbn [mbind result_bind]. rewrite (bool_decide_eq_true_2 (trajectory_snapshot_digest x = _)) by done. cbn [ensure mbind result_bind].
  unfold advance_to_routed. cbn [requests advance]. rewrite Hph. cbn [ok_or mbind result_bind].
  destruct (categorical_projection i x Hst) as [-> ->].
  unfold parse_projection, parse_workflow_state. rewrite parse_key_of_key by done.
  destruct (written_state_parses (state_kind (projection i))) as (p & -> & Hpk).
  cbn [ok_or mbind result_bind states_agree]. rewrite Hpk, (bool_decide_eq_true_2 (state_kind _ = state_kind _)) by done.
  cbn [ensure mbind result_bind].
  edestruct (intent_streaks_total pt (streaks st)) as [k' Hk']; [exact Hstr|lia| |].
  2: { cbn [streaks advance evidence]. rewrite Hk'. cbn [mbind result_bind].
    eexists. split; [reflexivity|]. cbn. rewrite Hseq, Hpend. split_and!; try done.
    apply lookup_insert_eq. }
  unfold selected_is_protected. cbn [structural]. rewrite route_selected_protected.
  instantiate (1 := tier_in (protected_tiers (policy i)) (selected_tier x)).
  by destruct (tier_in _ _).
Qed.

Lemma guard_step_accepted pt ep st start r i x seq e :
  request_id start = Some r → owner_user_id start = e_owner ep → episode_id start = e_episode ep →
  closed st = false → parse_from_rfc3339 (captured_at start) = Some (last_timestamp st) →
  consumed st = seq → pending_guard_activation st = Some r → requests st !! r = Some Routed →
  guarded_route_digests st !! r = Some (intent_policy_digest x, trajectory_snapshot_digest x) →
  validate_policy_shape (policy i) = Ok tt →
  build_guard_event i start x seq = Ok e → validate_event e = Ok tt →
  ∃ st', reduce_step pt ep st e = Ok st' ∧ same_facts st st' ∧
    pending_guard_activation st' = None ∧ hold_remaining st' = hold_for_requests (policy i).
Proof.
  intros Hr Ho He Hop Ht Hseq Hpend Hph Hdig Hpol Hb Hv. unfold build_guard_event in Hb. res_inv.
  match goal with H : sealed_event _ _ _ _ _ = _ |- _ =>
    apply sealed_event_inv in H as (Hk & Hev & Hes & Her & Heo & Hee & Hec) end.
  arith_step. assert (admissible ep st e) as Had%admissible_admitted.
  { constructor; rewrite ?Hes, ?Heo, ?Hee, ?Hec, ?Hpend, ?Her; try done; [lia|].
    intros r' [= <-]. by rewrite Hk, Hr. }
  unfold reduce_step. rewrite Had. cbn [mbind result_bind]. unfold handle. rewrite Hk.
  unfold on_guard_activated, required_request_id. rewrite Her, Hr. cbn [ok_or mbind result_bind].
  unfold check_activation, validate_persisted_guard_activation, has_key.
  rewrite Hk, Hev, (bool_decide_eq_true_2 (GuardActivated = _)) by done. cbn [digests structural].
  assert (insert_all [("guard.health_snapshot", trajectory_snapshot_digest x);
    ("guard.policy_lock", intent_policy_digest x)] ∅ !! "guard.policy_lock" = Some (intent_policy_digest x)) as -> by solve_entry.
  assert (insert_all [("guard.health_snapshot", trajectory_snapshot_digest x);
    ("guard.policy_lock", intent_policy_digest x)] ∅ !! "guard.health_snapshot" = Some (trajectory_snapshot_digest x)) as -> by solve_entry.
  assert (insert_all [("guard.hold_for_requests", hold_for_requests (policy i))] ∅
    !! "guard.hold_for_requests" = Some (hold_for_requests (policy i))) as -> by solve_entry.
  rewrite !(bool_decide_eq_true_2 (is_Some (Some _))) by by eexists.
  cbn [Bool.eqb ensure ok_or mbind result_bind]. cbn [pending_guard_activation guarded_route_digests requests advance].
  rewrite Hpend, Hdig, Hph, (bool_decide_eq_true_2 (Some r = _)) by done. cbn [ensure ok_or mbind result_bind].
  rewrite (bool_decide_eq_true_2 (_ = _)) by done. cbn [ensure ok_or mbind result_bind].
  unfold validate_policy_shape in Hpol. res_inv.
  match goal with H : negb ((_ =? 0) || _) = true |- _ =>
    unfold MAX_HOLD_REQUESTS; rewrite H end. cbn [ensure mbind result_bind]. by eexists.
Qed.

(** [serde_json] serializes every snapshot: it holds only integers, strings and options. *)
Class SnapshotJsonTotal : Prop :=
  snapshot_json_total : ∀ s : TrajectorySnapshotDigestInput, is_ok (canonical_json s) = true.

Lemma snapshot_total `{SnapshotJsonTotal} ep st st' through through' pre :
  snapshot_from_facts ep st through (last_timestamp st) = Ok pre → same_facts st st' →
  ∃ s, snapshot_from_facts ep st' through' (last_timestamp st') = Ok s.
Proof.
  unfold snapshot_from_facts. intros Hs (H1 & H2 & H3 & H4). res_inv.
  match goal with H : health_from_facts _ _ _ = _ |- _ => unfold health_from_facts in H; res_inv end.
  unfold health_from_facts. rewrite H1, H2, H3, H4.
  repeat match goal with H : _ = Some _ |- _ => rewrite H; clear H | H : _ = Ok _ |- _ => rewrite H; clear H end.
  cbn [ok_or mbind result_bind]. unfold snapshot_semantic_digest, canonical_digest.
  match goal with |- context [canonical_json ?d] => pose proof (snapshot_json_total d);
    destruct (canonical_json d); [|done] end. by eexists.
Qed.
Lemma reduce_from_facts `{SnapshotJsonTotal} l pt ep st st' through pre :
  run l pt = Ok (ep, st') → pending_guard_activation st' = None →
  snapshot_from_facts ep st through (last_timestamp st) = Ok pre → same_facts st st' →
  ∃ s, reduce l pt = Ok s ∧ active_hold_remaining s = hold_remaining st'.
Proof.
  intros Hr Hp Hs Hf. destruct (snapshot_total ep st st' through (Z.of_nat (length l)) pre Hs Hf) as [s Hs'].
  exists s. split; [apply reduce_ok; by exists ep, st'|]. by apply snapshot_from_facts_ok in Hs' as (_ & _ & _ & ? & _).
Qed.
(** Extending a run by one accepted event. *)
Lemma run_snoc l pt ep st e st' :
  l ≠ [] → run l pt = Ok (ep, st) → reduce_step pt ep st e = Ok st' → run (l ++ [e]) pt = Ok (ep, st').
Proof.
  intros Hne [Hep Hf]%run_ok Hs. apply run_ok. by rewrite episode_of_app, try_fold_snoc, Hf.
Qed.
End writer_lemmas.

Section append.
Context `{TrajectoryEnv, !SnapshotJsonTotal}.

(** C4: the history extended with the written batch always reduces: when both events pass
    their own validation, the check before the write to the ledger cannot fail. The new
    hold is the policy's when the batch activated the guard, and is unchanged otherwise. *)
Theorem appended_batch_reduces prior start completeness i b :
  build_guarded_route_batch prior start completeness i = Ok b →
  event_kind start = RequestStarted → canonical (projection i) = true →
  validate_event (route_event b) = Ok tt →
  (∀ g, guard_event b = Some g → validate_event g = Ok tt) →
  ∃ s, reduce (batch_history prior start b) (protected_tiers (policy i)) = Ok s ∧
    active_hold_remaining s =
      (if guard_activated (batch_result b) then hold_for_requests (policy i)
       else active_hold_remaining (snapshot (batch_result b))).
Proof.
  intros (g & gi & Hf)%build_inv Hstart Hcan Hvr Hvg.
  pose proof (batch_stable _ _ _ _ _ _ Hf) as Hst.
  destruct Hf as [Hpre He [Hgi Hcand] Hfl Hmax Hroute Hact Hguard].
  apply reduce_ok in Hpre as (ep & st & Hrun & Hpend & Hsnap).
  destruct (run_just_started _ _ _ _ _ Hrun Hstart) as (r & Hjs).
  pose proof (run_sequence _ _ _ _ start Hrun (last_snoc _ _)) as Hseq. rewrite <-Hseq in Hsnap.
  pose proof (sealed_event_inv _ _ _ _ _ _ Hroute) as (Hk & Hev & _).
  assert (validate_persisted_route_intent (route_event b) = Ok (Some (map (λ c, (clause_id c, disposition c))
    (clauses (result_intent (batch_result b)))))) as Hval
    by (apply (route_evidence_valid i); [done|done|by rewrite Hev..]).
  pose proof (evaluate_inv _ _ _ He) as (Hpol & _ & _ & _ & Hdig & _).
  pose proof (with_tool_floor_inv _ _ _ Hfl) as (_ & _ & _ & _ & _ & Hdig' & _).
  rewrite Hdig, Hgi in Hdig'.
  destruct (route_step_accepted (protected_tiers (policy i)) ep st start r i _ _ _ _ Hjs Hpend Hsnap
    Hdig' Hmax Hst Hcan Hroute Hvr Hval) as (st1 & Hstep1 & Hsame1 & Hreq1 & Hcl1 & Hc1 & Hh1 & Hp1 & Hd1).
  erewrite persisted_trigger_iff in Hp1 by done.
  destruct (snapshot_from_facts_ok _ _ _ _ _ Hsnap) as (_ & _ & _ & Hhold & _).
  assert ((prior ++ [start])%list ≠ []) as Hne by by destruct prior.
  pose proof (run_snoc _ _ _ _ _ _ Hne Hrun Hstep1) as Hrun1. rewrite <-app_assoc in Hrun1.
  cbn [app] in Hrun1. unfold batch_history. rewrite Hact. destruct (activated g); cycle 1.
  { rewrite Hguard. cbn [option_list]. rewrite Hhold, <-Hh1. by eapply reduce_from_facts. }
  destruct Hguard as (ge & Hge & Hbuild). rewrite Hge. cbn [option_list].
  destruct Hjs as [Hr Hph Hop [Hown Hepi] Ht _ _].
  destruct (guard_step_accepted (protected_tiers (policy i)) ep st1 start r i
    (result_intent (batch_result b)) (sequence start + 1) ge) as (st2 & Hstep2 & Hsame2 & Hp2 & Hh2);
    try done.
  { by destruct Hsame1 as (_ & _ & _ & ->). }
  { by rewrite Hreq1, lookup_insert_eq. }
  { by apply Hvg. }
  assert ((prior ++ [start; route_event b])%list ≠ []) as Hne' by by destruct prior.
  pose proof (run_snoc _ _ _ _ _ _ Hne' Hrun1 Hstep2) as Hrun2. rewrite <-app_assoc in Hrun2.
  rewrite <-Hh2. eapply reduce_from_facts; [exact Hrun2|done|exact Hsnap|].
  destruct Hsame1 as (? & ? & ? & ?), Hsame2 as (? & ? & ? & ?). split_and!; congruence.
Qed.
End append.
