(* ===== verification/AccessPolicy.v ===== *)
(** Access policies and their combination: what the policies that apply to one request
    decide together about models, tools, spend, rate and expiry
    ([apps/bitrouter/src/policy/policy.rs]). *)
From stdpp Require Import base list strings gmap pretty sorting.
From Stdlib Require Import ZArith Lia Ascii.
From S2P Require Import Prelude.
Open Scope string_scope.
Open Scope Z_scope.

(** An instant ([DateTime<Utc>]) is its nanoseconds. *)
Record Policy := {
  id : string; allowed_models : option (list string); denied_models : list string;
  max_spend_micro_usd : option Z; expires_at : option Z; allowed_tools : option (list string);
  max_requests_per_minute : option Z;
}.

Inductive PolicyViolation :=
| ModelNotAllowed (model : string)
| SpendLimitExceeded (spent limit : Z)
| Expired
| ToolNotAllowed (tool : string)
| RateLimitExceeded (observed limit : Z).

(** [fmt] of the violation. *)
Definition violation_text (v : PolicyViolation) : string :=
  match v with
  | ModelNotAllowed m => "model '" +:+ m +:+ "' is not permitted by policy"
  | SpendLimitExceeded spent limit =>
      "spend limit reached (" +:+ pretty spent +:+ " / " +:+ pretty limit +:+ " micro-USD)"
  | Expired => "policy has expired"
  | ToolNotAllowed t => "tool '" +:+ t +:+ "' is not permitted by policy"
  | RateLimitExceeded observed limit =>
      "rate limit reached (" +:+ pretty observed +:+ " / " +:+ pretty limit +:+ " req/min)"
  end.

Record EffectivePolicy := {
  e_allowed_models : option (list string); e_denied_models : list string;
  e_max_spend : option Z; e_expires_at : option Z; e_allowed_tools : option (list string);
  e_max_rate : option Z;
}.
Definition EffectivePolicy_default : EffectivePolicy := {|
  e_allowed_models := None; e_denied_models := []; e_max_spend := None; e_expires_at := None;
  e_allowed_tools := None; e_max_rate := None |}.

(** [if !v.contains(x) { v.push(x) }] for every [x] of [l]. *)
Definition push_new (v l : list string) : list string :=
  foldl (λ v x, if bool_decide (x ∈ v) then v else (v ++ [x])%list) v l.
Definition intersect_models (eff allow : option (list string)) : option (list string) :=
  match allow with
  | None => eff
  | Some allow => Some (match eff with
      | None => allow
      | Some existing => List.filter (λ m, bool_decide (m ∈ allow)) existing
      end)
  end.
(** The [minimum] and [earliest] rules. *)
Definition strictest (eff limit : option Z) : option Z :=
  match limit with
  | None => eff
  | Some limit => Some (match eff with None => limit | Some existing => Z.min existing limit end)
  end.

(** The accumulators of the loop of [combine]. *)
Record Combining := {
  eff : EffectivePolicy; tool_union : list string;
  any_tool_unrestricted : bool; any_tool_restricted : bool;
}.
Definition combine_one (c : Combining) (p : Policy) : Combining :=
  let e := eff c in {|
  eff := {|
    e_denied_models := push_new (e_denied_models e) (denied_models p);
    e_allowed_models := intersect_models (e_allowed_models e) (allowed_models p);
    e_max_spend := strictest (e_max_spend e) (max_spend_micro_usd p);
    e_max_rate := strictest (e_max_rate e) (max_requests_per_minute p);
    e_expires_at := strictest (e_expires_at e) (expires_at p);
    e_allowed_tools := e_allowed_tools e |};
  tool_union := match allowed_tools p with None => tool_union c | Some ts => push_new (tool_union c) ts end;
  any_tool_unrestricted := any_tool_unrestricted c || bool_decide (allowed_tools p = None);
  any_tool_restricted := any_tool_restricted c || negb (bool_decide (allowed_tools p = None)) |}.
Definition combine_all (policies : list Policy) : Combining :=
  foldl combine_one {| eff := EffectivePolicy_default; tool_union := [];
    any_tool_unrestricted := false; any_tool_restricted := false |} policies.
Definition combine (policies : list Policy) : EffectivePolicy :=
  let c := combine_all policies in
  let e := eff c in {|
  e_allowed_models := e_allowed_models e; e_denied_models := e_denied_models e;
  e_max_spend := e_max_spend e; e_expires_at := e_expires_at e; e_max_rate := e_max_rate e;
  e_allowed_tools :=
    if any_tool_restricted c && negb (any_tool_unrestricted c) then Some (tool_union c) else None |}.

(** ** Checks *)

Definition check_model (e : EffectivePolicy) (model : string) : result PolicyViolation unit :=
  if bool_decide (model ∈ e_denied_models e) then Err (ModelNotAllowed model)
  else match e_allowed_models e with
       | Some allow => if negb (bool_decide (model ∈ allow)) then Err (ModelNotAllowed model) else Ok tt
       | None => Ok tt
       end.
Definition check_expiry (e : EffectivePolicy) (now : Z) : result PolicyViolation unit :=
  match e_expires_at e with
  | Some exp => if exp <=? now then Err Expired else Ok tt
  | None => Ok tt
  end.
Definition check_spend (e : EffectivePolicy) (spent : Z) : result PolicyViolation unit :=
  match e_max_spend e with
  | Some limit => if limit <=? spent then Err (SpendLimitExceeded spent limit) else Ok tt
  | None => Ok tt
  end.
Definition check_tools (e : EffectivePolicy) (tools : list string) : result PolicyViolation unit :=
  match e_allowed_tools e with
  | Some allow =>
      for_each (λ tool, if negb (bool_decide (tool ∈ allow)) then Err (ToolNotAllowed tool) else Ok tt) tools
  | None => Ok tt
  end.
Definition check_rate (e : EffectivePolicy) (observed : Z) : result PolicyViolation unit :=
  match e_max_rate e with
  | Some limit => if limit <=? observed then Err (RateLimitExceeded observed limit) else Ok tt
  | None => Ok tt
  end.
Definition has_tool_restriction (e : EffectivePolicy) : bool :=
  bool_decide (is_Some (e_allowed_tools e)).

(** ** Theorems *)

(** The documented meaning, one policy at a time. *)
Definition permits_model (p : Policy) (m : string) : Prop :=
  m ∉ denied_models p ∧ (∀ allow, allowed_models p = Some allow → m ∈ allow).
Definition below (limit : option Z) (x : Z) : Prop := ∀ l, limit = Some l → x < l.

Section combination.
Implicit Types (ps : list Policy).

Lemma elem_of_push_new v l x : x ∈ push_new v l ↔ x ∈ v ∨ x ∈ l.
Proof.
  unfold push_new. revert v. induction l as [|y l IH]; intros v; cbn; [set_solver|].
  rewrite IH. case_bool_decide; set_solver.
Qed.
Lemma strictest_below eff limit x : below (strictest eff limit) x ↔ below eff x ∧ below limit x.
Proof.
  unfold below, strictest. destruct eff as [a|], limit as [b|]; try naive_solver. split.
  - intros H. specialize (H _ eq_refl). split; intros ? [= <-]; lia.
  - intros [Ha Hb] ? [= <-]. specialize (Ha _ eq_refl). specialize (Hb _ eq_refl). lia.
Qed.
Lemma below_check {E} limit x (e : Z → E) :
  match limit with Some l => if l <=? x then Err (e l) else Ok tt | None => Ok tt end = Ok tt ↔
  below limit x.
Proof.
  unfold below. destruct limit as [l|]; [|naive_solver]. destruct (Z.leb_spec l x); split; try done.
  - intros H'. specialize (H' _ eq_refl). lia.
  - by intros _ ? [= <-].
Qed.
Definition in_allowlist (allow : option (list string)) (m : string) : Prop :=
  ∀ l, allow = Some l → m ∈ l.
Lemma intersect_models_in eff allow m :
  in_allowlist (intersect_models eff allow) m ↔ in_allowlist eff m ∧ in_allowlist allow m.
Proof.
  unfold in_allowlist, intersect_models. destruct eff as [e|], allow as [a|]; try naive_solver.
  split.
  - intros H. specialize (H _ eq_refl). rewrite filter_elem, bool_decide_eq_true in H. naive_solver.
  - intros [He Ha] l [= <-]. rewrite filter_elem, bool_decide_eq_true. auto.
Qed.

(** The meaning of the accumulators after any number of policies. *)
Record combined ps (c : Combining) : Prop := {
  cb_denied m : m ∈ e_denied_models (eff c) ↔ ∃ p, p ∈ ps ∧ m ∈ denied_models p;
  cb_allowed m : in_allowlist (e_allowed_models (eff c)) m ↔
    ∀ p, p ∈ ps → in_allowlist (allowed_models p) m;
  cb_spend x : below (e_max_spend (eff c)) x ↔ ∀ p, p ∈ ps → below (max_spend_micro_usd p) x;
  cb_rate x : below (e_max_rate (eff c)) x ↔ ∀ p, p ∈ ps → below (max_requests_per_minute p) x;
  cb_expiry x : below (e_expires_at (eff c)) x ↔ ∀ p, p ∈ ps → below (expires_at p) x;
  cb_tools t : t ∈ tool_union c ↔ ∃ p ts, p ∈ ps ∧ allowed_tools p = Some ts ∧ t ∈ ts;
  cb_unrestricted : any_tool_unrestricted c = true ↔ ∃ p, p ∈ ps ∧ allowed_tools p = None;
  cb_restricted : any_tool_restricted c = true ↔ ∃ p, p ∈ ps ∧ allowed_tools p ≠ None;
}.
Lemma forall_snoc {A} (P : A → Prop) (l : list A) x :
  (∀ y, y ∈ (l ++ [x])%list → P y) ↔ (∀ y, y ∈ l → P y) ∧ P x.
Proof. set_solver. Qed.
Lemma exists_snoc {A} (P : A → Prop) (l : list A) x :
  (∃ y, y ∈ (l ++ [x])%list ∧ P y) ↔ (∃ y, y ∈ l ∧ P y) ∨ P x.
Proof. set_solver. Qed.

Lemma combine_all_spec ps : combined ps (combine_all ps).
Proof.
  unfold combine_all. induction ps as [|p ps [Hd Ha Hs Hr He Ht Hu Hre]] using rev_ind.
  { constructor; cbn; unfold below, in_allowlist; set_solver. }
  rewrite foldl_app. cbn [foldl]. constructor; cbn [combine_one eff tool_union any_tool_unrestricted
    any_tool_restricted e_denied_models e_allowed_models e_max_spend e_max_rate e_expires_at].
  - intros m. by rewrite elem_of_push_new, Hd, exists_snoc.
  - intros m. by rewrite intersect_models_in, Ha, forall_snoc.
  - intros x. by rewrite strictest_below, Hs, forall_snoc.
  - intros x. by rewrite strictest_below, Hr, forall_snoc.
  - intros x. by rewrite strictest_below, He, forall_snoc.
  - intros t. destruct (allowed_tools p) as [ts|] eqn:Hp.
    + rewrite elem_of_push_new, Ht. split.
      * intros [(q & us & ? & ? & ?)|?]; [exists q, us|exists p, ts]; set_solver.
      * intros (q & us & Hq & Hqa & Hin). apply elem_of_app in Hq as [Hq| ->%list_elem_of_singleton];
          [left; by exists q, us|right; congruence].
    + rewrite Ht. split.
      * intros (q & us & ? & ? & ?). exists q, us. set_solver.
      * intros (q & us & Hq & Hqa & Hin). apply elem_of_app in Hq as [Hq| ->%list_elem_of_singleton];
          [by exists q, us|congruence].
  - by rewrite orb_true_iff, Hu, exists_snoc, bool_decide_eq_true.
  - by rewrite orb_true_iff, Hre, exists_snoc, negb_true_iff, bool_decide_eq_false.
Qed.

(** A model passes the combined check exactly when every policy permits it: no policy
    denies it, and every policy with an allowlist names it. *)
Theorem check_model_iff ps m :
  check_model (combine ps) m = Ok tt ↔ ∀ p, p ∈ ps → permits_model p m.
Proof.
  destruct (combine_all_spec ps) as [Hd Ha _ _ _ _ _ _]. specialize (Hd m). specialize (Ha m).
  unfold check_model, combine. cbn [e_denied_models e_allowed_models].
  unfold permits_model. case_bool_decide as Hden.
  - split; [done|]. intros Hall. apply Hd in Hden as (p & Hp & Hm). by destruct (Hall p Hp).
  - assert (in_allowlist (e_allowed_models (eff (combine_all ps))) m ↔
      ∀ p, p ∈ ps → m ∉ denied_models p ∧ in_allowlist (allowed_models p) m) as <-.
    { rewrite Ha. split; [|naive_solver]. intros Hin p Hp. split; [|by apply Hin].
      intros Hm. apply Hden, Hd. by exists p. }
    unfold in_allowlist. destruct (e_allowed_models (eff (combine_all ps))) as [l|];
      [case_bool_decide|]; cbn; naive_solver.
Qed.

(** Spend, rate and expiry are decided by the strictest policy: each check passes
    exactly when the value is below the limit of every policy that sets one. *)
Theorem check_limits_iff ps x :
  (check_spend (combine ps) x = Ok tt ↔ ∀ p, p ∈ ps → below (max_spend_micro_usd p) x) ∧
  (check_rate (combine ps) x = Ok tt ↔ ∀ p, p ∈ ps → below (max_requests_per_minute p) x) ∧
  (check_expiry (combine ps) x = Ok tt ↔ ∀ p, p ∈ ps → below (expires_at p) x).
Proof.
  destruct (combine_all_spec ps) as [_ _ Hs Hr He _ _ _]. rewrite <-Hs, <-Hr, <-He.
  unfold check_spend, check_rate, check_expiry, combine. cbn [e_max_spend e_max_rate e_expires_at].
  split_and!; apply (below_check _ x).
Qed.

(** Tools are restricted exactly when there are policies and each has a tool list, and
    then a request passes exactly when each of its tools is on the list of some policy. *)
Theorem check_tools_iff ps tools :
  has_tool_restriction (combine ps) = bool_decide (ps ≠ [] ∧ Forall (λ p, allowed_tools p ≠ None) ps) ∧
  (check_tools (combine ps) tools = Ok tt ↔
   (has_tool_restriction (combine ps) = true →
    ∀ t, t ∈ tools → ∃ p ts, p ∈ ps ∧ allowed_tools p = Some ts ∧ t ∈ ts)).
Proof.
  destruct (combine_all_spec ps) as [_ _ _ _ _ Ht Hu Hre].
  assert (any_tool_restricted (combine_all ps) && negb (any_tool_unrestricted (combine_all ps)) =
    bool_decide (ps ≠ [] ∧ Forall (λ p, allowed_tools p ≠ None) ps)) as Hrestr.
  { apply Bool.eq_iff_eq_true. rewrite andb_true_iff, negb_true_iff, <-not_true_iff_false, Hu, Hre,
      bool_decide_eq_true, Forall_forall. split.
    - intros [(p & Hp & Hn) Hall]. split; [set_solver|]. intros q Hq Hqn. apply Hall. by exists q.
    - intros [Hne Hall]. split; [|naive_solver]. destruct ps as [|p ps]; [done|].
      exists p. split; [left|apply Hall; left]. }
  unfold has_tool_restriction, check_tools, combine. cbn [e_allowed_tools]. rewrite Hrestr.
  case_bool_decide as Hb; cbn; [|done]. split; [done|]. rewrite for_each_ok, Forall_forall.
  setoid_rewrite <-Ht. split.
  - intros Hall _ t Hin. specialize (Hall t Hin). cbn in Hall. by case_bool_decide.
  - intros Hall t Hin. by rewrite bool_decide_eq_true_2 by by apply Hall.
Qed.
End combination.
