(* ===== verification/UrlGuard.v ===== *)
(** The upstream URL validator, which keeps a configured [api_base] out of private networks
    and cloud metadata services ([apps/bitrouter/src/config/url_validator.rs]), with the
    standard library's textual parser of IP addresses. [url::Url::parse] is another crate: it
    is the parameter [parse_url]. *)
From stdpp Require Import base list strings gmap pretty sorting.
From Stdlib Require Import ZArith Lia Ascii.
From S2P Require Import Prelude.
Open Scope string_scope.
Open Scope Z_scope.

(** ** IP addresses

    [Ipv4Addr] is its four octets, [Ipv6Addr] its eight 16-bit segments. *)
Inductive IpAddr := V4 (octets : list Z) | V6 (segments : list Z).
#[export] Instance IpAddr_eq_dec : EqDecision IpAddr. Proof. solve_decision. Defined.

(** The parser of [core::net]: each reader returns the value and the rest of the input. *)
Definition reader (A : Type) : Type := list N → option (A * list N).

Definition to_digit (radix : Z) (c : N) : option Z :=
  let v :=
    if is_ascii_digit c then Some (Z.of_N c - 48)
    else if ((97 <=? c) && (c <=? 122))%N then Some (Z.of_N c - 87)
    else if ((65 <=? c) && (c <=? 90))%N then Some (Z.of_N c - 55) else None in
  match v with Some d => if d <? radix then Some d else None | None => None end.
(** The digits in front: their value, their number and the rest. *)
Fixpoint read_digits (radix acc count : Z) (s : list N) : Z * Z * list N :=
  match s with
  | c :: r => match to_digit radix c with
              | Some d => read_digits radix (acc * radix + d) (count + 1) r
              | None => (acc, count, s)
              end
  | [] => (acc, count, s)
  end.
Definition read_number (radix max_digits limit : Z) (allow_zero_prefix : bool) : reader Z := λ s,
  let '(v, count, r) := read_digits radix 0 0 s in
  let has_leading_zero := bool_decide (head s = Some 48%N) in
  if max_digits <? count then None
  else if count =? 0 then None
  else if negb allow_zero_prefix && has_leading_zero && (1 <? count) then None
  else if limit <? v then None else Some (v, r).
(** [read_separator]: the separator is expected before every group but the first. *)
Definition read_separator {A} (sep : N) (index : nat) (inner : reader A) : reader A := λ s,
  match index with
  | O => inner s
  | S _ => match s with c :: r => if (c =? sep)%N then inner r else None | [] => None end
  end.
Fixpoint read_octets (index n : nat) : reader (list Z) := λ s,
  match n with
  | O => Some ([], s)
  | S n =>
      '(o, r) ← read_separator 46 index (read_number 10 3 255 false) s;
      '(os, r) ← read_octets (S index) n r;
      Some (o :: os, r)
  end.
Definition read_ipv4 : reader (list Z) := read_octets 0 4.

(** [read_groups]: the groups read, whether an embedded IPv4 address ended them, and the rest. *)
Fixpoint read_groups (index n : nat) (s : list N) : list Z * bool * list N :=
  match n with
  | O => ([], false, s)
  | S n' =>
      let embedded := match n' with O => None | S _ => read_separator 58 index read_ipv4 s end in
      match embedded with
      | Some ([a; b; c; d], r) => ([a * 256 + b; c * 256 + d], true, r)
      | _ =>
          match read_separator 58 index (read_number 16 4 65535 true) s with
          | Some (g, r) => let '(gs, v4, r) := read_groups (S index) n' r in (g :: gs, v4, r)
          | None => ([], false, s)
          end
      end
  end.
Definition read_ipv6 : reader (list Z) := λ s,
  let '(front, front_v4, r) := read_groups 0 8 s in
  if (length front =? 8)%nat then Some (front, r)
  else if front_v4 then None
  else match r with
       | 58%N :: 58%N :: r =>
           let '(back, _, r) := read_groups 0 (7 - length front) r in
           Some ((front ++ repeat 0 (8 - length front - length back) ++ back)%list, r)
       | _ => None
       end.
(** [s.parse::<IpAddr>()] *)
Definition parse_ip (s : string) : option IpAddr :=
  match read_ipv4 (chars s) with
  | Some (os, []) => Some (V4 os)
  | Some _ => None
  | None => match read_ipv6 (chars s) with Some (gs, []) => Some (V6 gs) | _ => None end
  end.

(** ** The classification methods of the standard library *)

Definition octet (os : list Z) (n : nat) : Z := nth n os 0.
Definition between (lo x hi : Z) : bool := (lo <=? x) && (x <=? hi).
Definition is_loopback (ip : IpAddr) : bool :=
  match ip with
  | V4 os => octet os 0 =? 127
  | V6 gs => bool_decide (gs = [0; 0; 0; 0; 0; 0; 0; 1])
  end.
Definition is_unspecified (ip : IpAddr) : bool :=
  match ip with
  | V4 os => bool_decide (os = [0; 0; 0; 0])
  | V6 gs => bool_decide (gs = [0; 0; 0; 0; 0; 0; 0; 0])
  end.
Definition is_multicast (ip : IpAddr) : bool :=
  match ip with
  | V4 os => between 224 (octet os 0) 239
  | V6 gs => Z.land (octet gs 0) 65280 =? 65280
  end.
Definition is_link_local (os : list Z) : bool := (octet os 0 =? 169) && (octet os 1 =? 254).
Definition is_private (os : list Z) : bool :=
  (octet os 0 =? 10) || ((octet os 0 =? 172) && between 16 (octet os 1) 31)
  || ((octet os 0 =? 192) && (octet os 1 =? 168)).

(** ** The validator *)

Definition METADATA_HOSTS : list string :=
  ["instance-data"; "instance-data.ec2.internal"; "metadata.google.internal"; "metadata.google.com"].

(** The guard of [0 | 198 if matches!(o[1], 18 | 19)] applies to both alternatives. *)
Definition is_blocked_v4 (os : list Z) : bool :=
  if is_link_local os then true
  else if is_private os then true
  else if (octet os 0 =? 100) && between 64 (octet os 1) 127 then true
  else (((octet os 0 =? 0) || (octet os 0 =? 198)) && ((octet os 1 =? 18) || (octet os 1 =? 19)))
    || ((octet os 0 =? 192) && (octet os 1 =? 0) && (octet os 2 =? 2))
    || ((octet os 0 =? 198) && (octet os 1 =? 51) && (octet os 2 =? 100))
    || ((octet os 0 =? 203) && (octet os 1 =? 0) && (octet os 2 =? 113)).
Definition is_blocked_v6 (gs : list Z) : bool :=
  if Z.land (octet gs 0) 65024 =? 64512 then true
  else if Z.land (octet gs 0) 65472 =? 65152 then true
  else (octet gs 0 =? 8193) && (octet gs 1 =? 3512).
Definition is_blocked_ip (ip : IpAddr) : bool :=
  if is_loopback ip then false
  else if is_unspecified ip || is_multicast ip then true
  else match ip with V4 os => is_blocked_v4 os | V6 gs => is_blocked_v6 gs end.

Definition is_loopback_host (host_lower host_for_ip : string) : bool :=
  if bool_decide (host_lower ∈ ["localhost"; "localhost.localdomain"]) then true
  else match parse_ip host_for_ip with Some ip => is_loopback ip | None => false end.

Fixpoint trim_start_matches (c : ascii) (s : string) : string :=
  match s with
  | String a r => if bool_decide (a = c) then trim_start_matches c r else s
  | EmptyString => EmptyString
  end.
Definition trim_end_matches (c : ascii) (s : string) : string :=
  string_of (rev (bytes (trim_start_matches c (string_of (rev (bytes s)))))).

(** [url::Url], as far as the validator looks. *)
Record Url := { scheme : string; host_str : option string }.

Section validator.
Context (parse_url : string → result string Url).

Definition host_for_ip (host : string) : string :=
  trim_end_matches "]"%char (trim_start_matches "["%char host).
Definition host_is_blocked (host : string) : bool :=
  match parse_ip (host_for_ip host) with Some ip => is_blocked_ip ip | None => false end.

Definition validate_upstream_url (raw : string) : result string unit :=
  url ← match parse_url raw with
        | Ok url => Ok url
        | Err e => Err ("invalid URL '" +:+ raw +:+ "': " +:+ e)
        end;
  _ ← ensure (negb (negb (bool_decide (scheme url = "http")) && negb (bool_decide (scheme url = "https"))))
        ("URL scheme '" +:+ scheme url +:+ "' is not allowed (use http or https)");
  host ← ok_or (host_str url) ("URL '" +:+ raw +:+ "' has no host");
  let host_lower := to_ascii_lowercase host in
  _ ← ensure (negb (bool_decide (host_lower ∈ METADATA_HOSTS)))
        ("host '" +:+ host +:+ "' is a cloud-metadata alias — refusing to route there");
  _ ← ensure (negb (host_is_blocked host))
        ("host '" +:+ host +:+ "' is in a non-routable / metadata range");
  ensure (negb (bool_decide (scheme url = "http") && negb (is_loopback_host host_lower (host_for_ip host))))
    ("URL '" +:+ raw +:+ "' uses http:// for a non-loopback host (use https://)").
End validator.

(** ** Theorems *)

Example parse_examples :
  map parse_ip ["169.254.169.254"; "01.2.3.4"; "::1"; "::ffff:169.254.169.254"; "fe80::a9fe:1"; "1::2::3"] =
  [Some (V4 [169; 254; 169; 254]); None; Some (V6 [0; 0; 0; 0; 0; 0; 0; 1]);
   Some (V6 [0; 0; 0; 0; 0; 65535; 43518; 43518]); Some (V6 [65152; 0; 0; 0; 0; 0; 43518; 1]); None].
Proof. vm_compute. reflexivity. Qed.

(** A CIDR block: its first address and its prefix length, over [width]-bit addresses. *)
Definition in_block (width : Z) (block : Z * Z) (x : Z) : Prop :=
  block.1 ≤ x < block.1 + 2 ^ (width - block.2).
Definition v4_value (os : list Z) : Z := foldl (λ acc o, acc * 256 + o) 0 os.
Definition v4_loopback : Z * Z := (v4_value [127; 0; 0; 0], 8).
Definition v4_blocked : list (Z * Z) := [
  (v4_value [0; 0; 0; 0], 32); (v4_value [224; 0; 0; 0], 4); (v4_value [169; 254; 0; 0], 16);
  (v4_value [10; 0; 0; 0], 8); (v4_value [172; 16; 0; 0], 12); (v4_value [192; 168; 0; 0], 16);
  (v4_value [100; 64; 0; 0], 10); (v4_value [0; 18; 0; 0], 15); (v4_value [198; 18; 0; 0], 15);
  (v4_value [192; 0; 2; 0], 24); (v4_value [198; 51; 100; 0], 24); (v4_value [203; 0; 113; 0], 24)].

Lemma exists_elem {A} (P : A → Prop) (l : list A) : (∃ x, x ∈ l ∧ P x) ↔ Exists P l.
Proof. rewrite Exists_exists. done. Qed.

Section v4_blocks.
Context (a b c d : Z) (Ha : 0 ≤ a ≤ 255) (Hb : 0 ≤ b ≤ 255) (Hc : 0 ≤ c ≤ 255) (Hd : 0 ≤ d ≤ 255).
Let x := v4_value [a; b; c; d].

(** Membership in a block, by its octets. *)
Lemma in_block_32 o n k m :
  0 ≤ o ≤ 255 → 0 ≤ n ≤ 255 → 0 ≤ k ≤ 255 → 0 ≤ m ≤ 255 →
  in_block 32 (v4_value [o; n; k; m], 32) x ↔ a = o ∧ b = n ∧ c = k ∧ d = m.
Proof.
  unfold in_block, x, v4_value. cbn [foldl fst snd]. change (2 ^ (32 - 32)) with 1.
  split; [|lia]. intros Hx. assert (a = o) as -> by lia. assert (b = n) as -> by lia.
  assert (c = k) as -> by lia. lia.
Qed.
Lemma in_block_24 o n k :
  0 ≤ o ≤ 255 → 0 ≤ n ≤ 255 → 0 ≤ k ≤ 255 →
  in_block 32 (v4_value [o; n; k; 0], 24) x ↔ a = o ∧ b = n ∧ c = k.
Proof. unfold in_block, x, v4_value. cbn [foldl fst snd]. change (2 ^ (32 - 24)) with 256. lia. Qed.
(** A block of prefix length 16 or less: [2^(16-len)] second octets from [n]. *)
Lemma in_block_second o n len :
  0 ≤ o ≤ 255 → 0 ≤ n → 8 ≤ len ≤ 16 → n + 2 ^ (16 - len) ≤ 256 →
  in_block 32 (v4_value [o; n; 0; 0], len) x ↔ a = o ∧ n ≤ b < n + 2 ^ (16 - len).
Proof.
  intros Ho Hn Hl Hw. unfold in_block, x, v4_value. cbn [foldl fst snd].
  replace (32 - len) with (16 + (16 - len)) by lia. rewrite Z.pow_add_r by lia.
  change (2 ^ 16) with 65536. revert Hw. generalize (2 ^ (16 - len)). clear Hl. intros w Hw. lia.
Qed.
Lemma in_block_first o len :
  0 ≤ o → 0 ≤ len ≤ 8 → o + 2 ^ (8 - len) ≤ 256 →
  in_block 32 (v4_value [o; 0; 0; 0], len) x ↔ o ≤ a < o + 2 ^ (8 - len).
Proof.
  intros Ho Hl Hw. unfold in_block, x, v4_value. cbn [foldl fst snd].
  replace (32 - len) with (24 + (8 - len)) by lia. rewrite Z.pow_add_r by lia.
  change (2 ^ 24) with 16777216. revert Hw. generalize (2 ^ (8 - len)). intros w. lia.
Qed.

Lemma in_v4_blocked :
  (∃ block, block ∈ v4_blocked ∧ in_block 32 block x) ↔
  (a = 0 ∧ b = 0 ∧ c = 0 ∧ d = 0) ∨ (224 ≤ a ≤ 239) ∨ (a = 169 ∧ b = 254) ∨ a = 10 ∨
  (a = 172 ∧ 16 ≤ b ≤ 31) ∨ (a = 192 ∧ b = 168) ∨ (a = 100 ∧ 64 ≤ b ≤ 127) ∨
  (a = 0 ∧ (b = 18 ∨ b = 19)) ∨ (a = 198 ∧ (b = 18 ∨ b = 19)) ∨ (a = 192 ∧ b = 0 ∧ c = 2) ∨
  (a = 198 ∧ b = 51 ∧ c = 100) ∨ (a = 203 ∧ b = 0 ∧ c = 113).
Proof.
  rewrite exists_elem. unfold v4_blocked. rewrite !Exists_cons, Exists_nil.
  rewrite in_block_32, !in_block_24 by lia.
  rewrite (in_block_first 224 4), (in_block_first 10 8) by (cbn; lia).
  rewrite !in_block_second by (cbn; lia).
  change (2 ^ (8 - 4)) with 16. change (2 ^ (8 - 8)) with 1. change (2 ^ (16 - 16)) with 1.
  change (2 ^ (16 - 12)) with 16. change (2 ^ (16 - 10)) with 64. change (2 ^ (16 - 15)) with 2.
  assert (∀ y n, n ≤ y < n + 1 ↔ y = n) as Hone by lia. rewrite !Hone.
  assert (16 ≤ b < 16 + 16 ↔ 16 ≤ b ≤ 31) as -> by lia.
  assert (64 ≤ b < 64 + 64 ↔ 64 ≤ b ≤ 127) as -> by lia.
  assert (224 ≤ a < 224 + 16 ↔ 224 ≤ a ≤ 239) as -> by lia.
  assert (18 ≤ b < 18 + 2 ↔ b = 18 ∨ b = 19) as -> by lia. clear. tauto.
Qed.
Lemma blocked_v4_octets :
  is_blocked_ip (V4 [a; b; c; d]) = true ↔
  (a = 0 ∧ b = 0 ∧ c = 0 ∧ d = 0) ∨ (224 ≤ a ≤ 239) ∨ (a = 169 ∧ b = 254) ∨ a = 10 ∨
  (a = 172 ∧ 16 ≤ b ≤ 31) ∨ (a = 192 ∧ b = 168) ∨ (a = 100 ∧ 64 ≤ b ≤ 127) ∨
  (a = 0 ∧ (b = 18 ∨ b = 19)) ∨ (a = 198 ∧ (b = 18 ∨ b = 19)) ∨ (a = 192 ∧ b = 0 ∧ c = 2) ∨
  (a = 198 ∧ b = 51 ∧ c = 100) ∨ (a = 203 ∧ b = 0 ∧ c = 113).
Proof.
  unfold is_blocked_ip, is_loopback, is_unspecified, is_multicast,
    is_blocked_v4, is_link_local, is_private, between, octet. cbn [nth].
  destruct (Z.eqb_spec a 127) as [->|_];
    [split; [done|]; intros H; repeat (destruct H as [H|H]); lia|].
  repeat match goal with |- context [if ?b then true else ?c] =>
    replace (if b then true else c) with (b || c) by (by destruct b) end.
  rewrite !orb_true_iff, !andb_true_iff, !orb_true_iff, !Z.eqb_eq, !Z.leb_le, bool_decide_eq_true.
  assert ([a; b; c; d] = [0; 0; 0; 0] ↔ a = 0 ∧ b = 0 ∧ c = 0 ∧ d = 0) as -> by naive_solver.
  clear. tauto.
Qed.
End v4_blocks.

(** The IPv4 addresses that the validator rejects are exactly those of twelve CIDR blocks:
    the unspecified address, multicast, link-local, the three private blocks, carrier-grade
    NAT, the three documentation blocks, 198.18.0.0/15 and, of 0.0.0.0/8, only 0.18.0.0/15. *)
Theorem blocked_v4_iff (a b c d : Z) :
  0 ≤ a ≤ 255 → 0 ≤ b ≤ 255 → 0 ≤ c ≤ 255 → 0 ≤ d ≤ 255 →
  is_blocked_ip (V4 [a; b; c; d]) = true ↔
  ∃ block, block ∈ v4_blocked ∧ in_block 32 block (v4_value [a; b; c; d]).
Proof. intros Ha Hb Hc Hd. by rewrite in_v4_blocked, blocked_v4_octets. Qed.

(** Masking the high [m] bits above [k]. *)
Lemma land_high_bits s m k :
  0 ≤ k → 0 ≤ m → Z.land s (Z.shiftl (Z.ones m) k) = (s / 2 ^ k) mod 2 ^ m * 2 ^ k.
Proof.
  intros Hk Hm. rewrite <-Z.shiftl_mul_pow2, <-Z.land_ones, <-Z.shiftr_div_pow2 by done.
  apply Z.bits_inj'. intros n Hn. rewrite Z.land_spec, !Z.shiftl_spec, Z.land_spec by done.
  destruct (decide (n < k)).
  - rewrite !(Z.testbit_neg_r _ (n - k)) by lia. by rewrite andb_false_r.
  - rewrite Z.shiftr_spec by lia. by replace (n - k + k) with n by lia.
Qed.
Lemma segment_masks s :
  0 ≤ s ≤ 65535 →
  (Z.land s 65280 =? 65280) = between 65280 s 65535 ∧ (Z.land s 65024 =? 64512) = between 64512 s 65023 ∧
  (Z.land s 65472 =? 65152) = between 65152 s 65215.
Proof.
  intros Hs. change 65280 with (Z.shiftl (Z.ones 8) 8) at 1. change 65024 with (Z.shiftl (Z.ones 7) 9).
  change 65472 with (Z.shiftl (Z.ones 10) 6). rewrite !land_high_bits by done. unfold between.
  change (2 ^ 8) with 256. change (2 ^ 7) with 128. change (2 ^ 9) with 512. change (2 ^ 10) with 1024.
  change (2 ^ 6) with 64. split_and!; apply Bool.eq_iff_eq_true;
    rewrite andb_true_iff, Z.eqb_eq, !Z.leb_le, Z.mod_small;
    Z.to_euclidean_division_equations; lia.
Qed.

(** The IPv6 addresses that the validator rejects are exactly the unspecified address,
    multicast (ff00::/8), unique-local (fc00::/7), link-local (fe80::/10) and documentation
    (2001:db8::/32). *)
Theorem blocked_v6_iff (g0 g1 : Z) (gs : list Z) :
  0 ≤ g0 ≤ 65535 →
  is_blocked_ip (V6 (g0 :: g1 :: gs)) = true ↔
  g0 :: g1 :: gs = [0; 0; 0; 0; 0; 0; 0; 0] ∨ 65280 ≤ g0 ≤ 65535 ∨ 64512 ≤ g0 ≤ 65023 ∨
  65152 ≤ g0 ≤ 65215 ∨ (g0 = 8193 ∧ g1 = 3512).
Proof.
  intros Hg. unfold is_blocked_ip, is_loopback, is_unspecified, is_multicast, is_blocked_v6, octet.
  cbn [nth]. destruct (segment_masks g0 Hg) as (-> & -> & ->).
  case_bool_decide as Hl; [split; [done|]; injection Hl as -> -> ->; intros [?|H]; [done|lia]|].
  repeat match goal with |- context [if ?b then true else ?c] =>
    replace (if b then true else c) with (b || c) by (by destruct b) end.
  unfold between. rewrite !orb_true_iff, !andb_true_iff, !Z.eqb_eq, !Z.leb_le, bool_decide_eq_true.
  clear. tauto.
Qed.

(** ** The addresses that the parser reads

    An IPv4 address is read from its dotted decimal text and from no other; the segments of an
    IPv6 address are eight, of 16 bits each. *)
Definition is_octet (o : Z) : Prop := 0 ≤ o ≤ 255.
Definition is_segment (g : Z) : Prop := 0 ≤ g ≤ 65535.
Definition dotted (a b c d : Z) : string :=
  pretty a +:+ "." +:+ pretty b +:+ "." +:+ pretty c +:+ "." +:+ pretty d.

Definition dec (o : Z) : list N := chars (pretty o).
Definition digits : list N := [48; 49; 50; 51; 52; 53; 54; 55; 56; 57]%N.
Definition dec_value (ds : list N) : Z := foldl (λ acc c, acc * 10 + (Z.of_N c - 48)) 0 ds.
Definition no_digit (s : list N) : Prop := ∀ c, head s = Some c → c ∉ digits.

Lemma elem_of_digits c : c ∈ digits ↔ (48 ≤ c ≤ 57)%N.
Proof.
  unfold digits. rewrite list_elem_of_In. cbn. split; [intros H; repeat destruct H as [<-|H]; lia|lia].
Qed.
Lemma to_digit_10 c : to_digit 10 c = if decide (c ∈ digits) then Some (Z.of_N c - 48) else None.
Proof.
  unfold to_digit, is_ascii_digit.
  destruct (N.leb_spec 48 c), (N.leb_spec c 57), (N.leb_spec 97 c), (N.leb_spec c 122), (N.leb_spec 65 c),
    (N.leb_spec c 90); cbn [andb]; try lia; case_decide as Hc; rewrite elem_of_digits in Hc; try lia; try done;
    match goal with |- context [?x <? 10] => destruct (Z.ltb_spec x 10) end; lia || done.
Qed.
Lemma read_digits_10 ds r : Forall (.∈ digits) ds → no_digit r → ∀ acc n,
  read_digits 10 acc n (ds ++ r) =
    (foldl (λ acc c, acc * 10 + (Z.of_N c - 48)) acc ds, n + Z.of_nat (length ds), r).
Proof.
  intros Hds Hr. induction Hds as [|c ds Hc _ IH]; intros acc n; cbn [app foldl length].
  - destruct r as [|c r]; cbn; [by rewrite Z.add_0_r|]. rewrite to_digit_10, decide_False by (by apply Hr).
    by rewrite Z.add_0_r.
  - cbn. rewrite to_digit_10, decide_True by done. rewrite IH. f_equal. f_equal. lia.
Qed.
Lemma read_digits_split s : ∃ ds r, s = (ds ++ r)%list ∧ Forall (.∈ digits) ds ∧ no_digit r.
Proof.
  induction s as [|c s (ds & r & -> & Hds & Hr)].
  - exists [], []. split_and!; [done|done|]. by intros c [=].
  - destruct (decide (c ∈ digits)).
    + exists (c :: ds), r. split_and!; [done|by constructor|done].
    + exists [], (c :: ds ++ r). split_and!; [done|done|]. by intros c' [= <-].
Qed.

(** Which numbers of at most three digits are read, by enumeration. *)
Definition octet_digits (ds : list N) : bool :=
  negb (bool_decide (head ds = Some 48%N) && (1 <? Z.of_nat (length ds))) && (dec_value ds <=? 255).
Lemma octet_digits_dec ds :
  Forall (.∈ digits) ds → (1 ≤ length ds ≤ 3)%nat → octet_digits ds = true →
  is_octet (dec_value ds) ∧ ds = dec (dec_value ds).
Proof.
  set (ok ds := implb (octet_digits ds) (bool_decide (is_octet (dec_value ds)) && bool_decide (ds = dec (dec_value ds)))).
  intros Hds Hl Ho. assert (ok ds = true) as Hok.
  { destruct ds as [|x [|y [|z [|]]]]; cbn in Hl; try lia; rewrite ?Forall_cons, ?list_elem_of_In in Hds; destruct_and!.
    - assert (forallb (λ x, ok [x]) digits = true) as Hall by by vm_compute.
      rewrite forallb_forall in Hall. auto.
    - assert (forallb (λ x, forallb (λ y, ok [x; y]) digits) digits = true) as Hall by by vm_compute.
      rewrite forallb_forall in Hall. setoid_rewrite forallb_forall in Hall. auto.
    - assert (forallb (λ x, forallb (λ y, forallb (λ z, ok [x; y; z]) digits) digits) digits = true) as Hall by by vm_compute.
      rewrite forallb_forall in Hall. setoid_rewrite forallb_forall in Hall.
      specialize (Hall x ltac:(done) y ltac:(done)). rewrite forallb_forall in Hall. auto. }
  unfold ok in Hok. rewrite Ho in Hok. cbn [implb] in Hok.
  by apply andb_true_iff in Hok as [?%bool_decide_eq_true ?%bool_decide_eq_true].
Qed.
Lemma dec_octet o : is_octet o →
  Forall (.∈ digits) (dec o) ∧ (1 ≤ length (dec o) ≤ 3)%nat ∧ octet_digits (dec o) = true ∧ dec_value (dec o) = o ∧
  Forall (λ x, byte x < 128)%N (bytes (pretty o)).
Proof.
  intros Ho. set (ok o := bool_decide (Forall (.∈ digits) (dec o)) && bool_decide (1 ≤ length (dec o) ≤ 3)%nat &&
    octet_digits (dec o) && bool_decide (dec_value (dec o) = o) && bool_decide (Forall (λ x, byte x < 128)%N (bytes (pretty o)))).
  assert (forallb ok (seqZ 0 256) = true) as Hall by by vm_compute.
  rewrite forallb_forall in Hall. specialize (Hall o). rewrite <-list_elem_of_In, elem_of_seqZ in Hall.
  unfold is_octet in Ho. specialize (Hall ltac:(lia)). unfold ok in Hall.
  rewrite !andb_true_iff, !bool_decide_eq_true in Hall. tauto.
Qed.
Lemma read_octet_Some s o r :
  read_number 10 3 255 false s = Some (o, r) → is_octet o ∧ s = (dec o ++ r)%list ∧ no_digit r.
Proof.
  destruct (read_digits_split s) as (ds & r' & -> & Hds & Hr). unfold read_number. rewrite read_digits_10 by done.
  change (foldl _ 0 ds) with (dec_value ds). rewrite Z.add_0_l. intros H. repeat case_match; simplify_eq; arith.
  destruct (octet_digits_dec ds) as [Ho Hd]; [done|lia| |rewrite <-Hd; done].
  unfold octet_digits. apply andb_true_iff. split; [|by arith; lia].
  match goal with H : _ && (1 <? _) = false |- _ => cbn in H; revert H end.
  destruct ds as [|x ds]; [by cbn in *; lia|]. cbn. by intros ->.
Qed.
Lemma read_octet_dec o r : is_octet o → no_digit r → read_number 10 3 255 false (dec o ++ r)%list = Some (o, r).
Proof.
  intros Ho Hr. destruct (dec_octet o Ho) as (Hds & Hl & Hok & Hv & _). unfold read_number. rewrite read_digits_10 by done.
  change (foldl _ 0 (dec o)) with (dec_value (dec o)). rewrite Z.add_0_l. revert Hok. unfold octet_digits. rewrite Hv.
  intros [Hz%negb_true_iff Hmax]%andb_true_iff. destruct (dec o) as [|x ds]; [cbn in Hl; lia|].
  cbn [head app] in *. change (negb false) with true. cbn [andb]. rewrite Hz.
  repeat case_match; arith; try lia; done.
Qed.

Lemma chars_app_ascii s1 s2 : Forall (λ x, byte x < 128)%N (bytes s1) → chars (s1 +:+ s2) = (chars s1 ++ chars s2)%list.
Proof.
  induction s1 as [|x s1 IH]; intros Hf; [done|]. apply Forall_cons in Hf as [Hx Hf]. cbn.
  apply N.ltb_lt in Hx. rewrite Hx. by rewrite IH.
Qed.
Lemma chars_dotted a b c d : is_octet a → is_octet b → is_octet c →
  chars (dotted a b c d) = (dec a ++ 46%N :: dec b ++ 46%N :: dec c ++ 46%N :: dec d)%list.
Proof.
  intros (_ & _ & _ & _ & Ha)%dec_octet (_ & _ & _ & _ & Hb)%dec_octet (_ & _ & _ & _ & Hc)%dec_octet. unfold dotted.
  rewrite chars_app_ascii by done. unfold dec. cbn. rewrite chars_app_ascii by done. cbn. by rewrite chars_app_ascii by done.
Qed.
Lemma no_digit_dot r : no_digit (46%N :: r).
Proof. intros c [= <-]. rewrite elem_of_digits. lia. Qed.
Lemma read_ipv4_Some s os r :
  read_ipv4 s = Some (os, r) → ∃ a b c d, os = [a; b; c; d] ∧ (is_octet a ∧ is_octet b ∧ is_octet c ∧ is_octet d) ∧
    s = (dec a ++ 46%N :: dec b ++ 46%N :: dec c ++ 46%N :: dec d ++ r)%list.
Proof.
  unfold read_ipv4. cbn [read_octets read_separator]. intros H.
  repeat first
    [ match type of H with context [read_number 10 3 255 false ?t] =>
        destruct (read_number 10 3 255 false t) as [[? ?]|] eqn:?; cbn [mbind option_bind] in H; [|discriminate] end
    | match type of H with context [match ?t with [] => None | _ => _ end] =>
        destruct t as [|? ?]; cbn [mbind option_bind] in H; [discriminate|] end
    | match type of H with context [(?x =? 46)%N] =>
        destruct (N.eqb_spec x 46); cbn [mbind option_bind] in H; [|discriminate] end ].
  injection H as <- <-. repeat match goal with H : read_number _ _ _ _ _ = _ |- _ => apply read_octet_Some in H as (? & ? & _) end.
  subst. by eexists _, _, _, _.
Qed.
Lemma read_ipv4_dotted a b c d : is_octet a → is_octet b → is_octet c → is_octet d →
  read_ipv4 (chars (dotted a b c d)) = Some ([a; b; c; d], []).
Proof.
  intros Ha Hb Hc Hd. rewrite chars_dotted by done. unfold read_ipv4. cbn [read_octets read_separator].
  pose proof no_digit_dot as Hdot. rewrite read_octet_dec by done. cbn [mbind option_bind]. rewrite N.eqb_refl.
  rewrite read_octet_dec by done. cbn [mbind option_bind]. rewrite N.eqb_refl.
  rewrite read_octet_dec by done. cbn [mbind option_bind]. rewrite N.eqb_refl.
  rewrite <-(app_nil_r (dec d)). rewrite read_octet_dec by (done || by intros ? [=]). done.
Qed.
Lemma parse_ip_v4 t os : parse_ip t = Some (V4 os) ↔
  ∃ a b c d, os = [a; b; c; d] ∧ (is_octet a ∧ is_octet b ∧ is_octet c ∧ is_octet d) ∧ chars t = chars (dotted a b c d).
Proof.
  unfold parse_ip. split.
  - destruct (read_ipv4 (chars t)) as [[os' r]|] eqn:E; [|by repeat case_match].
    destruct r; [|done]. intros [= ->]. apply read_ipv4_Some in E as (a & b & c & d & -> & Ho & Hc).
    exists a, b, c, d. destruct_and!. rewrite app_nil_r in Hc. by rewrite chars_dotted.
  - intros (a & b & c & d & -> & (? & ? & ? & ?) & ->). by rewrite read_ipv4_dotted.
Qed.

Lemma to_digit_nonneg radix c d : to_digit radix c = Some d → 0 ≤ d.
Proof.
  unfold to_digit, is_ascii_digit. intros H. repeat case_match; simplify_eq;
    repeat match goal with
    | H : (_ && _)%bool = true |- _ => apply andb_true_iff in H as [? ?]
    | H : (_ <=? _)%N = true |- _ => apply N.leb_le in H
    end; lia.
Qed.
Lemma read_digits_nonneg radix s : 0 ≤ radix → ∀ acc n v c r, 0 ≤ acc → read_digits radix acc n s = (v, c, r) → 0 ≤ v.
Proof.
  intros Hr. induction s as [|x s IH]; intros acc n v c r Ha; cbn; [by intros [= <- _ _]|].
  destruct (to_digit radix x) as [d|] eqn:Hd; [|by intros [= <- _ _]].
  apply IH. apply to_digit_nonneg in Hd. nia.
Qed.
Lemma read_group_segment s g r : read_number 16 4 65535 true s = Some (g, r) → is_segment g.
Proof.
  unfold read_number. destruct (read_digits 16 0 0 s) as [[v c] r'] eqn:E. apply read_digits_nonneg in E; [|done..].
  intros H. repeat case_match; simplify_eq; arith. by split.
Qed.
Lemma read_separated {A} sep i (inner : reader A) s x : read_separator sep i inner s = Some x → ∃ s', inner s' = Some x.
Proof. destruct i; cbn; [eauto|]. destruct s as [|c s]; [done|]. destruct (c =? sep)%N; eauto; done. Qed.
Lemma read_groups_segments n : ∀ i s gs v4 r, read_groups i n s = (gs, v4, r) →
  (length gs ≤ n)%nat ∧ Forall is_segment gs.
Proof.
  induction n as [|n IH]; intros i s gs v4 r; cbn [read_groups]; [by intros [= <- _ _]|].
  assert (match match read_separator 58 i (read_number 16 4 65535 true) s with
          | Some (g, r) => let '(gs, v4, r) := read_groups (S i) n r in (g :: gs, v4, r)
          | None => ([], false, s) end with (gs, _, _) => (length gs ≤ S n)%nat ∧ Forall is_segment gs end) as Hone.
  { destruct (read_separator _ _ _ _) as [[g r']|] eqn:E; [|by split; [cbn; lia|]].
    apply read_separated in E as [s' E%read_group_segment]. destruct (read_groups (S i) n r') as [[gs' v] r''] eqn:Hg.
    apply IH in Hg as [Hl Hf]. split; [cbn; lia|by constructor]. }
  destruct n as [|n]; [intros H; by rewrite H in Hone|].
  destruct (read_separator 58 i read_ipv4 s) as [[os r']|] eqn:E; [|intros H; by rewrite H in Hone].
  apply read_separated in E as [s' (a & b & c & d & -> & (Ha & Hb & Hc & Hd) & _)%read_ipv4_Some].
  intros [= <- _ _]. unfold is_octet in *. split; [cbn; lia|]. repeat constructor; unfold is_segment; lia.
Qed.
Lemma parse_ip_v6 t gs : parse_ip t = Some (V6 gs) → length gs = 8%nat ∧ Forall is_segment gs.
Proof.
  unfold parse_ip. destruct (read_ipv4 _) as [[os r]|]; [by destruct r|].
  destruct (read_ipv6 _) as [[gs' r]|] eqn:E; [|done]. destruct r; [|done]. intros [= ->]. unfold read_ipv6 in E.
  destruct (read_groups 0 8 (chars t)) as [[front v4] r] eqn:Hf. apply read_groups_segments in Hf as [Hl Hf].
  destruct (Nat.eqb_spec (length front) 8) as [H8|H8]; [by injection E as <- _|]. destruct v4; [done|].
  destruct r as [|x [|y r]]; try (by repeat case_match).
  destruct (decide (x = 58%N)) as [->|]; [|by repeat case_match]. destruct (decide (y = 58%N)) as [->|]; [|by repeat case_match].
  destruct (read_groups 0 (7 - length front) r) as [[back v] r'] eqn:Hb. apply read_groups_segments in Hb as [Hlb Hb].
  injection E as <- _. split; [rewrite !length_app, repeat_length; lia|].
  apply Forall_app. split; [done|]. apply Forall_app. split; [|done]. apply Forall_forall. intros g ->%list_elem_of_In%repeat_spec.
  by split.
Qed.

(** The blocks of IPv6 addresses that are rejected: unspecified, multicast, unique-local, link-local and documentation. *)
Definition v6_value (gs : list Z) : Z := foldl (λ acc g, acc * 65536 + g) 0 gs.
Definition v6_blocked : list (Z * Z) := [
  (v6_value [0; 0; 0; 0; 0; 0; 0; 0], 128); (v6_value [65280; 0; 0; 0; 0; 0; 0; 0], 8);
  (v6_value [64512; 0; 0; 0; 0; 0; 0; 0], 7); (v6_value [65152; 0; 0; 0; 0; 0; 0; 0], 10);
  (v6_value [8193; 3512; 0; 0; 0; 0; 0; 0], 32)].
Lemma v6_value_parts a b c d e f g h : ∃ lo, v6_value [a; b; c; d; e; f; g; h] = (a * 65536 + b) * 2 ^ 96 + lo ∧
  (is_segment c → is_segment d → is_segment e → is_segment f → is_segment g → is_segment h → 0 ≤ lo < 2 ^ 96) ∧
  (is_segment c → is_segment d → is_segment e → is_segment f → is_segment g → is_segment h →
    lo = 0 ↔ c = 0 ∧ d = 0 ∧ e = 0 ∧ f = 0 ∧ g = 0 ∧ h = 0).
Proof.
  exists (v6_value [c; d; e; f; g; h]). unfold v6_value, is_segment. cbn [foldl].
  change (2 ^ 96) with 79228162514264337593543950336. split_and!; lia.
Qed.
Lemma blocked_v6_blocks gs : length gs = 8%nat → Forall is_segment gs →
  is_blocked_ip (V6 gs) = true ↔ ∃ block, block ∈ v6_blocked ∧ in_block 128 block (v6_value gs).
Proof.
  intros Hl Hf. destruct gs as [|a [|b [|c [|d [|e [|f [|g [|h [|]]]]]]]]]; cbn in Hl; try lia.
  rewrite !Forall_cons in Hf. destruct Hf as (Ha & Hb & Hc & Hd & He & Hff & Hg & Hh & _).
  rewrite blocked_v6_iff by exact Ha. rewrite exists_elem. unfold v6_blocked. rewrite !Exists_cons, Exists_nil.
  destruct (v6_value_parts a b c d e f g h) as (lo & -> & Hlo & Hz). specialize (Hlo Hc Hd He Hff Hg Hh).
  specialize (Hz Hc Hd He Hff Hg Hh). unfold in_block, is_segment in *. cbn [fst snd].
  repeat match goal with |- context [v6_value ?l] => let v := eval vm_compute in (v6_value l) in change (v6_value l) with v end.
  repeat match goal with |- context [2 ^ ?n] => let v := eval vm_compute in (2 ^ n) in change (2 ^ n) with v end.
  change (2 ^ 96) with 79228162514264337593543950336 in Hlo.
  assert ([a; b; c; d; e; f; g; h] = [0; 0; 0; 0; 0; 0; 0; 0] ↔ a = 0 ∧ b = 0 ∧ lo = 0) as ->; [|lia].
  rewrite Hz. split; [by intros [= -> -> -> -> -> -> -> ->]|naive_solver].
Qed.

(** What the literal address of a host decides, spelled out. *)
Lemma literal_accepted t : (∀ ip, parse_ip t = Some ip → is_blocked_ip ip = false) ↔
  (∀ a b c d, is_octet a → is_octet b → is_octet c → is_octet d → chars t = chars (dotted a b c d) →
     ¬ ∃ block, block ∈ v4_blocked ∧ in_block 32 block (v4_value [a; b; c; d])) ∧
  (∀ gs, parse_ip t = Some (V6 gs) → ¬ ∃ block, block ∈ v6_blocked ∧ in_block 128 block (v6_value gs)).
Proof.
  setoid_rewrite <-not_true_iff_false. split.
  - intros H. split.
    + intros a b c d Ha Hb Hc Hd Ht. rewrite <-blocked_v4_iff by done. apply H, parse_ip_v4. by exists a, b, c, d.
    + intros gs Hg. destruct (parse_ip_v6 _ _ Hg). rewrite <-blocked_v6_blocks by done. by apply H.
  - intros [H4 H6] [os|gs] Hip.
    + apply parse_ip_v4 in Hip as (a & b & c & d & -> & (? & ? & ? & ?) & Ht). rewrite blocked_v4_iff by done. by apply H4.
    + destruct (parse_ip_v6 _ _ Hip). rewrite blocked_v6_blocks by done. by apply H6.
Qed.
Lemma literal_loopback t : (∃ ip, parse_ip t = Some ip ∧ is_loopback ip = true) ↔
  (∃ b c d, is_octet b ∧ is_octet c ∧ is_octet d ∧ chars t = chars (dotted 127 b c d)) ∨
  parse_ip t = Some (V6 [0; 0; 0; 0; 0; 0; 0; 1]).
Proof.
  split.
  - intros ([os|gs] & Hip & Hl); [left|right].
    + apply parse_ip_v4 in Hip as (a & b & c & d & -> & (? & ? & ? & ?) & Ht). apply Z.eqb_eq in Hl. cbn in Hl. subst.
      by exists b, c, d.
    + apply bool_decide_eq_true in Hl. by subst.
  - intros [(b & c & d & Hb & Hc & Hd & Ht)|Hip]; [|by exists (V6 [0; 0; 0; 0; 0; 0; 0; 1])].
    exists (V4 [127; b; c; d]). split; [|done]. apply parse_ip_v4. by exists 127, b, c, d.
Qed.

Section validator_theorems.
Context (parse_url : string → result string Url).

(** The validator, up to the classification of the literal address. *)
Lemma validate_upstream_url_parts (raw : string) :
  validate_upstream_url parse_url raw = Ok tt ↔
  ∃ url host, parse_url raw = Ok url ∧ host_str url = Some host ∧
    (scheme url = "http" ∨ scheme url = "https") ∧
    to_ascii_lowercase host ∉ METADATA_HOSTS ∧
    (∀ ip, parse_ip (host_for_ip host) = Some ip → is_blocked_ip ip = false) ∧
    (scheme url = "http" → to_ascii_lowercase host ∈ ["localhost"; "localhost.localdomain"] ∨
       ∃ ip, parse_ip (host_for_ip host) = Some ip ∧ is_loopback ip = true).
Proof.
  unfold validate_upstream_url, host_is_blocked, is_loopback_host. split.
  - intros Hv. res_inv. destruct (parse_url raw) as [url|]; [|done]. res_inv.
    eexists _, _. split_and!; [done|done| | | |].
    + arith. rewrite andb_false_iff, !negb_false_iff, !bool_decide_eq_true in *. tauto.
    + by arith.
    + intros ip Hip. match goal with H : negb (match parse_ip _ with _ => _ end) = true |- _ =>
        rewrite Hip in H; by apply negb_true_iff in H end.
    + intros Hs. rewrite bool_decide_eq_true_2 in Hv by done. apply negb_true_iff, negb_false_iff in Hv.
      case_bool_decide as Hl; [by left|right]. destruct (parse_ip _) as [ip|]; [|done]. by exists ip.
  - intros (url & host & -> & Hh & Hs & Hm & Hb & Hp). cbn [mbind result_bind].
    assert ((match parse_ip (host_for_ip host) with Some ip => is_blocked_ip ip | None => false end) = false) as Hblocked.
    { destruct (parse_ip (host_for_ip host)) as [ip|]; [by apply Hb|done]. }
    assert (negb (negb (bool_decide (scheme url = "http")) && negb (bool_decide (scheme url = "https"))) = true) as ->.
    { destruct Hs as [->| ->]; vm_compute; reflexivity. }
    rewrite Hh. cbn [ensure ok_or mbind result_bind]. rewrite (bool_decide_eq_false_2 _ Hm), Hblocked.
    cbn [negb ensure mbind result_bind]. case_bool_decide as Hhttp; [|done].
    destruct (Hp Hhttp) as [Hl|(ip & -> & Hl)]; case_bool_decide; by rewrite ?Hl.
Qed.

(** C38: a URL is accepted exactly when it parses, its scheme is http or https, and its host is none of the four metadata
    aliases in any case, no dotted decimal IPv4 address of the twelve blocks of [v4_blocked] (unspecified, multicast,
    link-local, private, carrier-grade NAT, documentation, 198.18.0.0/15 and 0.18.0.0/15) and no literal IPv6 address of
    the five blocks of [v6_blocked] (unspecified, multicast, unique-local, link-local, documentation); and plain http goes
    only to the two names of the local host, to 127.0.0.0/8 and to ::1. Loopback literals are therefore accepted, for
    either scheme, although the validator's documentation lists them among the addresses it rejects. *)
Theorem validate_upstream_url_iff (raw : string) :
  validate_upstream_url parse_url raw = Ok tt ↔
  ∃ url host, parse_url raw = Ok url ∧ host_str url = Some host ∧
    (scheme url = "http" ∨ scheme url = "https") ∧
    to_ascii_lowercase host ∉
      ["instance-data"; "instance-data.ec2.internal"; "metadata.google.internal"; "metadata.google.com"] ∧
    (∀ a b c d, is_octet a → is_octet b → is_octet c → is_octet d → chars (host_for_ip host) = chars (dotted a b c d) →
       ¬ ∃ block, block ∈ v4_blocked ∧ in_block 32 block (v4_value [a; b; c; d])) ∧
    (∀ gs, parse_ip (host_for_ip host) = Some (V6 gs) →
       ¬ ∃ block, block ∈ v6_blocked ∧ in_block 128 block (v6_value gs)) ∧
    (scheme url = "http" → to_ascii_lowercase host ∈ ["localhost"; "localhost.localdomain"] ∨
       (∃ b c d, is_octet b ∧ is_octet c ∧ is_octet d ∧ chars (host_for_ip host) = chars (dotted 127 b c d)) ∨
       parse_ip (host_for_ip host) = Some (V6 [0; 0; 0; 0; 0; 0; 0; 1])).
Proof.
  rewrite validate_upstream_url_parts. setoid_rewrite literal_accepted. setoid_rewrite literal_loopback.
  split; intros (url & host & ?); exists url, host; tauto.
Qed.

(** An IPv4-mapped IPv6 literal is never rejected as an address, whatever IPv4 address
    it carries; https to [::ffff:169.254.169.254], the metadata service, is accepted. *)
Theorem mapped_v4_is_accepted (raw : string) (hi lo : Z) :
  parse_url raw = Ok {| scheme := "https"; host_str := Some "[::ffff:a9fe:a9fe]" |} →
  is_blocked_ip (V6 [0; 0; 0; 0; 0; 65535; hi; lo]) = false ∧
  parse_ip "::ffff:169.254.169.254" = parse_ip (host_for_ip "[::ffff:a9fe:a9fe]") ∧
  validate_upstream_url parse_url raw = Ok tt.
Proof.
  intros Hp. unfold validate_upstream_url. rewrite Hp. split_and!; [|by vm_compute|by vm_compute].
  unfold is_blocked_ip, is_loopback, is_unspecified. by rewrite !bool_decide_eq_false_2.
Qed.
End validator_theorems.
