(* ===== verification/SseDecoder.v ===== *)
(** The bounded server-sent-event decoder and the relay that reads typed items from it
    ([crates/bitrouter-sdk/src/stream.rs]). JSON ([serde_json]) and the error envelopes are
    other code: the class [Payload] holds what the relay asks of them. *)
From stdpp Require Import base list strings gmap pretty sorting.
From Stdlib Require Import ZArith Lia Ascii.
From S2P Require Import Prelude.
Open Scope string_scope.
Open Scope Z_scope.

(** ** The decoder *)

Record SseEvent := { ev_event : string; ev_id : string; ev_data : string }.
Inductive FrameError := Limit | Response (message : string).

Record SseDecoder := {
  limit : Z; size : Z; line : list ascii; data : string; event : string; id : string;
  after_cr : bool; first_line : bool;
}.
Definition SseDecoder_new (limit : Z) : SseDecoder := {|
  limit := limit; size := 0; line := []; data := ""; event := ""; id := "";
  after_cr := false; first_line := true |}.

Definition CR : ascii := "013"%char.
Definition LF : ascii := "010"%char.
Definition BOM : string := String "239" (String "187" (String "191" EmptyString)).
Definition unwrap_or {A} (o : option A) (a : A) : A := match o with Some x => x | None => a end.

(** [data.pop()] on a text that ends with an appended LF. *)
Fixpoint pop (s : string) : string :=
  match s with
  | EmptyString => EmptyString
  | String a EmptyString => EmptyString
  | String a r => String a (pop r)
  end.

(** What a field line does to [data], [event] and [id]. *)
Definition field (d e i : string) (text : string) : string * string * string :=
  if starts_with ":" text then (d, e, i)
  else
    let '(name, value) := unwrap_or (split_once ":"%char text) (text, "") in
    let value := unwrap_or (strip_prefix " " value) value in
    if bool_decide (name = "data") then (d +:+ value +:+ String LF EmptyString, e, i)
    else if bool_decide (name = "event") then (d, value, i)
    else if bool_decide (name = "id") && negb (contains (String "000" EmptyString) value) then (d, e, value)
    else (d, e, i).

(** The line ending, once the line is complete. *)
Definition end_of_line (s : SseDecoder) : result FrameError (SseDecoder * option SseEvent) :=
  _ ← ensure (valid_utf8 (line s)) (Response "invalid SSE UTF-8");
  let text := string_of (line s) in
  let text := if first_line s then unwrap_or (strip_prefix BOM text) text else text in
  if is_empty text then
    if is_empty (data s) then
      Ok ({| limit := limit s; size := 0; line := []; data := data s; event := ""; id := id s;
             after_cr := after_cr s; first_line := false |}, None)
    else
      Ok ({| limit := limit s; size := 0; line := []; data := ""; event := ""; id := id s;
             after_cr := after_cr s; first_line := false |},
          Some {| ev_event := if is_empty (event s) then "message" else event s; ev_id := id s;
                  ev_data := pop (data s) |})
  else
    let '(d, e, i) := field (data s) (event s) (id s) text in
    Ok ({| limit := limit s; size := size s; line := []; data := d; event := e; id := i;
           after_cr := after_cr s; first_line := false |}, None).

Definition with_size (s : SseDecoder) (n : Z) (cr : bool) (l : list ascii) : SseDecoder := {|
  limit := limit s; size := n; line := l; data := data s; event := event s; id := id s;
  after_cr := cr; first_line := first_line s |}.

Definition accept (s : SseDecoder) (b : ascii) : result FrameError (SseDecoder * option SseEvent) :=
  if after_cr s && bool_decide (b = LF) then
    let n := if negb (size s =? 0) then size s +| 1 else size s in
    _ ← ensure (negb (limit s <? n)) Limit;
    Ok (with_size s n false (line s), None)
  else
    let n := size s +| 1 in
    _ ← ensure (negb (limit s <? n)) Limit;
    if negb (bool_decide (b = CR) || bool_decide (b = LF)) then
      Ok (with_size s n (bool_decide (b = CR)) (line s ++ [b])%list, None)
    else end_of_line (with_size s n (bool_decide (b = CR)) (line s)).

Definition finish (s : SseDecoder) : result FrameError unit :=
  ensure (valid_utf8 (line s)) (Response "invalid SSE UTF-8").
Definition finish_attachment (s : SseDecoder) : result FrameError unit :=
  _ ← finish s;
  ensure (negb (negb (bool_decide (line s = [])) || negb (is_empty (data s)) || negb (is_empty (event s))))
    (Response "incomplete harness observation frame").

(** The events of a sequence of bytes, in order. *)
Fixpoint run (s : SseDecoder) (bs : list ascii) : result FrameError (SseDecoder * list SseEvent) :=
  match bs with
  | [] => Ok (s, [])
  | b :: bs =>
      '(s, ev) ← accept s b;
      '(s, evs) ← run s bs;
      Ok (s, option_list ev ++ evs)%list
  end.

(** ** The relay *)

Inductive Protocol := Chat | Messages | Responses | ManagedResponses.
#[export] Instance Protocol_eq_dec : EqDecision Protocol. Proof. solve_decision. Defined.
Inductive ProtocolEnd :=
| ChatDone | MessagesStop | ResponsesCompleted | ResponsesIncomplete | ResponsesFailed.

(** [serde_json] and the typed envelopes, by what the relay asks of them. *)
Class Payload := {
  Json : Type; T : Type; GatewayErrorEnvelope : Type; CoreErrorEnvelope : Type; Headers : Type;
  json_from_str : string → option Json;
  (** [data.get("type").and_then(as_str)] and [data.get("error").is_some()] *)
  json_type : Json → option string;
  json_has_error : Json → bool;
  (** [data.get("message").is_some_and(is_string)] and [json!({"error": data})] *)
  json_has_message : Json → bool;
  json_wrap_error : Json → Json;
  (** [data.get("response")...get("status")...as_str] *)
  json_response_status : Json → option string;
  json_decode : Json → option T;
  gateway_envelope : Json → option GatewayErrorEnvelope;
  core_envelope : Json → option CoreErrorEnvelope;
}.

Section relay.
Context `{Payload}.

Record ServerEvent := { se_event : string; se_id : string; se_data : T }.
Inductive StreamItem := Event (e : ServerEvent) | End (e : ProtocolEnd).
Record ServiceFailure (B : Type) := {
  f_status : Z; f_headers : Headers; f_body : option B; f_body_error : option string;
}.
Inductive RelayError :=
| Frame (e : FrameError)
| Transport
| IncompleteStream
| CoreStream (f : ServiceFailure CoreErrorEnvelope)
| GatewayStream (f : ServiceFailure GatewayErrorEnvelope).

Definition failure {B} (status : Z) (headers : Headers) (decoded : result string B) : ServiceFailure B := {|
  f_status := status; f_headers := headers;
  f_body := match decoded with Ok b => Some b | Err _ => None end;
  f_body_error := match decoded with Ok _ => None | Err e => Some e end |}.
Definition error_event (d : result string Json) (protocol : Protocol) (status : Z) (headers : Headers)
    : RelayError :=
  let envelope := d ← d; Ok (if negb (json_has_error d) && json_has_message d
                             then json_wrap_error d else d) in
  if bool_decide (protocol = ManagedResponses) then
    CoreStream (failure status headers
      (e ← envelope; ok_or (core_envelope e) "invalid core stream error envelope"))
  else
    GatewayStream (failure status headers
      (e ← envelope; ok_or (gateway_envelope e) "invalid stream error envelope")).

Definition is_terminal (protocol : Protocol) (kind : option string) : bool :=
  match protocol with
  | Chat => false
  | Messages => bool_decide (kind = Some "message_stop")
  | Responses | ManagedResponses =>
      bool_decide (kind ∈ [Some "response.completed"; Some "response.incomplete"; Some "response.failed"])
  end.
Definition protocol_end (kind : option string) : option ProtocolEnd :=
  if bool_decide (kind = Some "message_stop") then Some MessagesStop
  else if bool_decide (kind = Some "response.completed") then Some ResponsesCompleted
  else if bool_decide (kind = Some "response.incomplete") then Some ResponsesIncomplete
  else if bool_decide (kind = Some "response.failed") then Some ResponsesFailed
  else None.
Definition is_responses (protocol : Protocol) : bool :=
  match protocol with Responses | ManagedResponses => true | _ => false end.

(** One framed event: the items it yields and whether the stream is over. *)
Definition relay_event (protocol : Protocol) (status : Z) (headers : Headers) (e : SseEvent)
    : result RelayError (list StreamItem * bool) :=
  if bool_decide (protocol = Chat) && negb (bool_decide (ev_event e = "error"))
     && bool_decide (ev_data e = "[DONE]")
  then Ok ([End ChatDone], true)
  else
    d ← match json_from_str (ev_data e) with
        | Some d => Ok d
        | None => Err (if bool_decide (ev_event e = "error")
                       then error_event (Err "SSE data is not JSON") protocol status headers
                       else Frame (Response "SSE data is not JSON"))
        end;
    let kind := json_type d in
    _ ← ensure (negb (json_has_error d || bool_decide (ev_event e = "error")
                      || bool_decide (kind = Some "error")))
          (error_event (Ok d) protocol status headers);
    _ ← ensure (negb (negb (bool_decide (protocol = Chat)) && negb (bool_decide (ev_event e = "message"))
                      && negb (bool_decide (Some (ev_event e) = kind))))
          (Frame (Response "SSE event name disagrees with its data type"));
    let terminal := is_terminal protocol kind in
    _ ← ensure (negb (terminal && is_responses protocol
                      && negb (bool_decide (json_response_status d = k ← kind; strip_prefix "response." k))))
          (Frame (Response "terminal event is missing its matching response status"));
    let end_ := if terminal then protocol_end kind else None in
    t ← ok_or (json_decode d) (Frame (Response "SSE data does not match the public contract"));
    Ok (Event {| se_event := ev_event e; se_id := ev_id e; se_data := t |}
          :: option_list (End <$> end_), terminal).

(** A stream yields items and then ends, with an error or without. *)
Definition outcome : Type := list StreamItem * option RelayError.
Definition yield (items : list StreamItem) (o : outcome) : outcome := (items ++ o.1, o.2)%list.

(** The bytes of one chunk; [k] continues with the decoder after it. *)
Fixpoint relay_bytes (protocol : Protocol) (status : Z) (headers : Headers) (s : SseDecoder)
    (bs : list ascii) (k : SseDecoder → outcome) : outcome :=
  match bs with
  | [] => k s
  | b :: bs =>
      match accept s b with
      | Err e => ([], Some (Frame e))
      | Ok (s, None) => relay_bytes protocol status headers s bs k
      | Ok (s, Some e) =>
          match relay_event protocol status headers e with
          | Err err => ([], Some err)
          | Ok (items, true) => (items, None)
          | Ok (items, false) => yield items (relay_bytes protocol status headers s bs k)
          end
      end
  end.
(** The chunks of the response body; [None] is a transport error. *)
Fixpoint relay_chunks (protocol : Protocol) (status : Z) (headers : Headers)
    (chunks : list (option (list ascii))) (s : SseDecoder) : outcome :=
  match chunks with
  | [] => ([], Some (match finish s with Ok _ => IncompleteStream | Err e => Frame e end))
  | None :: _ => ([], Some Transport)
  | Some bs :: chunks =>
      relay_bytes protocol status headers s bs (relay_chunks protocol status headers chunks)
  end.
Definition decode_relay (protocol : Protocol) (status : Z) (headers : Headers) (limit : Z)
    (chunks : list (option (list ascii))) : outcome :=
  relay_chunks protocol status headers chunks (SseDecoder_new limit).

(** [decode]: the events up to the first explicit end. *)
Fixpoint decode_items (items : list StreamItem) (err : option RelayError)
    : list ServerEvent * option RelayError :=
  match items with
  | [] => ([], err)
  | Event e :: items => let '(es, r) := decode_items items err in (e :: es, r)
  | End _ :: _ => ([], None)
  end.
Definition decode (protocol : Protocol) (status : Z) (headers : Headers) (limit : Z)
    (chunks : list (option (list ascii))) : list ServerEvent * option RelayError :=
  let '(items, err) := decode_relay protocol status headers limit chunks in decode_items items err.
End relay.

(** ** Theorems *)

(** The line-by-line algorithm, with no bytes, sizes or line endings. *)
Record FrameState := { f_data : string; f_event : string; f_id : string; f_first : bool }.
Definition FrameState_init : FrameState := {| f_data := ""; f_event := ""; f_id := ""; f_first := true |}.
Definition line_step (f : FrameState) (l : list ascii) : result FrameError (FrameState * option SseEvent) :=
  _ ← ensure (valid_utf8 l) (Response "invalid SSE UTF-8");
  let text := if f_first f then unwrap_or (strip_prefix BOM (string_of l)) (string_of l) else string_of l in
  if is_empty text then
    Ok ({| f_data := ""; f_event := ""; f_id := f_id f; f_first := false |},
        if is_empty (f_data f) then None
        else Some {| ev_event := if is_empty (f_event f) then "message" else f_event f;
                     ev_id := f_id f; ev_data := pop (f_data f) |})
  else
    let '(d, e, i) := field (f_data f) (f_event f) (f_id f) text in
    Ok ({| f_data := d; f_event := e; f_id := i; f_first := false |}, None).
Fixpoint lines_events (f : FrameState) (ls : list (list ascii)) : result FrameError (list SseEvent) :=
  match ls with
  | [] => Ok []
  | l :: ls =>
      '(f, ev) ← line_step f l;
      evs ← lines_events f ls;
      Ok (option_list ev ++ evs)%list
  end.
Inductive line_ending : list ascii → Prop :=
| eol_lf : line_ending [LF] | eol_cr : line_ending [CR] | eol_crlf : line_ending [CR; LF].
Definition encode_lines (eol : list ascii) (ls : list (list ascii)) : list ascii :=
  concat (map (λ l, l ++ eol)%list ls).

Section decoder.
Implicit Types (s : SseDecoder) (bs : list ascii).

Lemma is_empty_true (x : string) : is_empty x = true ↔ x = "".
Proof. by destruct x. Qed.
Lemma strip_prefix_len p x y : strip_prefix p x = Some y → len y ≤ len x.
Proof. intros ->%strip_prefix_Some. rewrite len_app. pose proof (len_nonneg p). lia. Qed.
Lemma unwrap_strip_len p x : len (unwrap_or (strip_prefix p x) x) ≤ len x.
Proof. destruct (strip_prefix p x) eqn:E; cbn; [by eapply strip_prefix_len|lia]. Qed.
Lemma len_string_of l : len (string_of l) = Z.of_nat (length l).
Proof. unfold len. by rewrite <-length_bytes, bytes_string_of. Qed.
Lemma len_pop x : len (pop x) ≤ len x.
Proof.
  induction x as [|a x IH]; [done|]. unfold len in *. destruct x; [cbn; lia|].
  change (pop (String a (String a0 x))) with (String a (pop (String a0 x))). cbn [String.length] in *. lia.
Qed.

Lemma split_value_len text name value :
  text ≠ "" → unwrap_or (split_once ":"%char text) (text, "") = (name, value) → len value + 1 ≤ len text.
Proof.
  intros Hne. destruct (split_once ":"%char text) as [[n v]|] eqn:Hs; cbn [unwrap_or]; intros [= -> <-].
  - apply split_once_Some in Hs as [-> _]. rewrite len_app. pose proof (len_nonneg name).
    unfold len in *. cbn [String.length]. lia.
  - destruct name; [done|]. unfold len. cbn [String.length]. lia.
Qed.
(** A field line adds to the buffers no more than its own text. *)
Lemma field_len d e i text d' e' i' :
  text ≠ "" → field d e i text = (d', e', i') → len d' + len e' ≤ len d + len e + len text.
Proof.
  unfold field. intros Hne. pose proof (len_nonneg e). pose proof (len_nonneg d).
  pose proof (len_nonneg text). destruct (starts_with ":" text); [intros [= <- <- <-]; lia|].
  destruct (unwrap_or (split_once ":"%char text) (text, "")) as [name value] eqn:Hs.
  apply split_value_len in Hs; [|done]. pose proof (unwrap_strip_len " " value) as Hv.
  revert Hv. generalize (unwrap_or (strip_prefix " " value) value). intros v Hv.
  repeat case_match; intros [= <- <- <-]; rewrite ?len_app; unfold len in *; cbn [String.length]; lia.
Qed.

(** The budget: what is buffered was paid for, byte by byte, within the limit. *)
Record within_budget s : Prop := {
  wb_buffers : Z.of_nat (length (line s)) + len (data s) + len (event s) ≤ size s;
  wb_size : size s ≤ limit s;
  wb_limit : limit s < u64_max;
}.
Definition event_within (n : Z) (e : SseEvent) : Prop :=
  len (ev_data e) ≤ n ∧ (ev_event e = "message" ∨ len (ev_event e) ≤ n).

Lemma end_of_line_budget s s' ev :
  Z.of_nat (length (line s)) + len (data s) + len (event s) < size s → size s ≤ limit s →
  limit s < u64_max → end_of_line s = Ok (s', ev) →
  within_budget s' ∧ limit s' = limit s ∧ ∀ e, ev = Some e → event_within (limit s) e.
Proof.
  intros Hb Hs Hl. pose proof (len_nonneg (data s)). pose proof (len_nonneg (event s)).
  unfold end_of_line. intros He. res_inv.
  set (text := if first_line s then _ else _) in He.
  assert (len text ≤ Z.of_nat (length (line s))) as Ht.
  { unfold text. pose proof (unwrap_strip_len BOM (string_of (line s))).
    rewrite len_string_of in *. destruct (first_line s); [done|]. rewrite len_string_of. lia. }
  destruct (is_empty text) eqn:Hempty; [destruct (is_empty (data s)) eqn:Hd|].
  - injection He as <- <-. apply is_empty_true in Hd. split; [|split; [done|by intros ? [=]]].
    constructor; cbn; [by rewrite Hd|lia|done].
  - injection He as <- <-. split; [|split; [done|]]; [constructor; cbn; [done|lia|done]|].
    intros e [= <-]. split; cbn; [pose proof (len_pop (data s)); lia|].
    destruct (is_empty (event s)); [by left|right; lia].
  - destruct (field (data s) (event s) (id s) text) as [[d e] i] eqn:Hf. injection He as <- <-.
    apply field_len in Hf; [|by intros ->]. split; [|split; [done|by intros ? [=]]].
    constructor; cbn; lia.
Qed.
Lemma accept_budget s b s' ev :
  within_budget s → accept s b = Ok (s', ev) →
  within_budget s' ∧ limit s' = limit s ∧ ∀ e, ev = Some e → event_within (limit s) e.
Proof.
  intros [Hb Hs Hl]. unfold accept, saturating_add. intros Ha.
  destruct (after_cr s && bool_decide (b = LF)); res_inv.
  - apply negb_true_iff, Z.ltb_ge in Hv. split; [|split; [done|by intros ? [=]]].
    destruct (negb (size s =? 0)); constructor; cbn; lia.
  - apply negb_true_iff, Z.ltb_ge in Hv.
    destruct (negb (bool_decide (b = CR) || bool_decide (b = LF))); res_inv.
    + split; [|split; [done|by intros ? [=]]]. constructor; cbn; rewrite ?length_app; cbn; lia.
    + eapply end_of_line_budget in Ha; cbn in *; try done; lia.
Qed.

Lemma run_budget s0 bs s evs :
  within_budget s0 → run s0 bs = Ok (s, evs) →
  within_budget s ∧ limit s = limit s0 ∧ Forall (event_within (limit s0)) evs.
Proof.
  revert s0 s evs. induction bs as [|b bs IH]; intros s0 s evs Hb Hr; cbn in Hr.
  - injection Hr as <- <-. by split_and!.
  - res_inv. destruct v as [s1 ev]. res_inv. destruct v as [s2 evs2]. res_inv.
    eapply accept_budget in Hb as (Hb & Hl & He); [|done].
    apply IH in Hv0 as (? & ? & ?); [|done]. rewrite Hl in *. split_and!; [done|done|].
    destruct ev as [e|]; cbn; [|done]. constructor; [by apply He|done].
Qed.
(** The decoder is bounded by its limit. After any accepted bytes the line, the data and
    the event name in memory are together within the bytes counted, these are within the
    limit, and so was every event that was dispatched. *)
Theorem decoder_is_bounded n bs s evs :
  0 ≤ n < u64_max → run (SseDecoder_new n) bs = Ok (s, evs) →
  Z.of_nat (length (line s)) + len (data s) + len (event s) ≤ size s ≤ n ∧
  Forall (event_within n) evs.
Proof.
  intros Hn (Hb & Hl & Hf)%run_budget; [|constructor; cbn; [done|lia|lia]].
  cbn [limit SseDecoder_new] in Hl, Hf. destruct Hb. split; [lia|done].
Qed.

(** ** Refinement of the line-by-line algorithm *)

Definition frame_of s : FrameState :=
  {| f_data := data s; f_event := event s; f_id := id s; f_first := first_line s |}.
Definition plain (l : list ascii) : Prop := CR ∉ l ∧ LF ∉ l.

Lemma run_app s bs1 bs2 :
  run s (bs1 ++ bs2) =
    '(s1, e1) ← run s bs1; '(s2, e2) ← run s1 bs2; Ok (s2, e1 ++ e2)%list.
Proof.
  revert s. induction bs1 as [|b bs1 IH]; intros s; cbn [app run].
  - cbn. by destruct (run s bs2) as [[s2 e2]|].
  - destruct (accept s b) as [[s1 ev]|]; cbn; [|done]. rewrite IH.
    destruct (run s1 bs1) as [[s2 e1]|]; cbn; [|done].
    destruct (run s2 bs2) as [[s3 e2]|]; cbn; [|done]. by rewrite app_assoc.
Qed.

Lemma run_plain s l :
  plain l → 0 ≤ size s → size s + Z.of_nat (length l) ≤ limit s → limit s < u64_max →
  run s l = Ok (with_size s (size s + Z.of_nat (length l))
    (match l with [] => after_cr s | _ => false end) (line s ++ l)%list, []).
Proof.
  revert s. induction l as [|b l IH]; intros s [Hcr Hlf] H0 Hs Hl; cbn [run].
  - unfold with_size. rewrite app_nil_r, Z.add_0_r. by destruct s.
  - assert (accept s b = Ok (with_size s (size s + 1) false (line s ++ [b])%list, None)) as ->.
    { unfold accept. rewrite (bool_decide_eq_false_2 (b = CR)), (bool_decide_eq_false_2 (b = LF)) by set_solver.
      rewrite andb_false_r. unfold saturating_add. rewrite Z.min_r by (cbn [length] in Hs; lia).
      cbn [negb orb]. rewrite (proj2 (Z.ltb_ge _ _)) by (cbn [length] in Hs; lia). done. }
    cbn [mbind result_bind]. rewrite IH; cbn [with_size size limit]; cbn [length] in *; try lia;
      [|split; set_solver].
    cbn [mbind result_bind option_list]. unfold with_size. cbn.
    f_equal. f_equal. f_equal; [lia|by rewrite <-app_assoc|by destruct l].
Qed.

Lemma end_of_line_refines s :
  0 ≤ size s →
  match line_step (frame_of s) (line s) with
  | Err e => end_of_line s = Err e
  | Ok (f, ev) => ∃ s', end_of_line s = Ok (s', ev) ∧ frame_of s' = f ∧ line s' = [] ∧
      after_cr s' = after_cr s ∧ limit s' = limit s ∧ 0 ≤ size s' ≤ size s
  end.
Proof.
  intros H0. unfold line_step, end_of_line, frame_of. cbn [f_data f_event f_id f_first].
  destruct (valid_utf8 (line s)); [|done]. cbn [ensure mbind result_bind].
  destruct (is_empty (if first_line s then _ else _)).
  - destruct (is_empty (data s)) eqn:Hd; eexists; (split; [reflexivity|]); cbn; [|split_and!; done || lia].
    apply is_empty_true in Hd. rewrite Hd. split_and!; done || lia.
  - destruct (field _ _ _ _) as [[d e] i]. eexists. split; [reflexivity|]. cbn. split_and!; done || lia.
Qed.

Definition ends_cr (eol : list ascii) : bool := bool_decide (eol = [CR]).
(** One encoded line: the bytes do what [line_step] does. *)
Lemma run_line s l eol :
  line_ending eol → plain l → line s = [] → (after_cr s = true → eol = [CR]) → 0 ≤ size s →
  size s + Z.of_nat (length (l ++ eol)) ≤ limit s → limit s < u64_max →
  match line_step (frame_of s) l with
  | Err e => run s (l ++ eol) = Err e
  | Ok (f, ev) => ∃ s', run s (l ++ eol) = Ok (s', option_list ev) ∧ frame_of s' = f ∧
      line s' = [] ∧ (after_cr s' = true → eol = [CR]) ∧ limit s' = limit s ∧
      0 ≤ size s' ≤ size s + Z.of_nat (length (l ++ eol))
  end.
Proof.
  intros Heol Hp Hline Hcr H0 Hs Hl. rewrite length_app in *.
  assert (0 < Z.of_nat (length eol)) as He by (destruct Heol; cbn; lia).
  rewrite run_app, run_plain by (done || lia). cbn [mbind result_bind]. rewrite Hline. cbn [app].
  set (s1 := with_size s _ _ _).
  assert (∀ b, b = CR ∨ (b = LF ∧ after_cr s1 = false) →
    accept s1 b = end_of_line (with_size s1 (size s1 + 1) (bool_decide (b = CR)) (line s1))) as Hacc.
  { intros b Hb. unfold accept. assert (after_cr s1 && bool_decide (b = LF) = false) as ->.
    { destruct Hb as [->|[_ ->]]; [|done]. by rewrite bool_decide_eq_false_2, andb_false_r by done. }
    unfold saturating_add. rewrite Z.min_r by (cbn; lia).
    rewrite (proj2 (Z.ltb_ge _ _)) by (cbn; lia). cbn [negb ensure mbind result_bind].
    assert (bool_decide (b = CR) || bool_decide (b = LF) = true) as ->; [|done].
    destruct Hb as [->|[-> _]]; vm_compute; reflexivity. }
  assert (∀ b, b = CR ∨ (b = LF ∧ after_cr s1 = false) →
    match line_step (frame_of s) l with
    | Err e => accept s1 b = Err e
    | Ok (f, ev) => ∃ s', accept s1 b = Ok (s', ev) ∧ frame_of s' = f ∧ line s' = [] ∧
        after_cr s' = bool_decide (b = CR) ∧ limit s' = limit s ∧
        0 ≤ size s' ≤ size s + Z.of_nat (length l) + 1
    end) as Href.
  { intros b Hb. rewrite (Hacc b Hb).
    apply (end_of_line_refines (with_size s1 (size s1 + 1) (bool_decide (b = CR)) l)). cbn. lia. }
  clear Hacc. assert (eol ≠ [CR] → after_cr s1 = false) as Hs1.
  { intros Hne. cbn. destruct l; [|done]. destruct (after_cr s); [|done]. by destruct (Hne (Hcr eq_refl)). }
  destruct Heol; cbn [run].
  - specialize (Href LF ltac:(right; split; [done|by apply Hs1])).
    destruct (line_step _ _) as [[f ev]|e]; [|by rewrite Href].
    destruct Href as (s' & -> & ? & ? & Ha & ? & ?). eexists. split; [cbn; by rewrite app_nil_r|].
    split_and!; try done; [rewrite Ha; by vm_compute|cbn; lia..].
  - specialize (Href CR ltac:(by left)). destruct (line_step _ _) as [[f ev]|e]; [|by rewrite Href].
    destruct Href as (s' & -> & ? & ? & Ha & ? & ?). eexists. split; [cbn; by rewrite app_nil_r|].
    split_and!; try done; cbn; lia.
  - specialize (Href CR ltac:(by left)). destruct (line_step _ _) as [[f ev]|e]; [|by rewrite Href].
    destruct Href as (s' & -> & Hf & Hline' & Ha & Hlim & Hsize). cbn [mbind result_bind].
    unfold accept. rewrite Ha, !bool_decide_eq_true_2 by done. cbn [andb].
    set (n := if negb (size s' =? 0) then _ else _).
    assert (0 ≤ n ≤ size s + Z.of_nat (length l) + 2) as Hn.
    { unfold n, saturating_add. destruct (negb (size s' =? 0)); lia. }
    rewrite (proj2 (Z.ltb_ge _ _)) by (cbn in Hs; lia). cbn. eexists. split; [by rewrite app_nil_r|].
    split_and!; try done; cbn; try done; lia.
Qed.

Lemma run_lines s eol ls :
  line_ending eol → Forall plain ls → line s = [] → (after_cr s = true → eol = [CR]) → 0 ≤ size s →
  size s + Z.of_nat (length (encode_lines eol ls)) ≤ limit s → limit s < u64_max →
  snd <$> run s (encode_lines eol ls) = lines_events (frame_of s) ls.
Proof.
  intros Heol Hp. revert s. induction Hp as [|l ls Hl _ IH]; intros s Hline Hcr H0 Hs Hmax; [done|].
  unfold encode_lines in *. cbn [map concat lines_events] in *. rewrite length_app, Nat2Z.inj_add in Hs.
  pose proof (run_line s l eol Heol Hl Hline Hcr H0 ltac:(lia) Hmax) as Hrun. rewrite run_app.
  destruct (line_step (frame_of s) l) as [[f ev]|e]; [|by rewrite Hrun].
  destruct Hrun as (s' & -> & <- & Hline' & Hcr' & Hlim & Hsize). cbn [mbind result_bind].
  rewrite <-IH by (done || lia). by destruct (run s' _) as [[s2 e2]|].
Qed.

(** C27: within its limit the byte decoder computes exactly the line-by-line algorithm, errors
    included, whichever of LF, CR and CRLF ends the lines. *)
Theorem decoder_refines_lines n eol ls :
  line_ending eol → Forall plain ls → n < u64_max →
  Z.of_nat (length (encode_lines eol ls)) ≤ n →
  snd <$> run (SseDecoder_new n) (encode_lines eol ls) = lines_events FrameState_init ls.
Proof. intros Heol Hp Hn Hl. by apply (run_lines (SseDecoder_new n)). Qed.

(** ** Round trip *)

(** The lines of one event, as a server writes it. *)
Definition event_lines (e i : string) (data_lines : list string) : list string :=
  (["event: " +:+ e; "id: " +:+ i] ++ map (λ d, "data: " +:+ d) data_lines ++ [""])%list.

Lemma data_line_step f v :
  valid_utf8 (bytes v) = true →
  line_step f (bytes ("data: " +:+ v)) =
    Ok ({| f_data := f_data f +:+ v +:+ String LF ""; f_event := f_event f; f_id := f_id f;
           f_first := false |}, None).
Proof.
  intros Hv. unfold line_step. rewrite string_of_bytes.
  change (valid_utf8 (bytes ("data: " +:+ v))) with (valid_utf8 (bytes v)). rewrite Hv.
  by destruct (f_first f).
Qed.
Lemma event_line_step f v :
  valid_utf8 (bytes v) = true →
  line_step f (bytes ("event: " +:+ v)) =
    Ok ({| f_data := f_data f; f_event := v; f_id := f_id f; f_first := false |}, None).
Proof.
  intros Hv. unfold line_step. rewrite string_of_bytes.
  change (valid_utf8 (bytes ("event: " +:+ v))) with (valid_utf8 (bytes v)). rewrite Hv.
  by destruct (f_first f).
Qed.
Lemma id_line_step f v :
  valid_utf8 (bytes v) = true → contains (String "000" "") v = false →
  line_step f (bytes ("id: " +:+ v)) =
    Ok ({| f_data := f_data f; f_event := f_event f; f_id := v; f_first := false |}, None).
Proof.
  intros Hv Hn. unfold line_step. rewrite string_of_bytes.
  change (valid_utf8 (bytes ("id: " +:+ v))) with (valid_utf8 (bytes v)). rewrite Hv.
  cbn [ensure mbind result_bind].
  assert (field (f_data f) (f_event f) (f_id f) ("id: " +:+ v) = (f_data f, f_event f, v)) as Hf.
  { unfold field. change (starts_with ":" ("id: " +:+ v)) with false.
    change (split_once ":"%char ("id: " +:+ v)) with (Some ("id", " " +:+ v)). cbn [unwrap_or].
    change (strip_prefix " " (" " +:+ v)) with (Some v). cbn [unwrap_or]. by rewrite Hn. }
  assert ((if f_first f then unwrap_or (strip_prefix BOM ("id: " +:+ v)) ("id: " +:+ v)
           else "id: " +:+ v) = "id: " +:+ v) as -> by by destruct (f_first f).
  change (is_empty ("id: " +:+ v)) with false. by rewrite Hf.
Qed.
Lemma pop_snoc x a : pop (x +:+ String a "") = x.
Proof. induction x as [|b x IH]; [done|]. cbn in *. rewrite IH. by destruct x. Qed.
Lemma join_lf_app d dl acc :
  acc +:+ foldr (λ v r, v +:+ String LF r) "" (d :: dl) = (acc +:+ join (String LF "") (d :: dl)) +:+ String LF "".
Proof.
  revert acc d. induction dl as [|d' dl IH]; intros acc d; [cbn; by rewrite string_app_assoc|].
  change (foldr (λ v r, v +:+ String LF r) "" (d :: d' :: dl))
    with (d +:+ String LF (foldr (λ v r, v +:+ String LF r) "" (d' :: dl))).
  change (join (String LF "") (d :: d' :: dl)) with (d +:+ String LF (join (String LF "") (d' :: dl))).
  specialize (IH "" d'). cbn [String.append] in IH. rewrite IH.
  rewrite !string_app_assoc. cbn [String.append]. done.
Qed.
Lemma data_lines_events f dl rest :
  Forall (λ v, valid_utf8 (bytes v) = true) dl →
  f_first f = false →
  lines_events f (map bytes (map (λ d, "data: " +:+ d) dl) ++ rest) =
  lines_events {| f_data := f_data f +:+ foldr (λ v r, v +:+ String LF r) "" dl; f_event := f_event f;
                  f_id := f_id f; f_first := false |} rest.
Proof.
  intros Hdl. revert f. induction Hdl as [|v dl Hv _ IH]; intros f Hf.
  - cbn [map app foldr]. rewrite app_empty_r. destruct f; cbn in *; by subst.
  - cbn [map app lines_events]. rewrite data_line_step by done. cbn [mbind result_bind].
    rewrite IH by done. cbn [f_data f_event f_id foldr option_list app].
    rewrite !string_app_assoc. cbn [String.append]. by destruct (lines_events _ rest).
Qed.

(** An event written line by line, with any of the three line endings, is read back: the
    same name, id and data, the data lines joined by LF. *)
Theorem sse_roundtrip n eol e i d dl :
  line_ending eol → n < u64_max →
  Forall (λ x, plain (bytes x) ∧ valid_utf8 (bytes x) = true) (e :: i :: d :: dl) →
  e ≠ "" → contains (String "000" "") i = false →
  Z.of_nat (length (encode_lines eol (map bytes (event_lines e i (d :: dl))))) ≤ n →
  snd <$> run (SseDecoder_new n) (encode_lines eol (map bytes (event_lines e i (d :: dl)))) =
    Ok [{| ev_event := e; ev_id := i; ev_data := join (String LF "") (d :: dl) |}].
Proof.
  intros Heol Hn Hall He Hi Hlen.
  assert (∀ p x, CR ∉ bytes p → LF ∉ bytes p → plain (bytes x) → plain (bytes (p +:+ x))) as Hpl.
  { intros p x H1 H2 [H3 H4]. unfold plain. rewrite bytes_app. set_solver. }
  rewrite run_lines; try done.
  - apply Forall_cons in Hall as [[_ Hve] Hall]. apply Forall_cons in Hall as [[_ Hvi] Hall].
    change (map bytes (event_lines e i (d :: dl))) with (bytes ("event: " +:+ e) :: bytes ("id: " +:+ i)
      :: map bytes (map (λ d, "data: " +:+ d) (d :: dl) ++ [""])%list).
    rewrite map_app. set (rest := (map bytes (map _ _) ++ _)%list). cbn [lines_events].
    rewrite event_line_step by done. cbn [mbind result_bind].
    rewrite id_line_step by done. cbn [mbind result_bind f_data f_event f_id frame_of]. unfold rest.
    rewrite data_lines_events; [|by eapply Forall_impl; [exact Hall|intros x [_ ?]]|done].
    cbn [f_data f_event f_id data event id SseDecoder_new map].
    rewrite join_lf_app. cbn [String.append lines_events]. unfold line_step. cbn [f_data f_event f_id f_first].
    change (valid_utf8 (bytes "")) with true. change (string_of (bytes "")) with "". cbn [ensure mbind result_bind is_empty].
    rewrite pop_snoc. destruct (is_empty (_ +:+ _)) eqn:Hem.
    { apply is_empty_true in Hem. by destruct (join _ _). }
    destruct (is_empty e) eqn:Hee; [by apply is_empty_true in Hee|done].
  - unfold event_lines. apply Forall_cons in Hall as [[He' _] Hall]. apply Forall_cons in Hall as [[Hi' _] Hall].
    assert (∀ p, bool_decide (CR ∉ bytes p ∧ LF ∉ bytes p) = true → ∀ x, plain (bytes x) → plain (bytes (p +:+ x))) as Hp.
    { intros p [? ?]%bool_decide_eq_true x. by apply Hpl. }
    rewrite Forall_fmap, !Forall_app, !Forall_cons, !Forall_nil. unfold compose. split_and!; try done.
    + by apply (Hp "event: ").
    + by apply (Hp "id: ").
    + rewrite Forall_fmap. eapply Forall_impl; [exact Hall|]. intros x [Hx _].
      by apply (Hp "data: ").
    + split; set_solver.
Qed.
End decoder.

Section relay_theorems.
Context `{Payload}.

(** A stream that ends without an error ends with one explicit terminator; a stream that
    ends with an error holds none. *)
Definition explicit_end (o : outcome) : Prop :=
  ∃ es, match o.2 with
        | None => ∃ e, o.1 = (map Event es ++ [End e])%list
        | Some _ => o.1 = map Event es
        end.

Lemma terminal_has_end protocol kind :
  is_terminal protocol kind = true → is_Some (protocol_end kind).
Proof.
  unfold is_terminal, protocol_end. destruct protocol; [done| | |]; intros Hk%bool_decide_eq_true;
    [subst; by eexists|..]; repeat (apply elem_of_cons in Hk as [->|Hk]; [by eexists|]); set_solver.
Qed.
Lemma relay_event_items protocol status headers e items terminal :
  relay_event protocol status headers e = Ok (items, terminal) →
  ∃ es, if terminal : bool then ∃ x, items = (map Event es ++ [End x])%list else items = map Event es.
Proof.
  unfold relay_event. case_match; [intros [= <- <-]; by exists [], ChatDone|].
  intros Hr. res_inv. simplify_eq.
  match goal with |- context [Event ?x :: _] => exists [x] end.
  destruct (is_terminal _ _) eqn:Ht; [|done]. apply terminal_has_end in Ht as [x ->]. by exists x.
Qed.
Lemma relay_bytes_end protocol status headers s bs k :
  (∀ s, explicit_end (k s)) → explicit_end (relay_bytes protocol status headers s bs k).
Proof.
  intros Hk. revert s. induction bs as [|b bs IH]; intros s; cbn; [done|].
  destruct (accept s b) as [[s' [e|]]|]; [|done|by exists []].
  destruct (relay_event _ _ _ e) as [[items [|]]|] eqn:Hr; [| |by exists []];
    apply relay_event_items in Hr as [es Hes]; [by exists es|].
  destruct (IH s') as [es' Hes']. exists (es ++ es')%list. unfold yield. cbn. rewrite Hes, map_app.
  destruct (relay_bytes _ _ _ s' bs k) as [items' [err|]]; cbn in *.
  - by rewrite Hes'.
  - destruct Hes' as [x ->]. exists x. by rewrite app_assoc.
Qed.

(** a relay ends without an error only after an explicit protocol terminator, which is its
    last item; end of input, transport errors and malformed events all end in an error. *)
Theorem relay_end_is_explicit protocol status headers n chunks :
  explicit_end (decode_relay protocol status headers n chunks).
Proof.
  unfold decode_relay. generalize (SseDecoder_new n). induction chunks as [|[bs|] chunks IH]; intros s; cbn.
  - by exists [].
  - apply relay_bytes_end. exact IH.
  - by exists [].
Qed.

Lemma relay_bytes_app protocol status headers s bs1 bs2 k :
  relay_bytes protocol status headers s (bs1 ++ bs2) k =
  relay_bytes protocol status headers s bs1 (λ s, relay_bytes protocol status headers s bs2 k).
Proof.
  revert s. induction bs1 as [|b bs1 IH]; intros s; cbn; [done|].
  destruct (accept s b) as [[s' [e|]]|]; [|by apply IH|done].
  destruct (relay_event _ _ _ e) as [[items [|]]|]; [done| |done]. by rewrite IH.
Qed.
(** How the bytes are cut into chunks does not matter. *)
Theorem chunking_is_irrelevant protocol status headers n (chunks : list (list ascii)) :
  decode_relay protocol status headers n (map Some chunks) =
  decode_relay protocol status headers n [Some (concat chunks)].
Proof.
  unfold decode_relay. generalize (SseDecoder_new n). cbn.
  induction chunks as [|bs chunks IH]; intros s; cbn; [done|]. rewrite relay_bytes_app.
  revert s. induction bs as [|b bs IHb]; intros s; cbn; [apply IH|].
  destruct (accept s b) as [[s' [e|]]|]; [|apply IHb|done].
  destruct (relay_event _ _ _ e) as [[items [|]]|]; [done| |done]. by rewrite IHb.
Qed.
End relay_theorems.
