(* ===== verification/RoutingRate.v ===== *)
(** The rolling rate window of the routing scheduler ([Rate] of
    [apps/bitrouter/src/tenancy/routing/state.rs]): one-second buckets, pending
    reservations, and the proof that no 60-second window ever holds more sends than the limit.
    An [Instant] is its nanoseconds since the runtime's epoch. *)
From stdpp Require Import base list strings gmap pretty sorting.
From Stdlib Require Import ZArith Lia Ascii.
From S2P Require Import Prelude.
Open Scope Z_scope.

Definition RATE_BUCKETS : Z := 61.
Definition NANOS : Z := 1000000000.
(** [now.saturating_duration_since(epoch).as_secs()] *)
Definition tick_of (now : Z) : Z := Z.max 0 now / NANOS.

Record Rate := { pending : Z; active : Z; seconds : list (Z * Z) }.
Definition Rate_new : Rate := {| pending := 0; active := 0; seconds := [] |}.

Fixpoint drop_expired (tick : Z) (l : list (Z * Z)) : list (Z * Z) :=
  match l with
  | (bucket, _) :: r => if RATE_BUCKETS <=? tick -| bucket then drop_expired tick r else l
  | [] => []
  end.
Definition Rate_expire (r : Rate) (tick : Z) : Rate :=
  {| pending := pending r; active := active r; seconds := drop_expired tick (seconds r) |}.
Definition Rate_available (r : Rate) (limit : Z) : bool :=
  foldl (λ total b, total +| b.2) (pending r) (seconds r) <? limit.
(** Counting one send in the bucket of [tick], the last one or a new one. *)
Fixpoint count_send (tick : Z) (l : list (Z * Z)) : list (Z * Z) :=
  match l with
  | [] => [(tick, 1)]
  | [(bucket, count)] =>
      if bucket =? tick then [(bucket, count +| 1)] else [(bucket, count); (tick, 1)]
  | b :: r => b :: count_send tick r
  end.
Definition Rate_sent (r : Rate) (tick : Z) : Rate :=
  let tick := match last (seconds r) with Some (bucket, _) => Z.max tick bucket | None => tick end in
  {| pending := pending r -| 1; active := active r;
     seconds := count_send tick (drop_expired tick (seconds r)) |}.
Definition Rate_idle (r : Rate) : bool :=
  (active r =? 0) && (pending r =? 0) && bool_decide (seconds r = []).

(** A reservation of [admit_at], and the refund of an unsent guard by [finish_at]. *)
Definition Rate_reserve (r : Rate) : Rate :=
  {| pending := pending r + 1; active := active r + 1; seconds := seconds r |}.
Definition Rate_release (r : Rate) : Rate :=
  {| pending := pending r; active := active r -| 1; seconds := seconds r |}.
Definition Rate_refund (r : Rate) : Rate :=
  {| pending := pending r -| 1; active := active r -| 1; seconds := seconds r |}.

(** ** The window as a transition system

    [Window] pairs the rate with what really happened: the instants of all sends, and for
    each unsent guard a lower bound of the instants at which it can still send. The bound is
    the latest clock value read by any operation so far: a guard is handed out after its
    admission has run, and [Instant] is monotonic, so whatever a thread reads afterwards is
    not earlier. Clock values of different operations may reach the state in any order. *)
Record Window := { rate : Rate; sends : list Z; guards : list Z; latest : Z }.
Definition Window_init : Window :=
  {| rate := Rate_new; sends := []; guards := []; latest := 0 |}.

Inductive window_step (limit : Z) : Window → Window → Prop :=
| step_admit w now :
    0 ≤ now → Rate_available (Rate_expire (rate w) (tick_of now)) limit = true →
    window_step limit w {|
      rate := Rate_reserve (Rate_expire (rate w) (tick_of now)); sends := sends w;
      guards := Z.max (latest w) now :: guards w; latest := Z.max (latest w) now |}
| step_expire w now :
    0 ≤ now →
    window_step limit w {|
      rate := Rate_expire (rate w) (tick_of now); sends := sends w; guards := guards w;
      latest := Z.max (latest w) now |}
| step_send w g gs now :
    guards w ≡ₚ g :: gs → g ≤ now →
    window_step limit w {|
      rate := Rate_sent (rate w) (tick_of now); sends := now :: sends w; guards := gs;
      latest := Z.max (latest w) now |}
| step_refund w g gs :
    guards w ≡ₚ g :: gs →
    window_step limit w {|
      rate := Rate_refund (rate w); sends := sends w; guards := gs; latest := latest w |}
| step_complete w :
    window_step limit w {|
      rate := Rate_release (rate w); sends := sends w; guards := guards w; latest := latest w |}
| step_evict w :
    Rate_idle (rate w) = true →
    window_step limit w {|
      rate := Rate_new; sends := sends w; guards := guards w; latest := latest w |}
| step_tick w now :
    window_step limit w {|
      rate := rate w; sends := sends w; guards := guards w; latest := Z.max (latest w) now |}.

Definition reachable (limit : Z) (w : Window) : Prop := rtc (window_step limit) Window_init w.

(** ** Theorems *)

Definition WINDOW : Z := 60 * NANOS.
Definition in_window (x s : Z) : bool := (x <=? s) && (s <=? x + WINDOW).

(** A bucket with the sends it counts: none of them is later than its second. *)
Definition bucket_of (b : Z * Z) (ss : list Z) : Prop :=
  b.2 = Z.of_nat (length ss) ∧ Forall (λ s, tick_of s ≤ b.1) ss.

Section window.
Context (limit : Z) (Hlimit : 0 ≤ limit ≤ u32_max).

Definition bucket_sum (l : list (Z * Z)) : Z := sum_by snd l.
Record window_inv (w : Window) : Prop := {
  wi_pending : pending (rate w) = Z.of_nat (length (guards w));
  wi_total : pending (rate w) + bucket_sum (seconds (rate w)) ≤ limit;
  wi_latest : 0 ≤ latest w ∧ Forall (λ b, 0 ≤ b.1 ≤ tick_of (latest w)) (seconds (rate w));
  wi_guards : Forall (λ g, 0 ≤ g) (guards w);
  (** Every send is in a bucket or more than a window older than the latest clock. *)
  wi_sends : ∃ (live : list (list Z)) (old : list Z),
    sends w ≡ₚ concat live ++ old ∧ Forall2 bucket_of (seconds (rate w)) live ∧
    Forall (λ s, s + WINDOW < latest w) old;
  (** The bound, counting the guards that may still send into the window. *)
  wi_window x :
    countb (in_window x) (sends w) + countb (λ g, g <=? x + WINDOW) (guards w) ≤ limit;
}.

Lemma tick_of_mono a b : a ≤ b → tick_of a ≤ tick_of b.
Proof. intros Hab. unfold tick_of. apply Z.div_le_mono; [done|lia]. Qed.
Lemma tick_of_nonneg a : 0 ≤ tick_of a.
Proof. unfold tick_of. apply Z.div_pos; [lia|done]. Qed.
Lemma tick_of_bounds a : 0 ≤ a → tick_of a * NANOS ≤ a < (tick_of a + 1) * NANOS.
Proof.
  intros Ha. unfold tick_of. rewrite Z.max_r by lia. pose proof (Z.div_mod a NANOS ltac:(done)).
  pose proof (Z.mod_pos_bound a NANOS ltac:(done)). lia.
Qed.
Lemma bucket_sum_live l live : Forall2 bucket_of l live → bucket_sum l = Z.of_nat (length (concat live)).
Proof.
  induction 1 as [|b ss l live [Hc _] _ IH]; [done|]. unfold bucket_sum in *.
  rewrite sum_by_cons, IH, Hc. cbn [concat]. rewrite length_app. lia.
Qed.

(** A send whose bucket has expired lies more than a window in the past. *)
Lemma expired_send s bucket tick now :
  tick_of s ≤ bucket → RATE_BUCKETS ≤ tick - bucket → tick ≤ tick_of now → 0 ≤ now → s + WINDOW < now.
Proof.
  unfold RATE_BUCKETS, WINDOW. intros Hs Hb Ht Hn. pose proof (tick_of_bounds now Hn).
  destruct (decide (0 ≤ s)) as [H0|H0];
    [pose proof (tick_of_bounds s H0)|pose proof (tick_of_nonneg s)]; unfold NANOS in *; lia.
Qed.
Lemma drop_expired_inv tick now l live :
  Forall2 bucket_of l live → Forall (λ b, 0 ≤ b.1) l → tick ≤ tick_of now → 0 ≤ now →
  ∃ live' old, concat live ≡ₚ concat live' ++ old ∧ Forall2 bucket_of (drop_expired tick l) live' ∧
    Forall (λ s, s + WINDOW < now) old.
Proof.
  intros Hl Hpos Ht Hn. induction Hl as [|[b c] ss l live [Hc Hss] Hl IH]; [by exists [], []|].
  apply Forall_cons in Hpos as [Hb Hpos]. cbn [fst snd] in *. cbn [drop_expired].
  unfold saturating_sub. destruct (Z.leb_spec RATE_BUCKETS (Z.max 0 (tick - b))) as [Hexp|_].
  - destruct (IH Hpos) as (live' & old & Hperm & Hl' & Hold). exists live', (ss ++ old).
    split_and!; [|done|].
    + cbn [concat]. rewrite Hperm, !app_assoc. f_equiv. apply Permutation_app_comm.
    + apply Forall_app. split; [|done]. eapply Forall_impl; [exact Hss|]. intros s Hs. cbn beta in Hs.
      eapply expired_send; [exact Hs| |exact Ht|done]. unfold RATE_BUCKETS in *. lia.
  - exists (ss :: live), []. rewrite app_nil_r. split_and!; [done|by constructor|done].
Qed.
Lemma drop_expired_suffix tick l : drop_expired tick l `suffix_of` l.
Proof.
  induction l as [|[b c] l IH]; [done|]. cbn [drop_expired]. case_match; [|done].
  by apply suffix_cons_r.
Qed.
Lemma bucket_sum_suffix l' l :
  l' `suffix_of` l → Forall (λ b, 0 ≤ b.2) l → bucket_sum l' ≤ bucket_sum l.
Proof.
  intros [k ->] [Hk _]%Forall_app. unfold bucket_sum. rewrite sum_by_app.
  pose proof (sum_by_nonneg snd k (proj1 (Forall_forall _ _) Hk)). lia.
Qed.

Lemma count_send_inv tick s l live :
  Forall2 bucket_of l live → tick_of s ≤ tick → bucket_sum l < u64_max →
  ∃ live', concat live' ≡ₚ s :: concat live ∧ Forall2 bucket_of (count_send tick l) live' ∧
    bucket_sum (count_send tick l) = bucket_sum l + 1.
Proof.
  intros Hl Hs. induction Hl as [|[b c] ss l live [Hc Hss] Hl IH]; intros Hsum.
  - exists [[s]]. split_and!; [done| |done]. repeat constructor. done.
  - unfold bucket_sum in *. rewrite sum_by_cons in *. cbn [fst snd] in *.
    assert (0 ≤ sum_by snd l) as Hnn.
    { change (0 ≤ bucket_sum l). rewrite (bucket_sum_live l live Hl). lia. }
    destruct l as [|b' l].
    + inversion Hl; subst live. cbn [count_send]. destruct (Z.eqb_spec b tick) as [->|Hne].
      * exists [s :: ss]. cbn [concat]. rewrite !app_nil_r. split_and!; [done| |].
        -- repeat constructor; cbn [fst snd length]; [|done|done]. unfold saturating_add. cbn in Hsum. lia.
        -- unfold saturating_add, sum_by in *. cbn in *. lia.
      * exists [ss; [s]]. cbn [concat]. split_and!; [|by repeat constructor|unfold sum_by; cbn; lia].
        rewrite !app_nil_r. symmetry. apply Permutation_cons_append.
    + destruct (IH ltac:(lia)) as (live' & Hperm & Hl' & Hsum').
      exists (ss :: live'). change (count_send tick ((b, c) :: b' :: l)) with ((b, c) :: count_send tick (b' :: l)).
      split_and!; [|by constructor|].
      * cbn [concat]. rewrite Hperm. symmetry. apply Permutation_middle.
      * rewrite sum_by_cons, Hsum'. cbn. lia.
Qed.

Lemma countb_perm {A} (f : A → bool) l1 l2 : l1 ≡ₚ l2 → countb f l1 = countb f l2.
Proof. apply sum_by_perm. Qed.
Lemma countb_le_length {A} (f : A → bool) l : countb f l ≤ Z.of_nat (length l).
Proof.
  rewrite countb_filter. apply inj_le. apply List.filter_length_le.
Qed.
Lemma countb_none {A} (f : A → bool) l : Forall (λ x, f x = false) l → countb f l = 0.
Proof. induction 1 as [|x l Hx _ IH]; [done|]. by rewrite countb_cons, Hx, IH. Qed.

(** Sends that are more than a window old cannot lie in a window that reaches [latest]. *)
Lemma window_of_live x now live old ss :
  ss ≡ₚ concat live ++ old → Forall (λ s, s + WINDOW < now) old → now ≤ x + WINDOW →
  countb (in_window x) ss ≤ Z.of_nat (length (concat live)).
Proof.
  intros Hp Hold Hx. rewrite (countb_perm _ _ _ Hp), countb_app, (countb_none _ old).
  - pose proof (countb_le_length (in_window x) (concat live)). lia.
  - eapply Forall_impl; [exact Hold|]. intros s Hs. cbn beta in Hs. unfold in_window.
    rewrite (proj2 (Z.leb_gt x s)) by lia. done.
Qed.

Lemma buckets_nonneg l live : Forall2 bucket_of l live → Forall (λ b, 0 ≤ b.2) l.
Proof. induction 1 as [|b ss l live [Hc _] _ IH]; [done|]. constructor; [lia|done]. Qed.

(** What expiry does to the invariant, whatever clock value drives it. *)
Lemma expire_facts w now :
  window_inv w → 0 ≤ now →
  let l := drop_expired (tick_of now) (seconds (rate w)) in
  let latest' := Z.max (latest w) now in
  bucket_sum l ≤ bucket_sum (seconds (rate w)) ∧
  Forall (λ b, 0 ≤ b.1 ≤ tick_of latest') l ∧
  ∃ live old, sends w ≡ₚ concat live ++ old ∧ Forall2 bucket_of l live ∧
    Forall (λ s, s + WINDOW < latest') old.
Proof.
  intros [_ _ [Hl0 Hlt] _ (live & old & Hp & Hb & Ho) _] Hn. cbn zeta.
  pose proof (drop_expired_suffix (tick_of now) (seconds (rate w))) as Hsuf.
  assert (Forall (λ b, 0 ≤ b.1 ≤ tick_of (Z.max (latest w) now)) (seconds (rate w))) as Hlt'.
  { eapply Forall_impl; [exact Hlt|]. intros b Hb'. cbn beta in *.
    pose proof (tick_of_mono (latest w) (Z.max (latest w) now) ltac:(lia)). lia. }
  split_and!.
  - apply bucket_sum_suffix; [done|]. by eapply buckets_nonneg.
  - destruct Hsuf as [k Hk]. rewrite Hk in Hlt'. by apply Forall_app in Hlt' as [_ ?].
  - destruct (drop_expired_inv (tick_of now) (Z.max (latest w) now) (seconds (rate w)) live)
      as (live' & old' & Hp' & Hb' & Ho'); [done| |apply tick_of_mono; lia|lia|].
    { eapply Forall_impl; [exact Hlt|]. intros b ?. cbn beta in *. lia. }
    exists live', (old' ++ old). split_and!; [by rewrite Hp, Hp', app_assoc|done|].
    apply Forall_app. split; [done|]. eapply Forall_impl; [exact Ho|]. intros s ?. cbn beta in *. lia.
Qed.

Lemma available_total r :
  (∀ b, b ∈ seconds r → 0 ≤ b.2) → 0 ≤ pending r →
  Rate_available r limit = true → pending r + bucket_sum (seconds r) < limit.
Proof.
  unfold Rate_available, bucket_sum. intros Hb Hp Ha%Z.ltb_lt. revert Ha Hp.
  generalize (pending r) as p. revert Hb. induction (seconds r) as [|b l IH]; intros Hb p Ha Hp.
  - cbn in *. lia.
  - cbn [foldl] in Ha. rewrite sum_by_cons. pose proof (Hb b ltac:(left)) as H0.
    assert (∀ b, b ∈ l → 0 ≤ b.2) as Hb' by (intros ? ?; apply Hb; by right).
    unfold saturating_add at 2 in Ha. apply IH in Ha; [|done|unfold u64_max; lia].
    pose proof (sum_by_nonneg snd l Hb'). unfold u32_max, u64_max in *. lia.
Qed.

Lemma Forall2_nonneg_elem l live b : Forall2 bucket_of l live → b ∈ l → 0 ≤ b.2.
Proof. intros Hl%buckets_nonneg Hb. rewrite Forall_forall in Hl. by apply Hl. Qed.

Lemma admit_preserves w now :
  window_inv w → 0 ≤ now → Rate_available (Rate_expire (rate w) (tick_of now)) limit = true →
  window_inv {| rate := Rate_reserve (Rate_expire (rate w) (tick_of now)); sends := sends w;
    guards := Z.max (latest w) now :: guards w; latest := Z.max (latest w) now |}.
Proof.
  intros Hw Hn Ha. destruct (expire_facts w now Hw Hn) as (Hsum & Hlt & live & old & Hp & Hb & Ho).
  destruct Hw as [Hpend Htot [Hl0 _] Hg _ Hwin].
  apply available_total in Ha; [|intros b; by apply (Forall2_nonneg_elem _ live)|cbn; lia].
  cbn [Rate_expire pending seconds] in Ha.
  constructor; cbn [rate sends guards latest Rate_reserve Rate_expire pending seconds].
  - cbn [length]. lia.
  - lia.
  - split; [lia|done].
  - constructor; [lia|done].
  - by exists live, old.
  - intros x. rewrite countb_cons. specialize (Hwin x).
    destruct (Z.leb_spec (Z.max (latest w) now) (x + WINDOW)) as [Hx|Hx]; cbn [of_bool]; [|lia].
    pose proof (window_of_live x _ live old (sends w) Hp Ho Hx).
    pose proof (countb_le_length (λ g, g <=? x + WINDOW) (guards w)).
    rewrite (bucket_sum_live _ live Hb) in Ha. lia.
Qed.
Lemma expire_preserves w now :
  window_inv w → 0 ≤ now →
  window_inv {| rate := Rate_expire (rate w) (tick_of now); sends := sends w; guards := guards w;
    latest := Z.max (latest w) now |}.
Proof.
  intros Hw Hn. destruct (expire_facts w now Hw Hn) as (Hsum & Hlt & live & old & Hp & Hb & Ho).
  destruct Hw as [Hpend Htot [Hl0 _] Hg _ Hwin].
  constructor; cbn [rate sends guards latest Rate_expire pending seconds]; try done; try lia.
  - split; [lia|done].
  - by exists live, old.
Qed.
Lemma last_bucket (l : list (Z * Z)) t :
  0 ≤ t → let tick := match last l with Some (bucket, _) => Z.max t bucket | None => t end in
  t ≤ tick ∧ (∀ m, Forall (λ b, 0 ≤ b.1 ≤ m) l → t ≤ m → tick ≤ m).
Proof.
  intros Ht. cbn zeta. destruct (last l) as [[b c]|] eqn:Hl; [|split; [done|auto]].
  split; [lia|]. intros m Hm Htm. apply last_Some in Hl as [k ->]. apply Forall_app in Hm as [_ Hm].
  apply Forall_cons in Hm as [Hm _]. cbn [fst] in Hm. lia.
Qed.
Lemma count_send_bounds tick m l :
  0 ≤ tick ≤ m → Forall (λ b, 0 ≤ b.1 ≤ m) l → Forall (λ b, 0 ≤ b.1 ≤ m) (count_send tick l).
Proof.
  intros Ht. induction 1 as [|[b c] l Hb Hl IH]; [apply Forall_cons; by split|].
  destruct l as [|b' l]; [|by constructor]. cbn [count_send fst] in *.
  case_match; repeat (apply Forall_cons; split); cbn [fst]; done || lia.
Qed.
Lemma send_preserves w g gs now :
  window_inv w → guards w ≡ₚ g :: gs → g ≤ now →
  window_inv {| rate := Rate_sent (rate w) (tick_of now); sends := now :: sends w; guards := gs;
    latest := Z.max (latest w) now |}.
Proof.
  intros [Hpend Htot [Hl0 Hlt] Hg (live & old & Hp & Hb & Ho) Hwin] Hperm Hgn.
  assert (0 ≤ g) as Hg0. { rewrite Hperm in Hg. by apply Forall_cons in Hg as [? _]. }
  set (m := tick_of (Z.max (latest w) now)).
  assert (Forall (λ b, 0 ≤ b.1 ≤ m) (seconds (rate w))) as Hltm.
  { eapply Forall_impl; [exact Hlt|]. intros b ?. cbn beta in *.
    pose proof (tick_of_mono (latest w) (Z.max (latest w) now) ltac:(lia)). unfold m. lia. }
  destruct (last_bucket (seconds (rate w)) (tick_of now) (tick_of_nonneg now)) as [Htick Hmax].
  specialize (Hmax m Hltm (tick_of_mono now (Z.max (latest w) now) ltac:(lia))).
  unfold Rate_sent. set (tick := match last (seconds (rate w)) with Some (b, _) => Z.max (tick_of now) b | None => _ end) in *.
  destruct (drop_expired_inv tick (Z.max (latest w) now) (seconds (rate w)) live)
    as (live1 & old1 & Hp1 & Hb1 & Ho1); [done| |done|lia|].
  { eapply Forall_impl; [exact Hlt|]. intros b ?. cbn beta in *. lia. }
  pose proof (drop_expired_suffix tick (seconds (rate w))) as Hsuf.
  pose proof (bucket_sum_suffix _ _ Hsuf (buckets_nonneg _ _ Hb)) as Hsum.
  pose proof (tick_of_nonneg now) as Ht0.
  destruct (count_send_inv tick now _ live1 Hb1 Htick) as (live2 & Hp2 & Hb2 & Hsum2).
  { unfold u32_max, u64_max in *. lia. }
  pose proof (Permutation_length Hperm) as Hlen. cbn [length] in Hlen.
  constructor; cbn [rate sends guards latest pending seconds].
  - unfold saturating_sub. lia.
  - unfold saturating_sub. lia.
  - split; [lia|]. apply count_send_bounds; [lia|]. destruct Hsuf as [k Hk]. rewrite Hk in Hltm.
    by apply Forall_app in Hltm as [_ ?].
  - rewrite Hperm in Hg. by apply Forall_cons in Hg as [_ ?].
  - exists live2, (old1 ++ old). split_and!; [|done|].
    + rewrite Hp, Hp1, Hp2. cbn [app]. by rewrite app_assoc.
    + apply Forall_app. split; [done|]. eapply Forall_impl; [exact Ho|]. intros s ?. cbn beta in *. lia.
  - intros x. specialize (Hwin x). rewrite countb_cons. rewrite (countb_perm _ _ _ Hperm), countb_cons in Hwin.
    unfold in_window at 1. destruct (Z.leb_spec x now), (Z.leb_spec now (x + WINDOW)), (Z.leb_spec g (x + WINDOW));
      cbn [andb of_bool] in *; lia.
Qed.
Lemma refund_preserves w g gs :
  window_inv w → guards w ≡ₚ g :: gs →
  window_inv {| rate := Rate_refund (rate w); sends := sends w; guards := gs; latest := latest w |}.
Proof.
  intros [Hpend Htot Hl Hg Hs Hwin] Hperm. pose proof (Permutation_length Hperm) as Hlen. cbn [length] in Hlen.
  constructor; cbn [rate sends guards latest Rate_refund pending seconds]; try done.
  - unfold saturating_sub. lia.
  - unfold saturating_sub. lia.
  - rewrite Hperm in Hg. by apply Forall_cons in Hg as [_ ?].
  - intros x. specialize (Hwin x). rewrite (countb_perm _ _ _ Hperm), countb_cons in Hwin.
    pose proof (of_bool_bounds (g <=? x + WINDOW)). lia.
Qed.
Lemma evict_preserves w :
  window_inv w → Rate_idle (rate w) = true →
  window_inv {| rate := Rate_new; sends := sends w; guards := guards w; latest := latest w |}.
Proof.
  intros [Hpend Htot Hl Hg Hs Hwin] Hi. unfold Rate_idle in Hi.
  apply andb_true_iff in Hi as [[_ Hp%Z.eqb_eq]%andb_true_iff Hsec%bool_decide_eq_true].
  rewrite Hsec in *. constructor; cbn [rate sends guards latest Rate_new pending seconds]; try done; lia.
Qed.
Lemma tick_preserves w now :
  window_inv w →
  window_inv {| rate := rate w; sends := sends w; guards := guards w; latest := Z.max (latest w) now |}.
Proof.
  intros [Hpend Htot [Hl0 Hlt] Hg (live & old & Hp & Hb & Ho) Hwin].
  constructor; cbn [rate sends guards latest]; try done.
  - split; [lia|]. eapply Forall_impl; [exact Hlt|]. intros b ?. cbn beta in *.
    pose proof (tick_of_mono (latest w) (Z.max (latest w) now) ltac:(lia)). lia.
  - exists live, old. split_and!; [done..|]. eapply Forall_impl; [exact Ho|]. intros s ?. cbn beta in *. lia.
Qed.
Lemma step_preserves w w' : window_inv w → window_step limit w w' → window_inv w'.
Proof.
  intros Hw Hs. revert Hw. destruct Hs as [w1 now ? ?|w1 now ?|w1 g gs now ? ?|w1 g gs ?|w1|w1 ?|w1 now]; intros Hw.
  - by apply admit_preserves.
  - by apply expire_preserves.
  - by eapply send_preserves.
  - by eapply refund_preserves.
  - destruct Hw as [Hpend Htot Hl Hg Hs Hwin]. by constructor.
  - by apply evict_preserves.
  - by apply tick_preserves.
Qed.
Lemma init_inv : window_inv Window_init.
Proof.
  constructor; cbn; try done; [lia| |].
  - by exists [], [].
  - intros x. unfold countb, sum_by. cbn. lia.
Qed.
Lemma reachable_inv w : reachable limit w → window_inv w.
Proof. intros Hr. pattern w. eapply rtc_ind_r; [apply init_inv| |exact Hr]. intros y z _ Hs Hy. by eapply step_preserves. Qed.

(** No 60-second window, wherever it starts, holds more sends than the limit that every
    admission was checked against, even though sends and clock readings reach the state in
    any order; reservations not yet sent that could fall into the window are included. *)
Theorem rolling_window_bound w x :
  reachable limit w →
  countb (in_window x) (sends w) + countb (λ g, g <=? x + WINDOW) (guards w) ≤ limit.
Proof. intros Hr. apply (wi_window w (reachable_inv w Hr)). Qed.

(** The reservations are exactly the unsent guards, and the counted sends and the
    reservations together stay within the limit. *)
Theorem reservations_bound w :
  reachable limit w →
  pending (rate w) = Z.of_nat (length (guards w)) ∧
  0 ≤ pending (rate w) + bucket_sum (seconds (rate w)) ≤ limit.
Proof.
  intros Hr. destruct (reachable_inv w Hr) as [Hp Ht _ _ (live & old & _ & Hb & _) _].
  split; [done|]. rewrite (bucket_sum_live _ _ Hb) in *. lia.
Qed.
End window.
