(* ===== verification/RoutingState.v ===== *)
(** The routing scheduler's bounded state: admission of one attempt under rate, circuit and
    memory limits, its completion, and the ordering of candidates
    ([apps/bitrouter/src/tenancy/routing/state.rs]). The allocator is outside the source: the
    class [Allocation] holds the type sizes, the capacities of keys and what [HashMap] reserves.
    An [Instant] is its nanoseconds since the runtime's epoch; the lock is never poisoned, since
    no operation here panics under it, so the operations are functions on the locked [State]. *)
From stdpp Require Import base list strings gmap pretty sorting.
From Stdlib Require Import ZArith Lia Ascii SpecFloat.
From S2P Require Import Prelude RoutingRate.
Open Scope string_scope.
Open Scope Z_scope.

Definition MAX_KEY_BYTES : Z := 16 * 1024.
Definition SAMPLES : nat := 32.
Definition MIN_SAMPLES : Z := 3.
Definition FRESH : Z := 300 * NANOS.
Definition OPEN : Z := 30 * NANOS.
Definition FAILURES : Z := 3.

Record Key := {
  namespace : string; provider : string; model : string; account : option string; endpoint : string;
}.
Record ProviderKey := {
  p_namespace : string; p_provider : string; p_account : option string; p_endpoint : string;
  p_pattern : string;
}.
#[export] Instance Key_eq_dec : EqDecision Key. Proof. solve_decision. Defined.
#[export] Instance ProviderKey_eq_dec : EqDecision ProviderKey. Proof. solve_decision. Defined.
#[export] Instance Key_countable : Countable Key.
Proof.
  refine (inj_countable' (λ k, (namespace k, provider k, model k, account k, endpoint k))
    (λ '(n, p, m, a, e), {| namespace := n; provider := p; model := m; account := a; endpoint := e |}) _).
  by intros [].
Defined.
#[export] Instance ProviderKey_countable : Countable ProviderKey.
Proof.
  refine (inj_countable' (λ k, (p_namespace k, p_provider k, p_account k, p_endpoint k, p_pattern k))
    (λ '(n, p, a, e, t), {| p_namespace := n; p_provider := p; p_account := a; p_endpoint := e; p_pattern := t |}) _).
  by intros [].
Defined.

Record Limits := { l_provider : option (string * Z); l_model : option Z }.
Inductive Refusal := Capacity | RateLimited | CircuitOpen | Unavailable.
Inductive Outcome :=
| Success (output_tokens : option Z) | OutcomeUnavailable | Neutral | Unknown.
Inductive Order := Retained | Cost | Latency | Throughput.
#[export] Instance Order_eq_dec : EqDecision Order. Proof. solve_decision. Defined.

Record Sample := { at_ : Z; elapsed : Z; output : option Z }.
Record Entry := {
  entry_rate : Rate; failures : Z; generation : Z; open_until : option Z; probe : option Z;
  touched : Z; samples : list Sample;
}.
Record State := {
  providers : gmap ProviderKey Rate; targets : gmap Key Entry;
  provider_cap : Z; target_cap : Z;
  provider_bytes : Z; target_bytes : Z; bytes : Z; next : Z; state_active : Z;
}.
Record Runtime := { max_entries : Z; max_bytes : Z; max_in_flight : Z }.
Record Admission := {
  a_key : Key; a_provider : option ProviderKey; a_bytes : Z; a_id : Z; a_generation : Z;
  a_sent : option Z; a_finished : bool;
}.

(** The allocator and the layout of the types. The capacity of a key that the caller hands in
    and of the copy that a map keeps are not functions of its text in Rust; they are the two
    functions of each pair. [reserve] is the capacity of a fresh map of so many entries, or
    [None] if it cannot be allocated; [instant_max] is the last representable [Instant]. *)
Class Allocation := {
  size_runtime : Z; size_admission : Z; size_sample : Z; size_bucket : Z;
  size_target : Z; size_provider : Z;
  key_capacity : Key → option Z; key_copy_capacity : Key → option Z;
  provider_capacity : ProviderKey → option Z; provider_copy_capacity : ProviderKey → option Z;
  reserve_targets : Z → option Z; reserve_providers : Z → option Z;
  allocate_rate : option Z; allocate_samples : option Z;
  instant_max : Z;
}.

(** ** Entries *)

Definition since (now then_ : Z) : Z := Z.max 0 (now - then_).
Definition fresh (now : Z) (s : Sample) : bool := since now (at_ s) <? FRESH.
Definition Entry_expire (e : Entry) (now tick : Z) : Entry := {|
  entry_rate := Rate_expire (entry_rate e) tick; failures := failures e; generation := generation e;
  open_until := open_until e; probe := probe e; touched := touched e;
  samples := List.filter (fresh now) (samples e) |}.
Definition evictable (e : Entry) (now : Z) : bool :=
  Rate_idle (entry_rate e) && bool_decide (probe e = None) && bool_decide (samples e = [])
  && (FRESH <=? since now (touched e)).

(** [f64] arithmetic, rounding to nearest. *)
Definition f64 : Type := spec_float.
Definition f64_of (z : Z) : f64 := binary_normalize 53 1024 z 0 false.
Definition f64_add : f64 → f64 → f64 := SFadd 53 1024.
Definition f64_div : f64 → f64 → f64 := SFdiv 53 1024.
(** [Duration::as_secs_f64] *)
Definition as_secs_f64 (d : Z) : f64 := f64_add (f64_of (d / NANOS)) (f64_div (f64_of (d mod NANOS)) (f64_of NANOS)).
(** [f64::total_cmp] compares the bit patterns as sign and magnitude. *)
Definition magnitude_bits (f : f64) : Z :=
  match f with
  | S754_zero _ => 0
  | S754_infinity _ => 2047 * 2 ^ 52
  | S754_nan => 2047 * 2 ^ 52 + 2 ^ 51
  | S754_finite _ m e => if Z.pos m <? 2 ^ 52 then Z.pos m else (e + 1075) * 2 ^ 52 + (Z.pos m - 2 ^ 52)
  end.
Definition sign_bit (f : f64) : bool :=
  match f with S754_zero s | S754_infinity s | S754_finite s _ _ => s | S754_nan => false end.
Definition total_key (f : f64) : Z :=
  if sign_bit f then - magnitude_bits f - 1 else magnitude_bits f.

Definition metric_step (now : Z) (throughput : bool) (acc : Z * f64 * f64) (s : Sample) : Z * f64 * f64 :=
  let '(count, secs, tokens) := acc in
  if throughput && bool_decide (output s = None) then acc
  else (count + 1, f64_add secs (as_secs_f64 (elapsed s)), f64_add tokens (f64_of (default 0 (output s)))).
Definition metric (e : Entry) (now : Z) (throughput : bool) : option f64 :=
  let '(count, secs, tokens) :=
    foldl (metric_step now throughput) (0, S754_zero false, S754_zero false)
      (List.filter (fresh now) (samples e)) in
  if (count <? MIN_SAMPLES) || SFleb secs (S754_zero false) then None
  else Some (if throughput then f64_div tokens secs else f64_div secs (f64_of count)).

Section state.
Context `{Allocation}.

Definition RATE_BYTES : Z := 64 * size_bucket.
Definition SAMPLE_BYTES : Z := Z.of_nat SAMPLES * size_sample.

(** [try_reserve_exact] and the capacity it gave. *)
Definition Rate_alloc : result Refusal Rate :=
  cap ← ok_or allocate_rate Capacity;
  _ ← ensure (negb (64 <? cap)) Capacity;
  Ok Rate_new.
Definition Entry_new (now : Z) : result Refusal Entry :=
  cap ← ok_or allocate_samples Capacity;
  _ ← ensure (negb (Z.of_nat SAMPLES <? cap)) Capacity;
  r ← Rate_alloc;
  Ok {| entry_rate := r; failures := 0; generation := 0; open_until := None; probe := None;
        touched := now; samples := [] |}.
Definition checked_deadline (now : Z) : option Z :=
  if now + OPEN <=? instant_max then Some (now + OPEN) else None.
Definition reopen (e : Entry) (now : Z) : Entry := {|
  entry_rate := entry_rate e; failures := failures e; generation := generation e;
  open_until := checked_deadline now;
  probe := if bool_decide (checked_deadline now = None) then Some 0 else probe e;
  touched := touched e; samples := samples e |}.

(** ** Memory accounting *)

Definition map_bytes (size capacity : Z) : option Z :=
  if capacity =? 0 then Some 0
  else
    a ← capacity +? 1; b ← a *? 2; c ← size +? 1; d ← b *? c; d +? 64.
Definition growth_bytes (size len capacity additional : Z) : option Z :=
  needed ← len +? additional;
  if needed <=? capacity then Some 0
  else twice ← needed *? 2; map_bytes size (Z.max twice 4).
(** The new capacity and the new charge. *)
Definition grow (size : Z) (reserve : Z → option Z) (len capacity charged additional : Z)
    : result Refusal (Z * Z) :=
  reservation ← ok_or (growth_bytes size len capacity additional) Capacity;
  if reservation =? 0 then Ok (capacity, charged)
  else
    needed ← ok_or (len +? additional) Capacity;
    cap ← ok_or (reserve needed) Capacity;
    b ← ok_or (map_bytes size cap) Capacity;
    _ ← ensure (negb (reservation <? b)) Capacity;
    Ok (cap, b).
Definition target_len (st : State) : Z := Z.of_nat (size (targets st)).
Definition provider_len (st : State) : Z := Z.of_nat (size (providers st)).
Definition used_bytes (st : State) : option Z :=
  a ← size_runtime +? bytes st; b ← a +? target_bytes st; b +? provider_bytes st.

Definition target_charge (k : Key) : Z := from_option (λ b, b + RATE_BYTES + SAMPLE_BYTES) 0 (key_copy_capacity k).
Definition provider_charge (k : ProviderKey) : Z := from_option (λ b, b + RATE_BYTES) 0 (provider_copy_capacity k).

Definition reclaim (st : State) (now tick : Z) : State :=
  let ts := (λ e, Entry_expire e now tick) <$> targets st in
  let ts_kept := filter (λ ke, evictable ke.2 now = false) ts in
  let ts_gone := filter (λ ke, evictable ke.2 now = true) ts in
  let ps := (λ r, Rate_expire r tick) <$> providers st in
  let ps_kept := filter (λ kr, Rate_idle kr.2 = false) ps in
  let ps_gone := filter (λ kr, Rate_idle kr.2 = true) ps in
  {| targets := ts_kept; providers := ps_kept;
     bytes := bytes st - sum_by (λ kv, target_charge kv.1) (map_to_list ts_gone)
                       - sum_by (λ kv, provider_charge kv.1) (map_to_list ps_gone);
     target_cap := if bool_decide (ts_kept = ∅) then 0 else target_cap st;
     target_bytes := if bool_decide (ts_kept = ∅) then 0 else target_bytes st;
     provider_cap := if bool_decide (ps_kept = ∅) then 0 else provider_cap st;
     provider_bytes := if bool_decide (ps_kept = ∅) then 0 else provider_bytes st;
     next := next st; state_active := state_active st |}.

(** ** Admission *)

Definition provider_key (key : Key) (limits : Limits) : option ProviderKey :=
  '(pattern, _) ← l_provider limits;
  Some {| p_namespace := namespace key; p_provider := provider key; p_account := account key;
          p_endpoint := endpoint key; p_pattern := pattern |}.
Definition checked_sum (l : list Z) : option Z :=
  foldl (λ acc x, a ← acc; a +? x) (Some 0) l.
Definition key_text_bytes (key : Key) (limits : Limits) : option Z :=
  checked_sum [len (namespace key); len (provider key); len (model key);
               from_option len 0 (account key); len (endpoint key);
               from_option (λ p, len p.1) 0 (l_provider limits)].

(** Before the lock: the sizes of the key, of the provider key and of the guard. *)
Definition measure (rt : Runtime) (key : Key) (limits : Limits) : result Refusal (Z * Z * Z) :=
  text ← ok_or (key_text_bytes key limits) Capacity;
  key_bytes ← ok_or (key_capacity key) Capacity;
  _ ← ensure (negb ((MAX_KEY_BYTES <? text) || (max_bytes rt <? key_bytes))) Capacity;
  provider_bytes ← ok_or (match provider_key key limits with
                          | None => Some 0 | Some p => provider_capacity p end) Capacity;
  guard_bytes ← ok_or (a ← size_admission +? key_bytes; a +? provider_bytes) Capacity;
  Ok (key_bytes, provider_bytes, guard_bytes).

Definition set_maps (st : State) (ps : gmap ProviderKey Rate) (ts : gmap Key Entry) : State := {|
  providers := ps; targets := ts; provider_cap := provider_cap st; target_cap := target_cap st;
  provider_bytes := provider_bytes st; target_bytes := target_bytes st; bytes := bytes st;
  next := next st; state_active := state_active st |}.
Definition expire_keys (st : State) (key : Key) (p : option ProviderKey) (now tick : Z) : State :=
  set_maps st
    (match p with Some p => alter (λ r, Rate_expire r tick) p (providers st) | None => providers st end)
    (alter (λ e, Entry_expire e now tick) key (targets st)).

(** The circuit and the two rate limits. *)
Definition check_limits (st : State) (key : Key) (p : option ProviderKey) (limits : Limits) (now : Z)
    : result Refusal unit :=
  _ ← match targets st !! key with
      | Some e =>
          _ ← ensure (negb (bool_decide (is_Some (probe e))
                            || from_option (λ until, now <? until) false (open_until e))) CircuitOpen;
          ensure (negb (from_option (λ limit, negb (Rate_available (entry_rate e) limit)) false (l_model limits)))
            RateLimited
      | None => ensure (negb (bool_decide (l_model limits = Some 0))) RateLimited
      end;
  match l_provider limits with
  | Some (_, limit) =>
      ensure (negb (from_option (λ r, negb (Rate_available r limit)) false (p ≫= λ p, providers st !! p)
                    || (limit =? 0))) RateLimited
  | None => Ok tt
  end.

Definition new_target (st : State) (key : Key) : bool := bool_decide (targets st !! key = None).
Definition new_provider (st : State) (p : option ProviderKey) : bool :=
  match p with Some p => bool_decide (providers st !! p = None) | None => false end.
Definition fits (rt : Runtime) (st : State) (key : Key) (p : option ProviderKey)
    (key_bytes provider_bytes_ guard_bytes : Z) : option bool :=
  let target := of_bool (new_target st key) in
  let prov := of_bool (new_provider st p) in
  count ← (a ← target_len st +? provider_len st; b ← a +? target; b +? prov);
  used ← used_bytes st;
  b1 ← used +? guard_bytes;
  per_target ← (a ← key_bytes +? RATE_BYTES; a +? SAMPLE_BYTES);
  t ← target *? per_target;
  b2 ← b1 +? t;
  per_provider ← provider_bytes_ +? RATE_BYTES;
  p ← prov *? per_provider;
  b3 ← b2 +? p;
  gt ← growth_bytes size_target (target_len st) (target_cap st) target;
  b4 ← b3 +? gt;
  gp ← growth_bytes size_provider (provider_len st) (provider_cap st) prov;
  b5 ← b4 +? gp;
  Some ((count <=? max_entries rt) && (b5 <=? max_bytes rt)).

Definition next_counts (r : option Rate) : result Refusal (Z * Z) :=
  p ← ok_or (from_option pending 0 r +? 1) Capacity;
  a ← ok_or (from_option active 0 r +? 1) Capacity;
  Ok (p, a).
Definition bounded_copy (copy : option Z) (limit : Z) : result Refusal Z :=
  b ← ok_or copy Capacity;
  _ ← ensure (b <=? limit) Capacity;
  Ok b.
Definition prepare_target (st : State) (key : Key) (key_bytes now : Z) : result Refusal (option (Entry * Z)) :=
  if new_target st key then
    b ← bounded_copy (key_copy_capacity key) key_bytes;
    e ← Entry_new now;
    Ok (Some (e, b + RATE_BYTES + SAMPLE_BYTES))
  else Ok None.
Definition prepare_provider (st : State) (p : option ProviderKey) (provider_bytes : Z)
    : result Refusal (option (ProviderKey * Rate * Z)) :=
  match p with
  | Some p =>
      if new_provider st (Some p) then
        b ← bounded_copy (provider_copy_capacity p) provider_bytes;
        r ← Rate_alloc;
        Ok (Some (p, r, b + RATE_BYTES))
      else Ok None
  | None => Ok None
  end.

(** Growing one of the maps: its capacity and charge change even if a later step fails. *)
Definition grow_targets (st : State) (additional : Z) : result Refusal State :=
  '(cap, charged) ← grow size_target reserve_targets (target_len st) (target_cap st) (target_bytes st) additional;
  Ok {| providers := providers st; targets := targets st; provider_cap := provider_cap st;
        target_cap := cap; provider_bytes := provider_bytes st; target_bytes := charged;
        bytes := bytes st; next := next st; state_active := state_active st |}.
Definition grow_providers (st : State) (additional : Z) : result Refusal State :=
  '(cap, charged) ← grow size_provider reserve_providers (provider_len st) (provider_cap st)
                      (provider_bytes st) additional;
  Ok {| providers := providers st; targets := targets st; provider_cap := cap;
        target_cap := target_cap st; provider_bytes := charged; target_bytes := target_bytes st;
        bytes := bytes st; next := next st; state_active := state_active st |}.

Definition with_counts (r : Rate) (counts : Z * Z) : Rate :=
  {| pending := counts.1; active := counts.2; seconds := seconds r |}.
Definition own_entry (e : Entry) (id now : Z) (counts : Z * Z) : Entry := {|
  entry_rate := with_counts (entry_rate e) counts; failures := failures e; generation := generation e;
  open_until := open_until e;
  probe := if bool_decide (is_Some (open_until e)) then Some id else probe e;
  touched := now; samples := samples e |}.

Definition own_provider (ps : gmap ProviderKey Rate) (p : option ProviderKey) (counts : Z * Z)
    : option (gmap ProviderKey Rate) :=
  match p with
  | Some p => r ← ps !! p; Some (<[p := with_counts r counts]> ps)
  | None => Some ps
  end.

(** The insertions and the hand-out of the guard, once nothing can fail any more. *)
Definition commit (st : State) (key : Key) (p : option ProviderKey) (target : option (Entry * Z))
    (prov : option (ProviderKey * Rate * Z)) (id act guard_bytes now : Z)
    (target_counts provider_counts : Z * Z) : State * result Refusal Admission :=
  let ts := match target with Some (e, _) => <[key := e]> (targets st) | None => targets st end in
  let ps := match prov with Some (k, r, _) => <[k := r]> (providers st) | None => providers st end in
  let charged := bytes st + from_option snd 0 target + from_option (λ x, x.2) 0 prov in
  let ready := {|
    providers := ps; targets := ts; provider_cap := provider_cap st; target_cap := target_cap st;
    provider_bytes := provider_bytes st; target_bytes := target_bytes st; bytes := charged;
    next := id; state_active := state_active st |} in
  match ts !! key with
  | None => (ready, Err Unavailable)
  | Some e =>
      let ts := <[key := own_entry e id now target_counts]> ts in
      match own_provider ps p provider_counts with
      | None => (set_maps ready ps ts, Err Unavailable)
      | Some ps =>
          ({| providers := ps; targets := ts; provider_cap := provider_cap st; target_cap := target_cap st;
              provider_bytes := provider_bytes st; target_bytes := target_bytes st;
              bytes := charged + guard_bytes; next := id; state_active := act |},
           Ok {| a_key := key; a_provider := p; a_bytes := guard_bytes; a_id := id;
                 a_generation := generation e; a_sent := None; a_finished := false |})
      end
  end.

(** The fallible preparation: ids, counters and storage. *)
Definition prepare (st : State) (key : Key) (p : option ProviderKey) (key_bytes provider_bytes_ now : Z)
    : result Refusal (Z * Z * (Z * Z) * (Z * Z) * option (Entry * Z) * option (ProviderKey * Rate * Z)) :=
  id ← ok_or (next st +? 1) Capacity;
  act ← ok_or (state_active st +? 1) Capacity;
  tc ← next_counts (entry_rate <$> targets st !! key);
  pc ← next_counts (p ≫= λ p, providers st !! p);
  target ← prepare_target st key key_bytes now;
  prov ← prepare_provider st p provider_bytes_;
  Ok (id, act, tc, pc, target, prov).

Definition reserve (st : State) (key : Key) (p : option ProviderKey)
    (key_bytes provider_bytes_ guard_bytes now : Z) : State * result Refusal Admission :=
  match prepare st key p key_bytes provider_bytes_ now with
  | Err e => (st, Err e)
  | Ok (id, act, tc, pc, target, prov) =>
      match grow_targets st (of_bool (is_some target)) with
      | Err e => (st, Err e)
      | Ok st =>
          match grow_providers st (of_bool (is_some prov)) with
          | Err e => (st, Err e)
          | Ok st => commit st key p target prov id act guard_bytes now tc pc
          end
      end
  end.

(** The state after the call, and the guard or the refusal. *)
Definition admit_at (rt : Runtime) (st : State) (key : Key) (limits : Limits) (now : Z)
    : State * result Refusal Admission :=
  match measure rt key limits with
  | Err e => (st, Err e)
  | Ok (key_bytes, provider_bytes_, guard_bytes) =>
      let p := provider_key key limits in
      let tick := tick_of now in
      if max_in_flight rt <=? state_active st then (st, Err Capacity)
      else
        let st := expire_keys st key p now tick in
        match check_limits st key p limits now with
        | Err e => (st, Err e)
        | Ok _ =>
            if bool_decide (fits rt st key p key_bytes provider_bytes_ guard_bytes = Some true)
            then reserve st key p key_bytes provider_bytes_ guard_bytes now
            else
              let st := reclaim st now tick in
              if bool_decide (fits rt st key p key_bytes provider_bytes_ guard_bytes = Some true)
              then reserve st key p key_bytes provider_bytes_ guard_bytes now
              else (st, Err Capacity)
        end
  end.

(** ** Send and completion *)

Definition send_entry (e : Entry) (tick : Z) : Entry := {|
  entry_rate := Rate_sent (entry_rate e) tick; failures := failures e; generation := generation e;
  open_until := open_until e; probe := probe e; touched := touched e; samples := samples e |}.
Definition sent_at (st : State) (a : Admission) (now : Z) : State * Admission * result Refusal unit :=
  if bool_decide (is_Some (a_sent a)) || a_finished a then (st, a, Err Unavailable)
  else
    let tick := tick_of now in
    match targets st !! a_key a with
    | None => (st, a, Err Unavailable)
    | Some e =>
        let st1 := set_maps st (providers st) (<[a_key a := send_entry e tick]> (targets st)) in
        let sent := {|
          a_key := a_key a; a_provider := a_provider a; a_bytes := a_bytes a; a_id := a_id a;
          a_generation := a_generation a; a_sent := Some now; a_finished := a_finished a |} in
        match a_provider a with
        | None => (st1, sent, Ok tt)
        | Some p =>
            match providers st1 !! p with
            | None => (st1, a, Err Unavailable)
            | Some r => (set_maps st1 (<[p := Rate_sent r tick]> (providers st1)) (targets st1), sent, Ok tt)
            end
        end
    end.

Definition finish_rate (r : Rate) (unsent : bool) : Rate :=
  if unsent then Rate_refund r else Rate_release r.
Definition push_sample (l : list Sample) (s : Sample) : list Sample :=
  ((if (length l =? SAMPLES)%nat then tail l else l) ++ [s])%list.

(** The health of the entry, once its guard completes in the current generation. *)
Definition classify (e : Entry) (is_probe : bool) (outcome : Outcome) (started now : Z) : Entry :=
  match outcome with
  | Success output_tokens =>
      let d := since now started in
      {| entry_rate := entry_rate e; failures := 0; generation := generation e; open_until := None;
         probe := probe e; touched := touched e;
         samples := if negb (d =? 0) && (d <=? 3600 * NANOS)
                    then push_sample (samples e) {| at_ := now; elapsed := d; output := output_tokens |}
                    else samples e |}
  | OutcomeUnavailable =>
      let count := saturating_add u32_max (failures e) 1 in
      let e' := {| entry_rate := entry_rate e; failures := count; generation := generation e;
                   open_until := open_until e; probe := probe e; touched := touched e; samples := samples e |} in
      if is_probe || (FAILURES <=? count) then
        reopen {| entry_rate := entry_rate e'; failures := count; generation := generation e +| 1;
                  open_until := open_until e'; probe := probe e'; touched := touched e';
                  samples := samples e' |} now
      else e'
  | Neutral | Unknown => if is_probe then reopen e now else e
  end.
Definition finish_entry (e : Entry) (a : Admission) (outcome : Outcome) (now : Z) : Entry :=
  let is_probe := bool_decide (probe e = Some (a_id a)) in
  let e := {|
    entry_rate := finish_rate (entry_rate e) (bool_decide (a_sent a = None)); failures := failures e;
    generation := generation e; open_until := open_until e;
    probe := if is_probe then None else probe e; touched := now; samples := samples e |} in
  match a_sent a with
  | None => e
  | Some started =>
      if negb (a_generation a =? generation e) then e else classify e is_probe outcome started now
  end.

Definition finish_at (st : State) (a : Admission) (outcome : Outcome) (now : Z) : State * Admission :=
  if a_finished a then (st, a)
  else
    let done_ := {|
      a_key := a_key a; a_provider := a_provider a; a_bytes := a_bytes a; a_id := a_id a;
      a_generation := a_generation a; a_sent := a_sent a; a_finished := true |} in
    let ps := match a_provider a with
              | Some p => alter (λ r, finish_rate r (bool_decide (a_sent a = None))) p (providers st)
              | None => providers st end in
    ({| providers := ps; targets := alter (λ e, finish_entry e a outcome now) (a_key a) (targets st);
        provider_cap := provider_cap st; target_cap := target_cap st;
        provider_bytes := provider_bytes st; target_bytes := target_bytes st; bytes := bytes st;
        next := next st; state_active := state_active st -| 1 |}, done_).
Definition drop (st : State) (a : Admission) (now : Z) : State :=
  let '(st, a) := finish_at st a Unknown now in
  {| providers := providers st; targets := targets st; provider_cap := provider_cap st;
     target_cap := target_cap st; provider_bytes := provider_bytes st; target_bytes := target_bytes st;
     bytes := bytes st -| a_bytes a; next := next st; state_active := state_active st |}.

(** ** Ordering *)

Definition missing_last {T} (a b : option T) (cmp : T → T → comparison) : comparison :=
  match a, b with
  | Some x, Some y => cmp x y
  | Some _, None => Lt
  | None, Some _ => Gt
  | None, None => Eq
  end.
Definition total_cmp (a b : f64) : comparison := Z.compare (total_key a) (total_key b).
Definition compare_candidates (st : State) (order : Order) (now : Z) (x y : Key * option Z) : comparison :=
  if bool_decide (order = Cost) then missing_last x.2 y.2 Z.compare
  else
    let throughput := bool_decide (order = Throughput) in
    missing_last (targets st !! x.1 ≫= λ e, metric e now throughput)
      (targets st !! y.1 ≫= λ e, metric e now throughput)
      (if throughput then (λ a b, total_cmp b a) else total_cmp).
(** [sort_by] is stable: an index goes before the later ones that do not compare less. *)
Fixpoint insert_index (le : nat → nat → bool) (i : nat) (l : list nat) : list nat :=
  match l with
  | [] => [i]
  | j :: r => if le i j then i :: l else j :: insert_index le i r
  end.
Definition stable_sort (le : nat → nat → bool) (l : list nat) : list nat := foldr (insert_index le) [] l.
Definition candidate_at (candidates : list (Key * option Z)) (i : nat) : Key * option Z :=
  nth i candidates ({| namespace := ""; provider := ""; model := ""; account := None; endpoint := "" |}, None).
Definition index_compare (st : State) (candidates : list (Key * option Z)) (order : Order) (now : Z) (i j : nat)
    : comparison :=
  compare_candidates st order now (candidate_at candidates i) (candidate_at candidates j).
Definition order_at (st : State) (candidates : list (Key * option Z)) (order : Order) (now : Z)
    : result Refusal (list nat) :=
  _ ← ensure (negb (256 <? length candidates)%nat) Capacity;
  let indices := seq 0 (length candidates) in
  if bool_decide (order = Retained) then Ok indices
  else Ok (stable_sort (λ i j, negb (bool_decide (index_compare st candidates order now i j = Gt))) indices).

(** ** Construction *)

Definition State_default : State := {|
  providers := ∅; targets := ∅; provider_cap := 0; target_cap := 0; provider_bytes := 0;
  target_bytes := 0; bytes := 0; next := 0; state_active := 0 |}.
Definition fits_isize (o : option Z) : bool := from_option (λ b, b <=? i64_max) false o.
Definition configured (entries bytes_ max_in_flight : Z) : result string Runtime :=
  _ ← ensure (0 <? entries) "routing entries must be positive";
  _ ← ensure (0 <? max_in_flight) "routing active owners must be positive";
  _ ← ensure ((size_runtime <=? bytes_) && (bytes_ <=? i64_max))
        "routing bytes cannot represent the runtime allocation";
  _ ← ensure (fits_isize (map_bytes size_target entries) && fits_isize (max_in_flight *? size_admission))
        "routing capacity exceeds the addressable allocation range";
  Ok {| max_entries := entries; max_bytes := bytes_; max_in_flight := max_in_flight |}.
End state.

(** ** Theorems *)

Section ordering.
Context `{Allocation}.

(** What a candidate is ordered by: smaller first, missing last. *)
Definition rank (st : State) (order : Order) (now : Z) (c : Key * option Z) : option Z :=
  match order with
  | Cost => c.2
  | Throughput => (λ f, - total_key f) <$> (targets st !! c.1 ≫= λ e, metric e now true)
  | _ => total_key <$> (targets st !! c.1 ≫= λ e, metric e now false)
  end.
Lemma compare_candidates_rank st order now x y :
  compare_candidates st order now x y = missing_last (rank st order now x) (rank st order now y) Z.compare.
Proof.
  unfold compare_candidates, rank, missing_last, total_cmp.
  destruct order; repeat (case_bool_decide; try done); cbn; try done;
    repeat match goal with |- context [targets st !! ?k ≫= ?f] => destruct (targets st !! k ≫= f) end;
    cbn; try done. by rewrite Z.compare_opp.
Qed.

Section stable.
Context (r : nat → option Z).
(** Before: a smaller rank, or the same rank and an earlier index. *)
Definition before (i j : nat) : Prop :=
  missing_last (r i) (r j) Z.compare = Lt ∨ (missing_last (r i) (r j) Z.compare = Eq ∧ (i < j)%nat).
Definition le_index (i j : nat) : bool := negb (bool_decide (missing_last (r i) (r j) Z.compare = Gt)).

Lemma missing_last_lt a b : missing_last a b Z.compare = Lt ↔
  match a, b with Some x, Some y => x < y | Some _, None => True | None, _ => False end.
Proof. destruct a, b; cbn; rewrite ?Z.compare_lt_iff; try done. Qed.
Lemma missing_last_eq a b : missing_last a b Z.compare = Eq ↔ a = b.
Proof. destruct a, b; cbn; rewrite ?Z.compare_eq_iff; naive_solver. Qed.
Lemma before_trans i j k : before i j → before j k → before i k.
Proof.
  unfold before. rewrite !missing_last_lt, !missing_last_eq.
  destruct (r i), (r j), (r k); intros [?|[[=] ?]] [?|[[=] ?]]; try done; subst; auto; try lia;
    try (left; lia); try (right; split; [done|lia]).
Qed.
Lemma before_total i j : (i < j)%nat → le_index i j = true → before i j.
Proof.
  unfold le_index, before. intros Hij Hle%negb_true_iff%bool_decide_eq_false.
  destruct (missing_last (r i) (r j) Z.compare); [right|left|]; done.
Qed.
Lemma before_after i j : le_index i j = false → before j i.
Proof.
  unfold le_index, before. intros Hgt%negb_false_iff%bool_decide_eq_true. left.
  rewrite missing_last_lt. destruct (r i), (r j); cbn in *; try done. by apply Z.compare_gt_iff in Hgt.
Qed.

Lemma insert_index_perm i l : insert_index le_index i l ≡ₚ i :: l.
Proof.
  induction l as [|j l IH]; cbn; [done|]. case_match; [done|]. rewrite IH. apply Permutation_swap.
Qed.
Lemma insert_index_sorted i l :
  Forall (λ j, (i < j)%nat) l → StronglySorted before l → StronglySorted before (insert_index le_index i l).
Proof.
  induction l as [|j l IH]; intros Hi Hs; cbn; [by repeat constructor|].
  apply Forall_cons in Hi as [Hij Hi]. apply StronglySorted_inv in Hs as [Hs Hj].
  destruct (le_index i j) eqn:Hle.
  - apply before_total in Hle; [|done]. constructor; [by constructor|]. constructor; [done|].
    eapply Forall_impl; [exact Hj|]. intros k Hk. by eapply before_trans.
  - constructor; [by apply IH|]. rewrite insert_index_perm. constructor; [by apply before_after|done].
Qed.
Lemma stable_sort_spec l :
  StronglySorted lt l → stable_sort le_index l ≡ₚ l ∧ StronglySorted before (stable_sort le_index l).
Proof.
  induction 1 as [|i l Hs [IHp IHs] Hi]; [split; [done|constructor]|]. cbn [stable_sort foldr].
  fold (stable_sort le_index l). split; [by rewrite insert_index_perm, IHp|].
  apply insert_index_sorted; [|done]. by rewrite IHp.
Qed.
End stable.

Lemma stable_sort_ext le le' l :
  (∀ i j, le i j = le' i j) → stable_sort le l = stable_sort le' l.
Proof.
  intros Hle. induction l as [|i l IH]; [done|]. cbn. fold (stable_sort le l) (stable_sort le' l).
  rewrite IH. clear IH. induction (stable_sort le' l) as [|j l' IH']; [done|]. cbn. by rewrite Hle, IH'.
Qed.
Lemma seq_sorted a n : StronglySorted lt (seq a n).
Proof.
  revert a. induction n as [|n IH]; intros a; cbn; constructor; [done|].
  apply List.Forall_forall. intros j Hj%in_seq. lia.
Qed.

(** Ordering returns every candidate once, by the smallest cost or latency or the largest
    throughput, those without fresh evidence last, and equal ones in their given order. *)
Theorem order_is_stable st candidates order now l :
  order_at st candidates order now = Ok l →
  l ≡ₚ seq 0 (length candidates) ∧
  (order = Retained → l = seq 0 (length candidates)) ∧
  (order ≠ Retained →
   StronglySorted (before (λ i, rank st order now (candidate_at candidates i))) l).
Proof.
  unfold order_at. intros Ho. res_inv. case_bool_decide as Hr; res_inv; [by subst|].
  rewrite (stable_sort_ext _ (le_index (λ i, rank st order now (candidate_at candidates i))))
    by (intros; unfold index_compare; by rewrite compare_candidates_rank).
  destruct (stable_sort_spec (λ i, rank st order now (candidate_at candidates i)) _
    (seq_sorted 0 (length candidates))) as [Hp Hs]. by split_and!.
Qed.
End ordering.
