(* ===== verification/RoutingSystem.v ===== *)
(** The routing scheduler as a transition system: the operations of [RoutingState] called in
    any order by any number of owners, the guards they hold, and the invariants of every
    reachable state: exact memory accounting, ownership of rates and probes, and, through the
    simulation by [RoutingRate], the rate limits over every window
    ([apps/bitrouter/src/tenancy/routing/state.rs]). *)
From stdpp Require Import base list strings gmap pretty sorting.
From Stdlib Require Import ZArith Lia Ascii.
From S2P Require Import Prelude RoutingRate RoutingState.
Open Scope Z_scope.

(** What the sizes and capacities of Rust values are: [usize] values. *)
Class AllocationLaws `{Allocation} : Prop := {
  sizes_nonneg :
    0 ≤ size_runtime ∧ 0 ≤ size_admission ∧ 0 ≤ size_sample ∧ 0 ≤ size_bucket ∧
    0 ≤ size_target ∧ 0 ≤ size_provider;
  key_capacity_nonneg k b : key_capacity k = Some b → 0 ≤ b;
  key_copy_nonneg k b : key_copy_capacity k = Some b → 0 ≤ b;
  provider_capacity_nonneg p b : provider_capacity p = Some b → 0 ≤ b;
  provider_copy_nonneg p b : provider_copy_capacity p = Some b → 0 ≤ b;
  reserve_targets_nonneg n c : reserve_targets n = Some c → 0 ≤ c;
  reserve_providers_nonneg n c : reserve_providers n = Some c → 0 ≤ c;
}.

(** ** The system *)

(** Every guard handed out and not yet dropped is paired with the latest clock value read when
    it was handed out: [Instant] is monotonic, so its owner reads no earlier one afterwards.
    [log] records each send with the guard that paid for it. [policy] is the limits that the
    callers pass for a key. *)
Record System := { sys : State; out : list (Admission * Z); log : list (Admission * Z); clock : Z }.
Definition System_init : System := {| sys := State_default; out := []; log := []; clock := 0 |}.

Section system.
Context `{Allocation}.
Context (rt : Runtime) (policy : Key → Limits).

Inductive sys_step : System → System → Prop :=
| do_admit S key now st r :
    0 ≤ now → admit_at rt (sys S) key (policy key) now = (st, r) →
    sys_step S {|
      sys := st;
      out := match r with Ok a => (a, Z.max (clock S) now) :: out S | Err _ => out S end;
      log := log S; clock := Z.max (clock S) now |}
| do_send S a born rest now st a' r :
    out S ≡ₚ (a, born) :: rest → born ≤ now → sent_at (sys S) a now = (st, a', r) →
    sys_step S {|
      sys := st; out := (a', born) :: rest;
      log := match r with Ok _ => (a, now) :: log S | Err _ => log S end;
      clock := Z.max (clock S) now |}
| do_finish S a born rest outcome now st a' :
    out S ≡ₚ (a, born) :: rest → finish_at (sys S) a outcome now = (st, a') →
    sys_step S {|
      sys := st; out := (a', born) :: rest; log := log S; clock := Z.max (clock S) now |}
| do_drop S a born rest now :
    out S ≡ₚ (a, born) :: rest →
    sys_step S {|
      sys := drop (sys S) a now; out := rest; log := log S; clock := Z.max (clock S) now |}.

Definition sys_reachable (S : System) : Prop := rtc sys_step System_init S.
End system.

(** ** Slots: the rate of a target or of a provider pattern *)

Inductive slot := Target (k : Key) | Prov (p : ProviderKey).

Definition slot_entry (st : State) (s : slot) : option Rate :=
  match s with Target k => entry_rate <$> targets st !! k | Prov p => providers st !! p end.
Definition slot_rate (st : State) (s : slot) : Rate := default Rate_new (slot_entry st s).
Definition asks (s : slot) (key : Key) (p : option ProviderKey) : bool :=
  match s with Target k => bool_decide (key = k) | Prov q => bool_decide (p = Some q) end.
Definition owns (s : slot) (g : Admission * Z) : bool := asks s (a_key g.1) (a_provider g.1).
Definition live (g : Admission * Z) : bool := negb (a_finished g.1).
Definition unsent (g : Admission * Z) : bool := live g && bool_decide (a_sent g.1 = None).

Section effects.
Context `{Allocation}.

Lemma drop_expired_idemp tick l : drop_expired tick (drop_expired tick l) = drop_expired tick l.
Proof.
  induction l as [|[b c] l IH]; [done|]. cbn [drop_expired]. destruct (_ <=? _) eqn:Hb; [done|].
  cbn [drop_expired]. by rewrite Hb.
Qed.
Lemma Rate_expire_idemp r tick : Rate_expire (Rate_expire r tick) tick = Rate_expire r tick.
Proof. unfold Rate_expire. cbn. by rewrite drop_expired_idemp. Qed.

Lemma expire_keys_slot st key p now tick s :
  slot_entry (expire_keys st key p now tick) s =
    (if asks s key p then (λ r, Rate_expire r tick) <$> slot_entry st s else slot_entry st s).
Proof.
  destruct s as [k|q]; cbn.
  - case_bool_decide as Hk; [subst|by rewrite lookup_alter_ne].
    rewrite lookup_alter_eq. by destruct (targets st !! k).
  - destruct p as [p|]; [|done]. case_bool_decide as Hp.
    + injection Hp as ->. by rewrite lookup_alter_eq.
    + rewrite lookup_alter_ne; [done|congruence].
Qed.
Lemma expire_keys_rate st key p now tick s :
  slot_rate (expire_keys st key p now tick) s =
    (if asks s key p then Rate_expire (slot_rate st s) tick else slot_rate st s).
Proof. unfold slot_rate. rewrite expire_keys_slot. by destruct (asks s key p), (slot_entry st s). Qed.

(** Eviction only takes idle slots, after their expiry. *)
Lemma reclaim_slot st now tick s :
  slot_entry (reclaim st now tick) s = (λ r, Rate_expire r tick) <$> slot_entry st s ∨
  (slot_entry (reclaim st now tick) s = None ∧
   ∀ r, slot_entry st s = Some r → Rate_idle (Rate_expire r tick) = true).
Proof.
  destruct s as [k|q]; cbn.
  - destruct (targets st !! k) as [e|] eqn:He; cbn.
    + destruct (evictable (Entry_expire e now tick) now) eqn:Hev.
      * right. rewrite map_lookup_filter, lookup_fmap, He. cbn. rewrite option_guard_False by (cbn; congruence).
        split; [done|]. intros r [= <-]. unfold evictable in Hev. rewrite !andb_true_iff in Hev. apply Hev.
      * left. rewrite map_lookup_filter, lookup_fmap, He. cbn. by rewrite option_guard_True.
    + right. rewrite map_lookup_filter, lookup_fmap, He. by split.
  - destruct (providers st !! q) as [r|] eqn:Hr; cbn.
    + destruct (Rate_idle (Rate_expire r tick)) eqn:Hi.
      * right. rewrite map_lookup_filter, lookup_fmap, Hr. cbn. rewrite option_guard_False by (cbn; congruence).
        split; [done|]. by intros ? [= <-].
      * left. rewrite map_lookup_filter, lookup_fmap, Hr. cbn. by rewrite option_guard_True.
    + right. rewrite map_lookup_filter, lookup_fmap, Hr. by split.
Qed.
End effects.

(** ** The reservation *)

Definition Entry_init (now : Z) : Entry := {|
  entry_rate := Rate_new; failures := 0; generation := 0; open_until := None; probe := None;
  touched := now; samples := [] |}.
(** The entry of a target after its reservation by guard [id]. *)
Definition reserved_entry (e : Entry) (id now : Z) : Entry := {|
  entry_rate := Rate_reserve (entry_rate e); failures := failures e; generation := generation e;
  open_until := open_until e; probe := if bool_decide (is_Some (open_until e)) then Some id else probe e;
  touched := now; samples := samples e |}.

Section reservation.
Context `{Allocation}.

Definition entry_or_init (st : State) (key : Key) (now : Z) : Entry :=
  default (Entry_init now) (targets st !! key).
Definition reserved_providers (st : State) (p : option ProviderKey) : gmap ProviderKey Rate :=
  match p with
  | Some q => <[q := Rate_reserve (default Rate_new (providers st !! q))]> (providers st)
  | None => providers st
  end.
Definition new_charges (st : State) (key : Key) (p : option ProviderKey) : Z :=
  (if new_target st key then target_charge key else 0) +
  (if new_provider st p then from_option provider_charge 0 p else 0).

Lemma Rate_alloc_ok r : Rate_alloc = Ok r → r = Rate_new.
Proof. unfold Rate_alloc. intros. by res_inv. Qed.
Lemma bounded_copy_ok copy limit b : bounded_copy copy limit = Ok b → copy = Some b ∧ b ≤ limit.
Proof. unfold bounded_copy. intros. res_inv. arith. done. Qed.

Lemma prepare_target_ok st key kb now target :
  prepare_target st key kb now = Ok target →
  (is_some target = new_target st key) ∧
  (if new_target st key then target = Some (Entry_init now, target_charge key) ∧
     target_charge key ≤ kb + RATE_BYTES + SAMPLE_BYTES else target = None).
Proof.
  unfold prepare_target. intros Ht. destruct (new_target st key); res_inv; [|done].
  apply bounded_copy_ok in Hv as [Hc Hle]. unfold Entry_new in *. res_inv.
  match goal with Hr : Rate_alloc = Ok _ |- _ => apply Rate_alloc_ok in Hr as -> end. unfold target_charge. rewrite Hc. cbn. split_and!; [done..|lia].
Qed.
Lemma prepare_provider_ok st p pb prov :
  prepare_provider st p pb = Ok prov →
  (is_some prov = new_provider st p) ∧
  (if new_provider st p then ∃ q, p = Some q ∧ prov = Some (q, Rate_new, provider_charge q) ∧
     provider_charge q ≤ pb + RATE_BYTES else prov = None).
Proof.
  unfold prepare_provider. destruct p as [q|]; intros Hp; [|by res_inv].
  destruct (new_provider st (Some q)); res_inv; [|done].
  apply bounded_copy_ok in Hv as [Hc Hle]. apply Rate_alloc_ok in Hv0 as ->.
  split; [done|]. exists q. unfold provider_charge. rewrite Hc. cbn. split_and!; [done..|lia].
Qed.
Lemma next_counts_ok r c :
  next_counts r = Ok c → c = (pending (default Rate_new r) + 1, active (default Rate_new r) + 1).
Proof. unfold next_counts. intros. res_inv. destruct r; cbn in *; by arith. Qed.

Definition same_but_growth (st st' : State) : Prop :=
  targets st' = targets st ∧ providers st' = providers st ∧ bytes st' = bytes st ∧
  next st' = next st ∧ state_active st' = state_active st.
(** One map's charge after a growth by at most [growth]. *)
Definition charged_within (old new : Z) (growth : option Z) : Prop :=
  0 ≤ old → ∀ g, growth = Some g → 0 ≤ g → 0 ≤ new ≤ old + g.

Lemma map_bytes_nonneg sz cap b : 0 ≤ sz → 0 ≤ cap → map_bytes sz cap = Some b → 0 ≤ b.
Proof.
  unfold map_bytes. intros Hsz Hc. destruct (cap =? 0); [by intros [= <-]|].
  intros Hb. repeat (apply bind_Some in Hb as (? & ? & Hb)). arith.
Qed.
Lemma growth_bytes_nonneg sz n cap add g : 0 ≤ sz → growth_bytes sz n cap add = Some g → 0 ≤ g.
Proof.
  unfold growth_bytes. intros Hsz Hg. apply bind_Some in Hg as (needed & Hn & Hg).
  destruct (needed <=? cap); [by injection Hg as <-|].
  apply bind_Some in Hg as (twice & Ht & Hg). eapply map_bytes_nonneg; [done| |exact Hg]. lia.
Qed.
Lemma grow_ok sz reserve n cap charged add cap' charged' :
  0 ≤ sz → (∀ n c, reserve n = Some c → 0 ≤ c) →
  grow sz reserve n cap charged add = Ok (cap', charged') →
  charged_within charged charged' (growth_bytes sz n cap add).
Proof.
  unfold grow, charged_within. intros Hsz Hres Hg Hold g Hgb Hg0. res_inv. rewrite Hgb in Hv. injection Hv as <-.
  destruct (g =? 0) eqn:Hz; res_inv; arith.
  match goal with Hm : map_bytes _ _ = Some _, Hr : reserve _ = Some _ |- _ =>
    apply map_bytes_nonneg in Hm; [lia|done|by eapply Hres] end.
Qed.

Definition grown (st st' : State) (dt dp : Z) : Prop :=
  charged_within (target_bytes st) (target_bytes st')
    (growth_bytes size_target (target_len st) (target_cap st) dt) ∧
  charged_within (provider_bytes st) (provider_bytes st')
    (growth_bytes size_provider (provider_len st) (provider_cap st) dp).

Lemma charged_same old growth : charged_within old old growth.
Proof. intros Hold g Hg Hg0. lia. Qed.
Lemma grow_targets_ok `{!AllocationLaws} st add st' :
  grow_targets st add = Ok st' →
  same_but_growth st st' ∧ provider_cap st' = provider_cap st ∧ provider_bytes st' = provider_bytes st ∧
  charged_within (target_bytes st) (target_bytes st')
    (growth_bytes size_target (target_len st) (target_cap st) add).
Proof.
  unfold grow_targets. intros Hg. res_inv. destruct v as [cap charged]. res_inv. split; [by split_and!|].
  split_and!; [done..|]. eapply grow_ok; [apply sizes_nonneg|apply reserve_targets_nonneg|exact Hv].
Qed.
Lemma grow_providers_ok `{!AllocationLaws} st add st' :
  grow_providers st add = Ok st' →
  same_but_growth st st' ∧ target_bytes st' = target_bytes st ∧
  charged_within (provider_bytes st) (provider_bytes st')
    (growth_bytes size_provider (provider_len st) (provider_cap st) add).
Proof.
  unfold grow_providers. intros Hg. res_inv. destruct v as [cap charged]. res_inv. split; [by split_and!|].
  split_and!; [done..|]. eapply grow_ok; [apply sizes_nonneg|apply reserve_providers_nonneg|exact Hv].
Qed.

Lemma own_entry_reserved st key id now :
  own_entry (entry_or_init st key now) id now
    (pending (slot_rate st (Target key)) + 1, active (slot_rate st (Target key)) + 1)
  = reserved_entry (entry_or_init st key now) id now.
Proof. unfold entry_or_init, slot_rate, slot_entry. by destruct (targets st !! key). Qed.
Lemma own_provider_reserved st p prov :
  (if new_provider st p then ∃ q, p = Some q ∧ prov = Some (q, Rate_new, provider_charge q) else prov = None) →
  let r := default Rate_new (p ≫= λ q, providers st !! q) in
  own_provider (match prov with Some (k, r, _) => <[k := r]> (providers st) | None => providers st end) p
    (pending r + 1, active r + 1) = Some (reserved_providers st p).
Proof.
  intros Hp. cbn zeta. unfold own_provider, reserved_providers, new_provider in *.
  destruct p as [q|]; cbn in *; [|by subst].
  destruct (providers st !! q) as [r|] eqn:Hq.
  - rewrite bool_decide_eq_false_2 in Hp by done. subst prov. by rewrite Hq.
  - rewrite bool_decide_eq_true_2 in Hp by done. destruct Hp as (? & [= <-] & ->).
    rewrite lookup_insert_eq. cbn. by rewrite insert_insert_eq.
Qed.

(** [commit] cannot fail: the entries it looks up exist or have just been inserted. *)
Lemma commit_ok st key p target prov id act gb now tc pc :
  (if new_target st key then target = Some (Entry_init now, target_charge key) else target = None) →
  (if new_provider st p then ∃ q, p = Some q ∧ prov = Some (q, Rate_new, provider_charge q) else prov = None) →
  tc = (pending (slot_rate st (Target key)) + 1, active (slot_rate st (Target key)) + 1) →
  pc = (pending (default Rate_new (p ≫= λ q, providers st !! q)) + 1,
        active (default Rate_new (p ≫= λ q, providers st !! q)) + 1) →
  commit st key p target prov id act gb now tc pc =
  ({| targets := <[key := reserved_entry (entry_or_init st key now) id now]> (targets st);
      providers := reserved_providers st p; target_cap := target_cap st; provider_cap := provider_cap st;
      target_bytes := target_bytes st; provider_bytes := provider_bytes st;
      bytes := bytes st + new_charges st key p + gb; next := id; state_active := act |},
   Ok {| a_key := key; a_provider := p; a_bytes := gb; a_id := id;
         a_generation := generation (entry_or_init st key now); a_sent := None; a_finished := false |}).
Proof.
  intros Ht Hp -> ->. unfold commit. rewrite own_provider_reserved by done.
  assert (bytes st + from_option snd 0 target + from_option (λ x, x.2) 0 prov = bytes st + new_charges st key p)
    as ->.
  { unfold new_charges. destruct (new_target st key); subst target; cbn; [|]; destruct (new_provider st p);
      try destruct Hp as (q & -> & ->); subst; cbn; lia. }
  assert (∃ ts, match target with Some (e, _) => <[key := e]> (targets st) | None => targets st end = ts ∧
    ts !! key = Some (entry_or_init st key now) ∧ ∀ e, <[key := e]> ts = <[key := e]> (targets st))
    as (ts & -> & Hlk & Hins).
  { unfold new_target, entry_or_init in *. destruct (targets st !! key) as [e|] eqn:He.
    - rewrite bool_decide_eq_false_2 in Ht by done. subst. by eexists.
    - rewrite bool_decide_eq_true_2 in Ht by done. subst. eexists. split_and!; [done|by rewrite lookup_insert_eq|].
      intros e. by rewrite insert_insert_eq. }
  by rewrite Hlk, own_entry_reserved, Hins.
Qed.

Record reserved (st : State) (key : Key) (p : option ProviderKey) (gb now : Z) (st' : State) (a : Admission) : Prop := {
  res_targets : targets st' = <[key := reserved_entry (entry_or_init st key now) (next st + 1) now]> (targets st);
  res_providers : providers st' = reserved_providers st p;
  res_bytes : bytes st' = bytes st + new_charges st key p + gb;
  res_next : next st' = next st + 1;
  res_active : state_active st' = state_active st + 1;
  res_guard : a = {| a_key := key; a_provider := p; a_bytes := gb; a_id := next st + 1;
    a_generation := generation (entry_or_init st key now); a_sent := None; a_finished := false |};
}.
Definition charge_bound (st : State) (key : Key) (p : option ProviderKey) (kb pb : Z) : Z :=
  of_bool (new_target st key) * (kb + RATE_BYTES + SAMPLE_BYTES) + of_bool (new_provider st p) * (pb + RATE_BYTES).

Lemma prepare_ok st key p kb pb now id act tc pc target prov :
  prepare st key p kb pb now = Ok (id, act, tc, pc, target, prov) →
  id = next st + 1 ∧ act = state_active st + 1 ∧
  tc = (pending (slot_rate st (Target key)) + 1, active (slot_rate st (Target key)) + 1) ∧
  pc = (pending (default Rate_new (p ≫= λ q, providers st !! q)) + 1,
        active (default Rate_new (p ≫= λ q, providers st !! q)) + 1) ∧
  is_some target = new_target st key ∧ is_some prov = new_provider st p ∧
  (if new_target st key then target = Some (Entry_init now, target_charge key) else target = None) ∧
  (if new_provider st p then ∃ q, p = Some q ∧ prov = Some (q, Rate_new, provider_charge q) else prov = None) ∧
  new_charges st key p ≤ charge_bound st key p kb pb.
Proof.
  unfold prepare. intros Hp. res_inv.
  match goal with H : prepare_target _ _ _ _ = _ |- _ => apply prepare_target_ok in H as [Ht1 Ht2] end.
  match goal with H : prepare_provider _ _ _ = _ |- _ => apply prepare_provider_ok in H as [Hp1 Hp2] end.
  repeat match goal with H : next_counts _ = _ |- _ => apply next_counts_ok in H as -> end.
  arith_step. arith_step. subst. split_and!; try done.
  - destruct (new_target st key); naive_solver.
  - destruct (new_provider st p); naive_solver.
  - unfold new_charges, charge_bound, of_bool.
    destruct (new_target st key), (new_provider st p); cbn [from_option];
      try destruct Hp2 as (q & -> & -> & ?); try destruct Ht2 as [-> ?]; cbn [from_option]; lia.
Qed.

(** The two ends of [reserve]: nothing but the capacities and charges of the maps change, or
    the reservation is made in full. *)
Lemma reserve_spec `{!AllocationLaws} st key p kb pb gb now st' r :
  reserve st key p kb pb gb now = (st', r) →
  grown st st' (of_bool (new_target st key)) (of_bool (new_provider st p)) ∧
  match r with
  | Err _ => same_but_growth st st'
  | Ok a => reserved st key p gb now st' a ∧ new_charges st key p ≤ charge_bound st key p kb pb
  end.
Proof.
  unfold reserve, grown. destruct (prepare _ _ _ _ _ _) as [[[[[[id act] tc] pc] target] prov]|e] eqn:Hprep.
  2:{ intros [= <- <-]. split; [split; apply charged_same|by split_and!]. }
  apply prepare_ok in Hprep as (-> & -> & Htc & Hpc & Hst & Hsp & Ht & Hp & Hch).
  rewrite Hst, Hsp.
  destruct (grow_targets st _) as [st1|e] eqn:Hg1.
  2:{ intros [= <- <-]. split; [split; apply charged_same|by split_and!]. }
  apply grow_targets_ok in Hg1 as ((Hts & Hps & Hb & Hn & Ha) & Hpc1 & Hpb1 & Hc1).
  destruct (grow_providers st1 _) as [st2|e] eqn:Hg2.
  2:{ intros [= <- <-]. split; [|by split_and!]. split; [done|]. rewrite Hpb1. apply charged_same. }
  apply grow_providers_ok in Hg2 as ((Hts2 & Hps2 & Hb2 & Hn2 & Ha2) & Htb2 & Hc2).
  rewrite Hts in Hts2. rewrite Hps in Hps2. rewrite Hb in Hb2.
  unfold provider_len in Hc2. rewrite Hps, Hpc1, Hpb1 in Hc2. rewrite <-Htb2 in Hc1.
  assert (new_target st2 key = new_target st key ∧ new_provider st2 p = new_provider st p) as [Hnt Hnp].
  { unfold new_target, new_provider. by rewrite Hts2, Hps2. }
  assert ((p ≫= λ q, providers st2 !! q) = p ≫= λ q, providers st !! q) as Hbind
    by (destruct p; cbn; by rewrite ?Hps2).
  assert (slot_rate st2 (Target key) = slot_rate st (Target key)) as Hsr by (unfold slot_rate; cbn; by rewrite Hts2).
  rewrite <-Hnt in Ht. rewrite <-Hnp in Hp. rewrite <-Hsr in Htc. rewrite <-Hbind in Hpc.
  rewrite (commit_ok st2 _ _ _ _ _ _ _ _ _ _ Ht Hp Htc Hpc).
  intros [= <- <-]. cbn [target_bytes provider_bytes]. split; [by split|].
  unfold new_charges, entry_or_init, reserved_providers in *. rewrite Hnt, Hnp, Hts2, Hps2, Hb2.
  split; [|done]. by constructor.
Qed.

(** The paths of [admit_at]: what it refuses before and after expiry, and what it reserves. *)
Lemma admit_spec rt st key limits now st' r :
  admit_at rt st key limits now = (st', r) →
  let p := provider_key key limits in
  let st1 := expire_keys st key p now (tick_of now) in
  ((∃ e, r = Err e) ∧ (st' = st ∨ st' = st1)) ∨
  ∃ st2, (st2 = st1 ∨ st2 = reclaim st1 now (tick_of now)) ∧
    check_limits st1 key p limits now = Ok tt ∧ state_active st < max_in_flight rt ∧
    (((∃ e, r = Err e) ∧ st' = st2) ∨
     ∃ kb pb gb, measure rt key limits = Ok (kb, pb, gb) ∧ fits rt st2 key p kb pb gb = Some true ∧
       reserve st2 key p kb pb gb now = (st', r)).
Proof.
  unfold admit_at. intros Ha. cbn zeta. destruct (measure rt key limits) as [[[kb pb] gb]|e] eqn:Hm.
  2:{ injection Ha as <- <-. left. eauto. }
  destruct (Z.leb_spec (max_in_flight rt) (state_active st)) as [Hact|Hact].
  { injection Ha as <- <-. left. eauto. }
  destruct (check_limits _ _ _ _ _) as [[]|e]; [|injection Ha as <- <-; left; eauto].
  right. case_bool_decide as Hf1.
  { eexists. split; [by left|]. split_and!; [done..|]. right. by exists kb, pb, gb. }
  eexists. split; [by right|]. split_and!; [done..|].
  case_bool_decide as Hf2; [right; by exists kb, pb, gb|]. injection Ha as <- <-. left. eauto.
Qed.
Lemma fits_ok rt st key p kb pb gb :
  AllocationLaws → fits rt st key p kb pb gb = Some true →
  ∃ gt gp,
    growth_bytes size_target (target_len st) (target_cap st) (of_bool (new_target st key)) = Some gt ∧
    growth_bytes size_provider (provider_len st) (provider_cap st) (of_bool (new_provider st p)) = Some gp ∧
    0 ≤ gt ∧ 0 ≤ gp ∧
    target_len st + provider_len st + of_bool (new_target st key) + of_bool (new_provider st p) ≤ max_entries rt ∧
    size_runtime + bytes st + target_bytes st + provider_bytes st + gb + charge_bound st key p kb pb + gt + gp
      ≤ max_bytes rt.
Proof.
  intros Hl Hf. unfold fits, used_bytes in Hf. repeat (apply bind_Some in Hf as (? & ? & Hf)).
  repeat match goal with H : _ ≫= _ = Some _ |- _ => apply bind_Some in H as (? & ? & H) end.
  injection Hf as Hf. match goal with
  | Ht : growth_bytes size_target _ _ _ = Some ?gt, Hp : growth_bytes size_provider _ _ _ = Some ?gp |- _ =>
      exists gt, gp; apply growth_bytes_nonneg in Ht as ?; [|apply sizes_nonneg];
      apply growth_bytes_nonneg in Hp as ?; [|apply sizes_nonneg]
  end.
  split_and!; [done..| |]; unfold charge_bound; arith.
Qed.
End reservation.


(** ** Charges of a map, by its keys *)

Definition map_sum `{Countable K} {V} (f : K → Z) (m : gmap K V) : Z := sum_by (λ kv, f kv.1) (map_to_list m).

Section map_sum.
Context `{Countable K}.
Implicit Types f : K → Z.

Lemma map_sum_insert_new {V} f (m : gmap K V) k v : m !! k = None → map_sum f (<[k := v]> m) = f k + map_sum f m.
Proof. intros Hk. unfold map_sum. by rewrite (sum_by_perm _ _ _ (map_to_list_insert m k v Hk)). Qed.
Lemma map_sum_dom {V W} f (m : gmap K V) (n : gmap K W) : dom m = dom n → map_sum f m = map_sum f n.
Proof.
  revert n. induction m as [|k v m Hk IH] using map_ind; intros n Hd.
  - rewrite dom_empty_L in Hd. symmetry in Hd. apply dom_empty_inv_L in Hd as ->. done.
  - rewrite dom_insert_L in Hd. assert (is_Some (n !! k)) as [w Hw] by (apply elem_of_dom; set_solver).
    rewrite <-(insert_delete_id n k w Hw), !map_sum_insert_new by (done || apply lookup_delete_eq).
    rewrite (IH (delete k n)); [done|]. rewrite dom_delete_L. apply not_elem_of_dom in Hk. set_solver.
Qed.
Lemma map_sum_filter {V} f (m : gmap K V) (P : K * V → bool) :
  map_sum f (filter (λ kv, P kv = false) m) + map_sum f (filter (λ kv, P kv = true) m) = map_sum f m.
Proof.
  induction m as [|k v m Hk IH] using map_ind; [done|]. rewrite map_sum_insert_new by done.
  destruct (P (k, v)) eqn:HP.
  - rewrite (map_filter_insert_False (λ kv, P kv = false)), (map_filter_insert_True (λ kv, P kv = true)) by congruence.
    rewrite map_sum_insert_new by (apply map_lookup_filter_None; by left).
    rewrite delete_id by done. lia.
  - rewrite (map_filter_insert_True (λ kv, P kv = false)), (map_filter_insert_False (λ kv, P kv = true)) by congruence.
    rewrite map_sum_insert_new by (apply map_lookup_filter_None; by left).
    rewrite delete_id by done. lia.
Qed.
Lemma map_sum_insert {V} f (m : gmap K V) k v :
  map_sum f (<[k := v]> m) = (if bool_decide (m !! k = None) then f k else 0) + map_sum f m.
Proof.
  case_bool_decide as Hk; [by apply map_sum_insert_new|]. rewrite (map_sum_dom f (<[k := v]> m) m); [lia|].
  rewrite dom_insert_L. apply not_eq_None_Some, elem_of_dom in Hk. set_solver.
Qed.
Lemma map_size_insert_Z {V} (m : gmap K V) k v :
  Z.of_nat (size (<[k := v]> m)) = of_bool (bool_decide (m !! k = None)) + Z.of_nat (size m).
Proof.
  rewrite map_size_insert. destruct (m !! k); [by rewrite bool_decide_eq_false_2|].
  rewrite bool_decide_eq_true_2 by done. cbn. lia.
Qed.
Lemma map_sum_nonneg {V} f (m : gmap K V) : (∀ k, 0 ≤ f k) → 0 ≤ map_sum f m.
Proof. intros Hf. apply sum_by_nonneg. auto. Qed.
End map_sum.

(** ** What each operation does to a slot *)

Section slot_effects.
Context `{Allocation}.

Lemma same_slots st st' : same_but_growth st st' → ∀ s, slot_entry st' s = slot_entry st s.
Proof. intros (Ht & Hp & _) [k|q]; cbn; by rewrite ?Ht, ?Hp. Qed.
Lemma reclaim_rate st now tick s :
  slot_rate (reclaim st now tick) s = Rate_expire (slot_rate st s) tick ∨
  (Rate_idle (Rate_expire (slot_rate st s) tick) = true ∧ slot_rate (reclaim st now tick) s = Rate_new).
Proof.
  unfold slot_rate. destruct (reclaim_slot st now tick s) as [->|[-> Hi]].
  - left. by destruct (slot_entry st s).
  - right. split; [|done]. destruct (slot_entry st s) as [r|]; [by apply Hi|done].
Qed.
Lemma reserved_rate st key p gb now st' a s :
  reserved st key p gb now st' a →
  slot_rate st' s = (if asks s key p then Rate_reserve (slot_rate st s) else slot_rate st s).
Proof.
  intros [Ht Hp _ _ _ _]. unfold slot_rate. destruct s as [k|q]; cbn.
  - rewrite Ht. case_bool_decide as Hk; [subst k|by rewrite lookup_insert_ne].
    rewrite lookup_insert_eq. cbn. unfold entry_or_init. by destruct (targets st !! key).
  - rewrite Hp. unfold reserved_providers. destruct p as [p|]; [|done]. case_bool_decide as Hq.
    + injection Hq as ->. by rewrite lookup_insert_eq.
    + by rewrite lookup_insert_ne by congruence.
Qed.

Definition with_sent (a : Admission) (now : Z) : Admission := {|
  a_key := a_key a; a_provider := a_provider a; a_bytes := a_bytes a; a_id := a_id a;
  a_generation := a_generation a; a_sent := Some now; a_finished := a_finished a |}.
Definition with_finished (a : Admission) : Admission := {|
  a_key := a_key a; a_provider := a_provider a; a_bytes := a_bytes a; a_id := a_id a;
  a_generation := a_generation a; a_sent := a_sent a; a_finished := true |}.
Definition slots_exist (st : State) (a : Admission) : Prop :=
  ∀ s, asks s (a_key a) (a_provider a) = true → is_Some (slot_entry st s).
(** Neither the accounting nor the keys of the maps change. *)
Definition same_keys (st st' : State) : Prop :=
  dom (targets st') = dom (targets st) ∧ dom (providers st') = dom (providers st) ∧
  target_bytes st' = target_bytes st ∧ provider_bytes st' = provider_bytes st ∧
  bytes st' = bytes st ∧ next st' = next st.

Lemma sent_stale st a now :
  a_finished a = true ∨ a_sent a ≠ None → sent_at st a now = (st, a, Err Unavailable).
Proof.
  intros Ha. unfold sent_at. destruct (a_sent a), (a_finished a); cbn; try done; naive_solver.
Qed.
Lemma sent_live st a now :
  a_finished a = false → a_sent a = None → slots_exist st a →
  ∃ st', sent_at st a now = (st', with_sent a now, Ok tt) ∧ same_keys st st' ∧
    state_active st' = state_active st ∧
    (∀ k, probe <$> targets st' !! k = probe <$> targets st !! k) ∧
    ∀ s, slot_rate st' s = (if asks s (a_key a) (a_provider a)
                            then Rate_sent (slot_rate st s) (tick_of now) else slot_rate st s).
Proof.
  intros Hf Hs Hex. unfold sent_at. rewrite Hs, Hf. rewrite bool_decide_eq_false_2 by (by intros [? ?]). cbn [orb].
  destruct (targets st !! a_key a) as [e|] eqn:He.
  2:{ specialize (Hex (Target (a_key a))). cbn in Hex. rewrite He, bool_decide_eq_true_2 in Hex by done.
      by destruct Hex. }
  assert (∀ k, probe <$> <[a_key a := send_entry e (tick_of now)]> (targets st) !! k = probe <$> targets st !! k) as Hpr.
  { intros k. destruct (decide (a_key a = k)) as [<-|]; [by rewrite lookup_insert_eq, He|by rewrite lookup_insert_ne]. }
  assert (dom (<[a_key a := send_entry e (tick_of now)]> (targets st)) = dom (targets st)) as Hdom.
  { rewrite dom_insert_L. apply elem_of_dom_2 in He. set_solver. }
  destruct (a_provider a) as [q|] eqn:Hq.
  - cbn. destruct (providers st !! q) as [r|] eqn:Hr.
    2:{ specialize (Hex (Prov q)). cbn in Hex. rewrite Hq, Hr, bool_decide_eq_true_2 in Hex by done. by destruct Hex. }
    eexists. split; [by unfold with_sent; rewrite Hq, Hf|]. split; [|split; [done|split; [done|]]].
    + split_and!; cbn; try done. rewrite dom_insert_L. apply elem_of_dom_2 in Hr. set_solver.
    + intros [k|q']; cbn; unfold slot_rate; cbn; case_bool_decide as Hk.
      * subst k. by rewrite lookup_insert_eq, He.
      * by rewrite lookup_insert_ne.
      * injection Hk as ->. by rewrite lookup_insert_eq, Hr.
      * by rewrite lookup_insert_ne by congruence.
  - eexists. split; [by unfold with_sent; rewrite Hq, Hf|]. split; [by split_and!|]. split; [done|split; [done|]].
    intros [k|q']; cbn; unfold slot_rate; cbn; [|done]. case_bool_decide as Hk.
    + subst k. by rewrite lookup_insert_eq, He.
    + by rewrite lookup_insert_ne.
Qed.

Lemma classify_rate e b outcome started now : entry_rate (classify e b outcome started now) = entry_rate e.
Proof. destruct outcome; cbn; repeat case_match; done. Qed.
Lemma finish_entry_rate e a outcome now :
  entry_rate (finish_entry e a outcome now) = finish_rate (entry_rate e) (bool_decide (a_sent a = None)).
Proof. unfold finish_entry. cbn zeta. repeat case_match; rewrite ?classify_rate; done. Qed.

Lemma finish_stale st a outcome now : a_finished a = true → finish_at st a outcome now = (st, a).
Proof. unfold finish_at. by intros ->. Qed.
Lemma finish_live st a outcome now :
  a_finished a = false → slots_exist st a →
  ∃ st', finish_at st a outcome now = (st', with_finished a) ∧ same_keys st st' ∧
    state_active st' = state_active st -| 1 ∧
    (∀ k, targets st' !! k = if decide (k = a_key a) then (λ e, finish_entry e a outcome now) <$> targets st !! k
                             else targets st !! k) ∧
    ∀ s, slot_rate st' s = (if asks s (a_key a) (a_provider a)
                            then finish_rate (slot_rate st s) (bool_decide (a_sent a = None)) else slot_rate st s).
Proof.
  intros Hf Hex. unfold finish_at. rewrite Hf. eexists. split; [done|].
  split; [|split; [done|split]].
  - split_and!; cbn; try done; [by rewrite dom_alter_L|]. destruct (a_provider a); [by rewrite dom_alter_L|done].
  - intros k. cbn. destruct (decide (k = a_key a)) as [->|]; [by rewrite lookup_alter_eq|by rewrite lookup_alter_ne].
  - intros s. destruct (asks s (a_key a) (a_provider a)) eqn:Hs.
    + apply Hex in Hs as Hsome. destruct Hsome as [r Hr]. unfold slot_rate. rewrite Hr.
      destruct s as [k|q]; cbn in *; apply bool_decide_eq_true in Hs.
      * subst k. rewrite lookup_alter_eq. destruct (targets st !! a_key a); [|done]. cbn in *. injection Hr as <-.
        apply finish_entry_rate.
      * rewrite Hs, lookup_alter_eq, Hr. done.
    + unfold slot_rate. destruct s as [k|q]; cbn in *; apply bool_decide_eq_false in Hs.
      * by rewrite lookup_alter_ne.
      * destruct (a_provider a); [|done]. by rewrite lookup_alter_ne by congruence.
Qed.
End slot_effects.

(** ** Ownership: rates and the active count are the guards' *)

Record owned (st : State) (gs : list (Admission * Z)) : Prop := {
  own_active : state_active st = countb live gs;
  own_pending s : pending (slot_rate st s) = countb (λ g, owns s g && unsent g) gs;
  own_slots s : active (slot_rate st s) = countb (λ g, owns s g && live g) gs;
}.

Section ownership.
Context `{Allocation}.

Lemma owned_perm st gs gs' : gs ≡ₚ gs' → owned st gs → owned st gs'.
Proof.
  intros Hp [Ha Hpe Hs]. constructor.
  - by rewrite Ha, (countb_perm _ _ _ Hp).
  - intros s. by rewrite Hpe, (countb_perm _ _ _ Hp).
  - intros s. by rewrite Hs, (countb_perm _ _ _ Hp).
Qed.
Lemma owned_same st st' gs :
  state_active st' = state_active st →
  (∀ s, pending (slot_rate st' s) = pending (slot_rate st s) ∧ active (slot_rate st' s) = active (slot_rate st s)) →
  owned st gs → owned st' gs.
Proof.
  intros Ha Hr [Ho Hp Hs]. constructor; [by rewrite Ha|intros s..]; by rewrite ?(proj1 (Hr s)), ?(proj2 (Hr s)).
Qed.
Lemma owned_expire st gs key p now tick : owned st gs → owned (expire_keys st key p now tick) gs.
Proof. apply owned_same; [done|]. intros s. rewrite expire_keys_rate. by destruct (asks s key p). Qed.
Lemma Rate_idle_inv r : Rate_idle r = true → r = Rate_new.
Proof.
  unfold Rate_idle. rewrite !andb_true_iff, bool_decide_eq_true. destruct r; cbn.
  intros [[->%Z.eqb_eq ->%Z.eqb_eq] ->]. done.
Qed.
Lemma owned_reclaim st gs now tick : owned st gs → owned (reclaim st now tick) gs.
Proof.
  apply owned_same; [done|]. intros s. destruct (reclaim_rate st now tick s) as [->|[Hi ->]]; [done|].
  by apply Rate_idle_inv in Hi as <-.
Qed.
Lemma owned_growth st st' gs : same_but_growth st st' → owned st gs → owned st' gs.
Proof.
  intros Hs. apply owned_same; [apply Hs|]. intros s. unfold slot_rate. by rewrite (same_slots _ _ Hs).
Qed.
Lemma owned_reserved st gs key p gb now st' a born :
  reserved st key p gb now st' a → owned st gs → owned st' ((a, born) :: gs).
Proof.
  intros Hr [Ha Hp Hs]. constructor.
  - rewrite (res_active _ _ _ _ _ _ _ Hr), countb_cons, Ha, (res_guard _ _ _ _ _ _ _ Hr). unfold live. cbn. lia.
  - intros s. rewrite (reserved_rate _ _ _ _ _ _ _ s Hr), countb_cons, <-Hp, (res_guard _ _ _ _ _ _ _ Hr).
    unfold owns, unsent, live. cbn. rewrite andb_true_r. destruct (asks s key p); cbn; lia.
  - intros s. rewrite (reserved_rate _ _ _ _ _ _ _ s Hr), countb_cons, <-Hs, (res_guard _ _ _ _ _ _ _ Hr).
    unfold owns, unsent, live. cbn. rewrite andb_true_r. destruct (asks s key p); cbn; lia.
Qed.

(** The slots of a live guard exist: eviction takes only slots without owners. *)
Lemma owned_slots_exist st a born rest :
  owned st ((a, born) :: rest) → a_finished a = false → slots_exist st a.
Proof.
  intros Ho Hf s Hs. pose proof (own_slots _ _ Ho s) as Hc. unfold slot_rate in Hc.
  destruct (slot_entry st s) as [r|]; [by eexists|]. rewrite countb_cons in Hc.
  pose proof (countb_nonneg (λ g, owns s g && live g) rest). unfold owns at 1, live at 1 in Hc.
  cbn [fst] in Hc. rewrite Hs, Hf in Hc. cbn in Hc. lia.
Qed.
Lemma owned_sent st a born rest now :
  owned st ((a, born) :: rest) → a_finished a = false → a_sent a = None →
  ∀ st', state_active st' = state_active st →
  (∀ s, slot_rate st' s = (if asks s (a_key a) (a_provider a)
                           then Rate_sent (slot_rate st s) (tick_of now) else slot_rate st s)) →
  owned st' ((with_sent a now, born) :: rest).
Proof.
  intros [Ha Hp Hsl] Hf Hn st' Hact Hr. constructor.
  - by rewrite Hact, Ha.
  - intros s. rewrite Hr. specialize (Hp s). rewrite countb_cons in *. unfold owns, unsent, live in *.
    cbn [with_sent fst a_key a_provider a_sent a_finished] in *. rewrite Hf, Hn in Hp. rewrite Hf.
    pose proof (countb_nonneg (λ g, asks s (a_key g.1) (a_provider g.1) &&
      (negb (a_finished g.1) && bool_decide (a_sent g.1 = None))) rest).
    rewrite (bool_decide_eq_true_2 (None = None)) in Hp by done. rewrite bool_decide_eq_false_2 by done.
    destruct (asks s (a_key a) (a_provider a)); cbn [andb negb of_bool] in *; unfold Rate_sent, saturating_sub;
      cbn [pending]; lia.
  - intros s. rewrite Hr. specialize (Hsl s). rewrite countb_cons in *. unfold owns, live in *.
    cbn [with_sent fst a_key a_provider a_finished] in *. by destruct (asks s (a_key a) (a_provider a)).
Qed.
Lemma owned_finish st a born rest :
  owned st ((a, born) :: rest) → a_finished a = false →
  ∀ st', state_active st' = state_active st -| 1 →
  (∀ s, slot_rate st' s = (if asks s (a_key a) (a_provider a)
                           then finish_rate (slot_rate st s) (bool_decide (a_sent a = None)) else slot_rate st s)) →
  owned st' ((with_finished a, born) :: rest).
Proof.
  intros [Ha Hp Hsl] Hf st' Hact Hr. pose proof (countb_nonneg live rest).
  constructor.
  - rewrite Hact, Ha, !countb_cons. unfold live at 1 3. cbn. rewrite Hf. unfold saturating_sub. cbn. lia.
  - intros s. rewrite Hr. specialize (Hp s). rewrite countb_cons in *. unfold owns at 1, unsent at 1, live at 1 in Hp.
    unfold owns at 1, unsent at 1, live at 1. cbn [with_finished fst a_key a_provider a_sent a_finished] in *.
    rewrite Hf in Hp. rewrite andb_false_r. pose proof (countb_nonneg (λ g, owns s g && unsent g) rest).
    unfold finish_rate, Rate_refund, Rate_release, saturating_sub.
    destruct (asks s (a_key a) (a_provider a)), (bool_decide (a_sent a = None)); cbn [negb andb of_bool pending] in *; lia.
  - intros s. rewrite Hr. specialize (Hsl s). rewrite countb_cons in *. unfold owns at 1, live at 1 in Hsl.
    unfold owns at 1, live at 1. cbn [with_finished fst a_key a_provider a_sent a_finished] in *.
    rewrite Hf in Hsl. rewrite andb_false_r. pose proof (countb_nonneg (λ g, owns s g && live g) rest).
    unfold finish_rate, Rate_refund, Rate_release, saturating_sub.
    destruct (asks s (a_key a) (a_provider a)), (bool_decide (a_sent a = None)); cbn [negb andb of_bool active] in *; lia.
Qed.
Lemma owned_forget st a born rest :
  owned st ((a, born) :: rest) → a_finished a = true → owned st rest.
Proof.
  intros [Ha Hp Hs] Hf.
  assert (live (a, born) = false) as Hl by (unfold live; cbn; by rewrite Hf).
  assert (unsent (a, born) = false) as Hu by (unfold unsent; by rewrite Hl).
  constructor; [|intros s; specialize (Hp s)|intros s; specialize (Hs s)];
    rewrite countb_cons, ?Hl, ?Hu, ?andb_false_r in *; done.
Qed.
End ownership.

(** ** Accounting: what is charged is what is held *)

Record accounted `{Allocation} (rt : Runtime) (st : State) (gs : list (Admission * Z)) : Prop := {
  acc_bytes : bytes st = map_sum target_charge (targets st) + map_sum provider_charge (providers st)
                         + sum_by (λ g, a_bytes g.1) gs;
  acc_guards : Forall (λ g, 0 ≤ a_bytes g.1) gs;
  acc_maps : 0 ≤ target_bytes st ∧ 0 ≤ provider_bytes st;
  acc_budget : size_runtime + bytes st + target_bytes st + provider_bytes st ≤ max_bytes rt;
  acc_entries : target_len st + provider_len st ≤ max_entries rt;
}.

Section accounting.
Context `{AllocationLaws}.
Context (rt : Runtime).

Lemma RATE_BYTES_nonneg : 0 ≤ RATE_BYTES ∧ 0 ≤ SAMPLE_BYTES.
Proof. unfold RATE_BYTES, SAMPLE_BYTES, SAMPLES. pose proof sizes_nonneg. lia. Qed.
Lemma target_charge_nonneg k : 0 ≤ target_charge k.
Proof.
  unfold target_charge. destruct (key_copy_capacity k) as [b|] eqn:Hb; cbn; [|done].
  apply key_copy_nonneg in Hb. pose proof RATE_BYTES_nonneg. lia.
Qed.
Lemma provider_charge_nonneg p : 0 ≤ provider_charge p.
Proof.
  unfold provider_charge. destruct (provider_copy_capacity p) as [b|] eqn:Hb; cbn; [|done].
  apply provider_copy_nonneg in Hb. pose proof RATE_BYTES_nonneg. lia.
Qed.

Lemma accounted_perm st gs gs' : gs ≡ₚ gs' → accounted rt st gs → accounted rt st gs'.
Proof.
  intros Hp [Hb Hg ? ? ?]. constructor; try done; [by rewrite Hb, (sum_by_perm _ _ _ Hp)|by rewrite <-Hp].
Qed.
Lemma accounted_same_keys st st' gs : same_keys st st' → accounted rt st gs → accounted rt st' gs.
Proof.
  intros (Ht & Hp & Htb & Hpb & Hb & _) [Hbytes Hg Hm Hbud Hent]. constructor; rewrite ?Htb, ?Hpb, ?Hb; try done.
  - by rewrite (map_sum_dom _ _ _ Ht), (map_sum_dom _ _ _ Hp).
  - unfold target_len, provider_len in *. by rewrite <-!size_dom, Ht, Hp, !size_dom.
Qed.
Lemma expire_same_keys st key p now tick : same_keys st (expire_keys st key p now tick).
Proof. split_and!; cbn; try done; [by rewrite dom_alter_L|]. destruct p; by rewrite ?dom_alter_L. Qed.
Lemma accounted_reclaim st gs now tick : accounted rt st gs → accounted rt (reclaim st now tick) gs.
Proof.
  intros [Hbytes Hg [Htb Hpb] Hbud Hent].
  set (ts := (λ e, Entry_expire e now tick) <$> targets st).
  set (ps := (λ r, Rate_expire r tick) <$> providers st).
  pose proof (map_sum_filter target_charge ts (λ ke, evictable ke.2 now)) as Hts.
  pose proof (map_sum_filter provider_charge ps (λ kr, Rate_idle kr.2)) as Hps.
  rewrite (map_sum_dom target_charge ts (targets st)) in Hts by (unfold ts; apply dom_fmap_L).
  rewrite (map_sum_dom provider_charge ps (providers st)) in Hps by (unfold ps; apply dom_fmap_L).
  pose proof (map_sum_nonneg target_charge (filter (λ ke, evictable ke.2 now = true) ts) target_charge_nonneg).
  pose proof (map_sum_nonneg provider_charge (filter (λ kr, Rate_idle kr.2 = true) ps) provider_charge_nonneg).
  assert (bytes (reclaim st now tick) = bytes st
    - map_sum target_charge (filter (λ ke, evictable ke.2 now = true) ts)
    - map_sum provider_charge (filter (λ kr, Rate_idle kr.2 = true) ps)) as Hb by done.
  constructor; rewrite ?Hb; [|done|..].
  - change (targets (reclaim st now tick)) with (filter (λ ke, evictable ke.2 now = false) ts).
    change (providers (reclaim st now tick)) with (filter (λ kr, Rate_idle kr.2 = false) ps). lia.
  - unfold reclaim. cbn [target_bytes provider_bytes]. repeat case_bool_decide; lia.
  - unfold reclaim. cbn [target_bytes provider_bytes]. repeat case_bool_decide; lia.
  - unfold target_len, provider_len in *.
    change (targets (reclaim st now tick)) with (filter (λ ke, evictable ke.2 now = false) ts).
    change (providers (reclaim st now tick)) with (filter (λ kr, Rate_idle kr.2 = false) ps).
    pose proof (map_size_filter (λ ke, evictable ke.2 now = false) ts).
    pose proof (map_size_filter (λ kr, Rate_idle kr.2 = false) ps).
    unfold ts, ps in *. rewrite !map_size_fmap in *. lia.
Qed.
Lemma measure_guard key limits kb pb gb :
  measure rt key limits = Ok (kb, pb, gb) → 0 ≤ kb ∧ 0 ≤ pb ∧ 0 ≤ gb.
Proof.
  unfold measure. intros Hm. res_inv. pose proof sizes_nonneg.
  repeat match goal with
  | H : _ ≫= _ = Some _ |- _ => apply bind_Some in H as (? & ? & H)
  | H : key_capacity _ = Some _ |- _ => apply key_capacity_nonneg in H
  end.
  assert (0 ≤ pb); [|split_and!; arith]. destruct (provider_key key limits) as [p|]; [|by simplify_eq].
  by eapply provider_capacity_nonneg.
Qed.
Lemma reserved_sizes st key p gb now st' a :
  reserved st key p gb now st' a →
  map_sum target_charge (targets st') + map_sum provider_charge (providers st')
    = map_sum target_charge (targets st) + map_sum provider_charge (providers st) + new_charges st key p ∧
  target_len st' + provider_len st'
    = target_len st + provider_len st + of_bool (new_target st key) + of_bool (new_provider st p).
Proof.
  intros [Ht Hp _ _ _ _]. unfold target_len, provider_len, new_charges, new_target, new_provider. rewrite Ht, Hp.
  unfold reserved_providers. rewrite map_sum_insert, map_size_insert_Z.
  destruct p as [q|]; cbn [from_option of_bool]; rewrite ?map_sum_insert, ?map_size_insert_Z; lia.
Qed.
Lemma accounted_reserve st gs key p kb pb gb now st' r born :
  accounted rt st gs → fits rt st key p kb pb gb = Some true → 0 ≤ kb → 0 ≤ pb → 0 ≤ gb →
  reserve st key p kb pb gb now = (st', r) →
  accounted rt st' (match r with Ok a => (a, born) :: gs | Err _ => gs end).
Proof.
  intros [Hbytes Hg [Htb Hpb] Hbud Hent] Hf Hkb Hpb' Hgb Hr.
  apply fits_ok in Hf as (gt & gp & Hgt & Hgp & Hgt0 & Hgp0 & Hcount & Hmax); [|done].
  apply reserve_spec in Hr as [[Hgrt Hgrp] Hr].
  specialize (Hgrt Htb gt Hgt Hgt0). specialize (Hgrp Hpb gp Hgp Hgp0).
  assert (0 ≤ charge_bound st key p kb pb) as Hcb.
  { unfold charge_bound. pose proof RATE_BYTES_nonneg. pose proof (of_bool_bounds (new_target st key)).
    pose proof (of_bool_bounds (new_provider st p)). nia. }
  destruct r as [a|e].
  - destruct Hr as [Hr Hch]. destruct (reserved_sizes _ _ _ _ _ _ _ Hr) as [Hsum Hlen].
    destruct Hr as [Ht Hp Hb _ _ ->]. constructor; [|by constructor|..]; cbn [a_bytes] in *.
    + rewrite Hb, Hbytes, sum_by_cons. cbn [fst a_bytes]. lia.
    + lia.
    + lia.
    + lia.
  - destruct Hr as (Ht & Hp & Hb & _ & _). constructor; rewrite ?Ht, ?Hp, ?Hb; try done; try lia.
    unfold target_len, provider_len in *. by rewrite Ht, Hp.
Qed.
Lemma accounted_drop st a born rest now :
  accounted rt st ((a, born) :: rest) → a_finished a = true → accounted rt (drop st a now) rest.
Proof.
  intros [Hbytes Hg Hm Hbud Hent] Hf. unfold drop. rewrite (finish_stale _ _ _ _ Hf).
  rewrite sum_by_cons in Hbytes. cbn [fst] in *. apply Forall_cons in Hg as [Hga Hg]. cbn [fst] in *.
  pose proof (map_sum_nonneg target_charge (targets st) target_charge_nonneg).
  pose proof (map_sum_nonneg provider_charge (providers st) provider_charge_nonneg).
  assert (0 ≤ sum_by (λ g, a_bytes g.1) rest) by (apply sum_by_nonneg; by apply Forall_forall).
  constructor; cbn [bytes targets providers target_bytes provider_bytes]; unfold saturating_sub; done || lia.
Qed.
End accounting.

(** ** Probes: a half-open circuit has one owner *)

Record probed (st : State) (gs : list (Admission * Z)) : Prop := {
  pr_next : 0 ≤ next st;
  pr_ids : Forall (λ g, 0 < a_id g.1 ≤ next st) gs;
  pr_nodup : NoDup ((λ g, a_id g.1) <$> gs);
  pr_owner k e id :
    targets st !! k = Some e → probe e = Some id →
    id = 0 ∨ ∃ g, g ∈ gs ∧ live g = true ∧ a_key g.1 = k ∧ a_id g.1 = id;
}.

Section probes.
Context `{Allocation}.

Lemma probed_perm st gs gs' : gs ≡ₚ gs' → probed st gs → probed st gs'.
Proof.
  intros Hp [Hn Hi Hd Ho]. constructor; [done|by rewrite <-Hp|by rewrite <-Hp|].
  intros k e id He Hpr. destruct (Ho k e id He Hpr) as [|(g & Hg & ?)]; [by left|]. right. exists g. by rewrite <-Hp.
Qed.
(** No probe appears. *)
Lemma probed_same st st' gs :
  next st' = next st →
  (∀ k e', targets st' !! k = Some e' → ∃ e, targets st !! k = Some e ∧ probe e' = probe e) →
  probed st gs → probed st' gs.
Proof.
  intros Hn Ht [Hn0 Hi Hd Ho]. constructor; rewrite ?Hn; try done.
  intros k e' id He' Hpr. destruct (Ht k e' He') as (e & He & Heq). rewrite Heq in Hpr. by eapply Ho.
Qed.
Lemma probed_expire st gs key p now tick : probed st gs → probed (expire_keys st key p now tick) gs.
Proof.
  apply probed_same; [done|]. intros k e'. cbn. destruct (decide (key = k)) as [<-|].
  - rewrite lookup_alter_eq. intros (e & He & ->)%fmap_Some. by exists e.
  - rewrite lookup_alter_ne by done. intros He. by exists e'.
Qed.
Lemma probed_reclaim st gs now tick : probed st gs → probed (reclaim st now tick) gs.
Proof.
  apply probed_same; [done|]. intros k e' (He & _)%map_lookup_filter_Some.
  rewrite lookup_fmap in He. apply fmap_Some in He as (e & He & ->). by exists e.
Qed.
Lemma probed_growth st st' gs : same_but_growth st st' → probed st gs → probed st' gs.
Proof. intros (Ht & _ & _ & Hn & _). apply probed_same; [done|]. rewrite Ht. eauto. Qed.
Lemma probed_reserved st gs key p gb now st' a born :
  reserved st key p gb now st' a → probed st gs → probed st' ((a, born) :: gs).
Proof.
  intros [Ht _ _ Hnx _ ->] [Hn Hi Hd Ho]. constructor; rewrite ?Hnx.
  - lia.
  - constructor; [cbn; lia|]. eapply Forall_impl; [exact Hi|]. intros g ?. cbn beta in *. lia.
  - cbn. constructor; [|done]. intros (g & Hg & Hin)%list_elem_of_fmap.
    rewrite Forall_forall in Hi. apply Hi in Hin. cbn in *. lia.
  - intros k e id He Hpr. rewrite Ht in He. destruct (decide (key = k)) as [<-|Hne].
    + rewrite lookup_insert_eq in He. injection He as <-. cbn [reserved_entry probe] in Hpr.
      destruct (bool_decide _).
      * injection Hpr as <-. right. eexists. split; [by left|]. done.
      * unfold entry_or_init in Hpr. destruct (targets st !! key) as [e|] eqn:He; [|done]. cbn in Hpr.
        destruct (Ho key e id He Hpr) as [|(g & Hg & ?)]; [by left|]. right. exists g. split; [by right|done].
    + rewrite lookup_insert_ne in He by done.
      destruct (Ho k e id He Hpr) as [|(g & Hg & ?)]; [by left|]. right. exists g. split; [by right|done].
Qed.

Lemma probed_sent st a born rest now st' :
  probed st ((a, born) :: rest) → next st' = next st →
  (∀ k, probe <$> targets st' !! k = probe <$> targets st !! k) →
  probed st' ((with_sent a now, born) :: rest).
Proof.
  intros [Hn Hi Hd Ho] Hnx Ht. constructor; rewrite ?Hnx; try done.
  - apply Forall_cons in Hi as [Ha Hi]. by constructor.
  - intros k e' id He' Hpr. specialize (Ht k). rewrite He' in Ht. cbn in Ht. rewrite Hpr in Ht.
    symmetry in Ht. apply fmap_Some in Ht as (e & He & Heq).
    destruct (Ho k e id He (eq_sym Heq)) as [|(g & [->|Hg]%elem_of_cons & ?)]; [by left|right..].
    + eexists. split; [by left|]. done.
    + exists g. split; [by right|done].
Qed.

(** A guard that completes gives up its probe; a circuit that can never reopen is closed
    to admission by probe 0. *)
Lemma finish_entry_probe e a outcome now id :
  probe (finish_entry e a outcome now) = Some id → id = 0 ∨ (probe e = Some id ∧ id ≠ a_id a).
Proof.
  unfold finish_entry. cbn zeta.
  destruct (bool_decide (probe e = Some (a_id a))) eqn:Hp.
  - destruct (a_sent a) as [started|]; [|by cbn; intros]. destruct (negb _); [by cbn; intros|].
    destruct outcome; cbn; repeat case_match; cbn; intros; simplify_eq; auto.
  - apply bool_decide_eq_false in Hp.
    assert (probe e = Some id → probe e = Some id ∧ id ≠ a_id a) by (intros He; split; [done|congruence]).
    destruct (a_sent a) as [started|]; [|by auto]. destruct (negb _); [by auto|].
    destruct outcome; cbn; repeat case_match; cbn; intros; repeat case_match; simplify_eq; auto.
Qed.
Lemma probed_finish st a born rest outcome now st' :
  probed st ((a, born) :: rest) → next st' = next st →
  (∀ k, targets st' !! k = if decide (k = a_key a) then (λ e, finish_entry e a outcome now) <$> targets st !! k
                           else targets st !! k) →
  probed st' ((with_finished a, born) :: rest).
Proof.
  intros [Hn Hi Hd Ho] Hnx Ht. constructor; rewrite ?Hnx; try done.
  - apply Forall_cons in Hi as [Ha Hi]. by constructor.
  - intros k e' id He' Hpr. rewrite Ht in He'. destruct (decide (k = a_key a)) as [->|Hne].
    + apply fmap_Some in He' as (e & He & ->). apply finish_entry_probe in Hpr as [|[Hpr Hid]]; [by left|].
      destruct (Ho _ e id He Hpr) as [|(g & [->|Hg]%elem_of_cons & ? & ? & Hgid)]; [by left|done|].
      right. exists g. split; [by right|done].
    + destruct (Ho _ e' id He' Hpr) as [|(g & [->|Hg]%elem_of_cons & ? & Hk & ?)]; [by left|done|].
      right. exists g. split; [by right|done].
Qed.
Lemma probed_forget st a born rest :
  probed st ((a, born) :: rest) → a_finished a = true → probed st rest.
Proof.
  intros [Hn Hi Hd Ho] Hf. apply Forall_cons in Hi as [_ Hi]. cbn in Hd. apply NoDup_cons in Hd as [_ Hd].
  constructor; [done..|]. intros k e id He Hpr.
  destruct (Ho k e id He Hpr) as [|(g & [->|Hg]%elem_of_cons & Hl & ?)]; [by left| |].
  - unfold live in Hl. cbn in Hl. by rewrite Hf in Hl.
  - right. by exists g.
Qed.
End probes.

(** ** The invariant of the reachable states *)

Record inv `{Allocation} (rt : Runtime) (st : State) (gs : list (Admission * Z)) : Prop := {
  inv_owned : owned st gs;
  inv_accounted : accounted rt st gs;
  inv_probed : probed st gs;
  inv_in_flight : state_active st ≤ max_in_flight rt;
}.

Section invariant.
Context `{AllocationLaws}.
Context (rt : Runtime) (policy : Key → Limits).

Lemma inv_perm st gs gs' : gs ≡ₚ gs' → inv rt st gs → inv rt st gs'.
Proof.
  intros Hp [Ho Ha Hb Hf]. constructor; [by eapply owned_perm|by eapply accounted_perm|by eapply probed_perm|done].
Qed.
Lemma inv_expire st gs key p now tick : inv rt st gs → inv rt (expire_keys st key p now tick) gs.
Proof.
  intros [Ho Ha Hb Hf]. constructor; [by apply owned_expire| |by apply probed_expire|done].
  eapply accounted_same_keys; [apply expire_same_keys|done].
Qed.
Lemma inv_reclaim st gs now tick : inv rt st gs → inv rt (reclaim st now tick) gs.
Proof.
  intros [Ho Ha Hb Hf]. constructor; [by apply owned_reclaim|by apply accounted_reclaim|by apply probed_reclaim|done].
Qed.
Lemma inv_reserve st gs key p limits kb pb gb now st' r born :
  inv rt st gs → measure rt key limits = Ok (kb, pb, gb) → fits rt st key p kb pb gb = Some true →
  state_active st < max_in_flight rt →
  reserve st key p kb pb gb now = (st', r) →
  inv rt st' (match r with Ok a => (a, born) :: gs | Err _ => gs end).
Proof.
  intros [Ho Ha Hb Hf] Hm Hfit Hact Hr. apply measure_guard in Hm as (Hkb & Hpb & Hgb).
  pose proof (accounted_reserve _ _ _ _ _ _ _ _ _ _ _ born Ha Hfit Hkb Hpb Hgb Hr) as Ha'.
  apply reserve_spec in Hr as [_ Hr]. destruct r as [a|e].
  - destruct Hr as [Hr _]. constructor; [by eapply owned_reserved|done|by eapply probed_reserved|].
    rewrite (res_active _ _ _ _ _ _ _ Hr). lia.
  - constructor; [by eapply owned_growth|done|by eapply probed_growth|].
    destruct Hr as (_ & _ & _ & _ & ->). done.
Qed.
Lemma inv_admit st gs key limits now st' r born :
  inv rt st gs → admit_at rt st key limits now = (st', r) →
  inv rt st' (match r with Ok a => (a, born) :: gs | Err _ => gs end).
Proof.
  intros Hi Ha. apply admit_spec in Ha as [[[e ->] [->| ->]]|(st2 & Hst2 & _ & Hact & Ha)];
    [done|by apply inv_expire|].
  assert (inv rt st2 gs) as Hi2.
  { destruct Hst2 as [->| ->]; [by apply inv_expire|by apply inv_reclaim, inv_expire]. }
  destruct Ha as [[[e ->] ->]|(kb & pb & gb & Hm & Hf & Hr)]; [done|].
  eapply inv_reserve; [done..| |done]. by destruct Hst2 as [->| ->].
Qed.
Lemma inv_slots_exist st a born rest :
  inv rt st ((a, born) :: rest) → a_finished a = false → slots_exist st a.
Proof. intros Hi. eapply owned_slots_exist, Hi. Qed.
Lemma inv_replace_guard st st' a a' born rest :
  accounted rt st ((a, born) :: rest) → a_bytes a' = a_bytes a → same_keys st st' →
  accounted rt st' ((a', born) :: rest).
Proof.
  intros Ha Hb Hk. eapply accounted_same_keys in Ha; [|exact Hk]. destruct Ha as [Hbytes Hg ? ? ?].
  apply Forall_cons in Hg as [? ?]. constructor; try done.
  - rewrite Hbytes, !sum_by_cons. cbn [fst]. by rewrite Hb.
  - constructor; [cbn [fst] in *; by rewrite Hb|done].
Qed.
Lemma inv_sent st a born rest now st' a' r :
  inv rt st ((a, born) :: rest) → sent_at st a now = (st', a', r) → inv rt st' ((a', born) :: rest).
Proof.
  intros Hi Hs. destruct (decide (a_finished a = true ∨ a_sent a ≠ None)) as [Hd|Hd].
  { rewrite (sent_stale _ _ _ Hd) in Hs. by simplify_eq. }
  apply Decidable.not_or in Hd as [Hf%not_true_is_false Hn%dec_stable].
  destruct (sent_live st a now Hf Hn (inv_slots_exist _ _ _ _ Hi Hf)) as (st1 & Heq & Hk & Hact & Hpr & Hr).
  rewrite Heq in Hs. simplify_eq. destruct Hi as [Ho Ha Hb Hfl]. constructor.
  - by eapply owned_sent.
  - by eapply inv_replace_guard.
  - eapply probed_sent; [done|by apply Hk|done].
  - by rewrite Hact.
Qed.
Lemma inv_finish st a born rest outcome now st' a' :
  inv rt st ((a, born) :: rest) → finish_at st a outcome now = (st', a') → inv rt st' ((a', born) :: rest).
Proof.
  intros Hi Hs. destruct (a_finished a) eqn:Hf.
  { rewrite (finish_stale _ _ _ _ Hf) in Hs. by simplify_eq. }
  destruct (finish_live st a outcome now Hf (inv_slots_exist _ _ _ _ Hi Hf)) as (st1 & Heq & Hk & Hact & Hpr & Hr).
  rewrite Heq in Hs. simplify_eq. destruct Hi as [Ho Ha Hb Hfl]. constructor.
  - by eapply owned_finish.
  - by eapply inv_replace_guard.
  - eapply probed_finish; [done|by apply Hk|done].
  - rewrite Hact. pose proof (own_active _ _ Ho). pose proof (countb_nonneg live ((a, born) :: rest)).
    unfold saturating_sub. lia.
Qed.
Lemma inv_drop_finished st a born rest now :
  inv rt st ((a, born) :: rest) → a_finished a = true → inv rt (drop st a now) rest.
Proof.
  intros [Ho Ha Hb Hfl] Hf. constructor; [| | |by unfold drop; rewrite finish_stale].
  - eapply owned_forget in Ho; [|done]. revert Ho. unfold drop. rewrite finish_stale by done. by apply owned_same.
  - by eapply accounted_drop.
  - unfold drop. rewrite finish_stale by done.
    eapply probed_forget in Hb; [|done]. revert Hb. apply probed_same; [done|]. eauto.
Qed.
End invariant.

Section reachable.
Context `{AllocationLaws}.
Context (rt : Runtime) (policy : Key → Limits).

(** Dropping a live guard is completing it first. *)
Lemma drop_live st a now outcome st1 :
  outcome = Unknown → finish_at st a outcome now = (st1, with_finished a) →
  drop st a now = drop st1 (with_finished a) now.
Proof. intros -> Hf. unfold drop at 1. rewrite Hf. unfold drop. by rewrite finish_stale. Qed.

Definition sys_inv (S : System) : Prop := inv rt (sys S) (out S).
Lemma inv_drop st a born rest now :
  inv rt st ((a, born) :: rest) → inv rt (drop st a now) rest.
Proof.
  intros Hi. destruct (a_finished a) eqn:Hf; [by eapply inv_drop_finished|].
  destruct (finish_live st a Unknown now Hf (inv_slots_exist _ _ _ _ _ Hi Hf)) as (st1 & Heq & _).
  rewrite (drop_live _ _ _ _ _ eq_refl Heq). eapply inv_drop_finished; [|done]. by eapply inv_finish.
Qed.
Lemma sys_step_inv S S' : sys_inv S → sys_step rt policy S S' → sys_inv S'.
Proof.
  unfold sys_inv. intros Hi Hs.
  destruct Hs as [S key now st r _ Ha|S a born rest now st a' r Hp _ Ha|S a born rest outcome now st a' Hp Ha
    |S a born rest now Hp]; cbn [sys out]; [by eapply inv_admit|apply (inv_perm _ _ _ _ Hp) in Hi..].
  - by eapply inv_sent.
  - by eapply inv_finish.
  - by eapply inv_drop.
Qed.
Lemma init_sys_inv entries bytes_ max_active : configured entries bytes_ max_active = Ok rt → sys_inv System_init.
Proof.
  unfold configured. intros Hc. res_inv. constructor.
  - constructor; [done|by intros [k|p]..].
  - constructor; cbn; try done; unfold target_len, provider_len; arith; cbn;
      rewrite ?map_size_empty; lia.
  - constructor; cbn; try done. constructor.
  - arith; cbn; lia.
Qed.
Lemma reachable_sys_inv entries bytes_ max_active S :
  configured entries bytes_ max_active = Ok rt → sys_reachable rt policy S → sys_inv S.
Proof.
  intros Hc Hr. pattern S. eapply rtc_ind_r; [by eapply init_sys_inv| |exact Hr].
  intros y z _ Hs Hy. by eapply sys_step_inv.
Qed.
End reachable.

(** ** Simulation by the rate window *)

Section simulation.
Context `{AllocationLaws}.
Context (rt : Runtime) (policy : Key → Limits) (s : slot) (limit : Z) (Hlimit : 0 ≤ limit).

(** Every admission that takes from the slot is checked against [limit]. *)
Definition slot_limit : Prop :=
  match s with
  | Target k => l_model (policy k) = Some limit
  | Prov q => ∀ key pattern l, provider_key key (policy key) = Some q →
      l_provider (policy key) = Some (pattern, l) → l = limit
  end.
Record simulates (S : System) (w : Window) : Prop := {
  sim_rate : rate w = slot_rate (sys S) s;
  sim_sends : sends w = (List.filter (owns s) (log S)).*2;
  sim_guards : guards w ≡ₚ (List.filter (λ g, owns s g && unsent g) (out S)).*2;
  sim_latest : latest w = clock S;
}.
Definition touched_window (w : Window) (r : Rate) (now : Z) : Window := {|
  rate := r; sends := sends w; guards := guards w; latest := Z.max (latest w) now |}.

Lemma window_expire_keys w st key p now :
  0 ≤ now → rate w = slot_rate st s →
  rtc (window_step limit) w (touched_window w (slot_rate (expire_keys st key p now (tick_of now)) s) now).
Proof.
  intros Hn Hr. apply rtc_once. rewrite expire_keys_rate, <-Hr. destruct (asks s key p).
  - by apply step_expire.
  - by apply step_tick.
Qed.
Lemma window_reclaim w st now :
  0 ≤ now →
  rtc (window_step limit) (touched_window w (slot_rate st s) now)
    (touched_window w (slot_rate (reclaim st now (tick_of now)) s) now).
Proof.
  intros Hn. assert (∀ r, window_step limit (touched_window w r now)
    (touched_window w (Rate_expire r (tick_of now)) now)) as Hexp.
  { intros r. pose proof (step_expire limit (touched_window w r now) now Hn) as Hs.
    unfold touched_window in *. cbn in Hs. by rewrite <-Z.max_assoc, Z.max_id in Hs. }
  destruct (reclaim_rate st now (tick_of now) s) as [->|[Hi ->]]; [by apply rtc_once|].
  eapply rtc_l; [apply Hexp|]. apply rtc_once.
  by apply (step_evict limit (touched_window w (Rate_expire (slot_rate st s) (tick_of now)) now)).
Qed.
Lemma check_limits_available st key limits now :
  slot_limit → limits = policy key → asks s key (provider_key key limits) = true →
  check_limits st key (provider_key key limits) limits now = Ok tt →
  Rate_available (slot_rate st s) limit = true.
Proof.
  unfold slot_limit. intros Hs -> Hasks Hc. unfold check_limits in Hc. res_inv. unfold slot_rate.
  destruct s as [k|q]; cbn in *; apply bool_decide_eq_true in Hasks.
  - subst k. destruct (targets st !! key) as [e|]; res_inv.
    + rewrite Hs in *. cbn in *.
      match goal with Ha : negb (negb _) = true |- _ => by rewrite negb_involutive in Ha end.
    + rewrite Hs in *. match goal with Ha : negb (bool_decide _) = true |- _ =>
        apply negb_true_iff, bool_decide_eq_false in Ha end.
      apply Z.ltb_lt. assert (limit ≠ 0) by congruence. cbn. lia.
  - rewrite Hasks in Hc. unfold provider_key in Hasks, Hs.
    destruct (l_provider (policy key)) as [[pattern l]|] eqn:Hl; [|done].
    assert (l = limit) as ->. { eapply Hs; [|done]. by rewrite Hl. }
    res_inv. cbn in *. apply negb_true_iff, orb_false_iff in Hc as [Ha Hz].
    destruct (providers st !! q); cbn in *; [by apply negb_false_iff in Ha|].
    apply Z.ltb_lt. apply Z.eqb_neq in Hz. cbn. lia.
Qed.

Definition slot_guards (gs : list (Admission * Z)) : list (Admission * Z) :=
  List.filter (λ g, owns s g && unsent g) gs.
Lemma sim_touched S w st gs now :
  simulates S w → slot_guards gs ≡ₚ slot_guards (out S) →
  simulates {| sys := st; out := gs; log := log S; clock := Z.max (clock S) now |}
    (touched_window w (slot_rate st s) now).
Proof.
  intros [Hr Hs Hg Hl] Hp. constructor; cbn; [done|done| |by rewrite Hl].
  rewrite Hg. apply fmap_Permutation. symmetry. exact Hp.
Qed.
Lemma sim_reserved S w st2 key p gb now st a :
  reserved st2 key p gb now st a → simulates S w → 0 ≤ now →
  Rate_expire (slot_rate st2 s) (tick_of now) = slot_rate st2 s ∧
    Rate_available (slot_rate st2 s) limit = true ∨ asks s key p = false →
  ∃ w', rtc (window_step limit) (touched_window w (slot_rate st2 s) now) w' ∧
    simulates {| sys := st; out := (a, Z.max (clock S) now) :: out S; log := log S;
                 clock := Z.max (clock S) now |} w'.
Proof.
  intros Hr Hw Hn Hav. pose proof (reserved_rate _ _ _ _ _ _ _ s Hr) as Hrate.
  rewrite (res_guard _ _ _ _ _ _ _ Hr). destruct (asks s key p) eqn:Hasks.
  - destruct Hav as [[Hid Hav]|]; [|done]. eexists. split.
    { apply rtc_once, (step_admit limit _ now Hn). cbn. by rewrite Hid. }
    destruct Hw as [_ Hs Hg Hl]. constructor; cbn; [by rewrite Hid, Hrate|done| |lia].
    unfold owns at 1, unsent at 1, live at 1. cbn. rewrite Hasks. cbn. rewrite Hg, Hl.
    by rewrite <-Z.max_assoc, Z.max_id.
  - eexists. split; [done|]. rewrite <-Hrate. apply sim_touched; [done|].
    unfold slot_guards. cbn. unfold owns at 1. cbn. by rewrite Hasks.
Qed.
Lemma sim_admit S w key now st r :
  slot_limit → simulates S w → 0 ≤ now → admit_at rt (sys S) key (policy key) now = (st, r) →
  ∃ w', rtc (window_step limit) w w' ∧
    simulates {| sys := st;
      out := match r with Ok a => (a, Z.max (clock S) now) :: out S | Err _ => out S end;
      log := log S; clock := Z.max (clock S) now |} w'.
Proof.
  intros Hsl Hw Hn Ha. pose proof (sim_rate _ _ Hw) as Hrate.
  set (p := provider_key key (policy key)) in *. set (st1 := expire_keys (sys S) key p now (tick_of now)).
  pose proof (window_expire_keys w (sys S) key p now Hn Hrate) as H1. fold st1 in H1.
  apply admit_spec in Ha as [[[e ->] Hst]|(st2 & Hst2 & Hc & _ & Ha)].
  { fold p st1 in Hst. destruct Hst as [->| ->]; eexists; (split; [|by apply sim_touched]); [|done].
    rewrite <-Hrate. apply rtc_once, step_tick. }
  fold p st1 in Hst2, Hc. assert (rtc (window_step limit) w (touched_window w (slot_rate st2 s) now)) as H2.
  { destruct Hst2 as [->| ->]; [done|]. etrans; [exact H1|]. by apply window_reclaim. }
  assert (Rate_expire (slot_rate st2 s) (tick_of now) = slot_rate st2 s ∧
          Rate_available (slot_rate st2 s) limit = true ∨ asks s key p = false) as Havail.
  { destruct (asks s key p) eqn:Hasks; [left|by right].
    pose proof (check_limits_available _ _ _ _ Hsl eq_refl Hasks Hc) as Hav.
    assert (Rate_expire (slot_rate st1 s) (tick_of now) = slot_rate st1 s) as Hid.
    { unfold st1. by rewrite expire_keys_rate, Hasks, Rate_expire_idemp. }
    destruct Hst2 as [->| ->]; [done|].
    destruct (reclaim_rate st1 now (tick_of now) s) as [->|[Hi ->]]; rewrite ?Hid; [done|].
    rewrite Hid in Hi. apply Rate_idle_inv in Hi. rewrite Hi in Hav. done. }
  destruct Ha as [[[e ->] ->]|(kb & pb & gb & _ & _ & Hr)].
  { eexists. split; [exact H2|]. by apply sim_touched. }
  apply reserve_spec in Hr as [_ Hr]. destruct r as [a|e].
  - destruct Hr as [Hr _]. apply (sim_reserved _ _ _ _ _ _ _ _ _ Hr) in Hw; [|done..].
    destruct Hw as (w' & Hstep & Hw'). exists w'. by split; [etrans|].
  - eexists. split; [exact H2|].
    replace (slot_rate st2 s) with (slot_rate st s) by (unfold slot_rate; by rewrite (same_slots _ _ Hr)).
    by apply sim_touched.
Qed.

Lemma slot_guards_perm gs gs' : gs ≡ₚ gs' → slot_guards gs ≡ₚ slot_guards gs'.
Proof. apply filter_perm. Qed.
Lemma slot_guards_skip g gs : asks s (a_key g.1) (a_provider g.1) = false ∨ unsent g = false →
  slot_guards (g :: gs) = slot_guards gs.
Proof. intros Hg. unfold slot_guards, owns. cbn. by destruct Hg as [-> | ->]; rewrite ?andb_false_r. Qed.
Lemma slot_guards_take g gs : asks s (a_key g.1) (a_provider g.1) = true → unsent g = true →
  slot_guards (g :: gs) = g :: slot_guards gs.
Proof. intros Ha Hu. unfold slot_guards, owns. cbn. by rewrite Ha, Hu. Qed.
Lemma unsent_spec a born : unsent (a, born) = negb (a_finished a) && bool_decide (a_sent a = None).
Proof. done. Qed.
Lemma sim_tick S w st gs now :
  simulates S w → slot_rate st s = slot_rate (sys S) s → slot_guards gs ≡ₚ slot_guards (out S) →
  ∃ w', rtc (window_step limit) w w' ∧
    simulates {| sys := st; out := gs; log := log S; clock := Z.max (clock S) now |} w'.
Proof.
  intros Hw Hr Hp. exists (touched_window w (slot_rate st s) now). split; [|by apply sim_touched].
  rewrite Hr, <-(sim_rate _ _ Hw). apply rtc_once, step_tick.
Qed.

Lemma sim_send S w a born rest now st a' r :
  inv rt (sys S) ((a, born) :: rest) → simulates S w →
  out S ≡ₚ (a, born) :: rest → born ≤ now → sent_at (sys S) a now = (st, a', r) →
  ∃ w', rtc (window_step limit) w w' ∧
    simulates {| sys := st; out := (a', born) :: rest;
      log := match r with Ok _ => (a, now) :: log S | Err _ => log S end; clock := Z.max (clock S) now |} w'.
Proof.
  intros Hi Hw Hp Hb Ha. pose proof (slot_guards_perm _ _ Hp) as Hsg.
  destruct (decide (a_finished a = true ∨ a_sent a ≠ None)) as [Hd|Hd].
  { rewrite (sent_stale _ _ _ Hd) in Ha. simplify_eq. by apply sim_tick. }
  apply Decidable.not_or in Hd as [Hf%not_true_is_false Hn%dec_stable].
  destruct (sent_live (sys S) a now Hf Hn (inv_slots_exist _ _ _ _ _ Hi Hf)) as (st1 & Heq & _ & _ & _ & Hr).
  rewrite Heq in Ha. simplify_eq. specialize (Hr s).
  assert (unsent (a, born) = true) as Hu by (by rewrite unsent_spec, Hf, Hn).
  assert (unsent (with_sent a now, born) = false) as Hu'.
  { rewrite unsent_spec. cbn. by rewrite andb_false_r. }
  destruct (asks s (a_key a) (a_provider a)) eqn:Hasks.
  - rewrite (slot_guards_take (a, born)) in Hsg by done. destruct Hw as [Hrate Hs Hg Hl].
    fold (slot_guards (out S)) in Hg. rewrite Hsg in Hg. cbn in Hg.
    eexists. split; [apply rtc_once, (step_send limit w born _ now Hg Hb)|].
    constructor; cbn [rate sends guards latest sys out log clock Rate_refund]; [by rewrite Hr, Hrate| | |by rewrite Hl].
    + cbn [List.filter]. unfold owns at 1. cbn [fst]. by rewrite Hasks, Hs.
    + fold (slot_guards ((with_sent a now, born) :: rest)). rewrite slot_guards_skip by auto. done.
  - destruct (sim_tick S w st ((with_sent a now, born) :: rest) now Hw Hr) as (w' & Hst & [? ? ? ?]).
    { rewrite Hsg, !slot_guards_skip by auto. done. }
    exists w'. split; [done|]. constructor; try done. cbn. unfold owns at 1. cbn. by rewrite Hasks.
Qed.
Lemma sim_finish S w a born rest outcome now st a' :
  inv rt (sys S) ((a, born) :: rest) → simulates S w →
  out S ≡ₚ (a, born) :: rest → finish_at (sys S) a outcome now = (st, a') →
  ∃ w', rtc (window_step limit) w w' ∧
    simulates {| sys := st; out := (a', born) :: rest; log := log S; clock := Z.max (clock S) now |} w'.
Proof.
  intros Hi Hw Hp Ha. pose proof (slot_guards_perm _ _ Hp) as Hsg. destruct (a_finished a) eqn:Hf.
  { rewrite (finish_stale _ _ _ _ Hf) in Ha. simplify_eq. by apply sim_tick. }
  destruct (finish_live (sys S) a outcome now Hf (inv_slots_exist _ _ _ _ _ Hi Hf)) as (st1 & Heq & _ & _ & _ & Hr).
  rewrite Heq in Ha. simplify_eq. specialize (Hr s).
  assert (unsent (with_finished a, born) = false) as Hu' by done.
  destruct (asks s (a_key a) (a_provider a)) eqn:Hasks.
  2:{ apply sim_tick; [done|by rewrite Hr|]. rewrite Hsg, !slot_guards_skip by auto. done. }
  pose proof (sim_rate _ _ Hw) as Hrate. unfold finish_rate in Hr.
  destruct (bool_decide (a_sent a = None)) eqn:Hs.
  - assert (unsent (a, born) = true) as Hu by (by rewrite unsent_spec, Hf, Hs).
    rewrite (slot_guards_take (a, born)) in Hsg by done. destruct Hw as [_ Hsd Hg Hl].
    fold (slot_guards (out S)) in Hg. rewrite Hsg in Hg. cbn in Hg.
    eexists. split. { eapply rtc_l; [apply (step_refund limit w born _ Hg)|]. apply rtc_once, (step_tick limit _ now). }
    constructor; cbn [rate sends guards latest sys out log clock Rate_refund]; [by rewrite Hr, Hrate|done| |by rewrite Hl].
    fold (slot_guards ((with_finished a, born) :: rest)). by rewrite slot_guards_skip by auto.
  - assert (unsent (a, born) = false) as Hu by (by rewrite unsent_spec, Hf, Hs).
    eexists. split. { eapply rtc_l; [apply (step_complete limit w)|]. apply rtc_once, (step_tick limit _ now). }
    destruct Hw as [_ Hsd Hg Hl]. constructor; cbn [rate sends guards latest sys out log clock Rate_refund]; [by rewrite Hr, Hrate|done| |by rewrite Hl].
    fold (slot_guards ((with_finished a, born) :: rest)). fold (slot_guards (out S)) in Hg.
    rewrite Hg, Hsg, !slot_guards_skip by auto. done.
Qed.
Lemma sim_drop_finished S w a born rest now :
  simulates S w → out S ≡ₚ (a, born) :: rest → a_finished a = true →
  ∃ w', rtc (window_step limit) w w' ∧
    simulates {| sys := drop (sys S) a now; out := rest; log := log S; clock := Z.max (clock S) now |} w'.
Proof.
  intros Hw Hp Hf. apply sim_tick; [done| |].
  - unfold drop. by rewrite finish_stale.
  - rewrite (slot_guards_perm _ _ Hp), slot_guards_skip; [done|]. right. by rewrite unsent_spec, Hf.
Qed.
End simulation.

(** ** Theorems *)

Section theorems.
Context `{AllocationLaws}.
Context (rt : Runtime) (policy : Key → Limits) (entries bytes_ max_active : Z).
Context (Hrt : configured entries bytes_ max_active = Ok rt).

Lemma reachable_inv_perm S gs : sys_reachable rt policy S → out S ≡ₚ gs → inv rt (sys S) gs.
Proof. intros Hr Hp. eapply inv_perm; [exact Hp|]. by eapply reachable_sys_inv. Qed.

Lemma filter_none {A} (f : A → bool) l : (∀ x, x ∈ l → f x = false) → List.filter f l = [].
Proof.
  induction l as [|y l IH]; intros Hf; [done|]. cbn. rewrite (Hf y) by left. apply IH. intros z Hz. apply Hf. by right.
Qed.
Lemma filter_unique {A} (f : A → Z) l x :
  NoDup (f <$> l) → x ∈ l → List.filter (λ y, f y =? f x) l = [x].
Proof.
  induction l as [|y l IH]; intros Hd Hx; [by apply not_elem_of_nil in Hx|].
  cbn in Hd. apply NoDup_cons in Hd as [Hy Hd]. cbn. apply elem_of_cons in Hx as [->|Hx].
  - rewrite Z.eqb_refl. f_equal. apply filter_none. intros z Hz. apply Z.eqb_neq. intros Heq.
    apply Hy. rewrite <-Heq. by apply list_elem_of_fmap_2.
  - destruct (Z.eqb_spec (f y) (f x)) as [Heq|_]; [|by apply IH]. destruct Hy. rewrite Heq. by apply list_elem_of_fmap_2.
Qed.
(** If the circuit is open, its deadline has passed and [id] is its probe. *)
Definition half_open_for (e : Entry) (id now : Z) : Prop :=
  ∀ deadline, open_until e = Some deadline → deadline ≤ now ∧ probe e = Some id.
(** What an admission found in the target's entry. *)
Lemma admit_checked st key limits now st' a :
  admit_at rt st key limits now = (st', Ok a) →
  ∀ e, targets st !! key = Some e →
    probe e = None ∧ ∀ until, open_until e = Some until → until ≤ now.
Proof.
  intros Ha e He. apply admit_spec in Ha as [[[? [=]] _]|(st2 & _ & Hc & _)].
  unfold check_limits, expire_keys, set_maps in Hc. cbn [targets] in Hc. rewrite lookup_alter_eq, He in Hc.
  cbn in Hc. res_inv. apply negb_true_iff, orb_false_iff in Hv0 as [Hp Hu].
  apply bool_decide_eq_false in Hp. split; [by apply eq_None_not_Some|].
  intros u Hun. rewrite Hun in Hu. cbn in Hu. by apply Z.ltb_ge in Hu.
Qed.
Lemma sim_step s limit S S' w :
  slot_limit policy s limit → 0 ≤ limit → sys_inv rt S → simulates s S w → sys_step rt policy S S' →
  ∃ w', rtc (window_step limit) w w' ∧ simulates s S' w'.
Proof.
  intros Hsl H0' Hi Hw Hs. unfold sys_inv in Hi.
  destruct Hs as [S key now st r Hn Ha|S a born rest now st a' r Hp Hb Ha|S a born rest outcome now st a' Hp Ha
    |S a born rest now Hp].
  - by eapply sim_admit.
  - eapply sim_send; [|done..]. by eapply inv_perm.
  - eapply sim_finish; [|done..]. by eapply inv_perm.
  - apply (inv_perm _ _ _ _ Hp) in Hi. destruct (a_finished a) eqn:Hf; [by eapply sim_drop_finished|].
    destruct (finish_live (sys S) a Unknown now Hf (inv_slots_exist _ _ _ _ _ Hi Hf)) as (st1 & Heq & _).
    destruct (sim_finish rt s limit S w a born rest Unknown now _ _ Hi Hw Hp Heq) as (w1 & Hs1 & Hw1).
    destruct (sim_drop_finished s limit _ w1 (with_finished a) born rest now Hw1 (reflexivity _) eq_refl)
      as (w2 & Hs2 & Hw2).
    exists w2. split; [by etrans|]. cbn [sys log clock] in Hw2.
    rewrite <-Z.max_assoc, Z.max_id, <-(drop_live _ _ _ _ _ eq_refl Heq) in Hw2. done.
Qed.
Lemma simulated s limit S :
  slot_limit policy s limit → 0 ≤ limit → sys_reachable rt policy S →
  ∃ w, reachable limit w ∧ simulates s S w.
Proof.
  intros Hsl Hl Hr. pattern S. eapply rtc_ind_r; [| |exact Hr].
  - exists Window_init. split; [constructor|]. constructor; try done. by destruct s.
  - intros S1 S2 Hr1 Hs (w & Hw & Hsim).
    destruct (sim_step s limit S1 S2 w Hsl Hl) as (w' & Hs' & Hsim'); [by eapply reachable_sys_inv|done..|].
    exists w'. split; [unfold reachable in *; by etrans|done].
Qed.

(** C1: whatever the interleaving of admissions, sends, completions and drops, no 60-second
    window ever holds more sends of a target, or of the targets that share a provider
    pattern, than its limit; reservations that may still be sent in it are included. *)
Theorem no_window_exceeds_limit s limit S x :
  slot_limit policy s limit → 0 ≤ limit ≤ u32_max → sys_reachable rt policy S →
  countb (in_window x) (List.filter (owns s) (log S)).*2 +
  countb (λ born, born <=? x + WINDOW) (List.filter (λ g, owns s g && unsent g) (out S)).*2 ≤ limit.
Proof.
  intros Hsl Hl Hr. destruct (simulated s limit S Hsl ltac:(lia) Hr) as (w & Hw & [_ Hs Hg _]).
  rewrite <-Hs, <-(countb_perm _ _ _ Hg). by apply (wi_window limit), reachable_inv.
Qed.

(** C29: in every reachable state the bytes charged are exactly those of the stored keys and of
    the guards handed out; the runtime stays within its byte, entry and owner budgets. *)
Theorem accounting_is_exact S :
  sys_reachable rt policy S →
  bytes (sys S) = map_sum target_charge (targets (sys S)) + map_sum provider_charge (providers (sys S))
                  + sum_by (λ g, a_bytes g.1) (out S) ∧
  (∃ used, used_bytes (sys S) = Some used ∧ used ≤ max_bytes rt) ∧
  target_len (sys S) + provider_len (sys S) ≤ max_entries rt ∧
  state_active (sys S) = countb live (out S) ∧ state_active (sys S) ≤ max_in_flight rt.
Proof.
  intros Hr. destruct (reachable_sys_inv rt policy _ _ _ S Hrt Hr) as [[Ha _ _] [Hb Hg [Ht Hp] Hbud Hent] _ Hf].
  assert (max_bytes rt ≤ i64_max) as Hmax by (unfold configured in Hrt; res_inv; cbn; arith).
  split_and!; [done| |done..]. exists (size_runtime + bytes (sys S) + target_bytes (sys S) + provider_bytes (sys S)).
  split; [|done]. unfold used_bytes, checked_add, i64_max, u64_max in *.
  repeat (rewrite (proj2 (Z.leb_le _ _)) by lia; cbn [mbind option_bind]). done.
Qed.

(** A guard that has neither been sent nor completed can always be sent: the slots it
    reserved are pinned against eviction, and their reservations are the live guards. *)
Theorem live_guard_can_send S a born now :
  sys_reachable rt policy S → (a, born) ∈ out S → a_finished a = false → a_sent a = None →
  (∃ st, sent_at (sys S) a now = (st, with_sent a now, Ok tt)) ∧
  ∀ s, pending (slot_rate (sys S) s) = countb (λ g, owns s g && unsent g) (out S) ∧
       active (slot_rate (sys S) s) = countb (λ g, owns s g && live g) (out S).
Proof.
  intros Hr Hin Hf Hn. pose proof (reachable_sys_inv rt policy _ _ _ S Hrt Hr) as Hi.
  split; [|intros s; split; apply Hi]. apply elem_of_Permutation in Hin as [rest Hp].
  destruct (sent_live (sys S) a now Hf Hn) as (st & Heq & _); [|by eexists].
  eapply inv_slots_exist; [|done]. by eapply reachable_inv_perm.
Qed.

(** A half-open circuit has one owner: as long as a probe is out it is a live guard of
    that target and of no other (or the mark of a circuit that can never reopen), and nobody
    else is admitted to the target. *)
Theorem probe_has_one_owner S key e id :
  sys_reachable rt policy S → targets (sys S) !! key = Some e → probe e = Some id →
  (id = 0 ∨ ∃ a born, List.filter (λ g, a_id g.1 =? id) (out S) = [(a, born)] ∧
                      a_key a = key ∧ a_finished a = false) ∧
  ∀ limits now, is_ok (admit_at rt (sys S) key limits now).2 = false.
Proof.
  intros Hr He Hp. pose proof (reachable_sys_inv rt policy _ _ _ S Hrt Hr) as [_ _ [_ _ Hd Ho] _]. split.
  - destruct (Ho key e id He Hp) as [|([a born] & Hin & Hl & Hk & Hid)]; [by left|right].
    exists a, born. split_and!; [|done|by apply negb_true_iff]. subst id. by apply (filter_unique (λ g, a_id g.1)).
  - intros limits now. destruct (admit_at rt (sys S) key limits now) as [st [a|err]] eqn:Ha; [|done].
    destruct (admit_checked _ _ _ _ _ _ Ha e He) as [Hnone _]. congruence.
Qed.

(** An admission to a target whose circuit is open only happens after its deadline, and
    makes the new guard the probe. *)
Theorem open_circuit_admits_the_probe S key limits now st a :
  admit_at rt (sys S) key limits now = (st, Ok a) →
  ∃ e, targets st !! key = Some e ∧ a_id a = next st ∧ half_open_for e (a_id a) now.
Proof.
  intros Ha. pose proof (admit_checked _ _ _ _ _ _ Ha) as Hchk.
  apply admit_spec in Ha as [[[? [=]] _]|(st2 & Hst2 & _ & _ & [[[? [=]] _]|(kb & pb & gb & _ & _ & Hr)])].
  apply reserve_spec in Hr as [_ [Hr _]]. exists (reserved_entry (entry_or_init st2 key now) (next st2 + 1) now).
  rewrite (res_targets _ _ _ _ _ _ _ Hr), lookup_insert_eq, (res_next _ _ _ _ _ _ _ Hr), (res_guard _ _ _ _ _ _ _ Hr).
  split_and!; [done..|]. unfold half_open_for. cbn. intros u Hu. rewrite Hu. split; [|done].
  assert (∀ e, targets st2 !! key = Some e → ∃ e0, targets (sys S) !! key = Some e0 ∧ open_until e = open_until e0)
    as Hst.
  { intros e. destruct Hst2 as [->| ->]; cbn.
    - rewrite lookup_alter_eq. intros (e0 & He0 & ->)%fmap_Some. by exists e0.
    - intros [He _]%map_lookup_filter_Some. rewrite lookup_fmap, lookup_alter_eq in He.
      apply fmap_Some in He as (e1 & (e0 & He0 & ->)%fmap_Some & ->). by exists e0. }
  unfold entry_or_init in Hu. destruct (targets st2 !! key) as [e|] eqn:He; [|done]. cbn in Hu.
  destruct (Hst e eq_refl) as (e0 & He0 & Heq). rewrite Heq in Hu. by eapply Hchk.
Qed.
End theorems.
