(* ===== verification/TenancyCapacity.v ===== *)
(** The startup budgets of tenancy and their validation ([apps/config/tenancy/capacity.rs]), with the error vocabulary
    of the tenancy service ([crates/bitrouter-ai/src/tenancy/operation.rs]); and the receipt accounting under the
    admission mutex ([apps/tenancy/receipts/capacity.rs]): what is reserved for completions and repairs, what is
    stored, and when there is room for more. *)
From stdpp Require Import base list strings sets.
From Stdlib Require Import ZArith Lia.
From S2P Require Import Prelude.
Open Scope Z_scope.

Inductive ErrorCode :=
| InvalidRequest | Unauthorized | Forbidden | TenantInactive | NotFound | RevisionConflict
| OperationConflict | OperationExpired | PayloadTooLarge | CapacityExceeded
| AuthorityUnavailable | StorageUnavailable | CapabilityMismatch.
#[export] Instance ErrorCode_eq_dec : EqDecision ErrorCode.
Proof. solve_decision. Defined.

(** ** The budgets *)

Record Execution := {
  instance_active : Z; tenant_active : Z; instance_queue : Z; tenant_queue : Z;
  queue_wait_ms : Z }.
Record Ingress := { requests : Z; ingress_limit : Z }.
Record Management := { management_queue : Z; safety_queue : Z; reads : Z }.
Record Caches := {
  execution_entries : Z; execution_bytes : Z; credential_entries : Z; credential_bytes : Z }.
Record AuthorityViews := { view_entries : Z; view_bytes : Z }.
Record Routing := { routing_entries : Z; routing_bytes : Z }.
Record Receipts := {
  high_water_bytes : Z; admission_free_bytes : Z; maintenance_free_bytes : Z;
  unknown_instance : Z; unknown_tenant : Z }.
Record Transport := { connections : Z; header_timeout_ms : Z }.
Record CapacityConfig := {
  execution : Execution; ingress_config : Ingress; management : Management; caches : Caches;
  authority_views : AuthorityViews; routing : Routing; receipts_config : Receipts;
  transport : Transport }.

Definition Execution_default : Execution := {|
  instance_active := 128; tenant_active := 16; instance_queue := 256; tenant_queue := 32;
  queue_wait_ms := 5000 |}.
Definition Ingress_default : Ingress := {| requests := 128; ingress_limit := 64 * 1024 * 1024 |}.
Definition Management_default : Management :=
  {| management_queue := 16; safety_queue := 8; reads := 8 |}.
Definition Caches_default : Caches := {|
  execution_entries := 64; execution_bytes := 128 * 1024 * 1024;
  credential_entries := 256; credential_bytes := 8 * 1024 * 1024 |}.
Definition AuthorityViews_default : AuthorityViews :=
  {| view_entries := 512; view_bytes := 64 * 1024 * 1024 |}.
Definition Routing_default : Routing :=
  {| routing_entries := 2048; routing_bytes := 64 * 1024 * 1024 |}.
Definition Receipts_default : Receipts := {|
  high_water_bytes := 8 * 1024 * 1024 * 1024; admission_free_bytes := 768 * 1024 * 1024;
  maintenance_free_bytes := 256 * 1024 * 1024; unknown_instance := 1000; unknown_tenant := 100 |}.
Definition Transport_default : Transport :=
  {| connections := 256; header_timeout_ms := 30000 |}.
Definition CapacityConfig_default : CapacityConfig := {|
  execution := Execution_default; ingress_config := Ingress_default;
  management := Management_default; caches := Caches_default;
  authority_views := AuthorityViews_default; routing := Routing_default;
  receipts_config := Receipts_default; transport := Transport_default |}.

(** ** Validation

    [Semaphore::MAX_PERMITS] belongs to tokio, and whether [Instant::now()] plus some
    milliseconds is representable depends on the host: both are parameters. *)
Section validate.
Context (MAX_PERMITS : Z) (clock_reaches : Z → bool).

Definition permit_budgets (c : CapacityConfig) : list (string * Z * bool) := [
  ("execution.instance_active", instance_active (execution c), false);
  ("execution.tenant_active", tenant_active (execution c), false);
  ("execution.instance_queue", instance_queue (execution c), true);
  ("execution.tenant_queue", tenant_queue (execution c), true);
  ("ingress.requests", requests (ingress_config c), false);
  ("management.queue", management_queue (management c), false);
  ("management.safety_queue", safety_queue (management c), false);
  ("management.reads", reads (management c), false);
  ("transport.connections", connections (transport c), false)].
Definition range_budgets (c : CapacityConfig) : list (string * Z) := [
  ("ingress.bytes", ingress_limit (ingress_config c));
  ("caches.execution_entries", execution_entries (caches c));
  ("caches.execution_bytes", execution_bytes (caches c));
  ("caches.credential_entries", credential_entries (caches c));
  ("caches.credential_bytes", credential_bytes (caches c));
  ("authority_views.entries", view_entries (authority_views c));
  ("authority_views.bytes", view_bytes (authority_views c));
  ("routing.entries", routing_entries (routing c));
  ("routing.bytes", routing_bytes (routing c));
  ("receipts.unknown_instance", unknown_instance (receipts_config c));
  ("receipts.unknown_tenant", unknown_tenant (receipts_config c))].
Definition clock_budgets (c : CapacityConfig) : list (string * Z) := [
  ("execution.queue_wait_ms", queue_wait_ms (execution c));
  ("transport.header_timeout_ms", header_timeout_ms (transport c))].

Definition check_permit (b : string * Z * bool) : result string unit :=
  let '(name, value, zero) := b in
  ensure ((zero || (0 <? value)) && (value <=? MAX_PERMITS))
    ("tenancy.capacity." +:+ name +:+ " exceeds the runtime permit range").
Definition check_range (b : string * Z) : result string unit :=
  let '(name, value) := b in
  ensure ((0 <? value) && (value <=? i64_max))
    ("tenancy.capacity." +:+ name +:+ " exceeds the addressable range").
Definition check_clock (b : string * Z) : result string unit :=
  let '(name, millis) := b in
  ensure ((0 <? millis) && clock_reaches millis)
    ("tenancy.capacity." +:+ name +:+ " exceeds the host clock range").
(** [.filter(|n| *n <= isize::MAX as usize)] *)
Definition within_isize (n : Z) : option Z := if n <=? i64_max then Some n else None.
Definition owner_budget (c : CapacityConfig) : option Z :=
  n ← instance_active (execution c) +? instance_queue (execution c);
  n ← n +? reads (management c);
  n ← n *? 8;
  within_isize n.
Definition memory_budget (c : CapacityConfig) : option Z :=
  n ← execution_bytes (caches c) +? credential_bytes (caches c);
  n ← n +? view_bytes (authority_views c);
  n ← n +? routing_bytes (routing c);
  n ← n +? ingress_limit (ingress_config c);
  within_isize n.

Definition validate (c : CapacityConfig) : result string unit :=
  _ ← for_each check_permit (permit_budgets c);
  _ ← for_each check_range (range_budgets c);
  _ ← ensure ((tenant_active (execution c) <=? instance_active (execution c)) &&
              (tenant_queue (execution c) <=? instance_queue (execution c)))
        "tenancy.capacity tenant execution budgets exceed instance budgets";
  _ ← ensure (unknown_tenant (receipts_config c) <=? unknown_instance (receipts_config c))
        "tenancy.capacity.receipts unknown tenant budget exceeds instance budget";
  let r := receipts_config c in
  _ ← ensure ((0 <? high_water_bytes r) && (high_water_bytes r <=? i64_max) &&
              (0 <? maintenance_free_bytes r) &&
              (maintenance_free_bytes r <? admission_free_bytes r) &&
              (admission_free_bytes r <=? i64_max))
        "tenancy.capacity.receipts has invalid disk budgets";
  _ ← for_each check_clock (clock_budgets c);
  _ ← ok_or (owner_budget c) "tenancy.capacity aggregate owner budget overflows";
  _ ← ok_or (memory_budget c) "tenancy.capacity aggregate memory budget overflows";
  Ok tt.

(** What validation promises, in unbounded arithmetic. *)
Record Validated (c : CapacityConfig) : Prop := {
  v_active : 0 < tenant_active (execution c) ≤ instance_active (execution c);
  v_queue : 0 ≤ tenant_queue (execution c) ≤ instance_queue (execution c);
  v_permits : ∀ n v z, (n, v, z) ∈ permit_budgets c → v ≤ MAX_PERMITS ∧ (z = false → 0 < v);
  v_ranges : ∀ n v, (n, v) ∈ range_budgets c → 0 < v ≤ i64_max;
  v_clock : ∀ n v, (n, v) ∈ clock_budgets c → 0 < v ∧ clock_reaches v = true;
  v_unknown : unknown_tenant (receipts_config c) ≤ unknown_instance (receipts_config c);
  v_water : 0 < high_water_bytes (receipts_config c) ≤ i64_max;
  v_free : 0 < maintenance_free_bytes (receipts_config c) ∧
    maintenance_free_bytes (receipts_config c) < admission_free_bytes (receipts_config c) ≤ i64_max;
  v_owners : 8 * (instance_active (execution c) + instance_queue (execution c) +
                  reads (management c)) ≤ i64_max;
  v_memory : execution_bytes (caches c) + credential_bytes (caches c) +
             view_bytes (authority_views c) + routing_bytes (routing c) +
             ingress_limit (ingress_config c) ≤ i64_max }.

Lemma check_permit_ok b : check_permit b = Ok tt ↔ b.1.2 ≤ MAX_PERMITS ∧ (b.2 = false → 0 < b.1.2).
Proof.
  destruct b as [[n v] z]. cbn. rewrite ensure_ok, andb_true_iff, orb_true_iff, Z.ltb_lt, Z.leb_le.
  destruct z; naive_solver.
Qed.
Lemma check_range_ok b : check_range b = Ok tt ↔ 0 < b.2 ≤ i64_max.
Proof. destruct b as [n v]. cbn. by rewrite ensure_ok, andb_true_iff, Z.ltb_lt, Z.leb_le. Qed.
Lemma check_clock_ok b : check_clock b = Ok tt ↔ 0 < b.2 ∧ clock_reaches b.2 = true.
Proof. destruct b as [n v]. cbn. by rewrite ensure_ok, andb_true_iff, Z.ltb_lt. Qed.
Lemma within_isize_Some n v : within_isize n = Some v ↔ v = n ∧ n ≤ i64_max.
Proof. unfold within_isize. destruct (Z.leb_spec n i64_max); naive_solver lia. Qed.
Lemma owner_budget_ok c :
  0 ≤ instance_queue (execution c) → 0 < reads (management c) →
  is_Some (owner_budget c) ↔
  8 * (instance_active (execution c) + instance_queue (execution c) + reads (management c)) ≤ i64_max.
Proof.
  unfold owner_budget. intros Hq Hr. split.
  - intros (n & Hn). repeat (apply bind_Some in Hn as (? & ? & Hn)).
    apply within_isize_Some in Hn as [-> ?]. arith.
  - intros Hle. eexists. apply bind_Some. eexists. unfold i64_max in Hle.
    split; [apply checked_add_Some; split; [done|]; unfold u64_max; lia|].
    apply bind_Some. eexists. split; [apply checked_add_Some; split; [done|]; unfold u64_max; lia|].
    apply bind_Some. eexists. split; [apply checked_mul_Some; split; [done|]; unfold u64_max; lia|].
    apply within_isize_Some. split; [done|]. unfold i64_max. lia.
Qed.
Lemma memory_budget_ok c :
  (∀ n v, (n, v) ∈ range_budgets c → 0 < v ≤ i64_max) →
  is_Some (memory_budget c) ↔
  execution_bytes (caches c) + credential_bytes (caches c) + view_bytes (authority_views c) +
    routing_bytes (routing c) + ingress_limit (ingress_config c) ≤ i64_max.
Proof.
  unfold memory_budget. intros Hr. split.
  - intros (n & Hn). repeat (apply bind_Some in Hn as (? & ? & Hn)).
    apply within_isize_Some in Hn as [-> ?]. arith.
  - unfold range_budgets in Hr.
    pose proof (Hr _ (ingress_limit (ingress_config c)) ltac:(by left)).
    pose proof (Hr "caches.credential_bytes" (credential_bytes (caches c)) ltac:(set_solver)).
    pose proof (Hr "authority_views.bytes" (view_bytes (authority_views c)) ltac:(set_solver)).
    pose proof (Hr "routing.bytes" (routing_bytes (routing c)) ltac:(set_solver)).
    unfold i64_max in *. intros Hle. eexists.
    do 4 (apply bind_Some; eexists; split;
          [apply checked_add_Some; split; [done|]; unfold u64_max; lia|]).
    apply within_isize_Some. split; [done|]. unfold i64_max. lia.
Qed.

Lemma validate_ok c :
  0 ≤ tenant_queue (execution c) → validate c = Ok tt ↔ Validated c.
Proof.
  intros Hq. unfold validate. split.
  - intros Hv. res_inv. arith.
    repeat match goal with
    | H : for_each _ _ = Ok _ |- _ => apply for_each_ok in H; rewrite Forall_forall in H
    end.
    assert (∀ n v z, (n, v, z) ∈ permit_budgets c → v ≤ MAX_PERMITS ∧ (z = false → 0 < v)) as Hp.
    { intros n v z Hin. apply (check_permit_ok (n, v, z)). auto. }
    assert (∀ n v, (n, v) ∈ range_budgets c → 0 < v ≤ i64_max) as Hr.
    { intros n v Hin. apply (check_range_ok (n, v)). auto. }
    assert (0 < reads (management c)) by (apply (Hp "management.reads" _ false); [set_solver|done]).
    assert (0 < tenant_active (execution c))
      by (apply (Hp "execution.tenant_active" _ false); [set_solver|done]).
    split; try done.
    + intros n v Hin. apply (check_clock_ok (n, v)). auto.
    + apply owner_budget_ok; [lia|done|by eexists].
    + apply memory_budget_ok; [done|by eexists].
  - intros [].
    assert (0 < reads (management c))
      by (apply (v_permits0 "management.reads" _ false); [set_solver|done]).
    replace (for_each check_permit (permit_budgets c)) with (@Ok string unit tt);
      [|symmetry; apply for_each_ok, Forall_forall; intros [[n v] z] Hin; apply check_permit_ok; eauto].
    replace (for_each check_range (range_budgets c)) with (@Ok string unit tt);
      [|symmetry; apply for_each_ok, Forall_forall; intros [n v] Hin; apply check_range_ok; eauto].
    replace (for_each check_clock (clock_budgets c)) with (@Ok string unit tt);
      [|symmetry; apply for_each_ok, Forall_forall; intros [n v] Hin; apply check_clock_ok; eauto].
    destruct (owner_budget c) eqn:Ho; [|exfalso; eapply is_Some_None; rewrite <-Ho; apply owner_budget_ok; lia].
    destruct (memory_budget c) eqn:Hm; [|exfalso; eapply is_Some_None; rewrite <-Hm; by apply memory_budget_ok].
    cbn. unfold ensure. rewrite !(proj2 (Z.leb_le _ _)), !(proj2 (Z.ltb_lt _ _)) by lia. done.
Qed.
(** The startup budgets pass validation exactly when every permit and byte budget is in its
    range, tenant budgets are within instance budgets, the disk budgets are ordered below the
    largest 63-bit value and the aggregate sums, taken without overflow, fit in an [isize]. *)
Theorem validate_iff c :
  0 ≤ tenant_queue (execution c) → validate c = Ok tt ↔ Validated c.
Proof. apply validate_ok. Qed.
End validate.

Definition ROW_OVERHEAD : Z := 16 * 1024.
Definition RESERVATION : Z := 4 * 1024 * 1024.

Record Inventory := {
  i_bytes : Z; i_rows : Z; live_bytes : Z; i_history_bytes : Z; i_history_rows : Z;
  i_oauth_bytes : Z; unknown_count : Z; unknown_digest : list Z }.

Record Totals := {
  reserved : Z; t_bytes : Z; history_bytes : Z; history_rows : Z; oauth_bytes : Z;
  unknown : Z; uncovered : Z; live : Z; repair_reserved : Z; repair_live : Z }.
Definition Totals_default : Totals := {|
  reserved := 0; t_bytes := 0; history_bytes := 0; history_rows := 0; oauth_bytes := 0;
  unknown := 0; uncovered := 0; live := 0; repair_reserved := 0; repair_live := 0 |}.
#[export] Instance Totals_eq_dec : EqDecision Totals.
Proof. solve_decision. Defined.

Record Accounting := {
  limits : Receipts; volume : option string; fenced : bool; free : Z; totals : Totals;
  physical_write_reserved : Z }.

(** Assignments to one field of [self]. *)
Definition set_totals (a : Accounting) (t : Totals) : Accounting := {|
  limits := limits a; volume := volume a; fenced := fenced a; free := free a; totals := t;
  physical_write_reserved := physical_write_reserved a |}.
Definition set_free (a : Accounting) (f : Z) : Accounting := {|
  limits := limits a; volume := volume a; fenced := fenced a; free := f; totals := totals a;
  physical_write_reserved := physical_write_reserved a |}.
Definition set_fenced (a : Accounting) : Accounting := {|
  limits := limits a; volume := volume a; fenced := true; free := free a; totals := totals a;
  physical_write_reserved := physical_write_reserved a |}.
Definition set_writes (a : Accounting) (n : Z) : Accounting := {|
  limits := limits a; volume := volume a; fenced := fenced a; free := free a; totals := totals a;
  physical_write_reserved := n |}.
Definition set_volume (a : Accounting) (v : option string) : Accounting := {|
  limits := limits a; volume := v; fenced := fenced a; free := free a; totals := totals a;
  physical_write_reserved := physical_write_reserved a |}.

(** What [statvfs] answers for a path: available blocks and their size. *)
Definition Volumes := string → option (Z * Z).
Definition free_space (fs : Volumes) (volume : option string) : option Z :=
  volume ← volume;
  '(blocks, size) ← fs volume;
  blocks *? size.

Section accounting.
Implicit Types a : Accounting.

Definition observed_volume_free a : option Z := (λ _, free a) <$> volume a.
Definition Accounting_configured (limits : Receipts) : Accounting := {|
  limits := limits; volume := None; fenced := false; free := u64_max; totals := Totals_default;
  physical_write_reserved := 0 |}.
(** Fresh observation under the shared mutex, including all writer custody. *)
Definition refresh_free (fs : Volumes) a : Accounting :=
  match volume a with
  | Some v => match free_space fs (Some v) with Some f => set_free a f | None => set_fenced a end
  | None => a
  end.
Definition bind_volume (fs : Volumes) a (v : option string) : Accounting * result ErrorCode unit :=
  if is_some (volume a) || negb (reserved (totals a) =? 0) || negb (physical_write_reserved a =? 0)
  then (a, Err AuthorityUnavailable)
  else let a := refresh_free fs (set_volume a v) in
       (a, if fenced a then Err StorageUnavailable else Ok tt).
Definition observed_free a (f : Z) : Accounting :=
  if is_some (volume a) then a else set_free a f.

Definition physical_fit a (bytes floor : Z) : bool :=
  is_some_and (λ n, n <=? free a)
    (n ← reserved (totals a) +? physical_write_reserved a;
     n ← n +? bytes;
     n +? floor).
Definition reserve_physical_write a (bytes : Z) (maintenance : bool) : result ErrorCode Accounting :=
  _ ← ensure (negb (fenced a)) StorageUnavailable;
  _ ← ensure (maintenance || negb (free a <? admission_free_bytes (limits a))) CapacityExceeded;
  let floor := if maintenance then 0 else maintenance_free_bytes (limits a) in
  _ ← ensure (physical_fit a bytes floor) CapacityExceeded;
  n ← ok_or (physical_write_reserved a +? bytes) CapacityExceeded;
  Ok (set_writes a n).
Definition finish_physical_write a (bytes : Z) : Accounting * result ErrorCode unit :=
  match physical_write_reserved a -? bytes with
  | Some remaining => (set_writes a remaining, Ok tt)
  | None => (set_fenced a, Err AuthorityUnavailable)
  end.
Definition initialize a (inventory : Inventory) (f : Z) : result ErrorCode Accounting :=
  _ ← ensure ((live (totals a) =? 0) && (reserved (totals a) =? 0) &&
              (physical_write_reserved a =? 0)) AuthorityUnavailable;
  let t := totals a in
  Ok (observed_free (set_totals a {|
    reserved := reserved t; t_bytes := live_bytes inventory;
    history_bytes := i_history_bytes inventory; history_rows := i_history_rows inventory;
    oauth_bytes := i_oauth_bytes inventory; unknown := unknown_count inventory;
    uncovered := uncovered t; live := live t; repair_reserved := repair_reserved t;
    repair_live := repair_live t |}) f).

Definition archive_needed a : bool :=
  let watermark := high_water_bytes (limits a) - high_water_bytes (limits a) / 4 in
  negb (t_bytes (totals a) =? 0) &&
  is_none_or (λ used,
      (watermark <=? used) ||
      is_none_or (λ next, high_water_bytes (limits a) <? next) (used +? RESERVATION))
    (t_bytes (totals a) +? reserved (totals a)).

Definition globally_ready a : bool :=
  negb (fenced a) &&
  (admission_free_bytes (limits a) <=? free a) &&
  physical_fit a RESERVATION (maintenance_free_bytes (limits a)) &&
  is_some_and (λ n, n <=? high_water_bytes (limits a))
    (n ← t_bytes (totals a) +? reserved (totals a); n +? RESERVATION) &&
  is_some_and (λ n, n <? unknown_instance (limits a))
    (unknown (totals a) +? uncovered (totals a)).
Definition ready a (tenant_unknown tenant_uncovered : Z) : bool :=
  globally_ready a &&
  is_some_and (λ n, n <? unknown_tenant (limits a)) (tenant_unknown +? tenant_uncovered).
Definition Accounting_reserve a (tenant_unknown tenant_uncovered : Z) : result ErrorCode Accounting :=
  _ ← ensure (ready a tenant_unknown tenant_uncovered) CapacityExceeded;
  let t := totals a in
  r ← ok_or (reserved t +? RESERVATION) CapacityExceeded;
  l ← ok_or (live t +? 1) CapacityExceeded;
  u ← ok_or (uncovered t +? 1) CapacityExceeded;
  Ok (set_totals a {|
    reserved := r; t_bytes := t_bytes t; history_bytes := history_bytes t;
    history_rows := history_rows t; oauth_bytes := oauth_bytes t; unknown := unknown t;
    uncovered := u; live := l; repair_reserved := repair_reserved t;
    repair_live := repair_live t |}).
Definition Accounting_reserve_repair a (bytes rows uncovered_rows : Z) :
    result ErrorCode (Accounting * Z) :=
  charged ← ok_or (n ← rows *? ROW_OVERHEAD; n +? bytes) CapacityExceeded;
  _ ← ensure (negb (fenced a)) StorageUnavailable;
  _ ← ensure ((uncovered_rows <=? rows) && physical_fit a charged 0) CapacityExceeded;
  let t := totals a in
  r ← ok_or (reserved t +? charged) CapacityExceeded;
  rr ← ok_or (repair_reserved t +? charged) CapacityExceeded;
  l ← ok_or (live t +? rows) CapacityExceeded;
  rl ← ok_or (repair_live t +? rows) CapacityExceeded;
  u ← ok_or (uncovered t +? uncovered_rows) CapacityExceeded;
  Ok (set_totals a {|
    reserved := r; t_bytes := t_bytes t; history_bytes := history_bytes t;
    history_rows := history_rows t; oauth_bytes := oauth_bytes t; unknown := unknown t;
    uncovered := u; live := l; repair_reserved := rr; repair_live := rl |}, charged).
Definition observed a (active : Z) : option (Z * Z * Z * Z) :=
  let t := totals a in
  executions ← live t -? repair_live t;
  if (live t <? uncovered t) || (active <? executions) then None else
  n ← executions *? RESERVATION;
  n ← n +? repair_reserved t;
  if negb (n =? reserved t) then None else
  minimum ← repair_live t *? ROW_OVERHEAD;
  if repair_reserved t <? minimum then None else
  Some (reserved t, t_bytes t, live t, unknown t).
End accounting.

(** ** Well-formed accounting *)

Record Totals_wf (t : Totals) : Prop := {
  wf_reserved : in_u64 (reserved t); wf_bytes : in_u64 (t_bytes t);
  wf_history_bytes : in_u64 (history_bytes t); wf_history_rows : in_u64 (history_rows t);
  wf_oauth : in_u64 (oauth_bytes t); wf_unknown : in_u64 (unknown t);
  wf_uncovered : in_u64 (uncovered t); wf_live : in_u64 (live t);
  wf_repair_reserved : in_u64 (repair_reserved t); wf_repair_live : in_u64 (repair_live t) }.
Record Receipts_wf (r : Receipts) : Prop := {
  wf_water : in_u64 (high_water_bytes r); wf_admission : in_u64 (admission_free_bytes r);
  wf_maintenance : in_u64 (maintenance_free_bytes r); wf_instance : in_u64 (unknown_instance r);
  wf_tenant : in_u64 (unknown_tenant r) }.
Record Accounting_wf (a : Accounting) : Prop := {
  wf_limits : Receipts_wf (limits a); wf_free : in_u64 (free a);
  wf_totals : Totals_wf (totals a); wf_writes : in_u64 (physical_write_reserved a) }.
#[export] Hint Constructors Totals_wf Receipts_wf Accounting_wf : bitrouter.

(** Opens the well-formedness of an accounting into the ranges of its fields. *)
Ltac open_wf :=
  repeat match goal with
  | H : Accounting_wf _ |- _ => destruct H
  | H : Totals_wf _ |- _ => destruct H
  | H : Receipts_wf _ |- _ => destruct H
  end; unfold in_u64 in *.

Section accounting_lemmas.
Implicit Types a : Accounting.

Lemma physical_fit_iff a bytes floor :
  Accounting_wf a → 0 ≤ bytes → 0 ≤ floor →
  physical_fit a bytes floor = true ↔
  reserved (totals a) + physical_write_reserved a + bytes + floor ≤ free a.
Proof.
  intros Hwf Hb Hf. open_wf. unfold physical_fit, is_some_and. split.
  - destruct (_ +? _) as [n|] eqn:H1; cbn; [|done]. destruct (n +? bytes) as [m|] eqn:H2; cbn; [|done].
    destruct (m +? floor) as [k|] eqn:H3; cbn; [|done]. intros. arith.
  - intros Hle. unfold checked_add.
    rewrite !(proj2 (Z.leb_le _ _)) by lia. cbn. rewrite !(proj2 (Z.leb_le _ _)) by lia. cbn.
    rewrite !(proj2 (Z.leb_le _ _)) by lia. cbn. apply Z.leb_le. lia.
Qed.
Lemma sum_below_iff (x y n : Z) :
  0 ≤ x → 0 ≤ y → n ≤ u64_max → is_some_and (λ s, s <? n) (x +? y) = true ↔ x + y < n.
Proof.
  intros Hx Hy Hn. unfold is_some_and. destruct (x +? y) as [s|] eqn:Hs; cbn; arith.
Qed.
Lemma water_fit_iff a :
  Accounting_wf a →
  is_some_and (λ n, n <=? high_water_bytes (limits a))
    (n ← t_bytes (totals a) +? reserved (totals a); n +? RESERVATION) = true ↔
  t_bytes (totals a) + reserved (totals a) + RESERVATION ≤ high_water_bytes (limits a).
Proof.
  intros Hwf. open_wf. assert (0 < RESERVATION) by done. unfold is_some_and. split.
  - destruct (_ +? _) as [n|] eqn:H1; cbn; [|done]. destruct (n +? _) as [m|] eqn:H2; cbn; [|done].
    intros. arith.
  - intros Hle. unfold checked_add.
    rewrite !(proj2 (Z.leb_le _ _)) by lia. cbn. rewrite !(proj2 (Z.leb_le _ _)) by lia. cbn.
    apply Z.leb_le. lia.
Qed.

(** The conditions for room, in unbounded arithmetic. *)
Definition global_room a : Prop :=
  fenced a = false ∧ admission_free_bytes (limits a) ≤ free a ∧
  reserved (totals a) + physical_write_reserved a + RESERVATION +
    maintenance_free_bytes (limits a) ≤ free a ∧
  t_bytes (totals a) + reserved (totals a) + RESERVATION ≤ high_water_bytes (limits a) ∧
  unknown (totals a) + uncovered (totals a) < unknown_instance (limits a).

Lemma globally_ready_iff a : Accounting_wf a → globally_ready a = true ↔ global_room a.
Proof.
  intros Hwf. unfold globally_ready, global_room.
  rewrite !andb_true_iff, negb_true_iff, Z.leb_le, physical_fit_iff, water_fit_iff, sum_below_iff
    by (done || open_wf; lia).
  tauto.
Qed.

(** An execution may be admitted exactly when, in unbounded arithmetic, the accounting is not
    fenced, the free space is above the admission floor and holds every reservation, every write
    under way, one more completion and the maintenance floor, the high-water mark leaves room for
    one more completion, and the unknown obligations that could arise stay below the instance and
    the tenant limit. Overflow of the checked sums never admits and never refuses wrongly. *)
Theorem ready_iff a n u :
  Accounting_wf a → 0 ≤ n → 0 ≤ u →
  ready a n u = true ↔ global_room a ∧ n + u < unknown_tenant (limits a).
Proof.
  intros Hwf Hn Hu. unfold ready.
  rewrite andb_true_iff, globally_ready_iff, sum_below_iff by (done || open_wf; lia). done.
Qed.

(** Archiving starts before the store is full: it is needed exactly when something is stored
    inline and bytes plus reservations have reached three quarters of the high-water mark, or the
    next completion would not fit below it; so an admission that only the high-water mark refuses
    always finds archiving requested. *)
Theorem archive_needed_iff a :
  Accounting_wf a →
  archive_needed a = true ↔
  t_bytes (totals a) ≠ 0 ∧
  (3 * high_water_bytes (limits a) ≤ 4 * (t_bytes (totals a) + reserved (totals a)) ∨
   high_water_bytes (limits a) < t_bytes (totals a) + reserved (totals a) + RESERVATION).
Proof.
  intros Hwf. open_wf. unfold archive_needed. rewrite andb_true_iff, negb_true_iff, Z.eqb_neq.
  set (h := high_water_bytes (limits a)) in *. assert (0 < RESERVATION) by done.
  pose proof (Z.div_mod h 4 ltac:(done)). pose proof (Z.mod_pos_bound h 4 ltac:(done)).
  apply and_iff_compat_l. unfold is_none_or.
  destruct (_ +? _) as [used|] eqn:Hu; cbn; arith.
  rewrite orb_true_iff, Z.leb_le. destruct (_ +? _) as [next|] eqn:Hn; cbn; arith.
Qed.

Lemma Accounting_reserve_ok a n u a' :
  Accounting_reserve a n u = Ok a' →
  ready a n u = true ∧
  a' = set_totals a {|
    reserved := reserved (totals a) + RESERVATION; t_bytes := t_bytes (totals a);
    history_bytes := history_bytes (totals a); history_rows := history_rows (totals a);
    oauth_bytes := oauth_bytes (totals a); unknown := unknown (totals a);
    uncovered := uncovered (totals a) + 1; live := live (totals a) + 1;
    repair_reserved := repair_reserved (totals a); repair_live := repair_live (totals a) |} ∧
  reserved (totals a) + RESERVATION ≤ u64_max ∧ live (totals a) + 1 ≤ u64_max ∧
  uncovered (totals a) + 1 ≤ u64_max.
Proof. unfold Accounting_reserve. intros. res_inv. arith. done. Qed.
Lemma Accounting_reserve_repair_ok a bytes rows unc a' charged :
  Accounting_reserve_repair a bytes rows unc = Ok (a', charged) →
  charged = rows * ROW_OVERHEAD + bytes ∧ fenced a = false ∧ unc ≤ rows ∧
  a' = set_totals a {|
    reserved := reserved (totals a) + charged; t_bytes := t_bytes (totals a);
    history_bytes := history_bytes (totals a); history_rows := history_rows (totals a);
    oauth_bytes := oauth_bytes (totals a); unknown := unknown (totals a);
    uncovered := uncovered (totals a) + unc; live := live (totals a) + rows;
    repair_reserved := repair_reserved (totals a) + charged;
    repair_live := repair_live (totals a) + rows |} ∧
  reserved (totals a) + charged ≤ u64_max ∧ live (totals a) + rows ≤ u64_max ∧
  uncovered (totals a) + unc ≤ u64_max ∧ repair_reserved (totals a) + charged ≤ u64_max ∧
  repair_live (totals a) + rows ≤ u64_max.
Proof.
  unfold Accounting_reserve_repair. intros. res_inv.
  match goal with H : (_ ≫= _) = Some _ |- _ => apply bind_Some in H as (? & ? & ?) end.
  arith. split_and!; done || lia.
Qed.
Lemma refresh_free_cases fs a :
  refresh_free fs a = a ∨ (∃ f, refresh_free fs a = set_free a f) ∨ refresh_free fs a = set_fenced a.
Proof. unfold refresh_free. repeat case_match; eauto. Qed.
Lemma refresh_free_totals fs a :
  totals (refresh_free fs a) = totals a ∧ limits (refresh_free fs a) = limits a ∧
  physical_write_reserved (refresh_free fs a) = physical_write_reserved a ∧
  volume (refresh_free fs a) = volume a ∧ (fenced a = true → fenced (refresh_free fs a) = true).
Proof. destruct (refresh_free_cases fs a) as [->|[[f ->]| ->]]; split_and!; done. Qed.
Lemma observed_cases a active r :
  observed a active = Some r ↔
  r = (reserved (totals a), t_bytes (totals a), live (totals a), unknown (totals a)) ∧
  repair_live (totals a) ≤ live (totals a) ∧ uncovered (totals a) ≤ live (totals a) ∧
  live (totals a) - repair_live (totals a) ≤ active ∧
  (live (totals a) - repair_live (totals a)) * RESERVATION + repair_reserved (totals a)
    = reserved (totals a) ∧
  (live (totals a) - repair_live (totals a)) * RESERVATION ≤ u64_max ∧
  reserved (totals a) ≤ u64_max ∧
  repair_live (totals a) * ROW_OVERHEAD ≤ u64_max ∧
  repair_live (totals a) * ROW_OVERHEAD ≤ repair_reserved (totals a).
Proof.
  unfold observed. split.
  - intros Ho. apply bind_Some in Ho as (e & He & Ho).
    destruct (_ || _) eqn:Hor in Ho; [done|]. apply bind_Some in Ho as (n & Hn & Ho).
    apply bind_Some in Ho as (m & Hm & Ho). destruct (negb _) eqn:Hneg in Ho; [done|].
    apply bind_Some in Ho as (k & Hk & Ho). destruct (_ <? k) eqn:Hlt in Ho; [done|].
    injection Ho as <-. arith. split_and!; done || lia.
  - intros (-> & ? & ? & ? & ? & ? & ? & ? & ?). apply bind_Some. eexists.
    split; [by apply checked_sub_Some|].
    rewrite (proj2 (Z.ltb_ge _ _)), (proj2 (Z.ltb_ge _ _)) by lia. cbn [orb].
    apply bind_Some. eexists. split; [by apply checked_mul_Some|].
    apply bind_Some. eexists. split; [apply checked_add_Some; split; [done|lia]|].
    rewrite (proj2 (Z.eqb_eq _ _)) by lia. cbn [negb]. apply bind_Some. eexists.
    split; [by apply checked_mul_Some|]. by rewrite (proj2 (Z.ltb_ge _ _)) by lia.
Qed.
End accounting_lemmas.
