(* ===== verification/TenancyState.v ===== *)
(** The locked state of tenant admission and its methods: counts per tenant, live executions, the
    waiting queue and the receipt accounting ([State] of [apps/tenancy/admission.rs] and of
    [apps/tenancy/admission/unknown.rs]). An [Arc] is an identity: a [Completion] lives in the heap
    [Arcs] and a [Waiter] carries its own. *)
From stdpp Require Import base list strings gmap sorting.
From Stdlib Require Import ZArith Lia.
From S2P Require Import Prelude MapSum TenancyCapacity.
Open Scope Z_scope.

(** ** Data *)

Definition TenantId := string.
Definition ExecutionId := string.
(** [obligations::Key] *)
Record Key := { key_tenant : TenantId; key_execution : ExecutionId }.
#[export] Instance Key_eq_dec : EqDecision Key.
Proof. solve_decision. Defined.
#[export] Instance Key_countable : Countable Key.
Proof.
  refine (inj_countable' (λ k, (key_tenant k, key_execution k))
    (λ p, {| key_tenant := p.1; key_execution := p.2 |}) _). by intros [].
Defined.

(** An [Arc<Completion>] is its address in the heap. *)
Record Completion := { c_execution : option ExecutionId; done : bool }.
Definition Completion_default : Completion := {| c_execution := None; done := false |}.
Notation Arcs := (gmap Z Completion).
Definition completion (arcs : Arcs) (owner : Z) : Completion :=
  default Completion_default (arcs !! owner).
(** [owner.done.store(true)] *)
Definition set_done (arcs : Arcs) (owner : Z) : Arcs :=
  <[owner := {| c_execution := c_execution (completion arcs owner); done := true |}]> arcs.

Record Live := {
  owner : Z; covered : bool; pending : bool; dropped : bool; repair : bool; published : bool }.
Record Counts := {
  c_unknown : option Z; c_uncovered : Z; pins : Z; repairs : Z; c_learning : Z; c_active : Z;
  queued : Z }.
Definition Counts_default : Counts := {|
  c_unknown := None; c_uncovered := 0; pins := 0; repairs := 0; c_learning := 0; c_active := 0;
  queued := 0 |}.
Record Waiter := { waiter_id : Z; w_tenant : TenantId; active_limit : Z; deadline : Z }.
Record Profile := {
  p_tenant_active : Z; p_tenant_queue : Z; p_instance_active : Z; p_instance_queue : Z }.

Record State := {
  closed : bool; active : Z; learning : Z; ingress : Z; ingress_bytes : Z;
  tenants : gmap TenantId Counts; executions : gmap Key Live; unknown_generation : Z;
  publication_pending : option Z; queue : list Waiter; receipts : Accounting }.
Definition State_configured (r : Receipts) : State := {|
  closed := false; active := 0; learning := 0; ingress := 0; ingress_bytes := 0; tenants := ∅;
  executions := ∅; unknown_generation := 0; publication_pending := None; queue := [];
  receipts := Accounting_configured r |}.

(** Assignments to fields of [self]. *)
Definition set_closed (st : State) : State := {|
  closed := true; active := active st; learning := learning st; ingress := ingress st;
  ingress_bytes := ingress_bytes st; tenants := tenants st; executions := executions st;
  unknown_generation := unknown_generation st; publication_pending := publication_pending st;
  queue := queue st; receipts := receipts st |}.
Definition set_active (st : State) (n : Z) : State := {|
  closed := closed st; active := n; learning := learning st; ingress := ingress st;
  ingress_bytes := ingress_bytes st; tenants := tenants st; executions := executions st;
  unknown_generation := unknown_generation st; publication_pending := publication_pending st;
  queue := queue st; receipts := receipts st |}.
Definition set_learning (st : State) (n : Z) : State := {|
  closed := closed st; active := active st; learning := n; ingress := ingress st;
  ingress_bytes := ingress_bytes st; tenants := tenants st; executions := executions st;
  unknown_generation := unknown_generation st; publication_pending := publication_pending st;
  queue := queue st; receipts := receipts st |}.
Definition set_ingress (st : State) (n b : Z) : State := {|
  closed := closed st; active := active st; learning := learning st; ingress := n;
  ingress_bytes := b; tenants := tenants st; executions := executions st;
  unknown_generation := unknown_generation st; publication_pending := publication_pending st;
  queue := queue st; receipts := receipts st |}.
Definition set_tenants (st : State) (m : gmap TenantId Counts) : State := {|
  closed := closed st; active := active st; learning := learning st; ingress := ingress st;
  ingress_bytes := ingress_bytes st; tenants := m; executions := executions st;
  unknown_generation := unknown_generation st; publication_pending := publication_pending st;
  queue := queue st; receipts := receipts st |}.
Definition set_executions (st : State) (m : gmap Key Live) : State := {|
  closed := closed st; active := active st; learning := learning st; ingress := ingress st;
  ingress_bytes := ingress_bytes st; tenants := tenants st; executions := m;
  unknown_generation := unknown_generation st; publication_pending := publication_pending st;
  queue := queue st; receipts := receipts st |}.
Definition set_publication (st : State) (g : Z) (p : option Z) : State := {|
  closed := closed st; active := active st; learning := learning st; ingress := ingress st;
  ingress_bytes := ingress_bytes st; tenants := tenants st; executions := executions st;
  unknown_generation := g; publication_pending := p; queue := queue st; receipts := receipts st |}.
Definition set_queue (st : State) (q : list Waiter) : State := {|
  closed := closed st; active := active st; learning := learning st; ingress := ingress st;
  ingress_bytes := ingress_bytes st; tenants := tenants st; executions := executions st;
  unknown_generation := unknown_generation st; publication_pending := publication_pending st;
  queue := q; receipts := receipts st |}.
Definition set_receipts (st : State) (a : Accounting) : State := {|
  closed := closed st; active := active st; learning := learning st; ingress := ingress st;
  ingress_bytes := ingress_bytes st; tenants := tenants st; executions := executions st;
  unknown_generation := unknown_generation st; publication_pending := publication_pending st;
  queue := queue st; receipts := a |}.

(** [tenants.get(tenant)] with the counts of an absent tenant, and
    [*tenants.entry(tenant).or_default() = f(counts)]. *)
Definition counts_of (st : State) (tenant : TenantId) : Counts :=
  default Counts_default (tenants st !! tenant).
Definition entry_update (st : State) (tenant : TenantId) (f : Counts → Counts) : State :=
  set_tenants st (<[tenant := f (counts_of st tenant)]> (tenants st)).
(** [if let Some(counts) = tenants.get_mut(tenant) { *counts = f(counts) }] *)
Definition get_mut (st : State) (tenant : TenantId) (f : Counts → Counts) : State :=
  set_tenants st (alter f tenant (tenants st)).

Definition with_unknown (n : option Z) (c : Counts) : Counts := {|
  c_unknown := n; c_uncovered := c_uncovered c; pins := pins c; repairs := repairs c;
  c_learning := c_learning c; c_active := c_active c; queued := queued c |}.
Definition with_uncovered (n : Z) (c : Counts) : Counts := {|
  c_unknown := c_unknown c; c_uncovered := n; pins := pins c; repairs := repairs c;
  c_learning := c_learning c; c_active := c_active c; queued := queued c |}.
Definition with_pins (n : Z) (c : Counts) : Counts := {|
  c_unknown := c_unknown c; c_uncovered := c_uncovered c; pins := n; repairs := repairs c;
  c_learning := c_learning c; c_active := c_active c; queued := queued c |}.
Definition with_repairs (n : Z) (c : Counts) : Counts := {|
  c_unknown := c_unknown c; c_uncovered := c_uncovered c; pins := pins c; repairs := n;
  c_learning := c_learning c; c_active := c_active c; queued := queued c |}.
Definition with_learning (n : Z) (c : Counts) : Counts := {|
  c_unknown := c_unknown c; c_uncovered := c_uncovered c; pins := pins c; repairs := repairs c;
  c_learning := n; c_active := c_active c; queued := queued c |}.
Definition with_active (n : Z) (c : Counts) : Counts := {|
  c_unknown := c_unknown c; c_uncovered := c_uncovered c; pins := pins c; repairs := repairs c;
  c_learning := c_learning c; c_active := n; queued := queued c |}.
Definition with_queued (n : Z) (c : Counts) : Counts := {|
  c_unknown := c_unknown c; c_uncovered := c_uncovered c; pins := pins c; repairs := repairs c;
  c_learning := c_learning c; c_active := c_active c; queued := n |}.

(** ** Methods *)

Definition Counts_idle (c : Counts) : bool :=
  if negb (c_learning c =? 0) then false else
  (c_active c =? 0) && (queued c =? 0) && (pins c =? 0) && (repairs c =? 0).

Section methods.
Implicit Types (st : State) (tenant : TenantId).

Definition idle st tenant : State :=
  if is_some_and Counts_idle (tenants st !! tenant)
  then set_tenants st (delete tenant (tenants st)) else st.
Definition unqueue st tenant : State :=
  idle (get_mut st tenant (λ c, with_queued (queued c -% 1) c)) tenant.
Definition remove st (waiter : Waiter) : State :=
  match list_find (λ w, waiter_id w = waiter_id waiter) (queue st) with
  | Some (index, _) => unqueue (set_queue st (delete index (queue st))) (w_tenant waiter)
  | None => st
  end.

(** The loop of [expire]; [None] means that [fuel] ran out ([expire_terminates]). *)
Fixpoint expire_loop (fuel : nat) (now : Z) st (index : nat) (wake : list Waiter) :
    option (State * list Waiter) :=
  match fuel with
  | O => None
  | S fuel =>
      match queue st !! index with
      | None => Some (st, wake)
      | Some waiter =>
          if deadline waiter <=? now
          then expire_loop fuel now
                 (unqueue (set_queue st (delete index (queue st))) (w_tenant waiter))
                 index (wake ++ [waiter])
          else expire_loop fuel now st (S index) wake
      end
  end.
Definition expire st (now : Z) : State * list Waiter :=
  default (st, []) (expire_loop (S (length (queue st))) now st 0 []).

Definition tenant_unknown st tenant : option Z :=
  match tenants st !! tenant ≫= c_unknown with
  | Some n => Some n
  | None => if unknown (totals (receipts st)) =? 0 then Some 0 else None
  end.
Definition receipts_ready st tenant : bool :=
  bool_decide (publication_pending st = None) &&
  is_some_and (λ unknown, ready (receipts st) unknown (c_uncovered (counts_of st tenant)))
    (tenant_unknown st tenant).
(** [queue.iter().find(..)]; [seen.insert(t)] answers whether [t] is new and inserts it. *)
Fixpoint find_eligible st (seen : gset TenantId) (q : list Waiter) : option Waiter :=
  match q with
  | [] => None
  | waiter :: q =>
      if bool_decide (w_tenant waiter ∉ seen) && receipts_ready st (w_tenant waiter) &&
         is_some_and (λ c, c_active c <? active_limit waiter) (tenants st !! w_tenant waiter)
      then Some waiter else find_eligible st ({[w_tenant waiter]} ∪ seen) q
  end.
Definition next_eligible st (profile : Profile) : option Waiter :=
  if closed st || (p_instance_active profile <=? active st) then None
  else find_eligible st ∅ (queue st).
Definition State_reserve st tenant : result ErrorCode State :=
  unknown ← ok_or (tenant_unknown st tenant) AuthorityUnavailable;
  let uncovered := c_uncovered (counts_of st tenant) in
  next_uncovered ← ok_or (uncovered +? 1) CapacityExceeded;
  receipts ← Accounting_reserve (receipts st) unknown uncovered;
  let st := set_receipts st receipts in
  let st := entry_update st tenant (λ c, with_uncovered next_uncovered (with_unknown (Some unknown) c)) in
  let st := set_active st (active st +% 1) in
  Ok (entry_update st tenant (λ c, with_active (c_active c +% 1) c)).
Definition drained st : bool :=
  if negb (learning st =? 0) then false else
  (active st =? 0) && bool_decide (queue st = []).

Definition unknown_available st (maintenance : bool) : result ErrorCode unit :=
  _ ← ensure (negb ((closed st && negb maintenance) || is_some (publication_pending st)
                    || fenced (receipts st))) AuthorityUnavailable;
  ensure (maintenance || globally_ready (receipts st)) CapacityExceeded.
Definition add_pin st tenant (count : Z) : result ErrorCode State :=
  n ← ok_or (pins (counts_of st tenant) +? 1) CapacityExceeded;
  Ok (entry_update st tenant (λ c, with_unknown (Some count) (with_pins n c))).

Definition mark_dropped (l : Live) : Live := {|
  owner := owner l; covered := covered l; pending := pending l; dropped := true;
  repair := repair l; published := published l |}.
(** What the owner's entry says of a lease to be released: [None] when its publication is pending,
    [Some covered] otherwise. *)
Definition lease_entry st (arcs : Arcs) tenant (o : Z) : result ErrorCode (option (option Key * bool)) :=
  match c_execution (completion arcs o) with
  | None => Ok (Some (None, false))
  | Some execution =>
      let key := {| key_tenant := tenant; key_execution := execution |} in
      live ← ok_or (executions st !! key) AuthorityUnavailable;
      _ ← ensure (bool_decide (owner live = o) && negb (repair live) && negb (dropped live))
            AuthorityUnavailable;
      Ok (if pending live then None else Some (Some key, covered live))
  end.
Definition release_totals (t : Totals) (uncov : bool) : result ErrorCode Totals :=
  l ← ok_or (live t -? 1) AuthorityUnavailable;
  r ← ok_or (reserved t -? RESERVATION) AuthorityUnavailable;
  u ← if uncov then ok_or (uncovered t -? 1) AuthorityUnavailable else Ok (uncovered t);
  Ok {| reserved := r; t_bytes := t_bytes t; history_bytes := history_bytes t;
        history_rows := history_rows t; oauth_bytes := oauth_bytes t; unknown := unknown t;
        uncovered := u; live := l; repair_reserved := repair_reserved t;
        repair_live := repair_live t |}.
Definition release_lease st (arcs : Arcs) tenant (o : Z) : result ErrorCode (State * Arcs) :=
  entry ← lease_entry st arcs tenant o;
  match entry with
  | None =>
      let execution := default "" (c_execution (completion arcs o)) in
      Ok (set_executions st (alter mark_dropped
            {| key_tenant := tenant; key_execution := execution |} (executions st)), arcs)
  | Some (key, covered) =>
      counts ← ok_or (tenants st !! tenant) AuthorityUnavailable;
      act ← ok_or (active st -? 1) AuthorityUnavailable;
      tenant_active ← ok_or (c_active counts -? 1) AuthorityUnavailable;
      let finished := done (completion arcs o) in
      next ← if finished then Ok (totals (receipts st))
             else release_totals (totals (receipts st)) (negb covered);
      uncov ← if finished || covered then Ok (c_uncovered counts)
              else ok_or (c_uncovered counts -? 1) AuthorityUnavailable;
      let st := set_active (set_receipts st (set_totals (receipts st) next)) act in
      let st := get_mut st tenant (λ c, with_uncovered uncov (with_active tenant_active c)) in
      let st := match key with
                | Some key => set_executions st (delete key (executions st)) | None => st end in
      Ok (idle st tenant, set_done arcs o)
  end.
End methods.
