(* ===== verification/TenancyAdmission.v ===== *)
(** The admission controller ([Admission] of [apps/tenancy/admission.rs]): every public operation
    as a transaction under the mutex, run by [update], which refreshes the free space, expires
    waiters, applies the change and wakes whom the new state can serve. *)
From stdpp Require Import base list strings gmap sorting.
From Stdlib Require Import ZArith Lia.
From S2P Require Import Prelude MapSum TenancyCapacity TenancyState.
Open Scope Z_scope.

(** Technical limits of a tenant ([crates/bitrouter-ai/src/tenancy/configuration.rs]). *)
Record Limits := { active_executions : Z; queued_work : Z; learning_jobs : Z }.

(** The immutable fields of [Admission]; [admission_id] is the address of its [Arc]. *)
Record Admission := {
  profile : Profile; ingress_limits : Ingress; queue_wait : Z; admission_id : Z }.
(** What is behind the mutex and the atomics, with the heap of completions and the next unused
    address. *)
Record World := {
  state : State; arcs : Arcs; fresh : Z; receipt_fenced : bool; poisoned : bool }.

Definition Profile_of (e : Execution) : Profile := {|
  p_tenant_active := tenant_active e; p_tenant_queue := tenant_queue e;
  p_instance_active := instance_active e; p_instance_queue := instance_queue e |}.
Definition configured (config : CapacityConfig) (id : Z) : Admission * World :=
  let st := State_configured (receipts_config config) in
  ({| profile := Profile_of (execution config); ingress_limits := ingress_config config;
      queue_wait := queue_wait_ms (execution config); admission_id := id |},
   {| state := st; arcs := ∅; fresh := 0; receipt_fenced := fenced (receipts st);
      poisoned := false |}).

Definition set_state (w : World) (st : State) : World := {|
  state := st; arcs := arcs w; fresh := fresh w; receipt_fenced := receipt_fenced w;
  poisoned := poisoned w |}.
Definition set_heap (w : World) (st : State) (h : Arcs) : World := {|
  state := st; arcs := h; fresh := fresh w; receipt_fenced := receipt_fenced w;
  poisoned := poisoned w |}.
Definition set_fence_flag (w : World) : World := {|
  state := state w; arcs := arcs w; fresh := fresh w; receipt_fenced := true;
  poisoned := poisoned w |}.
(** [Arc::new(..)] takes an unused address. *)
Definition take_fresh (w : World) : World := {|
  state := state w; arcs := arcs w; fresh := fresh w + 1; receipt_fenced := receipt_fenced w;
  poisoned := poisoned w |}.
Definition fence_state (st : State) : State := set_receipts st (set_fenced (receipts st)).

(** What a closure given to [update] may read besides the state: the probed volumes, the clock
    when waiters are expired and the clock inside the closure. *)
Record Env := { volumes : Volumes; expire_now : Z; change_now : Z }.

(** A change that validates before it assigns: on an error the state is as it was. *)
Definition attempt {A} (f : World → result ErrorCode (World * A)) (w : World) :
    World * result ErrorCode A :=
  match f w with Ok (w, a) => (w, Ok a) | Err e => (w, Err e) end.

Definition lock (w : World) : World :=
  if poisoned w then set_state w (fence_state (set_closed (state w))) else w.
(** [while let Some(waiter) = queue.pop_front() { unqueue(..); wake.push(waiter) }] *)
Fixpoint pop_all (st : State) (q : list Waiter) : State :=
  match q with [] => st | waiter :: q => pop_all (unqueue (set_queue st q) (w_tenant waiter)) q end.

(** The part of [update] before and after the change. *)
Definition update_begin (e : Env) (w : World) : World * list Waiter :=
  let w := lock w in
  let st := set_receipts (state w) (refresh_free (volumes e) (receipts (state w))) in
  let '(st, wake) := expire st (expire_now e) in
  (set_state w st, wake).
Definition update_end (p : Profile) (w : World) (wake : list Waiter) : World * list Waiter * bool :=
  let '(st, wake) :=
    if closed (state w) then (pop_all (state w) (queue (state w)), wake ++ queue (state w))
    else (state w, wake ++ option_list (next_eligible (state w) p)) in
  let w := set_state w st in
  let w := if fenced (receipts st) then set_fence_flag w else w in
  (w, wake, drained st).
(** The result, with the waiters that are notified and whether the drain is signalled. *)
Definition update {A} (adm : Admission) (e : Env) (w : World) (change : World → World * A) :
    World * A * list Waiter * bool :=
  let '(w, wake) := update_begin e w in
  let '(w, r) := change w in
  let '(w, wake, d) := update_end (profile adm) w wake in
  (w, r, wake, d).

(** ** The changes of the public operations *)

Section changes.
Context (adm : Admission).
Implicit Types (w : World) (tenant : TenantId).

(** *** Receipts *)
Definition reserve_physical_write (bytes : Z) (maintenance : bool) : World → World * result ErrorCode unit :=
  attempt (λ w,
    _ ← ensure (bool_decide (publication_pending (state w) = None)) AuthorityUnavailable;
    a ← TenancyCapacity.reserve_physical_write (receipts (state w)) bytes maintenance;
    Ok (set_state w (set_receipts (state w) a), tt)).
Definition finish_physical_write (bytes : Z) w : World * result ErrorCode unit :=
  let '(a, r) := TenancyCapacity.finish_physical_write (receipts (state w)) bytes in
  (set_state w (set_receipts (state w) a), r).
Definition fence_receipts w : World * unit := (set_state w (fence_state (state w)), tt).
Definition archived (t : Totals) (bytes history_bytes_ : Z) : option Totals :=
  remaining ← t_bytes t -? bytes;
  hb ← history_bytes t +? history_bytes_;
  hr ← history_rows t +? 1;
  Some {| reserved := reserved t; t_bytes := remaining; history_bytes := hb; history_rows := hr;
          oauth_bytes := oauth_bytes t; unknown := unknown t; uncovered := uncovered t;
          live := live t; repair_reserved := repair_reserved t; repair_live := repair_live t |}.
Definition archive_receipt (bytes history_bytes_ : Z) w : World * result ErrorCode unit :=
  match archived (totals (receipts (state w))) bytes history_bytes_ with
  | Some t => (set_state w (set_receipts (state w) (set_totals (receipts (state w)) t)), Ok tt)
  | None => (set_state w (fence_state (state w)), Err AuthorityUnavailable)
  end.
Definition initialize_receipts (inventory : Inventory) (free : Z) : World → World * result ErrorCode unit :=
  attempt (λ w,
    let st := state w in
    _ ← ensure (bool_decide (publication_pending st = None) && bool_decide (tenants st = ∅) &&
                (unknown_generation st =? 0)) AuthorityUnavailable;
    a ← initialize (receipts st) inventory free;
    Ok (set_state w (set_receipts st a), tt)).
Definition bind_receipt_volume (e : Env) (v : option string) w : World * result ErrorCode unit :=
  let '(a, r) := bind_volume (volumes e) (receipts (state w)) v in
  (set_state w (set_receipts (state w) a), r).
Definition receipt_probe (free : Z) w : World * unit :=
  (set_state w (set_receipts (state w) (observed_free (receipts (state w)) free)), tt).
Definition stop_receipt_admission w : World * unit :=
  (set_fence_flag (set_state w (set_closed (state w))), tt).

(** *** Observations: no [update], so neither expiry nor wakes *)
Definition archive_needed w : result ErrorCode bool :=
  _ ← ensure (negb (poisoned w)) AuthorityUnavailable;
  _ ← ensure (bool_decide (publication_pending (state w) = None)) AuthorityUnavailable;
  if fenced (receipts (state w)) then Ok false
  else Ok (TenancyCapacity.archive_needed (receipts (state w))).
Definition has_live_execution (key : Key) w : result ErrorCode bool :=
  _ ← ensure (negb (poisoned w)) AuthorityUnavailable;
  _ ← ensure (negb (fenced (receipts (state w)))) AuthorityUnavailable;
  Ok (is_some (executions (state w) !! key)).
Definition receipts_ready w : bool := negb (receipt_fenced w) && negb (poisoned w).

(** *** Ingress *)
Definition MAX_INGRESS : Z := 16 * 1024 * 1024.
Definition ingress_change (bytes : Z) : World → World * result ErrorCode Z :=
  attempt (λ w,
    let st := state w in
    _ ← ensure (negb (closed st)) AuthorityUnavailable;
    total ← ok_or (ingress_bytes st +? bytes) CapacityExceeded;
    _ ← ensure (negb ((requests (ingress_limits adm) <=? ingress st) ||
                      (ingress_limit (ingress_limits adm) <? total))) CapacityExceeded;
    Ok (set_state w (set_ingress st (ingress st +% 1) total), bytes)).
Definition ingress_drop (bytes : Z) w : World * unit :=
  (set_state w (set_ingress (state w) (ingress (state w) -| 1) (ingress_bytes (state w) -| bytes)), tt).

(** *** Executions *)
Record Lease := { l_tenant : TenantId; l_completion : Z }.
Inductive Registration := Active | Queued (waiter : Waiter).

Definition grant (tenant : TenantId) w : World * Lease :=
  (take_fresh (set_heap w (state w) (<[fresh w := Completion_default]> (arcs w))),
   {| l_tenant := tenant; l_completion := fresh w |}).
Definition effective_active (limits : Limits) : Z :=
  Z.min (active_executions limits) (p_tenant_active (profile adm)).
Definition effective_queue (limits : Limits) : Z :=
  Z.min (queued_work limits) (p_tenant_queue (profile adm)).
(** [request_deadline.min(Instant::now() + queue_wait)] *)
Definition effective_deadline (request_deadline now : Z) : Z :=
  Z.min request_deadline (now + queue_wait adm).
Definition may_enter (st : State) tenant (limit : Z) : bool :=
  (c_active (counts_of st tenant) <? limit) &&
  (active st <? p_instance_active (profile adm)) &&
  (queued (counts_of st tenant) =? 0) &&
  bool_decide (next_eligible st (profile adm) = None).
Definition register (tenant : TenantId) (active_limit queue_limit deadline now : Z) :
    World → World * result ErrorCode Registration :=
  attempt (λ w,
    let st := state w in
    _ ← ensure (negb (closed st)) AuthorityUnavailable;
    _ ← ensure (negb (deadline <=? now)) CapacityExceeded;
    _ ← ensure (TenancyState.receipts_ready st tenant) CapacityExceeded;
    _ ← ensure (negb ((active_limit =? 0) || (p_instance_active (profile adm) =? 0)))
          CapacityExceeded;
    if may_enter st tenant active_limit then
      st ← State_reserve st tenant;
      Ok (set_state w st, Active)
    else
      _ ← ensure (negb ((queue_limit <=? queued (counts_of st tenant)) ||
                        (p_instance_queue (profile adm) <=? Z.of_nat (length (queue st)))))
            CapacityExceeded;
      let waiter := {| waiter_id := fresh w; w_tenant := tenant; active_limit := active_limit;
                       deadline := deadline |} in
      let st := entry_update st tenant (λ c, with_queued (queued c +% 1) c) in
      Ok (take_fresh (set_state w (set_queue st (queue st ++ [waiter]))), Queued waiter)).
(** One turn of the waiting loop: whether the slot was taken. *)
Definition poll (waiter : Waiter) (now : Z) : World → World * result ErrorCode bool :=
  attempt (λ w,
    let st := state w in
    _ ← ensure (negb (closed st)) AuthorityUnavailable;
    _ ← ensure (negb (deadline waiter <=? now)) CapacityExceeded;
    if is_some_and (λ next, waiter_id next =? waiter_id waiter) (next_eligible st (profile adm))
    then st ← State_reserve st (w_tenant waiter); Ok (set_state w (remove st waiter), true)
    else Ok (w, false)).
Definition queued_drop (waiter : Waiter) w : World * unit :=
  (set_state w (remove (state w) waiter), tt).
Definition try_acquire (tenant : TenantId) (limits : Limits) (deadline now : Z) :
    World → World * result ErrorCode Lease :=
  attempt (λ w,
    let st := state w in
    _ ← ensure (negb (closed st)) AuthorityUnavailable;
    _ ← ensure (negb ((deadline <=? now) || negb (TenancyState.receipts_ready st tenant) ||
                      negb (may_enter st tenant (effective_active limits)))) CapacityExceeded;
    st ← State_reserve st tenant;
    Ok (grant tenant (set_state w st))).
Definition lease_drop (lease : Lease) w : World * unit :=
  match release_lease (state w) (arcs w) (l_tenant lease) (l_completion lease) with
  | Ok (st, h) => (set_heap w st h, tt)
  | Err _ => (set_state w (fence_state (state w)), tt)
  end.
(** *** Shutdown and learning *)
Definition close w : World * unit := (set_state w (set_closed (state w)), tt).
Definition learning_change (tenant : TenantId) (maximum : Z) : World → World * result ErrorCode TenantId :=
  attempt (λ w,
    let st := state w in
    _ ← ensure (negb (closed st)) AuthorityUnavailable;
    let limit := Z.min maximum 2 in
    _ ← ensure (negb ((8 <=? learning st) || (limit <=? c_learning (counts_of st tenant))))
          CapacityExceeded;
    let st := set_learning st (learning st +% 1) in
    Ok (set_state w (entry_update st tenant (λ c, with_learning (c_learning c +% 1) c)), tenant)).
Definition learning_drop (tenant : TenantId) w : World * unit :=
  let st := set_learning (state w) (learning (state w) -| 1) in
  let st := get_mut st tenant (λ c, with_learning (c_learning c -| 1) c) in
  (set_state w (idle st tenant), tt).
End changes.

(** [Admission::ingress]: the ceiling of one request comes before the mutex. *)
Definition open_ingress (adm : Admission) (e : Env) (bytes : Z) (w : World) :
    World * result ErrorCode Z * list Waiter * bool :=
  if MAX_INGRESS <? bytes then (w, Err PayloadTooLarge, [], false)
  else update adm e w (ingress_change adm bytes).

(** [Lease::confirm_receipt]: unless the completion is done, the storage is fenced. *)
Definition confirm_receipt (adm : Admission) (e : Env) (lease : Lease) (w : World) :
    World * result ErrorCode unit * list Waiter * bool :=
  if done (completion (arcs w) (l_completion lease)) then (w, Ok tt, [], false)
  else let '(w, _, wake, d) := update adm e w fence_receipts in
       (w, Err AuthorityUnavailable, wake, d).

(** ** The numeric observation ([observed_capacity], and [Snapshot] of
    [apps/telemetry/receipt_latency/capacity.rs]) *)

Inductive ReadError := Unavailable | Invalid.
Record Snapshot := {
  s_completion_reserved : Z; s_physical_write_reserved : Z; s_observed_free : option Z;
  s_accounted : Z; s_history_bytes : Z; s_history_rows : Z; s_oauth_reserved : Z;
  s_ingress_reserved : Z; s_potential_unknown : Z; s_live_unknown : Z; s_active : Z;
  s_queued : Z; s_ingress : Z; s_closed : bool; s_fenced : bool }.

Definition snapshot_bytes (s : Snapshot) : list (string * Z) := [
  ("completion_reserved", s_completion_reserved s);
  ("physical_write_reserved", s_physical_write_reserved s);
  ("accounted", s_accounted s); ("history_bytes", s_history_bytes s);
  ("oauth_reserved", s_oauth_reserved s); ("ingress_reserved", s_ingress_reserved s)].
Definition snapshot_state (s : Snapshot) : list (string * Z) := [
  ("potential_unknown", s_potential_unknown s); ("live_unknown", s_live_unknown s);
  ("history_rows", s_history_rows s); ("active", s_active s); ("queued", s_queued s);
  ("ingress", s_ingress s); ("closed", of_bool (s_closed s)); ("fenced", of_bool (s_fenced s));
  ("available", 1); ("volume_available", of_bool (is_some (s_observed_free s)))].
Definition Snapshot_validate (s : Snapshot) : result ReadError Snapshot :=
  if existsb (λ kv, i64_max <? kv.2) (snapshot_bytes s ++ snapshot_state s) ||
     is_none_or (λ minimum, s_completion_reserved s <? minimum)
       (s_potential_unknown s *? (16 * 1024)) ||
     ((s_potential_unknown s =? 0) && negb (s_completion_reserved s =? 0))
  then Err Invalid else Ok s.
Definition quiescent (s : Snapshot) : bool :=
  s_closed s && (s_active s =? 0) && (s_queued s =? 0) && (s_ingress s =? 0) &&
  (s_ingress_reserved s =? 0) && (s_completion_reserved s =? 0) &&
  (s_physical_write_reserved s =? 0) && (s_potential_unknown s =? 0).
(** [held]: another owner holds the mutex, so [try_lock] fails. *)
Definition observed_capacity (held : bool) (w : World) : result ReadError Snapshot :=
  _ ← ensure (negb (held || poisoned w)) Unavailable;
  let st := state w in
  let a := receipts st in
  '(completion_reserved, accounted, potential_unknown, live_unknown) ←
    ok_or (observed a (active st)) Invalid;
  Snapshot_validate {|
    s_completion_reserved := completion_reserved;
    s_physical_write_reserved := physical_write_reserved a;
    s_observed_free := observed_volume_free a; s_accounted := accounted;
    s_history_bytes := history_bytes (totals a); s_history_rows := history_rows (totals a);
    s_oauth_reserved := oauth_bytes (totals a); s_ingress_reserved := ingress_bytes st;
    s_potential_unknown := potential_unknown; s_live_unknown := live_unknown;
    s_active := active st; s_queued := Z.of_nat (length (queue st)); s_ingress := ingress st;
    s_closed := closed st; s_fenced := fenced a |}.
