(* ===== verification/TenancyUnknown.v ===== *)
(** Publication of the durable unknown obligations to the admission controller, and the repair of
    stopped executions ([apps/tenancy/admission/unknown.rs] and [repair.rs]). A publication is
    prepared before a transaction commits and published, or rolled back, after it. *)
From stdpp Require Import base list strings gmap sorting.
From Stdlib Require Import ZArith Lia.
From S2P Require Import Prelude MapSum TenancyCapacity TenancyState TenancyAdmission.
Open Scope Z_scope.

(** ** Data *)

(** What a transaction is known to have done ([apps/tenancy/transaction.rs]). *)
Inductive Disposition := NoTransaction | Pending | RolledBack | Committed | Ambiguous.
#[export] Instance Disposition_eq_dec : EqDecision Disposition.
Proof. solve_decision. Defined.
Record Proof_ := { proof_live : bool; disposition : Disposition }.
(** [Proof::record]: an ambiguous outcome is final. *)
Definition record (p : Proof_) (d : Disposition) : Proof_ := {|
  proof_live := if bool_decide (d = Ambiguous) then false else proof_live p;
  disposition := if bool_decide (disposition p = Ambiguous) then disposition p else d |}.
Definition quarantine (p : Proof_) : Proof_ := record p Ambiguous.

(** [obligations::Record] and [obligations::Change]; times are seconds. *)
Record Record_ := {
  r_key : Key; source_mask : Z; first : Z; due : Z; escalated : bool }.
Record Change := { ch_key : Key; before : option Record_; after : option Record_ }.
Record Terminal := { te_key : Key; te_bytes : Z }.
Record Read := { read_admission : Z; read_generation : Z; maintenance : bool }.
Record CountPin := { pin_tenant : TenantId }.
Record Step := {
  step_key : Key; step_before : bool; step_after : bool; terminal : option Z;
  step_owner : option Z }.
Record TenantChange := {
  tc_tenant : TenantId; durable : Z; tc_uncovered : Z; next_unknown : option Z;
  next_uncovered : Z; next_active : Z }.
Record Publication := {
  token : Z; generation : Z; steps : list Step; pub_tenants : list TenantChange;
  pub_finished : bool }.
Record Repair := { rep_tenant : TenantId; charged : Z; rep_keys : list Key }.

(** [u64::try_from(i128::from(value) + delta)] *)
Definition adjust (value delta : Z) : result ErrorCode Z :=
  if bool_decide (in_u64 (value + delta)) then Ok (value + delta) else Err AuthorityUnavailable.
Definition with_owner (s : Step) (o : option Z) : Step := {|
  step_key := step_key s; step_before := step_before s; step_after := step_after s;
  terminal := terminal s; step_owner := o |}.
Definition with_next (t : TenantChange) (u : option Z) (c a : Z) : TenantChange := {|
  tc_tenant := tc_tenant t; durable := durable t; tc_uncovered := tc_uncovered t;
  next_unknown := u; next_uncovered := c; next_active := a |}.

(** ** Pins *)

Section pins.
Context (adm : Admission).
Implicit Types (w : World) (tenant : TenantId) (read : Read).

Definition check_read (st : State) read : result ErrorCode unit :=
  ensure (bool_decide (publication_pending st = None) &&
          (unknown_generation st =? read_generation read)) AuthorityUnavailable.
Definition unknown_read (maintenance : bool) : World → World * result ErrorCode Read :=
  attempt (λ w,
    _ ← unknown_available (state w) maintenance;
    Ok (w, {| read_admission := admission_id adm; read_generation := unknown_generation (state w);
              maintenance := maintenance |})).
Definition pin_unknown tenant (maintenance : bool) : World → World * result ErrorCode (option CountPin) :=
  attempt (λ w,
    _ ← unknown_available (state w) maintenance;
    match tenant_unknown (state w) tenant with
    | None => Ok (w, None)
    | Some count =>
        st ← add_pin (state w) tenant count;
        Ok (set_state w st, Some {| pin_tenant := tenant |})
    end).
Definition seed_change read tenant (count : Z) : World → World * result ErrorCode CountPin :=
  attempt (λ w,
    _ ← check_read (state w) read;
    _ ← unknown_available (state w) (maintenance read);
    _ ← ensure (negb ((unknown (totals (receipts (state w))) <? count) ||
                      is_some_and (λ old, negb (old =? count)) (tenant_unknown (state w) tenant)))
          AuthorityUnavailable;
    st ← add_pin (state w) tenant count;
    Ok (set_state w st, {| pin_tenant := tenant |})).
(** A read of another controller is refused before the mutex. *)
Definition seed_unknown (e : Env) read tenant (count : Z) w :
    World * result ErrorCode CountPin * list Waiter * bool :=
  if admission_id adm =? read_admission read then update adm e w (seed_change read tenant count)
  else (w, Err AuthorityUnavailable, [], false).
Definition pin_drop (pin : CountPin) w : World * unit :=
  let st := state w in
  let st := match tenants st !! pin_tenant pin ≫= (λ c, pins c -? 1) with
            | Some n => get_mut st (pin_tenant pin) (with_pins n)
            | None => fence_state st
            end in
  (set_state w (idle st (pin_tenant pin)), tt).

(** [Lease::bind_execution] *)
Definition bind_execution (lease : Lease) (execution : ExecutionId) : World → World * result ErrorCode unit :=
  attempt (λ w,
    let st := state w in
    let o := l_completion lease in
    _ ← ensure (negb (is_some (publication_pending st) || fenced (receipts st)
                      || done (completion (arcs w) o))) AuthorityUnavailable;
    match c_execution (completion (arcs w) o) with
    | Some old => _ ← ensure (bool_decide (old = execution)) AuthorityUnavailable; Ok (w, tt)
    | None =>
        let key := {| key_tenant := l_tenant lease; key_execution := execution |} in
        _ ← ensure (negb (is_some (executions st !! key))) AuthorityUnavailable;
        let h := <[o := {| c_execution := Some execution; done := done (completion (arcs w) o) |}]>
                   (arcs w) in
        let live := {| owner := o; covered := false; pending := false; dropped := false;
                       repair := false; published := false |} in
        Ok (set_heap w (set_executions st (<[key := live]> (executions st))) h, tt)
    end).
End pins.

(** ** Preparing a publication *)

Section prepare.
Context (adm : Admission).
Implicit Types (w : World) (st : State).

(** The checks before the mutex: terminals and changes are distinct, and each terminal belongs
    to a change. *)
Definition add_terminal (m : gmap Key Z) (t : Terminal) : result ErrorCode (gmap Key Z) :=
  _ ← ensure (negb (is_some (m !! te_key t))) AuthorityUnavailable;
  Ok (<[te_key t := te_bytes t]> m).
Definition other_key (key : Key) (r : option Record_) : bool :=
  is_some_and (λ r, negb (bool_decide (r_key r = key))) r.
Definition add_step (acc : gmap Key Z * gset Key * list Step) (change : Change) :
    result ErrorCode (gmap Key Z * gset Key * list Step) :=
  let '(terminals, seen, steps) := acc in
  let key := ch_key change in
  _ ← ensure (negb (bool_decide (key ∈ seen) || other_key key (before change)
                    || other_key key (after change))) AuthorityUnavailable;
  Ok (delete key terminals, {[key]} ∪ seen,
      steps ++ [{| step_key := key; step_before := is_some (before change);
                   step_after := is_some (after change); terminal := terminals !! key;
                   step_owner := None |}]).
Definition plan_steps (changes : list Change) (terminals : list Terminal) : result ErrorCode (list Step) :=
  terminal_map ← try_fold add_terminal ∅ terminals;
  '(rest, _, steps) ← try_fold add_step (terminal_map, ∅, []) changes;
  _ ← ensure (bool_decide (rest = ∅)) AuthorityUnavailable;
  Ok steps.

(** The owner that a step will settle, if its execution is live and not done, and its effect on
    the uncovered count. *)
Definition claim_step st (h : Arcs) (s : Step) : result ErrorCode (Step * Z) :=
  let has_bytes := is_some_and (λ bytes, negb (bytes =? 0)) (terminal s) in
  match executions st !! step_key s with
  | Some live =>
      if done (completion h (owner live)) then
        _ ← ensure (negb has_bytes) AuthorityUnavailable; Ok (s, 0)
      else
        _ ← ensure (negb (pending live || negb (eqb (covered live) (step_before s))
                          || (repair live && is_some (terminal s)))) AuthorityUnavailable;
        Ok (with_owner s (Some (owner live)),
            of_bool (negb (step_after s) && negb (is_some (terminal s)))
              - of_bool (negb (step_before s)))
  | None => _ ← ensure (negb has_bytes) AuthorityUnavailable; Ok (s, 0)
  end.
(** The loop over the steps, with the deltas (durable, uncovered) of each tenant. *)
Definition claim_next st (h : Arcs) (acc : list Step * gmap TenantId (Z * Z)) (s : Step) :
    result ErrorCode (list Step * gmap TenantId (Z * Z)) :=
  let '(claimed, deltas) := acc in
  '(s', uncov) ← claim_step st h s;
  let tenant := key_tenant (step_key s) in
  let d := default (0, 0) (deltas !! tenant) in
  Ok (claimed ++ [s'],
      <[tenant := (d.1 + (of_bool (step_after s) - of_bool (step_before s)), d.2 + uncov)]> deltas).
(** The tenants that are resident; a tenant without counts has no owner to change. *)
Definition resident st (acc : list TenantChange) (entry : TenantId * (Z * Z)) :
    result ErrorCode (list TenantChange) :=
  let '(tenant, (d, u)) := entry in
  match tenants st !! tenant with
  | Some counts =>
      _ ← ok_or (pins counts +? 1) CapacityExceeded;
      Ok (acc ++ [{| tc_tenant := tenant; durable := d; tc_uncovered := u; next_unknown := None;
                     next_uncovered := 0; next_active := 0 |}])
  | None => _ ← ensure (u =? 0) AuthorityUnavailable; Ok acc
  end.

(** *** [Publication::calculate] *)

Definition next_tenant st (finished rollback : bool) (t : TenantChange) : result ErrorCode TenantChange :=
  counts ← ok_or (tenants st !! tc_tenant t) AuthorityUnavailable;
  _ ← ensure (finished || negb (pins counts =? 0)) AuthorityUnavailable;
  u ← match c_unknown counts with
      | Some n => m ← adjust n (if rollback then 0 else durable t); Ok (Some m)
      | None => Ok None
      end;
  c ← adjust (c_uncovered counts) (if rollback then 0 else tc_uncovered t);
  Ok (with_next t u c (c_active counts)).
(** The first tenant change of [tenant] with [f] applied ([iter_mut().find(..)]). *)
Fixpoint change_tenant (tenant : TenantId) (f : TenantChange → result ErrorCode TenantChange)
    (l : list TenantChange) : result ErrorCode (list TenantChange) :=
  match l with
  | [] => Err AuthorityUnavailable
  | t :: l =>
      if bool_decide (tc_tenant t = tenant) then t ← f t; Ok (t :: l)
      else l ← change_tenant tenant f l; Ok (t :: l)
  end.
(** The local variables of the loop of [calculate]. *)
Record Sums := {
  su_tenants : list TenantChange; su_active : Z; su_durable : Z; su_uncovered : Z;
  su_release : Z; su_bytes : Z }.
Definition release_dropped (rollback : bool) (s : Step) (term : bool) (u : Sums) :
    result ErrorCode Sums :=
  act ← ok_or (su_active u -? 1) AuthorityUnavailable;
  ts ← change_tenant (key_tenant (step_key s)) (λ t,
         a ← ok_or (next_active t -? 1) AuthorityUnavailable;
         Ok (with_next t (next_unknown t) (next_uncovered t) a)) (su_tenants u);
  if term then
    Ok {| su_tenants := ts; su_active := act; su_durable := su_durable u;
          su_uncovered := su_uncovered u; su_release := su_release u; su_bytes := su_bytes u |}
  else
    release ← ok_or (su_release u +? 1) AuthorityUnavailable;
    if negb (if rollback then step_before s else step_after s) then
      ts ← change_tenant (key_tenant (step_key s)) (λ t,
             c ← ok_or (next_uncovered t -? 1) AuthorityUnavailable;
             Ok (with_next t (next_unknown t) c (next_active t))) ts;
      Ok {| su_tenants := ts; su_active := act; su_durable := su_durable u;
            su_uncovered := su_uncovered u - 1; su_release := release; su_bytes := su_bytes u |}
    else
      Ok {| su_tenants := ts; su_active := act; su_durable := su_durable u;
            su_uncovered := su_uncovered u; su_release := release; su_bytes := su_bytes u |}.
Definition terminal_bytes (bytes added : Z) : option Z :=
  n ← bytes +? added;
  if added =? 0 then Some n else n +? ROW_OVERHEAD.
Definition sum_step st (h : Arcs) (rollback : bool) (u : Sums) (s : Step) : result ErrorCode Sums :=
  let d := if rollback then 0 else of_bool (step_after s) - of_bool (step_before s) in
  let u := {| su_tenants := su_tenants u; su_active := su_active u; su_durable := su_durable u + d;
              su_uncovered := su_uncovered u; su_release := su_release u; su_bytes := su_bytes u |} in
  match step_owner s with
  | None => Ok u
  | Some o =>
      live ← ok_or (executions st !! step_key s) AuthorityUnavailable;
      _ ← ensure (bool_decide (o = owner live) && eqb (covered live) (step_before s) &&
                  negb (done (completion h o))) AuthorityUnavailable;
      let term := negb rollback && is_some (terminal s) in
      let uncov := if rollback then 0 else
        of_bool (negb (step_after s) && negb term) - of_bool (negb (step_before s)) in
      release ← if term then ok_or (su_release u +? 1) AuthorityUnavailable else Ok (su_release u);
      bytes ← if term then
                added ← ok_or (terminal s) AuthorityUnavailable;
                ok_or (terminal_bytes (su_bytes u) added) AuthorityUnavailable
              else Ok (su_bytes u);
      let u := {| su_tenants := su_tenants u; su_active := su_active u;
                  su_durable := su_durable u; su_uncovered := su_uncovered u + uncov;
                  su_release := release; su_bytes := bytes |} in
      if dropped live then
        _ ← ensure (negb (repair live)) AuthorityUnavailable;
        release_dropped rollback s term u
      else Ok u
  end.
Definition next_totals (t : Totals) (u : Sums) : result ErrorCode Totals :=
  unk ← adjust (unknown t) (su_durable u);
  unc ← adjust (uncovered t) (su_uncovered u);
  l ← ok_or (live t -? su_release u) AuthorityUnavailable;
  freed ← ok_or (su_release u *? RESERVATION) AuthorityUnavailable;
  r ← ok_or (reserved t -? freed) AuthorityUnavailable;
  b ← ok_or (t_bytes t +? su_bytes u) AuthorityUnavailable;
  _ ← ensure (unc <=? l) AuthorityUnavailable;
  Ok {| reserved := r; t_bytes := b; history_bytes := history_bytes t;
        history_rows := history_rows t; oauth_bytes := oauth_bytes t; unknown := unk;
        uncovered := unc; live := l; repair_reserved := repair_reserved t;
        repair_live := repair_live t |}.
(** [self.tenants] with their next values, the next totals and the next number of executions. *)
Definition calculate (p : Publication) st (h : Arcs) (rollback : bool) :
    result ErrorCode (list TenantChange * Totals * Z) :=
  _ ← ok_or (unknown_generation st +? 1) AuthorityUnavailable;
  ts ← try_fold (λ acc t, t ← next_tenant st (pub_finished p) rollback t; Ok (acc ++ [t])) []
         (pub_tenants p);
  u ← try_fold (sum_step st h rollback) {|
        su_tenants := ts; su_active := active st; su_durable := 0; su_uncovered := 0;
        su_release := 0; su_bytes := 0 |} (steps p);
  next ← next_totals (totals (receipts st)) u;
  Ok (su_tenants u, next, su_active u).

Definition mark_pending (l : Live) : Live := {|
  owner := owner l; covered := covered l; pending := true; dropped := dropped l;
  repair := repair l; published := published l |}.
Definition pin_tenants st (l : list TenantChange) : State :=
  foldl (λ st t, get_mut st (tc_tenant t) (λ c, with_pins (pins c +% 1) c)) st l.
Definition mark_steps st (l : list Step) : State :=
  foldl (λ st s, if is_some (step_owner s)
                 then set_executions st (alter mark_pending (step_key s) (executions st)) else st) st l.
(** [Admission::prepare_unknown], from the mutex on. *)
Definition prepare_change (read : Read) (planned : list Step) :
    World → World * result ErrorCode Publication :=
  attempt (λ w,
    let st := state w in
    let tok := fresh w in
    _ ← check_read st read;
    _ ← ensure (negb (fenced (receipts st))) StorageUnavailable;
    '(claimed, deltas) ← try_fold (claim_next st (arcs w)) ([], ∅) planned;
    changes ← try_fold (resident st) [] (sorted_entries deltas);
    let p := {| token := tok; generation := read_generation read; steps := claimed;
                pub_tenants := changes; pub_finished := true |} in
    '(ts, _, _) ← calculate p st (arcs w) false;
    let st := mark_steps (pin_tenants st ts) claimed in
    let st := set_publication st (unknown_generation st) (Some tok) in
    Ok (take_fresh (set_state w st),
        {| token := tok; generation := read_generation read; steps := claimed; pub_tenants := ts;
           pub_finished := false |})).
(** The whole of [prepare_unknown]; the answer of [update] on an early refusal is trivial. *)
Definition prepare_unknown (e : Env) (read : Read) (changes : list Change)
    (terminals : list Terminal) (proof : Proof_) (w : World) :
    World * result ErrorCode Publication * list Waiter * bool :=
  match (_ ← ensure ((admission_id adm =? read_admission read) &&
                     bool_decide (disposition proof = Pending)) AuthorityUnavailable;
         plan_steps changes terminals) with
  | Ok planned => update adm e w (prepare_change read planned)
  | Err c => (w, Err c, [], false)
  end.
End prepare.

(** ** Publishing and rolling back *)

Section finish.
Context (adm : Admission).
Implicit Types (w : World) (st : State) (p : Publication).

Definition settle_tenants st (l : list TenantChange) : State :=
  foldl (λ st t, get_mut st (tc_tenant t) (λ c,
    with_pins (pins c -% 1) (with_active (next_active t)
      (with_uncovered (next_uncovered t) (with_unknown (next_unknown t) c))))) st l.
Definition settled (rollback : bool) (s : Step) (l : Live) : Live := {|
  owner := owner l; covered := if rollback then covered l else step_after s; pending := false;
  dropped := dropped l; repair := repair l; published := if rollback then published l else true |}.
Definition settle_step (rollback : bool) (sh : State * Arcs) (s : Step) : State * Arcs :=
  let '(st, h) := sh in
  match step_owner s, executions st !! step_key s with
  | Some _, Some live =>
      let live := settled rollback s live in
      let st := set_executions st (<[step_key s := live]> (executions st)) in
      let h := if negb rollback && is_some (terminal s) then set_done h (owner live) else h in
      if dropped live
      then (set_executions st (delete (step_key s) (executions st)), set_done h (owner live))
      else (st, h)
  | _, _ => (st, h)
  end.
Definition idle_all st (l : list TenantChange) : State :=
  foldl (λ st t, idle st (tc_tenant t)) st l.
(** The closure of [finish], after the checks of the proof. *)
Definition finish_change p (rollback : bool) : World → World * result ErrorCode unit :=
  attempt (λ w,
    let st := state w in
    _ ← ensure (negb (fenced (receipts st)) && (unknown_generation st =? generation p) &&
                bool_decide (publication_pending st = Some (token p))) AuthorityUnavailable;
    '(ts, next, act) ← calculate p st (arcs w) rollback;
    let st := set_active (set_receipts st (set_totals (receipts st) next)) act in
    let st := settle_tenants st ts in
    let '(st, h) := foldl (settle_step rollback) (st, arcs w) (steps p) in
    let g := if rollback then unknown_generation st else unknown_generation st +% 1 in
    let st := idle_all (set_publication st g None) ts in
    Ok (set_heap w st h, tt)).
Definition expected (rollback : bool) : Disposition := if rollback then RolledBack else Committed.
Definition finish (e : Env) p (rollback : bool) (proof : Proof_) w :
    World * result ErrorCode unit * list Waiter * bool :=
  if pub_finished p || negb (bool_decide (disposition proof = expected rollback))
  then (w, Err AuthorityUnavailable, [], false)
  else update adm e w (finish_change p rollback).
(** [Drop for Publication]: unfinished, it quarantines the proof and fences the storage. *)
Definition publication_drop (e : Env) (proof : Proof_) w : World * Proof_ * list Waiter * bool :=
  let '(w, _, wake, d) := update adm e w fence_receipts in (w, quarantine proof, wake, d).
End finish.

(** ** Repair *)

Section repair.
Context (adm : Admission).
Implicit Types (w : World).

(** The entries are distinct; each gets a completion of its own. *)
Record Owners := {
  ow_unique : gset Key; ow_list : list (Key * Live); ow_uncovered : Z; ow_arcs : Arcs;
  ow_fresh : Z }.
Definition add_owner (tenant : TenantId) (acc : Owners) (entry : ExecutionId * bool) :
    result ErrorCode Owners :=
  let '(execution, cov) := entry in
  let key := {| key_tenant := tenant; key_execution := execution |} in
  _ ← ensure (negb (bool_decide (key ∈ ow_unique acc))) AuthorityUnavailable;
  let o := ow_fresh acc in
  u ← ok_or (ow_uncovered acc +? of_bool (negb cov)) CapacityExceeded;
  Ok {| ow_unique := {[key]} ∪ ow_unique acc;
        ow_list := ow_list acc ++ [(key, {| owner := o; covered := cov; pending := false;
          dropped := false; repair := true; published := false |})];
        ow_uncovered := u;
        ow_arcs := <[o := {| c_execution := Some execution; done := false |}]> (ow_arcs acc);
        ow_fresh := o + 1 |}.
Definition set_world w (st : State) (h : Arcs) (f : Z) : World := {|
  state := st; arcs := h; fresh := f; receipt_fenced := receipt_fenced w; poisoned := poisoned w |}.
Definition plan_repair (read : Read) (tenant : TenantId) (entries : list (ExecutionId * bool)) w :
    result ErrorCode Owners :=
  _ ← ensure ((admission_id adm =? read_admission read) && maintenance read) AuthorityUnavailable;
  owners ← try_fold (add_owner tenant) {| ow_unique := ∅; ow_list := []; ow_uncovered := 0;
             ow_arcs := arcs w; ow_fresh := fresh w |} entries;
  _ ← ensure (negb (bool_decide (ow_list owners = []))) AuthorityUnavailable;
  Ok owners.
Definition repair_change (read : Read) (tenant : TenantId) (bytes : Z)
    (entries : list (ExecutionId * bool)) : World → World * result ErrorCode Repair :=
  attempt (λ w,
    owners ← plan_repair read tenant entries w;
    let st := state w in
    _ ← check_read st read;
    _ ← unknown_available st true;
    _ ← ensure (negb (existsb (λ kl, is_some (executions st !! kl.1)) (ow_list owners)))
          AuthorityUnavailable;
    let rows := Z.of_nat (length (ow_list owners)) in
    n ← ok_or (repairs (counts_of st tenant) +? rows) CapacityExceeded;
    u ← ok_or (c_uncovered (counts_of st tenant) +? ow_uncovered owners) CapacityExceeded;
    '(a, c) ← Accounting_reserve_repair (receipts st) bytes rows (ow_uncovered owners);
    let st := set_receipts st a in
    let st := entry_update st tenant (λ c, with_uncovered u (with_repairs n c)) in
    let st := set_executions st
                (foldl (λ m kl, <[kl.1 := kl.2]> m) (executions st) (ow_list owners)) in
    Ok (set_world w st (ow_arcs owners) (ow_fresh owners),
        {| rep_tenant := tenant; charged := c; rep_keys := (ow_list owners).*1 |})).
(** The owners are made, and a bad request is refused, before the mutex; addresses that nobody
    uses yet are the same there and inside. *)
Definition reserve_repair (e : Env) (read : Read) (tenant : TenantId) (bytes : Z)
    (entries : list (ExecutionId * bool)) w : World * result ErrorCode Repair * list Waiter * bool :=
  match plan_repair read tenant entries w with
  | Ok _ => update adm e w (repair_change read tenant bytes entries)
  | Err c => (w, Err c, [], false)
  end.
(** One key of a repair to be finished, and whether it is uncovered. *)
Definition check_repaired (st : State) (h : Arcs) (committed : bool) (u : Z) (key : Key) :
    result ErrorCode Z :=
  live ← ok_or (executions st !! key) AuthorityUnavailable;
  _ ← ensure (negb (negb (repair live) || pending live || done (completion h (owner live))
                    || (committed && negb (published live)))) AuthorityUnavailable;
  ok_or (u +? of_bool (negb (covered live))) AuthorityUnavailable.
Definition repaired_totals (t : Totals) (committed : bool) (rows uncov charge : Z) :
    result ErrorCode Totals :=
  l ← ok_or (live t -? rows) AuthorityUnavailable;
  rl ← ok_or (repair_live t -? rows) AuthorityUnavailable;
  u ← ok_or (uncovered t -? uncov) AuthorityUnavailable;
  r ← ok_or (reserved t -? charge) AuthorityUnavailable;
  rr ← ok_or (repair_reserved t -? charge) AuthorityUnavailable;
  b ← if committed then ok_or (t_bytes t +? charge) AuthorityUnavailable else Ok (t_bytes t);
  Ok {| reserved := r; t_bytes := b; history_bytes := history_bytes t;
        history_rows := history_rows t; oauth_bytes := oauth_bytes t; unknown := unknown t;
        uncovered := u; live := l; repair_reserved := rr; repair_live := rl |}.
(** [Repair::finish] of an unfinished repair. *)
Definition repair_finish (rep : Repair) (committed : bool) : World → World * result ErrorCode unit :=
  attempt (λ w,
    let st := state w in
    _ ← ensure (bool_decide (publication_pending st = None) && negb (fenced (receipts st)))
          AuthorityUnavailable;
    uncov ← try_fold (check_repaired st (arcs w) committed) 0 (rep_keys rep);
    let rows := Z.of_nat (length (rep_keys rep)) in
    counts ← ok_or (tenants st !! rep_tenant rep) AuthorityUnavailable;
    remaining ← ok_or (repairs counts -? rows) AuthorityUnavailable;
    tenant_uncovered ← ok_or (c_uncovered counts -? uncov) AuthorityUnavailable;
    next ← repaired_totals (totals (receipts st)) committed rows uncov (charged rep);
    let st := set_receipts st (set_totals (receipts st) next) in
    let st := get_mut st (rep_tenant rep) (λ c,
                with_uncovered tenant_uncovered (with_repairs remaining c)) in
    let st := set_executions st (foldl (λ m k, delete k m) (executions st) (rep_keys rep)) in
    Ok (set_state w (idle st (rep_tenant rep)), tt)).
End repair.
