(* ===== verification/TenancySystem.v ===== *)
(** Tenant admission as a transition system: the operations of the controller called in any order
    by any number of owners. [Owners] are the values handed out and not yet dropped, [futures] the
    waiting calls of [acquire_until], [obligations] the rows of the durable projection. *)
From stdpp Require Import base list strings gmap sorting.
From Stdlib Require Import ZArith Lia.
From S2P Require Import Prelude MapSum TenancyCapacity TenancyState TenancyAdmission TenancyUnknown.
Open Scope Z_scope.

Record Owners := {
  leases : gmap Z TenantId; count_pins : gmap Z TenantId; learners : gmap Z TenantId;
  uploads : gmap Z Z; writers : gmap Z Z; repairing : gmap Z Repair;
  publication : option Publication; obligations : gset Key }.
Definition set_leases (m : gmap Z TenantId) (o : Owners) : Owners := {|
  leases := m; count_pins := count_pins o; learners := learners o; uploads := uploads o;
  writers := writers o; repairing := repairing o; publication := publication o;
  obligations := obligations o |}.
Definition set_count_pins (m : gmap Z TenantId) (o : Owners) : Owners := {|
  leases := leases o; count_pins := m; learners := learners o; uploads := uploads o;
  writers := writers o; repairing := repairing o; publication := publication o;
  obligations := obligations o |}.
Definition set_learners (m : gmap Z TenantId) (o : Owners) : Owners := {|
  leases := leases o; count_pins := count_pins o; learners := m; uploads := uploads o;
  writers := writers o; repairing := repairing o; publication := publication o;
  obligations := obligations o |}.
Definition set_uploads (m : gmap Z Z) (o : Owners) : Owners := {|
  leases := leases o; count_pins := count_pins o; learners := learners o; uploads := m;
  writers := writers o; repairing := repairing o; publication := publication o;
  obligations := obligations o |}.
Definition set_writers (m : gmap Z Z) (o : Owners) : Owners := {|
  leases := leases o; count_pins := count_pins o; learners := learners o; uploads := uploads o;
  writers := m; repairing := repairing o; publication := publication o;
  obligations := obligations o |}.
Definition set_repairing (m : gmap Z Repair) (o : Owners) : Owners := {|
  leases := leases o; count_pins := count_pins o; learners := learners o; uploads := uploads o;
  writers := writers o; repairing := m; publication := publication o;
  obligations := obligations o |}.
Definition set_owed (p : option Publication) (d : gset Key) (o : Owners) : Owners := {|
  leases := leases o; count_pins := count_pins o; learners := learners o; uploads := uploads o;
  writers := writers o; repairing := repairing o; publication := p; obligations := d |}.

(** A call of [acquire_until] that waits: about to look, asleep, or unwinding. *)
Inductive Phase := Polling | Parked | Leaving.
#[export] Instance Phase_eq_dec : EqDecision Phase.
Proof. solve_decision. Defined.
(** [permit] is the stored permit of the waiter's [Notify]. *)
Record Future := { f_waiter : Waiter; phase : Phase; permit : bool }.
Notation Futures := (gmap Z Future).
Definition set_phase (p : Phase) (f : Future) : Future :=
  {| f_waiter := f_waiter f; phase := p; permit := permit f |}.
Definition set_permit (b : bool) (f : Future) : Future :=
  {| f_waiter := f_waiter f; phase := phase f; permit := b |}.
(** [for waiter in wake { waiter.ready.notify_one() }] *)
Definition notify (wake : list Waiter) (fs : Futures) : Futures :=
  foldl (λ fs w, alter (set_permit true) (waiter_id w) fs) fs wake.

Record Sys := { world : World; futures : Futures; owners : Owners }.
Definition with_owners (f : Owners → Owners) (S : Sys) : Sys :=
  {| world := world S; futures := futures S; owners := f (owners S) |}.
Definition with_futures (f : Futures → Futures) (S : Sys) : Sys :=
  {| world := world S; futures := f (futures S); owners := owners S |}.
(** The effect of an answer of [update] on the system: notifications, then who owns the result. *)
Definition commit {A} (S : Sys) (x : World * A * list Waiter * bool) (k : A → Sys → Sys) : Sys :=
  let '(w, a, wake, _) := x in
  k a {| world := w; futures := notify wake (futures S); owners := owners S |}.
Definition on_ok {A} (k : A → Sys → Sys) (r : result ErrorCode A) (S : Sys) : Sys :=
  match r with Ok a => k a S | Err _ => S end.

(** The keys owed after the steps of a committed publication. *)
Definition owe (d : gset Key) (s : Step) : gset Key :=
  if step_after s then {[step_key s]} ∪ d else d ∖ {[step_key s]}.
Definition owed_after (p : Publication) (d : gset Key) : gset Key := foldl owe d (steps p).
Definition owed_by (t : TenantId) (d : gset Key) : Z :=
  Z.of_nat (size (filter (λ k, key_tenant k = t) d)).

(** ** Calls

    The first argument of a call that hands out an owner is a name that nobody uses. *)
Inductive call :=
| Open_ingress (g bytes : Z) | Close_ingress (g : Z)
| Begin_write (g bytes : Z) (maintenance : bool) | End_write (g : Z)
| Archive (bytes history : Z) | Initialize (inventory : Inventory) (free : Z)
| Bind_volume (volume : option string) | Probe (free : Z) | Stop | Fence_storage | Close
| Acquire (tenant : TenantId) (limits : Limits) (request_deadline now : Z)
| Poll (id : Z) | Wake (id now : Z) | Leave (id : Z)
| Try_acquire (tenant : TenantId) (limits : Limits) (deadline : Z)
| Bind (lease : Z) (execution : ExecutionId) | Release (lease : Z) | Confirm (lease : Z)
| Learn (g : Z) (tenant : TenantId) (maximum : Z) | Unlearn (g : Z)
| Pin (g : Z) (tenant : TenantId) (maintenance : bool)
| Seed (g : Z) (read : Read) (tenant : TenantId) (count : Z) | Unpin (g : Z)
| Prepare (read : Read) (changes : list Change) (terminals : list Terminal)
| Publish (drop : Env) | Rollback (drop : Env) | Abandon
| Start_repair (g : Z) (read : Read) (tenant : TenantId) (bytes : Z)
    (entries : list (ExecutionId * bool))
| Finish_repair (g : Z) (committed : bool)
| Panic.

(** [acquire_until] up to its first wait: the completion of a lease is private until the call
    returns, so that it can be allocated inside the change. *)
Section exec.
Context (adm : Admission).

Definition enter (tenant : TenantId) (active_limit queue_limit deadline now : Z) (w : World) :
    World * result ErrorCode (Lease + Waiter) :=
  let '(w, r) := register adm tenant active_limit queue_limit deadline now w in
  match r with
  | Ok Active => let '(w, l) := grant tenant w in (w, Ok (inl l))
  | Ok (Queued q) => (w, Ok (inr q))
  | Err c => (w, Err c)
  end.
Definition poll_grant (waiter : Waiter) (now : Z) (w : World) :
    World * result ErrorCode (option Lease) :=
  let '(w, r) := poll adm waiter now w in
  match r with
  | Ok true => let '(w, l) := grant (w_tenant waiter) w in (w, Ok (Some l))
  | Ok false => (w, Ok None)
  | Err c => (w, Err c)
  end.
Definition own_lease (l : Lease) : Sys → Sys :=
  with_owners (λ o, set_leases (<[l_completion l := l_tenant l]> (leases o)) o).
Definition lease_of (o : Owners) (id : Z) : option Lease :=
  (λ t, {| l_tenant := t; l_completion := id |}) <$> leases o !! id.
Definition on_poll (id : Z) (r : result ErrorCode (option Lease)) (S : Sys) : Sys :=
  match r with
  | Ok (Some l) => own_lease l (with_futures (alter (set_phase Leaving) id) S)
  | Ok None => with_futures (alter (set_phase Parked) id) S
  | Err _ => with_futures (alter (set_phase Leaving) id) S
  end.
Definition on_enter (r : Lease + Waiter) (S : Sys) : Sys :=
  match r with
  | inl l => own_lease l S
  | inr q => with_futures
      (<[waiter_id q := {| f_waiter := q; phase := Polling; permit := false |}]>) S
  end.

(** What the callers guarantee of the values they pass: counts, inventories and changes come from
    the durable projection, and they are what it holds when the generation has not moved since. *)
Definition truthful (S : Sys) (c : call) : bool :=
  let current := λ r, read_generation r =? unknown_generation (state (world S)) in
  let d := obligations (owners S) in
  match c with
  | Initialize inventory _ =>
      (unknown_count inventory =? Z.of_nat (size d))
  | Seed _ read tenant count => negb (current read) || (count =? owed_by tenant d)
  | Prepare read changes _ =>
      negb (current read) ||
      forallb (λ ch, eqb (is_some (before ch)) (bool_decide (ch_key ch ∈ d))) changes
  | _ => true
  end.
Definition inventory_in_range (i : Inventory) : bool :=
  forallb (λ n, bool_decide (in_u64 n))
    [live_bytes i; i_history_bytes i; i_history_rows i; i_oauth_bytes i; unknown_count i].
Definition free_name {V} (m : gmap Z V) (g : Z) : bool := negb (is_some (m !! g)).
(** A lease or a future is dropped once, by its owner; [None]: nobody can make the call. *)
Definition exec (c : call) (e : Env) (S : Sys) : option Sys :=
  let w := world S in let o := owners S in
  let run := λ {A} (change : World → World * A) k, Some (commit S (update adm e w change) k) in
  match c with
  | Open_ingress g bytes =>
      if free_name (uploads o) g && (0 <=? bytes) then
        Some (commit S (open_ingress adm e bytes w)
          (on_ok (λ b, with_owners (λ o, set_uploads (<[g := b]> (uploads o)) o))))
      else None
  | Close_ingress g =>
      bytes ← uploads o !! g;
      run (ingress_drop bytes)
        (λ _, with_owners (λ o, set_uploads (delete g (uploads o)) o))
  | Begin_write g bytes maint =>
      if free_name (writers o) g && (0 <=? bytes) then
        run (reserve_physical_write bytes maint)
          (on_ok (λ _, with_owners (λ o, set_writers (<[g := bytes]> (writers o)) o)))
      else None
  | End_write g =>
      bytes ← writers o !! g;
      run (finish_physical_write bytes)
        (λ _, with_owners (λ o, set_writers (delete g (writers o)) o))
  | Archive bytes history =>
      if (0 <=? bytes) && (0 <=? history) then run (archive_receipt bytes history) (λ _, id)
      else None
  | Initialize inventory free =>
      if truthful S c && inventory_in_range inventory && bool_decide (in_u64 free)
      then run (initialize_receipts inventory free) (λ _, id) else None
  | Bind_volume v => run (bind_receipt_volume e v) (λ _, id)
  | Probe free =>
      if bool_decide (in_u64 free) then run (receipt_probe free) (λ _, id) else None
  | Stop => run stop_receipt_admission (λ _, id)
  | Fence_storage => run fence_receipts (λ _, id)
  | Close => run close (λ _, id)
  | Acquire tenant limits request_deadline now =>
      run (enter tenant (effective_active adm limits) (effective_queue adm limits)
             (effective_deadline adm request_deadline now) (change_now e))
        (on_ok on_enter)
  | Poll id =>
      f ← futures S !! id;
      if bool_decide (phase f = Polling)
      then run (poll_grant (f_waiter f) (change_now e)) (on_poll id) else None
  | Wake id now =>
      f ← futures S !! id;
      if bool_decide (phase f = Parked) && (permit f || (deadline (f_waiter f) <=? now))
      then Some (with_futures (<[id := set_phase Polling (if deadline (f_waiter f) <=? now then f
                                                          else set_permit false f)]>) S)
      else None
  | Leave id =>
      f ← futures S !! id;
      run (queued_drop (f_waiter f)) (λ _, with_futures (delete id))
  | Try_acquire tenant limits dl =>
      run (try_acquire adm tenant limits dl (change_now e)) (on_ok own_lease)
  | Bind id execution =>
      lease ← lease_of o id;
      run (bind_execution lease execution) (λ _, Datatypes.id)
  | Release id =>
      lease ← lease_of o id;
      run (lease_drop lease) (λ _, with_owners (λ o, set_leases (delete id (leases o)) o))
  | Confirm id =>
      lease ← lease_of o id;
      Some (commit S (confirm_receipt adm e lease w) (λ _, Datatypes.id))
  | Learn g tenant maximum =>
      if free_name (learners o) g then
        run (learning_change tenant maximum)
          (on_ok (λ t, with_owners (λ o, set_learners (<[g := t]> (learners o)) o)))
      else None
  | Unlearn g =>
      tenant ← learners o !! g;
      run (learning_drop tenant) (λ _, with_owners (λ o, set_learners (delete g (learners o)) o))
  | Pin g tenant maint =>
      if free_name (count_pins o) g then
        run (pin_unknown tenant maint)
          (on_ok (λ p, with_owners (λ o,
            match p with
            | Some p => set_count_pins (<[g := pin_tenant p]> (count_pins o)) o | None => o end)))
      else None
  | Seed g read tenant count =>
      if free_name (count_pins o) g && truthful S c && (0 <=? count) then
        Some (commit S (seed_unknown adm e read tenant count w)
          (on_ok (λ p, with_owners (λ o, set_count_pins (<[g := pin_tenant p]> (count_pins o)) o))))
      else None
  | Unpin g =>
      tenant ← count_pins o !! g;
      run (pin_drop {| pin_tenant := tenant |})
        (λ _, with_owners (λ o, set_count_pins (delete g (count_pins o)) o))
  | Prepare read changes terminals =>
      if truthful S c && forallb (λ t, 0 <=? te_bytes t) terminals then
        Some (commit S (prepare_unknown adm e read changes terminals
                          {| proof_live := true; disposition := Pending |} w)
          (on_ok (λ p, with_owners (λ o, set_owed (Some p) (obligations o) o))))
      else None
  | Publish drop =>
      p ← publication o;
      let proof := {| proof_live := true; disposition := Committed |} in
      let d := owed_after p (obligations o) in
      Some (commit S (finish adm e p false proof w) (λ r S,
        match r with
        | Ok _ => with_owners (set_owed None d) S
        | Err _ => let '(w, _, wake, b) := publication_drop adm drop proof (world S) in
                   commit S (w, tt, wake, b) (λ _, with_owners (set_owed (Some p) d))
        end))
  | Rollback drop =>
      p ← publication o;
      let proof := {| proof_live := true; disposition := RolledBack |} in
      Some (commit S (finish adm e p true proof w) (λ r S,
        match r with
        | Ok _ => with_owners (λ o, set_owed None (obligations o) o) S
        | Err _ => let '(w, _, wake, b) := publication_drop adm drop proof (world S) in
                   commit S (w, tt, wake, b) (λ _, Datatypes.id)
        end))
  | Abandon =>
      _ ← publication o;
      run fence_receipts (λ _, Datatypes.id)
  | Start_repair g read tenant bytes entries =>
      if free_name (repairing o) g && (0 <=? bytes) then
        Some (commit S (reserve_repair adm e read tenant bytes entries w)
          (on_ok (λ r, with_owners (λ o, set_repairing (<[g := r]> (repairing o)) o))))
      else None
  | Finish_repair g committed =>
      r ← repairing o !! g;
      run (repair_finish r committed)
        (on_ok (λ _, with_owners (λ o, set_repairing (delete g (repairing o)) o)))
  | Panic =>
      Some {| world := {| state := state w; arcs := arcs w; fresh := fresh w;
                          receipt_fenced := receipt_fenced w; poisoned := true |};
              futures := futures S; owners := o |}
  end.

(** ** Reachable states

    Volumes report [u64] values, also in the turn of the mutex that a dropped publication takes.
    The first call of a process loads the inventory of its database;
    the controller is the configured one. *)
Definition env_ok (e : Env) : Prop :=
  ∀ path blocks size, volumes e path = Some (blocks, size) → in_u64 blocks ∧ in_u64 size.
Definition call_ok (c : call) : Prop :=
  match c with Publish drop | Rollback drop => env_ok drop | _ => True end.
Definition sys_step (S S' : Sys) : Prop := ∃ c e, env_ok e ∧ call_ok c ∧ exec c e S = Some S'.
Definition no_owners (d : gset Key) : Owners := {|
  leases := ∅; count_pins := ∅; learners := ∅; uploads := ∅; writers := ∅; repairing := ∅;
  publication := None; obligations := d |}.
Definition boots (w : World) (d : gset Key) (S : Sys) : Prop :=
  ∃ inventory free e, env_ok e ∧
    exec (Initialize inventory free) e {| world := w; futures := ∅; owners := no_owners d |} = Some S.
Definition sys_reachable (w : World) (d : gset Key) (S : Sys) : Prop :=
  ∃ S0, boots w d S0 ∧ rtc sys_step S0 S.
End exec.
