(* ===== verification/TenancyLedger.v ===== *)
(** The invariant of tenant admission: every counter of the locked state is a count of owners, and
    how the operations other than publication and repair keep it. *)
From stdpp Require Import base list strings gmap sorting.
From Stdlib Require Import ZArith Lia.
From S2P Require Import Prelude MapSum TenancyCapacity TenancyState TenancyAdmission TenancyUnknown TenancySystem.
Open Scope Z_scope.
#[local] Arguments countb : simpl never.
#[local] Arguments sum_by : simpl never.
#[local] Arguments msum : simpl never.
#[local] Arguments mcount : simpl never.

(** ** What is counted

    The live executions with the flag of their completion. *)
Notation view := (gmap Key (Live * bool)).
Definition resolve (h : Arcs) (m : gmap Key Live) : view :=
  (λ l, (l, done (completion h (owner l)))) <$> m.
#[local] Arguments resolve : simpl never.
(** Not yet completed; completed or not, with a slot; without a durable obligation. *)
Definition is_open (v : Live * bool) : bool := negb v.2.
Definition is_ordinary (v : Live * bool) : bool := negb (repair v.1).
Definition is_repair (v : Live * bool) : bool := repair v.1.
Definition is_bare (v : Live * bool) : bool := negb (covered v.1) && negb v.2.
Definition is_running (v : Live * bool) : bool := negb (repair v.1) && negb v.2.
Definition any_key (f : Live * bool → bool) (_ : Key) (v : Live * bool) : bool := f v.
Definition of_tenant (t : TenantId) (f : Live * bool → bool) (k : Key) (v : Live * bool) : bool :=
  bool_decide (key_tenant k = t) && f v.
(** A lease that is not yet bound to an execution. *)
Definition is_unbound (h : Arcs) (id : Z) (_ : TenantId) : bool :=
  negb (is_some (c_execution (completion h id))).
Definition unbound_of (h : Arcs) (o : Owners) (t : TenantId) : Z :=
  mcount (λ id t', bool_decide (t' = t) && is_unbound h id t') (leases o).
Definition unbound (h : Arcs) (o : Owners) : Z := mcount (is_unbound h) (leases o).
Definition named (t : TenantId) (_ : Z) (t' : TenantId) : bool := bool_decide (t' = t).
Lemma named_eq t g : named t g t = true.
Proof. by apply bool_decide_eq_true. Qed.
Lemma named_ne t t' g : t' ≠ t → named t g t' = false.
Proof. intros. by apply bool_decide_eq_false. Qed.
Definition repair_rows (r : Repair) : Z := Z.of_nat (length (rep_keys r)).
Definition repairs_of (o : Owners) (t : TenantId) : Z :=
  msum (λ _ r, if bool_decide (rep_tenant r = t) then repair_rows r else 0) (repairing o).
Definition repairs_all (o : Owners) : Z := msum (λ _, repair_rows) (repairing o).
Definition charged_all (o : Owners) : Z := msum (λ _, charged) (repairing o).
Definition pinned (o : Owners) (t : TenantId) : Z :=
  from_option (λ p, of_bool (bool_decide (t ∈ tc_tenant <$> pub_tenants p))) 0 (publication o).

(** The counts of a tenant, recomputed from the owners; what is known of the database is left out. *)
Definition tally (st : State) (h : Arcs) (o : Owners) (t : TenantId) : Counts :=
  let v := resolve h (executions st) in {|
  c_unknown := None;
  c_uncovered := unbound_of h o t + mcount (of_tenant t is_bare) v;
  pins := mcount (named t) (count_pins o) + pinned o t;
  repairs := repairs_of o t;
  c_learning := mcount (named t) (learners o);
  c_active := unbound_of h o t + mcount (of_tenant t is_ordinary) v;
  queued := countb (λ w, bool_decide (w_tenant w = t)) (queue st) |}.

Record Ledger (st : State) (h : Arcs) (o : Owners) : Prop := {
  led_tally t : with_unknown None (counts_of st t) = tally st h o t;
  led_active : active st = unbound h o + mcount (any_key is_ordinary) (resolve h (executions st));
  led_live : live (totals (receipts st)) =
    unbound h o + mcount (any_key is_open) (resolve h (executions st));
  led_uncovered : uncovered (totals (receipts st)) =
    unbound h o + mcount (any_key is_bare) (resolve h (executions st));
  led_reserved : reserved (totals (receipts st)) =
    RESERVATION * (unbound h o + mcount (any_key is_running) (resolve h (executions st)))
    + charged_all o;
  led_repair_reserved : repair_reserved (totals (receipts st)) = charged_all o;
  led_repair_live : repair_live (totals (receipts st)) = repairs_all o;
  led_repair_rows : mcount (any_key is_repair) (resolve h (executions st)) = repairs_all o;
  led_repair_of t : mcount (of_tenant t is_repair) (resolve h (executions st)) = repairs_of o t;
  led_learning : learning st = Z.of_nat (size (learners o));
  led_ingress : ingress st = Z.of_nat (size (uploads o));
  led_ingress_bytes : ingress_bytes st = msum (λ _ b, b) (uploads o);
  led_writes : physical_write_reserved (receipts st) = msum (λ _ b, b) (writers o) }.

(** ** How owners, leases and executions refer to each other *)

Record Links (st : State) (h : Arcs) (fr : Z) (o : Owners) : Prop := {
  lk_exec k l : executions st !! k = Some l →
    c_execution (completion h (owner l)) = Some (key_execution k) ∧ owner l < fr;
  lk_inj k1 k2 l1 l2 : executions st !! k1 = Some l1 → executions st !! k2 = Some l2 →
    owner l1 = owner l2 → k1 = k2;
  lk_fresh i : is_Some (h !! i) → i < fr;
  lk_lease i t : leases o !! i = Some t → i < fr ∧
    match c_execution (completion h i) with
    | None => done (completion h i) = false
    | Some e => ∃ l, executions st !! {| key_tenant := t; key_execution := e |} = Some l ∧
                  owner l = i ∧ repair l = false ∧ dropped l = false
    end;
  lk_owner k l : executions st !! k = Some l → repair l = false → dropped l = false →
    leases o !! owner l = Some (key_tenant k);
  lk_flags k l : executions st !! k = Some l →
    (done (completion h (owner l)) = true → pending l = false ∧ repair l = false) ∧
    (dropped l = true → pending l = true ∧ repair l = false);
  lk_repair g r : repairing o !! g = Some r →
    NoDup (rep_keys r) ∧ rep_keys r ≠ [] ∧ ROW_OVERHEAD * repair_rows r ≤ charged r ∧
    ∀ k, k ∈ rep_keys r → key_tenant k = rep_tenant r ∧
      ∃ l, executions st !! k = Some l ∧ repair l = true;
  lk_repairs g1 g2 r1 r2 k : repairing o !! g1 = Some r1 → repairing o !! g2 = Some r2 →
    k ∈ rep_keys r1 → k ∈ rep_keys r2 → g1 = g2;
  lk_sizes : (∀ g b, uploads o !! g = Some b → 0 ≤ b) ∧ (∀ g b, writers o !! g = Some b → 0 ≤ b);
  lk_queue : NoDup (waiter_id <$> queue st) ∧ ∀ w, w ∈ queue st → waiter_id w < fr }.

(** ** The publication under way *)

(** What a step does, once settled, to the entry of its key. *)
Definition is_terminal (rollback : bool) (s : Step) : bool := negb rollback && is_some (terminal s).
Definition settle_entry (rollback : bool) (s : Step) (v : option (Live * bool)) :
    option (Live * bool) :=
  if is_some (step_owner s) then
    '(l, d) ← v;
    if dropped l then None else Some (settled rollback s l, is_terminal rollback s || d)
  else v.
Definition durable_delta (s : Step) : Z := of_bool (step_after s) - of_bool (step_before s).
Definition cover_delta (s : Step) : Z :=
  if is_some (step_owner s)
  then of_bool (negb (step_after s) && negb (is_some (terminal s))) - of_bool (negb (step_before s))
  else 0.
Definition stored_bytes (s : Step) : Z :=
  if is_some (step_owner s)
  then from_option (λ b, if b =? 0 then 0 else b + ROW_OVERHEAD) 0 (terminal s) else 0.
Definition for_tenant (t : TenantId) (f : Step → Z) (s : Step) : Z :=
  if bool_decide (key_tenant (step_key s) = t) then f s else 0.

Record Prepared (st : State) (h : Arcs) (p : Publication) : Prop := {
  pr_generation : unknown_generation st = generation p ∧ unknown_generation st + 1 ≤ u64_max;
  pr_unfinished : pub_finished p = false;
  pr_keys : NoDup (step_key <$> steps p);
  pr_tenants : NoDup (tc_tenant <$> pub_tenants p);
  pr_step s i : s ∈ steps p → step_owner s = Some i →
    (∃ l, executions st !! step_key s = Some l ∧ owner l = i ∧ pending l = true ∧
       covered l = step_before s ∧ (repair l = true → terminal s = None)) ∧
    done (completion h i) = false ∧ key_tenant (step_key s) ∈ tc_tenant <$> pub_tenants p;
  pr_tenant tc : tc ∈ pub_tenants p →
    is_Some (tenants st !! tc_tenant tc) ∧
    durable tc = sum_by (for_tenant (tc_tenant tc) durable_delta) (steps p) ∧
    tc_uncovered tc = sum_by (for_tenant (tc_tenant tc) cover_delta) (steps p) ∧
    ∀ n, c_unknown (counts_of st (tc_tenant tc)) = Some n → in_u64 (n + durable tc);
  pr_absent s : s ∈ steps p → key_tenant (step_key s) ∉ tc_tenant <$> pub_tenants p →
    c_unknown (counts_of st (key_tenant (step_key s))) = None;
  pr_unknown : in_u64 (unknown (totals (receipts st)) + sum_by durable_delta (steps p));
  pr_bytes : t_bytes (totals (receipts st)) + sum_by stored_bytes (steps p) ≤ u64_max;
  pr_terminal s b : s ∈ steps p → terminal s = Some b → 0 ≤ b }.
Record Pending_ (st : State) (h : Arcs) (o : Owners) : Prop := {
  pe_token : publication_pending st = token <$> publication o;
  pe_prepared p : publication o = Some p → Prepared st h p;
  pe_pending k l : executions st !! k = Some l → pending l = true →
    ∃ p s, publication o = Some p ∧ s ∈ steps p ∧ step_key s = k ∧ step_owner s = Some (owner l) }.

(** ** The cached counts of obligations *)

Record Coherent (st : State) (o : Owners) : Prop := {
  co_total : unknown (totals (receipts st)) = Z.of_nat (size (obligations o));
  co_tenant t n : c_unknown (counts_of st t) = Some n → n = owed_by t (obligations o);
  co_before p s : publication o = Some p → s ∈ steps p →
    step_before s = bool_decide (step_key s ∈ obligations o) }.

(** ** Ranges *)

Record Ranges (adm : Admission) (st : State) : Prop := {
  ra_accounting : Accounting_wf (receipts st);
  ra_active : active st ≤ p_instance_active (profile adm);
  ra_queue : Z.of_nat (length (queue st)) ≤ Z.max 0 (p_instance_queue (profile adm));
  ra_learning : learning st ≤ 8;
  ra_ingress : ingress st ≤ requests (ingress_limits adm);
  ra_ingress_bytes : ingress_bytes st ≤ ingress_limit (ingress_limits adm);
  ra_pins t : pins (counts_of st t) ≤ u64_max;
  ra_repairs t : repairs (counts_of st t) ≤ u64_max;
  ra_generation : 0 ≤ unknown_generation st ≤ u64_max;
  ra_fence : ∀ t n, c_unknown (counts_of st t) = Some n → in_u64 n }.

Record Inv (adm : Admission) (st : State) (h : Arcs) (fr : Z) (o : Owners) : Prop := {
  inv_ledger : Ledger st h o; inv_links : Links st h fr o; inv_pending : Pending_ st h o;
  inv_coherent : fenced (receipts st) = false → Coherent st o; inv_ranges : Ranges adm st }.
(** The budgets of a validated configuration. *)
Record Budgets (adm : Admission) : Prop := {
  bu_active : 0 ≤ p_instance_active (profile adm) ≤ u64_max;
  bu_queue : p_instance_queue (profile adm) < u64_max;
  bu_requests : 0 ≤ requests (ingress_limits adm) ≤ u64_max;
  bu_bytes : 0 ≤ ingress_limit (ingress_limits adm) ≤ u64_max }.
Definition WInv (adm : Admission) (w : World) (o : Owners) : Prop :=
  Inv adm (state w) (arcs w) (fresh w) o.

(** ** Lookups after the updates of a tenant's counts *)

Section counts_lemmas.
Implicit Types (st : State) (t : TenantId).

Lemma counts_of_entry_update st t f t' :
  counts_of (entry_update st t f) t' = if decide (t' = t) then f (counts_of st t) else counts_of st t'.
Proof.
  unfold counts_of at 1. cbn. destruct (decide (t' = t)) as [Ht|Ht].
  - subst. by rewrite lookup_insert_eq.
  - by rewrite lookup_insert_ne by congruence.
Qed.
Lemma counts_of_get_mut st t f t' :
  is_Some (tenants st !! t) →
  counts_of (get_mut st t f) t' = if decide (t' = t) then f (counts_of st t) else counts_of st t'.
Proof.
  intros [c Hc]. unfold counts_of. cbn. destruct (decide (t' = t)) as [Ht|Ht].
  - subst. by rewrite lookup_alter_eq, Hc.
  - by rewrite lookup_alter_ne by congruence.
Qed.
Lemma idle_cases st t :
  idle st t = st ∨
  ∃ c, tenants st !! t = Some c ∧ Counts_idle c = true ∧ idle st t = set_tenants st (delete t (tenants st)).
Proof.
  unfold idle. destruct (tenants st !! t) as [c|]; cbn; [|by left].
  destruct (Counts_idle c) eqn:Hc; [|by left]. right. by exists c.
Qed.
Lemma Counts_idle_iff c :
  Counts_idle c = true ↔ c_learning c = 0 ∧ c_active c = 0 ∧ queued c = 0 ∧ pins c = 0 ∧ repairs c = 0.
Proof.
  unfold Counts_idle. destruct (c_learning c =? 0) eqn:Hl; cbn.
  - rewrite !andb_true_iff, !Z.eqb_eq in *. tauto.
  - rewrite Z.eqb_neq in Hl. split; [done|tauto].
Qed.
(** The tally forgets the cached count, whatever else is assigned. *)
Lemma unknown_unknown n c : with_unknown None (with_unknown n c) = with_unknown None c.
Proof. done. Qed.
Lemma unknown_uncovered n c : with_unknown None (with_uncovered n c) = with_uncovered n (with_unknown None c).
Proof. done. Qed.
Lemma unknown_pins n c : with_unknown None (with_pins n c) = with_pins n (with_unknown None c).
Proof. done. Qed.
Lemma unknown_repairs n c : with_unknown None (with_repairs n c) = with_repairs n (with_unknown None c).
Proof. done. Qed.
Lemma unknown_learning n c : with_unknown None (with_learning n c) = with_learning n (with_unknown None c).
Proof. done. Qed.
Lemma unknown_active n c : with_unknown None (with_active n c) = with_active n (with_unknown None c).
Proof. done. Qed.
Lemma unknown_queued n c : with_unknown None (with_queued n c) = with_queued n (with_unknown None c).
Proof. done. Qed.
Lemma counts_present st t : counts_of st t ≠ Counts_default → is_Some (tenants st !! t).
Proof. unfold counts_of. destruct (tenants st !! t); [by eexists|done]. Qed.
Lemma default_with_unknown c : with_unknown None c = Counts_default → c_uncovered c = 0 ∧ pins c = 0 ∧
  repairs c = 0 ∧ c_learning c = 0 ∧ c_active c = 0 ∧ queued c = 0.
Proof. destruct c; cbn. by intros [= -> -> -> -> -> ->]. Qed.
End counts_lemmas.
#[export] Hint Rewrite unknown_unknown unknown_uncovered unknown_pins unknown_repairs unknown_learning
  unknown_active unknown_queued : bitrouter.

(** ** Consequences of the ledger *)

Section ledger_facts.
Context (st : State) (h : Arcs) (o : Owners) (Hl : Ledger st h o).
Local Notation v := (resolve h (executions st)).

Lemma tally_field {A} (f : Counts → A) t :
  (∀ c, f (with_unknown None c) = f c) → f (counts_of st t) = f (tally st h o t).
Proof. intros Hf. by rewrite <-(led_tally _ _ _ Hl t), Hf. Qed.
Lemma led_c_active t : c_active (counts_of st t) = unbound_of h o t + mcount (of_tenant t is_ordinary) v.
Proof. by apply (tally_field c_active). Qed.
Lemma led_c_uncovered t : c_uncovered (counts_of st t) = unbound_of h o t + mcount (of_tenant t is_bare) v.
Proof. by apply (tally_field c_uncovered). Qed.
Lemma led_pins t : pins (counts_of st t) = mcount (named t) (count_pins o) + pinned o t.
Proof. by apply (tally_field pins). Qed.
Lemma led_repairs t : repairs (counts_of st t) = repairs_of o t.
Proof. by apply (tally_field repairs). Qed.
Lemma led_c_learning t : c_learning (counts_of st t) = mcount (named t) (learners o).
Proof. by apply (tally_field c_learning). Qed.
Lemma led_queued t : queued (counts_of st t) = countb (λ w, bool_decide (w_tenant w = t)) (queue st).
Proof. by apply (tally_field queued). Qed.

Lemma unbound_nonneg : 0 ≤ unbound h o.
Proof. apply mcount_nonneg. Qed.
Lemma unbound_of_nonneg t : 0 ≤ unbound_of h o t.
Proof. apply mcount_nonneg. Qed.
Lemma unbound_of_le t : unbound_of h o t ≤ unbound h o.
Proof. apply mcount_le. intros i t' _ Ht. by apply andb_true_iff in Ht as [_ ?]. Qed.
Lemma of_tenant_le t f (m : view) : mcount (of_tenant t f) m ≤ mcount (any_key f) m.
Proof. apply mcount_le. unfold of_tenant, any_key. intros k w _ Hk. by apply andb_true_iff in Hk as [_ ?]. Qed.
Lemma pinned_bounds t : 0 ≤ pinned o t ≤ 1.
Proof. unfold pinned. destruct (publication o); cbn; [apply of_bool_bounds|lia]. Qed.

(** An uncovered owner holds a slot or belongs to a repair. *)
Lemma uncovered_le t :
  0 ≤ c_uncovered (counts_of st t) ≤ c_active (counts_of st t) + repairs (counts_of st t).
Proof.
  rewrite led_c_active, led_c_uncovered, led_repairs, <-(led_repair_of _ _ _ Hl t).
  pose proof (unbound_of_nonneg t). pose proof (mcount_nonneg (of_tenant t is_bare) v).
  enough (mcount (of_tenant t is_bare) v ≤
    mcount (of_tenant t is_ordinary) v + mcount (of_tenant t is_repair) v) by lia.
  unfold mcount. rewrite <-msum_add. apply msum_le. intros k [l d] _.
  unfold of_tenant, is_bare, is_ordinary, is_repair. cbn.
  destruct (bool_decide _), (covered l), d, (repair l); cbn; lia.
Qed.
Lemma c_active_le t : 0 ≤ c_active (counts_of st t) ≤ active st.
Proof.
  rewrite led_c_active, (led_active _ _ _ Hl). pose proof (unbound_of_nonneg t).
  pose proof (unbound_of_le t). pose proof (of_tenant_le t is_ordinary v).
  pose proof (mcount_nonneg (of_tenant t is_ordinary) v). lia.
Qed.
Lemma c_uncovered_le t : 0 ≤ c_uncovered (counts_of st t) ≤ uncovered (totals (receipts st)).
Proof.
  rewrite led_c_uncovered, (led_uncovered _ _ _ Hl). pose proof (unbound_of_nonneg t).
  pose proof (unbound_of_le t). pose proof (of_tenant_le t is_bare v).
  pose proof (mcount_nonneg (of_tenant t is_bare) v). lia.
Qed.
Lemma uncovered_le_live : uncovered (totals (receipts st)) ≤ live (totals (receipts st)).
Proof.
  rewrite (led_live _ _ _ Hl), (led_uncovered _ _ _ Hl).
  enough (mcount (any_key is_bare) v ≤ mcount (any_key is_open) v) by lia.
  apply mcount_le. unfold any_key, is_bare, is_open. intros k w _ Hw.
  by apply andb_true_iff in Hw as [_ ?].
Qed.
Lemma queued_le t : 0 ≤ queued (counts_of st t) ≤ Z.of_nat (length (queue st)).
Proof.
  rewrite led_queued, countb_filter. pose proof (List.filter_length_le
    (λ w, bool_decide (w_tenant w = t)) (queue st)). lia.
Qed.
Lemma c_learning_le t : 0 ≤ c_learning (counts_of st t) ≤ learning st.
Proof.
  rewrite led_c_learning, (led_learning _ _ _ Hl), <-msum_size. split; [apply mcount_nonneg|].
  apply msum_le. intros. apply of_bool_bounds.
Qed.
Lemma absent_tally t : tenants st !! t = None → with_unknown None (counts_of st t) = Counts_default.
Proof. intros Ht. unfold counts_of. by rewrite Ht. Qed.
(** A tenant whose counts are idle has no uncovered owner, so that nothing is lost with them. *)
Lemma idle_default t c : tenants st !! t = Some c → Counts_idle c = true →
  with_unknown None c = Counts_default.
Proof.
  intros Hc Hi%Counts_idle_iff. pose proof (uncovered_le t) as Hu.
  unfold counts_of in Hu. rewrite Hc in Hu. cbn in Hu.
  destruct c as [cu cc cp cr cl ca cq]; cbn in *. destruct Hi as (-> & -> & -> & -> & ->).
  unfold with_unknown, Counts_default. cbn. do 2 f_equal. lia.
Qed.
End ledger_facts.

(** ** Operations that leave the counted things alone *)

Section frames.
Context (adm : Admission).
Implicit Types (st : State) (h : Arcs) (o : Owners) (fr : Z).

Lemma counts_of_idle st t t' :
  counts_of (idle st t) t' = counts_of st t' ∨
  (t' = t ∧ counts_of (idle st t) t' = Counts_default ∧
   ∃ c, tenants st !! t = Some c ∧ Counts_idle c = true).
Proof.
  destruct (idle_cases st t) as [->|(c & Hc & Hi & ->)]; [by left|].
  destruct (decide (t' = t)) as [->|Hne].
  - right. split_and!; [done| |by exists c]. unfold counts_of. cbn. by rewrite lookup_delete_eq.
  - left. unfold counts_of. cbn. by rewrite lookup_delete_ne.
Qed.
Lemma Ledger_idle st h o t : Ledger st h o → Ledger (idle st t) h o.
Proof.
  intros Hl. assert (∀ t', with_unknown None (counts_of (idle st t) t') = with_unknown None (counts_of st t')) as Hc.
  { intros t'. destruct (counts_of_idle st t t') as [->|(-> & -> & c & Hc & Hi)]; [done|].
    rewrite <-(idle_default st h o Hl t c Hc Hi). unfold counts_of. by rewrite Hc. }
  pose proof (idle_cases st t) as Hcs. destruct Hl. destruct Hcs as [He|(c & Hc' & Hi & He)].
  - rewrite He. by constructor.
  - rewrite He in *. constructor; try done. intros t'. rewrite Hc. by rewrite led_tally0.
Qed.
Lemma idle_present st h o t t' :
  Ledger st h o → is_Some (tenants st !! t') → 0 < pins (counts_of st t') → is_Some (tenants (idle st t) !! t').
Proof.
  intros Hl [c Hc] Hp. destruct (idle_cases st t) as [->|(c' & Hc' & Hi & ->)]; [by eexists|].
  cbn. rewrite lookup_delete_ne; [by eexists|]. intros ->. rewrite Hc in Hc'. injection Hc' as <-.
  apply Counts_idle_iff in Hi as (_ & _ & _ & Hp0 & _). unfold counts_of in Hp. rewrite Hc in Hp. cbn in Hp. lia.
Qed.
Lemma idle_fields st t :
  executions (idle st t) = executions st ∧ queue (idle st t) = queue st ∧
  receipts (idle st t) = receipts st ∧ publication_pending (idle st t) = publication_pending st ∧
  unknown_generation (idle st t) = unknown_generation st ∧ active (idle st t) = active st ∧
  learning (idle st t) = learning st ∧ ingress (idle st t) = ingress st ∧
  ingress_bytes (idle st t) = ingress_bytes st ∧ closed (idle st t) = closed st.
Proof. destruct (idle_cases st t) as [->|(c & _ & _ & ->)]; done. Qed.
Lemma idle_unknown st t t' n :
  c_unknown (counts_of (idle st t) t') = Some n → c_unknown (counts_of st t') = Some n.
Proof. destruct (counts_of_idle st t t') as [->|(-> & -> & _)]; done. Qed.
Lemma pinned_pos st h o p tc :
  Ledger st h o → publication o = Some p → tc ∈ pub_tenants p → 0 < pins (counts_of st (tc_tenant tc)).
Proof.
  intros Hl Hp Htc. rewrite (led_pins _ _ _ Hl). unfold pinned. rewrite Hp. cbn.
  rewrite bool_decide_eq_true_2 by by apply list_elem_of_fmap_2.
  pose proof (mcount_nonneg (named (tc_tenant tc)) (count_pins o)). cbn. lia.
Qed.
Lemma Inv_idle st h fr o t : Inv adm st h fr o → Inv adm (idle st t) h fr o.
Proof.
  intros [Hl Hk Hp Hc Hr].
  destruct (idle_fields st t) as (He & Hq & Hre & Hpp & Hg & Ha & Hle & Hin & Hib & _).
  split.
  - by apply Ledger_idle.
  - destruct Hk. constructor; rewrite ?He, ?Hq; done.
  - destruct Hp as [Ht Hpr Hpe]. constructor; rewrite ?He, ?Hpp; [done| |done].
    intros p Hpub. specialize (Hpr p Hpub). destruct Hpr.
    constructor; rewrite ?He, ?Hg, ?Hre; try done.
    + intros tc Htc. destruct (pr_tenant0 tc Htc) as (Hs & Hd & Hu & Hn). split_and!; try done.
      * eapply idle_present; [exact Hl|done|by eapply pinned_pos].
      * intros n Hu'. by apply Hn, (idle_unknown st t).
    + intros s Hs Hn. specialize (pr_absent0 s Hs Hn).
      destruct (counts_of_idle st t (key_tenant (step_key s))) as [->|(_ & -> & _)]; done.
  - rewrite Hre. intros Hf. destruct (Hc Hf). constructor; rewrite ?Hre; try done.
    intros t' n Hn. by apply co_tenant0, (idle_unknown st t).
  - destruct Hr. constructor; rewrite ?Hre, ?Ha, ?Hq, ?Hle, ?Hin, ?Hib, ?Hg; try done.
    + intros t'. destruct (counts_of_idle st t t') as [->|(_ & -> & _)]; [done|]. cbn. unfold u64_max. lia.
    + intros t'. destruct (counts_of_idle st t t') as [->|(_ & -> & _)]; [done|]. cbn. unfold u64_max. lia.
    + intros t' n Hn. eapply ra_fence0, (idle_unknown st t); done.
Qed.

(** Accounting that keeps the totals of owners and only lowers the bytes. *)
Definition same_custody (a a' : Accounting) : Prop :=
  reserved (totals a') = reserved (totals a) ∧ unknown (totals a') = unknown (totals a) ∧
  uncovered (totals a') = uncovered (totals a) ∧ live (totals a') = live (totals a) ∧
  repair_reserved (totals a') = repair_reserved (totals a) ∧
  repair_live (totals a') = repair_live (totals a) ∧ t_bytes (totals a') ≤ t_bytes (totals a) ∧
  physical_write_reserved a' = physical_write_reserved a ∧ (fenced a = true → fenced a' = true).
Lemma Inv_receipts st h fr o a :
  Inv adm st h fr o → same_custody (receipts st) a → Accounting_wf a →
  Inv adm (set_receipts st a) h fr o.
Proof.
  intros [Hl Hk Hp Hc Hr] (H1 & H2 & H3 & H4 & H5 & H6 & H7 & H8 & H9) Hwf. split.
  - destruct Hl. constructor; cbn; rewrite ?H1, ?H3, ?H4, ?H5, ?H6, ?H8; done.
  - destruct Hk. by constructor.
  - destruct Hp as [Ht Hpr Hpe]. constructor; [done| |done]. intros p Hpub.
    destruct (Hpr p Hpub). constructor; cbn; rewrite ?H2; try done. lia.
  - cbn. intros Hf. assert (fenced (receipts st) = false) as Hf'.
    { destruct (fenced (receipts st)); [|done]. by rewrite H9 in Hf. }
    destruct (Hc Hf'). constructor; cbn; rewrite ?H2; done.
  - destruct Hr. by constructor.
Qed.
Lemma Inv_closed st h fr o : Inv adm st h fr o → Inv adm (set_closed st) h fr o.
Proof.
  intros [[] [] [Ht Hpr Hpe] Hc []]. split; [by constructor|by constructor| | |by constructor].
  - constructor; [done| |done]. intros p Hpub. by destruct (Hpr p Hpub).
  - intros Hf. by destruct (Hc Hf).
Qed.
Lemma fenced_wf a : Accounting_wf a → Accounting_wf (set_fenced a).
Proof. intros []. by constructor. Qed.
Lemma fenced_custody a : same_custody a (set_fenced a).
Proof. unfold same_custody. split_and!; done || lia. Qed.
Lemma Inv_fence st h fr o : Inv adm st h fr o → Inv adm (fence_state st) h fr o.
Proof.
  intros Hi. apply Inv_receipts; [done|apply fenced_custody|].
  by apply fenced_wf, (ra_accounting _ _ (inv_ranges _ _ _ _ _ Hi)).
Qed.
Lemma free_space_range fs v f :
  (∀ p b s, fs p = Some (b, s) → in_u64 b ∧ in_u64 s) → free_space fs v = Some f → in_u64 f.
Proof.
  unfold free_space. intros Hfs Hf. apply bind_Some in Hf as (p & -> & Hf).
  apply bind_Some in Hf as ([b s] & Hp & Hf). destruct (Hfs _ _ _ Hp). arith.
Qed.
Lemma refresh_free_wf e a : env_ok e → Accounting_wf a → Accounting_wf (refresh_free (volumes e) a).
Proof.
  intros He [Hl Hf Ht Hw]. unfold refresh_free. destruct (volume a) as [v|]; [|by constructor].
  destruct (free_space _ _) as [f|] eqn:Hfs; [|by constructor].
  constructor; try done. cbn. eapply free_space_range; [exact He|exact Hfs].
Qed.
Lemma refresh_free_custody fs a : same_custody a (refresh_free fs a).
Proof.
  unfold same_custody. destruct (refresh_free_cases fs a) as [->|[[f ->]| ->]]; split_and!; done || lia.
Qed.
End frames.

(** ** Operations on the counts of one tenant *)

Section counts_steps.
Context (adm : Admission) (Hb : Budgets adm).
Implicit Types (st : State) (h : Arcs) (o : Owners) (fr : Z).

Definition sizes_ok o : Prop :=
  (∀ g b, uploads o !! g = Some b → 0 ≤ b) ∧ (∀ g b, writers o !! g = Some b → 0 ≤ b).
Definition queue_ok st fr : Prop :=
  NoDup (waiter_id <$> queue st) ∧ ∀ w, w ∈ queue st → waiter_id w < fr.
(** A step that leaves executions, accounting, publication and the cached counts alone. *)
Lemma Inv_counts st st' h fr fr' o o' :
  Inv adm st h fr o → fr ≤ fr' →
  executions st' = executions st → publication_pending st' = publication_pending st →
  unknown_generation st' = unknown_generation st → receipts st' = receipts st →
  leases o' = leases o → repairing o' = repairing o → publication o' = publication o →
  obligations o' = obligations o →
  (∀ t, is_Some (tenants st !! t) → is_Some (tenants st' !! t)) →
  (∀ t, c_unknown (counts_of st' t) = c_unknown (counts_of st t)) →
  Ledger st' h o' → sizes_ok o' → queue_ok st' fr' → Ranges adm st' → Inv adm st' h fr' o'.
Proof.
  intros [Hl Hk Hp Hc Hr] Hfr He Hpp Hg Hre Hle Hrep Hpub Hobl Hpres Hunk Hl' Hs Hq Hr'. split; try done.
  - destruct Hk. constructor; rewrite ?He, ?Hle, ?Hrep; try done.
    + intros k l Hkl. destruct (lk_exec0 k l Hkl). split; [done|lia].
    + intros i Hi. specialize (lk_fresh0 i Hi). lia.
    + intros i t Hi. destruct (lk_lease0 i t Hi). split; [lia|done].
  - destruct Hp as [Ht Hpr Hpe]. constructor; rewrite ?Hpp, ?Hpub, ?He; [done| |done].
    intros p Hpub'. destruct (Hpr p Hpub'). constructor; rewrite ?He, ?Hg, ?Hre; try done.
    + intros tc Htc. destruct (pr_tenant0 tc Htc) as (H1 & H2 & H3 & H4).
      split_and!; [by apply Hpres|done|done|]. intros n. rewrite Hunk. apply H4.
    + intros s Hs' Hn. rewrite Hunk. by apply pr_absent0.
  - rewrite Hre. intros Hf. destruct (Hc Hf). constructor; rewrite ?Hre, ?Hobl, ?Hpub; try done.
    intros t n. rewrite Hunk. apply co_tenant0.
Qed.

(** Removing an entry of the queue, with its tenant's count. *)
Lemma Inv_unqueue st h fr o i w :
  Inv adm st h fr o → queue st !! i = Some w →
  Inv adm (unqueue (set_queue st (delete i (queue st))) (w_tenant w)) h fr o.
Proof.
  intros Hi Hw. unfold unqueue. apply Inv_idle. pose proof Hi as [Hl Hk Hp Hc Hr].
  pose proof (list_elem_of_lookup_2 _ _ _ Hw) as Hin.
  assert (queue st ≡ₚ w :: delete i (queue st)) as Hperm by (by apply delete_Permutation).
  assert (∀ t, countb (λ w, bool_decide (w_tenant w = t)) (queue st) =
    of_bool (bool_decide (w_tenant w = t)) +
    countb (λ w, bool_decide (w_tenant w = t)) (delete i (queue st))) as Hcount.
  { intros t. unfold countb. rewrite (sum_by_perm _ _ _ Hperm). by rewrite sum_by_cons. }
  pose proof (led_queued _ _ _ Hl (w_tenant w)) as Hq. pose proof (queued_le _ _ _ Hl (w_tenant w)) as Hle.
  specialize (Hcount (w_tenant w)) as Hcw. rewrite bool_decide_eq_true_2 in Hcw by done. cbn in Hcw.
  pose proof (countb_nonneg (λ w', bool_decide (w_tenant w' = w_tenant w)) (delete i (queue st))).
  pose proof (ra_queue _ _ Hr) as Hlen. destruct Hb.
  assert (is_Some (tenants st !! w_tenant w)) as Hpres.
  { apply counts_present. intros He. rewrite He in Hq. cbn in Hq. lia. }
  assert (queued (counts_of st (w_tenant w)) -% 1 = queued (counts_of st (w_tenant w)) - 1) as Hsub.
  { apply wrapping_sub_exact. lia. }
  eapply Inv_counts; [exact Hi|lia|done..| | | | | | ].
  - intros t Ht. cbn. by rewrite lookup_alter_is_Some.
  - intros t. rewrite counts_of_get_mut by done. by destruct (decide _); [subst|].
  - destruct Hl. constructor; try done. intros t. rewrite counts_of_get_mut by done.
    specialize (Hcount t).
    change (counts_of (set_queue st (delete i (queue st))) (w_tenant w)) with (counts_of st (w_tenant w)).
    change (counts_of (set_queue st (delete i (queue st))) t) with (counts_of st t).
    destruct (decide (t = w_tenant w)) as [Ht|Ht].
    + subst t. rewrite Hsub, Hq.
      autorewrite with bitrouter. rewrite led_tally0. unfold tally, with_queued. cbn. f_equal. lia.
    + rewrite led_tally0. rewrite bool_decide_eq_false_2 in Hcount by congruence.
      unfold tally. cbn in *. f_equal. lia.
  - apply Hk.
  - destruct (lk_queue _ _ _ _ Hk) as [Hnd Hlt]. split; cbn.
    + rewrite Hperm in Hnd. cbn in Hnd. by apply NoDup_cons in Hnd as [_ ?].
    + intros w' Hw'. apply Hlt. rewrite Hperm. by right.
  - destruct Hr. constructor; try done; cbn.
    + rewrite length_delete by (by eexists). lia.
    + intros t. rewrite counts_of_get_mut by done. destruct (decide _); [subst|]; apply ra_pins0.
    + intros t. rewrite counts_of_get_mut by done. destruct (decide _); [subst|]; apply ra_repairs0.
    + intros t n. rewrite counts_of_get_mut by done. destruct (decide _); [subst|]; apply ra_fence0.
Qed.
Lemma Inv_remove st h fr o w : Inv adm st h fr o → (∀ w', w' ∈ queue st → waiter_id w' = waiter_id w → w' = w) →
  Inv adm (remove st w) h fr o.
Proof.
  intros Hi Hw. unfold remove. destruct (list_find _ _) as [[i w']|] eqn:Hf; [|done].
  apply list_find_Some in Hf as (Hi' & Hid & _).
  rewrite <-(Hw w'); [by apply Inv_unqueue|by eapply list_elem_of_lookup_2|done].
Qed.
Lemma Inv_pop_all st h fr o q : Inv adm st h fr o → queue st = q → Inv adm (pop_all st q) h fr o.
Proof.
  revert st. induction q as [|w q IH]; intros st Hi Hq; cbn; [done|]. apply IH.
  - pose proof (Inv_unqueue st h fr o 0 w Hi) as Hu. rewrite Hq in Hu. cbn in Hu. by apply Hu.
  - unfold unqueue. by destruct (idle_fields (get_mut (set_queue st q) (w_tenant w)
      (λ c, with_queued (queued c -% 1) c)) (w_tenant w)) as (_ & -> & _).
Qed.
Lemma Inv_expire_loop fuel now st h fr o i wake st' wake' :
  Inv adm st h fr o → expire_loop fuel now st i wake = Some (st', wake') → Inv adm st' h fr o.
Proof.
  revert st i wake. induction fuel as [|fuel IH]; intros st i wake Hi; cbn; [done|].
  destruct (queue st !! i) as [w|] eqn:Hw; [|by intros [= <- <-]].
  destruct (deadline w <=? now); [|by apply IH]. apply IH. by apply Inv_unqueue.
Qed.
Lemma Inv_expire st h fr o now : Inv adm st h fr o → Inv adm (expire st now).1 h fr o.
Proof.
  intros Hi. unfold expire. destruct (expire_loop _ _ _ _ _) as [[st' wake]|] eqn:He; cbn; [|done].
  by eapply Inv_expire_loop.
Qed.
End counts_steps.

(** ** Uploads, writers and learning jobs *)

(** A tally after an assignment to one tenant's counts. *)
Ltac tally_step :=
  autorewrite with bitrouter;
  match goal with Ht : ∀ t, with_unknown None (counts_of _ t) = _ |- _ => rewrite ?Ht end;
  unfold tally, with_queued, with_learning, with_active, with_uncovered, with_pins, with_repairs;
  cbn; f_equal; try reflexivity; try lia.

Section owner_steps.
Context (adm : Admission) (Hb : Budgets adm).
Implicit Types (st : State) (h : Arcs) (o : Owners) (fr : Z).

Lemma size_insert_new {V} (m : gmap Z V) g x :
  m !! g = None → Z.of_nat (size (<[g := x]> m)) = Z.of_nat (size m) + 1.
Proof. intros Hg. rewrite map_size_insert_None by done. lia. Qed.
Lemma size_delete_old {V} (m : gmap Z V) g x :
  m !! g = Some x → Z.of_nat (size (delete g m)) = Z.of_nat (size m) - 1 ∧ 1 ≤ Z.of_nat (size m).
Proof.
  intros Hg. rewrite <-(insert_delete_id m g x Hg) at 2 3.
  rewrite map_size_insert_None by apply lookup_delete_eq. lia.
Qed.
Lemma Inv_queue_ok st h fr o : Inv adm st h fr o → queue_ok st fr.
Proof. intros [_ Hk _ _ _]. apply Hk. Qed.
Lemma Inv_sizes_ok st h fr o : Inv adm st h fr o → sizes_ok o.
Proof. intros [_ Hk _ _ _]. apply Hk. Qed.

Lemma Inv_open_ingress st h fr o g b total :
  Inv adm st h fr o → uploads o !! g = None → 0 ≤ b →
  ingress_bytes st +? b = Some total → ingress st < requests (ingress_limits adm) →
  total ≤ ingress_limit (ingress_limits adm) →
  Inv adm (set_ingress st (ingress st +% 1) total) h fr (set_uploads (<[g := b]> (uploads o)) o).
Proof.
  intros Hi Hg Hbb Htot Hlt Hle. pose proof Hi as [Hl Hk Hp Hc Hr]. arith.
  pose proof (led_ingress _ _ _ Hl). destruct Hb.
  assert (ingress st +% 1 = ingress st + 1) as Hadd by (apply wrapping_add_exact; lia).
  destruct (Inv_sizes_ok _ _ _ _ Hi) as [Hu Hw].
  eapply Inv_counts; [exact Hi|lia|done..| | | |exact (Inv_queue_ok _ _ _ _ Hi)|]; try done.
  - destruct Hl. constructor; try done; cbn.
    + rewrite Hadd, size_insert_new by done. lia.
    + rewrite msum_insert_new by done. lia.
  - split; [|done]. cbn. intros g' b' [[<- <-]|[_ Hg']]%lookup_insert_Some; [done|by eapply Hu].
  - destruct Hr. constructor; try done; cbn; lia.
Qed.
Lemma Inv_close_ingress st h fr o g b :
  Inv adm st h fr o → uploads o !! g = Some b →
  Inv adm (set_ingress st (ingress st -| 1) (ingress_bytes st -| b)) h fr
    (set_uploads (delete g (uploads o)) o).
Proof.
  intros Hi Hg. pose proof Hi as [Hl Hk Hp Hc Hr].
  pose proof (led_ingress _ _ _ Hl). pose proof (led_ingress_bytes _ _ _ Hl).
  destruct (Inv_sizes_ok _ _ _ _ Hi) as [Hu Hw]. destruct (size_delete_old _ _ _ Hg) as [Hsz Hpos].
  pose proof (msum_lookup_le (λ _ b, b) (uploads o) g b Hu Hg) as Hle. cbn in Hle.
  pose proof (Hu g b Hg). unfold saturating_sub.
  eapply Inv_counts; [exact Hi|lia|done..| | | |exact (Inv_queue_ok _ _ _ _ Hi)|]; try done.
  - destruct Hl. constructor; try done; cbn; [lia|]. rewrite msum_delete, Hg. cbn. lia.
  - split; [|done]. cbn. intros g' b' [_ Hg']%lookup_delete_Some. by eapply Hu.
  - destruct Hr. constructor; try done; cbn; lia.
Qed.
Lemma Inv_writes st h fr o n m :
  Inv adm st h fr o → n = msum (λ _ b, b) m → in_u64 n → (∀ g b, m !! g = Some b → 0 ≤ b) →
  Inv adm (set_receipts st (set_writes (receipts st) n)) h fr (set_writers m o).
Proof.
  intros [Hl Hk Hp Hc Hr] Hn Hu Hm. split.
  - destruct Hl. by constructor.
  - destruct Hk. constructor; try done. by split; [apply lk_sizes0|].
  - destruct Hp as [Ht Hpr Hpe]. constructor; [done| |done]. intros p Hpub. by destruct (Hpr p Hpub).
  - intros Hf. by destruct (Hc Hf).
  - destruct Hr. constructor; try done. destruct ra_accounting0. by constructor.
Qed.
Lemma Inv_learn st h fr o g t :
  Inv adm st h fr o → learners o !! g = None → learning st < 8 → c_learning (counts_of st t) < 8 →
  Inv adm (entry_update (set_learning st (learning st +% 1)) t
             (λ c, with_learning (c_learning c +% 1) c)) h fr (set_learners (<[g := t]> (learners o)) o).
Proof.
  intros Hi Hg Hl8 Hc8. pose proof Hi as [Hl Hk Hp Hc Hr].
  pose proof (led_learning _ _ _ Hl). pose proof (c_learning_le _ _ _ Hl t) as Hct.
  assert (learning st +% 1 = learning st + 1) as Hadd by (apply wrapping_add_exact; unfold u64_max; lia).
  assert (c_learning (counts_of st t) +% 1 = c_learning (counts_of st t) + 1) as Hadd'
    by (apply wrapping_add_exact; unfold u64_max; lia).
  eapply Inv_counts; [exact Hi|lia|done..| | | | |exact (Inv_queue_ok _ _ _ _ Hi)|].
  - intros t' Ht'. cbn. destruct (decide (t' = t)) as [->|Hne];
      [by rewrite lookup_insert_eq|by rewrite lookup_insert_ne].
  - intros t'. rewrite counts_of_entry_update. destruct (decide (t' = t)) as [->|]; done.
  - pose proof (led_c_learning _ _ _ Hl t) as Hlt. destruct Hl. constructor; try done.
    + intros t'. rewrite counts_of_entry_update.
      change (counts_of (set_learning st (learning st +% 1))) with (counts_of st).
      destruct (decide (t' = t)) as [->|Hne].
      * rewrite Hadd', Hlt. tally_step. rewrite mcount_insert_new by done.
        rewrite named_eq. cbn. lia.
      * tally_step. rewrite mcount_insert_new by done.
        by rewrite named_ne by congruence.
    + cbn. rewrite Hadd, size_insert_new by done. lia.
  - exact (Inv_sizes_ok _ _ _ _ Hi).
  - destruct Hr. constructor; try done; cbn; [lia| | |].
    all: intros t'; rewrite counts_of_entry_update; destruct (decide (t' = t)) as [->|]; eauto.
    + apply ra_pins0.
    + apply ra_repairs0.
    + apply ra_fence0.
Qed.
Lemma Inv_unlearn st h fr o g t :
  Inv adm st h fr o → learners o !! g = Some t →
  Inv adm (idle (get_mut (set_learning st (learning st -| 1)) t
             (λ c, with_learning (c_learning c -| 1) c)) t) h fr (set_learners (delete g (learners o)) o).
Proof.
  intros Hi Hg. apply Inv_idle. pose proof Hi as [Hl Hk Hp Hc Hr].
  pose proof (led_learning _ _ _ Hl). destruct (size_delete_old _ _ _ Hg) as [Hsz Hpos].
  pose proof (led_c_learning _ _ _ Hl t) as Hlt.
  assert (1 ≤ mcount (named t) (learners o)) as Hpos'.
  { eapply mcount_pos; [exact Hg|]. unfold named. by apply bool_decide_eq_true. }
  assert (is_Some (tenants st !! t)) as Hpres.
  { apply counts_present. intros He. rewrite He in Hlt. cbn in Hlt. lia. }
  unfold saturating_sub.
  eapply Inv_counts; [exact Hi|lia|done..| | | | |exact (Inv_queue_ok _ _ _ _ Hi)|].
  - intros t' Ht'. cbn. by rewrite lookup_alter_is_Some.
  - intros t'. rewrite counts_of_get_mut by done. destruct (decide (t' = t)) as [->|]; done.
  - destruct Hl. constructor; try done.
    + intros t'. rewrite counts_of_get_mut by done.
      match goal with |- context [counts_of (set_learning st ?n)] =>
        change (counts_of (set_learning st n)) with (counts_of st) end.
      destruct (decide (t' = t)) as [->|Hne].
      * rewrite Hlt. tally_step. rewrite (mcount_delete _ _ _ _ Hg).
        rewrite named_eq. cbn. lia.
      * tally_step. rewrite (mcount_delete _ _ _ _ Hg).
        rewrite named_ne by congruence. cbn. lia.
    + cbn. lia.
  - exact (Inv_sizes_ok _ _ _ _ Hi).
  - destruct Hr. constructor; try done; cbn; [lia| | |].
    all: intros t'; rewrite counts_of_get_mut by done; destruct (decide (t' = t)) as [->|].
    all: first [apply ra_pins0|apply ra_repairs0|apply ra_fence0].
Qed.
End owner_steps.
