(* ===== verification/TenancyLease.v ===== *)
(** Leases: granting, waiting, binding and releasing an execution keep the invariant of tenant
    admission, and a release never fails. *)
From stdpp Require Import base list strings gmap sorting.
From Stdlib Require Import ZArith Lia.
From S2P Require Import Prelude MapSum TenancyCapacity TenancyState TenancyAdmission TenancyUnknown TenancySystem TenancyLedger.
Open Scope Z_scope.
#[local] Arguments countb : simpl never.
#[local] Arguments sum_by : simpl never.
#[local] Arguments msum : simpl never.
#[local] Arguments mcount : simpl never.
#[local] Arguments resolve : simpl never.
#[local] Arguments pinned : simpl never.

(** ** The heap of completions *)

Section heap.
Implicit Types (h : Arcs) (o : Owners).

Lemma completion_insert h i c j :
  completion (<[i := c]> h) j = if decide (j = i) then c else completion h j.
Proof.
  unfold completion. destruct (decide (j = i)) as [->|Hne].
  - by rewrite lookup_insert_eq.
  - by rewrite lookup_insert_ne.
Qed.
(** A view does not see the completions of others. *)
Lemma resolve_ext h h' (m : gmap Key Live) :
  (∀ k l, m !! k = Some l → done (completion h' (owner l)) = done (completion h (owner l))) →
  resolve h' m = resolve h m.
Proof.
  intros Hd. apply map_eq. intros k. unfold resolve. rewrite !lookup_fmap.
  destruct (m !! k) as [l|] eqn:Hk; cbn; [|done]. by rewrite (Hd k l Hk).
Qed.
Lemma resolve_lookup h m k :
  resolve h m !! k = (λ l, (l, done (completion h (owner l)))) <$> m !! k.
Proof. apply lookup_fmap. Qed.
Lemma resolve_insert h m k l :
  resolve h (<[k := l]> m) = <[k := (l, done (completion h (owner l)))]> (resolve h m).
Proof. unfold resolve. by rewrite fmap_insert. Qed.
Lemma resolve_delete h m k : resolve h (delete k m) = delete k (resolve h m).
Proof. unfold resolve. by rewrite fmap_delete. Qed.
Lemma unbound_ext h h' o :
  (∀ i t, leases o !! i = Some t → c_execution (completion h' i) = c_execution (completion h i)) →
  unbound h' o = unbound h o ∧ ∀ t, unbound_of h' o t = unbound_of h o t.
Proof.
  intros He. split; [|intros t].
  - apply mcount_ext. intros i t Hi. unfold is_unbound. by rewrite (He i t Hi).
  - apply mcount_ext. intros i t' Hi. unfold is_unbound. by rewrite (He i t' Hi).
Qed.
End heap.

Section admission_steps.
Context (adm : Admission) (Hb : Budgets adm).
Implicit Types (st : State) (h : Arcs) (o : Owners) (fr : Z) (t : TenantId).

Lemma State_reserve_ok st t st' :
  State_reserve st t = Ok st' →
  ∃ n, tenant_unknown st t = Some n ∧ ready (receipts st) n (c_uncovered (counts_of st t)) = true ∧
    c_uncovered (counts_of st t) + 1 ≤ u64_max ∧
    ∃ a, Accounting_reserve (receipts st) n (c_uncovered (counts_of st t)) = Ok a ∧
    executions st' = executions st ∧ queue st' = queue st ∧ receipts st' = a ∧
    publication_pending st' = publication_pending st ∧ closed st' = closed st ∧
    unknown_generation st' = unknown_generation st ∧ active st' = active st +% 1 ∧
    learning st' = learning st ∧ ingress st' = ingress st ∧ ingress_bytes st' = ingress_bytes st ∧
    (∀ t', counts_of st' t' = if decide (t' = t) then
       with_active (c_active (counts_of st t) +% 1)
         (with_uncovered (c_uncovered (counts_of st t) + 1) (with_unknown (Some n) (counts_of st t)))
       else counts_of st t') ∧
    (∀ t', is_Some (tenants st' !! t') ↔ t' = t ∨ is_Some (tenants st !! t')).
Proof.
  unfold State_reserve. intros Hs. res_inv. arith.
  match goal with H : Accounting_reserve _ _ _ = Ok _ |- _ => rename H into Ha end.
  pose proof (Accounting_reserve_ok _ _ _ _ Ha) as (Hr & _).
  eexists. split; [done|]. split; [done|]. split; [done|]. eexists. split; [exact Ha|].
  do 10 (split; [done|]). split.
  - intros t'. rewrite counts_of_entry_update.
    match goal with |- context [set_active ?s ?n] =>
      change (counts_of (set_active s n)) with (counts_of s) end.
    rewrite !counts_of_entry_update. cbn.
    destruct (decide (t' = t)) as [->|Hne]; [|done]. by rewrite decide_True by done.
  - intros t'. cbn. rewrite !lookup_insert_is_Some. destruct (decide (t' = t)) as [->|Hne].
    + split; [by left|by left].
    + split; [intros [|[_ [|[_ ?]]]]; auto; congruence|intros [|]; [done|right; split; [congruence|right; split; [congruence|done]]]].
Qed.
Lemma tenant_unknown_owed st o t n :
  Coherent st o → tenant_unknown st t = Some n → n = owed_by t (obligations o).
Proof.
  intros [Ht Hc _]. unfold tenant_unknown. specialize (Hc t). unfold counts_of in Hc.
  destruct (tenants st !! t ≫= c_unknown) as [m|] eqn:Hm.
  - intros [= <-]. apply bind_Some in Hm as (c & Hcc & Hm). apply Hc. by rewrite Hcc.
  - destruct (_ =? 0) eqn:H0; [|done]. intros [= <-]. arith. rewrite Ht in H0.
    unfold owed_by. pose proof (subseteq_size (filter (λ k, key_tenant k = t) (obligations o))
      (obligations o) ltac:(set_solver)). lia.
Qed.
Lemma tenant_unknown_range st t n :
  Ranges adm st → tenant_unknown st t = Some n → in_u64 n.
Proof.
  intros Hr. unfold tenant_unknown. pose proof (ra_fence _ _ Hr t) as Hf. unfold counts_of in Hf.
  destruct (tenants st !! t ≫= c_unknown) as [m|] eqn:Hm.
  - intros [= <-]. apply bind_Some in Hm as (c & Hcc & Hm). apply Hf. by rewrite Hcc.
  - destruct (_ =? 0); [|done]. intros [= <-]. unfold in_u64, u64_max. lia.
Qed.
Lemma receipts_ready_pending st t : TenancyState.receipts_ready st t = true → publication_pending st = None.
Proof. unfold TenancyState.receipts_ready. intros H. arith. done. Qed.
Lemma find_eligible_ready st seen q w :
  find_eligible st seen q = Some w →
  w ∈ q ∧ TenancyState.receipts_ready st (w_tenant w) = true ∧
  c_active (counts_of st (w_tenant w)) < active_limit w.
Proof.
  revert seen. induction q as [|w' q IH]; intros seen; cbn; [done|].
  destruct (bool_decide _ && _ && _) eqn:Hc.
  - intros [= <-]. arith. split; [left|]. split; [done|]. unfold counts_of.
    match goal with H : is_some_and _ _ = true |- _ => revert H end.
    destruct (tenants st !! w_tenant w'); cbn; [|done]. intros. arith.
  - intros Hf. destruct (IH _ Hf) as (? & ? & ?). split; [by right|done].
Qed.
Lemma next_eligible_ready st w :
  next_eligible st (profile adm) = Some w →
  w ∈ queue st ∧ closed st = false ∧ active st < p_instance_active (profile adm) ∧
  TenancyState.receipts_ready st (w_tenant w) = true ∧
  c_active (counts_of st (w_tenant w)) < active_limit w.
Proof.
  unfold next_eligible. destruct (closed st || _) eqn:Hc; [done|]. intros Hf.
  destruct (find_eligible_ready _ _ _ _ Hf) as (? & ? & ?). arith. by split_and!.
Qed.

(** A reservation together with the lease that owns it. *)
Lemma Inv_grant st h fr o t st' :
  Inv adm st h fr o → State_reserve st t = Ok st' → publication_pending st = None →
  active st < p_instance_active (profile adm) →
  Inv adm st' (<[fr := Completion_default]> h) (fr + 1) (set_leases (<[fr := t]> (leases o)) o).
Proof.
  intros [Hl Hk Hp Hc Hr] Hs Hnone Hact.
  destruct (State_reserve_ok _ _ _ Hs) as (n & Hn & Hrdy & Hu1 & a & Ha & He & Hq & Hre & Hpp & _ & Hg &
    Hac & Hle & Hin & Hib & Hcnt & Hpres).
  destruct (Accounting_reserve_ok _ _ _ _ Ha) as (_ & Haeq & Hr1 & Hr2 & Hr3).
  pose proof (c_active_le _ _ _ Hl t) as Hca. destruct Hb.
  rewrite wrapping_add_exact in Hac by lia.
  assert (∀ k l, executions st !! k = Some l → owner l ≠ fr) as Hfresh.
  { intros k l Hkl. destruct (lk_exec _ _ _ _ Hk k l Hkl). lia. }
  assert (leases o !! fr = None) as Hnew.
  { destruct (leases o !! fr) eqn:Hf; [|done]. destruct (lk_lease _ _ _ _ Hk fr _ Hf). lia. }
  assert (∀ i, i ≠ fr → completion (<[fr := Completion_default]> h) i = completion h i) as Hcomp.
  { intros i Hi. rewrite completion_insert. by destruct (decide (i = fr)). }
  assert (completion (<[fr := Completion_default]> h) fr = Completion_default) as Hcfr.
  { rewrite completion_insert. by destruct (decide (fr = fr)). }
  assert (resolve (<[fr := Completion_default]> h) (executions st) = resolve h (executions st)) as Hres.
  { apply resolve_ext. intros k l Hkl. by rewrite Hcomp by exact (Hfresh k l Hkl). }
  set (h' := <[fr := Completion_default]> h) in *.
  set (o' := set_leases (<[fr := t]> (leases o)) o).
  assert (∀ i t', leases o !! i = Some t' → i ≠ fr) as Hlne by (intros i t' Hi ->; congruence).
  destruct (unbound_ext h h' o) as [Hub Hubo]; [intros i t' Hi; by rewrite Hcomp by by eapply Hlne|].
  assert (is_unbound h' fr t = true) as Hun by (unfold is_unbound; by rewrite Hcfr).
  assert (unbound h' o' = unbound h o + 1) as Hub'.
  { rewrite <-Hub. unfold unbound at 1, o'. cbn. rewrite mcount_insert_new by done.
    rewrite Hun. unfold unbound. cbn. lia. }
  assert (∀ t', unbound_of h' o' t' = unbound_of h o t' + of_bool (bool_decide (t = t'))) as Hubo'.
  { intros t'. rewrite <-Hubo. unfold unbound_of at 1, o'. cbn. rewrite mcount_insert_new by done.
    rewrite Hun, andb_true_r. unfold unbound_of. lia. }
  split.
  - destruct Hl. constructor; rewrite ?Hub', ?He, ?Hres, ?Hre, ?Haeq, ?Hac, ?Hle, ?Hin, ?Hib; cbn;
      try done; try (change (charged_all o') with (charged_all o); unfold RESERVATION in *; lia).
    intros t'. rewrite Hcnt. unfold tally. rewrite He, Hq, Hres, Hubo'.
    destruct (decide (t' = t)) as [->|Hne].
    + rewrite wrapping_add_exact by lia. pose proof (led_tally t) as Ht.
      autorewrite with bitrouter. rewrite Ht. unfold tally, with_active, with_uncovered. cbn.
      rewrite bool_decide_eq_true_2 by done. cbn.
      replace (c_active (counts_of st t)) with (c_active (tally st h o t)) by (by rewrite <-Ht).
      replace (c_uncovered (counts_of st t)) with (c_uncovered (tally st h o t)) by (by rewrite <-Ht).
      cbn. f_equal; try done; lia.
    + rewrite led_tally. unfold tally. rewrite bool_decide_eq_false_2 by congruence. cbn.
      f_equal; try done; lia.
  - destruct Hk. constructor; rewrite ?He, ?Hq; cbn; try done.
    + intros k l Hkl. rewrite Hcomp by exact (Hfresh k l Hkl). destruct (lk_exec k l Hkl). split; [done|lia].
    + unfold h'. intros i Hi. apply lookup_insert_is_Some in Hi as [->|[_ Hi]]; [lia|].
      specialize (lk_fresh i Hi). lia.
    + intros i t' [[<- <-]|[Hne Hi]]%lookup_insert_Some; [rewrite Hcfr; split; [lia|done]|].
      rewrite Hcomp by done. destruct (lk_lease i t' Hi). split; [lia|done].
    + intros k l Hkl Hrp Hdr. rewrite lookup_insert_ne; [by apply lk_owner|].
      intros Heq. by apply (Hfresh k l Hkl).
    + intros k l Hkl. rewrite Hcomp by exact (Hfresh k l Hkl). exact (lk_flags k l Hkl).
    + destruct lk_queue as [? Hlt]. split; [done|]. intros w Hw. specialize (Hlt w Hw). lia.
  - destruct Hp as [Ht Hpr Hpe]. rewrite Hnone in Ht. constructor; rewrite ?Hpp, ?Hnone, ?He; cbn; [done| |done].
    intros p Hpub. by rewrite Hpub in Ht.
  - rewrite Hre, Haeq. cbn. intros Hf. specialize (Hc Hf).
    pose proof (tenant_unknown_owed _ _ _ _ Hc Hn) as Hno. destruct Hc.
    constructor; rewrite ?Hre, ?Haeq; cbn; try done.
    intros t' m. rewrite Hcnt. destruct (decide (t' = t)) as [->|Hne]; [|apply co_tenant].
    cbn. by intros [= <-].
  - pose proof (tenant_unknown_range _ _ _ Hr Hn) as Hnr.
    pose proof (led_reserved _ _ _ Hl). destruct Hr.
    constructor; rewrite ?Hac, ?Hq, ?Hle, ?Hin, ?Hib, ?Hg, ?Hre; try done; try lia.
    + rewrite Haeq. destruct ra_accounting as [? ? [] ?]. constructor; cbn; try done.
      assert (0 < RESERVATION) by done. constructor; cbn; unfold in_u64 in *; lia.
    + intros t'. rewrite Hcnt. destruct (decide (t' = t)) as [->|]; cbn; apply ra_pins.
    + intros t'. rewrite Hcnt. destruct (decide (t' = t)) as [->|]; cbn; apply ra_repairs.
    + intros t' m. rewrite Hcnt. destruct (decide (t' = t)) as [->|]; cbn; [by intros [= <-]|apply ra_fence].
Qed.
End admission_steps.

(** ** Waiting, binding and releasing *)

Section lease_steps.
Context (adm : Admission) (Hb : Budgets adm).
Implicit Types (st : State) (h : Arcs) (o : Owners) (fr : Z) (t : TenantId).

Lemma Inv_push st h fr o t limit dl :
  Inv adm st h fr o → Z.of_nat (length (queue st)) < p_instance_queue (profile adm) →
  Inv adm (set_queue (entry_update st t (λ c, with_queued (queued c +% 1) c))
    (queue st ++ [{| waiter_id := fr; w_tenant := t; active_limit := limit; deadline := dl |}]))
    h (fr + 1) o.
Proof.
  intros Hi Hlt. pose proof Hi as [Hl Hk Hp Hc Hr]. destruct Hb.
  pose proof (queued_le _ _ _ Hl t) as Hq.
  assert (queued (counts_of st t) +% 1 = queued (counts_of st t) + 1) as Hadd
    by (apply wrapping_add_exact; lia).
  set (w := {| waiter_id := fr; w_tenant := t; active_limit := limit; deadline := dl |}).
  assert (∀ t', counts_of (set_queue (entry_update st t (λ c, with_queued (queued c +% 1) c))
    (queue st ++ [w])) t' = if decide (t' = t) then with_queued (queued (counts_of st t) + 1) (counts_of st t)
    else counts_of st t') as Hcnt.
  { intros t'. rewrite <-Hadd, <-counts_of_entry_update. done. }
  eapply Inv_counts; [exact Hi|lia|done..| | | |exact (Inv_sizes_ok _ _ _ _ _ Hi)| |].
  - intros t' Ht'. cbn. destruct (decide (t' = t)) as [->|Hne];
      [by rewrite lookup_insert_eq|by rewrite lookup_insert_ne].
  - intros t'. rewrite Hcnt. by destruct (decide (t' = t)) as [->|].
  - pose proof (led_queued _ _ _ Hl t) as Hlq. destruct Hl. constructor; try done.
    intros t'. rewrite Hcnt. destruct (decide (t' = t)) as [->|Hne].
    + rewrite Hlq. tally_step. rewrite countb_app, countb_cons. cbn.
      rewrite bool_decide_eq_true_2 by done. unfold countb, sum_by. cbn. lia.
    + tally_step. rewrite countb_app, countb_cons. cbn.
      rewrite bool_decide_eq_false_2 by congruence. unfold countb, sum_by. cbn. lia.
  - destruct (lk_queue _ _ _ _ Hk) as [Hnd Hfr]. split; cbn.
    + rewrite fmap_app. apply NoDup_app. split_and!; [done| |by apply NoDup_singleton].
      intros x Hx. apply list_elem_of_fmap in Hx as (w' & -> & Hw'). cbn.
      rewrite list_elem_of_singleton. specialize (Hfr w' Hw'). lia.
    + intros w' [Hw'| ->%list_elem_of_singleton]%elem_of_app; cbn; [|lia]. specialize (Hfr w' Hw'). lia.
  - destruct Hr. constructor; try done; cbn.
    + rewrite length_app. cbn. lia.
    + intros t'. change (pins (counts_of (set_queue (entry_update st t (λ c, with_queued (queued c +% 1) c))
        (queue st ++ [w])) t') ≤ u64_max). rewrite Hcnt. destruct (decide (t' = t)) as [->|]; apply ra_pins.
    + intros t'. change (repairs (counts_of (set_queue (entry_update st t (λ c, with_queued (queued c +% 1) c))
        (queue st ++ [w])) t') ≤ u64_max). rewrite Hcnt. destruct (decide (t' = t)) as [->|]; apply ra_repairs.
    + intros t' n. change (c_unknown (counts_of (set_queue (entry_update st t (λ c, with_queued (queued c +% 1) c))
        (queue st ++ [w])) t') = Some n → in_u64 n). rewrite Hcnt. destruct (decide (t' = t)) as [->|]; apply ra_fence.
Qed.

Lemma Inv_bind st h fr o i t e :
  Inv adm st h fr o → leases o !! i = Some t → c_execution (completion h i) = None →
  executions st !! {| key_tenant := t; key_execution := e |} = None →
  Inv adm (set_executions st (<[{| key_tenant := t; key_execution := e |} :=
    {| owner := i; covered := false; pending := false; dropped := false; repair := false;
       published := false |}]> (executions st)))
    (<[i := {| c_execution := Some e; done := done (completion h i) |}]> h) fr o.
Proof.
  intros [Hl Hk Hp Hc Hr] Hi Hnone Hnew. set (k := {| key_tenant := t; key_execution := e |}) in *.
  set (live := {| owner := i; covered := false; pending := false; dropped := false; repair := false;
       published := false |}).
  set (h' := <[i := _]> h). destruct (lk_lease _ _ _ _ Hk i t Hi) as [Hfr Hd]. rewrite Hnone in Hd.
  assert (∀ k' l, executions st !! k' = Some l → owner l ≠ i) as Hother.
  { intros k' l Hkl Heq. destruct (lk_exec _ _ _ _ Hk k' l Hkl) as [Hex _]. rewrite Heq in Hex. congruence. }
  assert (∀ j, j ≠ i → completion h' j = completion h j) as Hcomp.
  { intros j Hj. unfold h'. rewrite completion_insert. by destruct (decide (j = i)). }
  assert (completion h' i = {| c_execution := Some e; done := false |}) as Hci.
  { unfold h'. rewrite completion_insert, Hd. by destruct (decide (i = i)). }
  assert (resolve h' (<[k := live]> (executions st)) = <[k := (live, false)]> (resolve h (executions st))) as Hres.
  { rewrite resolve_insert. cbn. rewrite Hci. cbn. f_equal. apply resolve_ext.
    intros k' l Hkl. by rewrite Hcomp by exact (Hother k' l Hkl). }
  assert (resolve h (executions st) !! k = None) as Hvk by (by rewrite resolve_lookup, Hnew).
  assert (∀ f, mcount (λ j t', f t' && is_unbound h' j t') (leases o) =
    mcount (λ j t', f t' && is_unbound h j t') (leases o) - of_bool (f t)) as Hun.
  { intros f. rewrite !(mcount_split _ (leases o) i t Hi).
    rewrite (mcount_ext (λ j t', f t' && is_unbound h' j t') (λ j t', f t' && is_unbound h j t') (delete i (leases o))).
    - unfold is_unbound. rewrite Hci, Hnone. cbn. destruct (f t); cbn; lia.
    - intros j t' [Hj _]%lookup_delete_Some. unfold is_unbound. by rewrite Hcomp by congruence. }
  assert (∀ t' f, f (live, false) = true → of_tenant t' f k (live, false) = bool_decide (t = t')) as Hof.
  { intros t' f Hf. unfold of_tenant. cbn. by rewrite Hf, andb_true_r. }
  assert (unbound h' o = unbound h o - 1) as Hub by apply (Hun (λ _, true)).
  assert (∀ t', unbound_of h' o t' = unbound_of h o t' - of_bool (bool_decide (t = t'))) as Hubo
    by (intros t'; apply (Hun (λ t0, bool_decide (t0 = t')))).
  split.
  - destruct Hl. constructor; cbn; rewrite ?Hub, ?Hres; cbn;
      rewrite ?mcount_insert_new by done; try done.
    all: try (unfold any_key, of_tenant, is_open, is_ordinary, is_repair, is_bare, is_running; cbn;
      fold is_open is_ordinary is_repair is_bare is_running).
    all: try (unfold any_key, of_tenant, is_open, is_ordinary, is_repair, is_bare, is_running in *; cbn in *; lia).
    + intros t'. change (counts_of (set_executions st (<[k := live]> (executions st))) t') with (counts_of st t').
      rewrite led_tally. unfold tally. cbn. rewrite Hubo, Hres, !mcount_insert_new by done.
      rewrite !Hof by done. f_equal; try done; lia.
    + intros t'. rewrite ?mcount_insert_new by done. rewrite <-led_repair_of.
      unfold of_tenant, is_repair. cbn. rewrite andb_false_r. cbn. lia.
  - destruct Hk. constructor; cbn; try done.
    + intros k' l [[<- <-]|[Hne Hkl]]%lookup_insert_Some; [cbn; by rewrite Hci|].
      rewrite Hcomp by exact (Hother k' l Hkl). by apply lk_exec.
    + intros k1 k2 l1 l2 [[<- <-]|[Hne1 Hk1]]%lookup_insert_Some [[<- <-]|[Hne2 Hk2]]%lookup_insert_Some Heq; try done.
      * by destruct (Hother _ _ Hk2).
      * by destruct (Hother _ _ Hk1).
      * by eapply lk_inj.
    + intros j Hj. unfold h' in Hj. apply lookup_insert_is_Some in Hj as [->|[_ Hj]]; [done|auto].
    + intros j t' Hj. destruct (decide (j = i)) as [->|Hne].
      * rewrite Hci. cbn. rewrite Hi in Hj. injection Hj as <-. split; [done|]. exists live.
        by rewrite lookup_insert_eq.
      * rewrite Hcomp by done. destruct (lk_lease j t' Hj) as [? Hle]. split; [done|].
        destruct (c_execution (completion h j)); [|done]. destruct Hle as (l & Hkl & <- & ? & ?).
        exists l. rewrite lookup_insert_ne; [done|]. intros Heq. rewrite <-Heq in Hkl. congruence.
    + intros k' l [[<- <-]|[Hne Hkl]]%lookup_insert_Some; [done|]. by apply lk_owner.
    + intros k' l [[<- <-]|[Hne Hkl]]%lookup_insert_Some; [cbn; by rewrite Hci|].
      rewrite Hcomp by exact (Hother k' l Hkl). exact (lk_flags _ _ Hkl).
    + intros g r Hg. destruct (lk_repair g r Hg) as (? & ? & ? & Hkeys). split_and!; [done..|].
      intros k' Hk'. destruct (Hkeys k' Hk') as (? & l & Hkl & ?). split; [done|]. exists l.
      rewrite lookup_insert_ne; [done|]. intros Heq. rewrite <-Heq in Hkl. congruence.
  - destruct Hp as [Ht Hpr Hpe]. constructor; cbn; [done| |].
    + intros p Hpub. destruct (Hpr p Hpub). constructor; cbn; try done.
      intros s j Hs Hown. destruct (pr_step s j Hs Hown) as ((l & Hkl & Hol & Hrest) & Hdj & Hin).
      assert (j ≠ i) as Hji by (intros ->; by apply (Hother _ _ Hkl)).
      split_and!; [|by rewrite Hcomp by done|done]. exists l. rewrite lookup_insert_ne; [done|].
      intros Heq. rewrite <-Heq in Hkl. congruence.
    + intros k' l [[<- <-]|[Hne Hkl]]%lookup_insert_Some; [done|]. by apply Hpe.
  - intros Hf. by destruct (Hc Hf).
  - destruct Hr. by constructor.
Qed.
End lease_steps.

Section release.
Context (adm : Admission) (Hb : Budgets adm).
Implicit Types (st : State) (h : Arcs) (o : Owners) (fr : Z) (t : TenantId).

Definition owners_without o (i : Z) : Owners := set_leases (delete i (leases o)) o.
(** Dropping a lease whose publication is pending only marks its entry. *)
Lemma Inv_release_pending st h fr o i t k l :
  Inv adm st h fr o → leases o !! i = Some t → executions st !! k = Some l → owner l = i →
  key_tenant k = t → repair l = false → pending l = true →
  c_execution (completion h i) = Some (key_execution k) →
  Inv adm (set_executions st (alter mark_dropped k (executions st))) h fr (owners_without o i).
Proof.
  intros [Hl Hk Hp Hc Hr] Hi Hkl Hol Hkt Hrp Hpend Hex.
  rewrite (alter_as_insert _ _ _ _ Hkl).
  assert (resolve h (<[k := mark_dropped l]> (executions st)) =
    <[k := (mark_dropped l, done (completion h i))]> (resolve h (executions st))) as Hres.
  { rewrite resolve_insert. cbn. by rewrite Hol. }
  assert (resolve h (executions st) !! k = Some (l, done (completion h i))) as Hvk.
  { rewrite resolve_lookup, Hkl. cbn. by rewrite Hol. }
  assert (is_unbound h i t = false) as Hunb by (unfold is_unbound; by rewrite Hex).
  assert (unbound h (owners_without o i) = unbound h o) as Hub.
  { unfold unbound, owners_without. cbn. rewrite (mcount_delete _ _ _ _ Hi), Hunb. cbn. lia. }
  assert (∀ t', unbound_of h (owners_without o i) t' = unbound_of h o t') as Hubo.
  { intros t'. unfold unbound_of, owners_without. cbn. rewrite (mcount_delete _ _ _ _ Hi), Hunb, andb_false_r.
    cbn. lia. }
  assert (∀ f : Key → Live * bool → bool, (∀ v d, f k (mark_dropped v, d) = f k (v, d)) →
    mcount f (<[k := (mark_dropped l, done (completion h i))]> (resolve h (executions st))) =
    mcount f (resolve h (executions st))) as Hcount.
  { intros f Hf. rewrite (mcount_insert _ _ _ _ _ Hvk), Hf. lia. }
  split.
  - destruct Hl. constructor; cbn; rewrite ?Hub, ?Hres, ?Hcount by done; try done.
    + intros t'. change (counts_of (set_executions st ?m) t') with (counts_of st t').
      replace (counts_of _ t') with (counts_of st t') by done.
      rewrite led_tally. unfold tally. cbn. by rewrite Hubo, Hres, !Hcount by done.
    + intros t'. by rewrite Hcount.
  - destruct Hk. constructor; cbn; try done.
    + intros k' l' [[<- <-]|[Hne Hk']]%lookup_insert_Some; [exact (lk_exec _ _ Hkl)|exact (lk_exec _ _ Hk')].
    + intros k1 k2 l1 l2 [[<- <-]|[Hne1 Hk1]]%lookup_insert_Some [[<- <-]|[Hne2 Hk2]]%lookup_insert_Some Heq;
        cbn in *; try done; by eapply lk_inj.
    + intros j t' [Hji Hj]%lookup_delete_Some. destruct (lk_lease j t' Hj) as [? Hle]. split; [done|].
      destruct (c_execution (completion h j)) as [e|]; [|done]. destruct Hle as (l' & Hkl' & Hol' & ? & ?).
      exists l'. rewrite lookup_insert_ne; [done|]. intros Heq. rewrite <-Heq, Hkl in Hkl'.
      injection Hkl' as <-. congruence.
    + intros k' l' [[<- <-]|[Hne Hk']]%lookup_insert_Some Hrp' Hdr; [done|].
      rewrite lookup_delete_ne; [by apply lk_owner|]. intros Heq. apply Hne.
      eapply lk_inj; [exact Hkl|exact Hk'|congruence].
    + intros k' l' [[<- <-]|[Hne Hk']]%lookup_insert_Some; [|exact (lk_flags _ _ Hk')].
      cbn. split; [|done]. apply (lk_flags _ _ Hkl).
    + intros g r Hg. destruct (lk_repair g r Hg) as (? & ? & ? & Hkeys). split_and!; [done..|].
      intros k' Hk'. destruct (Hkeys k' Hk') as (? & l' & Hkl' & Hrep). split; [done|]. exists l'.
      rewrite lookup_insert_ne; [done|]. intros <-. rewrite Hkl in Hkl'. congruence.
  - destruct Hp as [Ht Hpr Hpe]. constructor; cbn; [done| |].
    + intros p Hpub. destruct (Hpr p Hpub). constructor; cbn; try done.
      intros s j Hs Hown. destruct (pr_step s j Hs Hown) as ((l' & Hkl' & Hol' & Hrest) & Hdj & Hin).
      split_and!; [|done|done]. destruct (decide (step_key s = k)) as [Heq|Hne].
      * rewrite Heq in *. rewrite lookup_insert_eq. rewrite Hkl in Hkl'. injection Hkl' as <-.
        by exists (mark_dropped l).
      * exists l'. by rewrite lookup_insert_ne.
    + intros k' l' [[<- <-]|[Hne Hk']]%lookup_insert_Some; [|by apply Hpe].
      exact (Hpe k l Hkl).
  - intros Hf. by destruct (Hc Hf).
  - destruct Hr. by constructor.
Qed.

(** What a released lease takes from the counts: its slot, and unless it is done its reservation. *)
Definition freed_totals (t : Totals) (open bare : bool) : Totals := {|
  reserved := reserved t - RESERVATION * of_bool open; t_bytes := t_bytes t;
  history_bytes := history_bytes t; history_rows := history_rows t; oauth_bytes := oauth_bytes t;
  unknown := unknown t; uncovered := uncovered t - of_bool bare; live := live t - of_bool open;
  repair_reserved := repair_reserved t; repair_live := repair_live t |}.
Definition freed_counts (bare : bool) (c : Counts) : Counts :=
  with_uncovered (c_uncovered c - of_bool bare) (with_active (c_active c - 1) c).
Definition freed st t (open bare : bool) (execs : gmap Key Live) : State :=
  set_executions (get_mut (set_active (set_receipts st
    (set_totals (receipts st) (freed_totals (totals (receipts st)) open bare))) (active st - 1)) t
    (freed_counts bare)) execs.

(** The common part: the counts lose exactly what the owners lose. *)
Lemma Inv_freed st h h' fr o i t open bare execs :
  Inv adm st h fr o → is_Some (tenants st !! t) →
  Links (set_executions st execs) h' fr (owners_without o i) →
  Pending_ (set_executions st execs) h' (owners_without o i) →
  unbound h' (owners_without o i) + mcount (any_key is_ordinary) (resolve h' execs) =
    unbound h o + mcount (any_key is_ordinary) (resolve h (executions st)) - 1 →
  unbound h' (owners_without o i) + mcount (any_key is_open) (resolve h' execs) =
    unbound h o + mcount (any_key is_open) (resolve h (executions st)) - of_bool open →
  unbound h' (owners_without o i) + mcount (any_key is_bare) (resolve h' execs) =
    unbound h o + mcount (any_key is_bare) (resolve h (executions st)) - of_bool bare →
  unbound h' (owners_without o i) + mcount (any_key is_running) (resolve h' execs) =
    unbound h o + mcount (any_key is_running) (resolve h (executions st)) - of_bool open →
  mcount (any_key is_repair) (resolve h' execs) = mcount (any_key is_repair) (resolve h (executions st)) →
  (∀ t', mcount (of_tenant t' is_repair) (resolve h' execs) =
         mcount (of_tenant t' is_repair) (resolve h (executions st))) →
  (∀ t', unbound_of h' (owners_without o i) t' + mcount (of_tenant t' is_ordinary) (resolve h' execs) =
    unbound_of h o t' + mcount (of_tenant t' is_ordinary) (resolve h (executions st))
    - of_bool (bool_decide (t = t'))) →
  (∀ t', unbound_of h' (owners_without o i) t' + mcount (of_tenant t' is_bare) (resolve h' execs) =
    unbound_of h o t' + mcount (of_tenant t' is_bare) (resolve h (executions st))
    - of_bool (bool_decide (t = t') && bare)) →
  Inv adm (freed st t open bare execs) h' fr (owners_without o i).
Proof.
  intros [Hl Hk Hp Hc Hr] Hpres Hk' Hp' H1 H2 H3 H4 H5 H6 H7 H8.
  assert (∀ t', counts_of (freed st t open bare execs) t' =
    if decide (t' = t) then freed_counts bare (counts_of st t) else counts_of st t') as Hcnt.
  { intros t'. unfold freed.
    change (counts_of (set_executions ?s execs) t') with (counts_of s t').
    etrans; [|by apply (counts_of_get_mut st t (freed_counts bare) t')]. done. }
  assert (Ledger (freed st t open bare execs) h' (owners_without o i)) as Hl'.
  { destruct Hl. constructor; cbn; try done; try lia.
    - intros t'. rewrite Hcnt. specialize (H7 t'). specialize (H8 t').
      destruct (decide (t' = t)) as [->|Hne].
      + rewrite bool_decide_eq_true_2 in H7, H8 by done. unfold freed_counts.
        pose proof (led_tally t) as Ht. autorewrite with bitrouter. rewrite Ht.
        replace (c_active (counts_of st t)) with (c_active (tally st h o t)) by (by rewrite <-Ht).
        replace (c_uncovered (counts_of st t)) with (c_uncovered (tally st h o t)) by (by rewrite <-Ht).
        unfold tally, with_active, with_uncovered. cbn in *. f_equal; try done; lia.
      + rewrite led_tally. rewrite bool_decide_eq_false_2 in H7, H8 by congruence.
        unfold tally. cbn in *. f_equal; try done; lia.
    - change (charged_all (owners_without o i)) with (charged_all o). unfold RESERVATION in *. lia.
    - rewrite H5. done.
    - intros t'. rewrite H6. by apply led_repair_of. }
  split.
  - done.
  - by destruct Hk'.
  - destruct Hp' as [Ht Hpr Hpe]. constructor; cbn; [done| |done]. intros p Hpub.
    destruct (Hpr p Hpub). constructor; cbn; try done.
    + intros tc Htc. destruct (pr_tenant tc Htc) as (Hs & Hd & Hu & Hn). split_and!; [|done|done|].
      * by rewrite lookup_alter_is_Some.
      * intros n. rewrite Hcnt. destruct (decide (_ = t)) as [Heq|]; [|apply Hn].
        rewrite <-Heq. apply Hn.
    + intros s Hs Hn. specialize (pr_absent s Hs Hn). rewrite Hcnt.
      destruct (decide (_ = t)) as [Heq|]; [|done]. rewrite <-Heq. done.
  - intros Hf. destruct (Hc Hf). constructor; cbn; try done. intros t' n. rewrite Hcnt.
    destruct (decide (t' = t)) as [->|]; apply co_tenant.
  - pose proof (led_live _ _ _ Hl') as Hlv. pose proof (led_uncovered _ _ _ Hl') as Huv.
    pose proof (led_reserved _ _ _ Hl') as Hrv. cbn in Hlv, Huv, Hrv.
    pose proof (unbound_nonneg h' (owners_without o i)).
    pose proof (mcount_nonneg (any_key is_open) (resolve h' execs)).
    pose proof (mcount_nonneg (any_key is_bare) (resolve h' execs)).
    pose proof (of_bool_bounds open). pose proof (of_bool_bounds bare).
    pose proof (mcount_nonneg (any_key is_running) (resolve h' execs)).
    assert (0 ≤ charged_all (owners_without o i)).
    { rewrite <-(led_repair_reserved _ _ _ Hl'). apply (ra_accounting _ _ Hr). }
    destruct Hr. constructor; try done; cbn; try lia.
    + destruct ra_accounting as [? ? [] ?]. constructor; cbn; try done.
      assert (0 < RESERVATION) by done. constructor; cbn; unfold in_u64 in *; try done; try lia; nia.
    + intros t'. rewrite Hcnt. destruct (decide (t' = t)) as [->|]; cbn; apply ra_pins.
    + intros t'. rewrite Hcnt. destruct (decide (t' = t)) as [->|]; cbn; apply ra_repairs.
    + intros t' n. rewrite Hcnt. destruct (decide (t' = t)) as [->|]; cbn; apply ra_fence.
Qed.

Lemma get_mut_ext st t f g :
  (∀ c, tenants st !! t = Some c → f c = g c) → get_mut st t f = get_mut st t g.
Proof.
  intros Hfg. unfold get_mut. f_equal. apply map_eq. intros t'. destruct (decide (t' = t)) as [->|Hne].
  - rewrite !lookup_alter_eq. destruct (tenants st !! t) as [c|] eqn:Hc; cbn; [|done]. by rewrite Hfg.
  - by rewrite !lookup_alter_ne.
Qed.
Lemma sub_ok a b : b ≤ a → a -? b = Some (a - b).
Proof. intros. by apply checked_sub_Some. Qed.
Lemma release_totals_ok (ts : Totals) bare :
  1 ≤ live ts → RESERVATION ≤ reserved ts → of_bool bare ≤ uncovered ts →
  release_totals ts bare = Ok (freed_totals ts true bare).
Proof.
  intros H1 H2 H3. unfold release_totals. rewrite (sub_ok (live ts) 1), (sub_ok (reserved ts) RESERVATION) by done.
  cbn [ok_or mbind result_bind]. unfold freed_totals. destruct bare; cbn [of_bool] in *.
  - rewrite sub_ok by done. cbn [ok_or mbind result_bind]. do 2 f_equal; lia.
  - cbn [ok_or mbind result_bind]. do 2 f_equal; lia.
Qed.
(** The checked arithmetic of a release, when the counts hold what it takes. *)
Lemma release_computes st h t i key cov d :
  lease_entry st h t i = Ok (Some (key, cov)) → done (completion h i) = d →
  is_Some (tenants st !! t) → 1 ≤ active st → 1 ≤ c_active (counts_of st t) →
  (d = false → 1 ≤ live (totals (receipts st)) ∧ RESERVATION ≤ reserved (totals (receipts st))) →
  of_bool (negb cov && negb d) ≤ uncovered (totals (receipts st)) →
  of_bool (negb cov && negb d) ≤ c_uncovered (counts_of st t) →
  release_lease st h t i = Ok (idle (freed st t (negb d) (negb cov && negb d)
    (match key with Some k => delete k (executions st) | None => executions st end)) t, set_done h i).
Proof.
  intros He Hd [c Hc] Ha Hca Hopen Hu Hcu. unfold release_lease. rewrite He, Hc, Hd.
  unfold counts_of in Hca, Hcu. rewrite Hc in Hca, Hcu. cbn in Hca, Hcu.
  cbn [mbind result_bind ok_or]. rewrite (sub_ok (active st) 1) by done. cbn [mbind result_bind ok_or].
  rewrite (sub_ok (c_active c) 1) by done. cbn [mbind result_bind ok_or].
  assert ((if d then Ok (totals (receipts st)) else release_totals (totals (receipts st)) (negb cov))
    = Ok (freed_totals (totals (receipts st)) (negb d) (negb cov && negb d))) as ->.
  { destruct d; cbn.
    - rewrite andb_false_r. unfold freed_totals. cbn. rewrite !Z.sub_0_r. by destruct (totals (receipts st)).
    - destruct (Hopen eq_refl). rewrite andb_true_r in *. by apply release_totals_ok. }
  assert ((if d || cov then Ok (c_uncovered c) else ok_or (c_uncovered c -? 1) AuthorityUnavailable)
    = Ok (c_uncovered c - of_bool (negb cov && negb d))) as ->.
  { destruct d, cov; cbn in *; try (f_equal; lia). unfold checked_sub.
    by rewrite (proj2 (Z.leb_le _ _)) by lia. }
  cbn [mbind result_bind]. do 3 f_equal. unfold freed.
  assert (∀ s, tenants s = tenants st →
    get_mut s t (λ c0, with_uncovered (c_uncovered c - of_bool (negb cov && negb d)) (with_active (c_active c - 1) c0))
    = get_mut s t (freed_counts (negb cov && negb d))) as Hext.
  { intros s Hs. apply get_mut_ext. rewrite Hs. intros c' Hc'. rewrite Hc in Hc'. by injection Hc' as <-. }
  rewrite Hext by done. by destruct key.
Qed.
End release.

Section release_lease.
Context (adm : Admission) (Hb : Budgets adm).
Implicit Types (st : State) (h : Arcs) (o : Owners) (fr : Z) (t : TenantId).

Lemma completion_set_done h i j :
  completion (set_done h i) j = {| c_execution := c_execution (completion h j);
                                   done := bool_decide (j = i) || done (completion h j) |}.
Proof.
  unfold set_done. rewrite completion_insert. destruct (decide (j = i)) as [->|Hne].
  - by rewrite bool_decide_eq_true_2.
  - rewrite bool_decide_eq_false_2 by done. by destruct (completion h j).
Qed.
Lemma unbound_set_done h o i :
  unbound (set_done h i) o = unbound h o ∧ ∀ t, unbound_of (set_done h i) o t = unbound_of h o t.
Proof. apply unbound_ext. intros j t _. by rewrite completion_set_done. Qed.
(** An execution of another owner does not see that [i] is done. *)
Lemma Links_set_done st h fr o i :
  Links st h fr o → (∀ k l, executions st !! k = Some l → owner l ≠ i) → leases o !! i = None →
  i < fr → Links st (set_done h i) fr o.
Proof.
  intros [] Hne Hi Hfr. constructor; try done.
  - intros k l Hkl. rewrite completion_set_done. cbn. exact (lk_exec k l Hkl).
  - intros j Hj. unfold set_done in Hj. apply lookup_insert_is_Some in Hj as [->|[_ Hj]]; auto.
  - intros j t Hj. rewrite completion_set_done. cbn.
    rewrite bool_decide_eq_false_2 by (intros ->; congruence). exact (lk_lease j t Hj).
  - intros k l Hkl. rewrite completion_set_done. cbn.
    rewrite bool_decide_eq_false_2 by exact (Hne k l Hkl). exact (lk_flags k l Hkl).
Qed.
Lemma Links_drop_lease st h fr o i :
  Links st h fr o → (∀ k l, executions st !! k = Some l → owner l ≠ i) → Links st h fr (owners_without o i).
Proof.
  intros [] Hne. constructor; try done; cbn.
  - intros j t [_ Hj]%lookup_delete_Some. exact (lk_lease j t Hj).
  - intros k l Hkl Hr Hd. rewrite lookup_delete_ne; [by apply lk_owner|]. intros Heq. by apply (Hne k l Hkl).
Qed.
Lemma Pending_set_done st h o i :
  Pending_ st h o → (∀ k l, executions st !! k = Some l → owner l ≠ i) →
  Pending_ st (set_done h i) (owners_without o i).
Proof.
  intros [Ht Hpr Hpe] Hne. constructor; cbn; [done| |done]. intros p Hpub.
  destruct (Hpr p Hpub). constructor; try done. intros s j Hs Hown.
  destruct (pr_step s j Hs Hown) as ((l & Hkl & Hol & Hrest) & Hdj & Hin).
  split_and!; [by exists l| |done]. rewrite completion_set_done. cbn.
  rewrite bool_decide_eq_false_2; [done|]. intros ->. by apply (Hne _ _ Hkl).
Qed.
(** Removing an execution together with its lease. *)
Lemma Links_delete st h fr o k l :
  Links st h fr o → executions st !! k = Some l → repair l = false →
  Links (set_executions st (delete k (executions st))) h fr (owners_without o (owner l)).
Proof.
  intros [] Hkl Hrep. constructor; cbn; try done.
  - intros k' l' [_ Hk']%lookup_delete_Some. exact (lk_exec k' l' Hk').
  - intros k1 k2 l1 l2 [_ H1]%lookup_delete_Some [_ H2]%lookup_delete_Some. by eapply lk_inj.
  - intros j t [Hij Hj]%lookup_delete_Some. destruct (lk_lease j t Hj) as [? Hle]. split; [done|].
    destruct (c_execution (completion h j)) as [e|]; [|done]. destruct Hle as (l' & Hk' & Hol & Hr).
    exists l'. rewrite lookup_delete_ne; [done|]. intros Heq. rewrite <-Heq, Hkl in Hk'.
    injection Hk' as <-. congruence.
  - intros k' l' [Hkk Hk']%lookup_delete_Some Hr Hd. rewrite lookup_delete_ne; [by apply lk_owner|].
    intros Heq. apply Hkk. by eapply lk_inj.
  - intros k' l' [_ Hk']%lookup_delete_Some. exact (lk_flags k' l' Hk').
  - intros g r Hg. destruct (lk_repair g r Hg) as (? & ? & ? & Hkeys). split_and!; [done..|].
    intros k' Hk'. destruct (Hkeys k' Hk') as (? & l' & Hkl' & Hr). split; [done|]. exists l'.
    rewrite lookup_delete_ne; [done|]. intros Heq. rewrite <-Heq, Hkl in Hkl'. congruence.
Qed.
Lemma Pending_delete st h o k l :
  Pending_ st h o → executions st !! k = Some l → pending l = false →
  Pending_ (set_executions st (delete k (executions st))) h o.
Proof.
  intros [Ht Hpr Hpe] Hkl Hpd. constructor; cbn; [done| |].
  - intros p Hpub. destruct (Hpr p Hpub). constructor; cbn; try done. intros s j Hs Hown.
    destruct (pr_step s j Hs Hown) as ((l' & Hk' & Hol & Hpend & Hrest) & Hdj & Hin).
    split_and!; [|done|done]. exists l'. rewrite lookup_delete_ne; [done|].
    intros Heq. rewrite <-Heq, Hkl in Hk'. congruence.
  - intros k' l' [_ Hk']%lookup_delete_Some. by apply Hpe.
Qed.

Lemma set_executions_id st : set_executions st (executions st) = st.
Proof. by destruct st. Qed.
Lemma unbound_without h o i t :
  leases o !! i = Some t →
  unbound (set_done h i) (owners_without o i) = unbound h o - of_bool (is_unbound h i t) ∧
  ∀ t', unbound_of (set_done h i) (owners_without o i) t' =
    unbound_of h o t' - of_bool (bool_decide (t = t') && is_unbound h i t).
Proof.
  intros Hi. destruct (unbound_set_done h (owners_without o i) i) as [-> Hub]. split.
  - unfold unbound, owners_without. cbn. by rewrite (mcount_delete _ _ _ _ Hi).
  - intros t'. rewrite Hub. unfold unbound_of, owners_without. cbn. by rewrite (mcount_delete _ _ _ _ Hi).
Qed.
Lemma resolve_set_done_ne h i (m : gmap Key Live) :
  (∀ k l, m !! k = Some l → owner l ≠ i) → resolve (set_done h i) m = resolve h m.
Proof.
  intros Hne. apply resolve_ext. intros k l Hkl. rewrite completion_set_done. cbn.
  by rewrite bool_decide_eq_false_2 by exact (Hne k l Hkl).
Qed.

Lemma release_unbound st h fr o i t :
  Inv adm st h fr o → leases o !! i = Some t → c_execution (completion h i) = None →
  ∃ st' h', release_lease st h t i = Ok (st', h') ∧ Inv adm st' h' fr (owners_without o i) ∧
    fenced (receipts st') = fenced (receipts st).
Proof.
  intros Hi Hlt Hnone. pose proof Hi as [Hl Hk Hp Hc Hr].
  destruct (lk_lease _ _ _ _ Hk i t Hlt) as [Hfr Hd]. rewrite Hnone in Hd.
  assert (∀ k l, executions st !! k = Some l → owner l ≠ i) as Hne.
  { intros k l Hkl Heq. destruct (lk_exec _ _ _ _ Hk k l Hkl) as [Hex _]. rewrite Heq in Hex. congruence. }
  assert (is_unbound h i t = true) as Hun by (unfold is_unbound; by rewrite Hnone).
  destruct (unbound_without h o i t Hlt) as [Hub Hubo]. rewrite Hun in Hub, Hubo.
  assert (1 ≤ unbound h o) as H1 by (eapply mcount_pos; [exact Hlt|done]).
  assert (1 ≤ unbound_of h o t) as H1t.
  { eapply mcount_pos; [exact Hlt|]. by rewrite bool_decide_eq_true_2. }
  assert (resolve (set_done h i) (executions st) = resolve h (executions st)) as Hres
    by by apply resolve_set_done_ne.
  pose proof (led_c_active _ _ _ Hl t) as Hca. pose proof (led_c_uncovered _ _ _ Hl t) as Hcu.
  pose proof (mcount_nonneg (of_tenant t is_ordinary) (resolve h (executions st))).
  pose proof (mcount_nonneg (of_tenant t is_bare) (resolve h (executions st))).
  pose proof (mcount_nonneg (any_key is_ordinary) (resolve h (executions st))).
  pose proof (mcount_nonneg (any_key is_bare) (resolve h (executions st))).
  pose proof (mcount_nonneg (any_key is_open) (resolve h (executions st))).
  pose proof (mcount_nonneg (any_key is_running) (resolve h (executions st))).
  assert (is_Some (tenants st !! t)) as Hpres.
  { apply counts_present. intros He. rewrite He in Hca. cbn in Hca. lia. }
  pose proof (led_repair_reserved _ _ _ Hl) as Hrr.
  pose proof (wf_repair_reserved _ (wf_totals _ (ra_accounting _ _ Hr))) as [Hrr0 _].
  exists (idle (freed st t true true (executions st)) t), (set_done h i).
  split; [|split].
  - erewrite (release_computes st h t i None false false); try done.
    + unfold lease_entry. by rewrite Hnone.
    + rewrite (led_active _ _ _ Hl). lia.
    + lia.
    + intros _. rewrite (led_live _ _ _ Hl), (led_reserved _ _ _ Hl). unfold RESERVATION. lia.
    + rewrite (led_uncovered _ _ _ Hl). cbn. lia.
    + rewrite Hcu. cbn. lia.
  - apply Inv_idle. apply (Inv_freed adm st h (set_done h i) fr o i); try done.
    + rewrite set_executions_id. apply Links_set_done; [|done|cbn; by rewrite lookup_delete_eq|done].
      by apply Links_drop_lease.
    + rewrite set_executions_id. by apply Pending_set_done.
    + rewrite Hres, Hub. cbn. lia.
    + rewrite Hres, Hub. cbn. lia.
    + rewrite Hres, Hub. cbn. lia.
    + rewrite Hres, Hub. cbn. lia.
    + by rewrite Hres.
    + intros t'. by rewrite Hres.
    + intros t'. rewrite Hres, Hubo, andb_true_r. lia.
    + intros t'. rewrite Hres, Hubo, andb_true_r. lia.
  - by destruct (idle_fields (freed st t true true (executions st)) t) as (_ & _ & -> & _).
Qed.

Lemma release_bound st h fr o i t e l :
  let k := {| key_tenant := t; key_execution := e |} in
  Inv adm st h fr o → leases o !! i = Some t → c_execution (completion h i) = Some e →
  executions st !! k = Some l → owner l = i → repair l = false → dropped l = false → pending l = false →
  ∃ st' h', release_lease st h t i = Ok (st', h') ∧ Inv adm st' h' fr (owners_without o i) ∧
    fenced (receipts st') = fenced (receipts st).
Proof.
  intros k Hi Hlt Hex Hkl Hol Hrep Hdr Hpd. pose proof Hi as [Hl Hk Hp Hc Hr].
  destruct (lk_lease _ _ _ _ Hk i t Hlt) as [Hfr _].
  assert (∀ k' l', delete k (executions st) !! k' = Some l' → owner l' ≠ i) as Hne.
  { intros k' l' [Hkk Hk']%lookup_delete_Some Heq. apply Hkk.
    eapply (lk_inj _ _ _ _ Hk); [exact Hkl|exact Hk'|congruence]. }
  assert (is_unbound h i t = false) as Hun by (unfold is_unbound; by rewrite Hex).
  destruct (unbound_without h o i t Hlt) as [Hub Hubo]. rewrite Hun in Hub, Hubo.
  set (d := done (completion h i)). set (v := resolve h (executions st)).
  assert (v !! k = Some (l, d)) as Hv.
  { unfold v. rewrite resolve_lookup, Hkl. cbn. by rewrite Hol. }
  assert (resolve (set_done h i) (delete k (executions st)) = delete k v) as Hres.
  { rewrite resolve_set_done_ne by done. apply resolve_delete. }
  assert (∀ f, mcount f v = of_bool (f k (l, d)) + mcount f (delete k v)) as Hsplit
    by (intros f; by apply mcount_split).
  assert (∀ f, 0 ≤ mcount f (delete k v)) as Hnn by (intros f; apply mcount_nonneg).
  assert (is_ordinary (l, d) = true) as Hord by (unfold is_ordinary; cbn; by rewrite Hrep).
  assert (is_bare (l, d) = negb (covered l) && negb d) as Hbare by done.
  assert (is_running (l, d) = negb d) as Hrun by (unfold is_running; cbn; by rewrite Hrep).
  assert (is_repair (l, d) = false) as Hrp by done.
  assert (∀ t' f, of_tenant t' f k (l, d) = bool_decide (t = t') && f (l, d)) as Hof by done.
  assert (∀ f, any_key f k (l, d) = f (l, d)) as Hak by done.
  assert (is_open (l, d) = negb d) as Hopen by done.
  pose proof (led_c_active _ _ _ Hl t) as Hca. pose proof (led_c_uncovered _ _ _ Hl t) as Hcu.
  fold v in Hca, Hcu. rewrite Hsplit, Hof, bool_decide_eq_true_2, Hord in Hca by done. cbn in Hca.
  rewrite Hsplit, Hof, bool_decide_eq_true_2, Hbare in Hcu by done. cbn [andb] in Hcu.
  pose proof (Hnn (of_tenant t is_ordinary)). pose proof (Hnn (of_tenant t is_bare)).
  pose proof (unbound_of_nonneg h o t). pose proof (unbound_nonneg h o).
  assert (is_Some (tenants st !! t)) as Hpres.
  { apply counts_present. intros He. rewrite He in Hca. cbn in Hca. lia. }
  pose proof (led_repair_reserved _ _ _ Hl) as Hrr.
  pose proof (wf_repair_reserved _ (wf_totals _ (ra_accounting _ _ Hr))) as [Hrr0 _].
  exists (idle (freed st t (negb d) (negb (covered l) && negb d) (delete k (executions st))) t), (set_done h i).
  split; [|split].
  - erewrite (release_computes st h t i (Some k) (covered l) d); try done.
    + unfold lease_entry. rewrite Hex. fold k. rewrite Hkl. cbn.
      by rewrite Hol, Hrep, Hdr, Hpd, bool_decide_eq_true_2.
    + rewrite (led_active _ _ _ Hl). fold v. rewrite Hsplit. rewrite Hak, Hord.
      pose proof (Hnn (any_key is_ordinary)). cbn. lia.
    + lia.
    + intros Hd0. rewrite (led_live _ _ _ Hl), (led_reserved _ _ _ Hl). fold v.
      rewrite !Hsplit. rewrite !Hak, Hopen, Hrun, Hd0. cbn.
      pose proof (Hnn (any_key is_open)). pose proof (Hnn (any_key is_running)). unfold RESERVATION. lia.
    + rewrite (led_uncovered _ _ _ Hl). fold v. rewrite Hsplit. rewrite Hak, Hbare.
      pose proof (Hnn (any_key is_bare)). lia.
    + rewrite Hcu. lia.
  - apply Inv_idle. apply (Inv_freed adm st h (set_done h i) fr o i); try done.
    + apply Links_set_done; [|done|cbn; by rewrite lookup_delete_eq|done].
      rewrite <-Hol. by apply Links_delete.
    + apply Pending_set_done; [|done]. by eapply Pending_delete.
    + rewrite Hres, Hub. fold v. rewrite (Hsplit (any_key is_ordinary)). rewrite Hak, Hord. cbn. lia.
    + rewrite Hres, Hub. fold v. rewrite (Hsplit (any_key is_open)). rewrite Hak, Hopen. cbn. lia.
    + rewrite Hres, Hub. fold v. rewrite (Hsplit (any_key is_bare)). rewrite Hak, Hbare. cbn. lia.
    + rewrite Hres, Hub. fold v. rewrite (Hsplit (any_key is_running)). rewrite Hak, Hrun. cbn. lia.
    + rewrite Hres. fold v. rewrite (Hsplit (any_key is_repair)). rewrite Hak, Hrp. cbn. lia.
    + intros t'. rewrite Hres. fold v. rewrite (Hsplit (of_tenant t' is_repair)), Hof, Hrp, andb_false_r.
      cbn. lia.
    + intros t'. rewrite Hres, Hubo. fold v. rewrite (Hsplit (of_tenant t' is_ordinary)), Hof, Hord, andb_true_r, andb_false_r.
      cbn [of_bool]. lia.
    + intros t'. rewrite Hres, Hubo. fold v. rewrite (Hsplit (of_tenant t' is_bare)), Hof, Hbare, andb_false_r.
      cbn [of_bool]. lia.
  - by destruct (idle_fields (freed st t (negb d) (negb (covered l) && negb d) (delete k (executions st))) t)
      as (_ & _ & -> & _).
Qed.

(** Releasing a lease never fails. *)
Lemma release_ok st h fr o i t :
  Inv adm st h fr o → leases o !! i = Some t →
  ∃ st' h', release_lease st h t i = Ok (st', h') ∧ Inv adm st' h' fr (owners_without o i) ∧
    fenced (receipts st') = fenced (receipts st).
Proof.
  intros Hi Hlt. pose proof Hi as [Hl Hk Hp Hc Hr]. destruct (lk_lease _ _ _ _ Hk i t Hlt) as [Hfr Hle].
  destruct (c_execution (completion h i)) as [e|] eqn:Hex; [|by apply release_unbound].
  destruct Hle as (l & Hkl & Hol & Hrep & Hdr). destruct (pending l) eqn:Hpd; [|by eapply release_bound].
  exists (set_executions st (alter mark_dropped {| key_tenant := t; key_execution := e |} (executions st))), h.
  split; [|split; [|done]].
  - unfold release_lease, lease_entry. rewrite Hex. cbn. rewrite Hkl. cbn.
    by rewrite Hol, Hrep, Hdr, Hpd, bool_decide_eq_true_2.
  - by eapply Inv_release_pending.
Qed.
End release_lease.

(** ** Pins, inventories and the first state *)

Section pins.
Context (adm : Admission) (Hb : Budgets adm).
Implicit Types (st : State) (h : Arcs) (o : Owners) (fr : Z) (t : TenantId).

(** A step outside publications that may cache a count. *)
Lemma Inv_quiet st st' h fr o o' :
  Inv adm st h fr o → publication o = None →
  executions st' = executions st → publication_pending st' = publication_pending st →
  unknown_generation st' = unknown_generation st → receipts st' = receipts st →
  queue st' = queue st →
  leases o' = leases o → repairing o' = repairing o → publication o' = publication o →
  obligations o' = obligations o →
  (fenced (receipts st) = false → ∀ t n, c_unknown (counts_of st' t) = Some n → n = owed_by t (obligations o)) →
  Ledger st' h o' → sizes_ok o' → Ranges adm st' → Inv adm st' h fr o'.
Proof.
  intros [Hl Hk Hp Hc Hr] Hnone He Hpp Hg Hre Hq Hle Hrep Hpub Hobl Hun Hl' Hs Hr'. split; try done.
  - destruct Hk. constructor; rewrite ?He, ?Hle, ?Hrep, ?Hq; done.
  - destruct Hp as [Ht Hpr Hpe]. constructor; rewrite ?Hpp, ?Hpub, ?He, ?Hnone; [by rewrite Ht, Hnone|done|].
    rewrite Hnone in Hpe. done.
  - rewrite Hre. intros Hf. destruct (Hc Hf). constructor; rewrite ?Hre, ?Hobl, ?Hpub, ?Hnone; try done.
    by apply Hun.
Qed.
Lemma Inv_no_publication st h fr o :
  Inv adm st h fr o → publication_pending st = None → publication o = None.
Proof.
  intros [_ _ [Ht _ _] _ _] Hnone. rewrite Hnone in Ht. by destruct (publication o).
Qed.
Lemma Inv_add_pin st h fr o g t n st' :
  Inv adm st h fr o → publication_pending st = None → count_pins o !! g = None →
  add_pin st t n = Ok st' → in_u64 n →
  (fenced (receipts st) = false → n = owed_by t (obligations o)) →
  Inv adm st' h fr (set_count_pins (<[g := t]> (count_pins o)) o).
Proof.
  intros Hi Hnone Hg Hadd Hn Howed. pose proof (Inv_no_publication _ _ _ _ Hi Hnone) as Hpub.
  pose proof Hi as [Hl Hk Hp Hc Hr]. unfold add_pin in Hadd. res_inv. arith.
  assert (∀ t', counts_of (entry_update st t (λ c, with_unknown (Some n) (with_pins (pins (counts_of st t) + 1) c))) t'
    = if decide (t' = t) then with_unknown (Some n) (with_pins (pins (counts_of st t) + 1) (counts_of st t))
      else counts_of st t') as Hcnt by (intros t'; by rewrite counts_of_entry_update).
  eapply Inv_quiet; [exact Hi|done..| | |exact (Inv_sizes_ok _ _ _ _ _ Hi)|].
  - intros Hf t' m. rewrite Hcnt. specialize (Hc Hf). destruct (decide (t' = t)) as [->|].
    + intros [= <-]. by apply Howed.
    + by apply (co_tenant _ _ Hc).
  - pose proof (led_pins _ _ _ Hl t) as Hlp. destruct Hl. constructor; try done.
    intros t'. rewrite Hcnt. destruct (decide (t' = t)) as [->|Hne].
    + rewrite Hlp. tally_step. rewrite mcount_insert_new by done. rewrite named_eq. cbn.
      change (pinned (set_count_pins (<[g := t]> (count_pins o)) o) t) with (pinned o t). lia.
    + tally_step. rewrite mcount_insert_new by done. rewrite named_ne by congruence. done.
  - destruct Hr. constructor; try done.
    + intros t'. rewrite Hcnt. destruct (decide (t' = t)) as [->|]; cbn; [done|apply ra_pins].
    + intros t'. rewrite Hcnt. destruct (decide (t' = t)) as [->|]; cbn; apply ra_repairs.
    + intros t' m. rewrite Hcnt. destruct (decide (t' = t)) as [->|]; cbn; [by intros [= <-]|apply ra_fence].
Qed.
(** Dropping a pin never fails. *)
Lemma pin_drop_ok (w : World) o g t :
  Inv adm (state w) (arcs w) (fresh w) o → count_pins o !! g = Some t →
  let w' := (pin_drop {| pin_tenant := t |} w).1 in
  Inv adm (state w') (arcs w') (fresh w') (set_count_pins (delete g (count_pins o)) o) ∧
  fenced (receipts (state w')) = fenced (receipts (state w)).
Proof.
  intros Hi Hg. cbn. set (st := state w) in *. pose proof Hi as [Hl Hk Hp Hc Hr].
  pose proof (led_pins _ _ _ Hl t) as Hlp. pose proof (pinned_bounds o t) as Hpb.
  assert (1 ≤ mcount (named t) (count_pins o)) as Hpos.
  { eapply mcount_pos; [exact Hg|]. apply named_eq. }
  assert (is_Some (tenants st !! t)) as Hpres.
  { apply counts_present. intros He. rewrite He in Hlp. cbn in Hlp. lia. }
  assert (tenants st !! t ≫= (λ c, pins c -? 1) = Some (pins (counts_of st t) - 1)) as ->.
  { destruct Hpres as [c Hcc]. unfold counts_of in *. rewrite Hcc in *. cbn in *. apply sub_ok. lia. }
  split; [|by destruct (idle_fields (get_mut st t (with_pins (pins (counts_of st t) - 1))) t) as (_ & _ & -> & _)].
  apply Inv_idle.
  assert (∀ t', counts_of (get_mut st t (with_pins (pins (counts_of st t) - 1))) t'
    = if decide (t' = t) then with_pins (pins (counts_of st t) - 1) (counts_of st t) else counts_of st t') as Hcnt
    by (intros t'; by rewrite counts_of_get_mut).
  eapply Inv_counts; [exact Hi|lia|done..| | | |exact (Inv_sizes_ok _ _ _ _ _ Hi)|exact (Inv_queue_ok _ _ _ _ _ Hi)|].
  - intros t' Ht'. cbn. by rewrite lookup_alter_is_Some.
  - intros t'. rewrite Hcnt. by destruct (decide (t' = t)) as [->|].
  - destruct Hl. constructor; try done. intros t'. rewrite Hcnt. destruct (decide (t' = t)) as [->|Hne].
    + rewrite Hlp. tally_step. rewrite (mcount_delete _ _ _ _ Hg), named_eq. cbn.
      change (pinned (set_count_pins (delete g (count_pins o)) o) t) with (pinned o t). lia.
    + tally_step. rewrite (mcount_delete _ _ _ _ Hg), named_ne by congruence. cbn.
      change (pinned (set_count_pins (delete g (count_pins o)) o) t') with (pinned o t'). lia.
  - destruct Hr. constructor; try done.
    + intros t'. rewrite Hcnt. destruct (decide (t' = t)) as [->|]; cbn; [|apply ra_pins].
      specialize (ra_pins t). lia.
    + intros t'. rewrite Hcnt. destruct (decide (t' = t)) as [->|]; cbn; apply ra_repairs.
    + intros t' m. rewrite Hcnt. destruct (decide (t' = t)) as [->|]; cbn; apply ra_fence.
Qed.

(** Loading an inventory replaces what is known of the database, and only when nothing is cached. *)
Lemma Inv_initialize_owed st h fr o d inventory f a :
  Inv adm st h fr o → tenants st = ∅ → publication_pending st = None →
  initialize (receipts st) inventory f = Ok a →
  inventory_in_range inventory = true → in_u64 f →
  unknown_count inventory = Z.of_nat (size d) →
  Inv adm (set_receipts st a) h fr (set_owed None d o).
Proof.
  intros Hi Hten Hnone Hin Hrange Hf Htrue. pose proof (Inv_no_publication _ _ _ _ Hi Hnone) as Hpub.
  pose proof Hi as [Hl Hk Hp Hc Hr]. unfold initialize in Hin. res_inv.
  unfold inventory_in_range in Hrange. cbn in Hrange. arith.
  assert (∀ t, c_unknown (counts_of st t) = None) as Hno.
  { intros t. unfold counts_of. by rewrite Hten, lookup_empty. }
  match goal with |- Inv _ (set_receipts st ?a) _ _ _ => set (a' := a) end.
  assert (∀ t, pinned (set_owed None d o) t = pinned o t) as Hpin by (intros t; unfold pinned; by rewrite Hpub).
  assert (totals a' = {|
    reserved := reserved (totals (receipts st)); t_bytes := live_bytes inventory;
    history_bytes := i_history_bytes inventory; history_rows := i_history_rows inventory;
    oauth_bytes := i_oauth_bytes inventory; unknown := unknown_count inventory;
    uncovered := uncovered (totals (receipts st)); live := live (totals (receipts st));
    repair_reserved := repair_reserved (totals (receipts st));
    repair_live := repair_live (totals (receipts st)) |} ∧
    physical_write_reserved a' = physical_write_reserved (receipts st) ∧
    limits a' = limits (receipts st)) as (Ht & Hw & Hlim).
  { unfold a', observed_free. by destruct (is_some _). }
  split.
  - destruct Hl. constructor; cbn; rewrite ?Ht, ?Hw; try done.
    intros t. change (counts_of (set_receipts st a') t) with (counts_of st t). rewrite led_tally.
    unfold tally. by rewrite Hpin.
  - by destruct Hk.
  - destruct Hp as [Htok Hpr Hpe]. constructor; cbn; [by rewrite Hnone|done|].
    rewrite Hpub in Hpe. exact Hpe.
  - intros _. constructor; cbn; rewrite ?Ht; cbn; [done| |done].
    intros t n. change (counts_of (set_receipts st a') t) with (counts_of st t). by rewrite Hno.
  - destruct Hr. constructor; try done. destruct ra_accounting as [? Hfree [] ?].
    constructor; cbn; rewrite ?Ht, ?Hw, ?Hlim; try done.
    unfold a', observed_free. by destruct (is_some _).
Qed.
Lemma Inv_initialize st h fr o inventory f a :
  Inv adm st h fr o → tenants st = ∅ → publication_pending st = None →
  initialize (receipts st) inventory f = Ok a →
  inventory_in_range inventory = true → in_u64 f →
  unknown_count inventory = Z.of_nat (size (obligations o)) →
  Inv adm (set_receipts st a) h fr o.
Proof.
  intros Hi Hten Hnone Hin Hrange Hf Htrue. pose proof (Inv_no_publication _ _ _ _ Hi Hnone) as Hpub.
  replace o with (set_owed None (obligations o) o) by (destruct o; cbn in *; by subst).
  by eapply Inv_initialize_owed.
Qed.
End pins.
