(* ===== verification/TenancyRepair.v ===== *)
(** Repairs keep the invariant of tenant admission: a group of stopped executions enters and leaves
    the ledger at once ([apps/tenancy/admission/repair.rs]). *)
From stdpp Require Import base list strings gmap sorting.
From Stdlib Require Import ZArith Lia.
From S2P Require Import Prelude MapSum TenancyCapacity TenancyState TenancyAdmission TenancyUnknown TenancySystem TenancyLedger TenancyLease.
Open Scope Z_scope.
#[local] Arguments countb : simpl never.
#[local] Arguments sum_by : simpl never.
#[local] Arguments msum : simpl never.
#[local] Arguments mcount : simpl never.
#[local] Arguments resolve : simpl never.
#[local] Arguments pinned : simpl never.

(** ** Sums over lists *)

Lemma sum_by_ext {A} (f g : A → Z) l : (∀ x, x ∈ l → f x = g x) → sum_by f l = sum_by g l.
Proof.
  intros Hfg. apply Z.le_antisymm; apply sum_by_le; intros x Hx; by rewrite (Hfg x Hx).
Qed.
Lemma sum_by_const {A} (c : Z) (l : list A) : sum_by (λ _, c) l = c * Z.of_nat (length l).
Proof. induction l as [|x l IH]; [unfold sum_by; cbn; lia|]. rewrite sum_by_cons, IH. cbn [length]. lia. Qed.
Lemma sum_by_fmap {A B} (f : B → Z) (g : A → B) l : sum_by f (g <$> l) = sum_by (λ x, f (g x)) l.
Proof. induction l as [|x l IH]; [done|]. rewrite fmap_cons, !sum_by_cons. by rewrite IH. Qed.
Lemma sum_by_scale {A} (c : Z) (f : A → Z) l : sum_by (λ x, c * f x) l = c * sum_by f l.
Proof. induction l as [|x l IH]; [unfold sum_by; cbn; lia|]. rewrite !sum_by_cons, IH. lia. Qed.
Lemma sum_by_add {A} (f g : A → Z) l : sum_by (λ x, f x + g x) l = sum_by f l + sum_by g l.
Proof. induction l as [|x l IH]; [done|]. rewrite !sum_by_cons, IH. lia. Qed.
Lemma sum_by_snoc {A} (f : A → Z) l x : sum_by f (l ++ [x]) = sum_by f l + f x.
Proof. rewrite sum_by_app, sum_by_cons. unfold sum_by at 2. cbn. lia. Qed.
Lemma sum_by_prefix {A} (f : A → Z) l l' :
  (∀ x, x ∈ l' → 0 ≤ f x) → l `prefix_of` l' → sum_by f l ≤ sum_by f l'.
Proof.
  intros Hf [k ->]. rewrite sum_by_app. enough (0 ≤ sum_by f k) by lia.
  apply sum_by_nonneg. intros x Hx. apply Hf. set_solver.
Qed.

(** ** The owners of a repair *)

Section plan.
Context (t : TenantId).

Definition repair_key (e : ExecutionId) : Key := {| key_tenant := t; key_execution := e |}.
Record Planned (h : Arcs) (fr : Z) (a : TenancyUnknown.Owners) : Prop := {
  pl_fresh : fr ≤ ow_fresh a;
  pl_unique k : k ∈ ow_unique a ↔ k ∈ (ow_list a).*1;
  pl_nodup : NoDup (ow_list a).*1;
  pl_owners : NoDup ((λ kl, owner kl.2) <$> ow_list a);
  pl_entry k l : (k, l) ∈ ow_list a →
    key_tenant k = t ∧ fr ≤ owner l < ow_fresh a ∧ pending l = false ∧ dropped l = false ∧
    repair l = true ∧ completion (ow_arcs a) (owner l) =
      {| c_execution := Some (key_execution k); done := false |};
  pl_old i : i < fr → ow_arcs a !! i = h !! i;
  pl_arcs i : is_Some (ow_arcs a !! i) → is_Some (h !! i) ∨ i < ow_fresh a;
  pl_uncovered : ow_uncovered a = sum_by (λ kl, of_bool (negb (covered kl.2))) (ow_list a) }.

Lemma Planned_step h fr a e a' :
  Planned h fr a → add_owner t a e = Ok a' → Planned h fr a'.
Proof.
  intros [] Ha. destruct e as [e cov]. unfold add_owner in Ha. res_inv. arith.
  match goal with H : _ ∉ _ |- _ => rename H into Hnew end. rewrite pl_unique0 in Hnew.
  assert (∀ k l, (k, l) ∈ ow_list a → owner l ≠ ow_fresh a) as Hne.
  { intros k l Hkl. destruct (pl_entry0 k l Hkl) as (_ & ? & _). lia. }
  constructor; cbn.
  - lia.
  - intros k. rewrite fmap_app, elem_of_app. cbn. rewrite list_elem_of_singleton. set_solver.
  - rewrite fmap_app. apply NoDup_app. cbn. split_and!; [done| |by apply NoDup_singleton].
    intros k Hk. rewrite list_elem_of_singleton. by intros ->.
  - rewrite fmap_app. apply NoDup_app. cbn. split_and!; [done| |by apply NoDup_singleton].
    intros i (kl & -> & Hkl)%list_elem_of_fmap. rewrite list_elem_of_singleton. destruct kl as [k l].
    by apply (Hne k).
  - intros k l [Hkl|Hkl]%elem_of_app.
    + destruct (pl_entry0 k l Hkl) as (? & ? & ? & ? & ? & ?). split_and!; try done; try lia.
      rewrite completion_insert. destruct (decide (owner l = ow_fresh a)) as [Heq|]; [|done].
      by destruct (Hne k l Hkl).
    + apply list_elem_of_singleton in Hkl. injection Hkl as -> ->. cbn. split_and!; try done; try lia.
      rewrite completion_insert. by destruct (decide _).
  - intros i Hi. rewrite lookup_insert_ne by lia. by apply pl_old0.
  - intros i Hi. apply lookup_insert_is_Some in Hi as [<-|[_ Hi]]; [right; lia|].
    destruct (pl_arcs0 i Hi); [by left|right; lia].
  - rewrite sum_by_snoc. cbn [covered snd]. unfold of_bool. lia.
Qed.
Lemma plan_repair_ok adm read entries (w : World) a :
  plan_repair adm read t entries w = Ok a →
  maintenance read = true ∧ Planned (arcs w) (fresh w) a ∧ ow_list a ≠ [].
Proof.
  unfold plan_repair. intros Hp. res_inv. arith. split_and!; [done| |done].
  match goal with H : try_fold _ ?s _ = Ok _ |- _ =>
    apply (try_fold_inv _ (Planned (arcs w) (fresh w)) s) in H; [exact H| |] end.
  - intros s x s' _. apply Planned_step.
  - constructor; cbn; try done; try lia.
    + intros k. rewrite elem_of_nil. set_solver.
    + constructor.
    + constructor.
    + intros k l Hkl. by apply elem_of_nil in Hkl.
    + intros i Hi. by left.
Qed.
End plan.

(** ** Inserting and deleting a group of executions *)

Section groups.
Implicit Types (m : gmap Key Live) (h : Arcs).

Definition insert_all m (l : list (Key * Live)) : gmap Key Live :=
  foldl (λ m kl, <[kl.1 := kl.2]> m) m l.
Definition delete_all m (l : list Key) : gmap Key Live := foldl (λ m k, delete k m) m l.

Lemma insert_all_alter m l : insert_all m l = alter_each fst (λ kl _, Some kl.2) m l.
Proof. done. Qed.
Lemma delete_all_alter m l : delete_all m l = alter_each (λ k, k) (λ _ _, None) m l.
Proof. done. Qed.
Lemma insert_owners_ne m l k : k ∉ l.*1 → insert_all m l !! k = m !! k.
Proof. rewrite insert_all_alter. apply alter_each_ne. Qed.
Lemma insert_all_eq m l k x : NoDup l.*1 → (k, x) ∈ l → insert_all m l !! k = Some x.
Proof. intros Hnd Hin. exact (alter_each_eq fst (λ kl _, Some kl.2) m l (k, x) Hnd Hin). Qed.
Lemma insert_all_inv m l k x : NoDup l.*1 → insert_all m l !! k = Some x →
  (k, x) ∈ l ∨ (k ∉ l.*1 ∧ m !! k = Some x).
Proof.
  intros Hnd Hk. destruct (decide (k ∈ l.*1)) as [Hin|Hin].
  - apply list_elem_of_fmap in Hin as ([k' x'] & -> & Hin). cbn in *.
    rewrite (insert_all_eq m l k' x' Hnd Hin) in Hk. injection Hk as <-. by left.
  - right. by rewrite insert_owners_ne in Hk.
Qed.
Lemma delete_all_ne m l k : k ∉ l → delete_all m l !! k = m !! k.
Proof. intros Hk. rewrite delete_all_alter. apply alter_each_ne. by rewrite list_fmap_id. Qed.
Lemma delete_all_eq m l k : NoDup l → k ∈ l → delete_all m l !! k = None.
Proof.
  intros Hnd Hin. apply (alter_each_eq (λ k, k) (λ _ _, None)); [by rewrite list_fmap_id|done].
Qed.
Lemma delete_all_Some m l k x : NoDup l → delete_all m l !! k = Some x ↔ k ∉ l ∧ m !! k = Some x.
Proof.
  intros Hnd. destruct (decide (k ∈ l)) as [Hin|Hin].
  - rewrite delete_all_eq by done. split; [done|]. by intros [? _].
  - rewrite delete_all_ne by done. by split; [|intros [_ ?]].
Qed.
(** The view of a group that enters, all open, or leaves. *)
Lemma resolve_insert_all h h' m l :
  NoDup l.*1 → (∀ k x, m !! k = Some x → done (completion h' (owner x)) = done (completion h (owner x))) →
  (∀ k x, (k, x) ∈ l → done (completion h' (owner x)) = false) →
  resolve h' (insert_all m l) = alter_each fst (λ kl _, Some (kl.2, false)) (resolve h m) l.
Proof.
  intros Hnd Hold Hnew. apply map_eq. intros k. rewrite resolve_lookup.
  destruct (decide (k ∈ l.*1)) as [Hin|Hin].
  - apply list_elem_of_fmap in Hin as ([k' x] & -> & Hin). cbn.
    rewrite (insert_all_eq m l k' x Hnd Hin). cbn. rewrite (Hnew _ _ Hin).
    symmetry. exact (alter_each_eq fst (λ kl _, Some (kl.2, false)) _ l (k', x) Hnd Hin).
  - rewrite insert_owners_ne by done. rewrite alter_each_ne by done. rewrite resolve_lookup.
    destruct (m !! k) as [x|] eqn:Hk; cbn; [|done]. by rewrite (Hold k x Hk).
Qed.
Lemma resolve_delete_all h m l :
  NoDup l → resolve h (delete_all m l) = alter_each (λ k, k) (λ _ _, None) (resolve h m) l.
Proof.
  intros Hnd. apply map_eq. intros k. rewrite resolve_lookup. destruct (decide (k ∈ l)) as [Hin|Hin].
  - rewrite delete_all_eq by done. symmetry.
    apply (alter_each_eq (λ k, k) (λ _ _, None)); [by rewrite list_fmap_id|done].
  - rewrite delete_all_ne by done. rewrite alter_each_ne by (by rewrite list_fmap_id).
    by rewrite resolve_lookup.
Qed.
(** The counts of a group that enters or leaves. *)
Lemma mcount_insert_all (f : Key → Live * bool → bool) (v : view) l :
  NoDup l.*1 → (∀ k x, (k, x) ∈ l → v !! k = None) →
  mcount f (alter_each fst (λ kl _, Some (kl.2, false)) v l) =
    mcount f v + sum_by (λ kl, of_bool (f kl.1 (kl.2, false))) l.
Proof.
  intros Hnd Hnew. unfold mcount. rewrite msum_alter_each by done. f_equal. apply sum_by_ext.
  intros [k x] Hin. cbn. rewrite (Hnew k x Hin). cbn. lia.
Qed.
Lemma mcount_delete_all (f : Key → Live * bool → bool) (v : view) l :
  NoDup l →
  mcount f (alter_each (λ k, k) (λ _ _, None) v l) =
    mcount f v - sum_by (λ k, share (λ x, of_bool (f k x)) (v !! k)) l.
Proof.
  intros Hnd. unfold mcount. rewrite msum_alter_each by by rewrite list_fmap_id.
  replace (sum_by _ l) with (sum_by (λ k, -1 * share (λ x, of_bool (f k x)) (v !! k)) l).
  - rewrite sum_by_scale. lia.
  - apply sum_by_ext. intros k _. cbn. lia.
Qed.
End groups.

Section attempt.
Context {A : Type} (f : World → result ErrorCode (World * A)).
Lemma attempt_ok w w' a : attempt f w = (w', Ok a) → f w = Ok (w', a).
Proof. unfold attempt. destruct (f w) as [[w1 a1]|e]; intros [=]; congruence. Qed.
Lemma attempt_err w w' e : attempt f w = (w', Err e) → w' = w.
Proof. unfold attempt. destruct (f w) as [[w1 a1]|e']; intros [=]; congruence. Qed.
End attempt.

(** ** A repair begins *)

Section start.
Context (adm : Admission) (Hb : Budgets adm).
Implicit Types (st : State) (h : Arcs) (o : Owners) (fr : Z) (t : TenantId).

Section sums.
Context (t : TenantId) (h : Arcs) (fr : Z) (a : TenancyUnknown.Owners) (Ha : Planned t h fr a).
Local Notation rows := (Z.of_nat (length (ow_list a))).
Definition group_sum (f : Key → Live * bool → bool) : Z :=
  sum_by (λ kl, of_bool (f kl.1 (kl.2, false))) (ow_list a).
Lemma group_any f c : (∀ l, repair l = true → f (l, false) = c) → group_sum (any_key f) = of_bool c * rows.
Proof.
  intros Hf. rewrite <-sum_by_const. apply sum_by_ext. intros [k l] Hin. unfold any_key. cbn.
  destruct (pl_entry _ _ _ _ Ha k l Hin) as (_ & _ & _ & _ & Hr & _). by rewrite Hf.
Qed.
Lemma group_of f t' :
  group_sum (of_tenant t' f) = if decide (t' = t) then group_sum (any_key f) else 0.
Proof.
  destruct (decide (t' = t)) as [->|Hne].
  - apply sum_by_ext. intros [k l] Hin. unfold of_tenant, any_key. cbn.
    destruct (pl_entry _ _ _ _ Ha k l Hin) as (-> & _). by rewrite bool_decide_eq_true_2.
  - replace 0 with (0 * rows) by lia. rewrite <-sum_by_const. apply sum_by_ext. intros [k l] Hin.
    unfold of_tenant. cbn. destruct (pl_entry _ _ _ _ Ha k l Hin) as (-> & _).
    by rewrite bool_decide_eq_false_2 by congruence.
Qed.
Lemma group_bare : group_sum (any_key is_bare) = ow_uncovered a.
Proof.
  rewrite (pl_uncovered _ _ _ _ Ha). apply sum_by_ext. intros [k l] _. unfold any_key, is_bare. cbn.
  by rewrite andb_true_r.
Qed.
Lemma group_open : group_sum (any_key is_open) = rows.
Proof. rewrite (group_any is_open true) by done. cbn. lia. Qed.
Lemma group_repair : group_sum (any_key is_repair) = rows.
Proof. rewrite (group_any is_repair true); [cbn; lia|]. done. Qed.
Lemma group_ordinary : group_sum (any_key is_ordinary) = 0.
Proof. rewrite (group_any is_ordinary false); [done|]. intros l Hl. unfold is_ordinary. cbn. by rewrite Hl. Qed.
Lemma group_running : group_sum (any_key is_running) = 0.
Proof. rewrite (group_any is_running false); [done|]. intros l Hl. unfold is_running. cbn. by rewrite Hl. Qed.
End sums.

Lemma repairs_of_insert o g r t :
  repairing o !! g = None →
  repairs_of (set_repairing (<[g := r]> (repairing o)) o) t =
    repairs_of o t + (if decide (t = rep_tenant r) then repair_rows r else 0).
Proof.
  intros Hg. unfold repairs_of. cbn. rewrite msum_insert_new by done.
  destruct (decide (t = rep_tenant r)) as [->|Hne].
  - rewrite bool_decide_eq_true_2 by done. lia.
  - rewrite bool_decide_eq_false_2 by congruence. lia.
Qed.

(** The heap keeps the completions of everyone else. *)
Lemma planned_completion t h fr a i : Planned t h fr a → i < fr → completion (ow_arcs a) i = completion h i.
Proof. intros Ha Hi. unfold completion. by rewrite (pl_old _ _ _ _ Ha i Hi). Qed.

Lemma Links_start st h fr o g t a r :
  Links st h fr o → Planned t h fr a → repairing o !! g = None →
  (∀ k x, (k, x) ∈ ow_list a → executions st !! k = None) →
  rep_tenant r = t → rep_keys r = (ow_list a).*1 → ow_list a ≠ [] →
  ROW_OVERHEAD * repair_rows r ≤ charged r →
  Links (set_executions st (insert_all (executions st) (ow_list a))) (ow_arcs a) (ow_fresh a)
    (set_repairing (<[g := r]> (repairing o)) o).
Proof.
  intros [] Ha Hg Hnew Hrt Hrk Hne Hch. pose proof (pl_fresh _ _ _ _ Ha) as Hfr.
  pose proof (pl_nodup _ _ _ _ Ha) as Hnd. constructor; cbn.
  - intros k l [Hin|[_ Hk]]%insert_all_inv; [| |done].
    + destruct (pl_entry _ _ _ _ Ha k l Hin) as (_ & ? & _ & _ & _ & ->). cbn. split; [done|lia].
    + destruct (lk_exec k l Hk) as [He Hlt]. rewrite (planned_completion _ _ _ _ _ Ha Hlt). split; [done|lia].
  - intros k1 k2 l1 l2 [H1|[Hn1 H1]]%insert_all_inv [H2|[Hn2 H2]]%insert_all_inv Heq; try done.
    + pose proof (pl_owners _ _ _ _ Ha) as Hod. apply list_elem_of_lookup_1 in H1 as [i1 H1].
      apply list_elem_of_lookup_1 in H2 as [i2 H2].
      assert (i1 = i2) as ->.
      { eapply NoDup_lookup; [exact Hod| |]; rewrite list_lookup_fmap.
        - rewrite H1. done.
        - rewrite H2. cbn. by rewrite Heq. }
      rewrite H1 in H2. by injection H2 as -> ->.
    + destruct (pl_entry _ _ _ _ Ha k1 l1 H1) as (_ & ? & _). destruct (lk_exec k2 l2 H2). lia.
    + destruct (pl_entry _ _ _ _ Ha k2 l2 H2) as (_ & ? & _). destruct (lk_exec k1 l1 H1). lia.
    + by eapply lk_inj.
  - intros i Hi. destruct (pl_arcs _ _ _ _ Ha i Hi) as [Hi'|]; [|done]. specialize (lk_fresh i Hi'). lia.
  - intros i t' Hi. destruct (lk_lease i t' Hi) as [Hlt Hle]. split; [lia|].
    rewrite (planned_completion _ _ _ _ _ Ha Hlt).
    destruct (c_execution (completion h i)) as [e|]; [|done]. destruct Hle as (l & Hk & ? & ? & ?).
    exists l. rewrite insert_owners_ne; [done|]. intros ([k x] & Heq & Hin)%list_elem_of_fmap. cbn in Heq.
    rewrite Heq, (Hnew k x Hin) in Hk. done.
  - intros k l [Hin|[_ Hk]]%insert_all_inv Hr Hd; [| |done].
    + destruct (pl_entry _ _ _ _ Ha k l Hin) as (_ & _ & _ & _ & ? & _). congruence.
    + by apply lk_owner.
  - intros k l [Hin|[_ Hk]]%insert_all_inv; [| |done].
    + destruct (pl_entry _ _ _ _ Ha k l Hin) as (_ & _ & Hp & Hd & Hr & ->). cbn. split; [done|congruence].
    + destruct (lk_exec k l Hk) as [_ Hlt]. rewrite (planned_completion _ _ _ _ _ Ha Hlt).
      exact (lk_flags k l Hk).
  - intros g' r' [[<- <-]|[_ Hg']]%lookup_insert_Some.
    + rewrite Hrk. split_and!; [done|by destruct (ow_list a)|done|].
      intros k ([k' x] & -> & Hin)%list_elem_of_fmap. cbn.
      destruct (pl_entry _ _ _ _ Ha k' x Hin) as (-> & _ & _ & _ & ? & _). split; [done|]. exists x.
      by rewrite (insert_all_eq _ _ _ _ Hnd Hin).
    + destruct (lk_repair g' r' Hg') as (? & ? & ? & Hkeys). split_and!; [done..|].
      intros k Hk. destruct (Hkeys k Hk) as (? & l & Hkl & ?). split; [done|]. exists l.
      rewrite insert_owners_ne; [done|]. intros ([k' x] & -> & Hin)%list_elem_of_fmap.
      cbn in Hkl. by rewrite (Hnew k' x Hin) in Hkl.
  - intros g1 g2 r1 r2 k [[<- <-]|[_ H1]]%lookup_insert_Some [[<- <-]|[_ H2]]%lookup_insert_Some Hk1 Hk2; try done.
    + exfalso. destruct (lk_repair g2 r2 H2) as (_ & _ & _ & Hkeys). destruct (Hkeys k Hk2) as (_ & l & Hkl & _).
      rewrite Hrk in Hk1. apply list_elem_of_fmap in Hk1 as ([k' x] & -> & Hin).
      cbn in Hkl. by rewrite (Hnew k' x Hin) in Hkl.
    + exfalso. destruct (lk_repair g1 r1 H1) as (_ & _ & _ & Hkeys). destruct (Hkeys k Hk1) as (_ & l & Hkl & _).
      rewrite Hrk in Hk2. apply list_elem_of_fmap in Hk2 as ([k' x] & -> & Hin).
      cbn in Hkl. by rewrite (Hnew k' x Hin) in Hkl.
    + by eapply lk_repairs.
  - done.
  - destruct lk_queue as [? Hlt]. split; [done|]. intros w Hw. specialize (Hlt w Hw). lia.
Qed.

Lemma Links_ext st st' h fr o :
  Links st h fr o → executions st' = executions st → queue st' = queue st → Links st' h fr o.
Proof. intros [] He Hq. constructor; rewrite ?He, ?Hq; done. Qed.
Lemma Inv_start_repair (w : World) o g read t bytes entries w' r :
  WInv adm w o → repairing o !! g = None → 0 ≤ bytes →
  repair_change adm read t bytes entries w = (w', Ok r) →
  WInv adm w' (set_repairing (<[g := r]> (repairing o)) o).
Proof.
  intros Hi Hg Hbytes Hrun. unfold repair_change in Hrun. apply attempt_ok in Hrun. cbn in Hrun.
  unfold check_read, unknown_available in Hrun. res_inv. rename v into a. arith.
  match goal with H : plan_repair _ _ _ _ _ = Ok _ |- _ => apply plan_repair_ok in H as (Hmt & Ha & Hne) end.
  destruct v5 as [acc ch]. res_inv.
  match goal with H : Accounting_reserve_repair _ _ _ _ = Ok _ |- _ =>
    apply Accounting_reserve_repair_ok in H as (Hch & Hf & Hle & Hacc & Hb1 & Hb2 & Hb3 & Hb4 & Hb5) end.
  match goal with H : publication_pending _ = None |- _ => rename H into Hnone end.
  match goal with H : existsb _ _ = false |- _ => rename H into Hex end.
  set (st := state w) in *. set (h := arcs w) in *. set (fr := fresh w) in *.
  pose proof Hi as [Hl Hk Hp Hc Hr]. fold st h fr in Hl, Hk, Hp, Hc, Hr.
  assert (∀ k x, (k, x) ∈ ow_list a → executions st !! k = None) as Hnew.
  { intros k x Hin. destruct (executions st !! k) as [l|] eqn:Hkl; [|done]. exfalso.
    assert (existsb (λ kl, is_some (executions st !! kl.1)) (ow_list a) = true) as Ht; [|congruence].
    apply existsb_exists. exists (k, x). split; [by apply list_elem_of_In|]. cbn. by rewrite Hkl. }
  pose proof (Inv_no_publication _ _ _ _ _ Hi Hnone) as Hpub.
  pose proof (pl_fresh _ _ _ _ Ha) as Hfr. pose proof (pl_nodup _ _ _ _ Ha) as Hnd.
  set (r := {| rep_tenant := t; charged := ch; rep_keys := (ow_list a).*1 |}).
  set (rows := Z.of_nat (length (ow_list a))) in *.
  assert (repair_rows r = rows) as Hrows by (unfold repair_rows, r; cbn; by rewrite length_fmap).
  assert (∀ i, i < fr → completion (ow_arcs a) i = completion h i) as Hold
    by (intros i; exact (planned_completion t h fr a i Ha)).
  set (o' := set_repairing (<[g := r]> (repairing o)) o).
  set (execs' := insert_all (executions st) (ow_list a)).
  assert (resolve (ow_arcs a) execs' =
    alter_each fst (λ kl _, Some (kl.2, false)) (resolve h (executions st)) (ow_list a)) as Hres.
  { apply resolve_insert_all; [done| |].
    - intros k x Hkx. destruct (lk_exec _ _ _ _ Hk k x Hkx). by rewrite Hold.
    - intros k x Hin. destruct (pl_entry _ _ _ _ Ha k x Hin) as (_ & _ & _ & _ & _ & ->). done. }
  assert (∀ f, mcount f (resolve (ow_arcs a) execs') = mcount f (resolve h (executions st)) + group_sum a f) as Hcount.
  { intros f. rewrite Hres. apply mcount_insert_all; [done|]. intros k x Hin. rewrite resolve_lookup.
    by rewrite (Hnew k x Hin). }
  destruct (unbound_ext h (ow_arcs a) o) as [Hub Hubo].
  { intros i t' Hit. destruct (lk_lease _ _ _ _ Hk i t' Hit). by rewrite Hold. }
  assert (repairs_all o' = repairs_all o + rows) as Hra.
  { unfold repairs_all, o'. cbn. rewrite msum_insert_new by done. lia. }
  assert (charged_all o' = charged_all o + ch) as Hca.
  { unfold charged_all, o'. cbn. rewrite msum_insert_new by done. cbn. lia. }
  pose proof (λ t', repairs_of_insert o g r t' Hg) as Hro. fold o' in Hro.
  rewrite Hrows in Hro. cbn [rep_tenant r] in Hro.
  match goal with |- WInv _ ?w' _ => set (w2 := w') end.
  assert (∀ t', counts_of (state w2) t' = if decide (t' = t) then
    with_uncovered (c_uncovered (counts_of st t) + ow_uncovered a)
      (with_repairs (repairs (counts_of st t) + rows) (counts_of st t)) else counts_of st t') as Hcnt.
  { intros t'. unfold w2. cbn [state set_world].
    exact (counts_of_entry_update (set_receipts st acc) t (λ c0, with_uncovered (c_uncovered (counts_of st t) + ow_uncovered a)
      (with_repairs (repairs (counts_of st t) + rows) c0)) t'). }
  unfold WInv. split.
  - pose proof (led_c_uncovered _ _ _ Hl t) as Hlu. pose proof (led_repairs _ _ _ Hl t) as Hlr.
    pose proof (group_any t h fr a Ha) as Hga. pose proof (group_of t h fr a Ha) as Hgo.
    pose proof (group_bare t h fr a Ha) as Hgb. pose proof (group_open t h fr a Ha) as Hgop.
    pose proof (group_repair t h fr a Ha) as Hgr. pose proof (group_ordinary t h fr a Ha) as Hgord.
    pose proof (group_running t h fr a Ha) as Hgrun. fold rows in Hgop, Hgr.
    assert (∀ t', with_unknown None (counts_of (state w2) t') = tally (state w2) (ow_arcs a) o' t') as Htally.
    { intros t'. rewrite Hcnt. unfold tally. cbn. fold execs'.
      change (unbound_of (ow_arcs a) o' t') with (unbound_of (ow_arcs a) o t').
      rewrite Hubo, !Hcount, !Hgo, Hgb, Hgord, Hro.
      change (pinned o' t') with (pinned o t'). destruct Hl.
      destruct (decide (t' = t)) as [->|Hnt].
      - rewrite Hlu, Hlr. tally_step.
      - rewrite led_tally. unfold tally. f_equal; try done; lia. }
    destruct Hl. constructor; try exact Htally; try done; cbn [state w2 set_world arcs fresh]; fold execs' o';
      cbn [executions receipts set_executions set_receipts entry_update set_tenants active totals set_totals
           live uncovered reserved repair_reserved repair_live]; rewrite ?Hacc;
      cbn [totals set_totals live uncovered reserved repair_reserved repair_live physical_write_reserved]; try done.
    + change (unbound (ow_arcs a) o') with (unbound (ow_arcs a) o). rewrite Hub, Hcount, Hgord.
      fold st in led_active. lia.
    + change (unbound (ow_arcs a) o') with (unbound (ow_arcs a) o). rewrite Hub, Hcount, Hgop. lia.
    + change (unbound (ow_arcs a) o') with (unbound (ow_arcs a) o). rewrite Hub, Hcount, Hgb. lia.
    + change (unbound (ow_arcs a) o') with (unbound (ow_arcs a) o). rewrite Hub, Hcount, Hgrun, Hca.
      unfold RESERVATION in *. lia.
    + lia.
    + lia.
    + rewrite Hcount, Hgr. lia.
    + intros t'. rewrite Hcount, Hgo, Hgr, Hro, led_repair_of. done.
  - apply (Links_ext (set_executions st execs')); [|done|done].
    apply (Links_start st h fr o g t a r); try done. rewrite Hrows. cbn. lia.
  - destruct Hp as [Ht Hpr Hpe]. constructor; cbn; rewrite ?Hpub; [by rewrite Hpub in Ht|done|].
    intros k l [Hin|[_ Hkl]]%insert_all_inv Hpd; [| |done].
    + destruct (pl_entry _ _ _ _ Ha k l Hin) as (_ & _ & ? & _). congruence.
    + destruct (Hpe k l Hkl Hpd) as (p & s & Hp' & _). congruence.
  - intros _. specialize (Hc Hf). constructor.
    + cbn. rewrite Hacc. apply (co_total _ _ Hc).
    + intros t' n. rewrite Hcnt. destruct (decide (t' = t)) as [->|]; apply (co_tenant _ _ Hc).
    + intros p s Hps. change (publication o = Some p) in Hps. congruence.
  - destruct Hr. constructor; try done; cbn.
    + destruct ra_accounting as [? ? [] ?]. rewrite Hacc. constructor; cbn; try done.
      pose proof (led_repair_of _ _ _ Hl). pose proof (group_bare t h fr a Ha).
      assert (0 ≤ ow_uncovered a).
      { rewrite (pl_uncovered _ _ _ _ Ha). apply sum_by_nonneg. intros. apply of_bool_bounds. }
      assert (0 ≤ rows) by (unfold rows; lia). assert (0 ≤ rows * ROW_OVERHEAD) by (unfold ROW_OVERHEAD; lia).
      constructor; cbn; unfold in_u64 in *; try done; lia.
    + intros t'. change (pins (counts_of (state w2) t') ≤ u64_max). rewrite Hcnt.
      destruct (decide (t' = t)) as [->|]; apply ra_pins.
    + intros t'. change (repairs (counts_of (state w2) t') ≤ u64_max). rewrite Hcnt.
      destruct (decide (t' = t)) as [->|]; [done|apply ra_repairs].
    + intros t' n. change (c_unknown (counts_of (state w2) t') = Some n → in_u64 n). rewrite Hcnt.
      destruct (decide (t' = t)) as [->|]; apply ra_fence.
Qed.
End start.

(** ** A repair ends *)

Section finish.
Context (adm : Admission) (Hb : Budgets adm).
Implicit Types (st : State) (h : Arcs) (o : Owners) (fr : Z) (t : TenantId).

Lemma check_repaired_ok st h committed keys u u' :
  try_fold (check_repaired st h committed) u keys = Ok u' →
  u' = u + sum_by (λ k, share (λ l, of_bool (negb (covered l))) (executions st !! k)) keys ∧
  ∀ k, k ∈ keys → ∃ l, executions st !! k = Some l ∧ repair l = true ∧ pending l = false ∧
    done (completion h (owner l)) = false.
Proof.
  revert u. induction keys as [|k keys IH]; intros u; cbn.
  - intros [= <-]. split; [unfold sum_by; cbn; lia|]. intros k Hk. by apply elem_of_nil in Hk.
  - destruct (check_repaired st h committed u k) as [u1|] eqn:Hk; cbn; [|done].
    intros Hf. destruct (IH u1 Hf) as [-> Hall]. unfold check_repaired in Hk. res_inv.
    match goal with H : executions st !! k = Some _ |- _ => rename H into Hkl end.
    apply checked_add_Some in Hk as [-> _]. rewrite sum_by_cons, Hkl. cbn. split; [lia|].
    intros k' [->|Hk']%elem_of_cons; [|by apply Hall]. eexists. split; [exact Hkl|].
    match goal with H : negb _ = true |- _ => apply negb_true_iff in H; repeat apply orb_false_iff in H as [H ?] end.
    split_and!; try done. by apply negb_false_iff.
Qed.

Lemma Links_finish st h fr o g r :
  Links st h fr o → repairing o !! g = Some r →
  Links (set_executions st (delete_all (executions st) (rep_keys r))) h fr
    (set_repairing (delete g (repairing o)) o).
Proof.
  intros [] Hg. destruct (lk_repair g r Hg) as (Hnd & Hne & Hch & Hkeys). constructor; cbn; try done.
  - intros k l [_ Hk]%delete_all_Some; [|done]. exact (lk_exec k l Hk).
  - intros k1 k2 l1 l2 [_ H1]%delete_all_Some [_ H2]%delete_all_Some; [by eapply lk_inj|done..].
  - intros i t Hi. destruct (lk_lease i t Hi) as [? Hle]. split; [done|].
    destruct (c_execution (completion h i)) as [e|]; [|done]. destruct Hle as (l & Hkl & ? & Hr & ?).
    exists l. split; [|done]. apply delete_all_Some; [done|]. split; [|done]. intros Hin.
    destruct (Hkeys _ Hin) as (_ & l' & Hkl' & Hr'). congruence.
  - intros k l [_ Hk]%delete_all_Some; [|done]. by apply lk_owner.
  - intros k l [_ Hk]%delete_all_Some; [|done]. exact (lk_flags k l Hk).
  - intros g' r' [Hgg Hg']%lookup_delete_Some. destruct (lk_repair g' r' Hg') as (? & ? & ? & Hkeys').
    split_and!; [done..|]. intros k Hk. destruct (Hkeys' k Hk) as (? & l & Hkl & ?). split; [done|].
    exists l. split; [|done]. apply delete_all_Some; [done|]. split; [|done]. intros Hin.
    by apply Hgg, (lk_repairs g g' r r' k).
  - intros g1 g2 r1 r2 k [_ H1]%lookup_delete_Some [_ H2]%lookup_delete_Some. by eapply lk_repairs.
Qed.
Lemma repairs_of_delete o g r t :
  repairing o !! g = Some r →
  repairs_of (set_repairing (delete g (repairing o)) o) t =
    repairs_of o t - (if decide (t = rep_tenant r) then repair_rows r else 0).
Proof.
  intros Hg. unfold repairs_of. cbn. rewrite msum_delete, Hg. cbn.
  destruct (decide (t = rep_tenant r)) as [->|Hne].
  - rewrite bool_decide_eq_true_2 by done. lia.
  - rewrite bool_decide_eq_false_2 by congruence. lia.
Qed.

Section sums.
Context (st : State) (h : Arcs) (r : Repair).
Context (Hall : ∀ k, k ∈ rep_keys r → key_tenant k = rep_tenant r ∧ ∃ l, executions st !! k = Some l ∧
  repair l = true ∧ done (completion h (owner l)) = false).
Definition leaving (f : Key → Live * bool → bool) : Z :=
  sum_by (λ k, share (λ x, of_bool (f k x)) (resolve h (executions st) !! k)) (rep_keys r).
Lemma leaving_any f c : (∀ l, repair l = true → f (l, false) = c) →
  leaving (any_key f) = of_bool c * repair_rows r.
Proof.
  intros Hf. unfold repair_rows. rewrite <-sum_by_const. apply sum_by_ext. intros k Hk.
  destruct (Hall k Hk) as (_ & l & Hkl & Hr & Hd). rewrite resolve_lookup, Hkl. cbn.
  unfold any_key. by rewrite Hd, Hf.
Qed.
Lemma leaving_of f t : leaving (of_tenant t f) = if decide (t = rep_tenant r) then leaving (any_key f) else 0.
Proof.
  destruct (decide (t = rep_tenant r)) as [->|Hne].
  - apply sum_by_ext. intros k Hk. destruct (Hall k Hk) as (Hkt & l & Hkl & _).
    rewrite resolve_lookup, Hkl. cbn. unfold of_tenant, any_key. by rewrite bool_decide_eq_true_2.
  - replace 0 with (0 * Z.of_nat (length (rep_keys r))) by lia. rewrite <-sum_by_const.
    apply sum_by_ext. intros k Hk. destruct (Hall k Hk) as (Hkt & l & Hkl & _).
    rewrite resolve_lookup, Hkl. cbn. unfold of_tenant. by rewrite bool_decide_eq_false_2 by congruence.
Qed.
Lemma leaving_bare : leaving (any_key is_bare) =
  sum_by (λ k, share (λ l, of_bool (negb (covered l))) (executions st !! k)) (rep_keys r).
Proof.
  apply sum_by_ext. intros k Hk. destruct (Hall k Hk) as (_ & l & Hkl & Hr & Hd).
  rewrite resolve_lookup, Hkl. cbn. unfold any_key, is_bare. cbn. by rewrite Hd, andb_true_r.
Qed.
End sums.

Lemma repaired_totals_ok (t t' : Totals) committed rows u ch :
  repaired_totals t committed rows u ch = Ok t' → 0 ≤ ch → 0 ≤ rows → 0 ≤ u → Totals_wf t →
  live t' = live t - rows ∧ repair_live t' = repair_live t - rows ∧ uncovered t' = uncovered t - u ∧
  reserved t' = reserved t - ch ∧ repair_reserved t' = repair_reserved t - ch ∧
  unknown t' = unknown t ∧ Totals_wf t'.
Proof.
  unfold repaired_totals. intros Ht Hch Hrows Hu Hwf. res_inv.
  assert (in_u64 v4) as Hb4.
  { destruct Hwf, committed; res_inv; arith. }
  destruct Hwf. arith. split_and!; cbn; try done; try lia. constructor; cbn; unfold in_u64 in *; try done; lia.
Qed.
Lemma finish_counts st h o g r (execs := delete_all (executions st) (rep_keys r))
    (o' := set_repairing (delete g (repairing o)) o) :
  NoDup (rep_keys r) → ∀ f,
  mcount f (resolve h execs) = mcount f (resolve h (executions st)) - leaving st h r f.
Proof. intros Hnd f. unfold execs. rewrite resolve_delete_all by done. by apply mcount_delete_all. Qed.

Lemma Inv_finish_repair (w : World) o g r committed w' :
  WInv adm w o → repairing o !! g = Some r → repair_finish r committed w = (w', Ok tt) →
  WInv adm w' (set_repairing (delete g (repairing o)) o).
Proof.
  intros Hi Hg Hrun. unfold repair_finish in Hrun. apply attempt_ok in Hrun. cbn in Hrun.
  res_inv. match goal with H : try_fold _ _ _ = Ok _ |- _ => apply check_repaired_ok in H as [-> Hall] end.
  rename v1 into counts, Hv1 into Hcounts. set (st := state w) in *. set (h := arcs w) in *.
  set (unc := sum_by _ (rep_keys r)) in *. rewrite Z.add_0_l in *. rename v4 into next, Hv4 into Hnext.
  arith. match goal with H : publication_pending st = None |- _ => rename H into Hnone end.
  pose proof Hi as [Hl Hk Hp Hc Hr]. fold st h in Hl, Hk, Hp, Hc, Hr. set (fr := fresh w) in *.
  pose proof (Inv_no_publication _ _ _ _ _ Hi Hnone) as Hpub.
  destruct (lk_repair _ _ _ _ Hk g r Hg) as (Hnd & Hne & Hch & Hkeys).
  set (t := rep_tenant r) in *. set (rows := Z.of_nat (length (rep_keys r))) in *.
  assert (repair_rows r = rows) as Hrows by done. rewrite Hrows in Hch.
  assert (∀ k, k ∈ rep_keys r → key_tenant k = rep_tenant r ∧ ∃ l, executions st !! k = Some l ∧
    repair l = true ∧ done (completion h (owner l)) = false) as Hent.
  { intros k Hin. destruct (Hkeys k Hin) as [? _]. split; [done|].
    destruct (Hall k Hin) as (l & ? & ? & _ & ?). by exists l. }
  assert (0 ≤ rows) as Hr0 by (unfold rows; lia).
  assert (0 ≤ unc) as Hu0.
  { apply sum_by_nonneg. intros k _. destruct (executions st !! k); cbn; [apply of_bool_bounds|lia]. }
  apply repaired_totals_ok in Hnext as (Hlive & Hrl & Hun & Hres & Hrr & Hunk & Hwf);
    [|unfold ROW_OVERHEAD in Hch; lia|done|done|apply (ra_accounting _ _ Hr)].
  pose proof (finish_counts st h o g r Hnd) as Hcnt. set (execs := delete_all _ _) in Hcnt.
  pose proof (leaving_any st h r Hent) as Hla. pose proof (leaving_of st h r Hent) as Hlo.
  assert (leaving st h r (any_key is_bare) = unc) as Hlb by exact (leaving_bare st h r Hent).
  rewrite Hrows in Hla.
  assert (leaving st h r (any_key is_open) = rows) as Hlop by (rewrite (Hla _ true) by done; cbn; lia).
  assert (leaving st h r (any_key is_repair) = rows) as Hlr by (rewrite (Hla _ true) by done; cbn; lia).
  assert (leaving st h r (any_key is_ordinary) = 0) as Hlord.
  { rewrite (Hla _ false); [done|]. intros l Hlr'. unfold is_ordinary. cbn. by rewrite Hlr'. }
  assert (leaving st h r (any_key is_running) = 0) as Hlrun.
  { rewrite (Hla _ false); [done|]. intros l Hlr'. unfold is_running. cbn. by rewrite Hlr'. }
  set (o' := set_repairing (delete g (repairing o)) o).
  pose proof (λ t', repairs_of_delete o g r t' Hg) as Hro. fold o' t in Hro. rewrite Hrows in Hro.
  assert (repairs_all o' = repairs_all o - rows) as Hra.
  { unfold repairs_all, o'. cbn. rewrite msum_delete, Hg. cbn. lia. }
  assert (charged_all o' = charged_all o - charged r) as Hca.
  { unfold charged_all, o'. cbn. rewrite msum_delete, Hg. cbn. lia. }
  assert (counts_of st t = counts) as Hco by (unfold counts_of; by rewrite Hcounts).
  unfold WInv. cbn. apply Inv_idle.
  set (g' := λ c, with_uncovered (c_uncovered counts - unc) (with_repairs (repairs counts - rows) c)).
  set (st2 := set_executions (get_mut (set_receipts st (set_totals (receipts st) next)) t g') execs).
  change (Inv adm st2 h fr o').
  assert (∀ t', counts_of st2 t' = if decide (t' = t) then g' (counts_of st t) else counts_of st t') as Hcs.
  { intros t'. exact (counts_of_get_mut (set_receipts st (set_totals (receipts st) next)) t g' t'
      (mk_is_Some _ _ Hcounts)). }
  split.
  - pose proof (led_c_uncovered _ _ _ Hl t) as Hlu. pose proof (led_repairs _ _ _ Hl t) as Hlrp.
    rewrite Hco in Hlu, Hlrp.
    assert (∀ t', with_unknown None (counts_of st2 t') = tally st2 h o' t') as Htally.
    { intros t'. rewrite Hcs. unfold tally. cbn. change (unbound_of h o' t') with (unbound_of h o t').
      change (pinned o' t') with (pinned o t'). rewrite !Hcnt, !Hlo, Hlb, Hlord, Hro. fold t.
      destruct Hl. destruct (decide (t' = t)) as [->|Hnt].
      - unfold g'. rewrite Hlu, Hlrp. tally_step.
      - rewrite led_tally. unfold tally. f_equal; try done; lia. }
    destruct Hl. constructor; try exact Htally; try done; cbn;
      change (unbound h o') with (unbound h o); try (intros t'); rewrite ?Hcnt, ?Hlo; fold t;
      rewrite ?Hlb, ?Hlord, ?Hlop, ?Hlr, ?Hlrun, ?Hra, ?Hro, ?Hca, ?led_repair_of, ?Hlive, ?Hrl, ?Hun, ?Hres, ?Hrr; try done; try lia.
  - apply (Links_ext (set_executions st execs)); [|done|done]. by apply Links_finish.
  - destruct Hp as [Ht Hpr Hpe]. constructor; cbn; rewrite ?Hpub; [by rewrite Hpub in Ht|done|].
    intros k l [_ Hkl]%delete_all_Some Hpd; [|done].
    destruct (Hpe k l Hkl Hpd) as (p & s & Hp' & _). congruence.
  - intros Hf. specialize (Hc Hf). constructor.
    + cbn. rewrite Hunk. apply (co_total _ _ Hc).
    + intros t' n. rewrite Hcs. destruct (decide (t' = t)) as [->|]; apply (co_tenant _ _ Hc).
    + intros p s Hps. change (publication o = Some p) in Hps. congruence.
  - destruct Hr. constructor; try done.
    + destruct ra_accounting. by constructor.
    + intros t'. rewrite Hcs. destruct (decide (t' = t)) as [->|]; apply ra_pins.
    + intros t'. rewrite Hcs. destruct (decide (t' = t)) as [->|]; [|apply ra_repairs].
      cbn. specialize (ra_repairs t). rewrite Hco in ra_repairs. lia.
    + intros t' n. rewrite Hcs. destruct (decide (t' = t)) as [->|]; apply ra_fence.
Qed.
End finish.
