(* ===== verification/TenancyPublish.v ===== *)
(** Publishing and rolling back: a prepared publication whose transaction is known to have
    committed, or rolled back, is always applied, and the ledger stays exact
    ([Publication::finish] of [apps/tenancy/admission/unknown.rs]). *)
From stdpp Require Import base list strings gmap sorting.
From Stdlib Require Import ZArith Lia.
From S2P Require Import Prelude MapSum TenancyCapacity TenancyState TenancyAdmission TenancyUnknown TenancySystem TenancyLedger TenancyLease TenancyRepair.
Open Scope Z_scope.
#[local] Arguments countb : simpl never.
#[local] Arguments sum_by : simpl never.
#[local] Arguments msum : simpl never.
#[local] Arguments mcount : simpl never.
#[local] Arguments resolve : simpl never.
#[local] Arguments pinned : simpl never.

(** ** What a step releases *)

Section deltas.
Context (st : State) (rollback : bool).
Definition dropped_at (s : Step) : bool :=
  is_some (step_owner s) && is_some_and dropped (executions st !! step_key s).
Definition covered_after (s : Step) : bool := if rollback then step_before s else step_after s.
Definition slot_freed (s : Step) : Z := of_bool (dropped_at s).
Definition bare_freed (s : Step) : Z :=
  of_bool (dropped_at s && negb (is_terminal rollback s) && negb (covered_after s)).
Definition released (s : Step) : Z :=
  of_bool (is_some (step_owner s) && (is_terminal rollback s || dropped_at s)).
Definition cover_change (s : Step) : Z := if rollback then 0 else cover_delta s.
Definition bare_change (s : Step) : Z := cover_change s - bare_freed s.
Definition durable_change (s : Step) : Z := if rollback then 0 else durable_delta s.
Definition bytes_change (s : Step) : Z := if rollback then 0 else stored_bytes s.
Lemma durable_sum l : sum_by durable_change l = if rollback then 0 else sum_by durable_delta l.
Proof.
  unfold durable_change. destruct rollback; [rewrite sum_by_const; lia|]. by apply sum_by_ext.
Qed.
Lemma bytes_sum l : sum_by bytes_change l = if rollback then 0 else sum_by stored_bytes l.
Proof.
  unfold bytes_change. destruct rollback; [rewrite sum_by_const; lia|]. by apply sum_by_ext.
Qed.
End deltas.

(** ** The counts after a publication *)

Section counts.
Context (st : State) (h : Arcs) (o : Owners) (p : Publication) (rollback : bool).
Context (Hl : Ledger st h o) (Hfl : ∀ k l, executions st !! k = Some l → dropped l = true → repair l = false)
  (Hp : Prepared st h p).
Local Notation v := (resolve h (executions st)).
Definition view_after : view := alter_each step_key (settle_entry rollback) v (steps p).

(** The entry of an owned step. *)
Lemma owned_entry s : s ∈ steps p → is_some (step_owner s) = true →
  ∃ l, executions st !! step_key s = Some l ∧ v !! step_key s = Some (l, false) ∧
    step_owner s = Some (owner l) ∧ pending l = true ∧ covered l = step_before s ∧
    done (completion h (owner l)) = false ∧ (repair l = true → terminal s = None) ∧
    key_tenant (step_key s) ∈ tc_tenant <$> pub_tenants p.
Proof.
  intros Hs Ho. apply bool_decide_eq_true in Ho as [i Hi].
  destruct (pr_step _ _ _ Hp s i Hs Hi) as ((l & Hk & <- & ? & ? & ?) & Hd & ?).
  exists l. split_and!; try done. rewrite resolve_lookup, Hk. cbn. by rewrite Hd.
Qed.

(** How much one step changes a count. *)
Definition changes (f : Live * bool → bool) (g : Step → Z) : Prop :=
  ∀ s l, s ∈ steps p → step_owner s = Some (owner l) → executions st !! step_key s = Some l →
    covered l = step_before s → (repair l = true → terminal s = None) →
    share (λ x, of_bool (f x)) (settle_entry rollback s (Some (l, false))) - of_bool (f (l, false)) = g s.
Lemma count_after (f : Live * bool → bool) (g : Step → Z) :
  changes f g → (∀ s, is_some (step_owner s) = false → g s = 0) →
  mcount (any_key f) view_after = mcount (any_key f) v + sum_by g (steps p) ∧
  ∀ t, mcount (of_tenant t f) view_after = mcount (of_tenant t f) v + sum_by (for_tenant t g) (steps p).
Proof.
  intros Hfg Hg0.
  assert (∀ s, s ∈ steps p → share (λ x, of_bool (f x)) (settle_entry rollback s (v !! step_key s))
    - share (λ x, of_bool (f x)) (v !! step_key s) = g s) as Hs.
  { intros s Hin. destruct (is_some (step_owner s)) eqn:Ho.
    - destruct (owned_entry s Hin Ho) as (l & Hk & Hv & Hso & _ & Hcov & _ & Hrep & _). rewrite Hv.
      by apply Hfg.
    - unfold settle_entry. rewrite Ho, Hg0 by done. lia. }
  split.
  - unfold view_after, mcount. rewrite msum_alter_each by apply (pr_keys _ _ _ Hp). f_equal.
    apply sum_by_ext. exact Hs.
  - intros t. unfold view_after, mcount. rewrite msum_alter_each by apply (pr_keys _ _ _ Hp). f_equal.
    apply sum_by_ext. intros s Hin. unfold for_tenant, of_tenant.
    case_bool_decide as Ht; [by apply Hs|]. cbn.
    by destruct (settle_entry _ _ _), (v !! step_key s).
Qed.

Lemma changes_ordinary : changes is_ordinary (λ s, - slot_freed st s).
Proof.
  intros s l Hs Ho Hk Hc Hr. unfold slot_freed, dropped_at, settle_entry, is_ordinary. rewrite Ho, Hk. cbn.
  specialize (Hfl _ _ Hk). destruct (dropped l); cbn; [rewrite Hfl by done; done|]. by destruct (repair l).
Qed.
Lemma changes_open : changes is_open (λ s, - released st rollback s).
Proof.
  intros s l Hs Ho Hk Hc Hr. unfold released, dropped_at, settle_entry, is_open. rewrite Ho, Hk. cbn.
  destruct (dropped l); cbn; [by rewrite orb_true_r|]. rewrite !orb_false_r.
  by destruct (is_terminal rollback s).
Qed.
Lemma changes_running : changes is_running (λ s, - released st rollback s).
Proof.
  intros s l Hs Ho Hk Hc Hr. unfold released, dropped_at, settle_entry, is_running. rewrite Ho, Hk. cbn.
  specialize (Hfl _ _ Hk). destruct (dropped l); cbn; [rewrite Hfl by done; by rewrite orb_true_r|].
  rewrite !orb_false_r. destruct (repair l); cbn.
  - unfold is_terminal. rewrite Hr by done. by rewrite andb_false_r.
  - by destruct (is_terminal rollback s).
Qed.
Lemma changes_repair : changes is_repair (λ _, 0).
Proof.
  intros s l Hs Ho Hk Hc Hr. unfold settle_entry, is_repair. rewrite Ho. cbn.
  specialize (Hfl _ _ Hk). destruct (dropped l); cbn; [by rewrite Hfl|]. lia.
Qed.
Lemma changes_bare : changes is_bare (bare_change st rollback).
Proof.
  intros s l Hs Ho Hk Hc Hr.
  unfold bare_change, cover_change, bare_freed, cover_delta, dropped_at, covered_after, settle_entry,
    is_bare, is_terminal, settled. rewrite Ho, Hk. destruct (dropped l) eqn:Hd; cbn; rewrite ?Hd, Hc.
  all: by destruct rollback, (step_before s), (step_after s), (terminal s).
Qed.
End counts.

(** ** The arithmetic of [calculate] *)

Section calculate.
Context (st : State) (h : Arcs) (rollback : bool).

(** The next values of a tenant after the steps [pre]. *)
Definition base_unknown (tc : TenantChange) : option Z :=
  (λ n, n + (if rollback then 0 else durable tc)) <$> c_unknown (counts_of st (tc_tenant tc)).
Definition base_uncovered (tc : TenantChange) : Z :=
  c_uncovered (counts_of st (tc_tenant tc)) + (if rollback then 0 else tc_uncovered tc).
Definition tenant_after (pre : list Step) (tc : TenantChange) : TenantChange :=
  with_next tc (base_unknown tc)
    (base_uncovered tc - sum_by (for_tenant (tc_tenant tc) (bare_freed st rollback)) pre)
    (c_active (counts_of st (tc_tenant tc)) - sum_by (for_tenant (tc_tenant tc) (slot_freed st)) pre).
Definition sums_after (ts : list TenantChange) (pre : list Step) : Sums := {|
  su_tenants := tenant_after pre <$> ts; su_active := active st - sum_by (slot_freed st) pre;
  su_durable := sum_by (durable_change rollback) pre;
  su_uncovered := sum_by (bare_change st rollback) pre;
  su_release := sum_by (released st rollback) pre;
  su_bytes := sum_by (bytes_change rollback) pre |}.

Lemma change_tenant_ok t f g (l : list TenantChange) :
  NoDup (tc_tenant <$> l) → t ∈ tc_tenant <$> l →
  (∀ tc, tc ∈ l → tc_tenant tc = t → f tc = Ok (g tc)) →
  change_tenant t f l = Ok ((λ tc, if decide (tc_tenant tc = t) then g tc else tc) <$> l).
Proof.
  induction l as [|tc l IH]; cbn; intros Hnd Hin Hf; [by apply elem_of_nil in Hin|].
  apply NoDup_cons in Hnd as [Hn Hnd]. case_bool_decide as Ht.
  - rewrite (Hf tc) by (done || left). cbn. rewrite decide_True by done. do 2 f_equal.
    symmetry. etrans; [|apply list_fmap_id]. apply list_fmap_ext. intros i x Hx.
    rewrite decide_False; [done|]. intros Heq. apply Hn. rewrite Ht, <-Heq.
    by eapply list_elem_of_fmap_2, list_elem_of_lookup_2.
  - rewrite IH; [cbn; by rewrite decide_False|done| |].
    + apply elem_of_cons in Hin as [->|Hin]; [done|done].
    + intros tc' Hin'. apply Hf. by right.
Qed.

Section steps.
Context (ts : list TenantChange) (Hnd : NoDup (tc_tenant <$> ts)).
Lemma for_tenant_snoc t f pre s :
  sum_by (for_tenant t f) (pre ++ [s]) =
    sum_by (for_tenant t f) pre + (if decide (key_tenant (step_key s) = t) then f s else 0).
Proof.
  rewrite sum_by_snoc. unfold for_tenant at 2. destruct (decide _) as [Ht|Ht].
  - by rewrite bool_decide_eq_true_2.
  - by rewrite bool_decide_eq_false_2.
Qed.
Lemma add_ok a b : a + b ≤ u64_max → a +? b = Some (a + b).
Proof. intros. by apply checked_add_Some. Qed.
(** A step that releases nothing leaves the tenants alone. *)
Lemma tenant_after_none pre s tc :
  dropped_at st s = false → tenant_after (pre ++ [s]) tc = tenant_after pre tc.
Proof.
  intros Hd. unfold tenant_after. rewrite !for_tenant_snoc.
  assert (bare_freed st rollback s = 0 ∧ slot_freed st s = 0) as [-> ->]
    by (unfold bare_freed, slot_freed; by rewrite Hd).
  destruct (decide _); f_equal; lia.
Qed.
Lemma release_dropped_ok pre s :
  let t := key_tenant (step_key s) in
  let u := {| su_tenants := tenant_after pre <$> ts;
              su_active := active st - sum_by (slot_freed st) pre;
              su_durable := sum_by (durable_change rollback) (pre ++ [s]);
              su_uncovered := sum_by (bare_change st rollback) pre + cover_change rollback s;
              su_release := sum_by (released st rollback) pre + of_bool (is_terminal rollback s);
              su_bytes := sum_by (bytes_change rollback) (pre ++ [s]) |} in
  dropped_at st s = true → t ∈ tc_tenant <$> ts →
  sum_by (slot_freed st) (pre ++ [s]) ≤ active st →
  sum_by (released st rollback) (pre ++ [s]) ≤ u64_max →
  (∀ tc, tc ∈ ts →
    sum_by (for_tenant (tc_tenant tc) (slot_freed st)) (pre ++ [s]) ≤ c_active (counts_of st (tc_tenant tc)) ∧
    sum_by (for_tenant (tc_tenant tc) (bare_freed st rollback)) (pre ++ [s]) ≤ base_uncovered tc) →
  release_dropped rollback s (is_terminal rollback s) u = Ok (sums_after ts (pre ++ [s])).
Proof.
  intros t u Hd Hin Ha Hrel Hten. unfold release_dropped, u. cbn [su_active su_tenants su_release su_uncovered su_durable su_bytes].
  assert (slot_freed st s = 1) as Hsf by (unfold slot_freed; by rewrite Hd).
  rewrite sum_by_snoc, Hsf in Ha.
  assert (is_some (step_owner s) = true) as Ho.
  { unfold dropped_at in Hd. by apply andb_true_iff in Hd as [? _]. }
  assert (released st rollback s = 1) as Hr1.
  { unfold released. rewrite Ho, Hd. by rewrite orb_true_r. }
  rewrite sum_by_snoc, Hr1 in Hrel.
  rewrite sub_ok by lia. cbn [ok_or mbind result_bind].
  assert (∀ ts0 : list TenantChange, NoDup (tc_tenant <$> ts0) → NoDup (tc_tenant <$> (tenant_after pre <$> ts0))) as Hnd'.
  { intros ts0 H0. by rewrite <-list_fmap_compose. }
  assert (t ∈ tc_tenant <$> (tenant_after pre <$> ts)) as Hin' by by rewrite <-list_fmap_compose.
  rewrite (change_tenant_ok t _ (λ tc, with_next tc (next_unknown tc) (next_uncovered tc) (next_active tc - 1)));
    [|by apply Hnd'|done|].
  2:{ intros tc' Htc' Ht'. apply list_elem_of_fmap in Htc' as (tc & -> & Htc). cbn in Ht'.
      destruct (Hten tc Htc) as [Hact _]. rewrite for_tenant_snoc, decide_True, Hsf in Hact by done.
      cbn. rewrite sub_ok by lia. done. }
  cbn [mbind result_bind].
  assert (Htc2 : (λ tc, if decide (tc_tenant tc = t) then
      with_next tc (next_unknown tc) (next_uncovered tc) (next_active tc - 1) else tc) <$>
      (tenant_after pre <$> ts) =
    (λ tc, with_next (tenant_after (pre ++ [s]) tc) (base_unknown tc)
       (base_uncovered tc - sum_by (for_tenant (tc_tenant tc) (bare_freed st rollback)) pre)
       (next_active (tenant_after (pre ++ [s]) tc))) <$> ts).
  { rewrite <-list_fmap_compose. apply list_fmap_ext. intros i tc _. cbn. unfold tenant_after, with_next.
    cbn. rewrite (for_tenant_snoc _ (slot_freed st)), Hsf. fold t.
    destruct (decide (tc_tenant tc = t)) as [Ht|Ht].
    - rewrite (decide_True (P := t = _)) by done. cbn. f_equal. lia.
    - rewrite (decide_False (P := t = _)) by congruence. cbn. f_equal. lia. }
  rewrite Htc2. clear Htc2.
  assert (active st - sum_by (slot_freed st) pre - 1 = active st - sum_by (slot_freed st) (pre ++ [s])) as Hact1.
  { rewrite sum_by_snoc, Hsf. lia. }
  unfold sums_after. rewrite Hact1.
  destruct (is_terminal rollback s) eqn:Hterm; cbn [of_bool].
  - assert (bare_freed st rollback s = 0) as Hbf by (unfold bare_freed; rewrite Hterm; by rewrite andb_false_r).
    f_equal. f_equal.
    + apply list_fmap_ext. intros i tc _. unfold tenant_after, with_next. cbn.
      rewrite (for_tenant_snoc _ (bare_freed st rollback)), Hbf. f_equal. destruct (decide _); lia.
    + rewrite sum_by_snoc. unfold bare_change. rewrite Hbf. lia.
    + rewrite sum_by_snoc, Hr1. lia.
  - rewrite Z.add_0_r, add_ok by lia. cbn [ok_or mbind result_bind]. fold (covered_after rollback s).
    destruct (covered_after rollback s) eqn:Hcov; cbn [negb].
    + assert (bare_freed st rollback s = 0) as Hbf by (unfold bare_freed; rewrite Hcov; by rewrite andb_false_r).
      f_equal. f_equal.
      * apply list_fmap_ext. intros i tc _. unfold tenant_after, with_next. cbn.
        rewrite (for_tenant_snoc _ (bare_freed st rollback)), Hbf. f_equal. destruct (decide _); lia.
      * rewrite sum_by_snoc. unfold bare_change. rewrite Hbf. lia.
      * rewrite sum_by_snoc, Hr1. lia.
    + assert (bare_freed st rollback s = 1) as Hbf by (unfold bare_freed; by rewrite Hcov, Hterm, Hd).
      rewrite (change_tenant_ok t _ (λ tc, with_next tc (next_unknown tc) (next_uncovered tc - 1) (next_active tc)));
        [|by rewrite <-list_fmap_compose|by rewrite <-list_fmap_compose|].
      2:{ intros tc' Htc' Ht'. apply list_elem_of_fmap in Htc' as (tc & -> & Htc). cbn in Ht'.
          destruct (Hten tc Htc) as [_ Hunc]. rewrite for_tenant_snoc, decide_True, Hbf in Hunc by done.
          cbn. rewrite sub_ok by lia. done. }
      cbn [mbind result_bind]. f_equal. f_equal.
      * rewrite <-list_fmap_compose. apply list_fmap_ext. intros i tc _. cbn. unfold tenant_after, with_next.
        cbn. rewrite (for_tenant_snoc _ (bare_freed st rollback)), Hbf. fold t.
        destruct (decide (tc_tenant tc = t)) as [Ht|Ht].
        -- rewrite (decide_True (P := t = _)) by done. cbn. f_equal; lia.
        -- rewrite (decide_False (P := t = _)) by congruence. cbn. f_equal; lia.
      * rewrite sum_by_snoc. unfold bare_change. rewrite Hbf. lia.
      * rewrite sum_by_snoc, Hr1. lia.
Qed.

Lemma sums_none pre s :
  step_owner s = None →
  sums_after ts (pre ++ [s]) = {|
    su_tenants := su_tenants (sums_after ts pre); su_active := su_active (sums_after ts pre);
    su_durable := su_durable (sums_after ts pre) + durable_change rollback s;
    su_uncovered := su_uncovered (sums_after ts pre);
    su_release := su_release (sums_after ts pre); su_bytes := su_bytes (sums_after ts pre) |}.
Proof.
  intros Ho. assert (dropped_at st s = false) as Hd by (unfold dropped_at; by rewrite Ho).
  assert (slot_freed st s = 0 ∧ bare_change st rollback s = 0 ∧ released st rollback s = 0 ∧
    bytes_change rollback s = 0) as (H1 & H2 & H3 & H4).
  { unfold slot_freed, bare_change, bare_freed, cover_change, cover_delta, released, bytes_change, stored_bytes.
    rewrite Hd, Ho. by destruct rollback. }
  unfold sums_after. cbn. rewrite !sum_by_snoc, H1, H2, H3, H4. f_equal; try lia.
  apply list_fmap_ext. intros i tc _. by apply tenant_after_none.
Qed.
Lemma terminal_bytes_ok b n :
  0 ≤ b → 0 ≤ n → n + (if b =? 0 then 0 else b + ROW_OVERHEAD) ≤ u64_max →
  terminal_bytes n b = Some (n + (if b =? 0 then 0 else b + ROW_OVERHEAD)).
Proof.
  intros Hb Hn Hle. unfold terminal_bytes, ROW_OVERHEAD in *. rewrite add_ok by (destruct (b =? 0) eqn:?; arith).
  cbn [mbind option_bind]. destruct (b =? 0) eqn:H0; [f_equal; arith|]. rewrite add_ok by lia. f_equal. lia.
Qed.
Lemma sum_step_ok pre s l :
  step_owner s = Some (owner l) → executions st !! step_key s = Some l → covered l = step_before s →
  done (completion h (owner l)) = false → (dropped l = true → repair l = false) →
  key_tenant (step_key s) ∈ tc_tenant <$> ts →
  (∀ b, terminal s = Some b → 0 ≤ b) → 0 ≤ sum_by (bytes_change rollback) pre →
  sum_by (bytes_change rollback) (pre ++ [s]) ≤ u64_max →
  sum_by (slot_freed st) (pre ++ [s]) ≤ active st →
  sum_by (released st rollback) (pre ++ [s]) ≤ u64_max →
  (∀ tc, tc ∈ ts →
    sum_by (for_tenant (tc_tenant tc) (slot_freed st)) (pre ++ [s]) ≤ c_active (counts_of st (tc_tenant tc)) ∧
    sum_by (for_tenant (tc_tenant tc) (bare_freed st rollback)) (pre ++ [s]) ≤ base_uncovered tc) →
  sum_step st h rollback (sums_after ts pre) s = Ok (sums_after ts (pre ++ [s])).
Proof.
  intros Ho Hk Hcov Hd Hrep Hin Hb Hbn Hbytes Hact Hrel Hten. unfold sum_step.
  rewrite Ho, Hk. cbn [ok_or mbind result_bind]. rewrite Hcov, Hd, bool_decide_eq_true_2, eqb_reflx by done.
  cbn [andb negb ensure mbind result_bind su_release su_bytes su_active su_durable su_uncovered su_tenants sums_after].
  fold (is_terminal rollback s).
  assert (dropped_at st s = dropped l) as Hda by (unfold dropped_at; by rewrite Ho, Hk).
  assert (sum_by (released st rollback) pre + of_bool (is_terminal rollback s) ≤ u64_max) as Hrel'.
  { assert (released st rollback s = of_bool (is_terminal rollback s || dropped_at st s)) as Hrs
      by (unfold released; by rewrite Ho).
    rewrite sum_by_snoc, Hrs in Hrel. destruct (is_terminal rollback s), (dropped_at st s); cbn in *; lia. }
  assert ((if is_terminal rollback s then ok_or (sum_by (released st rollback) pre +? 1) AuthorityUnavailable
    else Ok (sum_by (released st rollback) pre)) =
    Ok (sum_by (released st rollback) pre + of_bool (is_terminal rollback s))) as ->.
  { destruct (is_terminal rollback s); cbn [of_bool] in *; [by rewrite add_ok|by rewrite Z.add_0_r]. }
  cbn [mbind result_bind].
  assert ((if is_terminal rollback s then
      added ← ok_or (terminal s) AuthorityUnavailable;
      ok_or (terminal_bytes (sum_by (bytes_change rollback) pre) added) AuthorityUnavailable
    else Ok (sum_by (bytes_change rollback) pre)) = Ok (sum_by (bytes_change rollback) (pre ++ [s]))) as Hby.
  { assert (bytes_change rollback s = if rollback then 0 else
      from_option (λ b, if b =? 0 then 0 else b + ROW_OVERHEAD) 0 (terminal s)) as Hbs
      by (unfold bytes_change, stored_bytes; by rewrite Ho).
    rewrite sum_by_snoc, Hbs in *. unfold is_terminal. destruct rollback; cbn [negb andb]; [by rewrite Z.add_0_r|].
    destruct (terminal s) as [b|] eqn:Htm; cbn [from_option] in *.
    - change (is_some (Some b)) with true. cbn [ok_or mbind result_bind]. rewrite terminal_bytes_ok; [done|by apply Hb|done|done].
    - change (is_some None) with false. by rewrite Z.add_0_r. }
  rewrite Hby. cbn [mbind result_bind]. clear Hby.
  assert (sum_by (durable_change rollback) pre + (if rollback then 0 else of_bool (step_after s) - of_bool (step_before s))
    = sum_by (durable_change rollback) (pre ++ [s])) as ->.
  { by rewrite sum_by_snoc. }
  assert ((if rollback then 0 else of_bool (negb (step_after s) && negb (is_terminal rollback s)) - of_bool (negb (step_before s)))
    = cover_change rollback s) as ->.
  { unfold cover_change, cover_delta, is_terminal. rewrite Ho. by destruct rollback. }
  destruct (dropped l) eqn:Hdl.
  - rewrite Hrep by done. cbn [negb ensure mbind result_bind]. by apply release_dropped_ok.
  - unfold sums_after. assert (slot_freed st s = 0) as Hsf by (unfold slot_freed; by rewrite Hda).
    assert (bare_freed st rollback s = 0) as Hbf by (unfold bare_freed; by rewrite Hda).
    assert (released st rollback s = of_bool (is_terminal rollback s)) as Hrl.
    { unfold released. rewrite Ho, Hda, orb_false_r. done. }
    do 2 f_equal.
    + apply list_fmap_ext. intros i tc _. by rewrite tenant_after_none.
    + rewrite sum_by_snoc, Hsf. lia.
    + rewrite sum_by_snoc. unfold bare_change. rewrite Hbf. lia.
    + rewrite sum_by_snoc, Hrl. lia.
Qed.
End steps.
End calculate.

Lemma try_fold_prefix {E A S} (f : S → A → result E S) (g : list A → S) (l : list A) :
  (∀ pre x, pre ++ [x] `prefix_of` l → f (g pre) x = Ok (g (pre ++ [x]))) →
  try_fold f (g []) l = Ok (g l).
Proof.
  induction l as [|x l IH] using rev_ind; intros Hf; [done|]. rewrite try_fold_snoc, IH.
  - cbn. by apply Hf.
  - intros pre y Hp. apply Hf. etrans; [done|]. by exists [x].
Qed.
Lemma map_loop {E A B} (f : A → result E B) (g : A → B) (l : list A) :
  (∀ x, x ∈ l → f x = Ok (g x)) →
  try_fold (λ acc x, y ← f x; Ok (acc ++ [y])) [] l = Ok (g <$> l).
Proof.
  intros Hf. change [] with (g <$> []). apply (try_fold_prefix _ (λ pre, g <$> pre)).
  intros pre x [k ->]. rewrite Hf by set_solver. cbn. by rewrite fmap_app.
Qed.
Lemma prefix_elem {A} (pre l : list A) x : pre ++ [x] `prefix_of` l → x ∈ l.
Proof. intros [k ->]. set_solver. Qed.
Lemma for_tenant_nonneg t f s : 0 ≤ f s → 0 ≤ for_tenant t f s.
Proof. unfold for_tenant. by case_bool_decide. Qed.
Lemma adjust_ok a b : in_u64 (a + b) → adjust a b = Ok (a + b).
Proof. intros. unfold adjust. by rewrite bool_decide_eq_true_2. Qed.

Section finish.
Context (adm : Admission) (Hb : Budgets adm).
Context (st : State) (h : Arcs) (fr : Z) (o : Owners) (p : Publication) (rollback : bool).
Context (Hi : Inv adm st h fr o) (Hpub : publication o = Some p).
Local Notation v := (resolve h (executions st)).
Local Notation v' := (view_after st h p rollback).
Let Hl := inv_ledger _ _ _ _ _ Hi.
Let Hk := inv_links _ _ _ _ _ Hi.
Let Hp : Prepared st h p := pe_prepared _ _ _ (inv_pending _ _ _ _ _ Hi) p Hpub.
Let Hr := inv_ranges _ _ _ _ _ Hi.

Lemma dropped_ordinary k l : executions st !! k = Some l → dropped l = true → repair l = false.
Proof. intros Hkl Hd. by apply (lk_flags _ _ _ _ Hk k l Hkl). Qed.
Lemma unowned_zero s : is_some (step_owner s) = false →
  - slot_freed st s = 0 ∧ - released st rollback s = 0 ∧ bare_change st rollback s = 0.
Proof.
  intros Ho. unfold slot_freed, released, bare_change, bare_freed, cover_change, cover_delta, dropped_at.
  rewrite Ho. by destruct rollback.
Qed.
(** What each kind of count becomes. *)
Lemma after_ordinary :
  mcount (any_key is_ordinary) v' = mcount (any_key is_ordinary) v - sum_by (slot_freed st) (steps p) ∧
  ∀ t, mcount (of_tenant t is_ordinary) v' =
    mcount (of_tenant t is_ordinary) v - sum_by (for_tenant t (slot_freed st)) (steps p).
Proof.
  destruct (count_after st h p rollback Hp is_ordinary (λ s, - slot_freed st s)) as [H1 H2].
  - apply changes_ordinary, dropped_ordinary.
  - intros s Ho. by apply unowned_zero.
  - split; [|intros t].
    + rewrite H1. rewrite (sum_by_ext _ (λ s, -1 * slot_freed st s)) by (intros; lia).
      rewrite sum_by_scale. lia.
    + rewrite H2. rewrite (sum_by_ext _ (λ s, -1 * for_tenant t (slot_freed st) s)).
      * rewrite sum_by_scale. lia.
      * intros s _. unfold for_tenant. by case_bool_decide; [lia|].
Qed.
Lemma after_open :
  mcount (any_key is_open) v' = mcount (any_key is_open) v - sum_by (released st rollback) (steps p) ∧
  ∀ t, mcount (of_tenant t is_open) v' =
    mcount (of_tenant t is_open) v - sum_by (for_tenant t (released st rollback)) (steps p).
Proof.
  destruct (count_after st h p rollback Hp is_open (λ s, - released st rollback s)) as [H1 H2].
  - apply changes_open.
  - intros s Ho. by apply unowned_zero.
  - split; [|intros t].
    + rewrite H1. rewrite (sum_by_ext _ (λ s, -1 * released st rollback s)) by (intros; lia).
      rewrite sum_by_scale. lia.
    + rewrite H2. rewrite (sum_by_ext _ (λ s, -1 * for_tenant t (released st rollback) s)).
      * rewrite sum_by_scale. lia.
      * intros s _. unfold for_tenant. by case_bool_decide; [lia|].
Qed.
Lemma after_running :
  mcount (any_key is_running) v' = mcount (any_key is_running) v - sum_by (released st rollback) (steps p).
Proof.
  destruct (count_after st h p rollback Hp is_running (λ s, - released st rollback s)) as [H1 _].
  - apply changes_running, dropped_ordinary.
  - intros s Ho. by apply unowned_zero.
  - rewrite H1. rewrite (sum_by_ext _ (λ s, -1 * released st rollback s)) by (intros; lia).
    rewrite sum_by_scale. lia.
Qed.
Lemma after_repair :
  mcount (any_key is_repair) v' = mcount (any_key is_repair) v ∧
  ∀ t, mcount (of_tenant t is_repair) v' = mcount (of_tenant t is_repair) v.
Proof.
  destruct (count_after st h p rollback Hp is_repair (λ _, 0)) as [H1 H2].
  - apply changes_repair, dropped_ordinary.
  - done.
  - split; [|intros t].
    + rewrite H1, sum_by_const. lia.
    + rewrite H2. rewrite (sum_by_ext _ (λ _, 0)), sum_by_const; [lia|].
      intros s _. unfold for_tenant. by case_bool_decide.
Qed.
Lemma after_bare :
  mcount (any_key is_bare) v' = mcount (any_key is_bare) v + sum_by (bare_change st rollback) (steps p) ∧
  ∀ t, mcount (of_tenant t is_bare) v' =
    mcount (of_tenant t is_bare) v + sum_by (for_tenant t (bare_change st rollback)) (steps p).
Proof.
  apply (count_after st h p rollback Hp is_bare); [apply changes_bare|].
  intros s Ho. by apply unowned_zero.
Qed.

Lemma freed_bounds s :
  0 ≤ slot_freed st s ∧ 0 ≤ released st rollback s ∧ 0 ≤ bare_freed st rollback s ≤ released st rollback s.
Proof.
  unfold slot_freed, released, bare_freed. destruct (dropped_at st s) eqn:Hd; cbn.
  - assert (is_some (step_owner s) = true) as ->
      by (unfold dropped_at in Hd; by apply andb_true_iff in Hd as [? _]).
    rewrite orb_true_r. destruct (is_terminal rollback s), (covered_after rollback s); cbn; lia.
  - destruct (is_some (step_owner s)), (is_terminal rollback s); cbn; lia.
Qed.
Lemma base_after tc : tc ∈ pub_tenants p →
  let t := tc_tenant tc in
  base_uncovered st rollback tc - sum_by (for_tenant t (bare_freed st rollback)) (steps p) =
    unbound_of h o t + mcount (of_tenant t is_bare) v'.
Proof.
  intros Htc t. unfold base_uncovered. fold t. destruct (pr_tenant _ _ _ Hp tc Htc) as (_ & _ & Hu & _).
  rewrite (led_c_uncovered _ _ _ Hl), (proj2 after_bare). fold t in Hu.
  assert (sum_by (for_tenant t (bare_change st rollback)) (steps p) =
    (if rollback then 0 else tc_uncovered tc) - sum_by (for_tenant t (bare_freed st rollback)) (steps p)) as ->; [|lia].
  rewrite (sum_by_ext _ (λ s, for_tenant t (cover_change rollback) s + -1 * for_tenant t (bare_freed st rollback) s)).
  - rewrite sum_by_add, sum_by_scale. unfold cover_change. destruct rollback.
    + rewrite (sum_by_ext _ (λ _, 0)), sum_by_const; [lia|]. intros s _. unfold for_tenant. by case_bool_decide.
    + rewrite Hu. change (λ s, cover_delta s) with cover_delta. lia.
  - intros s _. unfold for_tenant, bare_change. case_bool_decide; lia.
Qed.
Lemma base_range tc : tc ∈ pub_tenants p → in_u64 (base_uncovered st rollback tc).
Proof.
  intros Htc. pose proof (base_after tc Htc) as Hba. cbn in Hba. set (t := tc_tenant tc) in *.
  pose proof (unbound_of_nonneg h o t). pose proof (mcount_nonneg (of_tenant t is_bare) v').
  assert (0 ≤ sum_by (for_tenant t (bare_freed st rollback)) (steps p) ≤
    sum_by (for_tenant t (released st rollback)) (steps p)).
  { split; [apply sum_by_nonneg|apply sum_by_le]; intros s _; destruct (freed_bounds s) as (? & ? & ? & ?).
    - by apply for_tenant_nonneg.
    - unfold for_tenant. by case_bool_decide. }
  assert (mcount (of_tenant t is_bare) v' ≤ mcount (of_tenant t is_open) v').
  { apply mcount_le. unfold of_tenant, is_bare, is_open. intros k x _ Hx.
    apply andb_true_iff in Hx as [-> Hx]. by apply andb_true_iff in Hx as [_ ->]. }
  rewrite (proj2 after_open t) in *.
  assert (unbound_of h o t + mcount (of_tenant t is_open) v ≤ live (totals (receipts st))).
  { rewrite (led_live _ _ _ Hl). pose proof (unbound_of_le h o t). pose proof (of_tenant_le t is_open v). lia. }
  pose proof (wf_live _ (wf_totals _ (ra_accounting _ _ Hr))). unfold in_u64 in *. lia.
Qed.

(** The next totals of the accounting. *)
Definition totals_after : Totals := {|
  reserved := reserved (totals (receipts st)) - RESERVATION * sum_by (released st rollback) (steps p);
  t_bytes := t_bytes (totals (receipts st)) + sum_by (bytes_change rollback) (steps p);
  history_bytes := history_bytes (totals (receipts st)); history_rows := history_rows (totals (receipts st));
  oauth_bytes := oauth_bytes (totals (receipts st));
  unknown := unknown (totals (receipts st)) + sum_by (durable_change rollback) (steps p);
  uncovered := uncovered (totals (receipts st)) + sum_by (bare_change st rollback) (steps p);
  live := live (totals (receipts st)) - sum_by (released st rollback) (steps p);
  repair_reserved := repair_reserved (totals (receipts st));
  repair_live := repair_live (totals (receipts st)) |}.

Lemma released_bounds : 0 ≤ sum_by (released st rollback) (steps p) ≤ live (totals (receipts st)) ∧
  RESERVATION * sum_by (released st rollback) (steps p) ≤ reserved (totals (receipts st)).
Proof.
  pose proof (mcount_nonneg (any_key is_open) v') as H1. rewrite (proj1 after_open) in H1.
  pose proof (mcount_nonneg (any_key is_running) v') as H2. rewrite after_running in H2.
  pose proof (unbound_nonneg h o). rewrite (led_live _ _ _ Hl), (led_reserved _ _ _ Hl).
  pose proof (led_repair_reserved _ _ _ Hl) as Hrr.
  pose proof (wf_repair_reserved _ (wf_totals _ (ra_accounting _ _ Hr))) as [Hrr0 _].
  assert (0 ≤ sum_by (released st rollback) (steps p)).
  { apply sum_by_nonneg. intros s _. apply (freed_bounds s). }
  unfold RESERVATION. lia.
Qed.
Lemma uncovered_bounds :
  0 ≤ uncovered totals_after ≤ live totals_after.
Proof.
  cbn. rewrite (led_live _ _ _ Hl), (led_uncovered _ _ _ Hl).
  pose proof (proj1 after_open) as Ho. pose proof (proj1 after_bare) as Hba.
  pose proof (mcount_nonneg (any_key is_bare) v'). pose proof (unbound_nonneg h o).
  assert (mcount (any_key is_bare) v' ≤ mcount (any_key is_open) v').
  { apply mcount_le. unfold any_key, is_bare, is_open. intros k x _ Hx. by apply andb_true_iff in Hx as [_ ->]. }
  lia.
Qed.
Lemma bytes_bounds s : s ∈ steps p → 0 ≤ bytes_change rollback s.
Proof.
  intros Hs. unfold bytes_change, stored_bytes. destruct rollback; [done|].
  destruct (is_some (step_owner s)); [|done]. destruct (terminal s) as [b|] eqn:Hb'; cbn; [|done].
  pose proof (pr_terminal _ _ _ Hp s b Hs Hb'). unfold ROW_OVERHEAD. destruct (b =? 0); lia.
Qed.
Lemma totals_after_wf : Totals_wf totals_after.
Proof.
  destruct released_bounds as [[Hr0 Hrl] Hrr]. pose proof uncovered_bounds as [Hu0 Hul]. cbn in Hu0, Hul.
  pose proof (pr_unknown _ _ _ Hp) as Hu. pose proof (pr_bytes _ _ _ Hp) as Hby.
  assert (0 ≤ sum_by (bytes_change rollback) (steps p)) by (apply sum_by_nonneg, bytes_bounds).
  destruct (wf_totals _ (ra_accounting _ _ Hr)). assert (0 < RESERVATION) by done.
  constructor; unfold totals_after; cbn; try done; unfold in_u64 in *; try lia; try nia.
  - rewrite bytes_sum in *. destruct rollback; lia.
  - rewrite durable_sum. destruct rollback; lia.
Qed.

(** A prepared publication can always be calculated. *)
Lemma calculate_ok :
  calculate p st h rollback = Ok (tenant_after st rollback (steps p) <$> pub_tenants p, totals_after,
    active st - sum_by (slot_freed st) (steps p)).
Proof.
  unfold calculate. destruct (pr_generation _ _ _ Hp) as [_ Hgen]. rewrite add_ok by done.
  cbn [ok_or mbind result_bind].
  pose proof (unbound_nonneg h o) as Hun.
  rewrite (map_loop _ (tenant_after st rollback [])).
  2:{ intros tc Htc. destruct (pr_tenant _ _ _ Hp tc Htc) as ([c Hc] & _ & _ & Hn).
      pose proof (pinned_pos st h o p tc Hl Hpub Htc) as Hpins. pose proof (base_range tc Htc) as Hbr.
      unfold base_uncovered, counts_of in *. unfold next_tenant. rewrite Hc in *. cbn in *.
      rewrite (pr_unfinished _ _ _ Hp). cbn [orb]. rewrite (proj2 (Z.eqb_neq _ _)) by lia.
      cbn [negb ensure mbind result_bind].
      assert (match c_unknown c with
        | Some n => m ← adjust n (if rollback then 0 else durable tc); Ok (Some m)
        | None => Ok None end = Ok ((λ n, n + (if rollback then 0 else durable tc)) <$> c_unknown c)) as ->.
      { destruct (c_unknown c) as [n|] eqn:Hcu; [|done]. cbn. rewrite adjust_ok; [done|].
        pose proof (ra_fence _ _ Hr (tc_tenant tc) n) as Hf. unfold counts_of in Hf. rewrite Hc in Hf. cbn in Hf.
        destruct rollback; [rewrite Z.add_0_r; by apply Hf|by apply Hn]. }
      cbn [mbind result_bind]. rewrite adjust_ok by done. cbn [mbind result_bind].
      unfold tenant_after, base_unknown, base_uncovered, counts_of. rewrite Hc. cbn.
      unfold sum_by. cbn. by rewrite !Z.sub_0_r. }
  cbn [mbind result_bind].
  replace ({| su_tenants := tenant_after st rollback [] <$> pub_tenants p; su_active := active st;
    su_durable := 0; su_uncovered := 0; su_release := 0; su_bytes := 0 |})
    with (sums_after st rollback (pub_tenants p) []) by (unfold sums_after; f_equal; apply Z.sub_0_r).
  destruct released_bounds as [[Hr0 Hrl] Hrr].
  rewrite (try_fold_prefix (sum_step st h rollback) (sums_after st rollback (pub_tenants p))).
  2:{ intros pre s Hpre. pose proof (prefix_elem _ _ _ Hpre) as Hs.
      destruct (is_some (step_owner s)) eqn:Ho.
      - destruct (owned_entry st h p Hp s Hs Ho) as (l & Hkl & _ & Hso & _ & Hcov & Hd & Hrep & Hin).
        assert (∀ f, (∀ x, x ∈ steps p → 0 ≤ f x) → sum_by f (pre ++ [s]) ≤ sum_by f (steps p)) as Hle
          by (intros f Hf; by apply sum_by_prefix).
        apply (sum_step_ok st h rollback (pub_tenants p) (pr_tenants _ _ _ Hp) pre s l); try done.
        + apply (dropped_ordinary _ _ Hkl).
        + intros b. by apply (pr_terminal _ _ _ Hp).
        + apply sum_by_nonneg. intros x Hx. apply bytes_bounds. destruct Hpre as [k ->]. set_solver.
        + etrans; [apply Hle, bytes_bounds|]. rewrite bytes_sum. destruct rollback.
          * unfold u64_max. lia.
          * pose proof (pr_bytes _ _ _ Hp). pose proof (wf_bytes _ (wf_totals _ (ra_accounting _ _ Hr))).
            unfold in_u64 in *. lia.
        + etrans; [apply Hle; intros; apply freed_bounds|]. rewrite (led_active _ _ _ Hl).
          pose proof (mcount_nonneg (any_key is_ordinary) v') as Hn. rewrite (proj1 after_ordinary) in Hn. lia.
        + etrans; [apply Hle; intros; apply freed_bounds|].
          pose proof (wf_live _ (wf_totals _ (ra_accounting _ _ Hr))). unfold in_u64 in *. lia.
        + intros tc Htc. split; (etrans; [apply Hle; intros; apply for_tenant_nonneg, freed_bounds|]).
          * rewrite (led_c_active _ _ _ Hl). pose proof (unbound_of_nonneg h o (tc_tenant tc)).
            pose proof (mcount_nonneg (of_tenant (tc_tenant tc) is_ordinary) v') as Hn.
            rewrite (proj2 after_ordinary) in Hn. lia.
          * pose proof (base_after tc Htc) as Hba. cbn in Hba. pose proof (unbound_of_nonneg h o (tc_tenant tc)).
            pose proof (mcount_nonneg (of_tenant (tc_tenant tc) is_bare) v'). lia.
      - apply bool_decide_eq_false in Ho. apply eq_None_not_Some in Ho.
        unfold sum_step. rewrite Ho. by rewrite sums_none. }
  cbn [mbind result_bind]. unfold next_totals, sums_after.
  cbn [su_durable su_uncovered su_release su_bytes su_tenants su_active].
  pose proof totals_after_wf as []. unfold totals_after in *. cbn in *.
  rewrite (adjust_ok (unknown _)) by done. cbn [mbind result_bind].
  rewrite (adjust_ok (uncovered _)) by done. cbn [mbind result_bind].
  rewrite sub_ok by done. cbn [ok_or mbind result_bind].
  assert (in_u64 (reserved (totals (receipts st)))) as Hres by apply (wf_totals _ (ra_accounting _ _ Hr)).
  unfold in_u64 in Hres.
  assert (sum_by (released st rollback) (steps p) *? RESERVATION =
    Some (RESERVATION * sum_by (released st rollback) (steps p))) as ->.
  { apply checked_mul_Some. split; lia. }
  cbn [ok_or mbind result_bind]. rewrite sub_ok by done. cbn [ok_or mbind result_bind].
  rewrite add_ok by (unfold in_u64 in *; lia). cbn [ok_or mbind result_bind].
  pose proof uncovered_bounds as [_ Hul]. cbn in Hul. by rewrite (proj2 (Z.leb_le _ _)) by done.
Qed.
End finish.
