(* ===== verification/TenancySettle.v ===== *)
(** What a settled publication leaves behind: executions, completions, counts and obligations after
    the assignments of [Publication::finish] ([apps/tenancy/admission/unknown.rs]). *)
From stdpp Require Import base list strings gmap sorting.
From Stdlib Require Import ZArith Lia.
From S2P Require Import Prelude MapSum TenancyCapacity TenancyState TenancyAdmission TenancyUnknown TenancySystem TenancyLedger TenancyLease TenancyRepair TenancyPublish.
Open Scope Z_scope.
#[local] Arguments countb : simpl never.
#[local] Arguments sum_by : simpl never.
#[local] Arguments msum : simpl never.
#[local] Arguments mcount : simpl never.
#[local] Arguments resolve : simpl never.
#[local] Arguments pinned : simpl never.

(** ** Executions and completions *)

Section settle.
Context (rollback : bool).
Implicit Types (m : gmap Key Live) (h : Arcs) (l : list Step).

Definition settle_live (s : Step) (v : option Live) : option Live :=
  if is_some (step_owner s) then
    x ← v; if dropped x then None else Some (settled rollback s x)
  else v.
Definition settle_all m l : gmap Key Live := alter_each step_key settle_live m l.
(** Does settling [s] end the execution owned by [i]? *)
Definition ends m (i : Z) (s : Step) : bool :=
  is_some (step_owner s) &&
  is_some_and (λ x, (owner x =? i) && (is_terminal rollback s || dropped x)) (m !! step_key s).

Lemma partial_alter_same {V} (f : option V → option V) (m : gmap Key V) k :
  f (m !! k) = m !! k → partial_alter f k m = m.
Proof.
  intros Hf. apply map_eq. intros k'. destruct (decide (k' = k)) as [->|].
  - by rewrite lookup_partial_alter_eq.
  - by rewrite lookup_partial_alter_ne.
Qed.
(** Settling one step does not change what the others find. *)
Lemma ends_other m i s s' f : step_key s' ≠ step_key s → ends (partial_alter f (step_key s) m) i s' = ends m i s'.
Proof. intros Hne. unfold ends. by rewrite lookup_partial_alter_ne. Qed.
Lemma existsb_ends_other m i s f l :
  step_key s ∉ step_key <$> l →
  existsb (ends (partial_alter f (step_key s) m) i) l = existsb (ends m i) l.
Proof.
  intros Hn. induction l as [|s' l IH]; cbn; [done|]. rewrite ends_other, IH; [done| |].
  - set_solver.
  - intros Heq. apply Hn. rewrite <-Heq. by left.
Qed.
Lemma set_done_is_Some h i j : is_Some (set_done h i !! j) → i = j ∨ is_Some (h !! j).
Proof. unfold set_done. intros [?|[_ ?]]%lookup_insert_is_Some; [by left|by right]. Qed.
Lemma settle_fold st h l :
  NoDup (step_key <$> l) →
  ∃ h', foldl (settle_step rollback) (st, h) l =
      (set_executions st (settle_all (executions st) l), h') ∧
    (∀ i, c_execution (completion h' i) = c_execution (completion h i)) ∧
    (∀ i, done (completion h' i) = existsb (ends (executions st) i) l || done (completion h i)) ∧
    ∀ i, is_Some (h' !! i) → is_Some (h !! i) ∨ ∃ k x, executions st !! k = Some x ∧ owner x = i.
Proof.
  revert st h. induction l as [|s l IH]; intros st h Hnd.
  { exists h. split_and!; try done; [|by left]. by rewrite set_executions_id. }
  cbn [fmap list_fmap] in Hnd. apply NoDup_cons in Hnd as [Hn Hnd].
  assert (∃ h1, settle_step rollback (st, h) s =
      (set_executions st (partial_alter (settle_live s) (step_key s) (executions st)), h1) ∧
    (∀ i, c_execution (completion h1 i) = c_execution (completion h i)) ∧
    (∀ i, done (completion h1 i) = ends (executions st) i s || done (completion h i)) ∧
    ∀ i, is_Some (h1 !! i) → is_Some (h !! i) ∨ ∃ k x, executions st !! k = Some x ∧ owner x = i)
    as (h1 & Hs & Hc1 & Hd1 & Hf1).
  { unfold settle_step, ends, settle_live.
    destruct (step_owner s) as [i|]; cbn.
    2:{ exists h. rewrite partial_alter_same, set_executions_id by done. split_and!; try done. by left. }
    destruct (executions st !! step_key s) as [x|] eqn:Hx; cbn.
    2:{ exists h. rewrite partial_alter_same, set_executions_id by (rewrite Hx; done).
        split_and!; try done. by left. }
    fold (is_terminal rollback s).
    set (h0 := if is_terminal rollback s then set_done h (owner x) else h).
    assert (∀ j, c_execution (completion h0 j) = c_execution (completion h j)) as Hc0.
    { intros j. unfold h0. destruct (is_terminal rollback s); [|done]. by rewrite completion_set_done. }
    assert (∀ j, done (completion h0 j) = ((owner x =? j) && is_terminal rollback s) || done (completion h j)) as Hd0.
    { intros j. unfold h0. destruct (is_terminal rollback s); [|by rewrite andb_false_r].
      rewrite completion_set_done. cbn. rewrite andb_true_r.
      destruct (Z.eqb_spec (owner x) j); case_bool_decide; congruence. }
    assert (∀ j, is_Some (h0 !! j) → is_Some (h !! j) ∨ ∃ k y, executions st !! k = Some y ∧ owner y = j) as Hf0.
    { intros j. unfold h0. destruct (is_terminal rollback s); [|by left].
      intros [<-|?]%set_done_is_Some; [right; by exists (step_key s), x|by left]. }
    destruct (dropped x) eqn:Hdx.
    - exists (set_done h0 (owner x)). split_and!.
      + f_equal. unfold set_executions. cbn. f_equal. apply map_eq. intros k.
        destruct (decide (k = step_key s)) as [->|Hne].
        * by rewrite lookup_delete_eq, lookup_partial_alter_eq, Hx; cbn; rewrite Hdx.
        * by rewrite lookup_delete_ne, lookup_insert_ne, lookup_partial_alter_ne.
      + intros j. rewrite completion_set_done. apply Hc0.
      + intros j. rewrite completion_set_done, Hd0. cbn. rewrite orb_true_r, andb_true_r.
        destruct (Z.eqb_spec (owner x) j); case_bool_decide; cbn; try congruence; done.
      + intros j [<-|?]%set_done_is_Some; [right; by exists (step_key s), x|by apply Hf0].
    - exists h0. split_and!; try done.
      + f_equal. f_equal. apply map_eq. intros k.
        destruct (decide (k = step_key s)) as [->|Hne].
        * by rewrite lookup_insert_eq, lookup_partial_alter_eq, Hx; cbn; rewrite Hdx.
        * by rewrite lookup_insert_ne, lookup_partial_alter_ne.
      + intros j. rewrite Hd0. by rewrite orb_false_r. }
  cbn [foldl]. rewrite Hs.
  set (st1 := set_executions st (partial_alter (settle_live s) (step_key s) (executions st))).
  destruct (IH st1 h1 Hnd) as (h' & Hh & Hc & Hd & Hf). exists h'. split_and!.
  - rewrite Hh. unfold st1, settle_all, alter_each. done.
  - intros i. by rewrite Hc.
  - intros i. rewrite Hd, Hd1. cbn [existsb executions set_executions st1].
    rewrite existsb_ends_other by done.
    by destruct (ends (executions st) i s), (existsb _ l), (done _).
  - intros i Hi. destruct (Hf i Hi) as [Hi1|(k & x & Hx & Hox)]; [by apply Hf1|].
    right. cbn in Hx. destruct (decide (k = step_key s)) as [->|Hne].
    + rewrite lookup_partial_alter_eq in Hx. unfold settle_live in Hx.
      destruct (executions st !! step_key s) as [y|] eqn:Hy; [|by destruct (is_some _)].
      exists (step_key s), y. split; [done|]. destruct (is_some (step_owner s)); [|by injection Hx as <-].
      cbn in Hx. destruct (dropped y); [done|]. by injection Hx as <-.
    + rewrite lookup_partial_alter_ne in Hx by done. by exists k, x.
Qed.
End settle.

(** ** The tenants *)

Section settle_tenants.
Implicit Types (st : State) (l : list TenantChange).

Definition settle_counts (tc : TenantChange) (c : Counts) : Counts :=
  with_pins (pins c -% 1) (with_active (next_active tc)
    (with_uncovered (next_uncovered tc) (with_unknown (next_unknown tc) c))).
Definition settled_tenants (m : gmap TenantId Counts) l : gmap TenantId Counts :=
  alter_each tc_tenant (λ tc v, settle_counts tc <$> v) m l.
Lemma settle_tenants_eq st l : settle_tenants st l = set_tenants st (settled_tenants (tenants st) l).
Proof.
  unfold settle_tenants, settled_tenants, alter_each. revert st.
  induction l as [|tc l IH]; intros st; cbn; [by destruct st|]. by rewrite IH.
Qed.
Lemma settled_counts st st' l :
  tenants st' = settled_tenants (tenants st) l → NoDup (tc_tenant <$> l) →
  (∀ tc, tc ∈ l → is_Some (tenants st !! tc_tenant tc)) →
  (∀ tc, tc ∈ l → counts_of st' (tc_tenant tc) = settle_counts tc (counts_of st (tc_tenant tc))) ∧
  ∀ t, t ∉ tc_tenant <$> l → counts_of st' t = counts_of st t.
Proof.
  intros Ht Hnd Hres. split.
  - intros tc Htc. unfold counts_of. rewrite Ht.
    pose proof (alter_each_eq tc_tenant (λ tc v, settle_counts tc <$> v) (tenants st) l tc Hnd Htc) as Hal.
    unfold settled_tenants. rewrite Hal. by destruct (Hres tc Htc) as [c ->].
  - intros t Hn. unfold counts_of. rewrite Ht. unfold settled_tenants. by rewrite alter_each_ne.
Qed.
Lemma settled_present m l t : is_Some (settled_tenants m l !! t) ↔ is_Some (m !! t).
Proof.
  unfold settled_tenants, alter_each. revert m. induction l as [|tc l IH]; intros m; cbn; [done|].
  rewrite IH. destruct (decide (t = tc_tenant tc)) as [->|Hne].
  - rewrite lookup_partial_alter_eq. by rewrite fmap_is_Some.
  - by rewrite lookup_partial_alter_ne.
Qed.
End settle_tenants.

(** ** The obligations *)

Section owed.
Implicit Types (d : gset Key).

Lemma owe_ne d s k : k ≠ step_key s → k ∈ owe d s ↔ k ∈ d.
Proof. unfold owe. destruct (step_after s); set_solver. Qed.
Lemma owe_weight (f : Key → Prop) `{∀ k, Decision (f k)} d s :
  step_before s = bool_decide (step_key s ∈ d) →
  Z.of_nat (size (filter f (owe d s))) =
    Z.of_nat (size (filter f d)) + (if decide (f (step_key s)) then durable_delta s else 0).
Proof.
  intros Hb. unfold owe, durable_delta. rewrite Hb. set (k := step_key s).
  destruct (decide (k ∈ d)) as [Hk|Hk].
  - rewrite bool_decide_eq_true_2 by done. destruct (step_after s); cbn.
    + assert ({[k]} ∪ d = d) as -> by set_solver. destruct (decide _); lia.
    + destruct (decide (f k)) as [Hf|Hf].
      * assert (filter f d = {[k]} ∪ filter f (d ∖ {[k]})) as ->.
        { apply set_eq. intros x. destruct (decide (x = k)) as [->|]; set_solver. }
        rewrite size_union by set_solver. rewrite size_singleton. lia.
      * assert (filter f (d ∖ {[k]}) = filter f d) as ->; [|lia].
        apply set_eq. intros x. destruct (decide (x = k)) as [->|]; set_solver.
  - rewrite bool_decide_eq_false_2 by done. destruct (step_after s); cbn.
    + destruct (decide (f k)) as [Hf|Hf].
      * assert (filter f ({[k]} ∪ d) = {[k]} ∪ filter f d) as -> by set_solver.
        rewrite size_union by set_solver. rewrite size_singleton. lia.
      * assert (filter f ({[k]} ∪ d) = filter f d) as ->; [|lia].
        apply set_eq. intros x. destruct (decide (x = k)) as [->|]; set_solver.
    + assert (d ∖ {[k]} = d) as -> by set_solver. destruct (decide _); lia.
Qed.
Lemma owed_weight (f : Key → Prop) `{∀ k, Decision (f k)} l d :
  NoDup (step_key <$> l) → (∀ s, s ∈ l → step_before s = bool_decide (step_key s ∈ d)) →
  Z.of_nat (size (filter f (foldl owe d l))) =
    Z.of_nat (size (filter f d)) + sum_by (λ s, if decide (f (step_key s)) then durable_delta s else 0) l.
Proof.
  revert d. induction l as [|s l IH]; intros d Hnd Hb; cbn [foldl]; [unfold sum_by; cbn; lia|].
  cbn [fmap list_fmap] in Hnd. apply NoDup_cons in Hnd as [Hn Hnd]. rewrite IH; [|done|].
  - rewrite owe_weight by (apply Hb; left). rewrite sum_by_cons. lia.
  - intros s' Hs'. rewrite Hb by by right. apply bool_decide_ext. symmetry. apply owe_ne.
    intros Heq. apply Hn. rewrite <-Heq. by apply list_elem_of_fmap_2.
Qed.
Lemma owed_size p d :
  NoDup (step_key <$> steps p) → (∀ s, s ∈ steps p → step_before s = bool_decide (step_key s ∈ d)) →
  Z.of_nat (size (owed_after p d)) = Z.of_nat (size d) + sum_by durable_delta (steps p) ∧
  ∀ t, owed_by t (owed_after p d) = owed_by t d + sum_by (for_tenant t durable_delta) (steps p).
Proof.
  intros Hnd Hb. split.
  - pose proof (owed_weight (λ _, True) (steps p) d Hnd Hb) as Hw.
    assert (∀ e : gset Key, filter (λ _, True) e = e) as Hf by (intros e; set_solver).
    rewrite !Hf in Hw. unfold owed_after. by rewrite Hw.
  - intros t. unfold owed_by, owed_after. rewrite owed_weight by done. f_equal. apply sum_by_ext.
    intros s _. unfold for_tenant. destruct (decide _); [by rewrite bool_decide_eq_true_2|by rewrite bool_decide_eq_false_2].
Qed.
End owed.

(** ** The state after [finish_change] *)

Section finish_change.
Context (adm : Admission) (Hb : Budgets adm).
Context (st : State) (h : Arcs) (fr : Z) (o : Owners) (p : Publication) (rollback : bool).
Context (Hi : Inv adm st h fr o) (Hpub : publication o = Some p).
Let Hl := inv_ledger _ _ _ _ _ Hi.
Let Hk := inv_links _ _ _ _ _ Hi.
Let Hp : Prepared st h p := pe_prepared _ _ _ (inv_pending _ _ _ _ _ Hi) p Hpub.
Let Hr := inv_ranges _ _ _ _ _ Hi.
Local Notation m := (executions st).
Local Notation m' := (settle_all rollback (executions st) (steps p)).
Local Notation v' := (view_after st h p rollback).
Local Notation ts := (tenant_after st rollback (steps p) <$> pub_tenants p).
Context (h' : Arcs) (Hc : ∀ i, c_execution (completion h' i) = c_execution (completion h i))
  (Hd : ∀ i, done (completion h' i) = existsb (ends rollback m i) (steps p) || done (completion h i))
  (Hf : ∀ i, is_Some (h' !! i) → is_Some (h !! i) ∨ ∃ k x, m !! k = Some x ∧ owner x = i).

Lemma step_unique s1 s2 : s1 ∈ steps p → s2 ∈ steps p → step_key s1 = step_key s2 → s1 = s2.
Proof.
  intros [i1 H1]%list_elem_of_lookup [i2 H2]%list_elem_of_lookup Heq.
  assert (i1 = i2) as ->; [|congruence].
  eapply NoDup_lookup; [exact (pr_keys _ _ _ Hp)| |]; rewrite list_lookup_fmap.
  - by rewrite H1.
  - rewrite H2. cbn. by rewrite Heq.
Qed.
(** Which executions end. *)
Lemma ended k x : m !! k = Some x →
  existsb (ends rollback m (owner x)) (steps p) =
    existsb (λ s, bool_decide (step_key s = k) && is_some (step_owner s) &&
                  (is_terminal rollback s || dropped x)) (steps p).
Proof.
  intros Hx. apply eq_true_iff_eq. rewrite !existsb_exists. split; intros (s & Hs & He); exists s; split; try done.
  - unfold ends in He. destruct (m !! step_key s) as [y|] eqn:Hy; [|by rewrite andb_false_r in He].
    cbn in He. arith. assert (step_key s = k) as Hsk by (by eapply (lk_inj _ _ _ _ Hk)).
    rewrite bool_decide_eq_true_2 by done. rewrite Hsk, Hx in Hy. injection Hy as <-. cbn.
    apply andb_true_iff. by split.
  - unfold ends. apply andb_true_iff in He as [[Hsk Ho]%andb_true_iff He].
    apply bool_decide_eq_true in Hsk. rewrite Hsk, Hx, Ho. cbn. by rewrite Z.eqb_refl, He.
Qed.
(** The entry of a step, and the entries without a step. *)
Lemma settled_at s : s ∈ steps p → m' !! step_key s = settle_live rollback s (m !! step_key s).
Proof. intros Hs. exact (alter_each_eq step_key (settle_live rollback) m (steps p) s (pr_keys _ _ _ Hp) Hs). Qed.
Lemma settled_off k : k ∉ step_key <$> steps p → m' !! k = m !! k.
Proof. apply (alter_each_ne step_key (settle_live rollback)). Qed.
Lemma ended_at s x : s ∈ steps p → m !! step_key s = Some x →
  existsb (ends rollback m (owner x)) (steps p) =
    is_some (step_owner s) && (is_terminal rollback s || dropped x).
Proof.
  intros Hs Hx. rewrite (ended _ _ Hx). apply eq_true_iff_eq. rewrite existsb_exists. split.
  - intros (s' & Hs' & He). apply andb_true_iff in He as [[Hsk Ho]%andb_true_iff He].
    apply bool_decide_eq_true in Hsk. apply list_elem_of_In in Hs'.
    rewrite (step_unique s' s Hs' Hs Hsk) in *. by rewrite Ho, He.
  - intros He. exists s. split; [by apply list_elem_of_In|]. by rewrite bool_decide_eq_true_2.
Qed.
Lemma ended_off k x : k ∉ step_key <$> steps p → m !! k = Some x →
  existsb (ends rollback m (owner x)) (steps p) = false.
Proof.
  intros Hn Hx. rewrite (ended _ _ Hx). apply not_true_iff_false. rewrite existsb_exists.
  intros (s & Hs & He). apply andb_true_iff in He as [[Hsk _]%andb_true_iff _].
  apply bool_decide_eq_true in Hsk. apply Hn. rewrite <-Hsk. by apply list_elem_of_fmap_2, list_elem_of_In.
Qed.
(** A lease that is not bound is not ended. *)
Lemma ended_unbound i : c_execution (completion h i) = None → existsb (ends rollback m i) (steps p) = false.
Proof.
  intros Hn. apply not_true_iff_false. rewrite existsb_exists. intros (s & _ & He). unfold ends in He.
  destruct (m !! step_key s) as [y|] eqn:Hy; [|by rewrite andb_false_r in He]. cbn in He. arith.
  destruct (lk_exec _ _ _ _ Hk _ _ Hy) as [He' _]. congruence.
Qed.
(** An entry that is left, and the entry it was. *)
Lemma settled_inv k x' : m' !! k = Some x' →
  ∃ x, m !! k = Some x ∧ owner x' = owner x ∧ repair x' = repair x ∧ dropped x' = dropped x ∧
  ((x' = x ∧ done (completion h' (owner x')) = done (completion h (owner x)) ∧
    (pending x = false ∨ ∀ s, s ∈ steps p → step_key s = k → is_some (step_owner s) = false)) ∨
   ∃ s, s ∈ steps p ∧ step_key s = k ∧ is_some (step_owner s) = true ∧ dropped x = false ∧
     pending x' = false ∧ done (completion h' (owner x')) = is_terminal rollback s || done (completion h (owner x))).
Proof.
  intros Hx'. destruct (decide (k ∈ step_key <$> steps p)) as [Hin|Hin].
  - apply list_elem_of_fmap in Hin as (s & -> & Hs). rewrite (settled_at s Hs) in Hx'.
    destruct (m !! step_key s) as [x|] eqn:Hx; [|by unfold settle_live in Hx'; destruct (is_some _)].
    exists x. split; [done|]. unfold settle_live in Hx'.
    destruct (is_some (step_owner s)) eqn:Ho.
    + cbn in Hx'. destruct (dropped x) eqn:Hdx; [done|]. injection Hx' as <-. cbn.
      split_and!; try done. right. exists s. split_and!; try done.
      rewrite Hd, (ended_at s x Hs Hx), Ho, Hdx. by rewrite orb_false_r.
    + injection Hx' as <-. split_and!; try done. left. split_and!; try done.
      * rewrite Hd, (ended_at s x Hs Hx), Ho. done.
      * right. intros s' Hs' Heq. by rewrite (step_unique s' s Hs' Hs Heq).
  - rewrite (settled_off k Hin) in Hx'. exists x'. split_and!; try done. left. split_and!; try done.
    + by rewrite Hd, (ended_off k x' Hin Hx').
    + right. intros s Hs Heq. destruct Hin. rewrite <-Heq. by apply list_elem_of_fmap_2.
Qed.
Lemma settled_keep k x : m !! k = Some x → dropped x = false →
  ∃ x', m' !! k = Some x' ∧ owner x' = owner x ∧ repair x' = repair x ∧ dropped x' = false.
Proof.
  intros Hx Hdx. destruct (decide (k ∈ step_key <$> steps p)) as [Hin|Hin].
  - apply list_elem_of_fmap in Hin as (s & -> & Hs). rewrite (settled_at s Hs), Hx. unfold settle_live.
    destruct (is_some _); [|by exists x]. cbn. rewrite Hdx. by exists (settled rollback s x).
  - rewrite (settled_off k Hin). by exists x.
Qed.
Lemma settled_view : resolve h' m' = v'.
Proof.
  apply map_eq. intros k. rewrite resolve_lookup. unfold view_after.
  destruct (decide (k ∈ step_key <$> steps p)) as [Hin|Hin].
  - apply list_elem_of_fmap in Hin as (s & -> & Hs).
    rewrite (alter_each_eq step_key (settle_entry rollback) _ (steps p) s (pr_keys _ _ _ Hp) Hs).
    rewrite (settled_at s Hs), resolve_lookup. unfold settle_live, settle_entry.
    destruct (m !! step_key s) as [x|] eqn:Hx; [|by destruct (is_some _)].
    pose proof (ended_at s x Hs Hx) as He.
    destruct (is_some (step_owner s)) eqn:Ho; cbn.
    + destruct (dropped x); [done|]. cbn. rewrite Hd, He. by rewrite orb_false_r.
    + rewrite Hd, He. done.
  - rewrite (settled_off k Hin). rewrite alter_each_ne by done. rewrite resolve_lookup.
    destruct (m !! k) as [x|] eqn:Hx; cbn; [|done]. by rewrite Hd, (ended_off k x Hin Hx).
Qed.

Definition final (g : Z) : State :=
  set_publication (set_executions (set_tenants (set_active
    (set_receipts st (set_totals (receipts st) (totals_after st p rollback)))
    (active st - sum_by (slot_freed st) (steps p))) (settled_tenants (tenants st) ts)) m') g None.
Definition owed_final : gset Key := if rollback then obligations o else owed_after p (obligations o).
Local Notation o' := (set_owed None owed_final o).

Lemma final_counts g :
  (∀ tc, tc ∈ pub_tenants p → counts_of (final g) (tc_tenant tc) =
    settle_counts (tenant_after st rollback (steps p) tc) (counts_of st (tc_tenant tc))) ∧
  ∀ t, t ∉ tc_tenant <$> pub_tenants p → counts_of (final g) t = counts_of st t.
Proof.
  assert (tc_tenant <$> ts = tc_tenant <$> pub_tenants p) as Ht by by rewrite <-list_fmap_compose.
  destruct (settled_counts st (final g) ts) as [H1 H2]; [done| | |].
  - rewrite Ht. apply (pr_tenants _ _ _ Hp).
  - intros tc' (tc & -> & Htc)%list_elem_of_fmap. exact (proj1 (pr_tenant _ _ _ Hp tc Htc)).
  - split.
    + intros tc Htc. apply (H1 (tenant_after st rollback (steps p) tc)). by apply list_elem_of_fmap_2.
    + intros t Hn. apply H2. by rewrite Ht.
Qed.
(** What every tenant has after the publication; the tenants that it does not name lose nothing. *)
Lemma absent_sums t f : t ∉ tc_tenant <$> pub_tenants p →
  (∀ s, is_some (step_owner s) = false → f s = 0) → sum_by (for_tenant t f) (steps p) = 0.
Proof.
  intros Hn Hf0. rewrite (sum_by_ext _ (λ _, 0)), sum_by_const; [lia|]. intros s Hs. unfold for_tenant.
  case_bool_decide as Ht; [|done]. apply Hf0. apply not_true_iff_false. intros Ho.
  destruct (owned_entry st h p Hp s Hs Ho) as (l & _ & _ & _ & _ & _ & _ & _ & Hin).
  by rewrite Ht in Hin.
Qed.
Lemma unbound_final : unbound h' o' = unbound h o ∧ ∀ t, unbound_of h' o' t = unbound_of h o t.
Proof. apply (unbound_ext h h' o). intros i t _. apply Hc. Qed.
Lemma final_tally g t : with_unknown None (counts_of (final g) t) = tally (final g) h' o' t.
Proof.
  unfold tally. change (executions (final g)) with m'. rewrite settled_view, (proj2 unbound_final).
  change (queue (final g)) with (queue st). change (count_pins o') with (count_pins o).
  change (repairs_of o' t) with (repairs_of o t). change (learners o') with (learners o).
  change (pinned o' t) with 0. destruct (final_counts g) as [Hin Hout].
  pose proof (led_tally _ _ _ Hl t) as Ht. unfold tally in Ht.
  destruct (decide (t ∈ tc_tenant <$> pub_tenants p)) as [Hm|Hm].
  - apply list_elem_of_fmap in Hm as (tc & -> & Htc). rewrite (Hin tc Htc).
    pose proof (pinned_pos _ _ _ _ _ Hl Hpub Htc) as Hpin. pose proof (ra_pins _ _ Hr (tc_tenant tc)).
    pose proof (led_pins _ _ _ Hl (tc_tenant tc)) as Hlp.
    assert (pinned o (tc_tenant tc) = 1) as Hp1.
    { unfold pinned. rewrite Hpub. cbn. by rewrite bool_decide_eq_true_2 by by apply list_elem_of_fmap_2. }
    unfold settle_counts. rewrite wrapping_sub_exact by lia.
    pose proof (base_after adm st h fr o p rollback Hi Hpub tc Htc) as Hba. cbn in Hba.
    destruct (after_ordinary adm st h fr o p rollback Hi Hpub) as [_ Hao].
    pose proof (led_c_active _ _ _ Hl (tc_tenant tc)) as Hca.
    autorewrite with bitrouter. rewrite Ht. unfold with_pins, with_active, with_uncovered, with_unknown.
    cbn. f_equal; [exact Hba|lia|]. rewrite Hao, Hca. lia.
  - rewrite (Hout t Hm), Ht.
    assert (pinned o t = 0) as Hp0.
    { unfold pinned. rewrite Hpub. cbn. by rewrite bool_decide_eq_false_2. }
    destruct (after_ordinary adm st h fr o p rollback Hi Hpub) as [_ Hao].
    destruct (after_bare adm st h fr o p rollback Hi Hpub) as [_ Hab].
    rewrite Hao, Hab, !(absent_sums t) by (done || intros s Hs; destruct (unowned_zero st rollback s Hs) as (? & ? & ?); lia).
    rewrite Hp0. f_equal; lia.
Qed.
Lemma final_ledger g : Ledger (final g) h' o'.
Proof.
  destruct (after_ordinary adm st h fr o p rollback Hi Hpub) as [Hao _].
  destruct (after_open adm st h fr o p rollback Hi Hpub) as [Hap _].
  destruct (after_bare adm st h fr o p rollback Hi Hpub) as [Hab _].
  destruct (after_repair adm st h fr o p rollback Hi Hpub) as [Har Hart].
  pose proof (after_running adm st h fr o p rollback Hi Hpub) as Hrun.
  constructor; [apply final_tally|..]; change (executions (final g)) with m';
    rewrite ?settled_view, ?(proj1 unbound_final); cbn.
  - rewrite Hao, (led_active _ _ _ Hl). lia.
  - rewrite Hap, (led_live _ _ _ Hl). lia.
  - rewrite Hab, (led_uncovered _ _ _ Hl). lia.
  - rewrite Hrun, (led_reserved _ _ _ Hl). change (charged_all o') with (charged_all o). unfold RESERVATION. lia.
  - apply (led_repair_reserved _ _ _ Hl).
  - apply (led_repair_live _ _ _ Hl).
  - rewrite Har. apply (led_repair_rows _ _ _ Hl).
  - intros t. rewrite Hart. apply (led_repair_of _ _ _ Hl).
  - apply (led_learning _ _ _ Hl).
  - apply (led_ingress _ _ _ Hl).
  - apply (led_ingress_bytes _ _ _ Hl).
  - apply (led_writes _ _ _ Hl).
Qed.
Lemma final_links g : Links (final g) h' fr o'.
Proof.
  destruct Hk. constructor; change (executions (final g)) with m'; cbn [leases repairing uploads writers set_owed];
    change (queue (final g)) with (queue st); try done.
  - intros k x' Hx'. destruct (settled_inv k x' Hx') as (x & Hx & -> & _). rewrite Hc. exact (lk_exec k x Hx).
  - intros k1 k2 x1' x2' H1 H2 Heq. destruct (settled_inv k1 x1' H1) as (x1 & Hx1 & Ho1 & _).
    destruct (settled_inv k2 x2' H2) as (x2 & Hx2 & Ho2 & _). eapply lk_inj; [exact Hx1|exact Hx2|congruence].
  - intros i His. destruct (Hf i His) as [?|(k & x & Hx & <-)]; [by apply lk_fresh|]. exact (proj2 (lk_exec k x Hx)).
  - intros i t Hit. destruct (lk_lease i t Hit) as [Hlt Hle]. split; [done|]. rewrite Hc.
    destruct (c_execution (completion h i)) as [e|] eqn:He.
    + destruct Hle as (x & Hx & Hox & Hrx & Hdx). destruct (settled_keep _ x Hx Hdx) as (x' & ? & ? & ? & ?).
      exists x'. split_and!; congruence.
    + by rewrite Hd, ended_unbound by done.
  - intros k x' Hx' Hrx Hdx. destruct (settled_inv k x' Hx') as (x & Hx & -> & Hr' & Hd' & _).
    apply lk_owner; congruence.
  - intros k x' Hx'. destruct (settled_inv k x' Hx') as (x & Hx & Ho & Hr' & Hd' & Hcase).
    destruct (lk_flags k x Hx) as [Hdone Hdrop]. destruct Hcase as [(-> & Hdn & _)|(s & Hs & Hsk & Hso & Hdx & Hpd & Hdn)].
    + by rewrite Hdn.
    + rewrite Hdn, Hpd, Hd', Hr', Hdx. split; [|done]. intros Hor. split; [done|].
      apply orb_true_iff in Hor as [Ht|Hdo]; [|by apply Hdone].
      destruct (owned_entry st h p Hp s Hs Hso) as (y & Hy & _ & _ & _ & _ & _ & Hry & _).
      rewrite Hsk, Hx in Hy. injection Hy as <-. destruct (repair x); [|done].
      unfold is_terminal in Ht. rewrite Hry in Ht by done. by rewrite andb_false_r in Ht.
  - intros g' r Hg. destruct (lk_repair g' r Hg) as (? & ? & ? & Hall). split_and!; try done.
    intros k Hin. destruct (Hall k Hin) as (Ht & x & Hx & Hrx). split; [done|].
    destruct (lk_flags k x Hx) as [_ Hdrop].
    assert (dropped x = false) as Hdx by (destruct (dropped x); [by destruct Hdrop; congruence|done]).
    destruct (settled_keep k x Hx Hdx) as (x' & ? & _ & ? & _). exists x'. split; congruence.
Qed.
Lemma final_pending g : Pending_ (final g) h' o'.
Proof.
  constructor; [done|done|]. change (executions (final g)) with m'. intros k x' Hx' Hpd.
  destruct (settled_inv k x' Hx') as (x & Hx & _ & _ & _ & [(-> & _ & Hno)|(s & _ & _ & _ & _ & Hpd' & _)]);
    [|congruence].
  destruct (pe_pending _ _ _ (inv_pending _ _ _ _ _ Hi) k x Hx Hpd) as (p' & s & Hp' & Hs & Hsk & Ho).
  rewrite Hpub in Hp'. injection Hp' as <-. destruct Hno as [Hno|Hno]; [congruence|].
  specialize (Hno s Hs Hsk). by rewrite Ho in Hno.
Qed.
Lemma final_unknown g t n : c_unknown (counts_of (final g) t) = Some n →
  ∃ n0, c_unknown (counts_of st t) = Some n0 ∧
    n = n0 + (if rollback then 0 else sum_by (for_tenant t durable_delta) (steps p)) ∧ in_u64 n.
Proof.
  destruct (final_counts g) as [Hin Hout]. destruct (decide (t ∈ tc_tenant <$> pub_tenants p)) as [Hm|Hm].
  - apply list_elem_of_fmap in Hm as (tc & -> & Htc). rewrite (Hin tc Htc). cbn. unfold base_unknown.
    destruct (pr_tenant _ _ _ Hp tc Htc) as (_ & Hdur & _ & Hrg).
    destruct (c_unknown (counts_of st (tc_tenant tc))) as [n0|] eqn:Hn0; [|done]. cbn. intros [= <-].
    exists n0. split; [done|]. rewrite <-Hdur. split; [done|].
    destruct rollback; [|by apply Hrg]. rewrite Z.add_0_r. by eapply (ra_fence _ _ Hr).
  - rewrite (Hout t Hm). intros Hn. exists n. split_and!; [done| |by eapply (ra_fence _ _ Hr)].
    assert (sum_by (for_tenant t durable_delta) (steps p) = 0) as ->; [|destruct rollback; lia].
    rewrite (sum_by_ext _ (λ _, 0)), sum_by_const; [lia|]. intros s Hs. unfold for_tenant.
    case_bool_decide as Ht; [|done]. pose proof (pr_absent _ _ _ Hp s Hs) as Ha. rewrite Ht in Ha.
    rewrite Ha in Hn by done. done.
Qed.
Lemma final_coherent g : fenced (receipts st) = false → Coherent (final g) o'.
Proof.
  intros Hfn. pose proof (inv_coherent _ _ _ _ _ Hi Hfn) as [Htot Hten Hbef].
  destruct (owed_size p (obligations o) (pr_keys _ _ _ Hp)) as [Hsz Hby]; [intros s Hs; by apply (Hbef p)|].
  constructor; [| |done].
  - cbn. rewrite durable_sum, Htot. unfold owed_final. destruct rollback; lia.
  - intros t n Hn. destruct (final_unknown g t n Hn) as (n0 & Hn0 & -> & _).
    rewrite (Hten t n0 Hn0). cbn. unfold owed_final. destruct rollback; [lia|by rewrite Hby].
Qed.
Lemma final_ranges g : 0 ≤ g ≤ u64_max → Ranges adm (final g).
Proof.
  intros Hg. destruct (final_counts g) as [Hin Hout].
  pose proof (totals_after_wf adm st h fr o p rollback Hi Hpub) as Hwf.
  assert (0 ≤ sum_by (slot_freed st) (steps p)).
  { apply sum_by_nonneg. intros s _. exact (proj1 (freed_bounds st rollback s)). }
  pose proof Hr as [[]]. constructor; cbn; try done; try lia.
  - intros t. destruct (decide (t ∈ tc_tenant <$> pub_tenants p)) as [Hm|Hm]; [|by rewrite Hout].
    apply list_elem_of_fmap in Hm as (tc & -> & Htc). rewrite (Hin tc Htc). cbn.
    pose proof (pinned_pos _ _ _ _ _ Hl Hpub Htc). specialize (ra_pins (tc_tenant tc)).
    rewrite wrapping_sub_exact by lia. lia.
  - intros t. destruct (decide (t ∈ tc_tenant <$> pub_tenants p)) as [Hm|Hm]; [|by rewrite Hout].
    apply list_elem_of_fmap in Hm as (tc & -> & Htc). rewrite (Hin tc Htc). apply ra_repairs.
  - intros t n Hn. by destruct (final_unknown g t n Hn) as (_ & _ & _ & ?).
Qed.
Lemma Inv_final g : fenced (receipts st) = false → 0 ≤ g ≤ u64_max → Inv adm (final g) h' fr o'.
Proof.
  intros Hfn Hg. split; [apply final_ledger|apply final_links|apply final_pending| |by apply final_ranges].
  intros _. by apply final_coherent.
Qed.
End finish_change.

Lemma Inv_idle_all adm st h fr o l : Inv adm st h fr o → Inv adm (idle_all st l) h fr o.
Proof.
  unfold idle_all. revert st. induction l as [|tc l IH]; intros st Hi; cbn; [done|]. by apply IH, Inv_idle.
Qed.
Lemma idle_all_fields st l :
  receipts (idle_all st l) = receipts st ∧ unknown_generation (idle_all st l) = unknown_generation st ∧
  publication_pending (idle_all st l) = publication_pending st ∧ queue (idle_all st l) = queue st.
Proof.
  unfold idle_all. revert st. induction l as [|tc l IH]; intros st; cbn; [done|].
  destruct (IH (idle st (tc_tenant tc))) as (-> & -> & -> & ->).
  by destruct (idle_fields st (tc_tenant tc)) as (_ & -> & -> & -> & -> & _).
Qed.
(** A prepared publication is always applied, unless the storage is fenced. *)
Lemma finish_change_ok adm (Hb : Budgets adm) (w : World) o p rollback :
  WInv adm w o → publication o = Some p → fenced (receipts (state w)) = false →
  ∃ w', finish_change p rollback w = (w', Ok tt) ∧
    WInv adm w' (set_owed None (owed_final o p rollback) o) ∧ fenced (receipts (state w')) = false ∧
    unknown_generation (state w') = unknown_generation (state w) + of_bool (negb rollback) ∧
    publication_pending (state w') = None ∧ fresh w' = fresh w ∧ queue (state w') = queue (state w).
Proof.
  intros Hi Hpub Hfn. unfold WInv in *. set (st := state w) in *.
  pose proof (pe_prepared _ _ _ (inv_pending _ _ _ _ _ Hi) p Hpub) as Hp.
  pose proof (pe_token _ _ _ (inv_pending _ _ _ _ _ Hi)) as Htok. rewrite Hpub in Htok. cbn in Htok.
  destruct (pr_generation _ _ _ Hp) as [Hgen Hmax].
  assert (unknown_generation st +% 1 = unknown_generation st + 1) as Hnext.
  { apply wrapping_add_exact. pose proof (ra_generation _ _ (inv_ranges _ _ _ _ _ Hi)). lia. }
  unfold finish_change, attempt. fold st. rewrite Hfn, Hgen, Htok, Z.eqb_refl, bool_decide_eq_true_2 by done.
  cbn [negb andb ensure mbind result_bind].
  rewrite (calculate_ok adm Hb st (arcs w) (fresh w) o p rollback Hi Hpub).
  cbn [mbind result_bind]. rewrite settle_tenants_eq.
  match goal with |- context [foldl (settle_step rollback) (?s, _) _] =>
    destruct (settle_fold rollback s (arcs w) (steps p) (pr_keys _ _ _ Hp)) as (h' & Hfold & Hc & Hd & Hf) end.
  rewrite Hfold.
  set (g := if rollback then unknown_generation st else unknown_generation st + 1).
  pose proof (ra_generation _ _ (inv_ranges _ _ _ _ _ Hi)) as Hg.
  assert (0 ≤ g ≤ u64_max) as Hg' by (unfold g; destruct rollback; lia).
  pose proof (Inv_final adm st (arcs w) (fresh w) o p rollback Hi Hpub h' Hc Hd Hf g Hfn Hg') as Hfin.
  exists (set_heap w (idle_all (final st p rollback g) (tenant_after st rollback (steps p) <$> pub_tenants p)) h').
  split; [|split; [by apply Inv_idle_all|]].
  - unfold g. destruct rollback; [done|]. by rewrite <-Hnext.
  - cbn. destruct (idle_all_fields (final st p rollback g)
      (tenant_after st rollback (steps p) <$> pub_tenants p)) as (-> & -> & -> & ->).
    split_and!; try done. cbn. unfold g. destruct rollback; cbn; lia.
Qed.
