(* ===== verification/TenancyPrepare.v ===== *)
(** Preparing a publication: what the loops of [Admission::prepare_unknown] establish, and that the
    prepared publication keeps the ledger exact ([apps/tenancy/admission/unknown.rs]). *)
From stdpp Require Import base list strings gmap sorting.
From Stdlib Require Import ZArith Lia.
From S2P Require Import Prelude MapSum TenancyCapacity TenancyState TenancyAdmission TenancyUnknown TenancySystem TenancyLedger TenancyLease TenancyRepair TenancyPublish TenancySettle.
Open Scope Z_scope.
#[local] Arguments countb : simpl never.
#[local] Arguments sum_by : simpl never.
#[local] Arguments msum : simpl never.
#[local] Arguments mcount : simpl never.
#[local] Arguments resolve : simpl never.
#[local] Arguments pinned : simpl never.

(** ** The checks before the mutex *)

(** The steps that a batch of changes plans. *)
Record Planned_steps (d : gset Key) (l : list Step) : Prop := {
  ps_keys : NoDup (step_key <$> l);
  ps_free s : s ∈ l → step_owner s = None;
  ps_bytes s b : s ∈ l → terminal s = Some b → 0 ≤ b;
  ps_before s : s ∈ l → step_before s = bool_decide (step_key s ∈ d) }.
Lemma terminals_range ts m0 m :
  (∀ k b, m0 !! k = Some b → 0 ≤ b) → (∀ t, t ∈ ts → 0 ≤ te_bytes t) →
  try_fold add_terminal m0 ts = Ok m → ∀ k b, m !! k = Some b → 0 ≤ b.
Proof.
  intros Hm0 Hts. apply (try_fold_inv _ (λ m, ∀ k b, m !! k = Some b → 0 ≤ b)); [|done].
  intros m1 t m2 Ht Hm1 Hadd k b. unfold add_terminal in Hadd. res_inv.
  intros [[<- <-]|[_ Hk]]%lookup_insert_Some; [by apply Hts|by apply (Hm1 k)].
Qed.
Lemma plan_steps_ok changes ts l d :
  plan_steps changes ts = Ok l → (∀ t, t ∈ ts → 0 ≤ te_bytes t) →
  (∀ ch, ch ∈ changes → is_some (before ch) = bool_decide (ch_key ch ∈ d)) → Planned_steps d l.
Proof.
  unfold plan_steps. intros Hl Hts Hd. res_inv.
  match goal with H : try_fold add_terminal _ _ = Ok ?m |- _ => rename H into Hm; set (m0 := m) in * end.
  pose proof (terminals_range ts ∅ m0 ltac:(by intros ? ?; rewrite lookup_empty) Hts Hm) as Hrange.
  match goal with H : try_fold add_step _ _ = Ok ?x |- _ => rename H into Hs; set (r := x) in * end.
  enough ((∀ k b, r.1.1 !! k = Some b → 0 ≤ b) ∧ (∀ k, k ∈ r.1.2 ↔ k ∈ step_key <$> r.2) ∧ Planned_steps d r.2)
    as (_ & _ & Hp).
  { clearbody r. destruct r as [[rest seen] steps]. res_inv. exact Hp. }
  revert Hs. apply (try_fold_inv add_step (λ r : gmap Key Z * gset Key * list Step,
    (∀ k b, r.1.1 !! k = Some b → 0 ≤ b) ∧ (∀ k, k ∈ r.1.2 ↔ k ∈ step_key <$> r.2) ∧ Planned_steps d r.2)).
  - intros [[tm seen] steps] ch s' Hch (Htm & Hseen & [Hk Hf Hby Hbef]) Hadd. cbn in *. res_inv. arith.
    cbn. split; [|split].
    + intros k b [_ Hkb]%lookup_delete_Some. by apply (Htm k).
    + intros k. rewrite fmap_app, elem_of_app. cbn. rewrite list_elem_of_singleton, <-Hseen. set_solver.
    + assert (ch_key ch ∉ step_key <$> steps) as Hn by (by rewrite <-Hseen).
      constructor.
      * rewrite fmap_app. apply NoDup_app. cbn. split_and!; [done| |by apply NoDup_singleton].
        intros k Hkk. rewrite list_elem_of_singleton. by intros ->.
      * intros s [Hs| ->%list_elem_of_singleton]%elem_of_app; [by apply Hf|done].
      * intros s b [Hs| ->%list_elem_of_singleton]%elem_of_app; [by apply Hby|]. cbn. apply Htm.
      * intros s [Hs| ->%list_elem_of_singleton]%elem_of_app; [by apply Hbef|]. cbn. by apply Hd.
  - cbn. split; [exact Hrange|]. split; [set_solver|].
    constructor; [constructor|..]; intros; by match goal with H : _ ∈ [] |- _ => apply elem_of_nil in H end.
Qed.

(** ** Claiming the owners *)

Section claims.
Context (st : State) (h : Arcs) (d : gset Key).

Record Claimed (l : list Step) (deltas : gmap TenantId (Z * Z)) : Prop := {
  cl_owner s i : s ∈ l → step_owner s = Some i →
    ∃ x, executions st !! step_key s = Some x ∧ owner x = i ∧ pending x = false ∧
      covered x = step_before s ∧ (repair x = true → terminal s = None) ∧ done (completion h i) = false;
  cl_deltas t : default (0, 0) (deltas !! t) =
    (sum_by (for_tenant t durable_delta) l, sum_by (for_tenant t cover_delta) l);
  cl_tenants t : is_Some (deltas !! t) ↔ ∃ s, s ∈ l ∧ key_tenant (step_key s) = t }.
Lemma claim_step_ok s s' u :
  claim_step st h s = Ok (s', u) → step_owner s = None →
  step_key s' = step_key s ∧ step_before s' = step_before s ∧ step_after s' = step_after s ∧
  terminal s' = terminal s ∧ u = cover_delta s' ∧
  ∀ i, step_owner s' = Some i → ∃ x, executions st !! step_key s = Some x ∧ owner x = i ∧
    pending x = false ∧ covered x = step_before s ∧ (repair x = true → terminal s = None) ∧
    done (completion h i) = false.
Proof.
  intros Hc Hn. unfold claim_step in Hc.
  destruct (executions st !! step_key s) as [x|] eqn:Hx.
  - destruct (done (completion h (owner x))) eqn:Hd; res_inv.
    + split_and!; try done; [|congruence]. unfold cover_delta. by rewrite Hn.
    + cbn. split_and!; try done. intros i [= <-]. exists x.
      match goal with H : negb _ = true |- _ => apply negb_true_iff in H; rename H into Hg end.
      apply orb_false_iff in Hg as [[Hp Hcov]%orb_false_iff Hrep].
      rewrite negb_false_iff in Hcov. apply eqb_prop in Hcov. split_and!; try done.
      intros Hr. rewrite Hr in Hrep. cbn in Hrep. by destruct (terminal s).
  - res_inv. split_and!; try done; [|congruence]. unfold cover_delta. by rewrite Hn.
Qed.
Lemma claim_ok planned claimed deltas :
  try_fold (claim_next st h) ([], ∅) planned = Ok (claimed, deltas) → Planned_steps d planned →
  Claimed claimed deltas ∧ NoDup (step_key <$> claimed) ∧
  (∀ s b, s ∈ claimed → terminal s = Some b → 0 ≤ b) ∧
  ∀ s, s ∈ claimed → step_before s = bool_decide (step_key s ∈ d).
Proof.
  intros Hc [Hk Hf Hby Hbef].
  enough (step_key <$> claimed = step_key <$> planned ∧ Claimed claimed deltas ∧
    (∀ s b, s ∈ claimed → terminal s = Some b → 0 ≤ b) ∧
    ∀ s, s ∈ claimed → step_before s = bool_decide (step_key s ∈ d)) as (-> & ? & ? & ?) by done.
  revert Hc. apply (try_fold_ind (claim_next st h) (λ pre (r : list Step * gmap TenantId (Z * Z)),
    step_key <$> r.1 = step_key <$> pre ∧ Claimed r.1 r.2 ∧
    (∀ s b, s ∈ r.1 → terminal s = Some b → 0 ≤ b) ∧
    ∀ s, s ∈ r.1 → step_before s = bool_decide (step_key s ∈ d))).
  - cbn. split_and!; try done; try (intros; by match goal with H : _ ∈ [] |- _ => apply elem_of_nil in H end).
    constructor; try (intros; by match goal with H : _ ∈ [] |- _ => apply elem_of_nil in H end).
    + intros t. by rewrite lookup_empty.
    + intros t. rewrite lookup_empty. split; [by intros []|]. intros (s & Hs & _). by apply elem_of_nil in Hs.
  - intros pre s [cl dl] [cl' dl'] Hpre _ (Hkeys & [Ho Hd Ht] & Hb' & Hbf') Hstep. cbn in *.
    pose proof (prefix_elem _ _ _ Hpre) as Hs. destruct (claim_step st h s) as [[s0 u0]|] eqn:Hcl; [|done].
    cbn in Hstep. injection Hstep as <- <-.
    destruct (claim_step_ok _ _ _ Hcl (Hf s Hs)) as (Hk' & Hbe & Haf & Hte & Hu & Hown).
    cbn. split_and!.
    + rewrite !fmap_app. cbn. by rewrite Hkeys, Hk'.
    + constructor.
      * intros x i [Hx| ->%list_elem_of_singleton]%elem_of_app; [by apply Ho|]. intros Hi.
        rewrite Hk', Hbe, Hte. by apply Hown.
      * intros t. rewrite !for_tenant_snoc. rewrite Hk'. destruct (decide (key_tenant (step_key s) = t)) as [<-|Hne].
        -- rewrite lookup_insert_eq. cbn. rewrite Hd. cbn. unfold durable_delta at 3. rewrite Hbe, Haf, Hu. done.
        -- rewrite lookup_insert_ne by done. rewrite Hd. f_equal; lia.
      * intros t. rewrite lookup_insert_is_Some, Ht. split.
        -- intros [<-|[_ (x & Hx & <-)]].
           ++ exists s0. rewrite Hk'. split; [set_solver|done].
           ++ exists x. split; [set_solver|done].
        -- intros (x & [Hx| ->%list_elem_of_singleton]%elem_of_app & <-).
           ++ destruct (decide (key_tenant (step_key s) = key_tenant (step_key x))) as [->|Hne]; [by left|].
              right. split; [done|]. by exists x.
           ++ left. by rewrite Hk'.
    + intros x b [Hx| ->%list_elem_of_singleton]%elem_of_app; [by apply Hb'|]. rewrite Hte. by apply (Hby s).
    + intros x [Hx| ->%list_elem_of_singleton]%elem_of_app; [by apply Hbf'|]. rewrite Hbe, Hk'. by apply Hbef.
Qed.
End claims.

(** ** The tenants to change *)

Record Residents (st : State) (deltas : gmap TenantId (Z * Z)) (l : list TenantChange) : Prop := {
  re_keys : NoDup (tc_tenant <$> l);
  re_change tc : tc ∈ l → is_Some (tenants st !! tc_tenant tc) ∧
    deltas !! tc_tenant tc = Some (durable tc, tc_uncovered tc) ∧
    pins (counts_of st (tc_tenant tc)) + 1 ≤ u64_max;
  re_all t : is_Some (deltas !! t) → is_Some (tenants st !! t) → t ∈ tc_tenant <$> l }.
Lemma resident_ok st (deltas : gmap TenantId (Z * Z)) l :
  try_fold (resident st) [] (sorted_entries deltas) = Ok l → Residents st deltas l.
Proof.
  intros Hl. assert (NoDup (sorted_entries deltas).*1) as Hnd.
  { unfold sorted_entries. rewrite sort_by_key_perm. apply NoDup_fst_map_to_list. }
  enough ((∀ t, t ∈ tc_tenant <$> l → t ∈ (sorted_entries deltas).*1) ∧ NoDup (tc_tenant <$> l) ∧
    (∀ tc, tc ∈ l → is_Some (tenants st !! tc_tenant tc) ∧
      (tc_tenant tc, (durable tc, tc_uncovered tc)) ∈ sorted_entries deltas ∧
      pins (counts_of st (tc_tenant tc)) + 1 ≤ u64_max) ∧
    ∀ t du, (t, du) ∈ sorted_entries deltas → is_Some (tenants st !! t) → t ∈ tc_tenant <$> l)
    as (_ & H1 & H2 & H3).
  { constructor; [done| |].
    - intros tc Htc. destruct (H2 tc Htc) as (? & ?%elem_of_sorted_entries & ?). done.
    - intros t [du Ht] Hs. apply (H3 t du); [by apply elem_of_sorted_entries|done]. }
  revert Hl Hnd. generalize (sorted_entries deltas) as es. intros es Hl Hnd. revert Hl.
  apply (try_fold_ind (resident st) (λ pre l, (∀ t, t ∈ tc_tenant <$> l → t ∈ pre.*1) ∧
    NoDup (tc_tenant <$> l) ∧ (∀ tc, tc ∈ l → is_Some (tenants st !! tc_tenant tc) ∧
      (tc_tenant tc, (durable tc, tc_uncovered tc)) ∈ pre ∧
      pins (counts_of st (tc_tenant tc)) + 1 ≤ u64_max) ∧
    ∀ t du, (t, du) ∈ pre → is_Some (tenants st !! t) → t ∈ tc_tenant <$> l)).
  - split; [|split; [constructor|split]]; intros; by match goal with H : _ ∈ _ |- _ => apply elem_of_nil in H end.
  - intros pre [t [du u]] l1 l2 Hpre _ (Hsub & Hn & Hch & Hall) Hstep. cbn in Hstep.
    assert (t ∉ pre.*1) as Hnew.
    { destruct Hpre as [k ->]. rewrite !fmap_app in Hnd. apply NoDup_app in Hnd as (Hnd & _ & _).
      apply NoDup_app in Hnd as (_ & Hnd & _). intros Hin. apply (Hnd t Hin). cbn. by left. }
    destruct (tenants st !! t) as [c|] eqn:Hc; res_inv; arith.
    + split_and!.
      * intros t'. rewrite !fmap_app, !elem_of_app. cbn. rewrite !list_elem_of_singleton.
        intros [?|?]; [left; by apply Hsub|by right].
      * rewrite fmap_app. apply NoDup_app. cbn. split_and!; [done| |by apply NoDup_singleton].
        intros t' Ht'. rewrite list_elem_of_singleton. intros ->. by apply Hnew, Hsub.
      * intros tc [Htc| ->%list_elem_of_singleton]%elem_of_app.
        -- destruct (Hch tc Htc) as (? & ? & ?). split_and!; [done|set_solver|done].
        -- cbn. unfold counts_of. rewrite Hc. cbn. split_and!; [done|set_solver|done].
      * intros t' du' [Hin|[= -> ->]%list_elem_of_singleton]%elem_of_app Hs; rewrite fmap_app, elem_of_app.
        -- left. by apply (Hall t' du').
        -- right. cbn. by apply list_elem_of_singleton.
    + split_and!; [|done| |].
      * intros t' Ht'. rewrite fmap_app, elem_of_app. left. by apply Hsub.
      * intros tc Htc. destruct (Hch tc Htc) as (? & ? & ?). split_and!; [done|set_solver|done].
      * intros t' du' [Hin|[= -> ->]%list_elem_of_singleton]%elem_of_app Hs; [by apply (Hall t' du')|].
        destruct Hs as [c Hs]. assert (Some c = None) by (etrans; [symmetry; exact Hs|exact Hc]). done.
Qed.

(** ** What a successful calculation implies *)

Definition same_change (a b : TenantChange) : Prop :=
  tc_tenant a = tc_tenant b ∧ durable a = durable b ∧ tc_uncovered a = tc_uncovered b.
Lemma change_tenant_same t f l l' :
  (∀ a b, f a = Ok b → same_change b a) → change_tenant t f l = Ok l' → Forall2 same_change l' l.
Proof.
  intros Hf. revert l'. induction l as [|a l IH]; intros l'; cbn; [done|]. case_bool_decide; intros Hc; res_inv.
  - constructor; [by apply Hf|]. clear. induction l; by constructor.
  - constructor; [done|]. by apply IH.
Qed.
Lemma same_trans a b c : Forall2 same_change a b → Forall2 same_change b c → Forall2 same_change a c.
Proof.
  intros Hab. revert c. induction Hab as [|x y a b (H1 & H2 & H3) _ IH]; intros c Hbc; inversion Hbc; subst; [done|].
  match goal with H : same_change y _ |- _ => destruct H as (E1 & E2 & E3) end.
  constructor; [|by apply IH]. unfold same_change. split_and!; congruence.
Qed.
Lemma sum_step_inv st h u s u' :
  sum_step st h false u s = Ok u' →
  Forall2 same_change (su_tenants u') (su_tenants u) ∧
  su_durable u' = su_durable u + durable_delta s ∧ su_bytes u' = su_bytes u + stored_bytes s.
Proof.
  assert (∀ l : list TenantChange, Forall2 same_change l l) as Hrefl by (induction l; by constructor).
  unfold sum_step. destruct (step_owner s) as [i|] eqn:Ho.
  2:{ intros [= <-]. cbn. unfold stored_bytes. rewrite Ho. cbn. split_and!; [done|done|lia]. }
  intros Hs. res_inv. cbn [su_active su_tenants su_release su_uncovered su_durable su_bytes] in *.
  match goal with H : (if _ then _ else Ok (su_bytes u)) = Ok ?b |- _ =>
    rename H into Hby; assert (b = su_bytes u + stored_bytes s) as -> end.
  { unfold stored_bytes. rewrite Ho. change (is_some (Some i)) with true. cbn [negb andb] in Hby. cbn iota.
    destruct (terminal s) as [b|]; cbn in Hby.
    - unfold terminal_bytes in Hby. cbn.
      destruct (su_bytes u +? b) as [n|] eqn:Hn; cbn in Hby; [|done]. apply checked_add_Some in Hn as [-> _].
      destruct (b =? 0) eqn:H0; cbn in Hby; [injection Hby as <-; arith; lia|].
      destruct (_ +? ROW_OVERHEAD) as [n|] eqn:Hn; cbn in Hby; [|done]. apply checked_add_Some in Hn as [-> _].
      injection Hby as <-. lia.
    - injection Hby as <-. cbn. lia. }
  match goal with H : context [dropped ?x] |- _ => destruct (dropped x); res_inv; [|by split_and!] end.
  match goal with H : release_dropped _ _ _ _ = Ok _ |- _ => rename H into Hr end. unfold release_dropped in Hr.
  cbn [su_active su_tenants su_release su_uncovered su_durable su_bytes] in Hr. res_inv.
  match goal with H : change_tenant _ _ (su_tenants u) = Ok _ |- _ => apply change_tenant_same in H; [rename H into H1|] end.
  2:{ intros a b Hab. res_inv. done. }
  match type of Hr with (if ?b then _ else _) = _ => destruct b end; res_inv; [by split_and!|].
  match type of Hr with (if ?b then _ else _) = _ => destruct b end; res_inv; [|by split_and!].
  match goal with H : change_tenant _ _ _ = Ok _ |- _ => apply change_tenant_same in H; [rename H into H2|] end.
  2:{ intros a b Hab. res_inv. done. }
  cbn. split_and!; [by eapply same_trans|done|done].
Qed.
Lemma adjust_inv a b c : adjust a b = Ok c → c = a + b ∧ in_u64 (a + b).
Proof. unfold adjust. case_bool_decide; [|done]. by intros [= <-]. Qed.
Lemma next_tenant_inv st f tc tc' :
  next_tenant st f false tc = Ok tc' → same_change tc' tc ∧
  ∀ n, c_unknown (counts_of st (tc_tenant tc)) = Some n → in_u64 (n + durable tc).
Proof.
  unfold next_tenant, counts_of. intros Hn. res_inv.
  match goal with H : tenants st !! _ = Some ?c |- _ => rewrite H; cbn; rename c into c0; clear H end.
  split; [done|]. intros n Hu. rewrite Hu in *. res_inv.
  match goal with H : adjust n _ = Ok _ |- _ => by apply adjust_inv in H as [_ ?] end.
Qed.
Lemma sums_inv st h l u u' :
  try_fold (sum_step st h false) u l = Ok u' →
  Forall2 same_change (su_tenants u') (su_tenants u) ∧
  su_durable u' = su_durable u + sum_by durable_delta l ∧ su_bytes u' = su_bytes u + sum_by stored_bytes l.
Proof.
  apply (try_fold_ind (sum_step st h false) (λ l u', Forall2 same_change (su_tenants u') (su_tenants u) ∧
    su_durable u' = su_durable u + sum_by durable_delta l ∧ su_bytes u' = su_bytes u + sum_by stored_bytes l)).
  - unfold sum_by. cbn. split_and!; [|lia..]. induction (su_tenants u); by constructor.
  - intros pre s u1 u2 _ _ (H1 & H2 & H3) Hs. apply sum_step_inv in Hs as (? & ? & ?).
    rewrite !sum_by_snoc. split_and!; [by eapply same_trans|lia..].
Qed.
Lemma next_tenants_inv st f l l' :
  try_fold (λ acc t, t ← next_tenant st f false t; Ok (acc ++ [t])) [] l = Ok l' →
  Forall2 same_change l' l ∧
  ∀ tc, tc ∈ l → ∀ n, c_unknown (counts_of st (tc_tenant tc)) = Some n → in_u64 (n + durable tc).
Proof.
  apply (try_fold_ind (λ acc t, t ← next_tenant st f false t; Ok (acc ++ [t])) (λ l l', Forall2 same_change l' l ∧
    ∀ tc, tc ∈ l → ∀ n, c_unknown (counts_of st (tc_tenant tc)) = Some n → in_u64 (n + durable tc))).
  - split; [constructor|]. intros tc Htc. by apply elem_of_nil in Htc.
  - intros pre tc l1 l2 _ _ (H1 & H2) Hs. cbv beta in Hs. res_inv.
    match goal with H : next_tenant _ _ _ _ = Ok _ |- _ => apply next_tenant_inv in H as [Hsame Hn] end.
    split.
    + apply Forall2_app; [done|]. constructor; [done|constructor].
    + intros x [Hx| ->%list_elem_of_singleton]%elem_of_app; [by apply H2|exact Hn].
Qed.
Lemma calculate_inv p st h ts next act :
  calculate p st h false = Ok (ts, next, act) →
  unknown_generation st + 1 ≤ u64_max ∧ Forall2 same_change ts (pub_tenants p) ∧
  (∀ tc, tc ∈ pub_tenants p → ∀ n, c_unknown (counts_of st (tc_tenant tc)) = Some n → in_u64 (n + durable tc)) ∧
  in_u64 (unknown (totals (receipts st)) + sum_by durable_delta (steps p)) ∧
  t_bytes (totals (receipts st)) + sum_by stored_bytes (steps p) ≤ u64_max.
Proof.
  unfold calculate. intros Hc. res_inv. arith.
  match goal with H : try_fold (λ _ _, _) [] _ = Ok _ |- _ => apply next_tenants_inv in H as [Hs Hn] end.
  match goal with H : try_fold (sum_step _ _ _) _ _ = Ok _ |- _ => apply sums_inv in H as (Hs2 & Hd & Hby) end.
  match goal with H : next_totals _ _ = Ok _ |- _ => unfold next_totals in H end. res_inv. arith.
  repeat match goal with H : adjust _ _ = Ok _ |- _ => apply adjust_inv in H as [? ?] end.
  cbn in Hs2, Hd, Hby. rewrite Hd, Hby in *. rewrite !Z.add_0_l in *.
  split_and!; try done; [by eapply same_trans|unfold in_u64 in *; lia..].
Qed.

(** ** The state with a publication *)

Lemma same_elem a b tc : Forall2 same_change a b → tc ∈ a → ∃ tc', tc' ∈ b ∧ same_change tc tc'.
Proof.
  induction 1 as [|x y a b Hxy _ IH]; [by intros ?%elem_of_nil|].
  intros [->|Hin]%elem_of_cons; [exists y; split; [left|done]|].
  destruct (IH Hin) as (z & ? & ?). exists z. split; [by right|done].
Qed.
Lemma same_tenants a b : Forall2 same_change a b → tc_tenant <$> a = tc_tenant <$> b.
Proof. induction 1 as [|x y a b [Hxy _] _ IH]; [done|]. cbn. by rewrite Hxy, IH. Qed.
Lemma Residents_same st deltas a b :
  Forall2 same_change a b → Residents st deltas b → Residents st deltas a.
Proof.
  intros Hab [Hn Hc Ha]. pose proof (same_tenants _ _ Hab) as Ht. constructor.
  - by rewrite Ht.
  - intros tc Htc. destruct (same_elem _ _ _ Hab Htc) as (tc' & Htc' & -> & -> & ->). by apply Hc.
  - intros t. rewrite Ht. apply Ha.
Qed.
Definition pinned_tenants (m : gmap TenantId Counts) (l : list TenantChange) : gmap TenantId Counts :=
  alter_each tc_tenant (λ _ v, (λ c, with_pins (pins c +% 1) c) <$> v) m l.
Lemma pin_tenants_eq st l : pin_tenants st l = set_tenants st (pinned_tenants (tenants st) l).
Proof.
  unfold pin_tenants, pinned_tenants, alter_each. revert st.
  induction l as [|tc l IH]; intros st; cbn; [by destruct st|]. by rewrite IH.
Qed.
Definition mark_live (s : Step) (v : option Live) : option Live :=
  if is_some (step_owner s) then mark_pending <$> v else v.
Definition marked (m : gmap Key Live) (l : list Step) : gmap Key Live := alter_each step_key mark_live m l.
Lemma mark_steps_eq st l : mark_steps st l = set_executions st (marked (executions st) l).
Proof.
  unfold mark_steps, marked, alter_each. revert st.
  induction l as [|s l IH]; intros st; cbn; [by destruct st|]. rewrite IH.
  unfold mark_live. destruct (is_some (step_owner s)); [done|].
  unfold set_executions. cbn. by rewrite partial_alter_same.
Qed.

Section prepared.
Context (adm : Admission) (Hb : Budgets adm).
Context (st : State) (h : Arcs) (fr : Z) (o : Owners).
Context (Hi : Inv adm st h fr o) (Hnone : publication_pending st = None).
Context (claimed : list Step) (deltas : gmap TenantId (Z * Z)) (ts : list TenantChange).
Context (Hcl : Claimed st h claimed deltas) (Hkeys : NoDup (step_key <$> claimed))
  (Hbytes : ∀ s b, s ∈ claimed → terminal s = Some b → 0 ≤ b)
  (Hbef : ∀ s, s ∈ claimed → step_before s = bool_decide (step_key s ∈ obligations o))
  (Hre : Residents st deltas ts) (Hgen : unknown_generation st + 1 ≤ u64_max)
  (Hfit : ∀ tc, tc ∈ ts → ∀ n, c_unknown (counts_of st (tc_tenant tc)) = Some n → in_u64 (n + durable tc))
  (Hunk : in_u64 (unknown (totals (receipts st)) + sum_by durable_delta claimed))
  (Hby : t_bytes (totals (receipts st)) + sum_by stored_bytes claimed ≤ u64_max).
Let Hl := inv_ledger _ _ _ _ _ Hi.
Let Hk := inv_links _ _ _ _ _ Hi.
Let Hr := inv_ranges _ _ _ _ _ Hi.
Local Notation m := (executions st).
Local Notation m' := (marked (executions st) claimed).

Definition prepared : Publication := {|
  token := fr; generation := unknown_generation st; steps := claimed; pub_tenants := ts;
  pub_finished := false |}.
Definition ready_state : State :=
  set_publication (set_executions (set_tenants st (pinned_tenants (tenants st) ts)) m')
    (unknown_generation st) (Some fr).
Local Notation st' := ready_state.
Local Notation o' := (set_owed (Some prepared) (obligations o) o).

Lemma marked_at s : s ∈ claimed → m' !! step_key s = mark_live s (m !! step_key s).
Proof. intros Hs. exact (alter_each_eq step_key mark_live m claimed s Hkeys Hs). Qed.
Lemma marked_off k : k ∉ step_key <$> claimed → m' !! k = m !! k.
Proof. apply (alter_each_ne step_key mark_live). Qed.
(** An entry before and after, equal up to the mark. *)
Lemma marked_inv k x' : m' !! k = Some x' →
  ∃ x, m !! k = Some x ∧ owner x' = owner x ∧ repair x' = repair x ∧ dropped x' = dropped x ∧
    covered x' = covered x ∧
    (x' = x ∨ ∃ s, s ∈ claimed ∧ step_key s = k ∧ step_owner s = Some (owner x) ∧
                pending x = false ∧ done (completion h (owner x)) = false).
Proof.
  intros Hx'. destruct (decide (k ∈ step_key <$> claimed)) as [Hin|Hin].
  - apply list_elem_of_fmap in Hin as (s & -> & Hs). rewrite (marked_at s Hs) in Hx'. unfold mark_live in Hx'.
    destruct (step_owner s) as [i|] eqn:Ho.
    + destruct (cl_owner _ _ _ _ Hcl s i Hs Ho) as (x & Hx & Hox & Hpx & _ & _ & Hdx). rewrite Hx in Hx'.
      change (is_some (Some i)) with true in Hx'. injection Hx' as <-. exists x. split_and!; try done.
      right. exists s. split_and!; congruence || done.
    + exists x'. split_and!; try done. by left.
  - rewrite (marked_off k Hin) in Hx'. exists x'. split_and!; try done. by left.
Qed.
Lemma marked_keep k x : m !! k = Some x →
  ∃ x', m' !! k = Some x' ∧ owner x' = owner x ∧ repair x' = repair x ∧ dropped x' = dropped x.
Proof.
  intros Hx. destruct (decide (k ∈ step_key <$> claimed)) as [Hin|Hin].
  - apply list_elem_of_fmap in Hin as (s & -> & Hs). rewrite (marked_at s Hs), Hx. unfold mark_live.
    destruct (is_some _); [by exists (mark_pending x)|by exists x].
  - rewrite (marked_off k Hin). by exists x.
Qed.
(** The mark does not count. *)
Lemma marked_count (f : Key → Live * bool → bool) :
  (∀ k x d, f k (mark_pending x, d) = f k (x, d)) →
  mcount f (resolve h m') = mcount f (resolve h m).
Proof.
  intros Hf. set (g := λ (s : Step) (v : option (Live * bool)),
    if is_some (step_owner s) then (λ xd : Live * bool, (mark_pending xd.1, xd.2)) <$> v else v).
  assert (resolve h m' = alter_each step_key g (resolve h m) claimed) as ->.
  { apply map_eq. intros k. rewrite resolve_lookup. destruct (decide (k ∈ step_key <$> claimed)) as [Hin|Hin].
    - apply list_elem_of_fmap in Hin as (s & -> & Hs). rewrite (marked_at s Hs).
      rewrite (alter_each_eq step_key g _ claimed s Hkeys Hs). rewrite resolve_lookup.
      unfold mark_live, g. by destruct (is_some _), (m !! step_key s).
    - rewrite (marked_off k Hin), alter_each_ne by done. by rewrite resolve_lookup. }
  unfold mcount. rewrite msum_alter_each by done.
  rewrite (sum_by_ext _ (λ _, 0)), sum_by_const; [lia|]. intros s _. unfold g.
  destruct (is_some _); [|lia]. destruct (resolve h m !! step_key s) as [[x d]|]; cbn; [rewrite Hf|]; lia.
Qed.
Lemma prepared_publication : publication o = None.
Proof. by eapply Inv_no_publication. Qed.
Lemma ready_counts t : counts_of st' t =
  if decide (t ∈ tc_tenant <$> ts) then with_pins (pins (counts_of st t) + 1) (counts_of st t)
  else counts_of st t.
Proof.
  unfold counts_of, ready_state. cbn [tenants set_publication set_executions set_tenants]. unfold pinned_tenants.
  destruct (decide (t ∈ tc_tenant <$> ts)) as [Hin|Hin]; [|by rewrite alter_each_ne].
  apply list_elem_of_fmap in Hin as (tc & -> & Htc).
  pose proof (alter_each_eq tc_tenant (λ (_ : TenantChange) v, (λ c, with_pins (pins c +% 1) c) <$> v)
    (tenants st) ts tc (re_keys _ _ _ Hre) Htc) as Hal. rewrite Hal.
  destruct (re_change _ _ _ Hre tc Htc) as ([c Hc] & _ & Hp). unfold counts_of in Hp. rewrite Hc in *. cbn in *.
  pose proof (led_pins _ _ _ Hl (tc_tenant tc)) as Hlp. pose proof (pinned_bounds o (tc_tenant tc)).
  pose proof (mcount_nonneg (named (tc_tenant tc)) (count_pins o)). unfold counts_of in Hlp. rewrite Hc in Hlp. cbn in Hlp.
  by rewrite wrapping_add_exact by lia.
Qed.
Lemma ready_present t : is_Some (tenants st !! t) → is_Some (tenants st' !! t).
Proof.
  intros Hs. cbn. unfold pinned_tenants.
  destruct (decide (t ∈ tc_tenant <$> ts)) as [Hin|Hin]; [|by rewrite alter_each_ne].
  apply list_elem_of_fmap in Hin as (tc & -> & Htc).
  pose proof (alter_each_eq tc_tenant (λ (_ : TenantChange) v, (λ c, with_pins (pins c +% 1) c) <$> v)
    (tenants st) ts tc (re_keys _ _ _ Hre) Htc) as Hal. rewrite Hal.
  by apply fmap_is_Some.
Qed.
Lemma ready_ledger : Ledger st' h o'.
Proof.
  constructor; change (executions st') with m'.
  - intros t. rewrite ready_counts. unfold tally. change (executions st') with m'.
    rewrite !marked_count by done. change (unbound_of h o' t) with (unbound_of h o t).
    pose proof (led_tally _ _ _ Hl t) as Ht. unfold tally in Ht.
    assert (pinned o t = 0) as Hp0 by (unfold pinned; by rewrite prepared_publication).
    pose proof (led_pins _ _ _ Hl t) as Hlp.
    change (pinned o' t) with (of_bool (bool_decide (t ∈ tc_tenant <$> ts))).
    destruct (decide (t ∈ tc_tenant <$> ts)) as [Hin|Hin].
    + rewrite bool_decide_eq_true_2 by done. autorewrite with bitrouter. rewrite Ht. unfold with_pins. cbn.
      f_equal. lia.
    + rewrite bool_decide_eq_false_2 by done. rewrite Ht. cbn. f_equal. lia.
  - rewrite marked_count by done. exact (led_active _ _ _ Hl).
  - rewrite marked_count by done. exact (led_live _ _ _ Hl).
  - rewrite marked_count by done. exact (led_uncovered _ _ _ Hl).
  - rewrite marked_count by done. exact (led_reserved _ _ _ Hl).
  - exact (led_repair_reserved _ _ _ Hl).
  - exact (led_repair_live _ _ _ Hl).
  - rewrite marked_count by done. exact (led_repair_rows _ _ _ Hl).
  - intros t. rewrite marked_count by done. exact (led_repair_of _ _ _ Hl t).
  - exact (led_learning _ _ _ Hl).
  - exact (led_ingress _ _ _ Hl).
  - exact (led_ingress_bytes _ _ _ Hl).
  - exact (led_writes _ _ _ Hl).
Qed.
Lemma ready_links : Links st' h (fr + 1) o'.
Proof.
  destruct Hk. constructor; change (executions st') with m'; cbn [leases repairing uploads writers set_owed];
    change (queue st') with (queue st); try done.
  - intros k x' Hx'. destruct (marked_inv k x' Hx') as (x & Hx & -> & _). destruct (lk_exec k x Hx). split; [done|lia].
  - intros k1 k2 x1' x2' H1 H2 Heq. destruct (marked_inv k1 x1' H1) as (x1 & Hx1 & Ho1 & _).
    destruct (marked_inv k2 x2' H2) as (x2 & Hx2 & Ho2 & _). eapply lk_inj; [exact Hx1|exact Hx2|congruence].
  - intros i His. specialize (lk_fresh i His). lia.
  - intros i t Hit. destruct (lk_lease i t Hit) as [Hlt Hle]. split; [lia|].
    destruct (c_execution (completion h i)) as [e|]; [|done].
    destruct Hle as (x & Hx & Hox & Hrx & Hdx). destruct (marked_keep _ x Hx) as (x' & ? & ? & ? & ?).
    exists x'. split_and!; congruence.
  - intros k x' Hx' Hrx Hdx. destruct (marked_inv k x' Hx') as (x & Hx & -> & Hr' & Hd' & _).
    apply lk_owner; congruence.
  - intros k x' Hx'. destruct (marked_inv k x' Hx') as (x & Hx & Ho & Hr' & Hd' & _ & Hcase).
    destruct (lk_flags k x Hx) as [Hdone Hdrop]. destruct Hcase as [->|(s & _ & _ & _ & Hp & Hdn)]; [done|].
    rewrite Ho, Hr', Hd', Hdn. split; [done|]. intros Hdr. destruct (Hdrop Hdr). congruence.
  - intros g' r Hg. destruct (lk_repair g' r Hg) as (? & ? & ? & Hall). split_and!; try done.
    intros k Hin. destruct (Hall k Hin) as (Ht & x & Hx & Hrx). split; [done|].
    destruct (marked_keep k x Hx) as (x' & ? & _ & ? & _). exists x'. split; congruence.
  - destruct lk_queue as [? Hq]. split; [done|]. intros w Hw. specialize (Hq w Hw). lia.
Qed.
(** The tenant of an owner that a step claims is resident. *)
Lemma claimed_resident s i : s ∈ claimed → step_owner s = Some i → key_tenant (step_key s) ∈ tc_tenant <$> ts.
Proof.
  intros Hs Ho. apply (re_all _ _ _ Hre); [apply (cl_tenants _ _ _ _ Hcl); by exists s|].
  destruct (cl_owner _ _ _ _ Hcl s i Hs Ho) as (x & Hx & Hox & _ & _ & _ & Hdx).
  set (t := key_tenant (step_key s)).
  assert (resolve h m !! step_key s = Some (x, false)) as Hv.
  { rewrite resolve_lookup, Hx. cbn. by rewrite Hox, Hdx. }
  apply counts_present. intros He. destruct (repair x) eqn:Hrx.
  - pose proof (led_repairs _ _ _ Hl t) as Hlr. rewrite <-(led_repair_of _ _ _ Hl t), He in Hlr. cbn in Hlr.
    assert (of_tenant t is_repair (step_key s) (x, false) = true) as Hf.
    { unfold of_tenant. by rewrite bool_decide_eq_true_2. }
    pose proof (mcount_pos (of_tenant t is_repair) _ _ _ Hv Hf). lia.
  - pose proof (led_c_active _ _ _ Hl t) as Hla. rewrite He in Hla. cbn in Hla.
    assert (of_tenant t is_ordinary (step_key s) (x, false) = true) as Hf.
    { unfold of_tenant, is_ordinary. rewrite bool_decide_eq_true_2 by done. cbn. by rewrite Hrx. }
    pose proof (mcount_pos (of_tenant t is_ordinary) _ _ _ Hv Hf). pose proof (unbound_of_nonneg h o t). lia.
Qed.
Lemma ready_pending : Pending_ st' h o'.
Proof.
  assert (∀ t, c_unknown (counts_of st' t) = c_unknown (counts_of st t)) as Hu.
  { intros t. rewrite ready_counts. by destruct (decide _). }
  constructor; [done| |].
  - intros p [= <-]. constructor; try done.
    + exact (re_keys _ _ _ Hre).
    + intros s i Hs Ho. change (executions st') with m'. cbn [pub_tenants prepared].
      destruct (cl_owner _ _ _ _ Hcl s i Hs Ho) as (x & Hx & Hox & Hp & Hc & Hrep & Hd).
      split; [|split; [done|by eapply claimed_resident]].
      exists (mark_pending x). rewrite (marked_at s Hs), Hx. unfold mark_live. by rewrite Ho.
    + intros tc Htc. destruct (re_change _ _ _ Hre tc Htc) as (Hs & Hd & _).
      pose proof (cl_deltas _ _ _ _ Hcl (tc_tenant tc)) as Hcd. rewrite Hd in Hcd. cbn in Hcd. injection Hcd as Hd1 Hd2.
      split_and!; [by apply ready_present|done|done|]. intros n. rewrite Hu. by apply Hfit.
    + intros s Hs Hn. rewrite Hu. unfold counts_of.
      destruct (tenants st !! key_tenant (step_key s)) as [c|] eqn:Hc; [|done].
      destruct Hn. apply (re_all _ _ _ Hre); [apply (cl_tenants _ _ _ _ Hcl); by exists s|by eexists].
  - intros k x' Hx' Hp. destruct (marked_inv k x' Hx') as (x & Hx & Ho & _ & _ & _ & [->|(s & Hs & Hsk & Hso & _)]).
    + destruct (pe_pending _ _ _ (inv_pending _ _ _ _ _ Hi) k x Hx Hp) as (p & _ & Hpub & _).
      by rewrite prepared_publication in Hpub.
    + exists prepared, s. split_and!; try done. by rewrite Ho.
Qed.
Lemma Inv_prepared : fenced (receipts st) = false → Inv adm st' h (fr + 1) o'.
Proof.
  intros Hfn. split; [apply ready_ledger|apply ready_links|apply ready_pending| |].
  - intros _. destruct (inv_coherent _ _ _ _ _ Hi Hfn). constructor; [done| |].
    + intros t n. rewrite ready_counts. destruct (decide _); apply co_tenant.
    + intros p s [= <-]. apply Hbef.
  - destruct Hr. constructor; try done.
    + intros t. rewrite ready_counts. destruct (decide (t ∈ tc_tenant <$> ts)) as [Hin|]; [|done].
      apply list_elem_of_fmap in Hin as (tc & -> & Htc). cbn.
      by destruct (re_change _ _ _ Hre tc Htc) as (_ & _ & ?).
    + intros t. rewrite ready_counts. destruct (decide _); apply ra_repairs.
    + intros t n. rewrite ready_counts. destruct (decide _); apply ra_fence.
Qed.
End prepared.

(** A prepared publication, with the obligations that hold before its transaction. *)
Lemma prepare_unknown_ok adm (w : World) o read planned w' p :
  WInv adm w o →
  (unknown_generation (state w) = read_generation read → Planned_steps (obligations o) planned) →
  prepare_change read planned w = (w', Ok p) →
  WInv adm w' (set_owed (Some p) (obligations o) o) ∧ fresh w' = fresh w + 1 ∧
  queue (state w') = queue (state w) ∧ publication_pending (state w') = Some (token p).
Proof.
  intros Hi Hpl Hw. unfold prepare_change in Hw. apply attempt_ok in Hw. unfold check_read in Hw.
  destruct (ensure (bool_decide (publication_pending (state w) = None) && _) _) as [|] eqn:Hrd; cbn in Hw; [|done].
  destruct (ensure (negb (fenced _)) _) as [|] eqn:Hfn; cbn in Hw; [|done].
  destruct (try_fold (claim_next _ _) _ _) as [[claimed deltas]|] eqn:Hc; cbn in Hw; [|done].
  destruct (try_fold (resident _) _ _) as [changes|] eqn:Hres; cbn in Hw; [|done].
  destruct (calculate _ _ _ _) as [[[ts next] act]|] eqn:Hcalc; cbn in Hw; [|done].
  injection Hw as <- <-. res_inv. arith.
  match goal with H : unknown_generation _ = read_generation _ |- _ => rename H into Hcur end.
  destruct (claim_ok _ _ _ _ _ _ Hc (Hpl Hcur)) as (Hcl & Hkeys & Hbytes & Hbef).
  destruct (calculate_inv _ _ _ _ _ _ Hcalc) as (Hgen & Hsame & Hfit & Hunk & Hby). cbn in Hsame, Hfit, Hunk, Hby.
  pose proof (Residents_same _ _ _ _ Hsame (resident_ok _ _ _ Hres)) as Hre.
  rewrite mark_steps_eq, pin_tenants_eq, <-Hcur. split; [|done].
  apply (Inv_prepared adm (state w) (arcs w) (fresh w) o Hi ltac:(done) claimed deltas ts Hcl Hkeys Hbytes Hbef Hre);
    try done.
  intros tc Htc n Hn. destruct (same_elem _ _ _ Hsame Htc) as (tc' & Htc' & Ht & Hd & _).
  rewrite Hd. apply Hfit; [done|by rewrite <-Ht].
Qed.
