(* ===== verification/TenancyInvariant.v ===== *)
(** Every call of tenant admission keeps the ledger exact: the invariant of the whole system of
    [TenancySystem], by cases on the calls. *)
From stdpp Require Import base list strings gmap sorting.
From Stdlib Require Import ZArith Lia.
From S2P Require Import Prelude MapSum TenancyCapacity TenancyState TenancyAdmission TenancyUnknown TenancySystem TenancyLedger TenancyLease TenancyRepair TenancyPublish TenancySettle TenancyPrepare.
Open Scope Z_scope.
#[local] Arguments countb : simpl never.
#[local] Arguments sum_by : simpl never.
#[local] Arguments msum : simpl never.
#[local] Arguments mcount : simpl never.
#[local] Arguments resolve : simpl never.
#[local] Arguments pinned : simpl never.

(** ** The invariant of the system *)

(** The waiting calls: their identities, the ones in the queue, and that the waiter that may enter
    next is not asleep without a permit. *)
Record Waits (adm : Admission) (w : World) (fs : Futures) : Prop := {
  wa_id i f : fs !! i = Some f → waiter_id (f_waiter f) = i ∧ i < fresh w;
  wa_queue x : x ∈ queue (state w) → ∃ f, fs !! waiter_id x = Some f ∧ f_waiter f = x;
  wa_next x : next_eligible (state w) (profile adm) = Some x →
    ∃ f, fs !! waiter_id x = Some f ∧ f_waiter f = x ∧ (phase f = Parked → permit f = true) }.
Record SInv (adm : Admission) (S : Sys) : Prop := {
  si_world : WInv adm (world S) (owners S);
  si_flag : fenced (receipts (state (world S))) = true → receipt_fenced (world S) = true;
  si_closed : closed (state (world S)) = true → queue (state (world S)) = [];
  si_waits : Waits adm (world S) (futures S) }.

(** ** [update] *)

Section update.
Context (adm : Admission) (Hb : Budgets adm).
Implicit Types (w : World) (o : Owners) (e : Env).

(** What the closure sees, compared with the state before the call. *)
Record Begun w w1 : Prop := {
  be_arcs : arcs w1 = arcs w; be_fresh : fresh w1 = fresh w;
  be_flag : receipt_fenced w1 = receipt_fenced w;
  be_generation : unknown_generation (state w1) = unknown_generation (state w);
  be_publication : publication_pending (state w1) = publication_pending (state w);
  be_queue x : x ∈ queue (state w1) → x ∈ queue (state w);
  be_fenced : fenced (receipts (state w)) = true → fenced (receipts (state w1)) = true;
  be_closed : closed (state w) = true → closed (state w1) = true }.
(** What [update] adds to the state that the closure leaves. *)
Record Ended w2 w' (wake : list Waiter) : Prop := {
  en_fresh : fresh w' = fresh w2;
  en_flag : fenced (receipts (state w')) = true → receipt_fenced w' = true;
  en_mono : receipt_fenced w2 = true → receipt_fenced w' = true;
  en_receipts : receipts (state w') = receipts (state w2);
  en_same : closed (state w') = closed (state w2);
  en_generation : unknown_generation (state w') = unknown_generation (state w2);
  en_publication : publication_pending (state w') = publication_pending (state w2);
  en_closed : closed (state w') = true → queue (state w') = [];
  en_queue x : x ∈ queue (state w') → x ∈ queue (state w2);
  en_next x : next_eligible (state w') (profile adm) = Some x → x ∈ queue (state w2) ∧ x ∈ wake }.

Lemma unqueue_fields st t :
  queue (unqueue st t) = queue st ∧ receipts (unqueue st t) = receipts st ∧
  publication_pending (unqueue st t) = publication_pending st ∧
  unknown_generation (unqueue st t) = unknown_generation st ∧ closed (unqueue st t) = closed st.
Proof.
  unfold unqueue. destruct (idle_fields (get_mut st t (λ c, with_queued (queued c -% 1) c)) t)
    as (_ & -> & -> & -> & -> & _ & _ & _ & _ & ->). done.
Qed.
Lemma expire_fields st now :
  let st' := (expire st now).1 in
  (∀ x, x ∈ queue st' → x ∈ queue st) ∧ receipts st' = receipts st ∧
  publication_pending st' = publication_pending st ∧
  unknown_generation st' = unknown_generation st ∧ closed st' = closed st.
Proof.
  cbv zeta. unfold expire.
  assert (∀ fuel st i wake st' wake', expire_loop fuel now st i wake = Some (st', wake') →
    (∀ x, x ∈ queue st' → x ∈ queue st) ∧ receipts st' = receipts st ∧
    publication_pending st' = publication_pending st ∧
    unknown_generation st' = unknown_generation st ∧ closed st' = closed st) as Hloop.
  { clear. induction fuel as [|fuel IH]; intros st i wake st' wake'; cbn; [done|].
    destruct (queue st !! i) as [x|] eqn:Hx; [|by intros [= <- <-]].
    destruct (deadline x <=? now); [|by apply IH]. intros Hl.
    destruct (IH _ _ _ _ _ Hl) as (Hq & -> & -> & -> & ->).
    destruct (unqueue_fields (set_queue st (delete i (queue st))) (w_tenant x)) as (Hq' & -> & -> & -> & ->).
    split_and!; try done. intros y Hy. specialize (Hq y Hy). rewrite Hq' in Hq. cbn in Hq.
    assert (queue st ≡ₚ x :: delete i (queue st)) as -> by (by apply delete_Permutation). by right. }
  generalize (S (length (queue st))) as fuel. intros fuel.
  destruct (expire_loop _ _ _ _ _) as [[st' wake]|] eqn:He; cbn; [|by split_and!]. exact (Hloop _ _ _ _ _ _ He).
Qed.
Lemma pop_all_fields st q :
  receipts (pop_all st q) = receipts st ∧ publication_pending (pop_all st q) = publication_pending st ∧
  unknown_generation (pop_all st q) = unknown_generation st ∧ closed (pop_all st q) = closed st ∧
  (queue st = q → queue (pop_all st q) = []).
Proof.
  revert st. induction q as [|x q IH]; intros st; cbn; [done|].
  destruct (IH (unqueue (set_queue st q) (w_tenant x))) as (-> & -> & -> & -> & Hq).
  destruct (unqueue_fields (set_queue st q) (w_tenant x)) as (Hq' & -> & -> & -> & ->).
  split_and!; try done. intros _. by apply Hq.
Qed.
Lemma begin_ok e w o w1 wake :
  update_begin e w = (w1, wake) → env_ok e → WInv adm w o → WInv adm w1 o ∧ Begun w w1.
Proof.
  unfold update_begin. destruct (expire _ _) as [st wake'] eqn:He. intros [= <- <-] Hok Hi.
  set (w0 := lock w) in *.
  assert (WInv adm w0 o ∧ arcs w0 = arcs w ∧ fresh w0 = fresh w ∧ receipt_fenced w0 = receipt_fenced w ∧
    unknown_generation (state w0) = unknown_generation (state w) ∧
    publication_pending (state w0) = publication_pending (state w) ∧ queue (state w0) = queue (state w) ∧
    (fenced (receipts (state w)) = true → fenced (receipts (state w0)) = true) ∧
    (closed (state w) = true → closed (state w0) = true))
    as (Hi0 & Ha & Hf & Hfl & Hg & Hp & Hq & Hfn & Hcl).
  { unfold w0, lock. destruct (poisoned w); [|by split_and!]. split_and!; try done.
    by apply Inv_fence, Inv_closed. }
  set (st0 := set_receipts (state w0) (refresh_free (volumes e) (receipts (state w0)))) in *.
  assert (Inv adm st0 (arcs w0) (fresh w0) o) as Hi1.
  { apply Inv_receipts; [exact Hi0|apply refresh_free_custody|].
    apply refresh_free_wf; [done|]. apply (ra_accounting _ _ (inv_ranges _ _ _ _ _ Hi0)). }
  pose proof (expire_fields st0 (expire_now e)) as Hex. cbv zeta in Hex. rewrite He in Hex. cbn in Hex.
  destruct Hex as (Hq1 & Hre & Hpp & Hgg & Hcc).
  split.
  - pose proof (Inv_expire adm Hb st0 _ _ _ (expire_now e) Hi1) as Hi2. rewrite He in Hi2. exact Hi2.
  - constructor; cbn; try done; rewrite ?Hgg, ?Hpp, ?Hcc, ?Hre; try done.
    + intros x Hx. rewrite <-Hq. by apply Hq1.
    + intros H. apply (refresh_free_totals (volumes e) (receipts (state w0))). by apply Hfn.
Qed.
Lemma end_fields w2 wake w' wake' d :
  update_end (profile adm) w2 wake = (w', wake', d) → Ended w2 w' wake'.
Proof.
  intros Hu. unfold update_end in Hu.
  destruct (closed (state w2)) eqn:Hcl.
  - destruct (pop_all_fields (state w2) (queue (state w2))) as (Hre & Hpp & Hg & Hc & Hq). specialize (Hq eq_refl).
    injection Hu as <- <- _. cbn [state set_state].
    destruct (fenced _) eqn:Hf.
    all: constructor; cbn; rewrite ?Hre, ?Hpp, ?Hg, ?Hc, ?Hq; try done; try congruence.
    1, 3: intros x Hx; by apply elem_of_nil in Hx.
    all: unfold next_eligible; rewrite Hc, Hcl; done.
  - injection Hu as <- <- _. assert (set_state w2 (state w2) = w2) as -> by (by destruct w2).
    assert (∀ x, next_eligible (state w2) (profile adm) = Some x →
      x ∈ queue (state w2) ∧ x ∈ wake ++ option_list (next_eligible (state w2) (profile adm))) as Hn.
    { intros x Hx. rewrite Hx. split; [|set_solver]. by destruct (next_eligible_ready adm _ _ Hx). }
    destruct (fenced _) eqn:Hf; constructor; cbn; try done; congruence.
Qed.
Lemma end_ok w2 o wake w' wake' d :
  update_end (profile adm) w2 wake = (w', wake', d) → WInv adm w2 o → WInv adm w' o.
Proof.
  intros Hu Hi. unfold update_end in Hu. destruct (closed (state w2)) eqn:Hcl; injection Hu as <- _ _.
  - assert (WInv adm (set_state w2 (pop_all (state w2) (queue (state w2)))) o) as Hi'.
    { apply (Inv_pop_all adm Hb (state w2) (arcs w2) (fresh w2) o (queue (state w2)) Hi eq_refl). }
    by destruct (fenced _).
  - assert (set_state w2 (state w2) = w2) as -> by (by destruct w2). by destruct (fenced _).
Qed.
Lemma update_ok {A} e w o (change : World → World * A) w' a wake d :
  update adm e w change = (w', a, wake, d) → env_ok e → WInv adm w o →
  ∃ w1 w2, w1 = (update_begin e w).1 ∧ WInv adm w1 o ∧ Begun w w1 ∧ change w1 = (w2, a) ∧
    Ended w2 w' wake ∧ ∀ o', WInv adm w2 o' → WInv adm w' o'.
Proof.
  unfold update. intros Hu He Hi. destruct (update_begin e w) as [w1 wk] eqn:Hbg.
  destruct (change w1) as [w2 r] eqn:Hch. destruct (update_end _ w2 wk) as [[w3 wk3] d3] eqn:Hen.
  injection Hu as <- <- <- <-. destruct (begin_ok _ _ _ _ _ Hbg He Hi) as [Hi1 Hbe].
  exists w1, w2. split_and!; try done; [by eapply end_fields|]. intros o' Hi2. by eapply end_ok.
Qed.
End update.

(** ** Notifications, and the effect of an answer *)

Lemma notify_lookup wake (fs : Futures) i :
  notify wake fs !! i =
    (λ f, if bool_decide (i ∈ waiter_id <$> wake) then set_permit true f else f) <$> fs !! i.
Proof.
  unfold notify. revert fs. induction wake as [|x wake IH]; intros fs; cbn [foldl fmap list_fmap].
  - destruct (fs !! i); cbn; [|done]. by rewrite bool_decide_eq_false_2 by apply not_elem_of_nil.
  - rewrite IH. destruct (decide (i = waiter_id x)) as [->|Hne].
    + rewrite lookup_alter_eq. destruct (fs !! waiter_id x) as [f|]; cbn; [|done].
      rewrite (bool_decide_eq_true_2 (waiter_id x ∈ waiter_id x :: _)) by left. by case_bool_decide.
    + rewrite lookup_alter_ne by done. destruct (fs !! i) as [f|]; cbn; [|done]. f_equal.
      assert (bool_decide (i ∈ waiter_id x :: (waiter_id <$> wake)) = bool_decide (i ∈ waiter_id <$> wake)) as ->; [|done].
      apply bool_decide_ext. rewrite elem_of_cons. tauto.
Qed.

Section commit.
Context (adm : Admission) (Hb : Budgets adm).
Implicit Types (w : World) (o : Owners) (e : Env) (S : Sys).

(** The futures that a closure's answer meets. *)
Record Met S w1 (fs : Futures) : Prop := {
  me_id i f : fs !! i = Some f → waiter_id (f_waiter f) = i ∧ i < fresh w1;
  me_queue x : x ∈ queue (state w1) → ∃ f, fs !! waiter_id x = Some f ∧ f_waiter f = x;
  me_same i f : futures S !! i = Some f → ∃ f', fs !! i = Some f' ∧ f_waiter f' = f_waiter f ∧ phase f' = phase f }.
(** The futures after it. *)
Record Kept w2 (fs fs' : Futures) : Prop := {
  ke_id i f : fs' !! i = Some f → waiter_id (f_waiter f) = i ∧ i < fresh w2;
  ke_queue x : x ∈ queue (state w2) → ∃ f', fs' !! waiter_id x = Some f' ∧ f_waiter f' = x ∧
    (phase f' = Parked → ∃ f, fs !! waiter_id x = Some f ∧ permit f' = permit f) }.

Lemma commit_inv {A} e S (change : World → World * A) k ff fo :
  env_ok e → SInv adm S →
  (∀ a S, k a S = {| world := world S; futures := ff a (futures S); owners := fo a (owners S) |}) →
  (∀ w1 w2 a, WInv adm w1 (owners S) → Begun (world S) w1 → change w1 = (w2, a) →
    WInv adm w2 (fo a (owners S)) ∧ ∀ fs, Met S w1 fs → Kept w2 fs (ff a fs)) →
  SInv adm (commit S (update adm e (world S) change) k).
Proof.
  intros He [Hi Hfl Hcl [Hid Hq Hnx]] Hk Hch.
  destruct (update adm e (world S) change) as [[[w' a] wake] d] eqn:Hu.
  destruct (update_ok adm Hb _ _ _ _ _ _ _ _ Hu He Hi) as (w1 & w2 & _ & Hi1 & Hbe & Hc & Hen & Hend).
  destruct (Hch w1 w2 a Hi1 Hbe Hc) as [Hi2 Hff]. specialize (Hend _ Hi2) as Hi'.
  unfold commit. rewrite Hk. cbn [world futures owners].
  set (fs := notify wake (futures S)).
  assert (Met S w1 fs) as Hmet.
  { constructor.
    - intros i f Hf. unfold fs in Hf. rewrite notify_lookup in Hf. apply fmap_Some in Hf as (f0 & Hf & ->).
      rewrite (be_fresh _ _ Hbe). specialize (Hid i f0 Hf). by case_bool_decide.
    - intros x Hx. destruct (Hq x (be_queue _ _ Hbe x Hx)) as (f & Hf & Hfx).
      unfold fs. rewrite notify_lookup, Hf. cbn. eexists. split; [done|]. by case_bool_decide.
    - intros i f Hf. unfold fs. rewrite notify_lookup, Hf. cbn. eexists. split; [done|]. by case_bool_decide. }
  destruct (Hff fs Hmet) as [Kid Kq]. constructor; cbn [world futures owners]; try done.
  - apply (en_flag _ _ _ _ Hen).
  - apply (en_closed _ _ _ _ Hen).
  - constructor.
    + intros i f Hf. rewrite (en_fresh _ _ _ _ Hen). by apply Kid.
    + intros x Hx. destruct (Kq x (en_queue _ _ _ _ Hen x Hx)) as (f & ? & ? & _). by exists f.
    + intros x Hx. destruct (en_next _ _ _ _ Hen x Hx) as [Hx2 Hw].
      destruct (Kq x Hx2) as (f' & Hf' & Hfx & Hpk). exists f'. split_and!; [done|done|].
      intros Hp. destruct (Hpk Hp) as (f & Hf & ->). unfold fs in Hf. rewrite notify_lookup in Hf.
      apply fmap_Some in Hf as (f0 & _ & ->). rewrite bool_decide_eq_true_2; [done|]. by apply list_elem_of_fmap_2.
Qed.
(** A call that leaves the futures alone and adds nobody to the queue. *)
Lemma commit_owners {A} e S (change : World → World * A) k fo :
  env_ok e → SInv adm S →
  (∀ a S, k a S = {| world := world S; futures := futures S; owners := fo a (owners S) |}) →
  (∀ w1 w2 a, WInv adm w1 (owners S) → Begun (world S) w1 → change w1 = (w2, a) →
    WInv adm w2 (fo a (owners S)) ∧ fresh w1 ≤ fresh w2 ∧
    ∀ x, x ∈ queue (state w2) → x ∈ queue (state w1)) →
  SInv adm (commit S (update adm e (world S) change) k).
Proof.
  intros He Hi Hk Hch. apply (commit_inv e S change k (λ _ fs, fs) fo); [done..|].
  intros w1 w2 a H1 H2 H3. destruct (Hch w1 w2 a H1 H2 H3) as (Hi2 & Hfr & Hq). split; [done|].
  intros fs [Mid Mq _]. constructor.
  - intros i f Hf. destruct (Mid i f Hf). split; [done|lia].
  - intros x Hx. destruct (Mq x (Hq x Hx)) as (f & Hf & Hfx). exists f. split_and!; [done|done|]. by exists f.
Qed.
Lemma commit_refused {A} S c (k : A → Sys → Sys) :
  SInv adm S → SInv adm (commit S (world S, Err c, [], false) (on_ok k)).
Proof. intros Hi. destruct S. exact Hi. Qed.
(** The same, for a change that validates first. *)
Lemma attempt_owners {A} e S (f : World → result ErrorCode (World * A)) k fo :
  env_ok e → SInv adm S →
  (∀ a S, k a S = {| world := world S; futures := futures S; owners := fo a (owners S) |}) →
  (∀ w1 w2 a, WInv adm w1 (owners S) → Begun (world S) w1 → f w1 = Ok (w2, a) →
    WInv adm w2 (fo a (owners S)) ∧ fresh w1 ≤ fresh w2 ∧
    ∀ x, x ∈ queue (state w2) → x ∈ queue (state w1)) →
  SInv adm (commit S (update adm e (world S) (attempt f)) (on_ok k)).
Proof.
  intros He Hi Hk Hch. apply (commit_owners e S (attempt f) (on_ok k)
    (λ r o, match r with Ok a => fo a o | Err _ => o end)); [done..| |].
  - intros [a|c] S'; cbn; [apply Hk|by destruct S'].
  - intros w1 w2 [a|c] H1 H2 H3.
    + apply attempt_ok in H3. by apply Hch.
    + apply attempt_err in H3 as ->. split_and!; [done|lia|done].
Qed.
End commit.

(** ** Uploads, writers, inventories and shutdown *)

Section calls.
Context (adm : Admission) (Hb : Budgets adm).
Implicit Types (w : World) (o : Owners) (e : Env) (S : Sys).

(** What [exec] says of a call that only changes the accounting without custody. *)
Lemma WInv_receipts w o a :
  WInv adm w o → same_custody (receipts (state w)) a → Accounting_wf a →
  WInv adm (set_state w (set_receipts (state w) a)) o.
Proof. apply Inv_receipts. Qed.
Lemma WInv_fence w o : WInv adm w o → WInv adm (set_state w (fence_state (state w))) o.
Proof. apply Inv_fence. Qed.
Lemma WInv_wf w o : WInv adm w o → Accounting_wf (receipts (state w)).
Proof. intros Hi. apply (ra_accounting _ _ (inv_ranges _ _ _ _ _ Hi)). Qed.

Ltac call_start :=
  cbn [exec]; intros Hc; repeat (let H := fresh "Hcond" in
    match type of Hc with
    | (if ?b then _ else _) = Some _ => destruct b eqn:H; [|done]
    | (_ ≫= _) = Some _ => apply bind_Some in Hc as (? & ? & Hc)
    end); injection Hc as <-.

Lemma free_None {V} (m : gmap Z V) g : free_name m g = true → m !! g = None.
Proof. unfold free_name. intros Hf. apply eq_None_not_Some. intros Hs. apply negb_true_iff, bool_decide_eq_false in Hf. done. Qed.
Lemma exec_open_ingress g bytes e S S' :
  env_ok e → SInv adm S → exec adm (Open_ingress g bytes) e S = Some S' → SInv adm S'.
Proof.
  intros He Hi. call_start. arith. unfold open_ingress.
  destruct (MAX_INGRESS <? bytes); [by apply commit_refused|].
  apply (attempt_owners adm Hb e S _ _ (λ b o, set_uploads (<[g := b]> (uploads o)) o)); [done..|].
  intros w1 w2 b H1 H2 H3. cbn in H3. res_inv. arith. split; [|split; [cbn; lia|done]].
  apply (Inv_open_ingress adm Hb); try done; [by apply free_None|by apply checked_add_Some].
Qed.
Lemma exec_close_ingress g e S S' :
  env_ok e → SInv adm S → exec adm (Close_ingress g) e S = Some S' → SInv adm S'.
Proof.
  intros He Hi. call_start.
  match goal with H : uploads _ !! g = Some ?b |- _ => rename H into Hg, b into bytes end.
  apply (commit_owners adm Hb e S _ _ (λ _ o, set_uploads (delete g (uploads o)) o)); [done..|].
  intros w1 w2 [] H1 H2 [= <-]. split; [by apply (Inv_close_ingress adm)|]. split; [cbn; lia|done].
Qed.
Lemma exec_begin_write g bytes maint e S S' :
  env_ok e → SInv adm S → exec adm (Begin_write g bytes maint) e S = Some S' → SInv adm S'.
Proof.
  intros He Hi. call_start. arith.
  apply (attempt_owners adm Hb e S _ _ (λ _ o, set_writers (<[g := bytes]> (writers o)) o)); [done..|].
  intros w1 w2 [] H1 H2 H3. cbn in H3. res_inv. unfold TenancyCapacity.reserve_physical_write in *. res_inv. arith.
  split; [|split; [cbn; lia|done]].
  pose proof (led_writes _ _ _ (inv_ledger _ _ _ _ _ H1)) as Hlw.
  pose proof (wf_writes _ (WInv_wf _ _ H1)) as Hww. destruct (Inv_sizes_ok _ _ _ _ _ H1) as [_ Hw].
  assert (writers (owners S) !! g = None) as Hnew by by apply free_None.
  apply (Inv_writes adm); [exact H1| | |].
  - rewrite msum_insert_new by done. rewrite Hlw. lia.
  - unfold in_u64 in *. lia.
  - intros g' b' [[<- <-]|[_ Hg']]%lookup_insert_Some; [done|by eapply Hw].
Qed.
Lemma exec_end_write g e S S' :
  env_ok e → SInv adm S → exec adm (End_write g) e S = Some S' → SInv adm S'.
Proof.
  intros He Hi. call_start.
  match goal with H : writers _ !! g = Some ?b |- _ => rename H into Hg, b into bytes end.
  apply (commit_owners adm Hb e S _ _ (λ _ o, set_writers (delete g (writers o)) o)); [done..|].
  intros w1 w2 r H1 H2 H3.
  pose proof (led_writes _ _ _ (inv_ledger _ _ _ _ _ H1)) as Hlw.
  pose proof (wf_writes _ (WInv_wf _ _ H1)) as Hww. destruct (Inv_sizes_ok _ _ _ _ _ H1) as [_ Hw].
  pose proof (msum_lookup_le (λ _ b, b) (writers (owners S)) g bytes Hw Hg) as Hle. cbn in Hle.
  pose proof (Hw g bytes Hg).
  unfold finish_physical_write, TenancyCapacity.finish_physical_write in H3. rewrite sub_ok in H3 by lia.
  injection H3 as <- <-. split; [|split; [cbn; lia|done]].
  apply (Inv_writes adm); [exact H1| | |].
  - rewrite msum_delete, Hg. cbn. lia.
  - unfold in_u64 in *. lia.
  - intros g' b' [_ Hg']%lookup_delete_Some. by eapply Hw.
Qed.
Lemma exec_archive bytes history e S S' :
  env_ok e → SInv adm S → exec adm (Archive bytes history) e S = Some S' → SInv adm S'.
Proof.
  intros He Hi. call_start. arith.
  apply (commit_owners adm Hb e S _ _ (λ _ o, o)); [done|done|by intros ? []|].
  intros w1 w2 r H1 H2 H3. unfold archive_receipt in H3.
  destruct (archived _ _ _) as [t|] eqn:Ht; injection H3 as <- <-; (split; [|split; [cbn; lia|done]]).
  - unfold archived in Ht. apply bind_Some in Ht as (n & Hn & Ht). apply bind_Some in Ht as (hb & Hhb & Ht).
    apply bind_Some in Ht as (hr & Hhr & Ht). injection Ht as <-. arith.
    apply WInv_receipts; [done| |].
    + unfold same_custody. cbn. split_and!; done || lia.
    + pose proof (WInv_wf _ _ H1) as [? ? [] ?]. constructor; try done. unfold in_u64 in *.
      constructor; cbn; unfold in_u64 in *; lia.
  - by apply WInv_fence.
Qed.
Lemma exec_initialize inventory f e S S' :
  env_ok e → SInv adm S → exec adm (Initialize inventory f) e S = Some S' → SInv adm S'.
Proof.
  intros He Hi. call_start. apply andb_true_iff in Hcond as [[Ht%Z.eqb_eq Hrg]%andb_true_iff Hf%bool_decide_eq_true].
  apply (commit_owners adm Hb e S _ _ (λ _ o, o)); [done|done|by intros ? []|].
  intros w1 w2 [[]|c] H1 H2 H3; unfold initialize_receipts in H3.
  - apply attempt_ok in H3. cbn in H3. destruct (ensure _ _) eqn:He1; cbn in H3; [|done].
    destruct (TenancyCapacity.initialize _ _ _) as [a0|] eqn:Ha; cbn in H3; [|done]. injection H3 as <-.
    res_inv. arith. split; [|split; [cbn; lia|done]]. by eapply (Inv_initialize adm).
  - apply attempt_err in H3 as ->. split_and!; [done|lia|done].
Qed.
Lemma exec_bind_volume v e S S' :
  env_ok e → SInv adm S → exec adm (Bind_volume v) e S = Some S' → SInv adm S'.
Proof.
  intros He Hi. call_start.
  apply (commit_owners adm Hb e S _ _ (λ _ o, o)); [done|done|by intros ? []|].
  intros w1 w2 r H1 H2 H3. unfold bind_receipt_volume, bind_volume in H3.
  assert (set_state w1 (set_receipts (state w1) (receipts (state w1))) = w1) as Hid by (by destruct w1 as [[]]).
  destruct (_ || _); injection H3 as <- <-; (split; [|split; [cbn; lia|done]]); [by rewrite Hid|].
  apply WInv_receipts; [done| |].
  - apply (refresh_free_custody (volumes e) (set_volume (receipts (state w1)) v)).
  - apply refresh_free_wf; [done|]. by destruct (WInv_wf _ _ H1).
Qed.
Lemma exec_probe f e S S' :
  env_ok e → SInv adm S → exec adm (Probe f) e S = Some S' → SInv adm S'.
Proof.
  intros He Hi. call_start. arith.
  apply (commit_owners adm Hb e S _ _ (λ _ o, o)); [done|done|by intros ? []|].
  intros w1 w2 r H1 H2 [= <- <-]. split; [|split; [cbn; lia|done]]. apply WInv_receipts; [done| |].
  - unfold observed_free, same_custody. destruct (is_some _); split_and!; done || lia.
  - unfold observed_free. pose proof (WInv_wf _ _ H1) as Hwf. destruct (is_some _); [done|]. by destruct Hwf.
Qed.
(** Stopping, fencing and closing. *)
Lemma exec_stop c e S S' :
  c = Stop ∨ c = Fence_storage ∨ c = Close ∨ c = Abandon →
  env_ok e → SInv adm S → exec adm c e S = Some S' → SInv adm S'.
Proof.
  intros Hcs He Hi Hc.
  assert (∃ (change : World → World * unit), (∀ w1 w2 a, WInv adm w1 (owners S) → change w1 = (w2, a) →
      WInv adm w2 (owners S) ∧ fresh w1 ≤ fresh w2 ∧ queue (state w2) = queue (state w1)) ∧
    S' = commit S (update adm e (world S) change) (λ _, id)) as (change & Hch & ->).
  { destruct Hcs as [->|[->|[->| ->]]]; cbn [exec] in Hc.
    4: apply bind_Some in Hc as (? & _ & Hc).
    all: injection Hc as <-; eexists; split; [|reflexivity]; intros w1 w2 a H1 [= <- <-]; cbn; split_and!; try done; try lia.
    all: try (by apply WInv_fence). all: by apply Inv_closed. }
  apply (commit_owners adm Hb e S _ _ (λ _ o, o)); [done|done|by intros ? []|].
  intros w1 w2 a H1 _ H3. destruct (Hch w1 w2 a H1 H3) as (? & ? & ->). done.
Qed.

(** ** Acquiring, waiting and giving up *)

Lemma remove_queue st x y :
  y ∈ queue (remove st x) → y ∈ queue st ∧ (NoDup (waiter_id <$> queue st) → waiter_id y ≠ waiter_id x).
Proof.
  unfold remove. destruct (list_find _ _) as [[i z]|] eqn:Hf.
  - apply list_find_Some in Hf as (Hz & Hzx & _).
    destruct (unqueue_fields (set_queue st (delete i (queue st))) (w_tenant x)) as (-> & _). cbn.
    assert (queue st ≡ₚ z :: delete i (queue st)) as Hp by (by apply delete_Permutation).
    intros Hy. split; [rewrite Hp; by right|]. intros Hnd. rewrite Hp in Hnd. cbn in Hnd.
    apply NoDup_cons in Hnd as [Hn _]. rewrite Hzx in Hn. intros Heq. apply Hn. rewrite <-Heq.
    by apply list_elem_of_fmap_2.
  - intros Hy. split; [done|]. intros _ Heq. apply list_find_None in Hf.
    rewrite Forall_forall in Hf. by apply (Hf y Hy).
Qed.
Lemma Kept_same S w1 w2 fs :
  Met S w1 fs → fresh w1 ≤ fresh w2 → (∀ x, x ∈ queue (state w2) → x ∈ queue (state w1)) → Kept w2 fs fs.
Proof.
  intros [Mid Mq _] Hfr Hq. constructor.
  - intros i f Hf. destruct (Mid i f Hf). split; [done|lia].
  - intros x Hx. destruct (Mq x (Hq x Hx)) as (f & Hf & Hfx). exists f. split_and!; [done|done|]. by exists f.
Qed.
Lemma Kept_phase S w1 w2 fs i p :
  Met S w1 fs → fresh w1 ≤ fresh w2 → (∀ x, x ∈ queue (state w2) → x ∈ queue (state w1)) →
  Kept w2 fs (alter (set_phase p) i fs).
Proof.
  intros [Mid Mq _] Hfr Hq.
  assert (∀ j f, alter (set_phase p) i fs !! j = Some f → ∃ f0, fs !! j = Some f0 ∧
    f_waiter f = f_waiter f0) as Hal.
  { intros j f. destruct (decide (j = i)) as [->|Hne].
    - rewrite lookup_alter_eq. intros (f0 & Hf & ->)%fmap_Some. by exists f0.
    - rewrite lookup_alter_ne by done. by exists f. }
  constructor.
  - intros j f Hf. destruct (Hal j f Hf) as (f0 & Hf0 & ->). destruct (Mid j f0 Hf0). split; [done|lia].
  - intros x Hx. destruct (Mq x (Hq x Hx)) as (f & Hf & Hfx).
    destruct (decide (waiter_id x = i)) as [<-|Hne].
    + exists (set_phase p f). rewrite lookup_alter_eq, Hf. split_and!; [done|done|]. by exists f.
    + exists f. rewrite lookup_alter_ne by done. split_and!; [done|done|]. by exists f.
Qed.
(** The waiter in the queue with the identity of a future is the future's. *)
Lemma waiter_unique S w1 i f :
  SInv adm S → Begun (world S) w1 → futures S !! i = Some f →
  ∀ x, x ∈ queue (state w1) → waiter_id x = waiter_id (f_waiter f) → x = f_waiter f.
Proof.
  intros Hi Hbe Hf x Hx Heq. destruct (si_waits _ _ Hi) as [Hid Hq _].
  destruct (Hid i f Hf) as [Hfi _]. destruct (Hq x (be_queue _ _ Hbe x Hx)) as (f' & Hf' & <-).
  rewrite Heq, Hfi, Hf in Hf'. by injection Hf' as <-.
Qed.
Lemma WInv_grant w o t st' :
  WInv adm w o → State_reserve (state w) t = Ok st' → publication_pending (state w) = None →
  active (state w) < p_instance_active (profile adm) →
  WInv adm (grant t (set_state w st')).1 (set_leases (<[fresh w := t]> (leases o)) o).
Proof. intros Hi Hs Hn Ha. by apply (Inv_grant adm Hb (state w)). Qed.
Lemma State_reserve_queue st t st' : State_reserve st t = Ok st' → queue st' = queue st.
Proof.
  intros Hs. destruct (State_reserve_ok _ _ _ Hs) as (n & _ & _ & _ & a & _ & _ & Hq & _). done.
Qed.
Lemma register_ok t al ql dl now w w' r :
  register adm t al ql dl now w = (w', Ok r) →
  closed (state w) = false ∧ now < dl ∧ TenancyState.receipts_ready (state w) t = true ∧ al ≠ 0 ∧
  match r with
  | Active => may_enter adm (state w) t al = true ∧
      ∃ st', State_reserve (state w) t = Ok st' ∧ w' = set_state w st'
  | Queued q => may_enter adm (state w) t al = false ∧ queued (counts_of (state w) t) < ql ∧
      Z.of_nat (length (queue (state w))) < p_instance_queue (profile adm) ∧
      q = {| waiter_id := fresh w; w_tenant := t; active_limit := al; deadline := dl |} ∧
      w' = take_fresh (set_state w (set_queue
        (entry_update (state w) t (λ c, with_queued (queued c +% 1) c)) (queue (state w) ++ [q])))
  end.
Proof.
  intros Hr. unfold register in Hr. apply attempt_ok in Hr. cbn in Hr.
  apply bind_ok in Hr as ([] & Hc%ensure_ok & Hr). apply bind_ok in Hr as ([] & Hd%ensure_ok & Hr).
  apply bind_ok in Hr as ([] & Hrdy%ensure_ok & Hr). apply bind_ok in Hr as ([] & Hz%ensure_ok & Hr).
  destruct (may_enter _ _ _ _); res_inv; arith; split_and!; try done; try lia; by eexists.
Qed.
Lemma exec_acquire t limits rd now e S S' :
  env_ok e → SInv adm S → exec adm (Acquire t limits rd now) e S = Some S' → SInv adm S'.
Proof.
  intros He Hi. call_start.
  apply (commit_inv adm Hb e S _ _
    (λ r fs, match r with
             | Ok (inr q) => <[waiter_id q := {| f_waiter := q; phase := Polling; permit := false |}]> fs
             | _ => fs end)
    (λ r o, match r with
            | Ok (inl l) => set_leases (<[l_completion l := l_tenant l]> (leases o)) o | _ => o end));
    [done|done|by intros [[]|] []|].
  intros w1 w2 r H1 H2 H3. unfold enter in H3.
  destruct (register _ _ _ _ _ _ _) as [w0 [[|q]|c]] eqn:Hreg.
  - destruct (register_ok _ _ _ _ _ _ _ _ Hreg) as (_ & _ & Hrdy & _ & Hme & st' & Hs & ->).
    unfold may_enter in Hme. apply andb_true_iff in Hme as [[[_ Ha%Z.ltb_lt]%andb_true_iff _]%andb_true_iff _].
    injection H3 as <- <-. split.
    + apply WInv_grant; try done. by eapply receipts_ready_pending.
    + intros fs Hmet. apply (Kept_same S w1); [done|cbn; lia|]. cbn.
      intros x. by rewrite (State_reserve_queue _ _ _ Hs).
  - destruct (register_ok _ _ _ _ _ _ _ _ Hreg) as (_ & _ & _ & _ & _ & _ & Hlt & -> & ->).
    injection H3 as <- <-. split; [by apply (Inv_push adm Hb)|].
    intros fs [Mid Mq _]. cbn [waiter_id]. constructor; cbn.
    + intros i f [[<- <-]|[_ Hf]]%lookup_insert_Some; [cbn; split; [done|lia]|].
      destruct (Mid i f Hf). split; [done|lia].
    + intros x [Hx| ->%list_elem_of_singleton]%elem_of_app.
      * destruct (Mq x Hx) as (f & Hf & Hfx). exists f.
        destruct (Mid _ _ Hf). rewrite lookup_insert_ne by lia. split_and!; [done|done|]. by exists f.
      * cbn. rewrite lookup_insert_eq. eexists. split_and!; [done|done|done].
  - unfold register in Hreg. apply attempt_err in Hreg as ->. injection H3 as <- <-. split; [done|].
    intros fs Hmet. by apply (Kept_same S w1).
Qed.
Lemma exec_try_acquire t limits dl e S S' :
  env_ok e → SInv adm S → exec adm (Try_acquire t limits dl) e S = Some S' → SInv adm S'.
Proof.
  intros He Hi. call_start.
  apply (attempt_owners adm Hb e S _ _ (λ l o, set_leases (<[l_completion l := l_tenant l]> (leases o)) o)); [done..|].
  intros w1 w2 l H1 H2 H3. cbn in H3. res_inv.
  match goal with H : negb (_ || _) = true |- _ => apply negb_true_iff in H; rename H into Hor end.
  apply orb_false_iff in Hor as [[_ Hrdy]%orb_false_iff Hme].
  apply negb_false_iff in Hrdy, Hme. unfold may_enter in Hme. arith.
  match goal with H : State_reserve _ _ = Ok _ |- _ => rename H into Hs end. split_and!.
  - apply WInv_grant; try done. by eapply receipts_ready_pending.
  - cbn. lia.
  - cbn. intros x. by rewrite (State_reserve_queue _ _ _ Hs).
Qed.
Lemma poll_ok waiter now w w' r :
  poll adm waiter now w = (w', r) →
  (∃ c, r = Err c ∧ w' = w) ∨ (r = Ok false ∧ w' = w ∧
     ∀ x, next_eligible (state w) (profile adm) = Some x → waiter_id x ≠ waiter_id waiter) ∨
  r = Ok true ∧ ∃ x st', next_eligible (state w) (profile adm) = Some x ∧ waiter_id x = waiter_id waiter ∧
    State_reserve (state w) (w_tenant waiter) = Ok st' ∧ w' = set_state w (remove st' waiter).
Proof.
  unfold poll. destruct r as [b|c]; intros Hp; [|left; exists c; split; [done|by apply attempt_err in Hp]].
  right. apply attempt_ok in Hp. cbn in Hp.
  apply bind_ok in Hp as ([] & _ & Hp). apply bind_ok in Hp as ([] & _ & Hp).
  destruct (next_eligible (state w) (profile adm)) as [x|]; cbn in Hp.
  - destruct (Z.eqb_spec (waiter_id x) (waiter_id waiter)).
    + apply bind_ok in Hp as (st' & Hs & [= <- <-]). right. split; [done|]. by exists x, st'.
    + injection Hp as <- <-. left. split_and!; [done|done|]. by intros ? [= <-].
  - injection Hp as <- <-. by left.
Qed.
Lemma exec_poll i e S S' :
  env_ok e → SInv adm S → exec adm (Poll i) e S = Some S' → SInv adm S'.
Proof.
  intros He Hi. call_start.
  match goal with H : futures S !! i = Some ?x |- _ => rename H into Hf, x into f end.
  apply (commit_inv adm Hb e S _ _
    (λ r fs, match r with
             | Ok (Some _) => alter (set_phase Leaving) i fs
             | Ok None => alter (set_phase Parked) i fs
             | Err _ => alter (set_phase Leaving) i fs end)
    (λ r o, match r with
            | Ok (Some l) => set_leases (<[l_completion l := l_tenant l]> (leases o)) o | _ => o end));
    [done|done|by intros [[]|] []|].
  intros w1 w2 r H1 H2 H3. unfold poll_grant in H3.
  destruct (poll _ _ _ _) as [w0 pr] eqn:Hp.
  destruct (poll_ok _ _ _ _ _ Hp) as [(c & -> & ->)|[(-> & -> & _)|(-> & x & st' & Hnx & Hx & Hs & ->)]].
  - injection H3 as <- <-. split; [done|]. intros fs Hmet. by apply (Kept_phase S w1).
  - injection H3 as <- <-. split; [done|]. intros fs Hmet. by apply (Kept_phase S w1).
  - destruct (next_eligible_ready adm _ _ Hnx) as (Hxq & _ & Hact & Hrdy & _).
    assert (WInv adm (grant (w_tenant (f_waiter f)) (set_state w1 st')).1
      (set_leases (<[fresh w1 := w_tenant (f_waiter f)]> (leases (owners S))) (owners S))) as Hg.
    { apply WInv_grant; try done. by eapply receipts_ready_pending. }
    pose proof (State_reserve_queue _ _ _ Hs) as Hq.
    injection H3 as <- <-. split.
    + apply (Inv_remove adm Hb); [exact Hg|]. cbn. rewrite Hq. by apply (waiter_unique S w1 i f).
    + intros fs Hmet. apply (Kept_phase S w1); [done|cbn; lia|]. cbn. intros y Hy.
      apply remove_queue in Hy as [Hy _]. by rewrite Hq in Hy.
Qed.
Lemma exec_leave i e S S' :
  env_ok e → SInv adm S → exec adm (Leave i) e S = Some S' → SInv adm S'.
Proof.
  intros He Hi. call_start.
  match goal with H : futures S !! i = Some ?x |- _ => rename H into Hf, x into f end.
  apply (commit_inv adm Hb e S _ _ (λ _ fs, delete i fs) (λ _ o, o)); [done|done|by intros ? []|].
  intros w1 w2 r H1 H2 [= <- <-]. split.
  - apply (Inv_remove adm Hb); [exact H1|]. by apply (waiter_unique S w1 i f).
  - intros fs [Mid Mq _]. cbn. destruct (lk_queue _ _ _ _ (inv_links _ _ _ _ _ H1)) as [Hnd _].
    destruct (wa_id _ _ _ (si_waits _ _ Hi) i f Hf) as [Hfi _]. constructor; cbn.
    + intros j g [_ Hg]%lookup_delete_Some. by apply Mid.
    + intros x Hx. apply remove_queue in Hx as [Hx Hne]. specialize (Hne Hnd). rewrite Hfi in Hne.
      destruct (Mq x Hx) as (g & Hg & Hgx). exists g. rewrite lookup_delete_ne by done.
      split_and!; [done|done|]. by exists g.
Qed.
Lemma exec_wake i now e S S' :
  SInv adm S → exec adm (Wake i now) e S = Some S' → SInv adm S'.
Proof.
  intros [Hi Hfl Hcl [Hid Hq Hnx]]. call_start.
  match goal with H : futures S !! i = Some ?x |- _ => rename H into Hf, x into f end.
  set (g := set_phase Polling (if deadline (f_waiter f) <=? now then f else set_permit false f)).
  assert (f_waiter g = f_waiter f ∧ phase g = Polling) as [Hgw Hgp].
  { unfold g. by destruct (_ <=? _). }
  constructor; try done. constructor; cbn.
  - intros j f' [[<- <-]|[_ Hf']]%lookup_insert_Some; [rewrite Hgw; by apply Hid|by apply Hid].
  - intros x Hx. destruct (Hq x Hx) as (f' & Hf' & Hfx). destruct (decide (waiter_id x = i)) as [<-|Hne].
    + rewrite lookup_insert_eq. exists g. split; [done|]. rewrite Hf' in Hf. injection Hf as ->. congruence.
    + rewrite lookup_insert_ne by done. by exists f'.
  - intros x Hx. destruct (Hnx x Hx) as (f' & Hf' & Hfx & Hp). destruct (decide (waiter_id x = i)) as [<-|Hne].
    + rewrite lookup_insert_eq. exists g. rewrite Hf' in Hf. injection Hf as ->. split_and!; congruence.
    + rewrite lookup_insert_ne by done. by exists f'.
Qed.

(** ** Leases *)

Lemma lease_of_owned o i l : lease_of o i = Some l → leases o !! i = Some (l_tenant l) ∧ l_completion l = i.
Proof. unfold lease_of. by intros (t & Ht & ->)%fmap_Some. Qed.
Lemma exec_bind i x e S S' :
  env_ok e → SInv adm S → exec adm (Bind i x) e S = Some S' → SInv adm S'.
Proof.
  intros He Hi. call_start.
  match goal with H : lease_of _ _ = Some _ |- _ => apply lease_of_owned in H as [Hl Hc] end.
  apply (commit_owners adm Hb e S _ _ (λ _ o, o)); [done|done|by intros ? []|].
  intros w1 w2 [[]|c] H1 H2 H3; unfold bind_execution in H3.
  - apply attempt_ok in H3. cbn in H3. apply bind_ok in H3 as ([] & _ & H3). rewrite Hc in H3.
    destruct (c_execution (completion (arcs w1) i)) as [old|] eqn:Hex.
    + apply bind_ok in H3 as ([] & _ & [= <-]). split_and!; [done|lia|done].
    + apply bind_ok in H3 as ([] & Hn%ensure_ok & [= <-]). split; [|split; [cbn; lia|done]].
      apply (Inv_bind adm); try done. apply eq_None_not_Some.
      by apply negb_true_iff, bool_decide_eq_false in Hn.
  - apply attempt_err in H3 as ->. split_and!; [done|lia|done].
Qed.
Lemma release_queue st h t i st' h' : release_lease st h t i = Ok (st', h') → queue st' = queue st.
Proof.
  unfold release_lease. intros Hr. apply bind_ok in Hr as ([[key cov]|] & _ & Hr); [|by injection Hr as <- <-].
  res_inv. destruct key as [k|].
  all: match goal with |- queue (idle ?s ?t) = _ => by destruct (idle_fields s t) as (_ & -> & _) end.
Qed.
Lemma exec_release i e S S' :
  env_ok e → SInv adm S → exec adm (Release i) e S = Some S' → SInv adm S'.
Proof.
  intros He Hi. call_start.
  match goal with H : lease_of _ _ = Some ?l |- _ => apply lease_of_owned in H as [Hl Hc] end.
  apply (commit_owners adm Hb e S _ _ (λ _ o, set_leases (delete i (leases o)) o)); [done..|].
  intros w1 w2 [] H1 H2 H3. unfold lease_drop in H3. rewrite Hc in H3.
  destruct (release_ok adm _ _ _ _ _ _ H1 Hl) as (st' & h' & Hr & Hi' & _). rewrite Hr in H3.
  injection H3 as <-. split; [exact Hi'|]. split; [cbn; lia|]. cbn. intros y.
  by rewrite (release_queue _ _ _ _ _ _ Hr).
Qed.
Lemma exec_confirm i e S S' :
  env_ok e → SInv adm S → exec adm (Confirm i) e S = Some S' → SInv adm S'.
Proof.
  intros He Hi. call_start. unfold confirm_receipt. destruct (done _); [by destruct S|].
  destruct (update adm e (world S) fence_receipts) as [[[w' a] wake] d] eqn:Hu.
  assert (SInv adm (commit S (update adm e (world S) fence_receipts) (λ _, id))) as Hs.
  { by apply (exec_stop Fence_storage e S); [right; left|..]. }
  rewrite Hu in Hs. exact Hs.
Qed.

(** ** Learning jobs and pins *)

Lemma exec_learn g t maximum e S S' :
  env_ok e → SInv adm S → exec adm (Learn g t maximum) e S = Some S' → SInv adm S'.
Proof.
  intros He Hi. call_start. apply free_None in Hcond.
  apply (attempt_owners adm Hb e S _ _ (λ t o, set_learners (<[g := t]> (learners o)) o)); [done..|].
  intros w1 w2 t' H1 H2 H3. cbn in H3. res_inv. arith. split; [|split; [cbn; lia|done]].
  apply (Inv_learn adm); try done. cbn in *. lia.
Qed.
Lemma exec_unlearn g e S S' :
  env_ok e → SInv adm S → exec adm (Unlearn g) e S = Some S' → SInv adm S'.
Proof.
  intros He Hi. call_start.
  match goal with H : learners _ !! g = Some ?t |- _ => rename H into Hg, t into t0 end.
  apply (commit_owners adm Hb e S _ _ (λ _ o, set_learners (delete g (learners o)) o)); [done..|].
  intros w1 w2 [] H1 H2 [= <-]. split; [by apply (Inv_unlearn adm)|]. split; [cbn; lia|]. cbn. intros y.
  match goal with |- y ∈ queue (idle ?s ?t) → _ => by destruct (idle_fields s t) as (_ & -> & _) end.
Qed.
Lemma unknown_available_ok st maint : unknown_available st maint = Ok tt →
  publication_pending st = None ∧ fenced (receipts st) = false.
Proof.
  unfold unknown_available. intros Hu. apply bind_ok in Hu as ([] & Hn%ensure_ok & _).
  apply negb_true_iff, orb_false_iff in Hn as [[_ Hp]%orb_false_iff Hf]. split; [|done].
  apply bool_decide_eq_false in Hp. by apply eq_None_not_Some.
Qed.
Lemma add_pin_queue st t n st' : add_pin st t n = Ok st' → queue st' = queue st.
Proof. unfold add_pin. intros. by res_inv. Qed.
Lemma exec_pin g t maint e S S' :
  env_ok e → SInv adm S → exec adm (Pin g t maint) e S = Some S' → SInv adm S'.
Proof.
  intros He Hi. call_start. apply free_None in Hcond.
  apply (attempt_owners adm Hb e S _ _ (λ p o,
    match p with Some p => set_count_pins (<[g := pin_tenant p]> (count_pins o)) o | None => o end));
    [done|done|by intros [] []|].
  intros w1 w2 p H1 H2 H3. cbn in H3. apply bind_ok in H3 as ([] & Hu & H3).
  destruct (unknown_available_ok _ _ Hu) as [Hnone Hfn].
  destruct (tenant_unknown (state w1) t) as [n|] eqn:Hn; cbn in H3; res_inv; [|split_and!; [done|lia|done]].
  match goal with H : add_pin _ _ _ = Ok _ |- _ => rename H into Hadd end.
  split; [|split; [cbn; lia|cbn; intros x; by rewrite (add_pin_queue _ _ _ _ Hadd)]].
  apply (Inv_add_pin adm) with (st := state w1) (n := n); try done.
  - eapply (tenant_unknown_range adm); [apply (inv_ranges _ _ _ _ _ H1)|exact Hn].
  - intros _. eapply tenant_unknown_owed; [exact Hb|by apply (inv_coherent _ _ _ _ _ H1)|done].
Qed.
Lemma exec_seed g read t count e S S' :
  env_ok e → SInv adm S → exec adm (Seed g read t count) e S = Some S' → SInv adm S'.
Proof.
  intros He Hi. call_start. apply andb_true_iff in Hcond as [[Hg%free_None Htr]%andb_true_iff Hpos%Z.leb_le].
  cbn [truthful] in Htr. unfold seed_unknown. destruct (admission_id adm =? _); [|by apply commit_refused].
  apply (attempt_owners adm Hb e S _ _ (λ p o, set_count_pins (<[g := pin_tenant p]> (count_pins o)) o)); [done..|].
  intros w1 w2 p H1 H2 H3. cbn in H3. apply bind_ok in H3 as ([] & Hrd & H3).
  apply bind_ok in H3 as ([] & Hu & H3). destruct (unknown_available_ok _ _ Hu) as [Hnone Hfn].
  apply bind_ok in H3 as ([] & Hle%ensure_ok & H3). apply bind_ok in H3 as (st & Hadd & [= <- <-]).
  apply negb_true_iff, orb_false_iff in Hle as [Hle%Z.ltb_ge _].
  unfold check_read in Hrd. apply ensure_ok, andb_true_iff in Hrd as [_ Hcur%Z.eqb_eq].
  rewrite (be_generation _ _ H2) in Hcur. rewrite Hcur, Z.eqb_refl in Htr. cbn in Htr. apply Z.eqb_eq in Htr.
  pose proof (wf_unknown _ (wf_totals _ (WInv_wf _ _ H1))) as Hw. unfold in_u64 in Hw.
  split; [|split; [cbn; lia|cbn; intros x; by rewrite (add_pin_queue _ _ _ _ Hadd)]].
  apply (Inv_add_pin adm) with (st := state w1) (n := count); try done. unfold in_u64. lia.
Qed.
Lemma exec_unpin g e S S' :
  env_ok e → SInv adm S → exec adm (Unpin g) e S = Some S' → SInv adm S'.
Proof.
  intros He Hi. call_start.
  match goal with H : count_pins _ !! g = Some ?t |- _ => rename H into Hg, t into t0 end.
  apply (commit_owners adm Hb e S _ _ (λ _ o, set_count_pins (delete g (count_pins o)) o)); [done..|].
  intros w1 w2 [] H1 H2 H3. destruct (pin_drop_ok adm w1 (owners S) g t0 H1 Hg) as [Hi' _].
  rewrite H3 in Hi'. cbn in Hi'. split; [exact Hi'|]. injection H3 as <-. split; [cbn; lia|]. cbn. intros y.
  match goal with |- y ∈ queue (idle ?s ?t) → _ => destruct (idle_fields s t) as (_ & -> & _) end.
  by destruct (tenants (state w1) !! t0 ≫= _).
Qed.

(** ** Publications *)

Lemma exec_prepare read changes terminals e S S' :
  env_ok e → SInv adm S → exec adm (Prepare read changes terminals) e S = Some S' → SInv adm S'.
Proof.
  intros He Hi. call_start. apply andb_true_iff in Hcond as [Htr Hby]. cbn [truthful] in Htr.
  rewrite forallb_forall in Hby. unfold prepare_unknown.
  destruct (_ ← ensure _ _; plan_steps _ _) as [planned|c] eqn:Hpl; [|by apply commit_refused].
  apply bind_ok in Hpl as ([] & _ & Hpl). unfold prepare_change.
  apply (attempt_owners adm Hb e S _ _ (λ p o, set_owed (Some p) (obligations o) o)); [done..|].
  intros w1 w2 p H1 H2 H3.
  destruct (prepare_unknown_ok adm w1 (owners S) read planned w2 p H1) as (Hi2 & Hfr & Hq & _).
  - rewrite (be_generation _ _ H2). intros Hcur. rewrite Hcur, Z.eqb_refl in Htr. cbn in Htr.
    rewrite forallb_forall in Htr. eapply plan_steps_ok; [exact Hpl| |].
    + intros t Ht. apply Z.leb_le, Hby. by apply list_elem_of_In.
    + intros ch Hch. apply eqb_prop, Htr. by apply list_elem_of_In.
  - unfold prepare_change, attempt. by rewrite H3.
  - split; [done|]. rewrite Hq. split; [lia|done].
Qed.
Lemma Inv_owed_fenced st h fr o p d :
  Inv adm st h fr o → fenced (receipts st) = true → publication o = Some p →
  Inv adm st h fr (set_owed (Some p) d o).
Proof.
  intros [Hl Hk [Ht Hpr Hpe] _ Hr] Hf Hpub. split.
  - destruct Hl. constructor; try done. intros t. rewrite led_tally. unfold tally. cbn.
    assert (pinned (set_owed (Some p) d o) t = pinned o t) as ->; [|done]. unfold pinned. by rewrite Hpub.
  - by destruct Hk.
  - constructor; cbn [publication set_owed]; [by rewrite Ht, Hpub|by rewrite <-Hpub|by rewrite <-Hpub].
  - congruence.
  - done.
Qed.
(** Finishing, up to the drop of a publication that could not be applied. *)
Lemma finish_inv p (rollback : bool) e S :
  env_ok e → SInv adm S → publication (owners S) = Some p →
  SInv adm (commit S (finish adm e p rollback {| proof_live := true; disposition := expected rollback |} (world S))
    (λ r S, match r with
            | Ok _ => with_owners (λ o, set_owed None (owed_final o p rollback) o) S
            | Err _ => S end)).
Proof.
  intros He Hi Hpub. unfold finish.
  rewrite (pr_unfinished _ _ _ (pe_prepared _ _ _ (inv_pending _ _ _ _ _ (si_world _ _ Hi)) p Hpub)).
  cbn [disposition]. rewrite bool_decide_eq_true_2 by done. cbn [orb negb].
  apply (commit_owners adm Hb e S _ _ (λ r o,
    match r with Ok _ => set_owed None (owed_final o p rollback) o | Err _ => o end)); [done|done|by intros [] []|].
  intros w1 w2 r H1 H2 H3. destruct (fenced (receipts (state w1))) eqn:Hfn.
  - unfold finish_change, attempt in H3. rewrite Hfn in H3. cbn in H3. injection H3 as <- <-.
    split_and!; [done|lia|done].
  - destruct (finish_change_ok adm Hb w1 (owners S) p rollback H1 Hpub Hfn)
      as (w3 & Hw3 & Hi3 & _ & _ & _ & Hfr & Hq).
    rewrite H3 in Hw3. injection Hw3 as -> ->. rewrite Hq, Hfr. split_and!; [done|lia|done].
Qed.
Lemma exec_publish c p (rollback : bool) drop e S S' :
  c = (if rollback then Rollback drop else Publish drop) → publication (owners S) = Some p →
  env_ok e → env_ok drop → SInv adm S → exec adm c e S = Some S' → SInv adm S'.
Proof.
  intros -> Hpub He Hed Hi Hc. pose proof (finish_inv p rollback e S He Hi Hpub) as Hs.
  destruct (finish adm e p rollback {| proof_live := true; disposition := expected rollback |} (world S))
    as [[[w' r] wake] d] eqn:Hu.
  set (S1 := {| world := w'; futures := notify wake (futures S); owners := owners S |}).
  assert (∀ fo : Owners → Owners, (∀ w, WInv adm w (owners S) → fenced (receipts (state w)) = true → WInv adm w (fo (owners S))) →
    SInv adm S1 → SInv adm (commit S1 (update adm drop (world S1) fence_receipts) (λ _, with_owners fo))) as Hdrop.
  { intros fo Hfo Hi1. apply (commit_owners adm Hb drop S1 _ _ (λ _ o, fo o)); [done..|].
    intros w1 w2 [] H1 H2 [= <-]. split; [|split; [cbn; lia|done]]. apply Hfo; [by apply WInv_fence|done]. }
  destruct rollback; cbn [exec] in Hc; rewrite Hpub in Hc; cbn [mbind option_bind] in Hc; cbn [expected] in *;
    rewrite Hu in Hc; cbn [commit] in Hc, Hs; fold S1 in Hc, Hs; destruct r as [[]|err].
  - by injection Hc as <-.
  - specialize (Hdrop id ltac:(done) Hs). injection Hc as <-. unfold publication_drop.
    change (world S1) with w' in *. by destruct (update adm drop w' fence_receipts) as [[[? []] ?] ?].
  - by injection Hc as <-.
  - specialize (Hdrop (set_owed (Some p) (owed_after p (obligations (owners S))))
      ltac:(intros w Hw Hf; by apply Inv_owed_fenced) Hs). injection Hc as <-. unfold publication_drop.
    change (world S1) with w' in *. by destruct (update adm drop w' fence_receipts) as [[[? []] ?] ?].
Qed.

(** ** Repairs *)

Lemma exec_start_repair g read t bytes entries e S S' :
  env_ok e → SInv adm S → exec adm (Start_repair g read t bytes entries) e S = Some S' → SInv adm S'.
Proof.
  intros He Hi. call_start. apply andb_true_iff in Hcond as [Hg%free_None Hby%Z.leb_le].
  unfold reserve_repair. destruct (plan_repair _ _ _ _ _); [|by apply commit_refused]. unfold repair_change.
  apply (attempt_owners adm Hb e S _ _ (λ r o, set_repairing (<[g := r]> (repairing o)) o)); [done..|].
  intros w1 w2 r H1 H2 H3. split.
  - apply (Inv_start_repair adm w1 (owners S) g read t bytes entries); try done.
    unfold repair_change, attempt. by rewrite H3.
  - apply bind_ok in H3 as (ow & Hpl & H3). destruct (plan_repair_ok _ _ _ _ _ _ Hpl) as (_ & Hp & _).
    pose proof (pl_fresh _ _ _ _ Hp). res_inv.
    match goal with x : Accounting * Z |- _ => destruct x end. res_inv. cbn. split; [lia|done].
Qed.
Lemma exec_finish_repair g committed e S S' :
  env_ok e → SInv adm S → exec adm (Finish_repair g committed) e S = Some S' → SInv adm S'.
Proof.
  intros He Hi. call_start.
  match goal with H : repairing _ !! g = Some ?x |- _ => rename H into Hg, x into r0 end. unfold repair_finish.
  apply (attempt_owners adm Hb e S _ _ (λ _ o, set_repairing (delete g (repairing o)) o)); [done..|].
  intros w1 w2 [] H1 H2 H3. split.
  - apply (Inv_finish_repair adm w1 (owners S) g r0 committed w2); try done.
    unfold repair_finish, attempt. by rewrite H3.
  - res_inv. split; [cbn; lia|]. cbn. intros y.
    match goal with |- y ∈ queue (idle ?s ?t) → _ => by destruct (idle_fields s t) as (_ & -> & _) end.
Qed.
Lemma exec_panic e S S' : SInv adm S → exec adm Panic e S = Some S' → SInv adm S'.
Proof.
  intros [Hi Hfl Hcl [Hid Hq Hnx]]. cbn [exec]. intros [= <-]. by constructor.
Qed.
Lemma exec_inv c e S S' :
  env_ok e → call_ok c → SInv adm S → exec adm c e S = Some S' → SInv adm S'.
Proof.
  intros He Hc Hi Hx. destruct c.
  - by eapply exec_open_ingress.
  - by eapply exec_close_ingress.
  - by eapply exec_begin_write.
  - by eapply exec_end_write.
  - by eapply exec_archive.
  - by eapply exec_initialize.
  - by eapply exec_bind_volume.
  - by eapply exec_probe.
  - eapply exec_stop; [left|..]; done.
  - eapply exec_stop; [right; left|..]; done.
  - eapply exec_stop; [right; right; left|..]; done.
  - by eapply exec_acquire.
  - by eapply exec_poll.
  - by eapply exec_wake.
  - by eapply exec_leave.
  - by eapply exec_try_acquire.
  - by eapply exec_bind.
  - by eapply exec_release.
  - by eapply exec_confirm.
  - by eapply exec_learn.
  - by eapply exec_unlearn.
  - by eapply exec_pin.
  - by eapply exec_seed.
  - by eapply exec_unpin.
  - by eapply exec_prepare.
  - pose proof Hx as Hp. cbn [exec] in Hp. apply bind_Some in Hp as (p & Hp & _).
    by apply (exec_publish (Publish drop) p false drop e S).
  - pose proof Hx as Hp. cbn [exec] in Hp. apply bind_Some in Hp as (p & Hp & _).
    by apply (exec_publish (Rollback drop) p true drop e S).
  - eapply exec_stop; [right; right; right|..]; done.
  - by eapply exec_start_repair.
  - by eapply exec_finish_repair.
  - by eapply exec_panic.
Qed.
End calls.
