(* ===== verification/TenancyTheorems.v ===== *)
(** What tenant admission guarantees in every state that a configured process can reach. *)
From stdpp Require Import base list strings gmap sorting.
From Stdlib Require Import ZArith Lia.
From S2P Require Import Prelude MapSum TenancyCapacity TenancyState TenancyAdmission TenancyUnknown TenancySystem TenancyLedger TenancyLease TenancyRepair TenancyPublish TenancySettle TenancyPrepare TenancyInvariant.
Open Scope Z_scope.
#[local] Arguments countb : simpl never.
#[local] Arguments sum_by : simpl never.
#[local] Arguments msum : simpl never.
#[local] Arguments mcount : simpl never.
#[local] Arguments resolve : simpl never.
#[local] Arguments pinned : simpl never.

(** ** Reachable states of a configured process

    [MAX] is [Semaphore::MAX_PERMITS], a [usize]; [d] is what the durable projection holds when
    the process starts. *)
Definition controller (config : CapacityConfig) (id : Z) : Admission := (configured config id).1.
Definition reachable (config : CapacityConfig) (id : Z) (d : gset Key) (S : Sys) : Prop :=
  sys_reachable (controller config id) (configured config id).2 d S.
Definition valid_config (MAX : Z) (clock : Z → bool) (config : CapacityConfig) : Prop :=
  MAX ≤ u64_max ∧ Validated MAX clock config.

Section boot.
Context (MAX : Z) (clock : Z → bool) (config : CapacityConfig) (id : Z).
Context (Hv : valid_config MAX clock config).
Local Notation adm := (controller config id).
Local Notation w := (configured config id).2.

#[local] Ltac in_list := repeat first [left|right].
Lemma configured_budgets : Budgets adm.
Proof.
  destruct Hv as [Hmax []]. unfold u64_max, i64_max in *.
  pose proof (v_permits "management.reads" (reads (management config)) false ltac:(in_list)) as [_ Hreads].
  pose proof (v_permits "ingress.requests" (requests (ingress_config config)) false ltac:(in_list)) as [? Hreq].
  pose proof (v_ranges "ingress.bytes" (ingress_limit (ingress_config config)) ltac:(in_list)).
  specialize (Hreads eq_refl). specialize (Hreq eq_refl).
  constructor; cbn; unfold u64_max; lia.
Qed.
Lemma configured_receipts : Receipts_wf (receipts_config config).
Proof.
  destruct Hv as [_ []].
  pose proof (v_ranges "receipts.unknown_instance" (unknown_instance (receipts_config config)) ltac:(in_list)).
  pose proof (v_ranges "receipts.unknown_tenant" (unknown_tenant (receipts_config config)) ltac:(in_list)).
  constructor; unfold in_u64, u64_max, i64_max in *; lia.
Qed.
Lemma configured_inv : WInv adm w (no_owners ∅).
Proof.
  assert (∀ h, resolve h (∅ : gmap Key Live) = ∅) as Hr by (intros h; apply fmap_empty).
  assert (∀ (f : Key → Live * bool → bool), mcount f ∅ = 0) as Hm by (intros f; apply msum_empty).
  assert (∀ h o, leases o = ∅ → unbound h o = 0 ∧ ∀ t, unbound_of h o t = 0) as Hu.
  { intros h o Ho. unfold unbound, unbound_of, mcount. rewrite Ho. split; [|intros t]; apply msum_empty. }
  destruct configured_budgets. pose proof configured_receipts as Hrw.
  split.
  - constructor; cbn; try (intros t); rewrite ?Hr, ?Hm; try done.
  - constructor; cbn; intros; repeat match goal with H : context [∅ !! _] |- _ => rewrite lookup_empty in H end;
      try done.
    + split; [constructor|]. intros x Hx. by apply elem_of_nil in Hx.
  - constructor; cbn; done.
  - intros _. constructor; cbn; done.
  - constructor; cbn; try done; try (intros t; cbn; unfold u64_max; lia).
    all: try (unfold u64_max; lia).
    all: cbn in *; tauto.
Qed.
Lemma boot_inv d S : boots adm w d S → SInv adm S.
Proof.
  intros (inventory & f & e & He & Hx). cbn [exec world owners] in Hx.
  destruct (_ && _) eqn:Hc; [|done]. injection Hx as <-.
  apply andb_true_iff in Hc as [[Ht%Z.eqb_eq Hrg]%andb_true_iff Hf%bool_decide_eq_true]. cbn in Ht.
  unfold update. match goal with |- context [update_begin e ?x] =>
    change (update_begin e x) with (w, @nil Waiter); change x with w end. cbv beta iota.
  destruct (initialize_receipts inventory f w) as [w2 r] eqn:Hi.
  assert (∃ a, initialize (receipts (state w)) inventory f = Ok a ∧
    w2 = set_state w (set_receipts (state w) a) ∧ fenced a = false) as (a & Ha & -> & Hfn).
  { unfold initialize_receipts, attempt in Hi. cbn in Hi. rewrite bool_decide_eq_true_2 in Hi by done.
    cbn in Hi. injection Hi as <- <-. eexists. split_and!; done. }
  pose proof (Inv_initialize_owed adm (state w) (arcs w) (fresh w) (no_owners ∅) d inventory f a
    configured_inv eq_refl eq_refl Ha Hrg Hf Ht) as Hinv.
  change (set_owed None d (no_owners ∅)) with (no_owners d) in Hinv.
  set (st := set_receipts (state w) a) in *.
  assert (update_end (profile adm) (set_state w st) [] = (set_state w st, [], true)) as ->.
  { unfold update_end. cbn. rewrite Hfn. unfold next_eligible. by destruct (_ || _). }
  cbn. constructor; cbn; try done.
  - by rewrite Hfn.
  - constructor; cbn; [done| |].
    + intros x Hx. by apply elem_of_nil in Hx.
    + intros x. unfold next_eligible. by destruct (_ || _).
Qed.
Lemma admission_inv d S : reachable config id d S → SInv adm S.
Proof.
  intros (S0 & Hboot & Hsteps). apply boot_inv in Hboot.
  induction Hsteps as [|S1 S2 S3 (c & e & He & Hc & Hx) _ IH]; [done|].
  apply IH. eapply exec_inv; [apply configured_budgets|exact He|exact Hc|done|exact Hx].
Qed.
End boot.

(** ** The counters *)

Section counters.
Context (adm : Admission) (st : State) (h : Arcs) (fr : Z) (o : Owners) (Hi : Inv adm st h fr o).
Let Hl := inv_ledger _ _ _ _ _ Hi.
Let Hk := inv_links _ _ _ _ _ Hi.
Let Hr := inv_ranges _ _ _ _ _ Hi.
Local Notation v := (resolve h (executions st)).

Lemma view_inv k l b : v !! k = Some (l, b) → executions st !! k = Some l ∧ b = done (completion h (owner l)).
Proof. rewrite resolve_lookup. intros (x & Hx & [= -> ->])%fmap_Some. done. Qed.
Lemma repair_open k l b : v !! k = Some (l, b) → repair l = true → b = false.
Proof.
  intros [Hx ->]%view_inv Hrep. destruct (done _) eqn:Hd; [|done].
  destruct (lk_flags _ _ _ _ Hk k l Hx) as [Hf _]. destruct (Hf Hd). congruence.
Qed.
(** Open executions are the running ones and the ones under repair. *)
Lemma open_split : mcount (any_key is_open) v = mcount (any_key is_running) v + mcount (any_key is_repair) v.
Proof.
  unfold mcount. rewrite <-msum_add. apply msum_ext. intros k [l b] Hx.
  unfold any_key, is_open, is_running, is_repair. cbn. pose proof (repair_open k l b Hx).
  destruct (repair l), b; cbn; naive_solver.
Qed.
Lemma running_le : mcount (any_key is_running) v ≤ mcount (any_key is_ordinary) v.
Proof.
  apply mcount_le. unfold any_key, is_running, is_ordinary. intros k x _ Hx. by apply andb_true_iff in Hx as [? _].
Qed.
Lemma repair_row_nonneg r : 0 ≤ repair_rows r.
Proof. unfold repair_rows. lia. Qed.
Lemma charged_rows : ROW_OVERHEAD * repairs_all o ≤ charged_all o.
Proof.
  unfold repairs_all, charged_all. rewrite <-msum_scale. apply msum_le. intros g r Hg.
  by destruct (lk_repair _ _ _ _ Hk g r Hg) as (_ & _ & ? & _).
Qed.
Lemma repairs_all_nonneg : 0 ≤ repairs_all o.
Proof. apply msum_nonneg. intros g r _. apply repair_row_nonneg. Qed.
Lemma executions_live : live (totals (receipts st)) - repair_live (totals (receipts st)) =
  unbound h o + mcount (any_key is_running) v.
Proof.
  rewrite (led_live _ _ _ Hl), (led_repair_live _ _ _ Hl), <-(led_repair_rows _ _ _ Hl), open_split. lia.
Qed.
Lemma observed_some : observed (receipts st) (active st) =
  Some (reserved (totals (receipts st)), t_bytes (totals (receipts st)), live (totals (receipts st)),
        unknown (totals (receipts st))).
Proof.
  apply observed_cases. pose proof executions_live as He. pose proof running_le. pose proof repairs_all_nonneg.
  pose proof (mcount_nonneg (any_key is_running) v). pose proof (unbound_nonneg h o).
  pose proof (led_reserved _ _ _ Hl) as Hres. pose proof (led_repair_reserved _ _ _ Hl) as Hrr.
  pose proof charged_rows. pose proof (led_repair_live _ _ _ Hl) as Hrl.
  pose proof (wf_reserved _ (wf_totals _ (ra_accounting _ _ Hr))) as Hw.
  pose proof (wf_repair_reserved _ (wf_totals _ (ra_accounting _ _ Hr))) as Hw2. unfold in_u64 in *.
  assert (RESERVATION = 4194304) as HR by done. assert (ROW_OVERHEAD = 16384) as HO by done.
  pose proof (uncovered_le_live _ _ _ Hl). pose proof (led_active _ _ _ Hl).
  split_and!; done || lia.
Qed.
(** When no completion is outstanding, nothing is reserved and nobody repairs. *)
Lemma nothing_live : live (totals (receipts st)) = 0 → unbound h o = 0 ∧ mcount (any_key is_open) v = 0 ∧
  repairing o = ∅ ∧ reserved (totals (receipts st)) = 0.
Proof.
  intros H0. pose proof (led_live _ _ _ Hl) as Hlv. pose proof (unbound_nonneg h o).
  pose proof (mcount_nonneg (any_key is_open) v). pose proof open_split.
  pose proof (mcount_nonneg (any_key is_running) v). pose proof (mcount_nonneg (any_key is_repair) v).
  assert (repairs_all o = 0) as Hra by (rewrite <-(led_repair_rows _ _ _ Hl); lia).
  assert (repairing o = ∅) as Hemp.
  { apply map_empty. intros g. destruct (repairing o !! g) as [r|] eqn:Hg; [|done].
    pose proof (msum_zero_inv (λ _, repair_rows) (repairing o) g r (λ _ r _, repair_row_nonneg r) Hra Hg) as Hz.
    destruct (lk_repair _ _ _ _ Hk g r Hg) as (_ & Hne & _). unfold repair_rows in Hz. destruct (rep_keys r); [done|]. cbn in Hz. lia. }
  split_and!; try lia; [done|]. rewrite (led_reserved _ _ _ Hl). unfold charged_all. rewrite Hemp, msum_empty.
  replace (unbound h o + mcount (any_key is_running) v) with 0 by lia. lia.
Qed.
End counters.

(** ** Types and budgets *)

(** The budgets of the configuration that bound the locked state. *)
Record within_budgets (config : CapacityConfig) (st : State) : Prop := {
  wb_active : active st ≤ instance_active (execution config);
  wb_tenant t c : tenants st !! t = Some c → c_active c ≤ active st ∧ queued c ≤ Z.of_nat (length (queue st));
  wb_queue : Z.of_nat (length (queue st)) ≤ instance_queue (execution config);
  wb_learning : learning st ≤ 8; wb_ingress : ingress st ≤ requests (ingress_config config);
  wb_bytes : ingress_bytes st ≤ ingress_limit (ingress_config config);
  wb_unknown : live (totals (receipts st)) - repair_live (totals (receipts st)) ≤ active st }.

Section guarantees.
Context (MAX : Z) (clock : Z → bool) (config : CapacityConfig) (id : Z) (d : gset Key) (S : Sys).
Context (Hv : valid_config MAX clock config) (Hr : reachable config id d S).
Let Hs : SInv (controller config id) S := admission_inv _ _ _ _ Hv _ _ Hr.
Let Hi := si_world _ _ Hs.
Local Notation st := (state (world S)).

(** in every reachable state the executions, the queue, the learning jobs, the uploads and their
    bytes stay within the configured budgets, no tenant has more than the instance, and the
    reserved completions belong to active executions. *)
Theorem reachable_budgets : within_budgets config st.
Proof.
  pose proof (inv_ledger _ _ _ _ _ Hi) as Hl. pose proof (inv_ranges _ _ _ _ _ Hi) as [].
  pose proof (configured_budgets _ _ _ id Hv) as [].
  assert (0 ≤ instance_queue (execution config)) as Hq by (pose proof (v_queue _ _ _ (proj2 Hv)); lia).
  pose proof (executions_live _ _ _ _ _ Hi) as He. pose proof (running_le st (arcs (world S))).
  constructor; try done.
  - intros t c Hc. assert (counts_of st t = c) as <- by (unfold counts_of; by rewrite Hc).
    pose proof (c_active_le _ _ _ Hl t). pose proof (queued_le _ _ _ Hl t). lia.
  - cbn in ra_queue. lia.
  - rewrite He, (led_active _ _ _ Hl). lia.
Qed.

(** The numbers that a snapshot of this state holds. *)
Definition snapshot_of (w : World) : Snapshot := {|
  s_completion_reserved := reserved (totals (receipts (state w)));
  s_physical_write_reserved := physical_write_reserved (receipts (state w));
  s_observed_free := observed_volume_free (receipts (state w));
  s_accounted := t_bytes (totals (receipts (state w)));
  s_history_bytes := history_bytes (totals (receipts (state w)));
  s_history_rows := history_rows (totals (receipts (state w)));
  s_oauth_reserved := oauth_bytes (totals (receipts (state w)));
  s_ingress_reserved := ingress_bytes (state w);
  s_potential_unknown := live (totals (receipts (state w)));
  s_live_unknown := unknown (totals (receipts (state w))); s_active := active (state w);
  s_queued := Z.of_nat (length (queue (state w))); s_ingress := ingress (state w);
  s_closed := closed (state w); s_fenced := fenced (receipts (state w)) |}.

Lemma observed_snapshot :
  poisoned (world S) = false →
  observed_capacity false (world S) =
    if existsb (λ kv, i64_max <? kv.2) (snapshot_bytes (snapshot_of (world S)) ++ snapshot_state (snapshot_of (world S)))
    then Err Invalid else Ok (snapshot_of (world S)).
Proof.
  intros Hp. unfold observed_capacity. rewrite Hp. cbn [orb negb ensure mbind result_bind].
  rewrite (observed_some _ _ _ _ _ Hi). cbn [ok_or mbind result_bind].
  change (Snapshot_validate (snapshot_of (world S)) = if existsb (λ kv, i64_max <? kv.2)
    (snapshot_bytes (snapshot_of (world S)) ++ snapshot_state (snapshot_of (world S))) then Err Invalid else Ok (snapshot_of (world S))).
  unfold Snapshot_validate. destruct (existsb _ _); [done|]. cbn [orb snapshot_of s_completion_reserved s_potential_unknown].
  pose proof (inv_ledger _ _ _ _ _ Hi) as Hl. pose proof (executions_live _ _ _ _ _ Hi) as He.
  pose proof (wf_reserved _ (wf_totals _ (ra_accounting _ _ (inv_ranges _ _ _ _ _ Hi)))) as Hw.
  pose proof (charged_rows _ _ _ _ _ Hi). pose proof (led_reserved _ _ _ Hl). pose proof (led_repair_live _ _ _ Hl).
  pose proof (mcount_nonneg (any_key is_running) (resolve (arcs (world S)) (executions st))).
  pose proof (unbound_nonneg (arcs (world S)) (owners S)).
  assert (RESERVATION = 4194304) as HR by done. assert (ROW_OVERHEAD = 16384) as HO by done. unfold in_u64 in Hw.
  assert (live (totals (receipts st)) * (16 * 1024) ≤ reserved (totals (receipts st))) by lia.
  assert (live (totals (receipts st)) *? (16 * 1024) = Some (live (totals (receipts st)) * (16 * 1024))) as ->
    by (apply checked_mul_Some; split; [done|lia]).
  cbn. rewrite (proj2 (Z.ltb_ge _ _)) by lia. cbn.
  destruct (live (totals (receipts st)) =? 0) eqn:Hlz; [|done]. apply Z.eqb_eq in Hlz.
  destruct (nothing_live _ _ _ _ _ Hi Hlz) as (_ & _ & _ & Hz). by rewrite Hz.
Qed.

(** An observation of a reachable state, when nobody holds the mutex and no holder panicked,
    is the snapshot of its numbers, and it is refused only because a number does not fit the
    signed 64 bits of a metric: the consistency checks of the snapshot always pass. *)
Theorem observation_is_consistent :
  poisoned (world S) = false →
  observed_capacity false (world S) =
    if existsb (λ kv, i64_max <? kv.2) (snapshot_bytes (snapshot_of (world S)) ++ snapshot_state (snapshot_of (world S)))
    then Err Invalid else Ok (snapshot_of (world S)).
Proof. apply observed_snapshot. Qed.

Lemma quiescent_snapshot s :
  observed_capacity false (world S) = Ok s → quiescent s = true →
  closed st = true ∧ leases (owners S) = ∅ ∧ executions st = ∅ ∧ uploads (owners S) = ∅ ∧
  repairing (owners S) = ∅ ∧ queue st = [] ∧ ∀ g b, writers (owners S) !! g = Some b → b = 0.
Proof.
  intros Ho Hq. assert (s = snapshot_of (world S)) as ->.
  { destruct (poisoned (world S)) eqn:Hp; [by unfold observed_capacity in Ho; rewrite Hp in Ho|].
    rewrite observed_snapshot in Ho by done. destruct (existsb _ _); [done|]. by injection Ho as <-. }
  unfold quiescent in Hq. rewrite !andb_true_iff, !Z.eqb_eq in Hq. cbn in Hq.
  destruct Hq as (((((((Hcl & Ha) & Hqu) & Hin) & _) & _) & Hw) & Hlv).
  pose proof (inv_ledger _ _ _ _ _ Hi) as Hl. pose proof (inv_links _ _ _ _ _ Hi) as Hk.
  destruct (nothing_live _ _ _ _ _ Hi Hlv) as (Hub & Hop & Hrep & _).
  pose proof (led_active _ _ _ Hl) as Hac. rewrite Ha, Hub in Hac.
  destruct (mcount_0 (any_key is_ordinary) (resolve (arcs (world S)) (executions st))) as [Hord _].
  specialize (Hord ltac:(lia)).
  destruct (mcount_0 (any_key is_open) (resolve (arcs (world S)) (executions st))) as [Hopn _]. specialize (Hopn Hop).
  destruct (mcount_0 (is_unbound (arcs (world S))) (leases (owners S))) as [Hun _]. specialize (Hun Hub).
  assert (executions st = ∅) as Hex.
  { apply map_empty. intros k. destruct (executions st !! k) as [l|] eqn:Hkl; [|done].
    assert (resolve (arcs (world S)) (executions st) !! k = Some (l, done (completion (arcs (world S)) (owner l)))) as Hv'
      by (by rewrite resolve_lookup, Hkl).
    specialize (Hord _ _ Hv'). specialize (Hopn _ _ Hv'). unfold any_key, is_ordinary, is_open in *. cbn in *.
    apply negb_false_iff in Hord, Hopn. destruct (lk_flags _ _ _ _ Hk k l Hkl) as [Hf _]. destruct (Hf Hopn). congruence. }
  split_and!; try done.
  - apply map_empty. intros i. destruct (leases (owners S) !! i) as [t|] eqn:Hit; [|done].
    specialize (Hun i t Hit). unfold is_unbound in Hun. apply negb_false_iff, bool_decide_eq_true in Hun as [x Hx].
    destruct (lk_lease _ _ _ _ Hk i t Hit) as [_ Hle]. rewrite Hx, Hex in Hle.
    destruct Hle as (l & Hl' & _). by rewrite lookup_empty in Hl'.
  - apply map_size_empty_inv. pose proof (led_ingress _ _ _ Hl). lia.
  - apply length_zero_iff_nil. lia.
  - intros g b Hg. destruct (Inv_sizes_ok _ _ _ _ _ Hi) as [_ Hwr]. pose proof (led_writes _ _ _ Hl) as Hlw.
    rewrite Hw in Hlw. exact (msum_zero_inv (λ _ b, b) (writers (owners S)) g b Hwr (eq_sym Hlw) Hg).
Qed.

Lemma cached_durable :
  fenced (receipts st) = false →
  unknown (totals (receipts st)) = Z.of_nat (size (obligations (owners S))) ∧
  ∀ t n, tenant_unknown st t = Some n → n = owed_by t (obligations (owners S)).
Proof.
  intros Hf. pose proof (inv_coherent _ _ _ _ _ Hi Hf) as Hc. split; [by destruct Hc|].
  intros t n. by apply (tenant_unknown_owed (controller config id) (configured_budgets _ _ _ _ Hv)).
Qed.

(** C31: no wakeup is lost: in every reachable state the waiter that may enter next belongs to a call
    of [acquire_until] that is running or, if it sleeps, has a permit to wake up. *)
Theorem next_waiter_is_awake x :
  next_eligible st (profile (controller config id)) = Some x →
  ∃ f, futures S !! waiter_id x = Some f ∧ f_waiter f = x ∧ (phase f = Parked → permit f = true).
Proof. apply (wa_next _ _ _ (si_waits _ _ Hs)). Qed.

(** A closed controller has no waiters, and a fenced accounting is published to the readers
    that do not take the mutex. *)
Theorem closed_and_fenced_are_visible :
  (closed st = true → queue st = []) ∧
  (fenced (receipts st) = true → receipts_ready (world S) = false).
Proof.
  split; [apply (si_closed _ _ Hs)|]. intros Hf. unfold receipts_ready. by rewrite (si_flag _ _ Hs Hf).
Qed.
End guarantees.

(** ** The ledger *)

(** C3: in every reachable state every counter of the controller equals what its owners hold: the
    active and uncovered counts, in total and per tenant, count the leases not yet bound and the
    live executions; the reservations are one fixed amount per running execution plus what repairs
    were charged; pins, repairs, learning jobs, uploads, writers and waiters are each counted once. *)
Theorem ledger_is_exact MAX clock config id d S :
  valid_config MAX clock config → reachable config id d S →
  Ledger (state (world S)) (arcs (world S)) (owners S).
Proof. intros Hv Hr. exact (inv_ledger _ _ _ _ _ (si_world _ _ (admission_inv _ _ _ _ Hv _ _ Hr))). Qed.

(** While the storage is not fenced, the cached counts are what the durable projection holds:
    the instance's count is the number of obligations, and a tenant's cached count is the number
    of the tenant's obligations. *)
Theorem cached_counts_are_durable MAX clock config id d S :
  valid_config MAX clock config → reachable config id d S →
  fenced (receipts (state (world S))) = false →
  unknown (totals (receipts (state (world S)))) = Z.of_nat (size (obligations (owners S))) ∧
  ∀ t n, tenant_unknown (state (world S)) t = Some n → n = owed_by t (obligations (owners S)).
Proof. intros Hv Hr. exact (cached_durable _ _ _ _ _ _ Hv Hr). Qed.

(** A quiescent snapshot tells the truth: when an observation of a reachable state is quiescent,
    the controller is closed and no lease, live execution, upload, writer, repair or waiter is
    left, in the controller or in the hands of its callers. *)
Theorem quiescent_has_no_owners MAX clock config id d S :
  valid_config MAX clock config → reachable config id d S → ∀ s,
  observed_capacity false (world S) = Ok s → quiescent s = true →
  closed (state (world S)) = true ∧ leases (owners S) = ∅ ∧ executions (state (world S)) = ∅ ∧
  uploads (owners S) = ∅ ∧ repairing (owners S) = ∅ ∧ queue (state (world S)) = [] ∧
  ∀ g b, writers (owners S) !! g = Some b → b = 0.
Proof. intros Hv Hr. exact (quiescent_snapshot _ _ _ _ _ _ Hv Hr). Qed.
