(* ===== verification/TenancySteps.v ===== *)
(** What one call of tenant admission does from a reachable state: dropping an owner never fences, a known outcome
    is always applied, and closing and fencing are final. Then the waiting queue: expiring it terminates and
    keeps its order, and who enters next is decided by the order of arrival among the first waiters of each
    tenant. *)
From stdpp Require Import base list strings gmap sorting.
From Stdlib Require Import ZArith Lia.
From S2P Require Import Prelude MapSum TenancyCapacity TenancyState TenancyAdmission.
From S2P Require Import TenancyUnknown TenancySystem TenancyLedger TenancyLease TenancyRepair TenancyPublish.
From S2P Require Import TenancySettle TenancyPrepare TenancyInvariant TenancyTheorems.
Open Scope Z_scope.

Section steps.
Context (adm : Admission) (Hb : Budgets adm).
Implicit Types (w : World) (e : Env) (S : Sys).

Lemma commit_cases {A} e S (change : World → World * A) k :
  SInv adm S → env_ok e →
  ∃ w2 w' a wake, WInv adm (update_begin e (world S)).1 (owners S) ∧ Begun (world S) (update_begin e (world S)).1 ∧
    change (update_begin e (world S)).1 = (w2, a) ∧ Ended adm w2 w' wake ∧
    commit S (update adm e (world S) change) k =
      k a {| world := w'; futures := notify wake (futures S); owners := owners S |}.
Proof.
  intros Hi He. destruct (update adm e (world S) change) as [[[w' a] wake] b] eqn:Hu.
  destruct (update_ok adm Hb _ _ _ _ _ _ _ _ Hu He (si_world _ _ Hi)) as (w1 & w2 & -> & Hi1 & Hbe & Hc & Hen & _).
  exists w2, w', a, wake. by split_and!.
Qed.

(** ** Dropping owners *)

Definition owner_drop (c : call) : bool :=
  match c with
  | Release _ | Unpin _ | Close_ingress _ | End_write _ | Unlearn _ | Leave _ => true | _ => false end.
Lemma drop_case e S (change : World → World * unit) k :
  SInv adm S → env_ok e → (∀ a S, world (k a S) = world S) →
  (∀ w1 w2 a, WInv adm w1 (owners S) → change w1 = (w2, a) →
    fenced (receipts (state w2)) = fenced (receipts (state w1))) →
  fenced (receipts (state (world (commit S (update adm e (world S) change) k)))) =
    fenced (receipts (state (update_begin e (world S)).1)).
Proof.
  intros Hi He Hk Hch. destruct (commit_cases e S change k Hi He) as (w2 & w' & a & wake & Hi1 & _ & Hc & Hen & ->).
  rewrite Hk. cbn [world]. rewrite (en_receipts _ _ _ _ Hen). by apply (Hch _ _ a).
Qed.
Lemma idle_fenced st t : fenced (receipts (idle st t)) = fenced (receipts st).
Proof. by destruct (idle_fields st t) as (_ & _ & -> & _). Qed.
Lemma remove_fenced st x : fenced (receipts (remove st x)) = fenced (receipts st).
Proof.
  unfold remove. destruct (list_find _ _) as [[i y]|]; [|done].
  by destruct (unqueue_fields (set_queue st (delete i (queue st))) (w_tenant x)) as (_ & -> & _).
Qed.
Lemma owner_drop_fenced c e S S' :
  owner_drop c = true → SInv adm S → env_ok e → exec adm c e S = Some S' →
  fenced (receipts (state (world S'))) = fenced (receipts (state (update_begin e (world S)).1)).
Proof.
  intros Hd Hi He Hx. destruct c; try done; cbn [exec] in Hx; apply bind_Some in Hx as (x & Hg & Hx); injection Hx as <-.
  - apply drop_case; try done. by intros w1 w2 [] _ [= <-].
  - destruct (commit_cases e S (finish_physical_write x) (λ _, with_owners (λ o, set_writers (delete g (writers o)) o)) Hi He)
      as (w2 & w' & a & wake & Hi1 & _ & Hc & Hen & ->). cbn [world with_owners]. rewrite (en_receipts _ _ _ _ Hen).
    pose proof (led_writes _ _ _ (inv_ledger _ _ _ _ _ Hi1)) as Hlw.
    destruct (Inv_sizes_ok _ _ _ _ _ Hi1) as [_ Hw].
    pose proof (msum_lookup_le (λ _ b, b) (writers (owners S)) g x Hw Hg) as Hle. cbn in Hle.
    unfold finish_physical_write, TenancyCapacity.finish_physical_write in Hc. rewrite sub_ok in Hc by lia.
    by injection Hc as <- <-.
  - apply drop_case; try done. intros w1 w2 [] _ [= <-]. cbn. by rewrite remove_fenced.
  - apply lease_of_owned in Hg as [Hl Hc]. apply drop_case; try done. intros w1 w2 [] Hi1 Hr.
    unfold lease_drop in Hr. rewrite Hc in Hr.
    destruct (release_ok adm _ _ _ _ _ _ Hi1 Hl) as (st' & h' & Hro & _ & Hf). rewrite Hro in Hr. by injection Hr as <-.
  - apply drop_case; try done. intros w1 w2 [] _ [= <-]. cbn. by rewrite idle_fenced.
  - apply drop_case; try done. intros w1 w2 [] Hi1 Hr.
    destruct (pin_drop_ok adm w1 (owners S) g x Hi1 Hg) as [_ Hf]. rewrite Hr in Hf. exact Hf.
Qed.

Lemma remove_closed st x : closed (remove st x) = closed st.
Proof.
  unfold remove. destruct (list_find _ _) as [[i y]|]; [|done].
  by destruct (unqueue_fields (set_queue st (delete i (queue st))) (w_tenant x)) as (_ & _ & _ & _ & ->).
Qed.
Lemma idle_closed st t : closed (idle st t) = closed st.
Proof. by destruct (idle_fields st t) as (_ & _ & _ & _ & _ & _ & _ & _ & _ & ->). Qed.

(** ** Known outcomes *)

Definition outcome (rollback : bool) (drop : Env) : call :=
  if rollback then Rollback drop else Publish drop.

Lemma known_outcome (rollback : bool) p drop e S :
  SInv adm S → env_ok e → publication (owners S) = Some p →
  fenced (receipts (state (update_begin e (world S)).1)) = false →
  ∃ S', exec adm (outcome rollback drop) e S = Some S' ∧
    owners S' = set_owed None (owed_final (owners S) p rollback) (owners S) ∧
    publication_pending (state (world S')) = None ∧ fenced (receipts (state (world S'))) = false ∧
    unknown_generation (state (world S')) = unknown_generation (state (world S)) + of_bool (negb rollback).
Proof.
  intros Hi He Hpub Hf.
  pose proof (pr_unfinished _ _ _ (pe_prepared _ _ _ (inv_pending _ _ _ _ _ (si_world _ _ Hi)) p Hpub)) as Hpf.
  destruct (update adm e (world S) (finish_change p rollback)) as [[[w' a] wake] b] eqn:Hu.
  destruct (update_ok adm Hb _ _ _ _ _ _ _ _ Hu He (si_world _ _ Hi)) as (w1 & w2 & -> & Hi1 & Hbe & Hc & Hen & _).
  destruct (finish_change_ok adm Hb _ (owners S) p rollback Hi1 Hpub Hf) as (w3 & Hw3 & _ & Hf3 & Hg & Hpp & _).
  rewrite Hc in Hw3. injection Hw3 as -> ->.
  rewrite <-(en_receipts _ _ _ _ Hen) in Hf3. rewrite <-(en_publication _ _ _ _ Hen) in Hpp.
  rewrite <-(en_generation _ _ _ _ Hen), (be_generation _ _ Hbe) in Hg.
  destruct rollback; cbn [exec outcome]; rewrite Hpub; cbn [mbind option_bind]; unfold finish; rewrite Hpf;
    cbn [disposition orb expected]; rewrite bool_decide_eq_true_2 by done; cbn [negb]; rewrite Hu;
    (eexists; split; [reflexivity|]); by split_and!.
Qed.

(** ** Closing and fencing *)

Definition stopped w : bool := fenced (receipts (state w)) || closed (state w).
Record Kept_shut w1 w2 : Prop := {
  ks_fenced : fenced (receipts (state w1)) = true → fenced (receipts (state w2)) = true;
  ks_closed : closed (state w1) = true → closed (state w2) = true }.
Definition no_new_lease S S' : Prop := ∀ i t, leases (owners S') !! i = Some t → leases (owners S) !! i = Some t.
(** What a step keeps. *)
Definition shut_step S S' : Prop :=
  Kept_shut (world S) (world S') ∧ (stopped (world S) = true → no_new_lease S S').
Lemma Kept_shut_refl w : Kept_shut w w.
Proof. by constructor. Qed.
Lemma Kept_shut_state w1 w2 :
  fenced (receipts (state w2)) = fenced (receipts (state w1)) → closed (state w2) = closed (state w1) → Kept_shut w1 w2.
Proof. intros H1 H2. constructor; congruence. Qed.
Lemma begun_stopped w w1 : Begun w w1 → stopped w = true → stopped w1 = true.
Proof.
  intros Hbe. unfold stopped. rewrite !orb_true_iff. intros [?|?]; [left; by apply (be_fenced _ _ Hbe)|right; by apply (be_closed _ _ Hbe)].
Qed.
Lemma shut_case {A} e S (change : World → World * A) k :
  SInv adm S → env_ok e →
  (∀ w1 w2 a, change w1 = (w2, a) → Kept_shut w1 w2 ∧ ∀ S0, world (k a S0) = world S0 ∧
     (stopped w1 = true → no_new_lease S0 (k a S0))) →
  shut_step S (commit S (update adm e (world S) change) k).
Proof.
  intros Hi He Hch. destruct (commit_cases e S change k Hi He) as (w2 & w' & a & wake & _ & Hbe & Hc & Hen & ->).
  destruct (Hch _ _ _ Hc) as [[Hf Hcl] Hk].
  destruct (Hk {| world := w'; futures := notify wake (futures S); owners := owners S |}) as [Hw Hl].
  split.
  - rewrite Hw. constructor; cbn [world].
    + rewrite (en_receipts _ _ _ _ Hen). intros H. by apply Hf, (be_fenced _ _ Hbe).
    + rewrite (en_same _ _ _ _ Hen). intros H. by apply Hcl, (be_closed _ _ Hbe).
  - intros Hs. apply (begun_stopped _ _ Hbe) in Hs. exact (Hl Hs).
Qed.
(** A call that hands out no lease. *)
Lemma shut_plain {A} e S (change : World → World * A) k :
  SInv adm S → env_ok e → (∀ w1 w2 a, change w1 = (w2, a) → Kept_shut w1 w2) →
  (∀ a S, world (k a S) = world S ∧ leases (owners (k a S)) = leases (owners S)) →
  shut_step S (commit S (update adm e (world S) change) k).
Proof.
  intros Hi He Hch Hk. apply shut_case; [done..|]. intros w1 w2 a Hc. split; [by eapply Hch|].
  intros S0. destruct (Hk a S0) as [? Hl]. split; [done|]. intros _ i t. by rewrite Hl.
Qed.
Lemma shut_attempt {A} e S (f : World → result ErrorCode (World * A)) k :
  SInv adm S → env_ok e → (∀ w1 w2 a, f w1 = Ok (w2, a) → Kept_shut w1 w2) →
  (∀ a S, world (k a S) = world S ∧ leases (owners (k a S)) = leases (owners S)) →
  shut_step S (commit S (update adm e (world S) (attempt f)) k).
Proof.
  intros Hi He Hch. apply shut_plain; [done..|]. intros w1 w2 [a|c] Hc.
  - apply attempt_ok in Hc. by eapply Hch.
  - apply attempt_err in Hc as ->. apply Kept_shut_refl.
Qed.
Lemma shut_refused {A} S c (k : A → Sys → Sys) : shut_step S (commit S (world S, Err c, [], false) (on_ok k)).
Proof. split; [apply Kept_shut_refl|]. by intros _ i t. Qed.

(** A stopped controller reserves nothing. *)
Lemma fenced_not_ready st t : fenced (receipts st) = true → TenancyState.receipts_ready st t = false.
Proof.
  intros Hf. unfold TenancyState.receipts_ready. rewrite andb_false_iff. right.
  unfold is_some_and. destruct (tenant_unknown st t); [|done]. unfold ready, globally_ready. by rewrite Hf.
Qed.
Lemma reserve_shut st t st' : State_reserve st t = Ok st' →
  fenced (receipts st) = false ∧ fenced (receipts st') = false ∧ closed st' = closed st.
Proof.
  intros Hs. destruct (State_reserve_ok _ _ _ Hs) as (n & _ & Hrdy & _ & a & Ha & _ & _ & Hre & _ & Hcl & _).
  assert (fenced (receipts st) = false) as Hf.
  { unfold ready, globally_ready in Hrdy. by destruct (fenced (receipts st)). }
  split_and!; [done| |done]. destruct (Accounting_reserve_ok _ _ _ _ Ha) as (_ & Heq & _).
  by rewrite Hre, Heq.
Qed.
Lemma grant_stopped w t st' : State_reserve (state w) t = Ok st' → closed (state w) = false → stopped w = false.
Proof. intros Hs Hc. unfold stopped. destruct (reserve_shut _ _ _ Hs) as (-> & _). by rewrite Hc. Qed.
Lemma shut_acquire t limits rd now e S S' :
  SInv adm S → env_ok e → exec adm (Acquire t limits rd now) e S = Some S' → shut_step S S'.
Proof.
  intros Hi He [= <-]. apply shut_case; [done..|]. intros w1 w2 r Hc. unfold enter in Hc.
  destruct (register _ _ _ _ _ _ _) as [w0 [[|q]|c]] eqn:Hreg.
  - destruct (register_ok _ _ _ _ _ _ _ _ _ Hreg) as (Hcl & _ & _ & _ & _ & st' & Hs & ->). injection Hc as <- <-.
    destruct (reserve_shut _ _ _ Hs) as (H1 & H2 & H3).
    split; [apply Kept_shut_state; cbn; congruence|]. intros S0. split; [done|].
    by rewrite (grant_stopped _ _ _ Hs Hcl).
  - destruct (register_ok _ _ _ _ _ _ _ _ _ Hreg) as (_ & _ & _ & _ & _ & _ & _ & _ & ->). injection Hc as <- <-.
    split; [by apply Kept_shut_state|]. intros S0. split; [done|]. by intros _ i t'.
  - unfold register in Hreg. apply attempt_err in Hreg as ->. injection Hc as <- <-.
    split; [apply Kept_shut_refl|]. intros S0. split; [done|]. by intros _ i t'.
Qed.
Lemma shut_poll i e S S' :
  SInv adm S → env_ok e → exec adm (Poll i) e S = Some S' → shut_step S S'.
Proof.
  intros Hi He Hx. cbn [exec] in Hx. apply bind_Some in Hx as (f & Hf & Hx).
  destruct (bool_decide _); [|done]. injection Hx as <-.
  apply shut_case; [done..|]. intros w1 w2 r Hc. unfold poll_grant in Hc.
  destruct (poll _ _ _ _) as [w0 pr] eqn:Hp.
  destruct (poll_ok _ _ _ _ _ _ Hp) as [(c & -> & ->)|[(-> & -> & _)|(-> & x & st' & Hnx & _ & Hs & ->)]].
  - injection Hc as <- <-. split; [apply Kept_shut_refl|]. intros S0. split; [done|]. by intros _ j t.
  - injection Hc as <- <-. split; [apply Kept_shut_refl|]. intros S0. split; [done|]. by intros _ j t.
  - injection Hc as <- <-. destruct (reserve_shut _ _ _ Hs) as (H1 & H2 & H3).
    destruct (next_eligible_ready adm _ _ Hnx) as (_ & Hcl & _).
    split; [apply Kept_shut_state; cbn; rewrite ?remove_fenced, ?remove_closed; congruence|].
    intros S0. split; [done|]. by rewrite (grant_stopped _ _ _ Hs Hcl).
Qed.
Lemma shut_try_acquire t limits dl e S S' :
  SInv adm S → env_ok e → exec adm (Try_acquire t limits dl) e S = Some S' → shut_step S S'.
Proof.
  intros Hi He [= <-]. apply shut_case; [done..|]. intros w1 w2 [l|c] Hc.
  - unfold try_acquire in Hc. apply attempt_ok in Hc. cbn in Hc.
    apply bind_ok in Hc as ([] & Hcl%ensure_ok%negb_true_iff & Hc). apply bind_ok in Hc as ([] & _ & Hc).
    apply bind_ok in Hc as (st' & Hs & [= <- <-]). destruct (reserve_shut _ _ _ Hs) as (H1 & H2 & H3).
    split; [apply Kept_shut_state; cbn; congruence|]. intros S0. split; [done|]. by rewrite (grant_stopped _ _ _ Hs Hcl).
  - unfold try_acquire in Hc. apply attempt_err in Hc as ->. split; [apply Kept_shut_refl|]. intros S0. split; [done|]. by intros _ i t'.
Qed.
Lemma release_shut st h t i st' h' : release_lease st h t i = Ok (st', h') →
  fenced (receipts st') = fenced (receipts st) ∧ closed st' = closed st.
Proof.
  unfold release_lease. intros Hr. apply bind_ok in Hr as ([[key cov]|] & _ & Hr); [|by injection Hr as <- <-].
  res_inv. rewrite idle_fenced, idle_closed. by destruct key.
Qed.
Lemma idle_all_closed st l : closed (idle_all st l) = closed st.
Proof.
  unfold idle_all. revert st. induction l as [|tc l IH]; intros st; cbn; [done|]. by rewrite IH, idle_closed.
Qed.
Lemma pin_shut st t n st' w : add_pin st t n = Ok st' → st = state w → Kept_shut w (set_state w st').
Proof. unfold add_pin. intros Ha ->. res_inv. by apply Kept_shut_state. Qed.
Lemma prepare_shut read planned w1 w2 r : prepare_change read planned w1 = (w2, r) → Kept_shut w1 w2.
Proof.
  unfold prepare_change. destruct r as [p|c]; intros Hp.
  - apply attempt_ok in Hp. cbn in Hp.
    apply bind_ok in Hp as ([] & _ & Hp). apply bind_ok in Hp as ([] & _ & Hp).
    destruct (try_fold (claim_next _ _) _ _) as [[cl dl]|]; cbn in Hp; [|done].
    apply bind_ok in Hp as (ch & _ & Hp). destruct (calculate _ _ _ _) as [[[ts next] act]|]; cbn in Hp; [|done].
    injection Hp as <- _. rewrite mark_steps_eq, pin_tenants_eq. by apply Kept_shut_state.
  - apply attempt_err in Hp as ->. apply Kept_shut_refl.
Qed.
Lemma finish_shut p rollback w1 w2 r : finish_change p rollback w1 = (w2, r) → Kept_shut w1 w2.
Proof.
  unfold finish_change. destruct r as [[]|c]; intros Hf.
  - apply attempt_ok in Hf. cbn in Hf.
    apply bind_ok in Hf as ([] & _ & Hf). destruct (calculate _ _ _ _) as [[[ts next] act]|] eqn:Hc; cbn in Hf; [|done].
    assert (∀ l sh, fenced (receipts (foldl (settle_step rollback) sh l).1) = fenced (receipts sh.1) ∧
      closed (foldl (settle_step rollback) sh l).1 = closed sh.1) as Hfold.
    { induction l as [|s l IH]; intros [st h]; cbn [foldl]; [done|].
      destruct (IH (settle_step rollback (st, h) s)) as [-> ->]. unfold settle_step.
      destruct (step_owner s), (executions st !! step_key s); try done. by destruct (dropped _). }
    rewrite settle_tenants_eq in Hf.
    match type of Hf with context [foldl (settle_step rollback) ?sh ?l] => destruct (Hfold l sh) as [H1 H2];
      destruct (foldl (settle_step rollback) sh l) as [st' h'] end.
    injection Hf as <-. cbn in H1, H2. apply Kept_shut_state; cbn.
    + destruct (idle_all_fields (set_publication st' (if rollback then unknown_generation st' else unknown_generation st' +% 1) None) ts)
        as (-> & _). exact H1.
    + rewrite idle_all_closed. exact H2.
  - apply attempt_err in Hf as ->. apply Kept_shut_refl.
Qed.
Ltac shut_open := match goal with
  | H : (if ?b then _ else _) = Some _ |- _ => destruct b eqn:?; [|done]
  | H : (_ ≫= _) = Some _ |- _ => apply bind_Some in H as (? & ? & H)
  end.
Lemma shut_simple c e S S' :
  match c with Acquire _ _ _ _ | Poll _ | Try_acquire _ _ _ | Publish _ | Rollback _ => False | _ => True end →
  SInv adm S → env_ok e → exec adm c e S = Some S' → shut_step S S'.
Proof.
  intros Hc Hi He Hx. destruct c; try done; clear Hc; cbn [exec] in Hx; repeat shut_open; injection Hx as <-.
  - unfold open_ingress. destruct (_ <? _); [apply shut_refused|]. apply shut_attempt; [done|done| |by intros [] ?].
    intros w1 w2 a Hch. cbn in Hch. res_inv. by apply Kept_shut_state.
  - apply shut_plain; [done|done| |by split]. intros w1 w2 a [= <- _]. by apply Kept_shut_state.
  - apply shut_attempt; [done|done| |by intros [] ?]. intros w1 w2 a Hch. cbn in Hch. res_inv.
    unfold TenancyCapacity.reserve_physical_write in *. res_inv. by apply Kept_shut_state.
  - apply shut_plain; [done|done| |by split]. intros w1 w2 r Hch.
    unfold finish_physical_write, TenancyCapacity.finish_physical_write in Hch.
    destruct (_ -? _); injection Hch as <- <-; by constructor.
  - apply shut_plain; [done|done| |by split]. intros w1 w2 r Hch. unfold archive_receipt in Hch.
    destruct (archived _ _ _); injection Hch as <- <-; by constructor.
  - apply shut_plain; [done|done| |by split]. intros w1 w2 [a|c] Hch.
    + unfold initialize_receipts in Hch. apply attempt_ok in Hch. cbn in Hch. unfold initialize in Hch. res_inv.
      apply Kept_shut_state; [|done]. cbn. unfold observed_free. by destruct (is_some _).
    + unfold initialize_receipts in Hch. apply attempt_err in Hch as ->. apply Kept_shut_refl.
  - apply shut_plain; [done|done| |by split]. intros w1 w2 r Hch. unfold bind_receipt_volume, bind_volume in Hch.
    destruct (_ || _); injection Hch as <- <-; [by constructor|]. constructor; [|done]. cbn. intros Hf.
    match goal with |- context [set_volume ?a ?v] =>
      destruct (refresh_free_totals (volumes e) (set_volume a v)) as (_ & _ & _ & _ & Hk); by apply Hk end.
  - apply shut_plain; [done|done| |by split]. intros w1 w2 a [= <- _]. apply Kept_shut_state; [|done]. cbn.
    unfold observed_free. by destruct (is_some _).
  - apply shut_plain; [done|done| |by split]. intros w1 w2 a [= <- _]. by constructor.
  - apply shut_plain; [done|done| |by split]. intros w1 w2 a [= <- _]. by constructor.
  - apply shut_plain; [done|done| |by split]. intros w1 w2 a [= <- _]. by constructor.
  - split; [apply Kept_shut_refl|]. by intros _ i t.
  - apply shut_plain; [done|done| |by split]. intros w1 w2 a [= <- _].
    apply Kept_shut_state; cbn; [apply remove_fenced|apply remove_closed].
  - apply shut_plain; [done|done| |by split]. intros w1 w2 [a|c] Hch; unfold bind_execution in Hch.
    + apply attempt_ok in Hch. cbn in Hch. apply bind_ok in Hch as ([] & _ & Hch).
      destruct (c_execution _); res_inv; by apply Kept_shut_state.
    + apply attempt_err in Hch as ->. apply Kept_shut_refl.
  - apply shut_case; [done..|]. intros w1 w2 a Hch. split.
    + unfold lease_drop in Hch. destruct (release_lease _ _ _ _) as [[st' h']|] eqn:Hr; injection Hch as <- _.
      * destruct (release_shut _ _ _ _ _ _ Hr). by apply Kept_shut_state.
      * by constructor.
    + intros S0. split; [done|]. intros _ i t Hl. cbn in Hl. by apply lookup_delete_Some in Hl as [_ ?].
  - unfold confirm_receipt. destruct (done _); [split; [apply Kept_shut_refl|by intros _ i t]|].
    assert (shut_step S (commit S (update adm e (world S) fence_receipts) (λ _, Datatypes.id))) as Hch.
    { apply shut_plain; [done|done| |by split]. intros w1 w2 a [= <- _]. by constructor. }
    by destruct (update adm e (world S) fence_receipts) as [[[? ?] ?] ?].
  - apply shut_attempt; [done|done| |by intros [] ?]. intros w1 w2 a Hch. cbn in Hch. res_inv. by apply Kept_shut_state.
  - apply shut_plain; [done|done| |by split]. intros w1 w2 a [= <- _].
    apply Kept_shut_state; cbn; [by rewrite idle_fenced|by rewrite idle_closed].
  - apply shut_attempt; [done|done| |by intros [[]|] ?]. intros w1 w2 a Hch. cbn in Hch.
    apply bind_ok in Hch as ([] & _ & Hch). destruct (tenant_unknown _ _); cbn in Hch; res_inv; [|apply Kept_shut_refl].
    by apply (pin_shut _ _ _ _ w1 Hv).
  - unfold seed_unknown. destruct (admission_id adm =? _); [|apply shut_refused].
    apply shut_attempt; [done|done| |by intros [] ?]. intros w1 w2 a Hch. cbn in Hch. res_inv.
    match goal with Ha : add_pin _ _ _ = Ok _ |- _ => by apply (pin_shut _ _ _ _ w1 Ha) end.
  - apply shut_plain; [done|done| |by split]. intros w1 w2 a Hch. constructor.
    + injection Hch as <- _. cbn. rewrite idle_fenced. by destruct (_ ≫= _).
    + injection Hch as <- _. cbn. rewrite idle_closed. by destruct (_ ≫= _).
  - unfold prepare_unknown. destruct (_ ← ensure _ _; plan_steps _ _) as [planned|c]; [|apply shut_refused].
    apply shut_plain; [done|done|apply prepare_shut|by intros [] ?].
  - apply shut_plain; [done|done| |by split]. intros w1 w2 a [= <- _]. by constructor.
  - unfold reserve_repair. destruct (plan_repair _ _ _ _ _); [|apply shut_refused].
    apply shut_attempt; [done|done| |by intros [] ?]. intros w1 w2 res Hch. cbv zeta in Hch. res_inv; cbv zeta in *; res_inv.
    match goal with x : Accounting * Z |- _ => destruct x as [acc ch] end. res_inv.
    match goal with Ha : Accounting_reserve_repair _ _ _ _ = Ok _ |- _ =>
      destruct (Accounting_reserve_repair_ok _ _ _ _ _ _ Ha) as (_ & _ & _ & -> & _) end.
    by apply Kept_shut_state.
  - apply shut_attempt; [done|done| |by intros [] ?]. intros w1 w2 res Hch. cbv zeta in Hch. res_inv; cbv zeta in *; res_inv.
    apply Kept_shut_state; cbn; [by rewrite idle_fenced|by rewrite idle_closed].
  - split; [by apply Kept_shut_state|]. by intros _ i t.
Qed.
Lemma shut_finish (rollback : bool) p drop e S S' :
  SInv adm S → env_ok e → env_ok drop → publication (owners S) = Some p →
  exec adm (outcome rollback drop) e S = Some S' → shut_step S S'.
Proof.
  intros Hi He Hed Hpub Hx. pose proof (finish_inv adm Hb p rollback e S He Hi Hpub) as Hs.
  assert (shut_step S (commit S (finish adm e p rollback {| proof_live := true; disposition := expected rollback |} (world S))
    (λ r S, match r with
            | Ok _ => with_owners (λ o, set_owed None (owed_final o p rollback) o) S
            | Err _ => S end))) as H1.
  { unfold finish. destruct (_ || _); [split; [apply Kept_shut_refl|by intros _ i t]|].
    apply shut_plain; [done|done| |by intros []]. intros w1 w2 r. apply finish_shut. }
  destruct (finish adm e p rollback {| proof_live := true; disposition := expected rollback |} (world S))
    as [[[w' r] wake] b] eqn:Hu.
  set (S1 := {| world := w'; futures := notify wake (futures S); owners := owners S |}).
  assert (∀ fo : Owners → Owners, (∀ o, leases (fo o) = leases o) → shut_step S S1 → SInv adm S1 →
    shut_step S (commit S1 (update adm drop (world S1) fence_receipts) (λ _, with_owners fo))) as Hdrop.
  { intros fo Hfo [[Hf Hc] Hn] Hi1.
    destruct (shut_plain drop S1 fence_receipts (λ _, with_owners fo) Hi1 Hed) as [[Hf2 Hc2] _].
    - intros w1 w2 a [= <- _]. by constructor.
    - intros a S0. by split; [|apply Hfo].
    - split; [constructor; intros ?; [by apply Hf2, Hf|by apply Hc2, Hc]|]. intros Hst i t Hit.
      apply (Hn Hst). destruct (update adm drop (world S1) fence_receipts) as [[[? ?] ?] ?]. cbn in Hit.
      by rewrite Hfo in Hit. }
  destruct rollback; cbn [exec outcome] in Hx; rewrite Hpub in Hx; cbn [mbind option_bind] in Hx; cbn [expected] in *;
    rewrite Hu in Hx; cbn [commit] in Hx, Hs, H1; fold S1 in Hx, Hs, H1; destruct r as [[]|err].
  - by injection Hx as <-.
  - specialize (Hdrop id ltac:(done) H1 Hs). injection Hx as <-. unfold publication_drop.
    change (world S1) with w' in *. by destruct (update adm drop w' fence_receipts) as [[[? []] ?] ?].
  - by injection Hx as <-.
  - specialize (Hdrop (set_owed (Some p) (owed_after p (obligations (owners S)))) ltac:(done) H1 Hs).
    injection Hx as <-. unfold publication_drop.
    change (world S1) with w' in *. by destruct (update adm drop w' fence_receipts) as [[[? []] ?] ?].
Qed.
Lemma shut_all S S' : SInv adm S → sys_step adm S S' → shut_step S S'.
Proof.
  intros Hi (c & e & He & Hc & Hx). destruct c; try (by eapply shut_simple; [..|exact Hx]; done).
  - by eapply shut_acquire.
  - by eapply shut_poll.
  - by eapply shut_try_acquire.
  - pose proof Hx as Hp. cbn [exec] in Hp. apply bind_Some in Hp as (p & Hp & _).
    by apply (shut_finish false p drop e).
  - pose proof Hx as Hp. cbn [exec] in Hp. apply bind_Some in Hp as (p & Hp & _).
    by apply (shut_finish true p drop e).
Qed.
End steps.

(** ** The guarantees *)

Section guarantees.
Context (MAX : Z) (clock : Z → bool) (config : CapacityConfig) (id : Z) (d : gset Key) (S : Sys).
Context (Hv : valid_config MAX clock config) (Hr : reachable config id d S).
Local Notation adm := (controller config id).

(** C36: dropping an owner never fences the storage: whatever a lease, a pin, an upload, a writer, a
    learning job or a waiting call holds in a reachable state, its drop gives it back without an
    error, and the accounting is fenced afterwards only if it already was when the drop took the
    mutex. *)
Theorem drops_never_fence c e S' :
  owner_drop c = true → env_ok e → exec adm c e S = Some S' →
  fenced (receipts (state (world S'))) = fenced (receipts (state (update_begin e (world S)).1)).
Proof.
  intros Hd He. apply owner_drop_fenced; try done; [by eapply configured_budgets|by eapply admission_inv].
Qed.

(** C14: a prepared publication whose transaction is known to have committed, or to have rolled back,
    is always applied unless the storage is fenced: none of its checks fails, nothing is pending
    afterwards, and the generation moves exactly when it committed. *)
Theorem known_outcome_is_applied (rollback : bool) p drop e :
  env_ok e → publication (owners S) = Some p →
  fenced (receipts (state (update_begin e (world S)).1)) = false →
  ∃ S', exec adm (outcome rollback drop) e S = Some S' ∧
    publication (owners S') = None ∧ publication_pending (state (world S')) = None ∧
    fenced (receipts (state (world S'))) = false ∧
    obligations (owners S') = (if rollback then obligations (owners S) else owed_after p (obligations (owners S))) ∧
    unknown_generation (state (world S')) = unknown_generation (state (world S)) + of_bool (negb rollback).
Proof.
  intros He Hp Hf. destruct (known_outcome adm (configured_budgets _ _ _ id Hv) rollback p drop e S) as (S' & Hx & Ho & H1 & H2 & H3);
    try done; [by eapply admission_inv|].
  exists S'. rewrite Ho. by split_and!.
Qed.

(** Closing and fencing are final: no call of the controller reopens it or lifts the fence, and
    once it is closed or fenced no call hands out another lease. *)
Theorem stopping_is_final S' :
  sys_step adm S S' →
  (fenced (receipts (state (world S))) = true → fenced (receipts (state (world S'))) = true) ∧
  (closed (state (world S)) = true → closed (state (world S')) = true) ∧
  (stopped (world S) = true → no_new_lease S S').
Proof.
  intros Hs. destruct (shut_all adm (configured_budgets _ _ _ id Hv) S S') as [[Hf Hc] Hn]; [by eapply admission_inv|done|].
  by split_and!.
Qed.
End guarantees.

(** ** Expiry *)

Definition expired (now : Z) (x : Waiter) : Prop := deadline x ≤ now.
#[export] Instance expired_dec now x : Decision (expired now x).
Proof. unfold expired. apply _. Defined.

Lemma expire_loop_spec now fuel st pre rest wake :
  queue st = pre ++ rest → (length rest < fuel)%nat →
  ∃ st', expire_loop fuel now st (length pre) wake = Some (st', wake ++ filter (expired now) rest) ∧
    queue st' = pre ++ filter (λ x, ¬ expired now x) rest.
Proof.
  revert st pre rest wake. induction fuel as [|fuel IH]; intros st pre rest wake Hq Hf; [lia|].
  cbn [expire_loop]. rewrite Hq. destruct rest as [|x rest].
  - rewrite app_nil_r, lookup_ge_None_2 by lia. exists st. split; [by rewrite app_nil_r|by rewrite app_nil_r in *].
  - rewrite list_lookup_middle by done. destruct (Z.leb_spec (deadline x) now) as [Hle|Hgt].
    + rewrite delete_middle.
      destruct (IH (unqueue (set_queue st (pre ++ rest)) (w_tenant x)) pre rest (wake ++ [x])) as (st' & He & Hq').
      * by destruct (unqueue_fields (set_queue st (pre ++ rest)) (w_tenant x)) as (-> & _).
      * cbn in Hf. lia.
      * exists st'. rewrite He, Hq'. rewrite !filter_cons, decide_True, decide_False by (unfold expired; lia).
        by rewrite <-app_assoc.
    + destruct (IH st (pre ++ [x]) rest wake) as (st' & He & Hq').
      * by rewrite <-app_assoc.
      * cbn in Hf. lia.
      * exists st'. rewrite length_app, Nat.add_1_r in He. rewrite He, Hq'.
        rewrite !filter_cons, decide_False, decide_True by (unfold expired; lia). by rewrite <-app_assoc.
Qed.

(** expiring the queue terminates: from any state, one turn of the loop more than there are
    waiters is enough; it wakes exactly the waiters whose deadline has passed, and keeps the
    others, both in the order of the queue. *)
Theorem expire_terminates st now fuel :
  (length (queue st) < fuel)%nat →
  ∃ st', expire_loop fuel now st 0 [] = Some (st', filter (expired now) (queue st)) ∧
    queue st' = filter (λ x, ¬ expired now x) (queue st) ∧
    expire st now = (st', filter (expired now) (queue st)).
Proof.
  intros Hf. destruct (expire_loop_spec now fuel st [] (queue st) [] eq_refl Hf) as (st1 & H1 & Hq1).
  destruct (expire_loop_spec now (S (length (queue st))) st [] (queue st) [] eq_refl ltac:(lia)) as (st2 & H2 & Hq2).
  cbn [length app] in *. assert (∀ f1 f2 s i wk r1 r2, expire_loop f1 now s i wk = Some r1 →
    expire_loop f2 now s i wk = Some r2 → r1 = r2) as Hdet.
  { clear. induction f1 as [|f1 IH]; intros [|f2] s i wk r1 r2; cbn; try done.
    destruct (queue s !! i); [|congruence]. destruct (_ <=? _); apply IH. }
  pose proof (Hdet _ _ _ _ _ _ _ H1 H2) as [= ->]. exists st2. split_and!; [done|done|].
  unfold expire. by rewrite H2.
Qed.

(** ** Who enters next *)

Definition can_enter (st : State) (x : Waiter) : Prop :=
  TenancyState.receipts_ready st (w_tenant x) = true ∧
  ∃ c, tenants st !! w_tenant x = Some c ∧ c_active c < active_limit x.
(** The waiter at [i] is the first of its tenant. *)
Definition tenant_head (q : list Waiter) (i : nat) (x : Waiter) : Prop :=
  q !! i = Some x ∧ ∀ j y, (j < i)%nat → q !! j = Some y → w_tenant y ≠ w_tenant x.

Lemma find_eligible_spec st seen q x :
  find_eligible st seen q = Some x ↔
  ∃ i, tenant_head q i x ∧ w_tenant x ∉ seen ∧ can_enter st x ∧
    ∀ j y, (j < i)%nat → tenant_head q j y → w_tenant y ∉ seen → ¬ can_enter st y.
Proof.
  assert (∀ y, is_some_and (λ c, c_active c <? active_limit y) (tenants st !! w_tenant y) = true ↔
    ∃ c, tenants st !! w_tenant y = Some c ∧ c_active c < active_limit y) as Hlim.
  { intros y. destruct (tenants st !! w_tenant y) as [c|]; cbn; [rewrite Z.ltb_lt; naive_solver|naive_solver]. }
  revert seen. induction q as [|y q IH]; intros seen; cbn [find_eligible].
  - split; [done|]. by intros (i & [Hi _] & _).
  - destruct (bool_decide (w_tenant y ∉ seen) && TenancyState.receipts_ready st (w_tenant y) && _) eqn:Hc.
    + apply andb_true_iff in Hc as [[Hs%bool_decide_eq_true Hr]%andb_true_iff Hl%Hlim]. split.
      * intros [= <-]. exists 0%nat. split_and!; [split; [done|lia]|done|done|lia].
      * intros (i & [Hi Hh] & Hsx & Hx & Hn). destruct i as [|i]; [cbn in Hi; congruence|].
        exfalso. apply (Hn 0%nat y); [lia|split; [done|lia]|done|done].
    + assert (w_tenant y ∉ seen → ¬ can_enter st y) as Hny.
      { intros Hs [Hr Hl%Hlim]. rewrite bool_decide_eq_true_2, Hr, Hl in Hc by done. done. }
      rewrite IH. split.
      * intros (i & [Hi Hh] & Hs & Hx & Hn). rewrite not_elem_of_union, not_elem_of_singleton in Hs.
        exists (S i). split_and!; [|tauto|done|].
        -- split; [done|]. intros [|j] z Hj Hz; cbn in Hz; [injection Hz as <-; intros Heq; destruct Hs as [Hs _]; congruence|].
           apply (Hh j); [lia|done].
        -- intros [|j] z Hj [Hz Hhz] Hsz; cbn in Hz; [injection Hz as <-; by apply Hny|].
           apply (Hn j z); [lia| |].
           ++ split; [done|]. intros k u Hk Hu. apply (Hhz (S k)); [lia|done].
           ++ rewrite not_elem_of_union, not_elem_of_singleton. split; [|done].
              intros Heq. by apply (Hhz 0%nat y); [lia| |].
      * intros (i & [Hi Hh] & Hs & Hx & Hn). destruct i as [|i].
        { cbn in Hi. injection Hi as ->. by destruct (Hny Hs). }
        cbn in Hi. exists i. assert (w_tenant y ≠ w_tenant x) as Hyx by (apply (Hh 0%nat); [lia|done]).
        split_and!; [split; [done|]| |done|].
        -- intros j z Hj Hz. apply (Hh (S j)); [lia|done].
        -- rewrite not_elem_of_union, not_elem_of_singleton. split; [congruence|done].
        -- intros j z Hj [Hz Hhz] Hsz. rewrite not_elem_of_union, not_elem_of_singleton in Hsz.
           apply (Hn (S j) z); [lia| |tauto]. split; [done|].
           intros [|k] u Hk Hu; cbn in Hu; [injection Hu as <-; destruct Hsz; congruence|].
           apply (Hhz k); [lia|done].
Qed.

(** The next waiter is the longest waiting of those that may enter: while the controller is open
    and has a slot, it is the first waiter of its tenant, its tenant has room below its limit and
    in the receipts, and no earlier first waiter of another tenant could enter. *)
Theorem next_eligible_iff st p x :
  next_eligible st p = Some x ↔
  closed st = false ∧ active st < p_instance_active p ∧
  ∃ i, tenant_head (queue st) i x ∧ can_enter st x ∧
    ∀ j y, (j < i)%nat → tenant_head (queue st) j y → ¬ can_enter st y.
Proof.
  unfold next_eligible. destruct (closed st); cbn [orb]; [by split; [|intros []]|].
  destruct (Z.leb_spec (p_instance_active p) (active st)); [split; [done|lia]|].
  rewrite find_eligible_spec. split.
  - intros (i & Hh & _ & Hx & Hn). split_and!; [done|lia|]. exists i. split_and!; [done|done|].
    intros j y Hj Hy. apply (Hn j y Hj Hy). apply not_elem_of_empty.
  - intros (_ & _ & i & Hh & Hx & Hn). exists i. split_and!; [done|apply not_elem_of_empty|done|].
    intros j y Hj Hy _. by apply (Hn j).
Qed.

(** ** Newcomers *)

Lemma nobody_can_enter st p i x :
  next_eligible st p = None → closed st = false → active st < p_instance_active p →
  tenant_head (queue st) i x → ¬ can_enter st x.
Proof.
  intros Hn Hc Ha. unfold next_eligible in Hn. rewrite Hc, (proj2 (Z.leb_gt _ _)) in Hn by done. cbn in Hn.
  revert x. induction i as [i IH] using (well_founded_induction Nat.lt_wf_0). intros x Hx He.
  assert (find_eligible st ∅ (queue st) = Some x); [|congruence]. apply find_eligible_spec. exists i.
  split_and!; [done|apply not_elem_of_empty|done|]. intros j y Hj Hy _. by apply (IH j).
Qed.

(** A newcomer never overtakes: when [acquire_until] admits at once, from a reachable state, no
    waiter of the same tenant is in the queue, and the first waiter of no tenant could have entered. *)
Theorem newcomers_wait_behind MAX clock config id d S :
  valid_config MAX clock config → reachable config id d S →
  ∀ e t limit queue_limit dl now w', env_ok e →
  register (controller config id) t limit queue_limit dl now (update_begin e (world S)).1 = (w', Ok Active) →
  (∀ x, x ∈ queue (state (update_begin e (world S)).1) → w_tenant x ≠ t) ∧
  ∀ i x, tenant_head (queue (state (update_begin e (world S)).1)) i x →
    ¬ can_enter (state (update_begin e (world S)).1) x.
Proof.
  intros Hv Hr e t limit queue_limit dl now w' He Hreg. pose proof (configured_budgets _ _ _ id Hv) as Hb.
  pose proof (admission_inv _ _ _ _ Hv _ _ Hr) as Hs.
  destruct (update_begin e (world S)) as [w1 wake] eqn:Hbg.
  destruct (begin_ok _ Hb _ _ _ _ _ Hbg He (si_world _ _ Hs)) as [Hi _]. cbn [fst] in *.
  destruct (register_ok _ _ _ _ _ _ _ _ _ Hreg) as (Hcl & _ & _ & _ & Hme & _). unfold may_enter in Hme.
  apply andb_true_iff in Hme as [[[_ Hact%Z.ltb_lt]%andb_true_iff Hq%Z.eqb_eq]%andb_true_iff Hn%bool_decide_eq_true].
  split; [|intros i x; by apply nobody_can_enter with (profile (controller config id))].
  intros x Hx Ht. rewrite (led_queued _ _ _ (inv_ledger _ _ _ _ _ Hi)) in Hq.
  rewrite countb_filter in Hq. assert (x ∈ List.filter (λ w, bool_decide (w_tenant w = t)) (queue (state w1))) as Hin.
  { apply list_elem_of_In, filter_In. split; [by apply list_elem_of_In|]. by apply bool_decide_eq_true. }
  destruct (List.filter _ _); [by apply elem_of_nil in Hin|]. cbn [length] in Hq. lia.
Qed.
