(* ===== verification/TenancyWitnesses.v ===== *)
(** Concrete instances of the theorems on tenancy: spellings of integers, the default budgets and
    runs of the admission controller from its first call on, executed by the model. *)
From stdpp Require Import base list strings gmap sorting.
From Stdlib Require Import ZArith Lia Ascii.
From S2P Require Import Prelude ExactInteger TenancyCapacity TenancyState TenancyAdmission TenancyUnknown TenancySystem TenancyLedger TenancyTheorems TenancySteps.
Open Scope Z_scope.

(** ** Spellings of integers *)

(** [12.50e+1] *)
Definition demo_literal : Literal := {|
  minus := false; whole := "12"; fraction := Some "50"; exponent := Some ("e"%char, Some "+"%char, "1") |}.
Lemma exact_integer_iff_witness : exact_integer (render demo_literal) = Some 125.
Proof.
  apply (exact_integer_iff demo_literal 125);
    [vm_compute; reflexivity|vm_compute; discriminate|split; [vm_compute; reflexivity|vm_compute; split; discriminate]].
Defined.
Lemma exact_integer_literal_witness : ∃ l, Literal_ok l = true ∧ minus l = false ∧ "9007199254740.991E3" = render l.
Proof. apply (exact_integer_literal _ 9007199254740991); [vm_compute; reflexivity|done]. Defined.

(** ** The default budgets *)

(** [Semaphore::MAX_PERMITS] of tokio on a 64-bit host. *)
Definition demo_permits : Z := 2 ^ 61 - 1.
Definition demo_clock (millis : Z) : bool := millis <? 2 ^ 40.
Definition demo_config : CapacityConfig := CapacityConfig_default.
Lemma validate_iff_witness : Validated demo_permits demo_clock demo_config.
Proof. apply (validate_iff demo_permits demo_clock demo_config); [done|vm_compute; reflexivity]. Defined.
Lemma demo_valid : valid_config demo_permits demo_clock demo_config.
Proof. split; [done|]. apply validate_ok; [done|vm_compute; reflexivity]. Qed.

Definition demo_accounting : Accounting := Accounting_configured Receipts_default.
Lemma demo_accounting_wf : Accounting_wf demo_accounting.
Proof. by repeat constructor. Qed.
Lemma ready_iff_witness :
  ready demo_accounting 0 99 = true ↔
  global_room demo_accounting ∧ 0 + 99 < unknown_tenant (limits demo_accounting).
Proof. apply (ready_iff demo_accounting 0 99); [apply demo_accounting_wf|done|done]. Defined.
Lemma archive_needed_iff_witness :
  TenancyCapacity.archive_needed demo_accounting = true ↔
  t_bytes (totals demo_accounting) ≠ 0 ∧
  (3 * high_water_bytes (limits demo_accounting) ≤
     4 * (t_bytes (totals demo_accounting) + reserved (totals demo_accounting)) ∨
   high_water_bytes (limits demo_accounting) <
     t_bytes (totals demo_accounting) + reserved (totals demo_accounting) + RESERVATION).
Proof. apply (archive_needed_iff demo_accounting), demo_accounting_wf. Defined.

(** ** Runs of the controller *)

Definition at_time (now : Z) : Env := {| volumes := λ _, None; expire_now := now; change_now := now |}.
Lemma at_time_ok now : env_ok (at_time now).
Proof. intros path blocks size Hv. by cbn in Hv. Qed.
Definition demo_adm : Admission := controller demo_config 7.
Definition empty_inventory : Inventory := {|
  i_bytes := 0; i_rows := 0; live_bytes := 0; i_history_bytes := 0; i_history_rows := 0;
  i_oauth_bytes := 0; unknown_count := 0; unknown_digest := [] |}.
Fixpoint run (calls : list (call * Z)) (S : Sys) : option Sys :=
  match calls with
  | [] => Some S
  | (c, now) :: calls => exec demo_adm c (at_time now) S ≫= run calls
  end.
Definition plain (c : call) : bool := match c with Publish _ | Rollback _ => false | _ => true end.
Definition boot : option Sys :=
  exec demo_adm (Initialize empty_inventory (10 ^ 12)) (at_time 0)
    {| world := (configured demo_config 7).2; futures := ∅; owners := no_owners ∅ |}.
Definition demo_run (calls : list (call * Z)) : option Sys := boot ≫= run calls.

Lemma run_steps calls S S' :
  forallb (λ c, plain c.1) calls = true → run calls S = Some S' → rtc (sys_step demo_adm) S S'.
Proof.
  revert S. induction calls as [|[c now] calls IH]; intros S; cbn.
  - intros _ [= <-]. done.
  - intros [Hp Hc]%andb_true_iff (S1 & H1 & H2)%bind_Some. apply rtc_l with S1; [|by apply IH].
    exists c, (at_time now). split_and!; [apply at_time_ok|by destruct c|done].
Qed.
Lemma run_reachable calls S :
  forallb (λ c, plain c.1) calls = true → demo_run calls = Some S → reachable demo_config 7 ∅ S.
Proof.
  intros Hp (S0 & H0 & H1)%bind_Some. exists S0. split; [|by eapply run_steps].
  exists empty_inventory, (10 ^ 12), (at_time 0). split; [apply at_time_ok|exact H0].
Qed.

(** The state after a run that succeeds. *)
Definition initial : Sys :=
  {| world := (configured demo_config 7).2; futures := ∅; owners := no_owners ∅ |}.
Definition reached (calls : list (call * Z)) : Sys := default initial (demo_run calls).
Lemma reached_run calls :
  forallb (λ c, plain c.1) calls = true → is_some (demo_run calls) = true → reachable demo_config 7 ∅ (reached calls).
Proof.
  intros Hp Hs. apply (run_reachable calls); [done|]. unfold reached. by destruct (demo_run calls).
Qed.

Definition one_at_a_time : Limits := {| active_executions := 1; queued_work := 4; learning_jobs := 1 |}.
(** A tenant runs one execution, and a second one waits; a pin, an upload and a write are open. *)
Definition busy : list (call * Z) := [
  (Acquire "t" one_at_a_time 9000 1, 1); (Bind 0 "e1", 2); (Acquire "t" one_at_a_time 9000 3, 3);
  (Pin 5 "t" false, 4); (Open_ingress 6 1024, 5); (Begin_write 7 4096 false, 6)].
Lemma busy_reachable : reachable demo_config 7 ∅ (reached busy).
Proof. apply reached_run; vm_compute; reflexivity. Qed.

Lemma ledger_is_exact_witness :
  Ledger (state (world (reached busy))) (arcs (world (reached busy))) (owners (reached busy)).
Proof. exact (ledger_is_exact _ _ _ _ _ _ demo_valid busy_reachable). Defined.
Lemma reachable_budgets_witness : within_budgets demo_config (state (world (reached busy))).
Proof. exact (reachable_budgets _ _ _ _ _ _ demo_valid busy_reachable). Defined.
Lemma observation_is_consistent_witness :
  observed_capacity false (world (reached busy)) =
    if existsb (λ kv, i64_max <? kv.2)
         (snapshot_bytes (snapshot_of (world (reached busy))) ++ snapshot_state (snapshot_of (world (reached busy))))
    then Err Invalid else Ok (snapshot_of (world (reached busy))).
Proof.
  apply (observation_is_consistent _ _ _ _ _ _ demo_valid busy_reachable). vm_compute. reflexivity.
Defined.
Lemma cached_counts_are_durable_witness :
  unknown (totals (receipts (state (world (reached busy))))) = Z.of_nat (size (obligations (owners (reached busy)))) ∧
  ∀ t n, tenant_unknown (state (world (reached busy))) t = Some n → n = owed_by t (obligations (owners (reached busy))).
Proof.
  apply (cached_counts_are_durable _ _ _ _ _ _ demo_valid busy_reachable). vm_compute. reflexivity.
Defined.
Lemma drops_never_fence_witness : ∃ S',
  exec demo_adm (Release 0) (at_time 7) (reached busy) = Some S' ∧
  fenced (receipts (state (world S'))) = fenced (receipts (state (update_begin (at_time 7) (world (reached busy))).1)).
Proof.
  eexists. split; [vm_compute; reflexivity|].
  apply (drops_never_fence _ _ _ _ _ _ demo_valid busy_reachable (Release 0) (at_time 7));
    [reflexivity|apply at_time_ok|vm_compute; reflexivity].
Defined.

(** The running execution ends, so that the waiting one is next and is awake. *)
Definition handed_over : list (call * Z) := busy ++ [(Poll 1, 7); (Release 0, 8)].
Lemma handed_over_reachable : reachable demo_config 7 ∅ (reached handed_over).
Proof. apply reached_run; vm_compute; reflexivity. Qed.
Definition the_waiter : Waiter :=
  {| waiter_id := 1; w_tenant := "t"; active_limit := 1; deadline := 5003 |}.
Lemma next_waiter_is_awake_witness :
  ∃ f, futures (reached handed_over) !! 1 = Some f ∧ f_waiter f = the_waiter ∧ (phase f = Parked → permit f = true).
Proof.
  apply (next_waiter_is_awake _ _ _ _ _ _ demo_valid handed_over_reachable the_waiter).
  vm_compute. reflexivity.
Defined.
Lemma newcomers_wait_behind_witness :
  (∀ x, x ∈ queue (state (update_begin (at_time 7) (world (reached busy))).1) → w_tenant x ≠ "u") ∧
  ∀ i x, tenant_head (queue (state (update_begin (at_time 7) (world (reached busy))).1)) i x →
    ¬ can_enter (state (update_begin (at_time 7) (world (reached busy))).1) x.
Proof.
  eapply (newcomers_wait_behind _ _ _ _ _ _ demo_valid busy_reachable (at_time 7) "u" 1 4 9000 7);
    [apply at_time_ok|vm_compute; reflexivity].
Defined.

(** ** A publication *)

Definition e1 : Key := {| key_tenant := "t"; key_execution := "e1" |}.
Definition e1_unknown : Change := {|
  ch_key := e1; before := None;
  after := Some {| r_key := e1; source_mask := 1; first := 100; due := 200; escalated := false |} |}.
Definition publishing : list (call * Z) := busy ++ [
  (Prepare {| read_admission := 7; read_generation := 0; maintenance := false |} [e1_unknown]
     [{| te_key := e1; te_bytes := 512 |}], 7)].
Lemma publishing_reachable : reachable demo_config 7 ∅ (reached publishing).
Proof. apply reached_run; vm_compute; reflexivity. Qed.
Lemma known_outcome_is_applied_witness : ∃ p S',
  publication (owners (reached publishing)) = Some p ∧
  exec demo_adm (Publish (at_time 9)) (at_time 8) (reached publishing) = Some S' ∧
  publication (owners S') = None ∧ publication_pending (state (world S')) = None ∧
  fenced (receipts (state (world S'))) = false ∧
  obligations (owners S') = owed_after p (obligations (owners (reached publishing))) ∧
  unknown_generation (state (world S')) = unknown_generation (state (world (reached publishing))) + 1.
Proof.
  destruct (publication (owners (reached publishing))) as [p|] eqn:Hp;
    [|vm_compute in Hp; discriminate Hp].
  destruct (known_outcome_is_applied _ _ _ _ _ _ demo_valid publishing_reachable false p (at_time 9) (at_time 8))
    as (S' & H); [apply at_time_ok|exact Hp|vm_compute; reflexivity|].
  exists p, S'. split; [reflexivity|exact H].
Defined.

(** ** The end *)

Definition ended : list (call * Z) := [
  (Acquire "t" one_at_a_time 9000 1, 1); (Bind 0 "e1", 2); (Close, 3); (Release 0, 4)].
Lemma ended_reachable : reachable demo_config 7 ∅ (reached ended).
Proof. apply reached_run; vm_compute; reflexivity. Qed.
Lemma quiescent_has_no_owners_witness :
  closed (state (world (reached ended))) = true ∧ leases (owners (reached ended)) = ∅ ∧
  executions (state (world (reached ended))) = ∅ ∧ uploads (owners (reached ended)) = ∅ ∧
  repairing (owners (reached ended)) = ∅ ∧ queue (state (world (reached ended))) = [] ∧
  ∀ g b, writers (owners (reached ended)) !! g = Some b → b = 0.
Proof.
  eapply (quiescent_has_no_owners _ _ _ _ _ _ demo_valid ended_reachable); vm_compute; reflexivity.
Defined.
Lemma stopping_is_final_witness : ∃ S',
  sys_step demo_adm (reached ended) S' ∧
  (closed (state (world (reached ended))) = true → closed (state (world S')) = true) ∧
  (stopped (world (reached ended)) = true → no_new_lease (reached ended) S').
Proof.
  eexists. split.
  - exists (Acquire "t" one_at_a_time 9000 5), (at_time 5).
    split; [apply at_time_ok|split; [exact I|vm_compute; reflexivity]].
  - refine (proj2 (stopping_is_final _ _ _ _ _ _ demo_valid ended_reachable _ _)).
    exists (Acquire "t" one_at_a_time 9000 5), (at_time 5).
    split; [apply at_time_ok|split; [exact I|vm_compute; reflexivity]].
Defined.

(** ** The queue *)

Definition queued_state : State := state (world (reached busy)).
Lemma expire_terminates_witness :
  ∃ st', expire_loop 2 5003 queued_state 0 [] = Some (st', filter (expired 5003) (queue queued_state)) ∧
    queue st' = filter (λ x, ¬ expired 5003 x) (queue queued_state) ∧
    expire queued_state 5003 = (st', filter (expired 5003) (queue queued_state)).
Proof. apply (expire_terminates queued_state 5003 2). vm_compute. lia. Defined.
