(* ===== verification/ModelHistory.v ===== *)
(** The history that is given to a model ([crates/bitrouter-ai/src/types.rs],
    [apps/gateway/model/history.rs]): messages of typed parts, the pairing of tool calls with their
    results, and the projection of failed results for the prompt.

    A [serde_json::Value] is the tree [Value] of [RegistryValue], a number being its printed text. *)
From Stdlib Require Import ZArith Lia Ascii.
From stdpp Require Import base list strings gmap pretty sorting.
From S2P Require Import Prelude ExactInteger RegistryValue.
Open Scope string_scope.
Open Scope list_scope.
Open Scope Z_scope.

(** ** Messages *)

Inductive Role := System | User | Assistant | Tool.
#[export] Instance Role_eq_dec : EqDecision Role. Proof. solve_decision. Defined.
Notation ProviderMetadata := (gmap string Value).
Inductive DataContent := Base64 (data : string) | Url (url : string).
Inductive NativeReasoning := Responses (item : Value).
Inductive ToolResultContentPart :=
| PartText (text : string) | PartMedia (media_type : string) (data : DataContent)
| PartFileId (media_type : option string) (id : string).
Inductive ToolResultOutput :=
| OutText (value : string) | OutJson (value : Value) | OutErrorText (value : string) | OutErrorJson (value : Value)
| OutContent (value : list ToolResultContentPart) | OutExecutionDenied (reason : option string).
Inductive Source :=
| SourceUrl (id url : string) (title : option string)
| SourceDocument (id media_type title : string) (filename : option string).
Inductive Content :=
| Text (text : string) (provider_metadata : ProviderMetadata)
| Reasoning (text : string) (provider_metadata : ProviderMetadata) (native : option NativeReasoning)
| File (media_type : string) (data : DataContent) (filename : option string) (provider_metadata : ProviderMetadata)
| ToolCall (id name arguments : string) (provider_executed dynamic : bool) (provider_metadata : ProviderMetadata)
| ToolResult (call_id : string) (tool_name : option string) (output : ToolResultOutput) (dynamic : bool)
    (provider_metadata : ProviderMetadata)
| SourcePart (source : Source) (provider_metadata : ProviderMetadata)
| ToolApprovalRequest (approval_id tool_call_id : string) (provider_metadata : ProviderMetadata)
| ToolApprovalResponse (approval_id : string) (approved : bool) (reason : option string)
    (provider_metadata : ProviderMetadata).
Record Message := { role : Role; content : list Content }.
Definition Message_text (r : Role) (text : string) : Message := {| role := r; content := [Text text ∅] |}.

(** ** The pairing of calls and results *)

(** The pattern [Content::ToolCall { provider_executed: false, .. }]. *)
Definition is_client_call (c : Content) : bool :=
  match c with ToolCall _ _ _ false _ _ => true | _ => false end.
Definition starts_call_group (m : Message) : bool := existsb is_client_call (content m).
Definition pair_content (pending : gset string) (c : Content) : result string (gset string) :=
  match c with
  | ToolCall id _ _ false _ _ =>
      if is_empty id || bool_decide (id ∈ pending) then Err "missing or duplicate tool call identity"
      else Ok ({[id]} ∪ pending)
  | ToolResult call_id _ _ _ _ =>
      if bool_decide (call_id ∈ pending) then Ok (pending ∖ {[call_id]})
      else Err "orphaned or duplicate tool result"
  | _ => Ok pending
  end.
Definition pair_message (pending : gset string) (m : Message) : result string (gset string) :=
  if starts_call_group m && negb (bool_decide (pending = ∅))
  then Err "new assistant calls precede settlement of earlier calls"
  else try_fold pair_content pending (content m).
Definition validate_history (messages : list Message) : result string unit :=
  pending ← try_fold pair_message ∅ messages;
  if bool_decide (pending = ∅) then Ok tt else Err "unsettled tool calls in model context".

(** The metadata of the last call with an identity, of which the Gemini call ID is kept. *)
Definition call_metadata (call_id : string) (c : Content) : option ProviderMetadata :=
  match c with
  | ToolCall id _ _ _ _ pm => if bool_decide (id = call_id) then Some pm else None
  | _ => None
  end.
Definition tool_result_metadata (messages : list Message) (call_id : string) : ProviderMetadata :=
  default ∅ (
    metadata ← head (omap (call_metadata call_id) (rev messages ≫= λ m, rev (content m)));
    google ← metadata !! "google";
    id ← match google with VObject m => map_get "functionCallId" m | _ => None end;
    Some {["google" := VObject [("functionCallId", id)]]}).

(** ** The projection of failed results *)

Definition json_opt (f : string) (o : option string) : Map :=
  match o with Some s => [(f, VString s)] | None => [] end.
(** What [prepare_tool_results] wraps: the three failures, as they serialize. *)
Definition failure_json (o : ToolResultOutput) : option (string * Value) :=
  match o with
  | OutErrorText v => Some ("error", VObject [("type", VString "error_text"); ("value", VString v)])
  | OutErrorJson v => Some ("error", VObject [("type", VString "error_json"); ("value", v)])
  | OutExecutionDenied r => Some ("execution_denied", VObject (("type", VString "execution_denied") :: json_opt "reason" r))
  | _ => None
  end.
Definition prepare_output (o : ToolResultOutput) : ToolResultOutput :=
  match failure_json o with
  | Some (status, output) => OutJson (VObject [("status", VString status); ("output", output)])
  | None => o
  end.
Definition prepare_content (c : Content) : Content :=
  match c with
  | ToolResult call_id tool_name output false pm => ToolResult call_id tool_name (prepare_output output) false pm
  | c => c
  end.
Definition prepare_message (m : Message) : Message :=
  if bool_decide (role m = Tool) then {| role := role m; content := prepare_content <$> content m |} else m.
Definition prepare_tool_results (messages : list Message) : list Message := prepare_message <$> messages.

(** ** What the validator accepts *)

(** How many calls of an identity a part opens. *)
Definition opens (id : string) (c : Content) : Z :=
  match c with
  | ToolCall i _ _ false _ _ => of_bool (bool_decide (i = id))
  | ToolResult i _ _ _ _ => - of_bool (bool_decide (i = id))
  | _ => 0
  end.
Definition balance (id : string) (cs : list Content) : Z := sum_by (opens id) cs.
Definition contents (ms : list Message) : list Content := ms ≫= content.
Definition named (c : Content) : Prop := is_client_call c = true → ∀ i n a p d pm, c = ToolCall i n a p d pm → i ≠ "".

(** [pending] holds the identities that are open. *)
Definition tracks (pending : gset string) (b : string → Z) : Prop :=
  ∀ id, b id = of_bool (bool_decide (id ∈ pending)).
Definition bounded (b : string → Z) : Prop := ∀ id, 0 ≤ b id ≤ 1.

Lemma tracks_bounded p b : tracks p b → bounded b.
Proof. intros H id. rewrite H. apply of_bool_bounds. Qed.
Lemma tracks_empty p b : tracks p b → p = ∅ ↔ ∀ id, b id = 0.
Proof.
  intros H. split.
  - intros -> id. rewrite H. by rewrite bool_decide_eq_false_2 by set_solver.
  - intros H0. apply set_eq. intros id. specialize (H id). rewrite H0 in H.
    destruct (bool_decide_reflect (id ∈ p)); [done|set_solver].
Qed.
Lemma pair_content_tracks p b c p' : tracks p b → pair_content p c = Ok p' →
  tracks p' (λ id, b id + opens id c) ∧ named c.
Proof.
  intros Hp. destruct c as [| | |i n a [] d pm|i n o d pm| | |]; cbn; intros Hc; res_inv;
    try (split; [intros x; rewrite Hp; cbn; lia|by intros ?]).
  - destruct i as [|a0 i]; [done|]. cbn in Hc. case_bool_decide as Hi; [done|]. res_inv. split.
    + intros x. rewrite Hp. repeat case_bool_decide; subst; cbn; set_solver.
    + intros _ ? ? ? ? ? ? [= <-]. done.
  - case_bool_decide as Hi; [|done]. res_inv. split; [|by intros ?].
    intros x. rewrite Hp. repeat case_bool_decide; subst; cbn; set_solver.
Qed.
Lemma pair_content_accepts p b c : tracks p b → named c → bounded (λ id, b id + opens id c) →
  ∃ p', pair_content p c = Ok p'.
Proof.
  intros Hp Hn Hb. destruct c as [| | |i n a [] d pm|i n o d pm| | |]; cbn in *; try (by eexists).
  - specialize (Hn eq_refl _ _ _ _ _ _ eq_refl). destruct i as [|a0 i]; [done|]. cbn.
    specialize (Hb (String a0 i)). cbn beta in Hb. rewrite Hp in Hb.
    rewrite (bool_decide_eq_true_2 (String a0 i = _)) in Hb by done. case_bool_decide; [cbn in Hb; lia|by eexists].
  - specialize (Hb i). cbn beta in Hb. rewrite Hp in Hb. rewrite (bool_decide_eq_true_2 (i = i)) in Hb by done.
    case_bool_decide; [by eexists|cbn in Hb; lia].
Qed.
Lemma pair_contents_iff p b cs : tracks p b →
  (∃ p', try_fold pair_content p cs = Ok p') ↔
  Forall named cs ∧ ∀ pre post, cs = pre ++ post → bounded (λ id, b id + balance id pre).
Proof.
  revert p b. induction cs as [|c cs IH]; intros p b Hp; cbn.
  { split; [|by eexists]. intros _. split; [done|]. intros [|? ?] post Heq; [|done].
    intros id. unfold balance. cbn. rewrite Z.add_0_r. by eapply tracks_bounded. }
  split.
  - intros (p' & Hp'). apply bind_ok in Hp' as (p1 & H1 & Hp').
    destruct (pair_content_tracks _ _ _ _ Hp H1) as [Ht Hn].
    destruct (proj1 (IH _ _ Ht) (ex_intro _ _ Hp')) as [HF Hpre]. split; [by constructor|].
    intros [|c' pre] post Heq; cbn in Heq.
    + intros id. unfold balance. cbn. rewrite Z.add_0_r. by eapply tracks_bounded.
    + injection Heq as <- Heq. intros id. specialize (Hpre pre post Heq id).
      unfold balance in *. rewrite sum_by_cons. lia.
  - intros [[Hn HF]%Forall_cons Hpre].
    destruct (pair_content_accepts p b c Hp Hn) as [p1 H1].
    { intros id. specialize (Hpre [c] cs eq_refl id). unfold balance in Hpre. rewrite sum_by_cons in Hpre. cbn in Hpre. lia. }
    destruct (pair_content_tracks _ _ _ _ Hp H1) as [Ht _]. rewrite H1. cbn.
    apply (IH _ _ Ht). split; [done|]. intros pre post -> id. specialize (Hpre (c :: pre) post eq_refl id).
    unfold balance in *. rewrite sum_by_cons in Hpre. lia.
Qed.
Lemma pair_contents_tracks p b cs p' : tracks p b → try_fold pair_content p cs = Ok p' →
  tracks p' (λ id, b id + balance id cs).
Proof.
  revert p b. induction cs as [|c cs IH]; intros p b Hp; cbn [try_fold].
  - intros [= <-] id. rewrite Hp. unfold balance. cbn. lia.
  - intros (p1 & H1 & H2)%bind_ok. destruct (pair_content_tracks _ _ _ _ Hp H1) as [Ht _].
    intros id. rewrite <-(IH _ _ Ht H2 id). unfold balance. rewrite sum_by_cons. lia.
Qed.

(** Calls and results alternate for every identity, a message with calls follows settled ones, and calls
    have identities. *)
Definition paired_from (b : string → Z) (ms : list Message) : Prop :=
  Forall named (contents ms) ∧
  (∀ pre post, contents ms = pre ++ post → bounded (λ id, b id + balance id pre)) ∧
  (∀ pre m post, ms = pre ++ m :: post → starts_call_group m = true → ∀ id, b id + balance id (contents pre) = 0).
Definition paired (ms : list Message) : Prop :=
  paired_from (λ _, 0) ms ∧ ∀ id, balance id (contents ms) = 0.

Lemma balance_app id l1 l2 : balance id (l1 ++ l2) = balance id l1 + balance id l2.
Proof. apply sum_by_app. Qed.
Lemma contents_cons m ms : contents (m :: ms) = content m ++ contents ms. Proof. done. Qed.
Lemma paired_from_cons b m ms : bounded b → paired_from b (m :: ms) ↔
  (starts_call_group m = true → ∀ id, b id = 0) ∧
  (Forall named (content m) ∧ ∀ pre post, content m = pre ++ post → bounded (λ id, b id + balance id pre)) ∧
  paired_from (λ id, b id + balance id (content m)) ms.
Proof.
  intros Hb. unfold paired_from. rewrite contents_cons, Forall_app. split.
  - intros ((Hn & Hns) & Hpre & Hg). split_and!; [|done| |done| |].
    + intros Hs id. specialize (Hg [] m ms eq_refl Hs id). unfold balance in Hg. cbn in Hg. lia.
    + intros pre post Heq. apply (Hpre pre (post ++ contents ms)). by rewrite Heq, <-app_assoc.
    + intros pre post Heq id. specialize (Hpre (content m ++ pre) post). rewrite Heq, app_assoc in Hpre.
      specialize (Hpre eq_refl id). cbn beta in Hpre. rewrite balance_app in Hpre. lia.
    + intros pre m' post -> Hs id. specialize (Hg (m :: pre) m' post eq_refl Hs id).
      rewrite contents_cons, balance_app in Hg. lia.
  - intros (Hs & (Hn & Hc) & Hns & Hpre & Hg). split_and!; [done|done| |].
    + intros pre post Heq id. destruct (app_eq_inv _ _ _ _ Heq) as [(k & Hk & ->)|(k & -> & Hk)].
      * by apply (Hc pre k).
      * rewrite balance_app. specialize (Hpre k post Hk id). cbn beta in Hpre. lia.
    + intros [|m0 pre] m' post Heq Hm id; cbn in Heq; injection Heq as <- Heq.
      * unfold balance. cbn. rewrite (Hs Hm id). lia.
      * rewrite contents_cons, balance_app. specialize (Hg pre m' post Heq Hm id). lia.
Qed.
Lemma pair_messages_iff p b ms : tracks p b →
  (∃ p', try_fold pair_message p ms = Ok p') ↔ paired_from b ms.
Proof.
  revert p b. induction ms as [|m ms IH]; intros p b Hp.
  { split; [|by eexists]. intros _. split_and!; [constructor| |].
    - intros [|? ?] post Heq; [|done]. intros id. unfold balance. cbn. rewrite Z.add_0_r. by eapply tracks_bounded.
    - by intros [|? ?] ? ? ?. }
  rewrite paired_from_cons by (by eapply tracks_bounded). rewrite <-pair_contents_iff by done.
  cbn [try_fold]. split.
  - intros (p' & (p1 & H1 & H2)%bind_ok). unfold pair_message in H1. destruct (_ && _) eqn:Hs; [done|].
    pose proof (pair_contents_tracks _ _ _ _ Hp H1) as Ht. split_and!; [|by eexists|].
    + intros Hm. rewrite Hm in Hs. cbn in Hs. apply (tracks_empty _ _ Hp). by arith.
    + apply (IH _ _ Ht). by eexists.
  - intros (Hs & (p1 & H1) & Hf). pose proof (pair_contents_tracks _ _ _ _ Hp H1) as Ht.
    assert (pair_message p m = Ok p1) as ->; [|by apply (IH _ _ Ht)]. unfold pair_message.
    destruct (starts_call_group m); [|done]. rewrite bool_decide_eq_true_2; [done|].
    apply (tracks_empty _ _ Hp). by apply Hs.
Qed.
Lemma pair_messages_tracks p b ms p' : tracks p b → try_fold pair_message p ms = Ok p' →
  tracks p' (λ id, b id + balance id (contents ms)).
Proof.
  revert p b. induction ms as [|m ms IH]; intros p b Hp; cbn [try_fold].
  - intros [= <-] id. rewrite Hp. unfold balance. cbn. lia.
  - intros (p1 & H1 & H2)%bind_ok. unfold pair_message in H1. destruct (_ && _); [done|].
    pose proof (pair_contents_tracks _ _ _ _ Hp H1) as Ht. intros id. rewrite <-(IH _ _ Ht H2 id).
    rewrite contents_cons, balance_app. lia.
Qed.
Lemma tracks_nothing : tracks ∅ (λ _, 0).
Proof. intros id. by rewrite bool_decide_eq_false_2 by set_solver. Qed.

(** A history is accepted precisely when its tool calls and results are paired: calls have identities, for every
    identity calls and results alternate, a call first, every call is answered before the next message
    with calls and before the end. *)
Theorem validate_history_iff ms : validate_history ms = Ok tt ↔ paired ms.
Proof.
  unfold validate_history, paired. rewrite <-(pair_messages_iff ∅) by apply tracks_nothing. split.
  - intros (p & Hp & He)%bind_ok. case_bool_decide as H0; [|done]. split; [by eexists|].
    pose proof (pair_messages_tracks _ _ _ _ tracks_nothing Hp) as Ht. intros id.
    by apply (proj1 (tracks_empty _ _ Ht)) with (id := id) in H0.
  - intros ((p & Hp) & H0). rewrite Hp. cbn. pose proof (pair_messages_tracks _ _ _ _ tracks_nothing Hp) as Ht.
    rewrite bool_decide_eq_true_2; [done|]. apply (tracks_empty _ _ Ht). apply H0.
Qed.

(** Settled histories compose, and preparing the failed results for a prompt keeps a history settled. *)
Lemma paired_app ms1 ms2 : validate_history ms1 = Ok tt → validate_history ms2 = Ok tt →
  validate_history (ms1 ++ ms2) = Ok tt.
Proof.
  unfold validate_history. intros (p & Hp & He)%bind_ok H2. rewrite try_fold_app, Hp. cbn.
  case_bool_decide; [|done]. by subst p.
Qed.
Lemma pair_prepared p c : pair_content p (prepare_content c) = pair_content p c.
Proof. by destruct c as [| | | |? ? ? []| | |]. Qed.
Lemma client_prepared c : is_client_call (prepare_content c) = is_client_call c.
Proof. by destruct c as [| | | |? ? ? []| | |]. Qed.
Lemma try_fold_map {Er A S} (f : S → A → result Er S) (g : A → A) l s :
  (∀ s x, f s (g x) = f s x) → try_fold f s (g <$> l) = try_fold f s l.
Proof. intros Hf. revert s. induction l as [|x l IH]; intros s; cbn; [done|]. rewrite Hf. destruct (f s x); [apply IH|done]. Qed.
Lemma prepared_keeps_validity ms : validate_history (prepare_tool_results ms) = validate_history ms.
Proof.
  unfold validate_history, prepare_tool_results. rewrite try_fold_map; [done|].
  intros p m. unfold prepare_message. case_bool_decide; [|done]. unfold pair_message. cbn [content].
  rewrite try_fold_map by apply pair_prepared. assert (∀ l, existsb is_client_call (prepare_content <$> l) =
    existsb is_client_call l) as He; [|unfold starts_call_group; cbn [content]; by rewrite He].
  induction l as [|c l IH]; cbn; [done|]. by rewrite client_prepared, IH.
Qed.
