(* ===== verification/AgentTypes.v ===== *)
(** The agents of a session: the part of a checkpoint that collaboration reads and writes
    ([crates/bitrouter-ai/src/core/protocol.rs], [apps/storage/checkpoint/snapshot/mod.rs] with its
    [collaboration.rs], [allocation.rs] and [signals.rs]), and the validation of a task's input
    ([apps/core/session.rs], [apps/storage/checkpoint/validation.rs]).

    Of the records that other components share ([HarnessManifest], [RootRun], [ModelStep],
    [AttemptRecord], [SignalState], [SessionSnapshot]) these are the fields that collaboration touches. *)
From Stdlib Require Import ZArith Lia Ascii.
From stdpp Require Import base list strings gmap pretty sorting.
From S2P Require Import Prelude ExactInteger RegistryValue ModelHistory.
Open Scope string_scope.
Open Scope list_scope.
Open Scope Z_scope.

(** ** Errors *)

Inductive ErrorCode :=
| UnsupportedCapability | UnsupportedVersion | UnauthorizedScope | StaleEpoch | StaleRevision | OperationConflict
| Busy | LimitExceeded | CheckpointConflict | CheckpointUnavailable | ArtifactUnavailable | NoFeasibleRoute
| InvalidToolResult | RecoveryRequired.
#[export] Instance ErrorCode_eq_dec : EqDecision ErrorCode. Proof. solve_decision. Defined.
Inductive CommitStatus := NotCommitted | Committed | CommitUnknown.
Record CoreError := { e_code : ErrorCode; e_message : string; commit_status : CommitStatus }.
Definition rejected (code : ErrorCode) (message : string) : CoreError :=
  {| e_code := code; e_message := message; commit_status := NotCommitted |}.

(** ** Inputs and their limits *)

Record Limits := {
  active_models : Z; l_agents : Z; child_depth : Z; l_model_attempts : Z; outstanding_tools : Z; total_tools : Z;
  queued_runs : Z; mailbox_messages : Z; active_seconds : Z; checkpoint_bytes : Z; unacknowledged_bytes : Z;
  ephemeral_bytes : Z; input_bytes : Z;
}.
Inductive ModelMode := ModelFixed | ModelPolicy.
Inductive ContextMode := ContextFixed | ContextAuto.
Inductive LocalScope := Project | Global.
Inductive SkillSelector := LocalSkill (scope : LocalScope) (directory_id : string) | McpSkill (server uri : string).
#[export] Instance LocalScope_eq_dec : EqDecision LocalScope. Proof. solve_decision. Defined.
#[export] Instance SkillSelector_eq_dec : EqDecision SkillSelector. Proof. solve_decision. Defined.
Record SkillConstraints := { include : list SkillSelector; exclude : list SkillSelector }.
Record RoutingSettings := { model_mode : ModelMode; context_mode : ContextMode; skills : option SkillConstraints }.
Record DiscardableHistory := { history_sha256 : string; message_indices : list Z }.
Record Verification := { v_tool : string; v_arguments : Value }.
Record TaskInput := {
  max_concurrent_subagents : option Z; text : string; i_model : string; effort : option string;
  max_output_tokens : option Z; context_limit_bytes : option Z; routing : RoutingSettings;
  discardable_history : option DiscardableHistory; acceptance_criteria : list string;
  required_materials : list string; verification : option Verification; i_limits : option Limits;
}.

(** ** Materials and signals *)

Record ArtifactRef := { artifact_id : string; a_sha256 : string; a_bytes : Z; a_media_type : string }.
#[export] Instance ArtifactRef_eq_dec : EqDecision ArtifactRef. Proof. solve_decision. Defined.
Record MaterialRef := {
  material_id : string; version : string; sha256 : string; media_type : string; provenance : string;
  required : bool; artifact : option ArtifactRef; m_content : option string;
}.
Record MaterialRequest := {
  request_id : string; r_signal_revision : Z; reference : MaterialRef; resolved : bool;
  unavailable_reason : option string;
}.
Record SignalState := {
  revision : Z; materials : gmap string MaterialRef; requests : gmap string MaterialRequest;
}.
Record ContextSource := {
  permission_revision : Z; workspace_revision : option string; tool_manifest_digest : string;
  c_materials : list MaterialRef;
}.

(** ** Tasks, actions and waits *)

Record Work := {
  w_text : string; w_model : option string; w_effort : option string; w_acceptance_criteria : list string;
  w_required_materials : list string; w_task_scope : option string; fresh_context : bool; independent_review : bool;
}.
Record SourceSpan := { message_index : Z; content_index : Z; s_start : Z; s_end : Z }.
Inductive ContextAction :=
| Search (query : string) | Recall (block_ids : list string) | Publish (block_ids : list string) (summary : string)
| Extract (block_id : string) (spans : list SourceSpan).
Inductive Action :=
| SkillRead (skill_id reference : string) | Context_action (action : ContextAction) | Spawn (task : Work)
| Delegate (task : Work) (agent_id : option string) | SendMessage (agent_id text : string)
| Followup (agent_id : string) (task : Work) | Wait (agent_ids : list string) (timeout_ms : Z)
| Interrupt (agent_id : string) | ListAgents.
Inductive AgentStatus :=
| Runnable | ModelRunning | WaitingTool | WaitingMessage | WaitingMaterial | Cancelling | Interrupted
| AgentRecoveryRequired | Completed | Failed | Cancelled.
#[export] Instance AgentStatus_eq_dec : EqDecision AgentStatus. Proof. solve_decision. Defined.
Definition terminal (s : AgentStatus) : bool :=
  match s with Interrupted | Completed | Failed | Cancelled => true | _ => false end.
Definition status_json (s : AgentStatus) : Value :=
  VString match s with
  | Runnable => "runnable" | ModelRunning => "model_running" | WaitingTool => "waiting_tool"
  | WaitingMessage => "waiting_message" | WaitingMaterial => "waiting_material" | Cancelling => "cancelling"
  | Interrupted => "interrupted" | AgentRecoveryRequired => "recovery_required" | Completed => "completed"
  | Failed => "failed" | Cancelled => "cancelled"
  end.
Record WaitTarget := { wt_turn_id : string; wt_status : option AgentStatus }.
#[export] Instance WaitTarget_eq_dec : EqDecision WaitTarget. Proof. solve_decision. Defined.
Record WaitState := { targets : gmap string WaitTarget; deadline_ms : Z }.
Record Call := {
  invocation_id : string; public_call_id : string; provider_call_id : string; step_id : string; action : Action;
  wait_output_version : option Z; c_wait : option WaitState; c_result : option Value; c_consumed : bool;
}.
Record Mail := {
  message_id : string; m_sender_id : string; sender_turn_id : string; m_kind : string; mail_content : Value;
  m_context_sources : list ContextSource; consumed : bool;
}.
Record Assignment := {
  assignment_id : string; w_run_id : string; sender_id : string; w_input : TaskInput;
  w_required_instructions : list string; w_allocation_id : option string;
}.

(** ** Agents *)

Record AttemptRecord := { attempt_id : string; attempt_index : Z; has_receipt : bool }.
Record ContextValidationRecord := { cv_request_id : string; applied : bool }.
Record ModelStep := {
  input_history : list Message; reconstructed_from : option string;
  context_validation : option ContextValidationRecord; attempts : list AttemptRecord; settled : bool;
}.
Record HarnessResult := {
  hr_invocation_id : string; hr_attempt_id : string; hr_status : string; hr_output : string;
  hr_evidence : list ArtifactRef; hr_workspace_revision : option string;
}.
Record Invocation := { i_result : option HarnessResult; i_consumed : bool }.
Record AgentTurn := {
  run_id : string; agent_turn_id : string; assigned_by : string; input : TaskInput; allocation_id : option string;
  history_start : option Z; status : AgentStatus; cancellation_requested : bool; steps : list ModelStep;
  invocations : list Invocation; core_calls : list Call; final_answer : option string;
  terminal_reason : option string; notified : bool;
}.
Record AgentState := {
  agent_id : string; parent_id : option string; display_path : string; depth : Z; context_revision : Z;
  history : list Message; required_instructions : list string; turn : option AgentTurn; queue : list Assignment;
  mailbox : list Mail; task_scope : option string; context_sources : list ContextSource; last_scheduled : Z;
}.

(** ** The session *)

Inductive RunStatus :=
| RunRunning | RunWaiting | RunCancelling | RunRecoveryRequired | RunCompleted | RunFailed | RunCancelled.
#[export] Instance RunStatus_eq_dec : EqDecision RunStatus. Proof. solve_decision. Defined.
Record RootRun := {
  r_run_id : string; r_input : TaskInput; r_limits : Limits; r_status : RunStatus; r_model_attempts : Z; active_ms : Z;
  resource_error : option CoreError;
}.
Record HarnessManifest := {
  hm_tool_manifest_digest : string; hm_workspace_revision : option string; hm_permission_revision : Z;
  required_features : list string;
}.
Inductive ContextKind := Reuse | Fresh | Inherited.
#[export] Instance ContextKind_eq_dec : EqDecision ContextKind. Proof. solve_decision. Defined.
Record ContextCandidate := {
  candidate_id : string; kind : ContextKind; cc_agent_id : option string; cc_context_revision : option Z;
  rejection_reasons : list string;
}.
Record ContextAllocation := {
  ca_allocation_id : string; policy_id : string; ca_source : string; input_state_revision : Z; ca_signal_revision : Z;
  actor_id : string; actor_context_revision : Z; ca_assignment_id : string; task : Work; ca_input : TaskInput;
  candidates : list ContextCandidate; selected_candidate_id : option string; selected_agent_id : option string;
  error : option CoreError; applied_state_revision : option Z; application_error : option CoreError;
}.
Record RuntimeWait := { rw_actor_id : string; rw_state : WaitState; rw_result : option Value }.
Record SessionSnapshot := {
  s_agent_id : string; manifest : HarnessManifest; agents : gmap string AgentState; run : option RootRun;
  waits : gmap string RuntimeWait; signals : SignalState; allocations : gmap string ContextAllocation;
}.
Definition with_agents a (s : SessionSnapshot) : SessionSnapshot :=
  {| s_agent_id := s_agent_id s; manifest := manifest s; agents := a; run := run s; waits := waits s;
     signals := signals s; allocations := allocations s |}.
Definition with_allocations a (s : SessionSnapshot) : SessionSnapshot :=
  {| s_agent_id := s_agent_id s; manifest := manifest s; agents := agents s; run := run s; waits := waits s;
     signals := signals s; allocations := a |}.
Definition with_waits w (s : SessionSnapshot) : SessionSnapshot :=
  {| s_agent_id := s_agent_id s; manifest := manifest s; agents := agents s; run := run s; waits := w;
     signals := signals s; allocations := allocations s |}.
Definition with_turn t (a : AgentState) : AgentState :=
  {| agent_id := agent_id a; parent_id := parent_id a; display_path := display_path a; depth := depth a;
     context_revision := context_revision a; history := history a; required_instructions := required_instructions a;
     turn := t; queue := queue a; mailbox := mailbox a; task_scope := task_scope a;
     context_sources := context_sources a; last_scheduled := last_scheduled a |}.
Definition with_queue q (a : AgentState) : AgentState :=
  {| agent_id := agent_id a; parent_id := parent_id a; display_path := display_path a; depth := depth a;
     context_revision := context_revision a; history := history a; required_instructions := required_instructions a;
     turn := turn a; queue := q; mailbox := mailbox a; task_scope := task_scope a;
     context_sources := context_sources a; last_scheduled := last_scheduled a |}.
Definition with_mailbox m (a : AgentState) : AgentState :=
  {| agent_id := agent_id a; parent_id := parent_id a; display_path := display_path a; depth := depth a;
     context_revision := context_revision a; history := history a; required_instructions := required_instructions a;
     turn := turn a; queue := queue a; mailbox := m; task_scope := task_scope a;
     context_sources := context_sources a; last_scheduled := last_scheduled a |}.
Definition with_calls c (t : AgentTurn) : AgentTurn :=
  {| run_id := run_id t; agent_turn_id := agent_turn_id t; assigned_by := assigned_by t; input := input t;
     allocation_id := allocation_id t; history_start := history_start t; status := status t;
     cancellation_requested := cancellation_requested t; steps := steps t; invocations := invocations t;
     core_calls := c; final_answer := final_answer t; terminal_reason := terminal_reason t; notified := notified t |}.
(** The values of a [BTreeMap] in the order of its iteration. *)
Definition values {A} (m : gmap string A) : list A := (sorted_entries m).*2.
Lemma elem_of_values {A} (m : gmap string A) x : x ∈ values m ↔ ∃ k, m !! k = Some x.
Proof.
  unfold values. rewrite list_elem_of_fmap. split.
  - intros ([k y] & -> & Hk). exists k. by apply elem_of_sorted_entries.
  - intros [k Hk]. exists (k, x). split; [done|]. by apply elem_of_sorted_entries.
Qed.

(** ** Validation *)

(** What collaboration asks of others: the lengths of the JSON of an input and of an action
    ([serde_json]), whether the session still owns its resources, whether an agent has no steering
    waiting, and the answers of the evidence store; their state is not part of the model. *)
Class SessionEnv := {
  input_json_len : TaskInput → result CoreError Z;
  action_json_len : Action → result CoreError Z;
  check_owned : result CoreError unit;
  steering_ready : SessionSnapshot → string → result CoreError unit;
  context_tools : SessionSnapshot → string → ContextAction → result CoreError Value;
  deliver_evidence : SessionSnapshot → string → string → result CoreError (list string);
}.

Definition validate_id (value : string) : result CoreError unit :=
  if is_empty value || (128 <? len value) ||
     negb (forallb (λ a, let c := byte a in
             is_ascii_digit c || is_ascii_lowercase c || is_ascii_uppercase c ||
             bool_decide (a ∈ bytes "_-.:")) (bytes value))
  then Err (rejected UnauthorizedScope "invalid or oversized identity") else Ok tt.

Definition skill_invalid (message : string) : CoreError := rejected ArtifactUnavailable message.
(** The loop over the includes: [seen] are those before the current one. *)
Fixpoint distinct_includes (seen l exclude : list SkillSelector) : bool :=
  match l with
  | [] => true
  | s :: l => negb (bool_decide (s ∈ seen) || bool_decide (s ∈ exclude)) && distinct_includes (seen ++ [s]) l exclude
  end.
Definition check_selector (s : SkillSelector) : result CoreError unit :=
  match s with
  | LocalSkill _ d => if trim_is_empty d then Err (skill_invalid "skill directory identity is empty") else Ok tt
  | McpSkill s u => if trim_is_empty s || trim_is_empty u then Err (skill_invalid "MCP skill source identity is empty") else Ok tt
  end.
Definition validate_skills (c : SkillConstraints) : result CoreError unit :=
  _ ← ensure (Z.of_nat (length (include c)) + Z.of_nat (length (exclude c)) <=? 128)
        (skill_invalid "skill constraint count exceeds host budget");
  _ ← ensure (distinct_includes [] (include c) (exclude c))
        (skill_invalid "skill constraints contain duplicate or contradictory includes");
  for_each check_selector (include c ++ exclude c).

Definition validate_limits (l : Limits) : result CoreError unit :=
  if (active_models l =? 0) || (l_agents l =? 0) || (l_model_attempts l =? 0) || (outstanding_tools l =? 0) ||
     (mailbox_messages l =? 0) || (active_seconds l =? 0) || (checkpoint_bytes l <? 4096) ||
     (unacknowledged_bytes l <? checkpoint_bytes l) || (input_bytes l =? 0) ||
     (checkpoint_bytes l / 4 <? input_bytes l)
  then Err (rejected LimitExceeded "invalid execution or byte limits") else Ok tt.
Definition limit_list (l : Limits) : list Z :=
  [active_models l; l_agents l; child_depth l; l_model_attempts l; outstanding_tools l; total_tools l; queued_runs l;
   mailbox_messages l; active_seconds l; checkpoint_bytes l; unacknowledged_bytes l; ephemeral_bytes l; input_bytes l].
Definition limits_within (limits host : Limits) : result CoreError unit :=
  _ ← validate_limits limits; _ ← validate_limits host;
  if existsb (λ p, p.2 <? p.1) (zip (limit_list limits) (limit_list host))
  then Err (rejected LimitExceeded "requested limits exceed host policy") else Ok tt.
(** The names of [ReasoningEffort]. *)
Definition parse_effort (e : option string) : result CoreError unit :=
  match e with
  | None => Ok tt
  | Some e => ensure (bool_decide (e ∈ ["none"; "minimal"; "low"; "medium"; "high"; "xhigh"; "max"]))
                (rejected NoFeasibleRoute "unsupported reasoning effort")
  end.

Section validation.
Context `{SessionEnv}.
Definition validate_input (input : TaskInput) (limits : Limits) : result CoreError unit :=
  _ ← match skills (routing input) with Some c => validate_skills c | None => Ok tt end;
  _ ← ensure (negb (is_empty (text input) || is_empty (i_model input)))
        (rejected NoFeasibleRoute "task text and model are required");
  n ← input_json_len input;
  _ ← ensure (n <=? input_bytes limits) (rejected LimitExceeded "root input exceeds negotiated bound");
  _ ← match i_limits input with
      | Some requested =>
          _ ← limits_within requested limits; n ← input_json_len input;
          ensure (n <=? input_bytes requested) (rejected LimitExceeded "root input exceeds requested bound")
      | None => Ok tt
      end;
  _ ← ensure (is_none_or (λ m, m <? l_agents (default limits (i_limits input))) (max_concurrent_subagents input))
        (rejected LimitExceeded "descendant turn limit exceeds retained agent capacity");
  _ ← parse_effort (effort input);
  _ ← ensure (negb (bool_decide (max_output_tokens input = Some 0)))
        (rejected NoFeasibleRoute "output reservation must be positive");
  _ ← ensure (is_none_or (λ b, negb ((b =? 0) || (checkpoint_bytes limits <? b))) (context_limit_bytes input))
        (rejected LimitExceeded "context limit exceeds checkpoint capacity or is zero");
  for_each validate_id (required_materials input).

(** [Vec::push] of what is not contained yet. *)
Definition push_new (l : list string) (x : string) : list string := if bool_decide (x ∈ l) then l else l ++ [x].
Fixpoint collect_materials (m : gmap string MaterialRef) (ids : list string) : result CoreError (list MaterialRef) :=
  match ids with
  | [] => Ok []
  | id :: ids =>
      x ← ok_or (m !! id) (rejected ArtifactUnavailable "required material is absent from the harness inventory");
      l ← collect_materials m ids; Ok (x :: l)
  end.
Definition selected_materials (state : SessionSnapshot) (input : TaskInput) : result CoreError (list MaterialRef) :=
  let inventory := List.filter required (values (materials (signals state))) in
  collect_materials (materials (signals state)) (foldl push_new (required_materials input) (material_id <$> inventory)).
Definition with_materials l (i : TaskInput) : TaskInput :=
  {| max_concurrent_subagents := max_concurrent_subagents i; text := text i; i_model := i_model i; effort := effort i;
     max_output_tokens := max_output_tokens i; context_limit_bytes := context_limit_bytes i; routing := routing i;
     discardable_history := discardable_history i; acceptance_criteria := acceptance_criteria i;
     required_materials := l; verification := verification i; i_limits := i_limits i |}.
Definition pin_required_materials (state : SessionSnapshot) (input : TaskInput) : result CoreError TaskInput :=
  l ← selected_materials state input;
  Ok (with_materials (foldl push_new (required_materials input) (material_id <$> l)) input).
(** [super::signals::same_reference] *)
Definition same_reference (a b : MaterialRef) : bool :=
  bool_decide (material_id a = material_id b) && bool_decide (version a = version b) &&
  bool_decide (sha256 a = sha256 b) && bool_decide (media_type a = media_type b) &&
  bool_decide (provenance a = provenance b) && eqb (required a) (required b) &&
  bool_decide (artifact a = artifact b).
End validation.
