(* ===== verification/AgentGraph.v ===== *)
(** Who waits for whom among the agents of a session: the subtree of an agent
    ([apps/storage/checkpoint/snapshot/collaboration.rs], [pending_dependencies] in [snapshot/mod.rs])
    and the search for a dependency cycle ([reaches] in [apps/core/collaboration.rs]). *)
From Stdlib Require Import ZArith Lia Ascii.
From stdpp Require Import base list strings gmap pretty sorting relations.
From S2P Require Import Prelude ExactInteger RegistryValue ModelHistory AgentTypes.
Open Scope string_scope.
Open Scope list_scope.
Open Scope Z_scope.

(** ** Subtrees *)

Definition is_child_of (ids : gset string) (a : AgentState) : bool :=
  is_some_and (λ p, bool_decide (p ∈ ids)) (parent_id a).
(** One turn of the loop: the inner [for], which extends the set as it goes. *)
Definition subtree_pass (l : list AgentState) (ids : gset string) : gset string :=
  foldl (λ ids a, if is_child_of ids a then {[agent_id a]} ∪ ids else ids) ids l.
Fixpoint subtree_loop (fuel : nat) (l : list AgentState) (ids : gset string) : option (gset string) :=
  match fuel with
  | O => None
  | S fuel =>
      let next := subtree_pass l ids in
      if (size next =? size ids)%nat then Some next else subtree_loop fuel l next
  end.
(** A turn of the loop that is not the last adds an agent. *)
Definition subtree_fuel (s : SessionSnapshot) : nat := S (length (values (agents s))).
Definition subtree (s : SessionSnapshot) (root : string) : gset string :=
  default ∅ (subtree_loop (subtree_fuel s) (values (agents s)) {[root]}).

(** ** Dependencies *)

(** The turn still has to end and to be reported. *)
Definition outstanding (t : AgentTurn) : bool := negb (terminal (status t)) || negb (notified t).
Definition unread (a : AgentState) : bool := existsb (λ m, negb (consumed m)) (mailbox a).
Definition pending_dependency (s : SessionSnapshot) (id : string) (descendants : gset string) (a : AgentState) : bool :=
  if bool_decide (agent_id a = id) then unread a
  else let descendant := bool_decide (agent_id a ∈ descendants) in
       existsb (λ w, descendant || bool_decide (sender_id w = id)) (queue a) ||
       is_some_and (λ t, (descendant || bool_decide (assigned_by t = id)) && outstanding t) (turn a).
Definition pending_dependencies (s : SessionSnapshot) (id : string) : bool :=
  existsb (pending_dependency s id (subtree s id)) (values (agents s)).

(** The targets of the waits that a turn has not got an answer for. *)
Definition unanswered (t : AgentTurn) : list string :=
  omap c_wait (List.filter (λ c, negb (is_some (c_result c))) (core_calls t)) ≫= λ w, sorted_keys (targets w).
Definition explicit_waits (s : SessionSnapshot) (id : string) : list string :=
  match agents s !! id ≫= turn with Some t => unanswered t | None => [] end.
Definition dependent (id : string) (descendants : gset string) (a : AgentState) : bool :=
  let descendant := negb (bool_decide (agent_id a = id)) && bool_decide (agent_id a ∈ descendants) in
  existsb (λ w, bool_decide (sender_id w = id)) (queue a) ||
  is_some_and (λ t, (bool_decide (assigned_by t = id) || descendant) && outstanding t) (turn a) ||
  (descendant && negb (bool_decide (queue a = []))).
Definition dependents (s : SessionSnapshot) (id : string) : list string :=
  agent_id <$> List.filter (dependent id (subtree s id)) (values (agents s)).

(** [iter.any(|next| reaches(state, next, target, seen))]: the set is threaded, and the first success ends it. *)
Fixpoint any_reaches (go : string → gset string → option (bool * gset string)) (l : list string) (seen : gset string) :
    option (bool * gset string) :=
  match l with
  | [] => Some (false, seen)
  | x :: l => '(b, seen) ← go x seen; if (b : bool) then Some (true, seen) else any_reaches go l seen
  end.
Fixpoint reaches (fuel : nat) (s : SessionSnapshot) (from target : string) (seen : gset string) :
    option (bool * gset string) :=
  if bool_decide (from = target) then Some (true, seen)
  else if bool_decide (from ∈ seen) then Some (false, seen)
  else match fuel with
  | O => None
  | S fuel =>
      let go next := reaches fuel s next target in
      '(b, seen) ← any_reaches go (explicit_waits s from) ({[from]} ∪ seen);
      if (b : bool) then Some (true, seen) else any_reaches go (dependents s from) seen
  end.
(** Every call that goes on marks an agent or the target of a wait. *)
Definition nodes (s : SessionSnapshot) : gset string :=
  list_to_set (agent_id <$> values (agents s)) ∪
  list_to_set (values (agents s) ≫= λ a, from_option unanswered [] (turn a)).
Definition search (s : SessionSnapshot) (from target : string) : option bool :=
  fst <$> reaches (S (size (nodes s))) s from target ∅.
Definition assignment_cycle (s : SessionSnapshot) (target actor : string) : bool := default false (search s target actor).

(** ** The subtree is what the parent links reach *)

Definition child (s : SessionSnapshot) (p c : string) : Prop :=
  ∃ k a, agents s !! k = Some a ∧ parent_id a = Some p ∧ agent_id a = c.

Lemma is_child_of_spec ids a : is_child_of ids a = true ↔ ∃ p, parent_id a = Some p ∧ p ∈ ids.
Proof.
  unfold is_child_of. destruct (parent_id a) as [p|]; cbn; [|naive_solver].
  rewrite bool_decide_eq_true. naive_solver.
Qed.
Lemma subtree_pass_mono l ids : ids ⊆ subtree_pass l ids.
Proof.
  unfold subtree_pass. revert ids. induction l as [|a l IH]; intros ids; cbn; [done|].
  etrans; [|apply IH]. destruct (is_child_of _ _); set_solver.
Qed.
Lemma subtree_pass_closed l ids : subtree_pass l ids = ids →
  ∀ a p, a ∈ l → parent_id a = Some p → p ∈ ids → agent_id a ∈ ids.
Proof.
  revert ids. induction l as [|b l IH]; intros ids Heq a p Ha Hp Hi; [set_solver|]. cbn in Heq.
  assert (subtree_pass l ids = ids ∧ (is_child_of ids b = true → agent_id b ∈ ids)) as [Hl Hb].
  { change (foldl _ ?x l) with (subtree_pass l x) in Heq. destruct (is_child_of ids b) eqn:Hb; [|done].
    pose proof (subtree_pass_mono l ({[agent_id b]} ∪ ids)) as Hm. rewrite Heq in Hm.
    assert ({[agent_id b]} ∪ ids = ids) as He by (apply set_eq; set_solver). rewrite He in Heq. split; [done|set_solver]. }
  apply elem_of_cons in Ha as [->|Ha]; [|by eapply IH]. apply Hb, is_child_of_spec. eauto.
Qed.
Lemma subtree_pass_sound s ids root l : (∀ a, a ∈ l → ∃ k, agents s !! k = Some a) →
  (∀ x, x ∈ ids → rtc (child s) root x) → ∀ x, x ∈ subtree_pass l ids → rtc (child s) root x.
Proof.
  unfold subtree_pass. revert ids. induction l as [|a l IH]; intros ids Hl Hi; cbn; [done|].
  apply IH; [set_solver|]. intros x. destruct (is_child_of ids a) eqn:Ha; [|apply Hi].
  apply is_child_of_spec in Ha as (p & Hp & Hpi). intros [->%elem_of_singleton|?]%elem_of_union; [|by apply Hi].
  eapply rtc_r; [by apply Hi|]. destruct (Hl a) as [k Hk]; [by left|]. by exists k, a.
Qed.
Lemma subtree_pass_ids l ids : subtree_pass l ids ⊆ ids ∪ list_to_set (agent_id <$> l).
Proof.
  unfold subtree_pass. revert ids. induction l as [|a l IH]; intros ids; cbn; [set_solver|].
  etrans; [apply IH|]. destruct (is_child_of _ _); set_solver.
Qed.
Lemma subtree_loop_ok s root fuel ids :
  root ∈ ids → (∀ x, x ∈ ids → rtc (child s) root x) →
  (size (list_to_set (agent_id <$> values (agents s)) ∖ ids : gset string) < fuel)%nat →
  ∃ r, subtree_loop fuel (values (agents s)) ids = Some r ∧ ∀ x, x ∈ r ↔ rtc (child s) root x.
Proof.
  revert ids. induction fuel as [|fuel IH]; intros ids Hr Hi Hf; [lia|]. cbn.
  set (next := subtree_pass (values (agents s)) ids). pose proof (subtree_pass_mono (values (agents s)) ids) as Hm.
  pose proof (subtree_pass_sound s ids root (values (agents s)) (λ a, proj1 (elem_of_values _ a)) Hi) as Hs.
  destruct (Nat.eqb_spec (size next) (size ids)) as [He|He].
  - exists next. split; [done|].
    assert (next = ids) as Heq by (symmetry; apply set_subseteq_size_eq; [done|lia]).
    rewrite Heq. intros x. split; [apply Hi|].
    intros Hx. revert x Hx. apply rtc_ind_r; [done|]. intros y z _ (k & a & Hk & Hp & <-) Hy.
    eapply subtree_pass_closed; [exact Heq|apply elem_of_values; eauto|done|done].
  - apply IH; [set_solver|exact Hs|].
    assert (ids ⊂ next) as Hss.
    { split; [done|]. intros Hc. apply He. f_equal. apply set_eq. set_solver. }
    pose proof (subtree_pass_ids (values (agents s)) ids) as Hn. fold next in Hn.
    assert (size (list_to_set (agent_id <$> values (agents s)) ∖ next : gset string) <
            size (list_to_set (agent_id <$> values (agents s)) ∖ ids : gset string))%nat; [|lia].
    apply subset_size. split; [set_solver|]. intros Hc. destruct Hss as [_ Hss]. apply Hss. intros x Hx.
    destruct (decide (x ∈ ids)); [done|]. set_solver.
Qed.
Lemma size_ids (l : list string) : (size (list_to_set l : gset string) ≤ length l)%nat.
Proof.
  induction l as [|x l IH]; cbn; [by rewrite size_empty|]. rewrite size_union_alt, size_singleton.
  pose proof (subseteq_size (list_to_set l ∖ {[x]} : gset string) (list_to_set l) ltac:(set_solver)). lia.
Qed.
Lemma elem_of_subtree s root x : x ∈ subtree s root ↔ rtc (child s) root x.
Proof.
  unfold subtree. destruct (subtree_loop_ok s root (subtree_fuel s) {[root]}) as (r & -> & Hr); [set_solver| | |done].
  - intros y ->%elem_of_singleton. apply rtc_refl.
  - unfold subtree_fuel. apply Nat.lt_succ_r. etrans; [apply subseteq_size with (Y := list_to_set (agent_id <$> values (agents s))); set_solver|].
    by rewrite size_ids, length_fmap.
Qed.

(** ** The search for a cycle is reachability *)

(** [x] cannot go on before [y] does: its wait names [y]; or [y] holds or does work for [x], or is a busy
    descendant of it. *)
Definition explicitly_waits (s : SessionSnapshot) (x y : string) : Prop :=
  ∃ a t c w, agents s !! x = Some a ∧ turn a = Some t ∧ c ∈ core_calls t ∧ c_result c = None ∧
    c_wait c = Some w ∧ y ∈ dom (targets w).
Definition needs (s : SessionSnapshot) (x : string) (a : AgentState) : Prop :=
  let descends := agent_id a ≠ x ∧ rtc (child s) x (agent_id a) in
  (∃ w, w ∈ queue a ∧ sender_id w = x) ∨
  (∃ t, turn a = Some t ∧ outstanding t = true ∧ (assigned_by t = x ∨ descends)) ∨
  (descends ∧ queue a ≠ []).
Definition depends (s : SessionSnapshot) (x y : string) : Prop :=
  explicitly_waits s x y ∨ ∃ k a, agents s !! k = Some a ∧ agent_id a = y ∧ needs s x a.

Lemma elem_of_unanswered t y :
  y ∈ unanswered t ↔ ∃ c w, c ∈ core_calls t ∧ c_result c = None ∧ c_wait c = Some w ∧ y ∈ dom (targets w).
Proof.
  unfold unanswered. rewrite list_elem_of_bind. setoid_rewrite list_elem_of_omap. setoid_rewrite filter_elem.
  setoid_rewrite elem_of_sorted_keys. unfold is_some. split.
  - intros (w & Hy & c & (Hc & Hr) & Hw). exists c, w. split_and!; [done| |done..]. by destruct (c_result c).
  - intros (c & w & Hc & Hr & Hw & Hy). exists w. split; [done|]. exists c. rewrite Hr. done.
Qed.
Lemma elem_of_explicit_waits s x y : y ∈ explicit_waits s x ↔ explicitly_waits s x y.
Proof.
  unfold explicit_waits, explicitly_waits. split.
  - destruct (agents s !! x) as [a|] eqn:Ha; cbn; [|set_solver]. destruct (turn a) as [t|] eqn:Ht; [|set_solver].
    intros (c & w & Hc)%elem_of_unanswered. naive_solver.
  - intros (a & t & c & w & Ha & Ht & Hc). rewrite Ha. cbn. rewrite Ht. apply elem_of_unanswered. eauto.
Qed.
Lemma dependent_spec s x a : dependent x (subtree s x) a = true ↔ needs s x a.
Proof.
  unfold dependent, needs. rewrite !orb_true_iff, andb_true_iff, negb_true_iff, existsb_exists.
  assert ((negb (bool_decide (agent_id a = x)) && bool_decide (agent_id a ∈ subtree s x)) = true ↔
          agent_id a ≠ x ∧ rtc (child s) x (agent_id a)) as Hd.
  { rewrite andb_true_iff, negb_true_iff, bool_decide_eq_false, bool_decide_eq_true. by rewrite elem_of_subtree. }
  assert (is_some_and (λ t, (bool_decide (assigned_by t = x) || (negb (bool_decide (agent_id a = x)) &&
      bool_decide (agent_id a ∈ subtree s x))) && outstanding t) (turn a) = true ↔
    ∃ t, turn a = Some t ∧ outstanding t = true ∧
      (assigned_by t = x ∨ agent_id a ≠ x ∧ rtc (child s) x (agent_id a))) as ->.
  { destruct (turn a) as [t|]; cbn; [|naive_solver].
    rewrite andb_true_iff, orb_true_iff, bool_decide_eq_true, Hd. naive_solver. }
  rewrite Hd, bool_decide_eq_false. setoid_rewrite bool_decide_eq_true. setoid_rewrite <-list_elem_of_In. tauto.
Qed.
Lemma elem_of_dependents s x y :
  y ∈ dependents s x ↔ ∃ k a, agents s !! k = Some a ∧ agent_id a = y ∧ needs s x a.
Proof.
  unfold dependents. rewrite list_elem_of_fmap. setoid_rewrite filter_elem. setoid_rewrite elem_of_values.
  setoid_rewrite dependent_spec. naive_solver.
Qed.
Lemma depends_spec s x y : depends s x y ↔ y ∈ explicit_waits s x ∨ y ∈ dependents s x.
Proof. unfold depends. by rewrite elem_of_explicit_waits, elem_of_dependents. Qed.

Section search.
Context (s : SessionSnapshot) (target : string).

(** What the search marked since [seen] has no successor outside of the marks. *)
Definition explored (seen seen' : gset string) : Prop :=
  seen ⊆ seen' ∧ ∀ x, x ∈ seen' → x ∉ seen → x ≠ target ∧ ∀ y, depends s x y → y ∈ seen'.
Definition search_ok (from : list string) (seen : gset string) (r : option (bool * gset string)) : Prop :=
  ∃ b seen', r = Some (b, seen') ∧
    if (b : bool) then seen ⊆ seen' ∧ ∃ x, x ∈ from ∧ rtc (depends s) x target
    else explored seen seen' ∧ ∀ x, x ∈ from → x ∈ seen'.

Lemma explored_trans a b c : explored a b → explored b c → explored a c.
Proof.
  intros [Hab Ha] [Hbc Hb]. split; [set_solver|]. intros x Hc Hna. destruct (decide (x ∈ b)) as [Hx|Hx]; [|by apply Hb].
  destruct (Ha x Hx Hna) as [? Hy]. split; [done|]. intros y Hd. apply Hbc. by apply Hy.
Qed.
Lemma any_reaches_ok (U : gset string) fuel go l seen :
  (∀ x seen, x ∈ U → (size (U ∖ seen) ≤ fuel)%nat → search_ok [x] seen (go x seen)) →
  (∀ x, x ∈ l → x ∈ U) → (size (U ∖ seen) ≤ fuel)%nat → search_ok l seen (any_reaches go l seen).
Proof.
  intros Hgo. revert seen. induction l as [|x l IH]; intros seen Hl Hf; cbn.
  { exists false, seen. split_and!; [done| |set_solver]. split; [done|]. naive_solver. }
  destruct (Hgo x seen) as ([] & seen1 & -> & H1); [set_solver|done|..]; cbn.
  - exists true, seen1. split; [done|]. destruct H1 as (Hs & y & ->%list_elem_of_singleton & Hy).
    split; [done|]. exists x. split; [left|done].
  - destruct H1 as (He & Hx). destruct (IH seen1) as (b & seen2 & -> & H2); [set_solver| |].
    { etrans; [apply subseteq_size with (Y := U ∖ seen)|done]. destruct He. set_solver. }
    exists b, seen2. split; [done|]. destruct b.
    + destruct H2 as (Hs & y & Hy & Hr). split; [destruct He; set_solver|]. exists y. split; [by right|done].
    + destruct H2 as (He2 & Hl2). split; [by eapply explored_trans|]. intros y [->|Hy]%elem_of_cons; [|by apply Hl2].
      apply He2. apply Hx. left.
Qed.
Lemma reaches_ok (U : gset string) fuel from seen :
  (∀ x y, x ∈ U → depends s x y → y ∈ U) → from ∈ U → (size (U ∖ seen) ≤ fuel)%nat →
  search_ok [from] seen (reaches fuel s from target seen).
Proof.
  intros HU. revert from seen. induction fuel as [|fuel IH]; intros from seen Hfrom Hf; cbn [reaches];
    (case_bool_decide as Ht; [exists true, seen; subst; split_and!; [done..|]; exists target; split; [left|apply rtc_refl]|]);
    (case_bool_decide as Hs; [exists false, seen; split_and!; [done|split; [done|naive_solver]|set_solver]|]).
  { exfalso. assert (U ∖ seen ≡ ∅) as He by (apply size_empty_inv; lia). set_solver. }
  assert (size (U ∖ ({[from]} ∪ seen)) ≤ fuel)%nat as Hf1.
  { apply Nat.lt_succ_r. eapply Nat.lt_le_trans; [|exact Hf]. apply subset_size. set_solver. }
  destruct (any_reaches_ok U fuel (λ next, reaches fuel s next target) (explicit_waits s from) ({[from]} ∪ seen))
    as (b1 & seen1 & -> & H1); [by intros; apply IH| |done|].
  { intros x Hx. eapply HU; [exact Hfrom|]. apply depends_spec. by left. }
  cbn. destruct b1.
  { exists true, seen1. split; [done|]. destruct H1 as (Hs1 & x & Hx & Hr). split; [set_solver|]. exists from.
    split; [left|]. eapply rtc_l; [|exact Hr]. apply depends_spec. by left. }
  destruct H1 as (He1 & Hx1).
  destruct (any_reaches_ok U fuel (λ next, reaches fuel s next target) (dependents s from) seen1)
    as (b2 & seen2 & -> & H2); [by intros; apply IH| |..].
  { intros x Hx. eapply HU; [exact Hfrom|]. apply depends_spec. by right. }
  { etrans; [apply subseteq_size with (Y := U ∖ ({[from]} ∪ seen))|done]. destruct He1. set_solver. }
  exists b2, seen2. split; [done|]. destruct b2.
  { destruct H2 as (Hs2 & x & Hx & Hr). split; [destruct He1; set_solver|]. exists from.
    split; [left|]. eapply rtc_l; [|exact Hr]. apply depends_spec. by right. }
  destruct H2 as (He2 & Hx2). destruct (explored_trans _ _ _ He1 He2) as [Hsub He]. split; [|set_solver].
  split; [set_solver|]. intros x Hx Hnx. destruct (decide (x = from)) as [->|Hne]; [|by apply He; set_solver].
  split; [done|]. intros y [Hy|Hy]%depends_spec; [|by apply Hx2]. apply He2. by apply Hx1.
Qed.
End search.

Lemma depends_nodes s x y : depends s x y → y ∈ nodes s.
Proof.
  unfold nodes. rewrite elem_of_union, !elem_of_list_to_set. intros [(a & t & c & w & Ha & Ht & Hc)|(k & a & Ha & <- & _)].
  - right. apply list_elem_of_bind. exists a. split; [|apply elem_of_values; eauto]. rewrite Ht. cbn.
    apply elem_of_unanswered. eauto.
  - left. apply list_elem_of_fmap. exists a. split; [done|]. apply elem_of_values. eauto.
Qed.

Lemma search_spec s target actor : ∃ b, search s target actor = Some b ∧ (b = true ↔ rtc (depends s) target actor).
Proof.
  destruct (reaches_ok s actor ({[target]} ∪ nodes s) (S (size (nodes s))) target ∅) as (b & seen & Hs & Hb).
  - intros x y _ Hd%depends_nodes. set_solver.
  - set_solver.
  - etrans; [apply subseteq_size with (Y := {[target]} ∪ nodes s); set_solver|].
    rewrite size_union_alt, size_singleton. apply le_n_S, subseteq_size. set_solver.
  - exists b. unfold search. rewrite Hs. split; [done|]. destruct b.
    + destruct Hb as (_ & x & ->%list_elem_of_singleton & Hx). done.
    + split; [done|]. destruct Hb as ([_ He] & Hx). intros Hd. exfalso.
      assert (∀ x, rtc (depends s) target x → x ∈ seen) as Hall.
      { apply rtc_ind_r; [apply Hx; left|]. intros y z _ Hyz Hy. eapply He; [exact Hy|set_solver|done]. }
      specialize (Hall _ Hd). by destruct (He actor) as [Hne _]; [|set_solver|].
Qed.
Lemma cycle_reaches s target actor : assignment_cycle s target actor = true ↔ rtc (depends s) target actor.
Proof. unfold assignment_cycle. destruct (search_spec s target actor) as (b & -> & Hb). exact Hb. Qed.

(** C26: The search for a dependency cycle ends, and finds one precisely when the target depends on the actor, through
    waits that have no answer yet, work that is queued or done for each other, and busy descendants. *)
Theorem assignment_cycle_iff s target actor :
  is_Some (search s target actor) ∧ (assignment_cycle s target actor = true ↔ rtc (depends s) target actor).
Proof.
  split; [|apply cycle_reaches]. destruct (search_spec s target actor) as (b & -> & _). by eexists.
Qed.
