(* ===== verification/AgentAllocation.v ===== *)
(** The choice of a context for a task ([apps/core/allocation.rs]): a new child, or an idle worker whose
    history may be kept, and the check of a reserved worker before it starts. The text of the UUID that
    a function draws is an argument of it. *)
From Stdlib Require Import ZArith Lia Ascii.
From stdpp Require Import base list strings gmap pretty sorting relations.
From S2P Require Import Prelude ExactInteger RegistryValue ModelHistory AgentTypes AgentGraph.
Open Scope string_scope.
Open Scope list_scope.
Open Scope Z_scope.

(** [reasons.push(r)] under a condition. *)
Definition when (b : bool) (r : string) : list string := if b then [r] else [].
Definition valid_history (h : list Message) : bool := is_ok (validate_history h).
Definition step_activated (s : ModelStep) : bool :=
  negb (is_some (reconstructed_from s)) || is_some_and applied (context_validation s).
Definition inherited_history (a : AgentState) : list Message :=
  from_option input_history []
    (t ← turn a; snd <$> list_find (λ s, step_activated s = true) (rev (steps t))).
Definition reuse_input (i : TaskInput) (a : AgentState) : TaskInput :=
  with_materials (foldl push_new (required_materials i) (material_id <$> (context_sources a ≫= c_materials))) i.

Inductive Intent := Intent_spawn | Intent_delegate (target : option string).

Section allocation.
Context `{SessionEnv}.

Definition request_blocks (s : SessionSnapshot) (m : MaterialRef) (r : MaterialRequest) : bool :=
  (r_signal_revision r =? revision (signals s)) && is_some (unavailable_reason r) && same_reference (reference r) m.
Definition material_rejections (s : SessionSnapshot) (i : TaskInput) : list string :=
  match selected_materials s i with
  | Err _ => ["required_material_missing"]
  | Ok l => when (existsb (λ m, negb (is_some (m_content m)) && existsb (request_blocks s m) (values (requests (signals s)))) l)
              "required_material_unavailable"
  end.
Definition changed_material (s : SessionSnapshot) (r : MaterialRef) : bool :=
  is_none_or (λ current, negb (same_reference r current)) (materials (signals s) !! material_id r).
Definition source_rejections (s : SessionSnapshot) (a : AgentState) : list string :=
  let sources := context_sources a in
  let revision := hm_workspace_revision (manifest s) in
  when (bool_decide (sources = [])) "context_provenance_unknown" ++
  (if negb (is_some revision) || existsb (λ c, negb (is_some (workspace_revision c))) sources
   then ["workspace_revision_unknown"]
   else when (existsb (λ c, negb (bool_decide (workspace_revision c = revision))) sources) "workspace_revision_changed") ++
  when (existsb (λ c, negb (permission_revision c =? hm_permission_revision (manifest s))) sources)
    "permission_revision_changed" ++
  when (existsb (λ c, negb (bool_decide (tool_manifest_digest c = hm_tool_manifest_digest (manifest s)))) sources)
    "tool_manifest_changed" ++
  when (existsb (changed_material s) (sources ≫= c_materials)) "material_version_changed".
Definition input_limit (s : SessionSnapshot) (i : TaskInput) : list string :=
  when (is_some_and (λ r, negb (is_ok (validate_input i (r_limits r)))) (run s)) "retained_context_input_limit".

Definition open_step (st : ModelStep) : bool := negb (settled st) || existsb (λ a, negb (has_receipt a)) (attempts st).
Definition open_invocation (i : Invocation) : bool := negb (i_consumed i) || negb (is_some (i_result i)).
Definition open_call (c : Call) : bool := negb (c_consumed c) || negb (is_some (c_result c)).
Definition busy_turn (t : AgentTurn) : bool :=
  negb (terminal (status t)) || negb (notified t) || existsb open_step (steps t) ||
  existsb open_invocation (invocations t) || existsb open_call (core_calls t).
Definition not_idle (s : SessionSnapshot) (a : AgentState) : bool :=
  negb (bool_decide (queue a = [])) || is_none_or busy_turn (turn a) || pending_dependencies s (agent_id a).
Definition reuse_rejections (s : SessionSnapshot) (actor : string) (w : Work) (i : TaskInput) (a : AgentState) : list string :=
  when (is_none_or trim_is_empty (w_task_scope w) || negb (bool_decide (task_scope a = w_task_scope w)))
    "task_scope_mismatch" ++
  when (not_idle s a) "worker_not_idle" ++
  when (assignment_cycle s (agent_id a) actor) "dependency_cycle" ++
  when (negb (valid_history (history a))) "unpaired_history" ++
  source_rejections s a ++
  let i := reuse_input i a in material_rejections s i ++ input_limit s i.

(** The reasons that hold for every candidate. *)
Definition common_rejections (s : SessionSnapshot) (r : RootRun) (i : TaskInput) : list string :=
  when (l_model_attempts (r_limits r) <=? r_model_attempts r) "model_attempt_budget_exhausted" ++
  when (active_seconds (r_limits r) *| 1000 <=? active_ms r) "active_time_budget_exhausted" ++
  material_rejections s i.
Definition reuse_candidate (s : SessionSnapshot) (actor : string) (w : Work) (i : TaskInput) (common : list string)
    (id : string) : ContextCandidate :=
  let agent := agents s !! id in
  {| candidate_id := "reuse:" +:+ id; kind := Reuse; cc_agent_id := Some id;
     cc_context_revision := context_revision <$> agent;
     rejection_reasons := common ++
       when (fresh_context w || independent_review w) "isolated_context_required" ++
       when (bool_decide (id = s_agent_id s) || bool_decide (id = actor)) "non_root_worker_required" ++
       match agent with Some a => reuse_rejections s actor w i a | None => ["unknown_target"] end |}.
Definition delegate_ids (s : SessionSnapshot) (actor : string) (target : option string) : list string :=
  match target with
  | Some t => [t]
  | None => List.filter (λ id, negb (bool_decide (id = s_agent_id s)) && negb (bool_decide (id = actor))) (sorted_keys (agents s))
  end.
Definition new_candidate (s : SessionSnapshot) (r : RootRun) (a : AgentState) (w : Work) (spawn : bool) (common : list string)
    (assignment : string) : ContextCandidate :=
  let kind := if spawn && negb (fresh_context w) && negb (independent_review w) then Inherited else Fresh in
  {| candidate_id := "new:" +:+ assignment; kind := kind; cc_agent_id := None; cc_context_revision := None;
     rejection_reasons := common ++
       when (l_agents (r_limits r) <=? Z.of_nat (size (agents s))) "agent_capacity_exhausted" ++
       when (child_depth (r_limits r) <=? depth a) "child_depth_exhausted" ++
       when (bool_decide (kind = Inherited) && negb (valid_history (inherited_history a))) "unpaired_history" |}.
Definition eligible (c : ContextCandidate) : bool := bool_decide (rejection_reasons c = []).
Definition resource_reason (r : string) : bool :=
  bool_decide (r ∈ ["agent_capacity_exhausted"; "child_depth_exhausted"; "model_attempt_budget_exhausted";
                    "active_time_budget_exhausted"]).
Definition is_spawn (i : Intent) : bool := match i with Intent_spawn => true | _ => false end.
Definition all_candidates (s : SessionSnapshot) (r : RootRun) (a : AgentState) (actor : string) (w : Work)
    (work : Assignment) (intent : Intent) : list ContextCandidate :=
  let common := common_rejections s r (w_input work) in
  match intent with
  | Intent_spawn => []
  | Intent_delegate target => reuse_candidate s actor w (w_input work) common <$> delegate_ids s actor target
  end ++
  match intent with
  | Intent_delegate (Some _) => []
  | _ => [new_candidate s r a w (is_spawn intent) common (assignment_id work)]
  end.
Definition allocation_error (cs : list ContextCandidate) : CoreError :=
  rejected (if forallb (λ c, forallb resource_reason (rejection_reasons c)) cs then LimitExceeded else NoFeasibleRoute)
    "no eligible context allocation; inspect the retained allocation candidates".
Definition choose (uuid : string) (s : SessionSnapshot) (actor_id : string) (task : Work) (work : Assignment)
    (intent : Intent) (state_revision : Z) : result CoreError ContextAllocation :=
  actor ← ok_or (agents s !! actor_id) (rejected UnauthorizedScope "unknown allocation actor");
  r ← ok_or (run s) (rejected Busy "allocation requires an active run");
  let cs := all_candidates s r actor actor_id task work intent in
  let selected := snd <$> list_find (λ c, eligible c = true) cs in
  Ok {| ca_allocation_id := "allocation_" +:+ uuid; policy_id := "core_rules_v1";
        ca_source := if is_spawn intent then "spawn_agent" else "delegate_task";
        input_state_revision := state_revision; ca_signal_revision := revision (signals s);
        AgentTypes.actor_id := actor_id; actor_context_revision := context_revision actor;
        ca_assignment_id := assignment_id work; AgentTypes.task := task; ca_input := w_input work;
        candidates := cs; selected_candidate_id := candidate_id <$> selected;
        selected_agent_id := selected ≫= cc_agent_id;
        error := if is_some selected then None else Some (allocation_error cs);
        applied_state_revision := None; application_error := None |}.

(** [id] is the allocation that the queued work names. *)
Definition is_selected (a : ContextAllocation) (c : ContextCandidate) : bool :=
  bool_decide (Some (candidate_id c) = selected_candidate_id a).
Definition validate_reuse (s : SessionSnapshot) (a : AgentState) (id : string) (i : TaskInput) (activating : bool) :
    result CoreError unit :=
  allocation ← ok_or (allocations s !! id) (rejected CheckpointConflict "missing task allocation");
  '(_, c) ← ok_or (list_find (λ c, is_selected allocation c = true) (candidates allocation))
              (rejected CheckpointConflict "missing selected context");
  if negb (bool_decide (kind c = Reuse)) then Ok tt
  else
    let reasons := source_rejections s a ++ material_rejections s i ++ input_limit s i ++
      when (activating && negb (bool_decide (cc_context_revision c = Some (context_revision a)))) "context_revision_changed" ++
      when (negb (bool_decide (selected_agent_id allocation = Some (agent_id a)))) "selected_agent_changed" in
    if bool_decide (reasons = []) then Ok tt
    else Err (rejected NoFeasibleRoute ("reserved context is no longer eligible: " +:+ join ", " reasons)).
End allocation.
