(* ===== verification/AgentCollaboration.v ===== *)
(** The collaboration of agents ([apps/core/collaboration.rs]): every action that a model or the runtime
    may ask for, and the transitions around them ([apps/core/session.rs], [core/session/budget.rs]):
    a call is answered, a queued task starts, a result is delivered.

    An operation works on a copy, so an error carries no state. The texts of the UUIDs that an operation
    draws are its first argument, in the order of the draws. *)
From Stdlib Require Import ZArith Lia Ascii.
From stdpp Require Import base list strings gmap pretty sorting relations.
From S2P Require Import Prelude ExactInteger RegistryValue ModelHistory AgentTypes AgentGraph AgentAllocation.
Open Scope string_scope.
Open Scope list_scope.
Open Scope Z_scope.

(** ** What is answered *)

Definition opt_json (o : option string) : Value := match o with Some s => VString s | None => VNull end.
Definition u64_json (n : Z) : Value := VNumber (pretty n).
Definition strings_json (l : list string) : Value := VArray (VString <$> l).
Definition artifact_json (a : ArtifactRef) : Value :=
  VObject [("artifact_id", VString (artifact_id a)); ("sha256", VString (a_sha256 a)); ("bytes", u64_json (a_bytes a));
           ("media_type", VString (a_media_type a))].
Definition material_json (m : MaterialRef) : Value :=
  VObject [("material_id", VString (material_id m)); ("version", VString (version m)); ("sha256", VString (sha256 m));
           ("media_type", VString (media_type m)); ("provenance", VString (provenance m)); ("required", VBool (required m));
           ("artifact", from_option artifact_json VNull (artifact m)); ("content", opt_json (m_content m))].
Definition source_json (c : ContextSource) : Value :=
  VObject [("permission_revision", u64_json (permission_revision c)); ("workspace_revision", opt_json (workspace_revision c));
           ("tool_manifest_digest", VString (tool_manifest_digest c)); ("materials", VArray (material_json <$> c_materials c))].
Definition code_json (c : ErrorCode) : Value :=
  VString match c with
  | UnsupportedCapability => "unsupported_capability" | UnsupportedVersion => "unsupported_version"
  | UnauthorizedScope => "unauthorized_scope" | StaleEpoch => "stale_epoch" | StaleRevision => "stale_revision"
  | OperationConflict => "operation_conflict" | Busy => "busy" | LimitExceeded => "limit_exceeded"
  | CheckpointConflict => "checkpoint_conflict" | CheckpointUnavailable => "checkpoint_unavailable"
  | ArtifactUnavailable => "artifact_unavailable" | NoFeasibleRoute => "no_feasible_route"
  | InvalidToolResult => "invalid_tool_result" | RecoveryRequired => "recovery_required"
  end.
Definition error_json (e : CoreError) : Value :=
  VObject [("code", code_json (e_code e)); ("message", VString (e_message e));
           ("commit_status", VString match commit_status e with
              | NotCommitted => "not_committed" | Committed => "committed" | CommitUnknown => "unknown" end)].

Inductive Applied :=
| Complete (value : Value) | Waiting (wait : WaitState) | Rejected (allocation_id : string) (error : CoreError).

(** ** Capacity and mail *)

(** A turn that takes one of the slots of the descendants, or work from a descendant, for which the
    slot is kept. *)
Definition live_turn (r : RootRun) (a : AgentState) : bool :=
  is_some_and (λ t, bool_decide (run_id t = r_run_id r) && negb (terminal (status t))) (turn a).
Definition reserved_work (s : SessionSnapshot) (r : RootRun) (w : Assignment) : bool :=
  bool_decide (w_run_id w = r_run_id r) && negb (bool_decide (sender_id w = s_agent_id s)).
Definition takes_slot (s : SessionSnapshot) (r : RootRun) (a : AgentState) : bool :=
  is_some (parent_id a) && (live_turn r a || existsb (reserved_work s r) (queue a)).
Definition has_turn_capacity (s : SessionSnapshot) (starting : option string) : bool :=
  is_none_or (λ r, is_none_or (λ maximum,
      countb (λ a, negb (bool_decide (starting = Some (agent_id a))) && takes_slot s r a) (values (agents s)) <? maximum)
    (max_concurrent_subagents (r_input r))) (run s).

Definition non_root (s : SessionSnapshot) (id : string) : result CoreError AgentState :=
  if bool_decide (id = s_agent_id s) then Err (rejected UnauthorizedScope "operation requires a non-root agent")
  else ok_or (agents s !! id) (rejected UnauthorizedScope "unknown agent").
Definition set_agent (id : string) (a : AgentState) (s : SessionSnapshot) : SessionSnapshot :=
  with_agents (<[id := a]> (agents s)) s.
Definition set_allocation (id : string) (a : ContextAllocation) (s : SessionSnapshot) : SessionSnapshot :=
  with_allocations (<[id := a]> (allocations s)) s.
Definition unread_count (a : AgentState) : Z := countb (λ m, negb (consumed m)) (mailbox a).
Definition enqueue_mail (uuid : string) (s : SessionSnapshot) (sender target kind : string) (content : Value) :
    result CoreError (SessionSnapshot * string) :=
  sender_agent ← ok_or (agents s !! sender) (rejected UnauthorizedScope "unknown message sender");
  sender_turn ← ok_or (turn sender_agent) (rejected UnauthorizedScope "unknown message sender");
  r ← ok_or (run s) (rejected Busy "no active run");
  recipient ← ok_or (agents s !! target) (rejected UnauthorizedScope "unknown message target");
  let archived := bool_decide (kind = "agent_result") &&
    is_some_and (λ t, terminal (status t) || bool_decide (status t = Cancelling)) (turn recipient) in
  _ ← ensure (archived || (unread_count recipient <? mailbox_messages (r_limits r)))
        (rejected LimitExceeded "recipient mailbox is full");
  let id := "message_" +:+ uuid in
  let mail := {| message_id := id; m_sender_id := sender; sender_turn_id := agent_turn_id sender_turn; m_kind := kind;
                 mail_content := content; m_context_sources := context_sources sender_agent; consumed := archived |} in
  Ok (set_agent target (with_mailbox (mailbox recipient ++ [mail]) recipient) s, id).

(** ** Assignments *)

Definition new_turn (w : Assignment) (history_start : option Z) : AgentTurn :=
  {| run_id := w_run_id w; agent_turn_id := assignment_id w; assigned_by := sender_id w; input := w_input w;
     allocation_id := w_allocation_id w; AgentTypes.history_start := history_start; status := Runnable;
     cancellation_requested := false; steps := []; invocations := []; core_calls := []; final_answer := None;
     terminal_reason := None; notified := false |}.
Definition task_input (parent : TaskInput) (t : Work) : TaskInput :=
  {| max_concurrent_subagents := max_concurrent_subagents parent; text := w_text t;
     i_model := default (i_model parent) (w_model t);
     effort := if is_some (w_effort t) then w_effort t else effort parent;
     max_output_tokens := max_output_tokens parent; context_limit_bytes := context_limit_bytes parent;
     routing := {| model_mode := if is_some (w_model t) then ModelFixed else model_mode (routing parent);
                   context_mode := context_mode (routing parent); skills := skills (routing parent) |};
     discardable_history := None;
     acceptance_criteria := foldl push_new (acceptance_criteria parent) (w_acceptance_criteria t);
     required_materials := foldl push_new (required_materials parent) (w_required_materials t);
     verification := None; i_limits := i_limits parent |}.

Section collaboration.
Context `{SessionEnv}.

Definition assignment (uuid : string) (s : SessionSnapshot) (actor : string) (t : Work) : result CoreError Assignment :=
  assigning ← ok_or (agents s !! actor) (rejected UnauthorizedScope "unknown assigning agent");
  parent ← ok_or (turn assigning) (rejected UnauthorizedScope "assigning agent has no turn");
  r ← ok_or (run s) (rejected Busy "no active run");
  let input := task_input (AgentTypes.input parent) t in
  _ ← validate_input input (r_limits r);
  input ← pin_required_materials s input;
  Ok {| assignment_id := "turn_" +:+ uuid; w_run_id := r_run_id r; sender_id := actor; w_input := input;
        w_required_instructions := push_new (required_instructions assigning) (w_text t); w_allocation_id := None |}.
Definition with_input i (w : Assignment) : Assignment :=
  {| assignment_id := assignment_id w; w_run_id := w_run_id w; sender_id := sender_id w; w_input := i;
     w_required_instructions := w_required_instructions w; w_allocation_id := w_allocation_id w |}.
Definition with_allocation_id i (w : Assignment) : Assignment :=
  {| assignment_id := assignment_id w; w_run_id := w_run_id w; sender_id := sender_id w; w_input := w_input w;
     w_required_instructions := w_required_instructions w; w_allocation_id := i |}.

(** [context::enabled]: the feature of context views was negotiated. *)
Definition context_enabled (s : SessionSnapshot) : bool :=
  bool_decide ("context_views_v1" ∈ required_features (manifest s)).
Definition spawned_agent (s : SessionSnapshot) (id actor : string) (parent : AgentState) (t : Work) (w : Assignment)
    (kind : ContextKind) : AgentState :=
  let inherits := bool_decide (kind = Inherited) in
  {| agent_id := id; parent_id := Some actor; display_path := display_path parent +:+ "/" +:+ id;
     depth := wrapping_add u32_max (depth parent) 1; context_revision := 1;
     history := (if inherits && negb (context_enabled s) then inherited_history parent else []) ++
                  [Message_text User (text (w_input w))];
     required_instructions := w_required_instructions w; turn := Some (new_turn w (Some 0)); queue := []; mailbox := [];
     task_scope := w_task_scope t; context_sources := if inherits then context_sources parent else [];
     last_scheduled := 0 |}.
Definition spawn (uuid : string) (s : SessionSnapshot) (actor : string) (t : Work) (w : Assignment) (kind : ContextKind) :
    result CoreError (SessionSnapshot * string) :=
  parent ← ok_or (agents s !! actor) (rejected UnauthorizedScope "unknown parent");
  let id := "agent_" +:+ uuid in
  Ok (set_agent id (spawned_agent s id actor parent t w kind) s, id).

Definition with_selected agent revision input (a : ContextAllocation) : ContextAllocation :=
  {| ca_allocation_id := ca_allocation_id a; policy_id := policy_id a; ca_source := ca_source a;
     input_state_revision := input_state_revision a; ca_signal_revision := ca_signal_revision a; actor_id := actor_id a;
     actor_context_revision := actor_context_revision a; ca_assignment_id := ca_assignment_id a; task := task a;
     ca_input := input; candidates := candidates a; selected_candidate_id := selected_candidate_id a;
     selected_agent_id := agent; error := error a; applied_state_revision := revision;
     application_error := application_error a |}.
Definition place (uuid : string) (s : SessionSnapshot) (actor : string) (t : Work) (w : Assignment)
    (decision : ContextAllocation) (c : ContextCandidate) (revision : Z) :
    result CoreError (SessionSnapshot * string * bool * ContextAllocation) :=
  match kind c with
  | Reuse =>
      target ← ok_or (cc_agent_id c) (rejected CheckpointConflict "reuse candidate has no agent");
      agent ← non_root s target;
      let input := reuse_input (w_input w) agent in
      Ok (set_agent target (with_queue (queue agent ++ [with_input input w]) agent) s, target, false,
          with_selected (Some target) (applied_state_revision decision) input decision)
  | k =>
      '(s, id) ← spawn uuid s actor t w k;
      Ok (s, id, true, with_selected (Some id) (Some (revision +% 1)) (ca_input decision) decision)
  end.
Definition allocate (uuids : nat → string) (s : SessionSnapshot) (actor : string) (t : Work) (intent : Intent) (revision : Z) :
    result CoreError (SessionSnapshot * Applied) :=
  _ ← ensure (has_turn_capacity s None) (rejected LimitExceeded "active descendant turn capacity reached");
  w ← assignment (uuids 0%nat) s actor t;
  decision ← choose (uuids 1%nat) s actor t w intent revision;
  let id := ca_allocation_id decision in
  let w := with_allocation_id (Some id) w in
  match error decision with
  | Some e => Ok (set_allocation id decision s, Rejected id e)
  | None =>
      '(_, c) ← ok_or (list_find (λ c, is_selected decision c = true) (candidates decision))
                  (rejected CheckpointConflict "allocation has no selected candidate");
      '(s, agent, created, decision) ← place (uuids 2%nat) s actor t w decision c revision;
      Ok (set_allocation id decision s,
          Complete (VObject [("agent_id", VString agent); ("agent_turn_id", VString (assignment_id w));
                             ("created", VBool created); ("allocation_id", VString id)]))
  end.

(** ** Waits *)

Definition wait_target (a : AgentState) : option WaitTarget :=
  match last (queue a) with
  | Some w => Some {| wt_turn_id := assignment_id w; wt_status := None |}
  | None => (λ t, {| wt_turn_id := agent_turn_id t; wt_status := Some (status t) |}) <$> turn a
  end.
Definition target_done (t : WaitTarget) : bool := is_some_and terminal (wt_status t).
Definition wait_ready (s : SessionSnapshot) (actor : string) (w : WaitState) (now_ms : Z) : bool :=
  (deadline_ms w <=? now_ms) || is_some_and unread (agents s !! actor) ||
  existsb (λ p, is_none_or (λ t, negb (bool_decide (t = p.2)) || target_done t) (agents s !! p.1 ≫= wait_target))
    (sorted_entries (targets w)).
Definition agent_answer (a : AgentState) : option Value :=
  t ← wait_target a;
  let answer := turn a ≫= λ u, if bool_decide (agent_turn_id u = wt_turn_id t) then final_answer u else None in
  Some (VObject [("agent_id", VString (agent_id a)); ("agent_turn_id", VString (wt_turn_id t));
                 ("status", from_option status_json (VString "queued") (wt_status t)); ("final_answer", opt_json answer);
                 ("provenance", VString "agent_conclusion");
                 ("context_sources", VArray (if is_some answer then source_json <$> context_sources a else []))]).
Definition wait_result (s : SessionSnapshot) (w : WaitState) (now_ms : Z) : Value :=
  VObject [("timed_out", VBool (deadline_ms w <=? now_ms));
           ("agents", VArray (omap (λ id, agents s !! id ≫= agent_answer) (sorted_keys (targets w))))].
Definition add_target (s : SessionSnapshot) (actor : string) (ts : gmap string WaitTarget) (target : string) :
    result CoreError (gmap string WaitTarget) :=
  _ ← ensure (negb (bool_decide (target = actor) || bool_decide (actor ∈ subtree s target) || assignment_cycle s target actor))
        (rejected OperationConflict "agent wait would create a cycle");
  observed ← ok_or (agents s !! target ≫= wait_target) (rejected UnauthorizedScope "unknown wait target");
  Ok (<[target := observed]> ts).

(** ** Actions *)

Definition follow_up (uuids : nat → string) (s : SessionSnapshot) (actor : string) (r : RootRun) (id : string) (t : Work) :
    result CoreError (SessionSnapshot * Applied) :=
  _ ← ensure (negb (bool_decide (max_concurrent_subagents (r_input r) = Some 0)))
        (rejected LimitExceeded "descendant turns are disabled");
  _ ← ensure (negb (fresh_context t || independent_review t))
        (rejected NoFeasibleRoute "follow-up preserves existing context; use spawn for isolation");
  _ ← ensure (negb (assignment_cycle s id actor))
        (rejected OperationConflict "assignment would create a dependency cycle");
  _ ← ensure (negb (negb (bool_decide (actor = s_agent_id s)) && negb (has_turn_capacity s (Some id)) &&
                is_some_and (λ a, is_none_or (λ t, terminal (status t)) (turn a)) (agents s !! id)))
        (rejected LimitExceeded "follow-up would wait on its assigning descendant's occupied slot");
  w ← assignment (uuids 0%nat) s actor t;
  target ← non_root s id;
  _ ← ensure (Z.of_nat (length (queue target)) <? queued_runs (r_limits r)) (rejected LimitExceeded "agent task queue is full");
  Ok (set_agent id (with_queue (queue target ++ [w]) target) s,
      Complete (VObject [("assignment_id", VString (assignment_id w)); ("agent_id", VString id); ("queued", VBool true)])).
Definition start_wait (s : SessionSnapshot) (actor : AgentState) (actor_id : string) (ids : list string) (timeout_ms now_ms : Z) :
    result CoreError Applied :=
  _ ← ensure (negb ((600000 <? timeout_ms) || bool_decide (ids = [])))
        (rejected LimitExceeded "wait requires targets and a bounded timeout");
  ts ← try_fold (add_target s actor_id) ∅ ids;
  let w := {| targets := ts; deadline_ms := now_ms +| timeout_ms |} in
  if (timeout_ms =? 0) || existsb target_done (values ts) || unread actor
  then Ok (Complete (wait_result s w now_ms)) else Ok (Waiting w).
Definition interrupted_turn (t : AgentTurn) : AgentTurn :=
  if terminal (status t) then t
  else {| run_id := run_id t; agent_turn_id := agent_turn_id t; assigned_by := assigned_by t; input := input t;
          allocation_id := allocation_id t; history_start := history_start t; status := Cancelling;
          cancellation_requested := true; steps := steps t; invocations := invocations t; core_calls := core_calls t;
          final_answer := final_answer t; terminal_reason := Some "agent interruption requested"; notified := notified t |}.
Definition interrupted_agent (a : AgentState) : AgentState := with_turn (interrupted_turn <$> turn a) (with_queue [] a).
Definition interrupt (s : SessionSnapshot) (id : string) : result CoreError (SessionSnapshot * Applied) :=
  _ ← ensure (negb (bool_decide (id = s_agent_id s)))
        (rejected UnauthorizedScope "root interruption requires run cancellation");
  _ ← non_root s id;
  let ids := sort (elements (subtree s id)) in
  Ok (with_agents (foldl (λ m k, alter interrupted_agent k m) (agents s) ids) s,
      Complete (VObject [("agent_id", VString id); ("subtree", strings_json ids); ("status", VString "cancelling")])).
Definition agent_json (a : AgentState) : Value :=
  VObject [("agent_id", VString (agent_id a)); ("parent_id", opt_json (parent_id a)); ("path", VString (display_path a));
           ("turn_id", opt_json (agent_turn_id <$> turn a));
           ("status", from_option (λ t, status_json (status t)) VNull (turn a));
           ("queued_tasks", u64_json (Z.of_nat (length (queue a))))].

Definition apply (uuids : nat → string) (s : SessionSnapshot) (actor_id : string) (action : Action) (now_ms revision : Z) :
    result CoreError (SessionSnapshot * Applied) :=
  actor ← ok_or (agents s !! actor_id) (rejected UnauthorizedScope "unknown actor");
  actor_turn ← ok_or (turn actor) (rejected Busy "actor has no turn");
  r ← ok_or (run s) (rejected Busy "no active run");
  _ ← ensure (bool_decide (r_status r = RunRunning ∨ r_status r = RunWaiting) &&
              bool_decide (run_id actor_turn = r_run_id r) && negb (terminal (status actor_turn)) &&
              negb (bool_decide (status actor_turn = Cancelling)))
        (rejected Busy "actor turn no longer accepts collaboration");
  match action with
  | SkillRead _ _ => Err (rejected UnsupportedCapability "bound skill file reads require the native resource boundary")
  | Context_action a => v ← context_tools s actor_id a; Ok (s, Complete v)
  | Spawn t => allocate uuids s actor_id t Intent_spawn revision
  | Delegate t id => allocate uuids s actor_id t (Intent_delegate id) revision
  | SendMessage id text =>
      _ ← ensure (negb (is_empty text)) (rejected InvalidToolResult "message is empty");
      '(s, m) ← enqueue_mail (uuids 0%nat) s actor_id id "message" (VObject [("text", VString text)]);
      Ok (s, Complete (VObject [("message_id", VString m); ("agent_id", VString id); ("started_turn", VBool false)]))
  | Followup id t => follow_up uuids s actor_id r id t
  | Wait ids timeout_ms => a ← start_wait s actor actor_id ids timeout_ms now_ms; Ok (s, a)
  | Interrupt id => interrupt s id
  | ListAgents => Ok (s, Complete (VObject [("agents", VArray (agent_json <$> values (agents s)))]))
  end.
End collaboration.
