(* ===== verification/AgentSystem.v ===== *)
(** The transitions of a session in which its agents collaborate ([apps/core/session.rs]): the answer to
    a call of a model, an action of the runtime, the start of a queued task, the delivery of a result;
    and the session as a transition system, in which the turns advance by themselves. *)
From Stdlib Require Import ZArith Lia Ascii.
From stdpp Require Import base list strings gmap pretty sorting relations.
From S2P Require Import Prelude ExactInteger RegistryValue ModelHistory AgentTypes AgentGraph AgentAllocation AgentCollaboration.
Open Scope string_scope.
Open Scope list_scope.
Open Scope Z_scope.

(** [budget::ensure] *)
Definition budget_ensure (s : SessionSnapshot) : result CoreError unit :=
  match run s with
  | None => Ok tt
  | Some r =>
      match resource_error r with
      | Some e => Err (rejected (e_code e) (e_message e))
      | None => ensure (active_ms r <? active_seconds (r_limits r) *| 1000)
                  (rejected LimitExceeded "run active-time budget exhausted")
      end
  end.

(** Updates of the agent that acts. *)
Definition with_status st (t : AgentTurn) : AgentTurn :=
  {| run_id := run_id t; agent_turn_id := agent_turn_id t; assigned_by := assigned_by t; input := input t;
     allocation_id := allocation_id t; history_start := history_start t; status := st;
     cancellation_requested := cancellation_requested t; steps := steps t; invocations := invocations t;
     core_calls := core_calls t; final_answer := final_answer t; terminal_reason := terminal_reason t; notified := notified t |}.
Definition with_reason st why (t : AgentTurn) : AgentTurn :=
  {| run_id := run_id t; agent_turn_id := agent_turn_id t; assigned_by := assigned_by t; input := input t;
     allocation_id := allocation_id t; history_start := history_start t; status := st;
     cancellation_requested := cancellation_requested t; steps := steps t; invocations := invocations t;
     core_calls := core_calls t; final_answer := final_answer t; terminal_reason := why; notified := notified t |}.
Definition with_notified (t : AgentTurn) : AgentTurn :=
  {| run_id := run_id t; agent_turn_id := agent_turn_id t; assigned_by := assigned_by t; input := input t;
     allocation_id := allocation_id t; history_start := history_start t; status := status t;
     cancellation_requested := cancellation_requested t; steps := steps t; invocations := invocations t;
     core_calls := core_calls t; final_answer := final_answer t; terminal_reason := terminal_reason t; notified := true |}.
Definition with_revision n (a : AgentState) : AgentState :=
  {| agent_id := agent_id a; parent_id := parent_id a; display_path := display_path a; depth := depth a;
     context_revision := n; history := history a; required_instructions := required_instructions a; turn := turn a;
     queue := queue a; mailbox := mailbox a; task_scope := task_scope a; context_sources := context_sources a;
     last_scheduled := last_scheduled a |}.
Definition with_answer (r : option Value) (w : option WaitState) (c : Call) : Call :=
  {| invocation_id := invocation_id c; public_call_id := public_call_id c; provider_call_id := provider_call_id c;
     step_id := step_id c; action := action c; wait_output_version := wait_output_version c; c_wait := w;
     c_result := r; c_consumed := c_consumed c |}.
Definition committed (e : CoreError) : CoreError :=
  {| e_code := e_code e; e_message := e_message e; commit_status := Committed |}.

Section operations.
Context `{SessionEnv}.

(** [check_owned_action]: an interruption needs no resources. *)
Definition check_owned_action (a : Action) : result CoreError unit :=
  match a with Interrupt _ => Ok tt | _ => check_owned end.
Definition active_run (s : SessionSnapshot) : result CoreError RootRun :=
  ok_or (run s) (rejected Busy "no root task is accepted").
Definition agent_turn (s : SessionSnapshot) (id : string) : result CoreError (AgentState * AgentTurn) :=
  a ← ok_or (agents s !! id) (rejected UnauthorizedScope "unknown agent");
  t ← ok_or (turn a) (rejected Busy "agent has no turn");
  Ok (a, t).

(** What becomes of the call: its result and its wait. *)
Definition retained (c : Call) (r : result CoreError Applied) : Call :=
  let failed e rest := VObject ([("ok", VBool false); ("error", error_json e)] ++ rest) in
  match r with
  | Ok (Complete v) => with_answer (Some (VObject [("ok", VBool true); ("value", v)])) (c_wait c) c
  | Ok (Waiting w) => with_answer (c_result c) (Some w) c
  | Ok (Rejected id e) => with_answer (Some (failed (committed e) [("allocation_id", VString id)])) (c_wait c) c
  | Err e => with_answer (Some (failed e [])) (c_wait c) c
  end.
Definition waits_for_message (c : Call) : bool := is_some (c_wait c) && negb (is_some (c_result c)).
(** The status of a turn whose call was answered, or waits. *)
Definition called_status (t : AgentTurn) (cs : list Call) : AgentStatus :=
  if bool_decide (status t = Cancelling) then Cancelling
  else if existsb waits_for_message cs then WaitingMessage else WaitingTool.
(** A call is answered from the copy that the action worked on, or from the state as it was. *)
Definition run_call (uuids : nat → string) (s : SessionSnapshot) (id : string) (c : Call) (limit now revision : Z) :
    result CoreError (SessionSnapshot * result CoreError Applied) :=
  match c_wait c with
  | Some w => Ok (s, Ok (Complete (wait_result s w now)))
  | None =>
      n ← action_json_len (action c);
      if limit <? n then Ok (s, Err (rejected LimitExceeded "collaboration input exceeds bound"))
      else Ok (match (_ ← check_owned_action (action c); apply uuids s id (action c) now revision) with
               | Ok (candidate, a) => (candidate, Ok a)
               | Err e => (s, Err e)
               end)
  end.
Definition update_call (id : string) (f : Call → Call) (cs : list Call) : list Call :=
  match list_find (λ c, invocation_id c = id) cs with
  | Some (i, c) => <[i := f c]> cs
  | None => cs
  end.
Definition collaboration_applied (uuids : nat → string) (s : SessionSnapshot) (id : string) (c : Call) (now revision : Z) :
    result CoreError SessionSnapshot :=
  _ ← budget_ensure s; _ ← steering_ready s id;
  r ← active_run s;
  '(s, applied) ← run_call uuids s id c (input_bytes (r_limits r)) now revision;
  '(a, t) ← agent_turn s id;
  '(_, current) ← ok_or (list_find (λ x, invocation_id x = invocation_id c) (core_calls t))
                    (rejected OperationConflict "collaboration intent changed");
  let cs := update_call (invocation_id c) (λ x, retained x applied) (core_calls t) in
  Ok (set_agent id (with_turn (Some (with_status (called_status t cs) (with_calls cs t))) a) s).

(** ** Actions of the runtime *)

Inductive OperationDisposition := OpApplied | OpAccepted | OpRejected.
(** The receipt, without the fingerprint of the request. *)
Record OperationReceipt := {
  operation_id : string; disposition : OperationDisposition; assigned_ids : gmap string string;
  receipt_revision : Z; receipt_error : option CoreError;
}.
Definition ids_of (v : Value) : gmap string string :=
  match v with
  | VObject m => list_to_map (rev (omap (λ p, match p.2 with VString s => if ends_with "_id" p.1 then Some (p.1, s) else None
                                                | _ => None end) m))
  | _ => ∅
  end.
Definition spends (a : Action) : bool := match a with Spawn _ | Delegate _ _ | Followup _ _ => true | _ => false end.
Definition receipt (s : SessionSnapshot) (op actor : string) (a : Applied) (revision : Z) : SessionSnapshot * OperationReceipt :=
  let make d v e := {| operation_id := op; disposition := d; assigned_ids := ids_of v;
                       receipt_revision := revision +% 1; receipt_error := e |} in
  match a with
  | Complete v => (s, make OpApplied v None)
  | Waiting w =>
      (with_waits (<[op := {| rw_actor_id := actor; rw_state := w; rw_result := None |}]> (waits s)) s,
       make OpAccepted (VObject [("wait_id", VString op)]) None)
  | Rejected id e => (s, make OpRejected (VObject [("allocation_id", VString id)]) (Some (committed e)))
  end.
Definition collaborate (uuids : nat → string) (s : SessionSnapshot) (op actor : string) (a : Action) (expected now revision : Z) :
    result CoreError (SessionSnapshot * OperationReceipt) :=
  _ ← check_owned_action a;
  _ ← match a with Interrupt _ => Ok tt | _ => steering_ready s actor end;
  _ ← ensure (expected =? revision) (rejected StaleRevision "runtime action revision is stale");
  n ← action_json_len a;
  r ← active_run s;
  _ ← ensure (n <=? input_bytes (r_limits r)) (rejected LimitExceeded "runtime action exceeds input bound");
  _ ← if spends a then budget_ensure s else Ok tt;
  '(s, applied) ← apply uuids s actor a now revision;
  Ok (receipt s op actor applied revision).
(** The waits of the runtime that are ready get their results. *)
Definition finish_wait (s : SessionSnapshot) (now : Z) (w : RuntimeWait) : RuntimeWait :=
  if negb (is_some (rw_result w)) && wait_ready s (rw_actor_id w) (rw_state w) now
  then {| rw_actor_id := rw_actor_id w; rw_state := rw_state w; rw_result := Some (wait_result s (rw_state w) now) |}
  else w.
Definition advance_runtime_waits (s : SessionSnapshot) (now : Z) : SessionSnapshot := with_waits (finish_wait s now <$> waits s) s.

(** ** The start of a queued task *)

Definition with_application error revision (a : ContextAllocation) : ContextAllocation :=
  {| ca_allocation_id := ca_allocation_id a; policy_id := policy_id a; ca_source := ca_source a;
     input_state_revision := input_state_revision a; ca_signal_revision := ca_signal_revision a; actor_id := actor_id a;
     actor_context_revision := actor_context_revision a; ca_assignment_id := ca_assignment_id a; task := task a;
     ca_input := ca_input a; candidates := candidates a; selected_candidate_id := selected_candidate_id a;
     selected_agent_id := selected_agent_id a; AgentTypes.error := AgentTypes.error a;
     applied_state_revision := revision; application_error := error |}.
Definition code_debug (c : ErrorCode) : string :=
  match c with
  | UnsupportedCapability => "UnsupportedCapability" | UnsupportedVersion => "UnsupportedVersion"
  | UnauthorizedScope => "UnauthorizedScope" | StaleEpoch => "StaleEpoch" | StaleRevision => "StaleRevision"
  | OperationConflict => "OperationConflict" | Busy => "Busy" | LimitExceeded => "LimitExceeded"
  | CheckpointConflict => "CheckpointConflict" | CheckpointUnavailable => "CheckpointUnavailable"
  | ArtifactUnavailable => "ArtifactUnavailable" | NoFeasibleRoute => "NoFeasibleRoute"
  | InvalidToolResult => "InvalidToolResult" | RecoveryRequired => "RecoveryRequired"
  end.
(** [error.to_string()] *)
Definition error_text (e : CoreError) : string := code_debug (e_code e) +:+ ": " +:+ e_message e.
Definition error_of {A} (r : result CoreError A) : option CoreError := match r with Ok _ => None | Err e => Some e end.
Definition started_agent (a : AgentState) (w : Assignment) (rest : list Assignment) : AgentState :=
  {| agent_id := agent_id a; parent_id := parent_id a; display_path := display_path a; depth := depth a;
     context_revision := context_revision a +% 1; history := history a ++ [Message_text User (text (w_input w))];
     required_instructions := foldl push_new (required_instructions a) (w_required_instructions w);
     turn := Some (new_turn w (Some (Z.of_nat (length (history a))))); queue := rest; mailbox := mailbox a;
     task_scope := task_scope a; context_sources := context_sources a; last_scheduled := last_scheduled a |}.
Definition record_application (s : SessionSnapshot) (id : option string) (rejection : option CoreError) (revision : Z) :
    result CoreError SessionSnapshot :=
  match id with
  | None => Ok s
  | Some id =>
      record ← ok_or (allocations s !! id) (rejected CheckpointConflict "queued allocation missing");
      Ok (set_allocation id (with_application rejection
            (if is_some rejection then applied_state_revision record else Some (revision +% 1)) record) s)
  end.
Definition followup_started (s : SessionSnapshot) (id : string) (revision : Z) : result CoreError SessionSnapshot :=
  _ ← check_owned;
  _ ← ensure (has_turn_capacity s (Some id)) (rejected Busy "active descendant turn capacity reached");
  r ← active_run s;
  source ← ok_or (agents s !! id) (rejected UnauthorizedScope "unknown queued agent");
  w ← ok_or (head (queue source)) (rejected Busy "follow-up queue is empty");
  let rejection := w_allocation_id w ≫= λ i, error_of (validate_reuse s source i (w_input w) true) in
  s ← record_application s (w_allocation_id w) rejection revision;
  a ← ok_or (agents s !! id) (rejected UnauthorizedScope "unknown agent");
  _ ← ensure (negb (is_none_or outstanding (turn a) || is_none_or (λ w, negb (bool_decide (w_run_id w = r_run_id r))) (head (queue a))))
        (rejected Busy "follow-up boundary changed");
  match queue a with
  | [] => Err (rejected Busy "follow-up queue is empty")
  | w :: rest =>
      match rejection with
      | Some e => Ok (set_agent id (with_turn (Some (with_reason Failed (Some (error_text e)) (new_turn w None))) (with_queue rest a)) s)
      | None => Ok (set_agent id (started_agent a w rest) s)
      end
  end.

(** ** The delivery of a result *)

Definition result_content (id : string) (t : AgentTurn) (references : list string) : Value :=
  VObject ([("agent_id", VString id); ("agent_turn_id", VString (AgentTypes.agent_turn_id t)); ("status", status_json (status t));
            ("answer", opt_json (final_answer t)); ("reason", opt_json (terminal_reason t));
            ("provenance", VString "agent_conclusion")] ++
           if bool_decide (references = []) then [] else [("evidence_refs", strings_json references)]).
(** [deliver]: a conclusion changes the context of the agent that gets it. *)
Definition deliver (s : SessionSnapshot) (child parent : string) : result CoreError (SessionSnapshot * list string) :=
  conclusion ← deliver_evidence s child parent;
  if bool_decide (conclusion = []) then Ok (s, [])
  else
    p ← ok_or (agents s !! parent) (rejected CheckpointConflict "parent agent vanished");
    n ← ok_or (checked_add u64_max (context_revision p) 1) (rejected CheckpointConflict "context revision exhausted");
    Ok (set_agent parent (with_revision n p) s, conclusion).
Definition mailbox_busy (e : CoreError) : CoreError :=
  if bool_decide (e_code e = LimitExceeded) then rejected Busy "child result awaits mailbox capacity" else e.
Definition map_err {E F A} (f : E → F) (r : result E A) : result F A := match r with Ok a => Ok a | Err e => Err (f e) end.
Definition result_delivered (uuid : string) (s : SessionSnapshot) (id : string) : result CoreError SessionSnapshot :=
  '(_, t) ← agent_turn s id;
  let parent := assigned_by t in
  '(s, references) ← deliver s id parent;
  '(s, _) ← map_err mailbox_busy (enqueue_mail uuid s id parent "agent_result" (result_content id t references));
  '(a, t) ← agent_turn s id;
  Ok (set_agent id (with_turn (Some (with_notified t)) a) s).
(** The conditions of [advance_agent] under which the two are tried. *)
Definition deliverable (s : SessionSnapshot) (id : string) : bool :=
  is_some_and (λ a, is_some_and (λ t, terminal (status t) && negb (notified t) && is_some (parent_id a)) (turn a)) (agents s !! id).
Definition startable (s : SessionSnapshot) (id : string) : bool :=
  is_some_and (λ a, is_some_and (λ t, terminal (status t) && (notified t || negb (is_some (parent_id a)))) (turn a) &&
    negb (bool_decide (queue a = []))) (agents s !! id).
End operations.
