(* ===== verification/AgentInvariant.v ===== *)
(** What an action does to the agents of a session, in six cases: nothing, one message more, a queued task for an
    agent that was checked for it, a new child, an interrupted subtree. Then a session whose agents collaborate,
    as a transition system: the transitions of [AgentSystem] in any order, and the turns that advance by
    themselves. *)
From Stdlib Require Import ZArith Lia Ascii.
From stdpp Require Import base list strings gmap pretty sorting relations.
From S2P Require Import Prelude MapSum ExactInteger RegistryValue ModelHistory AgentTypes AgentGraph.
From S2P Require Import AgentAllocation AgentCollaboration AgentSystem.
Open Scope string_scope.
Open Scope list_scope.
Open Scope Z_scope.

Section effects.
Context `{SessionEnv}.

(** The task comes from the actor, for the run. *)
Definition work_of (r : RootRun) (actor : string) (w : Assignment) : Prop :=
  sender_id w = actor ∧ w_run_id w = r_run_id r.
(** The target is busy, so that its slot is taken already. *)
Definition occupied (a : AgentState) : Prop := ∃ t, turn a = Some t ∧ terminal (status t) = false.

Inductive effect (s : SessionSnapshot) (r : RootRun) (actor : string) (act : Action) (fresh : string) : gmap string AgentState → Prop :=
| Effect_none : effect s r actor act fresh (agents s)
| Effect_mail target a m : agents s !! target = Some a →
    (consumed m = true ∨ unread_count a < mailbox_messages (r_limits r)) →
    effect s r actor act fresh (<[target := with_mailbox (mailbox a ++ [m]) a]> (agents s))
| Effect_follow_up target a w t : act = Followup target t → target ≠ s_agent_id s → agents s !! target = Some a → work_of r actor w →
    Z.of_nat (length (queue a)) < queued_runs (r_limits r) → assignment_cycle s target actor = false →
    (actor = s_agent_id s ∨ has_turn_capacity s (Some target) = true ∨ occupied a) →
    effect s r actor act fresh (<[target := with_queue (queue a ++ [w]) a]> (agents s))
| Effect_reuse target a w t i : target ≠ s_agent_id s → agents s !! target = Some a → work_of r actor w →
    has_turn_capacity s None = true → reuse_rejections s actor t i a = [] →
    effect s r actor act fresh (<[target := with_queue (queue a ++ [w]) a]> (agents s))
| Effect_spawn p t w k : agents s !! actor = Some p → work_of r actor w → has_turn_capacity s None = true →
    Z.of_nat (size (agents s)) < l_agents (r_limits r) → depth p < child_depth (r_limits r) →
    effect s r actor act fresh (<[fresh := spawned_agent s fresh actor p t w k]> (agents s))
| Effect_interrupt id : id ≠ s_agent_id s → is_Some (agents s !! id) →
    effect s r actor act fresh (foldl (λ m k, alter interrupted_agent k m) (agents s) (sort (elements (subtree s id)))).

(** The rest of the session stays. *)
Definition same_session (s s' : SessionSnapshot) : Prop :=
  s_agent_id s' = s_agent_id s ∧ manifest s' = manifest s ∧ run s' = run s ∧ signals s' = signals s ∧ waits s' = waits s.
Lemma same_session_refl s : same_session s s. Proof. done. Qed.

Lemma non_root_ok s id a : non_root s id = Ok a ↔ id ≠ s_agent_id s ∧ agents s !! id = Some a.
Proof. unfold non_root. case_bool_decide; [naive_solver|]. rewrite ok_or_ok. naive_solver. Qed.
Lemma assignment_ok uuid s actor t w r : run s = Some r → assignment uuid s actor t = Ok w → work_of r actor w.
Proof. unfold assignment, work_of. intros Hr Ha. rewrite Hr in Ha. by res_inv. Qed.
Lemma when_nil b r : when b r = [] ↔ b = false.
Proof. by destruct b. Qed.
Lemma eligible_spec c : eligible c = true ↔ rejection_reasons c = [].
Proof. apply bool_decide_eq_true. Qed.

(** A candidate is determined by its identity, so the one that an allocation selects is an eligible one. *)
Lemma candidate_inj s r p actor t w intent c c' :
  c ∈ all_candidates s r p actor t w intent → c' ∈ all_candidates s r p actor t w intent →
  candidate_id c = candidate_id c' → c = c'.
Proof.
  unfold all_candidates. rewrite !elem_of_app. destruct intent as [|target]; [set_solver|].
  rewrite !list_elem_of_fmap. intros [(x & -> & _)|Hc] [(y & -> & _)|Hc']; cbn.
  - by intros [= ->].
  - destruct target; [set_solver|]. apply list_elem_of_singleton in Hc' as ->. done.
  - destruct target; [set_solver|]. apply list_elem_of_singleton in Hc as ->. done.
  - destruct target; set_solver.
Qed.
Lemma choose_selected uuid s actor t w intent revision d : choose uuid s actor t w intent revision = Ok d → error d = None →
  ∃ p r, agents s !! actor = Some p ∧ run s = Some r ∧ candidates d = all_candidates s r p actor t w intent ∧
    ∀ i c, list_find (λ c, is_selected d c = true) (candidates d) = Some (i, c) → rejection_reasons c = [].
Proof.
  unfold choose. intros Hd. res_inv. cbn. set (cs := all_candidates s v0 v actor t w intent).
  destruct (list_find (λ c, eligible c = true) cs) as [[i c]|] eqn:Hf; [|done]. intros _.
  exists v, v0. split_and!; [done..|]. intros j c' Hc'.
  apply list_find_Some in Hf as (Hi & He & _). apply list_find_Some in Hc' as (Hj & Hs & _).
  unfold is_selected in Hs. cbn in Hs. apply bool_decide_eq_true in Hs. injection Hs as Hs.
  rewrite (candidate_inj s v0 v actor t w intent c' c); [by apply eligible_spec|by eapply list_elem_of_lookup_2..|done].
Qed.
Lemma eligible_reuse s actor t i common id : rejection_reasons (reuse_candidate s actor t i common id) = [] →
  id ≠ s_agent_id s ∧ id ≠ actor ∧ common = [] ∧ fresh_context t = false ∧ independent_review t = false ∧
  ∃ a, agents s !! id = Some a ∧ reuse_rejections s actor t i a = [].
Proof.
  cbn. intros (Hc & (Hf & (Hn & Ha)%app_nil)%app_nil)%app_nil. apply when_nil in Hf, Hn.
  apply orb_false_iff in Hf as [Hf1 Hf2]. apply orb_false_iff in Hn as [Hn1 Hn2]. arith. split_and!; [done..|].
  destruct (agents s !! id) as [a|]; [|done]. by exists a.
Qed.
Lemma eligible_new s r p t spawn common w : rejection_reasons (new_candidate s r p t spawn common w) = [] →
  Z.of_nat (size (agents s)) < l_agents (r_limits r) ∧ depth p < child_depth (r_limits r) ∧ common = [].
Proof. cbn. intros (Hc & (Ha & (Hd & _)%app_nil)%app_nil)%app_nil. apply when_nil in Ha, Hd. by arith. Qed.

Lemma place_effect act uuids s actor t w0 w decision p r intent i c revision s' id created decision' :
  run s = Some r → agents s !! actor = Some p → has_turn_capacity s None = true → work_of r actor w →
  candidates decision = all_candidates s r p actor t w0 intent →
  list_find (λ c, is_selected decision c = true) (candidates decision) = Some (i, c) → rejection_reasons c = [] →
  place uuids s actor t w decision c revision = Ok (s', id, created, decision') →
  effect s r actor act ("agent_" +:+ uuids) (agents s') ∧ same_session s s' ∧ allocations s' = allocations s.
Proof.
  intros Hr Hp Hcap Hw Hcs Hf He Hpl. apply list_find_Some in Hf as (Hi%list_elem_of_lookup_2 & _ & _).
  rewrite Hcs in Hi. unfold all_candidates in Hi. apply elem_of_app in Hi as [Hi|Hi].
  - destruct intent as [|target]; [set_solver|]. apply list_elem_of_fmap in Hi as (x & -> & _).
    apply eligible_reuse in He as (Hx & _ & _ & _ & _ & a & Ha & Hrr). unfold place in Hpl. cbn in Hpl.
    apply bind_ok in Hpl as (a' & Ha' & Hpl). apply non_root_ok in Ha' as [_ Ha']. res_inv. cbn.
    assert (a' = a) as -> by congruence. split_and!; [|done..]. by eapply Effect_reuse.
  - assert (∃ b, c = new_candidate s r p t b (common_rejections s r (w_input w0)) (assignment_id w0)) as [b ->].
    { destruct intent as [|[]]; [|set_solver|]; apply list_elem_of_singleton in Hi; eauto. }
    apply eligible_new in He as (Hsz & Hd & _). unfold place in Hpl.
    assert (spawn uuids s actor t w (kind (new_candidate s r p t b (common_rejections s r (w_input w0)) (assignment_id w0)))
            = Ok (s', id)) as Hs.
    { cbn in *. destruct (_ && _ && _); apply bind_ok in Hpl as ([s1 i1] & Hs & Hpl); res_inv; done. }
    unfold spawn in Hs. rewrite Hp in Hs. cbn [ok_or mbind result_bind] in Hs. injection Hs as <- <-.
    split_and!; [by apply Effect_spawn|done..].
Qed.
Lemma allocate_effect act uuids s actor t intent revision s' res r : run s = Some r →
  allocate uuids s actor t intent revision = Ok (s', res) →
  effect s r actor act ("agent_" +:+ uuids 2%nat) (agents s') ∧ same_session s s'.
Proof.
  intros Hr Ha. unfold allocate in Ha. apply bind_ok in Ha as ([] & Hcap%ensure_ok & Ha).
  apply bind_ok in Ha as (w & Hw & Ha). apply (assignment_ok _ _ _ _ _ r Hr) in Hw.
  apply bind_ok in Ha as (d & Hd & Ha). cbn zeta in Ha.
  destruct (error d) as [e|] eqn:He; [res_inv; split; [apply (Effect_none s)|done]|].
  destruct (choose_selected _ _ _ _ _ _ _ _ Hd He) as (p & r' & Hp & Hr' & Hcs & Hsel).
  assert (r' = r) as -> by congruence. apply bind_ok in Ha as ([i c] & Hf%ok_or_ok & Ha).
  apply bind_ok in Ha as ([[[s1 id] created] d'] & Hpl & Ha).
  eapply place_effect in Hpl as (Heff & Hss & _); [|exact Hr|exact Hp|exact Hcap| |exact Hcs|exact Hf|by eapply Hsel].
  2: { unfold work_of. destruct w; cbn in *. exact Hw. }
  res_inv. split; [exact Heff|exact Hss].
Qed.
Lemma enqueue_mail_ok uuid s sender target kd v s' id : enqueue_mail uuid s sender target kd v = Ok (s', id) →
  ∃ r a m, run s = Some r ∧ agents s !! target = Some a ∧ s' = set_agent target (with_mailbox (mailbox a ++ [m]) a) s ∧
    (consumed m = true ∨ unread_count a < mailbox_messages (r_limits r)).
Proof.
  unfold enqueue_mail. intros He. res_inv. eexists _, _, _. split_and!; [done..|]. cbn.
  apply orb_true_iff in Hv3 as [Hc|Hc]; [left; done|right; by arith].
Qed.

(** The effect of every action that is accepted. *)
Lemma apply_effect uuids s actor act now revision s' res r : run s = Some r →
  apply uuids s actor act now revision = Ok (s', res) →
  effect s r actor act ("agent_" +:+ uuids 2%nat) (agents s') ∧ same_session s s'.
Proof.
  intros Hr Ha. unfold apply in Ha. rewrite Hr in Ha. apply bind_ok in Ha as (a & Hact%ok_or_ok & Ha).
  apply bind_ok in Ha as (t & Ht%ok_or_ok & Ha). apply bind_ok in Ha as (r' & Hr'%ok_or_ok & Ha).
  injection Hr' as <-. apply bind_ok in Ha as ([] & Hok%ensure_ok & Ha).
  destruct act as [| |t1|t1 i|i txt|i t1|ids tm|i|].
  - done.
  - res_inv. split; [apply Effect_none|done].
  - by eapply allocate_effect.
  - by eapply allocate_effect.
  - apply bind_ok in Ha as ([] & _ & Ha). apply bind_ok in Ha as ([s1 m] & Hm & Ha). res_inv.
    apply enqueue_mail_ok in Hm as (r' & b & m' & Hr' & Hb & -> & Hc). assert (r' = r) as -> by congruence.
    split; [by apply Effect_mail|done].
  - unfold follow_up in Ha. do 3 apply bind_ok in Ha as ([] & ?%ensure_ok & Ha).
    apply bind_ok in Ha as ([] & Hcap%ensure_ok & Ha). apply bind_ok in Ha as (w & Hw & Ha).
    apply bind_ok in Ha as (b & Hb%non_root_ok & Ha). apply bind_ok in Ha as ([] & Hq%ensure_ok & Ha).
    destruct Hb as [Hne Hb]. res_inv. split; [|done]. eapply Effect_follow_up; [done..|by eapply assignment_ok|by arith|by arith|].
    apply negb_true_iff in Hcap. rewrite Hb in Hcap. cbn in Hcap. rewrite !andb_false_iff, !negb_false_iff, bool_decide_eq_true in Hcap.
    destruct Hcap as [[?|?]|Hoc]; [by left|right; by left|right; right]. unfold occupied.
    destruct (turn b) as [t0|]; [|done]. by exists t0.
  - apply bind_ok in Ha as (x & _ & Ha). res_inv. split; [apply Effect_none|done].
  - unfold interrupt in Ha. apply bind_ok in Ha as ([] & Hne%ensure_ok & Ha). apply bind_ok in Ha as (b & Hb%non_root_ok & Ha).
    destruct Hb as [Hb1 Hb]. res_inv. split; [|done]. apply Effect_interrupt; [done|by eexists].
  - res_inv. split; [apply Effect_none|done].
Qed.

(** An interruption reaches the subtree and nothing else. *)
Lemma foldl_alter_lookup {A} (f : A → A) (l : list string) (m : gmap string A) k : NoDup l →
  foldl (λ m k, alter f k m) m l !! k = if decide (k ∈ l) then f <$> m !! k else m !! k.
Proof.
  revert m. induction l as [|x l IH]; intros m Hnd; cbn; [done|]. apply NoDup_cons in Hnd as [Hx Hnd]. rewrite IH by done.
  destruct (decide (k = x)) as [->|Hne].
  - rewrite lookup_alter_eq. rewrite decide_False by done. by rewrite decide_True by left.
  - rewrite lookup_alter_ne by done. destruct (decide (k ∈ l)); [rewrite decide_True by (by right)|rewrite decide_False by set_solver]; done.
Qed.
Lemma interrupt_lookup s id k :
  foldl (λ m k, alter interrupted_agent k m) (agents s) (sort (elements (subtree s id))) !! k =
  if decide (k ∈ subtree s id) then interrupted_agent <$> agents s !! k else agents s !! k.
Proof.
  assert (sort (elements (subtree s id)) ≡ₚ elements (subtree s id)) as Hp by apply sort_by_key_perm.
  rewrite foldl_alter_lookup by (rewrite Hp; apply NoDup_elements).
  destruct (decide (k ∈ subtree s id)); [rewrite decide_True|rewrite decide_False]; rewrite ?Hp, ?elem_of_elements; done.
Qed.
End effects.

(** ** Steps *)

(** The UUID of a new agent occurs nowhere yet. *)
Definition unmentioned (s : SessionSnapshot) (id : string) : Prop := agents s !! id = None ∧ id ≠ s_agent_id s ∧
  ∀ k a, agents s !! k = Some a → parent_id a ≠ Some id ∧ (∀ w, w ∈ queue a → sender_id w ≠ id) ∧
    ∀ t, turn a = Some t → assigned_by t ≠ id.
(** What the rest of the session does to an agent: its turn goes on, and may end, but does not come back;
    queued tasks may be dropped and mail be read; no call of it starts to wait. *)
Definition turn_progress (t t' : AgentTurn) : Prop :=
  run_id t' = run_id t ∧ AgentTypes.agent_turn_id t' = AgentTypes.agent_turn_id t ∧ assigned_by t' = assigned_by t ∧
  notified t' = notified t ∧ (terminal (status t) = true → terminal (status t') = true) ∧
  ∀ y, y ∈ unanswered t' → y ∈ unanswered t.
Record progress (a a' : AgentState) : Prop := {
  progress_id : agent_id a' = agent_id a;
  progress_parent : parent_id a' = parent_id a;
  progress_depth : depth a' = depth a;
  progress_turn : option_relation turn_progress (λ _, False) (λ _, False) (turn a) (turn a');
  progress_queue : queue a' `sublist_of` queue a;
  progress_mail : unread_count a' ≤ unread_count a;
}.

Inductive label :=
| Label_call (id : string) (c : Call) | Label_runtime (actor : string) (a : Action) | Label_waits
| Label_start (id : string) | Label_deliver (id : string) | Label_turn (id : string).

Section system.
Context `{SessionEnv}.

(** The turn of the call runs, and the call awaits an answer that can be given. *)
Definition callable (s : SessionSnapshot) (id : string) (c : Call) (now : Z) : Prop :=
  ∃ a t, agents s !! id = Some a ∧ turn a = Some t ∧ terminal (status t) = false ∧ c ∈ core_calls t ∧ c_result c = None ∧
    ∀ w, c_wait c = Some w → wait_ready s id w now = true.
Inductive step (s : SessionSnapshot) : label → SessionSnapshot → Prop :=
| Step_call uuids id c now revision s' : callable s id c now → unmentioned s ("agent_" +:+ uuids 2%nat) →
    collaboration_applied uuids s id c now revision = Ok s' → step s (Label_call id c) s'
| Step_runtime uuids op actor a expected now revision s' rc : unmentioned s ("agent_" +:+ uuids 2%nat) →
    collaborate uuids s op actor a expected now revision = Ok (s', rc) → step s (Label_runtime actor a) s'
| Step_waits now : step s Label_waits (advance_runtime_waits s now)
| Step_start id revision s' : startable s id = true → followup_started s id revision = Ok s' → step s (Label_start id) s'
| Step_deliver uuid id s' : deliverable s id = true → result_delivered uuid s id = Ok s' → step s (Label_deliver id) s'
| Step_turn id a a' : agents s !! id = Some a → progress a a' → step s (Label_turn id) (set_agent id a' s).

(** ** The bounds *)

Definition slots (s : SessionSnapshot) (r : RootRun) : Z := mcount (λ _ a, takes_slot s r a) (agents s).
Record agent_ok (s : SessionSnapshot) (r : RootRun) (k : string) (a : AgentState) : Prop := {
  ok_key : agent_id a = k;
  ok_root : parent_id a = None → k = s_agent_id s;
  ok_depth : 0 ≤ depth a ≤ child_depth (r_limits r);
  ok_mail : unread_count a ≤ mailbox_messages (r_limits r);
  ok_queue : Z.of_nat (length (queue a)) ≤ Z.max 1 (queued_runs (r_limits r));
  ok_works : ∀ w, w ∈ queue a → w_run_id w = r_run_id r;
  ok_turn : ∀ t, turn a = Some t → terminal (status t) = false → run_id t = r_run_id r;
}.
Record Inv (s : SessionSnapshot) (r : RootRun) : Prop := {
  inv_run : run s = Some r;
  inv_limits : child_depth (r_limits r) ≤ u32_max ∧ 0 ≤ mailbox_messages (r_limits r) ∧ 0 ≤ queued_runs (r_limits r);
  inv_agents : ∀ k a, agents s !! k = Some a → agent_ok s r k a;
  inv_size : Z.of_nat (size (agents s)) ≤ l_agents (r_limits r);
  inv_slots : ∀ m, max_concurrent_subagents (r_input r) = Some m → slots s r ≤ m;
}.

(** ** Counting slots *)

Lemma countb_values {A} (f : A → bool) (m : gmap string A) : countb f (values m) = mcount (λ _, f) m.
Proof.
  unfold countb, mcount, msum, values, sorted_entries. rewrite (sum_by_perm _ _ (map_to_list m).*2).
  - induction (map_to_list m) as [|x l IH]; cbn; [done|]. unfold sum_by in *. cbn. by rewrite IH.
  - f_equiv. apply sort_by_key_perm.
Qed.
Lemma mcount_pointwise {A} (f : string → A → bool) (m m' : gmap string A) :
  (∀ k v', m' !! k = Some v' → f k v' = true → ∃ v, m !! k = Some v ∧ f k v = true) → mcount f m' ≤ mcount f m.
Proof.
  revert m. induction m' as [|k v' m' Hk IH] using map_ind; intros m Hf.
  { unfold mcount at 1. rewrite msum_empty. apply mcount_nonneg. }
  rewrite mcount_insert_new by done.
  assert (∀ i v, m' !! i = Some v → f i v = true → ∃ w, delete k m !! i = Some w ∧ f i w = true) as Hd.
  { intros i v Hi Hv. destruct (decide (i = k)) as [->|Hne]; [congruence|].
    rewrite lookup_delete_ne by done. apply (Hf i v); [by rewrite lookup_insert_ne|done]. }
  specialize (IH _ Hd). destruct (f k v') eqn:Hv; cbn.
  - destruct (Hf k v') as (w & Hw & Hfw); [by rewrite lookup_insert_eq|done|]. rewrite (mcount_split f m k w Hw), Hfw. cbn. lia.
  - destruct (m !! k) as [w|] eqn:Hw; [rewrite (mcount_split f m k w Hw); pose proof (of_bool_bounds (f k w)); lia|].
    rewrite delete_id in IH by done. lia.
Qed.
Lemma takes_slot_session s s' r a : s_agent_id s' = s_agent_id s → takes_slot s' r a = takes_slot s r a.
Proof. unfold takes_slot, reserved_work. by intros ->. Qed.
(** A change of one agent that frees a slot, or takes none, or takes one that is left. *)
Lemma slots_insert s s' r k a a' : s_agent_id s' = s_agent_id s → agents s !! k = Some a → agents s' = <[k := a']> (agents s) →
  slots s' r = slots s r + of_bool (takes_slot s r a') - of_bool (takes_slot s r a).
Proof.
  intros Hs Hk Ha. unfold slots. rewrite Ha, (mcount_insert _ _ k a) by done.
  rewrite (mcount_ext _ (λ _ a, takes_slot s r a)) by (intros; by apply takes_slot_session).
  by rewrite !(takes_slot_session s s') by done.
Qed.
Lemma slots_insert_new s s' r k a' : s_agent_id s' = s_agent_id s → agents s !! k = None → agents s' = <[k := a']> (agents s) →
  slots s' r = of_bool (takes_slot s r a') + slots s r.
Proof.
  intros Hs Hk Ha. unfold slots. rewrite Ha, mcount_insert_new by done. rewrite (takes_slot_session s s') by done.
  rewrite (mcount_ext _ (λ _ a, takes_slot s r a)); [done|]. intros; by apply takes_slot_session.
Qed.
Lemma capacity_none s r m : run s = Some r → max_concurrent_subagents (r_input r) = Some m →
  has_turn_capacity s None = true → slots s r < m.
Proof.
  intros Hr Hm. unfold has_turn_capacity, slots. rewrite Hr. cbn. rewrite Hm. cbn. rewrite countb_values.
  rewrite (mcount_ext _ (λ _ a, takes_slot s r a)) by done. intros Hc. by arith.
Qed.
(** The other agents leave a slot for [k]. *)
Lemma capacity_some s r m k a : run s = Some r → max_concurrent_subagents (r_input r) = Some m →
  agents s !! k = Some a → (∀ k a, agents s !! k = Some a → agent_id a = k) →
  has_turn_capacity s (Some k) = true → slots s r - of_bool (takes_slot s r a) < m.
Proof.
  intros Hr Hm Ha Hkey. unfold has_turn_capacity, slots. rewrite Hr. cbn. rewrite Hm. cbn. rewrite countb_values. intros Hc.
  rewrite (mcount_split _ (agents s) k a Ha). arith. rewrite (mcount_split _ (agents s) k a Ha) in Hc.
  rewrite (mcount_ext _ (λ _ a, takes_slot s r a) (delete k (agents s))) in Hc.
  - rewrite (bool_decide_eq_true_2 (Some k = _)) in Hc by (by rewrite (Hkey k a)). cbn in Hc. lia.
  - intros i v (Hne & Hi)%lookup_delete_Some. rewrite bool_decide_eq_false_2; [done|]. rewrite (Hkey i v) by done. congruence.
Qed.

(** ** Every step keeps the bounds *)

Lemma agent_ok_session s s' r k a : s_agent_id s' = s_agent_id s → agent_ok s r k a → agent_ok s' r k a.
Proof. intros Hs []. by constructor; rewrite ?Hs. Qed.
Lemma Inv_same s s' r : Inv s r → s_agent_id s' = s_agent_id s → run s' = run s → agents s' = agents s → Inv s' r.
Proof.
  intros [] Hs Hr Ha. constructor; rewrite ?Hr, ?Ha; try done.
  - intros. eapply agent_ok_session; eauto.
  - intros m Hm. unfold slots. rewrite Ha. rewrite (mcount_ext _ (λ _ a, takes_slot s r a)) by (intros; by apply takes_slot_session).
    by apply inv_slots0.
Qed.
Lemma Inv_update s s' r k a a' : Inv s r → s_agent_id s' = s_agent_id s → run s' = run s →
  agents s !! k = Some a → agents s' = <[k := a']> (agents s) → agent_ok s r k a' →
  (takes_slot s r a' = true → takes_slot s r a = true ∨
     ∀ m, max_concurrent_subagents (r_input r) = Some m → slots s r - of_bool (takes_slot s r a) < m) →
  Inv s' r.
Proof.
  intros [] Hs Hr Hk Ha Hok Hslot. constructor; rewrite ?Hr; try done.
  - intros i b. rewrite Ha. intros [[<- <-]|[Hne Hi]]%lookup_insert_Some; eapply agent_ok_session; eauto.
  - rewrite Ha, map_size_insert_Some by eauto. done.
  - intros m Hm. rewrite (slots_insert s s' r k a a') by done. specialize (inv_slots0 m Hm).
    destruct (takes_slot s r a') eqn:Ht; cbn; [|destruct (takes_slot s r a); cbn; lia].
    destruct (Hslot eq_refl) as [->|Hl]; [cbn; lia|]. specialize (Hl m Hm). lia.
Qed.
Lemma unread_app a m : unread_count (with_mailbox (mailbox a ++ [m]) a) = unread_count a + of_bool (negb (consumed m)).
Proof. unfold unread_count. cbn [mailbox with_mailbox]. rewrite countb_app, countb_cons. cbn. lia. Qed.
Lemma occupied_slot s r k a : agent_ok s r k a → k ≠ s_agent_id s → occupied a → takes_slot s r a = true.
Proof.
  intros [] Hne (t & Ht & Hl). unfold takes_slot, live_turn. rewrite Ht. cbn. rewrite Hl, (ok_turn0 t Ht Hl).
  rewrite bool_decide_eq_true_2 by done. destruct (parent_id a); [done|]. destruct Hne. by apply ok_root0.
Qed.
Lemma with_queue_ok s r k a q : agent_ok s r k a → Z.of_nat (length q) ≤ Z.max 1 (queued_runs (r_limits r)) →
  (∀ w, w ∈ q → w_run_id w = r_run_id r) → agent_ok s r k (with_queue q a).
Proof. intros [] Hl Hw. by constructor. Qed.
Lemma with_turn_ok s r k a t : agent_ok s r k a → (terminal (status t) = false → run_id t = r_run_id r) →
  agent_ok s r k (with_turn (Some t) a).
Proof. intros [] Ht. constructor; [done..|]. by intros t' [= <-]. Qed.
Lemma interrupted_ok s r k a : agent_ok s r k a → agent_ok s r k (interrupted_agent a).
Proof.
  intros []. constructor; cbn; try done; [lia|set_solver|].
  intros t' Ht' Hl. destruct (turn a) as [t|]; cbn in Ht'; [|done]. injection Ht' as <-. unfold interrupted_turn in *.
  destruct (terminal (status t)) eqn:Hs; cbn in *; [congruence|by apply (ok_turn0 t)].
Qed.
Lemma interrupted_slot s r a : takes_slot s r (interrupted_agent a) = true → takes_slot s r a = true.
Proof.
  unfold takes_slot, live_turn, interrupted_agent. cbn. rewrite orb_false_r, !andb_true_iff, orb_true_iff.
  destruct (turn a) as [t|]; cbn; [|by intros [_ ?]]. unfold interrupted_turn.
  destruct (terminal (status t)) eqn:Hs; cbn; rewrite ?Hs, !andb_true_iff; naive_solver.
Qed.

Lemma Inv_mail s s' r target a m : Inv s r → same_session s s' → agents s !! target = Some a →
  (consumed m = true ∨ unread_count a < mailbox_messages (r_limits r)) →
  agents s' = <[target := with_mailbox (mailbox a ++ [m]) a]> (agents s) → Inv s' r.
Proof.
  intros Hi (Hs & _ & Hr & _) Ha Hm Hs'. eapply Inv_update; [exact Hi|done|done|exact Ha|exact Hs'| |by left].
  destruct (inv_agents _ _ Hi _ _ Ha). constructor; try done. rewrite unread_app. destruct Hm as [->|]; cbn; [lia|].
  pose proof (of_bool_bounds (negb (consumed m))). lia.
Qed.
Lemma Inv_follow_up s s' r actor target a w : Inv s r → same_session s s' → target ≠ s_agent_id s →
  agents s !! target = Some a → work_of r actor w → Z.of_nat (length (queue a)) < queued_runs (r_limits r) →
  (actor = s_agent_id s ∨ has_turn_capacity s (Some target) = true ∨ occupied a) →
  agents s' = <[target := with_queue (queue a ++ [w]) a]> (agents s) → Inv s' r.
Proof.
  intros Hi (Hs & _ & Hr & _) Hne Ha [Hw1 Hw2] Hq Hc Hs'. pose proof (inv_agents _ _ Hi _ _ Ha) as Hok.
  eapply Inv_update; [exact Hi|done|done|exact Ha|exact Hs'| |].
  - apply with_queue_ok; [done|rewrite length_app; cbn; lia|]. intros x [Hx| ->%list_elem_of_singleton]%elem_of_app; [|done].
    by apply (ok_works _ _ _ _ Hok).
  - destruct Hc as [->|[Hc|Hc]].
    + intros Ht. left. revert Ht. unfold takes_slot, live_turn. cbn. rewrite existsb_app. cbn. unfold reserved_work at 2.
      rewrite Hw1, (bool_decide_eq_true_2 (s_agent_id s = _)) by done. cbn. by rewrite andb_false_r, !orb_false_r.
    + intros _. right. intros m Hm. eapply capacity_some; [by apply (inv_run _ _ Hi)|done|done| |done].
      intros i b Hb. by apply (ok_key _ _ _ _ (inv_agents _ _ Hi _ _ Hb)).
    + intros _. left. by eapply occupied_slot.
Qed.
Lemma idle_worker s actor t i a : reuse_rejections s actor t i a = [] → not_idle s a = false.
Proof. unfold reuse_rejections. intros (_ & (Hn & _)%app_nil)%app_nil. by apply when_nil in Hn. Qed.
Lemma idle_queue s a : not_idle s a = false → queue a = [].
Proof. unfold not_idle. intros Hn. by arith. Qed.
Lemma Inv_reuse s s' r actor target a w t i : Inv s r → same_session s s' → agents s !! target = Some a → work_of r actor w →
  has_turn_capacity s None = true → reuse_rejections s actor t i a = [] →
  agents s' = <[target := with_queue (queue a ++ [w]) a]> (agents s) → Inv s' r.
Proof.
  intros Hi (Hs & _ & Hr & _) Ha [Hw1 Hw2] Hc Hrr Hs'. pose proof (inv_agents _ _ Hi _ _ Ha) as Hok.
  pose proof (idle_queue _ _ (idle_worker _ _ _ _ _ Hrr)) as Hq. rewrite Hq in Hs'.
  eapply Inv_update; [exact Hi|done|done|exact Ha|exact Hs'| |].
  - apply with_queue_ok; [done|cbn; lia|]. by intros x ->%list_elem_of_singleton.
  - intros _. right. intros m Hm. pose proof (capacity_none _ _ _ (inv_run _ _ Hi) Hm Hc).
    pose proof (of_bool_bounds (takes_slot s r a)). lia.
Qed.
Lemma Inv_spawn s s' r actor fresh p t w k : Inv s r → same_session s s' → unmentioned s fresh → agents s !! actor = Some p →
  work_of r actor w → has_turn_capacity s None = true → Z.of_nat (size (agents s)) < l_agents (r_limits r) →
  depth p < child_depth (r_limits r) → agents s' = <[fresh := spawned_agent s fresh actor p t w k]> (agents s) → Inv s' r.
Proof.
  intros Hi (Hs & _ & Hr & _) (Hf & _ & _) Hp [Hw1 Hw2] Hc Hsz Hd Hs'. pose proof (inv_agents _ _ Hi _ _ Hp) as Hok.
  pose proof (inv_limits _ _ Hi) as (Hl1 & Hl2 & Hl3). constructor.
  - rewrite Hr. apply (inv_run _ _ Hi).
  - done.
  - intros i b. rewrite Hs'. intros [[<- <-]|[Hne Hb]]%lookup_insert_Some.
    + constructor; cbn; try done; [|lia|set_solver|by intros ? [= <-]]. pose proof (ok_depth _ _ _ _ Hok).
      rewrite wrapping_add_exact by lia. lia.
    + eapply agent_ok_session; [done|]. by apply (inv_agents _ _ Hi).
  - rewrite Hs', map_size_insert_None by done. lia.
  - intros m Hm. rewrite (slots_insert_new s s' r fresh (spawned_agent s fresh actor p t w k)) by done.
    pose proof (capacity_none _ _ _ (inv_run _ _ Hi) Hm Hc). pose proof (of_bool_bounds (takes_slot s r (spawned_agent s fresh actor p t w k))). lia.
Qed.
Lemma Inv_interrupt s s' r id : Inv s r → same_session s s' →
  agents s' = foldl (λ m k, alter interrupted_agent k m) (agents s) (sort (elements (subtree s id))) → Inv s' r.
Proof.
  intros Hi (Hs & _ & Hr & _) Hs'.
  assert (∀ k b, agents s' !! k = Some b → ∃ a, agents s !! k = Some a ∧ (b = a ∨ b = interrupted_agent a)) as Hb.
  { intros k b. rewrite Hs', interrupt_lookup. destruct (decide _); [|by eauto].
    destruct (agents s !! k) as [a|]; cbn; [|done]. intros [= <-]. eauto. }
  constructor.
  - rewrite Hr. apply (inv_run _ _ Hi).
  - apply (inv_limits _ _ Hi).
  - intros k b (a & Ha & Hab)%Hb. eapply agent_ok_session; [done|]. pose proof (inv_agents _ _ Hi _ _ Ha).
    destruct Hab as [->| ->]; [done|by apply interrupted_ok].
  - assert (dom (agents s') ⊆ dom (agents s)) as Hd%subseteq_size.
    { intros k. rewrite !elem_of_dom. intros [b (a & Ha & _)%Hb]. by eexists. }
    rewrite !size_dom in Hd. pose proof (inv_size _ _ Hi). lia.
  - intros m Hm. etrans; [|by apply (inv_slots _ _ Hi)]. unfold slots.
    rewrite (mcount_ext _ (λ _ a, takes_slot s r a) (agents s')) by (intros; by apply takes_slot_session).
    apply mcount_pointwise. intros k b (a & Ha & Hab)%Hb Ht. exists a. split; [done|]. destruct Hab as [->| ->]; [done|by apply interrupted_slot].
Qed.
Lemma agent_effect_inv s s' r actor act fresh : Inv s r → unmentioned s fresh → effect s r actor act fresh (agents s') → same_session s s' → Inv s' r.
Proof.
  intros Hi Hf He Hss. remember (agents s') as m eqn:Hm. destruct He; subst.
  - destruct Hss as (? & _ & ? & _). by eapply Inv_same.
  - by eapply Inv_mail.
  - by eapply Inv_follow_up.
  - by eapply Inv_reuse.
  - by eapply Inv_spawn.
  - by eapply Inv_interrupt.
Qed.
End system.
