(* ===== verification/AgentBounds.v ===== *)
(** The bounds of a session hold in every session that is reached: agents, depth, mail, queues, and the
    slots of the descendants. *)
From Stdlib Require Import ZArith Lia Ascii.
From stdpp Require Import base list strings gmap pretty sorting relations.
From S2P Require Import Prelude MapSum ExactInteger RegistryValue ModelHistory AgentTypes AgentGraph AgentAllocation AgentCollaboration AgentSystem AgentInvariant.
Open Scope string_scope.
Open Scope list_scope.
Open Scope Z_scope.

Section bounds.
Context `{SessionEnv}.

Lemma agent_turn_ok s id a t : agent_turn s id = Ok (a, t) ↔ agents s !! id = Some a ∧ turn a = Some t.
Proof.
  unfold agent_turn. split; [by intros Hx; res_inv; simplify_eq|]. intros [Ha Ht]. rewrite Ha. cbn. by rewrite Ht.
Qed.
(** An action leaves the turn of an agent as it was, or interrupts it. *)
Lemma effect_turn s r actor act fresh m k a : effect s r actor act fresh m → agents s !! k = Some a → k ≠ fresh →
  ∃ a', m !! k = Some a' ∧ (turn a' = turn a ∨ turn a' = interrupted_turn <$> turn a).
Proof.
  intros He Ha Hne. destruct He as [|target b|target b|target b|p t w kd|id].
  5: { rewrite lookup_insert_ne by done. eauto. }
  5: { rewrite interrupt_lookup, Ha. destruct (decide _); cbn; eauto. }
  all: try (eauto; fail); (destruct (decide (k = target)) as [->|?];
    [rewrite lookup_insert_eq; simplify_eq; eauto|rewrite lookup_insert_ne by done; eauto]).
Qed.
Lemma interrupted_running t : terminal (status (interrupted_turn t)) = terminal (status t).
Proof. unfold interrupted_turn. by destruct (terminal (status t)) eqn:Hs. Qed.

(** What answers a call: the state that it is recorded in, with the effect of the action if there was one. *)
Lemma run_call_effect uuids s id c limit now revision s1 x r : run s = Some r →
  run_call uuids s id c limit now revision = Ok (s1, x) →
  effect s r id (action c) ("agent_" +:+ uuids 2%nat) (agents s1) ∧ same_session s s1 ∧
  (s1 = s ∨ c_wait c = None ∧ ∃ a, x = Ok a ∧ apply uuids s id (action c) now revision = Ok (s1, a)).
Proof.
  intros Hr. unfold run_call. destruct (c_wait c) as [w|].
  { intros Hx. res_inv. split_and!; [apply (Effect_none _)|done..|by left]. }
  intros (n & _ & Hx)%bind_ok. destruct (limit <? n).
  { res_inv. split_and!; [apply (Effect_none _)|done..|by left]. }
  destruct (check_owned_action (action c)) as [[]|e]; cbn in Hx.
  2: { res_inv. split_and!; [apply (Effect_none _)|done..|by left]. }
  destruct (apply uuids s id (action c) now revision) as [[s2 a]|e] eqn:Ha; cbn in Hx; injection Hx as <- <-.
  - destruct (apply_effect _ _ _ _ _ _ _ _ _ Hr Ha) as [He Hs]. split_and!; [done|apply Hs..|]. right. eauto.
  - split_and!; [apply (Effect_none _)|done..|by left].
Qed.
(** The record of the answer changes the calls and the status of a turn that still runs. *)
Lemma collaboration_applied_ok uuids s id c now revision s' r : run s = Some r → callable s id c now → unmentioned s ("agent_" +:+ uuids 2%nat) →
  collaboration_applied uuids s id c now revision = Ok s' →
  ∃ s1 x a t, run_call uuids s id c (input_bytes (r_limits r)) now revision = Ok (s1, x) ∧
    agents s1 !! id = Some a ∧ turn a = Some t ∧ terminal (status t) = false ∧
    s' = set_agent id (with_turn (Some (with_status (called_status t (update_call (invocation_id c) (λ y, retained y x) (core_calls t)))
           (with_calls (update_call (invocation_id c) (λ y, retained y x) (core_calls t)) t))) a) s1.
Proof.
  intros Hr (a0 & t0 & Ha0 & Ht0 & Hl0 & _) (Hf & _) Hx. unfold collaboration_applied in Hx.
  apply bind_ok in Hx as ([] & _ & Hx). apply bind_ok in Hx as ([] & _ & Hx). unfold active_run in Hx. rewrite Hr in Hx.
  cbn [ok_or mbind result_bind] in Hx. apply bind_ok in Hx as ([s1 x] & Hcall & Hx).
  apply bind_ok in Hx as ([a t] & [Ha Ht]%agent_turn_ok & Hx). apply bind_ok in Hx as ([i y] & _ & Hx). injection Hx as <-.
  exists s1, x, a, t. split_and!; [done..| |done].
  destruct (run_call_effect _ _ _ _ _ _ _ _ _ _ Hr Hcall) as (He & _ & _).
  destruct (effect_turn _ _ _ _ _ _ _ _ He Ha0) as (a' & Ha' & Hta); [congruence|]. simplify_eq.
  rewrite Ht, Ht0 in Hta. cbn in Hta. destruct Hta as [[= ->]|[= ->]]; [done|]. by rewrite interrupted_running.
Qed.
Lemma called_running t cs : terminal (called_status t cs) = false.
Proof. unfold called_status. case_bool_decide; [done|]. by destruct (existsb _ _). Qed.
Lemma slot_turn s r a t t' : turn a = Some t → run_id t' = run_id t → (terminal (status t') = false → terminal (status t) = false) →
  takes_slot s r (with_turn (Some t') a) = true → takes_slot s r a = true.
Proof.
  unfold takes_slot, live_turn. intros -> Hr Hs. cbn. rewrite Hr, !andb_true_iff, !orb_true_iff, !andb_true_iff, !negb_true_iff.
  naive_solver.
Qed.

Lemma inv_call uuids s id c now revision s' r : Inv s r → callable s id c now → unmentioned s ("agent_" +:+ uuids 2%nat) →
  collaboration_applied uuids s id c now revision = Ok s' → Inv s' r.
Proof.
  intros Hi Hc Hf Hx. destruct (collaboration_applied_ok _ _ _ _ _ _ _ _ (inv_run _ _ Hi) Hc Hf Hx)
    as (s1 & x & a & t & Hcall & Ha & Ht & Hl & ->).
  destruct (run_call_effect _ _ _ _ _ _ _ _ _ _ (inv_run _ _ Hi) Hcall) as (He & Hs & _).
  pose proof (agent_effect_inv _ _ _ _ _ _ Hi Hf He Hs) as H1. pose proof (inv_agents _ _ H1 _ _ Ha) as Hok.
  eapply Inv_update; [exact H1|done|done|exact Ha|done| |].
  - apply with_turn_ok; [done|]. intros _. by apply (ok_turn _ _ _ _ Hok t).
  - intros Hslot. left. revert Hslot. by eapply slot_turn.
Qed.
(** A runtime action: the same effect, and perhaps a wait of the runtime. *)
Lemma collaborate_ok uuids s op actor a expected now revision s' rc : collaborate uuids s op actor a expected now revision = Ok (s', rc) →
  ∃ s1 x, apply uuids s actor a now revision = Ok (s1, x) ∧ agents s' = agents s1 ∧ run s' = run s1 ∧ s_agent_id s' = s_agent_id s1.
Proof.
  intros Hx. unfold collaborate in Hx. do 3 apply bind_ok in Hx as ([] & _ & Hx). apply bind_ok in Hx as (n & _ & Hx).
  apply bind_ok in Hx as (r & _ & Hx). do 2 apply bind_ok in Hx as ([] & _ & Hx).
  apply bind_ok in Hx as ([s1 x] & Ha & Hx). exists s1, x. split; [done|]. unfold receipt in Hx. destruct x; cbn in Hx; by injection Hx as <- _.
Qed.
Lemma inv_runtime uuids s op actor a expected now revision s' rc r : Inv s r → unmentioned s ("agent_" +:+ uuids 2%nat) →
  collaborate uuids s op actor a expected now revision = Ok (s', rc) → Inv s' r.
Proof.
  intros Hi Hf (s1 & x & Ha & Hs1 & Hs2 & Hs3)%collaborate_ok. destruct (apply_effect _ _ _ _ _ _ _ _ _ (inv_run _ _ Hi) Ha) as [He Hs].
  eapply Inv_same; [eapply (agent_effect_inv s s1)|..]; done.
Qed.

(** The start of a queued task. *)
Lemma record_application_ok s i e revision s1 : record_application s i e revision = Ok s1 →
  s_agent_id s1 = s_agent_id s ∧ run s1 = run s ∧ agents s1 = agents s.
Proof. unfold record_application. destruct i; intros Hx; res_inv; done. Qed.
Lemma followup_started_ok s id revision s' r : run s = Some r → followup_started s id revision = Ok s' →
  ∃ a w rest t, agents s !! id = Some a ∧ queue a = w :: rest ∧ has_turn_capacity s (Some id) = true ∧
    is_none_or outstanding (turn a) = false ∧ w_run_id w = r_run_id r ∧
    s_agent_id s' = s_agent_id s ∧ run s' = run s ∧ run_id t = w_run_id w ∧ assigned_by t = sender_id w ∧ outstanding t = true ∧ unanswered t = [] ∧
    ∃ a', agents s' = <[id := a']> (agents s) ∧ agent_id a' = agent_id a ∧ parent_id a' = parent_id a ∧ depth a' = depth a ∧
      mailbox a' = mailbox a ∧ queue a' = rest ∧ turn a' = Some t.
Proof.
  intros Hr Hx. unfold followup_started in Hx. apply bind_ok in Hx as ([] & _ & Hx). apply bind_ok in Hx as ([] & Hcap%ensure_ok & Hx).
  unfold active_run in Hx. rewrite Hr in Hx. cbn [ok_or mbind result_bind] in Hx.
  apply bind_ok in Hx as (a & Ha%ok_or_ok & Hx). apply bind_ok in Hx as (w & Hw%ok_or_ok & Hx). cbn zeta in Hx.
  set (rejection := w_allocation_id w ≫= _) in Hx. apply bind_ok in Hx as (s1 & Hs1%record_application_ok & Hx). destruct Hs1 as (H1 & H2 & H3).
  rewrite H3, Ha in Hx. cbn [ok_or mbind result_bind] in Hx. apply bind_ok in Hx as ([] & Hb%ensure_ok & Hx).
  apply negb_true_iff, orb_false_iff in Hb as [Hb1 Hb2]. destruct (queue a) as [|w' rest] eqn:Hq; [done|]. cbn in Hw. injection Hw as ->.
  cbn in Hb2. apply negb_false_iff, bool_decide_eq_true in Hb2.
  clearbody rejection. destruct rejection as [e|]; cbv beta iota in Hx; injection Hx as <-;
    [exists a, w, rest, (with_reason Failed (Some (error_text e)) (new_turn w None))
    |exists a, w, rest, (new_turn w (Some (Z.of_nat (length (history a)))))].
  all: split; [done|]; split; [done|]; do 5 (split; [done|]); do 4 (split; [reflexivity|]).
  all: eexists; rewrite <-H3; split_and!; reflexivity.
Qed.

Lemma inv_start s id revision s' r : Inv s r → followup_started s id revision = Ok s' → Inv s' r.
Proof.
  intros Hi Hx. destruct (followup_started_ok _ _ _ _ _ (inv_run _ _ Hi) Hx)
    as (a & w & rest & t & Ha & Hq & Hcap & _ & Hw & Hs & Hr & Ht & _ & _ & _ & a' & Has & H1 & H2 & H3 & H4 & H5 & H6).
  destruct (inv_agents _ _ Hi _ _ Ha) as [ok_key0 ok_root0 ok_depth0 ok_mail0 ok_queue0 ok_works0 ok_turn0].
  eapply Inv_update; [exact Hi|done|done|exact Ha|exact Has| |].
  - constructor; rewrite ?H1, ?H2, ?H3; try done.
    + unfold unread_count. by rewrite H4.
    + rewrite H5. rewrite Hq in ok_queue0. cbn in ok_queue0. lia.
    + rewrite H5. intros x Hxr. apply ok_works0. rewrite Hq. by right.
    + rewrite H6. intros t' [= <-] _. by rewrite Ht.
  - intros _. right. intros m Hm. eapply capacity_some; [by apply (inv_run _ _ Hi)|done|done| |done].
    intros i b Hb. by apply (ok_key _ _ _ _ (inv_agents _ _ Hi _ _ Hb)).
Qed.

(** The delivery of a result: a mail to the agent that assigned the task, whose context may change, and the mark
    that it was sent. *)
Lemma deliver_ok s child parent s1 refs : deliver s child parent = Ok (s1, refs) →
  s1 = s ∨ ∃ p n, agents s !! parent = Some p ∧ s1 = set_agent parent (with_revision n p) s.
Proof. unfold deliver. intros (c & _ & Hx)%bind_ok. case_bool_decide; res_inv; [by left|right; eauto]. Qed.
Lemma inv_revision s r k a n : Inv s r → agents s !! k = Some a → Inv (set_agent k (with_revision n a) s) r.
Proof.
  intros Hi Ha. pose proof (inv_agents _ _ Hi _ _ Ha) as [].
  eapply Inv_update; [exact Hi|done|done|exact Ha|done| |by left]. by constructor.
Qed.
Lemma inv_deliver uuid s id s' r : Inv s r → result_delivered uuid s id = Ok s' → Inv s' r.
Proof.
  intros Hi Hx. unfold result_delivered in Hx. apply bind_ok in Hx as ([a0 t0] & _ & Hx). cbn zeta in Hx.
  apply bind_ok in Hx as ([s1 refs] & Hd%deliver_ok & Hx). apply bind_ok in Hx as ([s2 m] & Hm & Hx).
  assert (Inv s1 r) as H1 by (destruct Hd as [->|(p & n & Hp & ->)]; [done|by apply inv_revision]).
  destruct (enqueue_mail _ _ _ _ _ _) as [[s3 m3]|] eqn:He in Hm; cbn in Hm; [|done]. injection Hm as -> ->.
  destruct (enqueue_mail_ok _ _ _ _ _ _ _ _ He) as (r' & b & mail & Hr' & Hb & -> & Hc).
  assert (r' = r) as -> by (pose proof (inv_run _ _ H1); congruence).
  assert (Inv (set_agent (assigned_by t0) (with_mailbox (mailbox b ++ [mail]) b) s1) r) as H2 by (by eapply Inv_mail).
  apply bind_ok in Hx as ([a t] & [Ha Ht]%agent_turn_ok & Hx). injection Hx as <-.
  pose proof (inv_agents _ _ H2 _ _ Ha) as Hok. eapply Inv_update; [exact H2|done|done|exact Ha|done| |].
  - apply with_turn_ok; [done|]. by apply (ok_turn _ _ _ _ Hok t).
  - intros Hslot. left. revert Hslot. by eapply slot_turn.
Qed.
Lemma inv_turn s id a a' r : Inv s r → agents s !! id = Some a → progress a a' → Inv (set_agent id a' s) r.
Proof.
  intros Hi Ha [progress_id0 progress_parent0 progress_depth0 progress_turn0 progress_queue0 progress_mail0].
  destruct (inv_agents _ _ Hi _ _ Ha) as [ok_key0 ok_root0 ok_depth0 ok_mail0 ok_queue0 ok_works0 ok_turn0].
  assert (∀ t', turn a' = Some t' → terminal (status t') = false → ∃ t, turn a = Some t ∧ run_id t' = run_id t ∧ terminal (status t) = false) as Ht.
  { intros t' Ht' Hl. rewrite Ht' in progress_turn0. destruct (turn a) as [t|]; cbn in progress_turn0; [|done].
    destruct progress_turn0 as (H1 & _ & _ & _ & H2 & _). exists t. split_and!; [done..|].
    destruct (terminal (status t)); [|done]. by rewrite H2 in Hl. }
  assert (length (queue a') ≤ length (queue a))%nat as Hl by (by apply sublist_length).
  eapply Inv_update; [exact Hi|done|done|exact Ha|done| |].
  - constructor; try congruence; try lia.
    + rewrite progress_parent0. done.
    + intros w Hw. apply ok_works0. eapply elem_of_submseteq; [done|]. by apply sublist_submseteq.
    + intros t' Ht' Hl'. destruct (Ht _ Ht' Hl') as (t & Htt & -> & ?). by apply ok_turn0.
  - unfold takes_slot. rewrite progress_parent0. intros [Hp Hs]%andb_true_iff. left. rewrite Hp. cbn.
    apply orb_true_iff in Hs as [Hs|Hs]; apply orb_true_iff; [left|right].
    + unfold live_turn in *. destruct (turn a') as [t'|] eqn:Ht'; [|done]. cbn in Hs.
      apply andb_true_iff in Hs as [Hs1 Hs2%negb_true_iff]. destruct (Ht t' eq_refl Hs2) as (t & -> & Hrid & Hl'). cbn.
      by rewrite <-Hrid, Hs1, Hl'.
    + apply existsb_exists in Hs as (w & Hw%list_elem_of_In & Hs). apply existsb_exists. exists w. split; [|done].
      apply list_elem_of_In. eapply elem_of_submseteq; [done|]. by apply sublist_submseteq.
Qed.
Lemma inv_step s l s' r : Inv s r → step s l s' → Inv s' r.
Proof.
  intros Hi Hs. destruct Hs.
  - by eapply inv_call.
  - by eapply inv_runtime.
  - by eapply Inv_same.
  - by eapply inv_start.
  - by eapply inv_deliver.
  - by eapply inv_turn.
Qed.

(** A session at the start of a run: the root agent alone, under limits that were validated. *)
Definition u32 (n : Z) : Prop := 0 ≤ n ≤ u32_max.
Record started (s : SessionSnapshot) (r : RootRun) : Prop := {
  started_run : run s = Some r;
  started_valid : validate_limits (r_limits r) = Ok tt;
  started_u32 : u32 (child_depth (r_limits r)) ∧ u32 (l_agents (r_limits r)) ∧ u32 (mailbox_messages (r_limits r)) ∧
    u32 (queued_runs (r_limits r)) ∧ ∀ m, max_concurrent_subagents (r_input r) = Some m → u32 m;
  started_root : ∃ a, agents s = {[s_agent_id s := a]} ∧ agent_id a = s_agent_id s ∧ parent_id a = None ∧ depth a = 0 ∧
    queue a = [] ∧ mailbox a = [] ∧ ∀ t, turn a = Some t → run_id t = r_run_id r;
}.
Lemma started_inv s r : started s r → Inv s r.
Proof.
  intros [Hr Hv (H1 & H2 & H3 & H4 & H5) (a & Ha & Hid & Hp & Hd & Hq & Hm & Ht)]. unfold u32 in *. constructor.
  - done.
  - lia.
  - intros k b. rewrite Ha. intros [<- <-]%lookup_singleton_Some. constructor.
    + done.
    + done.
    + lia.
    + unfold unread_count. rewrite Hm. cbn. lia.
    + rewrite Hq. cbn. lia.
    + rewrite Hq. set_solver.
    + intros. by apply Ht.
  - rewrite Ha, map_size_singleton. unfold validate_limits in Hv. destruct (l_agents (r_limits r) =? 0) eqn:H0; [|by arith].
    by rewrite orb_true_r in Hv.
  - intros m Hmax. destruct (H5 m Hmax) as [? _]. unfold slots. rewrite Ha.
    assert (mcount (λ _ a0, takes_slot s r a0) {[s_agent_id s := a]} = 0) as ->; [|done].
    apply mcount_0. intros k b [<- <-]%lookup_singleton_Some. unfold takes_slot. by rewrite Hp.
Qed.
Definition runs (s s' : SessionSnapshot) : Prop := rtc (λ s s', ∃ l, step s l s') s s'.
Lemma inv_steps s s' r : Inv s r → runs s s' → Inv s' r.
Proof. intros Hi Hs. induction Hs as [|? ? ? [l Hl]]; [done|]. eauto using inv_step. Qed.

(** C8: In every session that is reached from the start of a run, where the root agent is alone with an empty queue and
    mailbox under validated limits, whatever the agents ask for and in any order, the agents are no more than the
    run's limit and no deeper than its limit, no agent has more unread messages than a mailbox holds, no agent has
    more queued tasks than the larger of the run's limit for a queue and one (a new agent starts with its first
    task queued, even where that limit is zero), and never do more descendants work, or hold work from
    descendants, than the task allows at once. *)
Theorem session_stays_bounded s0 s r : started s0 r → runs s0 s →
  Z.of_nat (size (agents s)) ≤ l_agents (r_limits r) ∧
  (∀ k a, agents s !! k = Some a → depth a ≤ child_depth (r_limits r) ∧
     countb (λ m, negb (consumed m)) (mailbox a) ≤ mailbox_messages (r_limits r) ∧
     Z.of_nat (length (queue a)) ≤ Z.max 1 (queued_runs (r_limits r))) ∧
  ∀ m, max_concurrent_subagents (r_input r) = Some m → countb (takes_slot s r) (values (agents s)) ≤ m.
Proof.
  intros Hs Hst. pose proof (inv_steps _ _ _ (started_inv _ _ Hs) Hst) as [_ _ Ha Hsz Hsl]. split_and!; [done| |].
  - intros k a Hk. destruct (Ha k a Hk). split_and!; [lia|done..].
  - intros m Hm. rewrite countb_values. by apply Hsl.
Qed.
End bounds.
