(* ===== verification/AgentCycles.v ===== *)
(** The dependencies between the agents of a session never close a cycle: no step adds one, but for a task that is
    given to an idle agent which still waits for one of its ancestors. First relations without cycles, then
    the steps. *)
From Stdlib Require Import ZArith Lia Ascii.
From stdpp Require Import base list strings gmap pretty sorting relations.
From S2P Require Import Prelude MapSum ExactInteger RegistryValue ModelHistory AgentTypes AgentGraph.
From S2P Require Import AgentAllocation AgentCollaboration AgentSystem AgentInvariant AgentBounds.
Open Scope string_scope.
Open Scope list_scope.
Open Scope Z_scope.

(** ** Relations without cycles, up to loops *)

Section acyclic.
Context {A : Type}.
Implicit Types R : relation A.

Definition acyclic R : Prop := ∀ x y, rtc R x y → rtc R y x → x = y.
Lemma acyclic_sub R R' : (∀ x y, R' x y → R x y) → acyclic R → acyclic R'.
Proof. intros Hs Ha x y Hx Hy. apply Ha; by eapply rtc_subrel. Qed.
(** New edges from [P] to [T], where nothing in [T] reached [P]. *)
Lemma acyclic_new R R' (P T : A → Prop) : (∀ x y, R' x y → R x y ∨ P x ∧ T y) → (∀ a y, P a → T y → ¬ rtc R y a) →
  acyclic R → acyclic R'.
Proof.
  intros Hs Hn Ha.
  assert (∀ x y, rtc R' x y → rtc R x y ∨ ∃ a b, P a ∧ T b ∧ rtc R x a ∧ rtc R b y) as Hp.
  { intros x y. induction 1 as [x|x z y Hxz _ IH]; [left; apply rtc_refl|]. destruct (Hs _ _ Hxz) as [Hr|[Px Tz]].
    - destruct IH as [IH|(a & b & ? & ? & ? & ?)]; [left; by eapply rtc_l|]. right. exists a, b. split_and!; [done..| |done]. by eapply rtc_l.
    - destruct IH as [IH|(a & b & ? & ? & ? & ?)].
      + right. exists x, z. split_and!; [done..|apply rtc_refl|done].
      + by destruct (Hn a z). }
  intros x y [Hx|(a & b & ? & ? & ? & ?)]%Hp [Hy|(c & d & ? & ? & ? & ?)]%Hp.
  - by apply Ha.
  - destruct (Hn c d); [done..|]. by do 2 (etrans; [done|]).
  - destruct (Hn a b); [done..|]. by do 2 (etrans; [done|]).
  - destruct (Hn a d); [done..|]. by etrans.
Qed.
(** New edges to [w], from which nothing else is reached. *)
Lemma acyclic_sink R R' w : (∀ x y, R' x y → R x y ∨ y = w) → (∀ z, R' w z → z = w) → acyclic R → acyclic R'.
Proof.
  intros Hs Hw Ha.
  assert (∀ z, rtc R' w z → z = w) as Hz.
  { apply rtc_ind_r; [done|]. intros y z _ Hyz ->. by apply Hw. }
  assert (∀ x y, rtc R' x y → rtc R x y ∨ y = w) as Hp.
  { intros x y. induction 1 as [x|x z y Hxz Hzy IH]; [left; apply rtc_refl|].
    destruct (Hs _ _ Hxz) as [Hr| ->]; [|right; by apply Hz].
    destruct IH as [IH| ->]; [left; by eapply rtc_l|by right]. }
  intros x y Hx Hy. destruct (Hp _ _ Hx) as [?|He].
  - destruct (Hp _ _ Hy) as [?|He]; [by apply Ha|]. subst. symmetry. by apply Hz.
  - subst. by apply Hz.
Qed.
End acyclic.

(** ** What an agent holds *)

Definition unanswered_of (a : AgentState) : list string := from_option unanswered [] (turn a).
(** Work for [x], queued or not yet reported. *)
Definition claims (a : AgentState) (x : string) : Prop :=
  (∃ w, w ∈ queue a ∧ sender_id w = x) ∨ ∃ t, turn a = Some t ∧ outstanding t = true ∧ assigned_by t = x.
Definition busy (a : AgentState) : bool := negb (bool_decide (queue a = [])) || is_some_and outstanding (turn a).

Lemma needs_alt s x a : needs s x a ↔ claims a x ∨ (agent_id a ≠ x ∧ rtc (child s) x (agent_id a)) ∧ busy a = true.
Proof.
  unfold needs, claims, busy. rewrite orb_true_iff, negb_true_iff, bool_decide_eq_false.
  destruct (turn a) as [t|]; cbn; naive_solver.
Qed.
Lemma explicitly_waits_alt s x y : explicitly_waits s x y ↔ ∃ a, agents s !! x = Some a ∧ y ∈ unanswered_of a.
Proof.
  rewrite <-elem_of_explicit_waits. unfold explicit_waits, unanswered_of. destruct (agents s !! x) as [a|]; cbn; [|set_solver].
  split; [intros Hy; by exists a|by intros (a0 & [= <-] & Hy)].
Qed.

(** What the new session may have in addition to the old one, agent by agent. *)
Record grows (s : SessionSnapshot) (E : string → string → Prop) (k : string) (a a' : AgentState) : Prop := {
  grows_id : agent_id a' = agent_id a;
  grows_parent : parent_id a' = parent_id a;
  grows_waits : ∀ y, y ∈ unanswered_of a' → y ∈ unanswered_of a ∨ E k y;
  grows_claims : ∀ x, claims a' x → claims a x ∨ E x (agent_id a);
  grows_busy : busy a' = true → busy a = true ∨
    ∀ x, agent_id a ≠ x → rtc (child s) x (agent_id a) → E x (agent_id a);
}.
Lemma grows_refl s E k a : grows s E k a a.
Proof. constructor; auto. Qed.
Lemma depends_grows s s' E : (∀ k a', agents s' !! k = Some a' → ∃ a, agents s !! k = Some a ∧ grows s E k a a') →
  ∀ x y, depends s' x y → depends s x y ∨ E x y.
Proof.
  intros Hg.
  assert (∀ p c, child s' p c → child s p c) as Hc.
  { intros p c (k & a' & Hk & Hp & <-). destruct (Hg _ _ Hk) as (a & Ha & []). exists k, a. split_and!; congruence. }
  intros x y [(a' & Ha' & Hy)%explicitly_waits_alt|(k & a' & Ha' & <- & Hn)].
  - destruct (Hg _ _ Ha') as (a & Ha & [_ _ Hw _ _]). destruct (Hw _ Hy); [|by right]. left. left. apply explicitly_waits_alt. eauto.
  - destruct (Hg _ _ Ha') as (a & Ha & [Hid _ _ Hcl Hbu]). rewrite Hid. apply needs_alt in Hn as [Hn|[[Hne Hr] Hb]].
    + destruct (Hcl _ Hn) as [?|?]; [|by right]. left. right. exists k, a. split_and!; [done..|]. apply needs_alt. by left.
    + rewrite Hid in Hne, Hr. assert (rtc (child s) x (agent_id a)) as Hr' by (by eapply rtc_subrel).
      destruct (Hbu Hb) as [Hb'|He]; [|right; by apply He]. left. right. exists k, a. split_and!; [done..|]. apply needs_alt. by right.
Qed.
(** One agent changes. *)
Lemma grows_insert s s' E id a0 a1 : agents s' = <[id := a1]> (agents s) → agents s !! id = Some a0 → grows s E id a0 a1 →
  ∀ k a', agents s' !! k = Some a' → ∃ a, agents s !! k = Some a ∧ grows s E k a a'.
Proof.
  intros -> Ha Hg k a' [[<- <-]|[Hne Hk]]%lookup_insert_Some; [by eexists|]. exists a'. split; [done|apply grows_refl].
Qed.
Definition nothing (x y : string) : Prop := False.
Lemma acyclic_grows s s' : (∀ k a', agents s' !! k = Some a' → ∃ a, agents s !! k = Some a ∧ grows s nothing k a a') →
  acyclic (depends s) → acyclic (depends s').
Proof. intros Hg. apply acyclic_sub. intros x y Hxy. by destruct (depends_grows _ _ _ Hg _ _ Hxy). Qed.
Lemma acyclic_insert s s' id a0 a1 : agents s' = <[id := a1]> (agents s) → agents s !! id = Some a0 → grows s nothing id a0 a1 →
  acyclic (depends s) → acyclic (depends s').
Proof. intros. eapply acyclic_grows; [|done]. by eapply grows_insert. Qed.
Lemma acyclic_same s s' : agents s' = agents s → acyclic (depends s) → acyclic (depends s').
Proof. intros Ha. apply acyclic_grows. rewrite Ha. intros k a Hk. exists a. split; [done|apply grows_refl]. Qed.
Lemma grows_turn s E id a t : turn a = Some t → ∀ t', assigned_by t' = assigned_by t → (outstanding t' = true → outstanding t = true) →
  (∀ y, y ∈ unanswered t' → y ∈ unanswered t ∨ E id y) → grows s E id a (with_turn (Some t') a).
Proof.
  intros Ht t' Hb Ho Hw. constructor; cbn; try done.
  - unfold unanswered_of. by rewrite Ht.
  - intros x [Hq|(u & [= <-] & Hu & <-)]; left; [by left|]. right. exists t. auto.
  - unfold busy. cbn. rewrite Ht, !orb_true_iff. cbn. intros [?|?]; left; auto.
Qed.

Section cycles.
Context `{SessionEnv}.

(** ** What an action may add *)

Lemma acyclic_queued s s' target a w E : agents s !! target = Some a → agent_id a = target →
  agents s' = <[target := with_queue (queue a ++ [w]) a]> (agents s) →
  (E (sender_id w) target : Prop) → (busy a = false → ∀ x, x ≠ target → rtc (child s) x target → E x target) →
  ∀ x y, depends s' x y → depends s x y ∨ E x y ∧ y = target.
Proof.
  intros Ha Hid Hs' Hw Hb x y Hd.
  eapply (depends_grows s s' (λ x y, E x y ∧ y = target)) in Hd; [done|]. eapply grows_insert; [exact Hs'|exact Ha|].
  constructor; cbn; rewrite ?Hid; try done; auto.
  - intros z [(v & [Hv| ->%list_elem_of_singleton]%elem_of_app & <-)|Ht]; [left; left; eauto|by right|left; by right].
  - intros _. destruct (busy a) eqn:Hba; [by left|]. right. intros z Hne Hz. split; [|done]. apply Hb; [done|by apply not_eq_sym|done].
Qed.
Lemma idle_alone s target a x : agents s !! target = Some a → agent_id a = target → not_idle s a = false →
  (depends s target x → x = target).
Proof.
  unfold not_idle. rewrite !orb_false_iff, negb_false_iff, bool_decide_eq_true. intros Ha Hid [[Hq Ht] Hp].
  rewrite Hid in Hp. intros [(b & Hb & Hx)%explicitly_waits_alt|(k & b & Hb & <- & Hn)].
  - rewrite Ha in Hb. injection Hb as <-. unfold unanswered_of in Hx. destruct (turn a) as [t|]; [|by cbn in Hx; set_solver].
    cbn in Ht, Hx. unfold busy_turn in Ht. apply orb_false_iff in Ht as [_ Hc].
    apply elem_of_unanswered in Hx as (c & w & Hc1 & Hc2 & _). exfalso.
    assert (existsb open_call (core_calls t) = true); [|congruence]. apply existsb_exists. exists c.
    split; [by apply list_elem_of_In|]. unfold open_call. rewrite Hc2. by rewrite orb_true_r.
  - destruct (decide (agent_id b = target)) as [|Hne]; [done|]. exfalso.
    assert (pending_dependencies s target = true); [|congruence]. apply existsb_exists. exists b.
    split; [apply list_elem_of_In, elem_of_values; eauto|]. unfold pending_dependency. rewrite bool_decide_eq_false_2 by done. cbn zeta.
    rewrite orb_true_iff, existsb_exists. setoid_rewrite <-list_elem_of_In. setoid_rewrite orb_true_iff.
    destruct Hn as [(w & Hw & Hs)|[(t & -> & Ho & Hs)|[[_ Hr] Hq']]].
    + left. exists w. split; [done|right; by apply bool_decide_eq_true].
    + right. cbn. rewrite Ho, andb_true_r, orb_true_iff. destruct Hs as [Hs|[_ Hr]]; [right; by apply bool_decide_eq_true|].
      left. by apply bool_decide_eq_true, elem_of_subtree.
    + left. destruct (queue b) as [|w q]; [done|]. exists w. split; [left|]. left. by apply bool_decide_eq_true, elem_of_subtree.
Qed.

(** The new agent has no children and has given no task. *)
Lemma fresh_depends s s' actor fresh p t w k r : unmentioned s fresh → agents s !! actor = Some p → work_of r actor w →
  agents s' = <[fresh := spawned_agent s fresh actor p t w k]> (agents s) →
  (∀ x y, depends s' x y → depends s x y ∨ y = fresh) ∧ ∀ z, depends s' fresh z → z = fresh.
Proof.
  intros (Hf & _ & Hu) Ha [Hw _] Hs'. assert (actor ≠ fresh) as Hne by congruence.
  assert (∀ z, child s' fresh z → False) as Hnc.
  { intros z (i & b & Hi & Hp & <-). rewrite Hs' in Hi. apply lookup_insert_Some in Hi as [[<- <-]|[? Hi]].
    - cbn in Hp. congruence.
    - by destruct (Hu _ _ Hi) as [Hp' _]. }
  assert (∀ z, rtc (child s') fresh z → z = fresh) as Hrf.
  { intros z Hz. apply rtc_inv in Hz as [<-|(u & Hu' & _)]; [done|]. by destruct (Hnc u). }
  assert (∀ x z, rtc (child s') x z → rtc (child s) x z ∨ z = fresh) as Hc.
  { intros x. apply rtc_ind_r; [left; apply rtc_refl|]. intros y z _ Hyz [Hy| ->]; [|by destruct (Hnc z)].
    destruct Hyz as (i & b & Hi & Hp & <-). rewrite Hs' in Hi. apply lookup_insert_Some in Hi as [[<- <-]|[? Hi]]; [by right|].
    left. eapply rtc_r; [exact Hy|]. by exists i, b. }
  split.
  - intros x y [(b & Hb & Hy)%explicitly_waits_alt|(i & b & Hi & <- & Hn)].
    + rewrite Hs' in Hb. apply lookup_insert_Some in Hb as [[<- <-]|[? Hb]]; [cbn in Hy; by apply elem_of_nil in Hy|].
      left. left. apply explicitly_waits_alt. eauto.
    + rewrite Hs' in Hi. apply lookup_insert_Some in Hi as [[<- <-]|[? Hi]]; [by right|].
      apply needs_alt in Hn as [Hn|[[Hne' Hr] Hb]]; [left; right; exists i, b; split_and!; [done..|apply needs_alt; by left]|].
      apply Hc in Hr as [Hr|?]; [|by right]. left. right. exists i, b. split_and!; [done..|apply needs_alt; by right].
  - intros z [(b & Hb & Hy)%explicitly_waits_alt|(i & b & Hi & <- & Hn)].
    + rewrite Hs', lookup_insert_eq in Hb. injection Hb as <-. cbn in Hy. by apply elem_of_nil in Hy.
    + apply needs_alt in Hn as [Hn|[[Hne' Hr] _]]; [|by apply Hrf]. rewrite Hs' in Hi.
      apply lookup_insert_Some in Hi as [[<- <-]|[? Hi]]; [done|]. destruct (Hu _ _ Hi) as (_ & Hq & Ht).
      destruct Hn as [(v & Hv & Hs)|(u & Hu' & _ & Hs)]; [by destruct (Hq v)|by destruct (Ht u)].
Qed.

Lemma grows_mail s E k a l : grows s E k a (with_mailbox l a).
Proof. constructor; auto. Qed.
Lemma grows_interrupted s E k a : grows s E k a (interrupted_agent a).
Proof.
  assert (∀ t, outstanding (interrupted_turn t) = outstanding t ∧ assigned_by (interrupted_turn t) = assigned_by t ∧
               unanswered (interrupted_turn t) = unanswered t) as Hi.
  { intros t. unfold interrupted_turn, outstanding. by destruct (terminal (status t)) eqn:Ht; cbn; rewrite ?Ht. }
  unfold interrupted_agent. constructor; cbn; try done.
  - unfold unanswered_of. cbn. destruct (turn a) as [t|]; cbn; [|auto]. destruct (Hi t) as (_ & _ & ->). auto.
  - intros x [(w & Hw & _)|(t' & Ht & Ho & Hx)]; [cbn in Hw; set_solver|]. left. right. cbn in Ht.
    destruct (turn a) as [t|]; [|done]. injection Ht as <-. destruct (Hi t) as (E1 & E2 & _). exists t. rewrite <-E1, <-E2. done.
  - unfold busy. cbn. destruct (turn a) as [t|]; cbn; [|done]. destruct (Hi t) as (-> & _ & _). intros ->. left. by rewrite orb_true_r.
Qed.

(** A task for [id], who is idle, adds a dependency to each of its ancestors; it closes a cycle if [id] already
    depends on one of them. *)
Definition may_follow_up (s : SessionSnapshot) (id : string) : Prop :=
  ∀ a, agents s !! id = Some a → busy a = false → ∀ x, x ≠ id → rtc (child s) x id → ¬ rtc (depends s) id x.
Definition careful_action (s : SessionSnapshot) (a : Action) : Prop :=
  match a with Followup id _ => may_follow_up s id | _ => True end.

Lemma effect_acyclic s s' r actor act fresh : Inv s r → unmentioned s fresh → careful_action s act →
  effect s r actor act fresh (agents s') → acyclic (depends s) → acyclic (depends s').
Proof.
  intros Hi Hf Hc He. remember (agents s') as m eqn:Hm. destruct He as [|target a l Ha|target a w t -> Hr Ha [Hw _] Hq Hcy|
    target a w t i Hr Ha [Hw _] Hcap Hrr|p t w k Hp Hw|id]; symmetry in Hm.
  - by apply acyclic_same.
  - eapply acyclic_insert; [done..|apply grows_mail].
  - pose proof (ok_key _ _ _ _ (inv_agents _ _ Hi _ _ Ha)) as Hid.
    set (P := λ x y, x = actor ∨ busy a = false ∧ x ≠ target ∧ rtc (child s) x target ∧ y = target).
    apply acyclic_new with (P := λ x, P x target) (T := λ y, y = target).
    + intros x y Hd. apply (acyclic_queued s s' target a w P) in Hd as [?|[HP ->]]; [by left|by right|done..|by left|].
      right. auto.
    + intros x y [->|(Hb & Hne & Hch & _)] ->; [|by apply (Hc a)]. rewrite <-cycle_reaches. congruence.
  - pose proof (ok_key _ _ _ _ (inv_agents _ _ Hi _ _ Ha)) as Hid. pose proof (idle_worker _ _ _ _ _ Hrr) as Hidle.
    assert (∀ x y, depends s' x y → depends s x y ∨ y = target) as Hd.
    { intros x y Hd. apply (acyclic_queued s s' target a w (λ _ _, True)) in Hd as [?|[_ ?]]; auto. }
    apply acyclic_sink with (w := target); [done|]. intros z [Hz|?]%Hd; [by eapply idle_alone|done].
  - destruct (fresh_depends s s' actor fresh p t w k r) as [Hd1 Hd2]; [done..|]. by apply acyclic_sink with (w := fresh).
  - apply acyclic_grows. rewrite Hm. intros k a' Ha'. rewrite interrupt_lookup in Ha'. destruct (decide _).
    + destruct (agents s !! k) as [a|]; [|done]. injection Ha' as <-. exists a. split; [done|apply grows_interrupted].
    + exists a'. split; [done|apply grows_refl].
Qed.

(** ** What the steps add *)

(** A wait names agents that do not depend on the one that waits. *)
Lemma add_targets_ok s actor ids ts ts' : try_fold (add_target s actor) ts ids = Ok ts' →
  ∀ y, y ∈ dom ts' → y ∈ dom ts ∨ ¬ rtc (depends s) y actor.
Proof.
  revert ts. induction ids as [|x ids IH]; intros ts Hf y Hy; cbn in Hf; [injection Hf as ->; by left|].
  apply bind_ok in Hf as (ts1 & H1 & Hf). destruct (IH _ Hf y Hy) as [Hd|]; [|by right].
  unfold add_target in H1. apply bind_ok in H1 as ([] & Hc%ensure_ok & H1). apply bind_ok in H1 as (o & _ & H1). injection H1 as <-.
  rewrite dom_insert in Hd. apply elem_of_union in Hd as [->%elem_of_singleton|]; [right|by left].
  apply negb_true_iff, orb_false_iff in Hc as [_ Hc]. rewrite <-cycle_reaches. congruence.
Qed.
Lemma allocate_answers uuids s actor t i revision s1 w : allocate uuids s actor t i revision ≠ Ok (s1, Waiting w).
Proof. unfold allocate. 
  intros Ha. do 2 apply bind_ok in Ha as (? & _ & Ha). apply bind_ok in Ha as (d & _ & Ha). cbv zeta in Ha.
  destruct (error d); [done|]. apply bind_ok in Ha as ([i' c] & _ & Ha). by apply bind_ok in Ha as ([[[s2 id] created] d'] & _ & [=]).
Qed.
Lemma run_call_waiting uuids s id c limit now revision s1 w : run_call uuids s id c limit now revision = Ok (s1, Ok (Waiting w)) →
  s1 = s ∧ ∀ y, y ∈ dom (targets w) → ¬ rtc (depends s) y id.
Proof.
  unfold run_call. destruct (c_wait c); [done|]. intros (n & _ & Hx)%bind_ok. destruct (limit <? n); [done|].
  destruct (check_owned_action (action c)) as [[]|e]; cbn in Hx; [|done].
  destruct (apply uuids s id (action c) now revision) as [[s2 a]|e] eqn:Ha; cbn in Hx; [|done]. injection Hx as -> ->.
  unfold apply in Ha. apply bind_ok in Ha as (a & _ & Ha). apply bind_ok in Ha as (t & _ & Ha). apply bind_ok in Ha as (r & _ & Ha).
  apply bind_ok in Ha as ([] & _ & Ha). destruct (action c) as [| |t1|t1 i|i txt|i t1|ids tm|i|].
  - done.
  - by apply bind_ok in Ha as (? & _ & [=]).
  - by apply allocate_answers in Ha.
  - by apply allocate_answers in Ha.
  - apply bind_ok in Ha as ([] & _ & Ha). by apply bind_ok in Ha as ([s2 m] & _ & [=]).
  - unfold follow_up in Ha. do 4 apply bind_ok in Ha as ([] & _ & Ha). apply bind_ok in Ha as (? & _ & Ha).
    apply bind_ok in Ha as (? & _ & Ha). by apply bind_ok in Ha as ([] & _ & [=]).
  - apply bind_ok in Ha as (x & Hw & Ha). injection Ha as <- ->. split; [done|]. unfold start_wait in Hw.
    apply bind_ok in Hw as ([] & _ & Hw). apply bind_ok in Hw as (ts & Hts & Hw). cbv zeta in Hw.
    destruct (_ || _ || _); [done|]. injection Hw as <-. intros y Hy. cbn in Hy.
    destruct (add_targets_ok _ _ _ _ _ Hts y Hy) as [Hd|]; [|done]. by rewrite dom_empty in Hd.
  - unfold interrupt in Ha. apply bind_ok in Ha as ([] & _ & Ha). by apply bind_ok in Ha as (? & _ & [=]).
  - by res_inv.
Qed.
Lemma unanswered_update t st i f y : y ∈ unanswered (with_status st (with_calls (update_call i f (core_calls t)) t)) →
  y ∈ unanswered t ∨ ∃ c w, c ∈ core_calls t ∧ c_result (f c) = None ∧ c_wait (f c) = Some w ∧ y ∈ dom (targets w).
Proof.
  rewrite !elem_of_unanswered. cbn. unfold update_call. intros (c & w & Hc & Hr & Hw & Hy).
  destruct (list_find _ (core_calls t)) as [[j d]|] eqn:Hf; [|left; by exists c, w].
  apply list_find_Some in Hf as (Hd%list_elem_of_lookup_2 & _ & _). apply list_elem_of_lookup in Hc as [n Hn].
  destruct (decide (j = n)) as [->|Hne].
  - destruct (decide (n < length (core_calls t))%nat) as [Hl|Hl].
    + rewrite list_lookup_insert_eq in Hn by done. injection Hn as <-. right. exists d, w. done.
    + rewrite list_insert_ge in Hn by lia. left. exists c, w. split_and!; [by eapply list_elem_of_lookup_2|done..].
  - rewrite list_lookup_insert_ne in Hn by done. left. exists c, w. split_and!; [by eapply list_elem_of_lookup_2|done..].
Qed.
(** Only the answer [Waiting] leaves a call without a result but with a new wait. *)
Lemma retained_open c x : c_result (retained c x) = None → ∃ w, x = Ok (Waiting w) ∧ c_wait (retained c x) = Some w.
Proof. destruct x as [[v|w|i e]|e]; cbn; [done|eauto|done|done]. Qed.

Lemma call_acyclic uuids s id c now revision s' r : Inv s r → callable s id c now → unmentioned s ("agent_" +:+ uuids 2%nat) →
  careful_action s (action c) → collaboration_applied uuids s id c now revision = Ok s' →
  acyclic (depends s) → acyclic (depends s').
Proof.
  intros Hi Hc Hf Hsafe Hx Hac. destruct (collaboration_applied_ok _ _ _ _ _ _ _ _ (inv_run _ _ Hi) Hc Hf Hx)
    as (s1 & x & a & t & Hcall & Ha & Ht & Hl & ->).
  destruct (run_call_effect _ _ _ _ _ _ _ _ _ _ (inv_run _ _ Hi) Hcall) as (He & _ & _).
  assert (acyclic (depends s1)) as Hac1 by (by eapply effect_acyclic).
  set (T := λ y, ∃ w, x = Ok (Waiting w) ∧ y ∈ dom (targets w)).
  eapply (acyclic_new (depends s1) _ (λ x, x = id) T); [| |exact Hac1].
  - apply depends_grows. eapply grows_insert; [done|exact Ha|]. eapply grows_turn; [exact Ht|done|..].
    + cbn. unfold outstanding. by rewrite Hl.
    + intros y [?|(d & w & _ & (w' & -> & Hw)%retained_open & Hw' & Hy)]%unanswered_update; [by left|right].
      split; [done|]. exists w. split; [congruence|done].
  - intros ? y -> (w & -> & Hy). apply run_call_waiting in Hcall as [-> Hn]. by apply Hn.
Qed.
Lemma start_acyclic s id revision s' r : run s = Some r → followup_started s id revision = Ok s' →
  acyclic (depends s) → acyclic (depends s').
Proof.
  intros Hr Hx. destruct (followup_started_ok _ _ _ _ _ Hr Hx)
    as (a & w & rest & t & Ha & Hq & _ & _ & _ & _ & _ & _ & Hby & Ho & Hun & a' & Has & H1 & H2 & _ & _ & H5 & H6).
  eapply acyclic_insert; [exact Has|exact Ha|]. constructor; [done|done|..].
  - unfold unanswered_of. rewrite H6. cbn. rewrite Hun. set_solver.
  - intros x [(v & Hv & Hs)|(u & Hu & _ & Hs)]; left; left.
    + exists v. rewrite Hq. rewrite H5 in Hv. split; [by right|done].
    + exists w. rewrite Hq. split; [left|]. congruence.
  - intros _. left. unfold busy. by rewrite Hq.
Qed.
Lemma deliver_acyclic uuid s id s' : result_delivered uuid s id = Ok s' → acyclic (depends s) → acyclic (depends s').
Proof.
  intros Hx Hac. unfold result_delivered in Hx. apply bind_ok in Hx as ([a0 t0] & _ & Hx). cbn zeta in Hx.
  apply bind_ok in Hx as ([s1 refs] & Hd%deliver_ok & Hx). apply bind_ok in Hx as ([s2 m] & Hm & Hx).
  assert (acyclic (depends s1)) as H1.
  { destruct Hd as [->|(p & n & Hp & ->)]; [done|]. eapply acyclic_insert; [done|exact Hp| |done]. constructor; auto. }
  destruct (enqueue_mail _ _ _ _ _ _) as [[s3 m3]|] eqn:He in Hm; cbn in Hm; [|done]. injection Hm as -> ->.
  destruct (enqueue_mail_ok _ _ _ _ _ _ _ _ He) as (r' & b & mail & _ & Hb & -> & _).
  assert (acyclic (depends (set_agent (assigned_by t0) (with_mailbox (mailbox b ++ [mail]) b) s1))) as H2.
  { eapply acyclic_insert; [done|exact Hb|apply grows_mail|done]. }
  apply bind_ok in Hx as ([a t] & [Ha Ht]%agent_turn_ok & Hx). injection Hx as <-.
  eapply acyclic_insert; [done|exact Ha| |exact H2]. eapply grows_turn; [exact Ht|done|..].
  - unfold outstanding. cbn. rewrite orb_false_r. by intros ->.
  - by left.
Qed.
Lemma turn_acyclic s id a a' : agents s !! id = Some a → progress a a' → acyclic (depends s) → acyclic (depends (set_agent id a' s)).
Proof.
  intros Ha [Hid Hp _ Ht Hq _]. eapply acyclic_insert; [done|exact Ha|].
  assert (∀ t', turn a' = Some t' → ∃ t, turn a = Some t ∧ turn_progress t t') as Hprev.
  { intros t' Ht'. rewrite Ht' in Ht. destruct (turn a) as [t|]; cbn in Ht; [eauto|done]. }
  assert (∀ t t', turn_progress t t' → outstanding t' = true → outstanding t = true) as Ho.
  { intros t t' (_ & _ & _ & Hn & Hl & _). unfold outstanding. rewrite Hn.
    destruct (terminal (status t)); [by rewrite Hl|done]. }
  assert (∀ w, w ∈ queue a' → w ∈ queue a) as Hqs by (intros w Hw; eapply elem_of_submseteq; [done|by apply sublist_submseteq]).
  constructor; [done|done|..].
  - unfold unanswered_of. intros y. destruct (turn a') as [t'|] eqn:Ht'; cbn; [|set_solver].
    destruct (Hprev t' eq_refl) as (t & -> & (_ & _ & _ & _ & _ & Hu)). intros Hy. left. by apply Hu.
  - intros x [(w & Hw & Hs)|(t' & Ht' & Hot & Hs)]; left; [left; eauto|right].
    destruct (Hprev t' Ht') as (t & Htt & Hpr). exists t. split_and!; [done|by eapply Ho|]. destruct Hpr as (_ & _ & <- & _). done.
  - unfold busy. rewrite !orb_true_iff, !negb_true_iff, !bool_decide_eq_false. intros [Hne|Hot]; left.
    + left. intros Hq'. rewrite Hq' in Hqs. destruct (queue a') as [|w q]; [done|]. specialize (Hqs w ltac:(left)). set_solver.
    + right. destruct (turn a') as [t'|] eqn:Ht'; [|done]. destruct (Hprev t' eq_refl) as (t & -> & Hpr). cbn in *. by eapply Ho.
Qed.

(** A step whose action, if it gives a task to an idle agent, gives it to one that does not wait for its ancestors. *)
Definition careful (s : SessionSnapshot) (l : label) : Prop :=
  match l with Label_call _ c => careful_action s (action c) | Label_runtime _ a => careful_action s a | _ => True end.
Lemma step_acyclic s l s' r : Inv s r → careful s l → step s l s' → acyclic (depends s) → acyclic (depends s').
Proof.
  intros Hi Hc Hs. destruct Hs as [uuids id c now revision s' Hcl Hf Hx|uuids op actor a expected now revision s' rc Hf Hx|now|
    id revision s' _ Hx|uuid id s' _ Hx|id a a' Ha Hp].
  - by eapply call_acyclic.
  - apply collaborate_ok in Hx as (s1 & x & Ha & Has & _). intros Hac.
    destruct (apply_effect _ _ _ _ _ _ _ _ _ (inv_run _ _ Hi) Ha) as [He _].
    apply (acyclic_same s1); [done|]. by eapply effect_acyclic.
  - by apply acyclic_same.
  - eapply start_acyclic; [apply (inv_run _ _ Hi)|done].
  - by eapply deliver_acyclic.
  - by eapply turn_acyclic.
Qed.
Definition careful_runs (s s' : SessionSnapshot) : Prop := rtc (λ s s', ∃ l, careful s l ∧ step s l s') s s'.
Lemma acyclic_steps s s' r : Inv s r → careful_runs s s' → acyclic (depends s) → acyclic (depends s').
Proof. intros Hi Hs Hac. induction Hs as [|? ? ? (l & Hc & Hl)]; [done|]. eauto using inv_step, step_acyclic. Qed.
Lemma acyclic_started s r : started s r → (∀ k, explicit_waits s k = []) → acyclic (depends s).
Proof.
  intros Hst Hw. destruct (started_root _ _ Hst) as (a & Ha & Hid & _).
  assert (∀ x y, depends s x y → y = s_agent_id s) as Hd.
  { intros x y [Hy|(k & b & Hb & <- & _)].
    - apply elem_of_explicit_waits in Hy. rewrite Hw in Hy. set_solver.
    - rewrite Ha in Hb. by apply lookup_singleton_Some in Hb as [_ <-]. }
  apply (acyclic_sink (λ _ _, False) _ (s_agent_id s)); [eauto|by apply Hd|]. intros x y Hx _. by apply rtc_inv in Hx as [|(? & [] & _)].
Qed.

(** Along the dependencies one comes to an agent that waits for nobody else. *)
Lemma acyclic_ends s : acyclic (depends s) → ∀ x, ∃ y, rtc (depends s) x y ∧ ∀ z, depends s y z → z = y.
Proof.
  intros Hac x0. assert (∀ n (V : gset string) x, x ∈ {[x0]} ∪ nodes s → x ∉ V → (∀ v, v ∈ V → rtc (depends s) v x) →
    (size (({[x0]} ∪ nodes s) ∖ V) ≤ n)%nat → ∃ y, rtc (depends s) x y ∧ ∀ z, depends s y z → z = y) as Hn.
  2: { eapply (Hn _ ∅ x0); [set_solver..|reflexivity]. }
  induction n as [|n IH]; intros V x Hx Hv Hr Hsz.
  { exfalso. assert (({[x0]} ∪ nodes s) ∖ V ≡ ∅) as He by (apply size_empty_inv; lia).
    apply (not_elem_of_empty (C := gset string) x). rewrite <-He. by apply elem_of_difference. }
  destruct (List.filter (λ z, negb (bool_decide (z = x))) (explicit_waits s x ++ dependents s x)) as [|y l] eqn:Hl.
  { exists x. split; [apply rtc_refl|]. intros z Hz%depends_spec. destruct (decide (z = x)) as [|Hne]; [done|]. exfalso.
    assert (z ∈ List.filter (λ z, negb (bool_decide (z = x))) (explicit_waits s x ++ dependents s x)) as Hin; [|rewrite Hl in Hin; set_solver].
    apply filter_elem. split; [by apply elem_of_app|]. by rewrite bool_decide_eq_false_2. }
  assert (depends s x y ∧ y ≠ x) as [Hd Hne].
  { assert (y ∈ List.filter (λ z, negb (bool_decide (z = x))) (explicit_waits s x ++ dependents s x)) as Hin by (rewrite Hl; left).
    apply filter_elem in Hin as [Hin%elem_of_app Hb%negb_true_iff%bool_decide_eq_false]. by rewrite depends_spec. }
  destruct (IH ({[x]} ∪ V) y) as (z & Hz & Hend).
  - apply depends_nodes in Hd. clear -Hd. set_solver.
  - intros [He%elem_of_singleton|Hy]%elem_of_union; [done|]. apply Hne. apply Hac; [by apply Hr|by apply rtc_once].
  - intros v [->%elem_of_singleton|Hv']%elem_of_union; [by apply rtc_once|]. eapply rtc_r; [by apply Hr|done].
  - apply Nat.lt_succ_r. eapply Nat.lt_le_trans; [|exact Hsz]. apply subset_size. clear -Hx Hv.
    revert Hx. generalize ({[x0]} ∪ nodes s). set_solver.
  - exists z. split; [by eapply rtc_l|done].
Qed.

(** C2: In every session that is reached from the start of a run, in any order of steps, if nobody gives a task to an
    idle agent that already waits for one of that agent's own ancestors, then the agents never wait for each other
    in a circle, through waits without an answer, tasks that are queued or done for each other, or
    busy descendants; and whoever waits, its dependencies lead to an agent that can go on without the others. *)
Theorem dependencies_stay_acyclic s0 s r : started s0 r → (∀ k, explicit_waits s0 k = []) → careful_runs s0 s →
  (∀ x y, rtc (depends s) x y → rtc (depends s) y x → x = y) ∧
  ∀ x, ∃ y, rtc (depends s) x y ∧ ∀ z, depends s y z → z = y.
Proof.
  intros Hs Hw Hr. pose proof (acyclic_steps _ _ _ (started_inv _ _ Hs) Hr (acyclic_started _ _ Hs Hw)) as Hac.
  split; [exact Hac|by apply acyclic_ends].
Qed.
End cycles.
