(* ===== verification/SemanticInput.v ===== *)
(** What the classifier is shown of a prompt ([apps/bitrouter/src/gateway/routing/input.rs]): a
    bounded projection of the public text of the conversation, newest first, with a share of
    the bound kept for the system instruction. [projection] is the same text without a bound.

    A prompt holds the fields that routing reads ([crates/bitrouter-ai/src/types.rs]). Byte counts are
    [nat]s: none exceeds the bound or the length of a text that is in memory. *)
From Stdlib Require Import ZArith Lia Ascii.
From stdpp Require Import base list strings gmap.
From S2P Require Import Prelude EvalMeasurement RegistryValue ModelHistory.
Open Scope string_scope.
Open Scope list_scope.

(** ** Prompts *)

Inductive ToolDeclaration := FunctionTool (name : string) | ProviderDefined (id name : string).
Record Prompt := {
  prompt_model : string; system : option string; messages : list Message;
  tools : list ToolDeclaration; reasoning_effort : option ReasoningEffort;
}.

(** ** Inputs *)

Record Signal := { signal_kind : string; signal_text : string }.
Record Task := { objective : string; acceptance_criteria : list string }.
Record Input := { task : option Task; signals : list Signal; complete : bool; truncated : bool }.
Definition Input_default : Input := {| task := None; signals := []; complete := false; truncated := false |}.
Definition set_truncated (b : bool) (i : Input) : Input :=
  {| task := task i; signals := signals i; complete := complete i; truncated := truncated i || b |}.
Definition add_signal (s : Signal) (i : Input) : Input :=
  {| task := task i; signals := signals i ++ [s]; complete := complete i; truncated := truncated i |}.

(** [str::is_char_boundary], and the loop that steps [end] back to one. *)
Definition is_char_boundary (text : string) (i : nat) : bool :=
  (i =? 0)%nat || (i =? String.length text)%nat ||
  match String.get i text with Some a => negb (is_cont a) | None => false end.
Fixpoint step_back (text : string) (end_ : nat) : nat :=
  if is_char_boundary text end_ then end_
  else match end_ with O => O | S e => step_back text e end.
Definition prefix_to (text : string) (end_ : nat) : string := string_of (take end_ (bytes text)).

(** The input and [remaining]. *)
Definition projection_state : Type := Input * nat.
Definition push (kind text : string) (st : projection_state) : projection_state :=
  let '(input, remaining) := st in
  let end_ := step_back text (Nat.min (String.length text) remaining) in
  let input := set_truncated (end_ <? String.length text)%nat input in
  ((if (0 <? end_)%nat then add_signal {| signal_kind := kind; signal_text := prefix_to text end_ |} input
    else input), (remaining - end_)%nat).
Definition omit (st : projection_state) : projection_state := (set_truncated true st.1, st.2).

Definition role_name (r : Role) : string :=
  match r with System => "instruction" | User => "user" | Assistant => "assistant" | Tool => "tool" end.

Section projection.
(** [serde_json]'s compact text of a value: UTF-8. *)
Context (json_compact : Value → string).

(** The writer stops at [limit] bytes; the valid prefix of what it took is kept. *)
Definition json_text (value : Value) (limit : nat) : string * bool :=
  let text := json_compact value in
  (prefix_to text (step_back text (Nat.min (String.length text) limit)), (limit <? String.length text)%nat).
Definition push_json (kind : string) (value : Value) (st : projection_state) : projection_state :=
  let '(text, truncated) := json_text value st.2 in
  push kind text (set_truncated truncated st.1, st.2).

Definition push_output (output : ToolResultOutput) (st : projection_state) : projection_state :=
  match output with
  | OutText value => push "tool_result" value st
  | OutErrorText value => push "tool_error" value st
  | OutJson value => push_json "tool_result" value st
  | OutErrorJson value => push_json "tool_error" value st
  | OutExecutionDenied reason => push "tool_denied" (default "execution denied" reason) st
  | OutContent _ => omit st
  end.
Definition push_part (role : string) (st : projection_state) (part : Content) : projection_state :=
  match part with
  | Text text _ => push role text st
  | ToolCall _ name arguments false false _ => push "tool_name" name (push "tool_arguments" arguments st)
  | ToolResult _ _ output false _ => push_output output st
  | File _ _ _ _ => omit st
  | _ => st
  end.
Definition push_message (st : projection_state) (m : Message) : projection_state :=
  foldl (push_part (role_name (role m))) st (rev (content m)).

Definition instruction_budget (prompt : Prompt) (max_text_bytes : nat) : nat :=
  from_option (λ text, Nat.min (String.length text) (max_text_bytes / 4)) O (system prompt).
Definition from_prompt (prompt : Prompt) (max_text_bytes : nat) : Input :=
  let budget := instruction_budget prompt max_text_bytes in
  let '(input, remaining) :=
    foldl push_message (Input_default, (max_text_bytes - budget)%nat) (rev (messages prompt)) in
  let '(input, _) :=
    match system prompt with
    | Some text => push "instruction" text (input, (remaining + budget)%nat)
    | None => (input, (remaining + budget)%nat)
    end in
  {| task := task input; signals := rev (signals input); complete := complete input;
     truncated := truncated input |}.

(** ** The projection without a bound *)

(** The observations of a part in order; [None] is one that is left out. *)
Definition output_view (output : ToolResultOutput) : option Signal :=
  match output with
  | OutText value => Some {| signal_kind := "tool_result"; signal_text := value |}
  | OutErrorText value => Some {| signal_kind := "tool_error"; signal_text := value |}
  | OutJson value => Some {| signal_kind := "tool_result"; signal_text := json_compact value |}
  | OutErrorJson value => Some {| signal_kind := "tool_error"; signal_text := json_compact value |}
  | OutExecutionDenied reason =>
      Some {| signal_kind := "tool_denied"; signal_text := default "execution denied" reason |}
  | OutContent _ => None
  end.
Definition part_view (role : string) (part : Content) : list (option Signal) :=
  match part with
  | Text text _ => [Some {| signal_kind := role; signal_text := text |}]
  | ToolCall _ name arguments false false _ =>
      [Some {| signal_kind := "tool_name"; signal_text := name |};
       Some {| signal_kind := "tool_arguments"; signal_text := arguments |}]
  | ToolResult _ _ output false _ => [output_view output]
  | File _ _ _ _ => [None]
  | _ => []
  end.
Definition message_view (m : Message) : list (option Signal) :=
  content m ≫= part_view (role_name (role m)).
Definition prompt_view (prompt : Prompt) : list (option Signal) :=
  match system prompt with
  | Some text => [Some {| signal_kind := "instruction"; signal_text := text |}] | None => []
  end ++ (messages prompt ≫= message_view).
Definition visible (o : option Signal) : bool :=
  match o with Some s => negb (is_empty (signal_text s)) | None => false end.
Definition projection (view : list (option Signal)) : list Signal := omap id (List.filter visible view).
Definition text_bytes (l : list Signal) : nat := sum_list (String.length ∘ signal_text <$> l).
End projection.

(** ** Theorems *)

Lemma length_string_of l : String.length (string_of l) = length l.
Proof. by rewrite <-length_bytes, bytes_string_of. Qed.
Lemma step_back_le text e : (step_back text e ≤ e)%nat.
Proof. induction e as [|e IH]; cbn; [lia|]. case_match; lia. Qed.
Lemma boundary_length text : is_char_boundary text (String.length text) = true.
Proof. unfold is_char_boundary. by rewrite Nat.eqb_refl, orb_true_r. Qed.
Lemma step_back_boundary text e : is_char_boundary text (step_back text e) = true.
Proof. induction e as [|e IH]; cbn; [done|]. by destruct (is_char_boundary text (S e)) eqn:E. Qed.
Lemma step_back_greatest text b e :
  is_char_boundary text b = true → (b ≤ e)%nat → (b ≤ step_back text e)%nat.
Proof.
  intros Hb. induction e as [|e IH]; intros He; cbn; [lia|]. destruct (is_char_boundary text (S e)) eqn:E; [lia|].
  assert (b ≠ S e) by congruence. apply IH. lia.
Qed.
Lemma step_back_mono text e e' : (e ≤ e')%nat → (step_back text e ≤ step_back text e')%nat.
Proof.
  intros He. pose proof (step_back_le text e). apply step_back_greatest; [apply step_back_boundary|lia].
Qed.
Lemma step_back_whole text : step_back text (String.length text) = String.length text.
Proof.
  pose proof (step_back_le text (String.length text)).
  pose proof (step_back_greatest text _ (String.length text) (boundary_length text)) as Hb. lia.
Qed.
Lemma length_prefix_to text e : (e ≤ String.length text)%nat → String.length (prefix_to text e) = e.
Proof. intros. unfold prefix_to. rewrite length_string_of, length_take, length_bytes. lia. Qed.
Lemma prefix_to_whole text : prefix_to text (String.length text) = text.
Proof. unfold prefix_to. by rewrite take_ge, string_of_bytes by (rewrite length_bytes; lia). Qed.
Lemma is_empty_length s : is_empty s = (String.length s =? 0)%nat.
Proof. by destruct s. Qed.
Lemma text_bytes_app l1 l2 : text_bytes (l1 ++ l2) = (text_bytes l1 + text_bytes l2)%nat.
Proof. unfold text_bytes. by rewrite fmap_app, sum_list_with_app. Qed.
Lemma set_truncated_false i : set_truncated false i = i.
Proof. destruct i. unfold set_truncated. cbn. by rewrite orb_false_r. Qed.

(** The four facts about a push that the proofs use. *)
Lemma push_fits kind text i r : (String.length text ≤ r)%nat →
  push kind text (i, r) =
  (if is_empty text then i else add_signal {| signal_kind := kind; signal_text := text |} i,
   (r - String.length text)%nat).
Proof.
  intros Hr. unfold push. rewrite Nat.min_l, step_back_whole, Nat.ltb_irrefl, set_truncated_false by lia.
  rewrite prefix_to_whole, is_empty_length. by destruct (String.length text).
Qed.
Lemma push_cut kind text i r : (r < String.length text)%nat →
  push kind text (i, r) =
  (let e := step_back text r in
   if (0 <? e)%nat then add_signal {| signal_kind := kind; signal_text := prefix_to text e |} (set_truncated true i)
   else set_truncated true i, (r - step_back text r)%nat).
Proof.
  intros Hr. unfold push. rewrite Nat.min_r by lia. pose proof (step_back_le text r).
  by rewrite (proj2 (Nat.ltb_lt (step_back text r) (String.length text))) by lia.
Qed.

Section projection_lemmas.
Context (json_compact : Value → string).

Lemma push_json_push kind value st :
  push_json json_compact kind value st = push kind (json_compact value) st.
Proof.
  destruct st as [i r]. unfold push_json, json_text. cbn [fst snd]. set (text := json_compact value).
  destruct (decide (String.length text ≤ r)%nat) as [Hr|Hr].
  - rewrite Nat.min_l, step_back_whole, prefix_to_whole by lia.
    by rewrite (proj2 (Nat.ltb_ge r _)), set_truncated_false by lia.
  - rewrite Nat.min_r, (proj2 (Nat.ltb_lt r _)) by lia. pose proof (step_back_le text r).
    rewrite push_fits, length_prefix_to, push_cut, is_empty_length, length_prefix_to
      by (rewrite ?length_prefix_to; lia).
    by destruct (step_back text r).
Qed.

(** The projection is one pass over the observations, newest first. *)
Definition observe (st : projection_state) (o : option Signal) : projection_state :=
  match o with Some s => push (signal_kind s) (signal_text s) st | None => omit st end.
Lemma push_part_observe role st part :
  push_part json_compact role st part = foldl observe st (rev (part_view json_compact role part)).
Proof.
  destruct part as [| | |? ? ? pe dy ?|? ? out dy ?| | |]; try done.
  { by destruct pe, dy. }
  destruct dy; [done|]. destruct out; cbn [push_part part_view push_output output_view rev app foldl observe signal_kind signal_text];
    by rewrite ?push_json_push.
Qed.
Lemma foldl_rev_bind {A B S} (f : S → B → S) (g : A → list B) (h : S → A → S) l s :
  (∀ s a, h s a = foldl f s (rev (g a))) → foldl h s (rev l) = foldl f s (rev (l ≫= g)).
Proof.
  intros Hh. revert s. induction l as [|a l IH]; intros s; cbn; [done|].
  rewrite rev_app_distr, !foldl_app, IH. cbn [foldl]. by rewrite Hh.
Qed.
Lemma push_message_observe st m :
  push_message json_compact st m = foldl observe st (rev (message_view json_compact m)).
Proof. apply foldl_rev_bind. intros. apply push_part_observe. Qed.

Lemma from_prompt_observe prompt max_text_bytes :
  let budget := instruction_budget prompt max_text_bytes in
  let st := foldl observe (Input_default, (max_text_bytes - budget)%nat)
              (rev (messages prompt ≫= message_view json_compact)) in
  let st := foldl observe (st.1, (st.2 + budget)%nat)
              (match system prompt with
               | Some text => [Some {| signal_kind := "instruction"; signal_text := text |}] | None => [] end) in
  from_prompt json_compact prompt max_text_bytes =
  {| task := task st.1; signals := rev (signals st.1); complete := complete st.1; truncated := truncated st.1 |}.
Proof.
  cbn zeta. unfold from_prompt.
  rewrite (foldl_rev_bind observe (message_view json_compact)) by apply push_message_observe.
  destruct (foldl _ _ _) as [i r]. cbn [fst snd]. destruct (system prompt) as [text|]; [|done].
  cbn [foldl observe signal_kind signal_text]. by destruct (push _ _ _).
Qed.

Definition projection_inv (l : list (option Signal)) (i : Input) (r : nat) (i' : Input) (r' : nat) : Prop :=
  (text_bytes (signals i') + r' = text_bytes (signals i) + r)%nat ∧
  task i' = task i ∧ complete i' = complete i ∧
  (∃ more, signals i' = signals i ++ more) ∧
  (truncated i' = false ↔
    truncated i = false ∧ None ∉ l ∧ (text_bytes (projection l) ≤ r)%nat) ∧
  (truncated i' = false → signals i' = signals i ++ projection l).

Lemma projection_cons o l : projection (o :: l) = projection [o] ++ projection l.
Proof. unfold projection. cbn. destruct (visible o); [|done]. by destruct o. Qed.
Lemma projection_app l1 l2 : projection (l1 ++ l2) = projection l1 ++ projection l2.
Proof.
  induction l1 as [|o l1 IH]; [done|]. cbn [app]. by rewrite projection_cons, IH, app_assoc, <-projection_cons.
Qed.
Lemma projection_rev l : projection (rev l) = rev (projection l).
Proof.
  induction l as [|o l IH]; [done|]. cbn [rev]. rewrite projection_app, IH, (projection_cons o l), rev_app_distr.
  f_equal. unfold projection. destruct o as [s|]; cbn; [|done]. by destruct (is_empty _).
Qed.
Lemma projection_one s :
  projection [Some s] = if is_empty (signal_text s) then [] else [s].
Proof. unfold projection. cbn. by destruct (is_empty _). Qed.

Lemma observe_inv o i r i' r' : observe (i, r) o = (i', r') → projection_inv [o] i r i' r'.
Proof.
  unfold projection_inv. destruct o as [[k t]|]; cbn [observe signal_kind signal_text].
  - rewrite projection_one. cbn [signal_text].
    destruct (decide (String.length t ≤ r)%nat) as [Hr|Hr].
    + rewrite push_fits by done. intros [= <- <-]. rewrite is_empty_length.
      destruct (String.length t =? 0)%nat eqn:E; [apply Nat.eqb_eq in E|apply Nat.eqb_neq in E];
        cbn [add_signal signals task complete truncated];
        rewrite ?text_bytes_app, ?app_nil_r; cbn; split_and!; try done; try lia; try (by eexists);
        try (exists []; by rewrite app_nil_r); (split; [intros ->; split_and!; [done|set_solver|cbn; lia]|naive_solver]).
    + rewrite push_cut by lia. pose proof (step_back_le t r). cbn zeta. intros [= <- <-].
      assert (is_empty t = false) as -> by (rewrite is_empty_length; apply Nat.eqb_neq; lia).
      destruct (0 <? step_back t r)%nat eqn:E; [apply Nat.ltb_lt in E|apply Nat.ltb_ge in E];
        cbn [add_signal set_truncated signals task complete truncated];
        rewrite ?text_bytes_app, ?orb_true_r; cbn; rewrite ?length_prefix_to by lia;
        split_and!; try done; try lia; try (by eexists); try (exists []; by rewrite app_nil_r);
        (split; [done|]); cbn; intros (_ & _ & ?); lia.
  - unfold omit. cbn. intros [= <- <-]. cbn. rewrite orb_true_r. split_and!; try done.
    { exists []. by rewrite app_nil_r. }
    split; [done|]. set_solver.
Qed.
Lemma observes_inv l i r i' r' :
  foldl observe (i, r) l = (i', r') → projection_inv l i r i' r'.
Proof.
  revert i r. induction l as [|o l IH]; intros i r; cbn.
  { intros [= <- <-]. unfold projection_inv. cbn. rewrite app_nil_r. split_and!; try done.
    - exists []. by rewrite app_nil_r.
    - split; [intros ->; split_and!; [done|set_solver|cbn; lia]|naive_solver]. }
  intros H. destruct (observe (i, r) o) as [i1 r1] eqn:Ho.
  apply observe_inv in Ho as (Hb1 & Ht1 & Hc1 & [m1 Hm1] & Hf1 & He1).
  apply IH in H as (Hb2 & Ht2 & Hc2 & [m2 Hm2] & Hf2 & He2).
  unfold projection_inv. rewrite projection_cons, text_bytes_app, not_elem_of_cons.
  rewrite list_elem_of_singleton in Hf1.
  split_and!; [lia|congruence|congruence| | |].
  - exists (m1 ++ m2). by rewrite Hm2, Hm1, app_assoc.
  - rewrite Hf2, Hf1. split.
    + intros ((Ht & Hn & Hle) & Hl & Hle2). assert (truncated i1 = false) as Hi1 by naive_solver.
      rewrite (He1 Hi1), text_bytes_app in Hb1. split_and!; [done|naive_solver|done|lia].
    + intros (Ht & (Hn & Hl) & Hle). assert (truncated i1 = false) as Hi1.
      { apply Hf1. split_and!; [done|naive_solver|lia]. }
      rewrite (He1 Hi1), text_bytes_app in Hb1. split_and!; [done|naive_solver|lia|done|lia].
  - intros Hi. apply Hf2 in Hi as Hi1. rewrite (He2 Hi), (He1 (proj1 Hi1)). by rewrite app_assoc.
Qed.

Lemma text_bytes_rev l : text_bytes (rev l) = text_bytes l.
Proof.
  induction l as [|s l IH]; [done|]. cbn [rev]. rewrite text_bytes_app, IH. unfold text_bytes. cbn. lia.
Qed.
Lemma text_bytes_one s : text_bytes (projection [Some s]) = String.length (signal_text s).
Proof. rewrite projection_one. destruct s as [k [|a t]]; unfold text_bytes; cbn; lia. Qed.
Lemma projection_prompt prompt :
  projection (prompt_view json_compact prompt) =
  projection (match system prompt with
              | Some text => [Some {| signal_kind := "instruction"; signal_text := text |}] | None => [] end) ++
  projection (messages prompt ≫= message_view json_compact).
Proof. apply projection_app. Qed.

(** C20: the classifier's input never holds more text than the bound; it says that it is complete
    only if nothing was left out and everything fits, and then it is the whole public
    conversation in order; and the system instruction, which the projection takes last, always leads
    with at least the share that was kept for it, however long the history is. It never
    claims a complete history. *)
Theorem projection_is_bounded prompt max_text_bytes :
  let input := from_prompt json_compact prompt max_text_bytes in
  let view := prompt_view json_compact prompt in
  (text_bytes (signals input) ≤ max_text_bytes)%nat ∧
  (truncated input = false ↔ None ∉ view ∧ (text_bytes (projection view) ≤ max_text_bytes)%nat) ∧
  (truncated input = false → signals input = projection view) ∧
  (∀ text, system prompt = Some text →
     let share := step_back text (Nat.min (String.length text) (max_text_bytes / 4)) in
     (0 < share)%nat → ∃ n, (share ≤ n)%nat ∧
     head (signals input) = Some {| signal_kind := "instruction"; signal_text := prefix_to text n |}) ∧
  complete input = false.
Proof.
  cbn zeta. rewrite from_prompt_observe, projection_prompt. unfold prompt_view.
  set (view := messages prompt ≫= _). set (budget := instruction_budget _ _).
  assert (budget ≤ max_text_bytes)%nat as Hbm.
  { unfold budget, instruction_budget. destruct (system prompt) as [text|]; cbn [from_option]; [|lia].
    assert (max_text_bytes / 4 ≤ max_text_bytes)%nat by (apply Nat.Div0.div_le_upper_bound; lia). lia. }
  destruct (foldl observe (Input_default, _) _) as [i r] eqn:H1. cbn [fst snd].
  destruct (foldl observe (i, _) _) as [i' r'] eqn:H2. cbn [fst signals truncated complete].
  apply observes_inv in H1 as (Hb1 & _ & Hc1 & _ & Hf1 & He1). cbn in Hb1, Hc1, Hf1, He1.
  pose proof (observes_inv _ _ _ _ _ H2) as (Hb2 & _ & Hc2 & _ & Hf2 & He2).
  rewrite projection_rev in He1, Hf1. rewrite text_bytes_rev in Hf1.
  rewrite text_bytes_rev, text_bytes_app, not_elem_of_app.
  assert (None ∉ rev view ↔ None ∉ view) as Hrev by (by rewrite !list_elem_of_In, <-in_rev).
  split_and!; [lia| | | |congruence].
  - rewrite Hf2, Hf1, Hrev. split.
    + intros ((_ & Hn & Hle) & Hs & Hles). assert (truncated i = false) as Hi by naive_solver.
      rewrite (He1 Hi), text_bytes_rev in Hb1. split_and!; [done|done|lia].
    + intros ((Hs & Hn) & Hle).
      assert (text_bytes (projection view) ≤ max_text_bytes - budget)%nat as Hv.
      { unfold budget, instruction_budget. destruct (system prompt) as [text|]; cbn [from_option]; [|lia].
        rewrite text_bytes_one in Hle. cbn [signal_text] in Hle. lia. }
      assert (truncated i = false) as Hi by naive_solver.
      rewrite (He1 Hi), text_bytes_rev in Hb1. split_and!; [done|done|lia|done|lia].
  - intros Hi. apply Hf2 in Hi as Hi1. rewrite (He2 Hi), (He1 (proj1 Hi1)), rev_app_distr, rev_involutive.
    f_equal. destruct (system prompt) as [text|]; [|done]. rewrite projection_one. by destruct (is_empty _).
  - intros text Ht Hshare. rewrite Ht in H2. cbn [foldl observe signal_kind signal_text] in H2.
    assert (budget = Nat.min (String.length text) (max_text_bytes / 4)) as Hbudget
      by (unfold budget, instruction_budget; by rewrite Ht).
    rewrite <-Hbudget in *. destruct (decide (String.length text ≤ r + budget)%nat) as [Hfit|Hfit].
    + rewrite push_fits in H2 by done. injection H2 as <- <-. exists (String.length text).
      rewrite prefix_to_whole, is_empty_length. pose proof (step_back_le text budget).
      split; [lia|]. rewrite (proj2 (Nat.eqb_neq _ 0)) by lia. cbn. by rewrite rev_app_distr.
    + rewrite push_cut in H2 by lia. cbn zeta in H2. injection H2 as <- <-.
      pose proof (step_back_mono text budget (r + budget)).
      exists (step_back text (r + budget)). split; [lia|].
      rewrite (proj2 (Nat.ltb_lt _ _)) by lia. cbn. by rewrite rev_app_distr.
Qed.
End projection_lemmas.
