(* ===== verification/SemanticRoute.v ===== *)
(** Semantic route keys and the serving state that an assessment gives
    ([apps/bitrouter/src/gateway/routing/workflow/predictive.rs] and [online.rs], the key parser in
    [config/mod.rs], the legacy fingerprint in [policy_table_router.rs]). The key of a request is what a
    policy lock's routes, its experiments and the evaluation's evidence are filed under.

    The observed workflow state, which diagnostics carry, is the extractors' and is an argument. *)
From Stdlib Require Import ZArith Lia Ascii SpecFloat.
From stdpp Require Import base list strings gmap pretty.
From S2P Require Import Prelude RouteIr RoutingState ModelHistory SemanticInput SemanticAssessment.
Open Scope string_scope.
Open Scope list_scope.
Open Scope Z_scope.

(** ** Projections and keys *)

Record PredictiveRouteProjection := {
  pr_task_family : TaskFamily; pr_next_step_role : NextStepRole; pr_risk : RouteRisk;
}.
#[export] Instance PredictiveRouteProjection_eq_dec : EqDecision PredictiveRouteProjection.
Proof. solve_decision. Defined.
Definition PredictiveRouteProjection_key (p : PredictiveRouteProjection) : string :=
  "semantic_route/v1|" +:+ TaskFamily_key (pr_task_family p) +:+ "|" +:+
  NextStepRole_key (pr_next_step_role p) +:+ "|" +:+ enum_key (pr_risk p).
Definition unknown_baseline (p : PredictiveRouteProjection) : PredictiveRouteProjection :=
  {| pr_task_family := FamilyUnknown; pr_next_step_role := pr_next_step_role p; pr_risk := pr_risk p |}.

Definition known_families : list string :=
  ["code:generation"; "code:debugging"; "code:review"; "code:sql_database"; "code:frontend_ui";
   "code:devops_config"; "code:repository_analysis"; "agent:multi_step_planning";
   "agent:workflow_execution"; "agent:web_research"; "agent:memory_operations"; "agent:general"; "unknown"].
Definition known_roles : list string :=
  ["orchestrate"; "implement"; "mechanical"; "verify"; "finalize"; "unknown"].
Definition known_risks : list string := ["normal"; "context"; "guarded"].
Definition parse_semantic_route_key (value : string) : option (string * string * string) :=
  match split_on "|"%char value with
  | [namespace; task_family; role; risk] =>
      if negb (bool_decide (namespace = "semantic_route/v1")) || negb (bool_decide (task_family ∈ known_families))
         || negb (bool_decide (role ∈ known_roles)) || negb (bool_decide (risk ∈ known_risks))
      then None else Some (task_family, role, risk)
  | _ => None
  end.
Definition PredictiveRouteProjection_parse_key (value : string) : option PredictiveRouteProjection :=
  '(task_family, next_step_role, risk) ← parse_semantic_route_key value;
  risk ← parse_route_risk risk;
  family ← TaskFamily_parse_key task_family;
  role ← NextStepRole_parse_key next_step_role;
  Some {| pr_task_family := family; pr_next_step_role := role; pr_risk := risk |}.

(** ** The serving state *)

(** The fields of the [PredictiveRouteIR] that [with_assessment] sets. *)
Record PredictiveRouteIR := {
  next_step_role : NextStepRole; progress_state : ProgressState; route_risk : RouteRisk;
  confidence : f64; predictor_contract_digest : string; confidence_kind : string;
  task_family : TaskFamily; task_family_confidence : f64;
}.
Record OnlineWorkflowState := {
  ir : WorkflowStateIR; predictive : PredictiveRouteIR; online_legacy_fingerprint : string;
  routing_key : string; baseline_routing_key : string; observed_routing_key : string;
}.

(** [value as f32], kept as the double that it is. *)
Definition as_f32 (v : f64) : f64 :=
  match v with
  | S754_finite s m e => binary_normalize 24 128 (if s then Z.neg m else Z.pos m) e s
  | v => v
  end.

Definition assessment_risk (assessment : option Assessment) : RouteRisk :=
  match assessment with
  | Some a =>
      if history_truncated a then Context_
      else match SemanticAssessment.progress_state a with Stalled | Recovering => Guarded | _ => Normal end
  | None => Guarded
  end.
Definition judged_confidence (assessment : option Assessment) (id : string) : f64 :=
  from_option (λ j, as_f32 (judgment_confidence j)) zero (a ← assessment; judgments a !! id).

Section online.
Context `{AssessmentEnv}.

Definition assessed (assessment : option Assessment) : PredictiveRouteIR := {|
  next_step_role := from_option SemanticAssessment.next_step_role RoleUnknown assessment;
  progress_state := from_option SemanticAssessment.progress_state ProgressUnknown assessment;
  route_risk := assessment_risk assessment; confidence := judged_confidence assessment ROLE;
  predictor_contract_digest := from_option contract_digest current_contract_digest assessment;
  confidence_kind := "provider_probability";
  task_family := from_option SemanticAssessment.task_family FamilyUnknown assessment;
  task_family_confidence := judged_confidence assessment TASK |}.
Definition predictive_projection (p : PredictiveRouteIR) : PredictiveRouteProjection :=
  {| pr_task_family := task_family p; pr_next_step_role := next_step_role p; pr_risk := route_risk p |}.

(** [PolicyTable::fingerprint]: the step that the model's last turn makes this one. *)
Definition last_call (m : Message) : option string :=
  head (omap (λ c, match c with ToolCall _ name _ _ _ _ => Some name | _ => None end) (rev (content m))).
Fixpoint fingerprint_of (newest_first : list Message) : string :=
  match newest_first with
  | [] => "opening"
  | m :: rest =>
      if negb (bool_decide (role m = Assistant)) then fingerprint_of rest
      else match last_call m with Some name => "after_" +:+ name | None => "midstream" end
  end.
Definition fingerprint (prompt : Prompt) : string := fingerprint_of (rev (messages prompt)).

Definition from_assessment (observed : WorkflowStateIR) (prompt : Prompt) (assessment : option Assessment)
    : OnlineWorkflowState :=
  let predictive := assessed assessment in
  let projection := predictive_projection predictive in
  {| ir := observed; predictive := predictive; online_legacy_fingerprint := fingerprint prompt;
     routing_key := PredictiveRouteProjection_key projection;
     baseline_routing_key := PredictiveRouteProjection_key (unknown_baseline projection);
     observed_routing_key := RouteProjection_key (route_projection observed) |}.
End online.

(** ** Theorems *)

Lemma semantic_parse_of_key p : PredictiveRouteProjection_parse_key (PredictiveRouteProjection_key p) = Some p.
Proof. destruct p as [[] [] []]; by vm_compute. Qed.
Lemma semantic_parse_inverse value p :
  PredictiveRouteProjection_parse_key value = Some p → value = PredictiveRouteProjection_key p.
Proof.
  unfold PredictiveRouteProjection_parse_key, parse_semantic_route_key. intros Hp.
  rewrite <-(join_split_on "|"%char value).
  destruct (split_on "|"%char value) as [|ns [|f [|r [|k [|]]]]]; try done.
  destruct (decide (ns = "semantic_route/v1")) as [->|]; [|by rewrite bool_decide_eq_false_2 in Hp].
  destruct (_ || _); [done|]. cbn [mbind option_bind] in Hp.
  destruct (parse_route_risk k) as [k'|] eqn:Hk; [|done]. cbn [mbind option_bind] in Hp.
  destruct (TaskFamily_parse_key f) as [f'|] eqn:Hf; [|done]. cbn [mbind option_bind] in Hp.
  destruct (NextStepRole_parse_key r) as [r'|] eqn:Hr; [|done]. injection Hp as <-.
  apply parse_route_risk_Some in Hk as ->. apply TaskFamily_parse_Some in Hf as ->.
  by apply NextStepRole_parse_Some in Hr as ->.
Qed.

(** The parser of the configuration accepts a text exactly when the runtime's own parser does. *)
Lemma config_parser_agrees value :
  is_Some (parse_semantic_route_key value) ↔ is_Some (PredictiveRouteProjection_parse_key value).
Proof.
  unfold PredictiveRouteProjection_parse_key. split.
  - intros [[[f r] k] Hp]. rewrite Hp. cbn [mbind option_bind]. unfold parse_semantic_route_key in Hp.
    destruct (split_on _ _) as [|ns [|f' [|r' [|k' [|]]]]]; try done.
    destruct (_ || _) eqn:E; [done|]. injection Hp as -> -> ->.
    rewrite !orb_false_iff, !negb_false_iff, !bool_decide_eq_true in E. destruct E as [[[_ Hf] Hr] Hk].
    assert (is_Some (parse_route_risk k)) as [k' ->].
    { unfold known_risks in Hk. rewrite !elem_of_cons in Hk.
      destruct Hk as [-> | [-> | [-> | []%not_elem_of_nil]]]; by eexists. }
    assert (is_Some (TaskFamily_parse_key f)) as [f' ->].
    { unfold known_families in Hf. rewrite !elem_of_cons in Hf.
      destruct_or! Hf; try subst f; try (by eexists). by apply not_elem_of_nil in Hf. }
    assert (is_Some (NextStepRole_parse_key r)) as [r' ->]; [|by eexists].
    unfold known_roles in Hr. rewrite !elem_of_cons in Hr.
    destruct_or! Hr; try subst r; try (by eexists). by apply not_elem_of_nil in Hr.
  - destruct (parse_semantic_route_key value) as [[[f r] k]|]; [done|]. by intros [].
Qed.

(** The keys of semantic routes are canonical: every projection's key parses back to it, a text that
    parses is the key of the result, and the parser that validates a configuration accepts the same texts. *)
Theorem semantic_key_roundtrip value p :
  (PredictiveRouteProjection_parse_key value = Some p ↔ value = PredictiveRouteProjection_key p) ∧
  (is_Some (parse_semantic_route_key value) ↔ ∃ p, value = PredictiveRouteProjection_key p).
Proof.
  assert (∀ p, PredictiveRouteProjection_parse_key value = Some p ↔ value = PredictiveRouteProjection_key p) as Hp.
  { intros q. split; [apply semantic_parse_inverse|]. intros ->. apply semantic_parse_of_key. }
  split; [done|]. rewrite config_parser_agrees. split.
  - intros [q Hq]. exists q. by apply Hp.
  - intros [q Hq]. exists q. by apply Hp.
Qed.

Section online_lemmas.
Context `{AssessmentEnv}.

Lemma routing_key_parses observed prompt assessment :
  PredictiveRouteProjection_parse_key (routing_key (from_assessment observed prompt assessment)) =
  Some (predictive_projection (assessed assessment)).
Proof. apply semantic_parse_of_key. Qed.
Lemma baseline_key_spelled observed prompt assessment :
  baseline_routing_key (from_assessment observed prompt assessment) =
  PredictiveRouteProjection_key (unknown_baseline (predictive_projection (assessed assessment))).
Proof. done. Qed.
End online_lemmas.
