(* ===== verification/PolicyLock.v ===== *)
(** Named routing policies as a lock holds them, the routing experiment of a policy, and the checks that a
    policy passes before it is served ([apps/bitrouter/src/policy_lock.rs], the table's own checks in
    [config/mod.rs], the experiment's types in [gateway/routing/exploration.rs]).

    A map is a [gmap] that is checked in the order of its keys; where the source walks a [HashMap] the order
    only decides which of several errors is reported. Errors keep the innermost message. *)
From Stdlib Require Import ZArith Lia Ascii.
From stdpp Require Import base list strings gmap pretty.
From S2P Require Import Prelude EvalMeasurement ProgressGuard SemanticInput SemanticAssessment SemanticRoute.
Open Scope string_scope.
Open Scope list_scope.
Open Scope Z_scope.

(** ** Policies *)

Record PolicyModelTarget := {
  target_model : string; target_effort : option ReasoningEffort; target_context : ContextStrategy;
}.
#[export] Instance PolicyModelTarget_eq_dec : EqDecision PolicyModelTarget. Proof. solve_decision. Defined.

Inductive OptimizationObjective := Cost | Latency.
Record OptimizationGate := {
  gate_objective : OptimizationObjective; minimum_tasks_per_arm : Z; maximum_challenger_tasks : Z;
  minimum_pass_rate_ppm : Z; gate_evaluator_config_digest : option string;
}.
Record RouteExploration := {
  exploration_id : string; target_request_key : string; champion_tier : string; challenger_tier : string;
  challenger_exposure_ppm : Z; gate : OptimizationGate;
}.
Record RouteRejection := {
  rejected_experiment_id : string; rejected_request_key : option string;
  treatment_context_digest : option string; treatment : option RouteExploration;
  experiment_parent_digest : option string; source_policy_digest : option string;
  evidence_root : string; rejection_reason : string;
}.
Record PolicyOptimizationState := { active : option RouteExploration; rejections : list RouteRejection }.
Record PredictorContract := {
  algorithm : string; contract_version : Z; config_digest : string; contract_confidence_kind : string;
  calibration_digest : option string;
}.
#[export] Instance PredictorContract_eq_dec : EqDecision PredictorContract. Proof. solve_decision. Defined.

(** The fields of the offline compiler's thresholds that a check reads. *)
Record AdequacyConfig := {
  adequacy_enabled : bool; adequacy_escalation_tier : option string; reliability_window_size : Z;
  reliability_consecutive_failures : Z; reliability_error_rate_percent : Z; explore_enabled : bool;
  explore_tier : option string;
}.
Record PolicyTableConfig := {
  tiers : gmap string PolicyModelTarget; fingerprints : gmap string string; default_tier : option string;
  tool_use_tier : option string; tool_safe_tiers : list string; adequacy : AdequacyConfig;
}.
Record PolicyDefinition := {
  policy_tiers : gmap string PolicyModelTarget; routes : gmap string string;
  policy_default_tier : option string; policy_tool_use_tier : option string;
  policy_tool_safe_tiers : list string; progress_guard : option ProgressGuardPolicy;
  predictor : option PredictorContract; optimization : option PolicyOptimizationState;
  policy_adequacy : AdequacyConfig;
}.

(** [PolicyRuntimeMode::apply_to_adequacy] is the same in every mode. *)
Definition apply_to_adequacy (configured : AdequacyConfig) : AdequacyConfig := {|
  adequacy_enabled := false; adequacy_escalation_tier := adequacy_escalation_tier configured;
  reliability_window_size := reliability_window_size configured;
  reliability_consecutive_failures := reliability_consecutive_failures configured;
  reliability_error_rate_percent := reliability_error_rate_percent configured; explore_enabled := false;
  explore_tier := explore_tier configured |}.
Definition as_table_config (p : PolicyDefinition) : PolicyTableConfig := {|
  tiers := policy_tiers p; fingerprints := routes p; default_tier := policy_default_tier p;
  tool_use_tier := policy_tool_use_tier p; tool_safe_tiers := policy_tool_safe_tiers p;
  adequacy := apply_to_adequacy (policy_adequacy p) |}.

(** The tier of a projection and the key that selected it. *)
Definition resolve_predictive_route (p : PolicyDefinition) (route_projection : string)
    : option (string * string) :=
  projection ← PredictiveRouteProjection_parse_key route_projection;
  match routes p !! route_projection with
  | Some tier => Some (tier, route_projection)
  | None =>
      let baseline_key := PredictiveRouteProjection_key (unknown_baseline projection) in
      match routes p !! baseline_key with
      | Some tier => Some (tier, baseline_key)
      | None => tier ← policy_default_tier p; Some (tier, route_projection)
      end
  end.

(** ** The checks of a table *)

Definition check_tier (policy : PolicyTableConfig) (role tier : string) : result string unit :=
  ensure (is_some (tiers policy !! tier)) ("policy_table " +:+ role +:+ " references unknown tier '" +:+ tier +:+ "'").
Definition check_optional_tier (policy : PolicyTableConfig) (role : string) (tier : option string)
    : result string unit :=
  match tier with Some tier => check_tier policy role tier | None => Ok tt end.
Definition validate_policy_table_config (policy : PolicyTableConfig) : result string unit :=
  _ ← for_each (λ '(fingerprint, _),
        ensure (is_some (parse_semantic_route_key fingerprint))
          ("policy_table fingerprint '" +:+ fingerprint +:+
           "' is not a canonical semantic_route/v1|<task-family>|<role>|<risk> key"))
        (sorted_entries (fingerprints policy));
  if bool_decide (tiers policy = ∅) then Ok tt else
  _ ← for_each (λ '(fingerprint, tier), check_tier policy ("fingerprint '" +:+ fingerprint +:+ "'") tier)
        (sorted_entries (fingerprints policy));
  _ ← check_optional_tier policy "default_tier" (default_tier policy);
  _ ← check_optional_tier policy "tool_use_tier" (tool_use_tier policy);
  _ ← for_each (check_tier policy "tool_safe_tiers entry") (tool_safe_tiers policy);
  _ ← match tool_use_tier policy with
      | Some tier => ensure (bool_decide (tier ∈ tool_safe_tiers policy))
          ("policy_table tool_use_tier '" +:+ tier +:+ "' must also be listed in tool_safe_tiers")
      | None => Ok tt end;
  let a := adequacy policy in
  _ ← ensure (negb (reliability_window_size a =? 0))
        "policy_table.adequacy.reliability_window_size must be positive";
  _ ← ensure (negb (reliability_consecutive_failures a =? 0))
        "policy_table.adequacy.reliability_consecutive_failures must be positive";
  _ ← ensure ((1 <=? reliability_error_rate_percent a) && (reliability_error_rate_percent a <=? 100))
        "policy_table.adequacy.reliability_error_rate_percent must be between 1 and 100";
  _ ← check_optional_tier policy "adequacy.escalation_tier" (adequacy_escalation_tier a);
  _ ← ensure (negb (adequacy_enabled a && negb (is_some (adequacy_escalation_tier a)) &&
                    negb (is_some (default_tier policy))))
        "policy_table.adequacy is enabled but no escalation target is set: set adequacy.escalation_tier or default_tier";
  _ ← check_optional_tier policy "adequacy.explore_tier" (explore_tier a);
  _ ← ensure (negb (explore_enabled a && negb (is_some (explore_tier a))))
        "policy_table.adequacy.explore_enabled is set but adequacy.explore_tier is not";
  ensure (negb (explore_enabled a && negb (adequacy_enabled a)))
    "policy_table.adequacy.explore_enabled requires adequacy.enabled".

(** ** The checks of a policy *)

Definition is_reserved (model : string) : bool := starts_with "bitrouter/" model.
Definition valid_name_char (c : N) : bool :=
  is_ascii_digit c || is_ascii_lowercase c || is_ascii_uppercase c || bool_decide (c ∈ [95; 45; 46]%N).
Definition valid_policy_name_segment (segment : string) : bool :=
  negb (is_empty segment) && negb (starts_with "." segment) &&
  negb (existsb (λ c, is_whitespace c || negb (valid_name_char c)) (chars segment)).
Definition validate_name (name : string) : result string unit :=
  ensure (match split_on ":"%char name with
          | [base] => valid_policy_name_segment base
          | [base; variant] => valid_policy_name_segment base && valid_policy_name_segment variant
          | _ => false
          end)
    ("invalid policy name '" +:+ name +:+ "' (use base or base:variant; each segment accepts letters, digits, '.', '_' or '-', without a leading '.')").

(** The loop over the tiers: [model_tiers] holds the targets that were seen. *)
Definition validate_target (name : string) (model_tiers : list (PolicyModelTarget * string))
    (entry : string * PolicyModelTarget) : result string (list (PolicyModelTarget * string)) :=
  let '(tier, target) := entry in
  let model := target_model target in
  _ ← ensure (negb (trim_is_empty model))
        ("policy '" +:+ name +:+ "' tier '" +:+ tier +:+ "' must use a non-empty model id");
  _ ← ensure (negb (starts_with "@" model || is_reserved model))
        ("policy '" +:+ name +:+ "' tier target '" +:+ model +:+ "' cannot reference another preset");
  match list_find (λ seen, seen.1 = target) model_tiers with
  | Some (_, (_, previous)) =>
      Err ("policy '" +:+ name +:+ "' tiers '" +:+ previous +:+ "' and '" +:+ tier +:+
           "' use the same model/effort target '" +:+ model +:+ "'")
  | None => Ok ((target, tier) :: model_tiers)
  end.

Definition validate_progress_guard (name : string) (policy : PolicyDefinition) (guard : ProgressGuardPolicy)
    : result string unit :=
  let defined tier := is_some (policy_tiers policy !! tier) in
  _ ← ensure (negb (trim_is_empty (escalation_tier guard) || negb (defined (escalation_tier guard))))
        ("policy '" +:+ name +:+ "' progress_guard escalation_tier must reference a defined tier");
  _ ← ensure (negb (bool_decide (protected_tiers guard = ∅) ||
                    negb (bool_decide (escalation_tier guard ∈ protected_tiers guard))))
        ("policy '" +:+ name +:+ "' progress_guard protected_tiers must be non-empty and contain escalation_tier");
  _ ← for_each (λ tier, ensure (defined tier)
          ("policy '" +:+ name +:+ "' progress_guard protected tier '" +:+ tier +:+ "' is not defined"))
        (sort (elements (protected_tiers guard)));
  _ ← match policy_tool_use_tier policy with
      | Some floor => ensure (bool_decide (floor ∈ protected_tiers guard))
          ("policy '" +:+ name +:+ "' progress_guard protected_tiers must contain tool_use_tier '" +:+ floor +:+ "'")
      | None => Ok tt end;
  _ ← ensure (negb ((hold_for_requests guard =? 0) || (u32_max <? hold_for_requests guard)))
        ("policy '" +:+ name +:+ "' progress_guard hold_for_requests must be in 1..=u32::MAX");
  ensure (forallb (is_none_or (λ value, negb (value =? 0)))
    [max_consecutive_unprotected guard; max_same_projection_unprotected guard; max_recovery_count guard;
     max_episode_requests guard; max_episode_elapsed_ms guard; max_episode_cost_micro_usd guard])
    ("policy '" +:+ name +:+ "' progress_guard thresholds must be positive").

Definition validate_predictive_route_keys (name : string) (policy : PolicyDefinition) : result string unit :=
  for_each (λ '(route_key, _),
    ensure (is_some (PredictiveRouteProjection_parse_key route_key))
      ("policy '" +:+ name +:+ "' route '" +:+ route_key +:+
       "' is not a canonical semantic_route/v1|<task-family>|<role>|<risk> key"))
    (sorted_entries (routes policy)).

Definition in_ppm (v : Z) : bool := (1 <=? v) && (v <=? 1000000).
(** [validate_sha256_digest] is [validate_digest] under another name. *)
Definition validate_optional_digest (field : string) (value : option string) : result string unit :=
  match value with Some digest => validate_digest digest field | None => Ok tt end.
Definition validate_optimization_gate (name : string) (g : OptimizationGate) : result string unit :=
  _ ← ensure (negb ((minimum_tasks_per_arm g =? 0) || (maximum_challenger_tasks g =? 0)))
        ("policy '" +:+ name +:+ "' optimization sample budgets must be positive");
  _ ← ensure (negb (maximum_challenger_tasks g <? minimum_tasks_per_arm g))
        ("policy '" +:+ name +:+ "' optimization maximum_challenger_tasks must cover minimum_tasks_per_arm");
  _ ← ensure (in_ppm (minimum_pass_rate_ppm g))
        ("policy '" +:+ name +:+ "' optimization minimum_pass_rate_ppm must be between 1 and 1000000");
  validate_optional_digest "optimization evaluator_config_digest" (gate_evaluator_config_digest g).
Definition validate_route_exploration_intrinsic (name : string) (policy : PolicyDefinition)
    (exploration : RouteExploration) : result string unit :=
  _ ← validate_digest (exploration_id exploration) "optimization experiment_id";
  _ ← ensure (is_some (PredictiveRouteProjection_parse_key (target_request_key exploration)))
        ("policy '" +:+ name +:+ "' optimization target_request_key must name a canonical route");
  _ ← for_each (λ '(label, tier),
        ensure (is_some (policy_tiers policy !! tier))
          ("policy '" +:+ name +:+ "' optimization " +:+ label +:+ " must reference a defined tier"))
        [("champion_tier", champion_tier exploration); ("challenger_tier", challenger_tier exploration)];
  _ ← ensure (negb (bool_decide (champion_tier exploration = challenger_tier exploration)))
        ("policy '" +:+ name +:+ "' optimization treatments must differ");
  _ ← ensure (in_ppm (challenger_exposure_ppm exploration))
        ("policy '" +:+ name +:+ "' optimization challenger_exposure_ppm must be between 1 and 1000000");
  validate_optimization_gate name (gate exploration).
Definition validate_route_exploration (name : string) (policy : PolicyDefinition)
    (exploration : RouteExploration) : result string unit :=
  _ ← validate_route_exploration_intrinsic name policy exploration;
  ensure (bool_decide (option_map fst (resolve_predictive_route policy (target_request_key exploration))
                       = Some (champion_tier exploration)))
    ("policy '" +:+ name +:+ "' optimization target_request_key must resolve to champion_tier").
Definition validate_rejection (name : string) (policy : PolicyDefinition) (r : RouteRejection)
    : result string unit :=
  _ ← validate_digest (rejected_experiment_id r) "optimization rejection experiment_id";
  _ ← validate_optional_digest "optimization rejection treatment_context_digest" (treatment_context_digest r);
  _ ← validate_optional_digest "optimization rejection experiment_parent_digest" (experiment_parent_digest r);
  _ ← validate_optional_digest "optimization rejection source_policy_digest" (source_policy_digest r);
  _ ← match treatment r with
      | Some t => validate_route_exploration_intrinsic name policy t | None => Ok tt end;
  _ ← validate_digest (evidence_root r) "optimization rejection evidence_root";
  ensure (negb (trim_is_empty (rejection_reason r) || (512 <? len (rejection_reason r))))
    ("policy '" +:+ name +:+ "' optimization rejection reason is invalid").
Definition validate_optimization_state (name : string) (policy : PolicyDefinition) : result string unit :=
  match optimization policy with
  | None => Ok tt
  | Some st =>
      _ ← ensure (negb (256 <? Z.of_nat (length (rejections st))))
            ("policy '" +:+ name +:+ "' optimization rejections exceed 256 records");
      _ ← for_each (validate_rejection name policy) (rejections st);
      match active st with
      | Some exploration => validate_route_exploration name policy exploration | None => Ok tt end
  end.

Section validate.
Context `{AssessmentEnv}.

Definition compiled_predictor_contract : PredictorContract := {|
  algorithm := "system_one"; contract_version := 1; config_digest := current_contract_digest;
  contract_confidence_kind := "provider_probability"; calibration_digest := None |}.
Definition validate_predictor_contract (name : string) (policy : PolicyDefinition) : result string unit :=
  let uses_predictive_routes := existsb (starts_with "semantic_route/") (sorted_keys (routes policy)) in
  if negb uses_predictive_routes && negb (is_some (predictor policy)) then Ok tt else
  actual ← ok_or (predictor policy)
    ("policy '" +:+ name +:+ "' uses semantic_route routes but is missing its signed predictor contract (expected " +:+
     current_contract_digest +:+ ")");
  ensure (bool_decide (actual = compiled_predictor_contract))
    ("policy '" +:+ name +:+ "' predictor contract does not match this BitRouter binary (expected " +:+
     current_contract_digest +:+ ")").

(** The body of the loop over the policies of [validate_document]. *)
Definition validate_policy (name : string) (policy : PolicyDefinition) : result string unit :=
  let config := as_table_config policy in
  _ ← validate_name name;
  _ ← validate_policy_table_config config;
  _ ← ensure (negb (bool_decide (tiers config = ∅))) ("policy '" +:+ name +:+ "' must define at least one tier");
  _ ← try_fold (validate_target name) [] (sorted_entries (tiers config));
  _ ← match progress_guard policy with
      | Some guard => validate_progress_guard name policy guard | None => Ok tt end;
  _ ← validate_predictive_route_keys name policy;
  _ ← validate_predictor_contract name policy;
  validate_optimization_state name policy.
End validate.

(** ** Theorems *)

(** What a validated table promises to the router. *)
Record table_ok (c : PolicyTableConfig) : Prop := {
  tok_routes : ∀ k t, fingerprints c !! k = Some t → is_Some (tiers c !! t);
  tok_default : ∀ t, default_tier c = Some t → is_Some (tiers c !! t);
  tok_floor : ∀ t, tool_use_tier c = Some t → is_Some (tiers c !! t) ∧ t ∈ tool_safe_tiers c;
  tok_safe : ∀ t, t ∈ tool_safe_tiers c → is_Some (tiers c !! t);
}.
(** What a validated experiment promises. *)
Record exploration_ok (p : PolicyDefinition) (e : RouteExploration) : Prop := {
  eok_key : is_Some (PredictiveRouteProjection_parse_key (target_request_key e));
  eok_champion : is_Some (policy_tiers p !! champion_tier e);
  eok_challenger : is_Some (policy_tiers p !! challenger_tier e);
  eok_differ : champion_tier e ≠ challenger_tier e;
  eok_exposure : 1 ≤ challenger_exposure_ppm e ≤ 1000000;
  eok_resolves : option_map fst (resolve_predictive_route p (target_request_key e)) = Some (champion_tier e);
}.
(** What a validated policy promises. *)
Record policy_ok (p : PolicyDefinition) : Prop := {
  pok_table : table_ok (as_table_config p);
  pok_models : ∀ t x, policy_tiers p !! t = Some x → trim_is_empty (target_model x) = false;
  pok_targets : ∀ t1 t2 x, policy_tiers p !! t1 = Some x → policy_tiers p !! t2 = Some x → t1 = t2;
  pok_exploration : ∀ o e, optimization p = Some o → active o = Some e → exploration_ok p e;
  pok_guard : ∀ g, progress_guard p = Some g →
    escalation_tier g ∈ protected_tiers g ∧ ∀ t, t ∈ protected_tiers g → is_Some (policy_tiers p !! t);
}.

Lemma check_tier_ok c r t u : check_tier c r t = Ok u ↔ is_Some (tiers c !! t).
Proof. unfold check_tier. rewrite ensure_ok. unfold is_some. by rewrite bool_decide_eq_true. Qed.
Lemma check_optional_tier_ok c r o u :
  check_optional_tier c r o = Ok u → ∀ t, o = Some t → is_Some (tiers c !! t).
Proof. intros H t ->. by apply check_tier_ok in H. Qed.
Lemma for_each_entries {A} (f : string * A → result string unit) (m : gmap string A) u k x :
  for_each f (sorted_entries m) = Ok u → m !! k = Some x → f (k, x) = Ok tt.
Proof.
  intros Hf Hk. apply for_each_ok in Hf. rewrite Forall_forall in Hf. by apply Hf, elem_of_sorted_entries.
Qed.

Lemma validated_table_ok c : tiers c ≠ ∅ → validate_policy_table_config c = Ok tt → table_ok c.
Proof.
  intros Hne Hv. unfold validate_policy_table_config in Hv. apply bind_ok in Hv as (? & _ & Hv).
  rewrite bool_decide_eq_false_2 in Hv by done.
  apply bind_ok in Hv as (? & Hr & Hv). apply bind_ok in Hv as (? & Hd & Hv).
  apply bind_ok in Hv as (? & Hu & Hv). apply bind_ok in Hv as (? & Hs & Hv). apply bind_ok in Hv as (? & Hf & _).
  split.
  - intros k t Hk. apply (for_each_entries _ _ _ _ _ Hr) in Hk. by apply check_tier_ok in Hk.
  - by eapply check_optional_tier_ok.
  - intros t Ht. rewrite Ht in Hf. apply ensure_ok, bool_decide_eq_true in Hf.
    split; [by eapply check_optional_tier_ok|done].
  - intros t Ht. apply for_each_ok in Hs. rewrite Forall_forall in Hs. by apply Hs, check_tier_ok in Ht.
Qed.

Lemma validate_targets_ok name l seen st :
  try_fold (validate_target name) seen l = Ok st →
  Forall (λ kx, trim_is_empty (target_model kx.2) = false) l ∧
  Forall (λ kx, kx.2 ∉ seen.*1) l ∧ NoDup l.*2.
Proof.
  revert seen. induction l as [|[t x] l IH]; intros seen; cbn [try_fold].
  { intros _. split_and!; constructor. }
  intros (s & Hs & Hl)%bind_ok. unfold validate_target in Hs.
  apply bind_ok in Hs as (? & Hm%ensure_ok & Hs). apply bind_ok in Hs as (? & _ & Hs).
  apply negb_true_iff in Hm. destruct (list_find _ seen) as [[? [? ?]]|] eqn:Hx; [done|]. injection Hs as <-.
  apply IH in Hl as (Hl1 & Hl2 & Hnd). apply list_find_None in Hx. rewrite Forall_forall in Hx.
  assert (x ∉ seen.*1) as Hxs.
  { intros ([y z] & -> & Hy)%list_elem_of_fmap. by apply (Hx _ Hy). }
  cbn. rewrite !Forall_cons. split_and!; [done|done|done| |].
  - eapply Forall_impl; [exact Hl2|]. cbn. intros y Hy. set_solver.
  - constructor; [|done]. intros (y & Hy & Hin)%list_elem_of_fmap.
    rewrite Forall_forall in Hl2. specialize (Hl2 y Hin). cbn in Hl2. set_solver.
Qed.

Section validate_lemmas.
Context `{AssessmentEnv}.

Lemma validated_exploration_ok name p e : validate_route_exploration name p e = Ok tt → exploration_ok p e.
Proof.
  unfold validate_route_exploration, validate_route_exploration_intrinsic. intros (? & Hi & Hr)%bind_ok.
  apply ensure_ok, bool_decide_eq_true in Hr.
  apply bind_ok in Hi as (? & _ & Hi). apply bind_ok in Hi as (? & Hk%ensure_ok & Hi).
  apply bind_ok in Hi as (? & Ht & Hi). apply bind_ok in Hi as (? & Hd%ensure_ok & Hi).
  apply bind_ok in Hi as (? & Hx%ensure_ok & _).
  apply for_each_ok in Ht. apply Forall_cons in Ht as [H1 H2]. apply Forall_cons in H2 as [H2 _].
  unfold is_some, in_ppm in *. arith.
  apply ensure_ok, bool_decide_eq_true in H1. apply ensure_ok, bool_decide_eq_true in H2. split; try done; lia.
Qed.

Lemma validated_guard_ok name p g : validate_progress_guard name p g = Ok tt →
  escalation_tier g ∈ protected_tiers g ∧ ∀ t, t ∈ protected_tiers g → is_Some (policy_tiers p !! t).
Proof.
  unfold validate_progress_guard. intros ([] & _ & Hv)%bind_ok. apply bind_ok in Hv as ([] & He%ensure_ok & Hv).
  apply bind_ok in Hv as ([] & Ht & _). apply negb_true_iff, orb_false_iff in He as [_ He].
  apply negb_false_iff, bool_decide_eq_true in He. split; [done|]. intros t Hin.
  apply for_each_ok in Ht. rewrite Forall_forall in Ht.
  specialize (Ht t). unfold sort in Ht. rewrite sort_by_key_perm in Ht.
  apply elem_of_elements, Ht, ensure_ok, bool_decide_eq_true in Hin. done.
Qed.

Lemma validated_policy_ok name p : validate_policy name p = Ok tt → policy_ok p.
Proof.
  unfold validate_policy. intros ([] & _ & Hv)%bind_ok. apply bind_ok in Hv as ([] & Ht & Hv).
  apply bind_ok in Hv as ([] & Hne%ensure_ok & Hv). apply bind_ok in Hv as (st & Htg & Hv).
  apply bind_ok in Hv as ([] & Hg & Hv). apply bind_ok in Hv as ([] & _ & Hv). apply bind_ok in Hv as ([] & _ & Hv).
  apply negb_true_iff, bool_decide_eq_false in Hne.
  apply validate_targets_ok in Htg as (Hm & _ & Hnd). rewrite Forall_forall in Hm. split.
  - by apply validated_table_ok.
  - intros t x Hx. by apply (Hm (t, x)), elem_of_sorted_entries.
  - intros t1 t2 x H1 H2. apply elem_of_sorted_entries in H1, H2.
    apply list_elem_of_lookup in H1 as [i Hi], H2 as [j Hj].
    assert ((sorted_entries (tiers (as_table_config p))).*2 !! i = Some x) as Hi' by (rewrite list_lookup_fmap; cbn; by rewrite Hi).
    assert ((sorted_entries (tiers (as_table_config p))).*2 !! j = Some x) as Hj' by (rewrite list_lookup_fmap; cbn; by rewrite Hj).
    pose proof (NoDup_lookup _ _ _ _ Hnd Hi' Hj') as ->. cbn in *. congruence.
  - intros o e Ho He. unfold validate_optimization_state in Hv. rewrite Ho in Hv.
    apply bind_ok in Hv as ([] & _ & Hv). apply bind_ok in Hv as ([] & _ & Hv). rewrite He in Hv.
    by eapply validated_exploration_ok.
  - intros g Hpg. rewrite Hpg in Hg. by eapply validated_guard_ok.
Qed.
End validate_lemmas.
