(* ===== verification/PolicyTable.v ===== *)
(** The policy table and the routing decision of one request
    ([apps/bitrouter/src/policy_table_router.rs], the experiment's assignment in
    [gateway/routing/exploration.rs]): the tier that a semantic key selects, the arm of a matching
    experiment, the tool floor, and the measurement that logs the action's distribution.

    A decision keeps the serving state whole, of which the code copies the diagnostics one by one; the
    constants of a frozen table ([request_qualified], [trialed], ...) are left out. Logging is left out. *)
From Stdlib Require Import ZArith Lia Ascii.
From stdpp Require Import base list strings gmap pretty sorting.
From S2P Require Import Prelude RouteIr EvalMeasurement TrajectoryTypes ModelHistory ProgressGuard SemanticInput.
From S2P Require Import SemanticAssessment SemanticRoute PolicyLock.
Open Scope string_scope.
Open Scope list_scope.
Open Scope Z_scope.

(** ** Assignment *)

Definition ASSIGNMENT_DOMAIN : string := "bitrouter.route-exploration.assignment.v1".
Definition NUL : string := String "000" "".
Definition non_empty (o : option string) : option string := s ← o; if is_empty s then None else Some s.
Definition assignment_unit_name (u : ExperimentAssignmentUnit) : string :=
  match u with EvalMeasurement.Task => "task" | EvalMeasurement.Episode => "episode" end.
Definition hex_value (a : ascii) : Z :=
  let b := Z.of_N (byte a) in if b <? 58 then b - 48 else if b <? 97 then b - 55 else b - 87.
(** [u64::from_be_bytes] of the first eight bytes of a digest: its first sixteen digits. *)
Definition leading_u64 (hex : string) : Z := foldl (λ v a, 16 * v + hex_value a) 0 (take 16 (bytes hex)).

Definition stable_identity (w : WorkflowIdentity) : option (ExperimentAssignmentUnit * string) :=
  let benchmark :=
    run ← non_empty (benchmark_run_id w); trial ← non_empty (trial_id w);
    Some (EvalMeasurement.Task, run +:+ NUL +:+ trial) in
  match benchmark with
  | Some identity => Some identity
  | None => parent ← non_empty (parent_session_id w); Some (EvalMeasurement.Episode, parent)
  end.

Section assignment.
Context `{Sha256}.

Definition bucket (experiment : string) (unit : ExperimentAssignmentUnit) (id : string) : Z :=
  leading_u64 (sha256_hex (ASSIGNMENT_DOMAIN +:+ NUL +:+ experiment +:+ NUL +:+
                           assignment_unit_name unit +:+ NUL +:+ id)) mod 1000000.
Definition assignment_for (e : RouteExploration) (unit : ExperimentAssignmentUnit) (id : string)
    : EvalExperimentRef := {|
  experiment_id := exploration_id e;
  arm := if bucket (exploration_id e) unit id <? challenger_exposure_ppm e then Challenger else Control;
  assignment_unit := unit; assignment_id_digest := "sha256:" +:+ sha256_hex id;
  challenger_propensity_ppm := challenger_exposure_ppm e |}.
Definition assignment (e : RouteExploration) (w : WorkflowIdentity) : option EvalExperimentRef :=
  '(unit, id) ← stable_identity w; Some (assignment_for e unit id).
End assignment.

(** ** The table *)

Record PolicyTable := {
  table_tiers : gmap string PolicyModelTarget; table_fingerprints : gmap string string;
  table_default_tier : option string; table_tool_use_tier : option string;
  table_tool_safe_tiers : list string;
}.
Definition from_config (c : PolicyTableConfig) : option PolicyTable :=
  if bool_decide (tiers c = ∅) then None else
  Some {| table_tiers := tiers c; table_fingerprints := fingerprints c; table_default_tier := default_tier c;
          table_tool_use_tier := tool_use_tier c; table_tool_safe_tiers := tool_safe_tiers c |}.
Definition inert : PolicyTable := {|
  table_tiers := ∅; table_fingerprints := ∅; table_default_tier := None; table_tool_use_tier := None;
  table_tool_safe_tiers := [] |}.

Definition tier_for_workflow (t : PolicyTable) (primary baseline : string) (admitted : string → bool)
    : option (string * string) :=
  let route key := tier ← table_fingerprints t !! key; if admitted key then Some (tier, key) else None in
  match route primary with
  | Some hit => Some hit
  | None => match route baseline with
            | Some hit => Some hit
            | None => tier ← table_default_tier t; Some (tier, primary)
            end
  end.
(** The tier after the tool floor, and whether it changed. *)
Definition guardrail_with_status (t : PolicyTable) (tier : string) (prompt : Prompt) : string * bool :=
  if negb (bool_decide (length (tools prompt) = 0)%nat) && negb (bool_decide (tier ∈ table_tool_safe_tiers t)) then
    match table_tool_use_tier t with
    | Some floor => (floor, negb (bool_decide (floor = tier)))
    | None => (tier, false)
    end
  else (tier, false).
Definition target_of_tier (t : PolicyTable) (tier : string) : option PolicyModelTarget := table_tiers t !! tier.
Definition model_of_tier (t : PolicyTable) (tier : string) : option string :=
  option_map target_model (target_of_tier t tier).
Definition effort_of_tier (t : PolicyTable) (tier : string) : option ReasoningEffort :=
  target_of_tier t tier ≫= target_effort.
(** [Option::or] *)
Definition or_else {A} (a b : option A) : option A := match a with Some x => Some x | None => b end.

(** [Iterator::min], whatever the order of the map. *)
Definition least (l : list string) : option string := head (sort l).
Definition tiers_where (t : PolicyTable) (f : PolicyModelTarget → bool) : list string :=
  map fst (List.filter (λ kv, f kv.2) (map_to_list (table_tiers t))).
Definition is_target (model : string) (effort : option ReasoningEffort) (context : ContextStrategy)
    (x : PolicyModelTarget) : bool :=
  bool_decide (target_model x = model) && bool_decide (target_effort x = effort) &&
  bool_decide (target_context x = context).
Definition stable_tier_of_target (t : PolicyTable) (model : string) (effort : option ReasoningEffort)
    (context : ContextStrategy) : option string :=
  or_else (least (tiers_where t (is_target model effort context)))
          (least (tiers_where t (is_target model None context))).

Definition logging_probability (randomized : option RouteExploration) (action tier : string) : Z :=
  match randomized with
  | Some e =>
      if bool_decide (tier = champion_tier e) then saturating_sub 1000000 (challenger_exposure_ppm e)
      else if bool_decide (tier = challenger_tier e) then challenger_exposure_ppm e else 0
  | None => if bool_decide (tier = action) then 1000000 else 0
  end.
Definition action_candidate (randomized : option RouteExploration) (action : string)
    (input_effort : option ReasoningEffort) (entry : string * PolicyModelTarget) : RouteActionCandidate :=
  let '(tier_name, target) := entry in {|
  context := target_context target; tier := tier_name; EvalMeasurement.model := target_model target;
  effort := or_else (target_effort target) input_effort;
  logging_probability_ppm := logging_probability randomized action tier_name |}.

Section router.
Context `{AssessmentEnv, CanonicalJson (string * list CandidateKey)}.

Definition route_measurement (t : PolicyTable) (action : string) (input_effort : option ReasoningEffort)
    (exploration : option RouteExploration) (assignment : option EvalExperimentRef)
    : result string RouteDecisionMeasurement :=
  let randomized := e ← exploration; _ ← assignment; Some e in
  let candidates := map (action_candidate randomized action input_effort) (map_to_list (table_tiers t)) in
  target ← ok_or (target_of_tier t action) "logging action tier is absent from the policy snapshot";
  route_decision_measurement action (target_model target) (or_else (target_effort target) input_effort) candidates.

(** ** The router *)

Record EvalDecisionObserver := {
  observer_policy : string; observer_policy_digest : string; route_baselines : gmap string string;
  default_baseline : option string;
}.
Record PolicyTableRouter := {
  table : PolicyTable; state_namespace : option string; eval_observer : option EvalDecisionObserver;
  router_guard : option ProgressGuardPolicy; exploration : option RouteExploration;
  classifier_constraints : gmap string string;
}.
(** The fields of a certificate that routing reads. *)
Record PolicyCertificate := { classifier : option string; certified_tier : string; certified_baseline : option string }.
(** The loop body of [prepare_loaded]: the router of one policy of a loaded lock. *)
Definition prepare_router (name : string) (definition : PolicyDefinition)
    (certificates : gmap string PolicyCertificate) (digest : string) : result string PolicyTableRouter :=
  t ← ok_or (from_config (as_table_config definition)) ("policy '" +:+ name +:+ "' is inert");
  Ok {| table := t; state_namespace := Some name;
        eval_observer := Some {|
          observer_policy := name; observer_policy_digest := digest;
          route_baselines := omap certified_baseline certificates;
          default_baseline := policy_default_tier definition |};
        router_guard := progress_guard definition;
        exploration := o ← optimization definition; active o;
        classifier_constraints := omap classifier certificates |}.

(** ** Decisions *)

Inductive PolicyDecisionReason :=
| StaticTable | ToolGuardrail | ProgressGuardApplied | ProgressGuardToolGuardrail | ContinuationPin | NoMatch.
Record PolicyDecision := {
  policy_snapshot : PolicyTable; request_key : string; route_projection : string;
  observed_route_projection : string; online : OnlineWorkflowState; input_effort : option ReasoningEffort;
  static_tier : option string; static_model : option string; static_effort : option ReasoningEffort;
  selected_tier : option string; selected_model : option string; selected_effort : option ReasoningEffort;
  continuation_proposed_tier : option string; continuation_proposed_model : option string;
  continuation_proposed_effort : option ReasoningEffort; continuation_adjustment : option string;
  reason : PolicyDecisionReason; pinned : bool; trajectory_episode_id : option string;
  trajectory_sequence : option Z; trajectory_completeness : option HistoryCompleteness;
  trajectory_health_digest : option string; progress_candidate_tier : option string;
  progress_clause_ids : list string; decision_experiment : option EvalExperimentRef;
  decision_measurement : option RouteDecisionMeasurement;
}.

Fixpoint up_to_separator (s : string) : option string :=
  match s with
  | EmptyString => None
  | String a s => if bool_decide (a ∈ [":"%char; "."%char]) then Some "" else x ← up_to_separator s; Some (String a x)
  end.
Definition is_bitrouter_namespaced (name : string) : bool := bool_decide (up_to_separator name = Some "bitrouter").
Definition carries_bitrouter_server_tool (prompt : Prompt) : bool :=
  existsb (λ t, match t with
    | ProviderDefined id name => starts_with "bitrouter." id || is_bitrouter_namespaced name
    | FunctionTool _ => false end) (tools prompt).
Definition is_explicitly_routed (model : string) : bool :=
  starts_with "@" model || contains ":" model || is_reserved model.

Definition admitted (r : PolicyTableRouter) (assessment : option Assessment) (key : string) : bool :=
  is_none_or (λ expected, bool_decide (expected = from_option classifier_digest "unassessed" assessment))
    (classifier_constraints r !! key).
Definition undecided (r : PolicyTableRouter) (prompt : Prompt) (on : OnlineWorkflowState) : PolicyDecision := {|
  policy_snapshot := table r; request_key := routing_key on; route_projection := routing_key on;
  observed_route_projection := observed_routing_key on; online := on;
  input_effort := reasoning_effort prompt; static_tier := None; static_model := None; static_effort := None;
  selected_tier := None; selected_model := None; selected_effort := None;
  continuation_proposed_tier := None; continuation_proposed_model := None;
  continuation_proposed_effort := None; continuation_adjustment := None; reason := NoMatch; pinned := false;
  trajectory_episode_id := None; trajectory_sequence := None; trajectory_completeness := None;
  trajectory_health_digest := None; progress_candidate_tier := None; progress_clause_ids := [];
  decision_experiment := None; decision_measurement := None |}.

Definition matching_exploration (r : PolicyTableRouter) (assessment : option Assessment) (key : string)
    : option RouteExploration :=
  e ← exploration r;
  if bool_decide (target_request_key e = key) && admitted r assessment (target_request_key e) then Some e else None.
(** The tier of the matching experiment, or the table's. *)
Definition assigned (matching : option RouteExploration) (owned : option EvalExperimentRef) (w : WorkflowIdentity)
    (raw_static_tier : string) : string * option EvalExperimentRef :=
  match matching with
  | Some e =>
      match or_else owned (assignment e w) with
      | Some a => (match arm a with Control => champion_tier e | Challenger => challenger_tier e end, Some a)
      | None => (champion_tier e, None)
      end
  | None => (raw_static_tier, None)
  end.
Definition decision_for_inner (r : PolicyTableRouter) (prompt : Prompt) (observed : WorkflowStateIR)
    (respect_explicit_route apply_tool_floor : bool) (assessment : option Assessment)
    (owned_assignment : option EvalExperimentRef) : PolicyDecision :=
  let t := table r in
  let on := from_assessment observed prompt assessment in
  let d := undecided r prompt on in
  if (respect_explicit_route && is_explicitly_routed (prompt_model prompt)) || carries_bitrouter_server_tool prompt
  then d
  else match tier_for_workflow t (routing_key on) (baseline_routing_key on) (admitted r assessment) with
  | None => d
  | Some (raw_static_tier, matched_request_key) =>
      let matching := matching_exploration r assessment (route_projection d) in
      let '(assigned_tier, experiment) :=
        assigned matching owned_assignment (identity (ir on)) raw_static_tier in
      let measurement := route_measurement t assigned_tier (input_effort d) matching experiment in
      let '(tier, clamped) :=
        if apply_tool_floor then guardrail_with_status t assigned_tier prompt else (assigned_tier, false) in
      let model := model_of_tier t tier in {|
        policy_snapshot := t; request_key := matched_request_key; route_projection := route_projection d;
        observed_route_projection := observed_route_projection d; online := on; input_effort := input_effort d;
        static_tier := Some raw_static_tier; static_model := model_of_tier t raw_static_tier;
        static_effort := or_else (effort_of_tier t raw_static_tier) (input_effort d);
        selected_tier := Some tier; selected_model := model;
        selected_effort := or_else (effort_of_tier t tier) (input_effort d);
        continuation_proposed_tier := None; continuation_proposed_model := None;
        continuation_proposed_effort := None; continuation_adjustment := None;
        reason := if is_some model then (if clamped then ToolGuardrail else StaticTable) else NoMatch;
        pinned := false; trajectory_episode_id := None; trajectory_sequence := None;
        trajectory_completeness := None; trajectory_health_digest := None; progress_candidate_tier := None;
        progress_clause_ids := []; decision_experiment := experiment;
        decision_measurement := match measurement with Ok m => Some m | Err _ => None end |}
  end.
Definition decision_for_routing (r : PolicyTableRouter) (prompt : Prompt) (observed : WorkflowStateIR)
    (assessment : option Assessment) (guarded : bool) : PolicyDecision :=
  decision_for_inner r prompt observed false (negb guarded) assessment None.

Definition eval_baseline_tier (r : PolicyTableRouter) (d : PolicyDecision) : option string :=
  if negb (bool_decide (request_key d = route_projection d)) then static_tier d
  else or_else
    (o ← eval_observer r;
     or_else (route_baselines o !! route_projection d)
       (or_else (route_baselines o !! request_key d) (default_baseline o)))
    (static_tier d).
End router.
