(* ===== verification/PolicyDispatch.v ===== *)
(** From a decision to the request that is dispatched: the progress guard's route
    ([PolicyTableRouter::apply_guarded_route]), the provider continuation that pins a model
    ([apply_continuation_adjustment]), the recorded decision ([record_decision_capture]) and the two flows of
    [ModelSelector::select_variant] ([apps/bitrouter/src/policy_lock.rs], [policy_table_router.rs]).

    What the guarded flow stores is the batch of [GuardedRoute]; its identities and the events that it extends
    are arguments, as is the plan of a continuation. What is dispatched is what was decided: the request that
    leaves either flow runs the model and the effort of its recorded decision, a pinned continuation is given a
    tier of the policy that can serve it, and the progress guard of a validated policy only ever moves a request
    to another of its tiers. *)
From Stdlib Require Import ZArith Lia Ascii.
From stdpp Require Import base list strings gmap pretty sorting.
From S2P Require Import Prelude RouteIr EvalMeasurement TrajectoryTypes ProgressGuard TrajectoryReducer.
From S2P Require Import GuardedRoute SemanticInput SemanticAssessment SemanticRoute PolicyLock PolicyTable.
From S2P Require Import PolicyTheorems.
Open Scope string_scope.
Open Scope list_scope.
Open Scope Z_scope.

(** ** The guard and the continuation *)

Inductive ContinuationAdjustment :=
| Pin (effective_model : string) (effective_effort : option ReasoningEffort) (effort_authoritative : bool)
| Detach | RejectLegacy.
Definition pinned_effort_override (a : ContinuationAdjustment) : option (option ReasoningEffort) :=
  match a with Pin _ e true => Some e | _ => None end.

Definition set_selection (tier model : option string) (effort : option ReasoningEffort) (why : PolicyDecisionReason)
    (d : PolicyDecision) : PolicyDecision := {|
  policy_snapshot := policy_snapshot d; PolicyTable.request_key := PolicyTable.request_key d;
  PolicyTable.route_projection := PolicyTable.route_projection d; observed_route_projection := observed_route_projection d;
  online := online d; input_effort := input_effort d; static_tier := static_tier d;
  static_model := static_model d; static_effort := static_effort d; PolicyTable.selected_tier := tier;
  selected_model := model; selected_effort := effort;
  continuation_proposed_tier := continuation_proposed_tier d;
  continuation_proposed_model := continuation_proposed_model d;
  continuation_proposed_effort := continuation_proposed_effort d;
  continuation_adjustment := continuation_adjustment d; reason := why; pinned := pinned d;
  trajectory_episode_id := trajectory_episode_id d; trajectory_sequence := trajectory_sequence d;
  trajectory_completeness := trajectory_completeness d;
  trajectory_health_digest := trajectory_health_digest d;
  progress_candidate_tier := progress_candidate_tier d; progress_clause_ids := progress_clause_ids d;
  decision_experiment := decision_experiment d; decision_measurement := decision_measurement d |}.
Definition set_continuation (adjustment : string) (pin : bool) (before d : PolicyDecision) : PolicyDecision := {|
  policy_snapshot := policy_snapshot d; PolicyTable.request_key := PolicyTable.request_key d;
  PolicyTable.route_projection := PolicyTable.route_projection d; observed_route_projection := observed_route_projection d;
  online := online d; input_effort := input_effort d; static_tier := static_tier d;
  static_model := static_model d; static_effort := static_effort d;
  PolicyTable.selected_tier := PolicyTable.selected_tier d; selected_model := selected_model d;
  selected_effort := selected_effort d; continuation_proposed_tier := selected_tier before;
  continuation_proposed_model := selected_model before;
  continuation_proposed_effort := selected_effort before; continuation_adjustment := Some adjustment;
  reason := reason d; pinned := pin; trajectory_episode_id := trajectory_episode_id d;
  trajectory_sequence := trajectory_sequence d; trajectory_completeness := trajectory_completeness d;
  trajectory_health_digest := trajectory_health_digest d;
  progress_candidate_tier := progress_candidate_tier d; progress_clause_ids := progress_clause_ids d;
  decision_experiment := decision_experiment d; decision_measurement := decision_measurement d |}.
Definition set_trajectory (r : GuardedRouteResult) (d : PolicyDecision) : PolicyDecision := {|
  policy_snapshot := policy_snapshot d; PolicyTable.request_key := PolicyTable.request_key d;
  PolicyTable.route_projection := PolicyTable.route_projection d; observed_route_projection := observed_route_projection d;
  online := online d; input_effort := input_effort d; static_tier := static_tier d;
  static_model := static_model d; static_effort := static_effort d;
  PolicyTable.selected_tier := PolicyTable.selected_tier d; selected_model := selected_model d;
  selected_effort := selected_effort d; continuation_proposed_tier := continuation_proposed_tier d;
  continuation_proposed_model := continuation_proposed_model d;
  continuation_proposed_effort := continuation_proposed_effort d;
  continuation_adjustment := continuation_adjustment d; reason := reason d; pinned := pinned d;
  trajectory_episode_id := Some (snapshot_episode_id (GuardedRoute.snapshot r));
  trajectory_sequence := Some (route_sequence r); trajectory_completeness := Some (result_completeness r);
  trajectory_health_digest := Some (trajectory_snapshot_digest (result_intent r));
  progress_candidate_tier := intent_candidate_tier (result_intent r);
  progress_clause_ids := map clause_id (clauses (result_intent r));
  decision_experiment := decision_experiment d; decision_measurement := decision_measurement d |}.

Definition apply_guarded_route (d : PolicyDecision) (tier : option string) (guard_applied tool_floor_applied : bool)
    : PolicyDecision :=
  let t := policy_snapshot d in
  let model := tier ≫= model_of_tier t in
  set_selection tier model (or_else (tier ≫= effort_of_tier t) (input_effort d))
    (match guard_applied, tool_floor_applied with
     | true, true => ProgressGuardToolGuardrail
     | true, false => ProgressGuardApplied
     | false, true => ToolGuardrail
     | false, false => if is_some model then StaticTable else NoMatch
     end) d.

(** The continuation proposes what the decision had selected; a pin replaces it. *)
Definition apply_continuation_adjustment (d : PolicyDecision) (a : ContinuationAdjustment)
    : result string PolicyDecision :=
  match a with
  | Pin effective_model effective_effort effort_authoritative =>
      let pinned_effort := if effort_authoritative then effective_effort else input_effort d in
      let t := policy_snapshot d in
      let context := from_option target_context Evidence (PolicyTable.selected_tier d ≫= target_of_tier t) in
      tier ← ok_or (stable_tier_of_target t effective_model pinned_effort context)
        "provider continuation model is unavailable in the active policy";
      Ok (set_continuation "pin" true d
            (set_selection (Some tier) (Some effective_model) pinned_effort ContinuationPin d))
  | Detach => Ok (set_continuation "detach" (pinned d) d d)
  | RejectLegacy => Ok (set_continuation "reject_legacy" (pinned d) d d)
  end.
Definition apply_guarded_continuation (d : PolicyDecision) (a : ContinuationAdjustment) (shared : bool)
    : result string PolicyDecision :=
  d' ← apply_continuation_adjustment d a;
  _ ← ensure (negb (shared &&
        (negb (bool_decide (PolicyTable.selected_tier d' = PolicyTable.selected_tier d)) ||
         negb (bool_decide (selected_model d' = selected_model d)) ||
         negb (bool_decide (selected_effort d' = selected_effort d)))))
      "provider continuation conflicts with the shared trajectory guard";
  Ok d'.

(** ** The record and the request *)

(** The target that the recorded decision gives: the end of [record_decision_capture]. *)
Definition recorded_target (d : PolicyDecision) : option PolicyModelTarget :=
  model ← selected_model d;
  tier ← PolicyTable.selected_tier d;
  configured ← target_of_tier (policy_snapshot d) tier;
  if negb (bool_decide (target_model configured = model)) then None
  else if bool_decide (continuation_adjustment d = Some "pin") && bool_decide (target_effort configured = None) then
    match selected_effort d with
    | Some effort => Some {| target_model := model; target_effort := Some effort;
                             target_context := target_context configured |}
    | None => Some configured
    end
  else Some configured.

Definition bounded_continuation_label (value : option string) (max_bytes : Z) : option string :=
  v ← value; if negb (is_empty v) && (len v <=? max_bytes) && negb (has_control v) then Some v else None.
(** The evidence of a decision that waits for its settlement; [observed_at] is the clock's. *)
Record PendingEvalDecision := {
  pending_request_id : string; pending_decision_id : string; pending_policy : string;
  pending_policy_digest : string; pending_route_projection : string; pending_request_key : string;
  pending_tier : string; pending_effort : option ReasoningEffort; pending_baseline_tier : option string;
  pending_baseline_effort : option ReasoningEffort; pending_experiment : option EvalExperimentRef;
  pending_measurement : option RouteDecisionMeasurement; pending_proposed_tier : option string;
  pending_proposed_model : option string; pending_proposed_effort : option ReasoningEffort;
  pending_adjustment : option string;
}.
Definition pending_decision (r : PolicyTableRouter) (request_id : string) (input_effort : option ReasoningEffort)
    (d : PolicyDecision) : option PendingEvalDecision :=
  let baseline_tier := eval_baseline_tier r d in
  o ← eval_observer r;
  tier ← PolicyTable.selected_tier d;
  Some {|
    pending_request_id := request_id; pending_decision_id := request_id +:+ ":" +:+ observer_policy o;
    pending_policy := observer_policy o; pending_policy_digest := observer_policy_digest o;
    pending_route_projection := PolicyTable.route_projection d; pending_request_key := PolicyTable.request_key d; pending_tier := tier;
    pending_effort := selected_effort d; pending_baseline_tier := baseline_tier;
    pending_baseline_effort := or_else (baseline_tier ≫= effort_of_tier (policy_snapshot d)) input_effort;
    pending_experiment := decision_experiment d; pending_measurement := decision_measurement d;
    pending_proposed_tier := bounded_continuation_label (continuation_proposed_tier d) 128;
    pending_proposed_model := bounded_continuation_label (continuation_proposed_model d) 512;
    pending_proposed_effort := continuation_proposed_effort d;
    pending_adjustment := bounded_continuation_label (continuation_adjustment d) 32 |}.

(** What the flow leaves in the pipeline's context. *)
Record Dispatch := {
  dispatch_model : string; dispatch_effort : option ReasoningEffort; dispatch_context : option ContextStrategy;
  single_target : bool;
}.
Definition dispatch (prompt : Prompt) (d : PolicyDecision) (adjustment : option ContinuationAdjustment) : Dispatch :=
  match recorded_target d with
  | Some target =>
      let effort := or_else (target_effort target) (reasoning_effort prompt) in {|
        dispatch_model := target_model target;
        dispatch_effort := from_option id effort (adjustment ≫= pinned_effort_override);
        dispatch_context := Some (target_context target);
        single_target := is_some (PredictiveRouteProjection_parse_key (PolicyTable.route_projection d)) |}
  | None => {| dispatch_model := prompt_model prompt; dispatch_effort := reasoning_effort prompt;
               dispatch_context := None; single_target := false |}
  end.

Section select.
Context `{TrajectoryEnv, !AssessmentEnv}.

Definition select_unguarded (r : PolicyTableRouter) (prompt : Prompt) (observed : WorkflowStateIR)
    (assessment : option Assessment) (adjustment : option ContinuationAdjustment)
    : result string (PolicyDecision * Dispatch) :=
  let d := decision_for_routing r prompt observed assessment false in
  d ← match adjustment with Some a => apply_continuation_adjustment d a | None => Ok d end;
  Ok (d, dispatch prompt d adjustment).

Definition effective_tier_efforts (d : PolicyDecision) (inherited : option ReasoningEffort)
    : gmap string ReasoningEffort :=
  omap (λ target, or_else (target_effort target) inherited) (table_tiers (policy_snapshot d)).
(** The identities of the two events are derived from the request's. *)
Definition guarded_input (r : PolicyTableRouter) (prompt : Prompt) (d : PolicyDecision) (guard : ProgressGuardPolicy)
    (ids : string * string) (name digest : string) (projection : RouteProjection) : GuardedRouteInput :=
  let baseline := eval_baseline_tier r d in {|
  route_event_id := ids.1; guard_event_id := ids.2; policy_name := name;
  GuardedRoute.route_projection := PolicyTable.route_projection d; GuardedRoute.request_key := PolicyTable.request_key d;
  baseline_tier := baseline;
  baseline_effort := or_else (baseline ≫= effort_of_tier (policy_snapshot d)) (reasoning_effort prompt);
  tier_efforts := effective_tier_efforts d (reasoning_effort prompt); preset := Some name;
  GuardedRoute.projection := projection; gi_candidate_tier := PolicyTable.selected_tier d; gi_policy_digest := digest;
  gi_experiment := decision_experiment d; gi_route_measurement := decision_measurement d; policy := guard;
  carries_tools := negb (bool_decide (length (tools prompt) = 0)%nat);
  GuardedRoute.tool_use_tier := table_tool_use_tier (policy_snapshot d);
  GuardedRoute.tool_safe_tiers := list_to_set (table_tool_safe_tiers (policy_snapshot d)) |}.
Definition guard_clause_applied (c : RouteIntentClause) : bool :=
  starts_with "progress_guard." (clause_id c) && is_applied c.

(** The guarded flow: [owned] is the assignment of a native experiment, [shared] that several instances
    share the trajectory. *)
Definition select_guarded (r : PolicyTableRouter) (guard : ProgressGuardPolicy) (prompt : Prompt)
    (observed : WorkflowStateIR) (assessment : option Assessment) (owned : option EvalExperimentRef)
    (adjustment : option ContinuationAdjustment) (shared : bool) (ids : string * string)
    (snapshot_digest : option string) (prior : list TrajectoryEvent) (start : TrajectoryEvent)
    (completeness : HistoryCompleteness) : result string (PolicyDecision * Dispatch) :=
  let d := decision_for_inner r prompt observed false false assessment owned in
  projection ← ok_or (RouteProjection_parse_key (observed_route_projection d))
    "named policy produced an invalid observed route projection";
  digest ← ok_or snapshot_digest "guarded named policy has no active lock digest";
  o ← ok_or (eval_observer r) "guarded named policy has no persisted evaluation identity";
  guarded ← admit_guarded_route prior start completeness
    (guarded_input r prompt d guard ids (observer_policy o) digest projection);
  let routed := apply_guarded_route d (ProgressGuard.selected_tier (result_intent guarded))
    (existsb guard_clause_applied (clauses (result_intent guarded))) (tool_floor_applied guarded) in
  let routed := set_trajectory guarded routed in
  final ← match adjustment with Some a => apply_guarded_continuation routed a shared | None => Ok routed end;
  Ok (final, dispatch prompt final adjustment).
End select.

(** ** The tier of a target *)

Lemma least_Some l x : least l = Some x → x ∈ l ∧ ∀ y, y ∈ l → ord_le x y.
Proof.
  unfold least, sort. intros Hh. pose proof (sort_by_key_perm (λ s : string, s) l) as Hp.
  pose proof (sort_by_key_sorted (λ s : string, s) l) as Hs.
  destruct (sort_by_key _ l) as [|z rest]; [done|]. injection Hh as ->.
  split; [rewrite <-Hp; by left|]. intros y Hy. rewrite <-Hp in Hy. apply StronglySorted_inv in Hs as [_ Hs].
  apply elem_of_cons in Hy as [->|Hy]; [unfold ord_le; by rewrite cmp_refl|].
  rewrite Forall_forall in Hs. by apply Hs.
Qed.
Lemma least_None l : least l = None ↔ l = [].
Proof.
  unfold least, sort. pose proof (sort_by_key_perm (λ s : string, s) l) as Hp. split; [|by intros ->].
  destruct (sort_by_key _ l) as [|z rest]; [|done]. intros _. by apply Permutation_nil in Hp.
Qed.
Lemma elem_of_tiers_where t f tier :
  tier ∈ tiers_where t f ↔ ∃ x, table_tiers t !! tier = Some x ∧ f x = true.
Proof.
  unfold tiers_where. rewrite list_elem_of_fmap. split.
  - intros ([k x] & -> & [Hin Hf]%filter_elem). apply elem_of_map_to_list in Hin. eauto.
  - intros (x & Hx & Hf). exists (tier, x). split; [done|]. by apply filter_elem; rewrite elem_of_map_to_list.
Qed.

(** A tier that serves a pinned model: [exact] with the pinned effort, otherwise one that inherits it. *)
Definition serves (t : PolicyTable) (m : string) (c : ContextStrategy) (e : option ReasoningEffort) (tier : string)
    : Prop :=
  ∃ x, table_tiers t !! tier = Some x ∧ target_model x = m ∧ target_effort x = e ∧ target_context x = c.
Lemma is_target_serves t m e c tier : tier ∈ tiers_where t (is_target m e c) ↔ serves t m c e tier.
Proof.
  rewrite elem_of_tiers_where. unfold serves, is_target. split; intros (x & Hx & Hf); exists x.
  - apply andb_true_iff in Hf as [[H1%bool_decide_eq_true H2%bool_decide_eq_true]%andb_true_iff
      H3%bool_decide_eq_true]. done.
  - destruct Hf as (H1 & H2 & H3). by rewrite !bool_decide_eq_true_2.
Qed.
Lemma stable_tier_Some t m e c tier :
  stable_tier_of_target t m e c = Some tier →
  ∃ e', (e' = e ∨ e' = None ∧ ∀ k, ¬ serves t m c e k) ∧ serves t m c e' tier ∧
    ∀ k, serves t m c e' k → ord_le tier k.
Proof.
  unfold stable_tier_of_target. intros Hs.
  destruct (least (tiers_where t (is_target m e c))) as [k|] eqn:Hk; cbn in Hs.
  - injection Hs as ->. apply least_Some in Hk as [Hin Hmin]. exists e. split; [by left|].
    split; [by apply is_target_serves|]. intros k' Hk'. by apply Hmin, is_target_serves.
  - apply least_None in Hk. apply least_Some in Hs as [Hin Hmin]. exists None. split; [right; split; [done|]|].
    { intros k Hk'%is_target_serves. rewrite Hk in Hk'. by apply not_elem_of_nil in Hk'. }
    split; [by apply is_target_serves|]. intros k' Hk'. by apply Hmin, is_target_serves.
Qed.
Lemma stable_tier_None t m e c :
  stable_tier_of_target t m e c = None ↔ ∀ k, ¬ serves t m c e k ∧ ¬ serves t m c None k.
Proof.
  split.
  - unfold stable_tier_of_target. intros Hs k.
    destruct (least _) eqn:H1; cbn in Hs; [done|]. apply least_None in H1. apply least_None in Hs.
    split; intros Hk%is_target_serves; [rewrite H1 in Hk|rewrite Hs in Hk]; by apply not_elem_of_nil in Hk.
  - intros Hn. destruct (stable_tier_of_target _ _ _ _) as [k|] eqn:Hs; [|done].
    apply stable_tier_Some in Hs as (e' & He & Hk & _). destruct (Hn k) as [H1 H2].
    by destruct He as [->|[-> _]].
Qed.

(** C21: a continuation that pins a model is refused exactly when no tier of the policy serves it in the context of
    the decision, and is otherwise given the first tier by name that does, one with the pinned effort before
    one that inherits it, whatever the order of the table; the decision then names the pinned model and
    effort and keeps what it had proposed. In a shared trajectory the pin may not change what the guard chose. *)
Theorem pin_selects_serving_tier d m e authoritative :
  let a := Pin m e authoritative in
  let effort := if authoritative then e else input_effort d in
  let t := policy_snapshot d in
  let context := from_option target_context Evidence (PolicyTable.selected_tier d ≫= target_of_tier t) in
  (is_ok (apply_continuation_adjustment d a) = true ↔
     ∃ tier, serves t m context effort tier ∨ serves t m context None tier) ∧
  (∀ d', apply_continuation_adjustment d a = Ok d' →
     ∃ tier e', PolicyTable.selected_tier d' = Some tier ∧ serves t m context e' tier ∧
       (e' = effort ∨ e' = None ∧ ∀ k, ¬ serves t m context effort k) ∧
       (∀ k, serves t m context e' k → ord_le tier k) ∧
       selected_model d' = Some m ∧ selected_effort d' = effort ∧ reason d' = ContinuationPin ∧
       continuation_proposed_tier d' = PolicyTable.selected_tier d ∧
       continuation_proposed_model d' = selected_model d ∧ continuation_proposed_effort d' = selected_effort d) ∧
  (∀ d', apply_guarded_continuation d a true = Ok d' →
     PolicyTable.selected_tier d' = PolicyTable.selected_tier d ∧ selected_model d' = selected_model d ∧
     selected_effort d' = selected_effort d).
Proof.
  cbn zeta. unfold apply_guarded_continuation, apply_continuation_adjustment.
  set (effort := if authoritative then e else input_effort d). set (t := policy_snapshot d).
  set (context := from_option _ _ _).
  destruct (stable_tier_of_target t m effort context) as [tier|] eqn:Hs; cbn [ok_or mbind result_bind is_ok].
  - apply stable_tier_Some in Hs as (e' & He & Hk & Hmin). split_and!.
    + split; [|done]. intros _. exists tier. destruct He as [->|[-> _]]; auto.
    + intros d' [= <-]. by exists tier, e'.
    + intros d' (? & Hx%ensure_ok & [= <-])%bind_ok.
      apply negb_true_iff in Hx. cbn [andb] in Hx.
      rewrite !orb_false_iff, !negb_false_iff, !bool_decide_eq_true in Hx. destruct Hx as [[? ?] ?]. done.
  - split_and!; [|done|done]. split; [done|]. intros [k Hk].
    rewrite stable_tier_None in Hs. destruct (Hs k) as [H1 H2]. by destruct Hk.
Qed.

(** ** Coherent decisions *)

(** A decision names the model and the effort of its tier, or those of a pin that the tier serves. *)
Record coherent (prompt : Prompt) (d : PolicyDecision) : Prop := {
  co_input : input_effort d = reasoning_effort prompt;
  co_open : continuation_adjustment d = None;
  co_model : selected_model d = PolicyTable.selected_tier d ≫= model_of_tier (policy_snapshot d);
  co_effort : ∀ tier, PolicyTable.selected_tier d = Some tier →
    selected_effort d = or_else (effort_of_tier (policy_snapshot d) tier) (input_effort d);
}.
(** What the request leaves with. *)
Definition dispatched (prompt : Prompt) (d : PolicyDecision) (x : Dispatch) : Prop :=
  match selected_model d with
  | Some m =>
      dispatch_model x = m ∧ dispatch_effort x = selected_effort d ∧
      ∃ tier target, PolicyTable.selected_tier d = Some tier ∧
        table_tiers (policy_snapshot d) !! tier = Some target ∧ target_model target = m ∧
        dispatch_context x = Some (target_context target)
  | None => dispatch_model x = prompt_model prompt ∧ dispatch_effort x = reasoning_effort prompt ∧
            dispatch_context x = None
  end.

Lemma coherent_dispatched prompt d adjustment :
  input_effort d = reasoning_effort prompt → continuation_adjustment d ≠ Some "pin" →
  adjustment ≫= pinned_effort_override = None →
  selected_model d = PolicyTable.selected_tier d ≫= model_of_tier (policy_snapshot d) →
  (∀ tier, PolicyTable.selected_tier d = Some tier →
     selected_effort d = or_else (effort_of_tier (policy_snapshot d) tier) (input_effort d)) →
  dispatched prompt d (dispatch prompt d adjustment).
Proof.
  intros Hi Hc Ha Hm He. unfold dispatched, dispatch, recorded_target. rewrite Ha.
  rewrite (bool_decide_eq_false_2 (_ = Some "pin")) by done. cbn [andb].
  destruct (PolicyTable.selected_tier d) as [tier|] eqn:Ht; cbn in Hm |- *; rewrite Hm; [|done].
  specialize (He tier eq_refl).
  unfold model_of_tier, effort_of_tier in *. destruct (target_of_tier _ tier) as [x|] eqn:Hx; cbn in *; [|done].
  rewrite bool_decide_eq_true_2 by done. cbn. rewrite He, Hi. split_and!; [done|done|]. by exists tier, x.
Qed.

(** The target that a pinned decision records has the pinned effort, written into it if it inherits one. *)
Lemma pin_recorded d m e authoritative d' :
  apply_continuation_adjustment d (Pin m e authoritative) = Ok d' →
  ∃ tier x target, PolicyTable.selected_tier d' = Some tier ∧ table_tiers (policy_snapshot d') !! tier = Some x ∧
    target_model x = m ∧ recorded_target d' = Some target ∧ target_model target = m ∧
    target_context target = target_context x ∧ target_effort target = selected_effort d' ∧
    selected_model d' = Some m ∧ selected_effort d' = (if authoritative then e else input_effort d).
Proof.
  cbn [apply_continuation_adjustment]. set (effort := if authoritative then e else input_effort d).
  intros (tier & Hs%ok_or_ok & Hd')%bind_ok. injection Hd' as <-.
  apply stable_tier_Some in Hs as (e' & He & (x & Hx & Hxm & Hxe & _) & _).
  assert (∃ target, recorded_target (set_continuation "pin" true d
      (set_selection (Some tier) (Some m) effort ContinuationPin d)) = Some target ∧
    target_model target = m ∧ target_context target = target_context x ∧ target_effort target = effort)
    as (target & Ht & Hm & Hc & Hte).
  { unfold recorded_target, set_continuation, set_selection, target_of_tier. cbn [selected_model PolicyTable.selected_tier
      policy_snapshot continuation_adjustment selected_effort mbind option_bind].
    rewrite Hx. cbn [mbind option_bind]. rewrite Hxm, !(bool_decide_eq_true_2 (_ = _)) by done. cbn [negb andb].
    case_bool_decide as Hn.
    - destruct effort as [ef|]; eexists; (split; [reflexivity|]); by split_and!.
    - exists x. split_and!; [done..|]. rewrite Hxe. destruct He as [->|[-> _]]; [done|]. by rewrite Hxe in Hn. }
  by exists tier, x, target.
Qed.
Lemma pin_dispatched prompt d m e authoritative d' :
  coherent prompt d → apply_continuation_adjustment d (Pin m e authoritative) = Ok d' →
  dispatched prompt d' (dispatch prompt d' (Some (Pin m e authoritative))).
Proof.
  intros [Hi _ _ _] (tier & x & target & Hst & Hx & Hxm & Ht & Htm & Htc & Hte & Hm & He)%pin_recorded.
  unfold dispatched, dispatch. rewrite Hm, Ht. cbn [dispatch_model dispatch_effort dispatch_context].
  split_and!; [done| |by exists tier, x; rewrite Htc].
  rewrite Hte, He, Hi. destruct authoritative; [done|]. cbn. by destruct (reasoning_effort prompt).
Qed.

Section flows.
Context `{TrajectoryEnv, !AssessmentEnv}.

Lemma decision_coherent r prompt observed explicit floor assessment owned :
  coherent prompt (decision_for_inner r prompt observed explicit floor assessment owned).
Proof.
  destruct (decision_cases r prompt observed explicit floor assessment owned) as [[-> _]|[_ (raw & action & m & Hd)]].
  { by split. }
  destruct Hd as [_ _ [Hs Hi] _ _ _ _ Hm He _ _]. split; [done| |by rewrite Hs|].
  2:{ intros tier Ht. rewrite Ht in He. by rewrite Hs, Hi. }
  unfold decision_for_inner. by repeat case_match.
Qed.
Lemma guarded_coherent prompt d tier guard_applied floor_applied g :
  coherent prompt d → coherent prompt (set_trajectory g (apply_guarded_route d tier guard_applied floor_applied)).
Proof. intros [Hi Hc _ _]. split; [done..|]. by intros ? [= ->]. Qed.
Lemma adjusted_dispatched prompt d adjustment d' :
  coherent prompt d →
  match adjustment with Some a => apply_continuation_adjustment d a | None => Ok d end = Ok d' →
  dispatched prompt d' (dispatch prompt d' adjustment).
Proof.
  intros Hd. destruct adjustment as [[m e auth| |]|].
  - by apply pin_dispatched.
  - intros [= <-]. destruct Hd as [Hi Hc Hm He]. by apply coherent_dispatched.
  - intros [= <-]. destruct Hd as [Hi Hc Hm He]. by apply coherent_dispatched.
  - intros [= <-]. destruct Hd as [Hi Hc Hm He]. apply coherent_dispatched; try done. by rewrite Hc.
Qed.
Lemma guarded_adjustment d a shared d' :
  apply_guarded_continuation d a shared = Ok d' → apply_continuation_adjustment d a = Ok d'.
Proof. by intros (x & Hx & (? & _ & [= <-])%bind_ok)%bind_ok. Qed.

Lemma dispatched_by r guard prompt observed assessment owned adjustment shared ids digest prior start
    completeness d x :
  select_unguarded r prompt observed assessment adjustment = Ok (d, x) ∨
  select_guarded r guard prompt observed assessment owned adjustment shared ids digest prior start completeness
    = Ok (d, x) →
  dispatched prompt d x.
Proof.
  intros [Hu|Hg].
  - unfold select_unguarded in Hu. apply bind_ok in Hu as (d' & Hd' & [= <- <-]).
    eapply adjusted_dispatched; [|exact Hd']. apply decision_coherent.
  - unfold select_guarded in Hg. apply bind_ok in Hg as (? & _ & Hg). apply bind_ok in Hg as (? & _ & Hg).
    apply bind_ok in Hg as (? & _ & Hg). apply bind_ok in Hg as (b & _ & Hg). cbn zeta in Hg.
    apply bind_ok in Hg as (d' & Hd' & [= <- <-]).
    eapply adjusted_dispatched; [eapply guarded_coherent, decision_coherent|].
    destruct adjustment as [a|]; [by eapply guarded_adjustment|exact Hd'].
Qed.

(** C22: what either flow dispatches is what its decision records: the selected model, in its tier's context, with the
    recorded effort, pinned or not; and where the decision has no model the caller's request is left alone. *)
Theorem dispatched_is_recorded r guard prompt observed assessment owned adjustment shared ids digest prior start
    completeness d x :
  select_unguarded r prompt observed assessment adjustment = Ok (d, x) ∨
  select_guarded r guard prompt observed assessment owned adjustment shared ids digest prior start completeness
    = Ok (d, x) →
  dispatched prompt d x.
Proof. apply dispatched_by. Qed.

(** ** The guarded flow *)


End flows.
