(* ===== verification/MeteringUsage.v ===== *)
(** Token usage ([crates/bitrouter-ai/src/types.rs]) and its verification against what the provider sent
    ([apps/gateway/pipeline/native_accounting.rs]). Counters are [u64]. The raw usage object is a JSON value;
    [Value::as_u64] of a number is [as_u64] of its lexeme. *)
From Stdlib Require Import ZArith Lia.
From stdpp Require Import base list strings.
From S2P Require Import Prelude RegistryValue RegistryPricing.
Open Scope string_scope.
Open Scope list_scope.
Open Scope Z_scope.

Inductive ApiProtocol := ChatCompletions | Messages | Responses | Decisions | Custom (name : string).
#[export] Instance ApiProtocol_eq_dec : EqDecision ApiProtocol.
Proof. solve_decision. Defined.
Inductive ModelOperation := Generation | DecisionsOperation.
#[export] Instance ModelOperation_eq_dec : EqDecision ModelOperation.
Proof. solve_decision. Defined.
Definition operation (p : ApiProtocol) : ModelOperation :=
  match p with
  | Decisions => DecisionsOperation
  | ChatCompletions | Messages | Responses | Custom _ => Generation
  end.
Definition protocol_str (p : ApiProtocol) : string :=
  match p with
  | ChatCompletions => "chat_completions"
  | Messages => "messages"
  | Responses => "responses"
  | Decisions => "decisions"
  | Custom name => name
  end.

Inductive UsageOrigin := ProviderReported | AuthoritativeReceipt | Estimated | UnknownOrigin.
#[export] Instance UsageOrigin_eq_dec : EqDecision UsageOrigin.
Proof. solve_decision. Defined.
Record Usage := {
  prompt_tokens : Z; completion_tokens : Z; reasoning_tokens : Z; cache_read_tokens : Z; cache_write_tokens : Z;
  web_search_count : Z; origin : UsageOrigin; raw : option Value }.
Definition Usage_default : Usage := {|
  prompt_tokens := 0; completion_tokens := 0; reasoning_tokens := 0; cache_read_tokens := 0; cache_write_tokens := 0;
  web_search_count := 0; origin := UnknownOrigin; raw := None |}.
Record NormalizedUsage := {
  uncached_input_tokens : Z; n_cache_read_tokens : Z; n_cache_write_tokens : Z; output_tokens : Z;
  n_reasoning_tokens : Z }.
Definition NormalizedUsage_default : NormalizedUsage := {|
  uncached_input_tokens := 0; n_cache_read_tokens := 0; n_cache_write_tokens := 0; output_tokens := 0;
  n_reasoning_tokens := 0 |}.
Inductive UsageNormalizationError := InputBucketsOverlap | OutputBucketsOverlap.

Definition normalized_buckets (u : Usage) : result UsageNormalizationError NormalizedUsage :=
  cached_input ← ok_or (cached ← checked_add u64_max (cache_read_tokens u) (cache_write_tokens u);
                        if cached <=? prompt_tokens u then Some cached else None) InputBucketsOverlap;
  output ← ok_or (checked_sub (completion_tokens u) (reasoning_tokens u)) OutputBucketsOverlap;
  Ok {| uncached_input_tokens := prompt_tokens u - cached_input; n_cache_read_tokens := cache_read_tokens u;
        n_cache_write_tokens := cache_write_tokens u; output_tokens := output;
        n_reasoning_tokens := reasoning_tokens u |}.
(** [unwrap_or_default] *)
Definition buckets_or_default (u : Usage) : NormalizedUsage :=
  match normalized_buckets u with Ok n => n | Err _ => NormalizedUsage_default end.

(** ** The provider's own object *)

Section verification.
Context `{ExactNumber}.

Definition value_u64 (v : Value) : option Z := match v with VNumber t => as_u64 t | _ => None end.
(** [value.pointer(..)], with the parts of the pointer. *)
Definition pointer (path : list string) (v : Value) : option Value := at_path v path.
Definition wrapped (raw : Value) : bool := is_some (get "message_start" raw) || is_some (get "message_delta" raw).
Definition usage_field (protocol : ApiProtocol) (raw : Value) (path : list string) : option Value :=
  if bool_decide (protocol = Messages) && wrapped raw then
    match get "message_delta" raw ≫= pointer path with
    | Some v => Some v
    | None => get "message_start" raw ≫= pointer path
    end
  else pointer path raw.
Definition usage_containers (protocol : ApiProtocol) : list string :=
  match protocol with
  | Responses => ["input_tokens_details"; "output_tokens_details"]
  | ChatCompletions => ["prompt_tokens_details"; "completion_tokens_details"]
  | Messages => ["message_start"; "message_delta"]
  | _ => []
  end.
Definition validate_usage_containers (protocol : ApiProtocol) (raw : Value) : result string unit :=
  _ ← ensure (is_object raw) "invalid_raw_usage_shape";
  ensure (negb (existsb (λ name, is_some_and (λ v, negb (is_object v)) (get name raw)) (usage_containers protocol)))
    "invalid_raw_usage_shape".

Record UsagePaths := {
  input_path : list string; output_path : list string; read_path : list string; write_path : option (list string);
  reasoning_path : option (list string) }.
Definition usage_paths (protocol : ApiProtocol) : result string UsagePaths :=
  match protocol with
  | Responses => Ok {| input_path := ["input_tokens"]; output_path := ["output_tokens"];
      read_path := ["input_tokens_details"; "cached_tokens"];
      write_path := Some ["input_tokens_details"; "cache_write_tokens"];
      reasoning_path := Some ["output_tokens_details"; "reasoning_tokens"] |}
  | ChatCompletions => Ok {| input_path := ["prompt_tokens"]; output_path := ["completion_tokens"];
      read_path := ["prompt_tokens_details"; "cached_tokens"];
      write_path := Some ["prompt_tokens_details"; "cache_write_tokens"];
      reasoning_path := Some ["completion_tokens_details"; "reasoning_tokens"] |}
  | Messages => Ok {| input_path := ["input_tokens"]; output_path := ["output_tokens"];
      read_path := ["cache_read_input_tokens"]; write_path := Some ["cache_creation_input_tokens"];
      reasoning_path := None |}
  | _ => Err "unsupported_usage_protocol"
  end.
Definition required (protocol : ApiProtocol) (raw : Value) (path : list string) : result string Z :=
  let value :=
    if bool_decide (protocol = Messages) && bool_decide (path = ["output_tokens"]) && wrapped raw then
      get "message_delta" raw ≫= pointer path
    else usage_field protocol raw path in
  v ← ok_or value "required_usage_counter_missing";
  ok_or (value_u64 v) "invalid_raw_usage_counter".
Definition optional (protocol : ApiProtocol) (raw : Value) (path : option (list string)) : result string Z :=
  match path ≫= usage_field protocol raw with
  | Some v => ok_or (value_u64 v) "invalid_raw_usage_counter"
  | None => Ok 0
  end.
Definition validated_provider_usage (protocol : ApiProtocol) (u : Usage) : result string NormalizedUsage :=
  _ ← ensure (negb (negb (bool_decide (origin u = ProviderReported)))) "provider_usage_unavailable";
  normalized ← (match normalized_buckets u with Ok n => Ok n | Err _ => Err "invalid_usage_buckets" end);
  raw ← ok_or (raw u) "raw_usage_unavailable";
  _ ← validate_usage_containers protocol raw;
  paths ← usage_paths protocol;
  read ← optional protocol raw (Some (read_path paths));
  write ← optional protocol raw (write_path paths);
  reasoning ← optional protocol raw (reasoning_path paths);
  input ← required protocol raw (input_path paths);
  output ← required protocol raw (output_path paths);
  input ← (if bool_decide (protocol = Messages) then
             ok_or (i ← checked_add u64_max input read; checked_add u64_max i write) "raw_usage_counter_overflow"
           else Ok input);
  _ ← ensure (negb (negb (input =? prompt_tokens u) || negb (output =? completion_tokens u) ||
                    negb (read =? cache_read_tokens u) || negb (write =? cache_write_tokens u) ||
                    negb (reasoning =? reasoning_tokens u)))
    "raw_usage_counter_mismatch";
  Ok normalized.

(** ** Cache counters *)

Record NativeCacheObservation := {
  read_tokens : option Z; write_tokens : option Z; cache_source : string; cache_unknown_reason : option string }.
Definition cache_unknown (reason : string) : NativeCacheObservation := {|
  read_tokens := None; write_tokens := None; cache_source := "unknown"; cache_unknown_reason := Some reason |}.
Definition cache_usage_source (protocol : ApiProtocol) : option string :=
  match protocol with
  | Responses => Some "responses_usage"
  | ChatCompletions => Some "chat_completions_usage"
  | Messages => Some "messages_usage"
  | _ => None
  end.
Definition not_u64 (v : option Value) : bool := is_some_and (λ v, bool_decide (value_u64 v = None)) v.
Definition capture_cache (protocol : ApiProtocol) (usage : option Usage) : NativeCacheObservation :=
  match (u ← usage; if bool_decide (origin u = ProviderReported) then Some u else None) with
  | None => cache_unknown "provider_cache_usage_unavailable"
  | Some u =>
  match normalized_buckets u with
  | Err _ => cache_unknown "invalid_usage_buckets"
  | Ok _ =>
  match raw u with
  | None => cache_unknown "raw_usage_unavailable"
  | Some raw =>
  match validate_usage_containers protocol raw with
  | Err reason => cache_unknown reason
  | Ok _ =>
  match usage_paths protocol, cache_usage_source protocol with
  | Ok paths, Some source =>
      let read := usage_field protocol raw (read_path paths) in
      let write := write_path paths ≫= usage_field protocol raw in
      if not_u64 read || not_u64 write then cache_unknown "invalid_raw_cache_counter" else
      let read := read ≫= value_u64 in
      let write := write ≫= value_u64 in
      if is_some_and (λ v, negb (v =? cache_read_tokens u)) read ||
         is_some_and (λ v, negb (v =? cache_write_tokens u)) write then cache_unknown "raw_cache_counter_mismatch"
      else if negb (is_some read) && negb (is_some write) then cache_unknown "cache_counters_unreported"
      else {| read_tokens := read; write_tokens := write; cache_source := source; cache_unknown_reason := None |}
  | _, _ => cache_unknown "unsupported_cache_usage_protocol"
  end end end end end.

(** ** What is verified *)

(** The widths of the counters. *)
Record usage_ok (u : Usage) : Prop := {
  ok_prompt : in_u64 (prompt_tokens u); ok_completion : in_u64 (completion_tokens u);
  ok_reasoning : in_u64 (reasoning_tokens u); ok_read : in_u64 (cache_read_tokens u);
  ok_write : in_u64 (cache_write_tokens u) }.
(** A counter of the provider's object, and one that may be left out when it is zero. *)
Definition counts (field : option Value) (n : Z) : Prop := ∃ v, field = Some v ∧ value_u64 v = Some n.
Definition counts_or_zero (field : option Value) (n : Z) : Prop := counts field n ∨ field = None ∧ n = 0.
Definition terminal_field (protocol : ApiProtocol) (raw : Value) (path : list string) : option Value :=
  if bool_decide (protocol = Messages) && bool_decide (path = ["output_tokens"]) && wrapped raw
  then get "message_delta" raw ≫= pointer path else usage_field protocol raw path.
Lemma required_iff protocol raw path n :
  required protocol raw path = Ok n ↔ counts (terminal_field protocol raw path) n.
Proof.
  unfold required, counts, terminal_field. cbn zeta. rewrite bind_ok. split.
  - intros (v & Hv%ok_or_ok & Hn%ok_or_ok). by exists v.
  - intros (v & -> & Hn). exists v. by rewrite Hn.
Qed.
Lemma optional_iff protocol raw path n :
  optional protocol raw path = Ok n ↔ counts_or_zero (path ≫= usage_field protocol raw) n.
Proof.
  unfold optional, counts_or_zero, counts. destruct (path ≫= _) as [v|].
  - rewrite ok_or_ok. naive_solver.
  - split; [intros [= <-]; by right|]. intros [(? & ? & ?)|[_ ->]]; done.
Qed.
(** The buckets are disjoint and add up to the totals, and nothing else is refused. *)
Lemma normalized_iff u n : prompt_tokens u ≤ u64_max →
  normalized_buckets u = Ok n ↔
  0 ≤ uncached_input_tokens n ∧ 0 ≤ output_tokens n ∧
  n_cache_read_tokens n = cache_read_tokens u ∧ n_cache_write_tokens n = cache_write_tokens u ∧
  n_reasoning_tokens n = reasoning_tokens u ∧
  uncached_input_tokens n + cache_read_tokens u + cache_write_tokens u = prompt_tokens u ∧
  output_tokens n + reasoning_tokens u = completion_tokens u.
Proof.
  intros Hmax. unfold normalized_buckets, checked_add, checked_sub. split.
  - destruct (_ <=? u64_max); cbn; [|done]. destruct (_ <=? prompt_tokens u) eqn:E1; cbn; [|done].
    destruct (_ <=? completion_tokens u) eqn:E2; cbn; [|done]. intros [= <-]. cbn. lia.
  - destruct n as [a b c d e]. cbn. intros (? & ? & -> & -> & -> & ? & ?).
    rewrite (proj2 (Z.leb_le _ u64_max)) by lia. cbn. rewrite (proj2 (Z.leb_le _ (prompt_tokens u))) by lia. cbn.
    rewrite (proj2 (Z.leb_le _ (completion_tokens u))) by lia. cbn. do 2 f_equal; lia.
Qed.
(** C25: a provider's usage is verified exactly when it is the provider's own, its buckets fit into its totals, and the
    object that was sent has the shape of the protocol and spells every counter: the totals always, cache and
    reasoning counters unless they are zero. Messages' input excludes the cached tokens, so that the three
    parts add up to the total, and its output is the terminal one. The buckets that are then billed are
    disjoint and add up to the totals. *)
Theorem verified_usage_iff protocol u n :
  usage_ok u →
  validated_provider_usage protocol u = Ok n ↔
  origin u = ProviderReported ∧
  (0 ≤ uncached_input_tokens n ∧ 0 ≤ output_tokens n ∧
   n_cache_read_tokens n = cache_read_tokens u ∧ n_cache_write_tokens n = cache_write_tokens u ∧
   n_reasoning_tokens n = reasoning_tokens u ∧
   uncached_input_tokens n + cache_read_tokens u + cache_write_tokens u = prompt_tokens u ∧
   output_tokens n + reasoning_tokens u = completion_tokens u) ∧
  ∃ v paths input, raw u = Some v ∧ validate_usage_containers protocol v = Ok tt ∧ usage_paths protocol = Ok paths ∧
    counts_or_zero (usage_field protocol v (read_path paths)) (cache_read_tokens u) ∧
    counts_or_zero (write_path paths ≫= usage_field protocol v) (cache_write_tokens u) ∧
    counts_or_zero (reasoning_path paths ≫= usage_field protocol v) (reasoning_tokens u) ∧
    counts (terminal_field protocol v (input_path paths)) input ∧
    counts (terminal_field protocol v (output_path paths)) (completion_tokens u) ∧
    prompt_tokens u = if bool_decide (protocol = Messages) then input + cache_read_tokens u + cache_write_tokens u
                      else input.
Proof.
  intros [Hp _ _ Hr Hw]. unfold in_u64 in *. rewrite <-normalized_iff by lia. unfold validated_provider_usage.
  destruct (normalized_buckets u) as [m|] eqn:Hm; [|split; [intros ([] & _ & (? & [=] & _)%bind_ok)%bind_ok|intros (_ & [=] & _)]].
  split.
  - intros ([] & Ho%ensure_ok & (m' & [= <-] & (v & Hv%ok_or_ok & ([] & Hc & (ps & Hps & Hrest)%bind_ok)%bind_ok)%bind_ok)%bind_ok)%bind_ok.
    apply bind_ok in Hrest as (rd & Hrd%optional_iff & (wr & Hwr%optional_iff & (rs & Hrs%optional_iff &
      (i & Hi%required_iff & (o & Ho'%required_iff & (i' & Hi' & ([] & Heq%ensure_ok & [= <-])%bind_ok)%bind_ok)%bind_ok)%bind_ok)%bind_ok)%bind_ok).
    rewrite negb_true_iff, !orb_false_iff, !negb_false_iff, !Z.eqb_eq in Heq. destruct Heq as ((((-> & ->) & ->) & ->) & ->).
    rewrite negb_involutive, bool_decide_eq_true in Ho. split_and!; [done|done|]. exists v, ps, i. split_and!; try done.
    case_bool_decide; [|congruence]. unfold checked_add in Hi'. apply ok_or_ok in Hi'.
    destruct (_ <=? u64_max); cbn in Hi'; [|done]. destruct (_ <=? u64_max); cbn in Hi'; [|done]. congruence.
  - intros (Ho & [= ->] & v & ps & i & Hv & Hc & Hps & Hrd & Hwr & Hrs & Hi & Hout & Heq).
    rewrite Ho, Hv. cbn. rewrite Hc. cbn. rewrite Hps. cbn.
    apply (optional_iff protocol v (Some (read_path ps))) in Hrd. apply optional_iff in Hwr, Hrs. apply required_iff in Hi, Hout.
    rewrite Hrd. cbn. rewrite Hwr. cbn. rewrite Hrs. cbn. rewrite Hi. cbn. rewrite Hout. cbn.
    assert ((if bool_decide (protocol = Messages) then
      ok_or (j ← checked_add u64_max i (cache_read_tokens u); checked_add u64_max j (cache_write_tokens u))
        "raw_usage_counter_overflow" else Ok i) = Ok (prompt_tokens u)) as ->.
    { case_bool_decide; [|by rewrite Heq]. unfold checked_add. rewrite (proj2 (Z.leb_le _ u64_max)) by lia. cbn.
      rewrite (proj2 (Z.leb_le _ u64_max)) by lia. cbn. by rewrite Heq. }
    cbn. by rewrite !Z.eqb_refl.
Qed.

End verification.
