(* ===== verification/MeteringPricing.v ===== *)
(** Prices and charges ([apps/metering/pricing.rs]): configured rates per token with their context tiers, the
    charge of a request with the evidence for it, and the table of prices. A rate is a binary64 number
    ([f64] of [RoutingState]); the record of a frozen tariff ([apps/metering/tariff.rs]) is here because
    evidence carries it. *)
From Stdlib Require Import ZArith Lia Ascii SpecFloat.
From stdpp Require Import base list strings gmap pretty sorting.
From S2P Require Import Prelude RegistryValue RegistryPricing RoutingState SemanticAssessment MeteringUsage.
Open Scope string_scope.
Open Scope list_scope.
Open Scope Z_scope.

(** ** Binary64 *)

(** [f64::to_bits] *)
Definition to_bits (f : f64) : Z := (if sign_bit f then 2 ^ 63 else 0) + magnitude_bits f.
(** [f64::round]: to the nearest integer, halves away from zero. *)
Definition f64_round (f : f64) : f64 :=
  match f with
  | S754_finite s m e =>
      if 0 <=? e then f else
      let n := (Z.pos m + 2 ^ (- e) / 2) / 2 ^ (- e) in
      if n =? 0 then S754_zero s else binary_normalize 53 1024 (if s then - n else n) 0 s
  | _ => f
  end.
(** [f64::max] *)
Definition f64_max (a b : f64) : f64 :=
  match a, b with
  | S754_nan, _ => b
  | _, S754_nan => a
  | _, _ => if SFltb a b then b else a
  end.
(** [as i64] *)
Definition as_i64 (f : f64) : Z :=
  match f with
  | S754_zero _ | S754_nan => 0
  | S754_infinity s => if s then - i64_max - 1 else i64_max
  | S754_finite s m e =>
      let n := if 0 <=? e then Z.pos m * 2 ^ e else Z.pos m / 2 ^ (- e) in
      Z.max (- i64_max - 1) (Z.min i64_max (if s then - n else n))
  end.

(** ** Rates *)

Inductive PricingEndpointProfile := OpenaiGlobal | OpenaiUs | OpenaiEurope.
Definition profile_str (p : PricingEndpointProfile) : string :=
  match p with OpenaiGlobal => "openai_global" | OpenaiUs => "openai_us" | OpenaiEurope => "openai_europe" end.
Record ContextTier := {
  above_input_tokens : Z; t_input : option f64; t_cache_read : option f64; t_cache_write : option f64;
  t_output : option f64 }.
Record ModelPricing := {
  endpoint_profile_of : option PricingEndpointProfile; p_input : option f64; p_cache_read : option f64;
  p_cache_write : option f64; p_output : option f64; context_tiers : list ContextTier }.
Definition ModelPricing_default : ModelPricing := {|
  endpoint_profile_of := None; p_input := None; p_cache_read := None; p_cache_write := None; p_output := None;
  context_tiers := [] |}.
Definition cache_aware (input cache_read cache_write output : option f64) : ModelPricing := {|
  endpoint_profile_of := None; p_input := input; p_cache_read := cache_read; p_cache_write := cache_write;
  p_output := output; context_tiers := [] |}.
Definition pricing_partial (input output : option f64) : ModelPricing := cache_aware input None None output.
Definition pricing_new (input output : f64) : ModelPricing := pricing_partial (Some input) (Some output).

(** [iter.max_by_key(key)]: the last of the greatest. *)
Definition max_by_key {A} (key : A → Z) (l : list A) : option A :=
  foldl (λ best x, match best with
                   | Some b => if key b <=? key x then Some x else Some b
                   | None => Some x
                   end) None l.
(** [a.or(b)] *)
Definition or_rate (a b : option f64) : option f64 := match a with Some r => Some r | None => b end.
Definition resolve_for_input_tokens (p : ModelPricing) (input_tokens : Z) : ModelPricing :=
  match max_by_key above_input_tokens (List.filter (λ t, above_input_tokens t <? input_tokens) (context_tiers p)) with
  | Some tier => {|
      endpoint_profile_of := endpoint_profile_of p; p_input := or_rate (t_input tier) (p_input p);
      p_cache_read := or_rate (t_cache_read tier) (p_cache_read p);
      p_cache_write := or_rate (t_cache_write tier) (p_cache_write p);
      p_output := or_rate (t_output tier) (p_output p); context_tiers := [] |}
  | None => {|
      endpoint_profile_of := endpoint_profile_of p; p_input := p_input p; p_cache_read := p_cache_read p;
      p_cache_write := p_cache_write p; p_output := p_output p; context_tiers := [] |}
  end.
Definition is_unconfigured (p : ModelPricing) : bool :=
  negb (is_some (p_input p)) && negb (is_some (p_cache_read p)) && negb (is_some (p_cache_write p)) &&
  negb (is_some (p_output p)).
Definition is_complete (p : ModelPricing) : bool :=
  is_some (p_input p) && is_some (p_cache_read p) && is_some (p_cache_write p) && is_some (p_output p).

(** ** Evidence *)

Inductive ChargeStatus := Computed | NotCharged | UnknownCharge | LegacyUnknown.
#[export] Instance ChargeStatus_eq_dec : EqDecision ChargeStatus.
Proof. solve_decision. Defined.
Definition status_str (s : ChargeStatus) : string :=
  match s with
  | Computed => "computed" | NotCharged => "not_charged" | UnknownCharge => "unknown" | LegacyUnknown => "legacy_unknown"
  end.
Definition from_persisted (value : string) : ChargeStatus :=
  if bool_decide (value = "computed") then Computed
  else if bool_decide (value = "not_charged") then NotCharged
  else if bool_decide (value = "unknown") then UnknownCharge
  else LegacyUnknown.
Inductive PricingSource := Configured | Override | ReceiptSource | UnknownSource.
Record EffectivePricingRates := {
  uncached_input_rate : option f64; cache_read_rate : option f64; cache_write_rate : option f64;
  output_rate : option f64 }.
Definition no_rates : EffectivePricingRates := {|
  uncached_input_rate := None; cache_read_rate := None; cache_write_rate := None; output_rate := None |}.
Record ExactRegistryCharge := { currency : string; numerator : string; denominator : string; scope : string }.
Record FrozenTariff := {
  registry_price : option Value; protocol : ApiProtocol; endpoint_profile_name : string;
  tariff_profile : option string; pricing : option ModelPricing; tariff_version : string;
  billing_basis : string; unavailable_reason : option string }.
Record ChargeEvidence := {
  exact_registry_charge : option ExactRegistryCharge; tariff_snapshot : option FrozenTariff; status : ChargeStatus;
  charge_micro_usd : option Z; normalized_usage : NormalizedUsage; effective_rates : EffectivePricingRates;
  pricing_source : PricingSource; evidence_version : string; unknown_reason : option string }.
Definition unknown_evidence (n : NormalizedUsage) (rates : EffectivePricingRates) (source : PricingSource)
    (version reason : string) : ChargeEvidence := {|
  exact_registry_charge := None; tariff_snapshot := None; status := UnknownCharge; charge_micro_usd := None;
  normalized_usage := n; effective_rates := rates; pricing_source := source; evidence_version := version;
  unknown_reason := Some reason |}.
Definition unavailable_charge_evidence (usage : Usage) (reason : string) : ChargeEvidence :=
  unknown_evidence (buckets_or_default usage) no_rates UnknownSource "sha256:unavailable" reason.

(** ** The version of a price *)

(** [to_be_bytes] of a [u64] *)
Definition be_bytes (n : Z) : string :=
  string_of (map (λ i, ascii_of_N (Z.to_N (Z.land (Z.shiftr n (8 * i)) 255))) [7; 6; 5; 4; 3; 2; 1; 0]).
Definition rate_bytes (rate : option f64) : string :=
  match rate with Some value => String (ascii_of_N 1) (be_bytes (to_bits value)) | None => String (ascii_of_N 0) "" end.
Definition tier_bytes (t : ContextTier) : string :=
  be_bytes (above_input_tokens t) +:+ rate_bytes (t_input t) +:+ rate_bytes (t_cache_read t) +:+
  rate_bytes (t_cache_write t) +:+ rate_bytes (t_output t).
Definition version_bytes (p : ModelPricing) : string :=
  match endpoint_profile_of p with Some profile => "endpoint-profile-v1|" +:+ profile_str profile | None => "" end +:+
  rate_bytes (p_input p) +:+ rate_bytes (p_cache_read p) +:+ rate_bytes (p_cache_write p) +:+ rate_bytes (p_output p) +:+
  join "" (map tier_bytes (sort_by_key above_input_tokens (context_tiers p))).
Definition pricing_version `{Sha256} (p : ModelPricing) : string := "sha256:" +:+ sha256_hex (version_bytes p).

(** ** Charges *)

Definition MAX_TRUSTED_TOKENS : Z := 10000000.
Definition charge_buckets (n : NormalizedUsage) (r : EffectivePricingRates) : list (Z * option f64 * string * string) :=
  [(uncached_input_tokens n, uncached_input_rate r, "missing_uncached_input_rate", "invalid_uncached_input_rate");
   (n_cache_read_tokens n, cache_read_rate r, "missing_cache_read_rate", "invalid_cache_read_rate");
   (n_cache_write_tokens n, cache_write_rate r, "missing_cache_write_rate", "invalid_cache_write_rate");
   (output_tokens n, output_rate r, "missing_output_rate", "invalid_output_rate");
   (n_reasoning_tokens n, output_rate r, "missing_output_rate", "invalid_output_rate")].
Definition valid_rate (r : f64) : bool := negb (negb (is_finite r) || SFltb r zero).
Fixpoint add_group (tokens : Z) (rate : f64) (groups : list (Z * f64)) : list (Z * f64) :=
  match groups with
  | [] => [(tokens, rate)]
  | (group_tokens, group_rate) :: groups =>
      if to_bits group_rate =? to_bits rate then (saturating_add u64_max group_tokens tokens, group_rate) :: groups
      else (group_tokens, group_rate) :: add_group tokens rate groups
  end.
Definition group_step (groups : list (Z * f64)) (bucket : Z * option f64 * string * string)
    : result string (list (Z * f64)) :=
  let '(tokens, rate, missing_reason, invalid_reason) := bucket in
  if tokens =? 0 then Ok groups else
  rate ← ok_or rate missing_reason;
  _ ← ensure (valid_rate rate) invalid_reason;
  Ok (add_group (Z.min tokens MAX_TRUSTED_TOKENS) rate groups).
Definition groups_total (groups : list (Z * f64)) : f64 := f64_sum (map (λ g, f64_mul (f64_of g.1) g.2) groups).
Definition calculate_normalized_charge_micro_usd (n : NormalizedUsage) (r : EffectivePricingRates) : result string Z :=
  rate_groups ← try_fold group_step [] (charge_buckets n r);
  let total := groups_total rate_groups in
  _ ← ensure (is_finite total) "invalid_charge_total";
  Ok (as_i64 (f64_max (f64_round total) zero)).
Definition rates_of (p : ModelPricing) : EffectivePricingRates := {|
  uncached_input_rate := p_input p; cache_read_rate := p_cache_read p; cache_write_rate := p_cache_write p;
  output_rate := p_output p |}.
Definition calculate_charge_evidence `{Sha256} (usage : Usage) (p : ModelPricing) (source : PricingSource)
    : ChargeEvidence :=
  let version := pricing_version p in
  let rates := rates_of (resolve_for_input_tokens p (prompt_tokens usage)) in
  match normalized_buckets usage with
  | Err error =>
      unknown_evidence NormalizedUsage_default rates source version
        (match error with
         | InputBucketsOverlap => "invalid_input_buckets"
         | OutputBucketsOverlap => "invalid_output_buckets"
         end)
  | Ok n =>
      match calculate_normalized_charge_micro_usd n rates with
      | Err reason => unknown_evidence n rates source version reason
      | Ok charge => {|
          exact_registry_charge := None; tariff_snapshot := None; status := Computed; charge_micro_usd := Some charge;
          normalized_usage := n; effective_rates := rates; pricing_source := source; evidence_version := version;
          unknown_reason := None |}
      end
  end.
Definition calculate_charge_micro_usd `{Sha256} (usage : Usage) (p : ModelPricing) : option Z :=
  charge_micro_usd (calculate_charge_evidence usage p Configured).

(** ** The table of prices *)

#[export] Instance ApiProtocol_countable : Countable ApiProtocol.
Proof.
  refine (inj_countable' (λ p, match p with ChatCompletions => inl 0%nat | Messages => inl 1%nat | Responses => inl 2%nat
      | Decisions => inl 3%nat | Custom name => inr name end)
    (λ c, match c with inl 0%nat => ChatCompletions | inl 1%nat => Messages | inl 2%nat => Responses
      | inl _ => Decisions | inr name => Custom name end) _).
  by intros [].
Defined.
Record ModelTariffs := { generation : option ModelPricing; by_protocol : gmap ApiProtocol ModelPricing }.
Record PricingTable := {
  entries : gmap (string * string) ModelTariffs; endpoint_profiles : gmap (string * option ApiProtocol) string }.
Definition PricingTable_new : PricingTable := {| entries := ∅; endpoint_profiles := ∅ |}.
(** [entries.entry(key).or_default()] *)
Definition tariffs_at (t : PricingTable) (key : string * string) : ModelTariffs :=
  default {| generation := None; by_protocol := ∅ |} (entries t !! key).
Definition insert_pricing (provider service_id : string) (p : ModelPricing) (t : PricingTable) : PricingTable := {|
  entries := <[(provider, service_id) := {| generation := Some p;
    by_protocol := by_protocol (tariffs_at t (provider, service_id)) |}]> (entries t);
  endpoint_profiles := endpoint_profiles t |}.
Definition insert_for_protocol (provider service_id : string) (wire : ApiProtocol) (p : ModelPricing) (t : PricingTable)
    : PricingTable := {|
  entries := <[(provider, service_id) := {| generation := generation (tariffs_at t (provider, service_id));
    by_protocol := <[wire := p]> (by_protocol (tariffs_at t (provider, service_id))) |}]> (entries t);
  endpoint_profiles := endpoint_profiles t |}.
Definition endpoint_profile_for (t : PricingTable) (provider : string) (wire : ApiProtocol) : option string :=
  match endpoint_profiles t !! (provider, Some wire) with
  | Some profile => Some profile
  | None => endpoint_profiles t !! (provider, None)
  end.
Definition resolve (t : PricingTable) (provider service_id : string) (wire : ApiProtocol) : option ModelPricing :=
  tariffs ← entries t !! (provider, service_id);
  match by_protocol tariffs !! wire with
  | Some p => Some p
  | None => if bool_decide (operation wire = Generation) then generation tariffs else None
  end.
