(* ===== verification/MeteringStream.v ===== *)
(** Usage of a stream ([apps/gateway/pipeline/stream.rs]): the projection of a tariff that compares the usage
    snapshots of a provider, the accumulator that chooses one, and the usage that a finished stream settles. The
    strict price of a block outcome ([apps/tenancy/resources/execution/block_cost.rs]) reads the same projection.
    What is settled is the costliest of the snapshots that were seen where all of them can be priced, and the last
    one otherwise; an estimate only where nothing was reported. *)
From Stdlib Require Import ZArith Lia SpecFloat QArith Qround.
From stdpp Require Import base list strings gmap.
From S2P Require Import Prelude RegistryValue RegistryPricing RoutingState SemanticAssessment MeteringUsage.
From S2P Require Import MeteringPricing.
Open Scope string_scope.
Open Scope list_scope.
Open Scope Z_scope.

Record UsagePricingBracket := {
  b_input : option f64; b_cache_read : option f64; b_cache_write : option f64; b_output : option f64;
  b_reasoning_output : option f64 }.
Definition bracket_default : UsagePricingBracket := {|
  b_input := None; b_cache_read := None; b_cache_write := None; b_output := None; b_reasoning_output := None |}.
Record UsagePricingTier := { tier_above : Z; bracket : UsagePricingBracket }.
Record UsagePricing := {
  stream_registry_price : option Value; base : UsagePricingBracket; stream_tiers : list UsagePricingTier }.

Definition bracket_for (p : UsagePricing) (input_tokens : Z) : UsagePricingBracket :=
  match max_by_key tier_above (List.filter (λ t, tier_above t <? input_tokens) (stream_tiers p)) with
  | Some tier => bracket tier
  | None => base p
  end.
(** [BigRational::from_float] *)
Definition from_float (f : f64) : option Q :=
  match f with
  | S754_zero _ => Some 0%Q
  | S754_finite s m e =>
      let n := if s then Z.neg m else Z.pos m in
      Some (if 0 <=? e then inject_Z (n * 2 ^ e) else n # Z.to_pos (2 ^ (- e)))
  | _ => None
  end.
(** [valid_rate] and [optional_rate] *)
Definition stream_rate (rate : option f64) : option f64 := r ← rate; if valid_rate r then Some r else None.
Definition optional_rate (rate : option f64) : option (option f64) :=
  match rate with
  | Some r => if valid_rate r then Some (Some r) else None
  | None => Some None
  end.
Definition token_usage (n : NormalizedUsage) : TokenUsage := {|
  uncached_input := Some (uncached_input_tokens n); cache_read := Some (n_cache_read_tokens n);
  cache_write := Some (n_cache_write_tokens n); non_reasoning_output := Some (output_tokens n);
  reasoning_output := Some (n_reasoning_tokens n) |}.
Definition times (tokens : Z) (rate : f64) : f64 := f64_mul (f64_of tokens) rate.

Section stream.
Context `{ExactNumber, JsonText}.

Definition nominal_cost (p : UsagePricing) (usage : Usage) : option Q :=
  if 0 <? web_search_count usage then None else
  match stream_registry_price p with
  | Some price =>
      n ← (match normalized_buckets usage with Ok n => Some n | Err _ => None end);
      match charge price (token_usage n) ∅ (as_str (field "endpoint_profile" price)) ReaderPolicy_default with
      | Ok amount => Some amount
      | Err _ => None
      end
  | None =>
      let b := bracket_for p (prompt_tokens usage) in
      input_rate ← stream_rate (b_input b);
      output_rate ← stream_rate (b_output b);
      cache_total ← checked_add u64_max (cache_read_tokens usage) (cache_write_tokens usage);
      uncached_input ← checked_sub (prompt_tokens usage) cache_total;
      text_output ← checked_sub (completion_tokens usage) (reasoning_tokens usage);
      cache_read_rate ← optional_rate (b_cache_read b);
      cache_write_rate ← optional_rate (b_cache_write b);
      reasoning_rate ← optional_rate (b_reasoning_output b);
      let cost := f64_add (f64_add (f64_add (f64_add (times uncached_input input_rate)
        (times (cache_read_tokens usage) (default input_rate cache_read_rate)))
        (times (cache_write_tokens usage) (default input_rate cache_write_rate)))
        (times text_output output_rate))
        (times (reasoning_tokens usage) (default output_rate reasoning_rate)) in
      if is_finite cost then from_float cost else None
  end.

(** ** The accumulator *)

(** The parts of a stream that the accumulator reads. *)
Inductive StreamPart :=
| UsagePart (usage : Usage)
| ResponseCompleted (usage : option Usage)
| TextDelta (text : string)
| ReasoningDelta (text : string)
| OtherPart.
Record UsageAccumulator := {
  acc_usage : Usage; seen : bool; acc_pricing : option UsagePricing; priced_winner : option (Q * Usage);
  every_snapshot_priced : bool; delta_chars : Z; prompt_chars : Z }.
Definition with_prompt_chars (chars : Z) : UsageAccumulator := {|
  acc_usage := Usage_default; seen := false; acc_pricing := None; priced_winner := None;
  every_snapshot_priced := true; delta_chars := 0; prompt_chars := chars |}.
Definition set_pricing (p : option UsagePricing) (a : UsageAccumulator) : UsageAccumulator := {|
  acc_usage := acc_usage a; seen := seen a; acc_pricing := p; priced_winner := priced_winner a;
  every_snapshot_priced := if negb (seen a) then true else every_snapshot_priced a;
  delta_chars := delta_chars a; prompt_chars := prompt_chars a |}.
Definition observe_usage (usage : Usage) (a : UsageAccumulator) : UsageAccumulator :=
  let cost := p ← acc_pricing a; nominal_cost p usage in {|
  acc_usage := usage; seen := true; acc_pricing := acc_pricing a;
  priced_winner := match cost with
    | Some cost => if is_none_or (λ winner, Qle_bool winner.1 cost) (priced_winner a) then Some (cost, usage)
                   else priced_winner a
    | None => priced_winner a
    end;
  every_snapshot_priced := if is_some cost then every_snapshot_priced a else false;
  delta_chars := delta_chars a; prompt_chars := prompt_chars a |}.
Definition observe_delta (text : string) (a : UsageAccumulator) : UsageAccumulator := {|
  acc_usage := acc_usage a; seen := seen a; acc_pricing := acc_pricing a; priced_winner := priced_winner a;
  every_snapshot_priced := every_snapshot_priced a;
  delta_chars := saturating_add u64_max (delta_chars a) (Z.of_nat (length (chars text)));
  prompt_chars := prompt_chars a |}.
Definition observe (a : UsageAccumulator) (part : StreamPart) : UsageAccumulator :=
  match part with
  | UsagePart usage | ResponseCompleted (Some usage) => observe_usage usage a
  | TextDelta text | ReasoningDelta text => observe_delta text a
  | _ => a
  end.
Definition finalized (a : UsageAccumulator) : option Usage :=
  if negb (seen a) then None
  else match acc_pricing a, priced_winner a with
       | Some _, Some (_, usage) => if every_snapshot_priced a then Some usage else Some (acc_usage a)
       | _, _ => Some (acc_usage a)
       end.
Definition STREAM_USAGE_ESTIMATOR_CHARS_PER_TOKEN : Z := 4.
Definition div_ceil (n d : Z) : Z := (n + d - 1) / d.
Definition estimated_output_tokens (a : UsageAccumulator) : Z :=
  div_ceil (delta_chars a) STREAM_USAGE_ESTIMATOR_CHARS_PER_TOKEN.
Definition estimated_prompt_tokens (a : UsageAccumulator) : Z :=
  div_ceil (prompt_chars a) STREAM_USAGE_ESTIMATOR_CHARS_PER_TOKEN.

(** ** The end of a stream *)

Inductive StreamOutcome := Completed_ | ClientDisconnected | UpstreamError | Aborted.
Definition estimates (o : StreamOutcome) : bool :=
  match o with Completed_ | ClientDisconnected => true | UpstreamError | Aborted => false end.
Definition estimated_usage (a : UsageAccumulator) : option Usage :=
  let prompt := estimated_prompt_tokens a in
  let completion := estimated_output_tokens a in
  if (0 <? prompt) || (0 <? completion) then Some {|
    prompt_tokens := prompt; completion_tokens := completion; reasoning_tokens := 0; cache_read_tokens := 0;
    cache_write_tokens := 0; web_search_count := 0; origin := Estimated; raw := None |}
  else None.
Definition usage_eqb (u v : Usage) : bool :=
  (prompt_tokens u =? prompt_tokens v) && (completion_tokens u =? completion_tokens v) &&
  (reasoning_tokens u =? reasoning_tokens v) && (cache_read_tokens u =? cache_read_tokens v) &&
  (cache_write_tokens u =? cache_write_tokens v) && (web_search_count u =? web_search_count v) &&
  bool_decide (origin u = origin v) &&
  match raw u, raw v with Some a, Some b => value_eqb a b | None, None => true | _, _ => false end.
(** The usage that [finish] leaves in [final_usage], on top of what hooks left there. *)
Definition final_usage (prior : option Usage) (a : UsageAccumulator) (outcome : StreamOutcome) : option Usage :=
  match finalized a with
  | Some usage =>
      match (if usage_eqb usage Usage_default && estimates outcome then estimated_usage a else None) with
      | Some estimated => Some estimated
      | None => Some usage
      end
  | None =>
      match (if estimates outcome then estimated_usage a else None) with
      | Some estimated => Some estimated
      | None => prior
      end
  end.

(** ** Block outcomes *)

Definition used_without_rate (count : Z) (rate : option f64) : bool :=
  negb (count =? 0) && negb (is_some_and valid_rate rate).
Definition known (p : UsagePricing) (usage : Usage) : option Q :=
  if is_some (stream_registry_price p) then None else
  let b := bracket_for p (prompt_tokens usage) in
  if used_without_rate (cache_read_tokens usage) (b_cache_read b) ||
     used_without_rate (cache_write_tokens usage) (b_cache_write b) then None
  else nominal_cost p usage.
Definition receipt_cost (cost : Q) : option Z :=
  if negb (Qle_bool 0 cost) || negb (Qle_bool cost (inject_Z 9007199254740991)) then None
  else let n := Qceiling cost in if n <=? u64_max then Some n else None.

End stream.

Section snapshots.
Context `{ExactNumber, JsonText}.

(** The usage snapshots and the text of a stream. *)
Definition snapshot_of (part : StreamPart) : option Usage :=
  match part with UsagePart u | ResponseCompleted (Some u) => Some u | _ => None end.
Definition delta_of (part : StreamPart) : Z :=
  match part with TextDelta t | ReasoningDelta t => Z.of_nat (length (chars t)) | _ => 0 end.
Definition stream_run (p : option UsagePricing) (prompt_chars : Z) (parts : list StreamPart) : UsageAccumulator :=
  foldl observe (set_pricing p (with_prompt_chars prompt_chars)) parts.
(** The last of the costliest. *)
Definition costliest (q : UsagePricing) (us : list Usage) (c : Q) (u : Usage) : Prop :=
  nominal_cost q u = Some c ∧ ∃ l1 l2, us = l1 ++ u :: l2 ∧
    Forall (λ v, ∃ c', nominal_cost q v = Some c' ∧ (c' <= c)%Q) l1 ∧
    Forall (λ v, ∃ c', nominal_cost q v = Some c' ∧ (c' < c)%Q) l2.
Record tracks (p : option UsagePricing) (chars : Z) (parts : list StreamPart) (a : UsageAccumulator) : Prop := {
  k_pricing : acc_pricing a = p;
  k_seen : seen a = negb (bool_decide (omap snapshot_of parts = []));
  k_usage : acc_usage a = default Usage_default (last (omap snapshot_of parts));
  k_priced : every_snapshot_priced a =
    forallb (λ u, is_some (q ← p; nominal_cost q u)) (omap snapshot_of parts);
  k_winner : every_snapshot_priced a = true →
    match priced_winner a with
    | Some (c, u) => ∃ q, p = Some q ∧ costliest q (omap snapshot_of parts) c u
    | None => omap snapshot_of parts = []
    end;
  k_delta : delta_chars a = Z.min u64_max (sum_by delta_of parts);
  k_prompt : prompt_chars a = chars }.
Lemma costliest_next q us c u v c' : costliest q us c u → nominal_cost q v = Some c' →
  if Qle_bool c c' then costliest q (us ++ [v]) c' v else costliest q (us ++ [v]) c u.
Proof.
  intros (Hu & l1 & l2 & -> & H1 & H2) Hv. destruct (Qle_bool c c') eqn:Hle.
  - apply Qle_bool_iff in Hle. split; [done|]. exists (l1 ++ u :: l2), []. split_and!; [done| |done].
    apply Forall_app. split; [|constructor; [by exists c|]]; eapply Forall_impl; try done; intros x (cx & ? & ?); exists cx;
      (split; [done|]); [by eapply Qle_trans|]. apply Qlt_le_weak. by eapply Qlt_le_trans.
  - split; [done|]. exists l1, (l2 ++ [v]). rewrite <-app_assoc. split_and!; [done..|]. apply Forall_app. split; [done|].
    constructor; [|done]. exists c'. split; [done|]. apply Qnot_le_lt. intros Hc%Qle_bool_iff. congruence.
Qed.
Lemma delta_nonneg parts : 0 ≤ sum_by delta_of parts.
Proof. apply sum_by_nonneg. intros x _. destruct x; cbn; lia. Qed.
Lemma stream_tracks p n parts : tracks p n parts (stream_run p n parts).
Proof.
  unfold stream_run. induction parts as [|x parts IH] using rev_ind; [by split|].
  rewrite foldl_app. cbn [foldl]. set (a := foldl _ _ _) in *. destruct IH as [Hp Hs Hu He Hw Hd Hc].
  assert (∀ u, snapshot_of x = Some u → delta_of x = 0 → tracks p n (parts ++ [x]) (observe_usage u a)) as Husage.
  { intros u Hx Hx0. unfold observe_usage. rewrite Hp. cbn zeta.
    assert (omap snapshot_of (parts ++ [x]) = omap snapshot_of parts ++ [u]) as Ho by (rewrite omap_app; cbn; by rewrite Hx).
    split; cbn [acc_pricing seen acc_usage every_snapshot_priced priced_winner delta_chars prompt_chars]; rewrite ?Ho.
    - done.
    - by destruct (omap snapshot_of parts).
    - by rewrite last_snoc.
    - rewrite forallb_app. cbn. rewrite andb_true_r, <-He.
      destruct (is_some _); [by rewrite andb_true_r|by rewrite andb_false_r].
    - destruct p as [q|]; cbn; [|done]. destruct (nominal_cost q u) as [c'|] eqn:Hcost; [|done]. cbn.
      intros He'. specialize (Hw He'). destruct (priced_winner a) as [[c v]|]; cbn.
      + destruct Hw as (q' & [= <-] & Hcl). pose proof (costliest_next q _ c v u c' Hcl Hcost).
        destruct (Qle_bool c c'); by exists q.
      + exists q. split; [done|]. rewrite Hw. split; [done|]. by exists [], [].
    - rewrite Hd, sum_by_app, sum_by_cons, Hx0. cbn. f_equal. lia.
    - done. }
  assert (∀ t, snapshot_of x = None → delta_of x = Z.of_nat (length (chars t)) →
    tracks p n (parts ++ [x]) (observe_delta t a)) as Hdelta.
  { intros t Hx Hx0. assert (omap snapshot_of (parts ++ [x]) = omap snapshot_of parts) as Ho
      by (rewrite omap_app; cbn; rewrite Hx; by rewrite app_nil_r).
    split; cbn [observe_delta acc_pricing seen acc_usage every_snapshot_priced priced_winner delta_chars prompt_chars]; rewrite ?Ho;
      try done. rewrite Hd, sum_by_app, sum_by_cons, Hx0. unfold saturating_add. pose proof (delta_nonneg parts).
    cbn [sum_by foldr]. lia. }
  assert (snapshot_of x = None → delta_of x = 0 → tracks p n (parts ++ [x]) a) as Hother.
  { intros Hx Hx0. assert (omap snapshot_of (parts ++ [x]) = omap snapshot_of parts) as Ho
      by (rewrite omap_app; cbn; rewrite Hx; by rewrite app_nil_r).
    split; rewrite ?Ho; try done. rewrite Hd, sum_by_app, sum_by_cons, Hx0. cbn. f_equal. lia. }
  destruct x as [u|[u|]|t|t|]; cbn [observe]; auto.
Qed.
Lemma div_ceil_4 k : div_ceil k STREAM_USAGE_ESTIMATOR_CHARS_PER_TOKEN = Qceiling (k # 4).
Proof.
  unfold div_ceil, STREAM_USAGE_ESTIMATOR_CHARS_PER_TOKEN, Qceiling, Qfloor. cbn [Qopp Qnum Qden].
  Z.to_euclidean_division_equations. lia.
Qed.
(** C17: the usage of a stream is never the cheaper reading: where every snapshot that the provider sent can be
    priced, the accumulator settles a costliest one, the last of equals, so none that was seen costs more; where
    one of them cannot be priced, or there are no prices, it settles the last. With no snapshot there is none,
    and what is then estimated is a quarter of the characters, rounded up. *)
Theorem costliest_snapshot_wins p n parts :
  let a := stream_run p n parts in
  let us := omap snapshot_of parts in
  (us = [] → finalized a = None) ∧
  (p = None ∨ (∃ q u, p = Some q ∧ u ∈ us ∧ nominal_cost q u = None) → finalized a = last us) ∧
  (∀ q, p = Some q → us ≠ [] → Forall (λ u, is_Some (nominal_cost q u)) us →
   ∃ u c, finalized a = Some u ∧ costliest q us c u) ∧
  (estimated_prompt_tokens a = Qceiling (n # 4) ∧
   estimated_output_tokens a = Qceiling (Z.min u64_max (sum_by delta_of parts) # 4)).
Proof.
  cbn zeta. destruct (stream_tracks p n parts) as [Hp Hs Hu He Hw Hd Hc]. set (a := stream_run p n parts) in *.
  set (us := omap snapshot_of parts) in *. clearbody a us. unfold finalized. rewrite Hs, Hp. split_and!.
  - by intros ->.
  - destruct (last us) as [latest|] eqn:Hl; [|apply last_None in Hl as ->; done].
    assert (us ≠ []) as Hne by (intros ->; done). rewrite bool_decide_eq_false_2 by done. cbn in Hu |- *. rewrite Hu.
    intros [->|(q & u & -> & Hin & Hcost)]; [done|].
    assert (every_snapshot_priced a = false) as ->; [|by destruct (priced_winner a) as [[]|]].
    rewrite He. apply not_true_is_false. intros Hall. rewrite forallb_forall in Hall.
    specialize (Hall u (proj1 (list_elem_of_In _ _) Hin)). cbn in Hall. by rewrite Hcost in Hall.
  - intros q -> Hne Hall. rewrite bool_decide_eq_false_2 by done. cbn.
    assert (every_snapshot_priced a = true) as Heq.
    { rewrite He. apply forallb_forall. intros u Hin%list_elem_of_In. rewrite Forall_forall in Hall. cbn.
      unfold is_some. by apply bool_decide_eq_true, Hall. }
    specialize (Hw Heq). rewrite Heq. destruct (priced_winner a) as [[c u]|]; [|done]. destruct Hw as (q' & [= <-] & Hcl).
    by exists u, c.
  - unfold estimated_prompt_tokens. by rewrite div_ceil_4, Hc.
  - unfold estimated_output_tokens. by rewrite div_ceil_4, Hd.
Qed.
End snapshots.
