(* ===== verification/MeteringTariff.v ===== *)
(** Tariffs frozen at admission ([apps/metering/tariff.rs]): the snapshot of a target's price, whether it covers
    every usage, the hook that captures the snapshots of a chain of targets, the charge by a frozen tariff and
    the settlement of a request. The parser of URLs is a parameter ([url]); so are the debug texts of strings
    and JSON values that enter digests. A [PipelineContext] is the events and the parameters of the prompt
    that this module reads. *)
From Stdlib Require Import ZArith Lia Ascii SpecFloat QArith Qround.
From stdpp Require Import base list strings gmap pretty.
From S2P Require Import Prelude RegistryValue RegistryPricing RoutingState SemanticAssessment MeteringUsage.
From S2P Require Import MeteringPricing MeteringStream.
Open Scope string_scope.
Open Scope list_scope.
Open Scope Z_scope.

(** A parsed URL once its credentials and its fragment are removed. *)
Record ParsedUrl := {
  url_scheme : string; url_port : option Z; url_path : string; url_query : option string; url_host : option string;
  url_text : string }.
Class TariffEnv := {
  parse_base : string → option ParsedUrl;
  debug_str : string → string;
  debug_value : Value → string;
}.

(** [format!("{:?}")] of an option *)
Definition debug_option {A} (debug : A → string) (o : option A) : string :=
  match o with Some a => "Some(" +:+ debug a +:+ ")" | None => "None" end.
(** [str::trim_end_matches] of a character *)
Fixpoint trim_end (c : ascii) (s : string) : string :=
  match s with
  | EmptyString => EmptyString
  | String x s => let r := trim_end c s in if is_empty r && bool_decide (x = c) then EmptyString else String x r
  end.

Record SelectedInterface := {
  provider_id : string; provider_model_id : string; tariff_endpoint : option string; verified_profile : option string;
  billing : option string; interface : Value }.
(** The fields of a target that decide its price. *)
Record RoutingTarget := {
  registry : option SelectedInterface; provider_name : string; service_id : string; api_base : string;
  api_protocol : ApiProtocol; api_base_override : option string }.
Definition effective_api_base (t : RoutingTarget) : string := default (api_base t) (api_base_override t).
Record PricingTargetKey := { key_provider : string; key_model : string; key_protocol : ApiProtocol; endpoint_digest : string }.
#[export] Instance PricingTargetKey_eq_dec : EqDecision PricingTargetKey.
Proof. solve_decision. Defined.
Record TargetTariffSnapshot := { target : PricingTargetKey; tariff : FrozenTariff }.
Record UsagePricingSnapshot := { usage_target : PricingTargetKey; usage_pricing : option UsagePricing }.
Record RegistryPhysicalAttempts := {
  count : Z; registry_dispatched : bool; pricing_unverified : bool; require_known : bool }.

(** ** Requests *)

Record GenerationParams := {
  extra : gmap string Value; extra_protocol : option ApiProtocol; supplemental_extra : gmap string Value }.
Definition extra_value_for_protocol (params : GenerationParams) (wire : ApiProtocol) (key : string) : option Value :=
  let source := if is_none_or (λ source, bool_decide (source = wire)) (extra_protocol params)
                then extra params !! key else None in
  match source with Some v => Some v | None => supplemental_extra params !! key end.
Definition request_pricing_unverified (params : GenerationParams) (wire : ApiProtocol) : bool :=
  is_some_and (λ tier, negb (bool_decide (as_str tier = Some "default")))
    (extra_value_for_protocol params wire "service_tier").

Inductive Event :=
| Attempts (a : RegistryPhysicalAttempts)
| Tariff (s : TargetTariffSnapshot)
| Projection (s : UsagePricingSnapshot).
Record PipelineContext := { generation_params : option GenerationParams; events : list Event }.
Definition tariff_events (l : list Event) : list TargetTariffSnapshot :=
  omap (λ e, match e with Tariff s => Some s | _ => None end) l.
Definition attempts_event (l : list Event) : option RegistryPhysicalAttempts :=
  head (omap (λ e, match e with Attempts a => Some a | _ => None end) l).
Definition emit (e : Event) (ctx : PipelineContext) : PipelineContext :=
  {| generation_params := generation_params ctx; events := events ctx ++ [e] |}.
(** [rev().find(f)] *)
Definition last_snapshot (key : PricingTargetKey) (l : list TargetTariffSnapshot) : option TargetTariffSnapshot :=
  rfind (λ s, bool_decide (target s = key)) l.
(** The counters of physical attempts are atomics: [dispatched] retries its exchange until it is the one that
    counts, and stops at the end of the counter. *)
Definition dispatched (by_registry : bool) (a : RegistryPhysicalAttempts) : RegistryPhysicalAttempts := {|
  count := match checked_add u64_max (count a) 1 with Some n => n | None => count a end;
  registry_dispatched := by_registry || registry_dispatched a;
  pricing_unverified := pricing_unverified a; require_known := require_known a |}.
(** Update the first event of attempts, which is shared. *)
Fixpoint alter_attempts (f : RegistryPhysicalAttempts → RegistryPhysicalAttempts) (l : list Event) : list Event :=
  match l with
  | [] => []
  | Attempts a :: l => Attempts (f a) :: l
  | e :: l => e :: alter_attempts f l
  end.
Definition admit_registry_request_pricing (t : RoutingTarget) (params : GenerationParams) (ctx : PipelineContext)
    : PipelineContext * result string unit :=
  match (if is_some (registry t) && request_pricing_unverified params (api_protocol t)
         then attempts_event (events ctx) else None) with
  | Some attempts =>
      ({| generation_params := generation_params ctx; events := alter_attempts (λ a, {|
            count := count a; registry_dispatched := registry_dispatched a; pricing_unverified := true;
            require_known := require_known a |}) (events ctx) |},
       ensure (negb (require_known attempts)) "known registry price is unavailable for this request processing tier")
  | None => (ctx, Ok tt)
  end.

Section tariff.
Context `{TariffEnv, Sha256, ExactNumber, JsonText}.

Definition digest (text : string) : string := "sha256:" +:+ sha256_hex text.
Definition from_target (t : RoutingTarget) : PricingTargetKey := {|
  key_provider := provider_name t; key_model := service_id t; key_protocol := api_protocol t;
  endpoint_digest := digest (effective_api_base t) |}.

(** ** Admission *)

Definition endpoint_profile (api_base : string) : string :=
  match parse_base api_base with
  | None => "invalid_endpoint"
  | Some url =>
      let known :=
        if bool_decide (url_scheme url = "https") && is_none_or (λ port, port =? 443) (url_port url) &&
           bool_decide (trim_end "/" (url_path url) = "/v1") && negb (is_some (url_query url)) then
          match url_host url with
          | Some host => if bool_decide (host = "api.openai.com") then Some "openai_global"
                         else if bool_decide (host = "us.api.openai.com") then Some "openai_us"
                         else if bool_decide (host = "eu.api.openai.com") then Some "openai_europe" else None
          | None => None
          end
        else None in
      match known with Some profile => profile | None => "configured:" +:+ digest (url_text url) end
  end.

Definition compatibility_supported (interface : Value) : bool :=
  match get "compatibility" interface with
  | None => true
  | Some compat => is_some_and (forallb (λ entry : string * Value, bool_decide (entry.1 = "extensions") ||
      is_str "chat_completions" (field "protocol" interface) &&
      bool_decide (entry.1 ∈ ["token_limit_field"; "supports_store"; "supports_stream_options"; "google_extensions"])))
      (as_object compat)
  end.
Definition supported (interface : Value) (policy : ReaderPolicy) : bool :=
  supports policy interface && compatibility_supported interface &&
  is_none_or (λ profile, bool_decide (profile = "default")) (as_str (field "protocol_profile" interface)) &&
  match as_str (field "protocol" interface), as_str (field "operation" interface) with
  | Some wire, Some op =>
      bool_decide (wire ∈ ["chat_completions"; "messages"; "responses"]) && bool_decide (op = "generation") ||
      bool_decide (wire = "decisions") && bool_decide (op = "decisions")
  | _, _ => false
  end.
Definition target_is_valid (t : RoutingTarget) : bool :=
  match registry t with
  | None => true
  | Some selected =>
      let op := if bool_decide (operation (api_protocol t) = DecisionsOperation) then "decisions" else "generation" in
      bool_decide (provider_id selected = provider_name t) && bool_decide (provider_model_id selected = service_id t) &&
      is_str (protocol_str (api_protocol t)) (field "protocol" (interface selected)) &&
      is_str op (field "operation" (interface selected)) && supported (interface selected) ReaderPolicy_default
  end.

Definition registry_reason (t : RoutingTarget) (selected : SelectedInterface) (price : option Value) (profile : string)
    : option string :=
  let same_endpoint := is_some_and (λ base, bool_decide (trim_end "/" base = trim_end "/" (effective_api_base t)))
    (tariff_endpoint selected) in
  if negb (target_is_valid t) then Some "registry_target_mismatch"
  else if negb (bool_decide (billing selected = Some "usage")) then Some "registry_billing_unavailable"
  else if negb (is_some price) then Some "pricing_not_found"
  else match price ≫= (λ p, as_str (field "endpoint_profile" p)) with
       | Some declared =>
           if negb (bool_decide (declared ∈ ["openai_global"; "openai_us"; "openai_europe"])) ||
              negb (bool_decide (verified_profile selected = Some declared)) || negb (bool_decide (profile = declared))
           then Some "endpoint_profile_unverified" else None
       | None => if negb same_endpoint then Some "tariff_endpoint_changed" else None
       end.
Definition registry_snapshot (t : RoutingTarget) (selected : SelectedInterface) : TargetTariffSnapshot :=
  let price := get "pricing" (interface selected) in
  let profile := endpoint_profile (effective_api_base t) in
  let reason := registry_reason t selected price profile in
  let version := digest ("registry-tariff-v1|" +:+ protocol_str (api_protocol t) +:+ "|" +:+ profile +:+ "|" +:+
    debug_option debug_str (verified_profile selected) +:+ "|" +:+ debug_option debug_value price +:+ "|" +:+
    debug_option debug_str reason) in {|
  target := from_target t;
  tariff := {| registry_price := price; protocol := api_protocol t; endpoint_profile_name := profile;
    tariff_profile := verified_profile selected; pricing := None; tariff_version := version;
    billing_basis := "registry-exact-disjoint-usage-v1"; unavailable_reason := reason |} |}.
Definition configured_profile (table : PricingTable) (t : RoutingTarget) (p : option ModelPricing) : option string :=
  match p ≫= endpoint_profile_of with
  | Some profile => Some (profile_str profile)
  | None => endpoint_profile_for table (provider_name t) (api_protocol t)
  end.
Definition configured_reason (profile : string) (configured : option string) (p : option ModelPricing) : option string :=
  if bool_decide (profile = "invalid_endpoint") then Some "endpoint_profile_unavailable"
  else match configured with
       | None => Some "endpoint_profile_unavailable"
       | Some expected =>
           if negb (bool_decide (expected = profile)) then Some "endpoint_profile_mismatch"
           else if is_none_or is_unconfigured p then Some "pricing_not_found" else None
       end.
Definition snapshot (table : PricingTable) (t : RoutingTarget) : TargetTariffSnapshot :=
  match registry t with
  | Some selected => registry_snapshot t selected
  | None =>
      let profile := endpoint_profile (effective_api_base t) in
      let p := resolve table (provider_name t) (service_id t) (api_protocol t) in
      let configured := configured_profile table t p in
      let reason := configured_reason profile configured p in
      let basis := if bool_decide (api_protocol t = Decisions) then "decisions-zero-cache-only-v1"
                   else "normalized-disjoint-usage-v1" in
      let rates_version := match p with Some p => pricing_version p | None => "unavailable" end in
      let version := digest ("tariff-v2|" +:+ protocol_str (api_protocol t) +:+ "|" +:+ profile +:+ "|" +:+
        debug_option debug_str configured +:+ "|" +:+ basis +:+ "|" +:+ rates_version +:+ "|" +:+
        default "available" reason) in {|
      target := from_target t;
      tariff := {| registry_price := None; protocol := api_protocol t; endpoint_profile_name := profile;
        tariff_profile := configured; pricing := p; tariff_version := version; billing_basis := basis;
        unavailable_reason := reason |} |}
  end.

Definition complete_rates (p : ModelPricing) : bool :=
  forallb (is_some_and valid_rate) [p_input p; p_cache_read p; p_cache_write p; p_output p].
Definition is_number (v : Value) : bool := match v with VNumber _ => true | _ => false end.
Definition rate_paths : list (list string) :=
  [["input_tokens"; "no_cache"]; ["input_tokens"; "cache_read"]; ["input_tokens"; "cache_write"];
   ["output_tokens"; "text"]; ["output_tokens"; "reasoning"]].
Definition guarantees_known_price (f : FrozenTariff) : bool :=
  match registry_price f with
  | Some price =>
      negb (bool_decide (protocol f = Decisions)) && negb (is_some (unavailable_reason f)) &&
      is_str "token" (field "kind" price) && is_str "USD" (field "currency" price) &&
      supports ReaderPolicy_default price && forallb (λ path, is_some_and is_number (pointer path price)) rate_paths
  | None =>
      if bool_decide (protocol f = Decisions) || is_some (unavailable_reason f) then false
      else is_some_and (λ p, complete_rates p && forallb (λ tier, complete_rates
             (resolve_for_input_tokens p (saturating_add u64_max (above_input_tokens tier) 1))) (context_tiers p))
           (pricing f)
  end.

Definition stream_bracket (p : ModelPricing) : UsagePricingBracket := {|
  b_input := p_input p; b_cache_read := p_cache_read p; b_cache_write := p_cache_write p; b_output := p_output p;
  b_reasoning_output := None |}.
Definition stream_pricing (p : ModelPricing) : UsagePricing := {|
  stream_registry_price := None; base := stream_bracket p;
  stream_tiers := map (λ tier, {| tier_above := above_input_tokens tier;
    bracket := stream_bracket (resolve_for_input_tokens p (saturating_add u64_max (above_input_tokens tier) 1)) |})
    (context_tiers p) |}.

(** ** The hook *)

Record CaptureTariffs := { capture_pricing : PricingTable; capture_require_known : bool }.
Definition tier_unverified (t : RoutingTarget) (ctx : PipelineContext) : bool :=
  is_some (registry t) && is_some_and (λ p, request_pricing_unverified p (api_protocol t)) (generation_params ctx).
Definition captured (c : CaptureTariffs) (ctx : PipelineContext) (t : RoutingTarget) : TargetTariffSnapshot :=
  let s := snapshot (capture_pricing c) t in
  if tier_unverified t ctx then {|
    target := target s;
    tariff := let f := tariff s in {|
      registry_price := registry_price f; protocol := protocol f; endpoint_profile_name := endpoint_profile_name f;
      tariff_profile := tariff_profile f; pricing := pricing f;
      tariff_version := tariff_version f +:+ ":processing-tier-unverified"; billing_basis := billing_basis f;
      unavailable_reason := Some "registry_processing_tier_unverified" |} |}
  else s.
Definition projection_of (f : FrozenTariff) : option UsagePricing :=
  if negb (is_some (unavailable_reason f)) then
    match registry_price f with
    | Some price => Some {| stream_registry_price := Some price; base := bracket_default; stream_tiers := [] |}
    | None => option_map stream_pricing (pricing f)
    end
  else None.
Definition emit_snapshot (ctx : PipelineContext) (s : TargetTariffSnapshot) : PipelineContext :=
  emit (Tariff s) (emit (Projection {| usage_target := target s; usage_pricing := projection_of (tariff s) |}) ctx).
Definition after_resolve (c : CaptureTariffs) (chain : list RoutingTarget) (ctx : PipelineContext)
    : result string PipelineContext :=
  let ctx := if is_some (attempts_event (events ctx)) then ctx else emit (Attempts {|
    count := 0; registry_dispatched := false; pricing_unverified := false; require_known := capture_require_known c |}) ctx in
  let snapshots := map (captured c ctx) chain in
  _ ← ensure (negb (capture_require_known c && existsb (λ s, negb (guarantees_known_price (tariff s))) snapshots))
        "known-price coverage is unavailable for the selected route";
  Ok (foldl emit_snapshot ctx snapshots).
Definition revalidate_context (c : CaptureTariffs) (chain : list RoutingTarget) (ctx : PipelineContext)
    : result string unit :=
  for_each (λ t,
    s ← ok_or (last_snapshot (from_target t) (tariff_events (events ctx)))
          "rebuilt context has no admitted tariff for the selected route";
    ensure (negb (capture_require_known c && (negb (guarantees_known_price (tariff s)) || tier_unverified t ctx)))
      "known-price coverage is unavailable for the selected route") chain.

(** ** Charges *)

Definition registry_amount (f : FrozenTariff) (price : Value) (usage : Usage)
    : option (Z * NormalizedUsage * ExactRegistryCharge) :=
  if is_some (unavailable_reason f) || negb (bool_decide (origin usage ∈ [ProviderReported; AuthoritativeReceipt])) ||
     (0 <? web_search_count usage) then None else
  if bool_decide (protocol f = Decisions) && ((0 <? cache_read_tokens usage) || (0 <? cache_write_tokens usage))
  then None else
  n ← (match normalized_buckets usage with Ok n => Some n | Err _ => None end);
  amount ← (match charge price (token_usage n) ∅ (tariff_profile f) ReaderPolicy_default with
            | Ok amount => Some amount | Err _ => None end);
  let micro := (amount * inject_Z 1000000)%Q in
  let rounded := Z.quot (Qnum (micro + (1 # 2))) (Z.pos (Qden (micro + (1 # 2)))) in
  rounded ← (if (- i64_max - 1 <=? rounded) && (rounded <=? i64_max) then Some rounded else None);
  Some (rounded, n, {| currency := "USD"; numerator := pretty (Qnum (Qred amount));
    denominator := pretty (Z.pos (Qden (Qred amount))); scope := "attempt" |}).
Definition with_tariff (f : FrozenTariff) (e : ChargeEvidence) : ChargeEvidence := {|
  exact_registry_charge := exact_registry_charge e; tariff_snapshot := Some f; status := status e;
  charge_micro_usd := charge_micro_usd e; normalized_usage := normalized_usage e; effective_rates := effective_rates e;
  pricing_source := pricing_source e; evidence_version := tariff_version f; unknown_reason := unknown_reason e |}.
Definition registry_charge_evidence (f : FrozenTariff) (price : Value) (usage : Usage) (source : PricingSource)
    : ChargeEvidence :=
  let e := unavailable_charge_evidence usage (default "registry_price_or_usage_unavailable" (unavailable_reason f)) in
  with_tariff f (match registry_amount f price usage with
  | Some (amount, n, exact) => {|
      exact_registry_charge := Some exact; tariff_snapshot := tariff_snapshot e; status := Computed;
      charge_micro_usd := Some amount; normalized_usage := n; effective_rates := effective_rates e;
      pricing_source := source; evidence_version := evidence_version e; unknown_reason := None |}
  | None => e
  end).
Definition decisions_cache (wire : ApiProtocol) (usage : Usage) : bool :=
  bool_decide (wire = Decisions) && (negb (cache_read_tokens usage =? 0) || negb (cache_write_tokens usage =? 0)).
Definition charge_evidence (f : FrozenTariff) (usage : Usage) (source : PricingSource) : ChargeEvidence :=
  match registry_price f with
  | Some price => registry_charge_evidence f price usage source
  | None =>
      let reason :=
        if bool_decide (origin usage = UnknownOrigin) then Some "usage_unavailable"
        else match unavailable_reason f with
             | Some reason => Some reason
             | None => if decisions_cache (protocol f) usage then Some "decisions_cache_billing_unverified" else None
             end in
      with_tariff f (match reason, pricing f with
        | Some reason, _ => unavailable_charge_evidence usage reason
        | None, Some p => calculate_charge_evidence usage p source
        | None, None => unavailable_charge_evidence usage "pricing_not_found"
        end)
  end.
Definition override_charge_evidence (usage : Usage) (p : ModelPricing) (admitted : option FrozenTariff) : ChargeEvidence :=
  let e := if is_some_and (λ f, decisions_cache (protocol f) usage) admitted
           then unavailable_charge_evidence usage "decisions_cache_billing_unverified"
           else calculate_charge_evidence usage p Override in
  match admitted with
  | None => e
  | Some f => {|
      exact_registry_charge := exact_registry_charge e; tariff_snapshot := Some f; status := status e;
      charge_micro_usd := charge_micro_usd e; normalized_usage := normalized_usage e;
      effective_rates := effective_rates e; pricing_source := pricing_source e;
      evidence_version := digest ("override-v1|" +:+ tariff_version f +:+ "|" +:+ evidence_version e);
      unknown_reason := unknown_reason e |}
  end.

(** ** Settlement *)

Record SettlementContext := {
  settled_target : option RoutingTarget; settled_operation : ModelOperation; settled_provider : string;
  settled_model : string; settled_usage : Usage; settled_events : list Event }.
Definition logical_scope (e : ChargeEvidence) : ChargeEvidence := {|
  exact_registry_charge := option_map (λ x, {| currency := currency x; numerator := numerator x;
    denominator := denominator x; scope := "logical_request" |}) (exact_registry_charge e);
  tariff_snapshot := tariff_snapshot e; status := status e; charge_micro_usd := charge_micro_usd e;
  normalized_usage := normalized_usage e; effective_rates := effective_rates e; pricing_source := pricing_source e;
  evidence_version := evidence_version e; unknown_reason := unknown_reason e |}.
Definition settlement_charge_evidence (ctx : SettlementContext) : ChargeEvidence :=
  let usage := settled_usage ctx in
  match settled_target ctx with
  | None => unavailable_charge_evidence usage
      (if bool_decide (origin usage = UnknownOrigin) then "usage_unavailable" else "target_protocol_unavailable")
  | Some t =>
      let attempts := attempts_event (settled_events ctx) in
      if is_some_and pricing_unverified attempts
      then unavailable_charge_evidence usage "registry_processing_tier_unverified"
      else if (is_some (registry t) || is_some_and registry_dispatched attempts) &&
              is_none_or (λ a, negb (count a =? 1)) attempts
      then unavailable_charge_evidence usage "registry_attempt_completeness_unavailable"
      else if negb (bool_decide (operation (api_protocol t) = settled_operation ctx)) ||
              negb (bool_decide (provider_name t = settled_provider ctx)) ||
              negb (bool_decide (service_id t = settled_model ctx))
      then unavailable_charge_evidence usage "settlement_target_mismatch"
      else match last_snapshot (from_target t) (tariff_events (settled_events ctx)) with
           | Some s => logical_scope (charge_evidence (tariff s) usage Configured)
           | None => unavailable_charge_evidence usage "pricing_snapshot_unavailable"
           end
  end.

(** ** Estimates of attempts *)

(** The parts of a report of one attempt that its price is estimated from. *)
Record NativeAttemptReport := {
  result_usage : option Usage; route_protocol : ApiProtocol; actual_provider : option string;
  actual_model : option string }.
(** What an estimate can be; a rejected report keeps commitments to one instead. *)
Inductive NativeTokenCost :=
| CostUnknown (reason : string)
| ConfiguredEstimate (micro_usd : Z) (usage_origin : UsageOrigin) (normalized : NormalizedUsage)
    (rates : EffectivePricingRates) (version pricing_provider pricing_model : string).
Definition all_rates (r : EffectivePricingRates) : list (option f64) :=
  [uncached_input_rate r; cache_read_rate r; cache_write_rate r; output_rate r].
Definition all_counts (n : NormalizedUsage) : list Z :=
  [uncached_input_tokens n; n_cache_read_tokens n; n_cache_write_tokens n; output_tokens n; n_reasoning_tokens n].
Definition estimate (f : FrozenTariff) (report : NativeAttemptReport) : result string NativeTokenCost :=
  usage ← ok_or (result_usage report) "usage_unavailable";
  normalized ← validated_provider_usage (route_protocol report) usage;
  _ ← ensure (negb (existsb (λ count, MAX_TRUSTED_TOKENS <? count) (all_counts normalized))) "usage_exceeds_trusted_bound";
  provider ← ok_or (actual_provider report) "execution_identity_unavailable";
  model ← ok_or (actual_model report) "execution_identity_unavailable";
  match unavailable_reason f with
  | Some reason => Ok (CostUnknown reason)
  | None =>
      let e := charge_evidence f usage Configured in
      _ ← ensure (negb (existsb (is_some_and (λ rate, negb (valid_rate rate))) (all_rates (effective_rates e))))
            "invalid_configured_rate";
      match charge_micro_usd e with
      | None => Ok (CostUnknown (default "charge_unavailable" (unknown_reason e)))
      | Some amount =>
          _ ← ensure (negb (amount =? i64_max)) "charge_overflow";
          micro_usd ← ok_or (if 0 <=? amount then Some amount else None) "invalid_charge_total";
          Ok (ConfiguredEstimate micro_usd (origin usage) (normalized_usage e) (effective_rates e) (evidence_version e)
                provider model)
      end
  end.
Definition estimate_for_attempt (report : NativeAttemptReport) (ctx : PipelineContext) (t : RoutingTarget) : NativeTokenCost :=
  if negb (bool_decide (actual_provider report = Some (provider_name t))) ||
     negb (bool_decide (actual_model report = Some (service_id t))) ||
     negb (bool_decide (route_protocol report = api_protocol t)) then CostUnknown "execution_target_mismatch"
  else match last_snapshot (from_target t) (tariff_events (events ctx)) with
       | Some s => match estimate (tariff s) report with Ok cost => cost | Err reason => CostUnknown reason end
       | None => CostUnknown "pricing_snapshot_unavailable"
       end.

End tariff.
