(* ===== verification/MeteringKnown.v ===== *)
(** What a charge is: the tokens of the buckets are combined by rate, the tier is the one that the input reaches.
    Then what admission promises of a price: the stream compares usage at the very rates that are charged, a
    tariff that covers every usage charges every usage, and a settlement charges by what was admitted. *)
From Stdlib Require Import ZArith Lia Ascii SpecFloat QArith Qround Lqa.
From stdpp Require Import base list strings gmap pretty sorting.
From S2P Require Import Prelude ExactInteger RegistryValue RegistryPricing RoutingState SemanticAssessment.
From S2P Require Import MeteringUsage MeteringPricing MeteringTariff MeteringStream.
Open Scope string_scope.
Open Scope list_scope.
Open Scope Z_scope.

(** ** The groups of a charge *)

(** The tokens of the buckets that are billed at a rate, given by its bits. *)
Definition Bucket : Type := Z * option f64 * string * string.
Definition at_rate (bits : Z) (b : Bucket) : Z :=
  if is_some_and (λ r, to_bits r =? bits) b.1.1.2 then Z.min b.1.1.1 MAX_TRUSTED_TOKENS else 0.
Definition group_tokens (bits : Z) (groups : list (Z * f64)) : Z :=
  sum_by (λ g : Z * f64, if to_bits g.2 =? bits then g.1 else 0) groups.
(** A bucket can be billed: it is empty, or its rate is a finite number that is not negative. *)
Definition billable (b : Bucket) : Prop := b.1.1.1 ≠ 0 → ∃ r, b.1.1.2 = Some r ∧ valid_rate r = true.
(** The groups are the buckets combined by rate. *)
Record combined (bs : list Bucket) (groups : list (Z * f64)) : Prop := {
  c_distinct : NoDup (map (λ g : Z * f64, to_bits g.2) groups);
  c_valid : Forall (λ g : Z * f64, valid_rate g.2 = true ∧ 0 < g.1) groups;
  c_tokens : ∀ bits, group_tokens bits groups = sum_by (at_rate bits) bs }.

Lemma add_group_tokens tokens rate groups bits :
  0 ≤ tokens → Forall (λ g : Z * f64, 0 < g.1 ∧ g.1 + tokens ≤ u64_max) groups →
  group_tokens bits (add_group tokens rate groups) =
  group_tokens bits groups + if to_bits rate =? bits then tokens else 0.
Proof.
  intros Ht. unfold group_tokens. induction 1 as [|[n r] groups [Hn Hm] _ IH]; cbn [add_group].
  { rewrite sum_by_cons. cbn. lia. }
  destruct (Z.eqb_spec (to_bits r) (to_bits rate)) as [Heq|Hne]; rewrite !sum_by_cons.
  - cbn in *. rewrite Heq. unfold saturating_add. destruct (_ =? bits); lia.
  - rewrite IH. lia.
Qed.
Lemma add_group_bits tokens rate groups :
  map (λ g : Z * f64, to_bits g.2) (add_group tokens rate groups) =
  map (λ g : Z * f64, to_bits g.2) groups ++
  if bool_decide (to_bits rate ∈ map (λ g : Z * f64, to_bits g.2) groups) then [] else [to_bits rate].
Proof.
  induction groups as [|[n r] groups IH]; cbn; [done|].
  destruct (Z.eqb_spec (to_bits r) (to_bits rate)) as [Heq|Hne]; cbn.
  - clear IH. rewrite Heq. case_bool_decide as Hin; [by rewrite app_nil_r|]. destruct Hin. apply elem_of_cons. by left.
  - rewrite IH. clear IH. f_equal. case_bool_decide as H1; case_bool_decide as H2; [done| | |done]; rewrite elem_of_cons in H2;
      naive_solver.
Qed.
Lemma add_group_valid tokens rate groups :
  0 < tokens ≤ u64_max → valid_rate rate = true → Forall (λ g : Z * f64, valid_rate g.2 = true ∧ 0 < g.1) groups →
  Forall (λ g : Z * f64, valid_rate g.2 = true ∧ 0 < g.1) (add_group tokens rate groups).
Proof.
  intros Ht Hr. induction 1 as [|[n r] groups [Hv Hn] Hrest IH]; cbn; [apply Forall_singleton; cbn; split; [done|lia]|].
  destruct (_ =? _); constructor; auto. unfold saturating_add. cbn in *. split; [done|lia].
Qed.
Lemma group_tokens_elem bits groups g :
  Forall (λ g : Z * f64, valid_rate g.2 = true ∧ 0 < g.1) groups → g ∈ groups → to_bits g.2 = bits →
  g.1 ≤ group_tokens bits groups.
Proof.
  intros Hv Hin Hb. unfold group_tokens. induction Hv as [|h groups [_ Hh] Hrest IH]; [set_solver|].
  assert (0 ≤ sum_by (λ g : Z * f64, if to_bits g.2 =? bits then g.1 else 0) groups).
  { apply sum_by_nonneg. intros x Hx. rewrite Forall_forall in Hrest. destruct (Hrest x Hx). destruct (_ =? _); lia. }
  rewrite sum_by_cons. apply elem_of_cons in Hin as [->|Hin].
  - rewrite Hb, Z.eqb_refl. lia.
  - specialize (IH Hin). destruct (_ =? bits); lia.
Qed.
Lemma at_rate_le bits (b : Bucket) : 0 ≤ b.1.1.1 → 0 ≤ at_rate bits b ≤ MAX_TRUSTED_TOKENS.
Proof. unfold at_rate, MAX_TRUSTED_TOKENS. destruct (is_some_and _ _); lia. Qed.
Lemma sum_at_rate_le bits (bs : list Bucket) : Forall (λ b : Bucket, 0 ≤ b.1.1.1) bs →
  0 ≤ sum_by (at_rate bits) bs ≤ MAX_TRUSTED_TOKENS * Z.of_nat (length bs).
Proof.
  induction 1 as [|b bs Hb Hbs IH]; [cbn; lia|]. rewrite sum_by_cons. pose proof (at_rate_le bits b Hb). cbn [length]. lia.
Qed.

Lemma sum_snoc (f : Bucket → Z) bs b : sum_by f (bs ++ [b]) = sum_by f bs + f b.
Proof. rewrite sum_by_app, sum_by_cons. cbn. lia. Qed.
Lemma group_step_ok bs groups b groups' : Z.of_nat (length bs) ≤ 1000 → Forall (λ b : Bucket, 0 ≤ b.1.1.1) (bs ++ [b]) →
  combined bs groups → group_step groups b = Ok groups' → billable b ∧ combined (bs ++ [b]) groups'.
Proof.
  intros Hlen Hnn [Hd Hv Ht] Hstep. apply Forall_app in Hnn as [Hbs Hb]. apply Forall_cons_1 in Hb as [Hb _].
  destruct b as [[[tokens rate] missing] invalid]. cbn in Hb, Hstep. unfold billable. cbn [fst snd].
  destruct (Z.eqb_spec tokens 0) as [->|Hn].
  { injection Hstep as <-. split; [done|]. split; [done..|]. intros bits. rewrite Ht, sum_snoc. unfold at_rate at 3, MAX_TRUSTED_TOKENS.
    cbn [fst snd]. destruct (is_some_and _ _); lia. }
  apply bind_ok in Hstep as (r & ->%ok_or_ok & ([] & Hr%ensure_ok & [= <-])%bind_ok). split; [naive_solver|].
  assert (Forall (λ g : Z * f64, 0 < g.1 ∧ g.1 + Z.min tokens MAX_TRUSTED_TOKENS ≤ u64_max) groups) as Hm.
  { apply Forall_forall. intros g Hg. pose proof (group_tokens_elem _ _ _ Hv Hg eq_refl) as Hle. rewrite Ht in Hle.
    pose proof (sum_at_rate_le (to_bits g.2) bs Hbs) as Hs. rewrite Forall_forall in Hv. destruct (Hv g Hg).
    unfold MAX_TRUSTED_TOKENS, u64_max in *. lia. }
  split.
  - rewrite add_group_bits. case_bool_decide as Hin; [by rewrite app_nil_r|]. apply NoDup_app. split_and!; [done| |apply NoDup_singleton].
    intros x Hx ->%list_elem_of_singleton. done.
  - apply add_group_valid; [unfold MAX_TRUSTED_TOKENS, u64_max; lia|done|done].
  - intros bits. rewrite add_group_tokens by (done || unfold MAX_TRUSTED_TOKENS; lia). rewrite Ht, sum_snoc.
    unfold at_rate at 3. cbn. lia.
Qed.
Lemma group_step_total groups b : billable b → is_ok (group_step groups b) = true.
Proof.
  destruct b as [[[tokens rate] missing] invalid]. unfold billable. cbn. intros Hb.
  destruct (Z.eqb_spec tokens 0); [done|]. destruct (Hb n) as (r & -> & Hr). cbn. by rewrite Hr.
Qed.
Lemma fold_groups bs groups : Z.of_nat (length bs) ≤ 1000 → Forall (λ b : Bucket, 0 ≤ b.1.1.1) bs →
  try_fold group_step [] bs = Ok groups → Forall billable bs ∧ combined bs groups.
Proof.
  intros Hlen Hnn. eapply (try_fold_ind _ (λ bs groups, Forall billable bs ∧ combined bs groups)).
  - split; [done|]. split; [constructor|done|done].
  - intros pre b g1 g2 [k ->] _ [Hb Hc] Hstep. rewrite !length_app in Hlen. cbn in Hlen.
    apply Forall_app in Hnn as [Hpre _]. destruct (group_step_ok pre g1 b g2) as [? ?]; [lia|done|done|done|].
    split; [|done]. apply Forall_app. by split; [|apply Forall_singleton].
Qed.
Lemma fold_groups_total bs groups : Forall billable bs → is_ok (try_fold group_step groups bs) = true.
Proof.
  intros Hb. revert groups. induction Hb as [|b bs Hb _ IH]; intros groups; cbn; [done|].
  pose proof (group_step_total groups b Hb). destruct (group_step groups b); [apply IH|done].
Qed.

Lemma as_i64_bounds f : - i64_max - 1 ≤ as_i64 f ≤ i64_max.
Proof. unfold as_i64, i64_max. destruct f as [|[]| |[] m e]; try lia; destruct (0 <=? e); lia. Qed.
Lemma as_i64_nonneg f : 0 ≤ as_i64 (f64_max f zero).
Proof.
  assert (∀ n e, 0 ≤ Z.pos n * 2 ^ e ∧ 0 ≤ Z.pos n / 2 ^ e) as Hn.
  { intros n e. pose proof (Z.pow_nonneg 2 e). split; [nia|]. destruct (Z.eq_dec (2 ^ e) 0) as [->|]; [by rewrite Zdiv_0_r|].
    apply Z.div_pos; lia. }
  destruct f as [[]|[]| |[] m e]; cbn; try (unfold i64_max; lia).
  pose proof (Hn m e). pose proof (Hn m (- e)). destruct (0 <=? e); unfold i64_max; lia.
Qed.

Section charges.
Context `{Sha256}.

Lemma charged_buckets_nonneg u n r : usage_ok u → normalized_buckets u = Ok n →
  Forall (λ b : Bucket, 0 ≤ b.1.1.1) (charge_buckets n r).
Proof.
  intros [Hp _ Hs Hr Hw] Hn%normalized_iff; unfold in_u64 in *; [|lia]. repeat constructor; cbn; lia.
Qed.
(** A request is charged exactly when its buckets are consistent, every bucket that was used has a rate
    that is a finite number and not negative, and the total is finite. The charge is then the total
    of the five buckets combined by rate, each clamped and the tokens of a rate multiplied once, and rounded once;
    it is not negative and fits its type. Otherwise there is no charge, not a charge of zero, and the evidence
    gives the reason. *)
Theorem charge_computed_iff usage p source :
  usage_ok usage →
  let e := calculate_charge_evidence usage p source in
  let r := rates_of (resolve_for_input_tokens p (prompt_tokens usage)) in
  match charge_micro_usd e with
  | Some c =>
      status e = Computed ∧ unknown_reason e = None ∧ 0 ≤ c ≤ i64_max ∧
      ∃ n groups, normalized_buckets usage = Ok n ∧ Forall billable (charge_buckets n r) ∧
        combined (charge_buckets n r) groups ∧ is_finite (groups_total groups) = true ∧
        c = as_i64 (f64_max (f64_round (groups_total groups)) zero)
  | None =>
      status e = UnknownCharge ∧ is_Some (unknown_reason e) ∧
      ∀ n, normalized_buckets usage = Ok n → Forall billable (charge_buckets n r) →
        ∃ groups, combined (charge_buckets n r) groups ∧ is_finite (groups_total groups) = false
  end.
Proof.
  intros Hok. cbn zeta. unfold calculate_charge_evidence.
  destruct (normalized_buckets usage) as [n|err] eqn:Hn; [|cbn; split_and!; [done|by eexists|done]].
  set (r := rates_of _). pose proof (charged_buckets_nonneg _ _ r Hok Hn) as Hnn.
  unfold calculate_normalized_charge_micro_usd.
  destruct (try_fold group_step [] (charge_buckets n r)) as [groups|reason] eqn:Hg.
  - destruct (fold_groups (charge_buckets n r) groups) as [Hb Hc]; [unfold charge_buckets; cbn [length]; lia|done..|]. cbn.
    destruct (is_finite (groups_total groups)) eqn:Hf; cbn.
    + split_and!; [done|done|apply as_i64_nonneg|apply as_i64_bounds|]. by exists n, groups.
    + split_and!; [done|by eexists|]. intros n' [= <-] _. by exists groups.
  - cbn. split_and!; [done|by eexists|]. intros n' [= <-] Hb.
    pose proof (fold_groups_total _ [] Hb) as Ht. by rewrite Hg in Ht.
Qed.

End charges.

(** ** Tiers *)

Lemma max_by_key_app {A} (key : A → Z) l1 l2 : max_by_key key (l1 ++ l2) =
  foldl (λ best x, match best with
                   | Some b => if key b <=? key x then Some x else Some b
                   | None => Some x end) (max_by_key key l1) l2.
Proof. unfold max_by_key. by rewrite foldl_app. Qed.
Lemma max_by_key_Some {A} (key : A → Z) l x : max_by_key key l = Some x ↔
  ∃ l1 l2, l = l1 ++ x :: l2 ∧ Forall (λ y, key y ≤ key x) l1 ∧ Forall (λ y, key y < key x) l2.
Proof.
  revert x. induction l as [|y l IH] using rev_ind; intros x.
  { split; [done|]. by intros ([] & ? & ? & _). }
  rewrite max_by_key_app. cbn. split.
  - destruct (max_by_key key l) as [b|] eqn:Hb; cbn.
    + destruct (proj1 (IH b) eq_refl) as (l1 & l2 & -> & H1 & H2). destruct (Z.leb_spec (key b) (key y)); intros [= <-].
      * exists (l1 ++ b :: l2), []. split_and!; [done| |done]. apply Forall_app. split; [eapply Forall_impl; [done|cbn; lia]|].
        constructor; [done|]. eapply Forall_impl; [done|cbn; lia].
      * exists l1, (l2 ++ [y]). rewrite <-app_assoc. split_and!; [done|done|]. apply Forall_app. split; [done|by constructor].
    + intros [= <-]. destruct l as [|z l _] using rev_ind; [by exists [], []|]. rewrite max_by_key_app in Hb. cbn in Hb.
      destruct (max_by_key key l); [|done]. by destruct (_ <=? _).
  - intros (l1 & l2 & Heq & H1 & H2). destruct l2 as [|z l2 _] using rev_ind.
    + apply app_inj_tail in Heq as [-> ->]. destruct (max_by_key key l1) as [b|] eqn:Hb; [|done].
      destruct (proj1 (IH b) eq_refl) as (k1 & k2 & -> & _ & _). rewrite Forall_app, Forall_cons in H1.
      by rewrite (proj2 (Z.leb_le _ _)) by tauto.
    + rewrite app_comm_cons, app_assoc in Heq. apply app_inj_tail in Heq as [-> ->]. apply Forall_app in H2 as [H2 Hz].
      apply Forall_cons_1 in Hz as [Hz _]. rewrite (proj2 (IH x)) by eauto. by rewrite (proj2 (Z.leb_gt _ _)) by done.
Qed.
Lemma max_by_key_None {A} (key : A → Z) l : max_by_key key l = None ↔ l = [].
Proof.
  split; [|by intros ->]. destruct l as [|x l _] using rev_ind; [done|]. rewrite max_by_key_app. cbn.
  destruct (max_by_key key l); [|done]. by destruct (_ <=? _).
Qed.
Lemma max_by_key_map {A B} (f : A → B) (key : B → Z) l :
  max_by_key key (map f l) = f <$> max_by_key (λ x, key (f x)) l.
Proof.
  induction l as [|x l IH] using rev_ind; [done|]. rewrite map_app, !max_by_key_app, IH. cbn.
  destruct (max_by_key _ l); cbn; [|done]. by destruct (_ <=? _).
Qed.
(** A maximum is one of any part that it belongs to. *)
Lemma max_by_key_filter {A} (key : A → Z) (p q : A → bool) l x :
  (∀ y, q y = true → p y = true) → q x = true → max_by_key key (List.filter p l) = Some x →
  max_by_key key (List.filter q l) = Some x.
Proof.
  intros Hpq Hqx (l1 & l2 & Hl & H1 & H2)%max_by_key_Some.
  assert (List.filter q l = List.filter q (List.filter p l)) as ->.
  { clear Hl. induction l as [|y l IH]; cbn; [done|]. destruct (p y) eqn:Hy; cbn; [by rewrite IH|].
    destruct (q y) eqn:Hq; [|done]. rewrite Hpq in Hy by done. done. }
  apply max_by_key_Some. exists (List.filter q l1), (List.filter q l2). rewrite Hl, List.filter_app. cbn. rewrite Hqx.
  rewrite !Forall_forall in *.
  split_and!; [done|..]; intros y Hy; [apply H1|apply H2]; apply list_elem_of_In, List.filter_In in Hy;
    apply list_elem_of_In; tauto.
Qed.

(** ** Tiers *)

Definition reached (p : ModelPricing) (n : Z) : option ContextTier :=
  max_by_key above_input_tokens (List.filter (λ t, above_input_tokens t <? n) (context_tiers p)).
Lemma reached_Some p n t : reached p n = Some t →
  t ∈ context_tiers p ∧ above_input_tokens t < n ∧
  ∀ t', t' ∈ context_tiers p → above_input_tokens t' < n → above_input_tokens t' ≤ above_input_tokens t.
Proof.
  intros (l1 & l2 & Hl & H1 & H2)%max_by_key_Some.
  assert (∀ t', t' ∈ List.filter (λ t, above_input_tokens t <? n) (context_tiers p) ↔
    t' ∈ context_tiers p ∧ above_input_tokens t' < n) as Hin.
  { intros t'. rewrite list_elem_of_In, List.filter_In, Z.ltb_lt, <-list_elem_of_In. done. }
  split_and!; try (apply Hin; rewrite Hl; set_solver). intros t' H3 H4.
  assert (t' ∈ l1 ++ t :: l2) as Ht' by (rewrite <-Hl; by apply Hin). rewrite Forall_forall in H1, H2.
  apply elem_of_app in Ht' as [Ht'|[->|Ht']%elem_of_cons]; [by apply H1|lia|]. specialize (H2 _ Ht'). cbn in H2. lia.
Qed.
Lemma filter_middle {A} (f : A → bool) l l1 x l2 : List.filter f l = l1 ++ x :: l2 →
  ∃ m1 m2, l = m1 ++ x :: m2 ∧ List.filter f m1 = l1 ∧ List.filter f m2 = l2.
Proof.
  revert l1. induction l as [|y l IH]; intros l1; cbn; [by destruct l1|]. destruct (f y) eqn:Hy.
  - destruct l1 as [|z l1]; intros [= -> Hl]; [by exists [], l|]. destruct (IH _ Hl) as (m1 & m2 & -> & <- & <-).
    exists (z :: m1), m2. cbn. by rewrite Hy.
  - intros Hl. destruct (IH _ Hl) as (m1 & m2 & -> & <- & <-). exists (y :: m1), m2. cbn. by rewrite Hy.
Qed.
(** Of equal thresholds the last one is taken. *)
Lemma reached_last p n t : reached p n = Some t →
  ∃ l1 l2, context_tiers p = l1 ++ t :: l2 ∧ above_input_tokens t < n ∧
    (∀ t', t' ∈ l1 → above_input_tokens t' < n → above_input_tokens t' ≤ above_input_tokens t) ∧
    (∀ t', t' ∈ l2 → above_input_tokens t' < n → above_input_tokens t' < above_input_tokens t).
Proof.
  intros Hr. destruct (reached_Some _ _ _ Hr) as (_ & Hlt & _).
  apply max_by_key_Some in Hr as (l1 & l2 & Hl & H1 & H2). destruct (filter_middle _ _ _ _ _ Hl) as (m1 & m2 & Hm & <- & <-).
  rewrite Forall_forall in H1, H2. exists m1, m2. split_and!; [done|done|..]; intros t' Hin Ht'; [apply H1|apply H2];
    by apply list_elem_of_In, List.filter_In; rewrite Z.ltb_lt, <-list_elem_of_In.
Qed.
Lemma reached_None p n : reached p n = None → ∀ t, t ∈ context_tiers p → n ≤ above_input_tokens t.
Proof.
  unfold reached. rewrite max_by_key_None. intros Hl t Ht. destruct (Z.ltb_spec (above_input_tokens t) n); [|done].
  assert (t ∈ List.filter (λ t, above_input_tokens t <? n) (context_tiers p)) as Hin.
  { apply list_elem_of_In, List.filter_In. split; [by apply list_elem_of_In|by apply Z.ltb_lt]. }
  rewrite Hl in Hin. by apply elem_of_nil in Hin.
Qed.
Lemma resolve_reached p n :
  let q := resolve_for_input_tokens p n in
  let tier := reached p n in
  p_input q = or_rate (tier ≫= t_input) (p_input p) ∧
  p_cache_read q = or_rate (tier ≫= t_cache_read) (p_cache_read p) ∧
  p_cache_write q = or_rate (tier ≫= t_cache_write) (p_cache_write p) ∧
  p_output q = or_rate (tier ≫= t_output) (p_output p).
Proof. cbn zeta. unfold resolve_for_input_tokens. fold (reached p n). by destruct (reached p n). Qed.
(** The rates just above a tier are those of every input that reaches this tier. *)
Lemma resolve_at_tier p n t : n ≤ u64_max → reached p n = Some t →
  resolve_for_input_tokens p (saturating_add u64_max (above_input_tokens t) 1) = resolve_for_input_tokens p n.
Proof.
  intros Hn Ht. destruct (reached_Some _ _ _ Ht) as (_ & Hlt & _). unfold saturating_add. rewrite Z.min_r by lia.
  unfold resolve_for_input_tokens. fold (reached p (above_input_tokens t + 1)) (reached p n).
  assert (reached p (above_input_tokens t + 1) = Some t) as ->; [|by rewrite Ht].
  eapply max_by_key_filter; [|apply Z.ltb_lt; lia|exact Ht]. intros y. rewrite !Z.ltb_lt. lia.
Qed.
(** C24: the rates that a stream compares its usage at are the rates that settlement charges by, for every size of
    the input: those of the tier with the greatest threshold below it, the last one of equal thresholds in the
    list, with what a tier leaves out taken from the base, and the base below every threshold. *)
Theorem stream_rates_agree p n :
  n ≤ u64_max →
  bracket_for (stream_pricing p) n = stream_bracket (resolve_for_input_tokens p n) ∧
  ∃ tier : option ContextTier,
    (∀ t, tier = Some t → ∃ before after, context_tiers p = before ++ t :: after ∧ above_input_tokens t < n ∧
       (∀ t', t' ∈ before → above_input_tokens t' < n → above_input_tokens t' ≤ above_input_tokens t) ∧
       (∀ t', t' ∈ after → above_input_tokens t' < n → above_input_tokens t' < above_input_tokens t)) ∧
    (tier = None → ∀ t, t ∈ context_tiers p → n ≤ above_input_tokens t) ∧
    rates_of (resolve_for_input_tokens p n) = {|
      uncached_input_rate := or_rate (tier ≫= t_input) (p_input p);
      cache_read_rate := or_rate (tier ≫= t_cache_read) (p_cache_read p);
      cache_write_rate := or_rate (tier ≫= t_cache_write) (p_cache_write p);
      output_rate := or_rate (tier ≫= t_output) (p_output p) |}.
Proof.
  intros Hn. split.
  - unfold bracket_for, stream_pricing. cbn [stream_tiers base]. rewrite filter_map. cbn [tier_above].
    rewrite max_by_key_map. change (max_by_key _ _) with (reached p n). destruct (reached p n) as [t|] eqn:Ht; cbn [fmap option_fmap option_map bracket].
    + by rewrite (resolve_at_tier _ _ _ Hn Ht).
    + unfold resolve_for_input_tokens. fold (reached p n). by rewrite Ht.
  - exists (reached p n). split_and!; [intros t; apply reached_last|apply reached_None|].
    destruct (resolve_reached p n) as (H1 & H2 & H3 & H4). unfold rates_of. by rewrite H1, H2, H3, H4.
Qed.

(** ** Covered usage *)

Lemma complete_billable n p : complete_rates p = true → Forall billable (charge_buckets n (rates_of p)).
Proof.
  unfold complete_rates, billable. cbn [forallb]. rewrite !andb_true_iff. intros (H1 & H2 & H3 & H4 & _).
  destruct (p_input p) as [r1|] eqn:E1, (p_cache_read p) as [r2|] eqn:E2, (p_cache_write p) as [r3|] eqn:E3,
    (p_output p) as [r4|] eqn:E4; try done. cbn in *.
  repeat constructor; cbn; rewrite ?E1, ?E2, ?E3, ?E4; intros _; eexists; split; done.
Qed.
Lemma covered_rates f p n : guarantees_known_price f = true → registry_price f = None → pricing f = Some p → n ≤ u64_max →
  unavailable_reason f = None ∧ protocol f ≠ Decisions ∧ complete_rates (resolve_for_input_tokens p n) = true.
Proof.
  unfold guarantees_known_price. intros Hg Hr0 Hp0 Hn. rewrite Hr0, Hp0 in Hg. destruct (bool_decide _) eqn:Hp; [done|].
  apply bool_decide_eq_false in Hp. cbn in Hg. destruct (unavailable_reason f); [done|].
  cbn in Hg. apply andb_true_iff in Hg as [Hb Ht]. split_and!; [done..|]. destruct (reached p n) as [t|] eqn:Hr.
  - destruct (reached_Some _ _ _ Hr) as [Hin _]. rewrite forallb_forall in Ht.
    rewrite <-(resolve_at_tier _ _ _ Hn Hr). by apply Ht, list_elem_of_In.
  - unfold resolve_for_input_tokens. fold (reached p n). by rewrite Hr.
Qed.

Section known.
Context `{TariffEnv, Sha256, ExactNumber, JsonText}.

(** What validation promises of a price document: wherever a tier or the base has a rate, it can be read. *)
Definition readable (price : Value) : Prop :=
  ∀ tier group name v, (∀ t, tier = Some t → t ∈ array (field "context_tiers" price)) →
    [group; name] ∈ rate_paths → rate_of price tier group name = Some v → is_ok (RegistryPricing.decimal (to_string v)) = true.
Definition profile_verified (f : FrozenTariff) (price : Value) : Prop :=
  ∀ declared, get "endpoint_profile" price ≫= as_str = Some declared →
    declared ∈ ["openai_global"; "openai_us"; "openai_europe"] ∧ tariff_profile f = Some declared.
(** The rounded amount in micro-USD. *)
Definition micro_usd (amount : Q) : Z :=
  let micro := (amount * inject_Z 1000000 + (1 # 2))%Q in Z.quot (Qnum micro) (Z.pos (Qden micro)).

Lemma pointer_get a b v x : is_ok (index a) = false → is_ok (index b) = false →
  pointer [a; b] v = Some x → get a v ≫= get b = Some x.
Proof.
  intros Ha Hb. unfold pointer, at_path. cbn. destruct v as [| | | |l|m]; try done.
  { destruct (index a) as [i|] eqn:Hi; by cbn in *. }
  unfold get at 2. cbn. destruct (map_get a m) as [w|]; cbn; [|done].
  destruct w as [| | | |l|m']; try done.
  { destruct (index b) as [i|] eqn:Hi; by cbn in *. }
  unfold get. by destruct (map_get b m').
Qed.
Lemma base_rate price group name : [group; name] ∈ rate_paths →
  forallb (λ path, is_some_and is_number (pointer path price)) rate_paths = true →
  ∃ v, get group price ≫= get name = Some v.
Proof.
  intros Hin Hall. rewrite forallb_forall in Hall. specialize (Hall _ (proj1 (list_elem_of_In _ _) Hin)).
  destruct (pointer [group; name] price) as [v|] eqn:Hv; [|done]. exists v. unfold rate_paths in Hin.
  repeat (apply elem_of_cons in Hin as [[= -> ->]|Hin]; [by apply pointer_get|]). by apply elem_of_nil in Hin.
Qed.
Lemma Forall2_choice {A B} (R : A → B → Prop) l : Forall (λ a, ∃ b, R a b) l → ∃ k, Forall2 R l k.
Proof. induction 1 as [|a l [b Hb] _ [k Hk]]; [by exists []|]. exists (b :: k). by constructor. Qed.
Lemma rate_exists price tier group name count : [group; name] ∈ rate_paths → readable price →
  (∀ t, tier = Some t → t ∈ array (field "context_tiers" price)) →
  forallb (λ path, is_some_and is_number (pointer path price)) rate_paths = true →
  ∃ r, rate_for price tier (group, name, count) r.
Proof.
  intros Hin Hread Htier Hall. destruct (base_rate price group name Hin Hall) as [v0 Hv0].
  destruct (decide (count = 0)) as [->|Hn]; [exists 0%Q; by left|].
  assert (∃ v, rate_of price tier group name = Some v) as [v Hv].
  { unfold rate_of. destruct (t ← tier; _) as [r|]; [by exists r|]. by exists v0. }
  specialize (Hread tier group name v Htier Hin Hv). destruct (RegistryPricing.decimal (to_string v)) as [r|] eqn:Hr; [|done].
  exists r. right. split; [done|]. by exists v.
Qed.
Lemma token_charge_total price u n : usage_ok u → normalized_buckets u = Ok n → readable price →
  forallb (λ path, is_some_and is_number (pointer path price)) rate_paths = true →
  ∃ amount, token_charge price (token_usage n) = Ok amount.
Proof.
  intros [Hp _ _ Hr Hw] Hn Hread Hall. unfold in_u64 in *.
  apply normalized_iff in Hn as (Ha & _ & Hb & Hc & _ & Hs & _); [|lia].
  unfold token_charge. cbn [uncached_input cache_read cache_write token_usage].
  assert (sum_counts [Some (uncached_input_tokens n); Some (n_cache_read_tokens n); Some (n_cache_write_tokens n)] =
    Some (prompt_tokens u)) as ->.
  { unfold sum_counts, checked_add. cbn. rewrite Hb, Hc. do 3 (rewrite (proj2 (Z.leb_le _ u64_max)) by lia; cbn). f_equal. lia. }
  cbn [ok_or mbind result_bind]. set (tier := select_tier _ _).
  assert (∀ t, tier = Some t → t ∈ array (field "context_tiers" price)) as Htier.
  { intros t Ht. pose proof (select_tier_spec price (prompt_tokens u)) as Hs'. fold tier in Hs'. rewrite Ht in Hs'.
    destruct Hs' as (l1 & l2 & -> & _). set_solver. }
  destruct (Forall2_choice (rate_for price tier)
    [("input_tokens", "no_cache", uncached_input_tokens n); ("input_tokens", "cache_read", n_cache_read_tokens n);
     ("input_tokens", "cache_write", n_cache_write_tokens n); ("output_tokens", "text", output_tokens n);
     ("output_tokens", "reasoning", n_reasoning_tokens n)]) as [rs Hrs].
  { repeat constructor; apply rate_exists; try done; unfold rate_paths; set_solver. }
  by apply charge_loop_total with (total := 0%Q) in Hrs.
Qed.
Lemma covered_charge f price u n : guarantees_known_price f = true → registry_price f = Some price →
  profile_verified f price → readable price → usage_ok u → normalized_buckets u = Ok n →
  unavailable_reason f = None ∧ protocol f ≠ Decisions ∧
  ∃ amount, charge price (token_usage n) ∅ (tariff_profile f) ReaderPolicy_default = Ok amount.
Proof.
  unfold guarantees_known_price. intros Hg Hpr Hprof Hread Hok Hn. rewrite Hpr in Hg.
  rewrite !andb_true_iff, !negb_true_iff, bool_decide_eq_false in Hg. destruct Hg as (((((Hd & Hu) & Hk) & Hc) & Hs) & Hall).
  split_and!; [by destruct (unavailable_reason f)|done|]. unfold charge. rewrite Hs, Hc. cbn [andb ensure mbind result_bind].
  assert (is_none_or (λ declared, bool_decide (declared ∈ ["openai_global"; "openai_us"; "openai_europe"]) &&
    bool_decide (tariff_profile f = Some declared)) (get "endpoint_profile" price ≫= as_str) = true) as ->.
  { unfold profile_verified in Hprof. destruct (get "endpoint_profile" price ≫= as_str) as [declared|]; [|done].
    destruct (Hprof _ eq_refl) as [Hin Ht]. cbn. by rewrite !bool_decide_eq_true_2. }
  cbn [ensure mbind result_bind]. rewrite Hk. by eapply token_charge_total.
Qed.

(** ** Settlement *)

(** What admission cannot know of a request's usage: that it is reported and consistent, and that the charge
    fits the numbers it is computed in. *)
Definition payable (f : FrozenTariff) (u : Usage) : Prop :=
  ∃ n, normalized_buckets u = Ok n ∧
  match registry_price f with
  | Some price =>
      origin u ∈ [ProviderReported; AuthoritativeReceipt] ∧ web_search_count u = 0 ∧ readable price ∧
      ∀ amount, charge price (token_usage n) ∅ (tariff_profile f) ReaderPolicy_default = Ok amount →
        - i64_max - 1 ≤ micro_usd amount ≤ i64_max
  | None =>
      origin u ≠ UnknownOrigin ∧
      ∀ p groups, pricing f = Some p →
        try_fold group_step [] (charge_buckets n (rates_of (resolve_for_input_tokens p (prompt_tokens u)))) = Ok groups →
        is_finite (groups_total groups) = true
  end.
Lemma uncovered_registry_usage f u source : is_Some (registry_price f) →
  origin u ∉ [ProviderReported; AuthoritativeReceipt] ∨ 0 < web_search_count u →
  status (charge_evidence f u source) = UnknownCharge ∧ charge_micro_usd (charge_evidence f u source) = None.
Proof.
  intros [price Hp] Hu. unfold charge_evidence. rewrite Hp. unfold registry_charge_evidence, registry_amount.
  assert (is_some (unavailable_reason f) || negb (bool_decide (origin u ∈ [ProviderReported; AuthoritativeReceipt])) ||
    (0 <? web_search_count u) = true) as ->; [|done].
  destruct Hu as [Ho|Hw]; [by rewrite (bool_decide_eq_false_2 _ Ho), orb_true_r|].
  apply orb_true_iff. right. by apply Z.ltb_lt.
Qed.
Lemma decisions_no_cache f u : protocol f ≠ Decisions → decisions_cache (protocol f) u = false.
Proof. intros Hd. unfold decisions_cache. by rewrite bool_decide_eq_false_2. Qed.
Lemma covered_is_computed f u source :
  guarantees_known_price f = true → (∀ price, registry_price f = Some price → profile_verified f price) →
  usage_ok u → payable f u → status (charge_evidence f u source) = Computed.
Proof.
  intros Hg Hprof Hok (n & Hn & Hpay). unfold charge_evidence. destruct (registry_price f) as [price|] eqn:Hpr.
  - destruct Hpay as (Ho & Hw & Hread & Hfit).
    destruct (covered_charge f price u n Hg Hpr (Hprof _ eq_refl) Hread Hok Hn) as (Hu & Hd & amount & Hamount).
    unfold registry_charge_evidence, registry_amount. rewrite Hu, Hw. change (is_some None) with false. rewrite bool_decide_eq_true_2 by done. cbn [orb negb andb Z.ltb Z.compare].
    rewrite bool_decide_eq_false_2 by done. cbn [andb].
    rewrite Hn. cbn [mbind option_bind]. rewrite Hamount. cbn [mbind option_bind]. fold (micro_usd amount).
    specialize (Hfit _ Hamount). rewrite (proj2 (Z.leb_le _ (micro_usd amount))), (proj2 (Z.leb_le (micro_usd amount) _)) by lia.
    done.
  - destruct Hpay as (Ho & Hfit). destruct (pricing f) as [p|] eqn:Hp.
    + assert (prompt_tokens u ≤ u64_max) as Hmax by apply Hok.
      destruct (covered_rates f p (prompt_tokens u) Hg Hpr Hp Hmax) as (Hu & Hd & Hc).
      rewrite bool_decide_eq_false_2, Hu, decisions_no_cache by done. cbn [with_tariff status].
      pose proof (complete_billable n _ Hc) as Hb.
      unfold calculate_charge_evidence. rewrite Hn. unfold calculate_normalized_charge_micro_usd.
      pose proof (fold_groups_total _ [] Hb) as Ht. destruct (try_fold _ _ _) as [groups|] eqn:Hg'; [|done]. cbn.
      by rewrite (Hfit _ _ eq_refl Hg').
    + unfold guarantees_known_price in Hg. rewrite Hpr, Hp in Hg. by destruct (_ || _).
Qed.

Lemma rfind_app {A} (f : A → bool) l1 l2 :
  rfind f (l1 ++ l2) = match rfind f l2 with Some x => Some x | None => rfind f l1 end.
Proof.
  induction l1 as [|x l1 IH]; cbn; [by destruct (rfind f l2)|]. rewrite IH. by destruct (rfind f l2).
Qed.
Lemma tariff_events_emit ctx snaps :
  tariff_events (events (foldl emit_snapshot ctx snaps)) = tariff_events (events ctx) ++ snaps.
Proof.
  revert ctx. induction snaps as [|s snaps IH]; intros ctx; cbn [foldl]; [by rewrite app_nil_r|]. rewrite IH.
  unfold tariff_events. cbn [emit_snapshot emit events]. rewrite !omap_app. cbn. by rewrite app_nil_r, <-app_assoc.
Qed.
(** A snapshot is of its target, and one without a reason has verified the profile of its price. *)
Lemma captured_target c ctx t : target (captured c ctx t) = from_target t.
Proof. unfold captured, snapshot, registry_snapshot. destruct (tier_unverified t ctx), (registry t); done. Qed.
Lemma registry_reason_verified t selected price profile : registry_reason t selected (Some price) profile = None →
  ∀ declared, get "endpoint_profile" price ≫= as_str = Some declared →
    declared ∈ ["openai_global"; "openai_us"; "openai_europe"] ∧ verified_profile selected = Some declared.
Proof.
  unfold registry_reason. intros Hr declared Hd. destruct (target_is_valid t); cbn in Hr; [|done].
  destruct (bool_decide (billing selected = _)); cbn in Hr; [|done].
  assert (as_str (field "endpoint_profile" price) = Some declared) as Hf.
  { unfold field. destruct (get "endpoint_profile" price); done. }
  rewrite Hf in Hr. destruct (_ || _) eqn:Ho in Hr; [done|].
  apply orb_false_iff in Ho as [[Hin%negb_false_iff%bool_decide_eq_true Hv%negb_false_iff%bool_decide_eq_true]%orb_false_iff _].
  done.
Qed.
Lemma captured_verified c ctx t price : let f := tariff (captured c ctx t) in
  guarantees_known_price f = true → registry_price f = Some price → profile_verified f price.
Proof.
  cbn zeta. unfold captured, profile_verified. destruct (tier_unverified t ctx).
  { cbn. unfold guarantees_known_price. cbn [registry_price protocol unavailable_reason]. intros Hg Hpr. rewrite Hpr in Hg.
    rewrite !andb_true_iff in Hg. by destruct Hg as (((((_ & [=]) & _) & _) & _) & _). }
  unfold snapshot. destruct (registry t) as [selected|]; [|done]. unfold registry_snapshot. cbn [tariff registry_price tariff_profile].
  unfold guarantees_known_price. cbn [registry_price protocol unavailable_reason]. intros Hg Hpr. rewrite Hpr in Hg.
  rewrite !andb_true_iff in Hg. destruct Hg as (((((_ & Hu) & _) & _) & _) & _).
  destruct (registry_reason _ _ _ _) eqn:Hr; [done|]. by eapply registry_reason_verified.
Qed.
(** What a settlement asks of the attempts: no unverified processing tier, and one physical attempt where the registry
    priced any. *)
Definition attempts_complete (l : list Event) (t : RoutingTarget) : Prop :=
  is_some_and pricing_unverified (attempts_event l) = false ∧
  (is_Some (registry t) ∨ is_some_and registry_dispatched (attempts_event l) = true →
   ∃ a, attempts_event l = Some a ∧ count a = 1).
Definition settles (s : SettlementContext) (t : RoutingTarget) : Prop :=
  settled_target s = Some t ∧ operation (api_protocol t) = settled_operation s ∧ provider_name t = settled_provider s ∧
  service_id t = settled_model s ∧ attempts_complete (settled_events s) t.
Lemma settlement_by_snapshot s t snap : settles s t →
  last_snapshot (from_target t) (tariff_events (settled_events s)) = Some snap →
  settlement_charge_evidence s = logical_scope (charge_evidence (tariff snap) (settled_usage s) Configured).
Proof.
  intros (Ht & Ho & Hp & Hm & Hv & Ha) Hl. unfold settlement_charge_evidence. rewrite Ht, Hv, Hl.
  assert ((is_some (registry t) || is_some_and registry_dispatched (attempts_event (settled_events s))) &&
    is_none_or (λ a, negb (count a =? 1)) (attempts_event (settled_events s)) = false) as ->.
  { destruct (is_some (registry t) || _) eqn:Ho'; [|done]. cbn [andb]. destruct Ha as (a & -> & Ha).
    - apply orb_true_iff in Ho' as [Hr%bool_decide_eq_true|Hr]; [by left|by right].
    - cbn. by rewrite Ha. }
  rewrite Ho, Hp, Hm, !bool_decide_eq_true_2 by done. done.
Qed.
(** C9: what a request costs is decided at its admission: once the hook let a chain of targets through, a settlement
    on one of them whose attempts are complete (no processing tier was left unverified, and exactly one physical
    attempt was made where the registry prices it) charges by the tariff that was captured for that very provider,
    model, protocol and endpoint then, whatever the prices are by now. Where the hook demanded known prices, such
    a settlement computes a charge for usage with consistent buckets: at a configured price, unless the usage is of
    unknown origin or the total is not finite; at a price of the registry, if the provider or a receipt reported
    the usage, it counts no web searches, every rate of the document can be read, and the sum fits. At a price of
    the registry, usage that is estimated or counts web searches is not charged, although the hook let it
    through. *)
Theorem admitted_price_is_charged c chain ctx ctx' t s :
  after_resolve c chain ctx = Ok ctx' → t ∈ chain →
  tariff_events (settled_events s) = tariff_events (events ctx') → settles s t →
  ∃ t' f, t' ∈ chain ∧ from_target t' = from_target t ∧ f = tariff (captured c ctx t') ∧
    settlement_charge_evidence s = logical_scope (charge_evidence f (settled_usage s) Configured) ∧
    (capture_require_known c = true → usage_ok (settled_usage s) → payable f (settled_usage s) →
     status (settlement_charge_evidence s) = Computed) ∧
    (is_Some (registry_price f) →
     origin (settled_usage s) ∉ [ProviderReported; AuthoritativeReceipt] ∨ 0 < web_search_count (settled_usage s) →
     status (settlement_charge_evidence s) = UnknownCharge ∧ charge_micro_usd (settlement_charge_evidence s) = None).
Proof.
  unfold after_resolve. set (ctx1 := if is_some _ then ctx else _). intros ([] & Hk%ensure_ok & [= <-])%bind_ok Hin Hev Hs.
  assert (tariff_events (events ctx1) = tariff_events (events ctx) ∧ generation_params ctx1 = generation_params ctx) as [Hte Hgp].
  { unfold ctx1. destruct (is_some _); [done|]. cbn. unfold tariff_events. by rewrite omap_app, app_nil_r. }
  assert (captured c ctx1 = captured c ctx) as Hcap. { unfold captured, tier_unverified. by rewrite Hgp. }
  rewrite Hcap in *. rewrite tariff_events_emit, Hte in Hev.
  assert (∃ snap, rfind (λ s, bool_decide (target s = from_target t)) (map (captured c ctx) chain) = Some snap) as [snap Hsnap].
  { destruct (rfind _ _) as [snap|] eqn:Hr; [by exists snap|]. apply rfind_None in Hr. rewrite Forall_map, Forall_forall in Hr.
    specialize (Hr t Hin). cbn in Hr. rewrite captured_target in Hr. by rewrite bool_decide_eq_true_2 in Hr. }
  assert (last_snapshot (from_target t) (tariff_events (settled_events s)) = Some snap) as Hlast.
  { unfold last_snapshot. by rewrite Hev, rfind_app, Hsnap. }
  apply rfind_Some in Hsnap as (l1 & l2 & Hmap & Htgt%bool_decide_eq_true & _).
  assert (snap ∈ map (captured c ctx) chain) as (t' & -> & Ht')%list_elem_of_fmap by (rewrite Hmap; set_solver).
  rewrite captured_target in Htgt. pose proof (settlement_by_snapshot s t _ Hs Hlast) as Heq.
  exists t', (tariff (captured c ctx t')). split_and!; [done..| |].
  2:{ rewrite Heq. cbn. by apply uncovered_registry_usage. }
  intros Hreq Hok Hpay. rewrite Heq. rewrite Hreq in Hk. cbn [andb] in Hk. apply negb_true_iff in Hk.
  assert (guarantees_known_price (tariff (captured c ctx t')) = true) as Hg.
  { destruct (guarantees_known_price _) eqn:Hg; [done|]. exfalso.
    assert (existsb (λ s, negb (guarantees_known_price (tariff s))) (map (captured c ctx) chain) = true); [|congruence].
    apply existsb_exists. exists (captured c ctx t'). rewrite Hg. split; [|done]. apply list_elem_of_In, list_elem_of_fmap. by exists t'. }
  apply (covered_is_computed _ _ Configured); [done| |done|done]. intros price. by apply captured_verified.
Qed.

(** ** Exact charges *)

Lemma Qplus_nonneg a b : (0 <= a)%Q → (0 <= b)%Q → (0 <= a + b)%Q.
Proof. intros Ha Hb. exact (Qplus_le_compat 0 a 0 b Ha Hb). Qed.
Lemma decimal_nonneg t q : RegistryPricing.decimal t = Ok q → (0 <= q)%Q.
Proof.
  intros Hq. destruct (decimal_literal _ _ Hq) as (l & -> & Hok & Hfr).
  apply decimal_render in Hq as [_ ->]; [|done..].
  assert (0 ≤ digits_value l) as Hd.
  { destruct (Literal_ok_parts l Hok) as (_ & Hw & Hf & _). unfold digits_value, all_digits in *.
    apply decimal_bounds. rewrite forallb_app, Hw. exact Hf. }
  unfold code_value, Qle. destruct (_ <=? _); cbn; nia.
Qed.
Lemma Qsum_nonneg price tier cs rs : Forall2 (rate_for price tier) cs rs → Forall (λ c : string * string * Z, 0 ≤ c.2) cs →
  (0 <= Qsum (zip_with cost cs rs))%Q.
Proof.
  induction 1 as [|[[g n] c] r cs rs Hr _ IH]; intros Hnn; cbn; [by unfold Qle|].
  apply Forall_cons_1 in Hnn as [Hc Hnn]. specialize (IH Hnn). cbn in Hc.
  assert (0 <= cost (g, n, c) r)%Q as Hcost.
  { unfold cost. cbn. apply Qmult_le_0_compat; [unfold Qle; cbn; lia|].
    destruct Hr as [[_ ->]|(_ & v & _ & Hr)]; [by unfold Qle|by eapply decimal_nonneg]. }
  fold (Qsum (zip_with cost cs rs)). by apply Qplus_nonneg.
Qed.
Lemma charge_nonneg price u n profile amount : usage_ok u → normalized_buckets u = Ok n →
  charge price (token_usage n) ∅ profile ReaderPolicy_default = Ok amount → (0 <= amount)%Q.
Proof.
  intros [_ _ Hs Hr Hw] Hn Hc. pose proof Hn as Hn'. unfold in_u64 in *.
  assert (Forall (λ c : string * string * option Z, is_none_or (λ c, 0 <=? c) c.2 = true) (categories (token_usage n))) as Hnn.
  { unfold normalized_buckets, checked_add, checked_sub in Hn. destruct (_ <=? u64_max); cbn in Hn; [|done].
    destruct (_ <=? prompt_tokens u) eqn:E1; cbn in Hn; [|done]. destruct (_ <=? completion_tokens u) eqn:E2; cbn in Hn; [|done].
    injection Hn as <-. apply Z.leb_le in E1, E2. repeat constructor; cbn; apply Z.leb_le; lia. }
  unfold charge in Hc. apply bind_ok in Hc as ([] & _ & ([] & _ & Hc)%bind_ok). destruct (is_str "token" _).
  - unfold token_charge in Hc. apply bind_ok in Hc as (total & _ & Hl). apply charge_loop in Hl as (cs & rs & Hcs & Hrs & ->).
    rewrite Hcs, Forall_fmap in Hnn. apply Qplus_nonneg; [apply Qle_refl|].
    apply Qmult_le_0_compat; [|by unfold Qle]. eapply Qsum_nonneg; [exact Hrs|].
    eapply Forall_impl; [exact Hnn|]. intros c Hc. by apply Z.leb_le.
  - destruct (is_str "metered" _); [|done]. unfold metered_charge in Hc. apply bind_ok in Hc as (meters & Hm%ok_or_ok & Hc).
    destruct meters as [|m meters]; [|cbn in Hc; apply bind_ok in Hc as (t & Ht & _); unfold add_meter in Ht;
      by apply bind_ok in Ht as (id & _ & (x & [=]%ok_or_ok & _)%bind_ok)].
    destruct (as_array (field "meters" price)); cbn in Hm; [|done]. case_bool_decide; [done|]. congruence.
Qed.
Lemma quot_floor q : (0 <= q)%Q → Z.quot (Qnum q) (Z.pos (Qden q)) = Qfloor q.
Proof. destruct q as [n d]. unfold Qle. cbn. intros Hn. by rewrite Z.quot_div_nonneg by lia. Qed.
Lemma micro_usd_nearest amount : (0 <= amount)%Q →
  (inject_Z (micro_usd amount) - (1 # 2) <= amount * inject_Z 1000000)%Q ∧
  (amount * inject_Z 1000000 < inject_Z (micro_usd amount) + (1 # 2))%Q ∧ 0 ≤ micro_usd amount.
Proof.
  intros Ha. unfold micro_usd. cbn zeta. set (micro := (amount * inject_Z 1000000 + (1 # 2))%Q).
  assert (0 <= micro)%Q as Hm.
  { unfold micro. apply Qplus_nonneg; [|by unfold Qle].
    apply Qmult_le_0_compat; [done|by unfold Qle]. }
  rewrite (quot_floor _ Hm).
  pose proof (Qfloor_le micro) as Hlo. pose proof (Qlt_floor micro) as Hhi. split_and!.
  - unfold micro in *. lra.
  - rewrite inject_Z_plus in Hhi. unfold micro in *. change (inject_Z 1) with 1%Q in Hhi. lra.
  - change 0 with (Qfloor 0). by apply Qfloor_resp_le.
Qed.
(** C16: a charge by a registry price is the exact price, rounded once: it is made only for reported usage with
    consistent buckets, the evidence carries the exact amount of the registry's calculation as a fraction in
    lowest terms, and the integer charge is the number of micro-dollars nearest to it, halves upwards. *)
Theorem registry_charge_is_nearest f price u source c :
  registry_price f = Some price → usage_ok u → charge_micro_usd (charge_evidence f u source) = Some c →
  ∃ n amount x, normalized_buckets u = Ok n ∧ origin u ∈ [ProviderReported; AuthoritativeReceipt] ∧
    charge price (token_usage n) ∅ (tariff_profile f) ReaderPolicy_default = Ok amount ∧
    (inject_Z c - (1 # 2) <= amount * inject_Z 1000000)%Q ∧ (amount * inject_Z 1000000 < inject_Z c + (1 # 2))%Q ∧
    0 ≤ c ≤ i64_max ∧ status (charge_evidence f u source) = Computed ∧
    exact_registry_charge (charge_evidence f u source) = Some x ∧
    ∃ num den, numerator x = pretty num ∧ denominator x = pretty (Z.pos den) ∧ (num # den == amount)%Q ∧
      Z.gcd num (Z.pos den) = 1.
Proof.
  intros Hpr Hok. unfold charge_evidence. rewrite Hpr. unfold registry_charge_evidence.
  destruct (registry_amount f price u) as [[[rounded n] exact]|] eqn:Hr; cbn; [|done]. intros [= ->].
  unfold registry_amount in Hr. destruct (_ || _ || _) eqn:Ho; [done|]. destruct (_ && _); [done|].
  destruct (normalized_buckets u) as [n'|] eqn:Hn; cbn in Hr; [|done].
  destruct (charge price (token_usage n') ∅ (tariff_profile f) ReaderPolicy_default) as [amount|] eqn:Hc; cbn [mbind option_bind] in Hr; [|done].
  fold (micro_usd amount) in Hr. destruct (_ && _) eqn:Hfit in Hr; [|done]. cbn [mbind option_bind] in Hr.
  injection Hr as <- <- <-. apply andb_true_iff in Hfit as [_ Hmax%Z.leb_le].
  pose proof (charge_nonneg _ _ _ _ _ Hok Hn Hc) as Hnn. destruct (micro_usd_nearest amount Hnn) as (Hlo & Hhi & Hpos).
  apply orb_false_iff in Ho as [[_ Horigin%negb_false_iff%bool_decide_eq_true]%orb_false_iff _].
  eexists n', amount, _. split_and!; try done. exists (Qnum (Qred amount)), (Qden (Qred amount)). split_and!; [done..| |].
  - rewrite <-(Qred_correct amount) at 3. by destruct (Qred amount).
  - apply Qcanon.Qred_iff. apply Qcanon.Qred_involutive.
Qed.

(** An estimate of an attempt is what its settlement would charge: for verified usage, with no count clamped and
    the amount not saturated. *)
Lemma estimate_is_the_charge f report micro o n rates version provider model :
  estimate f report = Ok (ConfiguredEstimate micro o n rates version provider model) →
  ∃ u n', result_usage report = Some u ∧ validated_provider_usage (route_protocol report) u = Ok n' ∧
    Forall (λ count, count ≤ MAX_TRUSTED_TOKENS) (all_counts n') ∧
    charge_micro_usd (charge_evidence f u Configured) = Some micro ∧ 0 ≤ micro ∧ micro ≠ i64_max ∧
    version = evidence_version (charge_evidence f u Configured).
Proof.
  unfold estimate. intros (u & Hu%ok_or_ok & (n' & Hn & ([] & Hmax%ensure_ok & (p & Hp%ok_or_ok & (m & Hm%ok_or_ok & Hr)%bind_ok)%bind_ok)%bind_ok)%bind_ok)%bind_ok.
  destruct (unavailable_reason f); [done|]. cbn zeta in Hr. apply bind_ok in Hr as ([] & _ & Hr).
  destruct (charge_micro_usd _) as [amount|] eqn:Hc; [|done].
  apply bind_ok in Hr as ([] & Hov%ensure_ok & (micro' & Hm'%ok_or_ok & [= -> <- <- <- <- <- <-])%bind_ok).
  destruct (Z.leb_spec 0 amount); [|done]. injection Hm' as ->. apply negb_true_iff, Z.eqb_neq in Hov.
  exists u, n'. split_and!; try done. apply negb_true_iff in Hmax. apply Forall_forall. intros count Hin.
  apply Z.ltb_ge. destruct (MAX_TRUSTED_TOKENS <? count) eqn:Hlt; [|done]. exfalso. apply not_true_iff_false in Hmax.
  apply Hmax, existsb_exists. exists count. split; [by apply list_elem_of_In|done].
Qed.
End known.
