(* ===== verification/ContinuationPayload.v ===== *)
(** What a provider continuation is made of ([apps/bitrouter/src/continuation.rs]): the keyed identities of an owner,
    a request and a target, the payload that is sealed, and the row that holds it. HMAC, AES-256-GCM, base64, hex,
    serde_json and chrono are parameters ([ContinuationEnv]); bytes are strings. A [DateTime<Utc>] is its number
    of nanoseconds. *)
From Stdlib Require Import ZArith Lia Ascii.
From stdpp Require Import base list strings.
From S2P Require Import Prelude EvalMeasurement MeteringUsage.
Open Scope string_scope.
Open Scope list_scope.
Open Scope Z_scope.

(** ** Constants *)

Definition OWNER_IDENTITY_DOMAIN : string := "bitrouter.continuation.owner.v1".
Definition CONTINUATION_IDENTITY_DOMAIN : string := "bitrouter.continuation.identity.v1".
Definition TARGET_FINGERPRINT_DOMAIN : string := "bitrouter.continuation.target.v1".
Definition KEY_ID_DOMAIN : string := "bitrouter.continuation.key-id.v1".
Definition AEAD_AAD_DOMAIN : string := "bitrouter.continuation.aead.v1".
Definition CIPHER_VERSION : Z := 1.
Definition NONCE_BYTES : nat := 12.
Definition PUBLICATION_LEASE_SECONDS : Z := 30.
Definition PUBLICATION_RECONCILIATION_LEASE_SECONDS : Z := 1.
Definition MAX_PENDING_PUBLICATIONS : Z := 256.
Definition RECONCILIATION_BATCH_SIZE : nat := 32.
Definition PUBLICATION_PROVISIONAL : string := "provisional".
Definition PUBLICATION_DELIVERING : string := "delivering".
Definition PUBLICATION_ACTIVE : string := "active".
Definition CONTINUATION_PAYLOAD_VERSION : Z := 4.
Definition nul : string := String "000" "".
Definition magic (text : string) : string := String "255" (text +:+ nul).
Definition CONTINUATION_PAYLOAD_V2_MAGIC : string := magic "bitrouter-continuation-payload-v2".
Definition CONTINUATION_PAYLOAD_V3_MAGIC : string := magic "bitrouter-continuation-payload-v3".
Definition CONTINUATION_PAYLOAD_V4_MAGIC : string := magic "bitrouter-continuation-payload-v4".
Definition MAX_EFFECTIVE_MODEL_BYTES : Z := 512.

(** ** Payloads *)

Record ContinuationPayload := {
  version : Z; provider_response_id : string; effective_model : option string;
  effective_effort : option ReasoningEffort; assistant_turn_commitment : option string;
  causal_prefix_commitment : option string }.
#[export] Instance ContinuationPayload_eq_dec : EqDecision ContinuationPayload.
Proof. solve_decision. Defined.

Definition DateTime := Z.
Definition second : Z := 1000000000.

(** The crates that this module calls: [hmac] with SHA-256 (secret, message), [hex], [base64] in its URL-safe
    alphabet without padding, [ring]'s AES-256-GCM (secret, nonce, associated data, text), [serde_json] for the
    payload, and [chrono] with its range of times. *)
Class ContinuationEnv := {
  hmac_sha256 : string → string → string;
  hex_encode : string → string;
  base64_encode : string → string;
  base64_decode : string → option string;
  aes_seal : string → string → string → string → option string;
  aes_open : string → string → string → string → option string;
  payload_to_vec : ContinuationPayload → result string string;
  payload_from_slice : string → option ContinuationPayload;
  to_rfc3339_micros : DateTime → string;
  parse_from_rfc3339 : string → option DateTime;
  min_utc : DateTime;
  max_utc : DateTime;
}.
(** What they document: what is encoded is decoded, what is sealed is opened again with the same data, and what
    opens is what was sealed (the tag of GCM is a function of the other inputs). *)
Class ContinuationLaws `{ContinuationEnv} : Prop := {
  base64_roundtrip : ∀ s, base64_decode (base64_encode s) = Some s;
  aes_opens : ∀ k n aad p c, aes_seal k n aad p = Some c → aes_open k n aad c = Some p;
  payload_json : ∀ p s, payload_to_vec p = Ok s → payload_from_slice s = Some p;
}.

Definition validate_effective_model (effective_model : string) : result string unit :=
  if is_empty effective_model || (MAX_EFFECTIVE_MODEL_BYTES <? len effective_model) || has_control effective_model
  then Err "continuation effective model is invalid" else Ok tt.

Definition ContinuationPayload_current (provider_response_id effective_model : string)
    (effective_effort : option ReasoningEffort) (causal_prefix_commitment : option string) :
    result string ContinuationPayload :=
  _ ← validate_effective_model effective_model;
  Ok {| version := CONTINUATION_PAYLOAD_VERSION; provider_response_id := provider_response_id;
        effective_model := Some effective_model; effective_effort := effective_effort;
        assistant_turn_commitment := None; causal_prefix_commitment := causal_prefix_commitment |}.
Definition ContinuationPayload_legacy (provider_response_id : string) : ContinuationPayload :=
  {| version := 0; provider_response_id := provider_response_id; effective_model := None; effective_effort := None;
     assistant_turn_commitment := None; causal_prefix_commitment := None |}.

(** [AssistantTurnCommitment::parse] and [CausalPrefixCommitment::parse] accept; a commitment is its text. *)
Definition decode_hex_nibble (value : ascii) : option N :=
  let b := byte value in
  if in_range 48 b 57 then Some (b - 48)%N else if in_range 97 b 102 then Some (b - 97 + 10)%N else None.
Fixpoint decode_pairs (encoded : list ascii) : option (list N) :=
  match encoded with
  | high :: low :: rest =>
      high ← decode_hex_nibble high; low ← decode_hex_nibble low; digest ← decode_pairs rest;
      Some (N.lor (N.shiftl high 4) low :: digest)
  | _ => Some []
  end.
Definition decode_digest (value : string) : option (list N) :=
  encoded ← strip_prefix "sha256:" value;
  if negb (len encoded =? 64) then None else decode_pairs (bytes encoded).
Definition CausalPrefixCommitment_parse (value : string) : option string := _ ← decode_digest value; Some value.

(** ** Keys *)

Record ContinuationKey := { key_id : string; secret : string }.
#[export] Instance ContinuationKey_eq_dec : EqDecision ContinuationKey.
Proof. solve_decision. Defined.
Inductive AuthScheme := XApiKey | Bearer.
(** The fields of a [RoutingTarget] that a continuation reads, and the proof of a credential with the scheme that
    was used on the wire. *)
Record Target := {
  provider_name : string; service_id : string; api_base : string; api_protocol : ApiProtocol;
  account_label : option string; api_base_override : option string }.
Record ContinuationAuthority := { proof_bytes : string; effective_scheme : AuthScheme }.

(** A domain and fields behind NUL bytes, what is authenticated. *)
Definition framed (domain : string) (fields : list string) : string :=
  foldl (λ text field, text +:+ nul +:+ field) domain fields.

Section payload.
Context `{ContinuationEnv}.

Definition hmac_bytes (secret domain : string) (fields : list string) : string :=
  hmac_sha256 secret (framed domain fields).
Definition from_bytes (secret : string) : ContinuationKey :=
  {| key_id := "continuation-key-" +:+ hex_encode (String.substring 0 8 (hmac_bytes secret KEY_ID_DOMAIN []));
     secret := secret |}.
Definition owner_identity_of (key : ContinuationKey) (owner_user_id : string) : string :=
  "continuation-owner-" +:+ hex_encode (hmac_bytes (secret key) OWNER_IDENTITY_DOMAIN [owner_user_id]).
Definition continuation_identity_of (key : ContinuationKey) (owner_user_id request_id : string) : string :=
  "continuation-request-" +:+
    hex_encode (hmac_bytes (secret key) CONTINUATION_IDENTITY_DOMAIN [owner_user_id; request_id]).
Definition target_fingerprint_of (key : ContinuationKey) (target : Target) (authority : ContinuationAuthority) : string :=
  let api_base := default (api_base target) (api_base_override target) in
  let account := default "" (account_label target) in
  let auth_scheme := match effective_scheme authority with XApiKey => "x-api-key" | Bearer => "bearer" end in
  "continuation-target-" +:+
    hex_encode (hmac_bytes (secret key) TARGET_FINGERPRINT_DOMAIN
      [provider_name target; account; protocol_str (api_protocol target); api_base; auth_scheme;
       hex_encode (proof_bytes authority)]).

(** ** Times *)

Definition timestamp (value : DateTime) : string := to_rfc3339_micros value.
Definition parse_timestamp (value : string) : result string DateTime :=
  ok_or (parse_from_rfc3339 value) ("invalid continuation timestamp '" +:+ value +:+ "'").
(** [value.checked_add_signed(delta)] *)
Definition checked_add_signed (value delta : Z) : option DateTime :=
  let t := value + delta in if (min_utc <=? t) && (t <=? max_utc) then Some t else None.
Definition publication_lease_until_for (now : DateTime) (seconds : Z) : result string string :=
  lease_until ← ok_or (checked_add_signed now (seconds * second)) "continuation publication lease exceeds time range";
  Ok (timestamp lease_until).
Definition publication_lease_until (now : DateTime) : result string string :=
  publication_lease_until_for now PUBLICATION_LEASE_SECONDS.
Definition publication_reconciliation_lease_until (now : DateTime) : result string string :=
  publication_lease_until_for now PUBLICATION_RECONCILIATION_LEASE_SECONDS.

(** ** Rows *)

Record Model := {
  continuation_identity : string; installation_id : option string; tenant_id : option string;
  creator_principal_id : option string; owner_identity : string; ciphertext : option string; nonce : option string;
  target_fingerprint : string; row_key_id : string; cipher_version : Z; created_at : string; expires_at : string;
  purge_after : string; publication_state : string; publication_generation : string;
  publication_instance_id : string; publication_lease_until_text : string }.
#[export] Instance Model_eq_dec : EqDecision Model.
Proof. solve_decision. Defined.

Definition aead_aad (fields : list string) : string := framed AEAD_AAD_DOMAIN fields.
(** The eleven fields of a row that its seal authenticates. *)
Definition sealed_fields (row : Model) : list string :=
  [row_key_id row; owner_identity row; continuation_identity row; target_fingerprint row; created_at row;
   expires_at row; purge_after row; publication_state row; publication_generation row;
   publication_instance_id row; publication_lease_until_text row].
Definition row_aad (row : Model) : string := aead_aad (sealed_fields row).

(** [encrypt] with the twelve random bytes that it drew. *)
Definition encrypt_with (key : ContinuationKey) (nonce_bytes plaintext aad : string) : result string (string * string) :=
  sealed ← ok_or (aes_seal (secret key) nonce_bytes aad plaintext) "continuation encryption failed";
  Ok (base64_encode sealed, base64_encode nonce_bytes).
Definition decrypt_authenticated (key : ContinuationKey) (row : Model) (aad : string) : result string string :=
  sealed ← ok_or (ciphertext row) "continuation has expired";
  nonce ← ok_or (nonce row) "continuation has expired";
  sealed ← ok_or (base64_decode sealed) "continuation ciphertext is not valid base64";
  nonce ← ok_or (base64_decode nonce) "continuation nonce is not valid base64";
  _ ← ensure (bool_decide (String.length nonce = NONCE_BYTES)) "continuation nonce has invalid length";
  ok_or (aes_open (secret key) nonce aad sealed) "continuation authentication failed".
Definition decrypt_row (key : ContinuationKey) (row : Model) : result string string :=
  decrypt_authenticated key row (row_aad row).

Definition decode_version (v : Z) (serialized : string) : result string ContinuationPayload :=
  let name := "v" +:+ (if v =? 4 then "4" else if v =? 3 then "3" else "2") in
  payload ← ok_or (payload_from_slice serialized) ("continuation " +:+ name +:+ " payload is invalid");
  _ ← ensure (version payload =? v) ("unsupported continuation " +:+ name +:+ " payload version");
  Ok payload.
Definition without_causal_prefix (p : ContinuationPayload) : ContinuationPayload :=
  {| version := version p; provider_response_id := provider_response_id p; effective_model := effective_model p;
     effective_effort := effective_effort p; assistant_turn_commitment := assistant_turn_commitment p;
     causal_prefix_commitment := None |}.
(** The checks behind the three versions. *)
Definition validate_payload (payload : ContinuationPayload) : result string ContinuationPayload :=
  model ← ok_or (effective_model payload) "continuation payload has no effective model";
  _ ← validate_effective_model model;
  _ ← ensure (is_none_or (λ c, is_some (decode_digest c)) (assistant_turn_commitment payload))
    "continuation assistant-turn commitment is invalid";
  _ ← ensure (is_none_or (λ c, is_some (CausalPrefixCommitment_parse c)) (causal_prefix_commitment payload))
    "continuation causal-prefix commitment is invalid";
  Ok payload.
Definition decode_payload (plaintext : string) : result string ContinuationPayload :=
  match strip_prefix CONTINUATION_PAYLOAD_V4_MAGIC plaintext with
  | Some serialized => decode_version 4 serialized ≫= validate_payload
  | None =>
  match strip_prefix CONTINUATION_PAYLOAD_V3_MAGIC plaintext with
  | Some serialized => decode_version 3 serialized ≫= validate_payload
  | None =>
  match strip_prefix CONTINUATION_PAYLOAD_V2_MAGIC plaintext with
  | Some serialized => payload ← decode_version 2 serialized; validate_payload (without_causal_prefix payload)
  | None =>
      _ ← ensure (valid_utf8 (bytes plaintext)) "legacy continuation plaintext is not valid UTF-8";
      Ok (ContinuationPayload_legacy plaintext)
  end end end.
Definition decrypt_payload (key : ContinuationKey) (row : Model) : result string ContinuationPayload :=
  decrypt_row key row ≫= decode_payload.

(** What [bind_inner] seals. *)
Definition encode_payload (payload : ContinuationPayload) : result string string :=
  match payload_to_vec payload with
  | Ok serialized => Ok (CONTINUATION_PAYLOAD_V4_MAGIC +:+ serialized)
  | Err _ => Err "serializing continuation payload"
  end.
End payload.
