(* ===== verification/ContinuationStore.v ===== *)
(** The registry of provider continuations ([apps/bitrouter/src/continuation.rs]): a continuation is published by
    inserting a provisional row, which becomes active once its delivery is acknowledged, and is taken back
    otherwise. Any number of processes share the table; they own a row by its generation, instance and lease,
    and change it by compare-and-swap on the whole row.

    An asynchronous function is a program ([prog]): a tree of the actions that it takes one after the other,
    with a branch for every answer. An action is atomic; between two of them anything may happen. *)
From Stdlib Require Import ZArith Lia Ascii.
From stdpp Require Import base list strings gmap pretty sorting.
From S2P Require Import Prelude EvalMeasurement MeteringUsage ContinuationPayload.
Open Scope string_scope.
Open Scope list_scope.
Open Scope Z_scope.

(** ** State *)

Inductive PendingPublicationPhase := Reserved | Prepared | Reconcile.
#[export] Instance PendingPublicationPhase_eq_dec : EqDecision PendingPublicationPhase.
Proof. solve_decision. Defined.
(** A receipt is the address of its allocation. *)
Definition Receipt := nat.
Record PendingPublication := {
  p_identity : string; generation : string; instance_id : string; lease_until : string;
  receipt : option Receipt; phase : PendingPublicationPhase }.
#[export] Instance PendingPublication_eq_dec : EqDecision PendingPublication.
Proof. solve_decision. Defined.
Definition matches_receipt (p : PendingPublication) (actual : option Receipt) : bool :=
  match receipt p, actual with
  | Some expected, Some actual => bool_decide (expected = actual)
  | None, None => true
  | _, _ => false
  end.
Definition with_phase (v : PendingPublicationPhase) (p : PendingPublication) : PendingPublication :=
  {| p_identity := p_identity p; generation := generation p; instance_id := instance_id p;
     lease_until := lease_until p; receipt := receipt p; phase := v |}.
Definition with_lease (v : string) (p : PendingPublication) : PendingPublication :=
  {| p_identity := p_identity p; generation := generation p; instance_id := instance_id p;
     lease_until := v; receipt := receipt p; phase := phase p |}.

Inductive BindOutcome := Inserted | ExistingActive | ExistingProvisional.
#[export] Instance BindOutcome_eq_dec : EqDecision BindOutcome. Proof. solve_decision. Defined.
Inductive PublicationOwnership := Owned | LostOrForeign | Unknown.
#[export] Instance PublicationOwnership_eq_dec : EqDecision PublicationOwnership. Proof. solve_decision. Defined.
Record OwnershipFailure := { failure : string; ownership : PublicationOwnership }.
Definition owned (e : string) : OwnershipFailure := {| failure := e; ownership := Owned |}.
Definition lost_or_foreign (e : string) : OwnershipFailure := {| failure := e; ownership := LostOrForeign |}.
Definition unknown (e : string) : OwnershipFailure := {| failure := e; ownership := Unknown |}.
Inductive CompensationOutcome := Released | CompensationLostOrForeign.

(** One process's registry: what its locks protect. The key is loaded once and cached, an error too. *)
Record Registry := {
  keys : result string ContinuationKey; retention : Z; prune_batch_size : Z; registry_instance : string;
  pending_capacity : Z; pending_publications : gmap Z PendingPublication; pending_cursor : option Z;
  stale_offset : Z }.
Definition with_pending (v : gmap Z PendingPublication) (g : Registry) : Registry :=
  {| keys := keys g; retention := retention g; prune_batch_size := prune_batch_size g;
     registry_instance := registry_instance g; pending_capacity := pending_capacity g;
     pending_publications := v; pending_cursor := pending_cursor g; stale_offset := stale_offset g |}.
Definition with_cursor (v : option Z) (g : Registry) : Registry :=
  {| keys := keys g; retention := retention g; prune_batch_size := prune_batch_size g;
     registry_instance := registry_instance g; pending_capacity := pending_capacity g;
     pending_publications := pending_publications g; pending_cursor := v; stale_offset := stale_offset g |}.
Definition with_stale_offset (v : Z) (g : Registry) : Registry :=
  {| keys := keys g; retention := retention g; prune_batch_size := prune_batch_size g;
     registry_instance := registry_instance g; pending_capacity := pending_capacity g;
     pending_publications := pending_publications g; pending_cursor := pending_cursor g; stale_offset := v |}.

(** The four ends of a delivery handshake that are still there ([gateway/pipeline/settlement.rs]); the last two
    are optional from the start. *)
Record Handshake := { ready : bool; acknowledged : bool; activation_completed : bool; terminal_committed : bool }.
Inductive DeliveryAcknowledgement := Delivered | Failed (error : string).

(** ** Actions *)

(** The three scans of the table; times are compared as texts. *)
Inductive Query :=
| StalePublications (now : string) (offset limit : Z)
| ExpiredRows (now : string) (limit : Z)
| PurgeableRows (now : string) (limit : Z).
(** The columns that an [update_many] sets. *)
Record Assignment := {
  set_state : option string; set_instance : option string; set_lease : option string;
  set_ciphertext : option string; set_nonce : option string }.
Definition apply (a : Assignment) (row : Model) : Model :=
  {| continuation_identity := continuation_identity row; installation_id := installation_id row;
     tenant_id := tenant_id row; creator_principal_id := creator_principal_id row;
     owner_identity := owner_identity row; ciphertext := set_ciphertext a; nonce := set_nonce a;
     target_fingerprint := target_fingerprint row; row_key_id := row_key_id row;
     cipher_version := cipher_version row; created_at := created_at row; expires_at := expires_at row;
     purge_after := purge_after row; publication_state := default (publication_state row) (set_state a);
     publication_generation := publication_generation row;
     publication_instance_id := default (publication_instance_id row) (set_instance a);
     publication_lease_until_text := default (publication_lease_until_text row) (set_lease a) |}.

(** A statement of the database answers with a value or an error; an update and a deletion with the rows affected.
    [Local] is a block under a lock of the process that contains no [await]. *)
Inductive action : Type → Type :=
| Now : action DateTime
| Random (count : nat) : action (option string)
| Find (identity : string) : action (result string (option Model))
| Select (query : Query) : action (result string (list Model))
| Insert (row : Model) : action (result string unit)
| Update (snapshot : Model) (assignment : Assignment) : action (result string Z)
| Delete (snapshot : Model) : action (result string Z)
| FindEpoch : action (result string (option string))
| InsertEpoch (key_id created_at : string) : action (result string unit)
| Lock (identity : string) : action unit
| Unlock (identity : string) : action unit
| Local {T : Set} (f : Registry → T * Registry) : action T
| Slots {T : Set} (h : nat) (f : Handshake → T * Handshake) : action T
| SendReady (h : nat) : action bool
| AwaitAcknowledged (h : nat) : action (option DeliveryAcknowledgement)
| SendActivation (h : nat) (completed : result string unit) : action bool
| AwaitTerminal (h : nat) : action bool.
Inductive prog (A : Type) : Type :=
| Ret (a : A)
| Act {T : Type} (a : action T) (k : T → prog A).
Arguments Ret {A} _.
Arguments Act {A T} _ _.

Fixpoint and_then {A B} (p : prog A) (f : A → prog B) : prog B :=
  match p with Ret a => f a | Act a k => Act a (λ x, and_then (k x) f) end.
Definition act {T} (a : action T) : prog T := Act a Ret.
(** A program that may fail, and the [?] operator. *)
Definition try {E A B} (p : prog (result E A)) (k : A → prog (result E B)) : prog (result E B) :=
  and_then p (λ r, match r with Ok a => k a | Err e => Ret (Err e) end).
Definition map_err {E F A} (f : E → F) (r : result E A) : result F A :=
  match r with Ok a => Ok a | Err e => Err (f e) end.
Definition fails {E F A} (f : E → F) (p : prog (result E A)) : prog (result F A) :=
  and_then p (λ r, Ret (map_err f r)).
Declare Scope prog_scope.
Delimit Scope prog_scope with prog.
Notation "x <- p ;; q" := (and_then p (λ x, q)) (at level 100, p at next level, right associativity) : prog_scope.
Notation "x <-? p ;; q" := (try p (λ x, q)) (at level 100, p at next level, right associativity) : prog_scope.
Open Scope prog_scope.
(** A pure fallible computation in a program. *)
Definition lift {E A} (r : result E A) : prog (result E A) := Ret r.

(** A scope that holds the lock of an identity. *)
Definition with_identity_lock {A} (identity : string) (p : prog A) : prog A :=
  _ <- act (Lock identity);; r <- p;; _ <- act (Unlock identity);; Ret r.

Section store.
Context `{ContinuationEnv}.

(** ** Markers of the process *)

Definition pending_publication (attempt : Z) (receipt : option Receipt) (g : Registry) : option PendingPublication :=
  p ← pending_publications g !! attempt; if matches_receipt p receipt then Some p else None.
Definition clear_pending_publication (attempt : Z) (gen : string) (receipt : option Receipt) (g : Registry) :
    unit * Registry :=
  (tt, if is_some_and (λ p, bool_decide (generation p = gen) && matches_receipt p receipt)
            (pending_publications g !! attempt)
       then with_pending (delete attempt (pending_publications g)) g else g).
Definition update_pending_phase (attempt : Z) (gen : string) (receipt : option Receipt)
    (v : PendingPublicationPhase) (g : Registry) : bool * Registry :=
  match pending_publications g !! attempt with
  | None => (false, g)
  | Some p =>
      if bool_decide (generation p ≠ gen) || negb (matches_receipt p receipt) then (false, g)
      else (true, with_pending (<[attempt := with_phase v p]> (pending_publications g)) g)
  end.
Definition update_pending_lease (attempt : Z) (previous : PendingPublication) (lease : string) (g : Registry) :
    option PendingPublication * Registry :=
  match pending_publications g !! attempt with
  | None => (None, g)
  | Some p =>
      if bool_decide (generation p ≠ generation previous) || bool_decide (instance_id p ≠ instance_id previous) ||
         bool_decide (lease_until p ≠ lease_until previous) || negb (matches_receipt p (receipt previous))
      then (None, g)
      else (Some (with_lease lease p), with_pending (<[attempt := with_lease lease p]> (pending_publications g)) g)
  end.
Definition markers (g : Registry) : list PendingPublication := (map_to_list (pending_publications g)).*2.
Definition unreserved (p : PendingPublication) : bool := bool_decide (phase p ≠ Reserved).
Definition names (identity gen : string) (p : PendingPublication) : bool :=
  bool_decide (p_identity p = identity) && bool_decide (generation p = gen).
Definition has_pending_publications (g : Registry) : bool := existsb unreserved (markers g).
Definition has_pending_generation (identity gen : string) (g : Registry) : bool :=
  existsb (λ p, unreserved p && names identity gen p) (markers g).
Definition has_local_generation (identity gen : string) (g : Registry) : bool :=
  existsb (names identity gen) (markers g).
Definition mark_pending_for_shutdown_reconciliation (g : Registry) : unit * Registry :=
  (tt, with_pending ((λ p, if bool_decide (phase p = Prepared) then with_phase Reconcile p else p) <$>
                     pending_publications g) g).
Definition pending_reconciliation_count (g : Registry) : nat := length (List.filter unreserved (markers g)).

(** Reading without changing, and the cached key. *)
Definition reads {T : Set} (f : Registry → T) : prog T := act (Local (λ g, (f g, g))).
Definition load_key : prog (result string ContinuationKey) := reads keys.

(** ** Rows *)

Definition publication_owns_row (p : PendingPublication) (row : Model) : bool :=
  bool_decide (publication_generation row = generation p) && bool_decide (publication_instance_id row = instance_id p) &&
  bool_decide (publication_lease_until_text row = lease_until p).
Definition find_row (identity : string) : prog (result string (option Model)) := act (Find identity).
Definition random_text (count : nat) (error : string) : prog (result string string) :=
  drawn <- act (Random count);; Ret (match drawn with Some b => Ok (base64_encode b) | None => Err error end).
Definition new_generation : prog (result string string) :=
  random_text 16 "continuation publication generation failed".
Definition encrypt (key : ContinuationKey) (plaintext aad : string) : prog (result string (string * string)) :=
  drawn <- act (Random NONCE_BYTES);;
  Ret (match drawn with
       | Some nonce_bytes => encrypt_with key nonce_bytes plaintext aad
       | None => Err "continuation nonce generation failed"
       end).
(** The associated data of a row whose publication columns change. *)
Definition resealed_aad (row : Model) (state instance lease : string) : string :=
  aead_aad [row_key_id row; owner_identity row; continuation_identity row; target_fingerprint row; created_at row;
            expires_at row; purge_after row; state; publication_generation row; instance; lease].

Definition ensure_key_epoch (key : ContinuationKey) (now : DateTime) : prog (result string unit) :=
  existing <-? act FindEpoch;;
  epoch <-? match existing with
            | Some epoch => Ret (Ok epoch)
            | None =>
                inserted <- act (InsertEpoch (key_id key) (timestamp now));;
                match inserted with
                | Ok _ => Ret (Ok (key_id key))
                | Err _ =>
                    epoch <-? act FindEpoch;;
                    lift (ok_or epoch "continuation key epoch could not be initialized")
                end
            end;;
  lift (ensure (bool_decide (epoch = key_id key)) "continuation key epoch mismatch").

Definition scrub_expired (row : Model) : prog (result string bool) :=
  affected <-? act (Update row {| set_state := None; set_instance := None; set_lease := None;
                                  set_ciphertext := None; set_nonce := None |});;
  Ret (Ok (affected =? 1)).
Fixpoint scrub_rows (rows : list Model) : prog (result string unit) :=
  match rows with
  | [] => Ret (Ok tt)
  | row :: rows => _ <-? scrub_expired row;; scrub_rows rows
  end.
Fixpoint purge_rows (rows : list Model) (rows_affected : Z) : prog (result string Z) :=
  match rows with
  | [] => Ret (Ok rows_affected)
  | row :: rows => affected <-? act (Delete row);; purge_rows rows (rows_affected + affected)
  end.
Definition prune (now : DateTime) : prog (result string Z) :=
  let now := timestamp now in
  limit <- reads prune_batch_size;;
  expired <-? act (Select (ExpiredRows now limit));;
  _ <-? scrub_rows expired;;
  purgeable <-? act (Select (PurgeableRows now limit));;
  purge_rows purgeable 0.

(** ** Ownership *)

Definition renew_publication_lease (attempt : Z) (publication : PendingPublication) (now : DateTime) :
    prog (result OwnershipFailure PendingPublication) :=
  until <-? lift (map_err owned (parse_timestamp (lease_until publication)));;
  if now + PUBLICATION_LEASE_SECONDS `quot` 2 * second <? until then Ret (Ok publication) else
  row <-? fails unknown (find_row (p_identity publication));;
  row <-? lift (ok_or row (lost_or_foreign "continuation disappeared before lease renewal"));;
  if negb (publication_owns_row publication row)
  then Ret (Err (lost_or_foreign "continuation lease fencing ownership changed")) else
  key <-? fails owned load_key;;
  plaintext <-? lift (map_err owned (decrypt_row key row));;
  lease <-? lift (map_err owned (publication_lease_until now));;
  let aad := resealed_aad row (publication_state row) (publication_instance_id row) lease in
  sealed <-? fails owned (encrypt key plaintext aad);;
  renewed <-? fails unknown (act (Update row {| set_state := None; set_instance := None; set_lease := Some lease;
    set_ciphertext := Some sealed.1; set_nonce := Some sealed.2 |}));;
  if negb (renewed =? 1) then Ret (Err (lost_or_foreign "continuation lease renewal lost fencing ownership")) else
  marked <- act (Local (update_pending_lease attempt publication lease));;
  lift (ok_or marked (lost_or_foreign "continuation lease marker changed concurrently")).

Definition known_state (state : string) : bool :=
  bool_decide (state ∈ [PUBLICATION_PROVISIONAL; PUBLICATION_DELIVERING; PUBLICATION_ACTIVE]).
Definition in_state (state : string) (row : Model) : bool := bool_decide (publication_state row = state).
Definition with_state (row : Model) (state : string) (sealed : string * string) : Model :=
  apply {| set_state := Some state; set_instance := None; set_lease := None;
           set_ciphertext := Some sealed.1; set_nonce := Some sealed.2 |} row.
Definition unsupported_state (state : string) : string :=
  "unsupported continuation publication state '" +:+ state +:+ "'".

Definition transition_publication_state (key : ContinuationKey) (row : Model) (next_state : string) :
    prog (result string Model) :=
  if negb (known_state (publication_state row)) || negb (known_state next_state)
  then Ret (Err "unsupported continuation publication state transition") else
  plaintext <-? lift (decrypt_row key row);;
  let aad := resealed_aad row next_state (publication_instance_id row) (publication_lease_until_text row) in
  sealed <-? encrypt key plaintext aad;;
  updated <-? act (Update row {| set_state := Some next_state; set_instance := None; set_lease := None;
    set_ciphertext := Some sealed.1; set_nonce := Some sealed.2 |});;
  if negb (updated =? 1) then Ret (Err "continuation publication state changed concurrently") else
  Ret (Ok (with_state row next_state sealed)).

Definition classify_compensation_error (publication : PendingPublication) (error : string) :
    prog (result OwnershipFailure CompensationOutcome) :=
  reread <- find_row (p_identity publication);;
  Ret (match reread with
       | Ok None => Ok CompensationLostOrForeign
       | Ok (Some row) =>
           if publication_owns_row publication row then Err (owned error) else Ok CompensationLostOrForeign
       | Err reread_error => Err (unknown (error +:+
           "; rereading continuation ownership after compensation failure: " +:+ reread_error))
       end).

Definition release_row (publication : PendingPublication) (row : Model) :
    prog (result OwnershipFailure CompensationOutcome) :=
  deleted <- act (Delete row);;
  match deleted with
  | Err error => classify_compensation_error publication error
  | Ok deleted =>
      if deleted =? 1 then Ret (Ok Released)
      else classify_compensation_error publication "continuation rollback compare-and-swap lost ownership"
  end.
Definition compensate_owned_publication (publication : PendingPublication) :
    prog (result OwnershipFailure CompensationOutcome) :=
  row <-? fails unknown (find_row (p_identity publication));;
  match row with
  | None => Ret (Ok CompensationLostOrForeign)
  | Some row =>
      if negb (publication_owns_row publication row) then Ret (Ok CompensationLostOrForeign) else
      key <-? fails owned load_key;;
      if in_state PUBLICATION_DELIVERING row || in_state PUBLICATION_ACTIVE row then
        demoted <- transition_publication_state key row PUBLICATION_PROVISIONAL;;
        match demoted with
        | Ok row => release_row publication row
        | Err error => classify_compensation_error publication error
        end
      else if in_state PUBLICATION_PROVISIONAL row then
        _ <-? lift (map_err owned (decrypt_row key row));; release_row publication row
      else Ret (Err (owned (unsupported_state (publication_state row))))
  end.

(** What ends a compensation: the marker goes with the ownership, or stays for the reconciler. *)
Definition clear (attempt : Z) (gen : string) (receipt : option Receipt) : prog unit :=
  act (Local (clear_pending_publication attempt gen receipt)).
Definition retain (attempt : Z) (gen : string) (receipt : option Receipt) : prog unit :=
  _ <- act (Local (update_pending_phase attempt gen receipt Reconcile));; Ret tt.
Definition is_lost (e : OwnershipFailure) : bool := bool_decide (ownership e = LostOrForeign).

Definition rollback_locked (attempt : Z) (receipt : option Receipt) : prog (result string unit) :=
  found <- reads (pending_publication attempt receipt);;
  match found with
  | None => Ret (Ok tt)
  | Some publication =>
      now <- act Now;;
      renewed <- renew_publication_lease attempt publication now;;
      match renewed with
      | Err e =>
          if is_lost e then _ <- clear attempt (generation publication) receipt;; Ret (Ok tt)
          else _ <- retain attempt (generation publication) receipt;; Ret (Err (failure e))
      | Ok publication =>
          compensated <- compensate_owned_publication publication;;
          match compensated with
          | Ok _ => _ <- clear attempt (generation publication) receipt;; Ret (Ok tt)
          | Err e =>
              _ <- (if is_lost e then clear attempt (generation publication) receipt
                    else retain attempt (generation publication) receipt);;
              Ret (Err (failure e))
          end
      end
  end.
Definition rollback_pending (attempt : Z) (receipt : option Receipt) : prog (result string unit) :=
  found <- reads (pending_publication attempt receipt);;
  match found with
  | None => Ret (Ok tt)
  | Some publication => with_identity_lock (p_identity publication) (rollback_locked attempt receipt)
  end.

(** ** Binding *)

Record ContinuationBinding := {
  b_response_id : string; b_effective_model : string; b_effective_effort : option ReasoningEffort;
  b_causal_prefix : option string; b_target : Target; b_authority : ContinuationAuthority }.
Record BindPublication := {
  bind_now : DateTime; bind_state : string; bind_generation : string; bind_instance : string; bind_lease : string }.
Record PendingBindAttempt := { attempt_now : DateTime; delivery_attempt_id : Z; attempt_receipt : option Receipt }.

(** The row without its seal: what is bound to whom, and until when. *)
Definition blank_row (key : ContinuationKey) (owner request : string) (target_fingerprint : string)
    (publication : BindPublication) (expires_at purge_after : string) : Model :=
  {| continuation_identity := continuation_identity_of key owner request; installation_id := None; tenant_id := None;
     creator_principal_id := None; owner_identity := owner_identity_of key owner; ciphertext := None; nonce := None;
     target_fingerprint := target_fingerprint; row_key_id := key_id key; cipher_version := CIPHER_VERSION;
     created_at := timestamp (bind_now publication); expires_at := expires_at; purge_after := purge_after;
     publication_state := bind_state publication; publication_generation := bind_generation publication;
     publication_instance_id := bind_instance publication;
     publication_lease_until_text := bind_lease publication |}.
Definition with_seal (row : Model) (sealed : string * string) : Model :=
  apply {| set_state := None; set_instance := None; set_lease := None;
           set_ciphertext := Some sealed.1; set_nonce := Some sealed.2 |} row.

(** An insertion that failed, or whose answer was lost, is judged by the row that is there. *)
Definition judge_existing (key : ContinuationKey) (payload : ContinuationPayload) (row existing : Model) :
    result OwnershipFailure BindOutcome :=
  let mine := bool_decide (publication_generation existing = publication_generation row) &&
    bool_decide (publication_instance_id existing = publication_instance_id row) &&
    bool_decide (publication_lease_until_text existing = publication_lease_until_text row) in
  let fail := if mine then owned else lost_or_foreign in
  existing_payload ← map_err fail (decrypt_payload key existing);
  _ ← ensure (bool_decide (existing_payload = payload) &&
              bool_decide (target_fingerprint existing = target_fingerprint row))
    (fail "gateway continuation id is already bound to another response");
  if mine then _ ← ensure (known_state (publication_state existing)) (fail (unsupported_state (publication_state existing)));
    Ok Inserted
  else if in_state PUBLICATION_ACTIVE existing then Ok ExistingActive
  else if in_state PUBLICATION_PROVISIONAL existing || in_state PUBLICATION_DELIVERING existing
  then Ok ExistingProvisional
  else Err (fail (unsupported_state (publication_state existing))).

Definition insert_row (key : ContinuationKey) (payload : ContinuationPayload) (row : Model) :
    prog (result OwnershipFailure BindOutcome) :=
  inserted <- act (Insert row);;
  match inserted with
  | Ok _ => Ret (Ok Inserted)
  | Err insert_error =>
      existing <- find_row (continuation_identity row);;
      Ret (match existing with
           | Err reread_error => Err (unknown ("inserting provider continuation failed: " +:+ insert_error +:+
               "; rereading publication ownership failed: " +:+ reread_error))
           | Ok None => Err (lost_or_foreign insert_error)
           | Ok (Some existing) => judge_existing key payload row existing
           end)
  end.

Definition bind_inner (owner request : string) (binding : ContinuationBinding) (publication : BindPublication) :
    prog (result OwnershipFailure BindOutcome) :=
  let now := bind_now publication in
  key <-? fails lost_or_foreign load_key;;
  _ <-? fails lost_or_foreign (ensure_key_epoch key now);;
  let fingerprint := target_fingerprint_of key (b_target binding) (b_authority binding) in
  payload <-? lift (map_err lost_or_foreign (ContinuationPayload_current (b_response_id binding)
    (b_effective_model binding) (b_effective_effort binding) (b_causal_prefix binding)));;
  plaintext <-? lift (map_err lost_or_foreign (encode_payload payload));;
  retention <- reads retention;;
  expires <-? lift (ok_or (checked_add_signed now retention)
    (lost_or_foreign "continuation expiry exceeds time range"));;
  purge <-? lift (ok_or (checked_add_signed now (retention + retention))
    (lost_or_foreign "continuation purge boundary exceeds time range"));;
  let row := blank_row key owner request fingerprint publication (timestamp expires) (timestamp purge) in
  sealed <-? fails lost_or_foreign (encrypt key plaintext (row_aad row));;
  insert_row key payload (with_seal row sealed).

Definition bind (owner request response : string) (target : Target) (authority : ContinuationAuthority) (now : DateTime) :
    prog (result string unit) :=
  key <-? load_key;;
  with_identity_lock (continuation_identity_of key owner request) (
    gen <-? new_generation;;
    instance <- reads registry_instance;;
    lease <-? lift (publication_lease_until now);;
    outcome <-? fails failure (bind_inner owner request
      {| b_response_id := response; b_effective_model := provider_name target +:+ ":" +:+ service_id target;
         b_effective_effort := None; b_causal_prefix := None; b_target := target; b_authority := authority |}
      {| bind_now := now; bind_state := PUBLICATION_ACTIVE; bind_generation := gen; bind_instance := instance;
         bind_lease := lease |});;
    lift (ensure (bool_decide (outcome ≠ ExistingProvisional)) "gateway continuation id has a pending publication")).

Definition reserve (attempt : Z) (publication : PendingPublication) (g : Registry) : result string unit * Registry :=
  let publications := pending_publications g in
  if (pending_capacity g <=? Z.of_nat (size publications)) && negb (is_some (publications !! attempt))
  then (Err "continuation reconciliation capacity exhausted", g)
  else if is_some (publications !! attempt) then (Err "duplicate continuation delivery attempt id", g)
  else (Ok tt, with_pending (<[attempt := publication]> publications) g).

Definition bind_pending (owner request : string) (binding : ContinuationBinding) (a : PendingBindAttempt) :
    prog (result string bool) :=
  let attempt := delivery_attempt_id a in let receipt := attempt_receipt a in
  key <-? load_key;;
  let identity := continuation_identity_of key owner request in
  gen <-? new_generation;;
  instance <- reads registry_instance;;
  lease <-? lift (publication_lease_until (attempt_now a));;
  with_identity_lock identity (
    _ <-? act (Local (reserve attempt {| p_identity := identity; generation := gen; instance_id := instance;
      lease_until := lease; receipt := receipt; phase := Reserved |}));;
    pruned <- prune (attempt_now a);;
    match pruned with
    | Err _ => _ <- clear attempt gen receipt;; Ret (Err "pruning provider continuations")
    | Ok _ =>
        bound <- bind_inner owner request binding {| bind_now := attempt_now a; bind_state := PUBLICATION_PROVISIONAL;
          bind_generation := gen; bind_instance := instance; bind_lease := lease |};;
        match bound with
        | Ok Inserted =>
            _ <- act (Local (update_pending_phase attempt gen receipt Prepared));; Ret (Ok true)
        | Ok ExistingActive => _ <- clear attempt gen receipt;; Ret (Ok false)
        | Ok ExistingProvisional =>
            _ <- clear attempt gen receipt;; Ret (Err "gateway continuation id has a pending publication")
        | Err e =>
            _ <- (if is_lost e then clear attempt gen receipt else retain attempt gen receipt);; Ret (Err (failure e))
        end
    end).

(** ** Delivery ([gateway/pipeline/settlement.rs]) *)

Definition take_ready (s : Handshake) : bool * Handshake :=
  (ready s, {| ready := false; acknowledged := acknowledged s; activation_completed := activation_completed s;
               terminal_committed := terminal_committed s |}).
Definition take_acknowledged (s : Handshake) : bool * Handshake :=
  (acknowledged s, {| ready := ready s; acknowledged := false; activation_completed := activation_completed s;
                      terminal_committed := terminal_committed s |}).
Definition take_activation (s : Handshake) : bool * Handshake :=
  (activation_completed s, {| ready := ready s; acknowledged := acknowledged s; activation_completed := false;
                              terminal_committed := terminal_committed s |}).
Definition take_terminal (s : Handshake) : bool * Handshake :=
  (terminal_committed s, {| ready := ready s; acknowledged := acknowledged s;
                            activation_completed := activation_completed s; terminal_committed := false |}).

Definition wait_for_delivery_acknowledgement (h : nat) : prog (result string bool) :=
  there <- act (Slots h take_ready);;
  if negb there then Ret (Ok false) else
  sent <- act (SendReady h);;
  if negb sent then Ret (Ok false) else
  there <- act (Slots h take_acknowledged);;
  if negb there then Ret (Ok false) else
  answer <- act (AwaitAcknowledged h);;
  Ret (match answer with
       | Some Delivered => Ok true
       | Some (Failed error) => Err error
       | None => Ok false
       end).
Definition complete_activation (h : nat) (completed : result string unit) : prog bool :=
  there <- act (Slots h take_activation);;
  if there then act (SendActivation h completed) else Ret true.
Definition wait_for_terminal_commit (h : nat) : prog bool :=
  there <- act (Slots h take_terminal);;
  if there then act (AwaitTerminal h) else Ret true.
(** What a delivery that was not carried through answers. *)
Definition undelivered (r : result string bool) : result string bool :=
  match r with Ok _ => Ok false | Err error => Err error end.
Definition wait_for_delivery (h : nat) : prog (result string bool) :=
  r <- wait_for_delivery_acknowledgement h;;
  completed <- complete_activation h (Ok tt);;
  if negb completed then Ret (undelivered r) else
  committed <- wait_for_terminal_commit h;;
  Ret (if committed then r else undelivered r).

(** ** Activation *)

(** The first locked scope of [activate_pending]. *)
Definition begin_delivery (attempt : Z) (receipt : option Receipt) : prog (result string unit) :=
  found <- reads (pending_publication attempt receipt);;
  publication <-? lift (ok_or found "provisional continuation ownership disappeared");;
  now <- act Now;;
  publication <-? fails failure (renew_publication_lease attempt publication now);;
  key <-? load_key;;
  row <-? find_row (p_identity publication);;
  row <-? lift (ok_or row "provisional continuation disappeared before activation");;
  if negb (publication_owns_row publication row)
  then Ret (Err "provisional continuation fencing ownership changed")
  else if in_state PUBLICATION_PROVISIONAL row then
    _ <-? transition_publication_state key row PUBLICATION_DELIVERING;; Ret (Ok tt)
  else if in_state PUBLICATION_DELIVERING row then _ <-? lift (decrypt_row key row);; Ret (Ok tt)
  else if in_state PUBLICATION_ACTIVE row
  then Ret (Err "continuation publication was already active before delivery acknowledgement")
  else Ret (Err (unsupported_state (publication_state row))).

(** The second one, after the acknowledgement. Its [?]s leave [activate_pending] (the outer result), the other
    errors are compensated (the inner one). *)
Definition activate_delivered (attempt : Z) (receipt : option Receipt) : prog (result string (result string Model)) :=
  found <- reads (pending_publication attempt receipt);;
  match found with
  | None => Ret (Ok (Err "delivering continuation ownership disappeared"))
  | Some publication =>
      now <- act Now;;
      publication <-? fails failure (renew_publication_lease attempt publication now);;
      row <-? find_row (p_identity publication);;
      row <-? lift (ok_or row "delivering continuation disappeared before activation");;
      if negb (publication_owns_row publication row)
      then Ret (Ok (Err "delivering continuation fencing ownership changed"))
      else if negb (in_state PUBLICATION_DELIVERING row)
      then Ret (Ok (Err "continuation left delivering state before activation"))
      else
        key <-? load_key;;
        activated <- transition_publication_state key row PUBLICATION_ACTIVE;;
        Ret (Ok activated)
  end.

Definition activate_pending (attempt : Z) (receipt : option Receipt) (h : nat) : prog (result string bool) :=
  found <- reads (pending_publication attempt receipt);;
  match found with
  | None => wait_for_delivery h
  | Some publication =>
      _ <-? with_identity_lock (p_identity publication) (begin_delivery attempt receipt);;
      delivery_result <- wait_for_delivery_acknowledgement h;;
      match delivery_result with
      | Ok true =>
          activation <-? with_identity_lock (p_identity publication) (activate_delivered attempt receipt);;
          match activation with
          | Ok _ =>
              activation_observed <- complete_activation h (Ok tt);;
              committed <- (if activation_observed : bool then wait_for_terminal_commit h else Ret false);;
              if committed : bool then
                _ <- clear attempt (generation publication) receipt;; Ret (Ok true)
              else _ <-? rollback_pending attempt receipt;; Ret (Ok false)
          | Err activation_error =>
              compensation <- rollback_pending attempt receipt;;
              let error := match compensation with
                | Ok _ => activation_error
                | Err compensation_error =>
                    activation_error +:+ "; compensating failed activation: " +:+ compensation_error
                end in
              _ <- complete_activation h (Err ("activating provider continuation publication: " +:+ error));;
              Ret (Err error)
          end
      | _ =>
          rolled_back <- rollback_pending attempt receipt;;
          match rolled_back with
          | Ok _ =>
              completed <- complete_activation h (Ok tt);;
              _ <- (if completed : bool then wait_for_terminal_commit h else Ret false);;
              Ret delivery_result
          | Err error =>
              _ <- complete_activation h (Err ("compensating provider continuation publication: " +:+ error));;
              Ret (Err error)
          end
      end
  end.

(** ** Reconciliation *)

Definition eligible (g : Registry) : list (Z * PendingPublication) :=
  sort_by_key fst (List.filter (λ e, unreserved e.2) (map_to_list (pending_publications g))).
Definition select_pending (g : Registry) : list (Z * PendingPublication) * Registry :=
  let eligible := eligible g in
  if bool_decide (eligible = []) then ([], g) else
  let start :=
    match pending_cursor g with
    | Some previous =>
        let next := length (List.filter (λ e, e.1 <=? previous) eligible) in
        if (next <? length eligible)%nat then next else 0%nat
    | None => 0%nat
    end in
  let count := Nat.min (length eligible) RECONCILIATION_BATCH_SIZE in
  let selected := omap (λ offset, eligible !! ((start + offset) mod length eligible)%nat) (seq 0 count) in
  (selected, with_cursor (fst <$> last selected) g).

Definition reconcile_one (attempt : Z) (receipt : option Receipt) (now : DateTime) : prog bool :=
  found <- reads (pending_publication attempt receipt);;
  match found with
  | None => Ret false
  | Some publication =>
      renewed <- renew_publication_lease attempt publication now;;
      match renewed with
      | Err e =>
          if is_lost e
          then _ <- clear attempt (generation publication) (ContinuationStore.receipt publication);; Ret false
          else Ret true
      | Ok publication =>
          if bool_decide (phase publication ≠ Reconcile) then Ret false else
          compensated <- compensate_owned_publication publication;;
          match compensated with
          | Ok _ => _ <- clear attempt (generation publication) (ContinuationStore.receipt publication);; Ret false
          | Err e =>
              if is_lost e
              then _ <- clear attempt (generation publication) (ContinuationStore.receipt publication);; Ret false
              else Ret true
          end
      end
  end.
Fixpoint reconcile_loop (pending : list (Z * PendingPublication)) (seen : list (string * string)) (had_error : bool)
    (now : DateTime) : prog bool :=
  match pending with
  | [] => Ret had_error
  | (attempt, snapshot) :: pending =>
      let name := (p_identity snapshot, generation snapshot) in
      if bool_decide (name ∈ seen) then reconcile_loop pending seen had_error now else
      failed <- with_identity_lock (p_identity snapshot) (reconcile_one attempt (receipt snapshot) now);;
      reconcile_loop pending (name :: seen) (had_error || failed) now
  end.
Definition reconcile_local_publications (now : DateTime) : prog bool :=
  pending <- act (Local select_pending);;
  reconcile_loop pending [] false now.

Definition is_pending_state (state : string) : bool :=
  bool_decide (state ∈ [PUBLICATION_PROVISIONAL; PUBLICATION_DELIVERING]).
Definition claim_and_compensate_stale_publication (row : Model) (now : DateTime) : prog (result string unit) :=
  if negb (is_pending_state (publication_state row)) then Ret (Ok tt) else
  until <-? lift (parse_timestamp (publication_lease_until_text row));;
  if now <? until then Ret (Ok tt) else
  key <-? load_key;;
  plaintext <-? lift (decrypt_row key row);;
  lease <-? lift (publication_reconciliation_lease_until now);;
  instance <- reads registry_instance;;
  sealed <-? encrypt key plaintext (resealed_aad row (publication_state row) instance lease);;
  claimed <-? act (Update row {| set_state := None; set_instance := Some instance; set_lease := Some lease;
    set_ciphertext := Some sealed.1; set_nonce := Some sealed.2 |});;
  if negb (claimed =? 1) then Ret (Ok tt) else
  _ <-? fails failure (compensate_owned_publication {| p_identity := continuation_identity row;
    generation := publication_generation row; instance_id := instance; lease_until := lease; receipt := None;
    phase := Reconcile |});;
  Ret (Ok tt).
Fixpoint stale_loop (stale : list Model) (had_error : bool) (now : DateTime) : prog bool :=
  match stale with
  | [] => Ret had_error
  | row :: stale =>
      local <- reads (has_local_generation (continuation_identity row) (publication_generation row));;
      if local : bool then stale_loop stale had_error now else
      r <- with_identity_lock (continuation_identity row) (claim_and_compensate_stale_publication row now);;
      stale_loop stale (had_error || negb (is_ok r)) now
  end.
Definition reconcile_stale_publications (now : DateTime) : prog bool :=
  let limit := Z.of_nat RECONCILIATION_BATCH_SIZE in
  offset <- reads stale_offset;;
  stale <- act (Select (StalePublications (timestamp now) offset limit));;
  match stale with
  | Err _ => Ret true
  | Ok stale =>
      _ <- act (Local (λ g, (tt, with_stale_offset
             (if (length stale <? RECONCILIATION_BATCH_SIZE)%nat then 0 else saturating_add u64_max offset limit) g)));;
      stale_loop stale false now
  end.
Definition reconcile_pass (now : DateTime) : prog bool :=
  local <- reconcile_local_publications now;;
  stale <- reconcile_stale_publications now;;
  Ret (local || stale).

(** One turn of the drain in [stop_reconciler], once the worker has ended; without an answer there is another
    turn, for fewer markers. *)
Definition drain_turn : prog (option (result string unit)) :=
  before <- reads pending_reconciliation_count;;
  if bool_decide (before = 0%nat) then Ret (Some (Ok tt)) else
  now <- act Now;;
  had_error <- reconcile_local_publications now;;
  after <- reads pending_reconciliation_count;;
  if bool_decide (after = 0%nat) then Ret (Some (Ok tt)) else
  let reason := if had_error : bool then "database reconciliation failed" else "reconciliation made no progress" in
  if (before <=? after)%nat
  then Ret (Some (Err ("continuation reconciliation drain stopped because " +:+ reason +:+ "; retained " +:+
    pretty after +:+ " owner markers")))
  else Ret None.
(** [None] when the turns are used up. *)
Fixpoint drain_loop (turns : nat) : prog (option (result string unit)) :=
  match turns with
  | O => Ret None
  | S turns => turn <- drain_turn;; match turn with Some r => Ret (Some r) | None => drain_loop turns end
  end.
Definition stop_reconciler (turns : nat) : prog (option (result string unit)) :=
  _ <- act (Local mark_pending_for_shutdown_reconciliation);; drain_loop turns.

(** ** Resolution *)

Record ResolvedContinuation := {
  r_response_id : string; r_effective_model : option string; r_effective_effort : option ReasoningEffort;
  effort_authoritative : bool; r_causal_prefix : option string; r_target_fingerprint : string; r_key : ContinuationKey }.
Inductive ContinuationResolution := Missing | Expired | Active (resolved : ResolvedContinuation).
Definition resolved_of (key : ContinuationKey) (row : Model) (payload : ContinuationPayload) : ResolvedContinuation :=
  {| r_response_id := provider_response_id payload; r_effective_model := effective_model payload;
     r_effective_effort := effective_effort payload; effort_authoritative := 4 <=? version payload;
     r_causal_prefix := causal_prefix_commitment payload ≫= CausalPrefixCommitment_parse;
     r_target_fingerprint := target_fingerprint row; r_key := key |}.
Definition matches_target (r : ResolvedContinuation) (target : Target) (authority : ContinuationAuthority) : bool :=
  bool_decide (target_fingerprint_of (r_key r) target authority = r_target_fingerprint r).

(** One turn of the loop; without an answer, the row was replaced meanwhile, and it is read again. *)
Definition resolve_turn (key : ContinuationKey) (owner identity : string) (now : DateTime) :
    prog (result string (option ContinuationResolution)) :=
  found <-? find_row identity;;
  match found with
  | None => Ret (Ok (Some Missing))
  | Some row =>
      if negb (in_state PUBLICATION_ACTIVE row) then Ret (Ok (Some Missing)) else
      masked <- reads (has_pending_generation (continuation_identity row) (publication_generation row));;
      if masked : bool then Ret (Ok (Some Missing)) else
      if bool_decide (owner_identity row ≠ owner_identity_of key owner)
      then Ret (Err "continuation owner identity mismatch") else
      if bool_decide (row_key_id row ≠ key_id key) then Ret (Err "continuation key epoch mismatch") else
      if bool_decide (cipher_version row ≠ CIPHER_VERSION) then Ret (Err "unsupported continuation cipher version") else
      expires <-? lift (parse_timestamp (expires_at row));;
      if expires <=? now then
        scrubbed <-? scrub_expired row;; Ret (Ok (if scrubbed : bool then Some Expired else None))
      else
        payload <-? lift (decrypt_payload key row);; Ret (Ok (Some (Active (resolved_of key row payload))))
  end.
(** [None] when the turns are used up. *)
Fixpoint resolve_loop (turns : nat) (key : ContinuationKey) (owner identity : string) (now : DateTime) :
    prog (result string (option ContinuationResolution)) :=
  match turns with
  | O => Ret (Ok None)
  | S turns =>
      turn <-? resolve_turn key owner identity now;;
      match turn with Some r => Ret (Ok (Some r)) | None => resolve_loop turns key owner identity now end
  end.
Definition resolve (turns : nat) (owner request : string) (now : DateTime) :
    prog (result string (option ContinuationResolution)) :=
  key <-? load_key;;
  _ <-? ensure_key_epoch key now;;
  let identity := continuation_identity_of key owner request in
  with_identity_lock identity (resolve_loop turns key owner identity now).
End store.
