(* ===== verification/ContinuationSystem.v ===== *)
(** Provider continuations as a system: any number of processes run the operations of [ContinuationStore] against
    one table, an action at a time, in any order. A statement may fail, before or after it took effect; a call may
    be dropped at any action. The rules of [publish] are the protocol that the rows follow, and [safe] is the
    logic by which every operation is shown to keep to it. *)
From Stdlib Require Import ZArith Lia Ascii.
From stdpp Require Import base list strings gmap pretty sorting relations.
From S2P Require Import Prelude EvalMeasurement MeteringUsage ContinuationPayload ContinuationStore.
Open Scope string_scope.
Open Scope list_scope.
Open Scope Z_scope.

(** ** Calls *)

Inductive Call :=
| CallBind (owner request response : string) (target : Target) (authority : ContinuationAuthority) (now : DateTime)
| CallBindPending (owner request : string) (binding : ContinuationBinding) (attempt : PendingBindAttempt)
| CallActivate (attempt : Z) (receipt : option Receipt) (h : nat)
| CallRollback (attempt : Z) (receipt : option Receipt)
| CallResolve (turns : nat) (owner request : string) (now : DateTime)
| CallPrune (now : DateTime)
| CallReconcile (now : DateTime)
| CallStop (turns : nat).
Inductive Outcome :=
| Unit (r : result string unit)
| Flag (r : result string bool)
| Count (r : result string Z)
| Resolution (r : result string (option ContinuationResolution))
| Pass (had_error : bool)
| Drained (r : option (result string unit)).

(** What happened: a row was written, a registry was read or changed, a delivery was acknowledged, a call was made
    or returned. *)
Inductive Event :=
| Wrote (process : nat) (old new : option Model)
| Kept (process : nat) (g : Registry)
| Acknowledged (process : nat) (h : nat)
| Called (process : nat) (c : Call)
| Returned (process : nat) (c : Call) (o : Outcome).

Record World := {
  rows : gmap string Model; epoch : option string; registries : gmap nat Registry; locks : gset (nat * string);
  handshakes : gmap nat Handshake; history : list Event }.

Definition with_rows (id : string) (new : option Model) (r : nat) (w : World) : World :=
  {| rows := partial_alter (λ _, new) id (rows w); epoch := epoch w; registries := registries w; locks := locks w;
     handshakes := handshakes w; history := history w ++ [Wrote r (rows w !! id) new] |}.
Definition with_registry (r : nat) (g : Registry) (w : World) : World :=
  {| rows := rows w; epoch := epoch w; registries := <[r := g]> (registries w); locks := locks w;
     handshakes := handshakes w; history := history w ++ [Kept r g] |}.
Definition with_epoch (e : option string) (w : World) : World :=
  {| rows := rows w; epoch := e; registries := registries w; locks := locks w; handshakes := handshakes w;
     history := history w |}.
Definition with_locks (l : gset (nat * string)) (w : World) : World :=
  {| rows := rows w; epoch := epoch w; registries := registries w; locks := l; handshakes := handshakes w;
     history := history w |}.
Definition with_handshake (h : nat) (s : Handshake) (w : World) : World :=
  {| rows := rows w; epoch := epoch w; registries := registries w; locks := locks w;
     handshakes := <[h := s]> (handshakes w); history := history w |}.
Definition note (e : Event) (w : World) : World :=
  {| rows := rows w; epoch := epoch w; registries := registries w; locks := locks w; handshakes := handshakes w;
     history := history w ++ [e] |}.

(** ** The database *)

(** [legacy_continuation_scope] *)
Definition legacy_continuation_scope (row : Model) : bool :=
  negb (is_some (installation_id row)) && negb (is_some (tenant_id row)) &&
  negb (is_some (creator_principal_id row)) && (cipher_version row =? CIPHER_VERSION).
(** [continuation_snapshot_condition]: every column is the snapshot's. *)
Definition continuation_snapshot_condition (snapshot row : Model) : bool :=
  legacy_continuation_scope row &&
  bool_decide (continuation_identity row = continuation_identity snapshot) &&
  bool_decide (owner_identity row = owner_identity snapshot) &&
  bool_decide (target_fingerprint row = target_fingerprint snapshot) &&
  bool_decide (row_key_id row = row_key_id snapshot) && (cipher_version row =? cipher_version snapshot) &&
  bool_decide (created_at row = created_at snapshot) && bool_decide (expires_at row = expires_at snapshot) &&
  bool_decide (purge_after row = purge_after snapshot) &&
  bool_decide (publication_state row = publication_state snapshot) &&
  bool_decide (publication_generation row = publication_generation snapshot) &&
  bool_decide (publication_instance_id row = publication_instance_id snapshot) &&
  bool_decide (publication_lease_until_text row = publication_lease_until_text snapshot) &&
  bool_decide (ciphertext row = ciphertext snapshot) && bool_decide (nonce row = nonce snapshot).
Definition matching (snapshot : Model) (w : World) : bool :=
  is_some_and (continuation_snapshot_condition snapshot) (rows w !! continuation_identity snapshot).
Definition scoped (row : option Model) : option Model :=
  row ← row; if legacy_continuation_scope row then Some row else None.

Definition text_le (a b : string) : bool := bool_decide (ord_le a b).
(** Rows by a time and then by identity; where the code leaves the order of equal times open, the identity decides. *)
Definition page (time : Model → string) (keep : Model → bool) (offset limit : Z) (table : gmap string Model) : list Model :=
  let all := sort_by_key (λ row, (time row, continuation_identity row))
    (List.filter (λ row, legacy_continuation_scope row && keep row) (map_to_list table).*2) in
  take (Z.to_nat limit) (drop (Z.to_nat offset) all).
Definition answer (q : Query) (table : gmap string Model) : list Model :=
  match q with
  | StalePublications now offset limit =>
      page publication_lease_until_text
        (λ row, is_pending_state (publication_state row) && text_le (publication_lease_until_text row) now) offset limit table
  | ExpiredRows now limit => page expires_at (λ row, text_le (expires_at row) now && is_some (ciphertext row)) 0 limit table
  | PurgeableRows now limit => page purge_after (λ row, text_le (purge_after row) now) 0 limit table
  end.

(** ** One action *)

(** What the environment decides: the fate of a statement, the clock, random bytes, what the other end of a
    handshake does. *)
Inductive Fate := Done | FailBefore (error : string) | FailAfter (error : string).
Record Choice := { fate : Fate; instant : DateTime; drawn : option string; response : bool;
                   reply : option DeliveryAcknowledgement }.

Definition statement {T} (c : Choice) (value : T) (w w' : World) : option (result string T * World) :=
  match fate c with
  | Done => Some (Ok value, w')
  | FailBefore error => Some (Err error, w)
  | FailAfter error => Some (Err error, w')
  end.
Definition inserting (c : Choice) (vacant : bool) (w w' : World) : option (result string unit * World) :=
  match fate c with
  | FailBefore error => Some (Err error, w)
  | _ => if vacant then statement c tt w w' else None
  end.

Definition exec {T} (c : Choice) (r : nat) (a : action T) (w : World) : option (T * World) :=
  match a in action T return option (T * World) with
  | Now => Some (instant c, w)
  | Random count =>
      if is_none_or (λ s, (String.length s =? count)%nat) (drawn c) then Some (drawn c, w) else None
  | Find id => statement c (scoped (rows w !! id)) w w
  | Select q => statement c (answer q (rows w)) w w
  | Insert row =>
      let id := continuation_identity row in
      inserting c (negb (is_some (rows w !! id))) w (with_rows id (Some row) r w)
  | Update snapshot assignment =>
      if matching snapshot w
      then statement c 1 w (with_rows (continuation_identity snapshot) (Some (apply assignment snapshot)) r w)
      else statement c 0 w w
  | Delete snapshot =>
      if matching snapshot w then statement c 1 w (with_rows (continuation_identity snapshot) None r w)
      else statement c 0 w w
  | FindEpoch => statement c (epoch w) w w
  | InsertEpoch key_id _ => inserting c (negb (is_some (epoch w))) w (with_epoch (Some key_id) w)
  | Lock id => if bool_decide ((r, id) ∈ locks w) then None else Some (tt, with_locks ({[(r, id)]} ∪ locks w) w)
  | Unlock id => Some (tt, with_locks (locks w ∖ {[(r, id)]}) w)
  | Local f =>
      match registries w !! r with
      | Some g => Some ((f g).1, with_registry r (f g).2 w)
      | None => None
      end
  | Slots h f =>
      match handshakes w !! h with
      | Some s => Some ((f s).1, with_handshake h (f s).2 w)
      | None => None
      end
  | SendReady _ => Some (response c, w)
  | AwaitAcknowledged h =>
      Some (reply c, match reply c with Some Delivered => note (Acknowledged r h) w | _ => w end)
  | SendActivation _ _ => Some (response c, w)
  | AwaitTerminal _ => Some (response c, w)
  end.

(** ** The system *)

(** The locks that a call holds, which are released when it is dropped. *)
Definition holds {T} (a : action T) (held : list string) : list string :=
  match a with
  | Lock id => id :: held
  | Unlock id => List.filter (λ x, negb (bool_decide (x = id))) held
  | _ => held
  end.
Record Thread := { process : nat; call : Call; program : prog Outcome; held : list string }.
Record System := { world : World; threads : gmap nat Thread }.

Section system.
Context `{ContinuationEnv}.

Definition program_of (c : Call) : prog Outcome :=
  match c with
  | CallBind owner request response target authority now =>
      and_then (bind owner request response target authority now) (λ r, Ret (Unit r))
  | CallBindPending owner request binding attempt =>
      and_then (bind_pending owner request binding attempt) (λ r, Ret (Flag r))
  | CallActivate attempt receipt h => and_then (activate_pending attempt receipt h) (λ r, Ret (Flag r))
  | CallRollback attempt receipt => and_then (rollback_pending attempt receipt) (λ r, Ret (Unit r))
  | CallResolve turns owner request now => and_then (resolve turns owner request now) (λ r, Ret (Resolution r))
  | CallPrune now => and_then (prune now) (λ r, Ret (Count r))
  | CallReconcile now => and_then (reconcile_pass now) (λ r, Ret (Pass r))
  | CallStop turns => and_then (stop_reconciler turns) (λ r, Ret (Drained r))
  end.

(** A registry as it starts; the processes that share a table share its key file. *)
Definition Registry_new (key : ContinuationKey) (g : Registry) : Prop :=
  pending_publications g = ∅ ∧ 0 ≤ pending_capacity g ∧ (∀ k, keys g = Ok k → k = key).

Inductive Step (key : ContinuationKey) : System → System → Prop :=
| step_open w ts r g : registries w !! r = None → Registry_new key g →
    Step key {| world := w; threads := ts |} {| world := with_registry r g w; threads := ts |}
| step_handshake w ts h s : handshakes w !! h = None →
    Step key {| world := w; threads := ts |} {| world := with_handshake h s w; threads := ts |}
| step_call w ts t r c : ts !! t = None → is_Some (registries w !! r) →
    Step key {| world := w; threads := ts |}
      {| world := note (Called r c) w;
         threads := <[t := {| process := r; call := c; program := program_of c; held := [] |}]> ts |}
| step_act w ts t r c l {T} (a : action T) k choice x w' :
    ts !! t = Some {| process := r; call := c; program := Act a k; held := l |} →
    exec choice r a w = Some (x, w') →
    Step key {| world := w; threads := ts |}
      {| world := w'; threads := <[t := {| process := r; call := c; program := k x; held := holds a l |}]> ts |}
| step_return w ts t r c l o : ts !! t = Some {| process := r; call := c; program := Ret o; held := l |} →
    Step key {| world := w; threads := ts |} {| world := note (Returned r c o) w; threads := delete t ts |}
| step_drop w ts t th : ts !! t = Some th →
    Step key {| world := w; threads := ts |}
      {| world := with_locks (locks w ∖ list_to_set ((λ id, (process th, id)) <$> held th)) w;
         threads := delete t ts |}.

(** At the start the table holds no row of this registry's, though it may hold others. *)
Definition Initial (S : System) : Prop :=
  (∀ id row, rows (world S) !! id = Some row → legacy_continuation_scope row = false ∧ continuation_identity row = id) ∧
  registries (world S) = ∅ ∧ history (world S) = [] ∧ threads S = ∅.
Definition reachable (key : ContinuationKey) (S : System) : Prop := ∃ S0, Initial S0 ∧ rtc (Step key) S0 S.
End system.

(** ** The protocol of a row *)

Section protocol.
Context `{ContinuationEnv} (K : ContinuationKey).
Implicit Types (hist : list Event) (r : nat) (p : PendingPublication) (row : Model).

(** A process had this marker, for this delivery attempt. *)
Definition marked_at hist r (attempt : Z) p : Prop :=
  ∃ g, Kept r g ∈ hist ∧ pending_publications g !! attempt = Some p.
Definition marked hist r p : Prop := ∃ attempt, marked_at hist r attempt p.
(** The calls that judge by the clock of their caller. *)
Definition reconciles_at hist r (now : DateTime) : Prop := Called r (CallReconcile now) ∈ hist.
Definition resolves_at hist r (now : DateTime) : Prop :=
  ∃ turns owner request, Called r (CallResolve turns owner request now) ∈ hist.
Definition prunes_at hist r (now : DateTime) : Prop :=
  Called r (CallPrune now) ∈ hist ∨
  ∃ owner request binding a, Called r (CallBindPending owner request binding a) ∈ hist ∧ attempt_now a = now.
(** A process took over a row whose lease had run out when it was called. *)
Definition takes_over hist r (old new : Model) : Prop :=
  ∃ g now until instance lease c n, Kept r g ∈ hist ∧ registry_instance g = instance ∧
    reconciles_at hist r now ∧ is_pending_state (publication_state old) = true ∧
    parse_timestamp (publication_lease_until_text old) = Ok until ∧ until ≤ now ∧
    new = apply {| set_state := None; set_instance := Some instance; set_lease := Some lease;
                   set_ciphertext := Some c; set_nonce := Some n |} old.
Definition took_over hist r row : Prop :=
  ∃ old new, Wrote r (Some old) (Some new) ∈ hist ∧ takes_over hist r old new ∧
    publication_owns_row {| p_identity := continuation_identity new; generation := publication_generation new;
      instance_id := publication_instance_id new; lease_until := publication_lease_until_text new;
      receipt := None; phase := Reconcile |} row = true.
Definition owns hist r row : Prop := ∃ p, marked hist r p ∧ publication_owns_row p row = true.
Definition entitled hist r row : Prop := owns hist r row ∨ took_over hist r row.
(** The delivery of a marked generation was acknowledged to the call that activates it. *)
Definition delivered_to hist r (gen : string) : Prop :=
  ∃ attempt p receipt h, marked_at hist r attempt p ∧ generation p = gen ∧
    Called r (CallActivate attempt receipt h) ∈ hist ∧ Acknowledged r h ∈ hist.
Definition delivered hist (gen : string) : Prop := ∃ r, delivered_to hist r gen.
Definition resealed (old new : Model) : Prop := ∃ text, decrypt_row K old = Ok text ∧ decrypt_row K new = Ok text.

(** A row is the sealed binding of a call. *)
Definition seals row (owner request : string) (b : ContinuationBinding) : Prop :=
  continuation_identity row = continuation_identity_of K owner request ∧
  owner_identity row = owner_identity_of K owner ∧
  target_fingerprint row = target_fingerprint_of K (b_target b) (b_authority b) ∧ row_key_id row = key_id K ∧
  legacy_continuation_scope row = true ∧
  ∃ payload text, ContinuationPayload_current (b_response_id b) (b_effective_model b) (b_effective_effort b)
      (b_causal_prefix b) = Ok payload ∧ encode_payload payload = Ok text ∧ decrypt_row K row = Ok text.
Definition direct_binding (response : string) (target : Target) (authority : ContinuationAuthority) :
    ContinuationBinding :=
  {| b_response_id := response; b_effective_model := provider_name target +:+ ":" +:+ service_id target;
     b_effective_effort := None; b_causal_prefix := None; b_target := target; b_authority := authority |}.
Inductive bound hist r row : string → string → ContinuationBinding → Prop :=
| bound_directly owner request response target authority now :
    Called r (CallBind owner request response target authority now) ∈ hist →
    publication_state row = PUBLICATION_ACTIVE → seals row owner request (direct_binding response target authority) →
    bound hist r row owner request (direct_binding response target authority)
| bound_pending owner request binding a :
    Called r (CallBindPending owner request binding a) ∈ hist → publication_state row = PUBLICATION_PROVISIONAL →
    owns hist r row → seals row owner request binding → bound hist r row owner request binding.

(** The changes that a process may make to a row. *)
Inductive publish hist r : option Model → option Model → Prop :=
| publish_bind row owner request b : bound hist r row owner request b → publish hist r None (Some row)
| publish_renew row lease c n :
    let new := apply {| set_state := None; set_instance := None; set_lease := Some lease;
                        set_ciphertext := Some c; set_nonce := Some n |} row in
    owns hist r row → resealed row new → publish hist r (Some row) (Some new)
| publish_take_over row new : takes_over hist r row new → resealed row new → publish hist r (Some row) (Some new)
| publish_deliver row sealed :
    let new := with_state row PUBLICATION_DELIVERING sealed in
    owns hist r row → publication_state row = PUBLICATION_PROVISIONAL → resealed row new →
    publish hist r (Some row) (Some new)
| publish_activate row sealed :
    let new := with_state row PUBLICATION_ACTIVE sealed in
    owns hist r row → publication_state row = PUBLICATION_DELIVERING →
    delivered_to hist r (publication_generation row) → resealed row new → publish hist r (Some row) (Some new)
| publish_demote row sealed :
    let new := with_state row PUBLICATION_PROVISIONAL sealed in
    entitled hist r row → publication_state row ∈ [PUBLICATION_DELIVERING; PUBLICATION_ACTIVE] → resealed row new →
    publish hist r (Some row) (Some new)
| publish_release row :
    entitled hist r row → publication_state row = PUBLICATION_PROVISIONAL → publish hist r (Some row) None
| publish_scrub row now :
    (prunes_at hist r now ∧ text_le (expires_at row) (timestamp now) = true) ∨
    (resolves_at hist r now ∧ ∃ t, parse_timestamp (expires_at row) = Ok t ∧ t ≤ now) →
    publish hist r (Some row) (Some (apply {| set_state := None; set_instance := None; set_lease := None;
                                               set_ciphertext := None; set_nonce := None |} row))
| publish_purge row now : prunes_at hist r now → text_le (purge_after row) (timestamp now) = true → publish hist r (Some row) None.

(** ** The invariant *)

(** Where a row comes from. *)
Definition kept_columns (old new : Model) : Prop :=
  continuation_identity new = continuation_identity old ∧ owner_identity new = owner_identity old ∧
  target_fingerprint new = target_fingerprint old ∧ row_key_id new = row_key_id old ∧
  created_at new = created_at old ∧ expires_at new = expires_at old ∧ purge_after new = purge_after old ∧
  publication_generation new = publication_generation old.
Definition stems hist row : Prop :=
  ∃ r first owner request b, Wrote r None (Some first) ∈ hist ∧ bound hist r first owner request b ∧
    kept_columns first row ∧
    (ciphertext row = None ∨ resealed first row) ∧
    (publication_state row = PUBLICATION_ACTIVE →
     publication_state first = PUBLICATION_ACTIVE ∨ delivered hist (publication_generation row)).
Definition registry_ok (g : Registry) : Prop :=
  Z.of_nat (size (pending_publications g)) ≤ pending_capacity g ∧ ∀ k, keys g = Ok k → k = K.
Record Inv (w : World) : Prop := {
  inv_rows : ∀ id row, rows w !! id = Some row →
    continuation_identity row = id ∧ (legacy_continuation_scope row = true → stems (history w) row);
  inv_registries : ∀ r g, registries w !! r = Some g → registry_ok g }.

(** ** Facts that stay *)

Section mono.
Context hist hist' (Hs : hist ⊆ hist').

Lemma marked_at_mono r attempt p : marked_at hist r attempt p → marked_at hist' r attempt p.
Proof using Hs. intros (g & Hg & Hp). exists g. eauto. Qed.
Lemma owns_mono r row : owns hist r row → owns hist' r row.
Proof using Hs. intros (p & (a & Hp) & Ho). exists p. split; [exists a; by apply marked_at_mono|done]. Qed.
Lemma takes_over_mono r old new : takes_over hist r old new → takes_over hist' r old new.
Proof using Hs.
  intros (g & now & u & i & l & c & n & Hg & Hi & Hc & Hr). exists g, now, u, i, l, c, n.
  split_and!; [by apply Hs|done|by apply Hs|apply Hr..].
Qed.
Lemma resolves_at_mono r now : resolves_at hist r now → resolves_at hist' r now.
Proof using Hs. intros (turns & owner & request & Hc). exists turns, owner, request. by apply Hs. Qed.
Lemma prunes_at_mono r now : prunes_at hist r now → prunes_at hist' r now.
Proof using Hs.
  intros [Hc|(owner & request & b & a & Hc & Ha)]; [left; by apply Hs|right]. exists owner, request, b, a. split; [by apply Hs|done].
Qed.
Lemma entitled_mono r row : entitled hist r row → entitled hist' r row.
Proof using Hs.
  intros [Ho|(old & new & Hw & Ht & Ho)]; [left; by apply owns_mono|right].
  exists old, new. split_and!; eauto using takes_over_mono.
Qed.
Lemma delivered_to_mono r gen : delivered_to hist r gen → delivered_to hist' r gen.
Proof using Hs.
  intros (a & p & receipt & h & Hm & Hg & Hc & Ha). exists a, p, receipt, h. split_and!; eauto using marked_at_mono.
Qed.
Lemma delivered_mono gen : delivered hist gen → delivered hist' gen.
Proof using Hs. intros [r Hd]. exists r. by apply delivered_to_mono. Qed.
Lemma bound_mono r row owner request b : bound hist r row owner request b → bound hist' r row owner request b.
Proof using Hs. intros []; [eapply bound_directly|eapply bound_pending]; eauto using owns_mono. Qed.
Lemma stems_mono row : stems hist row → stems hist' row.
Proof using Hs.
  intros (r & first & owner & request & b & Hw & Hb & Hk & Hc & Ha). exists r, first, owner, request, b.
  split_and!; eauto using bound_mono. intros Hst. destruct (Ha Hst); eauto using delivered_mono.
Qed.
Lemma publish_mono r old new : publish hist r old new → publish hist' r old new.
Proof using Hs.
  intros []; [eapply publish_bind|eapply publish_renew|eapply publish_take_over|eapply publish_deliver
    |eapply publish_activate|eapply publish_demote|eapply publish_release|eapply publish_scrub|eapply publish_purge];
    try match goal with H : (_ ∨ _) |- _ => destruct H as [[? ?]|[? ?]]; [left|right] end;
    eauto using bound_mono, owns_mono, takes_over_mono, entitled_mono, delivered_to_mono, resolves_at_mono, prunes_at_mono.
Qed.
End mono.

(** ** The protocol keeps the invariant *)

Lemma apply_kept a row : kept_columns row (apply a row).
Proof. by split_and!. Qed.
Lemma kept_columns_trans a b c : kept_columns a b → kept_columns b c → kept_columns a c.
Proof. unfold kept_columns. intuition congruence. Qed.
Lemma kept_columns_refl a : kept_columns a a.
Proof. by split_and!. Qed.
Lemma resealed_trans a b c : resealed a b → resealed b c → resealed a c.
Proof. intros (t & Ha & Hb) (t' & Hb' & Hc). exists t. split; [done|congruence]. Qed.
Lemma decrypts_sealed row text : decrypt_row K row = Ok text → ciphertext row ≠ None.
Proof. unfold decrypt_row, decrypt_authenticated. intros Hd Hn. by rewrite Hn in Hd. Qed.

(** A row that was changed within its columns, with its seal kept or taken away. *)
Lemma stems_change hist hist' row new :
  stems hist row → hist ⊆ hist' → kept_columns row new → (resealed row new ∨ ciphertext new = None) →
  (publication_state new = PUBLICATION_ACTIVE →
   publication_state row = PUBLICATION_ACTIVE ∨ delivered hist' (publication_generation row)) →
  stems hist' new.
Proof.
  intros (r & first & owner & request & b & Hw & Hb & Hk & Hc & Ha) Hs Hkn Hn Hst.
  exists r, first, owner, request, b. split_and!; [by apply Hs|by eapply bound_mono|by eapply kept_columns_trans| |].
  - destruct Hn as [Hr|Hr]; [|by left]. right. destruct Hc as [Hc|Hc]; [|by eapply resealed_trans].
    destruct Hr as (text & Hd & _). by apply decrypts_sealed in Hd.
  - intros Hact. assert (publication_generation new = publication_generation row) as -> by apply Hkn.
    destruct (Hst Hact) as [Hr|Hd]; [|by right]. destruct (Ha Hr); [by left|right]. by eapply delivered_mono.
Qed.
Lemma publish_stems hist hist' r row new :
  publish hist r (Some row) (Some new) → hist ⊆ hist' → stems hist row → stems hist' new.
Proof.
  intros Hp Hs Hst.
  assert (∀ v, PUBLICATION_ACTIVE ≠ v → v = PUBLICATION_ACTIVE → publication_state row = PUBLICATION_ACTIVE ∨
    delivered hist' (publication_generation row)) as Hn by congruence.
  inversion Hp; subst.
  - eapply stems_change; eauto using apply_kept.
  - match goal with H : takes_over _ _ _ _ |- _ => destruct H as (? & ? & ? & ? & ? & ? & ? & _ & _ & _ & _ & _ & _ & ->) end.
    eapply stems_change; eauto using apply_kept.
  - eapply stems_change; eauto using apply_kept.
  - eapply stems_change; eauto using apply_kept. intros _. right. exists r. by eapply delivered_to_mono.
  - eapply stems_change; eauto using apply_kept.
  - eapply stems_change; eauto using apply_kept.
Qed.
Lemma apply_identity a row : continuation_identity (apply a row) = continuation_identity row.
Proof. done. Qed.
Lemma publish_identity hist r row new :
  publish hist r (Some row) (Some new) →
  continuation_identity new = continuation_identity row ∧
  legacy_continuation_scope new = legacy_continuation_scope row.
Proof.
  intros Hp. inversion Hp; subst; try (split; reflexivity).
  match goal with H : takes_over _ _ _ _ |- _ => destruct H as (? & ? & ? & ? & ? & ? & ? & _ & _ & _ & _ & _ & _ & ->) end. done.
Qed.

(** ** One change at a time *)

(** What an action of a process may do to the world. *)
Record permitted r (w w' : World) : Prop := {
  permitted_later : history w ⊆ history w';
  permitted_rows : ∀ id, rows w' !! id = rows w !! id ∨
    (publish (history w) r (rows w !! id) (rows w' !! id) ∧ Wrote r (rows w !! id) (rows w' !! id) ∈ history w' ∧
     (∀ row, rows w' !! id = Some row → continuation_identity row = id) ∧
     is_none_or legacy_continuation_scope (rows w !! id) = true);
  permitted_registries : ∀ r' g, registries w' !! r' = Some g → registries w !! r' = Some g ∨ registry_ok g }.
Lemma permitted_inv r w w' :
  permitted r w w' → Inv w → Inv w'.
Proof.
  intros [Hl Hr Hg] [Ir Ig]. split.
  - intros id row Hrow. destruct (Hr id) as [He|(Hp & Hw & Hid & _)].
    + rewrite He in Hrow. destruct (Ir _ _ Hrow) as [-> Hst]. split; [done|]. intros Hsc. eapply stems_mono; [exact Hl|by apply Hst].
    + rewrite Hrow in Hp, Hw. destruct (rows w !! id) as [old|] eqn:Hold.
      * destruct (publish_identity _ _ _ _ Hp) as [Hi Hsc]. destruct (Ir _ _ Hold) as [<- Hst]. split; [done|].
        rewrite Hsc. intros Hsco. eapply publish_stems; [exact Hp|exact Hl|by apply Hst].
      * split; [by apply Hid|]. intros _. inversion Hp; subst.
        exists r, row, owner, request, b. split_and!; [done|by eapply bound_mono|apply kept_columns_refl| |].
        -- right. match goal with H : bound _ _ _ _ _ _ |- _ => destruct H as [? ? ? ? ? ? ? ? Hse|? ? ? ? ? ? ? Hse] end;
             destruct Hse as (_ & _ & _ & _ & _ & payload & text & _ & _ & Hd); by exists text.
        -- by left.
  - intros r' g Hrg. destruct (Hg _ _ Hrg); [by eapply Ig|done].
Qed.

(** ** The logic: whatever the others do between two actions, a program keeps to the protocol *)

Section logic.
Context (r : nat).

Fixpoint safe {A} (p : prog A) (Q : A → World → Prop) (w : World) : Prop :=
  match p with
  | Ret a => ∀ w', history w ⊆ history w' → Inv w' → Q a w'
  | Act a k => ∀ w1 c x w2, history w ⊆ history w1 → Inv w1 → exec c r a w1 = Some (x, w2) →
      permitted r w1 w2 ∧ safe (k x) Q w2
  end.

Lemma safe_later {A} (p : prog A) Q w w' : safe p Q w → history w ⊆ history w' → safe p Q w'.
Proof. destruct p; cbn; intros Hp Hl; [intros w2 Hl2|intros w1 c x w2 Hl2]; apply Hp; by etrans. Qed.
Lemma safe_intro {A} (p : prog A) Q w :
  (∀ w', history w ⊆ history w' → Inv w' → safe p Q w') → safe p Q w.
Proof.
  destruct p; cbn; intros Hp.
  - intros w' Hl Hi. by apply (Hp w').
  - intros w1 c x w2 Hl Hi. by apply (Hp w1).
Qed.
Lemma safe_mono {A} (p : prog A) (Q Q' : A → World → Prop) w :
  safe p Q w → (∀ a w', history w ⊆ history w' → Q a w' → Q' a w') → safe p Q' w.
Proof.
  revert w. induction p as [a|T a k IH]; intros w Hp HQ; cbn in *; [by auto|].
  intros w1 c x w2 Hl Hi He. destruct (Hp _ _ _ _ Hl Hi He) as [Hpm Hs]. split; [done|].
  apply IH; [done|]. intros a' w' Hl'. apply HQ. etrans; [done|]. etrans; [apply Hpm|done].
Qed.
Lemma safe_bind {A B} (p : prog A) (f : A → prog B) Q w :
  safe p (λ a w', safe (f a) Q w') w → safe (and_then p f) Q w.
Proof.
  revert w. induction p as [a|T a k IH]; intros w Hp; cbn in *; [by apply safe_intro|].
  intros w1 c x w2 Hl Hi He. destruct (Hp _ _ _ _ Hl Hi He) as [Hpm Hs]. split; [done|]. by apply IH.
Qed.
(** The rule for a call with a known contract. *)
Lemma safe_then {A B} (p : prog A) (f : A → prog B) P Q w :
  safe p P w → (∀ a w', history w ⊆ history w' → P a w' → safe (f a) Q w') → safe (and_then p f) Q w.
Proof. intros Hp Hf. apply safe_bind. eapply safe_mono; [exact Hp|exact Hf]. Qed.
Lemma safe_ret {A} (a : A) (Q : A → World → Prop) w :
  (∀ w', history w ⊆ history w' → Q a w') → safe (Ret a) Q w.
Proof. cbn. auto. Qed.
Lemma safe_try {E A B} (p : prog (result E A)) (k : A → prog (result E B)) P (Q : result E B → World → Prop) w :
  safe p P w → (∀ a w', history w ⊆ history w' → P (Ok a) w' → safe (k a) Q w') → (∀ e w', Q (Err e) w') →
  safe (try p k) Q w.
Proof.
  intros Hp Hk He. apply (safe_then _ _ _ _ _ Hp). intros [a|e] w' Hl Ha; [by apply Hk|]. by apply safe_ret.
Qed.
Lemma safe_fails {E F A} (f : E → F) (p : prog (result E A)) (P : result F A → World → Prop) w :
  safe p (λ x w', ∀ w'', history w' ⊆ history w'' → P (map_err f x) w'') w → safe (fails f p) P w.
Proof. intros Hp. apply safe_bind. eapply safe_mono; [exact Hp|]. intros a w' _ Ha. by apply safe_ret. Qed.
Lemma safe_lift {E A} (x : result E A) w : safe (lift x) (λ y _, y = x) w.
Proof. by apply safe_ret. Qed.

(** *** Actions that change neither a row nor a registry *)

Definition quiet {T} (a : action T) : Prop :=
  ∀ c w x w', exec c r a w = Some (x, w') →
    rows w' = rows w ∧ registries w' = registries w ∧ history w ⊆ history w'.
Lemma statement_inv {T} c (v : T) w w' x w2 : statement c v w w' = Some (x, w2) → (w2 = w ∨ w2 = w') ∧ (∀ v', x = Ok v' → v' = v ∧ w2 = w').
Proof. unfold statement. destruct (fate c); intros [= <- <-]; naive_solver. Qed.
Lemma inserting_inv c vacant w w' x w2 :
  inserting c vacant w w' = Some (x, w2) → w2 = w ∨ (vacant = true ∧ w2 = w').
Proof.
  unfold inserting. destruct (fate c) eqn:Hf; [..|intros Hs; try (destruct vacant; [|done]; apply statement_inv in Hs as [[-> | ->] _]; auto)].
  - destruct vacant; [|done]. intros Hs. apply statement_inv in Hs as [[-> | ->] _]; auto.
  - intros [= <- <-]. auto.
Qed.
Lemma permitted_quiet w w' :
  rows w' = rows w → registries w' = registries w → history w ⊆ history w' → permitted r w w'.
Proof. intros Hr Hg Hl. split; [done|intros id; left; by rewrite Hr|intros r' g; rewrite Hg; auto]. Qed.
Lemma safe_quiet {T} (a : action T) w : quiet a → safe (act a) (λ _ _, True) w.
Proof. intros Hq w1 c x w2 Hl Hi He. destruct (Hq _ _ _ _ He) as (? & ? & ?). split; [by apply permitted_quiet|done]. Qed.

Lemma quiet_find id : quiet (Find id).
Proof. intros c w x w' Hs. apply statement_inv in Hs as [[-> | ->] _]; done. Qed.
Lemma quiet_select q : quiet (Select q).
Proof. intros c w x w' Hs. apply statement_inv in Hs as [[-> | ->] _]; done. Qed.
Lemma quiet_find_epoch : quiet FindEpoch.
Proof. intros c w x w' Hs. apply statement_inv in Hs as [[-> | ->] _]; done. Qed.
Lemma quiet_insert_epoch k t : quiet (InsertEpoch k t).
Proof. intros c w x w' Hs. apply inserting_inv in Hs as [-> |[_ ->]]; done. Qed.
Lemma quiet_now : quiet Now.
Proof. by intros c w x w' [= <- <-]. Qed.
Lemma quiet_random n : quiet (Random n).
Proof. intros c w x w'. cbn. destruct (is_none_or _ _); [by intros [= <- <-]|done]. Qed.
Lemma quiet_lock id : quiet (Lock id).
Proof. intros c w x w'. cbn. destruct (bool_decide _); [done|by intros [= <- <-]]. Qed.
Lemma quiet_unlock id : quiet (Unlock id).
Proof. by intros c w x w' [= <- <-]. Qed.
Lemma quiet_slots {T : Set} h (f : Handshake → T * Handshake) : quiet (Slots h f).
Proof. intros c w x w'. cbn. destruct (handshakes w !! h); [by intros [= <- <-]|done]. Qed.
Lemma quiet_send_ready h : quiet (SendReady h).
Proof. by intros c w x w' [= <- <-]. Qed.
Lemma quiet_await_acknowledged h : quiet (AwaitAcknowledged h).
Proof.
  intros c w x w' [= <- <-]. destruct (reply c) as [[]|]; split_and!; try done. cbn. set_solver.
Qed.
Lemma quiet_send_activation h v : quiet (SendActivation h v).
Proof. by intros c w x w' [= <- <-]. Qed.
Lemma quiet_await_terminal h : quiet (AwaitTerminal h).
Proof. by intros c w x w' [= <- <-]. Qed.

(** *** The table *)

(** A row of this registry's that was in the table. *)
Definition known (w : World) row : Prop := legacy_continuation_scope row = true ∧ stems (history w) row.
Lemma known_later w w' row : known w row → history w ⊆ history w' → known w' row.
Proof. intros [Hs Hk] Hl. split; [done|by eapply stems_mono]. Qed.

Lemma scope_inv row : legacy_continuation_scope row = true →
  installation_id row = None ∧ tenant_id row = None ∧ creator_principal_id row = None ∧ cipher_version row = CIPHER_VERSION.
Proof.
  unfold legacy_continuation_scope. intros Hs. arith. unfold is_some in *.
  destruct (installation_id row), (tenant_id row), (creator_principal_id row); try done; by rewrite bool_decide_eq_true_2 in * by done.
Qed.
Lemma condition_eq snapshot row :
  legacy_continuation_scope snapshot = true → continuation_snapshot_condition snapshot row = true → row = snapshot.
Proof.
  intros Hs Hc. unfold continuation_snapshot_condition in Hc. rewrite !andb_true_iff in Hc.
  destruct Hc as [[[[[[[[[[[[[[Hr ?] ?] ?] ?] ?] ?] ?] ?] ?] ?] ?] ?] ?] ?].
  apply scope_inv in Hs as (? & ? & ? & ?), Hr as (? & ? & ? & ?).
  destruct row, snapshot. cbn in *. arith; f_equal; congruence.
Qed.
Lemma matching_row snapshot w :
  legacy_continuation_scope snapshot = true → matching snapshot w = true →
  rows w !! continuation_identity snapshot = Some snapshot.
Proof.
  unfold matching. intros Hs Hm. destruct (rows w !! _) as [row|] eqn:Hr; [|done].
  by rewrite (condition_eq snapshot row).
Qed.

Lemma safe_find id w :
  safe (find_row id) (λ x w', ∀ row, x = Ok (Some row) → known w' row ∧ continuation_identity row = id) w.
Proof.
  intros w1 c x w2 Hl Hi He. destruct (quiet_find _ _ _ _ _ He) as (? & ? & ?). split; [by apply permitted_quiet|].
  intros w' Hl' _ row ->. apply statement_inv in He as [_ Ha]. destruct (Ha _ eq_refl) as [Hs ->].
  destruct (rows w1 !! id) as [row'|] eqn:Hr; [|done]. cbn in Hs. unfold scoped in Hs. cbn in Hs.
  destruct (legacy_continuation_scope row') eqn:Hsc; [|done]. injection Hs as <-.
  destruct (inv_rows _ Hi _ _ Hr) as [? Hst]. split; [|done]. split; [done|]. eapply stems_mono; [exact Hl'|by apply Hst].
Qed.

Definition query_keeps (q : Query) (row : Model) : bool :=
  match q with
  | StalePublications now _ _ =>
      is_pending_state (publication_state row) && text_le (publication_lease_until_text row) now
  | ExpiredRows now _ => text_le (expires_at row) now && is_some (ciphertext row)
  | PurgeableRows now _ => text_le (purge_after row) now
  end.
Lemma elem_of_page time keep offset limit table row :
  row ∈ page time keep offset limit table →
  (∃ id, table !! id = Some row) ∧ legacy_continuation_scope row = true ∧ keep row = true.
Proof.
  unfold page. intros Hin%(subseteq_take _ _ _)%(subseteq_drop _ _ _).
  rewrite sort_by_key_perm in Hin. apply list_elem_of_In, filter_In in Hin as [Hin Hk%andb_true_iff].
  apply list_elem_of_In, list_elem_of_fmap in Hin as ([id row'] & -> & Hin). apply elem_of_map_to_list in Hin. eauto.
Qed.
Lemma elem_of_answer q table row :
  row ∈ answer q table → (∃ id, table !! id = Some row) ∧ legacy_continuation_scope row = true ∧ query_keeps q row = true.
Proof. destruct q; cbn; intros Hin; by apply elem_of_page in Hin. Qed.
Lemma safe_select q w :
  safe (act (Select q)) (λ x w', ∀ l, x = Ok l → Forall (λ row, known w' row ∧ query_keeps q row = true) l) w.
Proof.
  intros w1 c x w2 Hl Hi He. destruct (quiet_select _ _ _ _ _ He) as (? & ? & ?). split; [by apply permitted_quiet|].
  intros w' Hl' _ l ->. apply statement_inv in He as [_ Ha]. destruct (Ha _ eq_refl) as [-> ->].
  apply Forall_forall. intros row ((id & Hr) & Hsc & Hk)%elem_of_answer. split; [|done]. split; [done|].
  eapply stems_mono; [exact Hl'|]. by apply (inv_rows _ Hi _ _ Hr).
Qed.

Lemma permitted_rows_step id new w :
  (publish (history w) r (rows w !! id) new) → (∀ row, new = Some row → continuation_identity row = id) →
  is_none_or legacy_continuation_scope (rows w !! id) = true → permitted r w (with_rows id new r w).
Proof.
  intros Hp Hid Hsc. split; cbn.
  - set_solver.
  - intros id'. destruct (decide (id' = id)) as [->|Hne]; [right|left; by rewrite lookup_partial_alter_ne].
    rewrite lookup_partial_alter_eq. split_and!; [done|set_solver|done|done].
  - auto.
Qed.
Lemma safe_update snapshot a w :
  legacy_continuation_scope snapshot = true → publish (history w) r (Some snapshot) (Some (apply a snapshot)) →
  safe (act (Update snapshot a))
    (λ x w', x = Ok 1 → Wrote r (Some snapshot) (Some (apply a snapshot)) ∈ history w') w.
Proof.
  intros Hs Hp w1 c x w2 Hl Hi He. cbn in He. destruct (matching snapshot w1) eqn:Hm.
  - apply matching_row in Hm; [|done].
    assert (permitted r w1 (with_rows (continuation_identity snapshot) (Some (apply a snapshot)) r w1)) as Hpm.
    { apply permitted_rows_step; [rewrite Hm; by eapply publish_mono|by intros ? [= <-]|by rewrite Hm]. }
    apply statement_inv in He as [Hw Hv]. split; [destruct Hw as [-> | ->]; [by apply permitted_quiet|done]|].
    intros w' Hl' _ ->. destruct (Hv _ eq_refl) as [_ ->]. apply Hl'. cbn. rewrite Hm. set_solver.
  - apply statement_inv in He as [[-> | ->] Hv]; (split; [by apply permitted_quiet|]);
      intros w' Hl' _ ->; by destruct (Hv _ eq_refl).
Qed.
Lemma safe_delete snapshot w :
  legacy_continuation_scope snapshot = true → publish (history w) r (Some snapshot) None →
  safe (act (Delete snapshot)) (λ _ _, True) w.
Proof.
  intros Hs Hp w1 c x w2 Hl Hi He. split; [|done]. cbn in He. destruct (matching snapshot w1) eqn:Hm.
  - apply matching_row in Hm; [|done]. apply statement_inv in He as [[-> | ->] _]; [by apply permitted_quiet|].
    apply permitted_rows_step; [rewrite Hm; by eapply publish_mono|done|by rewrite Hm].
  - apply statement_inv in He as [[-> | ->] _]; by apply permitted_quiet.
Qed.
Lemma safe_insert row w :
  publish (history w) r None (Some row) → safe (act (Insert row)) (λ _ _, True) w.
Proof.
  intros Hp w1 c x w2 Hl Hi He. split; [|done]. cbn in He. apply inserting_inv in He as [-> |[Hv ->]]; [by apply permitted_quiet|].
  apply negb_true_iff, bool_decide_eq_false in Hv. apply eq_None_not_Some in Hv.
  apply permitted_rows_step; [rewrite Hv; by eapply publish_mono|by intros ? [= <-]|by rewrite Hv].
Qed.

(** *** The registry *)

Lemma safe_local {T : Set} (f : Registry → T * Registry) w :
  (∀ g, registry_ok g → registry_ok (f g).2) →
  safe (act (Local f)) (λ x w', ∃ g, registry_ok g ∧ x = (f g).1 ∧ Kept r (f g).2 ∈ history w') w.
Proof.
  intros Hf w1 c x w2 Hl Hi He. cbn in He. destruct (registries w1 !! r) as [g|] eqn:Hg; [|done]. injection He as <- <-.
  pose proof (inv_registries _ Hi _ _ Hg) as Hok. split.
  - split; cbn; [set_solver|auto|]. intros r' g'. destruct (decide (r' = r)) as [->|Hne].
    + rewrite lookup_insert_eq. intros [= <-]. right. by apply Hf.
    + rewrite lookup_insert_ne by done. auto.
  - intros w' Hl' _. exists g. split_and!; [done|done|]. apply Hl'. cbn. set_solver.
Qed.
Lemma safe_reads {T : Set} (f : Registry → T) w :
  safe (reads f) (λ x w', ∃ g, registry_ok g ∧ x = f g ∧ Kept r g ∈ history w') w.
Proof. apply (safe_local (λ g, (f g, g))). auto. Qed.
Lemma safe_load_key w : safe load_key (λ x _, ∀ k, x = Ok k → k = K) w.
Proof. eapply safe_mono; [apply safe_reads|]. intros x w' _ (g & [_ Hk] & -> & _). apply Hk. Qed.

Lemma safe_lock {A} id (p : prog A) Q w :
  (∀ w', history w ⊆ history w' → safe p Q w') → (∀ a w w', Q a w → history w ⊆ history w' → Q a w') →
  safe (with_identity_lock id p) Q w.
Proof.
  intros Hp HQ. unfold with_identity_lock. eapply safe_then; [apply safe_quiet, quiet_lock|]. intros _ w1 Hl1 _.
  eapply safe_then; [by apply Hp|]. intros a w2 Hl2 Ha. eapply safe_then; [apply safe_quiet, quiet_unlock|].
  intros _ w3 Hl3 _. apply safe_ret. intros w4 Hl4. eapply HQ; [exact Ha|]. by etrans.
Qed.
End logic.
End protocol.
