(* ===== verification/ContinuationProtocol.v ===== *)
(** Every operation of the registry of continuations keeps to the protocol, whatever the other processes do in
    between; and what follows of the rows in the table and of what a resolution returns. *)
From Stdlib Require Import ZArith Lia Ascii.
From stdpp Require Import base list strings gmap pretty sorting relations.
From S2P Require Import Prelude EvalMeasurement MeteringUsage ContinuationPayload ContinuationStore ContinuationSystem.
Open Scope string_scope.
Open Scope list_scope.
Open Scope Z_scope.

(** ** Sealing *)

Section sealing.
Context `{ContinuationEnv, !ContinuationLaws}.

Definition sealed_with (key : ContinuationKey) (text aad : string) (sealed : string * string) : Prop :=
  ∃ n, String.length n = NONCE_BYTES ∧ encrypt_with key n text aad = Ok sealed.
Lemma decrypt_sealed key text row sealed :
  sealed_with key text (row_aad row) sealed → ciphertext row = Some sealed.1 → nonce row = Some sealed.2 →
  decrypt_row key row = Ok text.
Proof.
  intros (n & Hn & He) Hc Hno. unfold encrypt_with in He. res_inv. cbn in Hc, Hno.
  unfold decrypt_row, decrypt_authenticated. rewrite Hc, Hno. cbn [ok_or mbind result_bind].
  rewrite !base64_roundtrip. cbn [ok_or mbind result_bind]. unfold ensure. rewrite bool_decide_eq_true_2 by done. cbn [mbind result_bind].
  by rewrite (aes_opens _ _ _ _ _ Hv).
Qed.
Lemma decode_encoded payload text payload' :
  encode_payload payload = Ok text → decode_payload text = Ok payload' → payload' = payload.
Proof.
  unfold encode_payload, decode_payload, decode_version, validate_payload. destruct (payload_to_vec payload) as [s|] eqn:Hs; [|done]. intros Ht.
  assert (text = CONTINUATION_PAYLOAD_V4_MAGIC +:+ s) as -> by congruence.
  assert (strip_prefix CONTINUATION_PAYLOAD_V4_MAGIC (CONTINUATION_PAYLOAD_V4_MAGIC +:+ s) = Some s) as ->
    by by apply strip_prefix_Some.
  rewrite (payload_json _ _ Hs). intros Hd. by res_inv.
Qed.
End sealing.

(** ** Operations *)

Section operations.
Context `{ContinuationEnv, !ContinuationLaws} (K : ContinuationKey) (r : nat).
Implicit Types (w : World) (row : Model) (p : PendingPublication).
Notation safe := (safe K r).
Notation known := (known K).

(** The history of a later world, along the hypotheses. *)
Ltac chain := solve [eassumption | etrans; [eassumption|chain]].

(** A step whose answer does not matter. *)
Lemma safe_skip {A B} (p : prog A) (f : A → prog B) (Q : B → World → Prop) w :
  safe p (λ _ _, True) w → (∀ a w', history w ⊆ history w' → safe (f a) Q w') → safe (and_then p f) Q w.
Proof. intros Hp Hf. eapply safe_then; [exact Hp|auto]. Qed.

Lemma safe_encrypt key text aad w :
  safe (encrypt key text aad) (λ x _, ∀ sealed, x = Ok sealed → sealed_with key text aad sealed) w.
Proof.
  apply safe_bind. intros w1 c x w2 Hl Hi He. destruct (quiet_random r _ _ _ _ _ He) as (? & ? & ?).
  split; [by apply permitted_quiet|]. intros w' _ _. apply safe_ret. intros w'' _ sealed. cbn in He.
  destruct (is_none_or _ _) eqn:Hd; [|done]. injection He as <- _. destruct (drawn c) as [n|]; [|done].
  intros Hen. exists n. split; [|done]. by apply Nat.eqb_eq.
Qed.

Definition resealed_row (row : Model) (state instance lease : string) (sealed : string * string) : Model :=
  {| continuation_identity := continuation_identity row; installation_id := installation_id row;
     tenant_id := tenant_id row; creator_principal_id := creator_principal_id row;
     owner_identity := owner_identity row; ciphertext := Some sealed.1; nonce := Some sealed.2;
     target_fingerprint := target_fingerprint row; row_key_id := row_key_id row;
     cipher_version := cipher_version row; created_at := created_at row; expires_at := expires_at row;
     purge_after := purge_after row; publication_state := state;
     publication_generation := publication_generation row; publication_instance_id := instance;
     publication_lease_until_text := lease |}.
Lemma resealed_ok row text state instance lease sealed :
  decrypt_row K row = Ok text → sealed_with K text (resealed_aad row state instance lease) sealed →
  resealed K row (resealed_row row state instance lease sealed).
Proof. intros Hd Hs. exists text. split; [done|]. by eapply decrypt_sealed. Qed.

(** [transition_publication_state], for a change that the protocol has. *)
Lemma safe_transition key row next w :
  key = K → legacy_continuation_scope row = true →
  (∀ sealed, resealed K row (with_state row next sealed) →
     publish K (history w) r (Some row) (Some (with_state row next sealed))) →
  safe (transition_publication_state key row next)
    (λ x _, ∀ row', x = Ok row' → ∃ sealed, row' = with_state row next sealed) w.
Proof.
  intros -> Hs Hp. unfold transition_publication_state. destruct (_ || _); [by apply safe_ret|].
  eapply safe_try; [apply safe_lift| |done]. intros text w1 Hl1 Hd.
  eapply safe_try; [apply safe_encrypt| |done]. intros sealed w2 Hl2 Hse.
  assert (resealed K row (with_state row next sealed)) as Hr.
  { cbn beta in *. symmetry in Hd. by apply (resealed_ok row text next _ _ sealed Hd (Hse _ eq_refl)). }
  eapply safe_try; [eapply safe_update; [done|]| |done].
  { eapply publish_mono; [|by apply Hp]. chain. }
  intros n w3 Hl3 _. destruct (negb _); apply safe_ret; [done|]. intros w' _ row' [= <-]. by exists sealed.
Qed.

(** What entitles a process to take a publication back. *)
Definition entitling w p : Prop := ∀ row, publication_owns_row p row = true → entitled (history w) r row.
Lemma entitling_later w w' p : entitling w p → history w ⊆ history w' → entitling w' p.
Proof. intros He Hl row Ho. eapply entitled_mono; [exact Hl|by apply He]. Qed.
Lemma marked_entitling w attempt p : marked_at (history w) r attempt p → entitling w p.
Proof. intros Hm row Ho. left. exists p. split; [by exists attempt|done]. Qed.

Lemma safe_classify p error w : safe (classify_compensation_error p error) (λ _ _, True) w.
Proof. unfold classify_compensation_error. apply safe_skip; [by apply safe_quiet, quiet_find|]. intros; by apply safe_ret. Qed.
Lemma safe_release p row w :
  legacy_continuation_scope row = true → entitled (history w) r row → publication_state row = PUBLICATION_PROVISIONAL →
  safe (release_row p row) (λ _ _, True) w.
Proof.
  intros Hs He Hst. unfold release_row. apply safe_skip; [apply safe_delete; [done|by apply publish_release]|].
  intros [n|e] w1 _; [destruct (n =? 1); [by apply safe_ret|]|]; apply safe_classify.
Qed.
Lemma safe_compensate p w : entitling w p → safe (compensate_owned_publication p) (λ _ _, True) w.
Proof.
  intros He. unfold compensate_owned_publication. eapply safe_try; [apply safe_fails, safe_mono with (1 := safe_find K r _ _)| |done].
  { intros x w1 Hl1 Hx w2 Hl2. instantiate (1 := λ y w', ∀ row, y = Ok (Some row) → known w' row). cbn. intros row Hy.
    destruct x as [o|]; [|done]. cbn in Hy. injection Hy as ->. eapply known_later; [by apply Hx|done]. }
  intros [row|] w1 Hl1 Hk; [|by apply safe_ret]. destruct (Hk _ eq_refl) as [Hs _].
  destruct (publication_owns_row p row) eqn:Ho; cbn [negb]; [|by apply safe_ret].
  assert (entitled (history w1) r row) as Hen by (eapply entitled_mono; [exact Hl1|by apply He]).
  eapply safe_try; [apply safe_fails, safe_mono with (1 := safe_load_key K r _)| |done].
  { intros x w2 _ Hx w3 _. instantiate (1 := λ y _, ∀ k, y = Ok k → k = K). cbn. destruct x; [|done]. naive_solver. }
  intros key w2 Hl2 Hkey. specialize (Hkey _ eq_refl) as ->.
  destruct (in_state PUBLICATION_DELIVERING row || in_state PUBLICATION_ACTIVE row) eqn:Hst.
  - eapply safe_then; [apply safe_transition; [done|done|]|].
    { intros sealed Hr. apply publish_demote; [by eapply entitled_mono| |done]. unfold in_state in Hst.
      apply orb_true_iff in Hst as [Hst%bool_decide_eq_true| Hst%bool_decide_eq_true]; rewrite Hst; set_solver. }
    intros [row'|e] w3 Hl3 Hrow; [|apply safe_classify]. destruct (Hrow _ eq_refl) as [sealed ->].
    apply safe_release; [done| |done]. apply (entitling_later w w3 p He); [chain|exact Ho].
  - destruct (in_state PUBLICATION_PROVISIONAL row) eqn:Hp; [|by apply safe_ret]. apply bool_decide_eq_true in Hp.
    eapply safe_try; [apply safe_lift| |done]. intros text w3 Hl3 _. apply safe_release; [done| |done].
    eapply entitled_mono; [|exact Hen]. chain.
Qed.

(** *** Markers *)

(** What is said of an answer survives the renaming of its errors. *)
Lemma safe_fails_ok {E F A} (f : E → F) (p : prog (result E A)) (P : A → World → Prop) w :
  safe p (λ x w', ∀ a, x = Ok a → P a w') w → (∀ a w1 w2, P a w1 → history w1 ⊆ history w2 → P a w2) →
  safe (fails f p) (λ x w', ∀ a, x = Ok a → P a w') w.
Proof.
  intros Hp HP. apply safe_fails. eapply safe_mono; [exact Hp|]. intros x w1 _ Hx w2 Hl2 a Ha.
  destruct x as [a'|]; [|done]. injection Ha as ->. eapply HP; [by apply Hx|done].
Qed.
Lemma safe_found {E} (f : string → E) identity w :
  safe (fails f (find_row identity)) (λ x w', ∀ o, x = Ok o → ∀ row, o = Some row → known w' row) w.
Proof.
  eapply (safe_fails_ok f _ (λ o w', ∀ row, o = Some row → known w' row)).
  - eapply safe_mono; [apply safe_find|]. intros x w' _ Hx o -> row ->. by apply Hx.
  - intros o w1 w2 Ho Hl row Hr. eapply known_later; [by apply Ho|done].
Qed.
Lemma safe_key {E} (f : string → E) w : safe (fails f load_key) (λ x _, ∀ k, x = Ok k → k = K) w.
Proof. apply (safe_fails_ok f _ (λ k _, k = K)); [apply safe_load_key|done]. Qed.

Lemma delete_size_le (m : gmap Z PendingPublication) i : (size (delete i m) ≤ size m)%nat.
Proof. destruct (m !! i) as [x|] eqn:Hi; [rewrite map_size_delete_Some by (by exists x); lia|by rewrite delete_id]. Qed.
Lemma with_pending_ok g v :
  registry_ok K g → (size v ≤ size (pending_publications g))%nat → registry_ok K (with_pending v g).
Proof. intros [Hs Hk] Hv. split; [cbn; lia|done]. Qed.
Lemma alter_size (m : gmap Z PendingPublication) i x : is_Some (m !! i) → size (<[i := x]> m) = size m.
Proof. intros Hi. by apply map_size_insert_Some. Qed.
Lemma safe_clear attempt gen receipt w : safe (clear attempt gen receipt) (λ _ _, True) w.
Proof.
  eapply safe_mono; [apply safe_local|done]. intros g Hg. cbn. destruct (is_some_and _ _); [|done].
  apply with_pending_ok; [done|]. apply delete_size_le.
Qed.
Lemma safe_phase attempt gen receipt v w :
  safe (act (Local (update_pending_phase attempt gen receipt v))) (λ _ _, True) w.
Proof.
  eapply safe_mono; [apply safe_local|done]. intros g Hg. unfold update_pending_phase.
  destruct (pending_publications g !! attempt) eqn:Hp; [|done]. destruct (_ || _); [done|].
  apply with_pending_ok; [done|]. by rewrite alter_size.
Qed.
Lemma safe_retain attempt gen receipt w : safe (retain attempt gen receipt) (λ _ _, True) w.
Proof. apply safe_skip; [apply safe_phase|]. intros; by apply safe_ret. Qed.
Lemma safe_marker attempt receipt w :
  safe (reads (pending_publication attempt receipt)) (λ x w', ∀ p, x = Some p → marked_at (history w') r attempt p) w.
Proof.
  eapply safe_mono; [apply safe_reads|]. intros x w' _ (g & _ & -> & Hg) p Hp. exists g. split; [done|].
  unfold pending_publication in Hp. destruct (pending_publications g !! attempt) as [p'|]; cbn in Hp; [|done].
  destruct (matches_receipt p' receipt); [by injection Hp as ->|done].
Qed.

Lemma safe_renew attempt p now w :
  marked_at (history w) r attempt p →
  safe (renew_publication_lease attempt p now)
    (λ x w', ∀ p', x = Ok p' → marked_at (history w') r attempt p' ∧ generation p' = generation p) w.
Proof.
  intros Hm. unfold renew_publication_lease.
  eapply safe_try; [apply safe_lift| |done]. intros limit w1 Hl1 _.
  destruct (_ <? limit). { apply safe_ret. intros w' Hl p' [= <-]. split; [|done]. eapply marked_at_mono; [|exact Hm]. chain. }
  eapply safe_try; [apply safe_found| |done]. intros row w2 Hl2 Hrow.
  eapply safe_try; [apply safe_lift| |done]. intros row' w3 Hl3 Hrow'. cbn beta in *. symmetry in Hrow'. apply ok_or_ok in Hrow'.
  destruct (Hrow _ eq_refl _ Hrow') as [Hs _].
  destruct (publication_owns_row p row') eqn:Ho; cbn [negb]; [|by apply safe_ret].
  eapply safe_try; [apply safe_key| |done]. intros key w4 Hl4 Hk. specialize (Hk _ eq_refl) as ->.
  eapply safe_try; [apply safe_lift| |done]. intros text w5 Hl5 Hd. cbn beta in *.
  assert (decrypt_row K row' = Ok text) as Hd' by (destruct (decrypt_row K row'); [cbn in Hd; congruence|done]).
  eapply safe_try; [apply safe_lift| |done]. intros lease w6 Hl6 _.
  eapply safe_try; [apply (safe_fails_ok _ _ (λ sealed _, sealed_with K text (resealed_aad row' (publication_state row') (publication_instance_id row') lease) sealed)); [|done]| |done].
  { eapply safe_mono; [apply safe_encrypt|]. intros x w' _ Hx sealed ->. by apply Hx. }
  intros sealed w7 Hl7 Hse. specialize (Hse _ eq_refl).
  pose proof (resealed_ok row' text _ _ _ sealed Hd' Hse) as Hr.
  eapply safe_try; [apply (safe_fails_ok _ _ (λ _ _, True)); [|done]| |done].
  { eapply safe_mono; [apply safe_update; [done|]|done]. apply publish_renew; [|done]. exists p. split; [|done].
    exists attempt. eapply marked_at_mono; [|exact Hm]. chain. }
  intros n w8 Hl8 _. destruct (negb (n =? 1)); [by apply safe_ret|].
  eapply safe_then; [apply safe_local|].
  { intros g Hg. unfold update_pending_lease. destruct (pending_publications g !! attempt) eqn:Hp; [|done].
    destruct (_ || _); [done|]. apply with_pending_ok; [done|]. by rewrite alter_size. }
  intros x w9 Hl9 (g & Hg & -> & Hkept). apply safe_ret. intros w' Hl p' Hp'. apply ok_or_ok in Hp'.
  unfold update_pending_lease in Hp', Hkept. destruct (pending_publications g !! attempt) as [p0|] eqn:Hp; [|done].
  destruct (_ || _) eqn:Hc; [done|]. cbn in Hp', Hkept. injection Hp' as <-. split.
  - eexists. split; [apply Hl, Hkept|]. cbn. by rewrite lookup_insert_eq.
  - cbn. arith. by apply dec_stable.
Qed.

Lemma safe_rollback attempt receipt w : safe (rollback_pending attempt receipt) (λ _ _, True) w.
Proof.
  eapply safe_then; [apply safe_marker|]. intros [p|] w1 Hl1 _; [|by apply safe_ret].
  apply safe_lock; [|done]. intros w2 Hl2. eapply safe_then; [apply safe_marker|]. intros [p'|] w3 Hl3 Hm; [|by apply safe_ret].
  specialize (Hm _ eq_refl). apply safe_skip; [apply safe_quiet, quiet_now|]. intros now w4 Hl4.
  eapply safe_then; [eapply safe_renew, marked_at_mono; [exact Hl4|exact Hm]|].
  intros [p2|e] w5 Hl5 Hr.
  - destruct (Hr _ eq_refl) as [Hm2 _]. apply safe_skip; [by eapply safe_compensate, marked_entitling|].
    intros [o|e] w6 _; (apply safe_skip; [|by intros; apply safe_ret]); [apply safe_clear|].
    destruct (is_lost e); [apply safe_clear|apply safe_retain].
  - destruct (is_lost e); (apply safe_skip; [|by intros; apply safe_ret]); [apply safe_clear|apply safe_retain].
Qed.

(** *** Delivery *)

Lemma safe_slots {T : Set} h (f : Handshake → T * Handshake) w : safe (act (Slots h f)) (λ _ _, True) w.
Proof. apply safe_quiet, quiet_slots. Qed.
Lemma safe_acknowledgement h w :
  safe (wait_for_delivery_acknowledgement h) (λ x w', x = Ok true → Acknowledged r h ∈ history w') w.
Proof.
  apply safe_skip; [apply safe_slots|]. intros [] w1 _; [cbn [negb]|by apply safe_ret].
  apply safe_skip; [apply safe_quiet, quiet_send_ready|]. intros [] w2 _; [cbn [negb]|by apply safe_ret].
  apply safe_skip; [apply safe_slots|]. intros [] w3 _; [cbn [negb]|by apply safe_ret].
  apply safe_bind. intros w4 c x w5 Hl Hi He. destruct (quiet_await_acknowledged r _ _ _ _ _ He) as (? & ? & ?).
  split; [by apply permitted_quiet|]. intros w6 Hl6 _. apply safe_ret. intros w7 Hl7 Hx. cbn in He. injection He as <- <-.
  destruct (reply c) as [[]|]; try done. apply Hl7, Hl6. cbn. set_solver.
Qed.
Lemma safe_complete h v w : safe (complete_activation h v) (λ _ _, True) w.
Proof.
  apply safe_skip; [apply safe_slots|]. intros [] w1 _; [apply safe_quiet, quiet_send_activation|by apply safe_ret].
Qed.
Lemma safe_terminal h w : safe (wait_for_terminal_commit h) (λ _ _, True) w.
Proof.
  apply safe_skip; [apply safe_slots|]. intros [] w1 _; [apply safe_quiet, quiet_await_terminal|by apply safe_ret].
Qed.
Lemma safe_delivery h w : safe (wait_for_delivery h) (λ _ _, True) w.
Proof.
  apply safe_skip; [eapply safe_mono; [apply safe_acknowledgement|done]|]. intros x w1 _.
  apply safe_skip; [apply safe_complete|]. intros [] w2 _; [cbn [negb]|by apply safe_ret].
  apply safe_skip; [apply safe_terminal|]. intros; by apply safe_ret.
Qed.

Lemma owned_by_marker hist attempt p row :
  marked_at hist r attempt p → publication_owns_row p row = true → owns hist r row.
Proof. intros Hm Ho. exists p. split; [by exists attempt|done]. Qed.
Lemma owns_generation p row : publication_owns_row p row = true → generation p = publication_generation row.
Proof. unfold publication_owns_row. intros Ho. by arith. Qed.

Lemma safe_begin attempt receipt w : safe (begin_delivery attempt receipt) (λ _ _, True) w.
Proof.
  eapply safe_then; [apply safe_marker|]. intros found w1 Hl1 Hf.
  eapply safe_try; [apply safe_lift| |done]. intros p w2 Hl2 Hp. cbn beta in *. symmetry in Hp. apply ok_or_ok in Hp.
  apply safe_skip; [apply safe_quiet, quiet_now|]. intros now w3 Hl3.
  eapply safe_try; [apply (safe_fails_ok _ _ (λ p' w', marked_at (history w') r attempt p'))| |done].
  { eapply safe_mono; [eapply safe_renew, marked_at_mono; [|by apply Hf]; chain|]. intros x w' _ Hx p' ->. by apply Hx. }
  { intros p' w4 w5 Hm Hl. by eapply marked_at_mono. }
  intros p' w4 Hl4 Hm. specialize (Hm _ eq_refl).
  eapply safe_try; [apply safe_load_key| |done]. intros key w5 Hl5 Hk. specialize (Hk _ eq_refl) as ->.
  eapply safe_try; [apply safe_find| |done]. intros row w6 Hl6 Hrow.
  eapply safe_try; [apply safe_lift| |done]. intros row' w7 Hl7 Hrow'. cbn beta in *. symmetry in Hrow'. apply ok_or_ok in Hrow'. subst row.
  destruct (Hrow _ eq_refl) as [[Hs _] _].
  destruct (publication_owns_row p' row') eqn:Ho; cbn [negb]; [|by apply safe_ret].
  destruct (in_state PUBLICATION_PROVISIONAL row') eqn:Hst.
  - eapply safe_try; [apply safe_transition; [done|done|]|intros; by apply safe_ret|done].
    intros sealed Hr. apply publish_deliver; [|by apply bool_decide_eq_true in Hst|done].
    eapply owned_by_marker; [|exact Ho]. eapply marked_at_mono; [|exact Hm]. chain.
  - destruct (in_state PUBLICATION_DELIVERING row'); [|by destruct (in_state PUBLICATION_ACTIVE row'); apply safe_ret].
    eapply safe_try; [apply safe_lift|intros; by apply safe_ret|done].
Qed.

Lemma safe_activate_delivered attempt receipt h w :
  Called r (CallActivate attempt receipt h) ∈ history w → Acknowledged r h ∈ history w →
  safe (activate_delivered attempt receipt) (λ _ _, True) w.
Proof.
  intros Hc Ha. eapply safe_then; [apply safe_marker|]. intros [p|] w1 Hl1 Hf; [|by apply safe_ret]. specialize (Hf _ eq_refl).
  apply safe_skip; [apply safe_quiet, quiet_now|]. intros now w3 Hl3.
  eapply safe_try; [apply (safe_fails_ok _ _ (λ p' w', marked_at (history w') r attempt p'))| |done].
  { eapply safe_mono; [eapply safe_renew, marked_at_mono; [|exact Hf]; chain|]. intros x w' _ Hx p' ->. by apply Hx. }
  { intros p' w4 w5 Hm Hl. by eapply marked_at_mono. }
  intros p' w4 Hl4 Hm. specialize (Hm _ eq_refl).
  eapply safe_try; [apply safe_find| |done]. intros row w6 Hl6 Hrow.
  eapply safe_try; [apply safe_lift| |done]. intros row' w7 Hl7 Hrow'. cbn beta in *. symmetry in Hrow'. apply ok_or_ok in Hrow'. subst row.
  destruct (Hrow _ eq_refl) as [[Hs _] _].
  destruct (publication_owns_row p' row') eqn:Ho; cbn [negb]; [|by apply safe_ret].
  destruct (in_state PUBLICATION_DELIVERING row') eqn:Hst; cbn [negb]; [|by apply safe_ret].
  eapply safe_try; [apply safe_load_key| |done]. intros key w8 Hl8 Hk. specialize (Hk _ eq_refl) as ->.
  apply safe_skip; [|intros; by apply safe_ret]. eapply safe_mono; [apply safe_transition; [done|done|]|done].
  assert (marked_at (history w8) r attempt p') as Hm' by (eapply marked_at_mono; [|exact Hm]; chain).
  intros sealed Hr. apply publish_activate; [by eapply owned_by_marker|by apply bool_decide_eq_true in Hst| |done].
  assert (history w ⊆ history w8) as Hall by chain.
  exists attempt, p', receipt, h. split_and!; [done|by apply owns_generation|by apply Hall|by apply Hall].
Qed.

Lemma safe_activate attempt receipt h w :
  Called r (CallActivate attempt receipt h) ∈ history w → safe (activate_pending attempt receipt h) (λ _ _, True) w.
Proof.
  intros Hc. eapply safe_then; [apply safe_marker|]. intros [p|] w1 Hl1 _; [|apply safe_delivery].
  eapply safe_try; [apply safe_lock; [intros; apply safe_begin|done]| |done]. intros _ w2 Hl2 _.
  eapply safe_then; [apply safe_acknowledgement|]. intros x w3 Hl3 Hx.
  assert (∀ w', safe (rolled_back <- rollback_pending attempt receipt;;
          match rolled_back with
          | Ok _ =>
              completed <- complete_activation h (Ok tt);;
              _ <- (if completed : bool then wait_for_terminal_commit h else Ret false);;
              Ret x
          | Err error =>
              _ <- complete_activation h (Err ("compensating provider continuation publication: " +:+ error));;
              Ret (Err error)
          end) (λ _ _, True) w') as Hback.
  { intros w'. apply safe_skip; [apply safe_rollback|]. intros [u|e] w4 _.
    - apply safe_skip; [apply safe_complete|]. intros [] w5 _; (apply safe_skip; [|intros; by apply safe_ret]);
        [apply safe_terminal|by apply safe_ret].
    - apply safe_skip; [apply safe_complete|]. intros; by apply safe_ret. }
  destruct x as [[]|]; [|apply Hback..].
  eapply (safe_try _ _ _ _ (λ _ _, True)); [apply safe_lock; [|done]| |done].
  { intros w4 Hl4. eapply safe_activate_delivered; [|by apply Hl4, Hx].
    assert (history w ⊆ history w4) as Hall by chain. by apply Hall. }
  intros [row|e] w4 _ _.
  - apply safe_skip; [apply safe_complete|]. intros observed w5 _. apply safe_skip.
    { destruct observed; [apply safe_terminal|by apply safe_ret]. }
    intros [] w6 _; [apply safe_skip; [apply safe_clear|]; intros; by apply safe_ret|].
    eapply safe_try; [apply safe_rollback|intros; by apply safe_ret|done].
  - apply safe_skip; [apply safe_rollback|]. intros x w5 _. apply safe_skip; [apply safe_complete|].
    intros; by apply safe_ret.
Qed.

(** *** Maintenance *)

Lemma safe_scrub row now w :
  legacy_continuation_scope row = true →
  (prunes_at (history w) r now ∧ text_le (expires_at row) (timestamp now) = true) ∨
  (resolves_at (history w) r now ∧ ∃ t, parse_timestamp (expires_at row) = Ok t ∧ t ≤ now) →
  safe (scrub_expired row) (λ _ _, True) w.
Proof.
  intros Hs He. unfold scrub_expired. eapply safe_try; [|intros; by apply safe_ret|done].
  eapply safe_mono; [apply safe_update; [done|]|done]. by eapply publish_scrub.
Qed.
(** The rows of a scan, one after the other. *)
Lemma safe_scrub_rows l now w :
  prunes_at (history w) r now → Forall (λ row, known w row ∧ text_le (expires_at row) (timestamp now) = true) l →
  safe (scrub_rows l) (λ _ _, True) w.
Proof.
  revert w. induction l as [|row l IH]; intros w Hp Hl; [by apply safe_ret|].
  inversion_clear Hl as [|?? [[Hs _] Hk] Hl'].
  eapply safe_try; [apply (safe_scrub _ now); [done|by left]| |done]. intros _ w' Hw _. apply IH; [by eapply prunes_at_mono|].
  eapply Forall_impl; [exact Hl'|]. intros row' [Hkn ?]. split; [by eapply known_later|done].
Qed.
Lemma safe_purge_rows l now n w :
  prunes_at (history w) r now → Forall (λ row, known w row ∧ text_le (purge_after row) (timestamp now) = true) l →
  safe (purge_rows l n) (λ _ _, True) w.
Proof.
  revert w n. induction l as [|row l IH]; intros w n Hp Hl; [by apply safe_ret|].
  inversion_clear Hl as [|?? [[Hs _] Hk] Hl'].
  eapply safe_try; [apply safe_delete; [done|by eapply publish_purge]| |done]. intros k w' Hw _. apply IH; [by eapply prunes_at_mono|].
  eapply Forall_impl; [exact Hl'|]. intros row' [Hkn ?]. split; [by eapply known_later|done].
Qed.
Lemma safe_prune now w : prunes_at (history w) r now → safe (prune now) (λ _ _, True) w.
Proof.
  intros Hp. eapply safe_then; [apply safe_reads|]. intros limit w1 Hl1 _.
  eapply safe_try; [apply safe_select| |done]. intros l w2 Hl2 Hl. specialize (Hl _ eq_refl).
  eapply (safe_try _ _ _ _ (λ _ _, True)); [apply (safe_scrub_rows _ now)| |done].
  - eapply prunes_at_mono; [|exact Hp]. chain.
  - eapply Forall_impl; [exact Hl|]. cbn. intros row [Hk [He _]%andb_true_iff]. done.
  - intros _ w3 Hl3 _. eapply safe_try; [apply safe_select| |done]. intros l' w4 Hl4 Hl'. specialize (Hl' _ eq_refl).
    apply (safe_purge_rows _ now); [|exact Hl']. eapply prunes_at_mono; [|exact Hp]. chain.
Qed.

(** *** Reconciliation *)

Lemma safe_reconcile_one attempt receipt now w : safe (reconcile_one attempt receipt now) (λ _ _, True) w.
Proof.
  eapply safe_then; [apply safe_marker|]. intros [p|] w1 Hl1 Hm; [|by apply safe_ret]. specialize (Hm _ eq_refl).
  assert (∀ gen receipt w', safe (_ <- clear attempt gen receipt;; Ret false) (λ _ _, True) w') as Hclear.
  { intros. apply safe_skip; [apply safe_clear|]. intros; by apply safe_ret. }
  eapply safe_then; [by apply safe_renew|]. intros [p'|e] w2 Hl2 Hr.
  - destruct (Hr _ eq_refl) as [Hm' _]. destruct (bool_decide _); [by apply safe_ret|].
    apply safe_skip; [by eapply safe_compensate, marked_entitling|]. intros [o|e] w3 _; [apply Hclear|].
    destruct (is_lost e); [apply Hclear|by apply safe_ret].
  - destruct (is_lost e); [apply Hclear|by apply safe_ret].
Qed.
Lemma safe_reconcile_local now w : safe (reconcile_local_publications now) (λ _ _, True) w.
Proof.
  apply safe_skip.
  { eapply safe_mono; [apply safe_local|done]. intros g Hg. unfold select_pending. destruct (bool_decide _); done. }
  intros l w1 _. generalize (@nil (string * string)) false. revert w1.
  induction l as [|[attempt p] l IH]; intros w1 seen failed; [by apply safe_ret|]. cbn [reconcile_loop].
  destruct (bool_decide _); [apply IH|]. apply safe_skip; [|intros; apply IH].
  apply safe_lock; [intros; apply safe_reconcile_one|done].
Qed.

Lemma safe_claim row now w : reconciles_at (history w) r now → known w row → safe (claim_and_compensate_stale_publication row now) (λ _ _, True) w.
Proof.
  intros Hrec [Hs _]. unfold claim_and_compensate_stale_publication.
  destruct (is_pending_state (publication_state row)) eqn:Hst; cbn [negb]; [|by apply safe_ret].
  eapply safe_try; [apply safe_lift| |done]. intros limit w1 Hl1 Hlim. cbn beta in *. symmetry in Hlim.
  destruct (now <? limit) eqn:Hn; [by apply safe_ret|]. apply Z.ltb_ge in Hn.
  eapply safe_try; [apply safe_load_key| |done]. intros key w2 Hl2 Hk. specialize (Hk _ eq_refl) as ->.
  eapply safe_try; [apply safe_lift| |done]. intros text w3 Hl3 Hd. cbn beta in *. symmetry in Hd.
  eapply safe_try; [apply safe_lift| |done]. intros lease w4 Hl4 _.
  eapply safe_then; [apply safe_reads|]. intros instance w5 Hl5 (g & _ & Hins & Hg).
  eapply safe_try; [apply safe_encrypt| |done]. intros sealed w6 Hl6 Hse. specialize (Hse _ eq_refl).
  assert (Kept r g ∈ history w6) as Hg' by (by apply Hl6).
  assert (history w ⊆ history w6) as Hall by chain. apply Hall in Hrec.
  set (new := apply {| set_state := None; set_instance := Some instance; set_lease := Some lease;
    set_ciphertext := Some sealed.1; set_nonce := Some sealed.2 |} row).
  assert (takes_over (history w6) r row new) as Hto by (exists g, now, limit, instance, lease, sealed.1, sealed.2; by split_and!).
  assert (resealed K row new) as Hr by exact (resealed_ok row text _ _ _ sealed Hd Hse).
  eapply safe_try; [apply safe_update; [done|]| |done]; [by apply publish_take_over|].
  intros n w7 Hl7 Hw. destruct (n =? 1) eqn:Hn1; cbn [negb]; [|by apply safe_ret]. apply Z.eqb_eq in Hn1 as ->.
  eapply safe_try; [apply (safe_fails_ok _ _ (λ _ _, True)); [|done]|intros; by apply safe_ret|done].
  eapply safe_mono; [apply safe_compensate|done]. intros row' Ho. right. exists row, new.
  split_and!; [by apply Hw|by eapply takes_over_mono|exact Ho].
Qed.
Lemma safe_stale_loop l failed now w : reconciles_at (history w) r now → Forall (known w) l → safe (stale_loop l failed now) (λ _ _, True) w.
Proof.
  revert w failed. induction l as [|row l IH]; intros w failed Hrec Hl; [by apply safe_ret|]. inversion_clear Hl as [|?? Hk Hl'].
  assert (∀ w', history w ⊆ history w' → Forall (known w') l) as Hl.
  { intros w' Hw. eapply Forall_impl; [exact Hl'|]. intros; by eapply known_later. }
  eapply safe_then; [apply safe_reads|]. intros local w1 Hl1 _. destruct local; [apply IH; [by apply Hl1|auto]|].
  apply safe_skip.
  - apply safe_lock; [|done]. intros w2 Hl2. assert (history w ⊆ history w2) as Hall by chain.
    apply safe_claim; [by apply Hall|by eapply known_later].
  - intros x w2 Hl2. assert (history w ⊆ history w2) as Hall by chain. apply IH; [by apply Hall|by apply Hl].
Qed.
Lemma safe_reconcile_pass now w : reconciles_at (history w) r now → safe (reconcile_pass now) (λ _ _, True) w.
Proof.
  intros Hrec. apply safe_skip; [apply safe_reconcile_local|]. intros failed w1 Hl1. apply safe_skip; [|intros; by apply safe_ret].
  eapply safe_then; [apply safe_reads|]. intros offset w2 Hl2 _.
  eapply safe_then; [apply safe_select|]. intros [l|e] w3 Hl3 Hl; [|by apply safe_ret].
  apply safe_skip; [by eapply safe_mono; [apply safe_local|done]|].
  intros _ w4 Hl4. assert (history w ⊆ history w4) as Hall by chain. apply safe_stale_loop; [by apply Hall|]. eapply Forall_impl; [by apply Hl|]. intros row [Hk _]. by eapply known_later.
Qed.
Lemma safe_stop turns w : safe (stop_reconciler turns) (λ _ _, True) w.
Proof.
  apply safe_skip.
  { eapply safe_mono; [apply safe_local|done]. intros g Hg. apply with_pending_ok; [done|]. by rewrite map_size_fmap. }
  intros _ w1 _. revert w1. induction turns as [|turns IH]; intros w1; [by apply safe_ret|].
  eapply (safe_then _ _ _ _ (λ _ _, True)); [|intros [x|] w2 _ _; [by apply safe_ret|apply IH]].
  apply safe_skip; [eapply safe_mono; [apply safe_reads|done]|]. intros before w2 _. destruct (bool_decide _); [by apply safe_ret|].
  apply safe_skip; [apply safe_quiet, quiet_now|]. intros now w3 _. apply safe_skip; [apply safe_reconcile_local|].
  intros failed w4 _. apply safe_skip; [eapply safe_mono; [apply safe_reads|done]|]. intros after w5 _.
  destruct (bool_decide _); [by apply safe_ret|]. destruct (before <=? after)%nat; by apply safe_ret.
Qed.

(** *** Binding *)

Lemma safe_epoch key now w : safe (ensure_key_epoch key now) (λ _ _, True) w.
Proof.
  eapply safe_try; [apply safe_quiet, quiet_find_epoch| |done]. intros [e|] w1 _ _.
  { eapply (safe_try _ _ _ _ (λ _ _, True)); [by apply safe_ret|intros; by apply safe_ret|done]. }
  eapply (safe_try _ _ _ _ (λ _ _, True)); [|intros; by apply safe_ret|done].
  apply safe_skip; [apply safe_quiet, quiet_insert_epoch|]. intros [u|e] w2 _; [by apply safe_ret|].
  eapply safe_try; [apply safe_quiet, quiet_find_epoch|intros; by apply safe_ret|done].
Qed.
Lemma safe_insert_row key payload row w :
  publish K (history w) r None (Some row) → safe (insert_row key payload row) (λ _ _, True) w.
Proof.
  intros Hp. apply safe_skip; [by apply safe_insert|]. intros [u|e] w1 _; [by apply safe_ret|].
  apply safe_skip; [by apply safe_quiet, quiet_find|]. intros; by apply safe_ret.
Qed.
Lemma map_err_ok {E F A} (f : E → F) (x : result E A) a : Ok a = map_err f x → x = Ok a.
Proof. destruct x; [by intros [= ->]|done]. Qed.
Lemma safe_bind_inner owner request binding pub w :
  (∀ row, seals K row owner request binding → publication_state row = bind_state pub →
     publication_owns_row {| p_identity := continuation_identity row; generation := bind_generation pub;
       instance_id := bind_instance pub; lease_until := bind_lease pub; receipt := None; phase := Reserved |} row = true →
     bound K (history w) r row owner request binding) →
  safe (bind_inner owner request binding pub) (λ _ _, True) w.
Proof.
  intros Hb. unfold bind_inner.
  eapply safe_try; [apply safe_key| |done]. intros key w1 Hl1 Hk. specialize (Hk _ eq_refl) as ->.
  eapply safe_try; [eapply (safe_fails_ok _ _ (λ _ _, True)); [eapply safe_mono; [apply safe_epoch|done]|done]| |done].
  intros _ w2 Hl2 _.
  eapply safe_try; [apply safe_lift| |done]. intros payload w3 Hl3 Hpay%map_err_ok.
  eapply safe_try; [apply safe_lift| |done]. intros text w4 Hl4 Htext%map_err_ok.
  eapply safe_then; [apply safe_reads|]. intros keep w5 Hl5 _.
  eapply safe_try; [apply safe_lift| |done]. intros expires w6 Hl6 _.
  eapply safe_try; [apply safe_lift| |done]. intros purge w7 Hl7 _.
  eapply safe_try; [apply (safe_fails_ok _ _ (λ sealed _, sealed_with K text (row_aad (blank_row K owner request
    (target_fingerprint_of K (b_target binding) (b_authority binding)) pub (timestamp expires) (timestamp purge))) sealed)); [|done]| |done].
  { eapply safe_mono; [apply safe_encrypt|]. intros x w' _ Hx sealed ->. by apply Hx. }
  intros sealed w8 Hl8 Hse. specialize (Hse _ eq_refl). apply safe_insert_row.
  eapply publish_bind, bound_mono; [|apply Hb]; [chain| |done|].
  - split_and!; try done. exists payload, text. split_and!; [done|done|]. by eapply decrypt_sealed.
  - unfold publication_owns_row. cbn. by rewrite !bool_decide_eq_true_2.
Qed.

Lemma safe_bind_call owner request response target authority now w :
  Called r (CallBind owner request response target authority now) ∈ history w →
  safe (bind owner request response target authority now) (λ _ _, True) w.
Proof.
  intros Hc. eapply safe_try; [apply safe_load_key| |done]. intros key w1 Hl1 Hk.
  apply safe_lock; [|done]. intros w2 Hl2.
  eapply (safe_try _ _ _ _ (λ _ _, True)); [apply safe_skip; [apply safe_quiet, quiet_random|intros; by apply safe_ret]| |done].
  intros gen w3 Hl3 _. eapply safe_then; [apply safe_reads|]. intros instance w4 Hl4 _.
  eapply safe_try; [apply safe_lift| |done]. intros lease w5 Hl5 _.
  eapply safe_try; [apply (safe_fails_ok _ _ (λ _ _, True)); [|done]|intros; by apply safe_ret|done].
  eapply safe_mono; [apply safe_bind_inner|done]. cbn. intros row Hse Hst _. eapply bound_directly; [|done|done].
  assert (history w ⊆ history w5) as Hall by chain. by apply Hall.
Qed.

Lemma safe_bind_pending owner request binding a w :
  Called r (CallBindPending owner request binding a) ∈ history w →
  safe (bind_pending owner request binding a) (λ _ _, True) w.
Proof.
  intros Hc. unfold bind_pending. eapply safe_try; [apply safe_load_key| |done]. intros key w1 Hl1 Hk.
  eapply (safe_try _ _ _ _ (λ _ _, True)); [apply safe_skip; [apply safe_quiet, quiet_random|intros; by apply safe_ret]| |done].
  intros gen w2 Hl2 _. eapply safe_then; [apply safe_reads|]. intros instance w3 Hl3 _.
  eapply safe_try; [apply safe_lift| |done]. intros lease w4 Hl4 _.
  apply safe_lock; [|done]. intros w5 Hl5. set (p := {| p_identity := _ |}).
  eapply (safe_try _ _ _ _ (λ x w', x = Ok tt → marked_at (history w') r (delivery_attempt_id a) p)); [| |done].
  { eapply safe_mono; [apply safe_local|].
    - intros g [Hs Hkg]. unfold reserve. destruct (_ && _) eqn:Hcap; [done|]. destruct (is_some _) eqn:Hsome; [done|].
      apply bool_decide_eq_false in Hsome. rewrite andb_true_r in Hcap. arith. split; [|done]. cbn.
      rewrite map_size_insert_None by (by apply eq_None_not_Some). lia.
    - intros x w' Hl (g & Hg & -> & Hkept) Hx. eexists. split; [exact Hkept|]. unfold reserve in *.
      destruct (_ && _); [done|]. destruct (is_some _); [done|]. cbn. by rewrite lookup_insert_eq. }
  intros [] w6 Hl6 Hm. specialize (Hm eq_refl). apply safe_skip.
  { apply safe_prune. right. exists owner, request, binding, a. split; [|done]. assert (history w ⊆ history w6) as Hall by chain.
    by apply Hall. }
  intros [n|e] w7 Hl7.
  2:{ apply safe_skip; [apply safe_clear|]. intros; by apply safe_ret. }
  apply safe_skip.
  { apply safe_bind_inner. cbn. intros row Hse Hst Ho. eapply bound_pending; [|done|apply (owned_by_marker _ (delivery_attempt_id a) p); [|exact Ho]|done].
    - assert (history w ⊆ history w7) as Hall by chain. by apply Hall.
    - eapply marked_at_mono; [exact Hl7|exact Hm]. }
  intros [[]|e] w8 _.
  - apply safe_skip; [apply safe_phase|]. intros; by apply safe_ret.
  - apply safe_skip; [apply safe_clear|]. intros; by apply safe_ret.
  - apply safe_skip; [apply safe_clear|]. intros; by apply safe_ret.
  - apply safe_skip; [|intros; by apply safe_ret]. destruct (is_lost e); [apply safe_clear|apply safe_retain].
Qed.

(** *** Resolution *)

(** What a resolution returns was bound, under the same identities, and its delivery was acknowledged, unless it was
    bound as active at once. *)
Definition served (hist : list Event) (owner request : string) (res : ResolvedContinuation) : Prop :=
  ∃ r' first owner' request' b,
    Wrote r' None (Some first) ∈ hist ∧ bound K hist r' first owner' request' b ∧
    continuation_identity_of K owner request = continuation_identity_of K owner' request' ∧
    owner_identity_of K owner = owner_identity_of K owner' ∧
    res = {| r_response_id := b_response_id b; r_effective_model := Some (b_effective_model b);
             r_effective_effort := b_effective_effort b; effort_authoritative := true;
             r_causal_prefix := b_causal_prefix b;
             r_target_fingerprint := target_fingerprint_of K (b_target b) (b_authority b); r_key := K |} ∧
    (publication_state first = PUBLICATION_ACTIVE ∨ delivered hist (publication_generation first)).
Lemma served_mono hist hist' owner request res : served hist owner request res → hist ⊆ hist' → served hist' owner request res.
Proof.
  intros (r' & first & owner' & request' & b & Hw & Hb & Hi & Ho & -> & Hd) Hs. exists r', first, owner', request', b.
  split_and!; [by apply Hs|by eapply bound_mono|done..|]. destruct Hd; [by left|right; by eapply delivered_mono].
Qed.
Lemma bound_seals hist r' row owner request b : bound K hist r' row owner request b → seals K row owner request b.
Proof. by intros []. Qed.
Lemma decode_commitment text payload :
  decode_payload text = Ok payload → version payload = 4 →
  causal_prefix_commitment payload ≫= CausalPrefixCommitment_parse = causal_prefix_commitment payload.
Proof.
  unfold decode_payload, decode_version, validate_payload. intros Hd Hv.
  assert (∀ c, is_some (CausalPrefixCommitment_parse c) = true → CausalPrefixCommitment_parse c = Some c) as Hp.
  { intros c. unfold CausalPrefixCommitment_parse. by destruct (decode_digest c). }
  repeat case_match; res_inv; try done; destruct (causal_prefix_commitment _) as [c|] eqn:Hc; try done; cbn in *; auto.
Qed.
Lemma served_row hist row owner request payload :
  stems K hist row → continuation_identity row = continuation_identity_of K owner request →
  owner_identity row = owner_identity_of K owner → publication_state row = PUBLICATION_ACTIVE →
  decrypt_payload K row = Ok payload → served hist owner request (resolved_of K row payload).
Proof.
  intros (r' & first & owner' & request' & b & Hw & Hb & Hk & Hc & Hact) Hid Hown Hst Hd.
  apply bind_ok in Hd as (text & Hd & Hdec). destruct Hc as [Hc|(text' & Hf & Hr)]; [by apply decrypts_sealed in Hd|].
  assert (text' = text) as -> by congruence.
  destruct (bound_seals _ _ _ _ _ _ Hb) as (Si & So & Sf & _ & _ & payload' & text' & Hp & Ht & Hd').
  assert (text' = text) as -> by congruence. assert (payload = payload') as <- by by eapply decode_encoded.
  destruct Hk as (Ki & Ko & Kf & _ & _ & _ & _ & Kg).
  exists r', first, owner', request', b. split_and!; [done|done|congruence|congruence| |].
  - assert (version payload = 4) as Hv by (unfold ContinuationPayload_current in Hp; by res_inv).
    pose proof (decode_commitment _ _ Hdec Hv) as Hcp. unfold resolved_of. rewrite Hcp, Kf, Sf.
    unfold ContinuationPayload_current in Hp. by res_inv.
  - rewrite <-Kg. by apply Hact.
Qed.

Lemma safe_resolve turns owner request now w :
  resolves_at (history w) r now →
  safe (resolve turns owner request now)
    (λ x w', ∀ res, x = Ok (Some (Active res)) → served (history w') owner request res) w.
Proof.
  intros Hrs. eapply safe_try; [apply safe_load_key| |done]. intros key w1 Hl1 Hk. specialize (Hk _ eq_refl) as ->.
  eapply safe_try; [eapply safe_mono; [apply safe_epoch|done]| |done]. intros _ w2 Hl2 _. cbv zeta.
  apply safe_lock; [|intros x w' w'' Hx Hl res Hres; eapply served_mono; [by apply Hx|done]].
  intros w3 Hl3. assert (history w ⊆ history w3) as Hall by chain. apply (resolves_at_mono _ _ Hall) in Hrs.
  clear Hl1 Hl2 Hl3 Hall. revert w3 Hrs. induction turns as [|turns IH]; intros w3 Hrs; [by apply safe_ret|]. cbn [resolve_loop].
  eapply (safe_try _ _ _ _ (λ x w', ∀ res, x = Ok (Some (Active res)) → served (history w') owner request res)); [| |done].
  2:{ intros [o|] w4 Hl4 Ho; [|apply IH; by eapply resolves_at_mono]. apply safe_ret. intros w' Hl res [= ->]. eapply served_mono; [by apply Ho|done]. }
  unfold resolve_turn. eapply safe_try; [apply safe_find| |done]. intros [row|] w4 Hl4 Hrow; [|by apply safe_ret].
  destruct (Hrow _ eq_refl) as [[Hs Hstem] Hid].
  destruct (in_state PUBLICATION_ACTIVE row) eqn:Hst; cbn [negb]; [|by apply safe_ret]. apply bool_decide_eq_true in Hst.
  eapply safe_then; [apply safe_reads|]. intros masked w5 Hl5 _. destruct masked; [by apply safe_ret|].
  destruct (bool_decide (owner_identity row ≠ _)) eqn:Hown; [by apply safe_ret|]. apply bool_decide_eq_false, dec_stable in Hown.
  destruct (bool_decide (row_key_id row ≠ _)); [by apply safe_ret|].
  destruct (bool_decide (cipher_version row ≠ _)); [by apply safe_ret|].
  eapply safe_try; [apply safe_lift| |done]. intros expires w6 Hl6 He. cbn beta in *. symmetry in He.
  destruct (expires <=? now) eqn:Hn.
  - apply Z.leb_le in Hn. eapply safe_try; [eapply safe_mono; [apply (safe_scrub row now); [done|right; split; [eapply resolves_at_mono; [|exact Hrs]; chain|eauto]]|done]| |done].
    intros [] w7 _ _; by apply safe_ret.
  - eapply safe_try; [apply safe_lift| |done]. intros payload w7 Hl7 Hp. cbn beta in *. symmetry in Hp.
    apply safe_ret. intros w' Hl res [= <-]. eapply served_mono; [by apply served_row|chain].
Qed.

(** *** All of them *)

Definition post (c : Call) (o : Outcome) (w : World) : Prop :=
  match c, o with
  | CallResolve _ owner request _, Resolution (Ok (Some (Active res))) => served (history w) owner request res
  | _, _ => True
  end.
Lemma post_later c o w w' : post c o w → history w ⊆ history w' → post c o w'.
Proof. destruct c, o as [| | |[[[]|]|]| |]; cbn; eauto using served_mono. Qed.
Lemma safe_wrap {A} (p : prog A) (f : A → Outcome) (Q : Outcome → World → Prop) P w :
  safe p P w → (∀ a w' w'', history w' ⊆ history w'' → P a w' → Q (f a) w'') → safe (and_then p (λ a, Ret (f a))) Q w.
Proof. intros Hp HQ. eapply safe_then; [exact Hp|]. intros a w' _ Ha. apply safe_ret. intros w'' Hl. by eapply HQ. Qed.
Lemma safe_program c w : Called r c ∈ history w → safe (program_of c) (post c) w.
Proof.
  destruct c; intros Hc; (eapply safe_wrap; [|]).
  all: try by (intros; exact I).
  - by apply safe_bind_call.
  - by apply safe_bind_pending.
  - by apply safe_activate.
  - apply safe_rollback.
  - apply safe_resolve. by eexists _, _, _.
  - intros x w' w'' Hl Hx. destruct x as [[[]|]|]; cbn; try done. eapply served_mono; [by apply Hx|done].
  - apply safe_prune. by left.
  - by apply safe_reconcile_pass.
  - apply safe_stop.
Qed.
End operations.

(** ** Every reachable state *)

Section reachable.
Context `{ContinuationEnv, !ContinuationLaws} (K : ContinuationKey).

Record SInv (S : System) : Prop := {
  sinv_world : Inv K (world S);
  sinv_threads : ∀ t th, threads S !! t = Some th →
    safe K (process th) (program th) (post K (call th)) (world S);
  sinv_returned : ∀ r c o, Returned r c o ∈ history (world S) → post K c o (world S) }.

(** A step that leaves the rows alone. *)
Lemma sinv_extend w ts w' ts' :
  SInv {| world := w; threads := ts |} → Inv K w' → history w ⊆ history w' →
  (∀ r c o, Returned r c o ∈ history w' → Returned r c o ∈ history w ∨ post K c o w') →
  (∀ t th, ts' !! t = Some th → ts !! t = Some th ∨ safe K (process th) (program th) (post K (call th)) w') →
  SInv {| world := w'; threads := ts' |}.
Proof.
  intros [Iw It Ir] Hi Hl Hr Ht. split; [done| |].
  - intros t th Hth. destruct (Ht _ _ Hth) as [Hold|Hs]; [|done]. eapply safe_later; [by apply (It t)|exact Hl].
  - intros r c o Ho. destruct (Hr _ _ _ Ho) as [Hold|Hp]; [|done]. eapply post_later; [by apply (Ir r)|exact Hl].
Qed.
Lemma inv_note e w : Inv K w → Inv K (note e w).
Proof.
  intros [Ir Ig]. split; [|done]. intros id row Hrow. destruct (Ir _ _ Hrow) as [Hid Hst]. split; [done|].
  intros Hs. eapply stems_mono; [|by apply Hst]. cbn. set_solver.
Qed.
Lemma inv_kept r g w : Inv K w → registry_ok K g → Inv K (with_registry r g w).
Proof.
  intros [Ir Ig] Hg. split.
  - intros id row Hrow. destruct (Ir _ _ Hrow) as [Hid Hst]. split; [done|].
    intros Hs. eapply stems_mono; [|by apply Hst]. cbn. set_solver.
  - intros r' g'. cbn. destruct (decide (r' = r)) as [->|Hne]; [by rewrite lookup_insert_eq; intros [= <-]|].
    rewrite lookup_insert_ne by done. apply Ig.
Qed.
Lemma new_registry_ok g : Registry_new K g → registry_ok K g.
Proof. intros (He & Hc & Hk). split; [|done]. by rewrite He, map_size_empty. Qed.

(** Only an action returns to the history what returned before. *)
Lemma exec_returned {T} choice r (a : action T) w x w' r' c o :
  exec choice r a w = Some (x, w') → Returned r' c o ∈ history w' → Returned r' c o ∈ history w.
Proof.
  destruct a; cbn; intros He.
  all: repeat match goal with
    | H : statement _ _ _ _ = Some _ |- _ => apply statement_inv in H as [[-> | ->] _]
    | H : inserting _ _ _ _ = Some _ |- _ => apply inserting_inv in H as [-> |[_ ->]]
    | H : Some _ = Some _ |- _ => injection H as <- <-
    | H : None = Some _ |- _ => discriminate H
    | H : (if ?b then _ else _) = Some _ |- _ => destruct b
    | H : match ?o with Some _ => _ | None => _ end = Some _ |- _ => destruct o
    end; cbn; try done; rewrite ?elem_of_app, ?list_elem_of_singleton; try naive_solver.
  destruct (reply choice) as [[]|]; cbn; [|done..]. rewrite elem_of_app, list_elem_of_singleton. naive_solver.
Qed.

Lemma sinv_step S S' : Step K S S' → SInv S → SInv S'.
Proof.
  intros Hst HI. pose proof (sinv_world _ HI) as Hi.
  destruct Hst as [w ts r g Hr Hg|w ts h s Hh|w ts t r c Ht Hr|w ts t r c l T a k choice x w' Ht He|w ts t r c l o Ht|w ts t th Ht];
    cbn [world threads] in *.
  - eapply sinv_extend; [done|by apply inv_kept, new_registry_ok| | |by auto]; cbn; [set_solver|].
    intros r' c o. rewrite elem_of_app, list_elem_of_singleton. naive_solver.
  - eapply sinv_extend; [done|split; apply Hi|done|by auto|by auto].
  - eapply sinv_extend; [done|by apply inv_note| | |]; cbn; [set_solver| |].
    + intros r' c' o. rewrite elem_of_app, list_elem_of_singleton. naive_solver.
    + intros t' th. destruct (decide (t' = t)) as [->|Hne]; [|rewrite lookup_insert_ne by done; by auto].
      rewrite lookup_insert_eq. intros [= <-]. right. apply safe_program. cbn. set_solver.
  - pose proof (sinv_threads _ HI _ _ Ht) as Hs. cbn in Hs.
    destruct (Hs _ _ _ _ (reflexivity _) Hi He) as [Hp Hk].
    eapply sinv_extend; [done|by eapply permitted_inv|apply Hp| |].
    + intros r' c' o Ho. left. by eapply exec_returned.
    + intros t' th. destruct (decide (t' = t)) as [->|Hne]; [|rewrite lookup_insert_ne by done; by auto].
      rewrite lookup_insert_eq. intros [= <-]. by right.
  - pose proof (sinv_threads _ HI _ _ Ht) as Hs. cbn in Hs.
    eapply sinv_extend; [done|by apply inv_note|cbn; set_solver| |].
    + intros r' c' o'. cbn. rewrite elem_of_app, list_elem_of_singleton. intros [Ho|[= -> -> ->]]; [by left|right].
      apply Hs; [cbn; set_solver|by apply inv_note].
    + intros t' th. rewrite lookup_delete_Some. intros [_ Hth]. by left.
  - eapply sinv_extend; [done|split; apply Hi|done|by auto|].
    intros t' th'. rewrite lookup_delete_Some. intros [_ Hth]. by left.
Qed.
Lemma sinv_initial S : Initial S → SInv S.
Proof.
  intros (Hrows & Hregs & Hhist & Hth). split; [split| |].
  - intros id row Hrow. destruct (Hrows _ _ Hrow) as [Hs Hid]. split; [done|congruence].
  - intros r g. by rewrite Hregs.
  - intros t th. by rewrite Hth.
  - intros r c o. rewrite Hhist. by intros ?%elem_of_nil.
Qed.
Lemma sinv_reachable S : reachable K S → SInv S.
Proof.
  intros (S0 & Hi%sinv_initial & Hsteps). induction Hsteps; eauto using sinv_step.
Qed.

(** C39: whatever processes share the table of continuations and its key, however their operations interleave, are dropped or fail
    half way, a step changes only a row of this registry's (one without a tenant, under the current cipher), and by a
    rule of the publication protocol ([publish]): a row is inserted as the sealed binding of a call; its lease is
    renewed, and it is delivered and activated, only by a process that made its marker, activated only after a
    delivery of it was acknowledged to that process; it is taken over only if its lease has run out by the time that
    the reconciling call was given, taken back and released only by a process that made its marker or took it over,
    and scrubbed or purged only if it has expired, or is to be purged, by the time that the call was given; and
    every change but the scrubbing and the removals keeps what is sealed. *)
Theorem store_refines_protocol S S' id :
  reachable K S → Step K S S' →
  rows (world S') !! id = rows (world S) !! id ∨
  is_none_or legacy_continuation_scope (rows (world S) !! id) = true ∧
  ∃ r, publish K (history (world S)) r (rows (world S) !! id) (rows (world S') !! id).
Proof.
  intros HI%sinv_reachable Hst. pose proof (sinv_world _ HI) as Hi.
  destruct Hst as [| | |w ts t r c l T a k choice x w' Ht He| |]; try by left.
  destruct (sinv_threads _ HI _ _ Ht _ _ _ _ (reflexivity _) Hi He) as [Hp _]. cbn [world] in *.
  destruct (permitted_rows _ _ _ _ Hp id) as [Hsame|(Hpub & _ & _ & Hsc)]; [by left|right]. split; [done|by exists r].
Qed.

(** C40: a continuation that a resolution returns was bound by a call under the same keyed identities of owner and
    request; it carries what that call bound, the response, the model, the effort, the prefix and the fingerprint of the
    target; and its delivery was acknowledged to a call that activates it, unless it was bound as active at once.
    This holds for any number of processes with one key, and for every interleaving, with failing statements and
    dropped calls. *)
Theorem resolved_was_delivered S r turns owner request now res :
  reachable K S →
  Returned r (CallResolve turns owner request now) (Resolution (Ok (Some (Active res)))) ∈ history (world S) →
  served K (history (world S)) owner request res.
Proof. intros HI%sinv_reachable Hret. exact (sinv_returned _ HI _ _ _ Hret). Qed.

(** In every reachable state a row that can be served was bound as active at once, or its delivery was
    acknowledged; a provisional row becomes visible in no other way. *)
Theorem active_was_acknowledged S id row :
  reachable K S → rows (world S) !! id = Some row → legacy_continuation_scope row = true →
  publication_state row = PUBLICATION_ACTIVE →
  delivered (history (world S)) (publication_generation row) ∨
  ∃ r first owner request response target authority now,
    Wrote r None (Some first) ∈ history (world S) ∧ publication_generation first = publication_generation row ∧
    Called r (CallBind owner request response target authority now) ∈ history (world S).
Proof.
  intros HI%sinv_reachable Hrow Hs Hst. destruct (inv_rows _ _ (sinv_world _ HI) _ _ Hrow) as [_ Hstems].
  destruct (Hstems Hs) as (r & first & owner & request & b & Hw & Hb & Hk & _ & Ha).
  destruct (Ha Hst) as [Hf|Hd]; [right|by left].
  destruct Hb as [owner request response target authority now Hc _ _|? ? ? ? _ Hp _ _]; [|rewrite Hf in Hp; done].
  exists r, first, owner, request, response, target, authority, now. split_and!; [done|by symmetry; apply Hk|done].
Qed.

(** A process never holds more markers of publications than its capacity. *)
Theorem markers_are_bounded S r g :
  reachable K S → registries (world S) !! r = Some g →
  Z.of_nat (size (pending_publications g)) ≤ pending_capacity g.
Proof. intros HI%sinv_reachable Hg. by apply (inv_registries _ _ (sinv_world _ HI) _ _ Hg). Qed.
End reachable.
