(* ===== verification/AgentWitnesses.v ===== *)
(** Runs of a session that the model executes: the moves of the runtime and of the agents as data, each of them a step;
    instances of the theorems on agents, and a run in which a task for an idle agent closes a cycle. *)
From Stdlib Require Import ZArith Lia Ascii.
From stdpp Require Import base list strings gmap pretty sorting relations.
From S2P Require Import Prelude MapSum ExactInteger RegistryValue ModelHistory AgentTypes AgentGraph AgentAllocation AgentCollaboration AgentSystem AgentInvariant AgentBounds AgentCycles.
Open Scope string_scope.
Open Scope list_scope.
Open Scope Z_scope.

(** ** Moves *)

Inductive move :=
| Move_runtime (uuid actor : string) (a : Action) | Move_call (uuid id invocation : string)
| Move_deliver (uuid id : string) | Move_ask (id : string) (c : Call) | Move_end (id : string).

Definition mentions (id : string) (a : AgentState) : bool :=
  bool_decide (parent_id a = Some id) || existsb (λ w, bool_decide (sender_id w = id)) (queue a) ||
  is_some_and (λ t, bool_decide (assigned_by t = id)) (turn a).
Definition is_fresh (s : SessionSnapshot) (id : string) : bool :=
  negb (is_some (agents s !! id)) && negb (bool_decide (id = s_agent_id s)) &&
  forallb (λ a, negb (mentions id a)) (values (agents s)).
Lemma is_fresh_ok s id : is_fresh s id = true → unmentioned s id.
Proof.
  unfold is_fresh. rewrite !andb_true_iff, !negb_true_iff, bool_decide_eq_false, forallb_forall. intros [[Hn Hr] Ha].
  split; [by destruct (agents s !! id)|]. split; [done|]. intros k a Hk. specialize (Ha a).
  rewrite <-list_elem_of_In, elem_of_values, negb_true_iff in Ha. specialize (Ha (ex_intro _ k Hk)).
  unfold mentions in Ha. apply orb_false_iff in Ha as [[Hp Hq]%orb_false_iff Ht].
  apply bool_decide_eq_false in Hp. split_and!; [done| |].
  - intros w Hw Hs. assert (existsb (λ w, bool_decide (sender_id w = id)) (queue a) = true); [|congruence].
    apply existsb_exists. exists w. split; [by apply list_elem_of_In|by apply bool_decide_eq_true].
  - intros t Htt Hs. rewrite Htt in Ht. cbn in Ht. by apply bool_decide_eq_false in Ht.
Qed.

Section moves.
Context `{SessionEnv}.

Definition exec (s : SessionSnapshot) (m : move) : option SessionSnapshot :=
  match m with
  | Move_runtime u actor a =>
      if is_fresh s ("agent_" +:+ u)
      then match collaborate (λ _, u) s "operation" actor a 0 0 0 with Ok (s', _) => Some s' | Err _ => None end
      else None
  | Move_call u id invocation =>
      a ← agents s !! id; t ← turn a;
      '(_, c) ← list_find (λ c, invocation_id c = invocation) (core_calls t);
      if negb (terminal (status t)) && negb (is_some (c_result c)) && negb (is_some (c_wait c)) && is_fresh s ("agent_" +:+ u)
      then match collaboration_applied (λ _, u) s id c 0 0 with Ok s' => Some s' | Err _ => None end
      else None
  | Move_deliver u id =>
      if deliverable s id then match result_delivered u s id with Ok s' => Some s' | Err _ => None end else None
  | Move_ask id c =>
      a ← agents s !! id; t ← turn a;
      if is_some (c_wait c) then None else Some (set_agent id (with_turn (Some (with_calls (core_calls t ++ [c]) t)) a) s)
  | Move_end id =>
      a ← agents s !! id; t ← turn a; Some (set_agent id (with_turn (Some (with_status Interrupted t)) a) s)
  end.
Definition gives_task (s : SessionSnapshot) (a : Action) : bool :=
  match a with Followup id _ => is_some_and (λ a, negb (busy a)) (agents s !! id) | _ => false end.
Definition label_of (s : SessionSnapshot) (m : move) : option label :=
  match m with
  | Move_runtime _ actor a => Some (Label_runtime actor a)
  | Move_call _ id invocation =>
      a ← agents s !! id; t ← turn a;
      '(_, c) ← list_find (λ c, invocation_id c = invocation) (core_calls t); Some (Label_call id c)
  | Move_deliver _ id => Some (Label_deliver id)
  | Move_ask id _ | Move_end id => Some (Label_turn id)
  end.
Definition label_action (l : label) : option Action :=
  match l with Label_call _ c => Some (action c) | Label_runtime _ a => Some a | _ => None end.

Lemma with_calls_progress t c : c_wait c = None → turn_progress t (with_calls (core_calls t ++ [c]) t).
Proof.
  intros Hc. split_and!; [done..|]. intros y. rewrite !elem_of_unanswered. cbn.
  intros (d & w & [Hd| ->%list_elem_of_singleton]%elem_of_app & Hr & Hw & Hy); [by exists d, w|congruence].
Qed.
Lemma exec_step s m s' : exec s m = Some s' → ∃ l, label_of s m = Some l ∧ step s l s'.
Proof.
  destruct m as [u actor a|u id inv|u id|id c|id]; cbn.
  - destruct (is_fresh _ _) eqn:Hf; [|done]. apply is_fresh_ok in Hf.
    destruct (collaborate _ _ _ _ _ _ _ _) as [[s1 rc]|] eqn:Hc; [|done]. intros [= ->].
    eexists. split; [done|]. by eapply (Step_runtime s (λ _, u)).
  - destruct (agents s !! id) as [a|] eqn:Ha; cbn; [|done]. destruct (turn a) as [t|] eqn:Ht; cbn; [|done].
    destruct (list_find _ _) as [[i c]|] eqn:Hl; cbn; [|done]. destruct (_ && _) eqn:Hb; [|done].
    apply andb_true_iff in Hb as [[[Hn Hr]%andb_true_iff Hw]%andb_true_iff Hf%is_fresh_ok].
    destruct (collaboration_applied _ _ _ _ _ _) as [s1|] eqn:Hc; [|done]. intros [= ->].
    eexists. split; [done|]. eapply (Step_call s (λ _, u)); [|done|exact Hc]. apply list_find_Some in Hl as (Hl%list_elem_of_lookup_2 & _).
    exists a, t. apply negb_true_iff in Hn. split_and!; [done..| |]; [by destruct (c_result c)|by destruct (c_wait c)].
  - destruct (deliverable s id) eqn:Hd; [|done]. destruct (result_delivered _ _ _) as [s1|] eqn:Hr; [|done]. intros [= ->].
    eexists. split; [done|]. by eapply Step_deliver.
  - destruct (agents s !! id) as [a|] eqn:Ha; cbn; [|done]. destruct (turn a) as [t|] eqn:Ht; cbn; [|done].
    destruct (c_wait c) eqn:Hw; cbn; [done|]. intros [= <-]. eexists. split; [done|]. apply (Step_turn s id a); [done|].
    constructor; [done..| |done|done]. rewrite Ht. by apply with_calls_progress.
  - destruct (agents s !! id) as [a|] eqn:Ha; cbn; [|done]. destruct (turn a) as [t|] eqn:Ht; cbn; [|done].
    intros [= <-]. eexists. split; [done|]. apply (Step_turn s id a); [done|].
    constructor; [done..| |done|done]. rewrite Ht. by split_and!.
Qed.

(** The moves one after the other; [careful] ones give no task to an idle agent. *)
Fixpoint exec_all (s : SessionSnapshot) (l : list move) : option SessionSnapshot :=
  match l with [] => Some s | m :: l => s' ← exec s m; exec_all s' l end.
Fixpoint careful_moves (s : SessionSnapshot) (l : list move) : bool :=
  match l with
  | [] => true
  | m :: l => negb (is_some_and (gives_task s) (label_of s m ≫= label_action)) &&
              is_some_and (λ s', careful_moves s' l) (exec s m)
  end.
Lemma exec_all_runs s l s' : exec_all s l = Some s' → runs s s'.
Proof.
  revert s. induction l as [|m l IH]; intros s; cbn; [intros [= ->]; apply rtc_refl|].
  destruct (exec s m) as [s1|] eqn:Hm; cbn; [|done]. intros Hl. apply exec_step in Hm as (lb & _ & Hm).
  eapply rtc_l; [by eexists|]. by apply IH.
Qed.
Lemma gives_no_task s l : is_some_and (gives_task s) (label_action l) = false → careful s l.
Proof.
  assert (∀ a, gives_task s a = false → careful_action s a) as Ha.
  { intros a. destruct a; cbn; try done. intros Hb b Hb1 Hb2. rewrite Hb1 in Hb. cbn in Hb. by rewrite Hb2 in Hb. }
  destruct l; cbn; auto.
Qed.
Lemma exec_all_careful s l s' : exec_all s l = Some s' → careful_moves s l = true → careful_runs s s'.
Proof.
  revert s. induction l as [|m l IH]; intros s; cbn; [intros [= ->] _; apply rtc_refl|].
  destruct (exec s m) as [s1|] eqn:Hm; cbn; [|done]. intros Hl [Hc%negb_true_iff Hr]%andb_true_iff.
  apply exec_step in Hm as (lb & Hlb & Hm). rewrite Hlb in Hc. cbn in Hc.
  eapply rtc_l; [exists lb; split; [by apply gives_no_task|exact Hm]|]. by apply IH.
Qed.
End moves.

(** ** A session of four agents *)

#[local] Instance demo_env : SessionEnv := {|
  input_json_len _ := Ok 200; action_json_len _ := Ok 100; check_owned := Ok tt; steering_ready _ _ := Ok tt;
  context_tools _ _ _ := Ok VNull; deliver_evidence _ _ _ := Ok [];
|}.
Definition demo_limits : Limits := {|
  active_models := 4; l_agents := 6; child_depth := 3; l_model_attempts := 100; outstanding_tools := 8; total_tools := 64;
  queued_runs := 4; mailbox_messages := 8; active_seconds := 600; checkpoint_bytes := 65536; unacknowledged_bytes := 65536;
  ephemeral_bytes := 65536; input_bytes := 4096;
|}.
Definition demo_input : TaskInput := {|
  max_concurrent_subagents := Some 4; text := "port the parser"; i_model := "example/model"; effort := None;
  max_output_tokens := None; context_limit_bytes := None;
  routing := {| model_mode := ModelPolicy; context_mode := ContextFixed; skills := None |};
  discardable_history := None; acceptance_criteria := ["the tests pass"]; required_materials := []; verification := None;
  i_limits := None;
|}.
Definition demo_root : AgentState := {|
  agent_id := "root"; parent_id := None; display_path := "root"; depth := 0; context_revision := 1; history := [];
  required_instructions := [];
  turn := Some {| run_id := "run"; agent_turn_id := "turn_root"; assigned_by := "root"; input := demo_input; allocation_id := None;
                  history_start := Some 0; status := WaitingTool; cancellation_requested := false; steps := []; invocations := [];
                  core_calls := []; final_answer := None; terminal_reason := None; notified := false |};
  queue := []; mailbox := []; task_scope := None; context_sources := []; last_scheduled := 0;
|}.
Definition demo_run : RootRun := {|
  r_run_id := "run"; r_input := demo_input; r_limits := demo_limits; r_status := RunRunning; r_model_attempts := 0;
  active_ms := 0; resource_error := None;
|}.
Definition demo_session : SessionSnapshot := {|
  s_agent_id := "root";
  manifest := {| hm_tool_manifest_digest := "tools"; hm_workspace_revision := None; hm_permission_revision := 1; required_features := [] |};
  agents := {["root" := demo_root]}; run := Some demo_run; waits := ∅;
  signals := {| revision := 0; materials := ∅; requests := ∅ |}; allocations := ∅;
|}.
Lemma demo_started : started demo_session demo_run.
Proof.
  constructor; [done|vm_compute; reflexivity|unfold u32, u32_max; cbn; split_and!; try lia|].
  - intros m [= <-]. lia.
  - exists demo_root. split_and!; [done..|]. by intros t [= <-].
Qed.
Lemma demo_waits k : explicit_waits demo_session k = [].
Proof.
  unfold explicit_waits, demo_session. cbn. destruct (_ !! k) as [a|] eqn:Ha; [|done].
  by apply lookup_singleton_Some in Ha as [_ <-].
Qed.

Definition demo_work (name : string) : Work := {|
  w_text := name; w_model := None; w_effort := None; w_acceptance_criteria := []; w_required_materials := [];
  w_task_scope := Some "parser"; fresh_context := false; independent_review := false;
|}.
Definition demo_call (a : Action) : Call := {|
  invocation_id := "call"; public_call_id := "call"; provider_call_id := "call"; step_id := "step"; action := a;
  wait_output_version := None; c_wait := None; c_result := None; c_consumed := false;
|}.
(** The root has two children, [a] and [b]; [a] has a child, [c], which gives a task to [b] and is interrupted; [b] waits for
    [a]. *)
Definition demo_moves : list move := [
  Move_runtime "a" "root" (Spawn (demo_work "lexer")); Move_runtime "b" "root" (Spawn (demo_work "printer"));
  Move_runtime "c" "agent_a" (Spawn (demo_work "tokens")); Move_runtime "d" "agent_c" (Followup "agent_b" (demo_work "spans"));
  Move_runtime "e" "agent_a" (Interrupt "agent_c"); Move_end "agent_c"; Move_deliver "f" "agent_c";
  Move_ask "agent_b" (demo_call (Wait ["agent_a"] 60000)); Move_call "g" "agent_b" "call"].
Definition demo_reached : SessionSnapshot := default demo_session (exec_all demo_session demo_moves).

(** Then the root gives another task to [c]: [a] depends on it, it on [b], and [b] on [a]. *)
Definition demo_closed : SessionSnapshot :=
  default demo_session (exec demo_reached (Move_runtime "h" "root" (Followup "agent_c" (demo_work "errors")))).
Lemma demo_executed : exec_all demo_session demo_moves = Some demo_reached.
Proof. vm_compute. reflexivity. Qed.
Lemma demo_careful : careful_runs demo_session demo_reached.
Proof. eapply exec_all_careful; [apply demo_executed|vm_compute; reflexivity]. Qed.
Lemma demo_reaches : runs demo_session demo_reached.
Proof. eapply exec_all_runs, demo_executed. Qed.

Lemma session_stays_bounded_witness : size (agents demo_reached) = 4%nat ∧ Z.of_nat (size (agents demo_reached)) ≤ 6 ∧
  countb (takes_slot demo_reached demo_run) (values (agents demo_reached)) ≤ 4.
Proof.
  split; [vm_compute; reflexivity|].
  destruct (session_stays_bounded demo_session demo_reached demo_run demo_started demo_reaches) as (Hn & _ & Hs).
  split; [exact Hn|]. by apply Hs.
Defined.
Lemma dependencies_stay_acyclic_witness : assignment_cycle demo_reached "agent_c" "agent_a" = true ∧
  ∀ x y, rtc (depends demo_reached) x y → rtc (depends demo_reached) y x → x = y.
Proof.
  split; [vm_compute; reflexivity|].
  apply (dependencies_stay_acyclic demo_session demo_reached demo_run demo_started demo_waits demo_careful).
Defined.

(** A task for an idle agent can close a cycle: only the agent that gives the task is searched for, not the ancestors
    of the one that gets it, who depend on it as soon as it is busy. There are sessions reached from the start of a
    run in which two agents depend on each other. *)
Theorem follow_up_closes_cycle : ∃ (env : SessionEnv) s0 s r, started s0 r ∧ (∀ k, explicit_waits s0 k = []) ∧ runs s0 s ∧
  ∃ x y, x ≠ y ∧ rtc (depends s) x y ∧ rtc (depends s) y x.
Proof.
  exists demo_env, demo_session, demo_closed, demo_run. split; [apply demo_started|]. split; [apply demo_waits|]. split.
  - eapply rtc_r; [apply demo_reaches|]. destruct (exec_step demo_reached
      (Move_runtime "h" "root" (Followup "agent_c" (demo_work "errors"))) demo_closed) as (l & _ & Hl); [|by eexists].
    vm_compute. reflexivity.
  - exists "agent_a", "agent_b". split; [done|]. rewrite <-!cycle_reaches. split; vm_compute; reflexivity.
Qed.
