(* ===== verification/PolicyWitnesses.v ===== *)
(** Concrete instances of the theorems on semantic routing: a validated policy with an experiment, a tool floor
    and a progress guard, its router, an assessment that was decoded from a concrete answer, and both flows
    run on a concrete prompt. *)
From Stdlib Require Import ZArith Lia Ascii SpecFloat.
From stdpp Require Import base list strings gmap pretty sorting.
From S2P Require Import Prelude RouteIr EvalMeasurement TrajectoryTypes ProgressGuard TrajectoryReducer GuardedRoute.
From S2P Require Import RegistryValue RoutingState ModelHistory SemanticInput SemanticAssessment SemanticRoute PolicyLock PolicyTable.
From S2P Require Import PolicyTheorems PolicyDispatch.
Open Scope string_scope.
Open Scope list_scope.
Open Scope Z_scope.

(** ** The environment *)

Definition zero_hex : string := string_of (repeat "0"%char 64).
Definition zero_digest : string := "sha256:" +:+ zero_hex.
#[local] Instance policy_env : TrajectoryEnv := {|
  env_sha256 := λ _, zero_hex; env_event_json := λ _, Ok ""; env_snapshot_json := λ _, Ok "";
  env_candidates_json := λ _, Ok ""; parse_from_rfc3339 := λ _, Some 0 |}.
#[local] Instance policy_shape : @Sha256Shape env_sha256.
Proof. by intros s. Qed.
(** An input is a value that keeps what a decoding needs here. *)
Definition demo_routing_input : Input := {| task := None; signals := []; complete := true; truncated := false |}.
#[local] Instance assessment_env : AssessmentEnv := {|
  classifier_json := λ _, Ok ""; input_json := λ _, Ok ""; contract_text := λ _, "";
  input_to_value := λ _, VObject []; input_from_value := λ _, Some demo_routing_input |}.

(** ** The assessment *)

(** All the mass on one label. *)
Definition certain (labels : list string) (label : string) : Answer :=
  Choice label one (list_to_map (map (λ l, (l, if bool_decide (l = label) then one else zero)) labels)).
Definition demo_request : DecisionRequest := classification_request "classifier" demo_routing_input.
Definition demo_response : DecisionResponse := {|
  response_model := "classifier-1";
  answers := list_to_map [(TASK, certain task_labels "code:debugging"); (ROLE, certain role_labels "implement");
                          (PROGRESS, certain progress_labels "progressing")];
  usage := {| input_tokens := 10; output_tokens := 3 |} |}.
Definition demo_decoded : result DecisionError Assessment := decode demo_request demo_response half.
Lemma demo_assessment_exists : {a | demo_decoded = Ok a}.
Proof.
  assert (is_ok demo_decoded = true) as H by (vm_compute; reflexivity).
  destruct demo_decoded as [a|e]; [by exists a|discriminate].
Qed.
Definition demo_assessment : Assessment := proj1_sig demo_assessment_exists.
Lemma demo_assessment_decoded : decode demo_request demo_response half = Ok demo_assessment.
Proof. exact (proj2_sig demo_assessment_exists). Qed.
Lemma demo_answer_confident : confident demo_response half TASK "code:debugging".
Proof.
  exists one, (list_to_map (map (λ l, (l, if bool_decide (l = "code:debugging") then one else zero)) task_labels)), one.
  split_and!; [vm_compute; reflexivity..|].
  intros l v Hl. revert l v Hl. apply (bool_decide_unpack (map_Forall (λ _ v, SFleb v one = true) _)).
  vm_compute. reflexivity.
Qed.
Lemma assessment_labels_iff_witness : SemanticAssessment.task_family demo_assessment = CodeDebugging.
Proof.
  apply (proj1 (assessment_labels_iff demo_request demo_response half demo_assessment demo_assessment_decoded)
    CodeDebugging); [discriminate|]. exact demo_answer_confident.
Defined.
Lemma own_request_decodes_iff_witness :
  threshold_ok half = true ∧ DecisionResponse_validate demo_response demo_request = Ok tt.
Proof.
  apply (own_request_decodes_iff "classifier" demo_routing_input demo_response half);
    [reflexivity|reflexivity|reflexivity|]. vm_compute. reflexivity.
Defined.

(** ** The policy *)

Definition demo_key : string := "semantic_route/v1|code:debugging|implement|normal".
Definition cheap_target : PolicyModelTarget :=
  {| target_model := "small"; target_effort := None; target_context := Evidence |}.
Definition strong_target : PolicyModelTarget :=
  {| target_model := "large"; target_effort := Some EffortHigh; target_context := Evidence |}.
Definition demo_experiment : RouteExploration := {|
  exploration_id := zero_digest; target_request_key := demo_key; champion_tier := "cheap";
  challenger_tier := "strong"; challenger_exposure_ppm := 250000;
  gate := {| gate_objective := Cost; minimum_tasks_per_arm := 5; maximum_challenger_tasks := 50;
             minimum_pass_rate_ppm := 900000; gate_evaluator_config_digest := None |} |}.
Definition guard_policy : ProgressGuardPolicy := {|
  escalation_tier := "strong"; protected_tiers := {["strong"]};
  max_consecutive_unprotected := Some 1; max_same_projection_unprotected := None;
  max_recovery_count := None; max_episode_requests := None; max_episode_elapsed_ms := None;
  max_episode_cost_micro_usd := None; hold_for_requests := 3; incomplete_history := Observe |}.
Definition semantic_policy : PolicyDefinition := {|
  policy_tiers := <["cheap" := cheap_target]> {["strong" := strong_target]};
  routes := {["semantic_route/v1|unknown|implement|normal" := "cheap"]};
  policy_default_tier := Some "strong"; policy_tool_use_tier := Some "strong"; policy_tool_safe_tiers := ["strong"];
  progress_guard := Some guard_policy; predictor := Some compiled_predictor_contract;
  optimization := Some {| active := Some demo_experiment; rejections := [] |};
  policy_adequacy := {| adequacy_enabled := false; adequacy_escalation_tier := None; reliability_window_size := 23;
    reliability_consecutive_failures := 2; reliability_error_rate_percent := 35; explore_enabled := false;
    explore_tier := None |} |}.
Definition demo_router : PolicyTableRouter := {|
  table := {| table_tiers := policy_tiers semantic_policy; table_fingerprints := routes semantic_policy;
    table_default_tier := Some "strong"; table_tool_use_tier := Some "strong"; table_tool_safe_tiers := ["strong"] |};
  state_namespace := Some "coding";
  eval_observer := Some {| observer_policy := "coding"; observer_policy_digest := zero_digest;
                           route_baselines := ∅; default_baseline := Some "strong" |};
  router_guard := Some guard_policy; exploration := Some demo_experiment; classifier_constraints := ∅ |}.
Lemma semantic_policy_valid : validate_policy "coding" semantic_policy = Ok tt.
Proof. vm_compute. reflexivity. Qed.
Lemma demo_router_prepared : prepare_router "coding" semantic_policy ∅ zero_digest = Ok demo_router.
Proof. vm_compute. reflexivity. Qed.
Lemma demo_served : served_by "coding" semantic_policy demo_router.
Proof. split; [exact semantic_policy_valid|]. exists ∅, zero_digest. exact demo_router_prepared. Qed.

(** ** The requests *)

Definition demo_identity : WorkflowIdentity := {|
  benchmark_run_id := Some "run"; trial_id := Some "trial"; agent_session_id := None; parent_session_id := None;
  RouteIr.role := Main; context_epoch := 0; transition := TransitionNone; RouteIr.fingerprint := ""; identity_source := "headers";
  identity_confidence := ConfidenceHigh |}.
Definition demo_observed : WorkflowStateIR := {|
  harness_id := Generic; protocol := ChatCompletions; ir_state_kind := Edit; active_workflow := None;
  subagent_role := None; last_tool_name := None; tool_density := DensityLow; context_size := Small;
  recovery_signal := SignalNone; normalized_action_history := None;
  capability_constraints := CapabilityConstraints_default; session := SessionSignal_default;
  identity := demo_identity; RouteIr.confidence := zero; ir_evidence := [] |}.
Definition coding_prompt : Prompt := {|
  prompt_model := "bitrouter/auto"; system := Some "You fix bugs."; messages := [Message_text User "It crashes."];
  tools := [FunctionTool "shell"]; reasoning_effort := None |}.

(** The unknown-task route answers for the assessed key, which the experiment's task keeps in its arm. *)
Lemma serving_follows_lock_witness :
  tier_for_workflow (table demo_router) (routing_key (from_assessment demo_observed coding_prompt None))
    (baseline_routing_key (from_assessment demo_observed coding_prompt None)) (λ _, true) =
  Some ("strong", "semantic_route/v1|unknown|unknown|guarded").
Proof.
  rewrite (proj2 (serving_follows_lock semantic_policy (table demo_router) (λ _, true) demo_observed coding_prompt None
    eq_refl) eq_refl eq_refl).
  vm_compute. reflexivity.
Defined.
Lemma routed_tier_is_defined_witness :
  ∃ target, policy_tiers semantic_policy !! "strong" = Some target ∧
    selected_model (decision_for_inner demo_router coding_prompt demo_observed false true None None)
      = Some (target_model target) ∧ "strong" ∈ policy_tool_safe_tiers semantic_policy.
Proof.
  destruct (proj2 (routed_tier_is_defined "coding" semantic_policy demo_router coding_prompt demo_observed false true
    None None demo_served) "strong") as (target & H1 & H2 & _ & _ & H3); [vm_compute; reflexivity|].
  exists target. split; [exact H1|]. split; [exact H2|]. apply H3; [reflexivity|discriminate|discriminate].
Defined.
Lemma assignment_is_sticky_witness :
  ∀ a, assignment demo_experiment demo_identity = Some a →
    assignment demo_experiment {| benchmark_run_id := Some "run"; trial_id := Some "trial";
      agent_session_id := Some "another"; parent_session_id := Some "parent"; RouteIr.role := RouteIr.Summary; context_epoch := 3;
      transition := TransitionNone; RouteIr.fingerprint := "f"; identity_source := "";
      identity_confidence := ConfidenceLow |} = Some a.
Proof.
  intros a <-. symmetry.
  exact (proj1 (proj2 (assignment_is_sticky demo_experiment demo_experiment demo_identity _)) eq_refl).
Defined.

(** With forty bytes everything fits; the instruction leads. *)
Lemma projection_is_bounded_witness :
  signals (from_prompt (λ _, "{}") coding_prompt 40) =
  [{| signal_kind := "instruction"; signal_text := "You fix bugs." |};
   {| signal_kind := "user"; signal_text := "It crashes." |}].
Proof.
  refine (eq_trans (proj1 (proj2 (proj2 (projection_is_bounded (λ _, "{}") coding_prompt 40))) _) _);
    vm_compute; reflexivity.
Defined.
Lemma pin_selects_serving_tier_witness :
  is_ok (apply_continuation_adjustment
    (decision_for_inner demo_router coding_prompt demo_observed false true None None) (Pin "small" None true)) = true.
Proof.
  apply (proj1 (pin_selects_serving_tier
    (decision_for_inner demo_router coding_prompt demo_observed false true None None) "small" None true)).
  exists "cheap". left. exists cheap_target. vm_compute. auto.
Defined.

(** ** The flows *)

Definition flow_of {A B} (r : result string (A * B)) : is_ok r = true → { ab | r = Ok ab } :=
  match r with Ok ab => λ _, exist _ ab eq_refl | Err _ => λ H, False_rect _ (diff_false_true H) end.
Definition demo_unguarded : result string (PolicyDecision * Dispatch) :=
  select_unguarded demo_router coding_prompt demo_observed None (Some (Pin "small" None false)).
Lemma demo_unguarded_ok : is_ok demo_unguarded = true.
Proof. vm_compute. reflexivity. Qed.
Lemma dispatched_is_recorded_witness :
  let dx := proj1_sig (flow_of demo_unguarded demo_unguarded_ok) in dispatched coding_prompt dx.1 dx.2.
Proof.
  cbn zeta. destruct (flow_of demo_unguarded demo_unguarded_ok) as [[d x] H].
  apply (dispatched_is_recorded demo_router guard_policy coding_prompt demo_observed None None
    (Some (Pin "small" None false)) false ("e2", "e3") None []
    {| TrajectoryTypes.schema_version := 1; event_id := ""; owner_user_id := ""; episode_id := ""; request_id := None;
       sequence := 1; event_kind := RequestStarted;
       evidence := {| structural := ∅; categorical := ∅; digests := ∅; TrajectoryTypes.route_measurement := None;
                      routing_evidence := [] |}; captured_at := ""; content_digest := "" |} Complete d x).
  left. exact H.
Defined.

