(* ===== verification/RegistryWitnesses.v ===== *)
(** The theorems of the registry at concrete inputs, with the parameters instantiated: numbers are read
    by their decimal value, a time is written as the code of its seconds and nanoseconds. *)
From Stdlib Require Import ZArith Lia Ascii QArith.
From stdpp Require Import base list strings gmap pretty sorting countable.
From S2P Require Import Prelude ExactInteger RegistryValue RegistrySelector RegistryPricing RegistryMapping RegistryReconcile RegistryOwners RegistryKept RegistryTheorems.
Open Scope string_scope.
Open Scope list_scope.
Open Scope Z_scope.

(** ** Concrete parameters *)
Definition lexeme_u64 (t : string) : option Z :=
  if all_digits t then
    match RegistryPricing.decimal t with
    | Ok q => if is_integer q && ((0 <=? Qnum (Qred q)) && (Qnum (Qred q) <=? u64_max))
              then Some (Qnum (Qred q)) else None
    | Err _ => None
    end
  else None.
#[export] Instance lexeme_number : ExactNumber := lexeme_u64.
#[export] Instance lexeme_laws : ExactNumberLaws.
Proof.
  intros t n. unfold as_u64, lexeme_number, lexeme_u64. destruct (all_digits t); [|done].
  destruct (RegistryPricing.decimal t) as [q|]; [|done]. destruct (_ && _) eqn:Hc; [|done]. intros [= <-].
  apply andb_true_iff in Hc as [Hq%is_integer_spec [?%Z.leb_le ?%Z.leb_le]%andb_true_iff]. split; [done|]. by exists q.
Qed.
#[export] Instance no_text : JsonText := λ _, "".
(** A time is written as the digits of its code. *)
Fixpoint positive_digits (p : positive) : string :=
  match p with xH => "Z" | xO p => String "0" (positive_digits p) | xI p => String "1" (positive_digits p) end.
Fixpoint digits_positive (s : string) : positive :=
  match s with String "0" s => xO (digits_positive s) | String "1" s => xI (digits_positive s) | _ => xH end.
Lemma digits_positive_written p : digits_positive (positive_digits p) = p.
Proof. induction p as [p IH|p IH|]; cbn; by rewrite ?IH. Qed.
Lemma ends_with_written p : ends_with "Z" (positive_digits p) = true.
Proof. induction p as [p IH|p IH|]; [..|done]; cbn [positive_digits ends_with]; rewrite IH; apply orb_true_r. Qed.
#[export] Instance coded_time : Rfc3339 := {
  parse_from_rfc3339 s := countable.decode (digits_positive s);
  to_rfc3339 t := positive_digits (countable.encode t) }.
#[export] Instance coded_laws : Rfc3339Laws.
Proof.
  intros t. unfold timestamp. cbn [to_rfc3339 parse_from_rfc3339 coded_time].
  by rewrite ends_with_written, digits_positive_written, decode_encode.
Qed.

(** ** A provider *)
Definition str (s : string) : Value := VString s.
Definition strs (l : list string) : Value := VArray (str <$> l).
Definition feed0 (writes : list string) (defaults : list (string * Value)) : Value := obj [
  ("id", str "list"); ("kind", str "v1_models"); ("writes", strs writes);
  ("request", obj [("url", str "https://example.com/models")]);
  ("inventory", obj [("mode", str "snapshot"); ("scope", str "public"); ("complete", VBool true);
     ("allow_empty", VBool true); ("missing_runs", VNumber "2"); ("minimum_missing_hours", VNumber "24")]);
  ("response", obj [("items_path", str "/data");
     ("mapping", obj [("/id", str "/provider_model_id"); ("/name", str "/name")]);
     ("defaults", obj defaults)])].
Definition provider0 (feed : Value) : Value :=
  obj [("name", str "test"); ("status", str "active"); ("models", VArray []); ("auto_sync", obj [("feeds", VArray [feed])])].
Definition at_hour (n h : Z) : Stamp := {| sequence := n; stamp_id := "run-" +:+ pretty n; observed_at := (h * 3600, 0) |}.
Definition plain := feed0 ["models"; "metadata"] [("status", str "active"); ("interfaces", VArray [])].
Definition seen (name : string) : Observation := {| models := [{|
  observed_value := obj [("provider_model_id", str "Native/A"); ("name", str name); ("status", str "active"); ("interfaces", VArray [])];
  observed := {["/provider_model_id"; "/name"; "/status"; "/interfaces"]} |}]; excluded := 0 |}.
Definition nothing : Observation := {| models := []; excluded := 0 |}.
Definition run (p : result RegistryError (Value * Changes)) (o : Observation) (s : Stamp) :=
  '(p, _) ← p; apply p "list" o s.
Definition begin_run (f : Value) : result RegistryError (Value * Changes) := Ok (provider0 f, Changes_default).
(** As the test of presence, absence and reactivation. *)
Definition one := run (begin_run plain) (seen "first") (at_hour 1 0).
Definition two := run one nothing (at_hour 2 1).
Definition three := run two nothing (at_hour 3 25).
Definition four := run three (seen "first") (at_hour 4 26).
Definition report (p : result RegistryError (Value * Changes)) : Changes := match p with Ok (_, c) => c | Err _ => Changes_default end.
Definition value (p : result RegistryError (Value * Changes)) : Value := match p with Ok (v, _) => v | Err _ => VNull end.
Example reconciled : (changed (report one), withdrawn (report two), withdrawn (report three), changed (report four)) =
  (["/name"; "/status"; "Native/A:membership"], [], ["Native/A"], ["/status"]).
Proof. vm_compute. reflexivity. Qed.
(** A null for what is not there is reported as a change. *)
Definition null_name : Observation := {| models := [{|
  observed_value := obj [("provider_model_id", str "Native/A"); ("description", VNull); ("status", str "active"); ("interfaces", VArray [])];
  observed := {["/provider_model_id"; "/description"; "/status"; "/interfaces"]} |}]; excluded := 0 |}.
Example null_is_reported : changed (report (run one null_name (at_hour 2 0))) = ["/description"] ∧
  map_get "description" (default [] (as_object (default VNull (head (array (field "models" (value (run one null_name (at_hour 2 0))))))))) = None.
Proof. vm_compute. done. Qed.
(** The claims of a feed that writes models and prices, on an interface of its defaults, are refused
    when the provider is read again. *)
Definition priced_interface : Value := obj [("protocol", str "messages"); ("operation", str "generation");
  ("pricing", obj [("kind", str "token"); ("currency", str "USD")])].
Definition priced : Value := feed0 ["models"; "pricing"] [("status", str "active"); ("interfaces", VArray [priced_interface])].
Definition priced_feed : Value := set_field "response" (obj [("items_path", str "/data"); ("mapping", obj [("/id", str "/provider_model_id")]);
  ("defaults", obj [("status", str "active"); ("interfaces", VArray [priced_interface])])]) priced.
Definition priced_seen : Observation := {| models := [{|
  observed_value := obj [("provider_model_id", str "A"); ("status", str "active"); ("interfaces", VArray [priced_interface])];
  observed := {["/provider_model_id"]} |}]; excluded := 0 |}.
Example priced_provider_is_refused : let p := run (begin_run priced_feed) priced_seen (at_hour 1 0) in
  is_ok (validate priced_feed) = true ∧ is_ok p = true ∧
  validate_provider (value p) = Err (invalid "Field owner lacks its declared write authority").
Proof. vm_compute. done. Qed.

(** ** Well-formed values *)

Fixpoint wfb (v : Value) : bool :=
  match v with
  | VArray l => forallb wfb l
  | VObject m => bool_decide (NoDup m.*1) && forallb (λ '(_, x), wfb x) m
  | _ => true
  end.
Lemma wfb_wf v : wfb v = true → wf v.
Proof.
  induction v as [| | | |l IH|m IH] using value_nested; try done.
  - cbn [wfb]. rewrite forallb_forall, wf_array, !Forall_forall in *. intros Hl x Hx. apply IH; [done|]. by apply Hl.
  - cbn [wfb]. rewrite andb_true_iff, bool_decide_eq_true, forallb_forall, wf_object, !Forall_forall in *. intros [Hn Hl]. split; [done|].
    intros [k x] Hx. apply IH; [done|]. by apply (Hl (k, x)).
Qed.
Lemma observed_wf (o : Observation) : forallb (λ o, wfb (observed_value o)) (models o) = true → Forall (λ o, wf (observed_value o)) (models o).
Proof. rewrite forallb_forall, Forall_forall. intros Ho x Hx. by apply wfb_wf, Ho. Qed.
Lemma run_accepted p v c o s : p = Ok (v, c) → is_ok (run p o s) = true → apply v "list" o s = Ok (value (run p o s), report (run p o s)).
Proof. intros ->. cbn. by destruct (apply v "list" o s) as [[v' c']|]. Qed.

(** ** Reconciliation *)

(** The name is set by hand, and its claim is dropped. *)
Definition by_hand : Value := set_field "models" (VArray [
  set_field "name" (str "manual") (set_field "sync" (obj [("owner", str "list"); ("field_owners", obj [("/status", str "list")])])
    (default VNull (head (array (field "models" (value one))))))]) (value one).
Definition overridden := apply by_hand "list" (seen "second") (at_hour 2 1).
Example override_is_kept : manual_conflicts (report overridden) = ["/name"].
Proof. vm_compute. reflexivity. Qed.
Lemma withdrawals_need_evidence_witness : ∃ feed m m' hours, let inventory := field "inventory" feed in
    feed ∈ default [] (feeds_of (value two)) ∧ field "id" feed = VString "list" ∧ may_write "models" feed = true ∧
    field "mode" inventory = VString "snapshot" ∧ field "complete" inventory = VBool true ∧ field "scope" inventory = VString "public" ∧
    Forall (λ o, native_name (observed_value o) ≠ Some "Native/A") (models nothing) ∧
    m ∈ array (field "models" (value two)) ∧ m' ∈ array (field "models" (value three)) ∧
    missing_hours inventory = Ok hours ∧
    evidence "list" (at_hour 3 25) (default 2 (get "missing_runs" inventory ≫= integer)) hours "Native/A" m m'.
Proof.
  apply (withdrawals_need_evidence (value two) "list" nothing (at_hour 3 25) (value three) (report three) "Native/A").
  - apply wfb_wf. vm_compute. reflexivity.
  - apply observed_wf. vm_compute. reflexivity.
  - vm_compute. reflexivity.
  - vm_compute. left.
Defined.
Lemma checkpoint_only_advances_witness : ∃ feeds i feed a, feeds_of (value two) = Some feeds ∧
    list_find (λ f, is_str "list" (field "id" f) = true) feeds = Some (i, feed) ∧ checkpoint_sequence feed = Ok a ∧
    (unchanged (report three) = true ∧ value three = value two ∧
       (sequence (at_hour 3 25) < a ∨ sequence (at_hour 3 25) = a ∧ is_replay (at_hour 3 25) (field "checkpoint" feed) = true) ∨
     unchanged (report three) = false ∧ a < sequence (at_hour 3 25) ∧ ∃ feed',
       feeds_of (value three) = Some (<[i := feed']> feeds) ∧ checkpoint_sequence feed' = Ok (sequence (at_hour 3 25)) ∧
       order feed' (at_hour 3 25) = Ok true ∧
       (∀ later, order feed' later = Ok false →
          sequence (at_hour 3 25) < sequence later ∧ before (observed_at later) (observed_at (at_hour 3 25)) = false) ∧
       (∀ k, k ≠ "checkpoint" → get k feed' = get k feed) ∧
       ∀ k, k ∉ ["models"; "auto_sync"] → get k (value three) = get k (value two)).
Proof.
  apply (checkpoint_only_advances (value two) "list" nothing (at_hour 3 25) (value three) (report three)).
  vm_compute. reflexivity.
Defined.

(** ** Selectors and prices *)

Lemma selector_roundtrip_witness : ∃ s, encode "acme" "a/b %41" = Ok s ∧
  decode s = Ok (Some {| provider := "acme"; model := "a/b %41" |}) ∧
  ∀ t sel, decode t = Ok (Some sel) →
    (∃ e, t = provider sel +:+ ":~native/" +:+ string_of e ∧ spells e (bytes (model sel))) ∧
    is_ok (encode (provider sel) (model sel)) = true ∧
    (encode (provider sel) (model sel) = Ok s → sel = {| provider := "acme"; model := "a/b %41" |}).
Proof. apply (selector_roundtrip "acme" "a/b %41"); vm_compute; reflexivity. Defined.
