(* ===== verification/CoreWitnesses.v ===== *)
(** Concrete inputs at which the hypotheses of the theorems on active time and on policy blocks hold. *)
From stdpp Require Import base list strings gmap pretty sorting.
From Stdlib Require Import ZArith Lia Ascii SpecFloat.
From S2P Require Import Prelude Activity BlockTypes BlockControl BlockSelection BlockSystem BlockLineage BlockInvariant BlockTheorems BlockRouting.
Open Scope Z_scope.

(** ** Active time *)

Definition demo_log : list event :=
  [Start "turn" 1; Start "tool/x" 3; Finish "turn" 4; Finish "tool/x" 7; Start "turn" 9].
Lemma elapsed_is_active_time_witness :
  let reported := elapsed_ms 12 (run (restored 5000) demo_log) - 5000 in
  10 ^ 6 * reported ≤ active_ns demo_log 12 ≤ 10 ^ 6 * reported + (10 ^ 6 - 1) * starts demo_log.
Proof.
  apply (elapsed_is_active_time 5000 demo_log 12); [lia|lia| |repeat (constructor; [cbn; lia|]); constructor|vm_compute; discriminate].
  unfold in_order. cbn. repeat (constructor; [|repeat (constructor; [lia|]); constructor]). constructor.
Defined.
(** Two measurements race: the second exchange fails and is retried. *)
Lemma gate_time_is_exact_witness : ∃ g,
  Z.min u64_max (cell g + gate_pending g) =
  Z.min u64_max (begun [Measured 0 5; Measured 2 9; Load; Load; Exchange; Load; Exchange]).
Proof.
  eexists. eapply (gate_time_is_exact [Measured 0 5; Measured 2 9; Load; Load; Exchange; Load; Exchange]).
  - change ([Measured 0 5; Measured 2 9; Load; Load; Exchange; Load; Exchange]) with
      (((((((([] ++ [Measured 0 5]) ++ [Measured 2 9]) ++ [Load]) ++ [Load]) ++ [Exchange]) ++ [Load]) ++ [Exchange])).
    repeat eapply gate_run_step; [apply gate_run_refl|..].
    + apply (Gate_drop 0 [] [] 0 5).
    + apply (Gate_drop 0 [] [{| nanos := measured 0 5; prior := None |}] 2 9).
    + apply (Gate_load 0 [] [{| nanos := measured 0 5; prior := None |}]).
    + apply (Gate_load 0 [{| nanos := measured 2 9; prior := Some 0 |}] []).
    + apply (Gate_exchange 0 [] [{| nanos := measured 0 5; prior := Some 0 |}]).
    + apply (Gate_load _ [] []).
    + apply (Gate_exchange _ [] []).
  - set_solver.
Defined.

(** ** Policy blocks *)

#[local] Instance demo_sha : Sha256 := λ s, s.
#[local] Instance demo_json : BlockJson := λ v,
  match v with
  | D_definition d => "definition " +:+ block_id d
  | D_config _ _ => "config"
  | D_registered d rd => "registered " +:+ block_id d +:+ rd
  | D_experiment _ r _ => "experiment " +:+ r
  | D_revised _ prev _ rd _ => "revised " +:+ prev +:+ rd
  | D_strings l => join "," l
  end.
#[local] Instance demo_draw : SeededDraw := λ seed, seed.

Definition half : spec_float := S754_finite false 4503599627370496 (-53).
Definition demo_mean : MeanPrior := {| prior_mean := half; strength := f64_one; observation_variance := f64_one |}.
Definition demo_arm : ArmPrior := {| quality := demo_mean; log_cost := demo_mean; log_latency := demo_mean |}.
Definition demo_bandit : BanditConfig := {|
  prior_version := "v1"; baseline_prior := demo_arm; challenger_prior := demo_arm;
  minimum_quality_ppm := 800000; noninferiority_margin_ppm := 50000; maximum_latency_increase_ppm := 100000;
  promotion_probability_ppm := 950000; minimum_families_per_arm := 20; initial_exposure_ppm := 100000;
  maximum_exposure_ppm := 500000; minimum_exposure_ppm := 20000; maximum_pending_challenger := 1;
  maximum_challenger_sessions := 200; posterior_draws := 8192; recent_guard_families := 32;
  recent_guard_minimum_families := 8 |}.
Definition demo_block (baseline challenger : string) : BlockDefinition := {|
  block_id := "a"; source := "agent"; rationale := "r";
  rules := [{| selector := "primary"; fingerprint := None; baseline_route := baseline; challenger_route := challenger |}];
  independence_rationale := "i"; dependencies := ∅; measurement_contract := "contract"; batch_sessions := 4;
  bandit := demo_bandit |}.
Definition demo_posterior : MeanPosterior := {| posterior_mean := half; variance := half; degrees_of_freedom := half;
  student_scale := half; observation_variance_mean := half; observed_families := 20 |}.
Definition demo_arm_posterior : ArmPosterior := {| posterior_quality := demo_posterior;
  posterior_log_cost := demo_posterior; posterior_log_latency := demo_posterior; assigned_sessions := 1;
  incomplete_sessions := 0; severe_sessions := 0; arithmetic_mean_cost_micro_usd := None; recent_quality := demo_posterior |}.
Definition demo_plan (r : Recommendation) (evidence : string) : BatchPlan := {|
  learner_version := LEARNER_VERSION; plan_id := "plan"; evidence_digest := evidence; plan_contract := "contract";
  config_digest := "config"; seed := 1; challenger_propensity_ppm := 100000; joint_benefit_probability_ppm := 0;
  monte_carlo_lower_ppm := 0; recent_quality_harm_probability_ppm := 0; baseline_posterior := demo_arm_posterior;
  challenger := demo_arm_posterior; excluded_mixed_families := 0; recommendation := r; plan_reason := "r" |}.
Definition clock0 (n : nat) : string := "t".
Definition first_id : string := registered_id ControlState_default (demo_block "primary" "cheap") "routes".
Definition second_id : string := "revised " +:+ first_id +:+ "routes2".
(** A block is registered, adopted after a cohort of one challenger, revised over the adopted
    route, and then the first adoption loses its evidence. *)
Definition demo_ops : list op :=
  [ SetMode Manual None; Register (demo_block "primary" "cheap") "routes"; Reserve "a" "session" 0;
    ApplyPlan "a" first_id (demo_plan Promote "e1") true;
    Revise (demo_block "cheap" "cheaper") "routes2" first_id false;
    ApplyPlan "a" first_id (demo_plan Hold "e2") true; SetMode Off None ].
Definition ok_state (r : result string ControlState) : ControlState :=
  match r with Ok st => st | Err _ => ControlState_default end.
Definition demo (n : nat) : ControlState :=
  foldl (λ st o, ok_state (exec clock0 o st)) ControlState_default (take n demo_ops).
(** [allowed], decided. *)
Definition allowed_b (st : ControlState) (o : op) : bool :=
  match o with
  | Register d config => bool_decide (maximum_challenger_sessions (bandit d) ≤ u64_max ∧ unused st (registered_id st d config))
  | Revise d rd _ reset => bool_decide (maximum_challenger_sessions (bandit d) ≤ u64_max) &&
      match blocks st !! block_id d with
      | Some previous =>
          match inherited st previous reset with
          | Ok (_, ancestry, _) => bool_decide (unused st (revised_id previous d rd ancestry))
          | Err _ => true
          end
      | None => true
      end
  | _ => true
  end.
Lemma allowed_b_ok st o : allowed_b st o = true → allowed st o.
Proof.
  destruct o; cbn; try done.
  - by intros ?%bool_decide_eq_true.
  - intros [?%bool_decide_eq_true Hb]%andb_true_iff. split; [done|]. intros previous base ancestry inherit Hp Hi.
    rewrite Hp, Hi in Hb. by apply bool_decide_eq_true in Hb.
Qed.
Lemma exec_ok st o : is_ok (exec clock0 o st) = true → exec clock0 o st = Ok (ok_state (exec clock0 o st)).
Proof. by destruct (exec clock0 o st). Qed.
Lemma step_ok st o : allowed_b st o = true → is_ok (exec clock0 o st) = true → step st (ok_state (exec clock0 o st)).
Proof. intros Ha Hx. exists clock0, o. split; [by apply allowed_b_ok|by apply exec_ok]. Qed.
Lemma demo_steps : ∀ n, (n < 7)%nat → step (demo n) (demo (S n)).
Proof.
  intros n Hn. do 7 (destruct n as [|n]; [refine (step_ok _ _ _ _); vm_compute; reflexivity|]). lia.
Qed.
Lemma demo_path n m : (n + m ≤ 7)%nat → rtc step (demo n) (demo (n + m)).
Proof.
  revert n. induction m as [|m IH]; intros n Hm; [by rewrite Nat.add_0_r|].
  eapply rtc_l; [apply demo_steps; lia|]. rewrite Nat.add_succ_r. apply (IH (S n)). lia.
Qed.
Lemma demo_reachable n : (n ≤ 7)%nat → reachable (demo n).
Proof. intros Hn. apply (demo_path 0 n). lia. Qed.
Definition demo_experiment (n : nat) (e : string) : option BlockState := lookup_experiment (demo n) "a" e.
Example demo_statuses : (status <$> demo_experiment 4 first_id, status <$> demo_experiment 5 second_id,
  status <$> demo_experiment 6 first_id, status <$> demo_experiment 6 second_id) =
  (Some Adopted, Some Exploring, Some RolledBack, Some RolledBack).
Proof. vm_compute. reflexivity. Qed.

Definition present (n : nat) (e : string) : BlockState :=
  default {| definition := demo_block "" ""; revision := ""; parent_revision := None; experiment_id := "";
    predecessor_experiment_id := None; baseline_ancestry := []; status := Paused; plan := None;
    routing_config_digest := ""; batch := EnrollmentBatch_default; assigned_challenger_sessions := 0;
    last_exposure_ppm := 0 |} (demo_experiment n e).
Lemma present_ok n e : is_some (demo_experiment n e) = true → lookup_experiment (demo n) "a" e = Some (present n e).
Proof. intros [b Hb]%bool_decide_eq_true. unfold present. unfold demo_experiment in *. by rewrite Hb. Qed.
Lemma withdrawn_is_final_witness : ∃ b', lookup_experiment (demo 7) "a" second_id = Some b' ∧
  status b' = RolledBack ∧ batch b' = batch (present 6 second_id) ∧ plan b' = plan (present 6 second_id) ∧
  definition b' = definition (present 6 second_id) ∧
  assigned_challenger_sessions b' = assigned_challenger_sessions (present 6 second_id).
Proof.
  apply (withdrawn_is_final (demo 6)); [apply demo_reachable; lia|apply (demo_path 6 1); lia| |vm_compute; reflexivity].
  apply present_ok. vm_compute. reflexivity.
Defined.
Lemma adoption_needs_evidence_witness : ∃ p,
  ApplyPlan "a" first_id (demo_plan Promote "e1") true = ApplyPlan "a" first_id p true ∧ recommendation p = Promote ∧
  closed (batch (present 3 first_id)) = true ∧ mode (demo 3) ≠ Off ∧ status (present 3 first_id) ≠ RolledBack ∧
  dependencies_match (demo 3) (present 3 first_id) = true ∧ blocks (demo 3) !! "a" = Some (present 3 first_id) ∧
  contract_matches (present 3 first_id) (learner_version p) (plan_contract p) (config_digest p) LEARNER_VERSION = true.
Proof.
  apply (adoption_needs_evidence clock0 _ (demo 3) (demo 4) "a" first_id (present 3 first_id) (present 4 first_id)).
  - apply demo_reachable. lia.
  - exact I.
  - apply exec_ok. vm_compute. reflexivity.
  - apply present_ok. vm_compute. reflexivity.
  - vm_compute. discriminate.
  - apply present_ok. vm_compute. reflexivity.
  - vm_compute. reflexivity.
Defined.
Lemma baselines_are_adopted_witness : ∃ a, lookup_experiment (demo 5) "a" first_id = Some a ∧
  baseline_ancestry a = take 0 (baseline_ancestry (present 5 second_id)) ∧
  (status a = Adopted ∨ status a = RolledBack ∧ status (present 5 second_id) = RolledBack).
Proof.
  apply (baselines_are_adopted (demo 5) "a" second_id (present 5 second_id) 0 first_id);
    [apply demo_reachable; lia|apply present_ok; vm_compute; reflexivity|vm_compute; reflexivity].
Defined.
Lemma original_experiment_terminates_witness : ∃ o, original_experiment (demo 5) "a" = Ok o ∧
  lookup_experiment (demo 5) "a" (experiment_id o) = Some o ∧ predecessor_experiment_id o = None.
Proof.
  apply (proj2 (original_experiment_terminates (demo 5) "a" (present 5 second_id) ltac:(vm_compute; reflexivity))).
  apply demo_reachable. lia.
Defined.
Lemma publications_are_a_history_witness :
  StronglySorted Z.lt (pub_generation <$> publications (demo 6)) ∧
  (∀ p, p ∈ publications (demo 6) → pub_generation p ≤ generation (demo 6) ≤ u64_max) ∧
  linked (history (demo 6) "a" second_id) ∧
  ∀ p, last (history (demo 6) "a" second_id) = Some p → pub_revision p = revision (present 6 second_id).
Proof.
  apply (publications_are_a_history (demo 6) "a" second_id);
    [apply demo_reachable; lia|apply present_ok; vm_compute; reflexivity].
Defined.
Lemma cohorts_are_bounded_witness :
  Z.of_nat (size (members (batch (present 3 first_id)))) ≤ batch_sessions (definition (present 3 first_id)) ∧
  challengers (batch (present 3 first_id)) ≤ maximum_pending_challenger (bandit (definition (present 3 first_id))) ∧
  challengers (batch (present 3 first_id)) ≤ assigned_challenger_sessions (present 3 first_id) ≤
    maximum_challenger_sessions (bandit (definition (present 3 first_id))) ∧
  (closed (batch (present 3 first_id)) = false →
    Z.of_nat (size (members (batch (present 3 first_id)))) < batch_sessions (definition (present 3 first_id)) ∧
    challengers (batch (present 3 first_id)) < maximum_pending_challenger (bandit (definition (present 3 first_id)))).
Proof.
  apply (cohorts_are_bounded (demo 3) "a" first_id);
    [apply demo_reachable; lia|apply present_ok; vm_compute; reflexivity].
Defined.

(** ** Requests *)

Definition demo_identity : SessionIdentity := {| owner := "o"; agent_source := "agent"; native_session_id := "n" |}.
Definition demo_context : DecisionContext := {| c_selector := "primary"; c_fingerprint := "f" |}.
(** A session that found the first experiment adopted, and is pinned to it. *)
Definition demo_enrollment : SessionEnrollment := {|
  identity := demo_identity; first_watermark := 0; first_request_id := "q"; context := demo_context;
  assignments := ∅; block_experiments := Some {["a" := first_id]}; adopted_blocks := {["a" := first_id]};
  monitoring := ∅; admission_reason := "new_session" |}.
Definition demo_input : Input := {|
  session_key := "k"; n_identity := demo_identity; n_request_id := "q2"; n_context := demo_context;
  n_dependencies := {| current := {["a" := "routes"]}; archived := {[first_id := "routes"]}; trial_ready := true;
                       expected_control_generation := None |};
  n_bypass := None; watermark := 0; enrollment := demo_enrollment; is_new := false |}.
Lemma demo_pins : pins_exist (demo 4) demo_enrollment.
Proof.
  intros id x Hx. apply lookup_singleton_Some in Hx as [<- <-]. exists (present 4 first_id).
  apply present_ok. vm_compute. reflexivity.
Qed.
Lemma established_session_is_served_witness : ∃ i,
  select (λ _, 0) clock0 demo_input (demo 6) = Ok (demo 6, demo_enrollment, i).
Proof.
  apply (established_session_is_served (λ _, 0) clock0 demo_input (demo 4) (demo 6));
    [apply demo_reachable; lia|apply demo_pins|apply (demo_path 4 2); lia|reflexivity].
Defined.
Definition demo_intent (n : nat) : RouteIntent :=
  match select (λ _, 0) clock0 demo_input (demo n) with
  | Ok (_, _, i) => i
  | Err _ => {| request_id := ""; i_identity := demo_identity; i_context := demo_context; selected_route := "";
      applied_block := None; i_reason := ""; bypass := None; i_mode_epoch := 0; i_generation := 0; i_assignments := ∅;
      i_monitoring := ∅; captured_watermark := 0; routing_dependencies := ∅; archived_routing_dependencies := ∅;
      i_trial_ready := false; i_recorded_at := "" |}
  end.
(** The adopted route is served, from the archive too, until its evidence is gone. *)
Example demo_routes : (selected_route (demo_intent 4), selected_route (demo_intent 5), selected_route (demo_intent 6)) =
  ("cheap", "cheap", "primary").
Proof. vm_compute. reflexivity. Qed.
Lemma route_is_authorised_witness :
  (applied_block (demo_intent 5) = None ∧ selected_route (demo_intent 5) = "primary") ∨
  ∃ id b rule base base_rule, n_bypass demo_input = None ∧ applied_block (demo_intent 5) = Some id ∧
    Decides (demo 5) demo_input demo_enrollment id b rule base base_rule ∧
    (∀ id' b' r', pinned (demo 5) demo_enrollment id' = Ok (Some b') →
       source (definition b') = agent_source (n_identity demo_input) →
       r' ∈ rules (definition b') → rule_matches (n_context demo_input) r' = true → id' = id) ∧
    (entitled (demo 5) demo_input demo_enrollment id b ∧ selected_route (demo_intent 5) = challenger_route rule ∨
     ¬ entitled (demo 5) demo_input demo_enrollment id b ∧ selected_route (demo_intent 5) = baseline_route base_rule).
Proof.
  apply (route_is_authorised (λ _, 0) clock0 demo_input (demo 5)); [apply demo_reachable; lia|vm_compute; reflexivity].
Defined.

(** ** Repeated calls *)

Definition demo_request : RestoreRequest := {|
  block := "a"; expected_experiment := second_id; expected_revision := revision (present 5 second_id); reason := "slow" |}.
Definition restored_demo : ControlState := ok_state (fst <$> restore clock0 demo_request (demo 5)).
Lemma restore_is_idempotent_witness : ∃ p st2, step restored_demo st2 ∧
  restore (λ _, "later") demo_request st2 = Ok (st2, p).
Proof.
  destruct (restore clock0 demo_request (demo 5)) as [[st1 p]|] eqn:Hr; [|vm_compute in Hr; discriminate Hr].
  exists p, (ok_state (exec clock0 (SetMode Off None) restored_demo)).
  assert (step restored_demo (ok_state (exec clock0 (SetMode Off None) restored_demo))) as Hs
    by (apply step_ok; vm_compute; reflexivity).
  split; [exact Hs|]. apply (restore_is_idempotent clock0 _ _ (demo 5) restored_demo); [apply demo_reachable; lia| |by apply rtc_once].
  unfold restored_demo. by rewrite Hr.
Defined.
Lemma registration_is_idempotent_witness :
  register_checked (demo_block "primary" "cheap") "routes" (Some (0, 0)) (Err "not called") (demo 6) = Ok (demo 6).
Proof.
  apply (proj1 (registration_is_idempotent clock0 clock0 (demo_block "primary" "cheap") "routes" "" false (demo 1)
    (demo 2) (demo 6) (generation (demo 1), mode_epoch (demo 1)) (0, 0) (Ok tt) (Err "not called")
    (demo_reachable 1 ltac:(lia)) (demo_path 2 4 ltac:(lia)))).
  - split; [vm_compute; discriminate|]. apply (bool_decide_eq_true_1 _). vm_compute. reflexivity.
  - vm_compute. reflexivity.
Defined.
