(* ===== verification/MeteringWitnesses.v ===== *)
(** The theorems on metering at concrete requests: a configured price with a context tier, a price of the
    registry, and the usage objects of two providers. *)
From Stdlib Require Import ZArith Lia Ascii SpecFloat QArith.
From stdpp Require Import base list strings gmap pretty sorting.
From S2P Require Import Prelude RegistryValue RegistryPricing RegistryWitnesses RoutingState SemanticAssessment MeteringUsage.
From S2P Require Import MeteringPricing MeteringStream MeteringTariff MeteringKnown.
Open Scope string_scope.
Open Scope list_scope.
Open Scope Z_scope.

#[export] Instance plain_sha : Sha256 := λ s, s.
#[export] Instance plain_env : TariffEnv := {|
  parse_base s := if bool_decide (s = "https://models.test/v1") then Some {|
    url_scheme := "https"; url_port := None; url_path := "/v1"; url_query := None; url_host := Some "models.test";
    url_text := s |} else None;
  debug_str s := s; debug_value _ := "" |}.

(** ** Usage *)

Definition used (prompt completion reasoning read write : Z) (raw : option Value) : Usage := {|
  prompt_tokens := prompt; completion_tokens := completion; reasoning_tokens := reasoning; cache_read_tokens := read;
  cache_write_tokens := write; web_search_count := 0; origin := ProviderReported; raw := raw |}.
Definition number (n : Z) : Value := VNumber (pretty n).
Definition messages_raw : Value := VObject [
  ("message_start", VObject [("input_tokens", number 5); ("cache_read_input_tokens", number 3); ("output_tokens", number 1)]);
  ("message_delta", VObject [("output_tokens", number 7)])].
Definition messages_paths : UsagePaths := {|
  input_path := ["input_tokens"]; output_path := ["output_tokens"]; read_path := ["cache_read_input_tokens"];
  write_path := Some ["cache_creation_input_tokens"]; reasoning_path := None |}.
Lemma used_ok p c s r w raw : (0 <=? p) && (p <=? u64_max) && ((0 <=? c) && (c <=? u64_max)) && ((0 <=? s) && (s <=? u64_max)) &&
  ((0 <=? r) && (r <=? u64_max)) && ((0 <=? w) && (w <=? u64_max)) = true → usage_ok (used p c s r w raw).
Proof. intros Hok. split; unfold in_u64; cbn; lia. Qed.
Lemma verified_usage_iff_witness :
  validated_provider_usage Messages (used 8 7 0 3 0 (Some messages_raw)) = Ok {|
    uncached_input_tokens := 5; n_cache_read_tokens := 3; n_cache_write_tokens := 0; output_tokens := 7;
    n_reasoning_tokens := 0 |}.
Proof.
  apply (verified_usage_iff Messages (used 8 7 0 3 0 (Some messages_raw))); [by apply used_ok|].
  split; [reflexivity|]. split; [cbn; lia|]. exists messages_raw, messages_paths, 5. split_and!; try reflexivity.
  - left. exists (number 3). split; vm_compute; reflexivity.
  - right. split; vm_compute; reflexivity.
  - right. split; vm_compute; reflexivity.
  - exists (number 5). split; vm_compute; reflexivity.
  - exists (number 7). split; vm_compute; reflexivity.
Defined.

(** ** Configured prices *)

Definition demo_tier : ContextTier := {|
  above_input_tokens := 1000; t_input := Some (f64_of 4); t_cache_read := None; t_cache_write := None;
  t_output := Some (f64_of 20) |}.
Definition demo_pricing : ModelPricing := {|
  endpoint_profile_of := None; p_input := Some (f64_of 2); p_cache_read := Some (f64_of 1);
  p_cache_write := Some (f64_of 3); p_output := Some (f64_of 10); context_tiers := [demo_tier] |}.
Lemma charge_computed_iff_witness :
  charge_micro_usd (calculate_charge_evidence (used 100 30 10 40 20 None) demo_pricing Configured) = Some 480 ∧
  status (calculate_charge_evidence (used 100 30 10 40 20 None) demo_pricing Configured) = Computed.
Proof.
  split; [vm_compute; reflexivity|].
  pose proof (charge_computed_iff (used 100 30 10 40 20 None) demo_pricing Configured (used_ok 100 30 10 40 20 None eq_refl)) as Hc.
  assert (charge_micro_usd (calculate_charge_evidence (used 100 30 10 40 20 None) demo_pricing Configured) = Some 480) as Heq
    by (vm_compute; reflexivity).
  cbn zeta in Hc. rewrite Heq in Hc. apply Hc.
Defined.
Lemma stream_rates_agree_witness :
  bracket_for (stream_pricing demo_pricing) 1001 = stream_bracket (resolve_for_input_tokens demo_pricing 1001) ∧
  b_input (bracket_for (stream_pricing demo_pricing) 1001) = Some (f64_of 4) ∧
  b_cache_read (bracket_for (stream_pricing demo_pricing) 1001) = Some (f64_of 1).
Proof.
  split; [apply (stream_rates_agree demo_pricing 1001); vm_compute; congruence|]. split; vm_compute; reflexivity.
Defined.
Definition two_snapshots : list StreamPart :=
  [UsagePart (used 100 30 0 0 0 None); TextDelta "hello"; UsagePart (used 90 20 0 0 0 None)].
Lemma costliest_snapshot_wins_witness :
  finalized (stream_run (Some (stream_pricing demo_pricing)) 10 two_snapshots) = Some (used 100 30 0 0 0 None) ∧
  finalized (stream_run None 10 two_snapshots) = Some (used 90 20 0 0 0 None) ∧
  estimated_output_tokens (stream_run None 10 two_snapshots) = 2.
Proof.
  split_and!.
  - vm_compute. reflexivity.
  - apply (costliest_snapshot_wins None 10 two_snapshots). by left.
  - destruct (costliest_snapshot_wins None 10 two_snapshots) as (_ & _ & _ & _ & ->). vm_compute. reflexivity.
Defined.

(** ** Admission *)

Definition demo_target : RoutingTarget := {|
  registry := None; provider_name := "acme"; service_id := "large"; api_base := "https://models.test/v1";
  api_protocol := ChatCompletions; api_base_override := None |}.
Definition demo_table : PricingTable := {|
  entries := {[("acme", "large") := {| generation := Some demo_pricing; by_protocol := ∅ |}]};
  endpoint_profiles := {[("acme", None) := "configured:sha256:https://models.test/v1"]} |}.
Definition demo_hook : CaptureTariffs := {| capture_pricing := demo_table; capture_require_known := true |}.
Definition demo_context : PipelineContext := {| generation_params := None; events := [] |}.
Definition admitted_context : PipelineContext :=
  match after_resolve demo_hook [demo_target] demo_context with Ok ctx => ctx | Err _ => demo_context end.
Definition demo_settlement : SettlementContext := {|
  settled_target := Some demo_target; settled_operation := Generation; settled_provider := "acme";
  settled_model := "large"; settled_usage := used 100 30 10 40 20 None; settled_events := events admitted_context |}.
Lemma admitted_price_is_charged_witness :
  ∃ f, settlement_charge_evidence demo_settlement = logical_scope (charge_evidence f (settled_usage demo_settlement) Configured) ∧
    f = tariff (captured demo_hook demo_context demo_target) ∧ status (settlement_charge_evidence demo_settlement) = Computed ∧
    charge_micro_usd (settlement_charge_evidence demo_settlement) = Some 480.
Proof.
  destruct (admitted_price_is_charged demo_hook [demo_target] demo_context admitted_context demo_target demo_settlement)
    as (t' & f & Ht' & _ & Hf & Heq & Hst).
  - vm_compute. reflexivity.
  - by apply list_elem_of_singleton.
  - reflexivity.
  - split_and!; [reflexivity..|]. split; [reflexivity|]. intros [[? [=]]|Hr]. vm_compute in Hr. discriminate.
  - apply list_elem_of_singleton in Ht'. subst t'. exists f. split_and!; [done|done| |vm_compute; reflexivity].
    apply Hst; [done|by apply used_ok|]. subst f. eexists. split; [vm_compute; reflexivity|]. split; [done|].
    intros p groups Hp Hg. injection Hp as <-. vm_compute in Hg. injection Hg as <-. vm_compute. reflexivity.
Defined.

(** ** Prices of the registry *)

Definition demo_price : Value := VObject [
  ("kind", VString "token"); ("currency", VString "USD");
  ("input_tokens", VObject [("no_cache", VNumber "0.15"); ("cache_read", VNumber "0.075"); ("cache_write", VNumber "0.3")]);
  ("output_tokens", VObject [("text", VNumber "0.6"); ("reasoning", VNumber "0.6")])].
Definition registry_tariff : FrozenTariff := {|
  registry_price := Some demo_price; protocol := Responses; endpoint_profile_name := "configured:x"; tariff_profile := None;
  pricing := None; tariff_version := "v"; billing_basis := "registry-exact-disjoint-usage-v1"; unavailable_reason := None |}.
Lemma registry_charge_is_nearest_witness :
  ∃ n amount x, normalized_buckets (used 11 3 0 0 0 None) = Ok n ∧
    charge demo_price (token_usage n) ∅ None ReaderPolicy_default = Ok amount ∧
    exact_registry_charge (charge_evidence registry_tariff (used 11 3 0 0 0 None) Configured) = Some x ∧
    (inject_Z 3 - (1 # 2) <= amount * inject_Z 1000000)%Q.
Proof.
  destruct (registry_charge_is_nearest registry_tariff demo_price (used 11 3 0 0 0 None) Configured 3)
    as (n & amount & x & Hn & _ & Hc & Hlo & _ & _ & _ & Hx & _).
  - reflexivity.
  - by apply used_ok.
  - vm_compute. reflexivity.
  - by exists n, amount, x.
Defined.

(** ** What is covered, and what is not *)

(** Prices that count as known for every usage, at which a usage is not charged: one of the registry for estimated
    usage, and a configured one whose products overflow. *)
Definition estimated (u : Usage) : Usage := {|
  prompt_tokens := prompt_tokens u; completion_tokens := completion_tokens u; reasoning_tokens := reasoning_tokens u;
  cache_read_tokens := cache_read_tokens u; cache_write_tokens := cache_write_tokens u;
  web_search_count := web_search_count u; origin := Estimated; raw := None |}.
Definition huge_tariff : FrozenTariff := {|
  registry_price := None; protocol := Responses; endpoint_profile_name := "configured:x"; tariff_profile := None;
  pricing := Some (let huge := Some (f64_of (2 ^ 1023)) in cache_aware huge huge huge huge); tariff_version := "v";
  billing_basis := "normalized-disjoint-usage-v1"; unavailable_reason := None |}.
Lemma guaranteed_price_unknown :
  guarantees_known_price registry_tariff = true ∧ guarantees_known_price huge_tariff = true ∧
  status (charge_evidence registry_tariff (estimated (used 11 3 0 0 0 None)) Configured) = UnknownCharge ∧
  unknown_reason (charge_evidence huge_tariff (used 11 3 0 0 0 None) Configured) = Some "invalid_charge_total".
Proof. split_and!; vm_compute; reflexivity. Qed.
