(* ===== verification/ContinuationWitnesses.v ===== *)
(** Runs of the registry of continuations: an execution of one call after the other, with the choices of the
    environment given, and the inputs at which the theorems of [ContinuationProtocol] hold. One of the runs shows a
    renewal whose answer is lost: the continuation stays visible although it was never finalized. *)
From Stdlib Require Import ZArith Lia Ascii.
From stdpp Require Import base list strings gmap pretty relations.
From S2P Require Import Prelude EvalMeasurement MeteringUsage ContinuationPayload ContinuationStore.
From S2P Require Import ContinuationSystem ContinuationProtocol.
Open Scope string_scope.
Open Scope list_scope.
Open Scope Z_scope.

(** ** Execution *)

(** [n] actions of a call of process [r], the [i]-th with the [i]-th choice. *)
Fixpoint advance (n : nat) (r : nat) (choices : nat → Choice) (p : prog Outcome) (held : list string) (w : World) :
    option (prog Outcome * list string * World) :=
  match n with
  | O => Some (p, held, w)
  | S n =>
      match p with
      | Ret _ => None
      | Act a k =>
          match exec (choices 0%nat) r a w with
          | Some (x, w') => advance n r (λ i, choices (S i)) (k x) (holds a held) w'
          | None => None
          end
      end
  end.
(** The actions that a call takes to its end. *)
Fixpoint run (r : nat) (choices : nat → Choice) (p : prog Outcome) (w : World) : option (Outcome * World) :=
  match p with
  | Ret o => Some (o, w)
  | Act a k =>
      match exec (choices 0%nat) r a w with
      | Some (x, w') => run r (λ i, choices (S i)) (k x) w'
      | None => None
      end
  end.

Section runs.
Context `{ContinuationEnv} (key : ContinuationKey).

Definition calling (r : nat) (c : Call) (p : prog Outcome) (held : list string) (w : World) : System :=
  {| world := w; threads := {[0%nat := {| process := r; call := c; program := p; held := held |}]} |}.
Definition idle (w : World) : System := {| world := w; threads := ∅ |}.
Lemma acts r c {T} (a : action T) k held w choice x w' : exec choice r a w = Some (x, w') →
  Step key (calling r c (Act a k) held w) (calling r c (k x) (holds a held) w').
Proof.
  intros He. unfold calling.
  pose proof (step_act key w {[0%nat := {| process := r; call := c; program := Act a k; held := held |}]} 0%nat r c held
    a k choice x w') as Hst. rewrite insert_singleton in Hst. by apply Hst; [apply lookup_singleton_eq|].
Qed.
Lemma advance_one r c choices p held w p' held' w' : advance 1 r choices p held w = Some (p', held', w') →
  Step key (calling r c p held w) (calling r c p' held' w').
Proof.
  cbn. destruct p as [|T a k]; [done|]. destruct (exec _ _ _ _) as [[x w1]|] eqn:He; [|done]. intros [= <- <- <-].
  by eapply acts.
Qed.
Lemma advance_steps n r c : ∀ choices p held w p' held' w',
  advance n r choices p held w = Some (p', held', w') → rtc (Step key) (calling r c p held w) (calling r c p' held' w').
Proof.
  induction n as [|n IH]; intros choices p held w p' held' w'; cbn; [by intros [= -> -> ->]|].
  destruct p as [|T a k]; [done|]. destruct (exec _ _ _ _) as [[x w1]|] eqn:He; [|done]. intros Ha%IH.
  eapply rtc_l; [by eapply acts|exact Ha].
Qed.
Lemma advance_snoc n r : ∀ choices p held w p1 held1 w1 p2 held2 w2,
  advance n r choices p held w = Some (p1, held1, w1) → advance (S n) r choices p held w = Some (p2, held2, w2) →
  advance 1 r (λ i, choices (n + i)%nat) p1 held1 w1 = Some (p2, held2, w2).
Proof.
  induction n as [|n IH]; intros choices p held w p1 held1 w1 p2 held2 w2; [by intros [= -> -> ->]|].
  cbn [advance]. destruct p as [|T a k]; [done|]. destruct (exec (choices 0%nat) r a w) as [[x w']|]; [|done].
  apply IH.
Qed.
Lemma execution_steps r c choices p held w o w' :
  run r choices p w = Some (o, w') → ∃ held', rtc (Step key) (calling r c p held w) (calling r c (Ret o) held' w').
Proof.
  revert choices held w. induction p as [o'|T a k IH]; intros choices held w; cbn.
  - intros [= -> ->]. by exists held.
  - destruct (exec _ _ _ _) as [[x w1]|] eqn:He; [|done]. intros Hr. apply (IH _ _ (holds a held)) in Hr as [held' Hr].
    exists held'. eapply rtc_l; [by eapply acts|exact Hr].
Qed.
Lemma call_begins w r c : is_Some (registries w !! r) →
  Step key (idle w) (calling r c (program_of c) [] (note (Called r c) w)).
Proof. intros Hr. apply (step_call key w ∅ 0%nat r c); [by rewrite lookup_empty|done]. Qed.

(** One whole call, or nothing if it cannot be run. *)
Definition after_call (r : nat) (c : Call) (choices : nat → Choice) (w : World) : World :=
  match registries w !! r, run r choices (program_of c) (note (Called r c) w) with
  | Some _, Some (o, w') => note (Returned r c o) w'
  | _, _ => w
  end.
Lemma after_call_steps r c choices w : rtc (Step key) (idle w) (idle (after_call r c choices w)).
Proof.
  unfold after_call. destruct (registries w !! r) eqn:Hr; [|done].
  destruct (run _ _ _ _) as [[o w']|] eqn:Hrun; [|done]. eapply rtc_l; [by apply call_begins|].
  destruct (execution_steps r c choices _ [] _ _ _ Hrun) as [held' Hs]. eapply rtc_r; [exact Hs|].
  unfold calling, idle. pose proof (step_return key w' {[0%nat := {| process := r; call := c; program := Ret o; held := held' |}]}
    0%nat r c held' o) as Hst. rewrite delete_singleton_eq in Hst. by apply Hst, lookup_singleton_eq.
Qed.
End runs.

(** ** A toy environment

    The laws ask for little: the codes are identities, the seal is a prefix of the key, the nonce and the associated
    data, a payload is its response, a time is one character. *)
Definition demo_payload (response : string) : ContinuationPayload :=
  {| version := 4; provider_response_id := response; effective_model := Some "anthropic:claude"; effective_effort := None;
     assistant_turn_commitment := None; causal_prefix_commitment := None |}.
#[export] Instance demo_env : ContinuationEnv := {|
  hmac_sha256 secret text := secret +:+ text;
  hex_encode := id;
  base64_encode := id;
  base64_decode := Some;
  aes_seal secret nonce aad text := Some (secret +:+ nonce +:+ aad +:+ text);
  aes_open secret nonce aad sealed := strip_prefix (secret +:+ nonce +:+ aad) sealed;
  payload_to_vec p := if bool_decide (p = demo_payload (provider_response_id p)) then Ok (provider_response_id p) else Err "shape";
  payload_from_slice s := Some (demo_payload s);
  to_rfc3339_micros t := String (ascii_of_N (Z.to_N (33 + t / second))) "";
  parse_from_rfc3339 s := match s with String a "" => Some ((Z.of_N (N_of_ascii a) - 33) * second) | _ => None end;
  min_utc := 0;
  max_utc := 200 * second;
|}.
Lemma text_app_assoc (a b c : string) : (a +:+ b) +:+ c = a +:+ (b +:+ c).
Proof. induction a as [|x a IH]; cbn; [done|]. by rewrite IH. Qed.
#[export] Instance demo_laws : ContinuationLaws.
Proof.
  split.
  - done.
  - intros k n aad p c [= <-]. cbn. apply strip_prefix_Some. by rewrite !text_app_assoc.
  - intros p s. cbn. case_bool_decide as Hp; [|done]. intros [= <-]. by rewrite <-Hp.
Qed.

(** ** Runs *)

Definition demo_key : ContinuationKey := from_bytes "secret".
Definition demo_registry : Registry :=
  {| keys := Ok demo_key; retention := 60 * second; prune_batch_size := 10; registry_instance := "instance";
     pending_capacity := 2; pending_publications := ∅; pending_cursor := None; stale_offset := 0 |}.
Definition demo_handshake : Handshake :=
  {| ready := true; acknowledged := true; activation_completed := true; terminal_committed := true |}.
Definition empty_world : World :=
  {| rows := ∅; epoch := None; registries := ∅; locks := ∅; handshakes := ∅; history := [] |}.
Definition demo_world : World := with_handshake 5 demo_handshake (with_registry 0 demo_registry empty_world).
(** Everything works at the instant [t], but for the choices named by their index. *)
Definition choose (t : DateTime) (others : list (nat * (Choice → Choice))) (i : nat) : Choice :=
  foldr (λ o c, if bool_decide (o.1 = i) then o.2 c else c)
    {| fate := Done; instant := t; drawn := Some "nonce-000000"; response := true; reply := Some Delivered |} others.
Definition draws (text : string) (c : Choice) : Choice :=
  {| fate := fate c; instant := instant c; drawn := Some text; response := response c; reply := reply c |}.
Definition goes (f : Fate) (c : Choice) : Choice :=
  {| fate := f; instant := instant c; drawn := drawn c; response := response c; reply := reply c |}.
Definition refuses (c : Choice) : Choice :=
  {| fate := fate c; instant := instant c; drawn := drawn c; response := false; reply := reply c |}.

Definition demo_target : Target :=
  {| provider_name := "anthropic"; service_id := "claude"; api_base := "https://api.anthropic.com";
     api_protocol := Messages; account_label := None; api_base_override := None |}.
Definition demo_binding : ContinuationBinding :=
  {| b_response_id := "resp_1"; b_effective_model := "anthropic:claude"; b_effective_effort := None;
     b_causal_prefix := None; b_target := demo_target;
     b_authority := {| proof_bytes := "proof"; effective_scheme := Bearer |} |}.
Definition demo_bind : Call :=
  CallBindPending "owner" "request" demo_binding {| attempt_now := 0; delivery_attempt_id := 1; attempt_receipt := None |}.
Definition generation_drawn : list (nat * (Choice → Choice)) := [(1%nat, draws "generation-00001")].
Definition bound_world : World := after_call 0 demo_bind (choose 0 generation_drawn) demo_world.
Definition active_world : World := after_call 0 (CallActivate 1 None 5) (choose second []) bound_world.
Definition resolved_world : World :=
  after_call 0 (CallResolve 3 "owner" "request" (2 * second)) (choose (2 * second) []) active_world.

Lemma demo_registry_new : Registry_new demo_key demo_registry.
Proof. split; [done|]. split; [done|]. by intros k [= <-]. Qed.
Lemma start_reachable : reachable demo_key (idle demo_world).
Proof.
  exists (idle empty_world). split; [by split|]. eapply rtc_l.
  - apply (step_open demo_key empty_world ∅ 0 demo_registry); [done|apply demo_registry_new].
  - apply rtc_once. by apply (step_handshake demo_key (with_registry 0 demo_registry empty_world) ∅ 5 demo_handshake).
Qed.
Lemma reachable_after r c choices w : reachable demo_key (idle w) → reachable demo_key (idle (after_call r c choices w)).
Proof. intros (S0 & Hi & Hs). exists S0. split; [done|]. etrans; [exact Hs|apply after_call_steps]. Qed.

(** The insertion of the provisional row is the fourteenth action of the binding. *)
Definition inserting_at (n : nat) : System :=
  match advance n 0 (choose 0 generation_drawn) (program_of demo_bind) [] (note (Called 0 demo_bind) demo_world) with
  | Some (p, held, w) => calling 0 demo_bind p held w
  | None => idle demo_world
  end.
Lemma inserting_reachable n : reachable demo_key (inserting_at n).
Proof.
  unfold inserting_at. destruct (advance _ _ _ _ _ _) as [[[p held] w]|] eqn:Ha; [|apply start_reachable].
  destruct start_reachable as (S0 & Hi & Hs). exists S0. split; [done|]. etrans; [exact Hs|].
  eapply rtc_l; [by apply (call_begins demo_key demo_world 0 demo_bind)|by eapply advance_steps].
Qed.
Lemma inserting_step n : is_Some (advance (S n) 0 (choose 0 generation_drawn) (program_of demo_bind) []
    (note (Called 0 demo_bind) demo_world)) → is_Some (advance n 0 (choose 0 generation_drawn) (program_of demo_bind) []
    (note (Called 0 demo_bind) demo_world)) → Step demo_key (inserting_at n) (inserting_at (S n)).
Proof.
  intros [[[p2 held2] w2] H2] [[[p1 held1] w1] H1]. unfold inserting_at. rewrite H2, H1.
  eapply advance_one, advance_snoc; [exact H1|exact H2].
Qed.

Definition demo_identity : string := continuation_identity_of demo_key "owner" "request".
Lemma store_refines_protocol_witness :
  ∃ r, publish demo_key (history (world (inserting_at 13))) r (rows (world (inserting_at 13)) !! demo_identity)
         (rows (world (inserting_at 14)) !! demo_identity).
Proof.
  destruct (store_refines_protocol demo_key (inserting_at 13) (inserting_at 14) demo_identity) as [Hsame|[_ H]].
  - apply inserting_reachable.
  - apply inserting_step; eexists; vm_compute; reflexivity.
  - exfalso. vm_compute in Hsame. discriminate Hsame.
  - exact H.
Defined.

Definition demo_resolved : ResolvedContinuation :=
  {| r_response_id := "resp_1"; r_effective_model := Some "anthropic:claude"; r_effective_effort := None;
     effort_authoritative := true; r_causal_prefix := None;
     r_target_fingerprint := target_fingerprint_of demo_key demo_target (b_authority demo_binding); r_key := demo_key |}.
Lemma resolved_reachable : reachable demo_key (idle resolved_world).
Proof. do 3 apply reachable_after. apply start_reachable. Qed.
Lemma resolved_was_delivered_witness :
  served demo_key (history resolved_world) "owner" "request" demo_resolved.
Proof.
  apply (resolved_was_delivered demo_key (idle resolved_world) 0 3 "owner" "request" (2 * second)).
  - apply resolved_reachable.
  - apply list_elem_of_lookup_2 with 25%nat. vm_compute. reflexivity.
Defined.
Lemma active_was_acknowledged_witness :
  delivered (history resolved_world) "generation-00001" ∨ ∃ r first owner request response target authority now,
    Wrote r None (Some first) ∈ history resolved_world ∧ publication_generation first = "generation-00001" ∧
    Called r (CallBind owner request response target authority now) ∈ history resolved_world.
Proof.
  destruct (rows resolved_world !! demo_identity) as [row|] eqn:Hrow; [|vm_compute in Hrow; discriminate].
  pose proof (active_was_acknowledged demo_key (idle resolved_world) demo_identity row resolved_reachable Hrow) as H.
  vm_compute in Hrow. injection Hrow as <-. apply H; reflexivity.
Defined.

(** ** A renewal whose answer is lost

    The delivery of a continuation is acknowledged and its row is active, but the terminal commit fails, and the
    rollback has to renew the lease first. The renewal takes effect and its answer is lost: the rollback fails and
    keeps the marker, with the lease from before. By that lease the row is a stranger's, so that the reconciliation
    gives the marker up without taking the row back, and the continuation resolves although it was never finalized. *)
Definition at_instant (t : DateTime) (c : Choice) : Choice :=
  {| fate := fate c; instant := t; drawn := drawn c; response := response c; reply := reply c |}.
Definition answer_lost : list (nat * (Choice → Choice)) :=
  [(24%nat, refuses); (28%nat, at_instant (20 * second)); (32%nat, goes (FailAfter "connection lost"))].
Definition kept_world : World := after_call 0 (CallActivate 1 None 5) (choose second answer_lost) bound_world.
Definition given_up_world : World := after_call 0 (CallReconcile (21 * second)) (choose (21 * second) []) kept_world.
Definition exposed_world : World :=
  after_call 0 (CallResolve 3 "owner" "request" (22 * second)) (choose (22 * second) []) given_up_world.
Lemma exposed_reachable : reachable demo_key (idle exposed_world).
Proof. do 4 apply reachable_after. apply start_reachable. Qed.
Lemma lost_renewal_is_not_taken_back :
  last (history kept_world) = Some (Returned 0 (CallActivate 1 None 5) (Flag (Err "connection lost"))) ∧
  last (history given_up_world) = Some (Returned 0 (CallReconcile (21 * second)) (Pass false)) ∧
  (markers <$> registries given_up_world !! 0%nat) = Some [] ∧
  last (history exposed_world) = Some (Returned 0 (CallResolve 3 "owner" "request" (22 * second))
    (Resolution (Ok (Some (Active demo_resolved))))).
Proof. split_and!; vm_compute; reflexivity. Qed.
