(* ===== verification/RoutingWitnesses.v ===== *)
(** Concrete runs of the routing scheduler at which the theorems of [RoutingRate],
    [RoutingState] and [RoutingSystem] apply: their hypotheses hold together. *)
From stdpp Require Import base list strings gmap pretty sorting.
From Stdlib Require Import ZArith Lia Ascii.
From S2P Require Import Prelude RoutingRate RoutingState RoutingSystem.
Open Scope string_scope.
Open Scope Z_scope.

(** An allocator that reserves exactly what it is asked for. *)
Definition text_bytes (l : list string) : option Z := Some (sum_by len l).
#[local] Instance exact : Allocation := {|
  size_runtime := 256; size_admission := 200; size_sample := 48; size_bucket := 16;
  size_target := 300; size_provider := 200;
  key_capacity k := text_bytes [namespace k; provider k; model k; endpoint k];
  key_copy_capacity k := text_bytes [namespace k; provider k; model k; endpoint k];
  provider_capacity p := text_bytes [p_namespace p; p_provider p; p_endpoint p; p_pattern p];
  provider_copy_capacity p := text_bytes [p_namespace p; p_provider p; p_endpoint p; p_pattern p];
  reserve_targets n := if 0 <=? n then Some n else None;
  reserve_providers n := if 0 <=? n then Some n else None;
  allocate_rate := Some 64; allocate_samples := Some 32; instant_max := u64_max |}.
Lemma text_bytes_nonneg l b : text_bytes l = Some b → 0 ≤ b.
Proof. intros [= <-]. apply sum_by_nonneg. intros x _. apply len_nonneg. Qed.
#[local] Instance exact_laws : AllocationLaws.
Proof.
  split; cbn -[text_bytes]; try (intros ? ?; apply text_bytes_nonneg); try (intros n c; destruct (Z.leb_spec 0 n); naive_solver).
  lia.
Qed.

Definition demo_key : Key :=
  {| namespace := "ns"; provider := "openai"; model := "gpt"; account := None; endpoint := "e" |}.
Definition demo_policy (k : Key) : Limits := {| l_provider := Some ("gpt*", 3); l_model := Some 2 |}.
Definition demo_runtime : Runtime := {| max_entries := 8; max_bytes := 100000; max_in_flight := 4 |}.
Lemma demo_configured : configured 8 100000 4 = Ok demo_runtime.
Proof. vm_compute. reflexivity. Qed.

Definition admitted (now : Z) (st : State) : State * result Refusal Admission :=
  admit_at demo_runtime st demo_key (demo_policy demo_key) now.
Definition no_guard : Admission := {|
  a_key := demo_key; a_provider := None; a_bytes := 0; a_id := 0; a_generation := 0; a_sent := None;
  a_finished := true |}.
Definition demo_guard : Admission := match (admitted 1 State_default).2 with Ok a => a | Err _ => no_guard end.
(** One admission, then its send. *)
Definition demo_admitted : System := {|
  sys := (admitted 1 State_default).1; out := [(demo_guard, 1)]; log := []; clock := 1 |}.
Definition demo_sent : System := {|
  sys := (sent_at (sys demo_admitted) demo_guard 2).1.1; out := [(with_sent demo_guard 2, 1)];
  log := [(demo_guard, 2)]; clock := 2 |}.

Lemma demo_admitted_step : sys_step demo_runtime demo_policy System_init demo_admitted.
Proof.
  assert ((admitted 1 State_default).2 = Ok demo_guard) as Hr by (vm_compute; reflexivity).
  pose proof (do_admit demo_runtime demo_policy System_init demo_key 1 (admitted 1 State_default).1 (Ok demo_guard)) as Hs.
  apply Hs; [lia|]. change (sys System_init) with State_default. rewrite <-Hr. apply surjective_pairing.
Qed.
Lemma demo_sent_step : sys_step demo_runtime demo_policy demo_admitted demo_sent.
Proof.
  apply (do_send demo_runtime demo_policy demo_admitted demo_guard 1 [] 2
    (sent_at (sys demo_admitted) demo_guard 2).1.1 (with_sent demo_guard 2) (Ok tt)); [done|lia|].
  vm_compute. reflexivity.
Qed.
Lemma demo_admitted_reachable : sys_reachable demo_runtime demo_policy demo_admitted.
Proof. apply rtc_once, demo_admitted_step. Qed.
Lemma demo_sent_reachable : sys_reachable demo_runtime demo_policy demo_sent.
Proof. eapply rtc_l; [apply demo_admitted_step|apply rtc_once, demo_sent_step]. Qed.
Lemma demo_target_limit : slot_limit demo_policy (Target demo_key) 2.
Proof. reflexivity. Qed.

Lemma no_window_exceeds_limit_witness :
  sys_reachable demo_runtime demo_policy demo_sent ∧ length (log demo_sent) = 1%nat ∧
  countb (in_window 0) (List.filter (owns (Target demo_key)) (log demo_sent)).*2 +
  countb (λ born, born <=? 0 + WINDOW)
    (List.filter (λ g, owns (Target demo_key) g && unsent g) (out demo_sent)).*2 ≤ 2.
Proof.
  split; [exact demo_sent_reachable|]. split; [reflexivity|].
  apply (no_window_exceeds_limit demo_runtime demo_policy 8 100000 4 demo_configured (Target demo_key) 2 demo_sent 0
    demo_target_limit); [by vm_compute|exact demo_sent_reachable].
Defined.
Lemma accounting_is_exact_witness :
  sys_reachable demo_runtime demo_policy demo_sent ∧ state_active (sys demo_sent) = 1 ∧
  state_active (sys demo_sent) = countb live (out demo_sent).
Proof.
  split; [exact demo_sent_reachable|]. split; [by vm_compute|].
  apply (accounting_is_exact demo_runtime demo_policy 8 100000 4 demo_configured demo_sent demo_sent_reachable).
Defined.
Lemma live_guard_can_send_witness :
  a_finished demo_guard = false ∧ ∃ st, sent_at (sys demo_admitted) demo_guard 2 = (st, with_sent demo_guard 2, Ok tt).
Proof.
  split; [by vm_compute|].
  apply (live_guard_can_send demo_runtime demo_policy 8 100000 4 demo_configured demo_admitted demo_guard 1 2
    demo_admitted_reachable); [left|by vm_compute|by vm_compute].
Defined.

(** An attempt that ends in [Unavailable]: admission, send, completion and drop at one instant. *)
Definition attempt_guard (S : System) (now : Z) : Admission :=
  match (admitted now (sys S)).2 with Ok a => a | Err _ => no_guard end.
Definition attempt (S : System) (now : Z) : System :=
  let a := attempt_guard S now in
  let st2 := (sent_at (admitted now (sys S)).1 a now).1.1 in
  let f := finish_at st2 (with_sent a now) OutcomeUnavailable now in
  {| sys := drop f.1 f.2 now; out := []; log := (a, now) :: log S; clock := now |}.
Lemma attempt_reachable S now :
  sys_reachable demo_runtime demo_policy S → 0 ≤ now → clock S ≤ now → out S = [] →
  is_ok (admitted now (sys S)).2 = true →
  sent_at (admitted now (sys S)).1 (attempt_guard S now) now =
    ((sent_at (admitted now (sys S)).1 (attempt_guard S now) now).1.1, with_sent (attempt_guard S now) now, Ok tt) →
  sys_reachable demo_runtime demo_policy (attempt S now).
Proof.
  unfold sys_reachable. intros Hr Hn Hc Ho Hok Hs. etrans; [exact Hr|].
  assert (Z.max (clock S) now = now) as Hmax by lia.
  eapply rtc_l.
  { apply (do_admit _ _ S demo_key now (admitted now (sys S)).1 (Ok (attempt_guard S now))); [done|].
    unfold attempt_guard. unfold admitted in *. destruct (admit_at _ _ _ _ _) as [st [a|e]]; [done|done]. }
  rewrite Ho, Hmax. eapply rtc_l.
  { eapply (do_send _ _ _ (attempt_guard S now) now [] now); [reflexivity|lia|exact Hs]. }
  eapply rtc_l.
  { eapply (do_finish _ _ _ (with_sent (attempt_guard S now) now) now [] OutcomeUnavailable now);
      [reflexivity|apply surjective_pairing]. }
  apply rtc_once. cbn [sys out log clock]. rewrite !Z.max_id. unfold attempt.
  match goal with |- sys_step _ _ ?T _ =>
    pose proof (do_drop demo_runtime demo_policy T
      (finish_at (sent_at (admitted now (sys S)).1 (attempt_guard S now) now).1.1
        (with_sent (attempt_guard S now) now) OutcomeUnavailable now).2 now [] now (reflexivity _)) as Hd
  end.
  cbn [sys out log clock] in Hd. by rewrite Z.max_id in Hd.
Qed.

(** Three failures open the circuit; after its deadline the next admission is the probe. *)
Definition demo_open : System := attempt (attempt (attempt System_init (100 * NANOS)) (200 * NANOS)) (300 * NANOS).
Lemma demo_open_reachable : sys_reachable demo_runtime demo_policy demo_open.
Proof.
  unfold demo_open. repeat (apply attempt_reachable; [|by vm_compute|by vm_compute|done|vm_compute; reflexivity..]).
  constructor.
Qed.
Lemma admitted_ok now st a :
  (admitted now st).2 = Ok a →
  admit_at demo_runtime st demo_key (demo_policy demo_key) now = ((admitted now st).1, Ok a).
Proof. unfold admitted. intros <-. apply surjective_pairing. Qed.
Lemma admitted_step S now a :
  0 ≤ now → clock S ≤ now → (admitted now (sys S)).2 = Ok a →
  sys_step demo_runtime demo_policy S {|
    sys := (admitted now (sys S)).1; out := (a, now) :: out S; log := log S; clock := now |}.
Proof.
  intros Hn Hc Ha%admitted_ok.
  pose proof (do_admit demo_runtime demo_policy S demo_key now _ _ Hn Ha) as Hs. by rewrite Z.max_r in Hs.
Qed.
Definition demo_probe_guard : Admission := attempt_guard demo_open (400 * NANOS).
Definition demo_probe : System := {|
  sys := (admitted (400 * NANOS) (sys demo_open)).1; out := (demo_probe_guard, 400 * NANOS) :: out demo_open;
  log := log demo_open; clock := 400 * NANOS |}.
Lemma demo_probe_guard_ok : (admitted (400 * NANOS) (sys demo_open)).2 = Ok demo_probe_guard.
Proof. vm_compute. reflexivity. Qed.
Lemma demo_probe_reachable : sys_reachable demo_runtime demo_policy demo_probe.
Proof.
  eapply rtc_r; [exact demo_open_reachable|].
  apply admitted_step; [by vm_compute|by vm_compute|exact demo_probe_guard_ok].
Qed.
Definition demo_entry : Entry := default (Entry_init 0) (targets (sys demo_probe) !! demo_key).
Lemma probe_has_one_owner_witness :
  probe demo_entry = Some 4 ∧ is_ok (admit_at demo_runtime (sys demo_probe) demo_key (demo_policy demo_key) (500 * NANOS)).2 = false.
Proof.
  split; [by vm_compute|].
  apply (probe_has_one_owner demo_runtime demo_policy 8 100000 4 demo_configured demo_probe demo_key demo_entry 4
    demo_probe_reachable); vm_compute; reflexivity.
Defined.
Lemma open_circuit_admits_the_probe_witness :
  open_until <$> targets (sys demo_open) !! demo_key = Some (Some (330 * NANOS)) ∧
  ∃ e, targets (admitted (400 * NANOS) (sys demo_open)).1 !! demo_key = Some e ∧
    a_id demo_probe_guard = next (admitted (400 * NANOS) (sys demo_open)).1 ∧
    half_open_for e (a_id demo_probe_guard) (400 * NANOS).
Proof.
  split; [by vm_compute|].
  exact (open_circuit_admits_the_probe demo_runtime demo_open demo_key (demo_policy demo_key) (400 * NANOS)
    (admitted (400 * NANOS) (sys demo_open)).1 demo_probe_guard (admitted_ok _ _ _ demo_probe_guard_ok)).
Defined.

(** ** The rate window alone, and the ordering *)

Definition window_admitted : Window := {|
  rate := Rate_reserve (Rate_expire (rate Window_init) (tick_of 5)); sends := []; guards := [5]; latest := 5 |}.
Definition window_sent : Window := {|
  rate := Rate_sent (rate window_admitted) (tick_of 7); sends := [7]; guards := []; latest := 7 |}.
Lemma window_sent_reachable : reachable 1 window_sent.
Proof.
  eapply rtc_l; [apply (step_admit 1 Window_init 5); done|].
  apply rtc_once. apply (step_send 1 window_admitted 5 [] 7); done.
Qed.
Lemma rolling_window_bound_witness :
  reachable 1 window_sent ∧
  countb (in_window 0) (sends window_sent) + countb (λ g, g <=? 0 + WINDOW) (guards window_sent) ≤ 1.
Proof.
  split; [exact window_sent_reachable|].
  apply (rolling_window_bound 1 ltac:(by vm_compute) window_sent 0 window_sent_reachable).
Defined.
Lemma reservations_bound_witness :
  reachable 1 window_sent ∧ pending (rate window_sent) = Z.of_nat (length (guards window_sent)).
Proof.
  split; [exact window_sent_reachable|].
  apply (reservations_bound 1 ltac:(by vm_compute) window_sent window_sent_reachable).
Defined.

Definition demo_candidates : list (Key * option Z) :=
  [(demo_key, None); (demo_key, Some 7); (demo_key, Some 3); (demo_key, Some 7)].
Lemma order_is_stable_witness :
  order_at State_default demo_candidates Cost 0 = Ok [2; 1; 3; 0]%nat ∧
  [2; 1; 3; 0]%nat ≡ₚ seq 0 (length demo_candidates).
Proof.
  split; [vm_compute; reflexivity|].
  apply (order_is_stable State_default demo_candidates Cost 0 [2; 1; 3; 0]%nat). vm_compute. reflexivity.
Defined.
