(* ===== verification/Witnesses.v ===== *)
(** Concrete instances of the theorems: for every property with hypotheses, inputs at which the
    hypotheses hold, with the parameters of the model (digests, JSON, timestamps, URLs)
    instantiated by concrete functions. *)
From stdpp Require Import base list strings gmap pretty sorting.
From Stdlib Require Import ZArith Lia Ascii.
From S2P Require Import Prelude RouteIr EvalMeasurement TrajectoryTypes ProgressGuard.
From S2P Require Import TrajectoryReducer GuardedRoute AccessPolicy UrlGuard SseDecoder.
Open Scope string_scope.
Open Scope Z_scope.

(** The value of a computation that succeeds. *)
Definition get_ok {E A} (r : result E A) : is_ok r = true → A :=
  match r with Ok a => λ _, a | Err _ => λ H, False_rect _ (diff_false_true H) end.
Lemma get_ok_eq {E A} (r : result E A) (H : is_ok r = true) : r = Ok (get_ok r H).
Proof. by destruct r. Qed.

(** ** Route projections *)

Definition demo_projection : RouteProjection :=
  {| RouteIr.schema_version := 2; state_kind := Edit; risk := Normal |}.
Lemma parse_key_roundtrip_witness :
  RouteProjection_parse_key (RouteProjection_key demo_projection) = Some demo_projection.
Proof. apply (parse_key_roundtrip demo_projection). vm_compute. reflexivity. Defined.
Lemma parse_key_inverse_witness :
  canonical demo_projection = true ∧ "agent_trace/v2|edit|normal" = RouteProjection_key demo_projection.
Proof. apply (parse_key_inverse "agent_trace/v2|edit|normal" demo_projection). vm_compute. reflexivity. Defined.

(** ** The environment of the ledger *)

Definition zeros : string := string_of (repeat "0"%char 64).
Definition demo_digest : string := "sha256:" +:+ zeros.
#[local] Instance demo_sha : Sha256 := λ _, zeros.
#[local] Instance demo_candidates_json : CanonicalJson (string * list CandidateKey) := λ _, Ok "".
#[local] Instance demo_env : TrajectoryEnv := {|
  env_sha256 := demo_sha; env_event_json := λ _, Ok ""; env_snapshot_json := λ _, Ok "";
  env_candidates_json := demo_candidates_json; parse_from_rfc3339 := λ _, Some 0 |}.
#[local] Instance demo_shape : Sha256Shape.
Proof. by intros s. Qed.
Lemma demo_json_total : SnapshotJsonTotal.
Proof. by intros s. Qed.

(** ** Measurements *)

Definition demo_candidate (t : string) (ppm : Z) : RouteActionCandidate := {|
  context := Preserve; tier := t; model := "m"; effort := None; logging_probability_ppm := ppm |}.
Definition demo_candidates : list RouteActionCandidate := [demo_candidate "cheap" 0; demo_candidate "strong" 1000000].
Definition demo_measurement : RouteDecisionMeasurement := {|
  EvalMeasurement.schema_version := 2; logging_action_tier := "strong"; logging_action_model := "m";
  logging_action_effort := None; logging_action_probability_ppm := 1000000;
  candidate_set_digest := demo_digest; candidates := demo_candidates |}.
Lemma validated_measurement_distribution_witness :
  sum_by logging_probability_ppm demo_candidates = 1000000.
Proof.
  refine (proj1 (validated_measurement_distribution demo_measurement _ _)).
  - repeat constructor; vm_compute; discriminate.
  - vm_compute. reflexivity.
Defined.
Lemma deterministic_without_experiment_witness :
  0 < logging_probability_ppm (demo_candidate "strong" 1000000) ↔
  is_action demo_measurement (demo_candidate "strong" 1000000) = true.
Proof.
  refine (proj1 (deterministic_without_experiment demo_measurement (demo_candidate "strong" 1000000) _ _ _)).
  - repeat constructor; vm_compute; discriminate.
  - vm_compute. reflexivity.
  - apply list_elem_of_In. cbn. auto.
Defined.
Lemma route_decision_measurement_total_witness :
  ∃ m, route_decision_measurement "strong" "m" None demo_candidates = Ok m ∧
    candidates m ≡ₚ demo_candidates ∧ logging_action_probability_ppm m = 1000000 ∧
    validate_route_measurement m = Ok tt.
Proof.
  refine (route_decision_measurement_total "strong" "m" None demo_candidates
    (demo_candidate "strong" 1000000) "" _ _ _ _ _ _ _ _ _).
  - repeat constructor; vm_compute; discriminate.
  - vm_compute. reflexivity.
  - vm_compute. reflexivity.
  - cbn. lia.
  - apply (bool_decide_unpack _). vm_compute. reflexivity.
  - vm_compute. reflexivity.
  - vm_compute. reflexivity.
  - cbn. lia.
  - vm_compute. reflexivity.
Defined.

(** ** Trajectories *)

Definition demo_start : TrajectoryEvent := {|
  TrajectoryTypes.schema_version := 1; event_id := "e1"; owner_user_id := "owner"; episode_id := "ep";
  request_id := Some "r1"; sequence := 1; event_kind := RequestStarted;
  evidence := {|
    structural := {["request.canonical_input_bytes" := 10]};
    categorical := <["history.completeness" := "complete"]> {["correlation.source" := "explicit_root"]};
    digests := ∅; route_measurement := None; routing_evidence := [] |};
  captured_at := "2026-01-01T00:00:00Z"; content_digest := demo_digest |}.
Lemma accepted_event_is_content_free_witness : bounded_evidence (evidence demo_start).
Proof. apply accepted_event_is_content_free. vm_compute. reflexivity. Defined.
Lemma content_digest_unique_witness : demo_digest = content_digest demo_start.
Proof. apply (content_digest_unique demo_start demo_digest); vm_compute; reflexivity. Defined.

Definition demo_policy : ProgressGuardPolicy := {|
  escalation_tier := "strong"; protected_tiers := {["strong"]};
  max_consecutive_unprotected := Some 1; max_same_projection_unprotected := None;
  max_recovery_count := None; max_episode_requests := None; max_episode_elapsed_ms := None;
  max_episode_cost_micro_usd := None; hold_for_requests := 3; incomplete_history := Observe |}.
Definition demo_input : GuardedRouteInput := {|
  route_event_id := "e2"; guard_event_id := "e3"; policy_name := "p"; route_projection := "k";
  request_key := "k"; baseline_tier := None; baseline_effort := None; tier_efforts := ∅;
  preset := None; projection := demo_projection; gi_candidate_tier := Some "cheap";
  gi_policy_digest := demo_digest; gi_experiment := None; gi_route_measurement := None;
  policy := demo_policy; carries_tools := true; tool_use_tier := Some "strong";
  tool_safe_tiers := {["strong"]} |}.
Definition demo_build : result string GuardedRouteBatch :=
  build_guarded_route_batch [] demo_start Complete demo_input.
Lemma demo_batch_exists : {b | demo_build = Ok b}.
Proof.
  assert (is_ok demo_build = true) as H by (vm_compute; reflexivity).
  exists (get_ok _ H). apply get_ok_eq.
Qed.
Definition demo_batch : GuardedRouteBatch := proj1_sig demo_batch_exists.
Lemma demo_batch_built : build_guarded_route_batch [] demo_start Complete demo_input = Ok demo_batch.
Proof. exact (proj2_sig demo_batch_exists). Qed.
(** A property of the batch, by evaluation. *)
Lemma demo_batch_eval (P : GuardedRouteBatch → bool) :
  match demo_build with Ok b => P b | Err _ => false end = true → P demo_batch = true.
Proof. pose proof demo_batch_built as Hb. fold demo_build in Hb. by rewrite Hb. Qed.

Lemma written_intent_roundtrip_witness :
  validate_persisted_route_intent (route_event demo_batch) =
    Ok (Some (map (λ c, (clause_id c, disposition c)) (clauses (result_intent (batch_result demo_batch))))).
Proof. apply (written_intent_roundtrip [] demo_start Complete demo_input demo_batch demo_batch_built). Defined.
Lemma routed_tier_respects_floors_witness :
  existsb is_applied (clauses (result_intent (batch_result demo_batch))) = true ∧
  is_protected demo_policy (selected_tier (result_intent (batch_result demo_batch))) = true.
Proof.
  assert (existsb is_applied (clauses (result_intent (batch_result demo_batch))) = true) as Happ.
  { apply (demo_batch_eval (λ b, existsb is_applied (clauses (result_intent (batch_result b))))).
    vm_compute. reflexivity. }
  split; [exact Happ|].
  exact (proj1 (routed_tier_respects_floors [] demo_start Complete demo_input demo_batch demo_batch_built) Happ).
Defined.

Definition route_validates (b : GuardedRouteBatch) : bool := is_ok (validate_event (route_event b)).
Definition guard_validates (b : GuardedRouteBatch) : bool :=
  match guard_event b with Some g => is_ok (validate_event g) | None => false end.
Lemma is_ok_unit {E} (r : result E ()) : is_ok r = true → r = Ok tt.
Proof. by destruct r as [[]|]. Qed.
Lemma demo_route_valid : validate_event (route_event demo_batch) = Ok tt.
Proof.
  assert (route_validates demo_batch = true) as H by (apply demo_batch_eval; vm_compute; reflexivity).
  exact (is_ok_unit _ H).
Qed.
Lemma demo_guard_valid g : guard_event demo_batch = Some g → validate_event g = Ok tt.
Proof.
  assert (guard_validates demo_batch = true) as H by (apply demo_batch_eval; vm_compute; reflexivity).
  unfold guard_validates in H. intros Hg. rewrite Hg in H. exact (is_ok_unit _ H).
Qed.
Lemma appended_batch_reduces_witness :
  ∃ s, reduce (batch_history [] demo_start demo_batch) {["strong"]} = Ok s ∧
    active_hold_remaining s =
      (if guard_activated (batch_result demo_batch) then 3
       else active_hold_remaining (snapshot (batch_result demo_batch))).
Proof.
  refine (@appended_batch_reduces _ demo_json_total [] demo_start Complete demo_input demo_batch
    demo_batch_built eq_refl _ demo_route_valid demo_guard_valid).
  vm_compute. reflexivity.
Defined.

(** *** The reducer, on the history of the batch *)

Definition demo_tiers : gset string := {["strong"]}.
Definition demo_guard : TrajectoryEvent := default demo_start (guard_event demo_batch).
Definition batch_has_guard (b : GuardedRouteBatch) : bool :=
  match guard_event b with Some g => is_kind GuardActivated g | None => false end.
Lemma demo_guard_kind : guard_event demo_batch = Some demo_guard ∧ event_kind demo_guard = GuardActivated.
Proof.
  assert (batch_has_guard demo_batch = true) as H by (apply demo_batch_eval; vm_compute; reflexivity).
  unfold batch_has_guard, demo_guard in *. destruct (guard_event demo_batch) as [g|]; [|discriminate H].
  split; [reflexivity|]. exact (bool_decide_eq_true_1 _ H).
Qed.
Definition batch_reduces (b : GuardedRouteBatch) : bool :=
  is_ok (reduce (batch_history [] demo_start b) demo_tiers).
Lemma demo_reduces : batch_reduces demo_batch = true.
Proof. apply demo_batch_eval. vm_compute. reflexivity. Qed.
Definition demo_history : list TrajectoryEvent := [demo_start; route_event demo_batch; demo_guard].
Lemma demo_history_eq : batch_history [] demo_start demo_batch = demo_history.
Proof. unfold batch_history, demo_history. by rewrite (proj1 demo_guard_kind). Qed.
Lemma demo_history_reduces : ∃ s, reduce demo_history demo_tiers = Ok s.
Proof. rewrite <-demo_history_eq. eexists. exact (get_ok_eq _ demo_reduces). Qed.
Definition batch_triggers (b : GuardedRouteBatch) : bool :=
  match validate_persisted_route_intent (route_event b) with
  | Ok (Some cs) => existsb is_persisted_trigger cs && is_kind RouteIntentRecorded (route_event b)
  | _ => false
  end.
Lemma demo_triggers :
  event_kind (route_event demo_batch) = RouteIntentRecorded ∧
  ∃ cs, validate_persisted_route_intent (route_event demo_batch) = Ok (Some cs) ∧
    existsb is_persisted_trigger cs = true.
Proof.
  assert (batch_triggers demo_batch = true) as H by (apply demo_batch_eval; vm_compute; reflexivity).
  unfold batch_triggers in H. destruct (validate_persisted_route_intent _) as [[cs|]|]; try discriminate H.
  apply andb_true_iff in H as [Ht Hk]. split; [exact (bool_decide_eq_true_1 _ Hk)|]. by exists cs.
Qed.

Lemma request_lifecycle_witness : ∃ phase, phase_trace phase (trace "r1" demo_history).
Proof. destruct demo_history_reduces as [s Hs]. exact (request_lifecycle demo_history demo_tiers s "r1" Hs). Defined.
Lemma snapshot_counts_witness :
  ∃ s, reduce demo_history demo_tiers = Ok s ∧
    request_count (health s) = countb (is_kind RequestStarted) demo_history.
Proof.
  destruct demo_history_reduces as [s Hs]. exists s. split; [exact Hs|].
  exact (proj1 (snapshot_counts demo_history demo_tiers s Hs)).
Defined.
Definition guard_typed (b : GuardedRouteBatch) : bool :=
  match guard_event b with
  | Some g => forallb (λ kv, (0 <=? kv.2) && (kv.2 <=? u64_max)) (map_to_list (structural (evidence g)))
  | None => false
  end.
Lemma demo_guard_typed : typed_evidence (evidence demo_guard).
Proof.
  assert (guard_typed demo_batch = true) as H by (apply demo_batch_eval; vm_compute; reflexivity).
  unfold guard_typed in H. rewrite (proj1 demo_guard_kind), List.forallb_forall in H.
  intros k v Hv. apply elem_of_map_to_list, list_elem_of_In, H in Hv.
  apply andb_true_iff in Hv as [? ?]. unfold in_u64. cbn in *. lia.
Qed.
Lemma hold_counts_down_witness :
  ∃ hold s, structural (evidence demo_guard) !! "guard.hold_for_requests" = Some hold ∧
    active_hold_remaining s = Z.max 0 (hold - countb (is_kind RequestStarted) []).
Proof.
  destruct demo_history_reduces as [s Hs].
  destruct (hold_counts_down [demo_start; route_event demo_batch] demo_guard [] demo_tiers s Hs
    (proj2 demo_guard_kind) demo_guard_typed (Forall_nil_2 _)) as (hold & H1 & _ & _ & H2).
  exact (ex_intro _ hold (ex_intro _ s (conj H1 H2))).
Defined.
Lemma guarded_intent_is_auditable_witness :
  ∃ s0, reduce [demo_start] demo_tiers = Ok s0 ∧
    digests (evidence (route_event demo_batch)) !! "route.health_snapshot" = Some (evidence_digest s0).
Proof.
  destruct demo_history_reduces as [s Hs]. destruct demo_triggers as (Hk & cs & Hcs & _).
  exact (guarded_intent_is_auditable [demo_start] (route_event demo_batch) [demo_guard] demo_tiers s cs Hs Hk Hcs).
Defined.
Lemma trigger_is_activated_witness :
  ∃ g post, [demo_guard] = g :: post ∧ event_kind g = GuardActivated.
Proof.
  destruct demo_history_reduces as [s Hs]. destruct demo_triggers as (Hk & cs & Hcs & Ht).
  destruct (trigger_is_activated [demo_start] (route_event demo_batch) [demo_guard] demo_tiers s cs Hs Hk Hcs Ht)
    as (g & post & H1 & H2 & _).
  exact (ex_intro _ g (ex_intro _ post (conj H1 H2))).
Defined.

(** ** The progress guard *)

Definition demo_health : TrajectoryHealth := {|
  completeness := Complete; request_count := 2; settled_request_count := 1;
  unsettled_request_count := 1; elapsed_ms := 5; latest_projection := Some "agent_trace/v2|edit|normal";
  same_projection_streak := 1; same_selected_tier_streak := 1; consecutive_unprotected_requests := 1;
  recovery_count := 0; requests_since_recovery := None; context_growth_ppm := None;
  total_tokens := None; settled_cost_micro_usd := None |}.
Definition demo_snapshot (hold : Z) : TrajectorySnapshot := {|
  snapshot_episode_id := "ep"; through_sequence := 5; health := demo_health;
  active_hold_remaining := hold; evidence_digest := demo_digest |}.
Definition demo_guard_input (hold : Z) : ProgressGuardInput := {|
  prior_snapshot := Some (demo_snapshot hold); pre_intent_snapshot := demo_snapshot hold;
  correlation_completeness := Complete; current_projection := demo_projection;
  candidate_tier := Some "cheap"; policy_digest := demo_digest |}.
Lemma demo_evaluation hold : is_ok (evaluate demo_policy (demo_guard_input hold)) = true.
Proof. unfold evaluate. cbn. destruct (0 <? hold); vm_compute; reflexivity. Qed.
Definition demo_guard_evaluation (hold : Z) : GuardEvaluation := get_ok _ (demo_evaluation hold).
Lemma demo_evaluated hold :
  evaluate demo_policy (demo_guard_input hold) = Ok (demo_guard_evaluation hold).
Proof. apply get_ok_eq. Qed.

Lemma evaluate_total_witness : ∃ g, evaluate demo_policy (demo_guard_input 0) = Ok g.
Proof.
  apply (evaluate_total demo_policy (demo_guard_input 0)).
  - vm_compute. reflexivity.
  - intros h Hh. injection Hh as <-. unfold counters_below_max, u64_max. cbn. lia.
Defined.
Lemma guard_selects_protected_witness :
  let g := demo_guard_evaluation 0 in
  if existsb is_applied (clauses (intent g))
  then is_protected demo_policy (selected_tier (intent g)) = true ∧
       (candidate_is_protected demo_policy (demo_guard_input 0) = true →
        selected_tier (intent g) = candidate_tier (demo_guard_input 0))
  else selected_tier (intent g) = candidate_tier (demo_guard_input 0).
Proof. exact (guard_selects_protected demo_policy (demo_guard_input 0) _ (demo_evaluated 0)). Defined.
Lemma activation_iff_trigger_witness :
  activated (demo_guard_evaluation 0) = true ↔
  hold_active (demo_guard_input 0) = false ∧ triggers demo_policy (demo_guard_input 0).
Proof. exact (activation_iff_trigger demo_policy (demo_guard_input 0) _ (demo_evaluated 0)). Defined.
Lemma active_hold_suppresses_witness :
  let g := demo_guard_evaluation 2 in
  map clause_id (List.filter is_applied (clauses (intent g))) = ["progress_guard.active_hold"] ∧
  activated g = false ∧ is_protected demo_policy (selected_tier (intent g)) = true.
Proof.
  exact (active_hold_suppresses demo_policy (demo_guard_input 2) _ (demo_evaluated 2) eq_refl).
Defined.

(** ** URLs *)

Lemma blocked_v4_iff_witness :
  is_blocked_ip (V4 [169; 254; 169; 254]) = true ↔
  ∃ block, block ∈ v4_blocked ∧ in_block 32 block (v4_value [169; 254; 169; 254]).
Proof. apply (blocked_v4_iff 169 254 169 254); lia. Defined.
Lemma blocked_v6_iff_witness :
  is_blocked_ip (V6 [64768; 0; 0; 0; 0; 0; 0; 1]) = true ↔
  [64768; 0; 0; 0; 0; 0; 0; 1] = [0; 0; 0; 0; 0; 0; 0; 0] ∨ 65280 ≤ 64768 ≤ 65535 ∨
  64512 ≤ 64768 ≤ 65023 ∨ 65152 ≤ 64768 ≤ 65215 ∨ (64768 = 8193 ∧ 0 = 3512).
Proof. apply (blocked_v6_iff 64768 0 [0; 0; 0; 0; 0; 1]). lia. Defined.
Definition demo_parse_url (raw : string) : result string Url :=
  Ok {| scheme := "https"; host_str := Some "[::ffff:a9fe:a9fe]" |}.
Lemma mapped_v4_is_accepted_witness :
  validate_upstream_url demo_parse_url "https://[::ffff:169.254.169.254]/" = Ok tt.
Proof.
  exact (proj2 (proj2 (mapped_v4_is_accepted demo_parse_url "https://[::ffff:169.254.169.254]/"
    43518 43518 eq_refl))).
Defined.

(** ** Server-sent events *)

Definition demo_lines : list (list ascii) := map bytes ["event: a"; "id: 7"; "data: x"; "data: y"; ""].
Definition demo_bytes : list ascii := encode_lines [CR; LF] demo_lines.
Lemma demo_run_ok : is_ok (run (SseDecoder_new 1000) demo_bytes) = true.
Proof. vm_compute. reflexivity. Qed.
Definition demo_run : SseDecoder * list SseEvent := get_ok _ demo_run_ok.
Lemma decoder_is_bounded_witness :
  Z.of_nat (length (line demo_run.1)) + len (data demo_run.1) + len (event demo_run.1)
    ≤ size demo_run.1 ≤ 1000 ∧ Forall (event_within 1000) demo_run.2.
Proof.
  apply (decoder_is_bounded 1000 demo_bytes demo_run.1 demo_run.2).
  - unfold u64_max. lia.
  - rewrite <-surjective_pairing. apply get_ok_eq.
Defined.
Definition plainb (l : list ascii) : bool :=
  negb (bool_decide (CR ∈ l)) && negb (bool_decide (LF ∈ l)).
Lemma plainb_plain l : plainb l = true → plain l.
Proof. intros [?%negb_true_iff%bool_decide_eq_false ?%negb_true_iff%bool_decide_eq_false]%andb_true_iff. by split. Qed.
Lemma decoder_refines_lines_witness :
  snd <$> run (SseDecoder_new 1000) demo_bytes = lines_events FrameState_init demo_lines.
Proof.
  apply (decoder_refines_lines 1000 [CR; LF] demo_lines).
  - constructor.
  - repeat (apply Forall_cons; split; [apply plainb_plain; vm_compute; reflexivity|]). constructor.
  - unfold u64_max. lia.
  - vm_compute. discriminate.
Defined.
Lemma sse_roundtrip_witness :
  snd <$> run (SseDecoder_new 1000) demo_bytes =
    Ok [{| ev_event := "a"; ev_id := "7"; ev_data := join (String LF "") ["x"; "y"] |}].
Proof.
  apply (sse_roundtrip 1000 [CR; LF] "a" "7" "x" ["y"]).
  - constructor.
  - unfold u64_max. lia.
  - repeat (apply Forall_cons; split; [split; [apply plainb_plain|]; vm_compute; reflexivity|]). constructor.
  - discriminate.
  - vm_compute. reflexivity.
  - vm_compute. discriminate.
Defined.
